(* ===== verification/_CoqProject ===== *)
-Q . S2P
Prelude.v
RadixKey.v
EvictPolicy.v
RadixCache.v
RadixInv.v
RadixOps.v
RadixInsert.v
RadixLock.v
RadixEvict.v
RadixSpec.v
RadixTotal.v
RadixTheorems.v
TokenAllocator.v
PagedKernels.v
PagedAllocator.v
PrefillBudget.v
PySort.v
PrefillAdder.v
PrefillTheorems.v
PrefillCases.v
PrefillDelayer.v
DfsWeight.v
SchedulePolicy.v
PolicyTheorems.v
RadixTreeCache.v
PolicyCases.v
RadixClient.v
KvRow.v
KvTheorems.v
KvRelease.v
KvSystem.v
KvAlloc.v
KvPlace.v
SwaAllocator.v
SwaInv.v
SwaKernel.v
SwaPair.v
SwaAlloc.v
SwaTail.v
SwaTheorems.v
SwaRow.v
KvExtend.v
KvDecode.v
InvariantChecker.v
KvChecks.v
KvLife.v
Cleanup.v
KvCases.v
KvRetract.v
RetractTheorems.v
RetractCases.v
Text.v
Finish.v
FinishTheorems.v
FinishCases.v
Params.v
ParamsTheorems.v
Intake.v
IntakeTheorems.v
IntakeCases.v
Detokenizer.v
DetokTheorems.v
DetokBatch.v
WeightVersions.v
Streamer.v
StreamerTheorems.v
StreamerBatch.v
StreamText.v
StreamerCases.v
Reasoning.v
ReasoningTheorems.v
Receiver.v
ReceiverTheorems.v
LoadSnapshot.v
LoadShm.v
DpController.v
DpTheorems.v
LoadTheorems.v
LoadPublish.v
LoadCases.v
