(* ===== verification/Prelude.v ===== *)
(** * Verification of the serving runtime: memory, requests, text and routing

    ** The program

    The runtime under [src/python/sglang/srt] serves requests in batches.  Every
    token of a running request needs a slot of the KV pool.  This development is
    about who holds which slot and in which order requests get them, and about the
    way of a request around that: how it reaches a scheduler, is accepted, stops, and
    how its output gets back to the client as text.

    Memory:

    - the radix tree ([mem_cache/radix_cache.py]) remembers the slots of prefixes
      computed before; requests lock the path they reuse, eviction frees what is
      unlocked, in the order of a policy ([mem_cache/evict_policy.py]);
    - the allocators ([mem_cache/allocator/base.py], [token.py], [paged.py],
      [mamba.py], [swa.py]) hand out slots or pages and take them back, with the
      placement kernels of [kernels/ops/memory/allocator.py] and, on HIP devices,
      [kernels/aot/csrc/kvcacheio/transfer.cu];
    - [mem_cache/common.py], [allocation.py] and [Req] of [schedule_batch.py] bind
      requests to rows of slots, extend rows, hand computed slots to the tree and
      release them, also when a request is aborted half-way ([cleanup.py]);
    - [schedule_policy.py], [prefill_budget.py] and [prefill_delayer.py] choose
      which waiting requests are prefilled; [retract_decode] and
      [update_running_batch] take running requests back when slots run out;
    - [scheduler_components/invariant_checker.py] checks at run time that no slot
      is lost.

    Requests and text:

    - [data_parallel_controller.py] sends a request to the scheduler of one rank, by
      round robin or by the loads the schedulers publish ([load_inquirer.py],
      [load_snapshot.py], [load_publisher.py]);
    - [request_receiver.py], [scheduler_input_blocker.py] and [recv_skipper.py] take
      messages and give every rank of a group the same;
    - [sampling_params.py] and the length checks of the tokenizer manager and the
      scheduler accept a request or refuse it; [update_finish_state] decides when it
      is done;
    - [output_streamer.py] sends what is new of its tokens, [detokenizer_manager.py]
      turns them into text, [reasoning_parser.py] splits reasoning from the answer,
      [weight_versions.py] says which weights made which token.

    ** Files

    Shared: Prelude.v (exceptions, the [result] monad, slices, page arithmetic,
    sums), PySort.v (stable sorting), Text.v (strings as code points, occurrences).

    The prefix tree.  RadixKey.v: [RadixKey].  EvictPolicy.v: the strategies and
    the [heapq] interface [HeapQ].  RadixCache.v: nodes in a store indexed by
    object identity, every operation of [RadixCache].  RadixInv.v (the invariant),
    RadixOps.v, RadixInsert.v, RadixLock.v, RadixEvict.v (each operation keeps it),
    RadixSpec.v (the abstract map from keys to slots), RadixTotal.v (the size
    traversal), RadixTheorems.v (refinement, locks, eviction), RadixClient.v (what
    callers rely on).

    The allocators.  TokenAllocator.v: the class [PagePool] of what every allocator
    promises, Modules [Token] and [Mamba].  PagedKernels.v: the vectorised
    placement, the Triton kernels and the HIP kernels.  PagedAllocator.v: [PagedTokenToKVPoolAllocator].
    SwaAllocator.v: the two pools of a sliding-window model with the mapping between
    them; SwaInv.v (the invariant), SwaKernel.v, SwaPair.v, SwaAlloc.v, SwaTail.v
    (its operations), SwaTheorems.v (the pools stay in step) and SwaRow.v (the row of
    a request whose window moves on).

    Choosing requests.  PrefillBudget.v, PrefillAdder.v, PrefillTheorems.v,
    PrefillCases.v, PrefillDelayer.v; SchedulePolicy.v, PolicyTheorems.v,
    PolicyCases.v, DfsWeight.v, RadixTreeCache.v (the tree discharges the laws the
    policies assume of a prefix cache).

    Requests and their slots.  KvRow.v (the request record, [ReqToTokenPool],
    checkpoint and release), KvTheorems.v, KvRelease.v, KvSystem.v (every page has
    one owner), KvAlloc.v (class [SlotPool], [alloc_for_extend],
    [alloc_for_decode]), KvPlace.v, KvExtend.v, KvDecode.v (their exact effect),
    InvariantChecker.v and KvChecks.v (the run-time checks), KvLife.v (the
    scheduler as a transition relation), Cleanup.v (resumable release), KvCases.v
    (a run, and the witnesses), KvRetract.v, RetractTheorems.v, RetractCases.v
    (retraction).

    A request from its parameters to its text.  Params.v and ParamsTheorems.v
    ([SamplingParams]); Intake.v, IntakeTheorems.v, IntakeCases.v (the length checks
    and what is queued); Finish.v, FinishTheorems.v, FinishCases.v (when a request is
    done); WeightVersions.v; Streamer.v, StreamerTheorems.v, StreamerBatch.v (what
    is sent of it); Detokenizer.v, DetokTheorems.v, DetokBatch.v (text of the
    tokens); StreamText.v and StreamerCases.v (streamer and detokenizer together);
    Reasoning.v and ReasoningTheorems.v (the reasoning parser).

    Ranks.  Receiver.v and ReceiverTheorems.v (taking messages on all ranks);
    DpController.v and DpTheorems.v (routing); LoadSnapshot.v (the file of loads,
    byte by byte), LoadShm.v (what such a file stands for), LoadTheorems.v (what
    readers see), LoadPublish.v (measuring and sending loads), LoadCases.v (a
    deployment, with a codec).

    ** How the code is modelled

    A Python call is a function that returns [Ok] or [Raise]; assignments to
    objects become new records, and where two names refer to one object the model
    has a store (tree nodes by identity, rows by index, requests of a batch by
    position).  Tensors of slots are lists of integers, dicts are [gmap]s, floats
    are rationals, clocks are streams of values.  Code outside the repository
    ([heapq], the placement kernel of the lightop package, the tokenizer, regular
    expressions, the codec of snapshots) is an argument with the laws its documentation gives.  Orders
    the language leaves open (iteration over a set of leaves) are arguments
    constrained to be some order.  Code that runs on all ranks in step is a function
    of the values of all ranks, a collective call included; stores of a process that
    can be killed are a list of which a beginning is run.  The paths modelled are
    those of a plain pool: one full-attention KV pool (with a window pool beside it in
    the Swa files), no speculation, no disaggregation, no host tier; branches for
    other configurations are named where they are left out.

    ** What is proved

    - Tree: the invariant holds in every reachable state; match returns the
      longest cached prefix, insert adds exactly the key, eviction frees enough
      and nothing locked, locked paths never change.
    - Allocators: slots and pages are conserved, extend and decode place exactly
      the pages of the reference definition, the kernels agree with it.  With a
      window pool both pools and the mapping stay in step, refused calls counted, a
      row keeps the slots of its window, and what leaves the window is released once.
    - Rows: an allocation for a batch gives each request exactly its slots or fails
      only for lack of them; checkpoint and release move each page to its one
      owner; an abort never frees twice and ends like a plain release.
    - System: in every state the scheduler can reach each page has one owner, no
      row refers to a free page, the run-time leak checks pass, and all requests
      with a row can be drained with nothing leaked.
    - Scheduling: retraction ends, makes room and loses nobody; admission respects
      its budgets; policies only reorder; delays are bounded and agreed on.
    - Intake: parameters that are accepted are in range and complete, no stop pattern
      is missed by the part of the output that is searched as long as that part reads
      (no fewer characters than tokens, no character cut), and a request that is
      queued and leaves a page free is admitted when a plain server is idle and the
      prefill delayer does not hold it back.
    - Finishing: the recorded end of a request lies within the tokens of the step
      that found it and within the length limit.
    - Text: every token is sent once and in order, a batch is its requests one by
      one, and the text a client receives is its output through the stop decoded at
      once, for byte-level tokenizers and runs in which the sent position does not go
      back; reasoning split in pieces is reasoning split at once, for outputs whose
      opening mark comes first or not at all.
    - Ranks: every rank of a group receives the same in the same order, a guarded
      batch starts on all groups in one round; round robin is fair, only sends to
      ranks that serve and refuses only when none does; routing by load sends each
      request to a rank of least load; readers of the file of loads see the last
      snapshot of each rank if it was written whole and nothing of one whose writer
      was killed in it, and the controller routes by those.

    Where the code does not do what it says, an example or theorem shows it; the list
    of findings in PROJECT.json names them.

    ** Bounds and fuel

    Loops that climb parents or descend the tree run with fuel [S] of the number of
    nodes or of the key length; the invariant shows every round goes to another
    node or consumes a unit, so they do not run out (RadixInv.v, RadixTotal.v).
    Eviction has fuel for every node to be popped and pushed once.  Galloping and
    binary search halve an interval and have fuel for its length; the depth-first
    loops have [2 * tsize + 1], each node being pushed twice.  Searches in a text have
    fuel for its length, and round robin for one try per active rank, as in the code.
    In every case a theorem states the result, not only what holds if there is one.

    ** Not modelled

    Device tensors, kernels and model execution; sockets, processes and threads;
    the event loops that order the steps (any order is allowed instead); the
    unified radix cache and its Rust core, the host and storage tiers,
    speculative decoding, disaggregation, beam search, LoRA and multimodal state:
    each has rules of its own for slots on top of the ones here.  Of the text path,
    tool-call parsers, chat templates and the reasoning detectors that override the
    base one; of routing, launching processes and elastic growth of the loads.
    PROJECT.json lists every part with its reason.

    ** This file

    Python values that several components use: exceptions and the result
    monad, slices of lists (Python's clamping and negative indices), floor
    division, page alignment, and finite sums over maps.  Also the tactics and
    the hint database the other files use. *)
From stdpp Require Export base decidable list gmap strings numbers sorting.
From Stdlib Require Export ZArith Lia.

#[global] Set Default Goal Selector "!".
#[global] Set Warnings "-clear-no-such-hyp".
Open Scope Z_scope.

(** ** Exceptions and results *)

(** The Python exception classes the modelled code raises. *)
Inductive exn :=
  | AssertionError
  | IndexError
  | KeyError
  | ValueError
  | RuntimeError
  | TypeError
  | AttributeError
  | NotImplementedError
  | CleanupOutcomeUnknown
  | RetryableCleanupError
  | ReError
  | StructError
  | HTTPException.

#[export] Instance exn_eq_dec : EqDecision exn.
Proof. solve_decision. Defined.

(** A call either returns a value or raises. *)
Inductive result (A : Type) :=
  | Ok (a : A)
  | Raise (e : exn).
Arguments Ok {A} a.
Arguments Raise {A} e.

Definition rbind {A B} (m : result A) (k : A → result B) : result B :=
  match m with Ok a => k a | Raise e => Raise e end.

Definition assert_ (b : bool) : result unit :=
  if b then Ok tt else Raise AssertionError.

Declare Scope py_scope.
Delimit Scope py_scope with py.
Notation "'let!' x := m 'in' k" := (rbind m (λ x, k))
  (at level 10, x pattern, m at level 100, k at level 200) : py_scope.
Notation "'assert!' b 'in' k" := (rbind (assert_ b) (λ _, k))
  (at level 10, b at level 100, k at level 200) : py_scope.
Open Scope py_scope.

Lemma rbind_Ok {A B} (m : result A) (k : A → result B) b :
  rbind m k = Ok b ↔ ∃ a, m = Ok a ∧ k a = Ok b.
Proof.
  split; [|by intros (a & -> & Hk)]. destruct m as [a|e]; simpl; [by exists a|done].
Qed.

Lemma bool_if_same {A} (b : bool) (x : A) : (if b then x else x) = x.
Proof. by destruct b. Qed.

Definition is_Ok {A} (m : result A) : bool :=
  match m with Ok _ => true | Raise _ => false end.

(** ** Strings *)

(** [str.lower] on ASCII letters. *)
Definition ascii_lower (a : Ascii.ascii) : Ascii.ascii :=
  let n := Ascii.nat_of_ascii a in
  if (65 <=? n)%nat && (n <=? 90)%nat then Ascii.ascii_of_nat (n + 32) else a.

Fixpoint py_lower (s : string) : string :=
  match s with
  | EmptyString => EmptyString
  | String a s => String (ascii_lower a) (py_lower s)
  end.

(** ** Integers *)

(** [utils/common.py: ceil_div, ceil_align] with Python's floor division. *)
Definition ceil_div (x y : Z) : Z := (x + y - 1) / y.
Definition ceil_align (x y : Z) : Z := ceil_div x y * y.

(** [length // page_size * page_size]. *)
Definition page_align_floor (length page_size : Z) : Z :=
  (length / page_size) * page_size.

Create HintDb pydb.

Section align.
Context (p : Z) (Hp : 0 < p).

Lemma page_align_floor_le x : page_align_floor x p ≤ x.
Proof. unfold page_align_floor. pose proof (Z.mul_div_le x p). lia. Qed.

Lemma page_align_floor_gt x : x < page_align_floor x p + p.
Proof.
  unfold page_align_floor. pose proof (Z.mul_succ_div_gt x p Hp). lia.
Qed.

Lemma page_align_floor_nonneg x : 0 ≤ x → 0 ≤ page_align_floor x p.
Proof. intros. unfold page_align_floor. pose proof (Z.div_pos x p). nia. Qed.

Lemma page_align_floor_divide x : (p | page_align_floor x p).
Proof. exists (x / p). reflexivity. Qed.

Lemma page_align_floor_id x : (p | x) → page_align_floor x p = x.
Proof. intros [q ->]. unfold page_align_floor. by rewrite Z.div_mul by lia. Qed.

(** A multiple of the page below [x] is below its floor. *)
Lemma page_align_floor_max x y : (p | y) → y ≤ x → y ≤ page_align_floor x p.
Proof.
  intros [q ->] Hle. unfold page_align_floor.
  apply Z.mul_le_mono_nonneg_r; [lia|]. apply Z.div_le_lower_bound; lia.
Qed.

Lemma page_align_floor_mono x y : x ≤ y → page_align_floor x p ≤ page_align_floor y p.
Proof.
  intros. apply page_align_floor_max; [apply page_align_floor_divide|].
  etrans; [apply page_align_floor_le|done].
Qed.

Lemma ceil_div_spec x : (ceil_div x p - 1) * p < x ≤ ceil_div x p * p.
Proof.
  unfold ceil_div.
  pose proof (Z.mul_div_le (x + p - 1) p Hp).
  pose proof (Z.mul_succ_div_gt (x + p - 1) p Hp). nia.
Qed.

Lemma ceil_div_unique x q : (q - 1) * p < x ≤ q * p → ceil_div x p = q.
Proof. intros. pose proof (ceil_div_spec x). nia. Qed.

Lemma ceil_align_ge x : x ≤ ceil_align x p.
Proof. unfold ceil_align. pose proof (ceil_div_spec x). lia. Qed.

Lemma ceil_align_lt x : ceil_align x p < x + p.
Proof. unfold ceil_align. pose proof (ceil_div_spec x). lia. Qed.

Lemma ceil_align_divide x : (p | ceil_align x p).
Proof. exists (ceil_div x p). reflexivity. Qed.

Lemma ceil_align_id x : (p | x) → ceil_align x p = x.
Proof.
  intros [q ->]. unfold ceil_align. f_equal. apply ceil_div_unique. nia.
Qed.

Lemma ceil_align_min x y : (p | y) → x ≤ y → ceil_align x p ≤ y.
Proof.
  intros [q ->] Hle. unfold ceil_align. pose proof (ceil_div_spec x).
  apply Z.mul_le_mono_nonneg_r; [lia|].
  assert ((ceil_div x p - 1) * p < q * p) as Hlt by lia.
  apply Z.mul_lt_mono_pos_r in Hlt; lia.
Qed.

Lemma ceil_align_mono x y : x ≤ y → ceil_align x p ≤ ceil_align y p.
Proof.
  intros. apply ceil_align_min; [apply ceil_align_divide|].
  etrans; [done|apply ceil_align_ge].
Qed.

Lemma divide_mod0 x : (p | x) ↔ x mod p = 0.
Proof. symmetry. apply Z.mod_divide. lia. Qed.
End align.

#[export] Hint Resolve page_align_floor_divide ceil_align_divide : pydb.
#[export] Hint Resolve Z.divide_refl Z.divide_0_r Z.divide_add_r Z.divide_sub_r : pydb.

(** ** Python slices *)

Section slices.
Context {A : Type}.
Implicit Types l : list A.

(** Length of a list as a Python int. *)
Definition zlen l : Z := Z.of_nat (length l).

(** How [slice.indices] normalises one bound against a length. *)
Definition norm_idx (len i : Z) : Z :=
  if i <? 0 then Z.max 0 (i + len) else Z.min i len.

(** [l[i:j]]. *)
Definition pyslice l (i j : Z) : list A :=
  let a := norm_idx (zlen l) i in
  let b := norm_idx (zlen l) j in
  take (Z.to_nat (b - a)) (drop (Z.to_nat a) l).

(** [l[:j]] and [l[i:]]. *)
Definition pytake l (j : Z) : list A := pyslice l 0 j.
Definition pydrop l (i : Z) : list A := pyslice l i (zlen l).

Lemma zlen_nonneg l : 0 ≤ zlen l.
Proof. unfold zlen. lia. Qed.

Lemma zlen_app l1 l2 : zlen (l1 ++ l2) = zlen l1 + zlen l2.
Proof. unfold zlen. rewrite length_app. lia. Qed.

Lemma zlen_nil_inv l : zlen l = 0 → l = [].
Proof. unfold zlen. destruct l; simpl; [done|lia]. Qed.

Lemma pyslice_eq l i j : 0 ≤ i → i ≤ j → j ≤ zlen l →
  pyslice l i j = take (Z.to_nat (j - i)) (drop (Z.to_nat i) l).
Proof.
  intros. unfold pyslice, norm_idx.
  destruct (Z.ltb_spec i 0); [lia|]. destruct (Z.ltb_spec j 0); [lia|].
  rewrite !Z.min_l by lia. done.
Qed.

Lemma pytake_eq l j : 0 ≤ j → pytake l j = take (Z.to_nat j) l.
Proof.
  intros. unfold pytake, pyslice, norm_idx. simpl.
  destruct (Z.ltb_spec j 0); [lia|].
  pose proof (zlen_nonneg l). rewrite (Z.min_l 0) by lia. simpl. rewrite drop_0, Z.sub_0_r.
  destruct (decide (j ≤ zlen l)).
  - by rewrite Z.min_l.
  - rewrite Z.min_r by lia. unfold zlen. rewrite Nat2Z.id, !take_ge; [done|unfold zlen in *; lia|lia].
Qed.

Lemma pydrop_eq l i : 0 ≤ i → pydrop l i = drop (Z.to_nat i) l.
Proof.
  intros. unfold pydrop, pyslice, norm_idx.
  pose proof (zlen_nonneg l).
  destruct (Z.ltb_spec i 0); [lia|]. destruct (Z.ltb_spec (zlen l) 0); [lia|].
  rewrite (Z.min_l (zlen l)) by lia.
  destruct (decide (i ≤ zlen l)).
  - rewrite Z.min_l by lia. apply take_ge. rewrite length_drop. unfold zlen in *. lia.
  - rewrite Z.min_r by lia. rewrite !drop_ge; [by rewrite take_nil|unfold zlen in *; lia|unfold zlen in *; lia].
Qed.

(** [l[-n:]]. *)
Lemma pydrop_neg l n : 0 < n → pydrop l (- n) = drop (length l - Z.to_nat n) l.
Proof.
  intros. unfold pydrop, pyslice, norm_idx, zlen.
  destruct (Z.ltb_spec (- n) 0); [|lia]. destruct (Z.ltb_spec (Z.of_nat (length l)) 0); [lia|].
  rewrite take_ge by (rewrite length_drop; lia). f_equal. lia.
Qed.

Lemma zlen_pytake l j : 0 ≤ j → zlen (pytake l j) = Z.min j (zlen l).
Proof. intros. rewrite pytake_eq by done. unfold zlen. rewrite length_take. lia. Qed.

Lemma zlen_pydrop l i : 0 ≤ i → zlen (pydrop l i) = Z.max 0 (zlen l - i).
Proof. intros. rewrite pydrop_eq by done. unfold zlen. rewrite length_drop. lia. Qed.

Lemma pytake_pydrop l j : 0 ≤ j → pytake l j ++ pydrop l j = l.
Proof. intros. rewrite pytake_eq, pydrop_eq by done. apply take_drop. Qed.

Lemma pytake_all l j : zlen l ≤ j → pytake l j = l.
Proof.
  intros. pose proof (zlen_nonneg l). rewrite pytake_eq by lia.
  apply take_ge. unfold zlen in *. lia.
Qed.

Lemma pydrop_0 l : pydrop l 0 = l.
Proof. by rewrite pydrop_eq, drop_0. Qed.
End slices.

Lemma alter_to_insert {K} `{Countable K} {A} (f : A → A) (m : gmap K A) k x :
  m !! k = Some x → alter f k m = <[ k := f x ]> m.
Proof.
  intros Hk. apply map_eq. intros i. rewrite lookup_alter, lookup_insert.
  case_decide; [subst; by rewrite Hk|done].
Qed.

(** ** Finite sums over maps *)

Section msum.
Context {K : Type} `{Countable K} {A : Type}.

(** [sum(f(k, v) for k, v in m.items())]. *)
Definition msum (f : K → A → Z) (m : gmap K A) : Z :=
  map_fold (λ k x acc, f k x + acc) 0 m.

Lemma msum_empty f : msum f ∅ = 0.
Proof. apply map_fold_empty. Qed.

Lemma msum_insert f m k x :
  m !! k = None → msum f (<[k:=x]> m) = f k x + msum f m.
Proof.
  intros. unfold msum. apply (map_fold_insert_L (λ k x acc, f k x + acc)); [|done].
  intros. lia.
Qed.

Lemma msum_delete f m k x :
  m !! k = Some x → msum f m = f k x + msum f (delete k m).
Proof.
  intros Hk. rewrite <- (insert_delete_id m k x Hk) at 1.
  apply msum_insert, lookup_delete_eq.
Qed.

Lemma msum_update f m k x y :
  m !! k = Some x → msum f (<[k:=y]> m) = msum f m - f k x + f k y.
Proof.
  intros Hk. rewrite (msum_delete f m k x Hk), <- insert_delete_eq.
  rewrite msum_insert by apply lookup_delete_eq. lia.
Qed.

Lemma msum_ext f g m :
  (∀ k x, m !! k = Some x → f k x = g k x) → msum f m = msum g m.
Proof.
  induction m as [|k x m Hk IH] using map_ind; intros Hfg; [done|].
  rewrite !msum_insert by done. rewrite (Hfg k x) by apply lookup_insert_eq.
  rewrite IH; [done|]. intros k' x' Hk'. apply Hfg.
  rewrite lookup_insert_ne; [done|]. congruence.
Qed.

Lemma msum_nonneg f m :
  (∀ k x, m !! k = Some x → 0 ≤ f k x) → 0 ≤ msum f m.
Proof.
  induction m as [|k x m Hk IH] using map_ind; intros Hf; [by rewrite msum_empty|].
  rewrite msum_insert by done. pose proof (Hf k x (lookup_insert_eq _ _ _)).
  enough (0 ≤ msum f m) by lia. apply IH. intros k' x' Hk'. apply Hf.
  rewrite lookup_insert_ne; [done|]. congruence.
Qed.

Lemma msum_add f g m : msum (λ k x, f k x + g k x) m = msum f m + msum g m.
Proof.
  induction m as [|k x m Hk IH] using map_ind; [done|].
  rewrite !msum_insert by done. lia.
Qed.

Lemma msum_zero f m : (∀ k x, m !! k = Some x → f k x = 0) → msum f m = 0.
Proof.
  intros Hf. rewrite (msum_ext f (λ _ _, 0)) by done.
  induction m as [|k x m Hk IH] using map_ind; [done|].
  rewrite msum_insert by done. rewrite IH; [lia|]. intros k' x' Hk'. apply (Hf k' x').
  rewrite lookup_insert_ne; [done|]. congruence.
Qed.

Lemma msum_lookup_le f m k x :
  (∀ k x, m !! k = Some x → 0 ≤ f k x) → m !! k = Some x → f k x ≤ msum f m.
Proof.
  intros Hf Hk. rewrite (msum_delete f m k x Hk).
  enough (0 ≤ msum f (delete k m)) by lia. apply msum_nonneg.
  intros k' x' Hk'. apply Hf. by apply lookup_delete_Some in Hk' as [_ ?].
Qed.
End msum.

Lemma msum_fmap `{Countable K} {V W} (g : V → W) (f : K → W → Z) (m : gmap K V) : msum f (g <$> m) = msum (λ n x, f n (g x)) m.
Proof.
  induction m as [|k x m Hk IH] using map_ind; [by rewrite fmap_empty, !msum_empty|].
  rewrite fmap_insert, !msum_insert by (rewrite ?lookup_fmap, Hk; done). by rewrite IH.
Qed.

(** [sum(l)]. *)
Definition zsum (l : list Z) : Z := foldr Z.add 0 l.

Lemma zsum_app l1 l2 : zsum (l1 ++ l2) = zsum l1 + zsum l2.
Proof. induction l1 as [|x l1 IH]; simpl; [done|]. rewrite IH. lia. Qed.

Lemma zsum_perm l1 l2 : l1 ≡ₚ l2 → zsum l1 = zsum l2.
Proof. unfold zsum. induction 1; simpl in *; lia. Qed.

Lemma zsum_nonneg l : Forall (λ x, 0 ≤ x) l → 0 ≤ zsum l.
Proof. induction 1; simpl; lia. Qed.

(** ** Common list lemmas *)

Lemma NoDup_app_disj {A} (l1 l2 : list A) :
  NoDup (l1 ++ l2) → ∀ x, x ∈ l1 → x ∈ l2 → False.
Proof. intros [_ [Hd _]]%NoDup_app x H1 H2. by apply (Hd x). Qed.

Lemma take_prefix_of {A} (n : nat) (l : list A) : take n l `prefix_of` l.
Proof. exists (drop n l). by rewrite take_drop. Qed.

Lemma prefix_take_eq {A} (l1 l2 : list A) :
  l1 `prefix_of` l2 → take (length l1) l2 = l1.
Proof. intros [k ->]. by rewrite take_app_length. Qed.

Lemma prefix_total {A} (l1 l2 l : list A) :
  l1 `prefix_of` l → l2 `prefix_of` l → (length l1 ≤ length l2)%nat → l1 `prefix_of` l2.
Proof.
  intros H1 H2 Hle. rewrite <- (prefix_take_eq _ _ H1), <- (prefix_take_eq _ _ H2).
  exists (drop (length l1) (take (length l2) l)).
  rewrite <- (take_drop (length l1) (take (length l2) l)) at 1.
  by rewrite take_take, Nat.min_l.
Qed.

(** ** Tactics *)

(** Reflect boolean comparisons on [Z] found in the goal or the context. *)
Ltac zbool :=
  repeat match goal with
  | H : context [Z.ltb ?a ?b] |- _ => destruct (Z.ltb_spec a b)
  | H : context [Z.leb ?a ?b] |- _ => destruct (Z.leb_spec a b)
  | H : context [Z.eqb ?a ?b] |- _ => destruct (Z.eqb_spec a b)
  | |- context [Z.ltb ?a ?b] => destruct (Z.ltb_spec a b)
  | |- context [Z.leb ?a ?b] => destruct (Z.leb_spec a b)
  | |- context [Z.eqb ?a ?b] => destruct (Z.eqb_spec a b)
  end; simpl in *.

(** Peel the binds of a successful monadic computation. *)
Ltac run_ok H :=
  repeat (apply rbind_Ok in H; let x := fresh "x" in let Hx := fresh "Hx" in
          destruct H as (x & Hx & H)).
