(* ===== verification/RadixKey.v ===== *)
(** * Radix keys ([mem_cache/radix_cache.py: RadixKey])

    A key is a token array seen either token by token or as bigrams of
    neighbouring tokens, with an optional cap on the raw tokens and a namespace
    ([extra_key], [cache_salt]).  [units] is the reference view: the list of
    logical units the key stands for.  The file shows that the galloping search
    of [match_at] computes the longest common prefix of the units rounded down
    to a page, that slices of keys are slices of units, and that the dict key
    [child_key] identifies exactly the namespace and the first page of units. *)
From S2P Require Import Prelude.
#[local] Set Warnings "-register-all".

(** ** Data *)

Record RadixKey := mkKey {
  token_ids : list Z;
  extra_key : option string;
  cache_salt : option string;
  is_bigram : bool;
  limit : option Z
}.

(** [RadixKey.__init__]: an empty salt is no salt. *)
Definition RadixKey_init (toks : list Z) (extra : option string) (bigram : bool)
    (lim : option Z) (salt : option string) : RadixKey :=
  {| token_ids := toks;
     extra_key := extra;
     cache_salt := match salt with Some "" => None | s => s end;
     is_bigram := bigram;
     limit := lim |}.

(** A Python object usable as a dict key, as far as [child_key] builds them. *)
Inductive pyval :=
  | PNone
  | PInt (z : Z)
  | PStr (s : string)
  | PTuple (l : list pyval).

(** What iterating over a key yields: a token, or a pair of neighbours. *)
Inductive logical_unit :=
  | UTok (t : Z)
  | UPair (a b : Z).

#[export] Instance logical_unit_eq_dec : EqDecision logical_unit.
Proof. solve_decision. Defined.

(** ** Operations *)

Definition _raw_len (k : RadixKey) : Z :=
  let n := zlen (token_ids k) in
  match limit k with
  | Some l => if l <? n then l else n
  | None => n
  end.

Definition raw_token_ids (k : RadixKey) : list Z :=
  let n := _raw_len k in
  let t := token_ids k in
  if n =? zlen t then t else pytake t n.

(** [__len__]. *)
Definition klen (k : RadixKey) : Z :=
  let n := _raw_len k in
  if is_bigram k then (if 0 <? n then n - 1 else 0) else n.

(** [t[i]] at an index the caller keeps in range. *)
Definition tok (t : list Z) (i : Z) : Z := t !!! Z.to_nat i.

(** [__iter__], the yielded sequence. *)
Definition kiter (k : RadixKey) : list logical_unit :=
  let t := token_ids k in
  let n := _raw_len k in
  if is_bigram k then
    (λ i, UPair (tok t i) (tok t (i + 1))) <$> seqZ 0 (if 0 <? n then n - 1 else 0)
  else if n =? zlen t then UTok <$> t
  else (λ i, UTok (tok t i)) <$> seqZ 0 n.

(** The slice branch of [__getitem__] with the bounds already normalised. *)
Definition kslice (k : RadixKey) (start stop : Z) : RadixKey :=
  if is_bigram k then
    let raw := if start <? stop then pyslice (token_ids k) start (stop + 1) else [] in
    RadixKey_init raw (extra_key k) true None (cache_salt k)
  else
    RadixKey_init (pyslice (token_ids k) start stop) (extra_key k) false None (cache_salt k).

(** An index expression: an int, or a slice with optional parts. *)
Inductive pyindex :=
  | IInt (i : Z)
  | ISlice (start stop step : option Z).

(** [__getitem__]. *)
Definition getitem (k : RadixKey) (idx : pyindex) : result RadixKey :=
  let len := klen k in
  match idx with
  | IInt i =>
      let i := if i <? 0 then i + len else i in
      if (i <? 0) || (len <=? i) then Raise IndexError
      else Ok (kslice k (norm_idx len i) (norm_idx len (i + 1)))
  | ISlice start stop step =>
      if bool_decide (default 1 step = 1)
      then Ok (kslice k (norm_idx len (default 0 start)) (norm_idx len (default len stop)))
      else Raise ValueError
  end.

(** [self[:j]] and [self[i:]], the two slices the cache takes. *)
Definition ktake (k : RadixKey) (j : Z) : RadixKey :=
  kslice k (norm_idx (klen k) 0) (norm_idx (klen k) j).
Definition kdrop (k : RadixKey) (i : Z) : RadixKey :=
  kslice k (norm_idx (klen k) i) (norm_idx (klen k) (klen k)).

Definition page_aligned (k : RadixKey) (page_size : Z) : RadixKey :=
  if page_size =? 1 then k
  else ktake k (klen k / page_size * page_size).

(** [maybe_to_bigram_view]: flips the flag of the key it is called on, and cuts
    the value to the bigram count. *)
Definition maybe_to_bigram_view {V} (k : RadixKey) (is_eagle : bool)
    (value : option (list V)) : RadixKey * option (list V) :=
  if is_eagle && negb (is_bigram k) then
    let k' := {| token_ids := token_ids k; extra_key := extra_key k;
                 cache_salt := cache_salt k; is_bigram := true; limit := limit k |} in
    (k', (λ v, pytake v (klen k')) <$> value)
  else (k, value).

Definition _check_compatible (self other : RadixKey) : result unit :=
  if negb (bool_decide (extra_key self = extra_key other)) then Raise ValueError
  else if negb (bool_decide (cache_salt self = cache_salt other)) then Raise ValueError
  else Ok tt.

(** Whether [t0[lo:hi] == t1[offset+lo:offset+hi]]. *)
Definition window_eq (t0 t1 : list Z) (offset lo hi : Z) : bool :=
  bool_decide (pyslice t0 lo hi = pyslice t1 (offset + lo) (offset + hi)).

(** The inner binary search of [match_at]. *)
Fixpoint match_bsearch (fuel : nat) (t0 t1 : list Z) (offset lo hi : Z) : Z :=
  match fuel with
  | O => lo
  | S fuel =>
      if 1 <? hi - lo then
        let mid := (lo + hi) / 2 in
        if window_eq t0 t1 offset lo mid
        then match_bsearch fuel t0 t1 offset mid hi
        else match_bsearch fuel t0 t1 offset lo mid
      else lo
  end.

(** The outer doubling loop of [match_at]; the result is [matched_tokens]. *)
Fixpoint match_gallop (fuel : nat) (t0 t1 : list Z) (offset n lo step : Z) : Z :=
  match fuel with
  | O => n
  | S fuel =>
      if lo <? n then
        let hi := if lo + step <? n then lo + step else n in
        if negb (window_eq t0 t1 offset lo hi)
        then match_bsearch (Z.to_nat (hi - lo)) t0 t1 offset lo hi
        else match_gallop fuel t0 t1 offset n hi (step * 2)
      else n
  end.

Definition match_at (self other : RadixKey) (offset page_size : Z) : result Z :=
  let! _ := _check_compatible self other in
  if negb (Bool.eqb (is_bigram self) (is_bigram other)) then Raise ValueError
  else if (offset <? 0) || (klen other <? offset) then Raise IndexError
  else
    let t0 := token_ids self in
    let t1 := token_ids other in
    let n := Z.min (_raw_len self) (_raw_len other - offset) in
    let matched_tokens := match_gallop (S (Z.to_nat n)) t0 t1 offset n 0 1 in
    if is_bigram self then
      let matched := Z.max 0 (Z.min (Z.min (matched_tokens - 1) (klen self))
                                    (klen other - offset)) in
      Ok (if 1 <? page_size then matched / page_size * page_size else matched)
    else
      let matched_tokens := Z.min (Z.min matched_tokens (klen self)) (klen other - offset) in
      if page_size =? 1 then Ok matched_tokens
      else Ok (matched_tokens / page_size * page_size).

(** [RadixKey.match]. *)
Definition kmatch (self other : RadixKey) (page_size : Z) : result Z :=
  match_at self other 0 page_size.

Definition child_key_at (k : RadixKey) (offset page_size : Z) : result pyval :=
  if (offset <? 0) || (klen k <? offset + page_size) then Raise IndexError
  else
    let t := token_ids k in
    let plain :=
      if is_bigram k then
        if page_size =? 1 then PTuple [PInt (tok t offset); PInt (tok t (offset + 1))]
        else PTuple ((λ j, PTuple [PInt (tok t j); PInt (tok t (j + 1))])
                     <$> seqZ offset page_size)
      else
        if page_size =? 1 then PInt (tok t offset)
        else PTuple (PInt <$> pyslice t offset (offset + page_size)) in
    let opt_str o := match o with Some s => PStr s | None => PNone end in
    match cache_salt k with
    | Some salt => Ok (PTuple [PTuple [opt_str (extra_key k); PStr salt]; plain])
    | None =>
        match extra_key k with
        | None => Ok plain
        | Some e => Ok (PTuple [PStr e; plain])
        end
    end.

Definition child_key (k : RadixKey) (page_size : Z) : result pyval :=
  child_key_at k 0 page_size.

(** ** Reference view *)

(** The namespace of a key. *)
Definition knamespace (k : RadixKey) : option string * option string :=
  (extra_key k, cache_salt k).

(** A cap below zero would make [len()] raise; no caller passes one. *)
Definition wf_key (k : RadixKey) : Prop :=
  match limit k with Some l => 0 ≤ l | None => True end.

(** Bigrams of a token list. *)
Definition bigrams (t : list Z) : list logical_unit := zip_with UPair t (tail t).

(** The logical units of a key. *)
Definition units (k : RadixKey) : list logical_unit :=
  if is_bigram k then bigrams (raw_token_ids k) else UTok <$> raw_token_ids k.

(** Length of the longest common prefix of two lists. *)
Fixpoint lcp {A} `{EqDecision A} (l1 l2 : list A) : nat :=
  match l1, l2 with
  | x :: l1, y :: l2 => if decide (x = y) then S (lcp l1 l2) else O
  | _, _ => O
  end.

(** ** Dict keys are countable *)

Fixpoint pyval_to_tree (v : pyval) : gen_tree (Z + string) :=
  match v with
  | PNone => GenNode 0 []
  | PInt z => GenLeaf (inl z)
  | PStr s => GenLeaf (inr s)
  | PTuple l => GenNode 1 (pyval_to_tree <$> l)
  end.

Fixpoint pyval_of_tree (t : gen_tree (Z + string)) : pyval :=
  match t with
  | GenLeaf (inl z) => PInt z
  | GenLeaf (inr s) => PStr s
  | GenNode 0 _ => PNone
  | GenNode _ l => PTuple (pyval_of_tree <$> l)
  end.

Fixpoint pyval_tree_id (v : pyval) : pyval_of_tree (pyval_to_tree v) = v.
Proof.
  destruct v as [|z|s|l]; simpl; [done|done|done|]. f_equal.
  induction l as [|v l IH]; simpl; [done|]. f_equal; [apply pyval_tree_id|exact IH].
Defined.

#[export] Instance pyval_eq_dec : EqDecision pyval.
Proof.
  intros x y.
  destruct (decide (pyval_to_tree x = pyval_to_tree y)) as [E|E].
  - left. rewrite <- (pyval_tree_id x), <- (pyval_tree_id y). by rewrite E.
  - right. congruence.
Defined.

#[export] Instance pyval_countable : Countable pyval :=
  inj_countable' pyval_to_tree pyval_of_tree pyval_tree_id.

(** ** Longest common prefixes *)

Section lcp.
Context {A : Type} `{EqDecision A}.
Implicit Types l : list A.

Lemma lcp_le_l l1 l2 : (lcp l1 l2 ≤ length l1)%nat.
Proof. revert l2. induction l1 as [|x l1 IH]; intros [|y l2]; simpl; try lia. case_decide; simpl; [|lia]. specialize (IH l2). lia. Qed.

Lemma lcp_le_r l1 l2 : (lcp l1 l2 ≤ length l2)%nat.
Proof. revert l2. induction l1 as [|x l1 IH]; intros [|y l2]; simpl; try lia. case_decide; simpl; [|lia]. specialize (IH l2). lia. Qed.

Lemma lcp_take l1 l2 : take (lcp l1 l2) l1 = take (lcp l1 l2) l2.
Proof. revert l2. induction l1 as [|x l1 IH]; intros [|y l2]; simpl; try done. case_decide; simpl; [|done]. subst. f_equal. apply IH. Qed.

(** A common prefix is at most the longest one. *)
Lemma lcp_max l1 l2 n :
  (n ≤ length l1)%nat → take n l1 = take n l2 → (n ≤ lcp l1 l2)%nat.
Proof.
  revert l2 n. induction l1 as [|x l1 IH]; intros [|y l2] [|n]; simpl; intros; try lia.
  - done.
  - simplify_eq. rewrite decide_True by done. apply le_n_S, IH; [lia|done].
Qed.

Lemma lcp_prefix l1 l2 : l1 `prefix_of` l2 → lcp l1 l2 = length l1.
Proof.
  intros Hp. apply Nat.le_antisymm; [apply lcp_le_l|]. apply lcp_max; [done|].
  by rewrite firstn_all, prefix_take_eq.
Qed.

(** Growing a common prefix by one window. *)
Lemma lcp_window l1 l2 lo hi :
  (lo ≤ lcp l1 l2)%nat → (lo ≤ hi)%nat → (hi ≤ length l1)%nat →
  take (hi - lo) (drop lo l1) = take (hi - lo) (drop lo l2) ↔ (hi ≤ lcp l1 l2)%nat.
Proof.
  intros Hlo Hle Hl. split.
  - intros Hw. apply lcp_max; [done|].
    replace hi with (lo + (hi - lo))%nat by lia. rewrite <- !take_take_drop.
    f_equal; [|done].
    pose proof (f_equal (take lo) (lcp_take l1 l2)) as Ht.
    by rewrite !take_take, !Nat.min_l in Ht by done.
  - intros Hhi.
    pose proof (f_equal (take hi) (lcp_take l1 l2)) as Ht.
    rewrite !take_take, !Nat.min_l in Ht by done.
    pose proof (f_equal (drop lo) Ht) as Hd. by rewrite !skipn_firstn_comm in Hd.
Qed.
End lcp.

Lemma lcp_bigrams (a b : list Z) : lcp (bigrams a) (bigrams b) = Nat.pred (lcp a b).
Proof.
  unfold bigrams.
  revert b. induction a as [|x a IH]; intros [|y b]; simpl; try done.
  { by destruct a. }
  destruct a as [|x' a], b as [|y' b]; simpl; try (by case_decide).
  specialize (IH (y' :: b)). simpl in IH.
  destruct (decide (x = y)) as [->|]; destruct (decide (x' = y')) as [->|]; simpl;
    repeat case_decide; simplify_eq; try done.
  - simpl. f_equal. simpl in IH. rewrite <- IH. done.
Qed.

(** ** Lengths and slices of keys *)

Section keys.
Implicit Types k : RadixKey.

Lemma _raw_len_bounds k : wf_key k → 0 ≤ _raw_len k ≤ zlen (token_ids k).
Proof.
  unfold wf_key, _raw_len. intros. pose proof (zlen_nonneg (token_ids k)).
  destruct (limit k); zbool; lia.
Qed.

Lemma raw_token_ids_eq k :
  wf_key k → raw_token_ids k = take (Z.to_nat (_raw_len k)) (token_ids k).
Proof.
  intros Hwf. pose proof (_raw_len_bounds k Hwf). unfold raw_token_ids. zbool.
  - rewrite e. unfold zlen. by rewrite Nat2Z.id, firstn_all.
  - apply pytake_eq. lia.
Qed.

Lemma zlen_raw_token_ids k : wf_key k → zlen (raw_token_ids k) = _raw_len k.
Proof.
  intros Hwf. pose proof (_raw_len_bounds k Hwf). rewrite raw_token_ids_eq by done.
  unfold zlen in *. rewrite length_take. lia.
Qed.

Lemma length_bigrams t : length (bigrams t) = Nat.pred (length t).
Proof. unfold bigrams. rewrite length_zip_with. destruct t; cbn [length tail]; lia. Qed.

(** [len(key)] counts the logical units. *)
Lemma klen_units k : wf_key k → klen k = zlen (units k).
Proof.
  intros Hwf. pose proof (zlen_raw_token_ids k Hwf) as Hr. unfold zlen in *.
  unfold klen, units. rewrite <- Hr. destruct (is_bigram k); [|by rewrite length_fmap].
  rewrite length_bigrams. zbool; lia.
Qed.

Lemma klen_nonneg k : wf_key k → 0 ≤ klen k.
Proof. intros. rewrite klen_units by done. apply zlen_nonneg. Qed.

Lemma seqZ_fmap_take {B} (f : Z → B) (l : list B) n :
  0 ≤ n ≤ zlen l →
  (∀ i x, l !! i = Some x → f (Z.of_nat i) = x) →
  f <$> seqZ 0 n = take (Z.to_nat n) l.
Proof.
  intros Hn Hf. apply list_eq. intros i. rewrite list_lookup_fmap.
  destruct (decide (i < Z.to_nat n)%nat) as [Hi|Hi].
  - rewrite lookup_seqZ_lt by lia. rewrite lookup_take_lt by done. simpl.
    destruct (lookup_lt_is_Some_2 l i) as [x Hx]; [unfold zlen in *; lia|].
    rewrite Hx. f_equal. by apply Hf.
  - rewrite lookup_seqZ_ge by lia. rewrite lookup_take_ge by lia. done.
Qed.

Lemma bigrams_lookup t i : bigrams t !! i =
  match t !! i, t !! S i with Some a, Some b => Some (UPair a b) | _, _ => None end.
Proof.
  unfold bigrams. rewrite lookup_zip_with. replace (tail t !! i) with (t !! S i).
  - destruct (t !! i), (t !! S i); done.
  - by destruct t, i.
Qed.

(** Iterating over a key yields its units, capped keys included. *)
Lemma kiter_units k : wf_key k → kiter k = units k.
Proof.
  intros Hwf. pose proof (_raw_len_bounds k Hwf) as Hb.
  unfold kiter, units. rewrite (raw_token_ids_eq k Hwf).
  set (t := token_ids k) in *. set (n := _raw_len k) in *.
  assert (length (take (Z.to_nat n) t) = Z.to_nat n) as Hlen.
  { rewrite length_take. unfold zlen in Hb. lia. }
  destruct (is_bigram k).
  - rewrite (seqZ_fmap_take _ (bigrams (take (Z.to_nat n) t))).
    + apply take_ge. rewrite length_bigrams, Hlen. zbool; lia.
    + unfold zlen. rewrite length_bigrams, Hlen. zbool; lia.
    + intros i x Hx. rewrite bigrams_lookup in Hx.
      destruct (_ !! i) eqn:E1 in Hx; [|done]. destruct (_ !! S i) eqn:E2 in Hx; [|done].
      simplify_eq. apply lookup_take_Some in E1 as [E1 _], E2 as [E2 _]. unfold tok.
      replace (Z.to_nat (Z.of_nat i + 1)) with (S i) by lia. rewrite Nat2Z.id.
      by rewrite (list_lookup_total_correct _ _ _ E1), (list_lookup_total_correct _ _ _ E2).
  - zbool.
    + rewrite e. unfold zlen. by rewrite Nat2Z.id, firstn_all.
    + rewrite (seqZ_fmap_take _ (UTok <$> t)); [by rewrite fmap_take|unfold zlen in *; rewrite length_fmap; lia|].
      intros i x Hx. apply list_lookup_fmap_Some in Hx as (y & -> & Hy). unfold tok.
      by rewrite Nat2Z.id, (list_lookup_total_correct _ _ _ Hy).
Qed.

Lemma bigrams_slice t a b :
  (a ≤ b)%nat → (S b ≤ length t)%nat →
  bigrams (take (S b - a) (drop a t)) = take (b - a) (drop a (bigrams t)).
Proof.
  intros Hab Hb. apply list_eq. intros i. rewrite bigrams_lookup.
  destruct (decide (i < b - a)%nat).
  - rewrite !lookup_take_lt by lia. rewrite !lookup_drop, bigrams_lookup.
    by replace (a + S i)%nat with (S (a + i)) by lia.
  - rewrite (lookup_take_ge (drop a (bigrams t))) by lia.
    rewrite (lookup_take_ge _ _ (S i)) by lia. by case_match.
Qed.

Lemma RadixKey_init_salt k raw b :
  cache_salt k ≠ Some "" →
  knamespace (RadixKey_init raw (extra_key k) b None (cache_salt k)) = knamespace k.
Proof. unfold knamespace. simpl. destruct (cache_salt k) as [[]|]; done. Qed.

(** Slicing a key slices its units. *)
Lemma units_kslice k a b :
  wf_key k → 0 ≤ a → a ≤ b → b ≤ klen k →
  units (kslice k a b) = take (Z.to_nat (b - a)) (drop (Z.to_nat a) (units k)).
Proof.
  intros Hwf Ha Hab Hb. pose proof (_raw_len_bounds k Hwf) as Hr.
  unfold units, kslice, klen in *. rewrite (raw_token_ids_eq k Hwf).
  set (t := token_ids k) in *. set (n := _raw_len k) in *.
  destruct (is_bigram k) eqn:Hbi.
  - destruct (Z.ltb_spec a b).
    + unfold raw_token_ids, _raw_len; simpl. rewrite Z.eqb_refl.
      rewrite pyslice_eq by (zbool; lia).
      replace (Z.to_nat (b + 1 - a)) with (S (Z.to_nat b) - Z.to_nat a)%nat by lia.
      replace (Z.to_nat (b - a)) with (Z.to_nat b - Z.to_nat a)%nat by lia.
      rewrite bigrams_slice by (unfold zlen in *; zbool; lia).
      apply list_eq. intros i. destruct (decide (i < Z.to_nat b - Z.to_nat a)%nat).
      * rewrite !lookup_take_lt by done. rewrite !lookup_drop, !bigrams_lookup.
        rewrite !lookup_take_lt by (zbool; lia). done.
      * by rewrite !lookup_take_ge by lia.
    + unfold raw_token_ids, _raw_len; simpl. replace (b - a) with 0 by lia. done.
  - unfold raw_token_ids, _raw_len; simpl. rewrite Z.eqb_refl.
    rewrite pyslice_eq by lia. rewrite <- fmap_drop, <- fmap_take. f_equal.
    rewrite skipn_firstn_comm, take_take. f_equal. lia.
Qed.

Lemma kslice_wf k a b : wf_key (kslice k a b).
Proof. unfold kslice, wf_key. by destruct (is_bigram k). Qed.

Lemma kslice_bigram k a b : is_bigram (kslice k a b) = is_bigram k.
Proof. unfold kslice. by destruct (is_bigram k) eqn:E. Qed.

Lemma kslice_namespace k a b :
  cache_salt k ≠ Some "" → knamespace (kslice k a b) = knamespace k.
Proof.
  intros. unfold kslice. destruct (is_bigram k); by apply RadixKey_init_salt.
Qed.

Lemma kslice_salt k a b : cache_salt (kslice k a b) ≠ Some "".
Proof.
  unfold kslice. destruct (is_bigram k); simpl; by destruct (cache_salt k) as [[]|].
Qed.

Lemma norm_idx_in len i : 0 ≤ i ≤ len → norm_idx len i = i.
Proof. unfold norm_idx. zbool; lia. Qed.

Lemma units_ktake k j :
  wf_key k → 0 ≤ j ≤ klen k → units (ktake k j) = take (Z.to_nat j) (units k).
Proof.
  intros Hwf Hj. unfold ktake. rewrite !norm_idx_in by lia.
  rewrite units_kslice by (done || lia). by rewrite Z.sub_0_r, drop_0.
Qed.

Lemma units_kdrop k i :
  wf_key k → 0 ≤ i ≤ klen k → units (kdrop k i) = drop (Z.to_nat i) (units k).
Proof.
  intros Hwf Hi. pose proof (klen_nonneg k Hwf). unfold kdrop.
  rewrite !norm_idx_in by lia. rewrite units_kslice by (done || lia).
  apply take_ge. rewrite length_drop. rewrite klen_units in * by done.
  unfold zlen in *. lia.
Qed.

Lemma klen_ktake k j : wf_key k → 0 ≤ j ≤ klen k → klen (ktake k j) = j.
Proof.
  intros Hwf Hj. rewrite klen_units by apply kslice_wf. rewrite units_ktake by done.
  rewrite klen_units in Hj by done. unfold zlen in *. rewrite length_take. lia.
Qed.

Lemma klen_kdrop k i : wf_key k → 0 ≤ i ≤ klen k → klen (kdrop k i) = klen k - i.
Proof.
  intros Hwf Hi. rewrite klen_units by apply kslice_wf. rewrite units_kdrop by done.
  rewrite klen_units in * by done. unfold zlen in *. rewrite length_drop. lia.
Qed.

Lemma page_aligned_units k p :
  wf_key k → 0 < p →
  units (page_aligned k p) = take (Z.to_nat (page_align_floor (klen k) p)) (units k).
Proof.
  intros Hwf Hp. pose proof (klen_nonneg k Hwf) as Hn. unfold page_aligned. zbool.
  - subst. rewrite page_align_floor_id by (apply Z.divide_1_l || lia).
    rewrite take_ge; [done|]. rewrite klen_units by done. unfold zlen. lia.
  - apply units_ktake; [done|]. change (_ / p * p) with (page_align_floor (klen k) p).
    split; [by apply page_align_floor_nonneg|by apply page_align_floor_le].
Qed.

Lemma page_aligned_wf k p : wf_key k → wf_key (page_aligned k p).
Proof. unfold page_aligned. zbool; [done|]. intros _. apply kslice_wf. Qed.

Lemma klen_page_aligned k p :
  wf_key k → 0 < p → klen (page_aligned k p) = page_align_floor (klen k) p.
Proof.
  intros Hwf Hp. rewrite klen_units by by apply page_aligned_wf.
  rewrite page_aligned_units by done. pose proof (klen_nonneg k Hwf).
  pose proof (page_align_floor_nonneg p Hp (klen k)).
  pose proof (page_align_floor_le p Hp (klen k)).
  rewrite klen_units in * by done. unfold zlen in *. rewrite length_take. lia.
Qed.
End keys.

(** ** The galloping search *)

Section gallop.
Context (t0 t1 : list Z) (offset n : Z).
Hypothesis Hoff : 0 ≤ offset.
Hypothesis Hn0 : n ≤ zlen t0.
Hypothesis Hn1 : offset + n ≤ zlen t1.

Let a := take (Z.to_nat n) t0.
Let b := take (Z.to_nat n) (drop (Z.to_nat offset) t1).

(** A window test extends the common prefix exactly to the window's end. *)
Lemma window_eq_lcp lo hi :
  0 ≤ lo ≤ Z.of_nat (lcp a b) → lo ≤ hi → hi ≤ n →
  window_eq t0 t1 offset lo hi = true ↔ hi ≤ Z.of_nat (lcp a b).
Proof.
  intros Hlo Hlh Hhi. unfold window_eq. rewrite bool_decide_eq_true.
  rewrite !pyslice_eq by lia.
  replace (Z.to_nat (offset + hi - (offset + lo))) with (Z.to_nat hi - Z.to_nat lo)%nat by lia.
  replace (Z.to_nat (hi - lo)) with (Z.to_nat hi - Z.to_nat lo)%nat by lia.
  replace (Z.to_nat (offset + lo)) with (Z.to_nat offset + Z.to_nat lo)%nat by lia.
  rewrite <- drop_drop.
  trans (Z.to_nat hi ≤ lcp a b)%nat; [|lia].
  rewrite <- (lcp_window a b (Z.to_nat lo) (Z.to_nat hi)).
  - unfold a, b. rewrite !skipn_firstn_comm, !take_take.
    rewrite Nat.min_l by lia. done.
  - lia.
  - lia.
  - unfold a. rewrite length_take. unfold zlen in *. lia.
Qed.

Lemma match_bsearch_spec fuel lo hi :
  0 ≤ lo ≤ Z.of_nat (lcp a b) → Z.of_nat (lcp a b) < hi → hi ≤ n →
  (Z.to_nat (hi - lo) ≤ fuel)%nat →
  match_bsearch fuel t0 t1 offset lo hi = Z.of_nat (lcp a b).
Proof.
  revert lo hi. induction fuel as [|fuel IH]; intros lo hi Hlo Hhi Hn Hf; simpl; [lia|].
  destruct (Z.ltb_spec 1 (hi - lo)); [|lia].
  assert (lo < (lo + hi) / 2 < hi) as Hmid.
  { pose proof (Z.div_mod (lo + hi) 2). pose proof (Z.mod_pos_bound (lo + hi) 2). lia. }
  destruct (window_eq _ _ _ _ _) eqn:E.
  - apply window_eq_lcp in E; [|lia..]. apply IH; lia.
  - apply IH; [lia| |lia|lia]. apply Z.nle_gt. intros Hle.
    rewrite <- (window_eq_lcp lo) in Hle by lia. congruence.
Qed.

Lemma match_gallop_spec fuel lo step :
  0 ≤ n → 0 ≤ lo ≤ Z.of_nat (lcp a b) → 1 ≤ step → (Z.to_nat (n - lo) < fuel)%nat →
  match_gallop fuel t0 t1 offset n lo step = Z.of_nat (lcp a b).
Proof.
  intros Hn. assert (Z.of_nat (lcp a b) ≤ n) as Hl.
  { pose proof (lcp_le_l a b) as Hl. unfold a in Hl at 2. rewrite length_take in Hl. lia. }
  revert lo step. induction fuel as [|fuel IH]; intros lo step Hlo Hs Hf; simpl; [lia|].
  destruct (Z.ltb_spec lo n); [|lia].
  set (hi := if lo + step <? n then lo + step else n).
  assert (lo < hi ≤ n) as Hhi by (unfold hi; zbool; lia).
  destruct (window_eq _ _ _ _ _) eqn:E; simpl.
  - apply window_eq_lcp in E; [|lia..]. apply IH; lia.
  - apply match_bsearch_spec; [lia| |lia|lia]. apply Z.nle_gt. intros Hle.
    rewrite <- (window_eq_lcp lo) in Hle by lia. congruence.
Qed.
End gallop.

(** The prefix length [match_at] is to compute: whole pages of common units. *)
Definition match_spec (self other : RadixKey) (offset page_size : Z) : Z :=
  page_align_floor (Z.of_nat (lcp (units self) (drop (Z.to_nat offset) (units other))))
    page_size.

Lemma lcp_take_min {A} `{EqDecision A} (l1 l2 : list A) (n : nat) :
  n = Nat.min (length l1) (length l2) → lcp (take n l1) (take n l2) = lcp l1 l2.
Proof.
  intros ->. revert l2. induction l1 as [|x l1 IH]; intros [|y l2]; simpl; try done.
  case_decide; [|done]. f_equal. apply IH.
Qed.

Lemma lcp_fmap_UTok (a b : list Z) : lcp (UTok <$> a) (UTok <$> b) = lcp a b.
Proof.
  revert b. induction a as [|x a IH]; intros [|y b]; simpl; try done.
  repeat case_decide; simplify_eq; [|done..]. f_equal. apply IH.
Qed.

Lemma bigrams_drop (t : list Z) (n : nat) : drop n (bigrams t) = bigrams (drop n t).
Proof.
  apply list_eq. intros i. rewrite lookup_drop, !bigrams_lookup, !lookup_drop.
  by replace (n + S i)%nat with (S (n + i)) by lia.
Qed.

(** The tokens the loop matches are the common prefix of the raw tokens. *)
Lemma gallop_raw self other offset :
  wf_key self → wf_key other → 0 ≤ offset ≤ klen other →
  let n := Z.min (_raw_len self) (_raw_len other - offset) in
  match_gallop (S (Z.to_nat n)) (token_ids self) (token_ids other) offset n 0 1
  = Z.of_nat (lcp (raw_token_ids self) (drop (Z.to_nat offset) (raw_token_ids other))).
Proof.
  intros Hs Ho Hoff n. pose proof (_raw_len_bounds _ Hs). pose proof (_raw_len_bounds _ Ho).
  assert (offset ≤ _raw_len other).
  { unfold klen in Hoff. destruct (is_bigram other); zbool; lia. }
  assert (0 ≤ n) by lia.
  rewrite match_gallop_spec by lia. f_equal.
  rewrite (raw_token_ids_eq self), (raw_token_ids_eq other) by done.
  symmetry. erewrite <- (lcp_take_min (take _ _) (drop _ _) (Z.to_nat n)).
  - rewrite skipn_firstn_comm, !take_take. f_equal; f_equal; lia.
  - rewrite length_drop, !length_take. unfold zlen in *. lia.
Qed.

#[local] Arguments match_gallop : simpl never.

Lemma check_compatible_ok self other :
  knamespace self = knamespace other → _check_compatible self other = Ok tt.
Proof.
  unfold knamespace, _check_compatible. intros [= -> ->]. by rewrite !bool_decide_eq_true_2.
Qed.

Lemma match_at_ok self other offset p :
  wf_key self → wf_key other → knamespace self = knamespace other →
  is_bigram self = is_bigram other → 0 ≤ offset ≤ klen other → 0 < p →
  match_at self other offset p = Ok (match_spec self other offset p).
Proof.
  intros Hs Ho Hns Hbi Hoff Hp. unfold match_at. rewrite check_compatible_ok by done. simpl.
  rewrite Hbi, eqb_reflx. simpl.
  destruct (Z.ltb_spec offset 0); [lia|]. destruct (Z.ltb_spec (klen other) offset); [lia|]. simpl.
  rewrite gallop_raw by done. unfold match_spec.
  set (r := lcp (raw_token_ids self) _). set (u := lcp (units self) _).
  assert (Z.of_nat u ≤ klen self).
  { rewrite klen_units by done. pose proof (lcp_le_l (units self) (drop (Z.to_nat offset) (units other))).
    unfold zlen. lia. }
  assert (Z.of_nat u ≤ klen other - offset).
  { rewrite klen_units in * by done.
    pose proof (lcp_le_r (units self) (drop (Z.to_nat offset) (units other))) as Hr.
    rewrite length_drop in Hr. unfold zlen in *. lia. }
  assert (u = if is_bigram other then Nat.pred r else r) as Hu.
  { unfold u, r, units. rewrite Hbi. destruct (is_bigram other).
    - by rewrite bigrams_drop, lcp_bigrams.
    - by rewrite <- fmap_drop, lcp_fmap_UTok. }
  destruct (is_bigram other).
  - replace (Z.max 0 _) with (Z.of_nat u) by lia.
    destruct (Z.ltb_spec 1 p); [done|]. replace p with 1 by lia.
    by rewrite page_align_floor_id by (apply Z.divide_1_l || lia).
  - rewrite <- Hu. rewrite !Z.min_l by lia. destruct (Z.eqb_spec p 1) as [->|]; [|done].
    by rewrite page_align_floor_id by (apply Z.divide_1_l || lia).
Qed.

(** ** Child keys *)

(** The Python value of one unit. *)
Definition unit_val (u : logical_unit) : pyval :=
  match u with
  | UTok t => PInt t
  | UPair a b => PTuple [PInt a; PInt b]
  end.

(** The un-namespaced part of a child key, from the units it covers. *)
Definition plain_key (us : list logical_unit) : pyval :=
  match us with
  | [u] => unit_val u
  | us => PTuple (unit_val <$> us)
  end.

Definition namespace_wrap (ns : option string * option string) (plain : pyval) : pyval :=
  match ns with
  | (e, Some salt) =>
      PTuple [PTuple [match e with Some s => PStr s | None => PNone end; PStr salt]; plain]
  | (Some e, None) => PTuple [PStr e; plain]
  | (None, None) => plain
  end.

Section child_key.
Context (p : Z) (Hp : 0 < p).

(** The first page of units of a key. *)
Definition first_page (k : RadixKey) : list logical_unit := take (Z.to_nat p) (units k).

Lemma units_lookup_bigram k i :
  wf_key k → is_bigram k = true → 0 ≤ i < klen k →
  units k !! Z.to_nat i = Some (UPair (tok (token_ids k) i) (tok (token_ids k) (i + 1))).
Proof.
  intros Hwf Hbi Hi. pose proof (_raw_len_bounds k Hwf) as Hr. unfold klen in Hi.
  unfold units. rewrite Hbi in *. rewrite raw_token_ids_eq by done.
  rewrite bigrams_lookup, !lookup_take_lt by (zbool; lia).
  assert (Z.to_nat (i + 1) = S (Z.to_nat i)) as E by lia. unfold tok. rewrite E.
  rewrite !list_lookup_lookup_total_lt by (unfold zlen in *; zbool; lia). done.
Qed.

Lemma child_key_units k :
  wf_key k → p ≤ klen k →
  child_key k p = Ok (namespace_wrap (knamespace k) (plain_key (first_page k))).
Proof.
  intros Hwf Hle. unfold child_key, child_key_at.
  destruct (Z.ltb_spec 0 0); [lia|]. destruct (Z.ltb_spec (klen k) (0 + p)); [lia|]. simpl.
  set (plain := if is_bigram k then _ else _).
  assert (plain = plain_key (first_page k)) as Hpl; last first.
  { rewrite Hpl. unfold knamespace. destruct (cache_salt k), (extra_key k); done. }
  unfold plain, first_page. pose proof (_raw_len_bounds k Hwf) as Hr. clear plain.
  destruct (is_bigram k) eqn:Hbi.
  - assert (take (Z.to_nat p) (units k) =
            (λ j, UPair (tok (token_ids k) j) (tok (token_ids k) (j + 1))) <$> seqZ 0 p) as ->.
    { symmetry. apply seqZ_fmap_take; [rewrite <- klen_units by done; lia|].
      intros i x Hx. rewrite <- (Nat2Z.id i) in Hx.
      rewrite units_lookup_bigram in Hx; [by simplify_eq|done|done|].
      apply lookup_lt_Some in Hx. rewrite klen_units by done. unfold zlen. lia. }
    destruct (Z.eqb_spec p 1) as [->|]; [done|].
    rewrite (seqZ_cons 0), (seqZ_cons (Z.succ 0)) by lia. simpl. do 3 f_equal.
    by rewrite <- list_fmap_compose.
  - unfold klen in Hle. rewrite Hbi in Hle. unfold units. rewrite Hbi.
    rewrite raw_token_ids_eq by done. rewrite <- fmap_take, take_take, Nat.min_l by lia.
    set (t := token_ids k) in *.
    destruct (Z.eqb_spec p 1) as [->|].
    + unfold tok. simpl. destruct t; [unfold zlen in Hr; simpl in *; lia|done].
    + rewrite pyslice_eq by lia. rewrite drop_0, Z.sub_0_r, Z.add_0_l.
      destruct t as [|x [|y t]]; [unfold zlen in *; simpl in *; lia..|].
      destruct (Z.to_nat p) as [|[|q]] eqn:Eq; [lia|lia|]. simpl. do 3 f_equal.
      apply (list_fmap_compose UTok unit_val).
Qed.

Lemma unit_val_inj u v : unit_val u = unit_val v → u = v.
Proof. destruct u, v; simpl; naive_solver. Qed.

Lemma plain_key_inj us vs :
  length us = length vs → plain_key us = plain_key vs → us = vs.
Proof.
  intros Hl. destruct us as [|u [|u' us]], vs as [|v [|v' vs]]; simpl; try done.
  - intros ->%unit_val_inj. done.
  - intros [= ->%unit_val_inj ->%unit_val_inj Hm]. do 2 f_equal.
    exact (list_fmap_eq_inj unit_val unit_val_inj us vs Hm).
Qed.

(** No tuple built for one namespace equals one built for another. *)
Lemma namespace_wrap_inj ns1 ns2 us vs :
  length us = Z.to_nat p → length vs = Z.to_nat p →
  namespace_wrap ns1 (plain_key us) = namespace_wrap ns2 (plain_key vs) →
  ns1 = ns2 ∧ us = vs.
Proof.
  intros Hu Hv.
  assert (∀ ws, length ws = Z.to_nat p → match plain_key ws with
            | PInt _ => True
            | PTuple (PInt _ :: _) | PTuple (PTuple (PInt _ :: _) :: _) => True
            | _ => False end) as Hshape.
  { intros [|w [|w' ws]] Hw; simpl in *; [lia|by destruct w|by destruct w]. }
  pose proof (Hshape _ Hu) as Su. pose proof (Hshape _ Hv) as Sv.
  destruct ns1 as [[e1|] [s1|]], ns2 as [[e2|] [s2|]]; simpl; intros E;
    try (rewrite E in Su; done); try (rewrite <- E in Sv; done); simplify_eq;
    (split; [done|]); apply plain_key_inj; congruence.
Qed.

Lemma length_first_page k : wf_key k → p ≤ klen k → length (first_page k) = Z.to_nat p.
Proof.
  intros Hwf Hle. unfold first_page. rewrite length_take.
  rewrite klen_units in Hle by done. unfold zlen in Hle. lia.
Qed.

Lemma child_key_eq_iff k1 k2 :
  wf_key k1 → wf_key k2 → p ≤ klen k1 → p ≤ klen k2 →
  child_key k1 p = child_key k2 p ↔
  knamespace k1 = knamespace k2 ∧ first_page k1 = first_page k2.
Proof.
  intros W1 W2 L1 L2. rewrite !child_key_units by done. split.
  - intros E. assert (∀ x y : pyval, Ok x = Ok y → x = y) as Hok by congruence.
    apply Hok in E. apply namespace_wrap_inj in E; [done|by apply length_first_page..].
  - by intros [-> ->].
Qed.
End child_key.

(** ** Theorems *)

Lemma norm_idx_bounds len i : 0 ≤ len → 0 ≤ norm_idx len i ≤ len.
Proof. unfold norm_idx. intros. zbool; lia. Qed.

Lemma units_kslice_any k a b :
  wf_key k → 0 ≤ a ≤ klen k → 0 ≤ b ≤ klen k →
  units (kslice k a b) = take (Z.to_nat (b - a)) (drop (Z.to_nat a) (units k)).
Proof.
  intros Hwf Ha Hb. destruct (decide (a ≤ b)) as [|Hgt]; [apply units_kslice; [done|lia..]|].
  replace (Z.to_nat (b - a)) with 0%nat by lia. simpl. unfold units, kslice, raw_token_ids, _raw_len.
  destruct (is_bigram k); simpl; [destruct (Z.ltb_spec a b); [lia|done]|].
  rewrite Z.eqb_refl. unfold pyslice. rewrite !norm_idx_in.
  - by replace (Z.to_nat (b - a)) with 0%nat by lia.
  - pose proof (_raw_len_bounds k Hwf). unfold klen in *. destruct (is_bigram k); zbool; lia.
  - pose proof (_raw_len_bounds k Hwf). unfold klen in *. destruct (is_bigram k); zbool; lia.
Qed.

(** Slicing a key commutes with iterating it: iterating [key[i:j]] yields
    Python's [list(key)[i:j]], negative and out-of-range bounds included, in
    both the token and the bigram view, within [limit], and stays in the key's
    namespace; a step other than 1 raises [ValueError]. *)
Theorem getitem_slice_iter k start stop step :
  wf_key k → cache_salt k ≠ Some "" →
  match getitem k (ISlice start stop step) with
  | Ok k' => default 1 step = 1 ∧ knamespace k' = knamespace k ∧
      kiter k' = pyslice (kiter k) (default 0 start) (default (zlen (kiter k)) stop) ∧
      klen k' = zlen (kiter k')
  | Raise e => default 1 step ≠ 1 ∧ e = ValueError
  end.
Proof.
  intros Hwf Hs. unfold getitem. case_bool_decide as Hst; [|done].
  set (k' := kslice k _ _). assert (wf_key k') as Hwf' by apply kslice_wf.
  rewrite (kiter_units k), (kiter_units k'), (klen_units k'), <- (klen_units k) by done. unfold k'.
  pose proof (klen_nonneg k Hwf). split; [done|]. split; [by apply kslice_namespace|]. split; [|done].
  rewrite units_kslice_any by (done || by apply norm_idx_bounds).
  unfold pyslice. rewrite <- klen_units by done. done.
Qed.

Lemma getitem_slice_iter_witness :
  let k := RadixKey_init [1; 2; 3; 4; 5] None true (Some 4) (Some "a") in
  kiter (kslice k 1 2) = [UPair 2 3].
Proof.
  pose proof (getitem_slice_iter (RadixKey_init [1; 2; 3; 4; 5] None true (Some 4) (Some "a"))
    (Some (-2)) (Some (-1)) None ltac:(done) ltac:(done)) as (_ & _ & H & _). exact H.
Defined.

(** The galloping search of [match_at] computes the longest common prefix
    in whole pages: the result is a multiple of the page, the two keys agree on
    that many units (from [offset] in the second), and no longer multiple of
    the page within both keys does. *)
Theorem match_at_longest self other offset p :
  wf_key self → wf_key other → knamespace self = knamespace other →
  is_bigram self = is_bigram other → 0 ≤ offset ≤ klen other → 0 < p →
  ∃ m, match_at self other offset p = Ok m ∧ (p | m) ∧
    0 ≤ m ≤ klen self ∧ m ≤ klen other - offset ∧
    take (Z.to_nat m) (kiter self) = take (Z.to_nat m) (drop (Z.to_nat offset) (kiter other)) ∧
    ∀ m', (p | m') → 0 ≤ m' ≤ klen self →
      take (Z.to_nat m') (kiter self) = take (Z.to_nat m') (drop (Z.to_nat offset) (kiter other)) →
      m' ≤ m.
Proof.
  intros Hs Ho Hns Hbi Hoff Hp. rewrite match_at_ok by done. exists (match_spec self other offset p).
  rewrite !kiter_units, !klen_units in * by done. split; [done|]. unfold match_spec.
  set (u := units self). set (w := drop (Z.to_nat offset) (units other)).
  pose proof (lcp_le_l u w) as L1. pose proof (lcp_le_r u w) as L2. pose proof (lcp_take u w) as Lt.
  assert (∀ n, (n ≤ length u)%nat → take n u = take n w → (n ≤ lcp u w)%nat) as Lm by (intros; by apply lcp_max).
  set (l := lcp u w) in *. assert (0 ≤ Z.of_nat l) as Hl0 by lia.
  pose proof (page_align_floor_le p Hp (Z.of_nat l)) as Hle.
  pose proof (page_align_floor_nonneg p Hp (Z.of_nat l) Hl0) as H0.
  split; [apply page_align_floor_divide|]. split; [unfold zlen; lia|]. split.
  { unfold w in L2. rewrite length_drop in L2. unfold zlen in *. lia. }
  split.
  { pose proof (f_equal (take (Z.to_nat (page_align_floor (Z.of_nat l) p))) Lt) as Ht.
    by rewrite !take_take, !Nat.min_l in Ht by lia. }
  intros m' Hd Hm' Ht. apply page_align_floor_max; [done|done|].
  enough (Z.to_nat m' ≤ l)%nat by lia. apply Lm; [unfold zlen in *; lia|done].
Qed.

Lemma match_at_longest_witness :
  let k1 := RadixKey_init [1; 2; 3; 4; 5] None false None None in
  let k2 := RadixKey_init [9; 1; 2; 3; 7] None false None None in
  ∃ m, match_at k1 k2 1 2 = Ok m ∧ (2 | m).
Proof.
  destruct (match_at_longest (RadixKey_init [1; 2; 3; 4; 5] None false None None)
    (RadixKey_init [9; 1; 2; 3; 7] None false None None) 1 2) as (m & E & Hd & _);
    [done|done|done|done|by vm_compute|done|]. by exists m.
Defined.

(** [child_key] raises [IndexError] exactly when the key is shorter than a
    page; otherwise two keys get the same dict key exactly when they are in the
    same namespace and agree on their first page, so requests with different
    salts or extra keys never meet in the tree. *)
Theorem child_key_namespace_isolation k1 k2 p :
  wf_key k1 → wf_key k2 → 0 < p →
  (child_key k1 p = Raise IndexError ↔ klen k1 < p) ∧
  (p ≤ klen k1 → p ≤ klen k2 →
   child_key k1 p = child_key k2 p ↔
   knamespace k1 = knamespace k2 ∧
   take (Z.to_nat p) (kiter k1) = take (Z.to_nat p) (kiter k2)).
Proof.
  intros W1 W2 Hp. split.
  - destruct (decide (p ≤ klen k1)) as [Hle|Hlt].
    + rewrite (child_key_units p Hp k1 W1 Hle). split; [done|lia].
    + split; [lia|]. intros _. unfold child_key, child_key_at.
      rewrite (proj2 (Z.ltb_lt (klen k1) (0 + p))) by lia. by rewrite orb_true_r.
  - intros L1 L2. rewrite !kiter_units by done. by apply child_key_eq_iff.
Qed.

Lemma child_key_namespace_isolation_witness :
  child_key (RadixKey_init [1; 2] None false None (Some "a")) 2 ≠
  child_key (RadixKey_init [1; 2] None false None (Some "b")) 2.
Proof.
  intros E. apply (child_key_namespace_isolation (RadixKey_init [1; 2] None false None (Some "a"))
    (RadixKey_init [1; 2] None false None (Some "b")) 2) in E as [E _]; try done.
Defined.
