(* ===== verification/EvictPolicy.v ===== *)
(** * Eviction strategies ([mem_cache/evict_policy.py], [mem_cache/utils.py])

    A strategy maps a tree node to a priority; the node with the least priority
    is evicted first.  Python compares the priorities as floats or as tuples,
    here as lists of integers under the lexicographic order.  The file also has
    the interface of [heapq] the eviction loop relies on. *)
From S2P Require Import Prelude.

(** ** Data *)

(** The attributes of a node a strategy may read.  [_tlru_history_len] and
    [_tlru_cached_prefix_len] exist only on the nodes of the unified cache. *)
Record node_view := mkView {
  v_hit_count : Z;
  v_last_access_time : Z;
  v_creation_time : Z;
  v_priority : Z;
  v_key_len : Z;
  v_tlru_history_len : Z;
  v_tlru_cached_prefix_len : Z
}.

Inductive EvictionStrategy :=
  | LRUStrategy
  | LFUStrategy
  | FIFOStrategy
  | MRUStrategy
  | FILOStrategy
  | PriorityStrategy
  | SLRUStrategy (protected_threshold : Z)
  | TLRUStrategy (threshold next_prompt_estimate : Z).

(** ** Operations *)

Definition LRU_get_priority (node : node_view) : list Z := [v_last_access_time node].

Definition LFU_get_priority (node : node_view) : list Z :=
  [v_hit_count node; v_last_access_time node].

Definition FIFO_get_priority (node : node_view) : list Z := [v_creation_time node].

Definition MRU_get_priority (node : node_view) : list Z := [- v_last_access_time node].

Definition FILO_get_priority (node : node_view) : list Z := [- v_creation_time node].

Definition Priority_get_priority (node : node_view) : list Z :=
  [v_priority node; v_last_access_time node].

Definition SLRU_get_priority (protected_threshold : Z) (node : node_view) : list Z :=
  let is_protected := if protected_threshold <=? v_hit_count node then 1 else 0 in
  [is_protected; v_last_access_time node].

Definition TLRU_get_priority (threshold next_prompt_estimate : Z) (node : node_view) : list Z :=
  let budget := Z.max (v_tlru_history_len node + next_prompt_estimate - threshold) 0 in
  let cached_without_this_node := v_tlru_cached_prefix_len node - v_key_len node in
  let tel_safe := budget <=? cached_without_this_node in
  [if tel_safe then -1 else 0; v_last_access_time node].

Definition get_priority (s : EvictionStrategy) (node : node_view) : list Z :=
  match s with
  | LRUStrategy => LRU_get_priority node
  | LFUStrategy => LFU_get_priority node
  | FIFOStrategy => FIFO_get_priority node
  | MRUStrategy => MRU_get_priority node
  | FILOStrategy => FILO_get_priority node
  | PriorityStrategy => Priority_get_priority node
  | SLRUStrategy th => SLRU_get_priority th node
  | TLRUStrategy th est => TLRU_get_priority th est node
  end.

(** Keyword arguments a caller passes; a strategy raises [TypeError] on one it
    does not have. *)
Definition call_factory (allowed : list string) (config : gmap string Z)
    (build : (string → Z → Z) → EvictionStrategy) : result EvictionStrategy :=
  if decide (map_Forall (λ k _, k ∈ allowed) config)
  then Ok (build (λ k dflt, default dflt (config !! k)))
  else Raise TypeError.

(** The factory table and the lookup by policy name. *)
Definition EVICTION_POLICY_FACTORIES (policy : string) :
    option (gmap string Z → result EvictionStrategy) :=
  if decide (policy = "lru") then Some (λ c, call_factory [] c (λ _, LRUStrategy))
  else if decide (policy = "lfu") then Some (λ c, call_factory [] c (λ _, LFUStrategy))
  else if decide (policy = "fifo") then Some (λ c, call_factory [] c (λ _, FIFOStrategy))
  else if decide (policy = "mru") then Some (λ c, call_factory [] c (λ _, MRUStrategy))
  else if decide (policy = "filo") then Some (λ c, call_factory [] c (λ _, FILOStrategy))
  else if decide (policy = "priority") then Some (λ c, call_factory [] c (λ _, PriorityStrategy))
  else if decide (policy = "slru") then
    Some (λ c, call_factory ["protected_threshold"] c
                 (λ arg, SLRUStrategy (arg "protected_threshold" 2)))
  else if decide (policy = "tlru") then
    Some (λ c, call_factory ["threshold"; "next_prompt_estimate"] c
                 (λ arg, TLRUStrategy (arg "threshold" 0) (arg "next_prompt_estimate" 0)))
  else None.

Definition get_eviction_strategy (eviction_policy : string)
    (config : option (gmap string Z)) : result EvictionStrategy :=
  match EVICTION_POLICY_FACTORIES (py_lower eviction_policy) with
  | None => Raise ValueError
  | Some factory => factory (default ∅ config)
  end.

(** ** Order of priorities *)

(** [a <= b] on Python tuples. *)
Fixpoint lex_leb (a b : list Z) : bool :=
  match a, b with
  | [], _ => true
  | _ :: _, [] => false
  | x :: a, y :: b => (x <? y) || ((x =? y) && lex_leb a b)
  end.

(** ** The interface of [heapq]

    What the loop of [evict] uses: [heapify] and [heappush] keep the elements,
    [heappop] removes a least one.  Which of several least elements comes out
    is left open, as Python leaves it. *)
Class HeapQ (E : Type) (le : E → E → bool) := {
  heap : Type;
  elems : heap → list E;
  heapify : list E → heap;
  heappush : heap → E → heap;
  heappop : heap → option (E * heap);
  elems_heapify : ∀ l, elems (heapify l) ≡ₚ l;
  elems_heappush : ∀ h e, elems (heappush h e) ≡ₚ e :: elems h;
  heappop_None : ∀ h, heappop h = None → elems h = [];
  heappop_Some : ∀ h e h', heappop h = Some (e, h') →
    elems h ≡ₚ e :: elems h' ∧ ∀ x, x ∈ elems h' → le e x = true
}.
Arguments heap {E le} _.

(** A selection queue is one implementation of the interface. *)
Section selection.
Context {E : Type} (le : E → E → bool).

Fixpoint select_min (e : E) (l : list E) : E * list E :=
  match l with
  | [] => (e, [])
  | x :: l => if le e x then let '(m, r) := select_min e l in (m, x :: r)
              else let '(m, r) := select_min x l in (m, e :: r)
  end.

Definition select_pop (l : list E) : option (E * list E) :=
  match l with [] => None | e :: l => Some (select_min e l) end.
End selection.

(** ** Lemmas *)

Lemma lex_leb_refl a : lex_leb a a = true.
Proof. induction a as [|x a IH]; simpl; [done|]. rewrite Z.eqb_refl, IH. by rewrite orb_true_r. Qed.

Lemma lex_leb_cons x y a b :
  lex_leb (x :: a) (y :: b) = true ↔ x < y ∨ (x = y ∧ lex_leb a b = true).
Proof. simpl. rewrite orb_true_iff, andb_true_iff, Z.ltb_lt, Z.eqb_eq. done. Qed.

Lemma lex_leb_trans a b c : lex_leb a b = true → lex_leb b c = true → lex_leb a c = true.
Proof.
  revert b c. induction a as [|x a IH]; intros [|y b] [|z c]; try done.
  rewrite !lex_leb_cons. intros [?|[-> ?]] [?|[-> ?]]; eauto with lia.
Qed.

Lemma lex_leb_total a b : lex_leb a b = true ∨ lex_leb b a = true.
Proof.
  revert b. induction a as [|x a IH]; intros [|y b]; [by left|by left|by right|].
  rewrite !lex_leb_cons. destruct (Z.lt_trichotomy x y) as [?|[->|?]]; [by left; left| |by right; left].
  destruct (IH b); eauto.
Qed.

Section selection_facts.
Context {E : Type} (le : E → E → bool).
Hypothesis le_trans : ∀ a b c, le a b = true → le b c = true → le a c = true.
Hypothesis le_total : ∀ a b, le a b = true ∨ le b a = true.

Lemma select_min_spec e l m r :
  select_min le e l = (m, r) →
  e :: l ≡ₚ m :: r ∧ le m e = true ∧ ∀ x, x ∈ r → le m x = true.
Proof.
  assert (∀ a, le a a = true) as le_refl by (intros a; by destruct (le_total a a)).
  revert e m r. induction l as [|x l IH]; intros e m r; simpl.
  { intros [= <- <-]. split; [done|]. split; [done|]. intros x Hx. by apply elem_of_nil in Hx. }
  destruct (le e x) eqn:Ele.
  - destruct (select_min le e l) as [m' r'] eqn:Em. intros [= <- <-].
    destruct (IH _ _ _ Em) as (Hp & Hm & Hr). split.
    { rewrite Permutation_swap, Hp. apply Permutation_swap. }
    split; [done|]. intros y [->|Hy]%elem_of_cons; [by eapply le_trans|by apply Hr].
  - destruct (select_min le x l) as [m' r'] eqn:Em. intros [= <- <-].
    destruct (IH _ _ _ Em) as (Hp & Hm & Hr).
    assert (le m' e = true) by (destruct (le_total e x); [congruence|by eapply le_trans]).
    split; [rewrite Hp; apply Permutation_swap|]. split; [done|].
    intros y [->|Hy]%elem_of_cons; [done|by apply Hr].
Qed.

Definition SelectionHeap : HeapQ E le.
Proof.
  refine {| heap := list E; elems := id; heapify := id;
            heappush := λ h e, e :: h; heappop := select_pop le |}; try done.
  - intros [|e l]; [done|]. simpl. done.
  - intros [|e l] m r; simpl; [done|]. intros [= Hs].
    by destruct (select_min_spec _ _ _ _ Hs) as (? & _ & ?).
Defined.
End selection_facts.
