(* ===== verification/RadixCache.v ===== *)
(** * The radix tree of cached prefixes ([mem_cache/radix_cache.py])

    The tree is a store of mutable nodes that point at each other (children
    dictionaries and parent pointers), as in the code: requests keep node
    references across later splits, so nodes are named by their [id] and every
    operation maps a store to a store.  A node leaves the store when
    [_delete_leaf] unlinks it.  [time.monotonic] is a stream of readings
    ([clock]) with a cursor in the state; the calls made to the KV event
    recorder are kept in [kv_log]. *)
From S2P Require Import Prelude RadixKey EvictPolicy.

(** ** Data *)

Record TreeNode := mkNode {
  children : gmap pyval nat;
  parent : option nat;
  nkey : RadixKey;
  value : option (list Z);
  lock_ref : Z;
  last_access_time : Z;
  creation_time : Z;
  hit_count : Z;
  hash_value : option (list string);
  event_hash_value : option (list string);
  priority : Z
}.

(** Field updates, as the code assigns attributes. *)
Definition set_children f n := mkNode (f (children n)) (parent n) (nkey n) (value n)
  (lock_ref n) (last_access_time n) (creation_time n) (hit_count n) (hash_value n)
  (event_hash_value n) (priority n).
Definition set_lock_ref x n := mkNode (children n) (parent n) (nkey n) (value n)
  x (last_access_time n) (creation_time n) (hit_count n) (hash_value n)
  (event_hash_value n) (priority n).
Definition set_last_access_time x n := mkNode (children n) (parent n) (nkey n) (value n)
  (lock_ref n) x (creation_time n) (hit_count n) (hash_value n)
  (event_hash_value n) (priority n).
Definition set_hit_count x n := mkNode (children n) (parent n) (nkey n) (value n)
  (lock_ref n) (last_access_time n) (creation_time n) x (hash_value n)
  (event_hash_value n) (priority n).
Definition set_priority x n := mkNode (children n) (parent n) (nkey n) (value n)
  (lock_ref n) (last_access_time n) (creation_time n) (hit_count n) (hash_value n)
  (event_hash_value n) x.

(** Calls made to [KVCacheEventRecorder]. *)
Inductive kv_call :=
  | record_store (node : nat)
  | record_remove (node : nat)
  | record_all_cleared.

Record RadixCache := mkCache {
  nodes : gmap nat TreeNode;
  root_node : nat;
  counter : nat;
  ticks : nat;
  evictable_size_ : Z;
  protected_size_ : Z;
  evictable_leaves : gset nat;
  kv_log : list kv_call
}.

Definition with_nodes m c := mkCache m (root_node c) (counter c) (ticks c)
  (evictable_size_ c) (protected_size_ c) (evictable_leaves c) (kv_log c).
Definition with_sizes ev pr c := mkCache (nodes c) (root_node c) (counter c) (ticks c)
  ev pr (evictable_leaves c) (kv_log c).
Definition with_leaves s c := mkCache (nodes c) (root_node c) (counter c) (ticks c)
  (evictable_size_ c) (protected_size_ c) s (kv_log c).
Definition log_call x c := mkCache (nodes c) (root_node c) (counter c) (ticks c)
  (evictable_size_ c) (protected_size_ c) (evictable_leaves c) (kv_log c ++ [x]).

(** [CacheInitParams], the part the tree itself reads. *)
Record cache_config := mkConfig {
  disable : bool;
  page_size : Z;
  is_eagle : bool;
  eviction_strategy : EvictionStrategy
}.

Record MatchResult := mkMatch {
  device_prefix_len : Z;
  last_device_node : nat
}.

Record InsertResult := mkInsert {
  prefix_len : Z;
  ins_last_device_node : option nat
}.

(** [sys.maxsize] on a 64-bit build. *)
Definition maxsize : Z := 2 ^ 63 - 1.

(** [split_node_hash_value] of [mem_cache/utils.py]. *)
Definition split_node_hash_value (child_hash_value : option (list string))
    (split_len page_size : Z) : option (list string) * option (list string) :=
  match child_hash_value with
  | None => (None, None)
  | Some h =>
      let split_pages := if page_size =? 1 then split_len else split_len / page_size in
      (Some (pytake h split_pages), Some (pydrop h split_pages))
  end.

(** ** Operations *)

Section ops.
Context (clock : nat → Z) (cfg : cache_config).
Abbreviation ps := (page_size cfg).

(** [time.monotonic()]. *)
Definition monotonic (c : RadixCache) : Z * RadixCache :=
  (clock (ticks c),
   mkCache (nodes c) (root_node c) (counter c) (S (ticks c)) (evictable_size_ c)
     (protected_size_ c) (evictable_leaves c) (kv_log c)).

(** A node reference is followed; one that left the store cannot be. *)
Definition get_node (c : RadixCache) (n : nat) : result TreeNode :=
  match nodes c !! n with Some x => Ok x | None => Raise KeyError end.

Definition update_node (f : TreeNode → TreeNode) (n : nat) (c : RadixCache) : RadixCache :=
  with_nodes (alter f n (nodes c)) c.

(** [TreeNode.__init__]: the new object with its id; the creator stores it
    once its fields are set. *)
Definition TreeNode_init (prio : Z) (c : RadixCache) : nat * TreeNode * RadixCache :=
  let '(t1, c) := monotonic c in
  let '(t2, c) := monotonic c in
  (counter c,
   mkNode ∅ None (RadixKey_init [] None false None None) None 0 t1 t2 0 None None prio,
   mkCache (nodes c) (root_node c) (S (counter c)) (ticks c) (evictable_size_ c)
     (protected_size_ c) (evictable_leaves c) (kv_log c)).

Definition evicted (x : TreeNode) : bool := bool_decide (value x = None).

Definition reset (c : RadixCache) : RadixCache :=
  let '(rid, x, c) := TreeNode_init (- maxsize) c in
  let root := mkNode ∅ None (RadixKey_init [] None false None None) (Some []) 1
                (last_access_time x) (creation_time x) 0 (Some []) None (priority x) in
  log_call record_all_cleared
    (mkCache {[ rid := root ]} rid (counter c) (ticks c) 0 0 ∅ (kv_log c)).

Definition _update_leaf_status (n : nat) (c : RadixCache) : result RadixCache :=
  let! x := get_node c n in
  if evicted x || (0 <? lock_ref x) then
    Ok (with_leaves (evictable_leaves c ∖ {[ n ]}) c)
  else
    let live_child :=
      existsb (λ k, match nodes c !! k with Some y => negb (evicted y) | None => false end)
        ((map_to_list (children x)).*2) in
    if live_child then Ok (with_leaves (evictable_leaves c ∖ {[ n ]}) c)
    else Ok (with_leaves ({[ n ]} ∪ evictable_leaves c) c).

Definition _split_node (key : RadixKey) (child : nat) (split_len : Z) (c : RadixCache) :
    result (nat * RadixCache) :=
  let! x := get_node c child in
  let '(nid, fresh, c) := TreeNode_init (priority x) c in
  let! ck_tail := child_key (kdrop key split_len) ps in
  let! ck := child_key key ps in
  let! v := match value x with Some v => Ok v | None => Raise TypeError end in
  let! p := match parent x with Some p => Ok p | None => Raise AttributeError end in
  let h := split_node_hash_value (hash_value x) split_len ps in
  let eh := split_node_hash_value (event_hash_value x) split_len ps in
  let new_node :=
    mkNode {[ ck_tail := child ]} (Some p) (ktake (nkey x) split_len)
      (Some (pytake v split_len)) (lock_ref x)
      (last_access_time fresh) (creation_time fresh) (hit_count x)
      (h.1) (eh.1) (priority fresh) in
  let child_node :=
    mkNode (children x) (Some nid) (kdrop (nkey x) split_len)
      (Some (pydrop v split_len)) (lock_ref x)
      (last_access_time x) (creation_time x) (hit_count x)
      (h.2) (eh.2) (priority x) in
  let m := <[ nid := new_node ]> (<[ child := child_node ]> (nodes c)) in
  Ok (nid, with_nodes (alter (set_children <[ ck := nid ]>) p m) c).

(** The loop of [_match_prefix_helper]; [value] collects the segments. *)
Fixpoint match_loop (fuel : nat) (access_time : Z) (node : nat) (key : RadixKey)
    (ck : pyval) (value_ : list (list Z)) (c : RadixCache) :
    result (list (list Z) * nat * RadixCache) :=
  match fuel with
  | O => Raise RuntimeError
  | S fuel =>
      let! x := get_node c node in
      match (if 0 <? klen key then children x !! ck else None) with
      | None => Ok (value_, node, c)
      | Some child =>
          let c := update_node (set_last_access_time access_time) child c in
          let! y := get_node c child in
          let! plen := kmatch (nkey y) key ps in
          if plen <? klen (nkey y) then
            let! (new_node, c) := _split_node (nkey y) child plen c in
            let! z := get_node c new_node in
            Ok (value_ ++ [default [] (value z)], new_node, c)
          else
            let key := kdrop key plen in
            let! ck := if negb (klen key =? 0) then child_key key ps else Ok ck in
            match_loop fuel access_time child key ck (value_ ++ [default [] (value y)]) c
      end
  end.

Definition _match_prefix_helper (node : nat) (key : RadixKey) (c : RadixCache) :
    result (list (list Z) * nat * RadixCache) :=
  let '(access_time, c) := monotonic c in
  let c := update_node (set_last_access_time access_time) node c in
  let! ck := child_key key ps in
  match_loop (S (Z.to_nat (klen key))) access_time node key ck [] c.

Definition empty_match_result (c : RadixCache) : MatchResult := mkMatch 0 (root_node c).

Definition match_prefix (key : RadixKey) (c : RadixCache) : result (MatchResult * RadixCache) :=
  let key := (maybe_to_bigram_view (V:=Z) key (is_eagle cfg) None).1 in
  if disable cfg || (klen key =? 0) then Ok (empty_match_result c, c)
  else
    let key := page_aligned key ps in
    if klen key =? 0 then Ok (empty_match_result c, c)
    else
      let! (v, last_node, c) := _match_prefix_helper (root_node c) key c in
      Ok (mkMatch (zsum (zlen <$> v)) last_node, c).

Definition touch_prefix (key : RadixKey) (c : RadixCache) : result RadixCache :=
  let key := (maybe_to_bigram_view (V:=Z) key (is_eagle cfg) None).1 in
  if disable cfg || (klen key =? 0) then Ok c
  else
    let key := page_aligned key ps in
    if klen key =? 0 then Ok c
    else let! (_, c) := _match_prefix_helper (root_node c) key c in Ok c.

Definition _inc_hit_count (n : nat) (c : RadixCache) : RadixCache :=
  update_node (λ x, set_hit_count (hit_count x + 1) x) n c.

(** The loop of [_insert_helper]: the walk down the tree.  Returns the node
    reached, the rest of the key and of the value, the child key last
    computed and the length matched. *)
Fixpoint insert_loop (fuel : nat) (access_time prio inserted_len : Z) (node : nat)
    (key : RadixKey) (value_ : list Z) (ck : pyval) (total_prefix_length : Z)
    (c : RadixCache) : result (nat * RadixKey * list Z * pyval * Z * RadixCache) :=
  match fuel with
  | O => Raise RuntimeError
  | S fuel =>
      let! x := get_node c node in
      match (if 0 <? klen key then children x !! ck else None) with
      | None => Ok (node, key, value_, ck, total_prefix_length, c)
      | Some child =>
          let c := update_node (set_last_access_time access_time) child c in
          let! y := get_node c child in
          let! plen := kmatch (nkey y) key ps in
          let total := total_prefix_length + plen in
          let key := kdrop key plen in
          let value_ := pydrop value_ plen in
          let! (node, c) :=
            if plen <? klen (nkey y) then
              let! (new_node, c) := _split_node (nkey y) child plen c in
              Ok (new_node, update_node (λ z, set_priority (Z.max (priority z) prio) z) new_node c)
            else
              Ok (child, update_node (λ z, set_priority (Z.max (priority z) prio) z) child c) in
          let c := if inserted_len <? total then _inc_hit_count node c else c in
          let! ck := if negb (klen key =? 0) then child_key key ps else Ok ck in
          insert_loop fuel access_time prio inserted_len node key value_ ck total c
      end
  end.

(** The end of [_insert_helper]: the rest of the key becomes a new leaf. *)
Definition insert_leaf (prio inserted_len : Z) (node : nat) (key : RadixKey)
    (value_ : list Z) (ck : pyval) (total_prefix_length : Z) (c : RadixCache) :
    result (nat * RadixCache) :=
  let '(nid, fresh, c) := TreeNode_init prio c in
  let hits := if inserted_len <? total_prefix_length + klen key then 1 else 0 in
  let new_node := mkNode ∅ (Some node) key (Some value_) 0 (last_access_time fresh)
                    (creation_time fresh) hits None None prio in
  let c := with_nodes (alter (set_children <[ ck := nid ]>) node
                         (<[ nid := new_node ]> (nodes c))) c in
  let c := with_sizes (evictable_size_ c + klen key) (protected_size_ c) c in
  let! c := _update_leaf_status node c in
  let! c := _update_leaf_status nid c in
  Ok (nid, log_call (record_store nid) c).

Definition _insert_helper (node : nat) (key : RadixKey) (value_ : list Z)
    (prio : option Z) (inserted_len : Z) (c : RadixCache) : result (Z * nat * RadixCache) :=
  let prio := default 0 prio in
  let '(access_time, c) := monotonic c in
  let c := update_node (set_last_access_time access_time) node c in
  let c := update_node (λ z, set_priority (Z.max (priority z) prio) z) node c in
  if klen key =? 0 then Ok (0, node, c)
  else
    let! ck := child_key key ps in
    let! (node, key, value_, ck, total, c) :=
      insert_loop (S (Z.to_nat (klen key))) access_time prio inserted_len node key value_ ck 0 c in
    if negb (klen key =? 0) then
      let! (node, c) := insert_leaf prio inserted_len node key value_ ck total c in
      Ok (total, node, c)
    else Ok (total, node, c).

Definition insert (key : RadixKey) (val : option (list Z)) (prio : option Z)
    (inserted_len : Z) (c : RadixCache) : result (InsertResult * RadixCache) :=
  if disable cfg then Ok (mkInsert 0 None, c)
  else
    let '(key, val) := maybe_to_bigram_view key (is_eagle cfg) val in
    let key := page_aligned key ps in
    let val := match val with
               | Some v => pytake v (klen key)
               | None => pytake (token_ids key) (klen key)
               end in
    let! (plen, last_node, c) := _insert_helper (root_node c) key val prio inserted_len c in
    Ok (mkInsert plen (Some last_node), c).

(** ** Locking *)

Fixpoint inc_lock_loop (fuel : nat) (node : nat) (delta : Z) (c : RadixCache) :
    result (Z * RadixCache) :=
  match fuel with
  | O => Raise RuntimeError
  | S fuel =>
      if (node =? root_node c)%nat then Ok (delta, c)
      else
        let! x := get_node c node in
        let len := klen (nkey x) in
        let '(delta, c) :=
          if lock_ref x =? 0 then
            (delta - len, with_sizes (evictable_size_ c - len) (protected_size_ c + len) c)
          else (delta, c) in
        let c := update_node (set_lock_ref (lock_ref x + 1)) node c in
        let! c := _update_leaf_status node c in
        match parent x with
        | Some p => inc_lock_loop fuel p delta c
        | None => Raise AttributeError
        end
  end.

Definition inc_lock_ref (node : nat) (c : RadixCache) : result (Z * RadixCache) :=
  if disable cfg then Ok (0, c)
  else inc_lock_loop (S (size (nodes c))) node 0 c.

Fixpoint dec_lock_loop (fuel : nat) (node : nat) (delta : Z) (c : RadixCache) :
    result (Z * RadixCache) :=
  match fuel with
  | O => Raise RuntimeError
  | S fuel =>
      if (node =? root_node c)%nat then Ok (delta, c)
      else
        let! x := get_node c node in
        let len := klen (nkey x) in
        let '(delta, c) :=
          if lock_ref x =? 1 then
            (delta + len, with_sizes (evictable_size_ c + len) (protected_size_ c - len) c)
          else (delta, c) in
        let c := update_node (set_lock_ref (lock_ref x - 1)) node c in
        let! c := _update_leaf_status node c in
        match parent x with
        | Some p => dec_lock_loop fuel p delta c
        | None => Raise AssertionError
        end
  end.

Definition dec_lock_ref (node : nat) (c : RadixCache) : result (Z * RadixCache) :=
  if disable cfg then Ok (0, c)
  else dec_lock_loop (S (size (nodes c))) node 0 c.

(** ** Eviction *)

Definition view_of (x : TreeNode) : node_view :=
  mkView (hit_count x) (last_access_time x) (creation_time x) (priority x)
    (klen (nkey x)) 0 0.

(** A heap entry compares by priority, then by the node's [__lt__]. *)
Definition entry : Type := list Z * nat * Z.
Definition entry_le (a b : entry) : bool :=
  lex_leb (a.1.1 ++ [a.2]) (b.1.1 ++ [b.2]).

Definition mk_entry (n : nat) (x : TreeNode) : entry :=
  (get_priority (eviction_strategy cfg) (view_of x), n, last_access_time x).

Definition _delete_leaf (n : nat) (c : RadixCache) : result RadixCache :=
  let! x := get_node c n in
  let! ck := child_key (nkey x) ps in
  let! p := match parent x with Some p => Ok p | None => Raise AttributeError end in
  let! y := get_node c p in
  assert! bool_decide (children y !! ck = Some n) in
  let c := with_nodes (delete n (alter (set_children (delete ck)) p (nodes c))) c in
  let c := with_sizes (evictable_size_ c - klen (nkey x)) (protected_size_ c) c in
  let c := with_leaves (evictable_leaves c ∖ {[ n ]}) c in
  _update_leaf_status p c.

Section with_heap.
Context {HQ : HeapQ entry entry_le}.

(** The loop of [evict]; [freed] collects the segments handed to
    [free_segment]. *)
Fixpoint evict_loop (fuel : nat) (num_tokens : Z) (h : heap HQ) (num_evicted : Z)
    (freed : list (list Z)) (c : RadixCache) :
    result (Z * list (list Z) * RadixCache) :=
  match fuel with
  | O => Raise RuntimeError
  | S fuel =>
      if num_evicted <? num_tokens then
        match heappop h with
        | None => Ok (num_evicted, freed, c)
        | Some ((_, x_id, _), h) =>
            let! x := get_node c x_id in
            let! v := match value x with Some v => Ok v | None => Raise TypeError end in
            let num_evicted := num_evicted + zlen v in
            let! c := _delete_leaf x_id c in
            let! p := match parent x with Some p => Ok p | None => Raise AttributeError end in
            let! y := get_node c p in
            let h := if bool_decide (children y = ∅) && (lock_ref y =? 0)
                     then heappush h (mk_entry p y) else h in
            evict_loop fuel num_tokens h num_evicted (freed ++ [v])
              (log_call (record_remove x_id) c)
        end
      else Ok (num_evicted, freed, c)
  end.

(** [leaves] is [list(self.evictable_leaves)], in whatever order. *)
Definition evict (num_tokens : Z) (leaves : list nat) (c : RadixCache) :
    result (Z * list (list Z) * RadixCache) :=
  if disable cfg then Ok (0, [], c)
  else
    let entries := omap (λ n, mk_entry n <$> nodes c !! n) leaves in
    evict_loop (S (size (nodes c))) num_tokens (heapify entries) 0 [] c.
End with_heap.

(** ** Observers *)

Definition evictable_size (c : RadixCache) : Z := evictable_size_ c.
Definition protected_size (c : RadixCache) : Z := protected_size_ c.

Fixpoint path_loop (fuel : nat) (node : nat) (values : list (list Z)) (c : RadixCache) :
    result (list (list Z)) :=
  match fuel with
  | O => Raise RuntimeError
  | S fuel =>
      if (node =? root_node c)%nat then Ok values
      else
        let! x := get_node c node in
        let! v := match value x with Some v => Ok v | None => Raise TypeError end in
        match parent x with
        | Some p => path_loop fuel p (values ++ [v]) c
        | None => Raise AttributeError
        end
  end.

Definition path_device_indices (node : nat) (c : RadixCache) : result (list Z) :=
  let! values := path_loop (S (size (nodes c))) node [] c in
  Ok (mjoin (reverse values)).

Fixpoint total_size_loop (fuel : nat) (stack : list nat) (total_size : Z) (c : RadixCache) :
    result Z :=
  match fuel with
  | O => Raise RuntimeError
  | S fuel =>
      match stack with
      | [] => Ok total_size
      | n :: stack =>
          let! x := get_node c n in
          let total_size := total_size + zlen (default [] (value x)) in
          let kids := List.filter (λ k, match nodes c !! k with
                                        | Some y => negb (evicted y) | None => false end)
                        ((map_to_list (children x)).*2) in
          total_size_loop fuel (reverse kids ++ stack) total_size c
      end
  end.

Definition total_size (c : RadixCache) : result Z :=
  total_size_loop (S (size (nodes c))) [root_node c] 0 c.
End ops.
