(* ===== verification/RadixInv.v ===== *)
(** * Invariant of the radix tree

    [core_inv] states what the store of nodes means as a tree: parent pointers
    and children dictionaries agree, every node below the root holds whole
    pages and as many slots as units, the paths [P] (units) and [V] (slots) from
    the root are the concatenations along the parent chain, the lock counts are
    the held locks summed over the subtree, the two size counters and the leaf
    set are exact.  The lemmas show that the four structural changes the code
    makes (split, new leaf, deleted leaf, one lock step) keep it. *)
From stdpp Require Import functions.
From S2P Require Import Prelude RadixKey EvictPolicy RadixCache.

(** ** The part of the state the invariant reads *)

Record ncore := NC {
  nc_children : gmap pyval nat;
  nc_parent : option nat;
  nc_key : RadixKey;
  nc_value : option (list Z);
  nc_lock : Z
}.

Definition core (x : TreeNode) : ncore :=
  NC (children x) (parent x) (nkey x) (value x) (lock_ref x).

Record cstate := CS {
  cs_nodes : gmap nat ncore;
  cs_root : nat;
  cs_ctr : nat;
  cs_ev : Z;
  cs_pr : Z;
  cs_lv : gset nat
}.

Definition core_of (c : RadixCache) : cstate :=
  CS (core <$> nodes c) (root_node c) (counter c) (evictable_size_ c) (protected_size_ c)
     (evictable_leaves c).

(** ** The invariant *)

Section inv.
Context (ps : Z).

(** The dict key of a node's key, when it covers a page. *)
Definition ckey (k : RadixKey) : pyval :=
  namespace_wrap (knamespace k) (plain_key (first_page ps k)).

(** Keys the tree stores: capped at no negative length, whole pages. *)
Record page_key (k : RadixKey) : Prop := {
  pk_wf : wf_key k;
  pk_salt : cache_salt k ≠ Some "";
  pk_pos : 0 < klen k;
  pk_page : (ps | klen k)
}.

Definition lock_of (m : gmap nat ncore) (n : nat) : Z := from_option nc_lock 0 (m !! n).

Definition child_locks (m : gmap nat ncore) (x : ncore) : Z :=
  msum (λ _ k, lock_of m k) (nc_children x).

(** A node below the root. *)
Record node_ok (m : gmap nat ncore) (root : nat) (P : nat → list logical_unit)
    (V : nat → list Z) (H : nat → Z) (n : nat) (x : ncore) : Prop := {
  no_key : page_key (nc_key x);
  no_link : ∃ p y v,
    nc_parent x = Some p ∧ m !! p = Some y ∧
    nc_children y !! ckey (nc_key x) = Some n ∧
    nc_value x = Some v ∧ zlen v = klen (nc_key x) ∧
    P n = P p ++ units (nc_key x) ∧ V n = V p ++ v ∧
    (p ≠ root → knamespace (nc_key x) = knamespace (nc_key y));
  no_lock0 : 0 ≤ nc_lock x;
  no_lock : nc_lock x = H n + child_locks m x
}.

Definition ev_size (root n : nat) (x : ncore) : Z :=
  if decide (n = root) then 0 else if nc_lock x =? 0 then klen (nc_key x) else 0.
Definition pr_size (root n : nat) (x : ncore) : Z :=
  if decide (n = root) then 0 else if nc_lock x =? 0 then 0 else klen (nc_key x).

(** [n] is an unlocked node without children. *)
Definition is_leaf (m : gmap nat ncore) (root n : nat) : Prop :=
  n ≠ root ∧ ∃ x, m !! n = Some x ∧ nc_lock x = 0 ∧ nc_children x = ∅.

(** [H n] counts the locks held on [n] itself; [X] is the set of nodes whose
    leaf status is still to be refreshed. *)
Record core_inv (s : cstate) (P : nat → list logical_unit) (V : nat → list Z)
    (H : nat → Z) (X : gset nat) : Prop := {
  ci_root : ∃ r, cs_nodes s !! cs_root s = Some r ∧ nc_parent r = None ∧
                 nc_value r = Some [] ∧ 1 ≤ nc_lock r;
  ci_P : P (cs_root s) = [];
  ci_V : V (cs_root s) = [];
  ci_node : ∀ n x, cs_nodes s !! n = Some x → n ≠ cs_root s →
                   node_ok (cs_nodes s) (cs_root s) P V H n x;
  ci_child : ∀ p y k n, cs_nodes s !! p = Some y → nc_children y !! k = Some n →
    n ≠ cs_root s ∧
    ∃ x, cs_nodes s !! n = Some x ∧ nc_parent x = Some p ∧ ckey (nc_key x) = k;
  ci_ctr : ∀ n, (cs_ctr s ≤ n)%nat → cs_nodes s !! n = None;
  ci_H : ∀ n, cs_nodes s !! n = None → H n = 0;
  ci_ev : cs_ev s = msum (ev_size (cs_root s)) (cs_nodes s);
  ci_pr : cs_pr s = msum (pr_size (cs_root s)) (cs_nodes s);
  ci_lv : ∀ n, n ∉ X → (n ∈ cs_lv s ↔ is_leaf (cs_nodes s) (cs_root s) n)
}.
End inv.

(** ** Keys *)

Section keys.
Context (ps : Z) (Hps : 0 < ps).

Lemma page_key_ge k : page_key ps k → ps ≤ klen k.
Proof. intros [_ _ ? ?]. by apply Z.divide_pos_le. Qed.

Lemma child_key_ckey k : page_key ps k → child_key k ps = Ok (ckey ps k).
Proof. intros Hk. apply child_key_units; [done|apply Hk|by apply page_key_ge]. Qed.

Lemma ckey_eq k1 k2 :
  page_key ps k1 → page_key ps k2 →
  ckey ps k1 = ckey ps k2 ↔
  knamespace k1 = knamespace k2 ∧ first_page ps k1 = first_page ps k2.
Proof.
  intros H1 H2. rewrite <- child_key_eq_iff;
    [|done|apply H1|apply H2|by apply page_key_ge..].
  rewrite !child_key_ckey by done. split; [by intros ->|by intros [= ->]].
Qed.

(** The first page tells bigram keys from plain ones. *)
Lemma first_page_bigram k1 k2 :
  page_key ps k1 → page_key ps k2 → first_page ps k1 = first_page ps k2 →
  is_bigram k1 = is_bigram k2.
Proof.
  intros H1 H2 E. pose proof (page_key_ge _ H1) as L1. pose proof (page_key_ge _ H2) as L2.
  rewrite klen_units in L1, L2 by (apply H1 || apply H2).
  unfold first_page, units, zlen in *.
  destruct (Z.to_nat ps) as [|q] eqn:Eq; [lia|].
  destruct (is_bigram k1), (is_bigram k2); try done;
    destruct (raw_token_ids k1) as [|a [|a' l1]], (raw_token_ids k2) as [|b [|b' l2]];
    simpl in *; (done || lia).
Qed.

Lemma page_key_ktake k j :
  page_key ps k → 0 < j ≤ klen k → (ps | j) → page_key ps (ktake k j).
Proof.
  intros Hk Hj Hd. split; [apply kslice_wf|apply kslice_salt|..];
    (rewrite klen_ktake; [|apply Hk|lia]); [lia|done].
Qed.

Lemma page_key_kdrop k j :
  page_key ps k → 0 ≤ j < klen k → (ps | j) → page_key ps (kdrop k j).
Proof.
  intros Hk Hj Hd. split; [apply kslice_wf|apply kslice_salt|..];
    (rewrite klen_kdrop; [|apply Hk|lia]); [lia|].
  apply Z.divide_sub_r; [apply Hk|done].
Qed.

Lemma ckey_ktake k j :
  page_key ps k → ps ≤ j ≤ klen k → ckey ps (ktake k j) = ckey ps k.
Proof.
  intros Hk Hj. unfold ckey, ktake. rewrite kslice_namespace by apply Hk.
  f_equal. f_equal. unfold first_page. change (kslice _ _ _) with (ktake k j).
  rewrite units_ktake by (apply Hk || lia). rewrite take_take. f_equal. lia.
Qed.
End keys.

Lemma namespace_kdrop ps k j : page_key ps k → knamespace (kdrop k j) = knamespace k.
Proof. intros Hk. apply kslice_namespace, Hk. Qed.

Lemma namespace_ktake ps k j : page_key ps k → knamespace (ktake k j) = knamespace k.
Proof. intros Hk. apply kslice_namespace, Hk. Qed.

Lemma units_split k j :
  wf_key k → 0 ≤ j ≤ klen k → units (ktake k j) ++ units (kdrop k j) = units k.
Proof. intros. rewrite units_ktake, units_kdrop by done. apply take_drop. Qed.

(** ** Locks *)

Lemma lock_of_insert m n x k :
  lock_of (<[n:=x]> m) k = if decide (n = k) then nc_lock x else lock_of m k.
Proof. unfold lock_of. rewrite lookup_insert. by case_decide. Qed.

Lemma child_locks_ext m m' x :
  (∀ k n, nc_children x !! k = Some n → lock_of m' n = lock_of m n) →
  child_locks m' x = child_locks m x.
Proof. intros. by apply msum_ext. Qed.

(** A parent is strictly closer to the root. *)
Lemma node_ok_depth ps m root P V H n x p :
  node_ok ps m root P V H n x → nc_parent x = Some p → (length (P p) < length (P n))%nat.
Proof.
  intros [[Hwf _ Hpos _] (q & z & w & Hq & _ & _ & _ & _ & HP & _) _ _] Hp.
  rewrite Hp in Hq. simplify_eq. rewrite HP, length_app.
  rewrite klen_units in Hpos by done. unfold zlen in Hpos. lia.
Qed.

(** ** Split *)

Section split.
Context (ps : Z) (Hps : 0 < ps).
Context (s : cstate) (P : nat → list logical_unit) (V : nat → list Z) (H : nat → Z).
Context (X : gset nat) (Hinv : core_inv ps s P V H X).
Context (child p : nat) (x y : ncore) (v : list Z) (j : Z).
Context (Hx : cs_nodes s !! child = Some x) (Hxr : child ≠ cs_root s).
Context (Hp : nc_parent x = Some p) (Hy : cs_nodes s !! p = Some y).
Context (Hv : nc_value x = Some v) (Hj : ps ≤ j < klen (nc_key x)) (Hjd : (ps | j)).

Let m := cs_nodes s.
Let nid := cs_ctr s.
Let k := nc_key x.
Definition split_new : ncore :=
  NC {[ ckey ps (kdrop k j) := child ]} (Some p) (ktake k j) (Some (pytake v j)) (nc_lock x).
Definition split_child : ncore :=
  NC (nc_children x) (Some nid) (kdrop k j) (Some (pydrop v j)) (nc_lock x).
Definition split_parent : ncore :=
  NC (<[ ckey ps k := nid ]> (nc_children y)) (nc_parent y) (nc_key y) (nc_value y) (nc_lock y).
Definition split_nodes : gmap nat ncore :=
  <[ p := split_parent ]> (<[ nid := split_new ]> (<[ child := split_child ]> m)).
Definition split_state : cstate :=
  CS split_nodes (cs_root s) (S nid) (cs_ev s) (cs_pr s) (cs_lv s).
Definition split_P : nat → list logical_unit := <[ nid := P p ++ units (ktake k j) ]> P.
Definition split_V : nat → list Z := <[ nid := V p ++ pytake v j ]> V.

Lemma split_nid_fresh : m !! nid = None.
Proof. by apply (ci_ctr _ _ _ _ _ _ Hinv). Qed.

Lemma split_ne : nid ≠ child ∧ nid ≠ p ∧ p ≠ child ∧ nid ≠ cs_root s.
Proof.
  pose proof split_nid_fresh as Hf. destruct (ci_root _ _ _ _ _ _ Hinv) as (r & Hr & _).
  repeat split; intros E; try (unfold m in Hf; rewrite E in Hf; congruence).
  pose proof (node_ok_depth _ _ _ _ _ _ _ _ _ (ci_node _ _ _ _ _ _ Hinv _ _ Hx Hxr) Hp).
  subst. lia.
Qed.

(** Lookups in the new store. *)
Lemma split_lookup n : split_nodes !! n =
  if decide (n = p) then Some split_parent
  else if decide (n = nid) then Some split_new
  else if decide (n = child) then Some split_child
  else m !! n.
Proof.
  unfold split_nodes. rewrite !lookup_insert.
  repeat (case_decide; [by destruct_decide (decide (n = _)); simplify_eq; try done|]).
  repeat case_decide; congruence.
Qed.

Lemma split_page_key : page_key ps k.
Proof. by destruct (ci_node _ _ _ _ _ _ Hinv _ _ Hx Hxr) as [? _ _ _]. Qed.

Lemma split_lock_of n : n ≠ nid → lock_of split_nodes n = lock_of m n.
Proof.
  intros Hn. unfold lock_of. rewrite split_lookup. case_decide as Hd; [subst n; unfold m; by rewrite Hy|].
  rewrite decide_False by done. case_decide; [subst n; unfold m; by rewrite Hx|done].
Qed.

Lemma split_in_old n z q w : m !! q = Some w → nc_children w !! z = Some n → n ≠ nid.
Proof.
  intros Hq Hz ->. destruct (ci_child _ _ _ _ _ _ Hinv _ _ _ _ Hq Hz) as (_ & ? & Hn & _).
  pose proof split_nid_fresh. unfold m in *. congruence.
Qed.

Lemma split_child_locks_other q w :
  m !! q = Some w → child_locks split_nodes w = child_locks m w.
Proof.
  intros Hq. apply child_locks_ext. intros z n Hz. apply split_lock_of. by eapply split_in_old.
Qed.

Lemma split_ckey_child : nc_children y !! ckey ps k = Some child.
Proof.
  destruct (ci_node _ _ _ _ _ _ Hinv _ _ Hx Hxr) as [_ Hl _ _].
  destruct Hl as (q & z & w & Hq & Hz & Hc & _). rewrite Hp in Hq. simplify_eq. done.
Qed.

Lemma split_child_locks_parent : child_locks split_nodes split_parent = child_locks m y.
Proof.
  unfold child_locks at 1. simpl. rewrite (msum_update _ _ _ _ _ split_ckey_child).
  change (msum _ (nc_children y)) with (child_locks split_nodes y).
  rewrite (split_child_locks_other p) by done.
  rewrite (split_lock_of child) by (apply not_eq_sym, split_ne).
  unfold lock_of. unfold m at 2. rewrite Hx. rewrite split_lookup.
  destruct split_ne as (_ & ? & _). rewrite decide_False, decide_True by done. simpl. lia.
Qed.

Lemma split_child_locks_new : child_locks split_nodes split_new = nc_lock x.
Proof.
  unfold child_locks. simpl.
  change {[ckey ps (kdrop k j) := child]} with (<[ckey ps (kdrop k j) := child]> (∅ : gmap pyval nat)).
  rewrite msum_insert by apply lookup_empty. rewrite msum_empty.
  rewrite split_lock_of by (apply not_eq_sym, split_ne). unfold lock_of, m. rewrite Hx. simpl. lia.
Qed.

Lemma split_P_other n : n ≠ nid → split_P n = P n.
Proof. intros. unfold split_P. by rewrite fn_lookup_insert_ne. Qed.
Lemma split_V_other n : n ≠ nid → split_V n = V n.
Proof. intros. unfold split_V. by rewrite fn_lookup_insert_ne. Qed.

Lemma split_klen : 0 ≤ j ≤ klen k.
Proof. unfold k. lia. Qed.

(** The new node, the shortened child, the relinked parent and the rest. *)
Lemma split_node_new : node_ok ps split_nodes (cs_root s) split_P split_V H nid split_new.
Proof.
  destruct split_ne as (Hne1 & Hne2 & Hne3 & Hne4).
  destruct (ci_node _ _ _ _ _ _ Hinv _ _ Hx Hxr) as [Hk Hl Hl0 Hl1].
  destruct Hl as (q & z & w & Hq & Hz & Hc & Hw & Hlen & HP & HV & Hns).
  assert (q = p) as -> by congruence. assert (z = y) as -> by congruence.
  assert (w = v) as -> by congruence. split.
  - apply page_key_ktake; [done|unfold k; lia|done].
  - exists p, split_parent, (pytake v j). simpl. split; [done|].
    rewrite split_lookup, decide_True by done. split; [done|].
    rewrite ckey_ktake by (done || unfold k; lia). rewrite lookup_insert_eq. split; [done|].
    split; [done|]. split.
    { rewrite zlen_pytake by lia. rewrite klen_ktake by (apply Hk || apply split_klen). lia. }
    rewrite (split_P_other p), (split_V_other p) by done.
    unfold split_P, split_V. rewrite !fn_lookup_insert. split; [done|]. split; [done|].
    intros Hr. rewrite (namespace_ktake ps) by done. by apply Hns.
  - done.
  - rewrite split_child_locks_new. simpl.
    rewrite (ci_H _ _ _ _ _ _ Hinv nid) by apply split_nid_fresh. lia.
Qed.

Lemma split_node_child : node_ok ps split_nodes (cs_root s) split_P split_V H child split_child.
Proof.
  destruct split_ne as (Hne1 & Hne2 & Hne3 & Hne4).
  destruct (ci_node _ _ _ _ _ _ Hinv _ _ Hx Hxr) as [Hk Hl Hl0 Hl1].
  destruct Hl as (q & z & w & Hq & Hz & Hc & Hw & Hlen & HP & HV & Hns).
  assert (q = p) as -> by congruence. assert (z = y) as -> by congruence.
  assert (w = v) as -> by congruence. split.
  - apply page_key_kdrop; [done|unfold k; lia|done].
  - exists nid, split_new, (pydrop v j). simpl. split; [done|].
    rewrite split_lookup, decide_False, decide_True by done. split; [done|].
    rewrite lookup_singleton_eq. split; [done|]. split; [done|]. split.
    { rewrite zlen_pydrop by lia. rewrite klen_kdrop by (apply Hk || apply split_klen).
      unfold k in *. lia. }
    rewrite (split_P_other child), (split_V_other child) by done.
    unfold split_P, split_V. rewrite !fn_lookup_insert.
    rewrite <- !app_assoc, pytake_pydrop by lia. unfold k.
    rewrite units_split by (apply Hk || lia). split; [done|]. split; [done|]. intros _.
    rewrite (namespace_ktake ps), (namespace_kdrop ps) by done. done.
  - done.
  - change (child_locks split_nodes split_child) with (child_locks split_nodes x).
    by rewrite (split_child_locks_other child).
Qed.

Lemma split_node_parent :
  p ≠ cs_root s → node_ok ps split_nodes (cs_root s) split_P split_V H p split_parent.
Proof.
  intros Hpr. destruct split_ne as (Hne1 & Hne2 & Hne3 & Hne4).
  pose proof (ci_node _ _ _ _ _ _ Hinv _ _ Hy Hpr) as Hok.
  assert (∀ q, nc_parent y = Some q → q ≠ p ∧ q ≠ nid) as Hq.
  { intros q Hq. pose proof (node_ok_depth _ _ _ _ _ _ _ _ _ Hok Hq). split; [intros ->; lia|].
    intros E. destruct Hok as [_ (q' & ? & ? & ? & ? & _) _ _].
    assert (q' = q) as -> by congruence.
    pose proof split_nid_fresh as F. rewrite <- E in F. unfold m in F. congruence. }
  destruct Hok as [Hk (q & z & w & Hpq & Hz & Hc & Hw & Hlen & HP & HV & Hns) Hl0 Hl1].
  destruct (Hq q Hpq) as [Hq1 Hq2]. split; simpl.
  - done.
  - rewrite (split_P_other p), (split_V_other p) by done.
    destruct (decide (q = child)) as [->|Hqc].
    + (* the parent of [p] cannot be its own child *)
      pose proof (node_ok_depth _ _ _ _ _ _ _ _ _ (ci_node _ _ _ _ _ _ Hinv _ _ Hx Hxr) Hp).
      pose proof (node_ok_depth _ _ _ _ _ _ _ _ _ (ci_node _ _ _ _ _ _ Hinv _ _ Hy Hpr) Hpq). lia.
    + exists q, z, w. split; [done|]. rewrite split_lookup, !decide_False by done.
      rewrite (split_P_other q), (split_V_other q) by done. done.
  - done.
  - by rewrite split_child_locks_parent.
Qed.

Lemma split_node_other n z :
  m !! n = Some z → n ≠ p → n ≠ child → n ≠ cs_root s →
  node_ok ps split_nodes (cs_root s) split_P split_V H n z.
Proof.
  intros Hn Hnp Hnc Hnr. destruct split_ne as (Hne1 & Hne2 & Hne3 & Hne4).
  assert (n ≠ nid).
  { intros E. pose proof split_nid_fresh as F. rewrite <- E in F. unfold m in *. congruence. }
  destruct (ci_node _ _ _ _ _ _ Hinv _ _ Hn Hnr)
    as [Hk (q & z' & w & Hpq & Hz & Hc & Hw & Hlen & HP & HV & Hns) Hl0 Hl1].
  assert (q ≠ nid).
  { intros E. pose proof split_nid_fresh as F. rewrite <- E in F. unfold m in *. congruence. }
  split; [done| |done|by rewrite (split_child_locks_other n)].
  rewrite (split_P_other n), (split_V_other n) by done.
  destruct (decide (q = p)) as [->|Hqp].
  { exists p, split_parent, w. rewrite split_lookup, decide_True by done.
    rewrite (split_P_other p), (split_V_other p) by done. simplify_eq. simpl.
    rewrite lookup_insert_ne; [done|]. intros E.
    pose proof split_ckey_child. rewrite E in *. unfold k in *. congruence. }
  destruct (decide (q = child)) as [->|Hqc].
  { exists child, split_child, w. rewrite split_lookup, !decide_False, decide_True by done.
    rewrite (split_P_other child), (split_V_other child) by done. simplify_eq. simpl.
    split; [done|]. split; [done|]. split; [done|]. split; [done|]. split; [done|].
    split; [done|]. split; [done|]. intros.
    rewrite (namespace_kdrop ps) by apply split_page_key. by apply Hns. }
  exists q, z', w. rewrite split_lookup, !decide_False by done.
  rewrite (split_P_other q), (split_V_other q) by done. done.
Qed.

Lemma split_child_link q w z n :
  split_nodes !! q = Some w → nc_children w !! z = Some n →
  n ≠ cs_root s ∧
  ∃ x', split_nodes !! n = Some x' ∧ nc_parent x' = Some q ∧ ckey ps (nc_key x') = z.
Proof.
  destruct split_ne as (Hne1 & Hne2 & Hne3 & Hne4).
  rewrite split_lookup. intros Hq Hz. case_decide as Eqp.
  - subst q. simplify_eq. simpl in Hz. apply lookup_insert_Some in Hz as [[<- <-]|[Hzk Hz]].
    + split; [done|]. exists split_new. rewrite split_lookup, decide_False, decide_True by done.
      split; [done|]. split; [done|]. apply ckey_ktake; [done|apply split_page_key|unfold k; lia].
    + destruct (ci_child _ _ _ _ _ _ Hinv _ _ _ _ Hy Hz) as (Hr & x' & Hn & Hnp & Hnk).
      split; [done|]. exists x'.
      pose proof (split_in_old _ _ _ _ Hy Hz) as Hnn.
      assert (n ≠ child) by (intros ->; apply Hzk; unfold k; congruence).
      assert (n ≠ p).
      { intros ->. pose proof (node_ok_depth _ _ _ _ _ _ _ _ _ (ci_node _ _ _ _ _ _ Hinv _ _ Hn Hr) Hnp). lia. }
      rewrite split_lookup, !decide_False by done. done.
  - case_decide as Eqn.
    + simplify_eq. simpl in Hz. apply lookup_singleton_Some in Hz as [<- <-]. split; [done|].
      exists split_child. rewrite split_lookup, !decide_False, decide_True by done. done.
    + case_decide as Eqc.
      * simplify_eq. simpl in Hz.
        destruct (ci_child _ _ _ _ _ _ Hinv _ _ _ _ Hx Hz) as (Hr & x' & Hn & Hnp & Hnk).
        pose proof (split_in_old _ _ _ _ Hx Hz) as Hnn.
        pose proof (node_ok_depth _ _ _ _ _ _ _ _ _ (ci_node _ _ _ _ _ _ Hinv _ _ Hn Hr) Hnp).
        pose proof (node_ok_depth _ _ _ _ _ _ _ _ _ (ci_node _ _ _ _ _ _ Hinv _ _ Hx Hxr) Hp).
        assert (n ≠ child) by (intros ->; lia). assert (n ≠ p) by (intros ->; lia).
        split; [done|]. exists x'. rewrite split_lookup, !decide_False by done. done.
      * destruct (ci_child _ _ _ _ _ _ Hinv _ _ _ _ Hq Hz) as (Hr & x' & Hn & Hnp & Hnk).
        pose proof (split_in_old _ _ _ _ Hq Hz) as Hnn. split; [done|].
        assert (n ≠ child) by (intros ->; congruence).
        rewrite split_lookup. case_decide as Enp.
        { subst n. exists split_parent. split; [done|]. simpl. assert (x' = y) as -> by congruence. done. }
        rewrite !decide_False by done. by exists x'.
Qed.

Lemma split_msum (f : nat → ncore → Z) :
  f p split_parent = f p y → f nid split_new + f child split_child = f child x →
  msum f split_nodes = msum f m.
Proof.
  intros E1 E2. destruct split_ne as (Hne1 & Hne2 & Hne3 & Hne4). unfold split_nodes.
  assert (<[nid:=split_new]> (<[child:=split_child]> m) !! p = Some y).
  { rewrite !lookup_insert_ne by done. done. }
  rewrite (msum_update _ _ p y) by done.
  rewrite msum_insert by (rewrite lookup_insert_ne by done; apply split_nid_fresh).
  rewrite (msum_update _ _ child x) by done. lia.
Qed.

Lemma split_is_leaf n : is_leaf split_nodes (cs_root s) n ↔ is_leaf m (cs_root s) n.
Proof.
  destruct split_ne as (Hne1 & Hne2 & Hne3 & Hne4). unfold is_leaf. rewrite split_lookup.
  f_equiv. case_decide as E1; [subst n|case_decide as E2; [subst n|case_decide as E3; [subst n|done]]].
  - split; intros (z & Hz & _ & Hc); exfalso; simplify_eq.
    + simpl in Hc. by apply (insert_non_empty (nc_children y) (ckey ps k) nid).
    + assert (z = y) as -> by (unfold m in *; congruence). pose proof split_ckey_child. by rewrite Hc in *.
  - split; intros (z & Hz & _ & Hc); exfalso.
    + injection Hz as <-. simpl in Hc. by apply map_non_empty_singleton in Hc.
    + pose proof split_nid_fresh. congruence.
  - split; intros (z & Hz & Hl & Hc).
    + simplify_eq. by exists x.
    + exists split_child. assert (z = x) as -> by (unfold m in *; congruence). done.
Qed.

Lemma core_inv_split : core_inv ps split_state split_P split_V H X.
Proof.
  destruct split_ne as (Hne1 & Hne2 & Hne3 & Hne4). split; simpl.
  - destruct (ci_root _ _ _ _ _ _ Hinv) as (r & Hr & Hr1 & Hr2 & Hr3). rewrite split_lookup.
    case_decide as E1.
    { exists split_parent. simpl. subst p. assert (r = y) as -> by congruence. done. }
    rewrite !decide_False by done. by exists r.
  - rewrite split_P_other by done. apply (ci_P _ _ _ _ _ _ Hinv).
  - rewrite split_V_other by done. apply (ci_V _ _ _ _ _ _ Hinv).
  - intros n z Hn Hr. rewrite split_lookup in Hn.
    case_decide; [subst; simplify_eq; by apply split_node_parent|].
    case_decide; [subst; simplify_eq; apply split_node_new|].
    case_decide; [subst; simplify_eq; apply split_node_child|].
    by apply split_node_other.
  - intros q w z n. apply split_child_link.
  - intros n Hn. rewrite split_lookup.
    rewrite decide_False by (intros ->; rewrite (ci_ctr _ _ _ _ _ _ Hinv) in Hy; [done|unfold nid in *; lia]).
    rewrite decide_False by (unfold nid in *; lia).
    rewrite decide_False by (intros ->; rewrite (ci_ctr _ _ _ _ _ _ Hinv) in Hx; [done|unfold nid in *; lia]).
    apply (ci_ctr _ _ _ _ _ _ Hinv). unfold nid in *. lia.
  - intros n. rewrite split_lookup. repeat case_decide; try done. apply (ci_H _ _ _ _ _ _ Hinv).
  - rewrite split_msum; [apply (ci_ev _ _ _ _ _ _ Hinv)|done|].
    unfold ev_size. rewrite !decide_False by done. simpl.
    rewrite klen_ktake, klen_kdrop by (apply split_page_key || apply split_klen).
    unfold k. zbool; lia.
  - rewrite split_msum; [apply (ci_pr _ _ _ _ _ _ Hinv)|done|].
    unfold pr_size. rewrite !decide_False by done. simpl.
    rewrite klen_ktake, klen_kdrop by (apply split_page_key || apply split_klen).
    unfold k. zbool; lia.
  - intros n Hn. rewrite split_is_leaf. by apply (ci_lv _ _ _ _ _ _ Hinv).
Qed.
End split.

(** ** A new leaf *)

Section new_leaf.
Context (ps : Z) (Hps : 0 < ps).
Context (s : cstate) (P : nat → list logical_unit) (V : nat → list Z) (H : nat → Z).
Context (X : gset nat) (Hinv : core_inv ps s P V H X).
Context (q : nat) (y : ncore) (k : RadixKey) (v : list Z).
Context (Hy : cs_nodes s !! q = Some y) (Hk : page_key ps k) (Hv : zlen v = klen k).
Context (Hfree : nc_children y !! ckey ps k = None).
Context (Hns : q ≠ cs_root s → knamespace k = knamespace (nc_key y)).

Let m := cs_nodes s.
Let nid := cs_ctr s.
Definition leaf_new : ncore := NC ∅ (Some q) k (Some v) 0.
Definition leaf_parent : ncore :=
  NC (<[ ckey ps k := nid ]> (nc_children y)) (nc_parent y) (nc_key y) (nc_value y) (nc_lock y).
Definition leaf_nodes : gmap nat ncore := <[ q := leaf_parent ]> (<[ nid := leaf_new ]> m).
Definition leaf_state : cstate :=
  CS leaf_nodes (cs_root s) (S nid) (cs_ev s + klen k) (cs_pr s) (cs_lv s).
Definition leaf_P : nat → list logical_unit := <[ nid := P q ++ units k ]> P.
Definition leaf_V : nat → list Z := <[ nid := V q ++ v ]> V.

Lemma leaf_fresh : m !! nid = None.
Proof. by apply (ci_ctr _ _ _ _ _ _ Hinv). Qed.

Lemma leaf_old n z : m !! n = Some z → n ≠ nid.
Proof. intros Hn E. pose proof leaf_fresh as F. rewrite <- E in F. congruence. Qed.

Lemma leaf_ne : nid ≠ q ∧ nid ≠ cs_root s.
Proof.
  destruct (ci_root _ _ _ _ _ _ Hinv) as (r & Hr & _).
  split; apply not_eq_sym; by eapply leaf_old.
Qed.

Lemma leaf_lookup n : leaf_nodes !! n =
  if decide (n = q) then Some leaf_parent
  else if decide (n = nid) then Some leaf_new else m !! n.
Proof. unfold leaf_nodes. rewrite !lookup_insert. repeat case_decide; congruence. Qed.

Lemma leaf_P_other n : n ≠ nid → leaf_P n = P n.
Proof. intros. unfold leaf_P. by rewrite fn_lookup_insert_ne. Qed.
Lemma leaf_V_other n : n ≠ nid → leaf_V n = V n.
Proof. intros. unfold leaf_V. by rewrite fn_lookup_insert_ne. Qed.

Lemma leaf_lock_of n : lock_of leaf_nodes n = lock_of m n.
Proof.
  unfold lock_of. rewrite leaf_lookup. case_decide as E1; [subst n; unfold m; by rewrite Hy|].
  case_decide; [subst n; by rewrite leaf_fresh|done].
Qed.

Lemma leaf_child_locks z : child_locks leaf_nodes z = child_locks m z.
Proof. apply child_locks_ext. intros. apply leaf_lock_of. Qed.

Lemma leaf_child_locks_parent : child_locks leaf_nodes leaf_parent = child_locks m y.
Proof.
  unfold child_locks at 1. simpl. rewrite msum_insert by done.
  change (msum _ (nc_children y)) with (child_locks leaf_nodes y). rewrite leaf_child_locks.
  unfold lock_of. rewrite leaf_lookup. destruct leaf_ne.
  rewrite decide_False, decide_True by done. done.
Qed.

Lemma leaf_node_new : node_ok ps leaf_nodes (cs_root s) leaf_P leaf_V H nid leaf_new.
Proof.
  destruct leaf_ne. split; simpl; [done| |done|].
  - exists q, leaf_parent, v. rewrite leaf_lookup, decide_True by done. simpl.
    rewrite lookup_insert_eq, (leaf_P_other q), (leaf_V_other q) by done.
    unfold leaf_P, leaf_V. rewrite !fn_lookup_insert. done.
  - rewrite (ci_H _ _ _ _ _ _ Hinv) by apply leaf_fresh. unfold child_locks. simpl.
    by rewrite msum_empty.
Qed.

Lemma leaf_node_old n z :
  m !! n = Some z → n ≠ cs_root s → n ≠ q →
  node_ok ps leaf_nodes (cs_root s) leaf_P leaf_V H n z.
Proof.
  intros Hn Hr Hnq. destruct leaf_ne. pose proof (leaf_old _ _ Hn).
  destruct (ci_node _ _ _ _ _ _ Hinv _ _ Hn Hr)
    as [Hk' (p & z' & w & Hpq & Hz & Hc & Hw & Hlen & HP & HV & Hns') Hl0 Hl1].
  pose proof (leaf_old _ _ Hz).
  split; [done| |done|by rewrite leaf_child_locks].
  rewrite (leaf_P_other n), (leaf_V_other n) by done.
  destruct (decide (p = q)) as [->|].
  - exists q, leaf_parent, w. rewrite leaf_lookup, decide_True by done. simpl.
    rewrite (leaf_P_other q), (leaf_V_other q) by done.
    assert (z' = y) as -> by congruence. rewrite lookup_insert_ne; [done|]. congruence.
  - exists p, z', w. rewrite leaf_lookup, !decide_False by done.
    rewrite (leaf_P_other p), (leaf_V_other p) by done. done.
Qed.

Lemma leaf_node_parent :
  q ≠ cs_root s → node_ok ps leaf_nodes (cs_root s) leaf_P leaf_V H q leaf_parent.
Proof.
  intros Hr. destruct leaf_ne.
  pose proof (ci_node _ _ _ _ _ _ Hinv _ _ Hy Hr) as Hok.
  pose proof (λ p, node_ok_depth _ _ _ _ _ _ _ _ p Hok) as Hd.
  destruct Hok as [Hk' (p & z' & w & Hpq & Hz & Hc & Hw & Hlen & HP & HV & Hns') Hl0 Hl1].
  specialize (Hd _ Hpq). pose proof (leaf_old _ _ Hz).
  assert (p ≠ q) by (intros ->; lia).
  split; simpl; [done| |done|by rewrite leaf_child_locks_parent].
  exists p, z', w. rewrite leaf_lookup, !decide_False by done.
  rewrite (leaf_P_other q), (leaf_V_other q), (leaf_P_other p), (leaf_V_other p) by done. done.
Qed.

Lemma leaf_child_link r w z n :
  leaf_nodes !! r = Some w → nc_children w !! z = Some n →
  n ≠ cs_root s ∧
  ∃ x', leaf_nodes !! n = Some x' ∧ nc_parent x' = Some r ∧ ckey ps (nc_key x') = z.
Proof.
  destruct leaf_ne. rewrite leaf_lookup. intros Hr Hz.
  assert (∀ w', m !! r = Some w' → nc_children w' !! z = Some n → n ≠ cs_root s ∧
    ∃ x', leaf_nodes !! n = Some x' ∧ nc_parent x' = Some r ∧ ckey ps (nc_key x') = z) as Hold.
  { intros w' Hw' Hz'.
    destruct (ci_child _ _ _ _ _ _ Hinv _ _ _ _ Hw' Hz') as (Hnr & x' & Hn & Hnp & Hnk).
    split; [done|]. pose proof (leaf_old _ _ Hn). rewrite leaf_lookup.
    destruct (decide (n = q)) as [E|E].
    - exists leaf_parent. simpl. subst n. assert (x' = y) as -> by congruence. done.
    - rewrite decide_False by done. by exists x'. }
  case_decide as E1; [|case_decide as E2].
  - subst r. injection Hr as <-. simpl in Hz. apply lookup_insert_Some in Hz as [[<- <-]|[_ Hz]].
    + split; [done|]. exists leaf_new. rewrite leaf_lookup, decide_False, decide_True by done. done.
    + by eapply Hold.
  - injection Hr as <-. simpl in Hz. by rewrite lookup_empty in Hz.
  - by eapply Hold.
Qed.

Lemma leaf_msum (f : nat → ncore → Z) :
  f q leaf_parent = f q y → msum f leaf_nodes = f nid leaf_new + msum f m.
Proof.
  intros E. destruct leaf_ne. unfold leaf_nodes.
  rewrite (msum_update _ _ q y) by (rewrite lookup_insert_ne by done; done).
  rewrite msum_insert by apply leaf_fresh. lia.
Qed.

(** The new leaf is in the tree; its own status and its parent's are stale. *)
Lemma core_inv_leaf : core_inv ps leaf_state leaf_P leaf_V H (X ∪ {[ q; nid ]}).
Proof.
  destruct leaf_ne. split; simpl.
  - destruct (ci_root _ _ _ _ _ _ Hinv) as (r & Hr & Hr1 & Hr2 & Hr3). rewrite leaf_lookup.
    case_decide as E1.
    { exists leaf_parent. simpl. subst q. assert (r = y) as -> by congruence. done. }
    rewrite decide_False by done. by exists r.
  - rewrite leaf_P_other by done. apply (ci_P _ _ _ _ _ _ Hinv).
  - rewrite leaf_V_other by done. apply (ci_V _ _ _ _ _ _ Hinv).
  - intros n z Hn Hr. rewrite leaf_lookup in Hn.
    case_decide as E1; [rewrite E1 in *; injection Hn as <-; by apply leaf_node_parent|].
    case_decide as E2; [rewrite E2; injection Hn as <-; apply leaf_node_new|].
    by apply leaf_node_old.
  - intros r w z n. apply leaf_child_link.
  - intros n Hn. pose proof (leaf_old _ _ Hy). rewrite leaf_lookup.
    rewrite decide_False by (intros ->; unfold m in *; rewrite (ci_ctr _ _ _ _ _ _ Hinv) in Hy; [done|unfold nid in *; lia]).
    rewrite decide_False by (unfold nid in *; lia).
    apply (ci_ctr _ _ _ _ _ _ Hinv). unfold nid in *. lia.
  - intros n. rewrite leaf_lookup. repeat case_decide; try done. apply (ci_H _ _ _ _ _ _ Hinv).
  - rewrite leaf_msum by done. rewrite (ci_ev _ _ _ _ _ _ Hinv).
    unfold ev_size at 2. rewrite decide_False by done. simpl. unfold m. lia.
  - rewrite leaf_msum by done. rewrite (ci_pr _ _ _ _ _ _ Hinv).
    unfold pr_size at 2. rewrite decide_False by done. simpl. unfold m. lia.
  - intros n Hn. rewrite (ci_lv _ _ _ _ _ _ Hinv) by set_solver. unfold is_leaf.
    rewrite leaf_lookup, !decide_False by set_solver. done.
Qed.
End new_leaf.

(** ** A deleted leaf *)

Section delete_leaf.
Context (ps : Z) (Hps : 0 < ps).
Context (s : cstate) (P : nat → list logical_unit) (V : nat → list Z) (H : nat → Z).
Context (X : gset nat) (Hinv : core_inv ps s P V H X).
Context (d p : nat) (x y : ncore).
Context (Hx : cs_nodes s !! d = Some x) (Hdr : d ≠ cs_root s) (Hp : nc_parent x = Some p).
Context (Hy : cs_nodes s !! p = Some y) (Hlock : nc_lock x = 0) (Hch : nc_children x = ∅).

Let m := cs_nodes s.
Definition del_parent : ncore :=
  NC (delete (ckey ps (nc_key x)) (nc_children y)) (nc_parent y) (nc_key y) (nc_value y) (nc_lock y).
Definition del_nodes : gmap nat ncore := delete d (<[ p := del_parent ]> m).
Definition del_state : cstate :=
  CS del_nodes (cs_root s) (cs_ctr s) (cs_ev s - klen (nc_key x)) (cs_pr s) (cs_lv s ∖ {[ d ]}).

Lemma del_ne : d ≠ p.
Proof.
  intros ->. pose proof (node_ok_depth _ _ _ _ _ _ _ _ _ (ci_node _ _ _ _ _ _ Hinv _ _ Hx Hdr) Hp). lia.
Qed.

Lemma del_lookup n : del_nodes !! n =
  if decide (n = d) then None else if decide (n = p) then Some del_parent else m !! n.
Proof. unfold del_nodes. rewrite lookup_delete, lookup_insert. repeat case_decide; congruence. Qed.

Lemma del_link : nc_children y !! ckey ps (nc_key x) = Some d.
Proof.
  destruct (ci_node _ _ _ _ _ _ Hinv _ _ Hx Hdr) as [_ (q & z & w & Hq & Hz & Hc & _) _ _].
  assert (q = p) as -> by congruence. assert (z = y) as -> by congruence. done.
Qed.

Lemma del_lock_of n : lock_of del_nodes n = lock_of m n.
Proof.
  unfold lock_of. rewrite del_lookup. case_decide; [subst n; unfold m; rewrite Hx; simpl; lia|].
  case_decide; [subst n; unfold m; by rewrite Hy|done].
Qed.

Lemma del_child_locks z : child_locks del_nodes z = child_locks m z.
Proof. apply child_locks_ext. intros. apply del_lock_of. Qed.

Lemma del_child_locks_parent : child_locks del_nodes del_parent = child_locks m y.
Proof.
  rewrite del_child_locks. unfold child_locks. simpl.
  rewrite (msum_delete _ _ _ _ del_link).
  assert (lock_of m d = 0) by (unfold lock_of, m; by rewrite Hx). lia.
Qed.

(** No other node has [d] as its parent. *)
Lemma del_not_parent n z : m !! n = Some z → n ≠ cs_root s → nc_parent z ≠ Some d.
Proof.
  intros Hn Hr Hz. destruct (ci_node _ _ _ _ _ _ Hinv _ _ Hn Hr)
    as [_ (q & z' & w & Hq & Hz' & Hc & _) _ _].
  assert (q = d) as -> by congruence. assert (z' = x) as -> by congruence.
  by rewrite Hch, lookup_empty in Hc.
Qed.

Lemma del_node_old n z :
  m !! n = Some z → n ≠ cs_root s → n ≠ d → n ≠ p →
  node_ok ps del_nodes (cs_root s) P V H n z.
Proof.
  intros Hn Hr Hnd Hnp. pose proof (del_not_parent _ _ Hn Hr) as Hnpar.
  destruct (ci_node _ _ _ _ _ _ Hinv _ _ Hn Hr)
    as [Hk' (q & z' & w & Hpq & Hz & Hc & Hw & Hlen & HP & HV & Hns') Hl0 Hl1].
  split; [done| |done|by rewrite del_child_locks].
  assert (q ≠ d) by congruence. destruct (decide (q = p)) as [->|].
  - exists p, del_parent, w. rewrite del_lookup, decide_False, decide_True by done.
    assert (z' = y) as -> by congruence. simpl. rewrite lookup_delete_ne; [done|].
    intros E. pose proof del_link. rewrite E in *. congruence.
  - exists q, z', w. rewrite del_lookup, !decide_False by done. done.
Qed.

Lemma del_node_parent : p ≠ cs_root s → node_ok ps del_nodes (cs_root s) P V H p del_parent.
Proof.
  intros Hr. pose proof (del_not_parent _ _ Hy Hr) as Hnpar. pose proof del_ne.
  pose proof (ci_node _ _ _ _ _ _ Hinv _ _ Hy Hr) as Hok.
  pose proof (λ p, node_ok_depth _ _ _ _ _ _ _ _ p Hok) as Hd.
  destruct Hok as [Hk' (q & z' & w & Hpq & Hz & Hc & Hw & Hlen & HP & HV & Hns') Hl0 Hl1].
  specialize (Hd _ Hpq). assert (q ≠ p) by (intros ->; lia). assert (q ≠ d) by congruence.
  split; simpl; [done| |done|by rewrite del_child_locks_parent].
  exists q, z', w. rewrite del_lookup, !decide_False by done. done.
Qed.

Lemma del_child_link r w z n :
  del_nodes !! r = Some w → nc_children w !! z = Some n →
  n ≠ cs_root s ∧
  ∃ x', del_nodes !! n = Some x' ∧ nc_parent x' = Some r ∧ ckey ps (nc_key x') = z.
Proof.
  rewrite del_lookup. case_decide as E1; [done|]. intros Hr Hz.
  assert (∃ w', m !! r = Some w' ∧ nc_children w' !! z = Some n ∧ n ≠ d) as (w' & Hw' & Hz' & Hnd).
  { case_decide as E2.
    - subst r. injection Hr as <-. simpl in Hz. apply lookup_delete_Some in Hz as [Hzk Hz].
      exists y. split; [done|]. split; [done|]. intros ->.
      destruct (ci_child _ _ _ _ _ _ Hinv _ _ _ _ Hy Hz) as (_ & x' & Hx' & _ & E). congruence.
    - exists w. split; [done|]. split; [done|]. intros ->.
      destruct (ci_child _ _ _ _ _ _ Hinv _ _ _ _ Hr Hz) as (_ & x' & Hx' & E & _). congruence. }
  destruct (ci_child _ _ _ _ _ _ Hinv _ _ _ _ Hw' Hz') as (Hnr & x' & Hn & Hnp & Hnk).
  split; [done|]. rewrite del_lookup, decide_False by done.
  destruct (decide (n = p)) as [E|E].
  - exists del_parent. simpl. subst n. assert (x' = y) as -> by congruence. done.
  - by exists x'.
Qed.

Lemma del_msum (f : nat → ncore → Z) :
  f p del_parent = f p y → msum f m = f d x + msum f del_nodes.
Proof.
  intros E. pose proof del_ne. unfold del_nodes.
  rewrite delete_insert_ne by done.
  rewrite (msum_update _ _ p y) by (rewrite lookup_delete_ne by done; done).
  rewrite (msum_delete _ _ d x) by done. lia.
Qed.

Lemma core_inv_delete : core_inv ps del_state P V H (X ∪ {[ p ]}).
Proof.
  pose proof del_ne. split; simpl.
  - destruct (ci_root _ _ _ _ _ _ Hinv) as (r & Hr & Hr1 & Hr2 & Hr3). rewrite del_lookup.
    rewrite decide_False by done. case_decide as E1; [|by exists r].
    exists del_parent. simpl. subst p. assert (r = y) as -> by congruence. done.
  - apply (ci_P _ _ _ _ _ _ Hinv).
  - apply (ci_V _ _ _ _ _ _ Hinv).
  - intros n z Hn Hr. rewrite del_lookup in Hn. case_decide; [done|].
    case_decide; [subst n; simplify_eq; by apply del_node_parent|]. by apply del_node_old.
  - intros r w z n. apply del_child_link.
  - intros n Hn. rewrite del_lookup. case_decide; [done|].
    rewrite decide_False by (intros ->; rewrite (ci_ctr _ _ _ _ _ _ Hinv) in Hy; [done|lia]).
    by apply (ci_ctr _ _ _ _ _ _ Hinv).
  - intros n. rewrite del_lookup. case_decide as E; [subst n|].
    + intros _. destruct (ci_node _ _ _ _ _ _ Hinv _ _ Hx Hdr) as [_ _ _ Hl].
      unfold child_locks in Hl. rewrite Hch, msum_empty in Hl. lia.
    + case_decide; [done|]. apply (ci_H _ _ _ _ _ _ Hinv).
  - rewrite (ci_ev _ _ _ _ _ _ Hinv). rewrite del_msum by done.
    unfold ev_size at 1. rewrite decide_False by done. rewrite Hlock. simpl. lia.
  - rewrite (ci_pr _ _ _ _ _ _ Hinv). rewrite del_msum by done.
    unfold pr_size at 1. rewrite decide_False by done. rewrite Hlock. simpl. lia.
  - intros n Hn. unfold is_leaf. rewrite del_lookup. case_decide as E.
    + subst n. split; [set_solver|]. intros (_ & ? & ? & _). done.
    + rewrite decide_False by set_solver.
      rewrite elem_of_difference, elem_of_singleton, (ci_lv _ _ _ _ _ _ Hinv) by set_solver.
      unfold is_leaf. naive_solver.
Qed.
End delete_leaf.

(** ** One step of locking

    Adding [δ] to the lock count of [d] moves the held lock from its parent: the
    equation of [d] then counts [δ] more held locks and that of its parent [δ]
    fewer. *)

Section lock_step.
Context (ps : Z) (Hps : 0 < ps).
Context (s : cstate) (P : nat → list logical_unit) (V : nat → list Z) (H : nat → Z).
Context (X : gset nat) (Hinv : core_inv ps s P V H X).
Context (d p : nat) (x : ncore) (δ : Z).
Context (Hx : cs_nodes s !! d = Some x) (Hdr : d ≠ cs_root s) (Hp : nc_parent x = Some p).
Context (Hnn : 0 ≤ nc_lock x + δ).

Let m := cs_nodes s.
Definition lk_node : ncore :=
  NC (nc_children x) (nc_parent x) (nc_key x) (nc_value x) (nc_lock x + δ).
Definition lk_nodes : gmap nat ncore := <[ d := lk_node ]> m.
Definition lk_state : cstate :=
  CS lk_nodes (cs_root s) (cs_ctr s)
    (cs_ev s - ev_size (cs_root s) d x + ev_size (cs_root s) d lk_node)
    (cs_pr s - pr_size (cs_root s) d x + pr_size (cs_root s) d lk_node) (cs_lv s).
Definition lk_H : nat → Z :=
  λ n, H n + (if decide (n = d) then δ else 0) - (if decide (n = p) then δ else 0).

Lemma lk_ne : d ≠ p.
Proof.
  intros ->. pose proof (node_ok_depth _ _ _ _ _ _ _ _ _ (ci_node _ _ _ _ _ _ Hinv _ _ Hx Hdr) Hp). lia.
Qed.

Lemma lk_lock_of n : lock_of lk_nodes n = lock_of m n + (if decide (n = d) then δ else 0).
Proof.
  unfold lk_nodes. rewrite lock_of_insert. repeat case_decide; subst; try congruence; [|lia].
  unfold lock_of, m. rewrite Hx. simpl. lia.
Qed.

(** Only the parent has [d] among its children, and once. *)
Lemma lk_child_locks n z :
  m !! n = Some z →
  child_locks lk_nodes z = child_locks m z + (if decide (n = p) then δ else 0).
Proof.
  intros Hn. unfold child_locks.
  rewrite (msum_ext (λ _ k, lock_of lk_nodes k)
                    (λ k n, lock_of m n + (if decide (n = d) then δ else 0)))
    by (intros; apply lk_lock_of).
  rewrite (msum_add (λ _ k, lock_of m k) (λ _ n, if decide (n = d) then δ else 0)).
  f_equal. case_decide as E.
  - subst n. destruct (ci_node _ _ _ _ _ _ Hinv _ _ Hx Hdr) as [_ (q & z' & w & Hq & Hz & Hc & _) _ _].
    assert (q = p) as -> by congruence. assert (z' = z) as -> by (unfold m in *; congruence).
    rewrite (msum_delete _ _ _ _ Hc), decide_True by done.
    rewrite msum_zero; [lia|]. intros k n Hk. apply lookup_delete_Some in Hk as [Hne Hk].
    case_decide; [|done]. subst n.
    destruct (ci_child _ _ _ _ _ _ Hinv _ _ _ _ Hn Hk) as (_ & x' & Hx' & _ & Ek). congruence.
  - apply msum_zero. intros k n' Hk. case_decide; [|done]. subst n'.
    destruct (ci_child _ _ _ _ _ _ Hinv _ _ _ _ Hn Hk) as (_ & x' & Hx' & Ep & _). congruence.
Qed.

Lemma lk_lookup n : lk_nodes !! n = if decide (n = d) then Some lk_node else m !! n.
Proof. unfold lk_nodes. rewrite lookup_insert. repeat case_decide; congruence. Qed.

Lemma lk_link n z (Hn : m !! n = Some z) (Hr : n ≠ cs_root s) :
  ∃ q y v, nc_parent z = Some q ∧ lk_nodes !! q = Some y ∧
    nc_children y !! ckey ps (nc_key z) = Some n ∧
    nc_value z = Some v ∧ zlen v = klen (nc_key z) ∧
    P n = P q ++ units (nc_key z) ∧ V n = V q ++ v ∧
    (q ≠ cs_root s → knamespace (nc_key z) = knamespace (nc_key y)).
Proof.
  destruct (ci_node _ _ _ _ _ _ Hinv _ _ Hn Hr)
    as [_ (q & z' & w & Hpq & Hz & Hc & Hw & Hlen & HP & HV & Hns') _ _].
  destruct (decide (q = d)) as [->|].
  - exists d, lk_node, w. rewrite lk_lookup, decide_True by done.
    assert (z' = x) as -> by congruence. done.
  - exists q, z', w. rewrite lk_lookup, decide_False by done. done.
Qed.

Lemma core_inv_lock : core_inv ps lk_state P V lk_H (X ∪ {[ d ]}).
Proof.
  pose proof lk_ne. split; simpl.
  - destruct (ci_root _ _ _ _ _ _ Hinv) as (r & Hr & Hrest). rewrite lk_lookup.
    rewrite decide_False by done. by exists r.
  - apply (ci_P _ _ _ _ _ _ Hinv).
  - apply (ci_V _ _ _ _ _ _ Hinv).
  - intros n z Hn Hr. rewrite lk_lookup in Hn. destruct (decide (n = d)) as [E|E].
    + injection Hn as <-. rewrite E in *. destruct (ci_node _ _ _ _ _ _ Hinv _ _ Hx Hdr) as [Hk _ _ Hl].
      split; [done|apply (lk_link d x); done|done|].
      change (child_locks lk_nodes lk_node) with (child_locks lk_nodes x).
      rewrite (lk_child_locks d) by done. unfold lk_H.
      rewrite decide_True by done. rewrite !(decide_False (P := d = p)) by done.
      simpl. unfold m. lia.
    + destruct (ci_node _ _ _ _ _ _ Hinv _ _ Hn Hr) as [Hk _ Hl0 Hl].
      split; [done|by apply lk_link|done|].
      rewrite (lk_child_locks n) by done. unfold lk_H. rewrite (decide_False (P := n = d)) by done.
      unfold m. case_decide; lia.
  - intros q w k n Hq Hk. rewrite lk_lookup in Hq.
    assert (∃ w', m !! q = Some w' ∧ nc_children w' !! k = Some n) as (w' & Hw' & Hk').
    { destruct (decide (q = d)) as [->|]; [|by exists w]. exists x. injection Hq as <-. done. }
    destruct (ci_child _ _ _ _ _ _ Hinv _ _ _ _ Hw' Hk') as (Hnr & x' & Hn & Hnp & Hnk).
    split; [done|]. rewrite lk_lookup. destruct (decide (n = d)) as [E|]; [|by exists x'].
    exists lk_node. rewrite E in *. assert (x' = x) as -> by congruence. done.
  - intros n Hn. rewrite lk_lookup.
    rewrite decide_False by (intros ->; rewrite (ci_ctr _ _ _ _ _ _ Hinv) in Hx; [done|lia]).
    by apply (ci_ctr _ _ _ _ _ _ Hinv).
  - intros n. rewrite lk_lookup. case_decide; [done|]. intros Hn. unfold lk_H.
    rewrite (ci_H _ _ _ _ _ _ Hinv _ Hn). rewrite decide_False by done.
    rewrite decide_False; [lia|]. intros ->.
    destruct (ci_node _ _ _ _ _ _ Hinv _ _ Hx Hdr) as [_ (q & ? & ? & ? & Hq & _) _ _].
    assert (q = p) as -> by congruence. unfold m in *. congruence.
  - unfold lk_nodes. rewrite (msum_update _ _ d x) by done. by rewrite (ci_ev _ _ _ _ _ _ Hinv).
  - unfold lk_nodes. rewrite (msum_update _ _ d x) by done. by rewrite (ci_pr _ _ _ _ _ _ Hinv).
  - intros n Hn. rewrite (ci_lv _ _ _ _ _ _ Hinv) by set_solver. unfold is_leaf.
    rewrite lk_lookup, decide_False by set_solver. done.
Qed.
End lock_step.
