(* ===== verification/RadixOps.v ===== *)
(** * The tree operations keep the invariant

    Each operation of [RadixCache] is shown to return (no exception, enough
    fuel) on a well-formed tree, to keep the invariant, and to do what its walk
    means: [walk_*] follow a key down the tree, [inc]/[dec] follow the parent
    chain, [evict] removes unlocked leaves. *)
From stdpp Require Import functions.
From S2P Require Import Prelude RadixKey EvictPolicy RadixCache RadixInv.

(** Two stores with the same keys of [P] and [V] on the nodes of the first. *)
Definition extends (c c' : RadixCache) (P P' : nat → list logical_unit) (V V' : nat → list Z) : Prop :=
  root_node c' = root_node c ∧
  ∀ n x, nodes c !! n = Some x → P' n = P n ∧ V' n = V n ∧
    ∃ x', nodes c' !! n = Some x' ∧ lock_ref x' = lock_ref x ∧
          (n ≠ root_node c → knamespace (nkey x') = knamespace (nkey x)).

Lemma extends_refl c P V : extends c c P P V V.
Proof. split; [done|]. intros n x Hn. by eauto 6. Qed.

Lemma extends_trans c1 c2 c3 P1 P2 P3 V1 V2 V3 :
  extends c1 c2 P1 P2 V1 V2 → extends c2 c3 P2 P3 V2 V3 → extends c1 c3 P1 P3 V1 V3.
Proof.
  intros [R1 E1] [R2 E2]. split; [congruence|]. intros n x Hn.
  destruct (E1 n x Hn) as (HP & HV & x' & Hx' & Hl & Hns).
  destruct (E2 n x' Hx') as (HP' & HV' & x'' & Hx'' & Hl' & Hns').
  split; [congruence|]. split; [congruence|]. exists x''. split; [done|]. split; [congruence|].
  intros Hr. rewrite Hns', Hns; [done|done|congruence].
Qed.

(** How often a slot is stored in the tree. *)
Definition occurs (s : Z) (l : list Z) : Z := Z.of_nat (count_occ Z.eq_dec l s).
Definition slot_count (s : Z) (c : RadixCache) : Z :=
  msum (λ _ x, occurs s (default [] (nc_value x))) (cs_nodes (core_of c)).

Lemma occurs_app s l1 l2 : occurs s (l1 ++ l2) = occurs s l1 + occurs s l2.
Proof. unfold occurs. rewrite count_occ_app. lia. Qed.

(** The second store holds the same slots, and every node of it lies on the
    path of a node of the first. *)
Definition no_new (c c' : RadixCache) (P P' : nat → list logical_unit) (V V' : nat → list Z) : Prop :=
  (∀ s, slot_count s c' = slot_count s c) ∧
  ∀ n x', nodes c' !! n = Some x' → n ≠ root_node c' →
  ∃ n0 x0, nodes c !! n0 = Some x0 ∧ n0 ≠ root_node c ∧ P' n `prefix_of` P n0 ∧
    V' n `prefix_of` V n0 ∧ knamespace (nkey x') = knamespace (nkey x0).

Lemma no_new_trans c1 c2 c3 P1 P2 P3 V1 V2 V3 :
  no_new c1 c2 P1 P2 V1 V2 → no_new c2 c3 P2 P3 V2 V3 → no_new c1 c3 P1 P3 V1 V3.
Proof.
  intros [S1 N1] [S2 N2]. split; [intros s; by rewrite S2|]. intros n x Hn Hr. destruct (N2 n x Hn Hr) as (n2 & x2 & Hn2 & Hr2 & HP2 & HV2 & E2).
  destruct (N1 n2 x2 Hn2 Hr2) as (n1 & x1 & Hn1 & Hr1 & HP1 & HV1 & E1).
  exists n1, x1. split; [done|]. split; [done|]. split; [by etrans|]. split; [by etrans|]. congruence.
Qed.

(** ** Updates the invariant does not see *)

Lemma core_of_meta f n c :
  (∀ x, core (f x) = core x) → core_of (update_node f n c) = core_of c.
Proof.
  intros Hf. unfold core_of, update_node, with_nodes. simpl. f_equal.
  apply map_eq. intros k. rewrite !lookup_fmap. rewrite lookup_alter.
  case_decide; [|done]. subst. destruct (nodes c !! k); simpl; [by rewrite Hf|done].
Qed.

Lemma core_of_log call c : core_of (log_call call c) = core_of c.
Proof. done. Qed.

Lemma core_of_monotonic clock c : core_of (monotonic clock c).2 = core_of c.
Proof. done. Qed.

Lemma core_lookup c n x : nodes c !! n = Some x → cs_nodes (core_of c) !! n = Some (core x).
Proof. intros Hn. simpl. by rewrite lookup_fmap, Hn. Qed.

Lemma core_lookup_inv c n z :
  cs_nodes (core_of c) !! n = Some z → ∃ x, nodes c !! n = Some x ∧ z = core x.
Proof. simpl. rewrite lookup_fmap. destruct (nodes c !! n); simpl; naive_solver. Qed.

(** Same tree data in both states. *)
Lemma extends_core c c' P V : core_of c = core_of c' → extends c c' P P V V.
Proof.
  intros E. pose proof (f_equal cs_root E) as Er. pose proof (f_equal cs_nodes E) as En. simpl in Er, En.
  split; [done|]. intros n x Hn. split; [done|]. split; [done|].
  pose proof (f_equal (lookup n) En) as El. rewrite !lookup_fmap, Hn in El. simpl in El.
  destruct (nodes c' !! n) as [x'|] eqn:Hx'; [|done]. simpl in El. injection El as ?? E1 ? E2.
  exists x'. by rewrite E1, E2.
Qed.

Lemma extends_meta f n c P V :
  (∀ x, core (f x) = core x) → extends c (update_node f n c) P P V V.
Proof. intros Hf. apply extends_core. symmetry. by apply core_of_meta. Qed.

Lemma no_new_core c c' P V : core_of c = core_of c' → no_new c c' P P V V.
Proof.
  intros E. split; [intros s; unfold slot_count; by rewrite E|]. intros n x' Hn Hr. pose proof (f_equal cs_root E) as Er. pose proof (f_equal cs_nodes E) as En.
  simpl in Er, En. pose proof (f_equal (lookup n) En) as El. rewrite !lookup_fmap, Hn in El.
  destruct (nodes c !! n) as [x|] eqn:Hx; [|done]. simpl in El. injection El as ?? E1 ? ?.
  exists n, x. rewrite E1, Er. done.
Qed.

Lemma meta_lookup f k c n x :
  (∀ x, core (f x) = core x) → nodes c !! n = Some x →
  ∃ x', nodes (update_node f k c) !! n = Some x' ∧ core x' = core x.
Proof.
  intros Hf Hn. unfold update_node, with_nodes. simpl. rewrite lookup_alter.
  case_decide; [subst; rewrite Hn; simpl; eauto|eauto].
Qed.

Lemma update_node_lookup f c n x :
  nodes c !! n = Some x → nodes (update_node f n c) !! n = Some (f x).
Proof. intros Hn. unfold update_node, with_nodes. simpl. by rewrite lookup_alter_eq, Hn. Qed.

Section ops_inv.
Context (clock : nat → Z) (cfg : cache_config).
Abbreviation ps := (page_size cfg).
Context (Hps : 0 < ps).

(** The invariant of a cache with held locks [H]. *)
Definition inv (c : RadixCache) P V H : Prop := core_inv ps (core_of c) P V H ∅.

Lemma inv_node c P V H n x :
  inv c P V H → nodes c !! n = Some x → n ≠ root_node c →
  page_key ps (nkey x) ∧ 0 ≤ lock_ref x ∧ ∃ p y v,
    parent x = Some p ∧ nodes c !! p = Some y ∧ children y !! ckey ps (nkey x) = Some n ∧
    value x = Some v ∧ zlen v = klen (nkey x) ∧
    P n = P p ++ units (nkey x) ∧ V n = V p ++ v ∧
    (p ≠ root_node c → knamespace (nkey x) = knamespace (nkey y)).
Proof.
  intros Hinv Hn Hr.
  destruct (ci_node _ _ _ _ _ _ Hinv _ _ (core_lookup _ _ _ Hn) Hr) as [Hk Hl Hl0 _].
  split; [done|]. split; [done|]. destruct Hl as (p & z & v & Hp & Hz & Hrest).
  apply core_lookup_inv in Hz as (y & Hy & ->). exists p, y, v. done.
Qed.

Lemma inv_root c P V H : inv c P V H → is_Some (nodes c !! root_node c).
Proof.
  intros Hinv. destruct (ci_root _ _ _ _ _ _ Hinv) as (r & Hr & _).
  apply core_lookup_inv in Hr as (x & Hx & _). by exists x.
Qed.

Lemma inv_child c P V H p y k n :
  inv c P V H → nodes c !! p = Some y → children y !! k = Some n →
  n ≠ root_node c ∧ ∃ x, nodes c !! n = Some x ∧ parent x = Some p ∧ ckey ps (nkey x) = k.
Proof.
  intros Hinv Hp Hk.
  destruct (ci_child _ _ _ _ _ _ Hinv _ _ _ _ (core_lookup _ _ _ Hp) Hk) as (Hr & z & Hz & Hrest).
  apply core_lookup_inv in Hz as (x & Hx & ->). split; [done|]. by exists x.
Qed.

Lemma get_node_ok c n x : nodes c !! n = Some x → get_node c n = Ok x.
Proof. unfold get_node. by intros ->. Qed.

(** ** Leaf status *)

(** Every child has its value, so a node has a live child when it has a child. *)
Lemma live_children c P V H X n x :
  core_inv ps (core_of c) P V H X → nodes c !! n = Some x →
  existsb (λ k, match nodes c !! k with Some y => negb (evicted y) | None => false end)
    (map_to_list (children x)).*2 = negb (bool_decide (children x = ∅)).
Proof.
  intros Hinv Hx. apply eq_true_iff_eq.
  rewrite existsb_exists, negb_true_iff, bool_decide_eq_false. split.
  - intros (k & Hk & _) Hc. rewrite Hc, map_to_list_empty in Hk. done.
  - intros Hne. apply map_choose in Hne as (k & j & Hk).
    destruct (ci_child _ _ _ _ _ _ Hinv _ _ _ _ (core_lookup _ _ _ Hx) Hk) as (Hj & z & Hz & _).
    apply core_lookup_inv in Hz as (y & Hy & ->). exists j. split.
    + apply list_elem_of_In, list_elem_of_fmap. exists (k, j). split; [done|]. by apply elem_of_map_to_list.
    + rewrite Hy. destruct (ci_node _ _ _ _ _ _ Hinv _ _ (core_lookup _ _ _ Hy) Hj)
        as [_ (? & ? & v & _ & _ & _ & Hv & _) _ _]. simpl in Hv.
      unfold evicted. by rewrite Hv.
Qed.

Lemma update_leaf_status_inv c P V H X n :
  core_inv ps (core_of c) P V H X → is_Some (nodes c !! n) →
  ∃ lv, _update_leaf_status n c = Ok (with_leaves lv c) ∧
        core_inv ps (core_of (with_leaves lv c)) P V H (X ∖ {[ n ]}).
Proof.
  intros Hinv [x Hx].
  assert (∀ lv, (n ∈ lv ↔ is_leaf (core <$> nodes c) (root_node c) n) →
                (∀ k, k ≠ n → k ∈ lv ↔ k ∈ evictable_leaves c) →
                core_inv ps (core_of (with_leaves lv c)) P V H (X ∖ {[ n ]})) as Hset.
  { intros lv Hn Hother. destruct Hinv. split; try done. simpl. intros k Hk.
    destruct (decide (k = n)) as [->|]; [done|].
    rewrite Hother by done. apply ci_lv. set_solver. }
  unfold _update_leaf_status. rewrite (get_node_ok _ _ _ Hx). simpl.
  destruct (evicted x || (0 <? lock_ref x)) eqn:E1.
  { eexists. split; [done|]. apply Hset; [|set_solver].
    split; [set_solver|]. intros (Hr & z & Hz & Hl & _). exfalso.
    rewrite lookup_fmap, Hx in Hz. injection Hz as <-. simpl in Hl.
    destruct (ci_node _ _ _ _ _ _ Hinv _ _ (core_lookup _ _ _ Hx) Hr)
      as [_ (? & ? & v & _ & _ & _ & Hv & _) _ _]. simpl in Hv.
    unfold evicted in E1. rewrite Hv, Hl in E1. done. }
  apply orb_false_iff in E1 as [E1 E2]. apply Z.ltb_ge in E2.
  assert (n ≠ root_node c) as Hr.
  { intros ->. destruct (ci_root _ _ _ _ _ _ Hinv) as (r & Hr & _ & _ & Hl).
    simpl in Hr. rewrite lookup_fmap, Hx in Hr. injection Hr as <-. simpl in Hl. lia. }
  assert (lock_ref x = 0) as Hl0.
  { destruct (ci_node _ _ _ _ _ _ Hinv _ _ (core_lookup _ _ _ Hx) Hr) as [_ _ Hl _]. simpl in Hl. lia. }
  rewrite (live_children _ _ _ _ _ _ _ Hinv Hx). case_bool_decide as Hc; simpl; eexists; (split; [done|]); (apply Hset; [|set_solver]).
  - split; [|set_solver]. intros _. split; [done|]. exists (core x). by rewrite lookup_fmap, Hx.
  - split; [set_solver|]. intros (_ & z & Hz & _ & Hz'). rewrite lookup_fmap, Hx in Hz.
    injection Hz as <-. done.
Qed.

(** ** Split *)

Lemma fresh_id c P V H : inv c P V H → nodes c !! counter c = None.
Proof.
  intros Hinv. pose proof (ci_ctr _ _ _ _ _ _ Hinv (counter c)) as F. simpl in F.
  rewrite lookup_fmap in F. specialize (F (le_n _)). by destruct (nodes c !! counter c).
Qed.

(** The store [c'] after the key of [child] was cut after [j] units: [new] holds the
    first part, [chd] is the child with the rest. *)
Section split_store.
Context (c c' : RadixCache) (P : nat → list logical_unit) (V : nat → list Z) (H : nat → Z).
Context (child p : nat) (x y new chd : TreeNode) (v : list Z) (j : Z).
Context (Hinv : inv c P V H) (Hx : nodes c !! child = Some x) (Hr : child ≠ root_node c).
Context (Hp : parent x = Some p) (Hy : nodes c !! p = Some y) (Hv : value x = Some v).
Context (Hj : ps ≤ j < klen (nkey x)) (Hjd : (ps | j)).
Context (Hnew : nkey new = ktake (nkey x) j) (Hchd : nkey chd = kdrop (nkey x) j)
  (Hlock : lock_ref chd = lock_ref x) (Hroot : root_node c' = root_node c).
Context (Hn : nodes c' = <[ p := set_children <[ ckey ps (nkey x) := counter c ]> y ]>
                           (<[ counter c := new ]> (<[ child := chd ]> (nodes c)))).
Context (Hcore : core_of c' = split_state ps (core_of c) child p (core x) (core y) v j).
Abbreviation P' := (split_P (core_of c) P p (core x) j).
Abbreviation V' := (split_V (core_of c) V p v j).

Lemma split_extends : extends c c' P P' V V'.
Proof.
  pose proof (fresh_id _ _ _ _ Hinv) as Hfresh.
  destruct (inv_node _ _ _ _ _ _ Hinv Hx Hr) as (Hk & _).
  split; [done|]. intros n w Hnw. assert (n ≠ counter c) by congruence.
  unfold split_P, split_V. rewrite !fn_lookup_insert_ne by (simpl; done).
  split; [done|]. split; [done|]. rewrite Hn, !lookup_insert.
  repeat case_decide; subst; simplify_eq; eexists; (split; [done|]); (split; [done|]); try done.
  intros _. rewrite Hchd. by apply (namespace_kdrop ps).
Qed.

Lemma split_no_new : no_new c c' P P' V V'.
Proof.
  destruct (inv_node _ _ _ _ _ _ Hinv Hx Hr) as (Hk & _ & q & ? & u & Hq & _ & _ & Hu & Hlen & HP & HV & _).
  assert (q = p) as -> by congruence. assert (u = v) as -> by congruence.
  pose proof (split_ne ps (core_of c) P V H ∅ Hinv child p (core x) (core y)
    (core_lookup _ _ _ Hx) Hr Hp (core_lookup _ _ _ Hy)) as (N1 & N2 & N3 & N4).
  simpl in N1, N2, N3, N4. split.
  { intros s. unfold slot_count. rewrite Hcore. simpl cs_nodes at 1.
    apply (split_msum ps (core_of c) P V H ∅ Hinv child p (core x) (core y) v j
      (core_lookup _ _ _ Hx) Hr Hp (core_lookup _ _ _ Hy)); [done|].
    simpl. rewrite Hv. simpl. rewrite <- occurs_app, pytake_eq, pydrop_eq by lia. by rewrite take_drop. }
  intros n w Hnw Hnr. rewrite Hroot in Hnr. unfold split_P, split_V.
  change (cs_ctr (core_of c)) with (counter c). destruct (decide (n = counter c)) as [->|Hnc].
  - exists child, x. split; [done|]. split; [done|].
    rewrite Hn, lookup_insert_ne, lookup_insert_eq in Hnw by done. injection Hnw as <-.
    rewrite !fn_lookup_insert. simpl. rewrite HP, HV, Hnew. split.
    { apply prefix_app. rewrite units_ktake by (apply Hk || lia). apply take_prefix_of. }
    split. { apply prefix_app. rewrite pytake_eq by lia. apply take_prefix_of. }
    by apply (namespace_ktake ps).
  - rewrite !fn_lookup_insert_ne by done. rewrite Hn, !lookup_insert in Hnw.
    destruct (decide (p = n)) as [->|]; [injection Hnw as <-; by exists n, y|].
    rewrite decide_False in Hnw by done.
    destruct (decide (child = n)) as [->|]; [|by exists n, w]. injection Hnw as <-.
    exists n, x. rewrite Hchd. by rewrite (namespace_kdrop ps).
Qed.
End split_store.

Lemma split_node_inv c P V H child x j :
  inv c P V H → nodes c !! child = Some x → child ≠ root_node c →
  ps ≤ j < klen (nkey x) → (ps | j) →
  ∃ nid c' P' V' z p v,
    _split_node clock cfg (nkey x) child j c = Ok (nid, c') ∧
    inv c' P' V' H ∧ extends c c' P P' V V' ∧ no_new c c' P P' V V' ∧
    nodes c' !! nid = Some z ∧ nid ≠ root_node c' ∧
    nkey z = ktake (nkey x) j ∧ children z = {[ ckey ps (kdrop (nkey x) j) := child ]} ∧
    parent x = Some p ∧ value x = Some v ∧ value z = Some (pytake v j) ∧
    P' nid = P p ++ units (ktake (nkey x) j) ∧ V' nid = V p ++ pytake v j ∧
    nodes c !! nid = None.
Proof.
  intros Hinv Hx Hr Hj Hjd.
  destruct (inv_node _ _ _ _ _ _ Hinv Hx Hr) as (Hk & Hl0 & p & y & v & Hp & Hy & Hc & Hv & Hlen & HP & HV & Hns).
  pose proof (core_inv_split ps Hps _ _ _ _ _ Hinv child p (core x) (core y) v j
    (core_lookup _ _ _ Hx) Hr Hp (core_lookup _ _ _ Hy) Hv Hj Hjd) as Hs.
  pose proof (split_ne ps (core_of c) P V H ∅ Hinv child p (core x) (core y)
    (core_lookup _ _ _ Hx) Hr Hp (core_lookup _ _ _ Hy)) as (N1 & N2 & N3 & N4).
  simpl in N1, N2, N3, N4.
  unfold _split_node. rewrite (get_node_ok _ _ _ Hx). simpl.
  assert (page_key ps (kdrop (nkey x) j)) as Hkd by (apply page_key_kdrop; [done|lia|done]).
  rewrite (child_key_ckey _ Hps _ Hkd), (child_key_ckey _ Hps _ Hk). simpl. rewrite Hv, Hp. simpl.
  set (new := mkNode _ (Some p) _ _ _ _ _ _ _ _ _). set (chd := mkNode _ (Some (counter c)) _ _ _ _ _ _ _ _ _).
  set (c' := with_nodes _ _).
  assert (nodes c' = <[ p := set_children <[ ckey ps (nkey x) := counter c ]> y ]>
                       (<[ counter c := new ]> (<[ child := chd ]> (nodes c)))) as Hn.
  { unfold c'. simpl. apply alter_to_insert. rewrite !lookup_insert_ne by done. done. }
  assert (core_of c' = split_state ps (core_of c) child p (core x) (core y) v j) as Hcore.
  { trans (CS (core <$> nodes c') (root_node c) (S (counter c)) (evictable_size_ c)
             (protected_size_ c) (evictable_leaves c)); [done|].
    rewrite Hn, !fmap_insert. done. }
  exists (counter c), c', (split_P (core_of c) P p (core x) j),
    (split_V (core_of c) V p v j), new, p, v.
  split; [done|]. split; [unfold inv; by rewrite Hcore|].
  split; [by apply (split_extends c c' P V H child p x y new chd)|]. split; [by apply (split_no_new c c' P V H child p x y new chd)|].
  split; [by rewrite Hn, lookup_insert_ne, lookup_insert_eq by done|]. split; [done|].
  unfold split_P, split_V. change (cs_ctr (core_of c)) with (counter c).
  rewrite !fn_lookup_insert. pose proof (fresh_id _ _ _ _ Hinv). done.
Qed.

(** ** Following a key *)

Lemma kmatch_child key y :
  page_key ps key → page_key ps (nkey y) → ckey ps (nkey y) = ckey ps key →
  ∃ plen, kmatch (nkey y) key ps = Ok plen ∧ ps ≤ plen ∧ plen ≤ klen (nkey y) ∧
    plen ≤ klen key ∧ (ps | plen) ∧ knamespace (nkey y) = knamespace key ∧
    take (Z.to_nat plen) (units (nkey y)) = take (Z.to_nat plen) (units key) ∧
    (plen < klen (nkey y) → plen < klen key →
     ckey ps (kdrop (nkey y) plen) ≠ ckey ps (kdrop key plen)).
Proof.
  intros Hk Hy E. apply ckey_eq in E as [Hns Hfp]; [|done..].
  pose proof (first_page_bigram _ Hps _ _ Hy Hk Hfp) as Hbi.
  pose proof (page_key_ge _ _ Hk) as G1. pose proof (page_key_ge _ _ Hy) as G2.
  unfold kmatch. rewrite match_at_ok by (done || apply Hk || apply Hy || lia).
  unfold match_spec. simpl. rewrite drop_0.
  set (l := lcp (units (nkey y)) (units key)).
  set (plen := page_align_floor (Z.of_nat l) ps).
  pose proof (lcp_le_l (units (nkey y)) (units key)) as B1. fold l in B1.
  pose proof (lcp_le_r (units (nkey y)) (units key)) as B2. fold l in B2.
  rewrite (klen_units key) in G1 by apply Hk. rewrite (klen_units (nkey y)) in G2 by apply Hy.
  assert (ps ≤ plen) as Hge.
  { apply page_align_floor_max; [done|apply Z.divide_refl|].
    enough (Z.to_nat ps ≤ l)%nat by lia. apply lcp_max; [unfold zlen in *; lia|done]. }
  assert (plen ≤ Z.of_nat l) as Hle by by apply page_align_floor_le.
  exists plen. split; [done|]. split; [done|].
  rewrite (klen_units (nkey y)), (klen_units key) by (apply Hk || apply Hy).
  split; [unfold zlen; lia|]. split; [unfold zlen; lia|]. split; [apply page_align_floor_divide|].
  split; [done|].
  assert (take (Z.to_nat plen) (units (nkey y)) = take (Z.to_nat plen) (units key)) as Ht.
  { pose proof (f_equal (take (Z.to_nat plen)) (lcp_take (units (nkey y)) (units key))) as Ht.
    fold l in Ht. by rewrite !take_take, !Nat.min_l in Ht by lia. }
  split; [done|]. intros L1 L2 Eck.
  assert ((ps | plen)) as Hd by apply page_align_floor_divide.
  rewrite <- klen_units in L1 by apply Hy. rewrite <- klen_units in L2 by apply Hk.
  pose proof (page_key_kdrop ps (nkey y) plen Hy ltac:(lia) Hd) as K1.
  pose proof (page_key_kdrop ps key plen Hk ltac:(lia) Hd) as K2.
  apply ckey_eq in Eck as [_ Ef]; [|done..].
  pose proof (page_key_ge _ _ K1) as G3. rewrite klen_kdrop in G3 by (apply Hy || lia).
  unfold first_page in Ef. rewrite !units_kdrop in Ef by (apply Hk || apply Hy || lia).
  pose proof (page_align_floor_gt ps Hps (Z.of_nat l)) as Hgt. fold plen in Hgt.
  rewrite klen_units in G3 by apply Hy.
  enough (Z.to_nat plen + Z.to_nat ps ≤ l)%nat by lia.
  apply lcp_max; [unfold zlen in *; lia|].
  rewrite <- !take_take_drop. by rewrite Ht, Ef.
Qed.

(** What is left of the key at a node of the walk. *)
Record rest_ok (c : RadixCache) (node : nat) (key : RadixKey) (ck : pyval) : Prop := {
  ro_wf : wf_key key;
  ro_salt : cache_salt key ≠ Some "";
  ro_page : (ps | klen key);
  ro_ck : 0 < klen key → ck = ckey ps key;
  ro_node : ∃ x, nodes c !! node = Some x ∧
                 (node ≠ root_node c → knamespace (nkey x) = knamespace key)
}.

Lemma rest_page_key c node key ck : rest_ok c node key ck → 0 < klen key → page_key ps key.
Proof. intros [] ?. by split. Qed.

(** The walk cannot go on from [n]. *)
Definition stuck (c : RadixCache) (n : nat) (rest : RadixKey) : Prop :=
  klen rest = 0 ∨ ∃ x, nodes c !! n = Some x ∧ children x !! ckey ps rest = None.

(** Where a walk from [node] along [key] ends: at [n], [j] units further. *)
Record walk_ends (c c' : RadixCache) (P P' : nat → list logical_unit) (V V' : nat → list Z)
    (H : nat → Z) (node n : nat) (key : RadixKey) (j : Z) (seg : list Z) : Prop := {
  we_inv : inv c' P' V' H;
  we_ext : extends c c' P P' V V';
  we_new : no_new c c' P P' V V';
  we_j : 0 ≤ j ≤ klen key;
  we_page : (ps | j);
  we_P : P' n = P node ++ take (Z.to_nat j) (units key);
  we_V : V' n = V node ++ seg;
  we_seg : zlen seg = j;
  we_node : ∃ x, nodes c' !! n = Some x ∧
                 (n ≠ root_node c' → knamespace (nkey x) = knamespace key);
  we_stuck : stuck c' n (kdrop key j)
}.

Lemma walk_ends_here c P V H node key ck :
  inv c P V H → rest_ok c node key ck → stuck c node key →
  walk_ends c c P P V V H node node key 0 [].
Proof.
  intros Hinv Hro Hst. pose proof (klen_nonneg key (ro_wf _ _ _ _ Hro)).
  split; try done.
  - apply extends_refl.
  - by apply no_new_core.
  - apply Z.divide_0_r.
  - by rewrite app_nil_r.
  - by rewrite app_nil_r.
  - apply Hro.
  - unfold stuck in *. rewrite klen_kdrop by (apply Hro || lia).
    destruct Hst as [|(x & Hx & Hc)]; [left; lia|]. right. exists x. split; [done|].
    enough (ckey ps (kdrop key 0) = ckey ps key) as -> by done.
    unfold ckey, first_page. rewrite units_kdrop by (apply Hro || lia). rewrite drop_0.
    f_equal. apply kslice_namespace, Hro.
Qed.

(** One step down to a child whose key matches for [plen] units. *)
Lemma walk_ends_step c1 c2 c3 P1 P2 P3 V1 V2 V3 H node mid n key plen j seg1 seg2 :
  wf_key key → cache_salt key ≠ Some "" →
  extends c1 c2 P1 P2 V1 V2 → no_new c1 c2 P1 P2 V1 V2 →
  0 ≤ plen ≤ klen key → (ps | plen) → zlen seg1 = plen →
  P2 mid = P1 node ++ take (Z.to_nat plen) (units key) → V2 mid = V1 node ++ seg1 →
  walk_ends c2 c3 P2 P3 V2 V3 H mid n (kdrop key plen) j seg2 →
  walk_ends c1 c3 P1 P3 V1 V3 H node n key (plen + j) (seg1 ++ seg2).
Proof.
  intros Hwf Hsalt E N Hpl Hpd Hs1 HP HV [].
  rewrite klen_kdrop in we_j0 by done. rewrite units_kdrop in we_P0 by done.
  split; try done.
  - by eapply extends_trans.
  - by eapply no_new_trans.
  - lia.
  - by apply Z.divide_add_r.
  - rewrite we_P0, HP, <- app_assoc. f_equal.
    rewrite Z2Nat.inj_add by lia. by rewrite take_take_drop.
  - by rewrite we_V0, HV, app_assoc.
  - rewrite zlen_app. lia.
  - destruct we_node0 as (x & Hx & Hns). exists x. split; [done|]. intros Hr.
    rewrite (Hns Hr). by apply kslice_namespace.
  - destruct we_stuck0 as [Hz|(x & Hx & Hc)].
    + left. rewrite !klen_kdrop in Hz by (apply kslice_wf || done || (rewrite klen_kdrop by done; lia)).
      rewrite klen_kdrop by (done || lia). lia.
    + right. exists x. split; [done|].
      enough (ckey ps (kdrop key (plen + j)) = ckey ps (kdrop (kdrop key plen) j)) as -> by done.
      unfold ckey. f_equal.
      { unfold kdrop at 1 2 3. rewrite !kslice_namespace by (done || apply kslice_salt). done. }
      f_equal. unfold first_page. f_equal.
      rewrite !units_kdrop by (apply kslice_wf || done || (try rewrite klen_kdrop by done; lia)).
      rewrite drop_drop. f_equal. lia.
Qed.

(** A child found by dict lookup, and what [kmatch] says about it. *)
Record child_at (c : RadixCache) (P : nat → list logical_unit) (V : nat → list Z)
    (node : nat) (key : RadixKey) (child : nat) (y : TreeNode) (v : list Z) (plen : Z) : Prop := {
  ca_node : nodes c !! child = Some y;
  ca_root : child ≠ root_node c;
  ca_parent : parent y = Some node;
  ca_page : page_key ps (nkey y);
  ca_value : value y = Some v;
  ca_len : zlen v = klen (nkey y);
  ca_P : P child = P node ++ units (nkey y);
  ca_V : V child = V node ++ v;
  ca_match : kmatch (nkey y) key ps = Ok plen;
  ca_ge : ps ≤ plen;
  ca_le : plen ≤ klen (nkey y);
  ca_key : plen ≤ klen key;
  ca_div : (ps | plen);
  ca_ns : knamespace (nkey y) = knamespace key;
  ca_take : take (Z.to_nat plen) (units (nkey y)) = take (Z.to_nat plen) (units key);
  ca_diff : plen < klen (nkey y) → plen < klen key →
    ckey ps (kdrop (nkey y) plen) ≠ ckey ps (kdrop key plen)
}.

Lemma walk_child c P V H node x key ck child :
  inv c P V H → rest_ok c node key ck → 0 < klen key →
  nodes c !! node = Some x → children x !! ck = Some child →
  ∃ y v plen, child_at c P V node key child y v plen.
Proof.
  intros Hinv Hro Hpos Hx Hc. pose proof (rest_page_key _ _ _ _ Hro Hpos) as Hk.
  rewrite (ro_ck _ _ _ _ Hro Hpos) in Hc.
  destruct (inv_child _ _ _ _ _ _ _ _ Hinv Hx Hc) as (Hr & y & Hy & Hyp & Hyk).
  destruct (inv_node _ _ _ _ _ _ Hinv Hy Hr) as (Hyk' & _ & p & z & v & Hp & Hz & _ & Hv & Hlen & HP & HV & _).
  assert (p = node) as -> by congruence.
  destruct (kmatch_child key y Hk Hyk' Hyk) as (plen & Hm). exists y, v, plen.
  destruct Hm as (? & ? & ? & ? & ? & ? & ? & ?). by split.
Qed.

Lemma child_at_touch f c P V node key child y v plen :
  (∀ x, core (f x) = core x) → child_at c P V node key child y v plen →
  child_at (update_node f child c) P V node key child (f y) v plen.
Proof.
  intros Hf Hca. pose proof (Hf y) as E. unfold core in E. injection E as _ Ep Ek Ev _.
  destruct Hca. split; rewrite ?Ep, ?Ek, ?Ev; try done. by apply update_node_lookup.
Qed.

(** The child key the loops compute for the rest of the key. *)
Lemma next_child_key c node key ck plen :
  rest_ok c node key ck → 0 < klen key → 0 ≤ plen ≤ klen key → (ps | plen) →
  ∃ ck', (if negb (klen (kdrop key plen) =? 0) then child_key (kdrop key plen) ps else Ok ck)
         = Ok ck' ∧ (0 < klen (kdrop key plen) → ck' = ckey ps (kdrop key plen)).
Proof.
  intros Hro Hpos Hpl Hpd. pose proof (klen_kdrop key plen (ro_wf _ _ _ _ Hro) Hpl) as Hkd.
  destruct (Z.eqb_spec (klen (kdrop key plen)) 0); simpl; [exists ck; split; [done|lia]|].
  eexists. split; [|done]. apply child_key_ckey; [done|].
  apply page_key_kdrop; [by eapply rest_page_key|lia|done].
Qed.

Lemma rest_ok_next c c' node mid z key ck ck' plen :
  rest_ok c node key ck → 0 ≤ plen ≤ klen key → (ps | plen) →
  (0 < klen (kdrop key plen) → ck' = ckey ps (kdrop key plen)) →
  nodes c' !! mid = Some z → knamespace (nkey z) = knamespace key →
  rest_ok c' mid (kdrop key plen) ck'.
Proof.
  intros Hro Hpl Hpd Hck Hz Hns. split; [apply kslice_wf|apply kslice_salt| |done|].
  - rewrite klen_kdrop by (apply Hro || lia). apply Z.divide_sub_r; [apply Hro|done].
  - exists z. split; [done|]. intros _. rewrite Hns. symmetry. apply kslice_namespace, Hro.
Qed.

Lemma stuck_after_split c nid z y key plen child :
  wf_key key → 0 ≤ plen ≤ klen key → nodes c !! nid = Some z →
  children z = {[ ckey ps (kdrop (nkey y) plen) := child ]} → plen < klen (nkey y) →
  (plen < klen (nkey y) → plen < klen key →
   ckey ps (kdrop (nkey y) plen) ≠ ckey ps (kdrop key plen)) →
  stuck c nid (kdrop key plen).
Proof.
  intros Hwf Hpl Hz Hzc Hlt Hdiff. destruct (decide (plen = klen key)) as [->|].
  - left. rewrite klen_kdrop by (done || lia). lia.
  - right. exists z. split; [done|]. rewrite Hzc. apply lookup_singleton_ne, Hdiff; lia.
Qed.

Lemma full_child_path (P : nat → list logical_unit) node child key y plen :
  wf_key (nkey y) → plen = klen (nkey y) → P child = P node ++ units (nkey y) →
  take (Z.to_nat plen) (units (nkey y)) = take (Z.to_nat plen) (units key) →
  P child = P node ++ take (Z.to_nat plen) (units key).
Proof.
  intros Hwf -> -> <-. f_equal. rewrite klen_units by done. unfold zlen.
  by rewrite Nat2Z.id, firstn_all.
Qed.

(** Touching a node leaves the tree as it was. *)
Lemma touch_inv f k c P V H :
  (∀ x, core (f x) = core x) → inv c P V H →
  inv (update_node f k c) P V H ∧ extends c (update_node f k c) P P V V ∧
  no_new c (update_node f k c) P P V V.
Proof.
  intros Hf Hinv. pose proof (core_of_meta f k c Hf) as E. unfold inv. rewrite E.
  split; [done|]. split; [by apply extends_core|by apply no_new_core].
Qed.

(** [mid] lies [plen] units of [key] below [node]. *)
Record step_down (c c' : RadixCache) (P P' : nat → list logical_unit) (V V' : nat → list Z)
    (H : nat → Z) (node mid : nat) (key : RadixKey) (plen : Z) (seg : list Z) : Prop := {
  sd_inv : inv c' P' V' H;
  sd_ext : extends c c' P P' V V';
  sd_new : no_new c c' P P' V V';
  sd_P : P' mid = P node ++ take (Z.to_nat plen) (units key);
  sd_V : V' mid = V node ++ seg;
  sd_seg : zlen seg = plen;
  sd_node : ∃ z, nodes c' !! mid = Some z ∧ knamespace (nkey z) = knamespace key
}.

(** Touching nodes before or after a step does not change where it leads. *)
Lemma step_down_touch f k c c' P P' V V' H node mid key plen seg :
  (∀ x, core (f x) = core x) → step_down c c' P P' V V' H node mid key plen seg →
  step_down c (update_node f k c') P P' V V' H node mid key plen seg.
Proof.
  intros Hf []. destruct (touch_inv f k c' P' V' H Hf) as (Hi & He & Hn); [done|].
  split; try done; [by eapply extends_trans|by eapply no_new_trans|].
  destruct sd_node0 as (z & Hz & Hns). destruct (meta_lookup f k c' mid z Hf Hz) as (z' & Hz' & E).
  exists z'. split; [done|]. unfold core in E. injection E as _ _ -> _ _. done.
Qed.

Lemma step_down_core c0 c c' P P' V V' H node mid key plen seg :
  core_of c0 = core_of c → step_down c c' P P' V V' H node mid key plen seg →
  step_down c0 c' P P' V V' H node mid key plen seg.
Proof.
  intros E []. split; try done.
  - eapply extends_trans; [by apply extends_core|done].
  - eapply no_new_trans; [by apply no_new_core|done].
Qed.

(** The whole key of the child matches: the walk goes to the child. *)
Lemma step_down_full c P V H node key child y v plen :
  inv c P V H → child_at c P V node key child y v plen → ¬ plen < klen (nkey y) →
  step_down c c P P V V H node child key plen v.
Proof.
  intros Hinv [] Hlt. assert (plen = klen (nkey y)) as Hpl by lia.
  split; [done|apply extends_refl|by apply no_new_core| |done|lia|by exists y].
  by eapply full_child_path; [apply ca_page0|..].
Qed.

(** It matches in part: the child is split and the walk goes to the new node. *)
Lemma step_down_split c P V H node key child y v plen :
  inv c P V H → wf_key key → child_at c P V node key child y v plen → plen < klen (nkey y) →
  ∃ nid c' P' V' z,
    _split_node clock cfg (nkey y) child plen c = Ok (nid, c') ∧
    step_down c c' P P' V V' H node nid key plen (pytake v plen) ∧
    nodes c' !! nid = Some z ∧ value z = Some (pytake v plen) ∧ stuck c' nid (kdrop key plen).
Proof.
  intros Hinv Hwf [] Hlt.
  destruct (split_node_inv c P V H child y plen Hinv ca_node0 ca_root0 ltac:(lia) ca_div0)
    as (nid & c2 & P2 & V2 & z & p & w & Hsp & Hinv2 & Hext2 & Hnew2 & Hz & Hnr & Hzk & Hzc & Hzp & Hw & Hzv & HP2 & HV2 & _).
  assert (p = node) as -> by congruence. assert (w = v) as -> by congruence.
  exists nid, c2, P2, V2, z. split; [done|].
  split; [|split; [done|split; [done|eapply stuck_after_split; try done; lia]]].
  split; try done.
  - rewrite HP2. f_equal. by rewrite units_ktake by (apply ca_page0 || lia).
  - rewrite zlen_pytake by lia. lia.
  - exists z. split; [done|]. by rewrite Hzk, (namespace_ktake ps).
Qed.

(** The loops stop at a node without a child for the rest of the key. *)
Lemma walk_ends_stop c P V H node x key ck :
  inv c P V H → rest_ok c node key ck → nodes c !! node = Some x →
  (if 0 <? klen key then children x !! ck else None) = None →
  walk_ends c c P P V V H node node key 0 [].
Proof.
  intros Hinv Hro Hx Hc. pose proof (klen_nonneg key (ro_wf _ _ _ _ Hro)).
  eapply walk_ends_here; [done|done|].
  destruct (Z.ltb_spec 0 (klen key)) as [Hpos|]; [|left; lia].
  right. exists x. split; [done|]. by rewrite <- (ro_ck _ _ _ _ Hro Hpos).
Qed.

Lemma walk_ends_down c c2 c3 P P2 P3 V V2 V3 H node ck mid n key plen j seg1 seg2 :
  rest_ok c node key ck → step_down c c2 P P2 V V2 H node mid key plen seg1 →
  0 ≤ plen ≤ klen key → (ps | plen) →
  walk_ends c2 c3 P2 P3 V2 V3 H mid n (kdrop key plen) j seg2 →
  walk_ends c c3 P P3 V V3 H node n key (plen + j) (seg1 ++ seg2).
Proof.
  intros Hro [] Hpl Hpd Hwe.
  eapply (walk_ends_step c c2 c3 P P2 P3 V V2 V3 H node mid); try done; apply Hro.
Qed.

Lemma rest_ok_down c c' P P' V V' H node mid key ck ck' plen seg :
  rest_ok c node key ck → 0 ≤ plen ≤ klen key → (ps | plen) →
  (0 < klen (kdrop key plen) → ck' = ckey ps (kdrop key plen)) →
  step_down c c' P P' V V' H node mid key plen seg → rest_ok c' mid (kdrop key plen) ck'.
Proof.
  intros Hro Hpl Hpd Hck [_ _ _ _ _ _ (z & Hz & Hns)]. by eapply (rest_ok_next c c' node mid z).
Qed.

Lemma match_loop_spec fuel at_ node key ck vs c P V H :
  inv c P V H → rest_ok c node key ck → (Z.to_nat (klen key) < fuel)%nat →
  ∃ segs n c' P' V' j,
    match_loop clock cfg fuel at_ node key ck vs c = Ok (vs ++ segs, n, c') ∧
    walk_ends c c' P P' V V' H node n key j (mjoin segs).
Proof.
  revert node key ck vs c P V. induction fuel as [|fuel IH]; [lia|].
  intros node key ck vs c P V Hinv Hro Hfuel.
  destruct (ro_node _ _ _ _ Hro) as (x & Hx & _).
  cbn [match_loop]. rewrite (get_node_ok _ _ _ Hx). cbn [rbind].
  destruct (if 0 <? klen key then children x !! ck else None) as [child|] eqn:Hc; last first.
  { exists [], node, c, P, V, 0. rewrite app_nil_r. split; [done|]. by eapply walk_ends_stop. }
  destruct (Z.ltb_spec 0 (klen key)) as [Hpos|]; [|done].
  destruct (walk_child _ _ _ _ _ _ _ _ _ Hinv Hro Hpos Hx Hc) as (y & v & plen & Hca).
  apply (child_at_touch (set_last_access_time at_)) in Hca; [|done].
  destruct (touch_inv (set_last_access_time at_) child c P V H ltac:(done) Hinv) as (Hinv1 & _).
  pose proof (core_of_meta (set_last_access_time at_) child c ltac:(done)) as E. symmetry in E.
  set (c1 := update_node _ child c) in *.
  pose proof (ca_key _ _ _ _ _ _ _ _ _ Hca) as Hle. pose proof (ca_ge _ _ _ _ _ _ _ _ _ Hca) as Hge.
  pose proof (ca_div _ _ _ _ _ _ _ _ _ Hca) as Hpd.
  rewrite (get_node_ok _ _ _ (ca_node _ _ _ _ _ _ _ _ _ Hca)). cbn [rbind].
  rewrite (ca_match _ _ _ _ _ _ _ _ _ Hca). cbn [rbind].
  destruct (next_child_key c node key ck plen) as (ck' & Hcknext & Hck'); [done|done|lia|done|].
  destruct (Z.ltb_spec plen (klen (nkey (set_last_access_time at_ y)))) as [Hlt|Hnlt].
  - destruct (step_down_split c1 P V H node key child _ v plen Hinv1 (ro_wf _ _ _ _ Hro) Hca Hlt)
      as (nid & c2 & P2 & V2 & z & -> & Hsd & Hz & Hzv & Hst).
    apply (step_down_core c) in Hsd; [|done].
    cbn [rbind]. rewrite (get_node_ok _ _ _ Hz). cbn [rbind]. rewrite Hzv.
    exists [pytake v plen], nid, c2, P2, V2, (plen + 0). split; [done|].
    eapply walk_ends_down; [done|done|lia|done|].
    eapply (walk_ends_here _ _ _ _ _ _ ck'); [apply Hsd| |done].
    eapply (rest_ok_down c); try done; lia.
  - pose proof (step_down_full _ _ _ _ _ _ _ _ _ _ Hinv1 Hca ltac:(lia)) as Hsd.
    apply (step_down_core c) in Hsd; [|done].
    rewrite Hcknext. cbn [rbind]. rewrite (ca_value _ _ _ _ _ _ _ _ _ Hca). cbn [default from_option]. unfold id.
    destruct (IH child (kdrop key plen) ck' (vs ++ [v]) c1 P V Hinv1) as (segs & n & c' & P' & V' & j & Hloop & Hwe).
    + eapply (rest_ok_down c); try done. lia.
    + rewrite klen_kdrop by (apply Hro || lia). lia.
    + exists (v :: segs), n, c', P', V', (plen + j). rewrite Hloop. split; [by rewrite <- app_assoc|].
      eapply (walk_ends_down c c1 c' _ _ _ _ _ _ _ _ _ child); try done. lia.
Qed.

(** Rest of the key after a walk of [j] units. *)
Record rest_of (key key' : RadixKey) (j : Z) : Prop := {
  rk_units : units key' = drop (Z.to_nat j) (units key);
  rk_len : klen key' = klen key - j;
  rk_ns : knamespace key' = knamespace key
}.

Lemma rest_of_0 key : rest_of key key 0.
Proof. split; [by rewrite drop_0|lia|done]. Qed.

Lemma rest_of_step key key' plen j :
  wf_key key → cache_salt key ≠ Some "" → 0 ≤ plen ≤ klen key → 0 ≤ j →
  rest_of (kdrop key plen) key' j → rest_of key key' (plen + j).
Proof.
  intros Hwf Hs Hpl Hj [Hu Hl Hn]. split.
  - rewrite Hu, units_kdrop, drop_drop by done. f_equal. lia.
  - rewrite Hl, klen_kdrop by done. lia.
  - rewrite Hn. by apply kslice_namespace.
Qed.

Lemma walk_ends_rest c c' P P' V V' H node n key j seg key' :
  wf_key key → cache_salt key ≠ Some "" →
  walk_ends c c' P P' V V' H node n key j seg → rest_of key key' j →
  klen key' = 0 ∨ ∃ x, nodes c' !! n = Some x ∧ children x !! ckey ps key' = None.
Proof.
  intros Hwf Hs Hwe [Hu Hl Hn]. pose proof (we_j _ _ _ _ _ _ _ _ _ _ _ _ Hwe) as Hj.
  destruct (we_stuck _ _ _ _ _ _ _ _ _ _ _ _ Hwe) as [Hz|(x & Hx & Hc)].
  - left. rewrite klen_kdrop in Hz by done. lia.
  - right. exists x. split; [done|].
    enough (ckey ps key' = ckey ps (kdrop key j)) as -> by done.
    unfold ckey, first_page. rewrite Hu, Hn, units_kdrop by done.
    f_equal. symmetry. by apply kslice_namespace.
Qed.

(** One round of the insert loop: the child reached, split if it matches in part,
    with its priority raised and its hit counted. *)
Lemma insert_round c P V H node key child y v plen prio (hit : bool) :
  inv c P V H → wf_key key → child_at c P V node key child y v plen →
  ∃ mid c2 P' V' seg,
    (if plen <? klen (nkey y) then
       let! (new_node, c) := _split_node clock cfg (nkey y) child plen c in
       Ok (new_node, update_node (λ z, set_priority (Z.max (priority z) prio) z) new_node c)
     else Ok (child, update_node (λ z, set_priority (Z.max (priority z) prio) z) child c))
      = Ok (mid, c2) ∧
    step_down c (if hit then _inc_hit_count mid c2 else c2) P P' V V' H node mid key plen seg.
Proof.
  intros Hinv Hwf Hca.
  assert (∀ mid c2 P' V' seg, step_down c c2 P P' V V' H node mid key plen seg →
    step_down c (if hit then _inc_hit_count mid c2 else c2) P P' V V' H node mid key plen seg) as Hhit.
  { intros mid c2 P' V' seg Hsd. destruct hit; [|done]. by apply step_down_touch. }
  destruct (Z.ltb_spec plen (klen (nkey y))) as [Hlt|Hnlt].
  - destruct (step_down_split _ _ _ _ _ _ _ _ _ _ Hinv Hwf Hca Hlt) as (nid & c2 & P2 & V2 & z & -> & Hsd & _).
    cbn [rbind]. eexists nid, _, P2, V2, _. split; [done|]. by apply Hhit, step_down_touch.
  - eexists child, _, P, V, v. split; [done|]. apply Hhit, step_down_touch; [done|].
    eapply step_down_full; [done|done|lia].
Qed.

Lemma insert_loop_spec fuel at_ prio ilen node key val ck total c P V H :
  inv c P V H → rest_ok c node key ck → (Z.to_nat (klen key) < fuel)%nat →
  ∃ n key' ck' c' P' V' j seg,
    insert_loop clock cfg fuel at_ prio ilen node key val ck total c
      = Ok (n, key', drop (Z.to_nat j) val, ck', total + j, c') ∧
    walk_ends c c' P P' V V' H node n key j seg ∧ rest_of key key' j ∧ rest_ok c' n key' ck'.
Proof.
  revert node key val ck total c P V. induction fuel as [|fuel IH]; [lia|].
  intros node key val ck total c P V Hinv Hro Hfuel.
  destruct (ro_node _ _ _ _ Hro) as (x & Hx & _).
  cbn [insert_loop]. rewrite (get_node_ok _ _ _ Hx). cbn [rbind].
  destruct (if 0 <? klen key then children x !! ck else None) as [child|] eqn:Hc; last first.
  { exists node, key, ck, c, P, V, 0, []. rewrite drop_0, Z.add_0_r. split; [done|].
    split; [by eapply walk_ends_stop|split; [apply rest_of_0|done]]. }
  destruct (Z.ltb_spec 0 (klen key)) as [Hpos|]; [|done].
  destruct (walk_child _ _ _ _ _ _ _ _ _ Hinv Hro Hpos Hx Hc) as (y & v & plen & Hca).
  apply (child_at_touch (set_last_access_time at_)) in Hca; [|done].
  destruct (touch_inv (set_last_access_time at_) child c P V H ltac:(done) Hinv) as (Hinv1 & _).
  pose proof (core_of_meta (set_last_access_time at_) child c ltac:(done)) as E. symmetry in E.
  set (c1 := update_node _ child c) in *.
  pose proof (ca_key _ _ _ _ _ _ _ _ _ Hca) as Hle. pose proof (ca_ge _ _ _ _ _ _ _ _ _ Hca) as Hge.
  pose proof (ca_div _ _ _ _ _ _ _ _ _ Hca) as Hpd.
  rewrite (get_node_ok _ _ _ (ca_node _ _ _ _ _ _ _ _ _ Hca)). cbn [rbind].
  rewrite (ca_match _ _ _ _ _ _ _ _ _ Hca). cbn [rbind].
  destruct (next_child_key c node key ck plen) as (ck' & Hcknext & Hck'); [done|done|lia|done|].
  destruct (insert_round c1 P V H node key child _ v plen prio (ilen <? total + plen) Hinv1
    (ro_wf _ _ _ _ Hro) Hca) as (mid & c2 & P2 & V2 & seg1 & -> & Hsd).
  apply (step_down_core c) in Hsd; [|done]. cbn [rbind]. rewrite Hcknext. cbn [rbind].
  destruct (IH mid (kdrop key plen) (pydrop val plen) ck' (total + plen) _ P2 V2 (sd_inv _ _ _ _ _ _ _ _ _ _ _ _ Hsd))
    as (n & key' & ck'' & c' & P' & V' & j & seg & Hloop & Hwe & Hrest & Hro').
  - eapply (rest_ok_down c); try done. lia.
  - rewrite klen_kdrop by (apply Hro || lia). lia.
  - pose proof (we_j _ _ _ _ _ _ _ _ _ _ _ _ Hwe) as Hj. rewrite klen_kdrop in Hj by (apply Hro || lia).
    exists n, key', ck'', c', P', V', (plen + j), (seg1 ++ seg). rewrite Hloop. split.
    { rewrite pydrop_eq, drop_drop by lia. rewrite <- Z2Nat.inj_add by lia.
      by rewrite <- Z.add_assoc. }
    split; [|split; [|done]].
    + eapply walk_ends_down; [done|done|lia|done|done].
    + apply rest_of_step; [apply Hro|apply Hro|lia|lia|done].
Qed.
End ops_inv.
