(* ===== verification/RadixInsert.v ===== *)
(** * Insertion, matching and reset as whole operations

    The walks of [RadixOps] put together: [insert] (walk, then a new leaf),
    [match_prefix] and [touch_prefix] (walk only) and [reset], each shown to
    return and to keep the invariant, with the exact effect on paths. *)
From stdpp Require Import functions.
From S2P Require Import Prelude RadixKey EvictPolicy RadixCache RadixInv RadixOps.

Section insert_inv.
Context (clock : nat → Z) (cfg : cache_config).
Abbreviation ps := (page_size cfg).
Context (Hps : 0 < ps).

(** The paths of the second store are those of the first, one node aside. *)
Definition only_new (c c' : RadixCache) (nid : nat) : Prop :=
  ∀ n, is_Some (nodes c' !! n) → n = nid ∨ is_Some (nodes c !! n).

Lemma insert_leaf_spec prio ilen q y key val total c P V H :
  inv cfg c P V H → page_key ps key → zlen val = klen key →
  nodes c !! q = Some y → children y !! ckey ps key = None →
  (q ≠ root_node c → knamespace key = knamespace (nkey y)) →
  ∃ nid c' P' V' z,
    insert_leaf clock prio ilen q key val (ckey ps key) total c = Ok (nid, c') ∧
    inv cfg c' P' V' H ∧ extends c c' P P' V V' ∧ only_new c c' nid ∧
    nodes c !! nid = None ∧ nid ≠ root_node c' ∧
    nodes c' !! nid = Some z ∧ nkey z = key ∧
    P' nid = P q ++ units key ∧ V' nid = V q ++ val ∧
    (∀ s, slot_count s c' = occurs s val + slot_count s c).
Proof.
  intros Hinv Hk Hv Hy Hfree Hns.
  pose proof (core_inv_leaf ps Hps _ _ _ _ _ Hinv q (core y) key val (core_lookup _ _ _ Hy) Hk Hv
    Hfree Hns) as Hl.
  pose proof (fresh_id _ _ _ _ _ Hinv) as Hfresh.
  assert (counter c ≠ q) as Hnq by congruence.
  assert (counter c ≠ root_node c) as Hnr.
  { destruct (inv_root _ _ _ _ _ Hinv) as [r Hr]. congruence. }
  unfold insert_leaf. simpl.
  set (new := mkNode ∅ (Some q) key _ _ _ _ _ _ _ _). set (c1 := with_sizes _ _ _).
  assert (nodes c1 = <[ q := set_children <[ ckey ps key := counter c ]> y ]>
                       (<[ counter c := new ]> (nodes c))) as Hn.
  { unfold c1. simpl. apply alter_to_insert. by rewrite lookup_insert_ne. }
  assert (core_of c1 = leaf_state ps (core_of c) q (core y) key val) as Hcore.
  { trans (CS (core <$> nodes c1) (root_node c) (S (counter c)) (evictable_size_ c + klen key)
             (protected_size_ c) (evictable_leaves c)); [done|].
    rewrite Hn, !fmap_insert. done. }
  rewrite <- Hcore in Hl.
  destruct (update_leaf_status_inv clock cfg Hps c1 _ _ _ _ q Hl) as (lv1 & -> & Hl1).
  { rewrite Hn, lookup_insert_eq. done. }
  cbn [rbind].
  destruct (update_leaf_status_inv clock cfg Hps (with_leaves lv1 c1) _ _ _ _ (counter c) Hl1) as (lv2 & -> & Hl2).
  { change (nodes (with_leaves lv1 c1)) with (nodes c1).
    rewrite Hn, lookup_insert_ne, lookup_insert_eq by done. done. }
  cbn [rbind]. set (c2 := with_leaves lv2 _) in *.
  replace ((∅ ∪ {[q; cs_ctr (core_of c)]}) ∖ {[q]} ∖ {[counter c]}) with (∅ : gset nat) in Hl2
    by (simpl; set_solver).
  change (nodes c1) with (nodes (log_call (record_store (counter c)) c2)) in Hn.
  eexists (counter c), _, _, _, new. split; [reflexivity|]. split; [exact Hl2|].
  split; [|split; [|split; [done|split; [done|split; [|split; [done|]]]]]].
  - split; [done|]. intros n x Hx. assert (n ≠ counter c) by congruence.
    unfold leaf_P, leaf_V. rewrite !fn_lookup_insert_ne by (simpl; done).
    split; [done|]. split; [done|]. rewrite Hn. destruct (decide (n = q)) as [->|].
    + rewrite lookup_insert_eq. simplify_eq. by eexists.
    + rewrite !lookup_insert_ne by done. by eexists.
  - intros n. rewrite Hn. destruct (decide (n = counter c)); [by left|]. right.
    destruct (decide (n = q)) as [->|]; [by eexists|]. by rewrite !lookup_insert_ne in * by done.
  - rewrite Hn, lookup_insert_ne, lookup_insert_eq by done. done.
  - unfold leaf_P, leaf_V. change (cs_ctr (core_of c)) with (counter c).
    rewrite !fn_lookup_insert. split; [done|]. split; [done|]. intros s.
    trans (slot_count s c1); [done|]. unfold slot_count. rewrite Hcore. simpl cs_nodes at 1.
    by eapply (leaf_msum ps (core_of c) P V H ∅ Hinv q (core y) key val (core_lookup _ _ _ Hy)).
Qed.

(** ** The key an operation works on *)

(** Keys as [RadixKey.__init__] builds them. *)
Definition key_ok (k : RadixKey) : Prop := wf_key k ∧ cache_salt k ≠ Some "".

(** The bigram view of a key cut to whole pages. *)
Definition tree_key (k : RadixKey) : RadixKey :=
  page_aligned (maybe_to_bigram_view (V:=Z) k (is_eagle cfg) None).1 ps.

Lemma bigram_view_ok k : key_ok k → key_ok (maybe_to_bigram_view (V:=Z) k (is_eagle cfg) None).1.
Proof. unfold maybe_to_bigram_view. intros [? ?]. by destruct (_ && _). Qed.

Lemma bigram_view_fst {V} k (v : option (list V)) :
  (maybe_to_bigram_view k (is_eagle cfg) v).1 = (maybe_to_bigram_view (V:=Z) k (is_eagle cfg) None).1.
Proof. unfold maybe_to_bigram_view. by destruct (_ && _). Qed.

Lemma tree_key_ok k : key_ok k → key_ok (tree_key k) ∧ (ps | klen (tree_key k)).
Proof.
  intros Hk. apply bigram_view_ok in Hk as [Hwf Hs]. unfold tree_key. split; [split|].
  - by apply page_aligned_wf.
  - unfold page_aligned. destruct (_ =? 1); [done|apply kslice_salt].
  - rewrite klen_page_aligned by done. apply page_align_floor_divide.
Qed.

Lemma tree_key_short k :
  key_ok k → klen (maybe_to_bigram_view (V:=Z) k (is_eagle cfg) None).1 = 0 → klen (tree_key k) = 0.
Proof.
  intros Hk%bigram_view_ok E. unfold tree_key. rewrite klen_page_aligned by (done || apply Hk).
  rewrite E. apply page_align_floor_id; [done|apply Z.divide_0_r].
Qed.

Lemma tree_key_namespace k : key_ok k → knamespace (tree_key k) = knamespace k.
Proof.
  intros Hk. trans (knamespace (maybe_to_bigram_view (V:=Z) k (is_eagle cfg) None).1).
  - unfold tree_key, page_aligned. destruct (_ =? 1); [done|].
    apply kslice_namespace, (bigram_view_ok _ Hk).
  - unfold maybe_to_bigram_view. by destruct (_ && _).
Qed.

Lemma rest_ok_root k c P V H :
  inv cfg c P V H → key_ok k → (ps | klen k) → 0 < klen k →
  rest_ok cfg c (root_node c) k (ckey ps k).
Proof.
  intros Hinv [Hwf Hs] Hd Hpos. split; try done.
  destruct (inv_root _ _ _ _ _ Hinv) as [r Hr]. exists r. by split.
Qed.

Lemma walk_ends_core c0 c1 c' P P' V V' H node n key j seg :
  core_of c0 = core_of c1 →
  walk_ends cfg c1 c' P P' V V' H node n key j seg →
  walk_ends cfg c0 c' P P' V V' H node n key j seg.
Proof.
  intros E []. split; try done.
  - eapply extends_trans; [by apply extends_core|done].
  - eapply no_new_trans; [by apply no_new_core|done].
Qed.

Lemma walk_root_empty c P V H k :
  inv cfg c P V H → key_ok k → klen k = 0 →
  walk_ends cfg c c P P V V H (root_node c) (root_node c) k 0 [].
Proof.
  intros Hinv [Hwf Hs] E. eapply (walk_ends_here cfg _ _ _ _ _ k PNone); [done| |by left].
  split; try done; [rewrite E; apply Z.divide_0_r|lia|].
  destruct (inv_root _ _ _ _ _ Hinv) as [r Hr]. exists r. by split.
Qed.

Lemma zsum_zlen_mjoin (l : list (list Z)) : zsum (zlen <$> l) = zlen (mjoin l).
Proof. induction l as [|x l IH]; [done|]. simpl. rewrite zlen_app, <- IH. done. Qed.

(** ** Matching *)

Lemma match_prefix_helper_spec c P V H k :
  inv cfg c P V H → page_key ps k →
  ∃ segs n c' P' V' j,
    _match_prefix_helper clock cfg (root_node c) k c = Ok (segs, n, c') ∧
    walk_ends cfg c c' P P' V V' H (root_node c) n k j (mjoin segs).
Proof.
  intros Hinv Hk. unfold _match_prefix_helper. simpl.
  rewrite (child_key_ckey _ Hps _ Hk). cbn [rbind].
  set (c1 := update_node _ _ _).
  assert (core_of c1 = core_of c) as E by (unfold c1; by rewrite core_of_meta).
  assert (inv cfg c1 P V H) as Hinv1 by (unfold inv; by rewrite E).
  destruct (match_loop_spec clock cfg Hps (S (Z.to_nat (klen k))) (clock (ticks c)) (root_node c) k
    (ckey ps k) [] c1 P V H Hinv1) as (segs & n & c' & P' & V' & j & Hl & Hw); [|lia|].
  - change (root_node c) with (root_node c1). eapply rest_ok_root; [done|split; apply Hk|apply Hk|apply Hk].
  - exists segs, n, c', P', V', j. split; [done|]. by eapply walk_ends_core.
Qed.

Lemma match_prefix_spec c P V H k :
  inv cfg c P V H → key_ok k → disable cfg = false →
  ∃ r c' P' V' seg,
    match_prefix clock cfg k c = Ok (r, c') ∧
    walk_ends cfg c c' P P' V V' H (root_node c) (last_device_node r) (tree_key k)
      (device_prefix_len r) seg.
Proof.
  intros Hinv Hk Hdis. destruct (tree_key_ok k Hk) as [Htk Hd]. unfold match_prefix. rewrite Hdis.
  fold (tree_key k). simpl.
  destruct (Z.eqb_spec (klen (maybe_to_bigram_view (V:=Z) k (is_eagle cfg) None).1) 0) as [E|_].
  { eexists _, c, P, V, []. split; [done|]. apply walk_root_empty; [done|done|]. by apply tree_key_short. }
  destruct (Z.eqb_spec (klen (tree_key k)) 0) as [E|E].
  { eexists _, c, P, V, []. split; [done|]. by apply walk_root_empty. }
  pose proof (klen_nonneg (tree_key k) ltac:(apply Htk)).
  destruct (match_prefix_helper_spec c P V H (tree_key k) Hinv) as (segs & n & c' & P' & V' & j & Hl & Hw).
  { split; [apply Htk|apply Htk|lia|done]. }
  rewrite Hl. cbn [rbind]. eexists _, c', P', V', (mjoin segs). split; [done|]. simpl.
  rewrite zsum_zlen_mjoin, (we_seg _ _ _ _ _ _ _ _ _ _ _ _ _ Hw). done.
Qed.

Lemma touch_prefix_spec c P V H k :
  inv cfg c P V H → key_ok k →
  ∃ c' P' V', touch_prefix clock cfg k c = Ok c' ∧
    inv cfg c' P' V' H ∧ extends c c' P P' V V' ∧ no_new c c' P P' V V'.
Proof.
  intros Hinv Hk.
  assert (∃ c' P' V', Ok c = Ok c' ∧ inv cfg c' P' V' H ∧ extends c c' P P' V V' ∧ no_new c c' P P' V V') as Hid.
  { exists c, P, V. split; [done|]. split; [done|]. split; [apply extends_refl|by apply no_new_core]. }
  unfold touch_prefix. fold (tree_key k).
  destruct (_ || _); [done|]. destruct (Z.eqb_spec (klen (tree_key k)) 0) as [E|E]; [done|].
  destruct (tree_key_ok k Hk) as [Htk Hd]. pose proof (klen_nonneg (tree_key k) ltac:(apply Htk)).
  destruct (match_prefix_helper_spec c P V H (tree_key k) Hinv) as (segs & n & c' & P' & V' & j & Hl & []).
  { split; [apply Htk|apply Htk|lia|done]. }
  rewrite Hl. cbn [rbind]. exists c', P', V'. done.
Qed.

(** ** Insertion *)

(** The slots stored for the key: one per unit of the aligned key. *)
Definition tree_value (k : RadixKey) (val : option (list Z)) : list Z :=
  pytake (match val with Some v => v | None => token_ids (tree_key k) end) (klen (tree_key k)).

Definition value_ok (k : RadixKey) (val : option (list Z)) : Prop :=
  match val with Some v => klen (tree_key k) ≤ zlen v | None => True end.

Lemma zlen_tree_value k val :
  key_ok k → value_ok k val → zlen (tree_value k val) = klen (tree_key k).
Proof.
  intros Hk Hv. destruct (tree_key_ok k Hk) as [[Hwf _] _]. pose proof (klen_nonneg _ Hwf).
  unfold tree_value, value_ok in *. rewrite zlen_pytake by done. destruct val; [lia|].
  pose proof (_raw_len_bounds _ Hwf) as Hr. assert (klen (tree_key k) ≤ _raw_len (tree_key k)).
  { unfold klen. destruct (is_bigram _); zbool; lia. }
  lia.
Qed.

(** What [insert] computes from its arguments before the walk. *)
Lemma insert_args k val :
  key_ok k →
  let '(k1, v1) := maybe_to_bigram_view k (is_eagle cfg) val in
  page_aligned k1 ps = tree_key k ∧
  match v1 with
  | Some v => pytake v (klen (page_aligned k1 ps))
  | None => pytake (token_ids (page_aligned k1 ps)) (klen (page_aligned k1 ps))
  end = tree_value k val.
Proof.
  intros Hk. destruct (tree_key_ok k Hk) as [[Hwf _] _]. pose proof (klen_nonneg _ Hwf) as Hn.
  pose proof (bigram_view_fst k val) as E.
  destruct (maybe_to_bigram_view k (is_eagle cfg) val) as [k1 v1] eqn:Ev. simpl in E.
  assert (page_aligned k1 ps = tree_key k) as E1 by (unfold tree_key; by rewrite <- E).
  split; [done|]. rewrite E1. unfold tree_value. destruct (bigram_view_ok k Hk) as [Hwf1 _].
  rewrite <- E in Hwf1.
  assert (klen (tree_key k) ≤ klen k1) as Hle.
  { rewrite <- E1, klen_page_aligned by done. by apply page_align_floor_le. }
  unfold maybe_to_bigram_view in Ev.
  destruct (_ && _); injection Ev as <- <-; destruct val as [v|]; simpl; try done.
  rewrite !pytake_eq by lia. rewrite take_take. f_equal. lia.
Qed.

(** [insert] walks as far as the tree goes, then adds the rest as one leaf. *)
Record inserted (c c' : RadixCache) (P P' : nat → list logical_unit) (V V' : nat → list Z)
    (H : nat → Z) (key : RadixKey) (val : list Z) (n : nat) (j : Z) : Prop := {
  in_inv : inv cfg c' P' V' H;
  in_ext : extends c c' P P' V V';
  in_P : P' n = units key;
  in_ns : ∃ x, nodes c' !! n = Some x ∧ (n ≠ root_node c' → knamespace (nkey x) = knamespace key);
  in_walk : ∃ c1 P1 V1 n1 seg,
    walk_ends cfg c c1 P P1 V V1 H (root_node c) n1 key j seg ∧
    V' n = seg ++ drop (Z.to_nat j) val ∧ extends c1 c' P1 P' V1 V' ∧ only_new c1 c' n ∧
    (∀ s, slot_count s c' = occurs s (drop (Z.to_nat j) val) + slot_count s c1)
}.

(** An empty key stays at the root. *)
Lemma inserted_empty c c1 P V H k val :
  inv cfg c P V H → core_of c1 = core_of c → key_ok k → klen k = 0 → zlen val = klen k →
  inserted c c1 P P V V H k val (root_node c) 0.
Proof.
  intros Hinv E Hk E0 Hv. assert (inv cfg c1 P V H) as Hinv1 by (unfold inv; by rewrite E).
  assert (units k = []) as Eu by (apply zlen_nil_inv; rewrite <- klen_units; [done|apply Hk]).
  assert (val = []) as -> by (apply zlen_nil_inv; lia).
  pose proof (f_equal cs_root E) as Er. simpl in Er.
  split; [done|by apply extends_core| | |].
  - rewrite Eu. apply (ci_P _ _ _ _ _ _ Hinv).
  - destruct (inv_root _ _ _ _ _ Hinv1) as [r Hr]. rewrite <- Er. exists r. by split.
  - exists c1, P, V, (root_node c1), []. split; [|split; [|split]].
    + eapply walk_ends_core; [by symmetry|]. rewrite <- Er. by apply walk_root_empty.
    + rewrite drop_nil. apply (ci_V _ _ _ _ _ _ Hinv).
    + apply extends_refl.
    + split; [intros m Hm; by right|]. intros s. by rewrite drop_nil.
Qed.

Lemma inv_root_paths c P V H :
  inv cfg c P V H → P (root_node c) = [] ∧ V (root_node c) = [].
Proof. intros Hinv. split; [apply (ci_P _ _ _ _ _ _ Hinv)|apply (ci_V _ _ _ _ _ _ Hinv)]. Qed.

(** The walk used the whole key up: nothing is added. *)
Lemma inserted_whole c c' P P' V V' H k val n j seg :
  inv cfg c P V H → key_ok k → zlen val = klen k →
  walk_ends cfg c c' P P' V V' H (root_node c) n k j seg → j = klen k →
  inserted c c' P P' V V' H k val n j.
Proof.
  intros Hinv Hk Hv Hw Ej. destruct (inv_root_paths _ _ _ _ Hinv) as [P0 V0].
  pose proof (we_j _ _ _ _ _ _ _ _ _ _ _ _ _ Hw) as Hj.
  split; [apply Hw|apply Hw| |apply Hw|].
  - rewrite (we_P _ _ _ _ _ _ _ _ _ _ _ _ _ Hw), P0, Ej. simpl. apply take_ge.
    rewrite klen_units by apply Hk. unfold zlen. lia.
  - assert (drop (Z.to_nat j) val = []) as Ed by (apply drop_ge; unfold zlen in *; lia). rewrite Ed.
    exists c', P', V', n, seg. split; [done|]. split; [|split; [apply extends_refl|split; [by right|done]]].
    by rewrite (we_V _ _ _ _ _ _ _ _ _ _ _ _ _ Hw), V0, app_nil_r.
Qed.

(** A rest is left: it becomes a leaf below the node the walk ended at. *)
Lemma inserted_leaf c c1 P P1 V V1 H k val n key' j seg prio ilen total :
  inv cfg c P V H → key_ok k → zlen val = klen k →
  walk_ends cfg c c1 P P1 V V1 H (root_node c) n k j seg → rest_of k key' j →
  page_key ps key' →
  ∃ nid c' P' V',
    insert_leaf clock prio ilen n key' (drop (Z.to_nat j) val) (ckey ps key') total c1 = Ok (nid, c') ∧
    inserted c c' P P' V V' H k val nid j.
Proof.
  intros Hinv Hk Hv Hw Hrest Hpk. destruct (inv_root_paths _ _ _ _ Hinv) as [P0 V0].
  pose proof (we_j _ _ _ _ _ _ _ _ _ _ _ _ _ Hw) as Hj. pose proof (page_key_ge _ _ Hpk).
  destruct (we_node _ _ _ _ _ _ _ _ _ _ _ _ _ Hw) as (x & Hx & Hxns).
  destruct (walk_ends_rest _ _ _ _ _ _ _ _ _ _ _ _ _ key' ltac:(apply Hk) ltac:(apply Hk) Hw Hrest)
    as [?|(x' & Hx' & Hfree)]; [lia|]. assert (x' = x) as -> by congruence.
  destruct Hrest as [Hru Hrl Hrn].
  destruct (insert_leaf_spec prio ilen n x key' (drop (Z.to_nat j) val) total c1 P1 V1 H
    ltac:(apply Hw) Hpk) as (nid & c2 & P2 & V2 & z & Hins & Hinv2 & Hext2 & Honly & Hfr & Hnr & Hz & Hzk & HP2 & HV2 & HS2);
    [rewrite Hrl; unfold zlen in *; rewrite length_drop; lia|done|done|by intros Hr; rewrite Hxns|].
  exists nid, c2, P2, V2. split; [done|]. split; [done| | | |].
  - eapply extends_trans; [apply Hw|done].
  - rewrite HP2, (we_P _ _ _ _ _ _ _ _ _ _ _ _ _ Hw), P0, Hru. simpl. apply take_drop.
  - exists z. split; [done|]. by rewrite Hzk.
  - exists c1, P1, V1, n, seg. split; [done|]. split; [|done].
    by rewrite HV2, (we_V _ _ _ _ _ _ _ _ _ _ _ _ _ Hw), V0.
Qed.

Lemma insert_helper_spec c P V H k val prio ilen :
  inv cfg c P V H → key_ok k → (ps | klen k) → zlen val = klen k →
  ∃ n c' P' V' j,
    _insert_helper clock cfg (root_node c) k val prio ilen c = Ok (j, n, c') ∧
    inserted c c' P P' V V' H k val n j.
Proof.
  intros Hinv Hk Hd Hv. pose proof (klen_nonneg k ltac:(apply Hk)) as Hn.
  unfold _insert_helper. cbn -[child_key update_node insert_loop insert_leaf].
  set (c1 := update_node _ _ (update_node _ _ _)).
  assert (core_of c1 = core_of c) as E by (unfold c1; by rewrite !core_of_meta).
  assert (inv cfg c1 P V H) as Hinv1 by (unfold inv; by rewrite E).
  destruct (Z.eqb_spec (klen k) 0) as [E0|E0].
  { exists (root_node c), c1, P, V, 0. split; [done|]. by apply inserted_empty. }
  assert (page_key ps k) as Hpk by (split; [apply Hk|apply Hk|lia|done]).
  rewrite (child_key_ckey _ Hps _ Hpk). cbn [rbind].
  destruct (insert_loop_spec clock cfg Hps (S (Z.to_nat (klen k))) (clock (ticks c)) (default 0 prio) ilen
    (root_node c) k val (ckey ps k) 0 c1 P V H Hinv1)
    as (n & key' & ck' & c' & P' & V' & j & seg & Hl & Hw & Hrest & Hro).
  { change (root_node c) with (root_node c1). eapply rest_ok_root; [done|done|done|lia]. }
  { lia. }
  rewrite Hl. cbn [rbind]. rewrite Z.add_0_l. apply (walk_ends_core c) in Hw; [|by symmetry].
  pose proof (we_j _ _ _ _ _ _ _ _ _ _ _ _ _ Hw) as Hj.
  pose proof (rk_len _ _ _ Hrest) as Hrl.
  destruct (Z.eqb_spec (klen key') 0) as [Ek|Ek]; cbn [negb].
  - exists n, c', P', V', j. split; [done|]. eapply inserted_whole; try done. lia.
  - rewrite (ro_ck _ _ _ _ _ Hro) by lia.
    destruct (inserted_leaf c c' P P' V V' H k val n key' j seg (default 0 prio) ilen j)
      as (nid & c2 & P2 & V2 & -> & Hins); try done; [eapply rest_page_key; [done|lia]|].
    cbn [rbind]. by exists nid, c2, P2, V2, j.
Qed.

Lemma insert_spec c P V H k val prio ilen :
  inv cfg c P V H → key_ok k → value_ok k val → disable cfg = false →
  ∃ n c' P' V' j,
    insert clock cfg k val prio ilen c = Ok (mkInsert j (Some n), c') ∧
    inserted c c' P P' V V' H (tree_key k) (tree_value k val) n j.
Proof.
  intros Hinv Hk Hv Hdis. unfold insert. rewrite Hdis.
  pose proof (insert_args k val Hk) as Ha. destruct (maybe_to_bigram_view k (is_eagle cfg) val) as [k1 v1].
  destruct Ha as [E1 E2]. rewrite E2, E1. destruct (tree_key_ok k Hk) as [Htk Hd].
  destruct (insert_helper_spec c P V H (tree_key k) (tree_value k val) prio ilen Hinv Htk Hd)
    as (n & c' & P' & V' & j & Hl & Hin); [by apply zlen_tree_value|].
  rewrite Hl. cbn [rbind]. by exists n, c', P', V', j.
Qed.

(** ** Reset *)

Lemma reset_inv c : inv cfg (reset clock c) (λ _, []) (λ _, []) (λ _, 0).
Proof.
  unfold inv, reset, core_of. simpl. rewrite map_fmap_singleton.
  assert (∀ f : nat → ncore → Z, (∀ x, f (counter c) x = 0) →
    ∀ x, msum f {[counter c := x]} = 0) as Hsum.
  { intros f Hf x. apply msum_zero. intros k y Hk. apply lookup_singleton_Some in Hk as [<- <-]. done. }
  split; simpl; try done.
  - eexists. rewrite lookup_singleton_eq. split; [done|]. simpl. done.
  - intros n x Hn Hr. apply lookup_singleton_Some in Hn as [<- _]. done.
  - intros p y k n Hp. apply lookup_singleton_Some in Hp as [<- <-]. simpl. by rewrite lookup_empty.
  - intros n Hn. apply lookup_singleton_ne. lia.
  - rewrite Hsum; [done|]. intros x. unfold ev_size. by rewrite decide_True.
  - rewrite Hsum; [done|]. intros x. unfold pr_size. by rewrite decide_True.
  - intros n _. split; [set_solver|]. intros (Hr & x & Hx & _).
    apply lookup_singleton_Some in Hx as [<- _]. done.
Qed.
End insert_inv.
