(* ===== verification/RadixLock.v ===== *)
(** * Locks on paths of the tree

    [inc_lock_ref] and [dec_lock_ref] climb from a node to the root.  One step
    moves a held lock between a node and its parent in the bookkeeping of the
    invariant, so a whole climb changes the held locks of its start node only.
    The climb reaches the root within as many steps as there are nodes. *)
From S2P Require Import Prelude RadixKey EvictPolicy RadixCache RadixInv RadixOps.

(** ** Climbing *)

(** Nodes strictly nearer to the root than [n]. *)
Definition rank (P : nat → list logical_unit) (m : gmap nat TreeNode) (n : nat) : nat :=
  size (filter (λ k, (length (P k) < length (P n))%nat) (dom m)).

Lemma rank_lt (P : nat → list logical_unit) m n p :
  is_Some (m !! p) → (length (P p) < length (P n))%nat → (rank P m p < rank P m n)%nat.
Proof.
  intros Hp Hlt. unfold rank. apply subset_size. split.
  - intros k. rewrite !elem_of_filter. intros [? ?]. split; [lia|done].
  - intros Hs. assert (p ∈ filter (λ k, (length (P k) < length (P n))%nat) (dom m)) as Hin.
    { apply elem_of_filter. split; [done|]. by apply elem_of_dom. }
    apply Hs, elem_of_filter in Hin. lia.
Qed.

Lemma rank_le (P : nat → list logical_unit) m n : (rank P m n ≤ size m)%nat.
Proof. unfold rank. rewrite <- size_dom. apply subseteq_size. set_solver. Qed.

Lemma rank_dom (P : nat → list logical_unit) m m' n : dom m = dom m' → rank P m n = rank P m' n.
Proof. unfold rank. by intros ->. Qed.

(** The nodes below the root on the way up from a node. *)
Inductive up_path (c : RadixCache) : nat → list nat → Prop :=
  | up_root : up_path c (root_node c) []
  | up_step n x p l :
      n ≠ root_node c → nodes c !! n = Some x → parent x = Some p →
      up_path c p l → up_path c n (n :: l).

Lemma up_path_det c n l l' : up_path c n l → up_path c n l' → l = l'.
Proof.
  intros H1. revert l'. induction H1 as [|n x p l Hr Hx Hp _ IH]; intros l' H2;
    inversion H2; simplify_eq; try done. f_equal. by apply IH.
Qed.

(** Same parent pointers, same paths. *)
Lemma up_path_same c c' n l :
  root_node c' = root_node c →
  (∀ k x, nodes c !! k = Some x → ∃ x', nodes c' !! k = Some x' ∧ parent x' = parent x) →
  up_path c n l → up_path c' n l.
Proof.
  intros Er Hs H1. induction H1 as [|n x p l Hr Hx Hp _ IH]; [rewrite <- Er; constructor|].
  destruct (Hs _ _ Hx) as (x' & Hx' & E). 
  apply (up_step _ _ x' p); [congruence|done|congruence|done].
Qed.

Section lock_inv.
Context (clock : nat → Z) (cfg : cache_config).
Abbreviation ps := (page_size cfg).
Context (Hps : 0 < ps).

Lemma inv_parent_depth c P V H n x p :
  inv cfg c P V H → nodes c !! n = Some x → n ≠ root_node c → parent x = Some p →
  is_Some (nodes c !! p) ∧ (length (P p) < length (P n))%nat.
Proof.
  intros Hinv Hx Hr Hp. split.
  - destruct (inv_node _ _ _ _ _ _ _ Hinv Hx Hr) as (_ & _ & q & y & v & Hq & Hy & _).
    assert (q = p) as -> by congruence. by exists y.
  - by apply (node_ok_depth _ _ _ _ _ _ _ _ _
      (ci_node _ _ _ _ _ _ Hinv _ _ (core_lookup _ _ _ Hx) Hr)).
Qed.

Lemma up_path_exists c P V H n :
  inv cfg c P V H → is_Some (nodes c !! n) → ∃ l, up_path c n l.
Proof.
  intros Hinv. remember (length (P n)) as d eqn:Ed. revert n Ed.
  induction d as [d IH] using lt_wf_ind. intros n -> [x Hx].
  destruct (decide (n = root_node c)) as [->|Hr]; [exists []; constructor|].
  destruct (inv_node _ _ _ _ _ _ _ Hinv Hx Hr) as (_ & _ & p & y & v & Hp & Hy & _).
  destruct (inv_parent_depth _ _ _ _ _ _ _ Hinv Hx Hr Hp) as [Hs Hlt].
  destruct (IH _ Hlt p eq_refl Hs) as [l Hl]. exists (n :: l). by econstructor.
Qed.

(** ** Lock counts *)

Lemma child_locks_nonneg c P V H n x :
  inv cfg c P V H → nodes c !! n = Some x → 0 ≤ child_locks (core <$> nodes c) (core x).
Proof.
  intros Hinv Hx. unfold child_locks. apply msum_nonneg. intros k m Hk.
  destruct (inv_child _ _ _ _ _ _ _ _ _ Hinv Hx Hk) as (Hr & y & Hy & _).
  destruct (inv_node _ _ _ _ _ _ _ Hinv Hy Hr) as (_ & Hl & _).
  unfold lock_of. rewrite lookup_fmap, Hy. done.
Qed.

(** A held lock keeps the node's count up. *)
Lemma held_le_lock c P V H n x :
  inv cfg c P V H → nodes c !! n = Some x → n ≠ root_node c → H n ≤ lock_ref x.
Proof.
  intros Hinv Hx Hr.
  destruct (ci_node _ _ _ _ _ _ Hinv _ _ (core_lookup _ _ _ Hx) Hr) as [_ _ _ Hl]. simpl in Hl.
  pose proof (child_locks_nonneg _ _ _ _ _ _ Hinv Hx). lia.
Qed.

(** A child's count is part of its parent's. *)
Lemma child_lock_le c P V H n x p y :
  inv cfg c P V H → (∀ k, k ≠ root_node c → 0 ≤ H k) →
  nodes c !! n = Some x → n ≠ root_node c → parent x = Some p →
  nodes c !! p = Some y → p ≠ root_node c → lock_ref x ≤ lock_ref y.
Proof.
  intros Hinv HH Hx Hr Hp Hy Hpr.
  destruct (inv_node _ _ _ _ _ _ _ Hinv Hx Hr) as (_ & _ & q & z & v & Hq & Hz & Hc & _).
  assert (q = p) as -> by congruence. assert (z = y) as -> by congruence.
  destruct (ci_node _ _ _ _ _ _ Hinv _ _ (core_lookup _ _ _ Hy) Hpr) as [_ _ _ Hl]. simpl in Hl.
  pose proof (HH p Hpr).
  pose proof (msum_lookup_le (λ _ k, lock_of (core <$> nodes c) k) (children y) (ckey ps (nkey x)) n) as Hm.
  assert (lock_of (core <$> nodes c) n = lock_ref x) as E by (unfold lock_of; by rewrite lookup_fmap, Hx).
  unfold child_locks in Hl. simpl in Hl. rewrite <- E. etrans; [apply Hm; [|done]|lia].
  intros k m Hk. destruct (inv_child _ _ _ _ _ _ _ _ _ Hinv Hy Hk) as (Hmr & w & Hw & _).
  destruct (inv_node _ _ _ _ _ _ _ Hinv Hw Hmr) as (_ & Hwl & _).
  unfold lock_of. by rewrite lookup_fmap, Hw.
Qed.

(** The entry of the root in [H] says nothing. *)
Lemma inv_H_ext c P V H H' :
  inv cfg c P V H → (∀ k, k ≠ root_node c → H' k = H k) → inv cfg c P V H'.
Proof.
  intros Hinv E. destruct (inv_root _ _ _ _ _ Hinv) as [r Hr]. destruct Hinv. split; try done.
  - intros n x Hn Hnr. destruct (ci_node n x Hn Hnr). split; try done. by rewrite E.
  - intros n Hn. simpl in Hn. rewrite lookup_fmap in Hn.
    rewrite E by (intros ->; by rewrite Hr in Hn). apply ci_H. simpl. by rewrite lookup_fmap.
Qed.

Lemma with_sizes_id c : with_sizes (evictable_size_ c) (protected_size_ c) c = c.
Proof. by destruct c. Qed.

(** One step of a climb, up to the refreshed leaf status. *)
Lemma lock_step_inv c P V H n x p δ ev pr :
  inv cfg c P V H → nodes c !! n = Some x → n ≠ root_node c → parent x = Some p →
  0 ≤ lock_ref x + δ →
  let y := set_lock_ref (lock_ref x + δ) x in
  ev = evictable_size_ c - ev_size (root_node c) n (core x) + ev_size (root_node c) n (core y) →
  pr = protected_size_ c - pr_size (root_node c) n (core x) + pr_size (root_node c) n (core y) →
  ∃ lv, _update_leaf_status n (update_node (set_lock_ref (lock_ref x + δ)) n (with_sizes ev pr c))
          = Ok (with_leaves lv (update_node (set_lock_ref (lock_ref x + δ)) n (with_sizes ev pr c))) ∧
    inv cfg (with_leaves lv (update_node (set_lock_ref (lock_ref x + δ)) n (with_sizes ev pr c)))
      P V (lk_H H n p δ).
Proof.
  intros Hinv Hx Hr Hp Hnn y Eev Epr. set (c1 := update_node _ _ _).
  pose proof (core_inv_lock ps Hps _ _ _ _ _ Hinv n p (core x) δ (core_lookup _ _ _ Hx) Hr Hp Hnn) as Hl.
  assert (core_of c1 = lk_state (core_of c) n (core x) δ) as Hcore.
  { unfold core_of at 1. unfold c1, update_node, with_nodes, with_sizes. simpl.
    rewrite (alter_to_insert _ _ _ _ Hx), fmap_insert. subst ev pr. done. }
  rewrite <- Hcore in Hl.
  destruct (update_leaf_status_inv clock cfg Hps c1 _ _ _ _ n Hl) as (lv & Hlv & Hinv2).
  { unfold c1, update_node. simpl. by rewrite lookup_alter_eq, Hx. }
  exists lv. split; [done|]. by replace ((∅ ∪ {[n]}) ∖ {[n]}) with (∅ : gset nat) in Hinv2 by set_solver.
Qed.

(** The store after [δ] was added to the counts of the nodes of [l]. *)
Record locked (δ : Z) (l : list nat) (c c' : RadixCache) : Prop := {
  lk_nodes_eq : ∀ k, nodes c' !! k =
    (λ x, if decide (k ∈ l) then set_lock_ref (lock_ref x + δ) x else x) <$> nodes c !! k;
  lk_root : root_node c' = root_node c;
  lk_ctr : counter c' = counter c;
  lk_ticks : ticks c' = ticks c;
  lk_log : kv_log c' = kv_log c
}.

Lemma locked_nil δ c : locked δ [] c c.
Proof.
  split; try done. intros k. by destruct (nodes c !! k).
Qed.

Lemma locked_cons δ n x l c ev pr lv c' :
  nodes c !! n = Some x → n ∉ l →
  locked δ l (with_leaves lv (update_node (set_lock_ref (lock_ref x + δ)) n (with_sizes ev pr c))) c' →
  locked δ (n :: l) c c'.
Proof.
  intros Hx Hn []. simpl in *. split; try done. intros k. rewrite lk_nodes_eq0, lookup_alter.
  destruct (decide (n = k)) as [<-|Hk].
  - rewrite Hx. simpl. rewrite decide_False by done. by rewrite decide_True by left.
  - destruct (nodes c !! k); simpl; [|done].
    destruct (decide (k ∈ l)), (decide (k ∈ n :: l)); try done; set_solver.
Qed.

Lemma up_path_depth c P V H n l k :
  inv cfg c P V H → up_path c n l → k ∈ l → (length (P k) ≤ length (P n))%nat.
Proof.
  intros Hinv Hl. induction Hl as [|n x p l Hr Hx Hp _ IH]; [set_solver|].
  intros [->|Hk]%elem_of_cons; [done|]. specialize (IH Hk).
  destruct (inv_parent_depth _ _ _ _ _ _ _ Hinv Hx Hr Hp). lia.
Qed.

Lemma up_path_notin c P V H n x p l :
  inv cfg c P V H → n ≠ root_node c → nodes c !! n = Some x → parent x = Some p →
  up_path c p l → n ∉ l.
Proof.
  intros Hinv Hr Hx Hp Hl Hin. pose proof (up_path_depth _ _ _ _ _ _ _ Hinv Hl Hin).
  destruct (inv_parent_depth _ _ _ _ _ _ _ Hinv Hx Hr Hp). lia.
Qed.

Lemma up_path_bump c n x δ ev pr lv k l :
  nodes c !! n = Some x → up_path c k l →
  up_path (with_leaves lv (update_node (set_lock_ref (lock_ref x + δ)) n (with_sizes ev pr c))) k l.
Proof.
  intros Hx. apply up_path_same; [done|]. intros j z Hz. simpl. rewrite lookup_alter.
  case_decide; [subst; rewrite Hz; simpl; by eexists|by eexists].
Qed.

Lemma rank_bump P c n x δ ev pr lv k :
  rank P (nodes (with_leaves lv (update_node (set_lock_ref (lock_ref x + δ)) n (with_sizes ev pr c)))) k
  = rank P (nodes c) k.
Proof. apply rank_dom. simpl. apply dom_alter_L. Qed.

(** [H] with the hold on [n] changed by [δ]. *)
Definition hold (H : nat → Z) (n : nat) (δ : Z) : nat → Z := λ k, if decide (k = n) then H k + δ else H k.

Lemma inc_lock_loop_spec fuel n delta c P V H l :
  inv cfg c P V H → up_path c n l → (rank P (nodes c) n < fuel)%nat →
  ∃ c', inc_lock_loop fuel n delta c = Ok (delta + (evictable_size_ c' - evictable_size_ c), c') ∧
    inv cfg c' P V (hold H n 1) ∧ locked 1 l c c' ∧
    evictable_size_ c' + protected_size_ c' = evictable_size_ c + protected_size_ c.
Proof.
  revert n delta c H l. induction fuel as [|fuel IH]; [lia|].
  intros n delta c H l Hinv Hl Hf. simpl.
  destruct Hl as [|n x p l Hr Hx Hp Hl].
  { rewrite Nat.eqb_refl. exists c. split; [do 2 f_equal; lia|]. split; [|split; [apply locked_nil|done]].
    eapply inv_H_ext; [done|]. intros k Hk. unfold hold. by rewrite decide_False. }
  rewrite (proj2 (Nat.eqb_neq _ _) Hr), (get_node_ok _ _ _ Hx). cbn [rbind].
  destruct (inv_node _ _ _ _ _ _ _ Hinv Hx Hr) as (_ & Hl0 & _).
  destruct (inv_parent_depth _ _ _ _ _ _ _ Hinv Hx Hr Hp) as [Hps' Hdepth].
  assert (n ≠ p) as Hnp by (intros ->; lia).
  set (len := klen (nkey x)).
  set (ev := if lock_ref x =? 0 then evictable_size_ c - len else evictable_size_ c).
  set (pr := if lock_ref x =? 0 then protected_size_ c + len else protected_size_ c).
  assert ((if lock_ref x =? 0
           then (delta - len, with_sizes (evictable_size_ c - len) (protected_size_ c + len) c)
           else (delta, c)) = (delta + (ev - evictable_size_ c), with_sizes ev pr c)) as ->.
  { unfold ev, pr. destruct (_ =? 0); [f_equal; lia|]. rewrite with_sizes_id. f_equal. lia. }
  destruct (lock_step_inv c P V H n x p 1 ev pr Hinv Hx Hr Hp)
    as (lv & Hlv & Hinv2);
    [lia|unfold ev_size, pr_size, ev, pr; rewrite !decide_False by done; simpl;
         rewrite (proj2 (Z.eqb_neq (lock_ref x + 1) 0)) by lia; fold len; zbool; lia..|].
  rewrite Hlv. cbn [rbind]. rewrite Hp. set (c2 := with_leaves lv _) in *.
  assert (up_path c2 p l) as Hl2 by by apply up_path_bump.
  destruct (IH p (delta + (ev - evictable_size_ c)) c2 _ l Hinv2 Hl2)
    as (c' & Hloop & Hinv' & Hlk & Hsum).
  { unfold c2. rewrite rank_bump. pose proof (rank_lt P (nodes c) n p Hps' Hdepth). lia. }
  exists c'. rewrite Hloop. change (evictable_size_ c2) with ev in *.
  change (protected_size_ c2) with pr in *. split; [do 2 f_equal; lia|]. split; [|split].
  - eapply inv_H_ext; [exact Hinv'|]. intros k Hk. unfold hold, lk_H.
    destruct (decide (k = n)), (decide (k = p)); subst; try done; lia.
  - eapply locked_cons; [done| |exact Hlk]. by apply (up_path_notin c P V H n x p l).
  - rewrite Hsum. unfold ev, pr. destruct (_ =? 0); lia.
Qed.

Lemma dec_lock_loop_spec fuel n delta c P V H l :
  inv cfg c P V H → (∀ k, k ≠ root_node c → 0 ≤ hold H n (-1) k) → up_path c n l →
  (rank P (nodes c) n < fuel)%nat →
  ∃ c', dec_lock_loop fuel n delta c = Ok (delta + (evictable_size_ c' - evictable_size_ c), c') ∧
    inv cfg c' P V (hold H n (-1)) ∧ locked (-1) l c c' ∧
    evictable_size_ c' + protected_size_ c' = evictable_size_ c + protected_size_ c.
Proof.
  revert n delta c H l. induction fuel as [|fuel IH]; [lia|].
  intros n delta c H l Hinv HH Hl Hf. simpl.
  destruct Hl as [|n x p l Hr Hx Hp Hl].
  { rewrite Nat.eqb_refl. exists c. split; [do 2 f_equal; lia|]. split; [|split; [apply locked_nil|done]].
    eapply inv_H_ext; [done|]. intros k Hk. unfold hold. by rewrite decide_False. }
  rewrite (proj2 (Nat.eqb_neq _ _) Hr), (get_node_ok _ _ _ Hx). cbn [rbind].
  pose proof (held_le_lock _ _ _ _ _ _ Hinv Hx Hr) as Hheld.
  assert (1 ≤ H n) as Hge. { pose proof (HH n Hr) as Hn. unfold hold in Hn. rewrite decide_True in Hn by done. lia. }
  destruct (inv_parent_depth _ _ _ _ _ _ _ Hinv Hx Hr Hp) as [Hps' Hdepth].
  assert (n ≠ p) as Hnp by (intros ->; lia).
  set (len := klen (nkey x)).
  set (ev := if lock_ref x =? 1 then evictable_size_ c + len else evictable_size_ c).
  set (pr := if lock_ref x =? 1 then protected_size_ c - len else protected_size_ c).
  assert ((if lock_ref x =? 1
           then (delta + len, with_sizes (evictable_size_ c + len) (protected_size_ c - len) c)
           else (delta, c)) = (delta + (ev - evictable_size_ c), with_sizes ev pr c)) as ->.
  { unfold ev, pr. destruct (_ =? 1); [f_equal; lia|]. rewrite with_sizes_id. f_equal. lia. }
  destruct (lock_step_inv c P V H n x p (-1) ev pr Hinv Hx Hr Hp)
    as (lv & Hlv & Hinv2);
    [lia|unfold ev_size, pr_size, ev, pr; rewrite !decide_False by done; simpl;
         fold len; zbool; lia..|].
  change (lock_ref x - 1) with (lock_ref x + -1).
  rewrite Hlv. cbn [rbind]. rewrite Hp. set (c2 := with_leaves lv _) in *.
  assert (up_path c2 p l) as Hl2 by by apply up_path_bump.
  destruct (IH p (delta + (ev - evictable_size_ c)) c2 (lk_H H n p (-1)) l Hinv2)
    as (c' & Hloop & Hinv' & Hlk & Hsum); [|done| |].
  { intros k Hk. pose proof (HH k Hk) as Hk2. unfold hold, lk_H in *. repeat case_decide; subst; lia. }
  { unfold c2. rewrite rank_bump. pose proof (rank_lt P (nodes c) n p Hps' Hdepth). lia. }
  exists c'. rewrite Hloop. change (evictable_size_ c2) with ev in *.
  change (protected_size_ c2) with pr in *. split; [do 2 f_equal; lia|]. split; [|split].
  - eapply inv_H_ext; [exact Hinv'|]. intros k Hk. unfold hold, lk_H.
    destruct (decide (k = n)), (decide (k = p)); subst; try done; lia.
  - eapply locked_cons; [done| |exact Hlk]. by apply (up_path_notin c P V H n x p l).
  - rewrite Hsum. unfold ev, pr. destruct (_ =? 1); lia.
Qed.

(** ** The two operations *)

Lemma inc_lock_ref_spec c P V H n l :
  inv cfg c P V H → up_path c n l → disable cfg = false →
  ∃ c', inc_lock_ref cfg n c = Ok (evictable_size_ c' - evictable_size_ c, c') ∧
    inv cfg c' P V (hold H n 1) ∧ locked 1 l c c' ∧
    evictable_size_ c' + protected_size_ c' = evictable_size_ c + protected_size_ c.
Proof.
  intros Hinv Hl Hdis. unfold inc_lock_ref. rewrite Hdis. pose proof (rank_le P (nodes c) n).
  apply inc_lock_loop_spec; [done|done|lia].
Qed.

Lemma dec_lock_ref_spec c P V H n l :
  inv cfg c P V H → (∀ k, k ≠ root_node c → 0 ≤ hold H n (-1) k) → up_path c n l →
  disable cfg = false →
  ∃ c', dec_lock_ref cfg n c = Ok (evictable_size_ c' - evictable_size_ c, c') ∧
    inv cfg c' P V (hold H n (-1)) ∧ locked (-1) l c c' ∧
    evictable_size_ c' + protected_size_ c' = evictable_size_ c + protected_size_ c.
Proof.
  intros Hinv HH Hl Hdis. unfold dec_lock_ref. rewrite Hdis. pose proof (rank_le P (nodes c) n).
  apply dec_lock_loop_spec; [done|done|done|lia].
Qed.

(** The counters and the leaf set are functions of the nodes. *)
Lemma inv_determined c c' P P' V V' H H' :
  inv cfg c P V H → inv cfg c' P' V' H' → nodes c = nodes c' → root_node c = root_node c' →
  counter c = counter c' → ticks c = ticks c' → kv_log c = kv_log c' → c = c'.
Proof.
  intros I1 I2 En Er Ec Et El. destruct I1, I2. destruct c, c'. simpl in *. subst.
  f_equal. apply leibniz_equiv. intros k.
  rewrite ci_lv, ci_lv0 by apply not_elem_of_empty. done.
Qed.

Lemma locked_undo l c c1 c2 k :
  locked 1 l c c1 → locked (-1) l c1 c2 → nodes c2 !! k = nodes c !! k.
Proof.
  intros [E1 _ _ _ _] [E2 _ _ _ _]. rewrite E2, E1. destruct (nodes c !! k) as [x|]; simpl; [|done].
  case_decide; [|done]. f_equal. unfold set_lock_ref. simpl. destruct x; simpl. f_equal. lia.
Qed.

Lemma locked_up_path δ l c c' n l' : locked δ l c c' → up_path c n l' → up_path c' n l'.
Proof.
  intros [E1 E2 _ _ _]. apply up_path_same; [done|]. intros k x Hx. rewrite E1, Hx. simpl.
  eexists. split; [done|]. by case_decide.
Qed.

Lemma lock_roundtrip c P V H n :
  inv cfg c P V H → (∀ k, k ≠ root_node c → 0 ≤ H k) → is_Some (nodes c !! n) → disable cfg = false →
  ∃ d c1, inc_lock_ref cfg n c = Ok (d, c1) ∧ dec_lock_ref cfg n c1 = Ok (- d, c).
Proof.
  intros Hinv HH Hn Hdis. destruct (up_path_exists _ _ _ _ _ Hinv Hn) as [l Hl].
  destruct (inc_lock_ref_spec _ _ _ _ _ _ Hinv Hl Hdis) as (c1 & E1 & Hinv1 & L1 & _).
  destruct (dec_lock_ref_spec c1 P V (hold H n 1) n l Hinv1) as (c2 & E2 & Hinv2 & L2 & _).
  { intros k Hk. rewrite (lk_root _ _ _ _ L1) in Hk. pose proof (HH k Hk).
    unfold hold. repeat case_decide; lia. }
  { by eapply locked_up_path. }
  { done. }
  assert (c2 = c) as ->.
  { eapply inv_determined; [exact Hinv2|exact Hinv|..].
    - apply map_eq. intros k. by eapply locked_undo.
    - by rewrite (lk_root _ _ _ _ L2), (lk_root _ _ _ _ L1).
    - by rewrite (lk_ctr _ _ _ _ L2), (lk_ctr _ _ _ _ L1).
    - by rewrite (lk_ticks _ _ _ _ L2), (lk_ticks _ _ _ _ L1).
    - by rewrite (lk_log _ _ _ _ L2), (lk_log _ _ _ _ L1). }
  exists (evictable_size_ c1 - evictable_size_ c), c1. split; [done|]. rewrite E2. do 2 f_equal. lia.
Qed.
End lock_inv.
