(* ===== verification/RadixEvict.v ===== *)
(** * Eviction

    [evict] pops the least leaf of a heap, unlinks it, and pushes its parent
    when that became an unlocked leaf.  Proved for every implementation of the
    [HeapQ] interface: the heap always holds exactly the evictable leaves, so
    every victim is an unlocked leaf of least priority, and the loop stops when
    enough was freed or no unlocked node is left. *)
From S2P Require Import Prelude RadixKey EvictPolicy RadixCache RadixInv RadixOps RadixLock.

Section evict_inv.
Context (clock : nat → Z) (cfg : cache_config).
Abbreviation ps := (page_size cfg).
Context (Hps : 0 < ps).

Lemma leaf_lookup_inv c P V H n :
  inv cfg c P V H → n ∈ evictable_leaves c →
  ∃ x, nodes c !! n = Some x ∧ n ≠ root_node c ∧ lock_ref x = 0 ∧ children x = ∅.
Proof.
  intros Hinv Hn. apply (ci_lv _ _ _ _ _ _ Hinv) in Hn as (Hr & z & Hz & Hl & Hc); [|set_solver].
  apply core_lookup_inv in Hz as (x & Hx & ->). by exists x.
Qed.

Lemma leaf_intro c P V H n x :
  inv cfg c P V H → nodes c !! n = Some x → n ≠ root_node c → lock_ref x = 0 → children x = ∅ →
  n ∈ evictable_leaves c.
Proof.
  intros Hinv Hx Hr Hl Hc. apply (ci_lv _ _ _ _ _ _ Hinv); [set_solver|]. split; [done|].
  exists (core x). split; [by apply core_lookup|done].
Qed.

Lemma delete_leaf_inv c P V H n :
  inv cfg c P V H → n ∈ evictable_leaves c →
  ∃ x p y v c1,
    nodes c !! n = Some x ∧ n ≠ root_node c ∧ lock_ref x = 0 ∧ n ≠ p ∧
    parent x = Some p ∧ nodes c !! p = Some y ∧ value x = Some v ∧ zlen v = klen (nkey x) ∧
    children y !! ckey ps (nkey x) = Some n ∧
    _delete_leaf cfg n c = Ok c1 ∧ inv cfg c1 P V H ∧
    nodes c1 = delete n (<[ p := set_children (delete (ckey ps (nkey x))) y ]> (nodes c)) ∧
    root_node c1 = root_node c ∧ counter c1 = counter c ∧
    evictable_size_ c1 = evictable_size_ c - klen (nkey x) ∧ protected_size_ c1 = protected_size_ c.
Proof.
  intros Hinv Hn. destruct (leaf_lookup_inv _ _ _ _ _ Hinv Hn) as (x & Hx & Hr & Hl & Hc).
  destruct (inv_node _ _ _ _ _ _ _ Hinv Hx Hr) as (Hk & _ & p & y & v & Hp & Hy & Hck & Hv & Hlen & HP & HV & Hns).
  pose proof (core_inv_delete ps Hps _ _ _ _ _ Hinv n p (core x) (core y)
    (core_lookup _ _ _ Hx) Hr Hp (core_lookup _ _ _ Hy) Hl Hc) as Hd.
  assert (n ≠ p) as Hnp.
  { intros <-. destruct (inv_parent_depth _ _ _ _ _ _ _ _ Hinv Hx Hr Hp). lia. }
  unfold _delete_leaf. rewrite (get_node_ok _ _ _ Hx). cbn [rbind].
  rewrite (child_key_ckey _ Hps _ Hk). cbn [rbind]. rewrite Hp. cbn [rbind].
  rewrite (get_node_ok _ _ _ Hy). cbn [rbind]. rewrite bool_decide_eq_true_2 by done.
  cbn [assert_ rbind]. set (c1 := with_leaves _ _).
  assert (nodes c1 = delete n (<[ p := set_children (delete (ckey ps (nkey x))) y ]> (nodes c))) as Hn1.
  { unfold c1. simpl. by rewrite (alter_to_insert _ _ _ _ Hy). }
  assert (core_of c1 = del_state ps (core_of c) n p (core x) (core y)) as Hcore.
  { unfold core_of at 1. rewrite Hn1, fmap_delete, fmap_insert. done. }
  rewrite <- Hcore in Hd.
  destruct (update_leaf_status_inv clock cfg Hps c1 _ _ _ _ p Hd) as (lv & Hlv & Hinv2).
  { rewrite Hn1, lookup_delete_ne, lookup_insert_eq by done. done. }
  replace ((∅ ∪ {[p]}) ∖ {[p]}) with (∅ : gset nat) in Hinv2 by set_solver.
  exists x, p, y, v, (with_leaves lv c1). rewrite Hlv. done.
Qed.

(** ** Unlocked nodes are freed from the leaves up *)

(** Without an evictable leaf every node is locked. *)
Lemma no_leaf_all_locked c P V H n x :
  inv cfg c P V H → (∀ k, k ≠ root_node c → 0 ≤ H k) → evictable_leaves c = ∅ →
  nodes c !! n = Some x → n ≠ root_node c → lock_ref x ≠ 0.
Proof.
  intros Hinv HH He. remember (size (nodes c) - rank P (nodes c) n)%nat as d eqn:Ed.
  revert n x Ed. induction d as [d IH] using lt_wf_ind. intros n x -> Hx Hr Hl.
  destruct (decide (children x = ∅)) as [Hc|Hc].
  { pose proof (leaf_intro _ _ _ _ _ _ Hinv Hx Hr Hl Hc). set_solver. }
  apply map_choose in Hc as (k & m & Hk).
  destruct (inv_child _ _ _ _ _ _ _ _ _ Hinv Hx Hk) as (Hmr & y & Hy & Hyp & _).
  destruct (inv_parent_depth _ _ _ _ _ _ _ _ Hinv Hy Hmr Hyp) as [Hs Hd].
  pose proof (rank_lt P (nodes c) m n ltac:(by eexists) Hd). pose proof (rank_le P (nodes c) m).
  pose proof (child_lock_le _ _ _ _ _ _ _ _ _ Hinv HH Hy Hmr Hyp Hx Hr).
  destruct (inv_node _ _ _ _ _ _ _ Hinv Hy Hmr) as (_ & Hy0 & _).
  refine (IH _ _ m y eq_refl Hy Hmr _); lia.
Qed.

Lemma no_leaf_no_evictable c P V H :
  inv cfg c P V H → (∀ k, k ≠ root_node c → 0 ≤ H k) → evictable_leaves c = ∅ →
  evictable_size_ c = 0.
Proof.
  intros Hinv HH He. pose proof (ci_ev _ _ _ _ _ _ Hinv) as E. simpl in E. rewrite E.
  apply msum_zero. intros k z Hz. apply core_lookup_inv in Hz as (x & Hx & ->).
  unfold ev_size. case_decide as Hr; [done|]. simpl.
  by rewrite (proj2 (Z.eqb_neq _ _) (no_leaf_all_locked _ _ _ _ _ _ Hinv HH He Hx Hr)).
Qed.

(** ** The victims *)

(** [evicts c tr c']: the nodes of [tr] were removed in turn, each a least
    evictable leaf at that moment; [tr] pairs them with their slots. *)
Inductive evicts : RadixCache → list (nat * list Z) → RadixCache → Prop :=
  | evicts_nil c : evicts c [] c
  | evicts_cons c n x v c1 tr c' :
      n ∈ evictable_leaves c → nodes c !! n = Some x → value x = Some v →
      (∀ m y, m ∈ evictable_leaves c → nodes c !! m = Some y →
              entry_le (mk_entry cfg n x) (mk_entry cfg m y) = true) →
      _delete_leaf cfg n c = Ok c1 →
      evicts (log_call (record_remove n) c1) tr c' →
      evicts c ((n, v) :: tr) c'.

Definition freed_len (tr : list (nat * list Z)) : Z := zsum (zlen <$> tr.*2).

Lemma freed_len_cons n v tr : freed_len ((n, v) :: tr) = zlen v + freed_len tr.
Proof. done. Qed.

(** What a run of evictions leaves in place. *)
Lemma evicts_inv c tr c' P V H :
  inv cfg c P V H → evicts c tr c' →
  inv cfg c' P V H ∧ root_node c' = root_node c ∧
  evictable_size_ c' = evictable_size_ c - freed_len tr ∧ protected_size_ c' = protected_size_ c ∧
  (∀ k x, nodes c !! k = Some x → k ∉ tr.*1 →
     ∃ x', nodes c' !! k = Some x' ∧ ∃ f, x' = set_children f x) ∧
  (∀ k, k ∈ tr.*1 → ∃ x, nodes c !! k = Some x ∧ lock_ref x = 0 ∧ nodes c' !! k = None) ∧
  (∀ k, is_Some (nodes c' !! k) → is_Some (nodes c !! k)).
Proof.
  intros Hinv Hev. induction Hev as [c|c n x v c1 tr c' Hn Hx Hv Hmin Hdel Hev IH].
  { split; [done|]. split; [done|]. unfold freed_len. simpl. split; [lia|]. split; [done|].
    split; [|split; [set_solver|done]]. intros k x Hx _. exists x. split; [done|].
    exists (λ m, m). by destruct x. }
  destruct (delete_leaf_inv _ _ _ _ _ Hinv Hn) as
    (x0 & p & y & v0 & c1' & Hx0 & Hr & Hl & Hnp & Hp & Hy & Hv0 & Hlen & Hck & Hdel' & Hinv1 & Hn1 & Hr1 & _ & Hev1 & Hpr1).
  assert (x0 = x) as -> by congruence. assert (v0 = v) as -> by congruence.
  assert (c1' = c1) as -> by congruence.
  destruct (IH Hinv1) as (Hinv' & Hr' & Hev' & Hpr' & Hkeep & Hgone & Hold).
  simpl in Hr', Hev', Hpr', Hkeep, Hgone, Hold.
  split; [done|]. split; [congruence|]. split.
  { rewrite freed_len_cons, Hev', Hev1. lia. }
  split; [congruence|]. split; [|split].
  - intros k z Hz Hk. simpl in Hk. apply not_elem_of_cons in Hk as [Hkn Hk].
    destruct (decide (k = p)) as [->|Hkp].
    + destruct (Hkeep p (set_children (delete (ckey ps (nkey x))) y)) as (x' & Hx' & f & Ef).
      * by rewrite Hn1, lookup_delete_ne, lookup_insert_eq.
      * done.
      * exists x'. split; [done|]. assert (z = y) as -> by congruence.
        exists (λ m, f (delete (ckey ps (nkey x)) m)). by rewrite Ef.
    + apply Hkeep; [|done]. by rewrite Hn1, lookup_delete_ne, lookup_insert_ne.
  - intros k [->|Hk]%elem_of_cons.
    + exists x. split; [done|]. split; [done|]. apply eq_None_not_Some. intros Hs%Hold.
      rewrite Hn1, lookup_delete_eq in Hs. by destruct Hs.
    + destruct (Hgone k Hk) as (z & Hz & Hzl & Hk'). rewrite Hn1 in Hz.
      apply lookup_delete_Some in Hz as [Hkn Hz]. destruct (decide (k = p)) as [->|].
      * rewrite lookup_insert_eq in Hz. injection Hz as <-. by exists y.
      * rewrite lookup_insert_ne in Hz by done. by exists z.
  - intros k Hs%Hold. rewrite Hn1 in Hs. destruct Hs as [z Hz].
    apply lookup_delete_Some in Hz as [Hkn Hz]. destruct (decide (k = p)) as [->|]; [by exists y|].
    rewrite lookup_insert_ne in Hz by done. by exists z.
Qed.

(** ** The loop *)

Section with_heap.
Context {HQ : HeapQ entry entry_le}.

(** The heap holds one up-to-date entry for every evictable leaf. *)
Record heap_ok (h : heap HQ) (c : RadixCache) : Prop := {
  hp_entry : ∀ e, e ∈ elems h → ∃ x, nodes c !! e.1.2 = Some x ∧ e = mk_entry cfg e.1.2 x;
  hp_leaf : ∀ n, n ∈ (λ e : entry, e.1.2) <$> elems h ↔ n ∈ evictable_leaves c;
  hp_nodup : NoDup ((λ e : entry, e.1.2) <$> elems h)
}.

(** Entries read the metadata only. *)
Lemma mk_entry_children n x f : mk_entry cfg n (set_children f x) = mk_entry cfg n x.
Proof. done. Qed.

(** Leaf [n] with parent [p] removed, as [_delete_leaf] does it: which leaves there
    are afterwards. *)
Section victim_removed.
Context (c c1 : RadixCache) (P : nat → list logical_unit) (V : nat → list Z) (H : nat → Z).
Context (n p : nat) (x y : TreeNode).
Context (Hinv : inv cfg c P V H) (Hinv1 : inv cfg c1 P V H).
Context (Hx : nodes c !! n = Some x) (Hy : nodes c !! p = Some y) (Hnp : n ≠ p).
Context (Hck : children y !! ckey ps (nkey x) = Some n) (Hr : root_node c1 = root_node c).
Context (Hn1 : nodes c1 = delete n (<[ p := set_children (delete (ckey ps (nkey x))) y ]> (nodes c))).
Abbreviation y1 := (set_children (delete (ckey ps (nkey x))) y).

Lemma parent_not_leaf : p ∉ evictable_leaves c.
Proof.
  intros Hpl. destruct (leaf_lookup_inv _ _ _ _ _ Hinv Hpl) as (y' & Hy' & _ & _ & Hc).
  assert (y' = y) as -> by congruence. by rewrite Hc, lookup_empty in Hck.
Qed.

Lemma parent_after : nodes c1 !! p = Some y1.
Proof. by rewrite Hn1, lookup_delete_ne, lookup_insert_eq. Qed.

Lemma leaves_other m : m ≠ p → m ∈ evictable_leaves c1 ↔ m ∈ evictable_leaves c ∧ m ≠ n.
Proof.
  intros Hm. split.
  - intros Hin. destruct (leaf_lookup_inv _ _ _ _ _ Hinv1 Hin) as (z & Hz & Hzr & Hzl & Hzc).
    rewrite Hn1 in Hz. apply lookup_delete_Some in Hz as [Hmn Hz]. rewrite lookup_insert_ne in Hz by done.
    split; [|congruence]. eapply leaf_intro; [done|done|congruence|done|done].
  - intros [Hmc Hmn]. destruct (leaf_lookup_inv _ _ _ _ _ Hinv Hmc) as (z & Hz & Hzr & Hzl & Hzc).
    eapply leaf_intro; [done| |congruence|done|done].
    by rewrite Hn1, lookup_delete_ne, lookup_insert_ne.
Qed.

Lemma parent_leaf_after : p ∈ evictable_leaves c1 ↔ children y1 = ∅ ∧ lock_ref y1 = 0.
Proof.
  split.
  - intros Hin. destruct (leaf_lookup_inv _ _ _ _ _ Hinv1 Hin) as (z & Hz & _ & Hzl & Hzc).
    rewrite parent_after in Hz. by injection Hz as <-.
  - intros [Hc Hl0]. eapply leaf_intro; [done|apply parent_after| |done|done]. rewrite Hr. intros ->.
    destruct (ci_root _ _ _ _ _ _ Hinv) as (r & Hrn & _ & _ & Hr1).
    apply core_lookup_inv in Hrn as (r' & Hr' & ->). simpl in Hr', Hr1.
    assert (r' = y) as -> by congruence. simpl in Hl0. lia.
Qed.

(** The heap after the parent of the victim was looked at. *)
Lemma heap_ok_pop h e h' :
  heap_ok h c → elems h ≡ₚ e :: elems h' → e.1.2 = n →
  heap_ok (if bool_decide (children y1 = ∅) && (lock_ref y1 =? 0)
           then heappush h' (mk_entry cfg p y1) else h') c1.
Proof.
  intros [He Hl Hnd] Hp En. rewrite Hp in Hnd. simpl in Hnd. rewrite En in Hnd. apply NoDup_cons in Hnd as [Hnin Hnd].
  assert (∀ m, m ∈ evictable_leaves c ↔ m = n ∨ m ∈ (λ e : entry, e.1.2) <$> elems h') as Hl'.
  { intros m. rewrite <- Hl, Hp. simpl. by rewrite elem_of_cons, En. }
  assert (p ∉ (λ e : entry, e.1.2) <$> elems h') as Hpn.
  { intros Hin. apply parent_not_leaf, Hl'. by right. }
  assert (∀ e', e' ∈ elems h' → ∃ x, nodes c1 !! e'.1.2 = Some x ∧ e' = mk_entry cfg e'.1.2 x) as He'.
  { intros e' Hin. destruct (He e') as (z & Hz & Ez); [rewrite Hp; by right|].
    exists z. split; [|done]. rewrite Hn1.
    assert (e'.1.2 ∈ (λ e : entry, e.1.2) <$> elems h') by (apply list_elem_of_fmap; by exists e').
    rewrite lookup_delete_ne, lookup_insert_ne by (intros E; by rewrite <- E in *). done. }
  assert (∀ m, m ≠ p → m ∈ evictable_leaves c1 ↔ m ∈ (λ e : entry, e.1.2) <$> elems h') as Hother.
  { intros m Hm. rewrite leaves_other, Hl' by done. split; [tauto|]. intros Hin. split; [tauto|]. by intros ->. }
  pose proof parent_leaf_after as Hpl. pose proof parent_after as Hy1.
  destruct (bool_decide_reflect (children y1 = ∅)) as [Ec|Ec]; cbn [andb];
    [destruct (Z.eqb_spec (lock_ref y1) 0) as [El|El]|].
  - split.
    + intros e'. rewrite elems_heappush. intros [->|Hin]%elem_of_cons; [by exists y1|by apply He'].
    + intros m. rewrite elems_heappush. simpl. rewrite elem_of_cons.
      destruct (decide (m = p)) as [->|Hm]; [split; [by rewrite Hpl|by left]|].
      rewrite (Hother m Hm). naive_solver.
    + rewrite elems_heappush. simpl. by apply NoDup_cons.
  - split; [done| |done]. intros m. destruct (decide (m = p)) as [->|Hm]; [|by rewrite Hother]. naive_solver.
  - split; [done| |done]. intros m. destruct (decide (m = p)) as [->|Hm]; [|by rewrite Hother]. naive_solver.
Qed.
End victim_removed.

Lemma heap_ok_min h e h' c :
  heap_ok h c → elems h ≡ₚ e :: elems h' → (∀ x, x ∈ elems h' → entry_le e x = true) →
  e.1.2 ∈ evictable_leaves c ∧
  ∀ x, nodes c !! e.1.2 = Some x → e = mk_entry cfg (e.1.2) x ∧
    ∀ m y, m ∈ evictable_leaves c → nodes c !! m = Some y →
           entry_le (mk_entry cfg (e.1.2) x) (mk_entry cfg m y) = true.
Proof.
  intros [He Hl _] Hp Hmin. split; [apply Hl; rewrite Hp; by left|]. intros x Hx.
  destruct (He e) as (x' & Hx' & Ee); [rewrite Hp; by left|]. assert (x' = x) as -> by congruence.
  split; [done|]. intros m y Hm Hy. rewrite <- Ee.
  apply Hl, list_elem_of_fmap in Hm as (e' & -> & Hin). destruct (He e' Hin) as (y' & Hy' & Ee').
  assert (y' = y) as -> by congruence. rewrite <- Ee'.
  rewrite Hp in Hin. apply elem_of_cons in Hin as [->|Hin]; [apply lex_leb_refl|by apply Hmin].
Qed.

Lemma evict_loop_spec fuel num h nev freed c P V H :
  inv cfg c P V H → heap_ok h c → (size (nodes c) < fuel)%nat →
  ∃ tr c', evict_loop cfg fuel num h nev freed c = Ok (nev + freed_len tr, freed ++ tr.*2, c') ∧
    evicts c tr c' ∧ (num ≤ nev + freed_len tr ∨ evictable_leaves c' = ∅) ∧
    (∀ tr1 e, tr = tr1 ++ [e] → nev + freed_len tr1 < num).
Proof.
  revert h nev freed c. induction fuel as [|fuel IH]; [lia|].
  intros h nev freed c Hinv Hh Hf. simpl.
  assert (∀ tr1 e, ([] : list (nat * list Z)) = tr1 ++ [e] → nev + freed_len tr1 < num) as Hnil.
  { intros tr1 e E. by apply app_cons_not_nil in E. }
  destruct (Z.ltb_spec nev num) as [Hlt|Hge]; last first.
  { exists [], c. rewrite app_nil_r. split; [do 3 f_equal; unfold freed_len; simpl; lia|].
    split; [constructor|]. split; [|done]. left. unfold freed_len. simpl. lia. }
  destruct (heappop h) as [[[[pr n] t] h']|] eqn:Epop; last first.
  { apply heappop_None in Epop. exists [], c. rewrite app_nil_r.
    split; [do 3 f_equal; unfold freed_len; simpl; lia|]. split; [constructor|]. split; [|done]. right.
    apply set_eq. intros m. rewrite <- (hp_leaf _ _ Hh), Epop. set_solver. }
  apply heappop_Some in Epop as [Hp Hmin].
  destruct (heap_ok_min _ _ _ _ Hh Hp Hmin) as [Hn Hmin']. simpl in Hn.
  destruct (delete_leaf_inv _ _ _ _ _ Hinv Hn) as
    (x & p & y & v & c1 & Hx & Hr & Hl & Hnp & Hpar & Hy & Hv & Hlen & Hck & Hdel & Hinv1 & Hn1 & Hr1 & _ & Hev1 & Hpr1).
  destruct (Hmin' x Hx) as [_ Hmin2]. cbn [fst snd] in Hmin2.
  rewrite (get_node_ok _ _ _ Hx). cbn [rbind]. rewrite Hv. cbn [rbind]. rewrite Hdel. cbn [rbind].
  rewrite Hpar. cbn [rbind].
  assert (nodes c1 !! p = Some (set_children (delete (ckey ps (nkey x))) y)) as Hy1.
  { by rewrite Hn1, lookup_delete_ne, lookup_insert_eq. }
  rewrite (get_node_ok _ _ _ Hy1). cbn [rbind]. set (h1 := if _ && _ then _ else _).
  assert (heap_ok h1 (log_call (record_remove n) c1)) as Hh1.
  { assert (heap_ok h1 c1) as Hh1 by (by apply (heap_ok_pop c c1 P V H n p x y) with h (pr, n, t)).
    destruct Hh1. by split. }
  destruct (IH h1 (nev + zlen v) (freed ++ [v]) (log_call (record_remove n) c1) Hinv1 Hh1)
    as (tr & c' & Hloop & Hevs & Hstop & Hlast).
  { simpl. rewrite Hn1, delete_insert_ne by done.
    rewrite map_size_insert_Some by (rewrite lookup_delete_ne by done; by eexists).
    rewrite map_size_delete_Some by (by eexists).
    assert (size (nodes c) ≠ 0)%nat by (apply map_size_ne_0_lookup; eauto). lia. }
  exists ((n, v) :: tr), c'. rewrite Hloop, freed_len_cons. split.
  { rewrite <- app_assoc, Z.add_assoc. done. }
  split; [by econstructor|]. split; [destruct Hstop; [left; lia|by right]|].
  intros [|e' tr1] e E; [unfold freed_len; simpl; lia|]. injection E as <- E.
  rewrite freed_len_cons. specialize (Hlast tr1 e E). lia.
Qed.

Lemma heap_ok_init c P V H leaves :
  inv cfg c P V H → leaves ≡ₚ elements (evictable_leaves c) →
  heap_ok (heapify (omap (λ n, mk_entry cfg n <$> nodes c !! n) leaves)) c.
Proof.
  intros Hinv Hlv. set (es := omap _ _).
  assert (∀ n, n ∈ leaves ↔ n ∈ evictable_leaves c) as Hin.
  { intros n. by rewrite Hlv, elem_of_elements. }
  assert (∀ e, e ∈ es ↔ e.1.2 ∈ leaves ∧ ∃ x, nodes c !! e.1.2 = Some x ∧ e = mk_entry cfg e.1.2 x) as Hes.
  { intros e. unfold es. rewrite list_elem_of_omap. split.
    - intros (n & Hn & E). apply fmap_Some in E as (x & Hx & ->). simpl. eauto.
    - intros (Hn & x & Hx & E). exists e.1.2. split; [done|]. rewrite Hx. simpl. by rewrite <- E. }
  assert ((λ e : entry, e.1.2) <$> es = leaves) as Emap.
  { clear Hes. assert (∀ n, n ∈ leaves → is_Some (nodes c !! n)) as Hall.
    { intros n Hn. destruct (leaf_lookup_inv _ _ _ _ n Hinv) as (x & Hx & _); [by apply Hin|]. by exists x. }
    clear Hin Hlv. unfold es. clear es. induction leaves as [|n leaves IH]; [done|].
    destruct (Hall n) as [x Hx]; [by left|]. simpl. rewrite Hx. simpl. f_equal. apply IH.
    intros m Hm. apply Hall. by right. }
  split.
  - intros e. rewrite elems_heapify, Hes. by intros [_ ?].
  - intros n. rewrite elems_heapify, Emap. apply Hin.
  - rewrite elems_heapify, Emap, Hlv. apply NoDup_elements.
Qed.

Lemma evict_spec num leaves c P V H :
  inv cfg c P V H → disable cfg = false → leaves ≡ₚ elements (evictable_leaves c) →
  ∃ tr c', evict cfg num leaves c = Ok (freed_len tr, tr.*2, c') ∧
    evicts c tr c' ∧ (num ≤ freed_len tr ∨ evictable_leaves c' = ∅) ∧
    (∀ tr1 e, tr = tr1 ++ [e] → freed_len tr1 < num).
Proof.
  intros Hinv Hdis Hlv. unfold evict. rewrite Hdis.
  apply (evict_loop_spec (S (size (nodes c))) num _ 0 [] c P V H Hinv); [|lia].
  by eapply heap_ok_init.
Qed.
End with_heap.
End evict_inv.
