(* ===== verification/RadixSpec.v ===== *)
(** * What the prefix cache promises

    The tree stands for a partial map from a namespace and a page-aligned
    sequence of units to the slots that hold their KV entries ([cached]).  The
    map is read off the tree by climbing ([path_units], the source's
    [path_device_indices]).  A path names one node ([cover_unique]), so the map
    is functional, and a walk that is stuck has found the longest cached prefix
    ([walk_longest]). *)
From stdpp Require Import functions.
From S2P Require Import Prelude RadixKey EvictPolicy RadixCache RadixInv RadixOps RadixInsert RadixLock RadixEvict.

(** ** Reading a path *)

(** The units on the way from the root to a node. *)
Fixpoint units_loop (fuel : nat) (n : nat) (acc : list logical_unit) (c : RadixCache) :
    result (list logical_unit) :=
  match fuel with
  | O => Raise RuntimeError
  | S fuel =>
      if (n =? root_node c)%nat then Ok acc
      else
        let! x := get_node c n in
        match parent x with
        | Some p => units_loop fuel p (units (nkey x) ++ acc) c
        | None => Raise KeyError
        end
  end.

Definition path_units (n : nat) (c : RadixCache) : result (list logical_unit) :=
  units_loop (S (size (nodes c))) n [] c.

(** The namespace of a node below the root. *)
Definition node_namespace (n : nat) (c : RadixCache) : option (option string * option string) :=
  knamespace ∘ nkey <$> nodes c !! n.

(** The slots of a page-aligned path in a namespace. *)
Definition cached (cfg : cache_config) (c : RadixCache) (ns : option string * option string)
    (us : list logical_unit) (vs : list Z) : Prop :=
  ∃ n pu pv,
    n ≠ root_node c ∧ node_namespace n c = Some ns ∧
    path_units n c = Ok pu ∧ path_device_indices n c = Ok pv ∧
    us `prefix_of` pu ∧ vs = take (length us) pv ∧ (page_size cfg | zlen us) ∧ us ≠ [].

Section spec.
Context (cfg : cache_config).
Abbreviation ps := (page_size cfg).
Context (Hps : 0 < ps).

(** Multiples of a page are a page apart. *)
Lemma divide_gap a b : 0 < ps → (ps | a) → (ps | b) → a < b → a + ps ≤ b.
Proof.
  intros Hp Ha Hb Hlt. enough (ps ≤ b - a) by lia. apply Z.divide_pos_le; [lia|].
  by apply Z.divide_sub_r.
Qed.

Lemma inv_P_root c P V H : inv cfg c P V H → P (root_node c) = [].
Proof. intros Hinv. apply (ci_P _ _ _ _ _ _ Hinv). Qed.

Lemma inv_V_root c P V H : inv cfg c P V H → V (root_node c) = [].
Proof. intros Hinv. apply (ci_V _ _ _ _ _ _ Hinv). Qed.

Lemma path_loop_spec fuel n acc c P V H :
  inv cfg c P V H → is_Some (nodes c !! n) → (rank P (nodes c) n < fuel)%nat →
  ∃ vs, path_loop fuel n acc c = Ok (acc ++ vs) ∧ mjoin (reverse vs) = V n.
Proof.
  intros Hinv. revert n acc. induction fuel as [|fuel IH]; [lia|]. intros n acc [x Hx] Hf. simpl.
  destruct (Nat.eqb_spec n (root_node c)) as [->|Hr].
  { exists []. rewrite app_nil_r. split; [done|]. symmetry. apply (ci_V _ _ _ _ _ _ Hinv). }
  destruct (inv_node _ _ _ _ _ _ _ Hinv Hx Hr) as (_ & _ & p & y & v & Hp & Hy & _ & Hv & _ & _ & HV & _).
  destruct (inv_parent_depth cfg _ _ _ _ _ _ _ Hinv Hx Hr Hp) as [Hs Hd].
  rewrite (get_node_ok _ _ _ Hx). cbn [rbind]. rewrite Hv. cbn [rbind]. rewrite Hp.
  pose proof (rank_lt P (nodes c) n p Hs Hd).
  destruct (IH p (acc ++ [v]) Hs ltac:(lia)) as (vs & -> & E). exists (v :: vs).
  split; [by rewrite <- app_assoc|]. rewrite reverse_cons, join_app, E, HV. simpl. by rewrite app_nil_r.
Qed.

Lemma path_device_indices_inv c P V H n :
  inv cfg c P V H → is_Some (nodes c !! n) → path_device_indices n c = Ok (V n).
Proof.
  intros Hinv Hn. unfold path_device_indices. pose proof (rank_le P (nodes c) n).
  destruct (path_loop_spec (S (size (nodes c))) n [] c P V H Hinv Hn ltac:(lia)) as (vs & -> & E).
  simpl. by rewrite E.
Qed.

Lemma units_loop_spec fuel n acc c P V H :
  inv cfg c P V H → is_Some (nodes c !! n) → (rank P (nodes c) n < fuel)%nat →
  units_loop fuel n acc c = Ok (P n ++ acc).
Proof.
  intros Hinv. revert n acc. induction fuel as [|fuel IH]; [lia|]. intros n acc [x Hx] Hf. simpl.
  destruct (Nat.eqb_spec n (root_node c)) as [->|Hr].
  { by rewrite (inv_P_root _ _ _ _ Hinv). }
  destruct (inv_node _ _ _ _ _ _ _ Hinv Hx Hr) as (_ & _ & p & y & v & Hp & Hy & _ & _ & _ & HP & _).
  destruct (inv_parent_depth cfg _ _ _ _ _ _ _ Hinv Hx Hr Hp) as [Hs Hd].
  rewrite (get_node_ok _ _ _ Hx). cbn [rbind]. rewrite Hp.
  pose proof (rank_lt P (nodes c) n p Hs Hd).
  rewrite (IH p _ Hs ltac:(lia)), HP. by rewrite <- app_assoc.
Qed.

Lemma path_units_inv c P V H n :
  inv cfg c P V H → is_Some (nodes c !! n) → path_units n c = Ok (P n).
Proof.
  intros Hinv Hn. unfold path_units. pose proof (rank_le P (nodes c) n).
  rewrite (units_loop_spec _ _ _ _ _ _ _ Hinv Hn) by lia. by rewrite app_nil_r.
Qed.

(** [cached] in terms of the paths of the invariant. *)
Lemma cached_inv c P V H ns us vs :
  inv cfg c P V H →
  cached cfg c ns us vs ↔
  ∃ n x, nodes c !! n = Some x ∧ n ≠ root_node c ∧ knamespace (nkey x) = ns ∧
    us `prefix_of` P n ∧ vs = take (length us) (V n) ∧ (ps | zlen us) ∧ us ≠ [].
Proof.
  intros Hinv. unfold cached, node_namespace. split.
  - intros (n & pu & pv & Hr & Hns & Hpu & Hpv & Hrest).
    apply fmap_Some in Hns as (x & Hx & ->). exists n, x.
    rewrite (path_units_inv _ _ _ _ _ Hinv) in Hpu by eauto.
    rewrite (path_device_indices_inv _ _ _ _ _ Hinv) in Hpv by eauto. naive_solver.
  - intros (n & x & Hx & Hr & Hns & Hrest). exists n, (P n), (V n). rewrite Hx. simpl.
    rewrite (path_units_inv _ _ _ _ _ Hinv), (path_device_indices_inv _ _ _ _ _ Hinv) by eauto.
    rewrite Hns. done.
Qed.

(** ** Paths *)

(** Lengths of paths: whole pages, one slot per unit, positive below the root. *)
Lemma path_lengths c P V H n :
  inv cfg c P V H → is_Some (nodes c !! n) →
  (ps | zlen (P n)) ∧ length (V n) = length (P n) ∧ (P n = [] → n = root_node c).
Proof.
  intros Hinv. remember (length (P n)) as d eqn:Ed. revert n Ed.
  induction d as [d IH] using lt_wf_ind. intros n -> [x Hx].
  destruct (decide (n = root_node c)) as [->|Hr].
  { rewrite (inv_P_root _ _ _ _ Hinv), (inv_V_root _ _ _ _ Hinv). split; [apply Z.divide_0_r|done]. }
  destruct (inv_node _ _ _ _ _ _ _ Hinv Hx Hr) as (Hk & _ & p & y & v & Hp & Hy & _ & _ & Hlen & HP & HV & _).
  destruct (inv_parent_depth cfg _ _ _ _ _ _ _ Hinv Hx Hr Hp) as [Hs Hd].
  destruct (IH _ Hd p eq_refl Hs) as (D & L & _). rewrite HP, HV, zlen_app, !length_app.
  rewrite klen_units in Hlen by apply Hk. split; [|split].
  - apply Z.divide_add_r; [done|]. rewrite <- klen_units; apply Hk.
  - unfold zlen in Hlen. lia.
  - intros [_ E]%app_nil. pose proof (pk_pos _ _ Hk) as Hpos. rewrite klen_units in Hpos by apply Hk.
    rewrite E in Hpos. done.
Qed.

(** The node whose segment holds the end of [u]. *)
Record covers (c : RadixCache) (P : nat → list logical_unit) (n : nat) (x : TreeNode) (p : nat)
    (u : list logical_unit) : Prop := {
  cv_node : nodes c !! n = Some x;
  cv_root : n ≠ root_node c;
  cv_parent : parent x = Some p;
  cv_prefix : u `prefix_of` P n;
  cv_len : (length (P p) < length u)%nat
}.

Lemma cover_exists c P V H n x u :
  inv cfg c P V H → nodes c !! n = Some x → n ≠ root_node c → u `prefix_of` P n → u ≠ [] →
  ∃ a y p, covers c P a y p u ∧ P a `prefix_of` P n ∧ V a `prefix_of` V n ∧
           knamespace (nkey y) = knamespace (nkey x).
Proof.
  intros Hinv. remember (length (P n)) as d eqn:Ed. revert n x Ed.
  induction d as [d IH] using lt_wf_ind. intros n x -> Hx Hr Hu Hne.
  destruct (inv_node _ _ _ _ _ _ _ Hinv Hx Hr) as (_ & _ & p & y & v & Hp & Hy & _ & _ & _ & HP & HV & Hns).
  destruct (inv_parent_depth cfg _ _ _ _ _ _ _ Hinv Hx Hr Hp) as [Hs Hd].
  destruct (decide (length (P p) < length u)%nat) as [Hl|Hl].
  { exists n, x, p. split; [by split|done]. }
  assert (P p `prefix_of` P n) as Hpn by (rewrite HP; by apply prefix_app_r).
  assert (u `prefix_of` P p) as Hup.
  { apply (prefix_total _ _ (P n)); [done|done|lia]. }
  assert (p ≠ root_node c) as Hpr.
  { intros ->. rewrite (inv_P_root _ _ _ _ Hinv) in Hup.
    by apply prefix_nil_inv in Hup. }
  destruct (IH _ Hd p y eq_refl Hy Hpr Hup Hne) as (a & z & q & Hc & H1 & H2 & H3).
  exists a, z, q. split; [done|]. split; [by etrans|].
  split; [etrans; [done|rewrite HV; by apply prefix_app_r]|]. rewrite H3. symmetry. by apply Hns.
Qed.

(** Two siblings under the same path, in the same namespace, that agree on
    their next page are the same child. *)
Lemma sibling_unique c P V H p n n' x x' u :
  inv cfg c P V H → covers c P n x p u → covers c P n' x' p u →
  knamespace (nkey x) = knamespace (nkey x') → (ps | zlen u) → n = n'.
Proof.
  intros Hinv [Hx Hr Hp Hu Hl] [Hx' Hr' Hp' Hu' _] Hns Hd.
  destruct (inv_node _ _ _ _ _ _ _ Hinv Hx Hr) as (Hk & _ & q & y & v & Hq & Hy & Hc & _ & _ & HP & _).
  destruct (inv_node _ _ _ _ _ _ _ Hinv Hx' Hr') as (Hk' & _ & q' & y' & v' & Hq' & Hy' & Hc' & _ & _ & HP' & _).
  assert (q = p) as -> by congruence. assert (q' = p) as -> by congruence.
  assert (y' = y) as -> by congruence.
  enough (ckey ps (nkey x) = ckey ps (nkey x')) as E by congruence.
  apply ckey_eq; [done..|]. split; [done|].
  destruct (path_lengths c P V H p Hinv ltac:(eauto)) as (D & _ & _).
  assert (zlen (P p) + ps ≤ zlen u) as Hpage.
  { apply divide_gap; [done|done|done|unfold zlen; lia]. }
  assert (∀ w, u `prefix_of` P p ++ w → take (Z.to_nat ps) w = take (Z.to_nat ps) (drop (length (P p)) u)) as Ht.
  { intros w [t Et]. rewrite <- (drop_app_length (P p) w), Et, drop_app_le by lia.
    rewrite take_app_le; [done|]. rewrite length_drop. unfold zlen in *. lia. }
  unfold first_page. rewrite HP in Hu. rewrite HP' in Hu'. by rewrite (Ht _ Hu), (Ht _ Hu').
Qed.

(** A page-aligned path in a namespace ends in the segment of one node. *)
Lemma cover_unique c P V H n n' x x' p p' u :
  inv cfg c P V H → covers c P n x p u → covers c P n' x' p' u →
  knamespace (nkey x) = knamespace (nkey x') → (ps | zlen u) → n = n'.
Proof.
  intros Hinv. remember (length (P n) + length (P n'))%nat as d eqn:Ed.
  revert n n' x x' p p' u Ed. induction d as [d IH] using lt_wf_ind.
  assert (∀ n n' x x' p p' u, d = (length (P n) + length (P n'))%nat →
    covers c P n x p u → covers c P n' x' p' u → knamespace (nkey x) = knamespace (nkey x') →
    (ps | zlen u) → (length (P p) ≤ length (P p'))%nat → n = n') as Hle; last first.
  { intros n n' x x' p p' u Ed C C' Hns Hd.
    destruct (decide (length (P p) ≤ length (P p'))%nat); [by eapply Hle|].
    symmetry. eapply Hle; [|exact C'|exact C|done|done|lia]. lia. }
  intros n n' x x' p p' u -> C C' Hns Hd Hle.
  destruct (decide (p = p')) as [->|Hne]; [by eapply sibling_unique|].
  pose proof C as [Hx Hr Hp Hu Hl]. pose proof C' as [Hx' Hr' Hp' Hu' Hl'].
  destruct (inv_node _ _ _ _ _ _ _ Hinv Hx Hr) as (_ & _ & q & y & v & Hq & Hy & _ & _ & _ & HP & _ & Hns1).
  destruct (inv_node _ _ _ _ _ _ _ Hinv Hx' Hr') as (_ & _ & q' & y' & v' & Hq' & Hy' & _ & _ & _ & HP' & _ & Hns2).
  assert (q = p) as -> by congruence. assert (q' = p') as -> by congruence.
  destruct (path_lengths c P V H p Hinv ltac:(eauto)) as (D & _ & Z0).
  destruct (path_lengths c P V H p' Hinv ltac:(eauto)) as (D' & _ & Z0').
  assert (p' ≠ root_node c) as Hpr'.
  { intros ->. rewrite (inv_P_root _ _ _ _ Hinv) in Hle. simpl in Hle. apply Hne, Z0.
    destruct (P p); [done|simpl in Hle; lia]. }
  destruct (inv_node _ _ _ _ _ _ _ Hinv Hy' Hpr') as (_ & _ & r' & w' & _ & Hr2' & Hw' & _).
  destruct (inv_parent_depth cfg _ _ _ _ _ _ _ Hinv Hy' Hpr' Hr2') as [_ Hd'].
  assert (P p' `prefix_of` P n') as Hpn' by (rewrite HP'; by apply prefix_app_r).
  assert (P p `prefix_of` P n) as Hpn by (rewrite HP; by apply prefix_app_r).
  assert (P p' `prefix_of` u) as Hpu' by (apply (prefix_total _ _ (P n')); [done|done|lia]).
  assert (P p `prefix_of` u) as Hpu by (apply (prefix_total _ _ (P n)); [done|done|lia]).
  pose proof (prefix_length _ _ Hu) as Lu. pose proof (prefix_length _ _ Hu') as Lu'.
  destruct (decide (length (P p) < length (P p'))%nat) as [Hlt|Hnlt].
  - assert (n = p') as ->; [|lia].
    eapply (IH _ _ n p' x y' p r' (P p') eq_refl); [|by split| |done].
    + split; [done|done|done|by etrans|done].
    + rewrite Hns. by apply Hns2.
  - exfalso. apply Hne. assert (P p = P p') as E.
    { apply prefix_length_eq; [|lia]. apply (prefix_total _ _ u); [done|done|lia]. }
    assert (p ≠ root_node c) as Hpr.
    { intros ->. rewrite (inv_P_root _ _ _ _ Hinv) in E. symmetry in E. by apply Hpr', Z0'. }
    destruct (inv_node _ _ _ _ _ _ _ Hinv Hy Hpr) as (_ & _ & r & w & _ & Hr2 & Hw & _).
    destruct (inv_parent_depth cfg _ _ _ _ _ _ _ Hinv Hy Hpr Hr2) as [_ Hd2].
    eapply (IH _ _ p p' y y' r r' (P p) eq_refl); [|split; try done; by rewrite E| |done].
    + by split.
    + rewrite <- Hns1, <- Hns2 by done. done.
  Unshelve. all: lia.
Qed.

(** A node covers its own path. *)
Lemma covers_self c P V H n x :
  inv cfg c P V H → nodes c !! n = Some x → n ≠ root_node c → ∃ p, covers c P n x p (P n).
Proof.
  intros Hinv Hx Hr.
  destruct (inv_node _ _ _ _ _ _ _ Hinv Hx Hr) as (_ & _ & p & y & v & Hp & _).
  destruct (inv_parent_depth cfg _ _ _ _ _ _ _ Hinv Hx Hr Hp) as [_ Hd]. exists p. by split.
Qed.

(** The namespace of a parent below the root is its child's. *)
Lemma covers_parent c P V H n x p u :
  inv cfg c P V H → covers c P n x p u →
  ∃ y, nodes c !! p = Some y ∧ children y !! ckey ps (nkey x) = Some n ∧ page_key ps (nkey x) ∧
    P n = P p ++ units (nkey x) ∧ P p `prefix_of` u ∧
    (p ≠ root_node c → knamespace (nkey y) = knamespace (nkey x)).
Proof.
  intros Hinv [Hx Hr Hp Hu Hl].
  destruct (inv_node _ _ _ _ _ _ _ Hinv Hx Hr) as (Hk & _ & q & y & v & Hq & Hy & Hc & _ & _ & HP & _ & Hns).
  assert (q = p) as -> by congruence. exists y. split; [done|]. split; [done|]. split; [done|].
  split; [done|]. split; [|intros E; symmetry; by apply Hns].
  apply (prefix_total _ _ (P n)); [rewrite HP; by apply prefix_app_r|done|lia].
Qed.

(** Two nodes with the same path, in the same namespace. *)
Lemma path_unique c P V H n n' x x' :
  inv cfg c P V H → nodes c !! n = Some x → nodes c !! n' = Some x' → P n = P n' →
  (n ≠ root_node c → n' ≠ root_node c → knamespace (nkey x) = knamespace (nkey x')) → n = n'.
Proof.
  intros Hinv Hx Hx' E Hns.
  destruct (path_lengths c P V H n Hinv ltac:(eauto)) as (D & _ & Z0).
  destruct (path_lengths c P V H n' Hinv ltac:(eauto)) as (_ & _ & Z0').
  pose proof (inv_P_root _ _ _ _ Hinv) as Er.
  destruct (decide (n = root_node c)) as [->|Hr].
  { symmetry. apply Z0'. congruence. }
  destruct (decide (n' = root_node c)) as [->|Hr']; [apply Z0; congruence|].
  destruct (covers_self _ _ _ _ _ _ Hinv Hx Hr) as [p C].
  destruct (covers_self _ _ _ _ _ _ Hinv Hx' Hr') as [p' C']. rewrite <- E in C'.
  by apply (cover_unique _ _ _ _ _ _ _ _ _ _ _ Hinv C C'); [apply Hns|].
Qed.

(** A node whose path goes on below [n] does so through a child of [n]. *)
Lemma cover_below c P V H n x a y p u :
  inv cfg c P V H → nodes c !! n = Some x → covers c P a y p u → P n `prefix_of` u →
  zlen u = zlen (P n) + ps → (n ≠ root_node c → knamespace (nkey x) = knamespace (nkey y)) → p = n.
Proof.
  intros Hinv Hx C Hnu Hlen Hns. pose proof C as [Ha Har Hap Hu Hl].
  destruct (covers_parent _ _ _ _ _ _ _ _ Hinv C) as (z & Hz & _ & _ & HPa & Hpu & Hpns).
  destruct (path_lengths c P V H n Hinv ltac:(eauto)) as (D & _ & _).
  destruct (path_lengths c P V H p Hinv ltac:(eauto)) as (Dp & _ & _).
  assert (length (P p) ≤ length (P n))%nat as Hle.
  { destruct (decide (length (P p) ≤ length (P n))%nat); [done|].
    pose proof (divide_gap (zlen (P n)) (zlen (P p)) Hps D Dp). unfold zlen in *. lia. }
  destruct (decide (length (P p) < length (P n))%nat) as [Hlt|Hnlt].
  - exfalso. assert (n ≠ root_node c) as Hr.
    { intros ->. rewrite (inv_P_root _ _ _ _ Hinv) in Hlt. simpl in Hlt. lia. }
    destruct (covers_self _ _ _ _ _ _ Hinv Hx Hr) as [q Cn].
    assert (a = n) as ->.
    { eapply (cover_unique _ _ _ _ _ _ _ _ _ _ (P n) Hinv); [|exact Cn| |done].
      - split; [done|done|done|by etrans|done].
      - symmetry. by apply Hns. }
    pose proof (prefix_length _ _ Hu). unfold zlen in Hlen. lia.
  - eapply path_unique; [done|done|done| |].
    + apply prefix_length_eq; [|lia]. apply (prefix_total _ _ u); [done|done|lia].
    + intros Hpr Hnr. rewrite Hpns, Hns by done. done.
Qed.

(** A stuck walk found the longest cached prefix of its key. *)
Lemma walk_longest c c' P P' V V' H n key j seg us vs :
  inv cfg c P V H → walk_ends cfg c c' P P' V V' H (root_node c) n key j seg → wf_key key →
  cache_salt key ≠ Some "" →
  cached cfg c' (knamespace key) us vs → us `prefix_of` units key → zlen us ≤ j.
Proof.
  intros Hinv0 [Hinv Hext _ Hj Hjd HPn _ _ (x & Hx & Hxns) Hst] Hwf Hsalt Hc Hus.
  apply (cached_inv _ _ _ _ _ _ _ Hinv) in Hc as (m & y & Hm & Hmr & Hmns & Hpre & _ & Hd & _).
  rewrite (inv_P_root _ _ _ _ Hinv0) in HPn. simpl in HPn.
  destruct (decide (zlen us ≤ j)) as [|Hgt]; [done|]. exfalso.
  pose proof (divide_gap j (zlen us) Hps Hjd Hd ltac:(lia)) as Hgap.
  assert (zlen us ≤ klen key) as Hle.
  { rewrite klen_units by done. pose proof (prefix_length _ _ Hus). unfold zlen. lia. }
  assert (zlen (P' n) = j) as HPl.
  { rewrite HPn. unfold zlen. rewrite length_take. rewrite klen_units in Hj by done. unfold zlen in Hj. lia. }
  set (u := take (Z.to_nat (j + ps)) us).
  assert (u `prefix_of` us) as Hu1 by apply take_prefix_of.
  assert (zlen u = j + ps) as Hul by (unfold u, zlen in *; rewrite length_take; lia).
  assert (u ≠ []) as Hune by (intros E; rewrite E in Hul; unfold zlen in Hul; simpl in Hul; lia).
  assert (P' n `prefix_of` u) as HPu.
  { apply (prefix_total _ _ (units key)); [rewrite HPn; apply take_prefix_of|by etrans|unfold zlen in *; lia]. }
  destruct (cover_exists _ _ _ _ _ _ u Hinv Hm Hmr) as (a & z & p & C & _ & _ & Hzns); [by etrans|done|].
  destruct (covers_parent _ _ _ _ _ _ _ _ Hinv C) as (w & Hw & Hch & Hk & HPa & _ & _).
  assert (p = n) as ->.
  { eapply (cover_below c' P' V' H n x); [done|done|done|done|lia|].
    intros Hr. rewrite Hxns, Hzns, Hmns by done. done. }
  assert (w = x) as -> by congruence.
  destruct Hst as [Hz|(x' & Hx' & Hnone)]; [rewrite klen_kdrop in Hz by done; lia|].
  assert (x' = x) as -> by congruence.
  enough (ckey ps (nkey z) = ckey ps (kdrop key j)) as E by congruence.
  unfold ckey. f_equal.
  { rewrite Hzns, Hmns. symmetry. by apply kslice_namespace. }
  f_equal. unfold first_page. rewrite units_kdrop by done.
  pose proof (cv_prefix _ _ _ _ _ _ C) as [t Et]. rewrite HPa in Et.
  apply (f_equal (drop (Z.to_nat j))) in Et.
  assert (length (P' n) = Z.to_nat j) as Eln by (unfold zlen in HPl; lia).
  rewrite <- Eln in Et at 1. rewrite drop_app_length in Et. rewrite Et.
  rewrite drop_app_le by (unfold zlen in Hul; lia).
  rewrite take_app_le by (rewrite length_drop; unfold zlen in Hul; lia).
  destruct (transitivity Hu1 Hus) as [t' Et']. rewrite Et'.
  rewrite drop_app_le by (unfold zlen in Hul; lia).
  rewrite take_app_le by (rewrite length_drop; unfold zlen in Hul; lia). done.
Qed.

(** ** The map under the operations *)

Lemma cached_functional c P V H ns us vs vs' :
  inv cfg c P V H → cached cfg c ns us vs → cached cfg c ns us vs' → vs = vs'.
Proof.
  intros Hinv H1 H2.
  assert (∀ vs, cached cfg c ns us vs → ∃ a x p, covers c P a x p us ∧ knamespace (nkey x) = ns ∧
            vs = take (length us) (V a) ∧ (ps | zlen us)) as Hcov.
  { intros ws (n & x & Hx & Hr & Hns & Hpre & -> & Hd & Hne)%(cached_inv _ _ _ _ _ _ _ Hinv).
    destruct (cover_exists _ _ _ _ _ _ us Hinv Hx Hr Hpre Hne) as (a & y & p & C & _ & HV & E).
    exists a, y, p. split; [done|]. split; [congruence|]. split; [|done].
    destruct (path_lengths c P V H a Hinv) as (_ & L & _); [destruct C; eauto|].
    pose proof (prefix_length _ _ (cv_prefix _ _ _ _ _ _ C)).
    destruct HV as [t ->]. by rewrite take_app_le by lia. }
  destruct (Hcov _ H1) as (a & x & p & C & N & -> & D). destruct (Hcov _ H2) as (a' & x' & p' & C' & N' & -> & _).
  by rewrite (cover_unique _ _ _ _ _ _ _ _ _ _ _ Hinv C C') by congruence.
Qed.

Lemma cached_ext c c' P P' V V' H H' ns us vs :
  inv cfg c P V H → inv cfg c' P' V' H' → extends c c' P P' V V' →
  cached cfg c ns us vs → cached cfg c' ns us vs.
Proof.
  intros I I' [Er E] (n & x & Hx & Hr & Hns & Hpre & -> & Hd & Hne)%(cached_inv _ _ _ _ _ _ _ I).
  destruct (E _ _ Hx) as (EP & EV & x' & Hx' & _ & En). apply (cached_inv _ _ _ _ _ _ _ I').
  exists n, x'. rewrite EP, EV, En, Er by done. done.
Qed.

Lemma cached_no_new c c' P P' V V' H H' ns us vs :
  inv cfg c P V H → inv cfg c' P' V' H' → no_new c c' P P' V V' →
  cached cfg c' ns us vs → cached cfg c ns us vs.
Proof.
  intros I I' [_ N] (n & x & Hx & Hr & Hns & Hpre & -> & Hd & Hne)%(cached_inv _ _ _ _ _ _ _ I').
  destruct (N _ _ Hx Hr) as (m & y & Hy & Hmr & HP & HV & E). apply (cached_inv _ _ _ _ _ _ _ I).
  exists m, y. rewrite <- E. split; [done|]. split; [done|]. split; [done|]. split; [by etrans|].
  split; [|done]. destruct (path_lengths c' P' V' H' n I' ltac:(eauto)) as (_ & L & _).
  pose proof (prefix_length _ _ Hpre). destruct HV as [t ->]. by rewrite take_app_le by lia.
Qed.

(** A walk changes nothing in the map. *)
Lemma walk_same c c' P P' V V' H node n key j seg ns us vs :
  inv cfg c P V H → walk_ends cfg c c' P P' V V' H node n key j seg →
  cached cfg c' ns us vs ↔ cached cfg c ns us vs.
Proof.
  intros I [I' Hext Hnew _ _ _ _ _ _ _]. split.
  - by apply (cached_no_new c c' P P' V V' H H).
  - by apply (cached_ext c c' P P' V V' H H).
Qed.

(** Where a walk from the root ends, in the terms of the map. *)
Lemma walk_cached c c' P P' V V' H n key j seg :
  inv cfg c P V H → walk_ends cfg c c' P P' V V' H (root_node c) n key j seg → wf_key key →
  path_units n c' = Ok (take (Z.to_nat j) (units key)) ∧ path_device_indices n c' = Ok seg ∧
  (0 < j → cached cfg c (knamespace key) (take (Z.to_nat j) (units key)) seg).
Proof.
  intros I W Hwf. pose proof W as [I' Hext Hnew Hj Hjd HP HV Hseg (x & Hx & Hxns) Hst].
  rewrite (inv_P_root _ _ _ _ I) in HP. rewrite (inv_V_root _ _ _ _ I) in HV. simpl in HP, HV.
  rewrite (path_units_inv c' P' V' H n I' ltac:(eauto)), (path_device_indices_inv c' P' V' H n I' ltac:(eauto)).
  rewrite HP, HV. split; [done|]. split; [done|]. intros Hpos.
  apply (walk_same _ _ _ _ _ _ _ _ _ _ _ _ _ _ _ I W), (cached_inv c' P' V' H _ _ _ I').
  assert (zlen (P' n) = j) as Hlen.
  { rewrite HP. unfold zlen. rewrite length_take. rewrite klen_units in Hj by done. unfold zlen in Hj. lia. }
  assert (P' n ≠ []) as Hne. { intros E'. rewrite E' in Hlen. unfold zlen in Hlen. simpl in Hlen. lia. }
  assert (n ≠ root_node c') as Hr. { intros ->. by rewrite (inv_P_root _ _ _ _ I') in Hne. }
  exists n, x. rewrite <- HP, HV, Hxns, Hlen by done.
  split; [done|]. split; [done|]. split; [done|]. split; [done|]. split; [|done].
  rewrite take_ge; [done|]. unfold zlen in *. lia.
Qed.

Lemma inserted_cached c c' P P' V V' H key val n j ns us vs :
  inv cfg c P V H → inserted cfg c c' P P' V V' H key val n j →
  cached cfg c' ns us vs ↔
  cached cfg c ns us vs ∨
  (ns = knamespace key ∧ us `prefix_of` units key ∧ vs = take (length us) (V' n) ∧
   (ps | zlen us) ∧ us ≠ []).
Proof.
  intros I [I' Hext HPn (x & Hx & Hxns) (c1 & P1 & V1 & n1 & seg & W & _ & Hext1 & Honly & _)].
  pose proof (we_inv _ _ _ _ _ _ _ _ _ _ _ _ _ W) as I1.
  pose proof (we_new _ _ _ _ _ _ _ _ _ _ _ _ _ W) as N1.
  assert (n = root_node c' → units key = []) as Hroot.
  { intros ->. rewrite <- HPn. by apply (inv_P_root _ _ _ _ I'). }
  split.
  - intros Hc. pose proof Hc as (m & y & Hy & Hmr & Hns & Hpre & Ev & Hd & Hne)%(cached_inv _ _ _ _ _ _ _ I').
    destruct (decide (m = n)) as [->|Hmn].
    + right. assert (y = x) as -> by congruence. rewrite HPn in Hpre. rewrite <- Hns, Hxns by done. done.
    + left. destruct (Honly m ltac:(eauto)) as [?|[y1 Hy1]]; [done|].
      eapply cached_no_new; [exact I|exact I1|exact N1|].
      apply (cached_inv _ _ _ _ _ _ _ I1). destruct Hext1 as [Er E1].
      destruct (E1 _ _ Hy1) as (EP & EV & y' & Hy' & _ & En). assert (y' = y) as -> by congruence.
      exists m, y1. rewrite Er in Hmr. rewrite <- EP, <- EV, <- En by done. done.
  - intros [Hc|(-> & Hpre & -> & Hd & Hne)]; [by apply (cached_ext c c' P P' V V' H H)|].
    apply (cached_inv _ _ _ _ _ _ _ I'). assert (n ≠ root_node c') as Hr.
    { intros E%Hroot. rewrite E in Hpre. by apply prefix_nil_inv in Hpre. }
    exists n, x. rewrite HPn, Hxns by done. done.
Qed.
End spec.
