(* ===== verification/RadixTotal.v ===== *)
(** * The traversal of [total_size]

    The stack loop visits every node of the tree exactly once: [D] is the set
    of nodes already counted. *)
From S2P Require Import Prelude RadixKey EvictPolicy RadixCache RadixInv RadixOps RadixLock.

Section total.
Context (cfg : cache_config) (c : RadixCache).
Context (P : nat → list logical_unit) (V : nat → list Z) (H : nat → Z).
Context (Hinv : inv cfg c P V H).

(** Slots counted at a node. *)
Definition node_slots (x : TreeNode) : Z := zlen (default [] (value x)).

Record dfs_ok (D : gset nat) (stack : list nat) (total : Z) : Prop := {
  df_nodup : NoDup stack;
  df_fresh : ∀ n, n ∈ stack → (n ∉ D) ∧ is_Some (nodes c !! n);
  df_dom : ∀ n, n ∈ D → is_Some (nodes c !! n);
  df_root : root_node c ∈ D ∨ root_node c ∈ stack;
  df_down : ∀ n x k m, n ∈ D → nodes c !! n = Some x → children x !! k = Some m → m ∈ D ∨ m ∈ stack;
  df_up : ∀ n x, n ∈ D ∨ n ∈ stack → nodes c !! n = Some x → n ≠ root_node c →
            ∃ p, parent x = Some p ∧ p ∈ D;
  df_total : total = msum (λ n x, if decide (n ∈ D) then node_slots x else 0) (nodes c)
}.

(** The children the loop pushes: all of them, none is evicted. *)
Definition kids (x : TreeNode) : list nat :=
  List.filter (λ k, match nodes c !! k with Some y => negb (evicted y) | None => false end)
    ((map_to_list (children x)).*2).

Lemma kids_spec n x m :
  nodes c !! n = Some x → m ∈ kids x ↔ ∃ k, children x !! k = Some m.
Proof.
  intros Hx. unfold kids. rewrite list_elem_of_In, filter_In, <- list_elem_of_In, list_elem_of_fmap.
  split.
  - intros [((k & m') & -> & Hk) _]. exists k. by apply elem_of_map_to_list.
  - intros [k Hk]. split; [exists (k, m); split; [done|by apply elem_of_map_to_list]|].
    destruct (inv_child _ _ _ _ _ _ _ _ _ Hinv Hx Hk) as (Hr & y & Hy & _). rewrite Hy.
    destruct (inv_node _ _ _ _ _ _ _ Hinv Hy Hr) as (_ & _ & ? & ? & v & _ & _ & _ & Hv & _).
    unfold evicted. by rewrite Hv.
Qed.

(** A node appears once among the children of a node. *)
Lemma child_ids_nodup n x : nodes c !! n = Some x → NoDup (map_to_list (children x)).*2.
Proof.
  intros Hx. apply NoDup_fmap_2_strong; [|apply NoDup_map_to_list].
  intros [k m] [k' m'] Hk Hk' E. simpl in E. subst m'.
  apply elem_of_map_to_list in Hk, Hk'.
  destruct (inv_child _ _ _ _ _ _ _ _ _ Hinv Hx Hk) as (_ & y & Hy & _ & <-).
  destruct (inv_child _ _ _ _ _ _ _ _ _ Hinv Hx Hk') as (_ & y' & Hy' & _ & <-).
  assert (y' = y) as -> by congruence. done.
Qed.

Lemma kids_nodup n x : nodes c !! n = Some x → NoDup (kids x).
Proof.
  intros Hx. unfold kids. apply NoDup_ListNoDup, List.NoDup_filter, NoDup_ListNoDup. by eapply child_ids_nodup.
Qed.

Lemma dfs_step D n stack total x :
  dfs_ok D (n :: stack) total → nodes c !! n = Some x →
  dfs_ok ({[ n ]} ∪ D) (reverse (kids x) ++ stack) (total + node_slots x).
Proof.
  intros [Hnd Hfr Hdom Hroot Hdown Hup Htot] Hx.
  destruct (Hfr n ltac:(by left)) as [HnD _]. apply NoDup_cons in Hnd as [Hns Hnd].
  (* a child of [n] is new: what is known already has a counted parent *)
  assert (∀ m, m ∈ kids x → (m ∉ D) ∧ (m ∉ n :: stack) ∧ is_Some (nodes c !! m) ∧ m ≠ root_node c ∧
            ∃ y, nodes c !! m = Some y ∧ parent y = Some n) as Hkid.
  { intros m (k & Hk)%(kids_spec _ _ _ Hx).
    destruct (inv_child _ _ _ _ _ _ _ _ _ Hinv Hx Hk) as (Hr & y & Hy & Hyp & _).
    assert (¬ (m ∈ D ∨ m ∈ n :: stack)) as Hn.
    { intros Hin. destruct (Hup m y Hin Hy Hr) as (p & Hp & HpD). congruence. }
    split; [tauto|]. split; [tauto|]. split; [by eexists|]. split; [done|]. by exists y. }
  split.
  - apply NoDup_app. split; [rewrite reverse_Permutation; by eapply kids_nodup|]. split; [|done].
    intros m. rewrite elem_of_reverse. intros Hm. destruct (Hkid m Hm) as (_ & Hm' & _). set_solver.
  - intros m. rewrite elem_of_app, elem_of_reverse. intros [Hm|Hm].
    + destruct (Hkid m Hm) as (H1 & H2 & H3 & _). split; [set_solver|done].
    + destruct (Hfr m ltac:(by right)) as [H1 H2]. split; [|done].
      apply not_elem_of_union. split; [|done]. intros ->%elem_of_singleton. done.
  - intros m [->%elem_of_singleton|]%elem_of_union; [by eexists|by apply Hdom].
  - set_solver.
  - intros m y k m' [->%elem_of_singleton|Hm]%elem_of_union Hy Hk.
    + assert (y = x) as -> by congruence. right. apply elem_of_app. left. apply elem_of_reverse.
      apply (kids_spec n); [done|by exists k].
    + destruct (Hdown m y k m' Hm Hy Hk) as [?|[->|?]%elem_of_cons]; set_solver.
  - intros m y Hm Hy Hr. rewrite elem_of_app, elem_of_reverse, elem_of_union, elem_of_singleton in Hm.
    destruct Hm as [[->|Hm]|[Hm|Hm]].
    + destruct (Hup n y ltac:(right; by left) Hy Hr) as (p & Hp & HpD). exists p. set_solver.
    + destruct (Hup m y ltac:(by left) Hy Hr) as (p & Hp & HpD). exists p. set_solver.
    + destruct (Hkid m Hm) as (_ & _ & _ & _ & y' & Hy' & Hp). assert (y' = y) as -> by congruence.
      exists n. set_solver.
    + destruct (Hup m y ltac:(right; by right) Hy Hr) as (p & Hp & HpD). exists p. set_solver.
  - rewrite Htot. rewrite !(msum_delete _ (nodes c) n x Hx), decide_False, decide_True by set_solver.
    rewrite (msum_ext _ (λ k y, if decide (k ∈ {[n]} ∪ D) then node_slots y else 0) (delete n (nodes c)));
      [lia|]. intros k y Hk. apply lookup_delete_Some in Hk as [Hkn _].
    repeat case_decide; set_solver.
Qed.

(** Everything is counted once the stack is empty. *)
Lemma dfs_done D total n x : dfs_ok D [] total → nodes c !! n = Some x → n ∈ D.
Proof.
  intros Hd. remember (length (P n)) as d eqn:Ed. revert n x Ed.
  induction d as [d IH] using lt_wf_ind. intros n x -> Hx.
  destruct (decide (n = root_node c)) as [->|Hr]; [destruct (df_root _ _ _ Hd); [done|set_solver]|].
  destruct (inv_node _ _ _ _ _ _ _ Hinv Hx Hr) as (_ & _ & p & y & v & Hp & Hy & Hc & _).
  destruct (inv_parent_depth cfg _ _ _ _ _ _ _ Hinv Hx Hr Hp) as [_ Hlt].
  destruct (df_down _ _ _ Hd p y _ n (IH _ Hlt p y eq_refl Hy) Hy Hc); [done|set_solver].
Qed.

Lemma total_size_loop_spec fuel D stack total :
  dfs_ok D stack total → (size (nodes c) - size D < fuel)%nat →
  total_size_loop fuel stack total c = Ok (msum (λ _ x, node_slots x) (nodes c)).
Proof.
  revert D stack total. induction fuel as [|fuel IH]; [lia|]. intros D [|n stack] total Hd Hf; simpl.
  - rewrite (df_total _ _ _ Hd). f_equal. apply msum_ext. intros k x Hk.
    rewrite decide_True; [done|]. by eapply dfs_done.
  - destruct (df_fresh _ _ _ Hd n ltac:(by left)) as [HnD [x Hx]].
    rewrite (get_node_ok _ _ _ Hx). cbn [rbind]. fold (kids x). fold (node_slots x).
    apply (IH ({[ n ]} ∪ D)); [by apply dfs_step|].
    rewrite size_union, size_singleton by set_solver.
    assert (size ({[ n ]} ∪ D) ≤ size (dom (nodes c)))%nat as Hle.
    { apply subseteq_size. intros m [->%elem_of_singleton|Hm]%elem_of_union;
        apply elem_of_dom; [by eexists|by apply (df_dom _ _ _ Hd)]. }
    rewrite size_union, size_singleton, size_dom in Hle by set_solver. lia.
Qed.

Lemma total_size_inv : total_size c = Ok (evictable_size_ c + protected_size_ c).
Proof.
  destruct (inv_root _ _ _ _ _ Hinv) as [r Hr]. unfold total_size.
  rewrite (total_size_loop_spec _ ∅).
  - f_equal. pose proof (ci_ev _ _ _ _ _ _ Hinv) as E1. pose proof (ci_pr _ _ _ _ _ _ Hinv) as E2.
    simpl in E1, E2. rewrite E1, E2, <- msum_add. unfold msum at 2. rewrite map_fold_fmap.
    apply msum_ext. intros n x Hx. unfold ev_size, pr_size. case_decide as Hn.
    + subst n. destruct (ci_root _ _ _ _ _ _ Hinv) as (r' & Hr' & _ & Hv & _).
      apply core_lookup_inv in Hr' as (r2 & Hr2 & ->). simpl in Hr2, Hv.
      assert (r2 = x) as -> by congruence. unfold node_slots. by rewrite Hv.
    + destruct (inv_node _ _ _ _ _ _ _ Hinv Hx Hn) as (_ & _ & ? & ? & v & _ & _ & _ & Hv & Hl & _).
      unfold node_slots. rewrite Hv. simpl. rewrite Hl. destruct (_ =? 0); lia.
  - split; [apply NoDup_singleton| | | | | |].
    + intros n ->%list_elem_of_singleton. split; [set_solver|by eexists].
    + set_solver.
    + set_solver.
    + set_solver.
    + intros n x Hn _ Hnr. exfalso. apply Hnr. set_solver.
    + symmetry. apply msum_zero. intros k x Hk. by rewrite decide_False by set_solver.
  - simpl. lia.
Qed.
End total.
