(* ===== verification/RadixTheorems.v ===== *)
(** * Theorems of the prefix cache

    [reachable] runs the cache from [reset] through any sequence of its
    operations, with the locks the clients hold.  Every reachable state
    satisfies the invariant, every operation returns on it, and the map
    [cached] changes exactly as the interface says. *)
From S2P Require Import Prelude RadixKey EvictPolicy RadixCache RadixInv RadixOps RadixInsert RadixLock RadixEvict RadixSpec RadixTotal.

(** ** Runs *)

(** One operation by some client.  [H] counts, per node, the locks taken with
    [inc_lock_ref] and not yet given back.  Clients lock nodes that are in the
    tree and give back only locks they hold. *)
Inductive step (clock : nat → Z) (cfg : cache_config) {HQ : HeapQ entry entry_le} :
    RadixCache → (nat → Z) → RadixCache → (nat → Z) → Prop :=
  | step_match c H key r c' :
      key_ok key → match_prefix clock cfg key c = Ok (r, c') → step clock cfg c H c' H
  | step_touch c H key c' :
      key_ok key → touch_prefix clock cfg key c = Ok c' → step clock cfg c H c' H
  | step_insert c H key val prio ilen r c' :
      key_ok key → value_ok cfg key val →
      insert clock cfg key val prio ilen c = Ok (r, c') → step clock cfg c H c' H
  | step_inc c H n d c' :
      is_Some (nodes c !! n) → inc_lock_ref cfg n c = Ok (d, c') →
      step clock cfg c H c' (hold H n 1)
  | step_dec c H n d c' :
      is_Some (nodes c !! n) → 1 ≤ H n → dec_lock_ref cfg n c = Ok (d, c') →
      step clock cfg c H c' (hold H n (-1))
  | step_evict c H num leaves r c' :
      leaves ≡ₚ elements (evictable_leaves c) →
      evict cfg num leaves c = Ok (r, c') → step clock cfg c H c' H.

(** States reached from a fresh cache. *)
Inductive reachable (clock : nat → Z) (cfg : cache_config) {HQ : HeapQ entry entry_le} :
    RadixCache → (nat → Z) → Prop :=
  | reach_reset c : reachable clock cfg (reset clock c) (λ _, 0)
  | reach_step c H c' H' :
      reachable clock cfg c H → step clock cfg c H c' H' → reachable clock cfg c' H'.

(** [heapq] implemented by selection, for the examples. *)
#[export] Instance entry_heap : HeapQ entry entry_le.
Proof.
  apply SelectionHeap.
  - intros a b c. apply lex_leb_trans.
  - intros a b. apply lex_leb_total.
Defined.

Section theorems.
Context (clock : nat → Z) (cfg : cache_config) {HQ : HeapQ entry entry_le}.
Abbreviation ps := (page_size cfg).
Context (Hps : 0 < ps) (Hdis : disable cfg = false).

(** A step keeps the invariant and the paths of the nodes that stay; a node
    goes only when it carries no lock. *)
Lemma step_inv c H c' H' P V :
  step clock cfg c H c' H' → inv cfg c P V H → (∀ k, 0 ≤ H k) →
  ∃ P' V', inv cfg c' P' V' H' ∧ (∀ k, 0 ≤ H' k) ∧ root_node c' = root_node c ∧
    ∀ n x, nodes c !! n = Some x → lock_ref x ≠ 0 ∨ is_Some (nodes c' !! n) →
      is_Some (nodes c' !! n) ∧ P' n = P n ∧ V' n = V n.
Proof.
  intros Hstep Hinv HH.
  assert (∀ c' P' V', inv cfg c' P' V' H → extends c c' P P' V V' →
    ∃ P' V', inv cfg c' P' V' H ∧ (∀ k, 0 ≤ H k) ∧ root_node c' = root_node c ∧
      ∀ n x, nodes c !! n = Some x → lock_ref x ≠ 0 ∨ is_Some (nodes c' !! n) →
        is_Some (nodes c' !! n) ∧ P' n = P n ∧ V' n = V n) as Hext.
  { intros c2 P' V' I [Er E]. exists P', V'. split; [done|]. split; [done|]. split; [done|].
    intros n x Hx _. destruct (E _ _ Hx) as (? & ? & x' & ? & _). eauto. }
  assert (∀ δ l c' H', locked δ l c c' → inv cfg c' P V H' → (∀ k, 0 ≤ H' k) →
    ∃ P' V', inv cfg c' P' V' H' ∧ (∀ k, 0 ≤ H' k) ∧ root_node c' = root_node c ∧
      ∀ n x, nodes c !! n = Some x → lock_ref x ≠ 0 ∨ is_Some (nodes c' !! n) →
        is_Some (nodes c' !! n) ∧ P' n = P n ∧ V' n = V n) as Hlock.
  { intros δ l c2 H2 L I HH2. exists P, V. split; [done|]. split; [done|].
    split; [apply L|]. intros n x Hx _. rewrite (lk_nodes_eq _ _ _ _ L), Hx. simpl. eauto. }
  destruct Hstep as [c H key r c' Hk E|c H key c' Hk E|c H key val prio ilen r c' Hk Hv E
    |c H n d c' Hn E|c H n d c' Hn Hh E|c H num leaves [r1 r2] c' Hlv E].
  - destruct (match_prefix_spec clock cfg Hps c P V H key Hinv Hk Hdis) as (r' & c2 & P' & V' & seg & E' & W).
    assert (c2 = c') as -> by congruence. apply (Hext c' P' V'); apply W.
  - destruct (touch_prefix_spec clock cfg Hps c P V H key Hinv Hk) as (c2 & P' & V' & E' & W & W' & _).
    assert (c2 = c') as -> by congruence. by apply (Hext c' P' V').
  - destruct (insert_spec clock cfg Hps c P V H key val prio ilen Hinv Hk Hv Hdis) as (n & c2 & P' & V' & j & E' & W).
    assert (c2 = c') as -> by congruence. apply (Hext c' P' V'); apply W.
  - destruct (up_path_exists cfg c P V H n Hinv Hn) as [l Hl].
    destruct (inc_lock_ref_spec clock cfg Hps c P V H n l Hinv Hl Hdis) as (c2 & E' & W & L & _).
    assert (c2 = c') as -> by congruence. apply (Hlock 1 l); [done|done|].
    intros k. pose proof (HH k). unfold hold. case_decide; lia.
  - assert (∀ k, 0 ≤ hold H n (-1) k) as HH'.
    { intros k. pose proof (HH k). unfold hold. case_decide; subst; lia. }
    destruct (up_path_exists cfg c P V H n Hinv Hn) as [l Hl].
    destruct (dec_lock_ref_spec clock cfg Hps c P V H n l Hinv ltac:(done) Hl Hdis) as (c2 & E' & W & L & _).
    assert (c2 = c') as -> by congruence. by apply (Hlock (-1) l).
  - destruct (evict_spec clock cfg Hps num leaves c P V H Hinv Hdis Hlv) as (tr & c2 & E' & W & _).
    rewrite E in E'. injection E' as _ _ ->.
    destruct (evicts_inv clock cfg Hps c tr c2 P V H Hinv W) as (I' & Er & _ & _ & Hkeep & Hgone & _).
    exists P, V. split; [done|]. split; [done|]. split; [done|]. intros n x Hx Hor.
    split; [|done]. destruct Hor as [Hl|]; [|done].
    destruct (decide (n ∈ tr.*1)) as [Hin|Hnin].
    + destruct (Hgone n Hin) as (x' & Hx' & Hl' & _). congruence.
    + destruct (Hkeep n x Hx Hnin) as (x' & Hx' & _). by exists x'.
Qed.

Lemma reachable_inv c H :
  reachable clock cfg c H → (∃ P V, inv cfg c P V H) ∧ ∀ k, 0 ≤ H k.
Proof.
  induction 1 as [c|c H c' H' _ [(P & V & Hinv) HH] Hstep].
  - split; [|done]. do 2 eexists. by apply (reset_inv clock cfg).
  - destruct (step_inv _ _ _ _ _ _ Hstep Hinv HH) as (P' & V' & ? & ? & _). eauto.
Qed.

(** ** The interface of the cache *)

(** Matching in the terms of the map. *)
Lemma match_longest c H key :
  reachable clock cfg c H → key_ok key →
  ∃ r c' vs, match_prefix clock cfg key c = Ok (r, c') ∧
    let k := tree_key cfg key in
    let len := device_prefix_len r in
    let us := take (Z.to_nat len) (units k) in
    (0 ≤ len ≤ klen k ∧ (ps | len)) ∧
    path_units (last_device_node r) c' = Ok us ∧
    path_device_indices (last_device_node r) c' = Ok vs ∧ zlen vs = len ∧
    (0 < len → cached cfg c (knamespace key) us vs) ∧
    (∀ us' vs', cached cfg c (knamespace key) us' vs' → us' `prefix_of` units k → zlen us' ≤ len) ∧
    (∀ ns us' vs', cached cfg c' ns us' vs' ↔ cached cfg c ns us' vs').
Proof.
  intros [(P & V & Hinv) HH]%reachable_inv Hk. destruct (tree_key_ok cfg Hps key Hk) as [[Hwf Hs] Hd].
  destruct (match_prefix_spec clock cfg Hps c P V H key Hinv Hk Hdis) as (r & c' & P' & V' & seg & E & W).
  pose proof (tree_key_namespace cfg key Hk) as Hns.
  destruct (walk_cached cfg _ _ _ _ _ _ _ _ _ _ _ Hinv W Hwf) as (HP & HV & Hc).
  exists r, c', seg. split; [done|]. cbv zeta.
  split; [split; apply W|]. split; [done|]. split; [done|]. split; [apply W|]. rewrite <- Hns.
  split; [done|]. split; [|intros; by eapply walk_same].
  intros us' vs' Hc' Hpre. eapply (walk_longest cfg Hps c c'); [done|done|done|done| |done].
  by eapply walk_same.
Qed.

(** C7: on every reachable cache [match_prefix] returns without raising; the
    length it reports is that of the longest cached page-aligned prefix of the
    key in the key's namespace, the node it returns spells that prefix and
    holds its slots, and the set of cached prefixes does not change (a split
    only moves a boundary). *)
Theorem match_prefix_longest_cached c H key :
  reachable clock cfg c H → key_ok key →
  ∃ r c' vs, match_prefix clock cfg key c = Ok (r, c') ∧
    let k := tree_key cfg key in
    let len := device_prefix_len r in
    let us := take (Z.to_nat len) (units k) in
    (0 ≤ len ≤ klen k ∧ (ps | len)) ∧
    path_units (last_device_node r) c' = Ok us ∧
    path_device_indices (last_device_node r) c' = Ok vs ∧ zlen vs = len ∧
    (0 < len → cached cfg c (knamespace key) us vs) ∧
    (∀ us' vs', cached cfg c (knamespace key) us' vs' → us' `prefix_of` units k → zlen us' ≤ len) ∧
    (∀ ns us' vs', cached cfg c' ns us' vs' ↔ cached cfg c ns us' vs').
Proof. apply match_longest. Qed.

(** Inserting in the terms of the map. *)
Lemma insert_extends c H key val prio ilen :
  reachable clock cfg c H → key_ok key → value_ok cfg key val →
  ∃ j n c' full, insert clock cfg key val prio ilen c = Ok (mkInsert j (Some n), c') ∧
    let k := tree_key cfg key in
    path_units n c' = Ok (units k) ∧ path_device_indices n c' = Ok full ∧
    zlen full = klen k ∧ 0 ≤ j ≤ klen k ∧
    drop (Z.to_nat j) full = drop (Z.to_nat j) (tree_value cfg key val) ∧
    (0 < j → cached cfg c (knamespace key) (take (Z.to_nat j) (units k)) (take (Z.to_nat j) full)) ∧
    (∀ us vs, cached cfg c (knamespace key) us vs → us `prefix_of` units k → zlen us ≤ j) ∧
    (∀ ns us vs, cached cfg c' ns us vs ↔
       cached cfg c ns us vs ∨
       (ns = knamespace key ∧ us `prefix_of` units k ∧ vs = take (length us) full ∧
        (ps | zlen us) ∧ us ≠ [])).
Proof.
  intros [(P & V & Hinv) HH]%reachable_inv Hk Hv. destruct (tree_key_ok cfg Hps key Hk) as [[Hwf Hs] Hd].
  pose proof (tree_key_namespace cfg key Hk) as Hns.
  destruct (insert_spec clock cfg Hps c P V H key val prio ilen Hinv Hk Hv Hdis)
    as (n & c' & P' & V' & j & E & W).
  pose proof W as [I' Hext HP (x & Hx & Hxns) (c1 & P1 & V1 & n1 & seg & W1 & HV & _ & _)].
  destruct (walk_cached cfg _ _ _ _ _ _ _ _ _ _ _ Hinv W1 Hwf) as (_ & _ & Hc).
  pose proof (we_j _ _ _ _ _ _ _ _ _ _ _ _ _ W1) as Hj.
  pose proof (we_seg _ _ _ _ _ _ _ _ _ _ _ _ _ W1) as Hseg.
  pose proof (zlen_tree_value cfg Hps key val Hk Hv) as Hlv.
  assert (length seg = Z.to_nat j) as Hsl by (unfold zlen in Hseg; lia).
  exists j, n, c', (V' n). split; [done|]. cbv zeta.
  rewrite (path_units_inv cfg c' P' V' H), (path_device_indices_inv cfg c' P' V' H), HP by eauto.
  split; [done|]. split; [done|]. split.
  { rewrite HV, zlen_app, Hseg. unfold zlen in *. rewrite length_drop. lia. }
  split; [done|]. rewrite HV, <- Hsl, drop_app_length, take_app_length, Hsl, <- Hns.
  split; [done|]. split; [done|]. split.
  - intros us vs Hc' Hpre. eapply (walk_longest cfg Hps c c1); [done|done|done|done| |done].
    by apply (walk_same cfg _ _ _ _ _ _ _ _ _ _ _ _ _ _ _ Hinv W1).
  - intros ns us vs. rewrite <- HV. by eapply (inserted_cached cfg).
Qed.

(** C9: on every reachable cache [insert] returns without raising; it reports
    the length of the longest prefix that was cached already, whose slots
    stay the ones of the tree, and after it the cached prefixes are the old
    ones and those of the inserted key, the rest of which is stored with the
    slots passed in.  Other namespaces and other keys are not touched. *)
Theorem insert_extends_cached c H key val prio ilen :
  reachable clock cfg c H → key_ok key → value_ok cfg key val →
  ∃ j n c' full, insert clock cfg key val prio ilen c = Ok (mkInsert j (Some n), c') ∧
    let k := tree_key cfg key in
    path_units n c' = Ok (units k) ∧ path_device_indices n c' = Ok full ∧
    zlen full = klen k ∧ 0 ≤ j ≤ klen k ∧
    drop (Z.to_nat j) full = drop (Z.to_nat j) (tree_value cfg key val) ∧
    (0 < j → cached cfg c (knamespace key) (take (Z.to_nat j) (units k)) (take (Z.to_nat j) full)) ∧
    (∀ us vs, cached cfg c (knamespace key) us vs → us `prefix_of` units k → zlen us ≤ j) ∧
    (∀ ns us vs, cached cfg c' ns us vs ↔
       cached cfg c ns us vs ∨
       (ns = knamespace key ∧ us `prefix_of` units k ∧ vs = take (length us) full ∧
        (ps | zlen us) ∧ us ≠ [])).
Proof. apply insert_extends. Qed.

(** C36: what was inserted is found again: matching the same key right after
    [insert] matches all of it (whole pages), ends at the node [insert]
    returned, and yields the slots the tree then holds for it. *)
Theorem insert_then_match c H key val prio ilen :
  reachable clock cfg c H → key_ok key → value_ok cfg key val →
  ∃ j n c' r c'' full,
    insert clock cfg key val prio ilen c = Ok (mkInsert j (Some n), c') ∧
    match_prefix clock cfg key c' = Ok (r, c'') ∧
    device_prefix_len r = klen (tree_key cfg key) ∧ last_device_node r = n ∧
    path_device_indices n c'' = Ok full ∧ path_device_indices n c' = Ok full ∧
    drop (Z.to_nat j) full = drop (Z.to_nat j) (tree_value cfg key val).
Proof.
  intros [(P & V & Hinv) HH]%reachable_inv Hk Hv. destruct (tree_key_ok cfg Hps key Hk) as [[Hwf Hs] Hd].
  destruct (insert_spec clock cfg Hps c P V H key val prio ilen Hinv Hk Hv Hdis)
    as (n & c' & P' & V' & j & E & W).
  pose proof W as [I' Hext HP (x & Hx & Hxns) (c1 & P1 & V1 & n1 & seg & W1 & HV & _ & _)].
  destruct (match_prefix_spec clock cfg Hps c' P' V' H key I' Hk Hdis) as (r & c2 & P2 & V2 & seg2 & E2 & W2).
  pose proof W2 as [I2 [Er E2x] _ Hj2 _ HP2 HV2 Hs2 (x2 & Hx2 & Hxns2) _].
  destruct (E2x _ _ Hx) as (EP & EV & x' & Hx' & _ & Ens).
  pose proof (inv_P_root cfg _ _ _ _ I') as Er'.
  assert (device_prefix_len r = klen (tree_key cfg key)) as Hall.
  { destruct (decide (klen (tree_key cfg key) = 0)) as [E0|E0]; [lia|].
    enough (zlen (units (tree_key cfg key)) ≤ device_prefix_len r) by (rewrite <- klen_units in * by done; lia).
    eapply (walk_longest cfg Hps c' c2 _ _ _ _ _ _ _ _ _ _ (V' n) I' W2 Hwf Hs); [|done].
    apply (walk_same cfg _ _ _ _ _ _ _ _ _ _ _ _ _ _ _ I' W2).
    apply (inserted_cached cfg _ _ _ _ _ _ _ _ _ _ _ _ _ _ Hinv W). right.
    assert (length (V' n) = length (units (tree_key cfg key))) as El.
    { rewrite <- HP. by apply (path_lengths cfg c' P' V' H n I'). }
    rewrite take_ge by lia. rewrite <- klen_units by done.
    split; [done|]. split; [done|]. split; [done|]. split; [done|].
    intros E'. rewrite klen_units, E' in E0 by done. done. }
  assert (P2 (last_device_node r) = units (tree_key cfg key)) as HPr.
  { rewrite HP2, Hall, Er'. apply take_ge. rewrite klen_units by done. unfold zlen. lia. }
  assert (last_device_node r = n) as En.
  { eapply (path_unique cfg Hps c2 P2 V2 H _ _ _ _ I2 Hx2 Hx'); [by rewrite HPr, EP, HP|].
    intros N1 N2. rewrite Hxns2, Ens, Hxns by congruence. done. }
  exists j, n, c', r, c2, (V' n). split; [done|]. split; [done|]. split; [done|]. split; [done|].
  rewrite (path_device_indices_inv cfg c' P' V' H), (path_device_indices_inv cfg c2 P2 V2 H), EV by eauto.
  split; [done|]. split; [done|]. pose proof (we_seg _ _ _ _ _ _ _ _ _ _ _ _ _ W1) as Hseg.
  rewrite HV. assert (Z.to_nat j = length seg) as -> by (unfold zlen in Hseg; lia).
  by rewrite drop_app_length.
Qed.

(** C8: while a lock is held on a node, no operation of any client removes the
    node or changes the units or the slots of its path. *)
Theorem held_path_stable c H c' H' n :
  reachable clock cfg c H → step clock cfg c H c' H' → n ≠ root_node c → 1 ≤ H n →
  is_Some (nodes c' !! n) ∧
  path_units n c' = path_units n c ∧ path_device_indices n c' = path_device_indices n c.
Proof.
  intros [(P & V & Hinv) HH]%reachable_inv Hstep Hr Hheld.
  destruct (step_inv _ _ _ _ _ _ Hstep Hinv HH) as (P' & V' & I' & _ & _ & Hkeep).
  destruct (nodes c !! n) as [x|] eqn:Hx; last first.
  { enough (H n = 0) by lia. apply (ci_H _ _ _ _ _ _ Hinv). simpl. by rewrite lookup_fmap, Hx. }
  pose proof (held_le_lock cfg _ _ _ _ _ _ Hinv Hx Hr).
  destruct (Hkeep n x Hx ltac:(left; lia)) as (Hs & EP & EV). split; [done|].
  rewrite (path_units_inv cfg c' P' V' H'), (path_units_inv cfg c P V H) by eauto.
  rewrite (path_device_indices_inv cfg c' P' V' H'), (path_device_indices_inv cfg c P V H) by eauto.
  by rewrite EP, EV.
Qed.

(** C10: [evict] on a reachable cache returns; it frees at least what was asked
    or everything evictable, stops as soon as enough is freed, every victim
    is at its turn an unlocked leaf of least priority, the size counter goes
    down by what was freed, and what is still cached was cached before. *)
Theorem evict_frees_enough num leaves c H :
  reachable clock cfg c H → leaves ≡ₚ elements (evictable_leaves c) →
  ∃ tr c', evict cfg num leaves c = Ok (freed_len tr, tr.*2, c') ∧
    evicts cfg c tr c' ∧
    Z.min num (evictable_size c) ≤ freed_len tr ∧
    (∀ tr1 e, tr = tr1 ++ [e] → freed_len tr1 < num) ∧
    evictable_size c' = evictable_size c - freed_len tr ∧ protected_size c' = protected_size c ∧
    (∀ ns us vs, cached cfg c' ns us vs → cached cfg c ns us vs).
Proof.
  intros [(P & V & Hinv) HH]%reachable_inv Hlv.
  destruct (evict_spec clock cfg Hps num leaves c P V H Hinv Hdis Hlv) as (tr & c' & E & W & Hstop & Hlast).
  destruct (evicts_inv clock cfg Hps c tr c' P V H Hinv W) as (I' & Er & Hev & Hpr & Hkeep & Hgone & Hold).
  exists tr, c'. split; [done|]. split; [done|]. split.
  { unfold evictable_size. destruct Hstop as [?|He]; [lia|].
    pose proof (no_leaf_no_evictable clock cfg Hps _ _ _ _ I' ltac:(done) He). lia. }
  split; [done|]. split; [done|]. split; [done|]. intros ns us vs.
  rewrite (cached_inv cfg c' P V H _ _ _ I'), (cached_inv cfg c P V H _ _ _ Hinv).
  intros (n & x' & Hx' & Hr & Hns & Hrest). destruct (Hold n ltac:(by eexists)) as [x Hx].
  destruct (decide (n ∈ tr.*1)) as [Hin|Hnin].
  { destruct (Hgone n Hin) as (_ & _ & _ & Hnone). congruence. }
  destruct (Hkeep n x Hx Hnin) as (x2 & Hx2 & f & ->). assert (x' = set_children f x) as -> by congruence.
  exists n, x. rewrite Er in Hr. done.
Qed.

(** Giving back a lock undoes taking it: the state after [inc_lock_ref]
    and [dec_lock_ref] on the same node is the state before, and the two
    reported changes of the evictable size cancel. *)
Theorem lock_unlock_identity c H n :
  reachable clock cfg c H → is_Some (nodes c !! n) →
  ∃ d c1, inc_lock_ref cfg n c = Ok (d, c1) ∧ dec_lock_ref cfg n c1 = Ok (- d, c) ∧
    evictable_size c1 = evictable_size c + d ∧ protected_size c1 = protected_size c - d.
Proof.
  intros [(P & V & Hinv) HH]%reachable_inv Hn.
  destruct (lock_roundtrip clock cfg Hps c P V H n Hinv ltac:(done) Hn Hdis) as (d & c1 & E1 & E2).
  destruct (up_path_exists cfg c P V H n Hinv Hn) as [l Hl].
  destruct (inc_lock_ref_spec clock cfg Hps c P V H n l Hinv Hl Hdis) as (c1' & E1' & _ & _ & Hsum).
  rewrite E1 in E1'. injection E1' as Ed <-. exists d, c1. unfold evictable_size, protected_size.
  split; [done|]. split; [done|]. lia.
Qed.

(** In every reachable cache the counters are exact: [evictable_size] and
    [protected_size] are the key lengths of the unlocked and of the locked
    nodes below the root, together the [total_size] a traversal counts; the
    evictable leaves are exactly the unlocked nodes without children; and a
    node's lock count is the number of locks held in its subtree. *)
Theorem reachable_accounting c H :
  reachable clock cfg c H →
  evictable_size c = msum (λ n x, if decide (n = root_node c) then 0
                                  else if lock_ref x =? 0 then klen (nkey x) else 0) (nodes c) ∧
  protected_size c = msum (λ n x, if decide (n = root_node c) then 0
                                  else if lock_ref x =? 0 then 0 else klen (nkey x)) (nodes c) ∧
  total_size c = Ok (evictable_size c + protected_size c) ∧
  (∀ n, n ∈ evictable_leaves c ↔
     n ≠ root_node c ∧ ∃ x, nodes c !! n = Some x ∧ lock_ref x = 0 ∧ children x = ∅) ∧
  (∀ n x, nodes c !! n = Some x → n ≠ root_node c →
     lock_ref x = H n + msum (λ _ k, from_option lock_ref 0 (nodes c !! k)) (children x)).
Proof.
  intros [(P & V & Hinv) HH]%reachable_inv. unfold evictable_size, protected_size.
  pose proof (ci_ev _ _ _ _ _ _ Hinv) as E1. pose proof (ci_pr _ _ _ _ _ _ Hinv) as E2. simpl in E1, E2.
  unfold msum in E1, E2. rewrite map_fold_fmap in E1, E2.
  split; [done|]. split; [done|]. split; [by eapply total_size_inv|]. split.
  - intros n. split.
    + intros Hn. destruct (leaf_lookup_inv cfg Hps _ _ _ _ n Hinv Hn) as (x & ? & ? & ? & ?). eauto.
    + intros (Hr & x & Hx & Hl & Hc). by apply (leaf_intro cfg Hps c P V H n x).
  - intros n x Hx Hr.
    destruct (ci_node _ _ _ _ _ _ Hinv _ _ (core_lookup _ _ _ Hx) Hr) as [_ _ _ Hl]. simpl in Hl.
    rewrite Hl. f_equal. unfold child_locks. simpl. apply msum_ext. intros k m _.
    unfold lock_of. rewrite lookup_fmap. by destruct (nodes c !! m).
Qed.
End theorems.

(** ** A run

    Pages of two tokens, least recently used first: two keys that share a page
    are inserted, the second is locked. *)
Module Run.
Definition clk (n : nat) : Z := Z.of_nat n.
Definition cfg : cache_config := mkConfig false 2 false LRUStrategy.
Definition k1 : RadixKey := RadixKey_init [1; 2; 3; 4] None false None None.
Definition k2 : RadixKey := RadixKey_init [1; 2; 5; 6; 7] None false None None.
Definition c0 : RadixCache := reset clk (mkCache ∅ 0 0 0 0 0 ∅ []).

Definition state {A} (r : result (A * RadixCache)) : RadixCache :=
  match r with Ok (_, c) => c | Raise _ => c0 end.

Definition c1 : RadixCache := state (insert clk cfg k1 (Some [10; 11; 12; 13]) None 0 c0).
Definition c2 : RadixCache := state (insert clk cfg k2 (Some [20; 21; 22; 23; 24]) None 0 c1).
Definition c3 : RadixCache := state (inc_lock_ref cfg 3%nat c2).

Lemma reach0 : reachable clk cfg c0 (λ _, 0).
Proof. constructor. Qed.

Lemma reach1 : reachable clk cfg c1 (λ _, 0).
Proof.
  eapply reach_step; [apply reach0|].
  apply (step_insert _ _ _ _ k1 (Some [10; 11; 12; 13]) None 0 (mkInsert 0 (Some 1%nat)));
    [by split|by vm_compute|by vm_compute].
Qed.

Lemma reach2 : reachable clk cfg c2 (λ _, 0).
Proof.
  eapply reach_step; [apply reach1|].
  apply (step_insert _ _ _ _ k2 (Some [20; 21; 22; 23; 24]) None 0 (mkInsert 2 (Some 3%nat)));
    [by split|by vm_compute|by vm_compute].
Qed.

Lemma step3 : step clk cfg c2 (λ _, 0) c3 (hold (λ _, 0) 3%nat 1).
Proof. apply (step_inc _ _ _ _ _ (-4)); [by vm_compute; eexists|by vm_compute]. Qed.

Lemma reach3 : reachable clk cfg c3 (hold (λ _, 0) 3%nat 1).
Proof. eapply reach_step; [apply reach2|apply step3]. Qed.
End Run.

Lemma match_prefix_longest_cached_witness :
  ∃ r c' vs, match_prefix Run.clk Run.cfg Run.k1 Run.c2 = Ok (r, c') ∧
    path_device_indices (last_device_node r) c' = Ok vs ∧ zlen vs = 4.
Proof.
  destruct (match_prefix_longest_cached Run.clk Run.cfg ltac:(done) ltac:(done) Run.c2 (λ _, 0) Run.k1
    Run.reach2 ltac:(by split)) as (r & c' & vs & E & _ & _ & Hv & Hl & _).
  exists r, c', vs. split; [exact E|]. split; [exact Hv|]. rewrite Hl.
  apply (f_equal (λ x, match x with Ok (r, _) => device_prefix_len r | Raise _ => 0 end)) in E.
  vm_compute in E. symmetry. exact E.
Defined.

Lemma insert_extends_cached_witness :
  ∃ j n c' full,
    insert Run.clk Run.cfg Run.k2 (Some [20; 21; 22; 23; 24]) None 0 Run.c1 = Ok (mkInsert j (Some n), c') ∧
    j = 2 ∧ path_device_indices n c' = Ok full ∧ zlen full = 4.
Proof.
  destruct (insert_extends_cached Run.clk Run.cfg ltac:(done) ltac:(done) Run.c1 (λ _, 0) Run.k2
    (Some [20; 21; 22; 23; 24]) None 0 Run.reach1 ltac:(by split) ltac:(by vm_compute))
    as (j & n & c' & full & E & _ & Hf & Hl & _).
  exists j, n, c', full. split; [exact E|]. split; [|split; [exact Hf|rewrite Hl; by vm_compute]].
  apply (f_equal (λ x, match x with Ok (r, _) => prefix_len r | Raise _ => 0 end)) in E.
  vm_compute in E. symmetry. exact E.
Defined.

Lemma insert_then_match_witness :
  ∃ j n c' r c'',
    insert Run.clk Run.cfg Run.k2 (Some [20; 21; 22; 23; 24]) None 0 Run.c1 = Ok (mkInsert j (Some n), c') ∧
    match_prefix Run.clk Run.cfg Run.k2 c' = Ok (r, c'') ∧ device_prefix_len r = 4.
Proof.
  destruct (insert_then_match Run.clk Run.cfg ltac:(done) ltac:(done) Run.c1 (λ _, 0) Run.k2
    (Some [20; 21; 22; 23; 24]) None 0 Run.reach1 ltac:(by split) ltac:(by vm_compute))
    as (j & n & c' & r & c'' & full & E1 & E2 & E3 & _).
  exists j, n, c', r, c''. split; [exact E1|]. split; [exact E2|]. rewrite E3. by vm_compute.
Defined.

Lemma held_path_stable_witness :
  let c' := Run.state (evict Run.cfg 100 (elements (evictable_leaves Run.c3)) Run.c3) in
  is_Some (nodes c' !! 3%nat) ∧ path_device_indices 3%nat c' = Ok [10; 11; 22; 23].
Proof.
  intros c'. assert (step Run.clk Run.cfg Run.c3 (hold (λ _, 0) 3%nat 1) c' (hold (λ _, 0) 3%nat 1)) as Hs.
  { apply (step_evict _ _ _ _ 100 (elements (evictable_leaves Run.c3)) (2, [[12; 13]])); [done|by vm_compute]. }
  destruct (held_path_stable Run.clk Run.cfg ltac:(done) ltac:(done) _ _ _ _ 3%nat Run.reach3 Hs
    ltac:(done) ltac:(done)) as (H1 & _ & H2).
  split; [exact H1|]. rewrite H2. by vm_compute.
Defined.

Lemma evict_frees_enough_witness :
  ∃ tr c', evict Run.cfg 1 (elements (evictable_leaves Run.c3)) Run.c3 = Ok (freed_len tr, tr.*2, c') ∧
    1 ≤ freed_len tr.
Proof.
  destruct (evict_frees_enough Run.clk Run.cfg ltac:(done) ltac:(done) 1
    (elements (evictable_leaves Run.c3)) Run.c3 _ Run.reach3 ltac:(done)) as (tr & c' & E & _ & Hmin & _).
  exists tr, c'. split; [exact E|]. etrans; [|exact Hmin]. by vm_compute.
Defined.

Lemma lock_unlock_identity_witness :
  ∃ d c1, inc_lock_ref Run.cfg 3%nat Run.c2 = Ok (d, c1) ∧ dec_lock_ref Run.cfg 3%nat c1 = Ok (- d, Run.c2).
Proof.
  destruct (lock_unlock_identity Run.clk Run.cfg ltac:(done) ltac:(done) Run.c2 _ 3%nat Run.reach2
    ltac:(by vm_compute; eexists)) as (d & c1 & E1 & E2 & _).
  exists d, c1. split; [exact E1|exact E2].
Defined.

Lemma reachable_accounting_witness :
  evictable_size Run.c3 = 2 ∧ total_size Run.c3 = Ok 6.
Proof.
  destruct (reachable_accounting Run.clk Run.cfg ltac:(done) ltac:(done) Run.c3 _ Run.reach3) as (E & _ & Et & _).
  split; [rewrite E; by vm_compute|rewrite Et; by vm_compute].
Defined.
