(* ===== verification/TokenAllocator.v ===== *)
(** * Slot allocators ([mem_cache/allocator/base.py], [token.py], [mamba.py])

    The token allocator hands out single KV slots from a free list; frees go to
    the free list, to a list of released slots that is merged and sorted when
    an allocation runs short ([need_sort]), or wait in a group until
    [free_group_end].  [PagePool] is what the other components rely on: which
    pages are in use, and that freeing a row segment gives its pages back. *)
From S2P Require Import Prelude.

(** ** Tensors *)

(** [torch.arange(1, n + 1)]. *)
Definition arange1 (n : Z) : list Z := seqZ 1 n.

(** [torch.sort(l)[0]]. *)
Definition tsort (l : list Z) : list Z := merge_sort Z.le l.

Lemma tsort_perm l : tsort l ≡ₚ l.
Proof. apply merge_sort_Permutation. Qed.

(** ** The interface the cache uses *)

(** The pages of a row segment: every [ps]-th slot names one. *)
Fixpoint every_nth (fuel : nat) (ps : nat) (l : list Z) : list Z :=
  match fuel, l with
  | S fuel, x :: _ => x :: every_nth fuel ps (drop ps l)
  | _, _ => []
  end.

(** [free_index[::ps] // ps]. *)
Definition segment_pages (ps : Z) (seg : list Z) : list Z :=
  (λ x, x / ps) <$> every_nth (length seg) (Z.to_nat ps) seg.

(** An allocator of pages: [owns a used] says that the pages of [used] are the
    ones handed out; [free_segment] of one of them gives it back. *)
Class PagePool (A : Type) := {
  pool_page_size : A → Z;
  pool_available : A → Z;
  pool_free_segment : A → list Z → Z → result A;
  owns : A → list Z → Prop;
  owns_perm : ∀ a used used', used ≡ₚ used' → owns a used → owns a used';
  owns_nodup : ∀ a used, owns a used → NoDup used;
  pool_page_pos : ∀ a used, owns a used → 0 < pool_page_size a;
  free_segment_owns : ∀ a seg start used,
    owns a (segment_pages (pool_page_size a) seg ++ used) → start mod pool_page_size a = 0 →
    ∃ a', pool_free_segment a seg start = Ok a' ∧ owns a' used ∧
          pool_page_size a' = pool_page_size a
}.

(** ** The token allocator *)

Module Token.

Record TokenToKVPoolAllocator := mk {
  size : Z;
  need_sort : bool;
  free_pages : list Z;
  release_pages : list Z;
  free_group : option (list (list Z))
}.

Definition clear (a : TokenToKVPoolAllocator) : TokenToKVPoolAllocator :=
  mk (size a) (need_sort a) (arange1 (size a)) [] None.

Definition init (sz : Z) (ns : bool) : TokenToKVPoolAllocator := clear (mk sz ns [] [] None).

Definition available_size (a : TokenToKVPoolAllocator) : Z :=
  zlen (free_pages a) + zlen (release_pages a).

Definition get_all_free_pages (a : TokenToKVPoolAllocator) : list Z :=
  if zlen (release_pages a) =? 0 then free_pages a else free_pages a ++ release_pages a.

Definition merge_and_sort_free (a : TokenToKVPoolAllocator) : TokenToKVPoolAllocator :=
  if 0 <? zlen (release_pages a) then
    mk (size a) (need_sort a) (tsort (free_pages a ++ release_pages a)) [] (free_group a)
  else a.

Definition alloc (a : TokenToKVPoolAllocator) (need_size : Z) :
    option (list Z) * TokenToKVPoolAllocator :=
  let a := if need_sort a && (zlen (free_pages a) <? need_size) then merge_and_sort_free a else a in
  if zlen (free_pages a) <? need_size then (None, a)
  else (Some (pytake (free_pages a) need_size),
        mk (size a) (need_sort a) (pydrop (free_pages a) need_size) (release_pages a) (free_group a)).

Definition free (a : TokenToKVPoolAllocator) (free_index : list Z) : TokenToKVPoolAllocator :=
  if zlen free_index =? 0 then a
  else match free_group a with
       | None =>
           if need_sort a
           then mk (size a) (need_sort a) (free_pages a) (release_pages a ++ free_index) None
           else mk (size a) (need_sort a) (free_pages a ++ free_index) (release_pages a) None
       | Some g => mk (size a) (need_sort a) (free_pages a) (release_pages a) (Some (g ++ [free_index]))
       end.

Definition free_page_ids (a : TokenToKVPoolAllocator) (page_ids : list Z) : TokenToKVPoolAllocator :=
  free a page_ids.

Definition free_group_begin (a : TokenToKVPoolAllocator) : result TokenToKVPoolAllocator :=
  assert! bool_decide (free_group a = None) in
  Ok (mk (size a) (need_sort a) (free_pages a) (release_pages a) (Some [])).

Definition free_group_end (a : TokenToKVPoolAllocator) : TokenToKVPoolAllocator :=
  let pending := free_group a in
  let a := mk (size a) (need_sort a) (free_pages a) (release_pages a) None in
  match pending with
  | Some ((_ :: _) as g) => free a (mjoin g)
  | _ => a
  end.

(** [free_segment] of the base class, at [page_size] 1. *)
Definition free_segment (a : TokenToKVPoolAllocator) (free_index : list Z) (start_pos : Z) :
    result TokenToKVPoolAllocator :=
  assert! start_pos mod 1 =? 0 in Ok (free a free_index).

Definition resize (a : TokenToKVPoolAllocator) (max_total_num_tokens : Z) : TokenToKVPoolAllocator :=
  clear (mk max_total_num_tokens (need_sort a) (free_pages a) (release_pages a) (free_group a)).

(** ** Conservation *)

(** Slots waiting in an open group. *)
Definition pending (a : TokenToKVPoolAllocator) : list Z := mjoin (default [] (free_group a)).

(** Every slot is free, released, waiting in the group or used, and only one. *)
Record wf (a : TokenToKVPoolAllocator) (used : list Z) : Prop := {
  wf_part : free_pages a ++ release_pages a ++ pending a ++ used ≡ₚ arange1 (size a);
  wf_release : need_sort a = false → release_pages a = [];
  wf_group : ∀ g, free_group a = Some g → Forall (λ l, l ≠ []) g
}.

Lemma wf_clear a : wf (clear a) [].
Proof. split; [by rewrite !app_nil_r|done|done]. Qed.

Lemma wf_nodup a used : wf a used → NoDup (free_pages a ++ release_pages a ++ pending a ++ used).
Proof. intros [-> _ _]. apply NoDup_seqZ. Qed.

Lemma wf_merge a used : wf a used → wf (merge_and_sort_free a) used.
Proof.
  intros [Hp Hr Hg]. unfold merge_and_sort_free. zbool; [|by split]. split; simpl; try done.
  change (pending _) with (pending a). rewrite tsort_perm. by rewrite <- Hp, <- app_assoc.
Qed.

Lemma merge_release a : release_pages (merge_and_sort_free a) = [].
Proof.
  unfold merge_and_sort_free. zbool; [done|]. pose proof (zlen_nonneg (release_pages a)).
  apply zlen_nil_inv. lia.
Qed.

Lemma merge_available a :
  zlen (free_pages (merge_and_sort_free a)) = available_size a.
Proof.
  unfold merge_and_sort_free, available_size. pose proof (zlen_nonneg (release_pages a)). zbool.
  - simpl. unfold zlen. rewrite (Permutation_length (tsort_perm _)), length_app. lia.
  - lia.
Qed.

(** The state [alloc] takes slots from. *)
Lemma alloc_prep a need used :
  wf a used →
  let a1 := if need_sort a && (zlen (free_pages a) <? need) then merge_and_sort_free a else a in
  wf a1 used ∧ available_size a1 = available_size a ∧
  (zlen (free_pages a1) < need ↔ available_size a < need) ∧ free_group a1 = free_group a.
Proof.
  intros Hwf. pose proof (zlen_nonneg (release_pages a)) as H0. cbv zeta.
  destruct (need_sort a) eqn:Es; simpl.
  - destruct (Z.ltb_spec (zlen (free_pages a)) need) as [Hlt|Hge].
    + pose proof (merge_available a) as E. split; [by apply wf_merge|].
      unfold available_size at 1. rewrite merge_release, E. unfold zlen at 1. simpl.
      split; [lia|]. split; [done|]. unfold merge_and_sort_free. by destruct (_ <? _).
    + split; [done|]. split; [done|]. split; [unfold available_size; lia|done].
  - split; [done|]. split; [done|]. split; [|done]. unfold available_size.
    rewrite (wf_release _ _ Hwf Es). unfold zlen at 3. simpl. lia.
Qed.

Lemma alloc_spec a need used :
  wf a used → 0 ≤ need →
  match alloc a need with
  | (Some sel, a') => need ≤ available_size a ∧ zlen sel = need ∧ wf a' (sel ++ used) ∧
      available_size a' = available_size a - need ∧ free_group a' = free_group a
  | (None, a') => available_size a < need ∧ wf a' used ∧ available_size a' = available_size a
  end.
Proof.
  intros Hwf Hn. pose proof (alloc_prep a need used Hwf) as (Hwf1 & Hav & Hlt & Hg).
  unfold alloc. set (a1 := if _ && _ then _ else _) in *.
  destruct (Z.ltb_spec (zlen (free_pages a1)) need) as [H1|H1].
  - apply Hlt in H1. done.
  - assert (need ≤ available_size a) by lia.
    destruct Hwf1 as [Hp Hr Hg1]. split; [done|]. split; [rewrite zlen_pytake by done; lia|].
    split; [split; simpl; try done|].
    + rewrite <- Hp. unfold pending at 1. simpl. fold (pending a1).
      assert (pytake (free_pages a1) need ++ pydrop (free_pages a1) need = free_pages a1) as E
        by by apply pytake_pydrop.
      rewrite <- E at 3. set (t := pytake _ _). set (d := pydrop _ _). set (r := release_pages a1).
      set (q := pending a1). solve_Permutation.
    + split; [|done]. rewrite <- Hav. unfold available_size. simpl. rewrite zlen_pydrop by done. lia.
Qed.

Lemma free_spec a fr used :
  wf a (fr ++ used) → wf (free a fr) used.
Proof.
  intros [Hp Hr Hg]. unfold free. destruct (Z.eqb_spec (zlen fr) 0) as [E|E].
  { apply zlen_nil_inv in E. subst fr. by split. }
  assert (fr ≠ []) as Hne by (intros ->; done). unfold pending in Hp.
  destruct (free_group a) as [g|] eqn:Eg; simpl in Hp.
  - split; simpl; [|done|].
    + unfold pending. simpl. rewrite <- Hp, join_app. simpl. rewrite app_nil_r.
      set (q := mjoin g). solve_Permutation.
    + intros g' [= <-]. apply Forall_app. split; [by apply Hg|]. by constructor.
  - destruct (need_sort a) eqn:Es; split; simpl; try done.
    + rewrite <- Hp, <- app_assoc. done.
    + unfold pending. simpl. rewrite <- Hp. set (r := release_pages a). solve_Permutation.
Qed.

Lemma free_group_end_spec a used : wf a used → wf (free_group_end a) used.
Proof.
  intros [Hp Hr Hg]. unfold free_group_end. unfold pending in Hp.
  destruct (free_group a) as [[|l g]|] eqn:Eg; simpl in Hp.
  - by split.
  - apply free_spec. split; simpl; [|done|done]. rewrite <- Hp. unfold pending. simpl. done.
  - by split.
Qed.

Lemma free_group_begin_spec a used :
  wf a used →
  match free_group_begin a with
  | Ok a' => free_group a = None ∧ wf a' used
  | Raise e => free_group a ≠ None ∧ e = AssertionError
  end.
Proof.
  intros [Hp Hr Hg]. unfold free_group_begin. case_bool_decide as E; simpl; [|done].
  split; [done|]. unfold pending in Hp. rewrite E in Hp. split; simpl; [done|done|].
  intros g [= <-]. constructor.
Qed.

(** ** Runs *)

(** One call by a client; a client frees slots it was given. *)
Inductive step : TokenToKVPoolAllocator → list Z → TokenToKVPoolAllocator → list Z → Prop :=
  | step_alloc a used need sel a' :
      0 ≤ need → alloc a need = (Some sel, a') → step a used a' (sel ++ used)
  | step_alloc_none a used need a' :
      0 ≤ need → alloc a need = (None, a') → step a used a' used
  | step_free a used fr used' :
      used ≡ₚ fr ++ used' → step a used (free a fr) used'
  | step_begin a used a' : free_group_begin a = Ok a' → step a used a' used
  | step_end a used : step a used (free_group_end a) used
  | step_merge a used : step a used (merge_and_sort_free a) used.

Inductive reachable : TokenToKVPoolAllocator → list Z → Prop :=
  | reach_init sz ns : reachable (init sz ns) []
  | reach_step a used a' used' :
      reachable a used → step a used a' used' → reachable a' used'.

Lemma wf_perm a used used' : used ≡ₚ used' → wf a used → wf a used'.
Proof. intros E [Hp Hr Hg]. split; [by rewrite <- E|done|done]. Qed.

Lemma reachable_wf a used : reachable a used → wf a used.
Proof.
  induction 1 as [sz ns|a used a' used' _ IH Hs]; [apply wf_clear|].
  destruct Hs as [a used need sel a' Hn E|a used need a' Hn E|a used fr used' Hu|a used a' E|a used|a used].
  - pose proof (alloc_spec a need used IH Hn) as Hs. rewrite E in Hs. apply Hs.
  - pose proof (alloc_spec a need used IH Hn) as Hs. rewrite E in Hs. apply Hs.
  - apply free_spec. by eapply wf_perm.
  - pose proof (free_group_begin_spec a used IH) as Hs. rewrite E in Hs. apply Hs.
  - by apply free_group_end_spec.
  - by apply wf_merge.
Qed.

(** After any sequence of allocations, frees, free groups and merges, the
    free, released, waiting and used slots together are exactly 1..size, each
    once: none is lost, none is handed out twice, slot 0 never; and [alloc]
    answers [None] exactly when fewer slots than asked are available, otherwise
    it hands out as many unused ones as asked. *)
Theorem token_slots_conserved a used need :
  reachable a used → 0 ≤ need →
  free_pages a ++ release_pages a ++ pending a ++ used ≡ₚ arange1 (size a) ∧
  match alloc a need with
  | (None, a') => available_size a < need ∧ available_size a' = available_size a
  | (Some sel, a') => zlen sel = need ∧ NoDup (sel ++ used) ∧ Forall (λ i, 1 ≤ i ≤ size a) sel ∧
      available_size a' = available_size a - need
  end.
Proof.
  intros Hr Hn. apply reachable_wf in Hr as Hwf. split; [apply Hwf|].
  pose proof (alloc_spec a need used Hwf Hn) as Hs. destruct (alloc a need) as [[sel|] a'] eqn:Ea; [|tauto].
  destruct Hs as (Hle & Hl & Hwf' & Hav & _). split; [done|].
  pose proof (wf_nodup _ _ Hwf') as Hnd. split; [|split; [|done]].
  - do 3 apply NoDup_app in Hnd as (_ & _ & Hnd). done.
  - apply Forall_forall. intros i Hi.
    assert (size a' = size a) as <-.
    { unfold alloc in Ea. revert Ea. destruct (_ && _), (_ <? _); intros [= _ <-];
        unfold merge_and_sort_free; simpl; try done; by destruct (_ <? _). }
    assert (i ∈ arange1 (size a')) as Hin.
    { rewrite <- (wf_part _ _ Hwf'). rewrite !elem_of_app. tauto. }
    unfold arange1 in Hin. apply elem_of_seqZ in Hin. lia.
Qed.

Lemma token_slots_conserved_witness :
  let a := init 4 true in
  fst (alloc (snd (alloc a 2)) 3) = None.
Proof.
  assert (reachable (snd (alloc (init 4 true) 2)) [1; 2]) as Hr.
  { eapply reach_step; [apply (reach_init 4 true)|].
    by apply (step_alloc _ [] 2 [1; 2]). }
  destruct (token_slots_conserved _ _ 3 Hr ltac:(done)) as [_ H].
  destruct (alloc (snd (alloc (init 4 true) 2)) 3) as [[sel|] a'] eqn:E; [|done].
  vm_compute in E. discriminate E.
Defined.

(** ** The interface *)

Lemma every_nth_1 l fuel : (length l ≤ fuel)%nat → every_nth fuel 1 l = l.
Proof.
  revert l. induction fuel as [|fuel IH]; intros [|x l] Hl; simpl in *; try done; [lia|].
  f_equal. rewrite drop_0. apply IH. lia.
Qed.

Lemma segment_pages_1 l : segment_pages 1 l = l.
Proof.
  unfold segment_pages. rewrite every_nth_1 by done. rewrite <- (list_fmap_id l) at 2.
  apply list_fmap_ext. intros i x _. apply Z.div_1_r.
Qed.

#[export] Program Instance token_pool : PagePool TokenToKVPoolAllocator := {
  pool_page_size _ := 1;
  pool_available := available_size;
  pool_free_segment := free_segment;
  owns a used := wf a used
}.
Next Obligation. intros a used used' E H. by eapply wf_perm. Qed.
Next Obligation.
  intros a used Hwf. pose proof (wf_nodup _ _ Hwf) as Hnd.
  by do 3 apply NoDup_app in Hnd as (_ & _ & Hnd).
Qed.
Next Obligation. done. Qed.
Next Obligation.
  intros a seg start used Hwf _. cbv beta in Hwf. rewrite segment_pages_1 in Hwf. unfold free_segment. rewrite Z.mod_1_r. simpl.
  eexists. split; [done|]. split; [by apply free_spec|done].
Qed.
End Token.

(** ** The slots of the Mamba state pool *)

Module Mamba.

Record MambaSlotAllocator := mk {
  size : Z;
  free_slots : list Z;
  _alloc_iter : option (list Z)
}.

(** [clear] leaves an open group alone, as the code does. *)
Definition clear (a : MambaSlotAllocator) : MambaSlotAllocator :=
  mk (size a) (arange1 (size a)) (_alloc_iter a).

Definition init (sz : Z) : MambaSlotAllocator := clear (mk sz [] None).

Definition available_size (a : MambaSlotAllocator) : Z := zlen (free_slots a).

Definition schedulable_available_size (a : MambaSlotAllocator) : Z := available_size a.

Definition _do_alloc (a : MambaSlotAllocator) (need_size : Z) : option (list Z) * MambaSlotAllocator :=
  if zlen (free_slots a) <? need_size then (None, a)
  else (Some (pytake (free_slots a) need_size),
        mk (size a) (pydrop (free_slots a) need_size) (_alloc_iter a)).

Definition free (a : MambaSlotAllocator) (free_index : list Z) : MambaSlotAllocator :=
  if zlen free_index =? 0 then a
  else mk (size a) (free_slots a ++ free_index) (_alloc_iter a).

Definition alloc_group_begin (a : MambaSlotAllocator) (num_reqs : Z) : MambaSlotAllocator :=
  let a := mk (size a) (free_slots a) None in
  if 0 <? num_reqs then
    match _do_alloc a num_reqs with
    | (Some r, a) => mk (size a) (free_slots a) (Some r)
    | (None, a) => a
    end
  else a.

Definition alloc_group_end (a : MambaSlotAllocator) : MambaSlotAllocator :=
  let a := match _alloc_iter a with
           | Some ((_ :: _) as remaining) => free a remaining
           | _ => a
           end in
  mk (size a) (free_slots a) None.

Definition alloc (a : MambaSlotAllocator) (need_size : Z) : option (list Z) * MambaSlotAllocator :=
  match _alloc_iter a with
  | Some (slot :: it) =>
      if need_size =? 1 then (Some [slot], mk (size a) (free_slots a) (Some it))
      else _do_alloc a need_size
  | _ => _do_alloc a need_size
  end.

(** Slots set aside for the open group. *)
Definition reserved (a : MambaSlotAllocator) : list Z := default [] (_alloc_iter a).

Definition wf (a : MambaSlotAllocator) (used : list Z) : Prop :=
  free_slots a ++ reserved a ++ used ≡ₚ arange1 (size a).

(** A client opens a group only after it closed the previous one. *)
Inductive step : MambaSlotAllocator → list Z → MambaSlotAllocator → list Z → Prop :=
  | step_alloc a used need sel a' :
      0 ≤ need → alloc a need = (Some sel, a') → step a used a' (sel ++ used)
  | step_free a used fr used' : used ≡ₚ fr ++ used' → step a used (free a fr) used'
  | step_begin a used n : reserved a = [] → step a used (alloc_group_begin a n) used
  | step_end a used : step a used (alloc_group_end a) used.

Inductive reachable : MambaSlotAllocator → list Z → Prop :=
  | reach_init sz : reachable (init sz) []
  | reach_step a used a' used' :
      reachable a used → step a used a' used' → reachable a' used'.

Lemma do_alloc_spec a need used :
  wf a used → 0 ≤ need →
  match _do_alloc a need with
  | (Some sel, a') => need ≤ available_size a ∧ zlen sel = need ∧ wf a' (sel ++ used) ∧
      _alloc_iter a' = _alloc_iter a ∧ size a' = size a
  | (None, a') => available_size a < need ∧ a' = a
  end.
Proof.
  intros Hwf Hn. unfold _do_alloc, available_size. zbool; [done|].
  split; [done|]. split; [rewrite zlen_pytake by done; lia|]. split; [|done].
  unfold wf, reserved in *. simpl. rewrite <- Hwf.
  rewrite <- (pytake_pydrop (free_slots a) need) at 3 by done.
  set (t := pytake _ _). set (d := pydrop _ _). set (r := default [] _). solve_Permutation.
Qed.

Lemma mamba_free_spec a fr used : wf a (fr ++ used) → wf (free a fr) used.
Proof.
  intros Hwf. unfold free. destruct (Z.eqb_spec (zlen fr) 0) as [E|E].
  { apply zlen_nil_inv in E. by subst fr. }
  unfold wf, reserved in *. simpl. rewrite <- Hwf. set (r := default [] _). solve_Permutation.
Qed.

Lemma mamba_alloc_spec a need used :
  wf a used → 0 ≤ need →
  match alloc a need with
  | (Some sel, a') => zlen sel = need ∧ wf a' (sel ++ used)
  | (None, a') => available_size a < need ∧ a' = a
  end.
Proof.
  intros Hwf Hn. pose proof (do_alloc_spec a need used Hwf Hn) as Hs. unfold alloc.
  destruct (_alloc_iter a) as [[|slot it]|] eqn:Ei;
    [destruct (_do_alloc a need) as [[]]; tauto| |destruct (_do_alloc a need) as [[]]; tauto].
  destruct (Z.eqb_spec need 1) as [->|]; [|destruct (_do_alloc a need) as [[]]; tauto].
  split; [done|]. unfold wf, reserved in *. rewrite Ei in Hwf. simpl in *. rewrite <- Hwf.
  set (f := free_slots a). solve_Permutation.
Qed.

Lemma group_begin_spec a used n :
  wf a used → reserved a = [] → wf (alloc_group_begin a n) used.
Proof.
  intros Hwf Hr. unfold alloc_group_begin. unfold wf in Hwf. rewrite Hr in Hwf. simpl in Hwf.
  destruct (Z.ltb_spec 0 n) as [Hn|]; [|done].
  pose proof (do_alloc_spec (mk (size a) (free_slots a) None) n used) as Hs.
  destruct (_do_alloc _ n) as [[sel|] a']; [|destruct Hs as [_ ->]; [done|lia|done]].
  destruct Hs as (_ & _ & Hwf' & Hi & Hsz); [done|lia|]. unfold wf, reserved in *. simpl in *.
  rewrite Hi in Hwf'. simpl in Hwf'. done.
Qed.

Lemma group_end_spec a used : wf a used → wf (alloc_group_end a) used.
Proof.
  intros Hwf. unfold alloc_group_end. destruct (_alloc_iter a) as [[|x r]|] eqn:Ei;
    unfold wf, reserved in *; rewrite Ei in Hwf; simpl in *; try done.
  unfold free. simpl. rewrite <- Hwf. by rewrite <- app_assoc.
Qed.

(** The slots of the Mamba pool are conserved: free slots, slots set aside
    for the open group and slots in use are together 1..size, each once, after
    any sequence of calls (a group is opened only when the previous one was
    closed), so [alloc] never hands out a slot in use; it fails only when the
    free list is too short. *)
Theorem mamba_slots_conserved a used need :
  reachable a used → 0 ≤ need →
  free_slots a ++ reserved a ++ used ≡ₚ arange1 (size a) ∧
  match alloc a need with
  | (Some sel, a') => zlen sel = need ∧ NoDup (sel ++ used)
  | (None, a') => available_size a < need ∧ a' = a
  end.
Proof.
  intros Hr Hn. assert (wf a used) as Hwf.
  { induction Hr as [sz|a used a' used' _ IH Hs]; [unfold wf; simpl; by rewrite app_nil_r|].
    destruct Hs as [a used nd sel a' Hnd E|a used fr used' Hu|a used n Hres|a used].
    - pose proof (mamba_alloc_spec a nd used IH Hnd) as Hs. rewrite E in Hs. apply Hs.
    - apply mamba_free_spec. unfold wf in *. by rewrite <- Hu.
    - by apply group_begin_spec.
    - by apply group_end_spec. }
  split; [done|]. pose proof (mamba_alloc_spec a need used Hwf Hn) as Hs.
  destruct (alloc a need) as [[sel|] a']; [|done]. destruct Hs as [Hl Hwf']. split; [done|].
  assert (NoDup (free_slots a' ++ reserved a' ++ sel ++ used)) as Hnd.
  { unfold wf in Hwf'. rewrite Hwf'. apply NoDup_seqZ. }
  by do 2 apply NoDup_app in Hnd as (_ & _ & Hnd).
Qed.

Lemma mamba_slots_conserved_witness :
  fst (alloc (alloc_group_begin (init 4) 2) 1) = Some [1].
Proof.
  assert (reachable (alloc_group_begin (init 4) 2) []) as Hr.
  { eapply reach_step; [apply (reach_init 4)|]. by constructor. }
  destruct (mamba_slots_conserved _ _ 1 Hr ltac:(done)) as [_ H].
  destruct (alloc (alloc_group_begin (init 4) 2) 1) as [[sel|] a'] eqn:E; vm_compute in E; [|discriminate E].
  injection E as <- _. done.
Defined.
End Mamba.
