(* ===== verification/PagedKernels.v ===== *)
(** * Placement of extended and decoded tokens

    Three routines place the new tokens of a batch on pages: a vectorised one
    ([alloc_extend_naive], [alloc_decode_naive] of [allocator/paged.py]), a
    Triton kernel with one program per request
    ([kernels/ops/memory/allocator.py]) and a HIP kernel with one thread per
    request ([kernels/aot/csrc/kvcacheio/transfer.cu]).  A reference
    ([place_batch]) places one request after the other; all routines are shown
    equal to it, the kernels for every order in which programs or threads run. *)
From S2P Require Import Prelude.

(** ** Page counts ([utils/common.py: get_num_new_pages]) *)

Definition get_num_new_pages (seq_lens : list Z) (page_size : Z) (prefix_lens : option (list Z))
    (decode : bool) : result Z :=
  match prefix_lens with
  | Some prefix_lens =>
      if decode then Ok (zsum ((λ s, if s mod page_size =? 1 then 1 else 0) <$> seq_lens))
      else Ok (zsum (zip_with (λ s p, (s + page_size - 1) / page_size - (p + page_size - 1) / page_size)
                       seq_lens prefix_lens))
  | None =>
      assert! decode in
      Ok (zsum ((λ s, if s mod page_size =? 1 then 1 else 0) <$> seq_lens))
  end.

(** ** Tensor operations *)

Fixpoint cumsum_from (a : Z) (l : list Z) : list Z :=
  match l with [] => [] | x :: l => (a + x) :: cumsum_from (a + x) l end.
Definition cumsum : list Z → list Z := cumsum_from 0.

(** [torch.searchsorted(l, j, right=True)] on an ascending [l]. *)
Fixpoint searchsorted_right (l : list Z) (j : Z) : nat :=
  match l with
  | [] => O
  | e :: l => if e <=? j then S (searchsorted_right l j) else O
  end.

Definition clamp (lo hi x : Z) : Z := Z.min (Z.max x lo) hi.

(** [t[i]] at an index in range. *)
Definition at_ (t : list Z) (i : Z) : Z := t !!! Z.to_nat i.

(** ** The vectorised routines *)

Section naive.
Context (page_size : Z).

(** The slot of one token from the gathered data of its request. *)
Definition extend_val (free_pages : list Z)
    (last_loc_g local num1_g num2_g start_new_pages_g end_new_pages_g : Z) : Z :=
  let is_phase1 := local <? num1_g in
  let is_phase2 := negb is_phase1 && (local <? num1_g + num2_g) in
  let val_phase1 := last_loc_g + 1 + local in
  let rel2 := Z.max (local - num1_g) 0 in
  let page_idx2 := clamp 0 (zlen free_pages - 1) (start_new_pages_g + rel2 / page_size) in
  let pos_in_page2 := rel2 mod page_size in
  let val_phase2 := at_ free_pages page_idx2 * page_size + pos_in_page2 in
  let rel3 := Z.max (local - num1_g - num2_g) 0 in
  let page_idx3 := clamp 0 (zlen free_pages - 1) (end_new_pages_g - 1) in
  let val_phase3 := at_ free_pages page_idx3 * page_size + rel3 in
  if is_phase1 then val_phase1 else if is_phase2 then val_phase2 else val_phase3.

Definition alloc_extend_naive (prefix_lens seq_lens last_loc free_pages : list Z)
    (extend_num_tokens : Z) : result (list Z) :=
  let extend_lens := zip_with Z.sub seq_lens prefix_lens in
  let end_pos := cumsum extend_lens in
  let start_pos := zip_with Z.sub end_pos extend_lens in
  if extend_num_tokens =? 0 then Ok []
  else
    let owner j := searchsorted_right end_pos j in
    let local j := j - start_pos !!! owner j in
    let last_loc_g j := last_loc !!! owner j in
    let ceil_prefix := (λ p, (p + page_size - 1) / page_size * page_size) <$> prefix_lens in
    let floor_seq := (λ s, s / page_size * page_size) <$> seq_lens in
    if zlen free_pages =? 0 then
      let ceil_seq := (λ s, (s + page_size - 1) / page_size * page_size) <$> seq_lens in
      assert! bool_decide (ceil_seq = ceil_prefix) in
      Ok ((λ j, last_loc_g j + 1 + local j) <$> seqZ 0 extend_num_tokens)
    else
      let num1 := zip_with Z.sub (zip_with Z.min seq_lens ceil_prefix) prefix_lens in
      let done_after_1 := zip_with (λ pn s, pn =? s) (zip_with Z.add prefix_lens num1) seq_lens in
      let num2 := zip_with (λ (d : bool) v, if d then 0 else v) done_after_1
                    (zip_with Z.sub floor_seq ceil_prefix) in
      let num3 := zip_with (λ (d : bool) v, if d then 0 else v) done_after_1
                    (zip_with Z.sub seq_lens floor_seq) in
      let full_pages := (λ v, v / page_size) <$> num2 in
      let need_extra_page := (λ v, if 0 <? v then 1 else 0) <$> num3 in
      let pages_per_req := zip_with Z.add full_pages need_extra_page in
      let end_new_pages := cumsum pages_per_req in
      let start_new_pages := zip_with Z.sub end_new_pages pages_per_req in
      Ok ((λ j, extend_val free_pages (last_loc_g j) (local j) (num1 !!! owner j) (num2 !!! owner j)
                  (start_new_pages !!! owner j) (end_new_pages !!! owner j))
          <$> seqZ 0 extend_num_tokens).

Definition alloc_decode_naive (seq_lens last_loc free_pages : list Z) (num_new_pages : Z) : list Z :=
  if num_new_pages =? 0 then (λ l, l + 1) <$> last_loc
  else
    let need_new_page := (λ s, if (s - 1) mod page_size =? 0 then 1 else 0) <$> seq_lens in
    let new_page_rank := (λ x, Z.min x (num_new_pages - 1))
                           <$> zip_with Z.sub (cumsum need_new_page) need_new_page in
    let new_page_start := (λ r, at_ free_pages r * page_size) <$> new_page_rank in
    zip_with (λ n v, if n =? 0 then v.2 else v.1) need_new_page
      (zip new_page_start ((λ l, l + 1) <$> last_loc)).
End naive.

(** ** The kernels

    A program is its list of masked stores (address, value).  Lanes a mask
    switches off read [oob], whatever that is. *)

Section kernel.
Context (page_size : Z) (bs_upper : nat) (oob : Z).

(** [tl.load(ptr + load_offset, mask=load_offset <= pid)]. *)
Definition masked_load (t : list Z) (pid : nat) : list Z :=
  (λ l, if (l <=? pid)%nat then t !!! l else oob) <$> seq 0 bs_upper.

Definition BLOCK_EXTEND : Z := 4096.

(** Stores of [arange(0, width)] lanes under a mask. *)
Definition masked_stores (width bound : Z) (addr val : Z → Z) : list (Z * Z) :=
  (λ o, (addr o, val o)) <$> List.filter (λ o, o <? bound) (seqZ 0 width).

Definition alloc_extend_kernel (pre_lens_ptr seq_lens_ptr last_loc_ptr free_page_ptr : list Z)
    (pid : nat) : list (Z * Z) :=
  let seq_lens := masked_load seq_lens_ptr pid in
  let pre_lens := masked_load pre_lens_ptr pid in
  let extend_lens := zip_with Z.sub seq_lens pre_lens in
  let seq_len := seq_lens_ptr !!! pid in
  let pre_len := pre_lens_ptr !!! pid in
  let extend_len := seq_len - pre_len in
  let sum_extend_lens := zsum extend_lens in
  let output_start_loc := sum_extend_lens - extend_len in
  let num_pages_after := (λ s, (s + page_size - 1) / page_size) <$> seq_lens in
  let num_pages_before := (λ s, (s + page_size - 1) / page_size) <$> pre_lens in
  let num_new_pages := zip_with Z.sub num_pages_after num_pages_before in
  let num_page_start_loc_self := (seq_len + page_size - 1) / page_size
                                 - (pre_len + page_size - 1) / page_size in
  let sum_num_new_pages := zsum num_new_pages in
  let new_page_start_loc := sum_num_new_pages - num_page_start_loc_self in
  let last_loc := last_loc_ptr !!! pid in
  let num_part1 := Z.min seq_len ((pre_len + page_size - 1) / page_size * page_size) - pre_len in
  masked_stores page_size num_part1
    (λ o, output_start_loc + o) (λ o, last_loc + 1 + o) ++
  if pre_len + num_part1 =? seq_len then []
  else
    let num_part2 := seq_len / page_size * page_size
                     - (pre_len + page_size - 1) / page_size * page_size in
    let num_blocks := (num_part2 + BLOCK_EXTEND - 1) / BLOCK_EXTEND in
    mjoin ((λ block_id,
      masked_stores BLOCK_EXTEND (num_part2 - block_id * BLOCK_EXTEND)
        (λ o, output_start_loc + num_part1 + (block_id * BLOCK_EXTEND + o))
        (λ o, let offset := block_id * BLOCK_EXTEND + o in
              at_ free_page_ptr (new_page_start_loc + offset / page_size) * page_size
              + offset mod page_size)) <$> seqZ 0 num_blocks) ++
    if pre_len + num_part1 + num_part2 =? seq_len then []
    else
      let num_part3 := seq_len - seq_len / page_size * page_size in
      let start_loc := at_ free_page_ptr (new_page_start_loc + num_page_start_loc_self - 1) in
      masked_stores page_size num_part3
        (λ o, output_start_loc + num_part1 + num_part2 + o)
        (λ o, start_loc * page_size + o).

Definition alloc_decode_kernel (seq_lens_ptr last_loc_ptr free_page_ptr : list Z) (pid : nat) :
    list (Z * Z) :=
  let seq_lens := masked_load seq_lens_ptr pid in
  let pre_lens := imap (λ l s, if (l <=? pid)%nat then s - 1 else s) seq_lens in
  let seq_len := seq_lens_ptr !!! pid in
  let pre_len := seq_len - 1 in
  let num_pages_after := (λ s, (s + page_size - 1) / page_size) <$> seq_lens in
  let num_pages_before := (λ s, (s + page_size - 1) / page_size) <$> pre_lens in
  let num_new_pages := zip_with Z.sub num_pages_after num_pages_before in
  let num_page_start_loc_self := (seq_len + page_size - 1) / page_size
                                 - (pre_len + page_size - 1) / page_size in
  let sum_num_new_pages := zsum num_new_pages in
  let new_page_start_loc := sum_num_new_pages - num_page_start_loc_self in
  if num_page_start_loc_self =? 0 then [(Z.of_nat pid, last_loc_ptr !!! pid + 1)]
  else [(Z.of_nat pid, at_ free_page_ptr new_page_start_loc * page_size)].
End kernel.

(** The output buffer after a list of stores. *)
Definition run_stores (ws : list (Z * Z)) (out : list Z) : list Z :=
  fold_left (λ out w, <[ Z.to_nat w.1 := w.2 ]> out) ws out.

(** A grid launch whose programs run in the given order. *)
Definition launch (prog : nat → list (Z * Z)) (order : list nat) (out : list Z) : list Z :=
  run_stores (mjoin (prog <$> order)) out.

(** ** The HIP kernels ([csrc/kvcacheio/transfer.cu])

    One thread per request, in blocks of 64; a thread is its list of stores.
    Division of C truncates.  The sums are 64 bits wide and do not wrap at the
    sizes of a pool; the last slot of a decode step is 32 bits wide and may. *)

Section hcu.
Context (page_size : Z).

Definition dev_ceil_div (a b : Z) : Z := Z.quot (a + b - 1) b.
Definition safe_min (a b : Z) : Z := if a <? b then a else b.

(** [for (i = 0; i <= pid; i++) sum += f(i)]. *)
Definition sum_upto (f : nat → Z) (pid : nat) : Z := zsum (f <$> seq 0 (S pid)).

(** [for (offset = 0; offset < bound; offset++) out_indices[addr] = val]. *)
Definition for_stores (bound : Z) (addr val : Z → Z) : list (Z * Z) :=
  (λ o, (addr o, val o)) <$> seqZ 0 bound.

Definition launch_alloc_extend_kernel (pre_lens_ptr seq_lens_ptr last_loc_ptr free_page_ptr : list Z)
    (bs : Z) (pid : nat) : list (Z * Z) :=
  if bs <=? Z.of_nat pid then []
  else
    let seq_len := seq_lens_ptr !!! pid in
    let pre_len := pre_lens_ptr !!! pid in
    let extend_len := seq_len - pre_len in
    let sum_extend_lens := sum_upto (λ i, seq_lens_ptr !!! i - pre_lens_ptr !!! i) pid in
    let output_start_loc := sum_extend_lens - extend_len in
    let num_page_start_loc_self := dev_ceil_div seq_len page_size - dev_ceil_div pre_len page_size in
    let sum_num_new_pages :=
      sum_upto (λ i, dev_ceil_div (seq_lens_ptr !!! i) page_size - dev_ceil_div (pre_lens_ptr !!! i) page_size) pid in
    let new_page_start_loc := sum_num_new_pages - num_page_start_loc_self in
    let last_loc := last_loc_ptr !!! pid in
    let num_part1 := safe_min seq_len (dev_ceil_div pre_len page_size * page_size) - pre_len in
    for_stores (safe_min num_part1 page_size) (λ o, output_start_loc + o) (λ o, last_loc + 1 + o) ++
    if pre_len + num_part1 =? seq_len then []
    else
      let num_part2 := Z.quot seq_len page_size * page_size - dev_ceil_div pre_len page_size * page_size in
      for_stores num_part2 (λ o, output_start_loc + num_part1 + o)
        (λ o, at_ free_page_ptr (new_page_start_loc + Z.quot o page_size) * page_size + Z.rem o page_size) ++
      if pre_len + num_part1 + num_part2 =? seq_len then []
      else
        let num_part3 := seq_len - Z.quot seq_len page_size * page_size in
        let last_page_idx := new_page_start_loc + num_page_start_loc_self - 1 in
        let start_loc := at_ free_page_ptr last_page_idx in
        for_stores (safe_min num_part3 page_size) (λ o, output_start_loc + num_part1 + num_part2 + o)
          (λ o, start_loc * page_size + o).

(** The value of a number kept in 32 bits with a sign. *)
Definition to_int32 (x : Z) : Z := (x + 2 ^ 31) mod 2 ^ 32 - 2 ^ 31.

(** [last_loc_ptr] holds 32-bit numbers. *)
Definition launch_alloc_decode_kernel (seq_lens_ptr last_loc_ptr free_page_ptr : list Z)
    (bs : Z) (pid : nat) : list (Z * Z) :=
  if bs <=? Z.of_nat pid then []
  else
    let seq_len := seq_lens_ptr !!! pid in
    let pre_len := seq_len - 1 in
    let num_page_start_loc_self := dev_ceil_div seq_len page_size - dev_ceil_div pre_len page_size in
    let sum_num_new_pages :=
      sum_upto (λ i,
        let other_seq_len := seq_lens_ptr !!! i in
        let other_pre_len := if (i <=? pid)%nat then other_seq_len - 1 else other_seq_len in
        dev_ceil_div other_seq_len page_size - dev_ceil_div other_pre_len page_size) pid in
    let new_page_start_loc := sum_num_new_pages - num_page_start_loc_self in
    if num_page_start_loc_self =? 0 then
      let last_loc := last_loc_ptr !!! pid in
      [(Z.of_nat pid, to_int32 (last_loc + 1))]
    else
      let page := at_ free_page_ptr new_page_start_loc in
      [(Z.of_nat pid, page * page_size)].

(** The threads of a launch. *)
Definition hcu_threads (bs : Z) : list nat :=
  let block_size := 64 in
  let grid_size := Z.quot (bs + block_size - 1) block_size in
  seq 0 (Z.to_nat (grid_size * block_size)).

Definition hcu_alloc_extend_kernel (pre_lens seq_lens last_loc free_page out_indices : list Z) (bs : Z) : list Z :=
  launch (launch_alloc_extend_kernel pre_lens seq_lens last_loc free_page bs) (hcu_threads bs) out_indices.

Definition hcu_alloc_decode_kernel (seq_lens last_loc free_page out_indices : list Z) (bs : Z) : list Z :=
  launch (launch_alloc_decode_kernel seq_lens last_loc free_page bs) (hcu_threads bs) out_indices.
End hcu.

(** ** Reference placement *)

Record req := mkReq { r_prefix : Z; r_seq : Z; r_last : Z }.

Section reference.
Context (ps : Z) (free : list Z).

Definition ext (r : req) : Z := r_seq r - r_prefix r.
Definition new_pages (r : req) : Z := ceil_div (r_seq r) ps - ceil_div (r_prefix r) ps.

(** The slot of position [prefix + t] of a request whose new pages start at
    index [k] of the free list. *)
Definition place (r : req) (k t : Z) : Z :=
  let pos := r_prefix r + t in
  if pos <? ceil_align (r_prefix r) ps then r_last r + 1 + t
  else at_ free (k + (pos / ps - ceil_div (r_prefix r) ps)) * ps + pos mod ps.

Definition place_req (r : req) (k : Z) : list Z := place r k <$> seqZ 0 (ext r).

Fixpoint place_batch (rs : list req) (k : Z) : list Z :=
  match rs with [] => [] | r :: rs => place_req r k ++ place_batch rs (k + new_pages r) end.

Definition sum_ext (rs : list req) : Z := zsum (ext <$> rs).
Definition sum_pages (rs : list req) : Z := zsum (new_pages <$> rs).

(** A batch as the scheduler passes it. *)
Definition batch_ok (rs : list req) : Prop := Forall (λ r, 0 ≤ r_prefix r ≤ r_seq r) rs.
End reference.

(** ** Lemmas *)

Lemma zip_with_fmap_same {A B C D} (f : B → C → D) (g : A → B) (h : A → C) (l : list A) :
  zip_with f (g <$> l) (h <$> l) = (λ x, f (g x) (h x)) <$> l.
Proof. induction l as [|x l IH]; [done|]. rewrite !fmap_cons. simpl. f_equal. exact IH. Qed.

Lemma cumsum_from_lookup a l i :
  (i < length l)%nat → cumsum_from a l !! i = Some (a + zsum (take (S i) l)).
Proof.
  revert a i. induction l as [|x l IH]; intros a i Hi; simpl in Hi; [lia|].
  destruct i as [|i]; simpl; [f_equal; lia|]. rewrite IH by lia. f_equal. simpl. lia.
Qed.

Lemma length_cumsum_from a l : length (cumsum_from a l) = length l.
Proof. revert a. induction l as [|x l IH]; intros a; simpl; [done|]. by rewrite IH. Qed.

Lemma zsum_take_S l i x : l !! i = Some x → zsum (take (S i) l) = zsum (take i l) + x.
Proof. intros H. rewrite (take_S_r _ _ _ H), zsum_app. simpl. lia. Qed.

(** The running sum before entry [i]. *)
Lemma cumsum_sub_total l i :
  (i < length l)%nat → zip_with Z.sub (cumsum l) l !!! i = zsum (take i l).
Proof.
  intros Hi. destruct (lookup_lt_is_Some_2 l i Hi) as [x Hx].
  apply list_lookup_total_correct. rewrite lookup_zip_with. unfold cumsum.
  rewrite cumsum_from_lookup, Hx by done. simpl. f_equal. rewrite (zsum_take_S _ _ _ Hx). lia.
Qed.

Lemma cumsum_total l i : (i < length l)%nat → cumsum l !!! i = zsum (take (S i) l).
Proof. intros Hi. apply list_lookup_total_correct. unfold cumsum. by rewrite cumsum_from_lookup. Qed.

Lemma zsum_take_le l n m :
  Forall (λ x, 0 ≤ x) l → (n ≤ m)%nat → zsum (take n l) ≤ zsum (take m l).
Proof.
  intros Hf Hnm. replace (take n l) with (take n (take m l)) by (rewrite take_take; f_equal; lia).
  rewrite <- (take_drop n (take m l)) at 2. rewrite zsum_app.
  enough (0 ≤ zsum (drop n (take m l))) by lia. apply zsum_nonneg.
  by apply Forall_drop, Forall_take.
Qed.

Lemma searchsorted_from a l i t :
  Forall (λ x, 0 ≤ x) l → (i < length l)%nat → 0 ≤ t < l !!! i →
  searchsorted_right (cumsum_from a l) (a + zsum (take i l) + t) = i.
Proof.
  revert a i. induction l as [|x l IH]; intros a i Hf Hi Ht; simpl in Hi; [lia|].
  apply Forall_cons in Hf as [Hx Hf]. destruct i as [|i]; simpl in *.
  - destruct (Z.leb_spec (a + x) (a + 0 + t)); [lia|done].
  - assert (0 ≤ zsum (take i l)) by (apply zsum_nonneg; by apply Forall_take).
    destruct (Z.leb_spec (a + x) (a + (x + zsum (take i l)) + t)); [|lia]. f_equal.
    replace (a + (x + zsum (take i l)) + t) with (a + x + zsum (take i l) + t) by lia.
    apply IH; [done|lia|done].
Qed.

(** Every position below the total belongs to one entry. *)
Lemma position_split l j :
  Forall (λ x, 0 ≤ x) l → 0 ≤ j < zsum l →
  ∃ i t, (i < length l)%nat ∧ 0 ≤ t < l !!! i ∧ j = zsum (take i l) + t.
Proof.
  revert j. induction l as [|x l IH]; intros j Hf Hj; simpl in Hj; [lia|].
  apply Forall_cons in Hf as [Hx Hf]. destruct (decide (j < x)).
  - exists 0%nat, j. simpl. split; [lia|]. split; [lia|]. lia.
  - destruct (IH (j - x) Hf ltac:(lia)) as (i & t & Hi & Ht & E). exists (S i), t. simpl.
    split; [lia|]. split; [done|]. lia.
Qed.

(** Reading the concatenated placements. *)
Lemma zlen_fmap_seqZ {A} (f : Z → A) n : 0 ≤ n → length (f <$> seqZ 0 n) = Z.to_nat n.
Proof. intros. by rewrite length_fmap, length_seqZ. Qed.

Lemma fmap_seqZ_lookup {A} (f : Z → A) n t :
  0 ≤ t < n → (f <$> seqZ 0 n) !! Z.to_nat t = Some (f t).
Proof.
  intros Ht. rewrite list_lookup_fmap, lookup_seqZ_lt by lia. simpl. do 2 f_equal. lia.
Qed.

Section batch.
Context (ps : Z) (Hps : 0 < ps) (free : list Z).

Lemma batch_ext_nonneg rs : batch_ok rs → Forall (λ x, 0 ≤ x) (ext <$> rs).
Proof.
  intros Hb. apply Forall_fmap. eapply Forall_impl; [exact Hb|]. intros r Hr. cbv beta in Hr. unfold compose, ext. lia.
Qed.

Lemma new_pages_nonneg r : 0 ≤ r_prefix r ≤ r_seq r → 0 ≤ new_pages ps r.
Proof.
  intros Hr. unfold new_pages, ceil_div. enough ((r_prefix r + ps - 1) / ps ≤ (r_seq r + ps - 1) / ps) by lia.
  apply Z.div_le_mono; lia.
Qed.

Lemma batch_pages_nonneg rs : batch_ok rs → Forall (λ x, 0 ≤ x) (new_pages ps <$> rs).
Proof.
  intros Hb. apply Forall_fmap. eapply Forall_impl; [exact Hb|]. intros r Hr. by apply new_pages_nonneg.
Qed.

Lemma length_place_req r k : 0 ≤ ext r → zlen (place_req ps free r k) = ext r.
Proof. intros. unfold zlen, place_req. rewrite zlen_fmap_seqZ by done. lia. Qed.

Lemma length_place_batch rs k : batch_ok rs → zlen (place_batch ps free rs k) = sum_ext rs.
Proof.
  revert k. induction rs as [|r rs IH]; intros k Hb; [done|]. apply Forall_cons in Hb as [Hr Hb].
  cbn [place_batch]. rewrite zlen_app, IH, length_place_req by (done || unfold ext; lia). done.
Qed.

Lemma place_batch_lookup rs k i r t :
  batch_ok rs → rs !! i = Some r → 0 ≤ t < ext r →
  place_batch ps free rs k !! Z.to_nat (sum_ext (take i rs) + t)
  = Some (place ps free r (k + sum_pages ps (take i rs)) t).
Proof.
  revert k i. induction rs as [|r' rs IH]; intros k i Hb Hr Ht; [done|].
  apply Forall_cons in Hb as [Hr' Hb]. simpl. destruct i as [|i]; simpl in Hr.
  - injection Hr as ->. unfold sum_ext, sum_pages. simpl. rewrite Z.add_0_l, Z.add_0_r.
    rewrite lookup_app_l by (unfold place_req; rewrite zlen_fmap_seqZ; lia).
    by apply fmap_seqZ_lookup.
  - simpl. change (sum_ext (r' :: take i rs)) with (ext r' + sum_ext (take i rs)).
    change (sum_pages ps (r' :: take i rs)) with (new_pages ps r' + sum_pages ps (take i rs)).
    assert (0 ≤ sum_ext (take i rs)) as Hnn.
    { apply zsum_nonneg, batch_ext_nonneg. by apply Forall_take. }
    assert (0 ≤ ext r') by (unfold ext; lia).
    rewrite lookup_app_r by (unfold place_req; rewrite zlen_fmap_seqZ; lia).
    unfold place_req at 1. rewrite zlen_fmap_seqZ by lia.
    replace (Z.to_nat (ext r' + sum_ext (take i rs) + t) - Z.to_nat (ext r'))%nat
      with (Z.to_nat (sum_ext (take i rs) + t)) by lia.
    rewrite IH by done. do 2 f_equal. lia.
Qed.

Lemma token_pos rs i r t :
  batch_ok rs → rs !! i = Some r → 0 ≤ t < ext r →
  0 ≤ sum_ext (take i rs) + t < sum_ext rs.
Proof.
  intros Hb Hr Ht. pose proof (batch_ext_nonneg rs Hb) as Hext. unfold sum_ext. rewrite fmap_take. split.
  - enough (0 ≤ zsum (take i (ext <$> rs))) by lia. apply zsum_nonneg. by apply Forall_take.
  - assert ((ext <$> rs) !! i = Some (ext r)) as Hri by by rewrite list_lookup_fmap, Hr.
    pose proof (zsum_take_S _ _ _ Hri). pose proof (lookup_lt_Some _ _ _ Hri).
    pose proof (zsum_take_le (ext <$> rs) (S i) (length (ext <$> rs)) Hext ltac:(lia)) as Hle.
    rewrite firstn_all in Hle. lia.
Qed.

(** Two lists of the batch's length that agree at every token are equal. *)
Lemma place_batch_eq rs k (out : list Z) :
  batch_ok rs → zlen out = sum_ext rs →
  (∀ i r t, rs !! i = Some r → 0 ≤ t < ext r →
     out !! Z.to_nat (sum_ext (take i rs) + t)
     = Some (place ps free r (k + sum_pages ps (take i rs)) t)) →
  out = place_batch ps free rs k.
Proof.
  intros Hb Hlen Hout. apply list_eq_same_length with (length out);
    [|done|].
  { pose proof (length_place_batch rs k Hb). unfold zlen in *. lia. }
  intros j x y Hj Hx Hy.
  destruct (position_split (ext <$> rs) (Z.of_nat j)) as (i & t & Hi & Ht & E).
  { by apply batch_ext_nonneg. }
  { unfold sum_ext, zlen in Hlen. lia. }
  rewrite length_fmap in Hi. destruct (lookup_lt_is_Some_2 rs i Hi) as [r Hr].
  rewrite (list_lookup_total_correct _ _ (ext r)) in Ht by (by rewrite list_lookup_fmap, Hr).
  assert (j = Z.to_nat (sum_ext (take i rs) + t)) as ->.
  { unfold sum_ext. rewrite fmap_take, <- E. lia. }
  rewrite (Hout i r t Hr Ht) in Hx. rewrite (place_batch_lookup rs k i r t Hb Hr Ht) in Hy. congruence.
Qed.
End batch.

(** ** One request in three parts *)

Section parts.
Context (ps : Z) (Hps : 0 < ps) (free : list Z).

Definition ceil_pre (r : req) : Z := (r_prefix r + ps - 1) / ps * ps.
Definition floor_seq (r : req) : Z := r_seq r / ps * ps.
Definition part1 (r : req) : Z := Z.min (r_seq r) (ceil_pre r) - r_prefix r.
Definition done1 (r : req) : bool := r_prefix r + part1 r =? r_seq r.
Definition part2 (r : req) : Z := if done1 r then 0 else floor_seq r - ceil_pre r.
Definition part3 (r : req) : Z := if done1 r then 0 else r_seq r - floor_seq r.

Lemma parts_bounds r :
  0 ≤ r_prefix r ≤ r_seq r →
  r_prefix r ≤ ceil_pre r < r_prefix r + ps ∧ (ps | ceil_pre r) ∧
  floor_seq r ≤ r_seq r < floor_seq r + ps ∧ (ps | floor_seq r) ∧
  (done1 r = true ↔ r_seq r ≤ ceil_pre r) ∧ 0 ≤ part1 r ≤ ext r.
Proof.
  intros Hr. pose proof (ceil_align_ge ps Hps (r_prefix r)) as C1. pose proof (ceil_align_lt ps Hps (r_prefix r)) as C2.
  change (ceil_align (r_prefix r) ps) with (ceil_pre r) in *.
  pose proof (page_align_floor_le ps Hps (r_seq r)) as F1. pose proof (page_align_floor_gt ps Hps (r_seq r)) as F2.
  change (page_align_floor (r_seq r) ps) with (floor_seq r) in *.
  split; [lia|]. split; [by eexists|]. split; [lia|]. split; [by eexists|].
  unfold done1, part1, ext. rewrite Z.eqb_eq. lia.
Qed.

Lemma floor_ge_ceil r : 0 ≤ r_prefix r ≤ r_seq r → done1 r = false → ceil_pre r ≤ floor_seq r.
Proof.
  intros Hr Hd. destruct (parts_bounds r Hr) as (B1 & D1 & B2 & D2 & Ed & _).
  assert (ceil_pre r < r_seq r). { destruct (decide (r_seq r ≤ ceil_pre r)) as [H|H]; [apply Ed in H; congruence|lia]. }
  apply (page_align_floor_max ps Hps); [done|lia].
Qed.

Lemma ceil_pre_div r : ceil_pre r / ps = ceil_div (r_prefix r) ps.
Proof. unfold ceil_pre. by rewrite Z.div_mul by lia. Qed.

(** The page count of the vectorised routine is the usual one. *)
Lemma pages_per_req_eq r :
  0 ≤ r_prefix r ≤ r_seq r →
  part2 r / ps + (if 0 <? part3 r then 1 else 0) = new_pages ps r.
Proof.
  intros Hr. destruct (parts_bounds r Hr) as (B1 & [q D1] & B2 & [w D2] & Ed & _).
  unfold new_pages. rewrite <- ceil_pre_div. unfold part2, part3.
  destruct (done1 r) eqn:Hd.
  - rewrite Z.div_0_l by lia. simpl. assert (r_seq r ≤ ceil_pre r) as Hle by by apply Ed.
    enough (ceil_div (r_seq r) ps = ceil_pre r / ps) by lia.
    apply ceil_div_unique; [done|]. rewrite D1, Z.div_mul by lia. nia.
  - pose proof (floor_ge_ceil r Hr Hd) as Hge. rewrite D1, D2 in *. rewrite <- Z.mul_sub_distr_r, !Z.div_mul by lia.
    destruct (Z.ltb_spec 0 (r_seq r - w * ps)).
    + enough (ceil_div (r_seq r) ps = w + 1) by lia. apply ceil_div_unique; [done|]. lia.
    + enough (ceil_div (r_seq r) ps = w) by lia. apply ceil_div_unique; [done|]. lia.
Qed.

(** Where a position falls. *)
Lemma place_part1 r k t : t < part1 r → place ps free r k t = r_last r + 1 + t.
Proof.
  intros Ht. unfold place. change (ceil_align (r_prefix r) ps) with (ceil_pre r).
  destruct (Z.ltb_spec (r_prefix r + t) (ceil_pre r)); [done|]. unfold part1 in Ht. lia.
Qed.

Lemma place_part2 r k u :
  0 ≤ r_prefix r ≤ r_seq r → done1 r = false → 0 ≤ u →
  place ps free r k (part1 r + u) = at_ free (k + u / ps) * ps + u mod ps.
Proof.
  intros Hr Hd Hu. destruct (parts_bounds r Hr) as (B1 & [q D1] & B2 & D2 & Ed & _).
  assert (ceil_pre r < r_seq r). { destruct (decide (r_seq r ≤ ceil_pre r)) as [H|H]; [apply Ed in H; congruence|lia]. }
  unfold place. change (ceil_align (r_prefix r) ps) with (ceil_pre r).
  assert (r_prefix r + (part1 r + u) = ceil_pre r + u) as -> by (unfold part1; lia).
  destruct (Z.ltb_spec (ceil_pre r + u) (ceil_pre r)); [lia|].
  rewrite <- ceil_pre_div, D1. rewrite (Z.add_comm (q * ps)), Z.div_add, Z.mod_add, Z.div_mul by lia.
  do 2 f_equal. f_equal. lia.
Qed.

Lemma place_part3 r k u :
  0 ≤ r_prefix r ≤ r_seq r → done1 r = false → 0 ≤ u < ps →
  place ps free r k (part1 r + part2 r + u) = at_ free (k + part2 r / ps) * ps + u.
Proof.
  intros Hr Hd Hu. destruct (parts_bounds r Hr) as (B1 & [q D1] & B2 & [w D2] & Ed & _).
  pose proof (floor_ge_ceil r Hr Hd) as Hge.
  assert (part2 r = (w - q) * ps) as E by (unfold part2; rewrite Hd, D1, D2; lia).
  rewrite <- Z.add_assoc, place_part2 by (done || rewrite E; nia).
  rewrite E. rewrite (Z.add_comm ((w - q) * ps)), Z.div_add, Z.mod_add, Z.div_mul by lia.
  rewrite (Z.div_small u), (Z.mod_small u) by lia. done.
Qed.
End parts.

(** ** The vectorised extension is the reference *)

Section naive_eq.
Context (ps : Z) (Hps : 0 < ps) (free : list Z) (rs : list req).
Context (Hb : batch_ok rs) (Hpool : sum_pages ps rs ≤ zlen free).

Lemma req_ok i r : rs !! i = Some r → 0 ≤ r_prefix r ≤ r_seq r.
Proof. intros Hr. by apply (Forall_lookup_1 _ _ _ _ Hb Hr). Qed.

Lemma sum_pages_take i r :
  rs !! i = Some r →
  0 ≤ sum_pages ps (take i rs) ∧ sum_pages ps (take i rs) + new_pages ps r ≤ zlen free.
Proof.
  intros Hr. pose proof (batch_pages_nonneg ps Hps rs Hb) as Hf. split.
  - apply zsum_nonneg. rewrite fmap_take. by apply Forall_take.
  - etrans; [|exact Hpool]. unfold sum_pages. rewrite fmap_take.
    rewrite <- (zsum_take_S _ i) by (by rewrite list_lookup_fmap, Hr).
    rewrite <- (firstn_all (new_pages ps <$> rs)) at 2. apply zsum_take_le; [done|].
    apply lookup_lt_Some in Hr. rewrite length_fmap. lia.
Qed.

Lemma clamp_in x : 0 ≤ x < zlen free → clamp 0 (zlen free - 1) x = x.
Proof. unfold clamp. lia. Qed.

(** The slot the routine computes for a token is the reference one. *)
Lemma extend_val_place r k t :
  0 ≤ r_prefix r ≤ r_seq r → 0 ≤ k → k + new_pages ps r ≤ zlen free → 0 ≤ t < ext r → 0 < zlen free →
  extend_val ps free (r_last r) t (part1 ps r) (part2 ps r) k (k + new_pages ps r)
  = place ps free r k t.
Proof.
  intros Hr Hk Hkp Ht Hfree. destruct (parts_bounds ps Hps r Hr) as (B1 & D1 & B2 & D2 & Ed & B3).
  pose proof (pages_per_req_eq ps Hps r Hr) as Hpp. unfold extend_val.
  destruct (Z.ltb_spec t (part1 ps r)) as [H1|H1]; simpl; [by rewrite place_part1|].
  assert (done1 ps r = false) as Hd.
  { destruct (done1 ps r) eqn:Hd; [|done]. unfold done1 in Hd. apply Z.eqb_eq in Hd. unfold ext in Ht. lia. }
  pose proof (floor_ge_ceil ps Hps r Hr Hd) as Hge.
  assert (part1 ps r = ceil_pre ps r - r_prefix r) as Ep1.
  { unfold part1. destruct (decide (r_seq r ≤ ceil_pre ps r)) as [H|H]; [apply Ed in H; congruence|lia]. }
  assert (part2 ps r = floor_seq ps r - ceil_pre ps r) as Ep2 by (unfold part2; by rewrite Hd).
  assert (0 ≤ part2 ps r / ps) as Hq by (apply Z.div_pos; lia).
  destruct (Z.ltb_spec t (part1 ps r + part2 ps r)) as [H2|H2].
  - assert (∃ u, t = part1 ps r + u) as [u ->] by (exists (t - part1 ps r); lia).
    rewrite Z.max_l by lia. rewrite (place_part2 ps Hps) by (done || lia).
    replace (part1 ps r + u - part1 ps r) with u by lia.
    assert (0 ≤ u / ps < part2 ps r / ps) as Hu.
    { split; [apply Z.div_pos; lia|]. apply Z.div_lt_upper_bound; [lia|].
      destruct D1 as [q D1], D2 as [w D2]. rewrite Ep2, D1, D2, <- Z.mul_sub_distr_r, Z.div_mul by lia. lia. }
    rewrite clamp_in; [done|]. destruct (0 <? part3 ps r); lia.
  - assert (0 < part3 ps r) as H3 by (unfold part3; rewrite Hd; unfold ext in Ht; lia).
    rewrite (proj2 (Z.ltb_lt _ _) H3) in Hpp. 
    assert (∃ u, t = part1 ps r + part2 ps r + u) as [u ->] by (exists (t - part1 ps r - part2 ps r); lia).
    rewrite Z.max_l by lia. replace (part1 ps r + part2 ps r + u - part1 ps r - part2 ps r) with u by lia.
    rewrite (place_part3 ps Hps) by (done || unfold ext in Ht; lia).
    rewrite clamp_in by lia. do 2 f_equal. f_equal. lia.
Qed.

(** The request a token position belongs to, and where its tokens begin. *)
Lemma token_owner i r t :
  rs !! i = Some r → 0 ≤ t < ext r →
  searchsorted_right (cumsum (ext <$> rs)) (sum_ext (take i rs) + t) = i ∧
  zip_with Z.sub (cumsum (ext <$> rs)) (ext <$> rs) !!! i = sum_ext (take i rs).
Proof.
  intros Hr Ht. pose proof (batch_ext_nonneg rs Hb) as Hext. pose proof (lookup_lt_Some _ _ _ Hr) as Hi. split.
  - unfold sum_ext. rewrite fmap_take. rewrite <- (Z.add_0_l (zsum _)).
    apply searchsorted_from; [done|by rewrite length_fmap|].
    by rewrite (list_lookup_total_correct _ _ (ext r)) by (by rewrite list_lookup_fmap, Hr).
  - rewrite cumsum_sub_total by (by rewrite length_fmap). unfold sum_ext. by rewrite fmap_take.
Qed.

Lemma column_total (f : req → Z) i r : rs !! i = Some r → (f <$> rs) !!! i = f r.
Proof. intros Hr. apply list_lookup_total_correct. by rewrite list_lookup_fmap, Hr. Qed.

(** Without free pages no request needs one, and all its tokens go to its last page. *)
Lemma no_pages_needed i r : zlen free = 0 → rs !! i = Some r → ceil_div (r_seq r) ps = ceil_div (r_prefix r) ps.
Proof.
  intros Ef Hr. destruct (sum_pages_take i r Hr). pose proof (new_pages_nonneg ps Hps r (req_ok i r Hr)).
  unfold new_pages in *. lia.
Qed.

Lemma place_last i r k t : zlen free = 0 → rs !! i = Some r → t < ext r →
  place ps free r k t = r_last r + 1 + t.
Proof.
  intros Ef Hr Ht. apply place_part1. pose proof (no_pages_needed i r Ef Hr) as Hnone.
  pose proof (ceil_align_ge ps Hps (r_seq r)) as Hc.
  unfold ceil_align in Hc. rewrite Hnone in Hc. unfold part1, ceil_pre, ext, ceil_div in *. lia.
Qed.

Lemma extend_naive_eq :
  alloc_extend_naive ps (r_prefix <$> rs) (r_seq <$> rs) (r_last <$> rs) free (sum_ext rs)
  = Ok (place_batch ps free rs 0).
Proof.
  pose proof (batch_ext_nonneg rs Hb) as Hext. unfold alloc_extend_naive.
  destruct (Z.eqb_spec (sum_ext rs) 0) as [E0|E0].
  { f_equal. symmetry. apply zlen_nil_inv. by rewrite length_place_batch. }
  assert (0 ≤ sum_ext rs) as Hsum by by apply zsum_nonneg.
  rewrite !zip_with_fmap_same. change (λ x, r_seq x - r_prefix x) with ext.
  destruct (Z.eqb_spec (zlen free) 0) as [Ef|Ef].
  - rewrite <- !list_fmap_compose. rewrite bool_decide_eq_true_2; last first.
    { apply list_fmap_ext. intros i r Hr. pose proof (no_pages_needed i r Ef Hr) as Hnone. unfold ceil_div in Hnone.
      unfold compose. by rewrite Hnone. }
    simpl. f_equal. apply place_batch_eq; [done| |].
    { unfold zlen. rewrite zlen_fmap_seqZ by done. lia. }
    intros i r t Hr Ht. destruct (token_owner i r t Hr Ht) as [O1 O2].
    rewrite fmap_seqZ_lookup by (by eapply token_pos). rewrite O1, O2, (column_total r_last i r Hr). f_equal.
    rewrite (place_last i r _ t) by (done || lia). lia.
  - assert (0 < zlen free) as Hfree by (pose proof (zlen_nonneg free); lia).
    rewrite <- !list_fmap_compose, !zip_with_fmap_same, <- !list_fmap_compose, !zip_with_fmap_same.
    unfold compose.
    match goal with |- context [cumsum (?f <$> rs)] =>
      assert (f <$> rs = new_pages ps <$> rs) as ->;
      [apply list_fmap_ext; intros i r Hr; exact (pages_per_req_eq ps Hps r (req_ok i r Hr))|]
    end.
    f_equal. apply place_batch_eq; [done| |].
    { unfold zlen. rewrite zlen_fmap_seqZ by done. lia. }
    intros i r t Hr Ht. destruct (token_owner i r t Hr Ht) as [O1 O2].
    pose proof (lookup_lt_Some _ _ _ Hr) as Hi.
    rewrite fmap_seqZ_lookup by (by eapply token_pos). f_equal. rewrite O1, O2, !(column_total _ i r Hr).
    rewrite cumsum_sub_total, cumsum_total by (by rewrite length_fmap).
    rewrite (zsum_take_S _ i (new_pages ps r)) by (by rewrite list_lookup_fmap, Hr).
    rewrite <- fmap_take. fold (sum_pages ps (take i rs)). destruct (sum_pages_take i r Hr). rewrite Z.add_0_l.
    replace (sum_ext (take i rs) + t - sum_ext (take i rs)) with t by lia.
    by apply (extend_val_place r); [eapply req_ok|..].
Qed.
End naive_eq.

(** ** The pages of a batch *)

Lemma fresh_page_index ps r t : 0 < ps → 0 ≤ r_prefix r → 0 ≤ t < ext r → ceil_align (r_prefix r) ps ≤ r_prefix r + t →
  0 ≤ (r_prefix r + t) / ps - ceil_div (r_prefix r) ps < new_pages ps r.
Proof.
  intros Hps Hp Htt Hc. unfold new_pages, ext, ceil_align in *.
  pose proof (ceil_div_spec ps Hps (r_seq r)). pose proof (Z.div_mod (r_prefix r + t) ps ltac:(lia)).
  pose proof (Z.mod_pos_bound (r_prefix r + t) ps Hps). nia.
Qed.

(** A slot on the page the request ends on stays on that page. *)
Lemma same_page ps r t : 0 < ps → 0 ≤ t → r_prefix r + t < ceil_align (r_prefix r) ps → (r_last r + 1) mod ps = r_prefix r mod ps →
  (r_last r + 1 + t) / ps = r_last r / ps ∧ (r_last r + 1 + t) mod ps = r_last r mod ps + 1 + t.
Proof.
  intros Hps H0 Hc Hm. unfold ceil_align in Hc.
  pose proof (ceil_div_spec ps Hps (r_prefix r)) as Hcd.
  pose proof (Z.div_mod (r_prefix r) ps ltac:(lia)) as H1. pose proof (Z.mod_pos_bound (r_prefix r) ps Hps) as H2.
  pose proof (Z.div_mod (r_last r + 1) ps ltac:(lia)) as H3. rewrite Hm in H3. set (c := ceil_div _ _) in *.
  assert (r_prefix r / ps = c - 1) as Eq by (clear H3; nia). rewrite Eq in H1.
  assert (r_prefix r mod ps + t < ps ∧ 0 < r_prefix r mod ps) as [H4 H5] by (clear H3; nia).
  assert (r_last r = ps * ((r_last r + 1) / ps) + (r_prefix r mod ps - 1)) as El by lia.
  set (d := (r_last r + 1) / ps) in *. clearbody d. set (o := r_prefix r mod ps) in *. clearbody o.
  assert (r_last r / ps = d) as Ed by (symmetry; eapply Z.div_unique_pos; [|exact El]; lia).
  assert (r_last r mod ps = o - 1) as Eo by (symmetry; eapply Z.mod_unique_pos; [|exact El]; lia).
  rewrite Ed, Eo. split.
  - symmetry. apply (Z.div_unique_pos _ _ _ (o + t)); lia.
  - symmetry. apply (Z.mod_unique_pos _ _ d); lia.
Qed.

Lemma pytake_full (free : list Z) need : 0 ≤ need → zlen (pytake free need) = need → need ≤ zlen free.
Proof. intros H0 Hl. rewrite zlen_pytake in Hl by lia. lia. Qed.

Lemma pytake_index (free : list Z) need j : zlen (pytake free need) = need → 0 ≤ j < need →
  pytake free need !! Z.to_nat j = Some (at_ free j).
Proof.
  intros Hl Hj. rewrite pytake_eq in * by lia. unfold zlen in Hl. rewrite length_take in Hl.
  rewrite lookup_take_lt by lia. destruct (lookup_lt_is_Some_2 free (Z.to_nat j) ltac:(lia)) as [x Hx].
  unfold at_. by rewrite Hx, (list_lookup_total_correct _ _ _ Hx).
Qed.

(** A request that ends inside a page continues it: its last slot stands where
    its length says, on a page in use. *)
Definition continues (ps : Z) (used : list Z) (r : req) : Prop :=
  r_prefix r mod ps ≠ 0 → (r_last r + 1) mod ps = r_prefix r mod ps ∧ r_last r / ps ∈ used.

Lemma continues_mono ps used used' r : (∀ p, p ∈ used → p ∈ used') → continues ps used r → continues ps used' r.
Proof. intros Hin Hc Hm. destruct (Hc Hm). split; [done|by apply Hin]. Qed.

Section batch_pages.
Context (ps : Z) (Hps : 0 < ps) (free : list Z) (rs : list req) (Hb : batch_ok rs).
Context (Hneed : zlen (pytake free (sum_pages ps rs)) = sum_pages ps rs).

(** Every fresh page starts with a slot of the batch. *)
Lemma fresh_heads f : f ∈ pytake free (sum_pages ps rs) → f * ps ∈ place_batch ps free rs 0.
Proof.
  intros [j Hj]%list_elem_of_lookup_1. pose proof (lookup_lt_Some _ _ _ Hj) as Hlt. unfold zlen in Hneed.
  pose proof (pytake_index free _ (Z.of_nat j) Hneed ltac:(lia)) as E. rewrite Nat2Z.id, Hj in E. injection E as ->.
  destruct (position_split (new_pages ps <$> rs) (Z.of_nat j)) as (i & e & Hi & He & Ej).
  { by apply batch_pages_nonneg. }
  { unfold sum_pages in *. lia. }
  rewrite length_fmap in Hi. destruct (lookup_lt_is_Some_2 rs i Hi) as [r Hr].
  rewrite (list_lookup_total_correct _ _ (new_pages ps r)) in He by (by rewrite list_lookup_fmap, Hr).
  assert (0 ≤ r_prefix r ≤ r_seq r) as Hok by by apply (Forall_lookup_1 _ _ _ _ Hb Hr).
  pose proof (ceil_div_spec ps Hps (r_prefix r)) as C1. pose proof (ceil_div_spec ps Hps (r_seq r)) as C2. unfold new_pages in He.
  set (c := ceil_div (r_prefix r) ps) in *. set (t := (c + e) * ps - r_prefix r).
  assert (0 ≤ t < ext r) as Ht by (unfold t, ext; nia).
  apply (list_elem_of_lookup_2 _ (Z.to_nat (sum_ext (take i rs) + t))).
  rewrite (place_batch_lookup ps free rs 0 i r t Hb Hr Ht). f_equal. unfold place, ceil_align. fold c.
  replace (r_prefix r + t) with ((c + e) * ps) by (unfold t; lia).
  destruct (Z.ltb_spec ((c + e) * ps) (c * ps)); [nia|]. rewrite Z.div_mul, Z_mod_mult, Z.add_0_r by lia.
  do 2 f_equal. unfold sum_pages. rewrite fmap_take. lia.
Qed.

(** Every slot lies on a fresh page or on the page its request ended on. *)
Lemma batch_on_pages used x : Forall (continues ps used) rs → x ∈ place_batch ps free rs 0 →
  x / ps ∈ pytake free (sum_pages ps rs) ++ used.
Proof.
  intros Hc [j Hj]%list_elem_of_lookup_1. pose proof (lookup_lt_Some _ _ _ Hj) as Hlt.
  pose proof (length_place_batch ps free rs 0 Hb) as Hlen. unfold zlen in Hlen.
  destruct (position_split (ext <$> rs) (Z.of_nat j)) as (i & t & Hi & Ht & Ej).
  { by apply batch_ext_nonneg. }
  { unfold sum_ext in *. lia. }
  rewrite length_fmap in Hi. destruct (lookup_lt_is_Some_2 rs i Hi) as [r Hr].
  rewrite (list_lookup_total_correct _ _ (ext r)) in Ht by (by rewrite list_lookup_fmap, Hr).
  assert (0 ≤ r_prefix r ≤ r_seq r) as Hok by by apply (Forall_lookup_1 _ _ _ _ Hb Hr).
  replace j with (Z.to_nat (sum_ext (take i rs) + t)) in Hj by (unfold sum_ext; rewrite fmap_take, <- Ej; lia).
  rewrite (place_batch_lookup ps free rs 0 i r t Hb Hr Ht) in Hj. injection Hj as <-. rewrite elem_of_app. unfold place.
  destruct (Z.ltb_spec (r_prefix r + t) (ceil_align (r_prefix r) ps)) as [Hl|Hge].
  - right. assert (r_prefix r mod ps ≠ 0) as Hm.
    { intros Hm%Z.mod_divide; [|lia]. rewrite ceil_align_id in Hl by done. lia. }
    destruct (Forall_lookup_1 _ _ _ _ Hc Hr Hm) as [Hf Hu]. by destruct (same_page ps r t Hps ltac:(lia) Hl Hf) as [-> _].
  - left. pose proof (fresh_page_index ps r t Hps ltac:(lia) ltac:(lia) Hge) as Hix.
    pose proof (Z.mod_pos_bound (r_prefix r + t) ps Hps). rewrite Z.add_comm, Z.div_add, Z.div_small, !Z.add_0_l by lia.
    destruct (sum_pages_take ps Hps free rs Hb ltac:(apply pytake_full; [by apply zsum_nonneg, batch_pages_nonneg|done]) i r Hr) as [H0 _].
    assert (sum_pages ps (take i rs) + new_pages ps r ≤ sum_pages ps rs) as Hle.
    { unfold sum_pages. rewrite fmap_take. rewrite <- (zsum_take_S _ i) by (by rewrite list_lookup_fmap, Hr).
      rewrite <- (firstn_all (new_pages ps <$> rs)) at 2. apply zsum_take_le; [by apply batch_pages_nonneg|].
      apply lookup_lt_Some in Hr. rewrite length_fmap. lia. }
    eapply list_elem_of_lookup_2, pytake_index; [done|lia].
Qed.
End batch_pages.

(** ** The kernel is the reference, in every order of its programs *)

Lemma run_stores_other ws out k :
  (∀ w, w ∈ ws → Z.to_nat w.1 ≠ k) → run_stores ws out !! k = out !! k.
Proof.
  revert out. induction ws as [|w ws IH]; intros out Hw; [done|]. unfold run_stores. simpl.
  fold (run_stores ws (<[Z.to_nat w.1:=w.2]> out)). rewrite IH by (intros; apply Hw; by right).
  apply list_lookup_insert_ne. apply Hw. by left.
Qed.

Lemma length_run_stores ws out : length (run_stores ws out) = length out.
Proof.
  revert out. induction ws as [|w ws IH]; intros out; [done|]. unfold run_stores. simpl.
  fold (run_stores ws (<[Z.to_nat w.1:=w.2]> out)). by rewrite IH, length_insert.
Qed.

(** Stores that agree with [ref] and reach every index leave [ref]. *)
Lemma run_stores_lookup ws out ref k :
  length out = length ref → (k < length ref)%nat →
  (∀ w, w ∈ ws → ref !! Z.to_nat w.1 = Some w.2) →
  out !! k = ref !! k ∨ (∃ w, w ∈ ws ∧ Z.to_nat w.1 = k) →
  run_stores ws out !! k = ref !! k.
Proof.
  revert out. induction ws as [|w ws IH]; intros out Hl Hk Hs Hor.
  { destruct Hor as [?|(w & Hw & _)]; [done|]. by apply not_elem_of_nil in Hw. }
  unfold run_stores. simpl. fold (run_stores ws (<[Z.to_nat w.1:=w.2]> out)).
  apply IH; [by rewrite length_insert|done|intros; apply Hs; by right|].
  destruct (decide (Z.to_nat w.1 = k)) as [E|E].
  - left. rewrite <- E in *. rewrite list_lookup_insert_eq by lia. symmetry. apply Hs. by left.
  - destruct Hor as [Ho|(u & Hu & Eu)].
    + left. by rewrite list_lookup_insert_ne.
    + right. apply elem_of_cons in Hu as [->|Hu]; [done|]. by exists u.
Qed.

Lemma run_stores_ref ws out ref :
  length out = length ref →
  (∀ w, w ∈ ws → ref !! Z.to_nat w.1 = Some w.2) →
  (∀ k, (k < length ref)%nat → ∃ w, w ∈ ws ∧ Z.to_nat w.1 = k) →
  run_stores ws out = ref.
Proof.
  intros Hl Hs Hc. apply list_eq. intros k. destruct (decide (k < length ref)%nat) as [Hk|Hk].
  - apply run_stores_lookup; [done|done|done|]. right. by apply Hc.
  - rewrite !lookup_ge_None_2; [done|lia|rewrite length_run_stores; lia].
Qed.

Lemma elem_of_masked_stores width bound addr val a v :
  (a, v) ∈ masked_stores width bound addr val ↔
  ∃ o, 0 ≤ o < width ∧ o < bound ∧ a = addr o ∧ v = val o.
Proof.
  unfold masked_stores. rewrite list_elem_of_fmap. split.
  - intros (o & [= -> ->] & Ho). apply list_elem_of_In, filter_In in Ho as [Ho Hb].
    apply list_elem_of_In, elem_of_seqZ in Ho. apply Z.ltb_lt in Hb. exists o. repeat split; lia || done.
  - intros (o & Ho & Hb & -> & ->). exists o. split; [done|].
    apply list_elem_of_In, filter_In. split; [|by apply Z.ltb_lt].
    apply list_elem_of_In, elem_of_seqZ. lia.
Qed.

Section part_stores.
Context (ps : Z) (Hps : 0 < ps) (free : list Z).

(** The three parts make up the extension. *)
Lemma parts_sum r :
  0 ≤ r_prefix r ≤ r_seq r → done1 ps r = false →
  ext r = part1 ps r + part2 ps r + part3 ps r ∧ 0 ≤ part3 ps r < ps ∧ 0 ≤ part2 ps r.
Proof.
  intros Hok Hd. destruct (parts_bounds ps Hps r Hok) as (B1 & D1 & B2 & D2 & Ed & B3).
  pose proof (floor_ge_ceil ps Hps r Hok Hd) as Hge.
  assert (part1 ps r = ceil_pre ps r - r_prefix r) as Ep1.
  { unfold part1. destruct (decide (r_seq r ≤ ceil_pre ps r)) as [H|H]; [apply Ed in H; congruence|lia]. }
  unfold part2, part3, ext. rewrite Hd. lia.
Qed.

(** The blocked loop over the new full pages. *)
Lemma stores_part2 r s0 k B a v :
  0 ≤ r_prefix r ≤ r_seq r → done1 ps r = false → 0 < B →
  (a, v) ∈ mjoin ((λ block_id,
    masked_stores B (part2 ps r - block_id * B)
      (λ o, s0 + part1 ps r + (block_id * B + o))
      (λ o, let offset := block_id * B + o in
            at_ free (k + offset / ps) * ps + offset mod ps)) <$> seqZ 0 ((part2 ps r + B - 1) / B)) ↔
  ∃ u, 0 ≤ u < part2 ps r ∧ a = s0 + (part1 ps r + u) ∧ v = place ps free r k (part1 ps r + u).
Proof.
  intros Hok Hd HB. rewrite list_elem_of_join. setoid_rewrite list_elem_of_fmap. split.
  - intros (l & Hin & (b & -> & Hbk)). apply elem_of_masked_stores in Hin as (o & Ho & Hob & -> & ->).
    apply elem_of_seqZ in Hbk. exists (b * B + o). rewrite (place_part2 ps Hps) by (done || nia).
    split; [nia|]. split; [lia|done].
  - intros (u & Hu & -> & ->). eexists. split; [|exists (u / B); split; [reflexivity|]].
    + apply elem_of_masked_stores. exists (u mod B). pose proof (Z.mod_pos_bound u B HB).
      pose proof (Z.div_mod u B ltac:(lia)) as Hdm.
      assert (u / B * B + u mod B = u) as Eu by lia. cbv zeta. rewrite Eu.
      rewrite (place_part2 ps Hps) by (done || lia). repeat split; lia || done.
    + apply elem_of_seqZ. split; [apply Z.div_pos; lia|]. rewrite Z.add_0_l.
      apply Z.div_lt_upper_bound; [done|].
      pose proof (ceil_div_spec B HB (part2 ps r)) as Hc. unfold ceil_div in Hc. lia.
Qed.

(** The last, partial page. *)
Lemma stores_part3 r s0 k a v :
  0 ≤ r_prefix r ≤ r_seq r → done1 ps r = false →
  ((a, v) ∈ if r_prefix r + part1 ps r + part2 ps r =? r_seq r then []
   else masked_stores ps (part3 ps r) (λ o, s0 + part1 ps r + part2 ps r + o)
          (λ o, at_ free (k + new_pages ps r - 1) * ps + o)) ↔
  ∃ u, 0 ≤ u < part3 ps r ∧ a = s0 + (part1 ps r + part2 ps r + u) ∧
       v = place ps free r k (part1 ps r + part2 ps r + u).
Proof.
  intros Hok Hd. destruct (parts_sum r Hok Hd) as (Ee & H3 & Hps3).
  pose proof (pages_per_req_eq ps Hps r Hok) as Hpp. unfold ext in Ee.
  destruct (Z.eqb_spec (r_prefix r + part1 ps r + part2 ps r) (r_seq r)) as [E|E].
  - split; [intros Hn; by apply not_elem_of_nil in Hn|]. intros (u & Hu & _). lia.
  - rewrite (proj2 (Z.ltb_lt 0 (part3 ps r)) ltac:(lia)) in Hpp.
    rewrite elem_of_masked_stores. split.
    + intros (o & Ho & Ho' & -> & ->). exists o. rewrite (place_part3 ps Hps) by (done || lia).
      split; [lia|]. split; [lia|]. do 2 f_equal. f_equal. lia.
    + intros (u & Hu & -> & ->). exists u. rewrite (place_part3 ps Hps) by (done || lia).
      split; [lia|]. split; [lia|]. split; [lia|]. do 2 f_equal. f_equal. lia.
Qed.
End part_stores.

(** Masked-out lanes cancel, whatever they read. *)
Lemma zsum_masked (g : nat → Z) pid n :
  (pid < n)%nat →
  zsum ((λ l, if (l <=? pid)%nat then g l else 0) <$> seq 0 n) = zsum (g <$> seq 0 (S pid)).
Proof.
  intros Hlt. replace n with (S pid + (n - S pid))%nat by lia. rewrite seq_app, fmap_app, zsum_app.
  assert (∀ a k, (pid < a)%nat → zsum ((λ l, if (l <=? pid)%nat then g l else 0) <$> seq a k) = 0) as H0.
  { intros a k. revert a. induction k as [|k IH]; intros a Ha; [done|]. rewrite <- cons_seq, fmap_cons.
    simpl. rewrite IH by lia. destruct (Nat.leb_spec a pid); lia. }
  rewrite (H0 (0 + S pid)%nat) by lia. rewrite Z.add_0_r. f_equal. apply list_fmap_ext. intros i l Hl.
  apply lookup_seq in Hl as [-> Hi]. simpl. destruct (Nat.leb_spec i pid); [done|lia].
Qed.

Lemma zsum_seq_take (L : list Z) m :
  (m ≤ length L)%nat → zsum ((λ l, L !!! l) <$> seq 0 m) = zsum (take m L).
Proof.
  intros Hm. f_equal. apply list_eq. intros i. rewrite list_lookup_fmap.
  destruct (decide (i < m)%nat) as [Hi|Hi].
  - rewrite lookup_seq_lt by done. simpl. rewrite lookup_take_lt by done.
    destruct (lookup_lt_is_Some_2 L i ltac:(lia)) as [x Hx].
    by rewrite (list_lookup_total_correct _ _ _ Hx), Hx.
  - rewrite lookup_seq_ge, lookup_take_ge by lia. done.
Qed.

(** A launch whose programs store the slots of their requests leaves the
    reference, in every order; programs past the batch store nothing. *)
Lemma launch_batch ps free rs prog order out n :
  batch_ok rs →
  (∀ pid r a v, rs !! pid = Some r → (a, v) ∈ prog pid ↔
     ∃ t, 0 ≤ t < ext r ∧ a = sum_ext (take pid rs) + t ∧ v = place ps free r (sum_pages ps (take pid rs)) t) →
  (∀ pid, (length rs ≤ pid < n)%nat → prog pid = []) → (length rs ≤ n)%nat →
  order ≡ₚ seq 0 n → zlen out = sum_ext rs → launch prog order out = place_batch ps free rs 0.
Proof.
  intros Hb Hprog Hnone Hn Ho Hl. pose proof (length_place_batch ps free rs 0 Hb) as Hlen. unfold launch.
  assert (∀ a v, (a, v) ∈ mjoin (prog <$> order) ↔ ∃ pid r t, rs !! pid = Some r ∧ 0 ≤ t < ext r ∧
    a = sum_ext (take pid rs) + t ∧ v = place ps free r (sum_pages ps (take pid rs)) t) as Hw.
  { intros a v. rewrite list_elem_of_join. setoid_rewrite list_elem_of_fmap. split.
    - intros (l & Hin & pid & -> & Hpid). rewrite Ho in Hpid. apply elem_of_seq in Hpid as [_ Hpid].
      destruct (rs !! pid) as [r|] eqn:Hr; last first.
      { apply lookup_ge_None in Hr. rewrite Hnone in Hin by lia. by apply not_elem_of_nil in Hin. }
      exists pid, r. apply (Hprog pid r) in Hin as (t & ?); [|done]. exists t. done.
    - intros (pid & r & t & Hr & Ht). exists (prog pid). split; [by apply (Hprog pid r); [|exists t]|].
      exists pid. split; [done|]. rewrite Ho. apply elem_of_seq. apply lookup_lt_Some in Hr. lia. }
  apply run_stores_ref; [unfold zlen in *; lia| |].
  - intros [a v] (pid & r & t & Hr & Ht & -> & ->)%Hw. simpl.
    rewrite (place_batch_lookup ps free rs 0 pid r t Hb Hr Ht). by rewrite Z.add_0_l.
  - intros j Hj. destruct (position_split (ext <$> rs) (Z.of_nat j)) as (i & t & Hi & Ht & E).
    { by apply batch_ext_nonneg. }
    { unfold sum_ext, zlen in *. lia. }
    rewrite length_fmap in Hi. destruct (lookup_lt_is_Some_2 rs i Hi) as [r Hr].
    rewrite (list_lookup_total_correct _ _ (ext r)) in Ht by (by rewrite list_lookup_fmap, Hr).
    exists (sum_ext (take i rs) + t, place ps free r (sum_pages ps (take i rs)) t). split.
    + apply Hw. by exists i, r, t.
    + simpl. unfold sum_ext. rewrite fmap_take, <- E. lia.
Qed.

Section kernel_eq.
Context (ps : Z) (Hps : 0 < ps) (bs_upper : nat) (oob : Z) (free : list Z) (rs : list req).
Context (Hb : batch_ok rs) (Hbs : (length rs ≤ bs_upper)%nat).

Lemma kernel_sum (f : Z → Z → Z) pid :
  (pid < length rs)%nat → f oob oob = 0 →
  zsum (zip_with f (masked_load bs_upper oob (r_seq <$> rs) pid)
                   (masked_load bs_upper oob (r_prefix <$> rs) pid))
  = zsum ((λ r, f (r_seq r) (r_prefix r)) <$> take (S pid) rs).
Proof.
  intros Hp Hf. unfold masked_load. rewrite zip_with_fmap_same, fmap_take.
  rewrite <- zsum_seq_take by (rewrite length_fmap; lia).
  rewrite <- (zsum_masked _ pid bs_upper) by lia. f_equal. apply list_fmap_ext. intros i l Hl.
  apply lookup_seq in Hl as [-> Hi]. simpl. destruct (Nat.leb_spec i pid) as [Hle|]; [|done].
  destruct (lookup_lt_is_Some_2 rs i ltac:(lia)) as [r Hr].
  rewrite !(list_lookup_total_correct (_ <$> rs) i _) by (by rewrite list_lookup_fmap, Hr). done.
Qed.

(** What the program of request [pid] stores, from its own request and the
    totals before it. *)
Lemma kernel_unfold pid r :
  rs !! pid = Some r →
  let s0 := sum_ext (take pid rs) in
  let k := sum_pages ps (take pid rs) in
  alloc_extend_kernel ps bs_upper oob (r_prefix <$> rs) (r_seq <$> rs) (r_last <$> rs) free pid =
  masked_stores ps (part1 ps r) (λ o, s0 + o) (λ o, r_last r + 1 + o) ++
  if done1 ps r then []
  else
    let num_part2 := floor_seq ps r - ceil_pre ps r in
    mjoin ((λ block_id,
      masked_stores BLOCK_EXTEND (num_part2 - block_id * BLOCK_EXTEND)
        (λ o, s0 + part1 ps r + (block_id * BLOCK_EXTEND + o))
        (λ o, let offset := block_id * BLOCK_EXTEND + o in
              at_ free (k + offset / ps) * ps + offset mod ps))
      <$> seqZ 0 ((num_part2 + BLOCK_EXTEND - 1) / BLOCK_EXTEND)) ++
    if r_prefix r + part1 ps r + num_part2 =? r_seq r then []
    else masked_stores ps (r_seq r - floor_seq ps r)
           (λ o, s0 + part1 ps r + num_part2 + o)
           (λ o, at_ free (k + new_pages ps r - 1) * ps + o).
Proof.
  intros Hr s0 k. pose proof (lookup_lt_Some _ _ _ Hr) as Hpid. unfold alloc_extend_kernel.
  rewrite !(list_lookup_total_correct (_ <$> rs) pid _) by (by rewrite list_lookup_fmap, Hr).
  rewrite (kernel_sum Z.sub pid Hpid) by lia. rewrite zip_with_fmap_l, zip_with_fmap_r.
  rewrite (kernel_sum (λ a b, (a + ps - 1) / ps - (b + ps - 1) / ps) pid Hpid) by lia.
  change (zsum ((λ r, r_seq r - r_prefix r) <$> take (S pid) rs)) with (sum_ext (take (S pid) rs)).
  change (zsum ((λ r, (r_seq r + ps - 1) / ps - (r_prefix r + ps - 1) / ps) <$> take (S pid) rs))
    with (sum_pages ps (take (S pid) rs)).
  assert (sum_ext (take (S pid) rs) = s0 + ext r) as ->.
  { unfold s0, sum_ext. rewrite !fmap_take. apply zsum_take_S. by rewrite list_lookup_fmap, Hr. }
  assert (sum_pages ps (take (S pid) rs) = k + new_pages ps r) as ->.
  { unfold k, sum_pages. rewrite !fmap_take. apply zsum_take_S. by rewrite list_lookup_fmap, Hr. }
  change (r_seq r - r_prefix r) with (ext r).
  change ((r_seq r + ps - 1) / ps - (r_prefix r + ps - 1) / ps) with (new_pages ps r).
  replace (s0 + ext r - ext r) with s0 by lia.
  by replace (k + new_pages ps r - new_pages ps r) with k by lia.
Qed.

Lemma kernel_stores pid r a v :
  rs !! pid = Some r →
  (a, v) ∈ alloc_extend_kernel ps bs_upper oob (r_prefix <$> rs) (r_seq <$> rs) (r_last <$> rs) free pid ↔
  ∃ t, 0 ≤ t < ext r ∧ a = sum_ext (take pid rs) + t ∧
       v = place ps free r (sum_pages ps (take pid rs)) t.
Proof.
  intros Hr. assert (0 ≤ r_prefix r ≤ r_seq r) as Hok by by apply (Forall_lookup_1 _ _ _ _ Hb Hr).
  rewrite (kernel_unfold pid r Hr). cbv zeta. set (k := sum_pages ps (take pid rs)). set (s0 := sum_ext (take pid rs)).
  destruct (parts_bounds ps Hps r Hok) as (B1 & D1 & B2 & D2 & Ed & B3).
  assert (part1 ps r < ps) as Hlt by (unfold part1; lia).
  rewrite elem_of_app, elem_of_masked_stores. destruct (done1 ps r) eqn:Hd.
  - assert (part1 ps r = ext r) as E1. { unfold done1 in Hd. apply Z.eqb_eq in Hd. unfold ext. lia. }
    split.
    + intros [(o & Ho & Ho' & -> & ->)|Hn]; [|by apply not_elem_of_nil in Hn].
      exists o. split; [lia|]. split; [done|]. by rewrite place_part1.
    + intros (t & Ht & -> & ->). left. exists t. rewrite place_part1 by lia. repeat split; lia || done.
  - destruct (parts_sum ps Hps r Hok Hd) as (Ee & H3 & H2).
    replace (floor_seq ps r - ceil_pre ps r) with (part2 ps r) by (unfold part2; by rewrite Hd).
    replace (r_seq r - floor_seq ps r) with (part3 ps r) by (unfold part3; by rewrite Hd).
    rewrite elem_of_app, stores_part2, stores_part3 by done. split.
    + intros [(o & Ho & Ho' & -> & ->)|[(u & Hu & -> & ->)|(u & Hu & -> & ->)]].
      * exists o. rewrite place_part1 by lia. split; [lia|done].
      * exists (part1 ps r + u). split; [lia|done].
      * exists (part1 ps r + part2 ps r + u). split; [lia|done].
    + intros (t & Ht & -> & ->).
      destruct (decide (t < part1 ps r)); [|destruct (decide (t < part1 ps r + part2 ps r))].
      * left. exists t. rewrite place_part1 by lia. repeat split; lia || done.
      * right. left. exists (t - part1 ps r). replace (part1 ps r + (t - part1 ps r)) with t by lia.
        repeat split; lia || done.
      * right. right. exists (t - part1 ps r - part2 ps r).
        replace (part1 ps r + part2 ps r + (t - part1 ps r - part2 ps r)) with t by lia.
        repeat split; lia || done.
Qed.

Lemma extend_kernel_eq order out :
  order ≡ₚ seq 0 (length rs) → zlen out = sum_ext rs →
  launch (alloc_extend_kernel ps bs_upper oob (r_prefix <$> rs) (r_seq <$> rs) (r_last <$> rs) free)
    order out = place_batch ps free rs 0.
Proof.
  intros Ho Hl. apply (launch_batch ps free rs _ order out (length rs)); [done| | |done|done|done].
  - intros pid r a v Hr. by apply kernel_stores.
  - intros pid Hpid. lia.
Qed.
End kernel_eq.

(** ** The HIP extension is the reference *)

Lemma elem_of_for_stores bound addr val a v :
  (a, v) ∈ for_stores bound addr val ↔ ∃ o, 0 ≤ o < bound ∧ a = addr o ∧ v = val o.
Proof.
  unfold for_stores. rewrite list_elem_of_fmap. split.
  - intros (o & [= -> ->] & Ho). apply elem_of_seqZ in Ho. exists o. repeat split; lia || done.
  - intros (o & Ho & -> & ->). exists o. split; [done|]. apply elem_of_seqZ. lia.
Qed.

Lemma dev_ceil_div_eq a b : 0 ≤ a → 0 < b → dev_ceil_div a b = ceil_div a b.
Proof. intros. unfold dev_ceil_div, ceil_div. apply Z.quot_div_nonneg; lia. Qed.

Lemma safe_min_eq a b : safe_min a b = Z.min a b.
Proof. unfold safe_min. destruct (Z.ltb_spec a b); lia. Qed.

(** The running sum of a thread, over a column of the batch. *)
Lemma sum_upto_take {A} (l : list A) (f : nat → Z) (g : A → Z) pid :
  (pid < length l)%nat → (∀ i x, (i ≤ pid)%nat → l !! i = Some x → f i = g x) →
  sum_upto f pid = zsum (take (S pid) (g <$> l)).
Proof.
  intros Hp Hf. unfold sum_upto. rewrite <- zsum_seq_take by (rewrite length_fmap; lia). f_equal.
  apply list_fmap_ext. intros k i Hi. apply lookup_seq in Hi as [-> Hi]. simpl.
  destruct (lookup_lt_is_Some_2 l k ltac:(lia)) as [x Hx]. rewrite (Hf k x) by (done || lia).
  symmetry. apply list_lookup_total_correct. by rewrite list_lookup_fmap, Hx.
Qed.

Lemma hcu_threads_cover n : ∃ m, hcu_threads (Z.of_nat n) = seq 0 m ∧ (n ≤ m)%nat.
Proof.
  eexists. split; [done|]. rewrite Z.quot_div_nonneg by lia.
  pose proof (ceil_div_spec 64 ltac:(lia) (Z.of_nat n)) as H. unfold ceil_div in H. lia.
Qed.

Section hcu_extend.
Context (ps : Z) (Hps : 0 < ps) (free : list Z) (rs : list req) (Hb : batch_ok rs).

Abbreviation thread := (launch_alloc_extend_kernel ps (r_prefix <$> rs) (r_seq <$> rs) (r_last <$> rs) free (zlen rs)).

(** What the thread of request [pid] stores, from its own request and the
    totals before it. *)
Lemma hcu_thread_unfold pid r :
  rs !! pid = Some r →
  let s0 := sum_ext (take pid rs) in
  let k := sum_pages ps (take pid rs) in
  thread pid =
  for_stores (Z.min (part1 ps r) ps) (λ o, s0 + o) (λ o, r_last r + 1 + o) ++
  if done1 ps r then []
  else
    for_stores (part2 ps r) (λ o, s0 + part1 ps r + o) (λ o, at_ free (k + Z.quot o ps) * ps + Z.rem o ps) ++
    if r_prefix r + part1 ps r + part2 ps r =? r_seq r then []
    else for_stores (Z.min (part3 ps r) ps) (λ o, s0 + part1 ps r + part2 ps r + o)
           (λ o, at_ free (k + new_pages ps r - 1) * ps + o).
Proof.
  intros Hr s0 k. pose proof (lookup_lt_Some _ _ _ Hr) as Hpid. unfold launch_alloc_extend_kernel.
  destruct (Z.leb_spec (zlen rs) (Z.of_nat pid)); [unfold zlen in *; lia|].
  assert (∀ i x, rs !! i = Some x → (r_seq <$> rs) !!! i = r_seq x ∧ (r_prefix <$> rs) !!! i = r_prefix x ∧ 0 ≤ r_prefix x ≤ r_seq x) as Hcol.
  { intros i x Hx. rewrite !(list_lookup_total_correct (_ <$> rs) i _) by (by rewrite list_lookup_fmap, Hx).
    split; [done|]. split; [done|]. by apply (Forall_lookup_1 _ _ _ _ Hb Hx). }
  rewrite (sum_upto_take rs _ ext pid Hpid), (sum_upto_take rs _ (new_pages ps) pid Hpid); last first.
  { intros i x _ Hx. destruct (Hcol i x Hx) as (-> & -> & _). done. }
  { intros i x _ Hx. destruct (Hcol i x Hx) as (-> & -> & ?). rewrite !dev_ceil_div_eq by lia. done. }
  rewrite (zsum_take_S _ pid (ext r)), (zsum_take_S _ pid (new_pages ps r)) by (by rewrite list_lookup_fmap, Hr).
  rewrite <- !fmap_take. fold (sum_ext (take pid rs)) (sum_pages ps (take pid rs)). fold s0 k.
  rewrite (list_lookup_total_correct (r_last <$> rs) pid (r_last r)) by (by rewrite list_lookup_fmap, Hr).
  destruct (Hcol pid r Hr) as (-> & -> & Hok). rewrite !dev_ceil_div_eq, Z.quot_div_nonneg, !safe_min_eq by lia.
  change (ceil_div (r_seq r) ps - ceil_div (r_prefix r) ps) with (new_pages ps r). change (r_seq r - r_prefix r) with (ext r).
  rewrite !Z.add_simpl_r. change (ceil_div (r_prefix r) ps * ps) with (ceil_pre ps r). fold (floor_seq ps r) (part1 ps r) (done1 ps r).
  unfold part2, part3. by destruct (done1 ps r).
Qed.

Lemma hcu_thread_stores pid r a v :
  rs !! pid = Some r →
  (a, v) ∈ thread pid ↔
  ∃ t, 0 ≤ t < ext r ∧ a = sum_ext (take pid rs) + t ∧ v = place ps free r (sum_pages ps (take pid rs)) t.
Proof.
  intros Hr. assert (0 ≤ r_prefix r ≤ r_seq r) as Hok by by apply (Forall_lookup_1 _ _ _ _ Hb Hr).
  rewrite (hcu_thread_unfold pid r Hr). set (k := sum_pages ps (take pid rs)). set (s0 := sum_ext (take pid rs)).
  destruct (parts_bounds ps Hps r Hok) as (B1 & D1 & B2 & D2 & Ed & B3).
  assert (part1 ps r < ps) as Hlt by (unfold part1; lia).
  rewrite elem_of_app, elem_of_for_stores. destruct (done1 ps r) eqn:Hd.
  - assert (part1 ps r = ext r) as E1. { unfold done1 in Hd. apply Z.eqb_eq in Hd. unfold ext. lia. }
    split.
    + intros [(o & Ho & -> & ->)|Hn]; [|by apply not_elem_of_nil in Hn].
      exists o. split; [lia|]. split; [done|]. rewrite place_part1; [done|lia].
    + intros (t & Ht & -> & ->). left. exists t. rewrite place_part1 by lia. repeat split; lia || done.
  - destruct (parts_sum ps Hps r Hok Hd) as (Ee & H3 & H2). rewrite elem_of_app, elem_of_for_stores.
    pose proof (stores_part3 ps Hps free r s0 k a v Hok Hd) as H3'.
    rewrite !Z.min_l by lia.
    assert ((a, v) ∈ (if r_prefix r + part1 ps r + part2 ps r =? r_seq r then []
      else for_stores (part3 ps r) (λ o, s0 + part1 ps r + part2 ps r + o) (λ o, at_ free (k + new_pages ps r - 1) * ps + o))
      ↔ ∃ u, 0 ≤ u < part3 ps r ∧ a = s0 + (part1 ps r + part2 ps r + u) ∧
             v = place ps free r k (part1 ps r + part2 ps r + u)) as ->.
    { rewrite <- H3'. destruct (_ =? _); [done|]. rewrite elem_of_for_stores, elem_of_masked_stores.
      split; intros (o & Ho & H); exists o; repeat split; try (tauto || lia). all: destruct H as (? & ? & ?); done || lia. }
    split.
    + intros [(o & Ho & -> & ->)|[(u & Hu & -> & ->)|(u & Hu & -> & ->)]].
      * exists o. rewrite place_part1 by lia. split; [lia|done].
      * exists (part1 ps r + u). split; [lia|]. split; [lia|]. rewrite Z.quot_div_nonneg, Z.rem_mod_nonneg by lia.
        by rewrite (place_part2 ps Hps) by (done || lia).
      * exists (part1 ps r + part2 ps r + u). split; [lia|done].
    + intros (t & Ht & -> & ->).
      destruct (decide (t < part1 ps r)); [|destruct (decide (t < part1 ps r + part2 ps r))].
      * left. exists t. rewrite place_part1 by lia. repeat split; lia || done.
      * right. left. exists (t - part1 ps r). rewrite Z.quot_div_nonneg, Z.rem_mod_nonneg by lia.
        rewrite <- (place_part2 ps Hps free r k) by (done || lia). replace (part1 ps r + (t - part1 ps r)) with t by lia.
        repeat split; lia || done.
      * right. right. exists (t - part1 ps r - part2 ps r).
        replace (part1 ps r + part2 ps r + (t - part1 ps r - part2 ps r)) with t by lia.
        repeat split; lia || done.
Qed.

Lemma hcu_thread_none pid n : (length rs ≤ pid < n)%nat → thread pid = [].
Proof.
  intros Hp. unfold launch_alloc_extend_kernel. destruct (Z.leb_spec (zlen rs) (Z.of_nat pid)); [done|].
  unfold zlen in *. lia.
Qed.

(** Whatever order the threads run in. *)
Lemma hcu_extend_any order out :
  order ≡ₚ hcu_threads (zlen rs) → zlen out = sum_ext rs → launch thread order out = place_batch ps free rs 0.
Proof.
  intros Ho Hl. destruct (hcu_threads_cover (length rs)) as (m & Em & Hm). unfold zlen in Ho at 1. rewrite Em in Ho.
  apply (launch_batch ps free rs _ order out m); try done.
  - intros pid r a v Hr. by apply hcu_thread_stores.
  - intros pid Hpid. by eapply hcu_thread_none.
Qed.

Lemma hcu_extend_eq out :
  zlen out = sum_ext rs →
  hcu_alloc_extend_kernel ps (r_prefix <$> rs) (r_seq <$> rs) (r_last <$> rs) free out (zlen rs)
  = place_batch ps free rs 0.
Proof. intros Hl. by apply hcu_extend_any. Qed.
End hcu_extend.

(** ** Decoding: one token per request *)

(** A decode step extends a request from [seq - 1] to [seq]. *)
Definition decode_req (s_l : Z * Z) : req := mkReq (s_l.1 - 1) s_l.1 s_l.2.

Section decode.
Context (ps : Z) (Hps : 0 < ps) (free : list Z).

Definition needs_page (s : Z) : Z := if (s - 1) mod ps =? 0 then 1 else 0.

Lemma decode_new_pages d : 1 ≤ d.1 → new_pages ps (decode_req d) = needs_page (d.1).
Proof.
  intros Hd. unfold new_pages, needs_page, decode_req. simpl. set (p := d.1 - 1).
  replace (d.1) with (p + 1) by lia. pose proof (Z.div_mod p ps ltac:(lia)) as Hdm.
  pose proof (Z.mod_pos_bound p ps Hps) as Hm.
  destruct (Z.eqb_spec (p mod ps) 0) as [E|E].
  - rewrite (ceil_div_unique ps Hps (p + 1) (p / ps + 1)) by nia.
    rewrite (ceil_div_unique ps Hps p (p / ps)) by nia. lia.
  - rewrite (ceil_div_unique ps Hps (p + 1) (p / ps + 1)) by nia.
    rewrite (ceil_div_unique ps Hps p (p / ps + 1)) by nia. lia.
Qed.

Lemma decode_place d k :
  1 ≤ d.1 → place_req ps free (decode_req d) k =
  [if needs_page (d.1) =? 0 then d.2 + 1 else at_ free k * ps].
Proof.
  intros Hd. unfold place_req, ext, decode_req. simpl. replace (d.1 - (d.1 - 1)) with 1 by lia.
  change (seqZ 0 1) with [0]. simpl. f_equal. unfold place, needs_page. simpl. set (p := d.1 - 1). rewrite Z.add_0_r.
  pose proof (Z.div_mod p ps ltac:(lia)) as Hdm. pose proof (Z.mod_pos_bound p ps Hps) as Hm.
  unfold ceil_align. destruct (Z.eqb_spec (p mod ps) 0) as [E|E]; simpl.
  - rewrite (ceil_div_unique ps Hps p (p / ps)) by nia.
    destruct (Z.ltb_spec p (p / ps * ps)); [lia|]. rewrite E, Z.sub_diag, !Z.add_0_r. done.
  - rewrite (ceil_div_unique ps Hps p (p / ps + 1)) by nia.
    destruct (Z.ltb_spec p ((p / ps + 1) * ps)); [lia|nia].
Qed.

Lemma decode_batch_lookup ds k i d :
  Forall (λ d, 1 ≤ d.1) ds → ds !! i = Some d →
  place_batch ps free (decode_req <$> ds) k !! i =
  Some (if needs_page (d.1) =? 0 then d.2 + 1
        else at_ free (k + zsum (take i ((λ d, needs_page d.1) <$> ds))) * ps).
Proof.
  revert k i. induction ds as [|d' ds IH]; intros k i Hf Hd; [done|].
  apply Forall_cons in Hf as [Hd' Hf]. rewrite fmap_cons. cbn [place_batch].
  rewrite decode_place, decode_new_pages by done. destruct i as [|i]; simpl in *.
  - injection Hd as ->. by rewrite Z.add_0_r.
  - rewrite (IH _ i) by done. by rewrite Z.add_assoc.
Qed.

Lemma length_decode_batch ds k :
  Forall (λ d, 1 ≤ d.1) ds → length (place_batch ps free (decode_req <$> ds) k) = length ds.
Proof.
  revert k. induction ds as [|d ds IH]; intros k Hf; [done|]. apply Forall_cons in Hf as [Hd Hf].
  rewrite fmap_cons. cbn [place_batch]. rewrite decode_place by done. simpl. by rewrite IH.
Qed.

Definition decode_pages (ds : list (Z * Z)) : Z := zsum ((λ d, needs_page d.1) <$> ds).

Lemma needs_page_01 s : needs_page s = 0 ∨ needs_page s = 1.
Proof. unfold needs_page. destruct (_ =? 0); auto. Qed.

Lemma needs_pages_nonneg (ds : list (Z * Z)) : Forall (λ x, 0 ≤ x) ((λ d, needs_page d.1) <$> ds).
Proof.
  apply Forall_fmap, Forall_forall. intros d _. unfold compose. destruct (needs_page_01 d.1) as [->| ->]; lia.
Qed.

(** The page rank of a request that needs a page. *)
Lemma decode_rank ds i d :
  ds !! i = Some d → needs_page d.1 ≠ 0 →
  0 ≤ zsum (take i ((λ d, needs_page d.1) <$> ds)) ≤ decode_pages ds - 1.
Proof.
  intros Hd Hn. pose proof (needs_pages_nonneg ds) as Hf. split.
  - apply zsum_nonneg. by apply Forall_take.
  - assert (((λ d, needs_page d.1) <$> ds) !! i = Some (needs_page d.1)) as Hi by by rewrite list_lookup_fmap, Hd.
    pose proof (zsum_take_S _ _ _ Hi). pose proof (lookup_lt_Some _ _ _ Hi).
    pose proof (zsum_take_le _ (S i) (length ((λ d, needs_page d.1) <$> ds)) Hf ltac:(lia)) as Hle.
    rewrite firstn_all in Hle. unfold decode_pages. destruct (needs_page_01 d.1); lia.
Qed.

Lemma decode_naive_eq ds :
  Forall (λ d, 1 ≤ d.1) ds →
  alloc_decode_naive ps (ds.*1) (ds.*2) free (decode_pages ds)
  = place_batch ps free (decode_req <$> ds) 0.
Proof.
  intros Hf. unfold alloc_decode_naive. apply list_eq. intros i.
  destruct (ds !! i) as [d|] eqn:Hd; last first.
  { apply lookup_ge_None in Hd. rewrite !lookup_ge_None_2; [done|rewrite length_decode_batch by done; lia|].
    destruct (_ =? 0); [by rewrite !length_fmap|]. rewrite length_zip_with, !length_fmap. lia. }
  rewrite (decode_batch_lookup ds 0 i d Hf Hd), Z.add_0_l.
  destruct (Z.eqb_spec (decode_pages ds) 0) as [E|E].
  - rewrite !list_lookup_fmap, Hd. simpl. destruct (Z.eqb_spec (needs_page d.1) 0) as [|Hn]; [done|].
    pose proof (decode_rank ds i d Hd Hn). lia.
  - rewrite <- list_fmap_compose. unfold compose. fold needs_page.
    pose proof (lookup_lt_Some _ _ _ Hd) as Hi.
    rewrite !lookup_zip_with, !list_lookup_fmap, lookup_zip_with, !list_lookup_fmap, Hd.
    unfold cumsum. rewrite cumsum_from_lookup by (by rewrite length_fmap). simpl.
    change (if (d.1 - 1) mod ps =? 0 then 1 else 0) with (needs_page d.1).
    destruct (Z.eqb_spec (needs_page d.1) 0) as [|Hn]; [done|]. do 3 f_equal.
    assert (((λ d, needs_page d.1) <$> ds) !! i = Some (needs_page d.1)) as Hl by by rewrite list_lookup_fmap, Hd.
    change (λ x, if (x.1 - 1) mod ps =? 0 then 1 else 0) with (λ x : Z * Z, needs_page x.1).
    rewrite (zsum_take_S _ _ _ Hl). pose proof (decode_rank ds i d Hd Hn). lia.
Qed.

(** The decode count of [get_num_new_pages], for pages of more than one slot. *)
Lemma num_new_pages_decode ds :
  1 < ps → Forall (λ d, 1 ≤ d.1) ds →
  get_num_new_pages (ds.*1) ps None true = Ok (decode_pages ds).
Proof.
  intros Hp Hf. simpl. f_equal. unfold decode_pages. rewrite <- list_fmap_compose. f_equal.
  apply list_fmap_ext. intros i d Hd. unfold compose, needs_page.
  pose proof (Forall_lookup_1 _ _ _ _ Hf Hd) as Hd1. cbv beta in Hd1. set (p := d.1 - 1).
  replace (d.1) with (p + 1) by lia. pose proof (Z.mod_pos_bound p ps Hps) as Hm.
  rewrite <- Z.add_mod_idemp_l by lia. destruct (Z.eqb_spec (p mod ps) 0) as [E|E].
  - rewrite E, Z.mod_small by lia. done.
  - destruct (decide (p mod ps + 1 < ps)).
    + rewrite Z.mod_small by lia. destruct (Z.eqb_spec (p mod ps + 1) 1); [lia|done].
    + replace (p mod ps + 1) with ps by lia. rewrite Z.mod_same by lia. done.
Qed.
End decode.

(** ** A decode step as a batch of one-token extensions *)

Lemma decode_batch_ok (ds : list (Z * Z)) : Forall (λ d, 1 ≤ d.1) ds → batch_ok (decode_req <$> ds).
Proof. intros H. apply Forall_fmap. eapply Forall_impl; [exact H|]. intros d Hd. cbn in *. lia. Qed.

Lemma decode_sum_ext (ds : list (Z * Z)) : sum_ext (decode_req <$> ds) = zlen ds.
Proof.
  induction ds as [|d ds IH]; [done|]. rewrite fmap_cons. change (sum_ext (?x :: ?l)) with (ext x + sum_ext l). rewrite IH.
  unfold ext, zlen. cbn [decode_req r_seq r_prefix length]. lia.
Qed.

Lemma decode_sum_pages ps (ds : list (Z * Z)) : 0 < ps → Forall (λ d, 1 ≤ d.1) ds →
  sum_pages ps (decode_req <$> ds) = decode_pages ps ds.
Proof.
  intros Hps H. unfold sum_pages, decode_pages. f_equal. rewrite <- list_fmap_compose. apply list_fmap_ext. intros i d Hd.
  rewrite Forall_lookup in H. apply decode_new_pages; [done|by eapply H].
Qed.

Lemma imap_fmap_seq {A B} (f : nat → A → B) (g : nat → A) a n :
  imap (λ i, f (a + i)%nat) (g <$> seq a n) = (λ l, f l (g l)) <$> seq a n.
Proof.
  revert a. induction n as [|n IH]; intros a; [done|]. rewrite <- cons_seq, !fmap_cons, imap_cons.
  f_equal; [by rewrite Nat.add_0_r|]. rewrite <- IH. apply imap_ext. intros i x _. unfold compose. f_equal. lia.
Qed.

(** A launch whose programs store the next slot of their requests. *)
Lemma launch_decode ps (Hps : 0 < ps) free ds (Hf : Forall (λ d : Z * Z, 1 ≤ d.1) ds) prog order out n :
  (∀ pid d, ds !! pid = Some d → prog pid =
     [(Z.of_nat pid, if needs_page ps (d.1) =? 0 then d.2 + 1
                     else at_ free (zsum (take pid ((λ d, needs_page ps d.1) <$> ds))) * ps)]) →
  (∀ pid, (length ds ≤ pid < n)%nat → prog pid = []) → (length ds ≤ n)%nat →
  order ≡ₚ seq 0 n → length out = length ds → launch prog order out = place_batch ps free (decode_req <$> ds) 0.
Proof.
  intros Hprog Hnone Hn Ho Hl. pose proof (length_decode_batch ps Hps free ds 0 Hf) as Hlen. unfold launch.
  assert (∀ a v, (a, v) ∈ mjoin (prog <$> order) ↔ ∃ pid, (pid < length ds)%nat ∧ (a, v) ∈ prog pid) as Hw.
  { intros a v. rewrite list_elem_of_join. setoid_rewrite list_elem_of_fmap. split.
    - intros (l & Hin & pid & -> & Hpid). rewrite Ho in Hpid. apply elem_of_seq in Hpid as [_ Hpid].
      destruct (decide (pid < length ds)%nat); [by exists pid|]. rewrite Hnone in Hin by lia. by apply not_elem_of_nil in Hin.
    - intros (pid & Hpid & Hin). exists (prog pid). split; [done|]. exists pid. split; [done|].
      rewrite Ho. apply elem_of_seq. lia. }
  apply run_stores_ref; [lia| |].
  - intros [a v] (pid & Hpid & Hin)%Hw. destruct (lookup_lt_is_Some_2 ds pid Hpid) as [d Hd].
    rewrite (Hprog pid d Hd) in Hin. apply list_elem_of_singleton in Hin as [= -> ->].
    cbn [fst snd]. rewrite Nat2Z.id, (decode_batch_lookup ps Hps free ds 0 pid d Hf Hd). by rewrite Z.add_0_l.
  - intros j Hj. rewrite Hlen in Hj. destruct (lookup_lt_is_Some_2 ds j Hj) as [d Hd].
    eexists (_, _). split; [apply Hw; exists j; split; [done|];
      rewrite (Hprog j d Hd); by apply list_elem_of_singleton|].
    cbn [fst]. by rewrite Nat2Z.id.
Qed.

Section decode_kernel.
Context (ps : Z) (Hps : 0 < ps) (bs_upper : nat) (oob : Z) (free : list Z) (ds : list (Z * Z)).
Context (Hf : Forall (λ d, 1 ≤ d.1) ds) (Hbs : (length ds ≤ bs_upper)%nat).

Lemma decode_kernel_unfold pid d :
  ds !! pid = Some d →
  alloc_decode_kernel ps bs_upper oob (ds.*1) (ds.*2) free pid =
  [(Z.of_nat pid, if needs_page ps (d.1) =? 0 then d.2 + 1
                  else at_ free (zsum (take pid ((λ d, needs_page ps d.1) <$> ds))) * ps)].
Proof.
  intros Hd. pose proof (lookup_lt_Some _ _ _ Hd) as Hpid. unfold alloc_decode_kernel.
  rewrite !(list_lookup_total_correct (_ <$> ds) pid _) by (by rewrite list_lookup_fmap, Hd).
  set (sum := zsum _).
  assert (sum = zsum (take (S pid) ((λ d, needs_page ps d.1) <$> ds))) as ->.
  { unfold sum, masked_load. pose proof (imap_fmap_seq (λ l s, if (l <=? pid)%nat then s - 1 else s)
      (λ l, if (l <=? pid)%nat then ds.*1 !!! l else oob) 0 bs_upper) as Ei. simpl in Ei. rewrite Ei.
    rewrite <- !list_fmap_compose, zip_with_fmap_same, <- zsum_seq_take by (rewrite length_fmap; lia).
    rewrite <- (zsum_masked _ pid bs_upper) by lia. f_equal. apply list_fmap_ext. intros i l Hl.
    apply lookup_seq in Hl as [-> Hi]. unfold compose. simpl. destruct (Nat.leb_spec i pid) as [Hle|]; [|lia].
    destruct (lookup_lt_is_Some_2 ds i ltac:(lia)) as [e He].
    rewrite !(list_lookup_total_correct (_ <$> ds) i _) by (by rewrite list_lookup_fmap, He).
    rewrite <- decode_new_pages; [done|done|]. apply (Forall_lookup_1 _ _ _ _ Hf He). }
  rewrite (zsum_take_S _ pid (needs_page ps d.1)) by (by rewrite list_lookup_fmap, Hd).
  assert ((d.1 + ps - 1) / ps - (d.1 - 1 + ps - 1) / ps = needs_page ps d.1) as ->.
  { rewrite <- decode_new_pages; [done|done|]. apply (Forall_lookup_1 _ _ _ _ Hf Hd). }
  rewrite Z.add_simpl_r. by destruct (_ =? 0).
Qed.

Lemma decode_kernel_eq order out :
  order ≡ₚ seq 0 (length ds) → length out = length ds →
  launch (alloc_decode_kernel ps bs_upper oob (ds.*1) (ds.*2) free) order out
  = place_batch ps free (decode_req <$> ds) 0.
Proof.
  intros Ho Hl. apply (launch_decode ps Hps free ds Hf _ order out (length ds)); try done.
  - intros pid d Hd. by apply decode_kernel_unfold.
  - intros pid Hpid. lia.
Qed.
End decode_kernel.

(** ** The HIP decode step is the reference *)

Lemma to_int32_small x : - 2 ^ 31 ≤ x < 2 ^ 31 → to_int32 x = x.
Proof. intros Hx. unfold to_int32. rewrite Z.mod_small; lia. Qed.

(** Where a page is continued, its next slot fits in 32 bits. *)
Definition fits_int32 (ps : Z) (d : Z * Z) : Prop := needs_page ps d.1 = 0 → 0 ≤ d.2 ∧ d.2 + 1 < 2 ^ 31.

Section hcu_decode.
Context (ps : Z) (Hps : 0 < ps) (free : list Z) (ds : list (Z * Z)).
Context (Hf : Forall (λ d, 1 ≤ d.1) ds) (H32 : Forall (fits_int32 ps) ds).

Abbreviation dthread := (launch_alloc_decode_kernel ps (ds.*1) (to_int32 <$> ds.*2) free (zlen ds)).

Lemma hcu_decode_unfold pid d :
  ds !! pid = Some d →
  dthread pid = [(Z.of_nat pid, if needs_page ps (d.1) =? 0 then d.2 + 1
                                else at_ free (zsum (take pid ((λ d, needs_page ps d.1) <$> ds))) * ps)].
Proof.
  intros Hd. pose proof (lookup_lt_Some _ _ _ Hd) as Hpid. unfold launch_alloc_decode_kernel.
  destruct (Z.leb_spec (zlen ds) (Z.of_nat pid)); [unfold zlen in *; lia|].
  assert (∀ i e, ds !! i = Some e → ds.*1 !!! i = e.1 ∧ 1 ≤ e.1 ∧
    dev_ceil_div e.1 ps - dev_ceil_div (e.1 - 1) ps = needs_page ps e.1) as Hcol.
  { intros i e He. pose proof (Forall_lookup_1 _ _ _ _ Hf He) as H1. cbv beta in H1.
    split; [|split; [done|]]; [apply list_lookup_total_correct; by rewrite list_lookup_fmap, He|].
    rewrite !dev_ceil_div_eq by lia. rewrite <- decode_new_pages by done. done. }
  rewrite (sum_upto_take ds _ (λ d, needs_page ps d.1) pid Hpid); last first.
  { intros i e Hi He. destruct (Hcol i e He) as (-> & _ & <-). by rewrite (proj2 (Nat.leb_le i pid)). }
  rewrite (zsum_take_S _ pid (needs_page ps d.1)) by (by rewrite list_lookup_fmap, Hd).
  destruct (Hcol pid d Hd) as (-> & H1 & ->). rewrite Z.add_simpl_r.
  rewrite (list_lookup_total_correct (to_int32 <$> ds.*2) pid (to_int32 d.2)) by (by rewrite !list_lookup_fmap, Hd).
  destruct (Z.eqb_spec (needs_page ps d.1) 0) as [E|]; [|done].
  destruct (Forall_lookup_1 _ _ _ _ H32 Hd E). by rewrite !to_int32_small by (rewrite ?to_int32_small; lia).
Qed.

(** Whatever order the threads run in. *)
Lemma hcu_decode_any order out :
  order ≡ₚ hcu_threads (zlen ds) → length out = length ds →
  launch dthread order out = place_batch ps free (decode_req <$> ds) 0.
Proof.
  intros Ho Hl. destruct (hcu_threads_cover (length ds)) as (m & Em & Hm). unfold zlen in Ho at 1. rewrite Em in Ho.
  apply (launch_decode ps Hps free ds Hf _ order out m); try done.
  - intros pid d Hd. by apply hcu_decode_unfold.
  - intros pid Hpid. unfold launch_alloc_decode_kernel. destruct (Z.leb_spec (zlen ds) (Z.of_nat pid)); [done|].
    unfold zlen in *. lia.
Qed.

Lemma hcu_decode_eq out :
  length out = length ds →
  hcu_alloc_decode_kernel ps (ds.*1) (to_int32 <$> ds.*2) free out (zlen ds) = place_batch ps free (decode_req <$> ds) 0.
Proof. intros Hl. by apply hcu_decode_any. Qed.
End hcu_decode.

(** ** Theorems *)

(** C38: the vectorised extension, the Triton kernel and the HIP kernel place a
    batch on the same slots, those of the sequential reference, whatever the
    order in which the programs of the one and the threads of the other run and
    whatever masked-out lanes read, as long as the pool holds the new pages of
    the batch. *)
Theorem extend_kernel_is_naive ps bs_upper oob free rs order threads out :
  0 < ps → batch_ok rs → sum_pages ps rs ≤ zlen free → (length rs ≤ bs_upper)%nat →
  order ≡ₚ seq 0 (length rs) → threads ≡ₚ hcu_threads (zlen rs) → zlen out = sum_ext rs →
  let prefix_lens := r_prefix <$> rs in
  let seq_lens := r_seq <$> rs in
  let last_loc := r_last <$> rs in
  let kernel := alloc_extend_kernel ps bs_upper oob prefix_lens seq_lens last_loc free in
  let thread := launch_alloc_extend_kernel ps prefix_lens seq_lens last_loc free (zlen rs) in
  alloc_extend_naive ps prefix_lens seq_lens last_loc free (sum_ext rs) = Ok (launch kernel order out) ∧
  launch kernel order out = place_batch ps free rs 0 ∧
  launch thread threads out = place_batch ps free rs 0 ∧
  get_num_new_pages seq_lens ps (Some prefix_lens) false = Ok (sum_pages ps rs).
Proof.
  intros Hps Hb Hpool Hbs Ho Hth Hl. cbv zeta. rewrite extend_naive_eq, extend_kernel_eq, hcu_extend_any by done.
  split; [done|]. split; [done|]. split; [done|]. simpl. rewrite zip_with_fmap_same. done.
Qed.

Lemma extend_kernel_is_naive_witness :
  let rs := [mkReq 3 7 10; mkReq 0 2 (-1)] in
  place_batch 4 [5; 6; 9] rs 0 = [11; 20; 21; 22; 24; 25].
Proof.
  intros rs.
  destruct (extend_kernel_is_naive 4 2 77 [5; 6; 9] rs [1; 0]%nat (reverse (hcu_threads 2)) [0; 0; 0; 0; 0; 0])
    as (_ & _ & <- & _); [done|by repeat constructor|done|done|apply Permutation_swap|apply reverse_Permutation|done|by vm_compute].
Defined.

(** For pages of more than one slot, the vectorised decode step, the Triton
    kernel and, for slots below [2^31], the HIP kernel give every request the
    same next slot, that of the reference: the slot after its last one, or the
    first slot of a fresh page when the last page is full; the page count the
    allocator takes off the free list is the number of requests that start a
    page. *)
Theorem decode_kernel_is_naive ps bs_upper oob free ds order threads out :
  1 < ps → Forall (λ d : Z * Z, 1 ≤ d.1) ds → Forall (fits_int32 ps) ds → (length ds ≤ bs_upper)%nat →
  order ≡ₚ seq 0 (length ds) → threads ≡ₚ hcu_threads (zlen ds) → length out = length ds →
  ∃ n, get_num_new_pages (ds.*1) ps None true = Ok n ∧
    n = sum_pages ps (decode_req <$> ds) ∧
    alloc_decode_naive ps (ds.*1) (ds.*2) free n
    = launch (alloc_decode_kernel ps bs_upper oob (ds.*1) (ds.*2) free) order out ∧
    alloc_decode_naive ps (ds.*1) (ds.*2) free n
    = launch (launch_alloc_decode_kernel ps (ds.*1) (to_int32 <$> ds.*2) free (zlen ds)) threads out ∧
    alloc_decode_naive ps (ds.*1) (ds.*2) free n = place_batch ps free (decode_req <$> ds) 0.
Proof.
  intros Hps Hf H32 Hbs Ho Hth Hl. exists (decode_pages ps ds).
  rewrite num_new_pages_decode, decode_naive_eq, decode_kernel_eq, hcu_decode_any by (done || lia).
  split; [done|]. split; [|done]. unfold decode_pages, sum_pages. rewrite <- list_fmap_compose. f_equal.
  apply list_fmap_ext. intros i d Hd. unfold compose. symmetry. apply decode_new_pages; [lia|].
  apply (Forall_lookup_1 _ _ _ _ Hf Hd).
Qed.

Lemma decode_kernel_is_naive_witness :
  let ds := [(5, 7); (6, 20)] in
  place_batch 4 [3; 8] (decode_req <$> ds) 0 = [12; 21].
Proof.
  intros ds.
  destruct (decode_kernel_is_naive 4 2 0 [3; 8] ds [1; 0]%nat (hcu_threads 2) [0; 0])
    as (n & E & _ & _ & _ & <-); [done|by repeat constructor|by repeat constructor|done|apply Permutation_swap|done|done|].
  vm_compute in E. injection E as <-. by vm_compute.
Defined.

(** At a page size of one the decode count of [get_num_new_pages] is zero
    although every request then needs a page of its own, as the general formula
    and the kernel count. *)
Theorem num_new_pages_decode_page_one (seq_lens : list Z) :
  Forall (λ s, 1 ≤ s) seq_lens →
  get_num_new_pages seq_lens 1 None true = Ok 0 ∧
  get_num_new_pages seq_lens 1 (Some ((λ s, s - 1) <$> seq_lens)) false = Ok (zlen seq_lens).
Proof.
  intros Hf. split; simpl; f_equal.
  - induction seq_lens as [|s l IH]; [done|]. apply Forall_cons in Hf as [_ Hf].
    rewrite fmap_cons. simpl. rewrite Z.mod_1_r, IH by done. done.
  - induction seq_lens as [|s l IH]; [done|]. apply Forall_cons in Hf as [_ Hf].
    rewrite fmap_cons. simpl. rewrite IH, !Z.div_1_r by done. unfold zlen. simpl. lia.
Qed.

Lemma num_new_pages_decode_page_one_witness : get_num_new_pages [3; 4] 1 None true = Ok 0.
Proof. apply (num_new_pages_decode_page_one [3; 4]). by repeat constructor. Defined.
