(* ===== verification/PagedAllocator.v ===== *)
(** * The paged allocator ([mem_cache/allocator/paged.py])

    Pages instead of slots: the free list, pages staged for a later sort,
    pages waiting in a free group (token frees are reduced to pages when the
    group ends, page frees are kept apart), and the extend and decode entry
    points that place tokens with one of the routines of PagedKernels.v. *)
From S2P Require Import Prelude TokenAllocator PagedKernels.

(** [torch.unique]. *)
Definition tunique (l : list Z) : list Z := tsort (remove_dups l).

(** [int.bit_length] of a non-negative number. *)
Definition bit_length (n : Z) : Z := if n =? 0 then 0 else Z.log2 n + 1.

(** [utils/common.py: next_power_of_2]. *)
Definition next_power_of_2 (n : Z) : Z := if 0 <? n then Z.shiftl 1 (bit_length (n - 1)) else 1.

(** The placement routine: [sglang_kvalloc_kernel] selects the HIP kernels,
    whose extension the [lightop] package replaces when it is asked for and
    installed; else [use_triton_kernels] selects between the other two. *)
Inductive backend := Hcu | Lightop | Triton | Native.

Definition is_hcu (k : backend) : bool := match k with Hcu | Lightop => true | Triton | Native => false end.

Record PagedTokenToKVPoolAllocator := mkPaged {
  psize : Z;
  ppage_size : Z;
  num_pages : Z;
  pneed_sort : bool;
  debug_mode : bool;
  kernels : backend;
  free_pages : list Z;
  staged_pages : list (list Z);
  num_staged_pages : Z;
  free_group : option (list (list Z));
  free_page_ids_group : list (list Z)
}.

Abbreviation Alloc := PagedTokenToKVPoolAllocator.

Definition with_free (f : list Z) (a : Alloc) : Alloc :=
  mkPaged (psize a) (ppage_size a) (num_pages a) (pneed_sort a) (debug_mode a) (kernels a)
    f (staged_pages a) (num_staged_pages a) (free_group a) (free_page_ids_group a).
Definition with_staged (s : list (list Z)) (n : Z) (a : Alloc) : Alloc :=
  mkPaged (psize a) (ppage_size a) (num_pages a) (pneed_sort a) (debug_mode a) (kernels a)
    (free_pages a) s n (free_group a) (free_page_ids_group a).
Definition with_group (g : option (list (list Z))) (ids : list (list Z)) (a : Alloc) : Alloc :=
  mkPaged (psize a) (ppage_size a) (num_pages a) (pneed_sort a) (debug_mode a) (kernels a)
    (free_pages a) (staged_pages a) (num_staged_pages a) g ids.

Definition pclear (a : Alloc) : Alloc :=
  mkPaged (psize a) (ppage_size a) (num_pages a) (pneed_sort a) (debug_mode a) (kernels a)
    (arange1 (num_pages a)) [] 0 None [].

Definition paged_init (size page_size : Z) (need_sort debug : bool) (k : backend) : Alloc :=
  pclear (mkPaged size page_size (size / page_size) need_sort debug k [] [] 0 None []).

Definition presize (a : Alloc) (max_total_num_tokens : Z) : Alloc :=
  pclear (mkPaged max_total_num_tokens (ppage_size a)
            (if 1 <? ppage_size a then max_total_num_tokens / ppage_size a else num_pages a)
            (pneed_sort a) (debug_mode a) (kernels a) (free_pages a) (staged_pages a)
            (num_staged_pages a) (free_group a) (free_page_ids_group a)).

Definition pavailable_size (a : Alloc) : Z := (zlen (free_pages a) + num_staged_pages a) * ppage_size a.

Definition pget_all_free_pages (a : Alloc) : list Z := free_pages a ++ mjoin (staged_pages a).

Definition pmerge_and_sort_free (a : Alloc) : Alloc :=
  match staged_pages a with
  | [] => a
  | _ => with_staged [] 0 (with_free (tsort (pget_all_free_pages a)) a)
  end.

(** All slots of the given pages, in order. *)
Definition page_slots (page_size : Z) (pages : list Z) : list Z :=
  mjoin ((λ p, (λ o, p * page_size + o) <$> seqZ 0 page_size) <$> pages).

Definition palloc (a : Alloc) (need_size : Z) : result (option (list Z) * Alloc) :=
  assert! negb (debug_mode a) || (need_size mod ppage_size a =? 0) in
  let num := need_size / ppage_size a in
  let a := if zlen (free_pages a) <? num then pmerge_and_sort_free a else a in
  if zlen (free_pages a) <? num then Ok (None, a)
  else Ok (Some (page_slots (ppage_size a) (pytake (free_pages a) num)),
           with_free (pydrop (free_pages a) num) a).

Definition _debug_check_no_duplicate_pages (a : Alloc) : result unit :=
  assert_ (zlen (tunique (pget_all_free_pages a)) =? zlen (pget_all_free_pages a)).

(** One tensor of page ids; [_release_page_ids] is called with one. *)
Definition _release_page_ids (page_ids : list Z) (a : Alloc) : Alloc :=
  if pneed_sort a then
    with_staged (staged_pages a ++ [page_ids]) (num_staged_pages a + zlen page_ids) a
  else with_free (page_ids ++ free_pages a) a.

Definition pfree (a : Alloc) (free_index : list Z) : result Alloc :=
  if zlen free_index =? 0 then Ok a
  else
    let check (a : Alloc) : result Alloc :=
      if debug_mode a then let! _ := _debug_check_no_duplicate_pages a in Ok a else Ok a in
    match free_group a with
    | None =>
        let pages := tunique ((λ x, x / ppage_size a) <$> free_index) in
        let pages := List.filter (λ p, 0 <? p) pages in
        if zlen pages =? 0 then Ok a
        else
          let pages := List.filter (λ p, negb (bool_decide (p ∈ pget_all_free_pages a))) pages in
          if zlen pages =? 0 then Ok a else check (_release_page_ids pages a)
    | Some g => check (with_group (Some (g ++ [free_index])) (free_page_ids_group a) a)
    end.

Definition pfree_page_ids (a : Alloc) (page_ids : list Z) : result Alloc :=
  if zlen page_ids =? 0 then Ok a
  else match free_group a with
       | None =>
           let a := _release_page_ids page_ids a in
           if debug_mode a then let! _ := _debug_check_no_duplicate_pages a in Ok a else Ok a
       | Some g => Ok (with_group (Some g) (free_page_ids_group a ++ [page_ids]) a)
       end.

Definition pfree_segment (a : Alloc) (free_index : list Z) (start_pos : Z) : result Alloc :=
  if zlen free_index =? 0 then Ok a
  else
    let ps := ppage_size a in
    assert! start_pos mod ps =? 0 in
    let reps := every_nth (length free_index) (Z.to_nat ps) free_index in
    assert! negb (debug_mode a) ||
      bool_decide (tsort ((λ x, x / ps) <$> reps) = tunique ((λ x, x / ps) <$> free_index)) in
    pfree_page_ids a ((λ x, x / ps) <$> reps).

Definition pfree_group_begin (a : Alloc) : result Alloc :=
  assert! bool_decide (free_group a = None) in Ok (with_group (Some []) [] a).

Definition pfree_group_end (a : Alloc) : result Alloc :=
  let pending := free_group a in
  let a := with_group None (free_page_ids_group a) a in
  let! a := match pending with
            | Some ((_ :: _) as g) => pfree a (mjoin g)
            | _ => Ok a
            end in
  let a := match free_page_ids_group a with
           | [] => a
           | _ => with_group None [] (_release_page_ids (mjoin (free_page_ids_group a)) a)
           end in
  if debug_mode a then let! _ := _debug_check_no_duplicate_pages a in Ok a else Ok a.

(** ** Extension and decoding *)

Section place.
(** [lightop.op.hcu_alloc_extend_kernel], of a package that is not part of the
    repository. *)
Context (lightop_alloc_extend : Z → list Z → list Z → list Z → list Z → list Z → Z → list Z).
(** What masked-out lanes of the Triton kernels read. *)
Context (oob : Z).

Definition palloc_extend (a : Alloc) (prefix_lens seq_lens last_loc : list Z)
    (extend_num_tokens : Z) (num_new_pages : option Z) : result (option (list Z) * Alloc) :=
  assert! negb (debug_mode a) ||
    forallb (λ lp, (lp.1 + 1) mod ppage_size a =? lp.2 mod ppage_size a) (zip last_loc prefix_lens) in
  let bs := zlen prefix_lens in
  let max_new_pages := extend_num_tokens / ppage_size a + bs + 1 in
  let a := if zlen (free_pages a) <? max_new_pages then pmerge_and_sort_free a else a in
  let place (num_new_pages : option Z) : result (option (list Z) * Alloc) :=
    let out_indices := replicate (Z.to_nat extend_num_tokens) 0 in
    let! out := match kernels a with
      | Hcu => Ok (hcu_alloc_extend_kernel (ppage_size a) prefix_lens seq_lens last_loc (free_pages a) out_indices bs)
      | Lightop => Ok (lightop_alloc_extend (ppage_size a) prefix_lens seq_lens last_loc (free_pages a) out_indices bs)
      | Triton =>
          Ok (launch (alloc_extend_kernel (ppage_size a) (Z.to_nat (next_power_of_2 bs)) oob
                        prefix_lens seq_lens last_loc (free_pages a))
                (seq 0 (length prefix_lens)) out_indices)
      | Native => alloc_extend_naive (ppage_size a) prefix_lens seq_lens last_loc (free_pages a)
                    extend_num_tokens
      end in
    assert! negb (debug_mode a) || (zlen (tunique out) =? zlen out) in
    let! n := match num_new_pages with
              | Some n => Ok n
              | None => get_num_new_pages seq_lens (ppage_size a) (Some prefix_lens) false
              end in
    Ok (Some out, with_free (pydrop (free_pages a) n) a) in
  if zlen (free_pages a) <? max_new_pages then
    let! n := match num_new_pages with
              | Some n => Ok n
              | None => get_num_new_pages seq_lens (ppage_size a) (Some prefix_lens) false
              end in
    if zlen (free_pages a) <? n then Ok (None, a) else place (Some n)
  else place num_new_pages.

Definition palloc_decode (a : Alloc) (seq_lens last_loc : list Z) : result (option (list Z) * Alloc) :=
  assert! negb (debug_mode a) ||
    forallb (λ ls, (ls.1 + 2) mod ppage_size a =? ls.2 mod ppage_size a) (zip last_loc seq_lens) in
  let bs := zlen seq_lens in
  let a := if zlen (free_pages a) <? bs then pmerge_and_sort_free a else a in
  let! n := get_num_new_pages seq_lens (ppage_size a) None true in
  if zlen (free_pages a) <? n then Ok (None, a)
  else
    let out_indices := replicate (length seq_lens) 0 in
    let out := match kernels a with
      | Hcu | Lightop =>
          hcu_alloc_decode_kernel (ppage_size a) seq_lens (to_int32 <$> last_loc) (free_pages a) out_indices bs
      | Triton =>
          launch (alloc_decode_kernel (ppage_size a) (Z.to_nat (next_power_of_2 bs)) oob
                    seq_lens last_loc (free_pages a))
            (seq 0 (length seq_lens)) out_indices
      | Native => alloc_decode_naive (ppage_size a) seq_lens last_loc (free_pages a) n
      end in
    assert! negb (debug_mode a) || (zlen (tunique out) =? zlen out) in
    Ok (Some out, with_free (pydrop (free_pages a) n) a).
End place.

(** ** Conservation *)

(** Pages of the token frees that wait in an open group. *)
Definition pend (a : Alloc) : list Z :=
  List.filter (λ p, 0 <? p) (remove_dups ((λ x, x / ppage_size a) <$> mjoin (default [] (free_group a)))).

(** The decode kernel of the HIP backend computes slots in 32 bits. *)
Definition int32_slots (k : backend) (pages ps : Z) : Prop := is_hcu k = true → (pages + 1) * ps ≤ 2 ^ 31.

(** Every page is free, staged, waiting in the group or used, and only one;
    the counter of staged pages is exact, and slots are as wide as the backend. *)
Record pwf (a : Alloc) (used : list Z) : Prop := {
  pw_part : free_pages a ++ mjoin (staged_pages a) ++ pend a ++ mjoin (free_page_ids_group a) ++ used
            ≡ₚ arange1 (num_pages a);
  pw_staged : num_staged_pages a = zlen (mjoin (staged_pages a));
  pw_sort : pneed_sort a = false → staged_pages a = [];
  pw_ps : 0 < ppage_size a;
  pw_width : int32_slots (kernels a) (num_pages a) (ppage_size a)
}.

Lemma next_power_of_2_ge n : n ≤ next_power_of_2 n.
Proof.
  unfold next_power_of_2, bit_length. destruct (Z.ltb_spec 0 n); [|lia].
  destruct (Z.eqb_spec (n - 1) 0); [rewrite Z.shiftl_0_r; lia|].
  pose proof (Z.log2_spec (n - 1) ltac:(lia)) as Hl. rewrite Z.shiftl_1_l. lia.
Qed.

Lemma pwf_clear a : 0 < ppage_size a → int32_slots (kernels a) (num_pages a) (ppage_size a) → pwf (pclear a) [].
Proof. intros. split; try done. simpl. by rewrite !app_nil_r. Qed.

Lemma pwf_perm a used used' : used ≡ₚ used' → pwf a used → pwf a used'.
Proof. intros E []. split; try done. by rewrite <- E. Qed.

Lemma pwf_nodup a used :
  pwf a used →
  NoDup (free_pages a ++ mjoin (staged_pages a) ++ pend a ++ mjoin (free_page_ids_group a) ++ used).
Proof. intros [-> _ _ _ _]. apply NoDup_seqZ. Qed.

Lemma pwf_used_nodup a used : pwf a used → NoDup used.
Proof. intros Hwf. pose proof (pwf_nodup _ _ Hwf) as Hnd. by do 4 apply NoDup_app in Hnd as (_ & _ & Hnd). Qed.

Lemma pwf_used_range a used p : pwf a used → p ∈ used → 1 ≤ p ≤ num_pages a.
Proof.
  intros [Hp _ _ _] Hin. assert (p ∈ arange1 (num_pages a)) as H.
  { rewrite <- Hp. rewrite !elem_of_app. tauto. }
  apply elem_of_seqZ in H. lia.
Qed.

Lemma pwf_merge a used :
  pwf a used → pwf (pmerge_and_sort_free a) used ∧
  zlen (free_pages (pmerge_and_sort_free a)) = zlen (free_pages a) + num_staged_pages a.
Proof.
  intros Hwf. pose proof Hwf as [Hp Hs Hso Hps]. unfold pmerge_and_sort_free.
  destruct (staged_pages a) as [|s st] eqn:Es.
  - split; [done|]. rewrite Hs. unfold zlen at 3. simpl. lia.
  - split.
    + split; simpl; try done. change (pend _) with (pend a). rewrite tsort_perm.
      rewrite <- Hp. unfold pget_all_free_pages. rewrite Es. by rewrite <- app_assoc.
    + simpl. unfold zlen. rewrite (Permutation_length (tsort_perm _)). unfold pget_all_free_pages.
      rewrite length_app, Es, Hs. unfold zlen. lia.
Qed.

(** Taking the first [n] free pages. *)
Lemma pwf_take a used n :
  pwf a used → 0 ≤ n ≤ zlen (free_pages a) →
  pwf (with_free (pydrop (free_pages a) n) a) (pytake (free_pages a) n ++ used).
Proof.
  intros [Hp Hs Hso Hps] Hn. split; simpl; try done. change (pend _) with (pend a).
  rewrite <- Hp. rewrite <- (pytake_pydrop (free_pages a) n) at 3 by lia.
  set (t := pytake _ _). set (d := pydrop _ _). set (x := mjoin (staged_pages a)).
  set (y := pend a). set (z := mjoin (free_page_ids_group a)). solve_Permutation.
Qed.

Lemma pwf_release a used ids :
  pwf a (ids ++ used) → pwf (_release_page_ids ids a) used.
Proof.
  intros [Hp Hs Hso Hps]. unfold _release_page_ids. destruct (pneed_sort a) eqn:En; split; simpl; try done.
  - change (pend _) with (pend a). rewrite <- Hp, join_app. simpl. rewrite app_nil_r.
    set (x := mjoin (staged_pages a)). set (y := pend a). set (z := mjoin (free_page_ids_group a)).
    solve_Permutation.
  - rewrite join_app, Hs. simpl. rewrite app_nil_r, zlen_app. done.
  - by rewrite En.
  - change (pend _) with (pend a). rewrite <- Hp.
    set (x := mjoin (staged_pages a)). set (y := pend a). set (z := mjoin (free_page_ids_group a)).
    solve_Permutation.
  - intros _. by apply Hso.
Qed.

Lemma palloc_spec a need used :
  pwf a used → 0 ≤ need → debug_mode a = false →
  let n := need / ppage_size a in
  match palloc a need with
  | Ok (Some out, a') => n ≤ zlen (free_pages a) + num_staged_pages a ∧
      ∃ pages, zlen pages = n ∧ out = page_slots (ppage_size a) pages ∧ pwf a' (pages ++ used)
  | Ok (None, a') => zlen (free_pages a) + num_staged_pages a < n ∧ pwf a' used
  | Raise _ => False
  end.
Proof.
  intros Hwf Hn Hd. cbv zeta. unfold palloc. rewrite Hd. cbn [negb orb assert_ rbind].
  pose proof (pw_ps _ _ Hwf) as Hps. assert (0 ≤ need / ppage_size a) as Hq by (apply Z.div_pos; lia).
  destruct (pwf_merge a used Hwf) as [Hwfm Hlm]. set (n := need / ppage_size a) in *.
  assert (ppage_size (pmerge_and_sort_free a) = ppage_size a) as Eps.
  { unfold pmerge_and_sort_free. by destruct (staged_pages a). }
  pose proof (zlen_nonneg (mjoin (staged_pages a))) as Hs0. pose proof (pw_staged _ _ Hwf) as Hs.
  set (a1 := if zlen (free_pages a) <? n then _ else _).
  assert (pwf a1 used ∧ ppage_size a1 = ppage_size a ∧
          (zlen (free_pages a1) < n ↔ zlen (free_pages a) + num_staged_pages a < n)) as (Hwf1 & Ep1 & Hlt).
  { unfold a1. destruct (Z.ltb_spec (zlen (free_pages a)) n); [split; [done|split; [done|lia]]|].
    split; [done|]. split; [done|]. lia. }
  destruct (Z.ltb_spec (zlen (free_pages a1)) n) as [H1|H1].
  - split; [by apply Hlt|done].
  - split; [lia|]. exists (pytake (free_pages a1) n). split; [rewrite zlen_pytake by lia; lia|].
    rewrite Ep1. split; [done|]. apply pwf_take; [done|lia].
Qed.

(** ** Freeing *)

(** Pages named by token indices. *)
Definition toks_pages (ps : Z) (toks : list Z) : list Z := (λ x, x / ps) <$> toks.

Definition freed_of (ps : Z) (toks used : list Z) : list Z := filter (λ p, p ∈ toks_pages ps toks) used.
Definition kept_of (ps : Z) (toks used : list Z) : list Z := filter (λ p, ¬ p ∈ toks_pages ps toks) used.

Lemma elem_of_tunique l x : x ∈ tunique l ↔ x ∈ l.
Proof. unfold tunique. rewrite tsort_perm. apply elem_of_remove_dups. Qed.

Lemma NoDup_tunique l : NoDup (tunique l).
Proof. unfold tunique. rewrite tsort_perm. apply NoDup_remove_dups. Qed.

Lemma elem_of_bfilter {A} (f : A → bool) l x : x ∈ List.filter f l ↔ x ∈ l ∧ f x = true.
Proof. by rewrite !list_elem_of_In, filter_In. Qed.

Lemma NoDup_bfilter {A} (f : A → bool) l : NoDup l → NoDup (List.filter f l).
Proof. rewrite !NoDup_ListNoDup. apply List.NoDup_filter. Qed.

Lemma used_split ps toks used : used ≡ₚ freed_of ps toks used ++ kept_of ps toks used.
Proof. symmetry. apply filter_app_complement. Qed.

(** The duplicate check of the debug mode passes. *)
Lemma debug_check_ok a used : pwf a used → _debug_check_no_duplicate_pages a = Ok tt.
Proof.
  intros Hwf. pose proof (pwf_nodup _ _ Hwf) as Hnd. rewrite app_assoc in Hnd.
  apply NoDup_app in Hnd as (Hnd & _ & _). unfold _debug_check_no_duplicate_pages.
  rewrite (proj2 (Z.eqb_eq _ _)); [done|]. unfold tunique, zlen. f_equal. apply Permutation_length.
  rewrite tsort_perm. apply NoDup_Permutation; [apply NoDup_remove_dups|done|].
  intros x. apply elem_of_remove_dups.
Qed.

(** The pages [free] releases are the used ones among those of the tokens. *)
Lemma freed_pages a toks used :
  pwf a used →
  (∀ p, p ∈ toks_pages (ppage_size a) toks → p ∈ used ∨ p ≤ 0 ∨ p ∈ pget_all_free_pages a) →
  List.filter (λ p, negb (bool_decide (p ∈ pget_all_free_pages a)))
    (List.filter (λ p, 0 <? p) (tunique (toks_pages (ppage_size a) toks)))
  ≡ₚ freed_of (ppage_size a) toks used.
Proof.
  intros Hwf Hin. apply NoDup_Permutation.
  - apply NoDup_bfilter, NoDup_bfilter, NoDup_tunique.
  - apply NoDup_filter. by eapply pwf_used_nodup.
  - intros p. rewrite !elem_of_bfilter, elem_of_tunique, Z.ltb_lt, negb_true_iff, bool_decide_eq_false.
    unfold freed_of. rewrite list_elem_of_filter. split.
    + intros [[Ht Hp] Hf]. destruct (Hin p Ht) as [|[|]]; [done|lia|done].
    + intros [Ht Hu]. pose proof (pwf_used_range _ _ _ Hwf Hu). split; [split; [done|lia]|].
      intros Hf. pose proof (pwf_nodup _ _ Hwf) as Hnd. rewrite app_assoc in Hnd.
      apply NoDup_app in Hnd as (_ & Hd & _). apply (Hd p Hf). rewrite !elem_of_app. tauto.
Qed.

Lemma kept_nil ps used : kept_of ps [] used = used.
Proof.
  induction used as [|x used IH]; [done|]. unfold kept_of in *. rewrite filter_cons_True, IH; [done|].
  apply not_elem_of_nil.
Qed.

Lemma kept_perm ps toks used : freed_of ps toks used = [] → kept_of ps toks used ≡ₚ used.
Proof. intros E. pose proof (used_split ps toks used) as Hs. by rewrite E in Hs. Qed.

(** Freeing tokens frees their pages.  Page 0 and pages that are free already
    are ignored. *)
Lemma pfree_spec a toks used :
  pwf a used → free_group a = None →
  (∀ p, p ∈ toks_pages (ppage_size a) toks → p ∈ used ∨ p ≤ 0 ∨ p ∈ pget_all_free_pages a) →
  ∃ a', pfree a toks = Ok a' ∧ pwf a' (kept_of (ppage_size a) toks used) ∧
    debug_mode a' = debug_mode a ∧ free_page_ids_group a' = free_page_ids_group a ∧
    free_group a' = None ∧ ppage_size a' = ppage_size a.
Proof.
  intros Hwf Hg Hin. pose proof (freed_pages a toks used Hwf Hin) as Hfp. unfold pfree. rewrite Hg. cbv zeta.
  fold (toks_pages (ppage_size a) toks). set (ps := ppage_size a) in *.
  set (pos := List.filter (λ p, 0 <? p) _) in *. set (pages := List.filter _ pos) in *.
  assert (pages = [] → ∃ a', Ok a = Ok a' ∧ pwf a' (kept_of ps toks used) ∧
    debug_mode a' = debug_mode a ∧ free_page_ids_group a' = free_page_ids_group a ∧
    free_group a' = None ∧ ppage_size a' = ps) as Hnone.
  { intros E. exists a. split; [done|]. split; [|done]. eapply pwf_perm; [|done]. symmetry.
    apply kept_perm. rewrite E in Hfp. by apply Permutation_nil_l in Hfp. }
  destruct (Z.eqb_spec (zlen toks) 0) as [E|E].
  { apply zlen_nil_inv in E. apply Hnone. unfold pages, pos. by subst toks. }
  destruct (Z.eqb_spec (zlen pos) 0) as [E1|E1].
  { apply zlen_nil_inv in E1. apply Hnone. unfold pages. by rewrite E1. }
  destruct (Z.eqb_spec (zlen pages) 0) as [E2|E2]; [apply zlen_nil_inv in E2; by apply Hnone|].
  assert (pwf (_release_page_ids pages a) (kept_of ps toks used)) as Hwf'.
  { apply pwf_release. eapply pwf_perm; [|done]. rewrite Hfp. apply used_split. }
  rewrite (debug_check_ok _ _ Hwf'). cbn [rbind].
  exists (_release_page_ids pages a). split; [apply bool_if_same|]. split; [done|].
  unfold _release_page_ids. by destruct (pneed_sort a).
Qed.

(** Inside a group the tokens wait; their pages leave the used ones at once. *)
Lemma pfree_group_spec a g toks used :
  pwf a used → free_group a = Some g →
  (∀ p, p ∈ toks_pages (ppage_size a) toks → p ∈ used ∨ p ≤ 0 ∨ p ∈ pend a) →
  ∃ a', pfree a toks = Ok a' ∧ pwf a' (kept_of (ppage_size a) toks used) ∧ free_group a' ≠ None ∧
    debug_mode a' = debug_mode a.
Proof.
  intros Hwf Hg Hin. unfold pfree. destruct (Z.eqb_spec (zlen toks) 0) as [E|E].
  { apply zlen_nil_inv in E. subst toks. exists a. split; [done|]. split; [by rewrite kept_nil|]. split; congruence. }
  rewrite Hg. set (a1 := with_group (Some (g ++ [toks])) (free_page_ids_group a) a).
  assert (pend a1 ≡ₚ pend a ++ freed_of (ppage_size a) toks used) as Hpend.
  { apply NoDup_Permutation.
    - apply NoDup_bfilter, NoDup_remove_dups.
    - pose proof (pwf_nodup _ _ Hwf) as Hnd. do 2 apply NoDup_app in Hnd as (_ & _ & Hnd).
      apply NoDup_app in Hnd as (Hn1 & Hd & Hn2). apply NoDup_app. split; [done|]. split.
      + intros p Hp Hq. apply (Hd p Hp). apply list_elem_of_filter in Hq as [_ Hq]. rewrite elem_of_app. tauto.
      + apply NoDup_filter. by eapply pwf_used_nodup.
    - intros p. unfold pend at 1. rewrite elem_of_app. unfold freed_of. rewrite list_elem_of_filter.
      unfold pend at 1. rewrite !elem_of_bfilter, !elem_of_remove_dups, Z.ltb_lt.
      simpl. rewrite Hg. simpl. rewrite join_app, fmap_app, elem_of_app. simpl. rewrite app_nil_r.
      fold (toks_pages (ppage_size a) toks). split.
      + intros [[H1|H1] Hp]; [tauto|]. destruct (Hin p H1) as [|[|H2]]; [tauto|lia|].
        unfold pend in H2. rewrite elem_of_bfilter, elem_of_remove_dups, Z.ltb_lt, Hg in H2. tauto.
      + intros [?|[Ht Hu]]; [tauto|]. pose proof (pwf_used_range _ _ _ Hwf Hu). split; [tauto|lia]. }
  assert (pwf a1 (kept_of (ppage_size a) toks used)) as Hwf1.
  { pose proof Hwf as [Hp Hs Hso Hps]. split; simpl; try done. rewrite Hpend, <- Hp.
    pose proof (used_split (ppage_size a) toks used) as Hu. set (k := kept_of _ _ _) in *.
    set (f := freed_of _ _ _) in *. clearbody k f. rewrite Hu.
    set (x := mjoin (staged_pages a)). set (y := pend a). set (z := mjoin (free_page_ids_group a)).
    solve_Permutation. }
  exists a1. split; [|done]. rewrite (debug_check_ok _ _ Hwf1). apply bool_if_same.
Qed.

Lemma pfree_page_ids_spec a ids used :
  pwf a (ids ++ used) → ∃ a', pfree_page_ids a ids = Ok a' ∧ pwf a' used ∧
    ppage_size a' = ppage_size a ∧ debug_mode a' = debug_mode a.
Proof.
  intros Hwf. unfold pfree_page_ids. destruct (Z.eqb_spec (zlen ids) 0) as [E|E].
  { apply zlen_nil_inv in E. subst ids. by exists a. }
  destruct (free_group a) as [g|] eqn:Eg.
  - eexists. split; [done|]. split; [|done]. pose proof Hwf as [Hp Hs Hso Hps]. split; simpl; try done.
    assert (pend (with_group (Some g) (free_page_ids_group a ++ [ids]) a) = pend a) as ->
      by (unfold pend; simpl; by rewrite Eg).
    rewrite <- Hp, join_app. simpl. rewrite app_nil_r.
    set (x := mjoin (staged_pages a)). set (y := pend a). set (z := mjoin (free_page_ids_group a)).
    solve_Permutation.
  - assert (pwf (_release_page_ids ids a) used) as Hwf' by by apply pwf_release.
    rewrite (debug_check_ok _ _ Hwf'). cbn [rbind]. eexists.
    split; [apply bool_if_same|]. split; [done|]. unfold _release_page_ids. by destruct (pneed_sort a).
Qed.

(** Nothing waits outside a group. *)
Definition no_orphans (a : Alloc) : Prop := free_group a = None → free_page_ids_group a = [].

Lemma pfree_group_begin_spec a used :
  pwf a used → no_orphans a →
  match pfree_group_begin a with
  | Ok a' => free_group a = None ∧ pwf a' used
  | Raise e => free_group a ≠ None ∧ e = AssertionError
  end.
Proof.
  intros Hwf Hg. unfold pfree_group_begin. case_bool_decide as E; simpl; [|done]. split; [done|].
  pose proof Hwf as [Hp Hs Hso Hps]. split; simpl; try done. rewrite <- Hp, (Hg E).
  assert (pend a = []) as -> by (unfold pend; by rewrite E). done.
Qed.

Lemma kept_app ps toks l1 l2 : kept_of ps toks (l1 ++ l2) = kept_of ps toks l1 ++ kept_of ps toks l2.
Proof. apply filter_app. Qed.

Lemma kept_none ps toks l : (∀ p, p ∈ l → p ∈ toks_pages ps toks) → kept_of ps toks l = [].
Proof.
  intros Hl. destruct (kept_of ps toks l) as [|p k] eqn:E; [done|].
  assert (p ∈ kept_of ps toks l) as Hin by (rewrite E; by left).
  apply list_elem_of_filter in Hin as [Hn Hin]. by apply Hl in Hin.
Qed.

Lemma kept_all ps toks l : (∀ p, p ∈ l → p ∉ toks_pages ps toks) → kept_of ps toks l = l.
Proof.
  induction l as [|x l IH]; intros Hl; [done|]. unfold kept_of in *.
  rewrite filter_cons_True by (apply Hl; by left). f_equal. apply IH. intros p Hp. apply Hl. by right.
Qed.

(** First the tokens freed in the group: each of their pages becomes free once. *)
Lemma group_tokens_freed a used :
  pwf a used → let a0 := with_group None (free_page_ids_group a) a in
  ∃ a1, (match free_group a with Some ((_ :: _) as g) => pfree a0 (mjoin g) | _ => Ok a0 end) = Ok a1 ∧
    free_group a1 = None ∧ free_page_ids_group a1 = free_page_ids_group a ∧ pwf a1 used ∧
    debug_mode a1 = debug_mode a.
Proof.
  intros Hwf a0. pose proof Hwf as [Hp Hs Hso Hps].
  assert (pwf a0 (pend a ++ used)) as Hwf0.
  { split; simpl; try done. rewrite <- Hp. set (x := mjoin (staged_pages a)). set (y := pend a).
    set (z := mjoin (free_page_ids_group a)). solve_Permutation. }
  assert (mjoin (default [] (free_group a)) = [] → pwf a0 used) as Hnil.
  { intros E. assert (pend a = []) as Ep by (unfold pend; by rewrite E). by rewrite Ep in Hwf0. }
  destruct (free_group a) as [[|t g]|] eqn:Eg; [by exists a0; auto 6| |by exists a0; auto 6].
  set (toks := mjoin (t :: g)).
  assert (∀ p, p ∈ pend a ↔ p ∈ toks_pages (ppage_size a) toks ∧ 0 < p) as Hpe.
  { intros p. unfold pend. by rewrite elem_of_bfilter, elem_of_remove_dups, Z.ltb_lt, Eg. }
  destruct (pfree_spec a0 toks (pend a ++ used) Hwf0 eq_refl) as (a1 & Ea1 & Hwf1 & Hd1 & Hi & Hg & _).
  { intros p Hp'. destruct (decide (0 < p)); [|right; left; lia]. left. rewrite elem_of_app, Hpe. by left. }
  exists a1. split; [done|]. split; [done|]. split; [done|]. split; [|done].
  rewrite kept_app, (kept_none _ _ (pend a)), (kept_all _ _ used) in Hwf1; [done| |].
  2: { intros p Hin. by apply Hpe in Hin as [? _]. }
  intros p Hu Ht. pose proof (pwf_used_range _ _ _ Hwf Hu).
  pose proof (pwf_nodup _ _ Hwf) as Hnd. do 2 apply NoDup_app in Hnd as (_ & _ & Hnd).
  apply NoDup_app in Hnd as (_ & Hd & _). apply (Hd p); [apply Hpe; split; [done|lia]|].
  rewrite elem_of_app. by right.
Qed.

(** Then the pages freed in it. *)
Lemma group_pages_freed a used :
  pwf a used → free_group a = None →
  let a' := match free_page_ids_group a with
            | [] => a
            | _ => with_group None [] (_release_page_ids (mjoin (free_page_ids_group a)) a)
            end in
  pwf a' used ∧ free_group a' = None ∧ free_page_ids_group a' = [] ∧ debug_mode a' = debug_mode a.
Proof.
  intros Hwf Hg. destruct (free_page_ids_group a) as [|i l] eqn:Ei; [done|].
  split; [|unfold _release_page_ids; by destruct (pneed_sort a)]. set (ids := mjoin (i :: l)).
  assert (pwf (with_group None [] a) (ids ++ used)) as Hwf2.
  { pose proof Hwf as [Hp1 Hs1 Hso1 Hps1]. split; simpl; try done. rewrite <- Hp1, Ei.
    assert (pend a = []) as -> by (unfold pend; by rewrite Hg). done. }
  apply pwf_release in Hwf2. unfold _release_page_ids in *. simpl in *.
  destruct (pneed_sort a); destruct Hwf2; by split.
Qed.

(** The pages of the group become free, none twice. *)
Lemma pfree_group_end_spec a used :
  pwf a used → ∃ a', pfree_group_end a = Ok a' ∧ pwf a' used ∧
    free_group a' = None ∧ free_page_ids_group a' = [] ∧ debug_mode a' = debug_mode a.
Proof.
  intros Hwf. unfold pfree_group_end.
  destruct (group_tokens_freed a used Hwf) as (a1 & -> & Hg1 & Hi1 & Hwf1 & Hd1). cbn [rbind].
  set (a2 := match free_page_ids_group a1 with [] => a1 | _ => _ end).
  destruct (group_pages_freed a1 used Hwf1 Hg1) as (Hwf2 & Hg2 & Hi2 & Hd2). fold a2 in Hwf2, Hg2, Hi2, Hd2.
  rewrite (debug_check_ok _ _ Hwf2). exists a2. split; [apply bool_if_same|].
  split; [done|]. split; [done|]. split; [done|]. congruence.
Qed.

(** ** Extension and decoding take exactly the pages they need *)

(** One request's page count grows by at most its share of whole pages and
    one, so the bound the code compares first is an upper bound. *)
Lemma sum_pages_bound ps rs :
  0 < ps → batch_ok rs → sum_pages ps rs ≤ sum_ext rs / ps + zlen rs.
Proof.
  intros Hps. induction rs as [|r rs IH]; intros Hb; [done|]. apply Forall_cons in Hb as [Hr Hb].
  specialize (IH Hb). unfold sum_pages, sum_ext, zlen in *. rewrite !fmap_cons.
  change (zsum (?x :: ?l)) with (x + zsum l). simpl length.
  assert (0 ≤ ext r) as He by (unfold ext; lia).
  assert (new_pages ps r ≤ ext r / ps + 1) as Hn.
  { unfold new_pages, ceil_div. assert (r_seq r + ps - 1 = (r_prefix r + ps - 1) + ext r) as -> by (unfold ext; lia).
    set (x := r_prefix r + ps - 1). pose proof (Z.div_mod x ps ltac:(lia)). pose proof (Z.div_mod (ext r) ps ltac:(lia)).
    pose proof (Z.mod_pos_bound x ps Hps). pose proof (Z.mod_pos_bound (ext r) ps Hps).
    enough ((x + ext r) / ps ≤ x / ps + ext r / ps + 1) by lia.
    apply Z.lt_succ_r, Z.div_lt_upper_bound; [lia|]. nia. }
  set (S := zsum (ext <$> rs)) in *.
  assert (ext r / ps + S / ps ≤ (ext r + S) / ps).
  { pose proof (Z.div_mod S ps ltac:(lia)). pose proof (Z.div_mod (ext r) ps ltac:(lia)).
    pose proof (Z.mod_pos_bound S ps Hps). pose proof (Z.mod_pos_bound (ext r) ps Hps).
    apply Z.div_le_lower_bound; [lia|]. nia. }
  lia.
Qed.

Section place_spec.
Context (lightop_alloc_extend : Z → list Z → list Z → list Z → list Z → list Z → Z → list Z).
Context (oob : Z).

(** The package's kernel is a drop-in for the repository's: on a batch the pool
    can hold it leaves the same output. *)
Definition lightop_extend_ok : Prop := ∀ ps rs free out,
  0 < ps → batch_ok rs → sum_pages ps rs ≤ zlen free → zlen out = sum_ext rs →
  lightop_alloc_extend ps (r_prefix <$> rs) (r_seq <$> rs) (r_last <$> rs) free out (zlen rs)
  = hcu_alloc_extend_kernel ps (r_prefix <$> rs) (r_seq <$> rs) (r_last <$> rs) free out (zlen rs).

Lemma sum_pages_nonneg ps rs : 0 < ps → batch_ok rs → 0 ≤ sum_pages ps rs.
Proof. intros. by apply zsum_nonneg, batch_pages_nonneg. Qed.

Lemma backend_extend (k : backend) ps rs free :
  lightop_extend_ok → 0 < ps → batch_ok rs → sum_pages ps rs ≤ zlen free →
  match k with
  | Hcu => Ok (hcu_alloc_extend_kernel ps (r_prefix <$> rs) (r_seq <$> rs) (r_last <$> rs) free
                 (replicate (Z.to_nat (sum_ext rs)) 0) (zlen (r_prefix <$> rs)))
  | Lightop => Ok (lightop_alloc_extend ps (r_prefix <$> rs) (r_seq <$> rs) (r_last <$> rs) free
                     (replicate (Z.to_nat (sum_ext rs)) 0) (zlen (r_prefix <$> rs)))
  | Triton =>
      Ok (launch (alloc_extend_kernel ps (Z.to_nat (next_power_of_2 (zlen (r_prefix <$> rs)))) oob
                    (r_prefix <$> rs) (r_seq <$> rs) (r_last <$> rs) free)
            (seq 0 (length (r_prefix <$> rs))) (replicate (Z.to_nat (sum_ext rs)) 0))
  | Native => alloc_extend_naive ps (r_prefix <$> rs) (r_seq <$> rs) (r_last <$> rs) free (sum_ext rs)
  end = Ok (place_batch ps free rs 0).
Proof.
  intros Hh Hps Hb Hpool. assert (zlen (replicate (Z.to_nat (sum_ext rs)) 0) = sum_ext rs) as Hl.
  { unfold zlen. rewrite length_replicate. pose proof (zsum_nonneg _ (batch_ext_nonneg rs Hb)). unfold sum_ext in *. lia. }
  assert (zlen (r_prefix <$> rs) = zlen rs) as Hn by (unfold zlen; by rewrite length_fmap).
  destruct k; [| | |by apply extend_naive_eq]; f_equal.
  - rewrite Hn. by apply hcu_extend_eq.
  - rewrite Hn, Hh by done. by apply hcu_extend_eq.
  - rewrite length_fmap. apply extend_kernel_eq; [done|done| |done|done].
    pose proof (next_power_of_2_ge (zlen (r_prefix <$> rs))) as Hp. rewrite Hn in *. unfold zlen in *. lia.
Qed.

(** The last slots of a decode step are as wide as the kernel takes them. *)
Lemma continued_int32 a used ds :
  pwf a used → is_hcu (kernels a) = true → Forall (λ d : Z * Z, 1 ≤ d.1) ds →
  Forall (continues (ppage_size a) used) (decode_req <$> ds) → Forall (fits_int32 (ppage_size a)) ds.
Proof.
  intros Hwf Hk Hf Hc. pose proof (pw_width _ _ Hwf Hk) as Hw. pose proof (pw_ps _ _ Hwf) as Hps.
  rewrite Forall_fmap in Hc. rewrite Forall_forall in *. intros d Hd Hn. destruct (Hc d Hd) as [Hm Hu].
  { unfold needs_page in Hn. cbn. destruct (Z.eqb_spec ((d.1 - 1) mod ppage_size a) 0); done. }
  cbn in Hm, Hu. pose proof (pwf_used_range _ _ _ Hwf Hu) as Hr. set (ps := ppage_size a) in *.
  assert ((d.2 + 1) mod ps ≠ 0) as Hne.
  { rewrite Hm. unfold needs_page in Hn. destruct (Z.eqb_spec ((d.1 - 1) mod ps) 0); done. }
  pose proof (Z.div_mod d.2 ps ltac:(lia)). pose proof (Z.mod_pos_bound d.2 ps Hps). split; [nia|].
  destruct (decide (d.2 mod ps + 1 = ps)); [|nia]. exfalso. apply Hne.
  replace (d.2 + 1) with ((d.2 / ps + 1) * ps) by nia. by apply Z_mod_mult.
Qed.

Lemma backend_decode (k : backend) ps ds free :
  1 < ps → Forall (λ d : Z * Z, 1 ≤ d.1) ds → (is_hcu k = true → Forall (fits_int32 ps) ds) →
  match k with
  | Hcu | Lightop =>
      hcu_alloc_decode_kernel ps (ds.*1) (to_int32 <$> ds.*2) free (replicate (length ds.*1) 0) (zlen ds.*1)
  | Triton =>
      launch (alloc_decode_kernel ps (Z.to_nat (next_power_of_2 (zlen ds.*1))) oob (ds.*1) (ds.*2) free)
        (seq 0 (length ds.*1)) (replicate (length ds.*1) 0)
  | Native => alloc_decode_naive ps (ds.*1) (ds.*2) free (decode_pages ps ds)
  end = place_batch ps free (decode_req <$> ds) 0.
Proof.
  intros Hps Hf H32. assert (zlen ds.*1 = zlen ds) as Hn by (unfold zlen; by rewrite length_fmap).
  rewrite length_fmap. destruct k; [| | |apply decode_naive_eq; [lia|done]].
  - rewrite Hn. apply hcu_decode_eq; [lia|done|by apply H32|by rewrite length_replicate].
  - rewrite Hn. apply hcu_decode_eq; [lia|done|by apply H32|by rewrite length_replicate].
  - apply decode_kernel_eq; [lia|done| |done|by rewrite length_replicate].
    pose proof (next_power_of_2_ge (zlen ds.*1)) as Hp. rewrite Hn in *. unfold zlen in *. lia.
Qed.

(** What merging the staged pages on demand prepares: enough free pages, or
    all there are. *)
Lemma merge_prep a used mx :
  pwf a used →
  let a1 := if zlen (free_pages a) <? mx then pmerge_and_sort_free a else a in
  pwf a1 used ∧ ppage_size a1 = ppage_size a ∧ debug_mode a1 = debug_mode a ∧
  (zlen (free_pages a1) < mx → zlen (free_pages a1) = zlen (free_pages a) + num_staged_pages a) ∧
  zlen (free_pages a1) ≤ zlen (free_pages a) + num_staged_pages a.
Proof.
  intros Hwf. destruct (pwf_merge a used Hwf) as [Hwfm Hlm].
  pose proof (zlen_nonneg (mjoin (staged_pages a))) as Hs0. pose proof (pw_staged _ _ Hwf) as Hs.
  assert (ppage_size (pmerge_and_sort_free a) = ppage_size a ∧
    debug_mode (pmerge_and_sort_free a) = debug_mode a) as [E1 E2].
  { unfold pmerge_and_sort_free. by destruct (staged_pages a). }
  cbv zeta. destruct (Z.ltb_spec (zlen (free_pages a)) mx).
  - rewrite E1, E2. split; [done|]. split; [done|]. split; [done|]. lia.
  - split; [done|]. split; [done|]. split; [done|]. lia.
Qed.

(** The pages a placement took, as the result of an entry point. *)
Definition placed (a a1 : Alloc) (used : list Z) (need : Z) (rs : list req) (out : list Z) (a' : Alloc) : Prop :=
  need ≤ zlen (free_pages a) + num_staged_pages a ∧
  ∃ free, zlen (pytake free need) = need ∧ out = place_batch (ppage_size a) free rs 0 ∧
          free_pages a' = pydrop free need ∧ pwf a' (pytake free need ++ used) ∧ free = free_pages a1.

Lemma placed_ok a a1 used need rs :
  pwf a1 used → zlen (free_pages a1) ≤ zlen (free_pages a) + num_staged_pages a →
  0 ≤ need ≤ zlen (free_pages a1) →
  placed a a1 used need rs (place_batch (ppage_size a) (free_pages a1) rs 0)
    (with_free (pydrop (free_pages a1) need) a1).
Proof.
  intros Hwf Hle Hn. split; [lia|]. exists (free_pages a1). split; [rewrite zlen_pytake by lia; lia|].
  split; [done|]. split; [done|]. split; [apply pwf_take; [done|lia]|done].
Qed.

Lemma placed_weaken a a1 used need rs out a' :
  placed a a1 used need rs out a' →
  need ≤ zlen (free_pages a) + num_staged_pages a ∧
  ∃ free, zlen (pytake free need) = need ∧ out = place_batch (ppage_size a) free rs 0 ∧
          free_pages a' = pydrop free need ∧ pwf a' (pytake free need ++ used).
Proof. intros (? & free & ? & ? & ? & ? & _). eauto 10. Qed.

Lemma extend_spec a used rs (num_new_pages : option Z) :
  lightop_extend_ok → pwf a used → batch_ok rs → debug_mode a = false →
  (∀ n, num_new_pages = Some n → n = sum_pages (ppage_size a) rs) →
  let need := sum_pages (ppage_size a) rs in
  match palloc_extend lightop_alloc_extend oob a (r_prefix <$> rs) (r_seq <$> rs) (r_last <$> rs)
          (sum_ext rs) num_new_pages with
  | Ok (None, a') => zlen (free_pages a) + num_staged_pages a < need ∧ pwf a' used
  | Ok (Some out, a') => need ≤ zlen (free_pages a) + num_staged_pages a ∧
      ∃ free, zlen (pytake free need) = need ∧ out = place_batch (ppage_size a) free rs 0 ∧
              free_pages a' = pydrop free need ∧ pwf a' (pytake free need ++ used)
  | Raise _ => False
  end.
Proof.
  intros Hh Hwf Hb Hd Hn. cbv zeta. pose proof (pw_ps _ _ Hwf) as Hps.
  unfold palloc_extend. rewrite Hd. cbn [negb orb assert_ rbind].
  set (need := sum_pages (ppage_size a) rs).
  assert (0 ≤ need) as Hneed by by apply sum_pages_nonneg.
  set (mx := _ + _ + 1). assert (need < mx) as Hmx.
  { unfold mx. pose proof (sum_pages_bound (ppage_size a) rs Hps Hb). unfold zlen. rewrite length_fmap.
    unfold zlen in *. lia. }
  pose proof (merge_prep a used mx Hwf) as Hprep. cbv zeta in Hprep.
  set (a1 := if zlen (free_pages a) <? mx then _ else _) in *. clearbody a1.
  destruct Hprep as (Hwf1 & Ep1 & Hd1 & Hall & Hle). rewrite Hd in Hd1. rewrite Ep1, Hd1. cbn [negb orb assert_ rbind].
  assert (match num_new_pages with Some n => Ok n | None => get_num_new_pages (r_seq <$> rs) (ppage_size a) (Some (r_prefix <$> rs)) false end
    = Ok need) as Hcnt.
  { destruct num_new_pages as [n|]; [by rewrite (Hn n)|]. simpl. by rewrite zip_with_fmap_same. }
  pose proof (backend_extend (kernels a1) (ppage_size a) rs (free_pages a1) Hh Hps Hb) as Hbe. fold need in Hbe.
  destruct (Z.ltb_spec (zlen (free_pages a1)) mx) as [Hlt|Hge].
  - rewrite Hcnt. cbn [rbind]. destruct (Z.ltb_spec (zlen (free_pages a1)) need) as [Hlt2|Hge2].
    + split; [|done]. rewrite <- Hall by done. done.
    + rewrite Hbe by done. cbn [rbind]. by eapply placed_weaken, placed_ok.
  - rewrite Hbe by lia. cbn [rbind]. rewrite Hcnt. cbn [rbind].
    eapply placed_weaken, placed_ok; [done|done|lia].
Qed.

Lemma decode_spec a used ds :
  pwf a used → 1 < ppage_size a → Forall (λ d : Z * Z, 1 ≤ d.1) ds →
  Forall (continues (ppage_size a) used) (decode_req <$> ds) → debug_mode a = false →
  let need := decode_pages (ppage_size a) ds in
  match palloc_decode oob a (ds.*1) (ds.*2) with
  | Ok (None, a') => zlen (free_pages a) + num_staged_pages a < need ∧ pwf a' used
  | Ok (Some out, a') => need ≤ zlen (free_pages a) + num_staged_pages a ∧
      ∃ free, zlen (pytake free need) = need ∧
              out = place_batch (ppage_size a) free (decode_req <$> ds) 0 ∧
              free_pages a' = pydrop free need ∧ pwf a' (pytake free need ++ used)
  | Raise _ => False
  end.
Proof.
  intros Hwf Hps Hf Hc Hd. cbv zeta. unfold palloc_decode. rewrite Hd. cbn [negb orb assert_ rbind].
  set (need := decode_pages (ppage_size a) ds).
  assert (0 ≤ need ≤ zlen (ds.*1)) as [Hneed Hmx].
  { split; [by apply zsum_nonneg, needs_pages_nonneg|]. unfold need, decode_pages, zlen. rewrite length_fmap.
    clear. induction ds as [|d ds IH]; [done|]. rewrite fmap_cons. change (zsum (?x :: ?l)) with (x + zsum l).
    simpl length. destruct (needs_page_01 (ppage_size a) d.1); lia. }
  pose proof (merge_prep a used (zlen (ds.*1)) Hwf) as Hprep. cbv zeta in Hprep.
  set (a1 := if zlen (free_pages a) <? _ then _ else _) in *. clearbody a1.
  destruct Hprep as (Hwf1 & Ep1 & Hd1 & Hall & Hle). rewrite Hd in Hd1. rewrite Ep1, Hd1.
  rewrite num_new_pages_decode by (done || lia). cbn [rbind negb orb assert_]. fold need.
  destruct (Z.ltb_spec (zlen (free_pages a1)) need) as [Hlt|Hge].
  - split; [|done]. rewrite <- Hall by lia. done.
  - unfold need at 1. rewrite (backend_decode (kernels a1)); [|done|done|]; cbn [rbind].
    2:{ intros Hk. rewrite <- Ep1 in *. by eapply continued_int32. }
    by eapply placed_weaken, placed_ok.
Qed.
(** For every backend, [alloc_extend] answers [None] exactly when the free
    and staged pages are fewer than the batch needs; otherwise it returns the
    reference placement on the first free pages, takes off the free list
    exactly the pages placed on, and every page stays accounted for. *)
Theorem alloc_extend_exact a used rs (num_new_pages : option Z) :
  lightop_extend_ok → pwf a used → batch_ok rs → debug_mode a = false →
  (∀ n, num_new_pages = Some n → n = sum_pages (ppage_size a) rs) →
  let need := sum_pages (ppage_size a) rs in
  match palloc_extend lightop_alloc_extend oob a (r_prefix <$> rs) (r_seq <$> rs) (r_last <$> rs)
          (sum_ext rs) num_new_pages with
  | Ok (None, a') => zlen (free_pages a) + num_staged_pages a < need ∧ pwf a' used
  | Ok (Some out, a') => need ≤ zlen (free_pages a) + num_staged_pages a ∧
      ∃ free, zlen (pytake free need) = need ∧ out = place_batch (ppage_size a) free rs 0 ∧
              free_pages a' = pydrop free need ∧ pwf a' (pytake free need ++ used)
  | Raise _ => False
  end.
Proof. exact (extend_spec a used rs num_new_pages). Qed.

(** For every backend and pages of more than one slot, [alloc_decode] gives
    one slot per request: the slot after the last one, or the first slot of a
    fresh page where the last page is full.  It answers [None] exactly when the
    fresh pages needed are more than the free and staged ones, and takes
    exactly those it uses. *)
Theorem alloc_decode_exact a used ds :
  pwf a used → 1 < ppage_size a → Forall (λ d : Z * Z, 1 ≤ d.1) ds →
  Forall (continues (ppage_size a) used) (decode_req <$> ds) → debug_mode a = false →
  let need := decode_pages (ppage_size a) ds in
  match palloc_decode oob a (ds.*1) (ds.*2) with
  | Ok (None, a') => zlen (free_pages a) + num_staged_pages a < need ∧ pwf a' used
  | Ok (Some out, a') => need ≤ zlen (free_pages a) + num_staged_pages a ∧
      ∃ free, zlen (pytake free need) = need ∧
              out = place_batch (ppage_size a) free (decode_req <$> ds) 0 ∧
              free_pages a' = pydrop free need ∧ pwf a' (pytake free need ++ used)
  | Raise _ => False
  end.
Proof. exact (decode_spec a used ds). Qed.
End place_spec.

(** The repository's own kernel, where a witness needs the package's. *)
Definition own_extend : Z → list Z → list Z → list Z → list Z → list Z → Z → list Z := hcu_alloc_extend_kernel.

Lemma own_extend_ok : lightop_extend_ok own_extend.
Proof. done. Qed.

Lemma alloc_extend_exact_witness :
  ∃ a', palloc_extend own_extend 77 (paged_init 16 4 true false Lightop) [0; 0] [6; 3] [-1; -1] 9 None
        = Ok (Some [4; 5; 6; 7; 8; 9; 12; 13; 14], a') ∧ free_pages a' = [4].
Proof.
  pose proof (alloc_extend_exact own_extend 77 (paged_init 16 4 true false Lightop) []
    [mkReq 0 6 (-1); mkReq 0 3 (-1)] None own_extend_ok ltac:(by apply pwf_clear)
    ltac:(repeat constructor; done) eq_refl ltac:(done)) as H.
  cbv zeta in H. destruct (palloc_extend _ _ _ _ _ _ _ _) as [[[out|] a']|e] eqn:E in H; [| |done].
  - change (palloc_extend own_extend 77 (paged_init 16 4 true false Lightop) [0; 0] [6; 3] [-1; -1] 9 None
      = Ok (Some out, a')) in E. rewrite E. exists a'. vm_compute in E. injection E as <- <-. done.
  - destruct H as [H _]. vm_compute in H. discriminate H.
Defined.

Lemma alloc_decode_exact_witness :
  ∃ a', palloc_decode 77 (with_free [1; 2; 3] (paged_init 16 4 true false Hcu)) [5; 7] [11; 17]
        = Ok (Some [4; 18], a') ∧ free_pages a' = [2; 3].
Proof.
  assert (Forall (continues 4 [4]) (decode_req <$> [(5, 11); (7, 17)])) as Hc.
  { constructor; [by intros []|]. constructor; [|constructor]. intros _. split; [done|by left]. }
  pose proof (alloc_decode_exact 77 (with_free [1; 2; 3] (paged_init 16 4 true false Hcu)) [4]
    [(5, 11); (7, 17)] ltac:(by split) ltac:(done) ltac:(repeat constructor; done) Hc eq_refl) as H.
  cbv zeta in H. destruct (palloc_decode _ _ _ _) as [[[out|] a']|e] eqn:E in H; [| |done].
  - change (palloc_decode 77 (with_free [1; 2; 3] (paged_init 16 4 true false Hcu)) [5; 7] [11; 17]
      = Ok (Some out, a')) in E. rewrite E. exists a'. vm_compute in E. injection E as <- <-. done.
  - destruct H as [H _]. vm_compute in H. discriminate H.
Defined.

(** ** Runs *)

(** What an allocation leaves alone. *)
Definition same_rest (a a' : Alloc) : Prop :=
  num_pages a' = num_pages a ∧ ppage_size a' = ppage_size a ∧ debug_mode a' = debug_mode a ∧
  free_group a' = free_group a ∧ free_page_ids_group a' = free_page_ids_group a ∧ psize a' = psize a.

Lemma merge_same a mx :
  same_rest a (if zlen (free_pages a) <? mx then pmerge_and_sort_free a else a).
Proof. unfold same_rest, pmerge_and_sort_free. destruct (_ <? _); [|done]. by destruct (staged_pages a). Qed.

Lemma same_with_free a a' f : same_rest a a' → same_rest a (with_free f a').
Proof. done. Qed.

Lemma palloc_same a need out a' : palloc a need = Ok (out, a') → same_rest a a'.
Proof.
  unfold palloc. pose proof (merge_same a (need / ppage_size a)) as Hs.
  destruct (negb _ || _); [|done]. cbn [assert_ rbind]. cbv zeta.
  set (a1 := if zlen (free_pages a) <? _ then _ else _) in *. clearbody a1.
  destruct (_ <? _); intros [= _ <-]; done.
Qed.

Section runs.
Context (lightop_alloc_extend : Z → list Z → list Z → list Z → list Z → list Z → Z → list Z).
Context (oob : Z).

Lemma palloc_extend_same a pl sl ll n nn out a' :
  palloc_extend lightop_alloc_extend oob a pl sl ll n nn = Ok (out, a') → same_rest a a'.
Proof.
  unfold palloc_extend. destruct (negb _ || _); [|done]. cbn [assert_ rbind].
  set (mx := _ + _ + 1). pose proof (merge_same a mx) as Hs.
  set (a1 := if zlen (free_pages a) <? mx then _ else _) in *. clearbody a1.
  assert (∀ (r : result (list Z)) m, (let! out := r in
      assert! negb (debug_mode a1) || (zlen (tunique out) =? zlen out) in
      let! n := match m with Some n => Ok n | None => get_num_new_pages sl (ppage_size a1) (Some pl) false end in
      Ok (Some out, with_free (pydrop (free_pages a1) n) a1)) = Ok (out, a') → same_rest a a') as Hplace.
  { intros [o|] m; [|done].
    cbn [rbind]. destruct (negb _ || _); [|done]. cbn [assert_ rbind].
    destruct (match m with Some n => _ | None => _ end); [|done]. by intros [= _ <-]. }
  destruct (_ <? _); [|apply Hplace].
  destruct (match nn with Some n => _ | None => _ end) as [n1|]; [|done]. cbn [rbind].
  destruct (_ <? _); [by intros [= _ <-]|apply (Hplace _ (Some n1))].
Qed.

Lemma palloc_decode_same a sl ll out a' :
  palloc_decode oob a sl ll = Ok (out, a') → same_rest a a'.
Proof.
  unfold palloc_decode. destruct (negb _ || _); [|done]. cbn [assert_ rbind].
  pose proof (merge_same a (zlen sl)) as Hs. set (a1 := if zlen (free_pages a) <? _ then _ else _) in *. clearbody a1.
  destruct (get_num_new_pages _ _ _ _); [|done]. cbn [rbind].
  destruct (_ <? _); [by intros [= _ <-]|]. destruct (negb _ || _); [|done]. cbn [assert_ rbind].
  by intros [= _ <-].
Qed.

(** The pages in use after a call that returned [out]: those of its slots that
    were not in use before are added, each once. *)
Definition held (ps : Z) (used : list Z) (out : option (list Z)) : list Z :=
  match out with
  | Some out => remove_dups (filter (λ p, p ∉ used) (toks_pages ps out)) ++ used
  | None => used
  end.

(** The pages added are [pages] when the slots begin each of them and lie on no
    others but those in use. *)
Lemma held_perm ps used out pages : 0 < ps → NoDup (pages ++ used) →
  (∀ p, p ∈ pages → p * ps ∈ out) → (∀ x, x ∈ out → x / ps ∈ pages ++ used) → held ps used (Some out) ≡ₚ pages ++ used.
Proof.
  intros Hps (Hnd & Hd & _)%NoDup_app Hh Hon. apply Permutation_app_tail, NoDup_Permutation; [apply NoDup_remove_dups|done|].
  intros p. rewrite elem_of_remove_dups, list_elem_of_filter. split.
  - intros [Hn Hp]. apply list_elem_of_fmap in Hp as (x & -> & Hx). apply Hon, elem_of_app in Hx as [?|?]; done.
  - intros Hp. split; [by apply Hd|]. apply list_elem_of_fmap. exists (p * ps). split; [|by apply Hh]. by rewrite Z.div_mul by lia.
Qed.

(** One call by a client that extends what it was given and frees only that; the
    second and fourth components are the pages in use, as the client knows them
    from the slots it got. *)
Inductive pstep : Alloc → list Z → Alloc → list Z → Prop :=
  | pstep_alloc a used need out a' :
      0 ≤ need → palloc a need = Ok (out, a') → pstep a used a' (held (ppage_size a) used out)
  | pstep_extend a used rs out a' :
      batch_ok rs → Forall (continues (ppage_size a) used) rs →
      palloc_extend lightop_alloc_extend oob a (r_prefix <$> rs) (r_seq <$> rs) (r_last <$> rs) (sum_ext rs) None
        = Ok (out, a') → pstep a used a' (held (ppage_size a) used out)
  | pstep_decode a used ds out a' :
      1 < ppage_size a → Forall (λ d : Z * Z, 1 ≤ d.1) ds → Forall (continues (ppage_size a) used) (decode_req <$> ds) →
      palloc_decode oob a (ds.*1) (ds.*2) = Ok (out, a') →
      pstep a used a' (held (ppage_size a) used out)
  | pstep_free a used toks a' :
      (∀ p, p ∈ toks_pages (ppage_size a) toks → p ∈ used) →
      pfree a toks = Ok a' → pstep a used a' (kept_of (ppage_size a) toks used)
  | pstep_free_page_ids a used ids used' a' :
      used ≡ₚ ids ++ used' → pfree_page_ids a ids = Ok a' → pstep a used a' used'
  | pstep_free_segment a used seg start used' a' :
      used ≡ₚ segment_pages (ppage_size a) seg ++ used' →
      pfree_segment a seg start = Ok a' → pstep a used a' used'
  | pstep_begin a used a' : pfree_group_begin a = Ok a' → pstep a used a' used
  | pstep_end a used a' : pfree_group_end a = Ok a' → pstep a used a' used
  | pstep_merge a used : pstep a used (pmerge_and_sort_free a) used.

Inductive preachable : Alloc → list Z → Prop :=
  | preach_init sz ps ns k : 0 < ps → int32_slots k (sz / ps) ps → preachable (paged_init sz ps ns false k) []
  | preach_step a used a' used' : preachable a used → pstep a used a' used' → preachable a' used'.

Record pinv (a : Alloc) (used : list Z) : Prop := {
  pi_wf : pwf a used;
  pi_orphans : no_orphans a;
  pi_debug : debug_mode a = false
}.

Lemma pinv_held a used a' out pages :
  pinv a used → same_rest a a' → pwf a' (pages ++ used) →
  match out with
  | Some out => (∀ p, p ∈ pages → p * ppage_size a ∈ out) ∧ (∀ x, x ∈ out → x / ppage_size a ∈ pages ++ used)
  | None => pages = []
  end → pinv a' (held (ppage_size a) used out).
Proof.
  intros [Hwf Ho Hd] (_ & _ & Hd' & Hg & Hi & _) Hwf' Hout.
  split; [|unfold no_orphans; by rewrite Hg, Hi|congruence]. destruct out as [out|]; [|by subst pages].
  destruct Hout as [Hh Hon]. eapply pwf_perm; [|exact Hwf']. symmetry. apply held_perm; [apply Hwf|by eapply pwf_used_nodup|done..].
Qed.

(** Whole pages. *)
Lemma page_slots_pages ps pages : 0 < ps →
  (∀ p, p ∈ pages → p * ps ∈ page_slots ps pages) ∧ (∀ x, x ∈ page_slots ps pages → x / ps ∈ pages).
Proof.
  intros Hps. unfold page_slots. split.
  - intros p Hp. apply list_elem_of_join. eexists. split; [|apply list_elem_of_fmap; by exists p].
    apply list_elem_of_fmap. exists 0. rewrite elem_of_seqZ. split; [lia|lia].
  - intros x Hx. apply list_elem_of_join in Hx as (l & Hx & Hl). apply list_elem_of_fmap in Hl as (p & -> & Hp).
    apply list_elem_of_fmap in Hx as (o & -> & Ho). apply elem_of_seqZ in Ho.
    rewrite Z.add_comm, Z.div_add, Z.div_small by lia. by rewrite Z.add_0_l.
Qed.

Lemma pinv_free a used toks a' :
  pinv a used → (∀ p, p ∈ toks_pages (ppage_size a) toks → p ∈ used) →
  pfree a toks = Ok a' → pinv a' (kept_of (ppage_size a) toks used).
Proof.
  intros [Hwf Ho Hd] Hin E. destruct (free_group a) as [g|] eqn:Eg.
  - destruct (pfree_group_spec a g toks used Hwf Eg) as (b & E' & Hwf' & Hg & Hd'); [eauto|].
    rewrite E' in E. injection E as <-. split; [done|by intros ?|congruence].
  - destruct (pfree_spec a toks used Hwf Eg) as (b & E' & Hwf' & Hd' & Hi & Hg & _); [eauto|].
    rewrite E' in E. injection E as <-. split; [done| |congruence]. intros _. rewrite Hi. by apply Ho.
Qed.

Lemma pinv_free_page_ids a used ids used' a' :
  pinv a used → used ≡ₚ ids ++ used' → pfree_page_ids a ids = Ok a' → pinv a' used'.
Proof.
  intros [Hwf Ho Hd] Hu E. destruct (pfree_page_ids_spec a ids used') as (b & E' & Hwf' & _ & Hd'); [by eapply pwf_perm|].
  assert (no_orphans a') as Ho'.
  { unfold pfree_page_ids in E. destruct (_ =? 0); [by injection E as <-|].
    destruct (free_group a) as [g|] eqn:Eg; [injection E as <-; done|].
    assert (debug_mode (_release_page_ids ids a) = false) as Er by (unfold _release_page_ids; by destruct (pneed_sort a)).
    rewrite Er in E. injection E as <-. intros _. unfold _release_page_ids. destruct (pneed_sort a); by apply Ho. }
  rewrite E' in E. injection E as <-. split; [done|done|congruence].
Qed.

Lemma pinv_free_segment a used seg start used' a' :
  pinv a used → used ≡ₚ segment_pages (ppage_size a) seg ++ used' →
  pfree_segment a seg start = Ok a' → pinv a' used'.
Proof.
  intros Hi Hu E. unfold pfree_segment in E. destruct (Z.eqb_spec (zlen seg) 0) as [En|En].
  { apply zlen_nil_inv in En. subst seg. injection E as <-. destruct Hi as [Hwf Ho Hd]. split; [by eapply pwf_perm|done..]. }
  destruct (start mod ppage_size a =? 0); [|done]. cbn [assert_ rbind] in E.
  rewrite (pi_debug _ _ Hi) in E. cbn [negb orb assert_ rbind] in E. by eapply pinv_free_page_ids.
Qed.

Lemma pinv_step a used a' used' :
  lightop_extend_ok lightop_alloc_extend → pinv a used → pstep a used a' used' → pinv a' used'.
Proof.
  intros He Hi Hs. pose proof Hi as [Hwf Ho Hd]. pose proof (pw_ps _ _ Hwf) as Hps0.
  destruct Hs as [a used need out a' Hn E|a used rs out a' Hb Hc E|a used ds out a' Hps Hf Hc E|a used toks a' Hin E
    |a used ids used' a' Hu E|a used seg start used' a' Hu E|a used a' E|a used a' E|a used].
  - pose proof (palloc_same _ _ _ _ E) as Hsr. pose proof (palloc_spec a need used Hwf Hn Hd) as Hp.
    cbv zeta in Hp. rewrite E in Hp. destruct out as [out|].
    + destruct Hp as (_ & pages & _ & -> & Hwf'). eapply pinv_held; [done..|].
      destruct (page_slots_pages (ppage_size a) pages Hps0) as [H1 H2]. split; [done|]. intros x Hx. rewrite elem_of_app. left. by apply H2.
    + destruct Hp as [_ Hwf']. by apply (pinv_held a used a' None []).
  - pose proof (palloc_extend_same _ _ _ _ _ _ _ _ E) as Hsr.
    pose proof (extend_spec lightop_alloc_extend oob a used rs None He Hwf Hb Hd ltac:(done)) as Hp.
    cbv zeta in Hp. rewrite E in Hp. destruct out as [out|].
    + destruct Hp as (_ & free & Hl & -> & _ & Hwf'). eapply pinv_held; [done..|].
      split; [by apply fresh_heads|]. intros x. by apply batch_on_pages.
    + destruct Hp as [_ Hwf']. by apply (pinv_held a used a' None []).
  - pose proof (palloc_decode_same _ _ _ _ _ E) as Hsr.
    pose proof (decode_spec oob a used ds Hwf Hps Hf Hc Hd) as Hp.
    cbv zeta in Hp. rewrite E in Hp. destruct out as [out|].
    + destruct Hp as (_ & free & Hl & -> & _ & Hwf'). eapply pinv_held; [done..|].
      rewrite <- decode_sum_pages in Hl |- * by (done || lia).
      split; [by apply fresh_heads; [|apply decode_batch_ok|]|]. intros x. by apply batch_on_pages; [|apply decode_batch_ok| |].
    + destruct Hp as [_ Hwf']. by apply (pinv_held a used a' None []).
  - by eapply pinv_free.
  - by eapply pinv_free_page_ids.
  - by eapply pinv_free_segment.
  - pose proof (pfree_group_begin_spec a used Hwf Ho) as Hp. rewrite E in Hp. destruct Hp as [Eg Hwf'].
    unfold pfree_group_begin in E. rewrite bool_decide_true in E by done. injection E as <-. by split.
  - destruct (pfree_group_end_spec a used Hwf) as (b & E' & Hwf' & Hg & Hi' & Hd'). rewrite E' in E. injection E as <-.
    split; [done|by intros _|congruence].
  - destruct (pwf_merge a used Hwf) as [Hwf' _]. split; [done| |]; unfold pmerge_and_sort_free; by destruct (staged_pages a).
Qed.

Lemma preachable_pinv a used :
  lightop_extend_ok lightop_alloc_extend → preachable a used → pinv a used.
Proof.
  intros He. induction 1 as [sz ps ns k Hps Hk|a used a' used' _ IH Hs]; [|by eapply pinv_step].
  split; [by apply pwf_clear|by intros _|done].
Qed.

(** C37: after any sequence of page allocations, extensions, decode steps (also
    refused ones), frees by token, by page or by segment, free groups and merges,
    where the client knows the pages in use from the slots it was given: the
    free, staged, waiting and used pages together are exactly 1..num_pages, each
    once, so no page is lost and none is handed out twice; the counter of staged
    pages is right, so [available_size] counts every page that can be handed
    out; and freeing tokens of used pages always succeeds and gives back exactly
    their pages.  With the HIP kernels slots fit in 32 bits. *)
Theorem paged_pages_conserved a used toks :
  lightop_extend_ok lightop_alloc_extend → preachable a used →
  (∀ p, p ∈ toks_pages (ppage_size a) toks → p ∈ used) →
  free_pages a ++ mjoin (staged_pages a) ++ pend a ++ mjoin (free_page_ids_group a) ++ used
    ≡ₚ arange1 (num_pages a) ∧
  pavailable_size a = zlen (pget_all_free_pages a) * ppage_size a ∧
  ∃ a', pfree a toks = Ok a' ∧ pwf a' (kept_of (ppage_size a) toks used).
Proof.
  intros He Hr Hin. apply preachable_pinv in Hr as [Hwf Ho _]; [|done..].
  split; [apply Hwf|]. split.
  - unfold pavailable_size, pget_all_free_pages. by rewrite zlen_app, (pw_staged _ _ Hwf).
  - destruct (free_group a) as [g|] eqn:Eg.
    + destruct (pfree_group_spec a g toks used Hwf Eg) as (b & E & Hwf' & _); eauto.
    + destruct (pfree_spec a toks used Hwf Eg) as (b & E & Hwf' & _); eauto.
Qed.
End runs.

(** Two pages for a request of five tokens on the HIP backend, one more token on
    its last page, then one of its tokens freed. *)
Lemma paged_pages_conserved_witness :
  ∃ a a1 a', palloc_extend own_extend 0 (paged_init 16 4 true false Hcu) [0] [5] [-1] 5 None = Ok (Some [4; 5; 6; 7; 8], a) ∧
    palloc_decode 0 a [6] [8] = Ok (Some [9], a1) ∧ pfree a1 [5; 6] = Ok a' ∧ pwf a' [2].
Proof.
  set (a0 := paged_init 16 4 true false Hcu). set (a := with_free [3; 4] a0).
  assert (preachable own_extend 0 a [1; 2]) as Ha.
  { eapply (preach_step own_extend 0 a0 []); [by apply (preach_init own_extend 0 16 4 true Hcu)|].
    apply (pstep_extend own_extend 0 a0 [] [mkReq 0 5 (-1)] (Some [4; 5; 6; 7; 8]) a); [by repeat constructor| |by vm_compute].
    constructor; [by intros []|constructor]. }
  assert (preachable own_extend 0 a [1; 2]) as Ha1.
  { eapply preach_step; [exact Ha|].
    apply (pstep_decode own_extend 0 a [1; 2] [(6, 8)] (Some [9]) a); [done|by repeat constructor| |by vm_compute].
    constructor; [|constructor]. intros _. split; [done|right; by left]. }
  destruct (paged_pages_conserved own_extend 0 a [1; 2] [5; 6] own_extend_ok Ha1) as (_ & _ & a' & E & Hwf).
  { intros p Hp. change (toks_pages _ _) with [1; 1] in Hp. rewrite !elem_of_cons in Hp.
    destruct Hp as [->|[->|Hp]]; [by left..|]. by apply elem_of_nil in Hp. }
  exists a, a, a'. split; [by vm_compute|]. split; [by vm_compute|]. split; [exact E|exact Hwf].
Defined.

(** ** The interface *)

(** [free_segment] of a segment whose pages are in use gives them back. *)
Lemma pfree_segment_spec a seg start used :
  pwf a (segment_pages (ppage_size a) seg ++ used) → debug_mode a = false → start mod ppage_size a = 0 →
  ∃ a', pfree_segment a seg start = Ok a' ∧ pwf a' used ∧ ppage_size a' = ppage_size a ∧ debug_mode a' = false.
Proof.
  intros Hwf Hd Hm. unfold pfree_segment. destruct (Z.eqb_spec (zlen seg) 0) as [En|En].
  { apply zlen_nil_inv in En. subst seg. by exists a. }
  rewrite Hm, Hd. cbn [negb orb assert_ rbind Z.eqb].
  destruct (pfree_page_ids_spec a (segment_pages (ppage_size a) seg) used Hwf) as (a' & E & Hwf' & Ep & Ed).
  exists a'. split; [exact E|]. split; [done|]. split; [done|]. by rewrite Ed.
Qed.

#[export] Program Instance paged_pool : PagePool Alloc := {
  pool_page_size := ppage_size;
  pool_available := pavailable_size;
  pool_free_segment := pfree_segment;
  owns a used := pwf a used ∧ debug_mode a = false
}.
Next Obligation. intros a used used' E [H ?]. split; [by eapply pwf_perm|done]. Qed.
Next Obligation. intros a used [Hwf _]. by eapply pwf_used_nodup. Qed.
Next Obligation. intros a used [[] _]. done. Qed.
Next Obligation.
  intros a seg start used [Hwf Hd] Hm. destruct (pfree_segment_spec a seg start used Hwf Hd Hm) as (a' & ? & ? & ? & ?).
  by exists a'.
Qed.
