(* ===== verification/PrefillBudget.v ===== *)
(** * Memory budgets of a prefill pass ([mem_cache/prefill_budget.py])

    The three budget classes: one pool, separate FULL and SWA pools, and FULL
    and SWA cut from one byte budget.  A budget keeps what is admitted but not
    yet allocated and asks the pools for their live capacity.  The estimate of
    a running request is a float in the code, a rational here. *)
From S2P Require Import Prelude.
From Stdlib Require Export QArith Qround Lqa.
Open Scope Z_scope.

(** ** Numbers *)

(** An integer used as a float. *)
Abbreviation zq := inject_Z.

Definition qleb (a b : Q) : bool := Qle_bool a b.
Definition qltb (a b : Q) : bool := negb (Qle_bool b a).

(** [int(x)] of a float rounds towards zero. *)
Definition qint (q : Q) : Z := Z.quot (Qnum q) (Zpos (Qden q)).

Lemma qleb_spec a b : BoolSpec (a <= b)%Q (b < a)%Q (qleb a b).
Proof.
  unfold qleb. destruct (Qle_bool a b) eqn:E.
  - constructor. by apply Qle_bool_iff.
  - constructor. apply Qnot_le_lt. intros H. apply Qle_bool_iff in H. congruence.
Qed.

Lemma qltb_spec a b : BoolSpec (a < b)%Q (b <= a)%Q (qltb a b).
Proof.
  unfold qltb. destruct (Qle_bool b a) eqn:E; simpl.
  - constructor. by apply Qle_bool_iff.
  - constructor. apply Qnot_le_lt. intros H. apply Qle_bool_iff in H. congruence.
Qed.

Lemma qint_le z q : (0 <= q)%Q → z ≤ qint q → (zq z <= q)%Q.
Proof.
  intros H Hz. destruct q as [n d]. unfold Qle, qint in *. simpl in *.
  rewrite Z.quot_div_nonneg in Hz by lia. pose proof (Z.mul_div_le n (Zpos d) ltac:(lia)). nia.
Qed.

Lemma qint_pos q : 0 < qint q → (0 < q)%Q.
Proof.
  destruct q as [n d]. unfold Qlt, qint. simpl. intros H. destruct (decide (0 < n)) as [|Hn]; [lia|].
  assert (n ÷ Z.pos d ≤ 0); [|lia]. rewrite <- (Z.opp_involutive n), Z.quot_opp_l by lia.
  assert (0 ≤ (- n) ÷ Z.pos d) by (apply Z.quot_pos; lia). lia.
Qed.

(** ** The live pools *)

(** What the budgets read of the allocator and of the prefix cache. *)
Class KvPools (E : Type) := {
  available_size : E → Z;
  evictable_size : E → Z;
  full_available_size : E → Z;
  full_evictable_size : E → Z;
  swa_available_size : E → Z;
  swa_evictable_size : E → Z;
  (** the byte check of a shared pool: FULL and SWA tokens, evictable tokens of
      both, [empty_pool], [require_token_slack] *)
  can_reserve : E → Q → Z → Z → Z → bool → bool → bool;
  (** whether reclaiming answers [None] *)
  reclaim_for_prealloc : E → Z → Z → bool * E
}.

Inductive budget_class :=
  | PlainBudget
  | SWABudget (all_swa req_ring : bool)
  | SharedSWABudget (all_swa req_ring : bool).

(** What a budget reads and never changes. *)
Record budget_cfg := mkBudgetCfg {
  b_class : budget_class;
  b_page_size : Z;
  b_supports_mamba : bool;
  sliding_window_size : option Z;
  size_swa : Z;
  swa_ring_cost_tokens : Z
}.

Record budget := mkBudget {
  total_offset : Q;
  current_offset : Z;
  swa_offset : Z
}.

(** [-(-tokens // page_size) * page_size]. *)
Definition ceil_paged_tokens (page_size tokens : Z) : Z := - ((- tokens) / page_size) * page_size.

Definition b_ceil (cfg : budget_cfg) (tokens : Z) : Z := ceil_paged_tokens (b_page_size cfg) tokens.

Definition budget_init (cfg : budget_cfg) (num_mixed_decode_tokens : Z) : budget :=
  mkBudget (zq num_mixed_decode_tokens) num_mixed_decode_tokens
    (match b_class cfg with SharedSWABudget _ _ => num_mixed_decode_tokens | _ => 0 end).

Definition load_back_needs_full_tokens (cfg : budget_cfg) : bool :=
  match b_class cfg with SharedSWABudget _ _ => true | _ => false end.

Definition estimate_swa_kv_tokens (extend_input_len max_new_tokens : Z) (window : option Z)
    (page_size : Z) (allocation_limit : option Z) (host_hit_length : Z) : Z :=
  let plain := extend_input_len + max_new_tokens + page_size in
  let reserved :=
    match window with
    | None => plain
    | Some w =>
        if w <=? 0 then plain
        else
          let allocated := match allocation_limit with
                           | None => extend_input_len
                           | Some l => Z.min extend_input_len l
                           end in
          let allocated_tail := Z.max (allocated - w) 0 in
          allocated_tail + Z.min (extend_input_len + max_new_tokens) w + page_size
    end in
  if 0 <? host_hit_length then reserved + ceil_paged_tokens page_size host_hit_length else reserved.

Definition req_ring (cfg : budget_cfg) : bool :=
  match b_class cfg with SWABudget _ r | SharedSWABudget _ r => r | PlainBudget => false end.

Section budget.
Context {E : Type} `{KvPools E} (cfg : budget_cfg).

Definition plain_available_and_evictable (e : E) : Z :=
  available_size e + (if b_supports_mamba cfg then full_evictable_size e else evictable_size e).
Definition swa_available_and_evictable (all_swa : bool) (e : E) : Z :=
  if all_swa then swa_available_size e + swa_evictable_size e
  else full_available_size e + full_evictable_size e.

Definition _available_and_evictable (e : E) : Z :=
  match b_class cfg with
  | PlainBudget => plain_available_and_evictable e
  | SWABudget all_swa _ | SharedSWABudget all_swa _ => swa_available_and_evictable all_swa e
  end.

Definition remaining_total (e : E) (b : budget) : Q := (zq (_available_and_evictable e) - total_offset b)%Q.
Definition remaining_current (e : E) (b : budget) : Z := _available_and_evictable e - current_offset b.

Definition remaining_swa (e : E) (b : budget) : Z :=
  match b_class cfg with
  | PlainBudget => 0
  | _ => swa_available_size e + (if req_ring cfg then 0 else swa_evictable_size e) - swa_offset b
  end.

Definition swa_tokens (extend_input_len max_new_tokens : Z) (chunk_limit : option Z)
    (swa_host_hit_length : Z) : Z :=
  if req_ring cfg then swa_ring_cost_tokens cfg
  else estimate_swa_kv_tokens extend_input_len max_new_tokens (sliding_window_size cfg)
         (b_page_size cfg) chunk_limit swa_host_hit_length.

Definition swa_never_fits (extend_input_len max_new_tokens : Z) (chunk_limit : option Z)
    (swa_host_hit_length : Z) : bool :=
  let needed := swa_tokens extend_input_len max_new_tokens chunk_limit swa_host_hit_length in
  if req_ring cfg then size_swa cfg <? needed else size_swa cfg <=? needed.

Definition _chunk_cap (e : E) (b : budget) (max_new_tokens swa_host_hit_length : Z) : Z :=
  let headroom := swa_tokens 0 max_new_tokens None swa_host_hit_length in
  let cap := remaining_swa e b - headroom in
  Z.max 0 (cap / b_page_size cfg * b_page_size cfg).

(** [SharedSWAPrefillBudget._fits]. *)
Definition _fits (e : E) (b : budget) (full_tokens swa_tokens : Z) (empty_pool : bool) : bool :=
  can_reserve e
    (zq full_tokens + (if empty_pool then 0 else total_offset b))%Q
    (swa_tokens + (if empty_pool then 0 else swa_offset b))
    (if empty_pool then 0 else full_evictable_size e)
    (if empty_pool then 0 else swa_evictable_size e)
    empty_pool empty_pool.

(** The loop of [_joint_chunk_cap] over page counts. *)
Fixpoint joint_loop (fuel : nat) (fits : Z → bool) (lo hi : Z) : Z :=
  match fuel with
  | O => lo
  | S fuel =>
      if lo <? hi then
        let mid := (lo + hi + 1) / 2 in
        if fits mid then joint_loop fuel fits mid hi else joint_loop fuel fits lo (mid - 1)
      else lo
  end.

Definition joint_fits (e : E) (b : budget) (chunk_limit : option Z) (swa_host_hit_length mid : Z) : bool :=
  let tokens := mid * b_page_size cfg in
  _fits e b (tokens + b_page_size cfg) (swa_tokens tokens 0 chunk_limit swa_host_hit_length) false.

Definition _joint_chunk_cap (e : E) (b : budget) (max_chunk_tokens : Z) (chunk_limit : option Z)
    (swa_host_hit_length : Z) : Z :=
  let hi := Z.max 0 max_chunk_tokens / b_page_size cfg in
  joint_loop (Z.to_nat hi) (joint_fits e b chunk_limit swa_host_hit_length) 0 hi * b_page_size cfg.

(** ** The methods of each class, and the class a budget has *)

Definition plain_has_capacity (e : E) (b : budget) : bool :=
  qltb 0 (remaining_total e b) && (0 <? remaining_current e b).
Definition swa_has_capacity (e : E) (b : budget) : bool := plain_has_capacity e b && (0 <? remaining_swa e b).
Definition shared_has_capacity (e : E) (b : budget) : bool := _fits e b 0 0 false.

Definition has_capacity (e : E) (b : budget) : bool :=
  match b_class cfg with
  | PlainBudget => plain_has_capacity e b
  | SWABudget _ _ => swa_has_capacity e b
  | SharedSWABudget _ _ => shared_has_capacity e b
  end.

Definition plain_check_prefill (e : E) (b : budget) (total_tokens : Z) (chunk_limit : option Z) : bool * option Z :=
  if qltb (zq total_tokens) (remaining_total e b) then (true, chunk_limit) else (false, None).

Definition swa_check_prefill (e : E) (b : budget) (extend_input_len total_tokens max_new_tokens
    swa_host_hit_length : Z) (chunk_limit : option Z) : bool * option Z :=
  if qleb (remaining_total e b) (zq total_tokens) then (false, None)
  else
    let extend_input_len := b_ceil cfg extend_input_len in
    let needed := swa_tokens extend_input_len max_new_tokens chunk_limit swa_host_hit_length in
    let fits := if req_ring cfg then needed <=? remaining_swa e b else needed <? remaining_swa e b in
    if fits then (true, chunk_limit)
    else
      let cap := if swa_never_fits extend_input_len max_new_tokens chunk_limit swa_host_hit_length
                 then _chunk_cap e b max_new_tokens swa_host_hit_length else 0 in
      match chunk_limit with
      | None => (false, None)
      | Some l => if cap <=? 0 then (false, None) else (true, Some (Z.min l cap))
      end.

Definition shared_check_prefill (e : E) (b : budget) (extend_input_len total_tokens max_new_tokens
    input_tokens swa_host_hit_length : Z) (chunk_limit : option Z) : bool * option Z :=
  let needed := swa_tokens extend_input_len max_new_tokens chunk_limit swa_host_hit_length in
  if _fits e b total_tokens needed false then (true, chunk_limit)
  else
    match chunk_limit with
    | None => (false, None)
    | Some l =>
        if _fits e b (input_tokens + max_new_tokens + b_page_size cfg)
             (swa_tokens input_tokens max_new_tokens chunk_limit 0) true
        then (false, None)
        else
          let cap := _joint_chunk_cap e b (Z.min l (Z.max 0 (extend_input_len - 1))) chunk_limit
                       swa_host_hit_length in
          if 0 <? cap then (true, Some (Z.min l cap)) else (false, None)
    end.

(** Feasibility, and a bound on the chunk. *)
Definition check_prefill (e : E) (b : budget) (extend_input_len total_tokens max_new_tokens
    input_tokens swa_host_hit_length : Z) (chunk_limit : option Z) : bool * option Z :=
  match b_class cfg with
  | PlainBudget => plain_check_prefill e b total_tokens chunk_limit
  | SWABudget _ _ => swa_check_prefill e b extend_input_len total_tokens max_new_tokens swa_host_hit_length chunk_limit
  | SharedSWABudget _ _ =>
      shared_check_prefill e b extend_input_len total_tokens max_new_tokens input_tokens swa_host_hit_length chunk_limit
  end.

Definition plain_can_allocate (e : E) (b : budget) (paged_input : Z) : bool :=
  qleb (zq paged_input) (zq (remaining_current e b)) && qleb (zq paged_input) (remaining_total e b).
Definition swa_can_allocate (e : E) (b : budget) (paged_input extend_input_len max_new_tokens : Z)
    (chunk_limit : option Z) : bool :=
  plain_can_allocate e b paged_input &&
  (swa_tokens extend_input_len max_new_tokens chunk_limit 0 <=? remaining_swa e b).
Definition shared_can_allocate (e : E) (b : budget) (extend_input_len max_new_tokens : Z)
    (chunk_limit : option Z) : bool :=
  _fits e b (extend_input_len + max_new_tokens + b_page_size cfg)
    (swa_tokens extend_input_len max_new_tokens chunk_limit 0) false.

Definition can_allocate_prefill (e : E) (b : budget) (paged_input extend_input_len max_new_tokens : Z)
    (chunk_limit : option Z) : bool :=
  match b_class cfg with
  | PlainBudget => plain_can_allocate e b paged_input
  | SWABudget _ _ => swa_can_allocate e b paged_input extend_input_len max_new_tokens chunk_limit
  | SharedSWABudget _ _ => shared_can_allocate e b extend_input_len max_new_tokens chunk_limit
  end.

Definition plain_available_chunk (e : E) (b : budget) (chunk_limit : Z) : option Z :=
  let available := Z.min chunk_limit (qint (remaining_total e b)) in
  Some (if 0 <? available then available else chunk_limit).
Definition swa_available_chunk (e : E) (b : budget) (chunk_limit : Z) : option Z :=
  let available := Z.min chunk_limit (qint (remaining_total e b)) in
  let available := if req_ring cfg then available
                   else Z.min available (remaining_swa e b - b_page_size cfg) in
  if 0 <? available then Some available else None.
Definition shared_available_chunk (chunk_limit : Z) : option Z :=
  if 0 <? chunk_limit then Some chunk_limit else None.

Definition available_chunk_tokens (e : E) (b : budget) (chunk_limit : Z) : option Z :=
  match b_class cfg with
  | PlainBudget => plain_available_chunk e b chunk_limit
  | SWABudget _ _ => swa_available_chunk e b chunk_limit
  | SharedSWABudget _ _ => shared_available_chunk chunk_limit
  end.

Definition shared_fit_chunk (e : E) (b : budget) (extend_input_len max_new_tokens chunk_limit : Z) : option Z :=
  let candidate := Z.min extend_input_len chunk_limit in
  let finishes := extend_input_len <=? candidate in
  let headroom := if finishes then max_new_tokens else 0 in
  if _fits e b (candidate + headroom + b_page_size cfg)
       (swa_tokens candidate headroom (Some chunk_limit) 0) false
  then Some chunk_limit
  else
    let cap := _joint_chunk_cap e b (if finishes then Z.max 0 (candidate - 1) else candidate)
                 (Some chunk_limit) 0 in
    if 0 <? cap then Some (Z.min chunk_limit cap) else None.

Definition fit_chunk (e : E) (b : budget) (extend_input_len max_new_tokens chunk_limit : Z) : option Z :=
  match b_class cfg with
  | SharedSWABudget _ _ => shared_fit_chunk e b extend_input_len max_new_tokens chunk_limit
  | _ => Some chunk_limit
  end.

Definition plain_reserve (b : budget) (extend_input_len max_new_tokens extra_tokens : Z) : budget :=
  let immediate := b_ceil cfg extend_input_len + b_page_size cfg + extra_tokens in
  mkBudget (total_offset b + zq (immediate + max_new_tokens))%Q (current_offset b + immediate) (swa_offset b).

Definition swa_reserve (b : budget) (extend_input_len max_new_tokens extra_tokens : Z)
    (chunk_limit : option Z) (is_chunked_continuation : bool) : budget :=
  let b := plain_reserve b extend_input_len max_new_tokens extra_tokens in
  if req_ring cfg && is_chunked_continuation then b
  else mkBudget (total_offset b) (current_offset b)
         (swa_offset b + swa_tokens (b_ceil cfg extend_input_len) max_new_tokens chunk_limit 0).

Definition reserve (b : budget) (extend_input_len max_new_tokens extra_tokens : Z)
    (chunk_limit : option Z) (is_chunked_continuation : bool) : budget :=
  match b_class cfg with
  | PlainBudget => plain_reserve b extend_input_len max_new_tokens extra_tokens
  | _ => swa_reserve b extend_input_len max_new_tokens extra_tokens chunk_limit is_chunked_continuation
  end.

Definition shared_prepare_load_back (e : E) (b : budget) (full_tokens extend_input_len max_new_tokens
    swa_host_hit_length : Z) (chunk_limit : option Z) : bool * E :=
  (* the ceiling of a float, then [int] *)
  let full := Qceiling ((zq full_tokens + total_offset b) / zq (b_page_size cfg)) * b_page_size cfg in
  let swa := b_ceil cfg (swa_tokens extend_input_len max_new_tokens chunk_limit swa_host_hit_length
                         + swa_offset b) in
  reclaim_for_prealloc e full swa.

Definition prepare_load_back (e : E) (b : budget) (full_tokens extend_input_len max_new_tokens
    swa_host_hit_length : Z) (chunk_limit : option Z) : bool * E :=
  match b_class cfg with
  | SharedSWABudget _ _ =>
      shared_prepare_load_back e b full_tokens extend_input_len max_new_tokens swa_host_hit_length chunk_limit
  | _ => (true, e)
  end.
End budget.

(** ** Lemmas *)

Lemma ceil_paged_eq p x : 0 < p → ceil_paged_tokens p x = ceil_align x p.
Proof.
  intros Hp. unfold ceil_paged_tokens, ceil_align. f_equal. unfold ceil_div.
  pose proof (Z.div_mod (- x) p ltac:(lia)). pose proof (Z.mod_pos_bound (- x) p Hp).
  pose proof (Z.div_mod (x + p - 1) p ltac:(lia)). pose proof (Z.mod_pos_bound (x + p - 1) p Hp). nia.
Qed.

Lemma ceil_paged_mono p x y : 0 < p → x ≤ y → ceil_paged_tokens p x ≤ ceil_paged_tokens p y.
Proof.
  intros Hp Hxy. unfold ceil_paged_tokens. apply Z.mul_le_mono_nonneg_r; [lia|].
  pose proof (Z.div_le_mono (- y) (- x) p Hp ltac:(lia)). lia.
Qed.

Lemma ceil_paged_bounds p x : 0 < p → x ≤ ceil_paged_tokens p x < x + p.
Proof. intros Hp. rewrite ceil_paged_eq by done. split; [by apply ceil_align_ge|by apply ceil_align_lt]. Qed.

Lemma ceil_paged_le_multiple p x q : 0 < p → x ≤ q * p → ceil_paged_tokens p x ≤ q * p.
Proof. intros Hp Hx. rewrite ceil_paged_eq by done. apply ceil_align_min; [done|by exists q|done]. Qed.

Lemma ceil_paged_idem p x : 0 < p → ceil_paged_tokens p (ceil_paged_tokens p x) = ceil_paged_tokens p x.
Proof. intros Hp. rewrite !(ceil_paged_eq p) by done. apply ceil_align_id; [done|]. by apply ceil_align_divide. Qed.

(** More tokens never need fewer. *)
Lemma estimate_mono x x' m m' w p l h h' :
  0 < p → x ≤ x' → m ≤ m' → h ≤ h' →
  estimate_swa_kv_tokens x m w p l h ≤ estimate_swa_kv_tokens x' m' w p l h'.
Proof.
  intros Hp Hx Hm Hh. unfold estimate_swa_kv_tokens.
  pose proof (ceil_paged_mono p h h' Hp Hh). pose proof (ceil_paged_bounds p h' Hp).
  destruct w as [w|]; [destruct (w <=? 0)|]; destruct (Z.ltb_spec 0 h), (Z.ltb_spec 0 h'); try lia;
    destruct l as [l|]; lia.
Qed.

(** Tokens are charged once: a chunk adds at most itself to the headroom. *)
Lemma estimate_chunk_le x m w p l h :
  0 < p → 0 ≤ x → 0 ≤ m → estimate_swa_kv_tokens x m w p l 0 ≤ x + estimate_swa_kv_tokens 0 m w p None h.
Proof.
  intros Hp Hx Hm. unfold estimate_swa_kv_tokens. simpl. pose proof (ceil_paged_bounds p h Hp).
  destruct w as [w|]; [destruct (Z.leb_spec w 0)|]; destruct (Z.ltb_spec 0 h); try lia; destruct l as [l|]; lia.
Qed.

(** The binary search: the result fits (or is the lower end), and nothing
    above it does when fitting is downward closed. *)
Lemma joint_loop_spec fuel fits lo hi :
  0 ≤ lo ≤ hi → (Z.to_nat (hi - lo) ≤ fuel)%nat →
  let r := joint_loop fuel fits lo hi in
  lo ≤ r ≤ hi ∧ (r = lo ∨ fits r = true) ∧
  ((∀ i j, lo < i → i ≤ j → j ≤ hi → fits j = true → fits i = true) →
   ∀ j, r < j ≤ hi → fits j = false).
Proof.
  revert lo hi. induction fuel as [|fuel IH]; intros lo hi Hb Hf; cbv zeta; simpl.
  { split; [lia|]. split; [by left|]. intros _ j Hj. lia. }
  destruct (Z.ltb_spec lo hi) as [Hlt|Hge]; [|split; [lia|]; split; [by left|]; intros _ j Hj; lia].
  set (mid := (lo + hi + 1) / 2).
  assert (lo < mid ≤ hi) as Hmid.
  { unfold mid. split; [apply Z.lt_le_trans with (lo + 1); [lia|]; apply Z.div_le_lower_bound; lia|].
    apply Z.lt_succ_r, Z.div_lt_upper_bound; lia. }
  destruct (fits mid) eqn:Em.
  - destruct (IH mid hi ltac:(lia) ltac:(lia)) as (Hr & Hfit & Hmax). split; [lia|]. split.
    + right. destruct Hfit as [->|Hfit]; done.
    + intros Hmono j Hj. apply Hmax; [|done]. intros i k H1 H2 H3. apply Hmono; lia.
  - destruct (IH lo (mid - 1) ltac:(lia) ltac:(lia)) as (Hr & Hfit & Hmax). split; [lia|]. split; [done|].
    intros Hmono j Hj. destruct (decide (j ≤ mid - 1)) as [Hle|Hgt].
    + apply Hmax; [|lia]. intros i k H1 H2 H3. apply Hmono; lia.
    + destruct (fits j) eqn:Ej; [|done]. rewrite (Hmono mid j) in Em; [done|lia|lia|lia|done].
Qed.

Section theorems.
Context {E : Type} `{KvPools E} (cfg : budget_cfg).
Hypothesis Hps : 0 < b_page_size cfg.

Lemma swa_tokens_mono x x' m m' l h h' :
  x ≤ x' → m ≤ m' → h ≤ h' → swa_tokens cfg x m l h ≤ swa_tokens cfg x' m' l h'.
Proof. intros. unfold swa_tokens. destruct (req_ring cfg); [done|]. by apply estimate_mono. Qed.

(** The joint search over chunk sizes terminates with a page multiple
    within the bound; a positive result fits the shared byte budget, and when
    the pool accepts every smaller demand than one it accepts, no larger page
    multiple within the bound fits. *)
Theorem joint_chunk_cap_largest (e : E) (b : budget) (max_chunk_tokens : Z) (chunk_limit : option Z) (host : Z) :
  0 ≤ max_chunk_tokens →
  (∀ f f' s s' fe se, (f <= f')%Q → s ≤ s' →
     can_reserve e f' s' fe se false false = true → can_reserve e f s fe se false false = true) →
  let fits (tokens : Z) :=
    _fits e b (tokens + b_page_size cfg) (swa_tokens cfg tokens 0 chunk_limit host) false in
  let cap := _joint_chunk_cap cfg e b max_chunk_tokens chunk_limit host in
  0 ≤ cap ≤ max_chunk_tokens ∧ (b_page_size cfg | cap) ∧ (0 < cap → fits cap = true) ∧
  ∀ k, cap < k * b_page_size cfg ≤ max_chunk_tokens → fits (k * b_page_size cfg) = false.
Proof.
  intros Hmax Hmono. cbv zeta. unfold _joint_chunk_cap. set (ps := b_page_size cfg) in *.
  rewrite Z.max_r by lia. set (hi := max_chunk_tokens / ps).
  assert (0 ≤ hi) as Hhi by (apply Z.div_pos; lia).
  pose proof (Z.mul_div_le max_chunk_tokens ps Hps) as Hle.
  pose proof (Z.mul_succ_div_gt max_chunk_tokens ps Hps) as Hgt.
  destruct (joint_loop_spec (Z.to_nat hi) (joint_fits cfg e b chunk_limit host) 0 hi ltac:(lia) ltac:(lia))
    as (Hr & Hfit & Hlast). set (r := joint_loop _ _ _ _) in *.
  split; [fold hi in Hle; nia|]. split; [by exists r|]. split.
  - intros Hpos. destruct Hfit as [->|Hfit]; [lia|exact Hfit].
  - intros k Hk. apply Hlast.
    + intros i j H0 H1 H2. unfold joint_fits, _fits. apply Hmono.
      * apply Qplus_le_compat; [|apply Qle_refl]. rewrite <- Zle_Qle. nia.
      * apply Z.add_le_mono_r. apply swa_tokens_mono; nia.
    + fold hi in Hle, Hgt. nia.
Qed.

(** What a hybrid budget admits fits the SWA pool: after a positive
    [check_prefill], reserving any extension up to the request's, within the
    chunk bound the check returned, never overdraws the SWA side. *)
Theorem swa_admission_covered (e : E) (b : budget) (ext total max_new input host : Z) (limit lim : option Z)
    (ext' max_new' extra : Z) (all_swa ring : bool) :
  b_class cfg = SWABudget all_swa ring →
  0 ≤ ext' ≤ ext → 0 ≤ max_new' ≤ max_new → 0 ≤ host →
  check_prefill cfg e b ext total max_new input host limit = (true, lim) →
  (∀ l, lim = Some l → ext' ≤ l) →
  0 ≤ remaining_swa cfg e (reserve cfg b ext' max_new' extra limit false).
Proof.
  intros Hc Hext Hnew Hhost Hck Hl. set (x := b_ceil cfg ext').
  assert (swa_tokens cfg x max_new' limit 0 ≤ remaining_swa cfg e b) as Hgoal; last first.
  { unfold reserve, swa_reserve, remaining_swa in *. rewrite Hc, andb_false_r in *. simpl. fold x. lia. }
  pose proof (ceil_paged_bounds (b_page_size cfg) ext' Hps) as Hx. fold (b_ceil cfg ext') x in Hx.
  unfold check_prefill in Hck. rewrite Hc in Hck. unfold swa_check_prefill in Hck. destruct (qleb _ _); [done|].
  set (need := swa_tokens cfg (b_ceil cfg ext) max_new limit host) in *.
  assert (swa_tokens cfg x max_new' limit 0 ≤ need) as Hle.
  { apply swa_tokens_mono; [apply ceil_paged_mono|..]; lia. }
  destruct (if req_ring cfg then _ else _) eqn:Ef.
  { destruct (req_ring cfg); [apply Z.leb_le in Ef|apply Z.ltb_lt in Ef]; lia. }
  destruct (swa_never_fits _ _ _ _ _); [|destruct limit; done]. destruct limit as [l|]; [|done].
  destruct (Z.leb_spec (_chunk_cap cfg e b max_new host) 0) as [|Hcap]; [done|]. injection Hck as <-.
  specialize (Hl _ eq_refl). unfold _chunk_cap in *.
  set (head := swa_tokens cfg 0 max_new None host) in *. set (q := (remaining_swa cfg e b - head) / b_page_size cfg) in *.
  pose proof (Z.mul_div_le (remaining_swa cfg e b - head) (b_page_size cfg) Hps) as Hq. fold q in Hq.
  assert (x ≤ q * b_page_size cfg) as Hxq by (apply ceil_paged_le_multiple; lia).
  assert (swa_tokens cfg x max_new' (Some l) 0 ≤ x + head); [|lia].
  unfold head, swa_tokens. destruct (req_ring cfg); [lia|].
  etrans; [apply (estimate_chunk_le x max_new' _ _ _ host); lia|].
  apply Z.add_le_mono_l. apply estimate_mono; lia.
Qed.
End theorems.

(** ** Pools with fixed sizes, for the witnesses *)

Record fixed_pools := mkPools {
  fp_available : Z; fp_evictable : Z; fp_swa_available : Z; fp_swa_evictable : Z; fp_bytes : Z
}.

#[local] Instance fixed_kv_pools : KvPools fixed_pools := {
  available_size := fp_available;
  evictable_size := fp_evictable;
  full_available_size := fp_available;
  full_evictable_size := fp_evictable;
  swa_available_size := fp_swa_available;
  swa_evictable_size := fp_swa_evictable;
  can_reserve e f s fe se _ _ := qleb (f + zq s) (zq (fp_bytes e + fe + se));
  reclaim_for_prealloc e f s := (f + s <=? fp_bytes e + fp_evictable e + fp_swa_evictable e, e)
}.

Lemma joint_chunk_cap_largest_witness :
  let cfg := mkBudgetCfg (SharedSWABudget false false) 16 false (Some 64) 1000 0 in
  let e := mkPools 0 0 0 0 300 in
  _joint_chunk_cap cfg e (mkBudget 0 0 0) 512 (Some 512) 0 = 128 ∧
  _fits e (mkBudget 0 0 0) (9 * 16 + 16) (swa_tokens cfg (9 * 16) 0 (Some 512) 0) false = false.
Proof.
  cbv zeta. set (cfg := mkBudgetCfg _ _ _ _ _ _).
  pose proof (joint_chunk_cap_largest cfg ltac:(done) (mkPools 0 0 0 0 300) (mkBudget 0 0 0) 512 (Some 512) 0
    ltac:(done)) as H. cbv zeta in H. destruct H as (Hr & _ & Hfit & Hmax).
  { intros f f' s s' fe se Hf Hs. simpl. destruct (qleb_spec (f' + zq s') (zq (300 + fe + se))) as [Hle|]; [|done].
    intros _. destruct (qleb_spec (f + zq s) (zq (300 + fe + se))) as [|Hlt]; [done|].
    assert (zq s <= zq s')%Q by (by rewrite <- Zle_Qle). lra. }
  assert (_joint_chunk_cap cfg (mkPools 0 0 0 0 300) (mkBudget 0 0 0) 512 (Some 512) 0 = 128) as Ec by by vm_compute.
  split; [exact Ec|]. apply (Hmax 9). rewrite Ec. simpl. lia.
Defined.

Lemma swa_admission_covered_witness :
  let cfg := mkBudgetCfg (SWABudget false false) 16 false (Some 64) 200 0 in
  let e := mkPools 10000 0 200 0 0 in
  let b := mkBudget 0 0 0 in
  check_prefill cfg e b 500 600 10 500 0 (Some 400) = (true, Some 160) ∧
  0 ≤ remaining_swa cfg e (reserve cfg b 160 0 0 (Some 400) false).
Proof.
  cbv zeta. split; [by vm_compute|].
  eapply (swa_admission_covered (mkBudgetCfg (SWABudget false false) 16 false (Some 64) 200 0) ltac:(done) _ _ 500 600 10 500 0 (Some 400) (Some 160));
    [reflexivity|lia|lia|lia|by vm_compute|]. intros l [= <-]. lia.
Defined.
