(* ===== verification/PySort.v ===== *)
(** * Sorting by a key

    Python's [list.sort(key=...)] and [sorted]: the result is an ordered
    permutation, and elements with equal keys keep their order. *)
From S2P Require Import Prelude.

Section sort.
Context {A K : Type} (leb : K → K → bool) (key : A → K).

Fixpoint insert_by (x : A) (l : list A) : list A :=
  match l with
  | [] => [x]
  | y :: l' => if leb (key x) (key y) then x :: l else y :: insert_by x l'
  end.

Definition py_sort (l : list A) : list A := foldr insert_by [] l.

Lemma insert_by_perm x l : insert_by x l ≡ₚ x :: l.
Proof.
  induction l as [|y l IH]; simpl; [done|]. destruct (leb _ _); [done|]. rewrite IH. apply Permutation_swap.
Qed.

Lemma py_sort_perm l : py_sort l ≡ₚ l.
Proof. induction l as [|x l IH]; simpl; [done|]. rewrite insert_by_perm. by constructor. Qed.

Lemma elem_of_py_sort l x : x ∈ py_sort l ↔ x ∈ l.
Proof. by rewrite py_sort_perm. Qed.

Class TotalLeb : Prop := {
  leb_total : ∀ a b, leb a b = true ∨ leb b a = true;
  leb_trans : ∀ a b c, leb a b = true → leb b c = true → leb a c = true
}.
Context `{!TotalLeb}.

Definition key_le (x y : A) : Prop := leb (key x) (key y) = true.

Lemma leb_refl a : leb a a = true.
Proof. by destruct (leb_total a a). Qed.

Lemma insert_by_sorted x l : StronglySorted key_le l → StronglySorted key_le (insert_by x l).
Proof.
  induction 1 as [|y l Hs IH Hy]; simpl; [repeat constructor|]. destruct (leb (key x) (key y)) eqn:E.
  - constructor; [by constructor|]. constructor; [done|]. eapply Forall_impl; [done|].
    intros z Hz. by eapply leb_trans.
  - constructor; [done|]. apply Forall_forall. intros z Hz. rewrite insert_by_perm in Hz.
    apply elem_of_cons in Hz as [->|Hz].
    + destruct (leb_total (key x) (key y)); [congruence|done].
    + by eapply Forall_forall in Hy.
Qed.

Lemma py_sort_sorted l : StronglySorted key_le (py_sort l).
Proof. induction l as [|x l IH]; simpl; [constructor|by apply insert_by_sorted]. Qed.

(** The front of a sorted list is least. *)
Lemma py_sort_head x l l' : py_sort l = x :: l' → ∀ y, y ∈ l → key_le x y.
Proof.
  intros E y Hy. pose proof (py_sort_sorted l) as Hs. rewrite E in Hs. apply StronglySorted_inv in Hs as [_ Hf].
  rewrite <- elem_of_py_sort, E in Hy. apply elem_of_cons in Hy as [->|Hy]; [apply leb_refl|].
  by eapply Forall_forall in Hf.
Qed.

(** Elements of one key class keep their order. *)
Lemma insert_by_stable x l (P : A → Prop) `{!∀ y, Decision (P y)} :
  (∀ y z, P y → P z → key_le y z) →
  filter P (insert_by x l) = filter P (x :: l).
Proof.
  intros HP. induction l as [|y l IH]; [done|]. cbn [insert_by].
  destruct (leb (key x) (key y)) eqn:E; [done|].
  rewrite filter_cons, IH, !filter_cons. destruct (decide (P x)) as [Hx|Hx], (decide (P y)) as [Hy|Hy]; try done.
  pose proof (HP x y Hx Hy). unfold key_le in *. congruence.
Qed.

Lemma py_sort_stable l (P : A → Prop) `{!∀ y, Decision (P y)} :
  (∀ y z, P y → P z → key_le y z) → filter P (py_sort l) = filter P l.
Proof.
  intros HP. induction l as [|x l IH]; simpl; [done|]. rewrite insert_by_stable by done.
  rewrite !filter_cons, IH. done.
Qed.
End sort.

(** Sorting a sorted list changes nothing. *)
Lemma py_sort_id {A K} (leb : K → K → bool) (key : A → K) l :
  StronglySorted (key_le leb key) l → py_sort leb key l = l.
Proof.
  induction 1 as [|x l Hs IH Hx]; simpl; [done|]. rewrite IH. destruct l as [|y l]; [done|]. simpl.
  apply Forall_cons in Hx as [Hxy _]. unfold key_le in Hxy. by rewrite Hxy.
Qed.

(** Sorting looks at the elements only through their keys. *)
Lemma py_sort_ext {A K} (leb : K → K → bool) (key key' : A → K) l :
  (∀ x, x ∈ l → key x = key' x) → py_sort leb key l = py_sort leb key' l.
Proof.
  induction l as [|x l IH]; intros He; [done|]. simpl. rewrite IH by (intros; apply He; by right).
  assert (∀ y, y ∈ py_sort leb key' l → key y = key' y) as Hl.
  { intros y Hy. apply He. right. by apply elem_of_py_sort in Hy. }
  revert Hl. generalize (py_sort leb key' l) as s. induction s as [|y s IHs]; intros Hl; [done|]. simpl.
  rewrite (He x), (Hl y) by left. rewrite IHs; [done|]. intros z Hz. apply Hl. by right.
Qed.

Lemma py_sort_fmap {A B K} (leb : K → K → bool) (key : B → K) (f : A → B) l :
  py_sort leb key (f <$> l) = f <$> py_sort leb (λ x, key (f x)) l.
Proof.
  induction l as [|x l IH]; [done|].
  change (py_sort leb key (f <$> x :: l)) with (insert_by leb key (f x) (py_sort leb key (f <$> l))).
  rewrite IH. simpl. generalize (py_sort leb (λ x, key (f x)) l) as s.
  induction s as [|y s IHs]; [done|]. rewrite !fmap_cons. cbn [insert_by]. rewrite IHs. by destruct (leb _ _).
Qed.

(** Pairs compare lexicographically. *)
Definition pair_leb {K1 K2} (leb1 : K1 → K1 → bool) (leb2 : K2 → K2 → bool) (a b : K1 * K2) : bool :=
  leb1 a.1 b.1 && (negb (leb1 b.1 a.1) || leb2 a.2 b.2).

#[export] Instance Zleb_total : TotalLeb Z.leb.
Proof. split; intros; rewrite ?Z.leb_le in *; lia. Qed.

#[export] Instance pair_leb_total {K1 K2} leb1 leb2 `{!@TotalLeb K1 leb1, !@TotalLeb K2 leb2} :
  TotalLeb (pair_leb leb1 leb2).
Proof.
  split.
  - intros [a1 a2] [b1 b2]. unfold pair_leb; simpl.
    pose proof (leb_total leb1 a1 b1). pose proof (leb_total leb2 a2 b2).
    destruct (leb1 a1 b1), (leb1 b1 a1), (leb2 a2 b2), (leb2 b2 a2); simpl; intuition congruence.
  - intros [a1 a2] [b1 b2] [c1 c2]. unfold pair_leb; simpl.
    rewrite !andb_true_iff, !orb_true_iff, !negb_true_iff. intros [H1 H2] [H3 H4].
    split; [by eapply leb_trans|]. destruct (leb1 c1 a1) eqn:E; [right|by left].
    assert (leb1 c1 b1 = true) by (by eapply leb_trans). assert (leb1 b1 a1 = true) by (by eapply leb_trans).
    destruct H2 as [?|H2]; [congruence|]. destruct H4 as [?|H4]; [congruence|]. by eapply leb_trans.
Qed.

(** [False] sorts before [True]. *)
Definition bool_leb (a b : bool) : bool := negb a || b.
#[export] Instance bool_leb_total : TotalLeb bool_leb.
Proof. split; [intros [] []; auto|intros [] [] []; auto]. Qed.

(** A later element never has a smaller key. *)
Lemma py_sort_lookup {A K} (leb : K → K → bool) (key : A → K) `{!TotalLeb leb} l i j x y :
  py_sort leb key l !! i = Some x → py_sort leb key l !! j = Some y → (i < j)%nat → leb (key x) (key y) = true.
Proof.
  intros Hx Hy Hij. pose proof (py_sort_sorted leb key l) as Hs. revert i j Hx Hy Hij.
  induction Hs as [|z s Hs IH Hz]; intros [|i] [|j]; simpl; intros Hx Hy Hij; try done; try lia.
  - injection Hx as <-. rewrite Forall_forall in Hz. apply Hz. by eapply list_elem_of_lookup_2.
  - eapply IH; [done|done|lia].
Qed.

(** Without ties the result does not depend on the order of the input. *)
Lemma py_sort_unique {A K} (leb : K → K → bool) (key : A → K) `{!TotalLeb leb} l1 l2 :
  (∀ x y, x ∈ l1 → y ∈ l1 → leb (key x) (key y) = true → leb (key y) (key x) = true → x = y) →
  l1 ≡ₚ l2 → py_sort leb key l1 = py_sort leb key l2.
Proof.
  intros Ha Hp. apply (StronglySorted_unique_strong (key_le leb key)); [|by apply py_sort_sorted..|].
  - intros x y Hx Hy. rewrite elem_of_py_sort in Hx, Hy. rewrite <- Hp in Hy. by apply Ha.
  - rewrite (py_sort_perm leb key l1), (py_sort_perm leb key l2). done.
Qed.
