(* ===== verification/PrefillAdder.v ===== *)
(** * Prefill admission ([managers/schedule_policy.py], [PrefillAdder])

    One pass of prefill scheduling: requests are offered one by one, each is
    admitted whole, admitted as a chunk, or refused; admission charges the
    compute budgets (chunk, input) and the memory budget.  The prefix cache,
    the pools and the delayer of the pass are behind interfaces. *)
From S2P Require Import Prelude PySort PrefillBudget.

(** ** Requests *)

Record Req (N : Type) := mkReqS {
  rid : string;
  full_len : Z;                    (* len(full_untruncated_fill_ids) *)
  origin_len : Z;                  (* len(origin_input_ids) *)
  output_len : Z;                  (* len(output_ids) *)
  prefix_len : Z;
  extend_end : Z;
  max_new_tokens : Z;
  ignore_eos : bool;
  retracted_stain : bool;
  is_retracted : bool;
  req_pool_idx : option Z;
  holds_mamba : bool;
  host_hit_length : Z;
  swa_host_hit_length : Z;
  mamba_host_hit_length : Z;
  auxiliary_swa_host_hit_length : Z;
  host_loaded_length : Z;
  storage_hit_length : Z;
  storage_hit_start : option Z;
  host_hit_is_storage : bool;
  cache_protected_len : Z;
  last_node : N;
  best_match_node : N;
  dllm_prefill : bool;             (* is_dllm_prefill() *)
  dllm_block_offset : Z;
  dllm_incomplete : bool;          (* bool(dllm_incomplete_ids) *)
  priority : Z;
  wait_queue_entry_time : Z;
  finished : bool
}.
Arguments mkReqS {N}.
Arguments rid {N} _.
Arguments full_len {N} _.
Arguments origin_len {N} _.
Arguments output_len {N} _.
Arguments prefix_len {N} _.
Arguments extend_end {N} _.
Arguments max_new_tokens {N} _.
Arguments ignore_eos {N} _.
Arguments retracted_stain {N} _.
Arguments is_retracted {N} _.
Arguments req_pool_idx {N} _.
Arguments holds_mamba {N} _.
Arguments host_hit_length {N} _.
Arguments swa_host_hit_length {N} _.
Arguments mamba_host_hit_length {N} _.
Arguments auxiliary_swa_host_hit_length {N} _.
Arguments host_loaded_length {N} _.
Arguments storage_hit_length {N} _.
Arguments storage_hit_start {N} _.
Arguments host_hit_is_storage {N} _.
Arguments cache_protected_len {N} _.
Arguments last_node {N} _.
Arguments best_match_node {N} _.
Arguments dllm_prefill {N} _.
Arguments dllm_block_offset {N} _.
Arguments dllm_incomplete {N} _.
Arguments priority {N} _.
Arguments wait_queue_entry_time {N} _.
Arguments finished {N} _.

(** The assignments the adder makes on a request. *)
Definition set_extend_end {N} (e : Z) (r : Req N) : Req N :=
  mkReqS (rid r) (full_len r) (origin_len r) (output_len r) (prefix_len r) e (max_new_tokens r)
    (ignore_eos r) (retracted_stain r) (is_retracted r) (req_pool_idx r) (holds_mamba r)
    (host_hit_length r) (swa_host_hit_length r) (mamba_host_hit_length r)
    (auxiliary_swa_host_hit_length r) (host_loaded_length r) (storage_hit_length r)
    (storage_hit_start r) (host_hit_is_storage r) (cache_protected_len r) (last_node r)
    (best_match_node r) (dllm_prefill r) (dllm_block_offset r) (dllm_incomplete r) (priority r)
    (wait_queue_entry_time r) (finished r).

Definition set_loaded {N} (prefix loaded protected : Z) (node : N) (r : Req N) : Req N :=
  mkReqS (rid r) (full_len r) (origin_len r) (output_len r) prefix (extend_end r) (max_new_tokens r)
    (ignore_eos r) (retracted_stain r) (is_retracted r) (req_pool_idx r) (holds_mamba r)
    (host_hit_length r) (swa_host_hit_length r) (mamba_host_hit_length r)
    (auxiliary_swa_host_hit_length r) loaded (storage_hit_length r)
    (storage_hit_start r) (host_hit_is_storage r) protected node
    (best_match_node r) (dllm_prefill r) (dllm_block_offset r) (dllm_incomplete r) (priority r)
    (wait_queue_entry_time r) (finished r).

Definition extend_len {N} (r : Req N) : Z := extend_end r - prefix_len r.

Definition needs_host_load_back {N} (r : Req N) : bool :=
  (0 <? host_hit_length r) || (0 <? swa_host_hit_length r) || (0 <? mamba_host_hit_length r) ||
  (0 <? auxiliary_swa_host_hit_length r).

Definition materialized_host_hit_len {N} (r : Req N) : Z := Z.min (host_hit_length r) (host_loaded_length r).

Definition fulfilled_storage_hit_len {N} (r : Req N) (prefix : Z) : Z :=
  match storage_hit_start r with
  | None => Z.min prefix (storage_hit_length r)
  | Some s => Z.max 0 (Z.min prefix (s + storage_hit_length r) - s)
  end.

(** [schedule_batch.py: split_cached_prefix_by_tier]: (device, host, storage). *)
Definition split_cached_prefix_by_tier (prefix host_hit_len storage_hit_len : Z)
    (start : option Z) (host_is_storage : bool) : Z * Z * Z :=
  let host_hit_len := Z.min prefix host_hit_len in
  let host_start := prefix - host_hit_len in
  let '(host, storage) :=
    match start with
    | None =>
        if host_is_storage then (0, host_hit_len)
        else let storage := Z.min host_hit_len storage_hit_len in (host_hit_len - storage, storage)
    | Some s =>
        let storage_end := s + storage_hit_len in
        let storage := Z.max 0 (Z.min prefix storage_end - Z.max 0 s) in
        let in_host := Z.max 0 (Z.min prefix storage_end - Z.max host_start s) in
        (if host_is_storage then 0 else host_hit_len - in_host, storage)
    end in
  (prefix - host - storage, host, storage).

(** ** The interfaces of the pass *)

Class PrefixTree (E N : Type) := {
  tree_pools :: KvPools E;
  tree_lock : N → E → E;
  tree_unlock : N → E → E;
  inc_host_lock_ref : N → E → E;
  dec_host_lock_ref : N → E → E;
  (** [init_load_back]: [None], or the tokens loaded and the new last node *)
  init_load_back : Req N → E → option (Z * N) * E;
  (** tokens of the FULL transfer of a load-back of the node *)
  full_transfer_len : N → E → Z;
  linker_has_hit : string → E → bool;
  defer_staged_admission : string → string → E → E;
  finish_storage_prefetch_admission : string → Z → option string → E → E;
  discard_storage_prefetch_accounting : string → E → E;
  (** [running_batch.release_req]: the request gives back its KV *)
  release_req : Req N → Z → E → E
}.

Record dllm_cfg := mkDllm { dllm_block_size : Z; dllm_max_running : Z; requires_separate_context_encoding : bool }.

Inductive tile_mode := Legacy | Compact.

Record adder_cfg := mkAdderCfg {
  page_size : Z;
  bcfg : budget_cfg;
  new_token_ratio : Q;
  clip_max_new_tokens : Z;
  exact_chunk_fill : bool;
  dllm : option dllm_cfg;
  is_hybrid_swa : bool;
  mamba_slot_cost : Z;
  preemption_threshold : Z;
  low_priority_first : bool;
  kv_shard_granule : Z;
  kv_shard_size : Z;
  kv_shard_scratch : option (Z * Z);      (* max_prefix_tokens, chunk_tokens *)
  prefill_max_requests : option Z;
  max_prefill_bs : Z;
  max_running_requests : Z;
  waiting_queue_len : Z;
  tile_block_m : Z;
  tile_is_hip : bool;
  tile_budget : Z;
  tile_budget_mode : tile_mode;
  shortest_prefill_first : bool;
  bounded_replay : bool;
  tree_disabled : bool;
  tree_unified : bool;
  tree_buffer_pipeline : bool;
  tree_has_linker : bool;
  load_back_is_cache_owned : bool;
  request_slot_reserve : bool → Z → Z
}.

Definition per_req_token_overhead (cfg : adder_cfg) : Z :=
  if negb (kv_shard_granule cfg =? 0) then kv_shard_size cfg * kv_shard_granule cfg else page_size cfg.

Record adder_logs := mkLogs {
  log_hit_tokens : Z; reprocessed_log_hit_tokens : Z;
  log_device_hit_tokens : Z; log_host_hit_tokens : Z; log_storage_hit_tokens : Z;
  log_input_tokens : Z; log_replay_tokens : Z; reprocessed_log_input_tokens : Z
}.

Record adder (E N D : Type) := mkAdder {
  rem_input_tokens : Z;
  rem_chunk_tokens : option Z;
  rem_dllm_tokens : Z;
  chunked_req_limit : option Z;
  memory_budget : budget;
  rem_mamba_slots : option Z;
  shard_block_bound_pages : Z;
  shard_chunk_pages : Z;
  req_states : option (list (Q * Z));
  can_run_list : list (Req N);
  preempt_list : list (Req N);
  new_chunked_req : option (Req N);
  running : option (list (Req N));        (* running_batch.reqs *)
  delayer : option D;
  logs : adder_logs;
  env : E
}.
Arguments mkAdder {E N D}.
Arguments rem_input_tokens {E N D} _.
Arguments rem_chunk_tokens {E N D} _.
Arguments rem_dllm_tokens {E N D} _.
Arguments chunked_req_limit {E N D} _.
Arguments memory_budget {E N D} _.
Arguments rem_mamba_slots {E N D} _.
Arguments shard_block_bound_pages {E N D} _.
Arguments shard_chunk_pages {E N D} _.
Arguments req_states {E N D} _.
Arguments can_run_list {E N D} _.
Arguments preempt_list {E N D} _.
Arguments new_chunked_req {E N D} _.
Arguments running {E N D} _.
Arguments delayer {E N D} _.
Arguments logs {E N D} _.
Arguments env {E N D} _.

Inductive AddReqResult := CONTINUE | NO_TOKEN | OTHER.

#[export] Instance AddReqResult_eq_dec : EqDecision AddReqResult.
Proof. solve_decision. Defined.

Record _PrefillAdmission := mkAdmission {
  adm_prefix_len : Z; adm_extend_len : Z; adm_max_new_tokens : Z; adm_is_chunked : bool; adm_replay_len : Z
}.

(** ** Tiles *)

Record tile_metrics := mkTiles { legacy_q_tiles : Z; compact_q_tiles : Z; saved_q_tiles : Z }.

Definition estimate_prefill_extend_tile_metrics (extend_lens : list Z) (block_m : Z) : tile_metrics :=
  let lens := (λ l, Z.max 0 l) <$> extend_lens in
  let q_tiles := (λ l, if 0 <? l then - ((- l) / block_m) else 0) <$> lens in
  let legacy := match q_tiles with [] => 0 | _ => zlen q_tiles * foldr Z.max 0 q_tiles end in
  let compact := zsum q_tiles in
  mkTiles legacy compact (legacy - compact).

(** ** Operations *)

Section adder.
Context {E N D : Type} `{HT : PrefixTree E N}.
(** [PrefillDelayerSinglePassExecutor.negotiate_should_allow_prefill] with
    [local_prefillable=True]: batch size, [max_prefill_bs],
    [max_running_requests], [waiting_queue_len]. *)
Context (negotiate : D → Z → Z → Z → Z → bool * D).
Context (cfg : adder_cfg).
Abbreviation Adder := (adder E N D).
Abbreviation R := (Req N).

Definition with_env (e : E) (a : Adder) : Adder :=
  mkAdder (rem_input_tokens a) (rem_chunk_tokens a) (rem_dllm_tokens a) (chunked_req_limit a)
    (memory_budget a) (rem_mamba_slots a) (shard_block_bound_pages a) (shard_chunk_pages a)
    (req_states a) (can_run_list a) (preempt_list a) (new_chunked_req a) (running a) (delayer a) (logs a) e.
Definition with_budgets (inp : Z) (chunk : option Z) (dl : Z) (m : budget) (slots : option Z) (a : Adder) : Adder :=
  mkAdder inp chunk dl (chunked_req_limit a) m slots (shard_block_bound_pages a) (shard_chunk_pages a)
    (req_states a) (can_run_list a) (preempt_list a) (new_chunked_req a) (running a) (delayer a) (logs a) (env a).
Definition with_shard (block chunk : Z) (a : Adder) : Adder :=
  mkAdder (rem_input_tokens a) (rem_chunk_tokens a) (rem_dllm_tokens a) (chunked_req_limit a)
    (memory_budget a) (rem_mamba_slots a) block chunk
    (req_states a) (can_run_list a) (preempt_list a) (new_chunked_req a) (running a) (delayer a) (logs a) (env a).
Definition with_states (s : option (list (Q * Z))) (a : Adder) : Adder :=
  mkAdder (rem_input_tokens a) (rem_chunk_tokens a) (rem_dllm_tokens a) (chunked_req_limit a)
    (memory_budget a) (rem_mamba_slots a) (shard_block_bound_pages a) (shard_chunk_pages a)
    s (can_run_list a) (preempt_list a) (new_chunked_req a) (running a) (delayer a) (logs a) (env a).
Definition with_run (l : list R) (ch : option R) (a : Adder) : Adder :=
  mkAdder (rem_input_tokens a) (rem_chunk_tokens a) (rem_dllm_tokens a) (chunked_req_limit a)
    (memory_budget a) (rem_mamba_slots a) (shard_block_bound_pages a) (shard_chunk_pages a)
    (req_states a) l (preempt_list a) ch (running a) (delayer a) (logs a) (env a).
Definition with_running (p : list R) (r : option (list R)) (m : budget) (a : Adder) : Adder :=
  mkAdder (rem_input_tokens a) (rem_chunk_tokens a) (rem_dllm_tokens a) (chunked_req_limit a)
    m (rem_mamba_slots a) (shard_block_bound_pages a) (shard_chunk_pages a)
    (req_states a) (can_run_list a) p (new_chunked_req a) r (delayer a) (logs a) (env a).
Definition with_delayer (d : option D) (a : Adder) : Adder :=
  mkAdder (rem_input_tokens a) (rem_chunk_tokens a) (rem_dllm_tokens a) (chunked_req_limit a)
    (memory_budget a) (rem_mamba_slots a) (shard_block_bound_pages a) (shard_chunk_pages a)
    (req_states a) (can_run_list a) (preempt_list a) (new_chunked_req a) (running a) d (logs a) (env a).
Definition with_logs (l : adder_logs) (a : Adder) : Adder :=
  mkAdder (rem_input_tokens a) (rem_chunk_tokens a) (rem_dllm_tokens a) (chunked_req_limit a)
    (memory_budget a) (rem_mamba_slots a) (shard_block_bound_pages a) (shard_chunk_pages a)
    (req_states a) (can_run_list a) (preempt_list a) (new_chunked_req a) (running a) (delayer a) l (env a).

(** ** Estimates *)

Definition _get_running_request_total_token_offset (r : R) : Q :=
  let ratio := if ignore_eos r then 1%Q else new_token_ratio cfg in
  (zq (Z.min (max_new_tokens r - output_len r) (clip_max_new_tokens cfg)) * ratio)%Q.

Definition adder_init (rem_input : Z) (rem_chunk : option Z) (num_mixed_decode_tokens : Z)
    (running_reqs : option (list R)) (mamba_slots : option Z) (d : option D) (e : E) : Adder :=
  let rem_input := rem_input - num_mixed_decode_tokens in
  let rem_dllm := match dllm cfg with
                  | Some dc => if requires_separate_context_encoding dc then rem_input
                               else dllm_max_running dc * dllm_block_size dc
                  | None => 0
                  end in
  let b := budget_init (bcfg cfg) num_mixed_decode_tokens in
  let offs := foldr Qplus 0%Q (_get_running_request_total_token_offset <$> default [] running_reqs) in
  mkAdder rem_input ((λ c, c - num_mixed_decode_tokens) <$> rem_chunk) rem_dllm None
    (mkBudget (total_offset b + offs)%Q (current_offset b) (swa_offset b))
    (if mamba_slot_cost cfg =? 0 then None else mamba_slots) 0 0 None [] [] None running_reqs d
    (mkLogs 0 0 0 0 0 0 0 0) e.

(** The requests of [can_run_list] have no attribute [extend_input_len], so
    [getattr] answers its default. *)
Definition _admitted_extend_lens (a : Adder) : list Z := (λ _, 0) <$> can_run_list a.

Definition _candidate_tile_metrics (a : Adder) (candidate_extend_len : Z) : tile_metrics :=
  estimate_prefill_extend_tile_metrics (_admitted_extend_lens a ++ [candidate_extend_len]) (tile_block_m cfg).

Definition _check_prefill_tile_budget (a : Adder) (candidate_extend_len : Z) : option AddReqResult :=
  if negb (tile_is_hip cfg) || (tile_budget cfg <=? 0) then None
  else match can_run_list a with
       | [] => None
       | _ =>
           let m := _candidate_tile_metrics a candidate_extend_len in
           let metric := match tile_budget_mode cfg with Legacy => legacy_q_tiles m | Compact => compact_q_tiles m end in
           if metric <=? tile_budget cfg then None else Some OTHER
       end.

Definition rem_total_tokens (a : Adder) : Q := remaining_total (bcfg cfg) (env a) (memory_budget a).
Definition cur_rem_tokens (a : Adder) : Z := remaining_current (bcfg cfg) (env a) (memory_budget a).

Definition _swa_new_tokens (r : R) : Z :=
  Z.min (Z.max (max_new_tokens r - output_len r) 0) (clip_max_new_tokens cfg).

Definition clipped_new_tokens (r : R) : Z := Z.min (max_new_tokens r) (clip_max_new_tokens cfg).

Definition _check_prefill_budget (a : Adder) (r : R) (extend_input_len total_tokens swa_host_hit : Z)
    (chunk_limit : option Z) : bool * option Z :=
  check_prefill (bcfg cfg) (env a) (memory_budget a) extend_input_len total_tokens (_swa_new_tokens r)
    (full_len r) swa_host_hit chunk_limit.

Definition _mamba_gap_budget_for_req (r : R) (include_host_hit : bool) : Z :=
  if mamba_slot_cost cfg =? 0 then 0
  else
    let slots := if holds_mamba r then 0 else 1 in
    let slots := if include_host_hit then slots + mamba_host_hit_length r else slots in
    slots * mamba_slot_cost cfg.

Definition _request_slot_reserve_for_req (r : R) (extend_input_len : option Z) : Z :=
  let ext := default (full_len r - prefix_len r) extend_input_len in
  request_slot_reserve cfg (bool_decide (req_pool_idx r ≠ None)) (prefix_len r + ext).

Definition a_ceil (tokens : Z) : Z := ceil_paged_tokens (page_size cfg) tokens.

Definition budget_state (a : Adder) : AddReqResult :=
  let no_token := negb (has_capacity (bcfg cfg) (env a) (memory_budget a)) in
  let no_token := match rem_mamba_slots a with
                  | Some s => if negb no_token then s <=? 0 else no_token
                  | None => no_token
                  end in
  if no_token then NO_TOKEN
  else if rem_input_tokens a <=? 0 then OTHER
  else match dllm cfg with
       | Some _ => if rem_dllm_tokens a <=? 0 then OTHER else CONTINUE
       | None => match rem_chunk_tokens a with
                 | Some c => if c <=? 0 then OTHER else CONTINUE
                 | None => CONTINUE
                 end
       end.

Definition _update_prefill_budget (prefix ext max_new : Z) (stain : bool) (mamba_gap_reserve slot_reserve : Z)
    (is_chunked_continuation : bool) (replay : Z) (a : Adder) : Adder :=
  let raw := ext in
  let ext := a_ceil ext in
  let compute_charge := (if exact_chunk_fill cfg then raw else ext) + replay in
  let m := reserve (bcfg cfg) (memory_budget a) ext max_new
             (mamba_gap_reserve + slot_reserve + per_req_token_overhead cfg - page_size cfg)
             (rem_chunk_tokens a) is_chunked_continuation in
  let slots := match rem_mamba_slots a with
               | Some s => if negb (mamba_gap_reserve =? 0)
                           then Some (s - mamba_gap_reserve / mamba_slot_cost cfg) else Some s
               | None => None
               end in
  let dl := match dllm cfg with Some _ => rem_dllm_tokens a - compute_charge | None => rem_dllm_tokens a end in
  let chunk := match dllm cfg with
               | Some _ => rem_chunk_tokens a
               | None => (λ c, c - compute_charge) <$> rem_chunk_tokens a
               end in
  let l := logs a in
  let l := mkLogs (log_hit_tokens l + prefix)
             (if stain then reprocessed_log_hit_tokens l + prefix else reprocessed_log_hit_tokens l)
             (log_device_hit_tokens l) (log_host_hit_tokens l) (log_storage_hit_tokens l)
             (log_input_tokens l + raw) (log_replay_tokens l + replay)
             (if stain then reprocessed_log_input_tokens l + raw else reprocessed_log_input_tokens l) in
  with_logs l (with_budgets (rem_input_tokens a - compute_charge) chunk dl m slots a).

(** [encoder_swa_replay.resets_swa_window] and [replay_len]. *)
Definition _replay_len (r : R) (prefix : Z) : Z :=
  if bounded_replay cfg && (bool_decide (req_pool_idx r = None) || is_retracted r)
  then Z.min prefix 128 else 0.

Definition _account_prefill_cache_admission (r : R) (prefix : Z) (a : Adder) : Adder :=
  if retracted_stain r then
    with_env (finish_storage_prefetch_admission (rid r) 0 None
                (discard_storage_prefetch_accounting (rid r) (env a))) a
  else
    let a :=
      if 0 <? prefix then
        let '(dev, host, sto) :=
          split_cached_prefix_by_tier prefix (materialized_host_hit_len r) (storage_hit_length r)
            (storage_hit_start r) (host_hit_is_storage r) in
        let l := logs a in
        with_logs (mkLogs (log_hit_tokens l) (reprocessed_log_hit_tokens l)
                     (log_device_hit_tokens l + dev) (log_host_hit_tokens l + host)
                     (log_storage_hit_tokens l + sto) (log_input_tokens l) (log_replay_tokens l)
                     (reprocessed_log_input_tokens l)) a
      else a in
    let fulfilled := fulfilled_storage_hit_len r prefix in
    let reason :=
      if fulfilled <? storage_hit_length r then
        Some (if needs_host_load_back r && (host_loaded_length r <? host_hit_length r)
              then "device_capacity"%string else "cache_admission_shortfall"%string)
      else None in
    with_env (finish_storage_prefetch_admission (rid r) fulfilled reason (env a)) a.

(** ** Sharded scratch *)

Definition _kv_shard_reserve_scratch (prefix ext : Z) (a : Adder) : result (bool * Adder) :=
  match kv_shard_scratch cfg with
  | None => Ok (true, a)
  | Some (max_prefix_tokens, chunk_tokens) =>
      let ps := kv_shard_granule cfg in
      let n := kv_shard_size cfg in
      let block := shard_block_bound_pages a + - ((- (prefix / ps)) / n) in
      let chunk := shard_chunk_pages a + - ((- ext) / ps) in
      if (max_prefix_tokens <? n * block * ps) || (chunk_tokens <? chunk * ps) then
        if (shard_block_bound_pages a =? 0) && (shard_chunk_pages a =? 0) then Raise RuntimeError
        else Ok (false, a)
      else Ok (true, with_shard block chunk a)
  end.

(** ** Diffusion blocks *)

Definition _get_dllm_remain_tokens (dc : dllm_cfg) (r : option R) (a : Adder) : Z :=
  let rem := Z.min (rem_dllm_tokens a) (qint (rem_total_tokens a)) in
  let sep := requires_separate_context_encoding dc in
  let rem := if sep && match r with Some r => dllm_prefill r | None => false end then rem
             else Z.min rem (dllm_block_size dc) in
  let rem := if rem <=? 0 then rem_dllm_tokens a else rem in
  if sep then
    let rem := Z.min rem (cur_rem_tokens a - page_size cfg) in
    if is_hybrid_swa cfg
    then Z.min rem (remaining_swa (bcfg cfg) (env a) (memory_budget a) - page_size cfg) else rem
  else rem.

Definition _get_dllm_extend_len (dc : dllm_cfg) (r : R) (prefix : Z) (a : Adder) : Z :=
  if requires_separate_context_encoding dc then
    let remaining := if dllm_prefill r then dllm_block_offset r - prefix else full_len r - prefix in
    let limit := if dllm_prefill r then rem_dllm_tokens a else Z.min (rem_dllm_tokens a) (dllm_block_size dc) in
    Z.min limit remaining
  else Z.min (rem_dllm_tokens a) (dllm_block_size dc) / page_size cfg * page_size cfg.

Definition _add_dllm_req (dc : dllm_cfg) (r : R) (a : Adder) : R * Adder :=
  let prefix := prefix_len r in
  let trunc_len := _get_dllm_extend_len dc r prefix a in
  let r := set_extend_end (prefix + trunc_len) r in
  let a := with_run (can_run_list a ++ [r]) (new_chunked_req a) a in
  let a := _update_prefill_budget prefix trunc_len 0 (retracted_stain r)
             (_mamba_gap_budget_for_req r false) 0 false (_replay_len r prefix) a in
  (r, _account_prefill_cache_admission r prefix a).

Definition add_dllm_staging_req (r : R) (a : Adder) : result (AddReqResult * R * Adder) :=
  match dllm cfg with
  | None => Raise AssertionError
  | Some dc =>
      let rem := _get_dllm_remain_tokens dc (Some r) a in
      if rem <=? 0 then Ok (NO_TOKEN, r, a)
      else
        let sep := requires_separate_context_encoding dc in
        let cand := full_len r - prefix_len r in
        let cand := if sep && dllm_prefill r then Z.min cand (dllm_block_offset r - prefix_len r) else cand in
        if (dllm_incomplete r || (sep && negb (dllm_prefill r))) && (rem <? cand) then Ok (NO_TOKEN, r, a)
        else
          let truncated := rem <? cand in
          let new_len := Z.min cand rem in
          let r := set_extend_end (prefix_len r + new_len) r in
          let a := with_run (can_run_list a ++ [r]) (new_chunked_req a) a in
          let a := _update_prefill_budget 0 (extend_len r) (if truncated then 0 else clipped_new_tokens r)
                     (retracted_stain r) (_mamba_gap_budget_for_req r false) 0 false 0 a in
          Ok (if _get_dllm_remain_tokens dc (Some r) a <=? 0 then NO_TOKEN else CONTINUE, r, a)
  end.

(** ** The delayer *)

Definition delayer_allows (a : Adder) : bool * Adder :=
  match delayer a with
  | None => (true, a)
  | Some d =>
      let '(ok, d) := negotiate d (zlen (default [] (running a))) (max_prefill_bs cfg)
                        (max_running_requests cfg) (waiting_queue_len cfg) in
      (ok, with_delayer (Some d) a)
  end.

(** ** Continuing a chunked request *)

(** The tokens the pass can give the chunk; [None] parks the request. *)
Definition chunk_allowance (r : R) (a : Adder) : result (option Z) :=
  match dllm cfg with
  | Some dc => Ok (Some (_get_dllm_remain_tokens dc (Some r) a))
  | None =>
      match rem_chunk_tokens a with
      | None => Raise TypeError
      | Some c =>
          match available_chunk_tokens (bcfg cfg) (env a) (memory_budget a) c with
          | None => Ok None
          | Some rem =>
              if negb (kv_shard_granule cfg =? 0) then
                let g := kv_shard_granule cfg in
                let floored := (prefix_len r + rem) / g * g - prefix_len r in
                Ok (Some (if 0 <? floored then floored else c))
              else Ok (Some rem)
          end
      end
  end.

(** [Some r]: the request is still chunked. *)
Definition add_chunked_req (r : R) (a : Adder) : result (option R * Adder) :=
  let! rem := chunk_allowance r a in
  match rem with
  | None => Ok (Some r, a)
  | Some rem =>
      let a := (delayer_allows a).2 in
      let! rem := match chunked_req_limit a with
                  | None => Ok rem
                  | Some l => assert! 0 <? l in Ok (Z.min rem l)
                  end in
      let cand := full_len r - prefix_len r in
      match fit_chunk (bcfg cfg) (env a) (memory_budget a) cand (_swa_new_tokens r) rem with
      | None => Ok (Some r, a)
      | Some rem =>
          let truncated := rem <? cand in
          let new_len := Z.min cand rem in
          let slot_reserve := _request_slot_reserve_for_req r (Some new_len) in
          if negb (slot_reserve =? 0) &&
             negb (can_allocate_prefill (bcfg cfg) (env a) (memory_budget a)
                     (a_ceil new_len + per_req_token_overhead cfg + slot_reserve) new_len
                     (_swa_new_tokens r) (rem_chunk_tokens a))
          then Ok (Some r, a)
          else
            let! (reserved, a) := _kv_shard_reserve_scratch (prefix_len r) new_len a in
            if negb reserved then Raise RuntimeError
            else
              let r := set_extend_end (prefix_len r + new_len) r in
              let a := with_run (can_run_list a ++ [r]) (new_chunked_req a) a in
              let a := _update_prefill_budget 0 (extend_len r)
                         (if truncated then 0 else clipped_new_tokens r) (retracted_stain r)
                         (_mamba_gap_budget_for_req r false) slot_reserve true 0 a in
              Ok (if truncated then Some r else None, a)
      end
  end.

(** ** Fixed-length requests without a prefix cache *)

(** The position [add_req_state] inserts at: the loop variable when it stops. *)
Fixpoint insert_pos (tokens_left : Q) (i last : nat) (l : list (Q * Z)) : nat :=
  match l with
  | [] => last
  | x :: l => if qleb tokens_left x.1 then i else insert_pos tokens_left (S i) i l
  end.

Definition add_req_state (insert_sort : bool) (states : list (Q * Z)) (r : R) : list (Q * Z) :=
  let ratio := if ignore_eos r then 1%Q else new_token_ratio cfg in
  let tokens_left := (zq (max_new_tokens r) * ratio - zq (output_len r))%Q in
  let tokens_occupied := origin_len r + output_len r in
  if qleb tokens_left 0 then states
  else if negb insert_sort then states ++ [(tokens_left, tokens_occupied)]
  else let i := insert_pos tokens_left 0 0 states in
       take i states ++ (tokens_left, tokens_occupied) :: drop i states.

Definition update_req_states (r : R) (a : Adder) : list (Q * Z) :=
  match req_states a with
  | None =>
      let s := foldl (add_req_state false) [] (r :: default [] (running a) ++ can_run_list a) in
      py_sort qleb fst s
  | Some s => add_req_state true s r
  end.

(** The walk over the requests in the order they finish. *)
Fixpoint enough_tokens (cur_rem : Z) (tokens_freed : Z) (states : list (Q * Z)) : bool :=
  match states with
  | [] => true
  | (tokens_left, tokens_occupied) :: rest =>
      let bs := zlen states in
      let min_free := (zq (cur_rem + tokens_freed) - tokens_left * zq bs)%Q in
      if qleb min_free (zq (1 * bs)) then false
      else enough_tokens cur_rem (tokens_freed + tokens_occupied) rest
  end.

Definition add_one_req_ignore_eos (r : R) (a : Adder) : result (AddReqResult * R * Adder) :=
  let cand := full_len r - prefix_len r in
  let paged_input := a_ceil cand + per_req_token_overhead cfg + _mamba_gap_budget_for_req r false
                     + _request_slot_reserve_for_req r None in
  if negb (can_allocate_prefill (bcfg cfg) (env a) (memory_budget a) paged_input cand
             (_swa_new_tokens r) (rem_chunk_tokens a)) then Ok (NO_TOKEN, r, a)
  else
    let states := update_req_states r a in
    let a := with_states (Some states) a in
    if negb (is_hybrid_swa cfg) && negb (enough_tokens (cur_rem_tokens a - paged_input) 0 states)
    then Ok (NO_TOKEN, r, a)
    else
      let '(allowed, a) := delayer_allows a in
      if negb allowed then Ok (OTHER, r, a)
      else
        match dllm cfg with
        | Some dc =>
            if rem_dllm_tokens a <=? 0 then Ok (OTHER, r, a)
            else match _check_prefill_tile_budget a cand with
                 | Some stop => Ok (stop, r, a)
                 | None => let '(r, a) := _add_dllm_req dc r a in Ok (budget_state a, r, a)
                 end
        | None =>
            if match rem_chunk_tokens a with None => true | Some c => cand <=? c end then
              match _check_prefill_tile_budget a cand with
              | Some stop => Ok (stop, r, a)
              | None =>
                  let! (reserved, a) := _kv_shard_reserve_scratch (prefix_len r) cand a in
                  if negb reserved then Ok (OTHER, r, a)
                  else
                    let r := set_extend_end (full_len r) r in
                    let a := with_run (can_run_list a ++ [r]) (new_chunked_req a) a in
                    let a := _update_prefill_budget 0 (extend_len r) (clipped_new_tokens r)
                               (retracted_stain r) (_mamba_gap_budget_for_req r false)
                               (_request_slot_reserve_for_req r None) false 0 a in
                    Ok (budget_state a, r, a)
              end
            else
              match rem_chunk_tokens a with
              | None => Ok (OTHER, r, a)
              | Some trunc_len =>
                  if trunc_len <=? 0 then Ok (OTHER, r, a)
                  else match _check_prefill_tile_budget a trunc_len with
                       | Some stop => Ok (stop, r, a)
                       | None =>
                           let! (reserved, a) := _kv_shard_reserve_scratch 0 trunc_len a in
                           if negb reserved then Ok (OTHER, r, a)
                           else
                             assert! prefix_len r =? 0 in
                             let r := set_extend_end (prefix_len r + trunc_len) r in
                             let a := with_run (can_run_list a ++ [r]) (Some r) a in
                             let a := _update_prefill_budget 0 trunc_len 0 (retracted_stain r)
                                        (_mamba_gap_budget_for_req r false)
                                        (_request_slot_reserve_for_req r (Some trunc_len)) false 0 a in
                             Ok (budget_state a, r, a)
                       end
              end
        end.

(** ** Admitting a request *)

Definition _defer_staged_for_capacity_if_idle (r : R) (pool : string) (a : Adder) : Adder :=
  match can_run_list a, running a with
  | _ :: _, _ | _, Some (_ :: _) => a
  | _, _ => if tree_buffer_pipeline cfg then with_env (defer_staged_admission (rid r) pool (env a)) a else a
  end.

(** The chunk a request is cut to. *)
Definition truncate_extend (limit prefix : Z) (truncation_align_size : option Z) : Z :=
  let align x := match truncation_align_size with Some s => x / s * s | None => x end in
  if exact_chunk_fill cfg then align limit
  else
    let ext := align (limit / page_size cfg * page_size cfg) in
    (prefix + ext) / page_size cfg * page_size cfg - prefix.

Definition _select_prefill_admission (r : R) (total_tokens host_hit swa_host_hit : Z)
    (truncation_align_size : option Z) (has_chunked_req : bool) (a : Adder) :
    result (AddReqResult + _PrefillAdmission) :=
  let prefix := prefix_len r + host_hit in
  let ext := full_len r - prefix in
  let input_tokens := a_ceil ext in
  let chunk_fit_tokens := if exact_chunk_fill cfg then ext else input_tokens in
  let replay := _replay_len r prefix in
  let chunk_limit := match rem_chunk_tokens a with
                     | Some c => Some (if negb (replay =? 0) then c - replay else c)
                     | None => None
                     end in
  if match chunk_limit with Some c => negb (replay =? 0) && (c <=? 0) | None => false end then Ok (inl OTHER)
  else
    let '(can_admit, chunk_tokens_limit) := _check_prefill_budget a r ext total_tokens swa_host_hit chunk_limit in
    if negb can_admit then Ok (inl NO_TOKEN)
    else if bool_decide (rem_chunk_tokens a = None) && bool_decide (can_run_list a ≠ []) &&
            (rem_input_tokens a <=? input_tokens) then Ok (inl OTHER)
    else
      let finish (ext max_new : Z) (chunked : bool) (tile_tokens : Z) :=
        match _check_prefill_tile_budget a tile_tokens with
        | Some verdict => Ok (inl verdict)
        | None => Ok (inr (mkAdmission prefix ext max_new chunked replay))
        end in
      match dllm cfg with
      | Some dc =>
          assert! bool_decide (truncation_align_size = None) in
          let ext := _get_dllm_extend_len dc r prefix a in
          if ext <=? 0 then Ok (inl OTHER) else finish ext 0 false input_tokens
      | None =>
          match chunk_tokens_limit with
          | Some limit =>
              if limit <? chunk_fit_tokens then
                if has_chunked_req && shortest_prefill_first cfg then Ok (inl OTHER)
                else
                  let ext := truncate_extend limit prefix truncation_align_size in
                  if ext <=? 0 then Ok (inl OTHER) else finish ext 0 true ext
              else finish ext (clipped_new_tokens r) false input_tokens
          | None => finish ext (clipped_new_tokens r) false input_tokens
          end
      end.

Definition _commit_prefill_admission (r : R) (adm : _PrefillAdmission) (mamba_gap_reserve : Z) (a : Adder) :
    result (R * Adder) :=
  assert! prefix_len r =? adm_prefix_len adm in
  let r := set_extend_end (adm_prefix_len adm + adm_extend_len adm) r in
  let a := with_env (tree_lock (last_node r) (env a)) a in
  let a := with_run (can_run_list a ++ [r]) (if adm_is_chunked adm then Some r else new_chunked_req a) a in
  let a := _update_prefill_budget (adm_prefix_len adm) (adm_extend_len adm) (adm_max_new_tokens adm)
             (retracted_stain r) mamba_gap_reserve
             (_request_slot_reserve_for_req r (Some (adm_extend_len adm))) false (adm_replay_len adm) a in
  Ok (r, _account_prefill_cache_admission r (adm_prefix_len adm) a).

(** The load-back of the host hit of an admitted request: the admission to
    commit, or a verdict. *)
Definition load_back (r : R) (adm : _PrefillAdmission) (max_new total_tokens mamba_gap_reserve : Z)
    (truncation_align_size : option Z) (has_chunked_req : bool) (a : Adder) :
    result ((AddReqResult + _PrefillAdmission) * R * Adder) :=
  if negb (needs_host_load_back r) then Ok (inr adm, r, a)
  else
    let load_max_new := Z.min max_new (adm_max_new_tokens adm) in
    let pin e := if tree_unified cfg then tree_lock (best_match_node r) (inc_host_lock_ref (best_match_node r) e) else e in
    let unpin e := if tree_unified cfg then dec_host_lock_ref (best_match_node r) (tree_unlock (best_match_node r) e) else e in
    let a := with_env (pin (env a)) a in
    let full_load_tokens :=
      if load_back_needs_full_tokens (bcfg cfg) && tree_unified cfg && negb (tree_buffer_pipeline cfg) &&
         negb (tree_has_linker cfg && linker_has_hit (rid r) (env a))
      then full_transfer_len (best_match_node r) (env a) else host_hit_length r in
    let '(ok, e) := prepare_load_back (bcfg cfg) (env a) (memory_budget a)
                      (full_load_tokens + adm_extend_len adm + load_max_new + page_size cfg + mamba_gap_reserve)
                      (adm_extend_len adm) load_max_new (swa_host_hit_length r) (rem_chunk_tokens a) in
    let a := with_env e a in
    if negb ok then
      let a := _defer_staged_for_capacity_if_idle r "load_back_budget" a in
      Ok (inl NO_TOKEN, r, with_env (unpin (env a)) a)
    else
      let promised := host_hit_length r in
      let '(loaded, e) := init_load_back r (env a) in
      let a := with_env (unpin e) a in
      match loaded with
      | None => Ok (inl OTHER, r, a)
      | Some (n, node) =>
          let r := set_loaded (prefix_len r) n (cache_protected_len r) node r in
          if (0 <? n) && (n <? promised) then Raise RuntimeError
          else
            let! verdict :=
              if promised <? n then
                let prefix := prefix_len r + n in
                let ext := if bool_decide (dllm cfg = None) then Z.min (adm_extend_len adm) (full_len r - prefix)
                           else adm_extend_len adm in
                let chunked := adm_is_chunked adm && (prefix + ext <? full_len r) in
                let mnew := if adm_is_chunked adm && negb chunked then clipped_new_tokens r
                            else adm_max_new_tokens adm in
                Ok (inr (mkAdmission prefix ext mnew chunked (_replay_len r prefix)))
              else if n <? promised then
                _select_prefill_admission r total_tokens 0 0 truncation_align_size has_chunked_req a
              else Ok (inr adm) in
            match verdict with
            | inl v => Ok (inl v, r, a)
            | inr adm =>
                let prefix := prefix_len r + n in
                let prot := if load_back_is_cache_owned cfg then prefix else cache_protected_len r in
                Ok (inr adm, set_loaded prefix n prot (last_node r) r, a)
            end
      end.

Definition add_one_req (r : R) (has_chunked_req : bool) (truncation_align_size : option Z) (a : Adder) :
    result (AddReqResult * R * Adder) :=
  if match prefill_max_requests cfg with Some x => x <=? zlen (can_run_list a) | None => false end
  then Ok (OTHER, r, a)
  else if ignore_eos r && tree_disabled cfg then add_one_req_ignore_eos r a
  else
    let max_new := Z.min (Z.max (max_new_tokens r - output_len r) 0) (clip_max_new_tokens cfg) in
    let cand := full_len r - prefix_len r in
    let mamba_gap_reserve := _mamba_gap_budget_for_req r true in
    let total_tokens := cand + max_new + per_req_token_overhead cfg + mamba_gap_reserve in
    if match rem_mamba_slots a with Some s => s <? mamba_gap_reserve / mamba_slot_cost cfg | None => false end then
      let a := if tree_unified cfg && tree_buffer_pipeline cfg
               then with_env (defer_staged_admission (rid r) "mamba" (env a)) a else a in
      Ok (NO_TOKEN, r, a)
    else
      let total_tokens := total_tokens + _request_slot_reserve_for_req r None in
      (* [with self._lock_node(req.last_node)]: the lock taken is released on
         every way out *)
      let node := last_node r in
      let leave (v : AddReqResult) (r : R) (a : Adder) : result (AddReqResult * R * Adder) :=
        Ok (v, r, with_env (tree_unlock node (env a)) a) in
      let a := with_env (tree_lock node (env a)) a in
      let! sel := _select_prefill_admission r total_tokens (host_hit_length r) (swa_host_hit_length r)
                    truncation_align_size has_chunked_req a in
      match sel with
      | inl v =>
          let a := if bool_decide (v = NO_TOKEN) then _defer_staged_for_capacity_if_idle r "prefill_budget" a else a in
          leave v r a
      | inr adm =>
          let '(allowed, a) := delayer_allows a in
          if negb allowed then leave OTHER r a
          else
            let! (sel, r, a) := load_back r adm max_new total_tokens mamba_gap_reserve
                                  truncation_align_size has_chunked_req a in
            match sel with
            | inl v => leave v r a
            | inr adm =>
                let! (reserved, a) := _kv_shard_reserve_scratch (adm_prefix_len adm) (adm_extend_len adm) a in
                if negb reserved then leave OTHER r a
                else
                  let! (r, a) := _commit_prefill_admission r adm mamba_gap_reserve a in
                  let a := with_env (tree_unlock node (env a)) a in
                  Ok (budget_state a, r, a)
            end
      end.

(** ** Preemption *)

Definition priority_sign : Z := if low_priority_first cfg then 1 else -1.

(** The running requests to preempt, and what is still missing. *)
Fixpoint pick_preemptible (prio : Z) (missing : Q) (rs : list R) : list R * Q :=
  match rs with
  | [] => ([], missing)
  | x :: rest =>
      if preemption_threshold cfg <? (prio - priority x) * (- priority_sign) then
        let missing := (missing - _get_running_request_total_token_offset x)%Q in
        if qleb missing 0 then ([x], missing)
        else let '(l, m) := pick_preemptible prio missing rest in (x :: l, m)
      else ([], missing)
  end.

(** Releasing the picked requests, in the order of the running batch. *)
Fixpoint release_loop (total : Z) (picked : list string) (count : Z) (rs : list R) (off : Q) (e : E) :
    list R * Q * E :=
  match rs with
  | [] => ([], off, e)
  | x :: rest =>
      if bool_decide (rid x ∈ picked) then
        let count := count + 1 in
        release_loop total picked count rest (off - _get_running_request_total_token_offset x)%Q
          (release_req x (total - count) e)
      else let '(keep, off, e) := release_loop total picked count rest off e in (x :: keep, off, e)
  end.

Definition preempt_to_schedule (r : R) (a : Adder) : result (bool * Adder) :=
  match running a with
  | None => Raise AttributeError
  | Some rs =>
      let valid := List.filter (λ x, negb (bool_decide (rid x ∈ rid <$> preempt_list a)) && negb (finished x)) rs in
      let sorted := py_sort (pair_leb Z.leb Z.leb)
                      (λ x, (priority x * (- priority_sign), - wait_queue_entry_time x)) valid in
      let missing := (zq (full_len r - prefix_len r + clipped_new_tokens r + _request_slot_reserve_for_req r None)
                      - rem_total_tokens a)%Q in
      let '(picked, missing) := pick_preemptible (priority r) missing sorted in
      if bool_decide (picked = []) || qltb 0 missing then Ok (false, a)
      else
        let b := memory_budget a in
        let '(keep, off, e) := release_loop (zlen rs) (rid <$> picked) 0 rs (total_offset b) (env a) in
        Ok (true, with_env e (with_running (preempt_list a ++ picked) (Some keep)
                   (mkBudget off (current_offset b) (swa_offset b)) a))
  end.
End adder.
