(* ===== verification/PrefillTheorems.v ===== *)
(** * Theorems on prefill admission

    The chunk budget bounds what a pass prefills, at most one request is cut
    per pass when memory is one pool, admission overdraws the memory budget by
    less than a page, and preemption makes room. *)
From S2P Require Import Prelude PySort PrefillBudget PrefillAdder.

#[export] Instance qleb_total : TotalLeb qleb.
Proof.
  split.
  - intros a b. destruct (qleb_spec a b), (qleb_spec b a); auto. exfalso. lra.
  - intros a b c. destruct (qleb_spec a b), (qleb_spec b c), (qleb_spec a c); try done. lra.
Qed.

Lemma zq_plus a b : zq (a + b) = (zq a + zq b)%Q.
Proof. apply inject_Z_plus. Qed.
Lemma zq_le a b : (zq a <= zq b)%Q ↔ a ≤ b.
Proof. by rewrite <- Zle_Qle. Qed.
Lemma zq_lt a b : (zq a < zq b)%Q ↔ a < b.
Proof. by rewrite <- Zlt_Qlt. Qed.

(** Case analysis on the guard at the head of the goal. *)
Ltac case_if_goal := match goal with |- (if ?b then _ else _) = _ → _ => destruct b end.

Section theorems.
Context {E N D : Type} `{HT : PrefixTree E N}.
Context (negotiate : D → Z → Z → Z → Z → bool * D).
Context (cfg : adder_cfg).
Abbreviation Adder := (adder E N D).
Abbreviation R := (Req N).
Hypothesis Hps : 0 < page_size cfg.
Hypothesis Hdllm : dllm cfg = None.
Hypothesis Hgran : 0 ≤ kv_shard_granule cfg.

(** ** What the helpers leave alone *)

(** Tokens the admitted requests prefill. *)
Definition run_extends (a : Adder) : Z := zsum (extend_len <$> can_run_list a).

(** The parts the chunk budget theorems look at. *)
Definition same_run (a a' : Adder) : Prop :=
  can_run_list a' = can_run_list a ∧ rem_chunk_tokens a' = rem_chunk_tokens a ∧
  new_chunked_req a' = new_chunked_req a.

Lemma same_run_refl a : same_run a a. Proof. done. Qed.
Lemma same_run_trans a b c : same_run a b → same_run b c → same_run a c.
Proof. unfold same_run. intros (?&?&?) (?&?&?). repeat split; congruence. Qed.

Lemma delayer_same a : same_run a (delayer_allows negotiate cfg a).2.
Proof. unfold delayer_allows. destruct (delayer a); [|done]. by destruct (negotiate _ _ _ _ _). Qed.

Lemma shard_same a p x ok a' :
  _kv_shard_reserve_scratch cfg p x a = Ok (ok, a') → same_run a a'.
Proof.
  unfold _kv_shard_reserve_scratch. destruct (kv_shard_scratch cfg) as [[mp ct]|]; [|by intros [= _ <-]].
  destruct (_ || _); [destruct (_ && _); [done|]|]; by intros [= _ <-].
Qed.

Lemma defer_same r p a : same_run a (_defer_staged_for_capacity_if_idle cfg r p a).
Proof.
  unfold _defer_staged_for_capacity_if_idle. destruct (can_run_list a), (running a) as [[]|]; try done;
    by destruct (tree_buffer_pipeline cfg).
Qed.

Lemma account_same r p (a : Adder) : same_run a (_account_prefill_cache_admission r p a).
Proof.
  unfold _account_prefill_cache_admission. destruct (retracted_stain r); [done|].
  destruct (0 <? p); [|done]. by destruct (split_cached_prefix_by_tier _ _ _ _ _) as [[]].
Qed.

(** One admission: the list grows by the request, the chunk budget pays. *)
Lemma update_chunk p x m s g sl cont rp (a : Adder) :
  let a' := _update_prefill_budget cfg p x m s g sl cont rp a in
  can_run_list a' = can_run_list a ∧ new_chunked_req a' = new_chunked_req a ∧
  rem_chunk_tokens a' =
    (λ c, c - ((if exact_chunk_fill cfg then x else a_ceil cfg x) + rp)) <$> rem_chunk_tokens a.
Proof. unfold _update_prefill_budget. simpl. rewrite Hdllm. done. Qed.

Lemma charge_ge x : x ≤ (if exact_chunk_fill cfg then x else a_ceil cfg x).
Proof. destruct (exact_chunk_fill cfg); [done|]. by apply ceil_paged_bounds. Qed.

(** ** The chunk budget *)

(** The chunk bound a check returns is at most the one it was given. *)
Lemma check_prefill_limit (e : E) b x t m i h l lim :
  check_prefill (bcfg cfg) e b x t m i h (Some l) = (true, lim) → ∃ l', lim = Some l' ∧ l' ≤ l.
Proof.
  unfold check_prefill, plain_check_prefill, swa_check_prefill, shared_check_prefill.
  destruct (b_class (bcfg cfg)) as [|aw rr|aw rr].
  - destruct (qltb _ _); [|done]. intros [= <-]. eauto with lia.
  - destruct (qleb _ _); [done|]. destruct (if req_ring _ then _ else _).
    + intros [= <-]. eauto with lia.
    + destruct (_ <=? 0); [done|]. intros [= <-]. eauto with lia.
  - destruct (_fits _ _ _ _ _).
    + intros [= <-]. eauto with lia.
    + destruct (_fits _ _ _ _ _); [done|]. destruct (0 <? _); [|done]. intros [= <-]. eauto with lia.
Qed.

Lemma floor_mul_le x p : 0 < p → x / p * p ≤ x.
Proof. intros. pose proof (Z.mul_div_le x p ltac:(lia)). lia. Qed.

Lemma truncate_le limit prefix align :
  (∀ s, align = Some s → 0 < s) → truncate_extend cfg limit prefix align ≤ limit.
Proof.
  intros Ha. unfold truncate_extend.
  assert (∀ x, match align with Some s => x / s * s | None => x end ≤ x) as Hal.
  { intros x. destruct align as [s|]; [|done]. apply floor_mul_le. by apply Ha. }
  destruct (exact_chunk_fill cfg); [apply Hal|].
  set (x := match align with Some s => _ | None => _ end).
  assert (x ≤ limit) as Hx by (etrans; [apply Hal|]; by apply floor_mul_le).
  pose proof (floor_mul_le (prefix + x) (page_size cfg) Hps). lia.
Qed.

Lemma replay_nonneg (r : R) p : 0 ≤ p → 0 ≤ _replay_len cfg r p.
Proof. intros. unfold _replay_len. destruct (_ && _); lia. Qed.

(** Whatever shape is selected fits the chunk budget, replayed rows included. *)
Lemma select_fits (r : R) t h sh align hc (a : Adder) adm c :
  0 ≤ prefix_len r + h → (∀ s, align = Some s → 0 < s) → rem_chunk_tokens a = Some c →
  _select_prefill_admission cfg r t h sh align hc a = Ok (inr adm) →
  adm_prefix_len adm = prefix_len r + h ∧ 0 ≤ adm_replay_len adm ∧
  adm_extend_len adm + adm_replay_len adm ≤ c.
Proof.
  intros Hp Hal Hc. unfold _select_prefill_admission. rewrite Hc, Hdllm.
  pose proof (replay_nonneg r (prefix_len r + h) Hp) as Hrp. set (rp := _replay_len cfg r _) in *.
  set (lim := if negb (rp =? 0) then c - rp else c).
  assert (lim + rp = c) as Hlim by (unfold lim; destruct (Z.eqb_spec rp 0); simpl; lia).
  destruct (_ && _); [done|]. unfold _check_prefill_budget.
  destruct (check_prefill _ _ _ _ _ _ _ _ _) as [ok l] eqn:Ek. destruct ok; [|done]. cbn [negb].
  apply check_prefill_limit in Ek as (l' & -> & Hl').
  destruct (_ && _); [done|]. set (x := full_len r - (prefix_len r + h)).
  destruct (Z.ltb_spec l' (if exact_chunk_fill cfg then x else a_ceil cfg x)) as [Hlt|Hge].
  - destruct (hc && _); [done|]. destruct (_ <=? 0); [done|].
    destruct (_check_prefill_tile_budget _ _ _); [done|]. intros [= <-]. simpl.
    pose proof (truncate_le l' (prefix_len r + h) align Hal). split; [done|]. lia.
  - destruct (_check_prefill_tile_budget _ _ _); [done|]. intros [= <-]. simpl.
    pose proof (charge_ge x). split; [done|]. lia.
Qed.

(** What the pass prefills and what is left of the chunk budget stay within
    the budget it started with. *)
Definition within_chunk (c0 : Z) (a : Adder) : Prop :=
  ∃ c, rem_chunk_tokens a = Some c ∧ run_extends a + c ≤ c0 ∧ run_extends a ≤ c0.

Lemma within_same c0 a a' : same_run a a' → within_chunk c0 a → within_chunk c0 a'.
Proof. intros (E1 & E2 & _) (c & Hc & H1 & H2). exists c. unfold run_extends in *. rewrite E1, E2. done. Qed.

Lemma run_extends_snoc (a a' : Adder) r :
  can_run_list a' = can_run_list a ++ [r] → run_extends a' = run_extends a + extend_len r.
Proof. intros E1. unfold run_extends. rewrite E1, fmap_app, zsum_app. simpl. lia. Qed.

Lemma within_admit c0 c (a a' : Adder) r charge :
  within_chunk c0 a → rem_chunk_tokens a = Some c →
  can_run_list a' = can_run_list a ++ [r] → rem_chunk_tokens a' = Some (c - charge) →
  extend_len r ≤ charge → extend_len r ≤ c → within_chunk c0 a'.
Proof.
  intros (c' & Hc' & H1 & H2) Hc Hl Hc2 Hr1 Hr2. assert (c' = c) as -> by congruence.
  exists (c - charge). split; [done|]. rewrite (run_extends_snoc a a' r Hl). lia.
Qed.

(** Appending an admitted request and charging it. *)
Lemma within_update c0 c (r : R) ch p x m s g sl cont rp (a : Adder) :
  within_chunk c0 a → rem_chunk_tokens a = Some c → extend_len r = x → x ≤ c → 0 ≤ rp →
  within_chunk c0 (_update_prefill_budget cfg p x m s g sl cont rp (with_run (can_run_list a ++ [r]) ch a)).
Proof.
  intros Hw Hc Hr Hx Hrp. set (b := with_run _ _ a). destruct (update_chunk p x m s g sl cont rp b) as (E1 & _ & E3).
  pose proof (charge_ge x). apply (within_admit c0 c a _ r ((if exact_chunk_fill cfg then x else a_ceil cfg x) + rp));
    [done|done|exact E1| |lia|lia].
  rewrite E3. unfold b. simpl. by rewrite Hc.
Qed.

Definition req_ok (r : R) : Prop := 0 ≤ prefix_len r ∧ 0 ≤ host_hit_length r.

Lemma load_back_same (r r' : R) adm mn t g align hc (a a' : Adder) v :
  load_back cfg r adm mn t g align hc a = Ok (v, r', a') → same_run a a'.
Proof.
  unfold load_back. destruct (needs_host_load_back r); simpl; [|by intros [= _ _ <-]].
  destruct (prepare_load_back _ _ _ _ _ _ _ _) as [ok e]. destruct ok; simpl; last first.
  { intros [= _ _ <-]. match goal with |- same_run _ (with_env _ (_defer_staged_for_capacity_if_idle _ _ ?p ?b)) =>
      exact (defer_same r p b) end. }
  destruct (init_load_back _ _) as [[[n node]|] e2]; [|by intros [= _ _ <-]].
  destruct ((0 <? n) && _); [done|]. destruct (if _ <? n then _ else _) as [[v1|adm1]|]; simpl; [| |done];
    by intros [= _ _ <-].
Qed.

Lemma load_back_fits (r r' : R) adm adm' mn t g align hc (a a' : Adder) c :
  req_ok r → (∀ s, align = Some s → 0 < s) → rem_chunk_tokens a = Some c →
  0 ≤ adm_replay_len adm → adm_extend_len adm ≤ c →
  load_back cfg r adm mn t g align hc a = Ok (inr adm', r', a') →
  same_run a a' ∧ 0 ≤ adm_replay_len adm' ∧ adm_extend_len adm' ≤ c.
Proof.
  intros [Hp Hh] Hal Hc Hrp Hx. unfold load_back. destruct (needs_host_load_back r); simpl; [|by intros [= <- _ <-]].
  destruct (prepare_load_back _ _ _ _ _ _ _ _) as [ok e]. destruct ok; [|done]. simpl.
  destruct (init_load_back _ _) as [[[n node]|] e2]; [|done].
  destruct ((0 <? n) && _); [done|].
  destruct (Z.ltb_spec (host_hit_length r) n) as [Hlt|Hge]; [simpl|destruct (Z.ltb_spec n (host_hit_length r)) as [Hlt|Hge2]].
  - rewrite (bool_decide_true _ Hdllm). intros [= <- _ <-]. simpl. split; [done|]. split; [|lia].
    apply replay_nonneg. simpl. lia.
  - destruct (_select_prefill_admission _ _ _ _ _ _ _ _) as [[v|adm2]|] eqn:Es; simpl; [done| |done].
    intros [= <- _ <-]. split; [done|].
    apply (select_fits _ _ _ _ _ _ _ _ c) in Es; [|simpl; lia|done|done]. lia.
  - simpl. by intros [= <- _ <-].
Qed.

Lemma commit_within c0 (r r' : R) adm g (a a' : Adder) c :
  within_chunk c0 a → rem_chunk_tokens a = Some c → 0 ≤ adm_replay_len adm → adm_extend_len adm ≤ c →
  _commit_prefill_admission cfg r adm g a = Ok (r', a') → within_chunk c0 a'.
Proof.
  intros Hw Hc Hrp Hx. unfold _commit_prefill_admission.
  destruct (Z.eqb_spec (prefix_len r) (adm_prefix_len adm)) as [Ep|]; [|done]. simpl. intros [= <- <-].
  eapply within_same; [apply account_same|].
  eapply (within_update c0 c _ _ _ _ _ _ _ _ _ _ (with_env _ a)); [done|done|unfold extend_len; simpl; lia|done|done].
Qed.

Lemma ignore_eos_within c0 (r r' : R) (a a' : Adder) v :
  within_chunk c0 a → add_one_req_ignore_eos negotiate cfg r a = Ok (v, r', a') → within_chunk c0 a'.
Proof.
  intros Hw. unfold add_one_req_ignore_eos. destruct (can_allocate_prefill _ _ _ _ _ _ _); [simpl|by intros [= _ _ <-]].
  set (a1 := with_states _ a). assert (within_chunk c0 a1) as Hw1 by done. clearbody a1.
  destruct (_ && _); [by intros [= _ _ <-]|]. pose proof (delayer_same a1) as Hd.
  destruct (delayer_allows _ _ a1) as [ok a2]. simpl in Hd. apply (within_same c0) in Hd as Hw2; [|done].
  destruct ok; simpl; [|by intros [= _ _ <-]]. rewrite Hdllm. pose proof Hw2 as (c & Hc & _ & _). rewrite Hc.
  destruct (Z.leb_spec (full_len r - prefix_len r) c) as [Hle|Hgt].
  - destruct (_check_prefill_tile_budget _ _ _); [by intros [= _ _ <-]|].
    destruct (_kv_shard_reserve_scratch _ _ _ _) as [[ok a3]|] eqn:Es; [|done]. simpl.
    apply shard_same in Es as Hs. pose proof (within_same c0 _ _ Hs Hw2) as Hw3. destruct Hs as (_ & Ec & _).
    destruct ok; simpl; [|by intros [= _ _ <-]]. intros [= _ _ <-].
    apply (within_update c0 c); [done|by rewrite Ec|done|unfold extend_len; simpl; lia|done].
  - destruct (Z.leb_spec c 0); [by intros [= _ _ <-]|].
    destruct (_check_prefill_tile_budget _ _ _); [by intros [= _ _ <-]|].
    destruct (_kv_shard_reserve_scratch _ _ _ _) as [[ok a3]|] eqn:Es; [|done]. simpl.
    apply shard_same in Es as Hs. pose proof (within_same c0 _ _ Hs Hw2) as Hw3. destruct Hs as (_ & Ec & _).
    destruct ok; simpl; [|by intros [= _ _ <-]]. destruct (_ =? 0); [simpl|done]. intros [= _ _ <-].
    apply (within_update c0 c); [done|by rewrite Ec|unfold extend_len; simpl; lia|lia|done].
Qed.

Lemma add_one_within c0 (r r' : R) hc align (a a' : Adder) v :
  req_ok r → (∀ s, align = Some s → 0 < s) → within_chunk c0 a →
  add_one_req negotiate cfg r hc align a = Ok (v, r', a') → within_chunk c0 a'.
Proof.
  intros Hr Hal Hw. unfold add_one_req. case_if_goal; [by intros [= _ _ <-]|].
  destruct (_ && _); [by apply ignore_eos_within|].
  case_if_goal.
  { intros [= _ _ <-]. by destruct (_ && _). }
  set (a1 := with_env (tree_lock _ _) a). assert (within_chunk c0 a1) as Hw1 by done. clearbody a1.
  destruct (_select_prefill_admission _ _ _ _ _ _ _ a1) as [[v1|adm]|] eqn:Es; simpl; [| |done].
  { intros [= _ _ <-]. change (within_chunk c0 ?b) with (within_chunk c0 b).
    destruct (bool_decide _); [|done]. eapply (within_same c0 a1); [|done]. apply (defer_same r _ a1). }
  pose proof Hw1 as (c & Hc & _ & _).
  pose proof Hr as [Hp Hh]. destruct (select_fits _ _ _ _ _ _ _ _ c (Z.add_nonneg_nonneg _ _ Hp Hh) Hal Hc Es) as (_ & Hrp & Hx).
  pose proof (delayer_same a1) as Hd. destruct (delayer_allows _ _ a1) as [ok a2]. simpl in Hd.
  pose proof (within_same c0 _ _ Hd Hw1) as Hw2. destruct ok; simpl; [|by intros [= _ _ <-]].
  destruct (load_back _ _ _ _ _ _ _ _ a2) as [[[[v2|adm2] r2] a3]|] eqn:El; simpl; [| |done].
  { apply load_back_same in El. intros [= _ _ <-]. by eapply (within_same c0 a2). }
  assert (rem_chunk_tokens a2 = Some c) as Hc2 by (by destruct Hd as (_ & -> & _)).
  destruct (load_back_fits _ _ _ _ _ _ _ _ _ _ _ c Hr Hal Hc2 Hrp ltac:(lia) El) as (Hs3 & Hrp3 & Hx3).
  pose proof (within_same c0 _ _ Hs3 Hw2) as Hw3. assert (rem_chunk_tokens a3 = Some c) as Hc3 by (by destruct Hs3 as (_ & -> & _)).
  destruct (_kv_shard_reserve_scratch _ _ _ a3) as [[ok4 a4]|] eqn:E4; simpl; [|done].
  apply shard_same in E4 as Hs4. pose proof (within_same c0 _ _ Hs4 Hw3) as Hw4.
  assert (rem_chunk_tokens a4 = Some c) as Hc4 by (by destruct Hs4 as (_ & -> & _)).
  destruct ok4; simpl; [|by intros [= _ _ <-]].
  destruct (_commit_prefill_admission _ _ _ _ a4) as [[r5 a5]|] eqn:E5; simpl; [|done]. intros [= _ _ <-].
  eapply commit_within in E5; [done|done|exact Hc4|done|done].
Qed.

(** A continuing chunk gets at most the chunk budget. *)
Lemma allowance_le (r : R) (a : Adder) c rem :
  rem_chunk_tokens a = Some c → chunk_allowance cfg r a = Ok (Some rem) → rem ≤ c.
Proof.
  intros Hc. unfold chunk_allowance. rewrite Hdllm, Hc.
  destruct (available_chunk_tokens _ _ _ _) as [x|] eqn:Ea; [|done].
  assert (x ≤ c) as Hx.
  { unfold available_chunk_tokens, plain_available_chunk, swa_available_chunk, shared_available_chunk in Ea. destruct (b_class (bcfg cfg)) as [|aw rr|aw rr].
    - injection Ea as <-. destruct (_ <? _); lia.
    - destruct (_ <? _); [|done]. injection Ea as <-. destruct (req_ring _); lia.
    - destruct (_ <? _); [|done]. by injection Ea as <-. }
  destruct (Z.eqb_spec (kv_shard_granule cfg) 0) as [|Hg]; simpl; intros [= <-]; [done|].
  destruct (0 <? _); [|done]. pose proof (floor_mul_le (prefix_len r + x) (kv_shard_granule cfg) ltac:(lia)). lia.
Qed.

Lemma fit_chunk_le (e : E) b x m l rem : fit_chunk (bcfg cfg) e b x m l = Some rem → rem ≤ l.
Proof.
  unfold fit_chunk, shared_fit_chunk. destruct (b_class (bcfg cfg)) as [|aw rr|aw rr]; [by intros [= <-]..|].
  destruct (_fits _ _ _ _ _); [by intros [= <-]|]. destruct (0 <? _); [|done]. intros [= <-]. lia.
Qed.

Lemma add_chunked_within c0 (r : R) (a a' : Adder) v :
  within_chunk c0 a → add_chunked_req negotiate cfg r a = Ok (v, a') → within_chunk c0 a'.
Proof.
  intros Hw. pose proof Hw as (c & Hc & _ & _). unfold add_chunked_req.
  destruct (chunk_allowance _ _ _) as [[rem|]|] eqn:Ea; simpl; [|by intros [= _ <-]|done].
  pose proof (allowance_le r a c rem Hc Ea) as Hrem.
  pose proof (delayer_same a) as Hs. set (a1 := (delayer_allows _ _ a).2) in *. clearbody a1.
  pose proof (within_same c0 _ _ Hs Hw) as Hw1. assert (rem_chunk_tokens a1 = Some c) as Hc1 by (by destruct Hs as (_ & -> & _)).
  destruct (match chunked_req_limit a1 with None => _ | Some _ => _ end) as [rem1|] eqn:El; simpl; [|done].
  assert (rem1 ≤ c) as Hrem1.
  { destruct (chunked_req_limit a1) as [l|]; [|by injection El as <-]. destruct (0 <? l); [|done]. injection El as <-. lia. }
  destruct (fit_chunk _ _ _ _ _ _) as [rem2|] eqn:Ef; [|by intros [= _ <-]]. apply fit_chunk_le in Ef.
  case_if_goal; [by intros [= _ <-]|].
  destruct (_kv_shard_reserve_scratch _ _ _ a1) as [[ok a2]|] eqn:Es; simpl; [|done].
  apply shard_same in Es as Hs2. pose proof (within_same c0 _ _ Hs2 Hw1) as Hw2.
  assert (rem_chunk_tokens a2 = Some c) as Hc2 by (by destruct Hs2 as (_ & -> & _)).
  destruct ok; simpl; [|done]. intros [= _ <-].
  apply (within_update c0 c); [done|done|done|unfold extend_len; simpl; lia|done].
Qed.

Lemma preempt_same (r : R) (a a' : Adder) v : preempt_to_schedule cfg r a = Ok (v, a') → same_run a a'.
Proof.
  unfold preempt_to_schedule. destruct (running a) as [rs|]; [|done].
  destruct (pick_preemptible _ _ _ _) as [picked m]. destruct (_ || _); [by intros [= _ <-]|].
  destruct (release_loop _ _ _ _ _ _ _) as [[keep off] e]. by intros [= _ <-].
Qed.

(** ** A pass *)

(** The calls of [get_new_batch_prefill] on its adder. *)
Inductive astep : Adder → Adder → Prop :=
  | astep_chunked r a v a' : add_chunked_req negotiate cfg r a = Ok (v, a') → astep a a'
  | astep_one r hc align a v r' a' :
      req_ok r → (∀ s, align = Some s → 0 < s) →
      add_one_req negotiate cfg r hc align a = Ok (v, r', a') → astep a a'
  | astep_preempt r a v a' : preempt_to_schedule cfg r a = Ok (v, a') → astep a a'.

Lemma pass_within c0 a a' : within_chunk c0 a → rtc astep a a' → within_chunk c0 a'.
Proof.
  intros Hw Hr. induction Hr as [|a b c Hs _ IH]; [done|]. apply IH. clear IH.
  destruct Hs as [r a v b E1|r hc al a v r' b Hr Hal E1|r a v b E1].
  - by eapply add_chunked_within.
  - by eapply add_one_within.
  - eapply within_same; [by eapply preempt_same|done].
Qed.

(** Whatever requests a pass is offered, continued, preempts for or loads
    back, the tokens it prefills never exceed the chunk budget it was created
    with (the budget minus the decode tokens mixed in). *)
Theorem chunk_budget_respected rem_input c0 mixed running_reqs slots (d : option D) (e : E) a :
  mixed ≤ c0 →
  rtc astep (adder_init cfg rem_input (Some c0) mixed running_reqs slots d e) a →
  zsum (extend_len <$> can_run_list a) ≤ c0 - mixed.
Proof.
  intros Hm Hr. apply (pass_within (c0 - mixed)) in Hr as (c & _ & _ & Hb); [done|].
  exists (c0 - mixed). split; [done|]. unfold run_extends. simpl. lia.
Qed.

(** ** One request is cut per pass *)

Section single_chunk.
Context (align : option Z).
Hypothesis Hplain : b_class (bcfg cfg) = PlainBudget.
Hypothesis Htree : tree_disabled cfg = false.
Hypothesis Halign : ∀ s, align = Some s → 0 < s ∧ (exact_chunk_fill cfg = false → (page_size cfg | s)).
(** A load-back stays within the request. *)
Hypothesis Hload : ∀ (r : R) (e e' : E) n node,
  init_load_back r e = (Some (n, node), e') → prefix_len r + n ≤ full_len r.

(** The least positive chunk: nothing smaller is ever cut. *)
Definition unit_chunk : Z :=
  default (if exact_chunk_fill cfg then 1 else page_size cfg) align.

Definition charge (x : Z) : Z := if exact_chunk_fill cfg then x else a_ceil cfg x.

Lemma unit_pos : 0 < unit_chunk.
Proof. unfold unit_chunk. destruct align as [s|]; simpl; [by apply Halign|]. destruct (exact_chunk_fill cfg); lia. Qed.

Definition spent (a : Adder) : Prop := ∃ c, rem_chunk_tokens a = Some c ∧ c < unit_chunk.

Lemma floor_lt x s : 0 < s → x < s → x / s * s ≤ 0.
Proof. intros Hs Hx. assert (x / s < 1) by (apply Z.div_lt_upper_bound; lia). nia. Qed.

Lemma floor_gap x s : 0 < s → x - x / s * s < s.
Proof. intros Hs. pose proof (Z.mul_succ_div_gt x s Hs). lia. Qed.

(** Below a unit nothing is cut. *)
Lemma truncate_small l p : l < unit_chunk → truncate_extend cfg l p align ≤ 0.
Proof.
  unfold unit_chunk, truncate_extend. intros Hl. pose proof (floor_mul_le l (page_size cfg) Hps).
  destruct (exact_chunk_fill cfg) eqn:Ex; destruct align as [s|]; simpl in *; try lia.
  - apply floor_lt; [by apply Halign|lia].
  - set (y := l / page_size cfg * page_size cfg / s * s).
    assert (y ≤ 0) by (apply floor_lt; [by apply Halign|lia]).
    pose proof (floor_mul_le (p + y) (page_size cfg) Hps). lia.
  - pose proof (floor_lt l (page_size cfg) Hps Hl).
    pose proof (floor_mul_le (p + l / page_size cfg * page_size cfg) (page_size cfg) Hps). lia.
Qed.

(** A cut is charged a whole number of units: less than one is left. *)
Lemma truncate_gap l p : l - charge (truncate_extend cfg l p align) < unit_chunk.
Proof.
  unfold charge, unit_chunk, truncate_extend. destruct (exact_chunk_fill cfg) eqn:Ex.
  { destruct align as [s|]; simpl; [apply floor_gap; by apply Halign|lia]. }
  set (x := match align with Some s => _ | None => _ end). set (ps := page_size cfg) in *.
  assert ((ps | x) ∧ l - x < default ps align) as [[q Hq] Hgap].
  { unfold x. destruct align as [s|]; simpl.
    - destruct (Halign s eq_refl) as [Hs Hd]. destruct (Hd eq_refl) as [k Hk]. fold ps in Hk.
      assert (0 < k) by nia. split; [exists (l / ps * ps / s * k); rewrite Hk at 2; lia|].
      assert (l / ps * ps / s * s = l / s * s) as ->; [|by apply floor_gap].
      f_equal. rewrite Hk. rewrite (Z.mul_comm k ps), <- !Z.div_div by lia.
      by rewrite Z.div_mul by lia.
    - split; [by exists (l / ps)|]. by apply floor_gap. }
  assert (a_ceil cfg ((p + x) / ps * ps - p) = x) as ->; [|done].
  unfold a_ceil. fold ps. rewrite ceil_paged_eq by done.
  replace ((p + x) / ps * ps - p) with (x - p mod ps).
  - unfold ceil_align. rewrite Hq. f_equal. apply ceil_div_unique; [done|].
    pose proof (Z.mod_pos_bound p ps Hps). lia.
  - rewrite Hq, Z.div_add by lia. pose proof (Z.div_mod p ps ltac:(lia)). lia.
Qed.

(** What a selected shape does to the chunk budget [c]. *)
Definition shape_ok (c : Z) (adm : _PrefillAdmission) : Prop :=
  0 ≤ adm_extend_len adm ∧ 0 ≤ adm_replay_len adm ∧
  (adm_is_chunked adm = true → unit_chunk ≤ c ∧ c - (charge (adm_extend_len adm) + adm_replay_len adm) < unit_chunk).

Definition fits_full (r : R) : Prop := 0 ≤ prefix_len r ∧ 0 ≤ host_hit_length r ∧ prefix_len r + host_hit_length r ≤ full_len r.

Lemma select_shape (r : R) t h sh hc (a : Adder) adm c :
  0 ≤ prefix_len r + h ≤ full_len r → rem_chunk_tokens a = Some c →
  _select_prefill_admission cfg r t h sh align hc a = Ok (inr adm) → shape_ok c adm ∧
  adm_prefix_len adm = prefix_len r + h ∧ adm_replay_len adm = _replay_len cfg r (prefix_len r + h).
Proof.
  intros Hp Hc. unfold _select_prefill_admission. rewrite Hc, Hdllm.
  pose proof (replay_nonneg r (prefix_len r + h) ltac:(lia)) as Hrp. set (rp := _replay_len cfg r _) in *.
  set (lim := if negb (rp =? 0) then c - rp else c).
  assert (lim + rp = c) as Hlim by (unfold lim; destruct (Z.eqb_spec rp 0); simpl; lia).
  destruct (_ && _); [done|]. unfold _check_prefill_budget, check_prefill, plain_check_prefill. rewrite Hplain.
  destruct (qltb _ _); [|done]. cbn [negb]. destruct (_ && _); [done|].
  set (x := full_len r - (prefix_len r + h)). destruct (_ <? _).
  - destruct (hc && _); [done|]. destruct (Z.leb_spec (truncate_extend cfg lim (prefix_len r + h) align) 0) as [|Hpos]; [done|].
    destruct (_check_prefill_tile_budget _ _ _); [done|]. intros [= <-]. unfold shape_ok. simpl.
    split; [|done]. split; [lia|]. split; [done|]. intros _.
    pose proof (truncate_gap lim (prefix_len r + h)) as Hg.
    pose proof (truncate_small lim (prefix_len r + h)). lia.
  - destruct (_check_prefill_tile_budget _ _ _); [done|]. intros [= <-]. unfold shape_ok. simpl.
    split; [|done]. split; [unfold x; lia|]. split; [done|]. done.
Qed.

Lemma load_back_shape (r r' : R) adm adm' mn t g hc (a a' : Adder) c :
  fits_full r → rem_chunk_tokens a = Some c → shape_ok c adm →
  adm_prefix_len adm = prefix_len r + host_hit_length r →
  adm_replay_len adm = _replay_len cfg r (adm_prefix_len adm) →
  load_back cfg r adm mn t g align hc a = Ok (inr adm', r', a') → shape_ok c adm'.
Proof.
  intros (Hp & Hh & Hf) Hc Hs Hap Har. unfold load_back. destruct (needs_host_load_back r); simpl; [|by intros [= <- _ _]].
  destruct (prepare_load_back _ _ _ _ _ _ _ _) as [ok e]. destruct ok; [|done]. simpl.
  destruct (init_load_back _ _) as [[[n node]|] e2] eqn:Ei; [|done]. apply Hload in Ei.
  destruct ((0 <? n) && _); [done|].
  destruct (Z.ltb_spec (host_hit_length r) n) as [Hlt|Hge]; [simpl|destruct (Z.ltb_spec n (host_hit_length r)) as [Hlt|Hge2]].
  - rewrite (bool_decide_true _ Hdllm). intros [= <- _ _]. destruct Hs as (H1 & H2 & H3).
    assert (adm_replay_len adm ≤ _replay_len cfg r (prefix_len r + n)) as Hrp.
    { rewrite Har, Hap. unfold _replay_len. destruct (_ && _); lia. }
    unfold shape_ok. simpl. split; [lia|]. change (_replay_len cfg (set_loaded _ _ _ _ r)) with (_replay_len cfg r).
    split; [lia|]. rewrite andb_true_iff, Z.ltb_lt. intros [Hch Hlt2]. specialize (H3 Hch).
    rewrite Z.min_l by lia. lia.
  - destruct (_select_prefill_admission _ _ _ _ _ _ _ _) as [[v|adm2]|] eqn:Es; simpl; [done| |done].
    intros [= <- _ _]. apply (select_shape _ _ _ _ _ _ _ c) in Es as [? _]; [done|simpl; lia|done].
  - simpl. by intros [= <- _ _].
Qed.

(** The mark of the cut request is set at most once. *)
Definition marked_once (a a' : Adder) : Prop :=
  (new_chunked_req a = None ∨ spent a) → (new_chunked_req a' = None ∨ spent a') ∧
  ∀ r, new_chunked_req a = Some r → new_chunked_req a' = Some r.

Lemma same_marked a a' : same_run a a' → marked_once a a'.
Proof. intros (_ & E2 & E3) H. unfold spent in *. rewrite E2, E3. auto. Qed.

Lemma marked_trans a b c : marked_once a b → marked_once b c → marked_once a c.
Proof. intros H1 H2 H. destruct (H1 H) as [H3 H4]. destruct (H2 H3) as [H5 H6]. eauto. Qed.

Lemma commit_marked (r r' : R) adm g (a a' : Adder) c :
  rem_chunk_tokens a = Some c → shape_ok c adm →
  _commit_prefill_admission cfg r adm g a = Ok (r', a') → marked_once a a'.
Proof.
  intros Hc (H1 & H2 & H3). unfold _commit_prefill_admission. destruct (_ =? _); [|done]. simpl. intros [= <- <-].
  eapply marked_trans; [|apply same_marked, account_same]. set (b := with_run _ _ _).
  match goal with |- marked_once _ (_update_prefill_budget _ ?p ?x ?m ?s ?gg ?sl ?ct ?rp b) =>
    destruct (update_chunk p x m s gg sl ct rp b) as (_ & E2 & E3) end.
  unfold marked_once, spent. rewrite E2, E3. unfold b; simpl. rewrite Hc. simpl.
  assert (0 ≤ charge (adm_extend_len adm)) as Hch.
  { etrans; [exact H1|]. apply charge_ge. }
  fold (charge (adm_extend_len adm)).
  destruct (adm_is_chunked adm) eqn:Ech.
  - destruct (H3 eq_refl) as [Hun Hlt]. intros [Hn|(c' & [= <-] & Hlt2)]; [|lia].
    split; [right; by eexists|]. congruence.
  - intros [Hn|(c' & [= <-] & Hlt2)]; (split; [|done]); [by left|]. right. eexists. split; [done|]. lia.
Qed.

Lemma add_one_marked (r r' : R) hc (a a' : Adder) v c :
  fits_full r → rem_chunk_tokens a = Some c →
  add_one_req negotiate cfg r hc align a = Ok (v, r', a') → marked_once a a'.
Proof.
  intros Hf Hc. pose proof Hf as (Hp & Hh & Hfl). unfold add_one_req.
  case_if_goal; [by intros [= _ _ <-]|]. rewrite Htree, andb_false_r.
  case_if_goal. { intros [= _ _ <-]. by destruct (_ && _). }
  set (a1 := with_env (tree_lock _ _) a). assert (same_run a a1) as Hs1 by done.
  assert (rem_chunk_tokens a1 = Some c) as Hc1 by done. clearbody a1.
  assert (∀ b, same_run a1 b → marked_once a b) as Hsame.
  { intros b Hb. apply same_marked. by eapply same_run_trans. }
  destruct (_select_prefill_admission _ _ _ _ _ _ _ a1) as [[v1|adm]|] eqn:Es; simpl; [| |done].
  { intros [= _ _ <-]. apply Hsame. destruct (bool_decide _); [|done]. apply (defer_same r _ a1). }
  apply (select_shape _ _ _ _ _ _ _ c) in Es as (Hsh & Hap & Har); [|lia|done]. rewrite <- Hap in Har.
  pose proof (delayer_same a1) as Hd. destruct (delayer_allows _ _ a1) as [ok a2]. simpl in Hd.
  destruct ok; simpl; [|intros [= _ _ <-]; by apply Hsame].
  assert (rem_chunk_tokens a2 = Some c) as Hc2 by (by destruct Hd as (_ & -> & _)).
  destruct (load_back _ _ _ _ _ _ _ _ a2) as [[[v2 r2] a3]|] eqn:El; simpl; [|done].
  pose proof (load_back_same _ _ _ _ _ _ _ _ _ _ _ El) as Hs3. pose proof (same_run_trans _ _ _ Hd Hs3) as Hs13.
  destruct v2 as [v2|adm2]; [intros [= _ _ <-]; by apply Hsame|].
  pose proof (load_back_shape _ _ _ _ _ _ _ _ _ _ c Hf Hc2 Hsh Hap Har El) as Hsh2.
  destruct (_kv_shard_reserve_scratch _ _ _ a3) as [[ok4 a4]|] eqn:E4; simpl; [|done].
  apply shard_same in E4 as Hs4. pose proof (same_run_trans _ _ _ Hs13 Hs4) as Hs14.
  assert (rem_chunk_tokens a4 = Some c) as Hc4 by (by destruct Hs14 as (_ & -> & _)).
  destruct ok4; simpl; [|intros [= _ _ <-]; by apply Hsame].
  destruct (_commit_prefill_admission _ _ _ _ a4) as [[r5 a5]|] eqn:E5; simpl; [|done]. intros [= _ _ <-].
  eapply marked_trans; [by apply Hsame|].
  eapply marked_trans; [by eapply (commit_marked _ _ _ _ a4)|]. by apply same_marked.
Qed.

(** The requests of the waiting queue, offered in turn. *)
Inductive offer : Adder → Adder → Prop :=
  | offer_one r hc a v r' a' :
      fits_full r → add_one_req negotiate cfg r hc align a = Ok (v, r', a') → offer a a'.

Lemma offers_marked a a' c0 :
  within_chunk c0 a → (new_chunked_req a = None ∨ spent a) → rtc offer a a' →
  (new_chunked_req a' = None ∨ spent a') ∧ within_chunk c0 a' ∧
  ∀ r, new_chunked_req a = Some r → new_chunked_req a' = Some r.
Proof.
  intros Hw Hn Hr. revert Hw Hn. induction Hr as [|a b c Ho _ IH]; [done|]. intros Hw Hn.
  destruct Ho as [r hc a v r' b Hf E1]. pose proof Hw as (x & Hx & _ & _).
  destruct (add_one_marked _ _ _ _ _ _ x Hf Hx E1 Hn) as [Hn2 Hk].
  assert (within_chunk c0 b) as Hw2.
  { eapply add_one_within; [|intros s Hs; by apply Halign|exact Hw|exact E1]. split; apply Hf. }
  destruct (IH Hw2 Hn2) as (H1 & H2 & H3). eauto.
Qed.

(** With one KV pool and the prefix cache on, at most one request of a pass
    is cut: once a request is marked as the chunked one, no later candidate
    replaces it, so the scheduler, which keeps one chunked request, never
    loses the rest of a prompt. *)
Theorem one_request_is_cut rem_input c0 mixed running_reqs slots (d : option D) (e : E) a a' r :
  mixed ≤ c0 →
  rtc offer (adder_init cfg rem_input (Some c0) mixed running_reqs slots d e) a →
  new_chunked_req a = Some r → rtc offer a a' → new_chunked_req a' = Some r.
Proof.
  intros Hm H1 Hr H2.
  assert (within_chunk (c0 - mixed) (adder_init cfg rem_input (Some c0) mixed running_reqs slots d e)) as Hw.
  { exists (c0 - mixed). split; [done|]. unfold run_extends. simpl. lia. }
  destruct (offers_marked _ _ _ Hw (or_introl eq_refl) H1) as (Hn & Hw1 & _).
  destruct (offers_marked _ _ _ Hw1 Hn H2) as (_ & _ & Hk). by apply Hk.
Qed.
End single_chunk.

(** ** Memory *)

Section memory.
Hypothesis Hplain : b_class (bcfg cfg) = PlainBudget.
Hypothesis Hbps : b_page_size (bcfg cfg) = page_size cfg.
Hypothesis Htree : tree_disabled cfg = false.
Hypothesis Hclip : 0 ≤ clip_max_new_tokens cfg.
(** Stock allocators need no slots beyond the prefill. *)
Hypothesis Hslot : ∀ b n, request_slot_reserve cfg b n = 0.

Abbreviation cap := (_available_and_evictable (bcfg cfg)).

(** A second lock on a locked node and its release change no capacity, and
    neither does the accounting of storage prefetches. *)
Hypothesis Hlock : ∀ n (e : E), cap (tree_unlock n (tree_lock n (tree_lock n e))) = cap (tree_lock n e).
Hypothesis Hfinish : ∀ n id k why (e : E),
  cap (tree_unlock n (finish_storage_prefetch_admission id k why e)) = cap (tree_unlock n e).
Hypothesis Hdiscard : ∀ n id k why id' (e : E),
  cap (tree_unlock n (finish_storage_prefetch_admission id k why (discard_storage_prefetch_accounting id' e)))
  = cap (tree_unlock n e).

Definition same_mem (a a' : Adder) : Prop := env a' = env a ∧ memory_budget a' = memory_budget a.

Lemma delayer_mem a : same_mem a (delayer_allows negotiate cfg a).2.
Proof. unfold delayer_allows. destruct (delayer a); [|done]. by destruct (negotiate _ _ _ _ _). Qed.

Lemma shard_mem (a a' : Adder) p x ok : _kv_shard_reserve_scratch cfg p x a = Ok (ok, a') → same_mem a a'.
Proof.
  unfold _kv_shard_reserve_scratch. destruct (kv_shard_scratch cfg) as [[mp ct]|]; [|by intros [= _ <-]].
  destruct (_ || _); [destruct (_ && _); [done|]|]; by intros [= _ <-].
Qed.

(** A selected shape passed the memory check, in whole pages of the request. *)
Lemma select_memory (r : R) t h sh align hc (a : Adder) adm :
  (∀ s, align = Some s → 0 < s) →
  _select_prefill_admission cfg r t h sh align hc a = Ok (inr adm) →
  (zq t < rem_total_tokens cfg a)%Q ∧
  a_ceil cfg (adm_extend_len adm) ≤ a_ceil cfg (full_len r - (prefix_len r + h)) ∧
  (adm_max_new_tokens adm = 0 ∨ adm_max_new_tokens adm = clipped_new_tokens cfg r).
Proof.
  intros Hal. unfold _select_prefill_admission. rewrite Hdllm. destruct (match rem_chunk_tokens a with Some _ => _ | None => _ end) as [lim|].
  - destruct (_ && _); [done|]. unfold _check_prefill_budget, check_prefill, plain_check_prefill. rewrite Hplain.
    destruct (qltb_spec (zq t) (remaining_total (bcfg cfg) (env a) (memory_budget a))) as [Hlt|]; [|done]. cbn [negb].
    destruct (_ && _); [done|]. set (x := full_len r - (prefix_len r + h)).
    destruct (Z.ltb_spec lim (if exact_chunk_fill cfg then x else a_ceil cfg x)) as [Hl|_].
    + destruct (hc && _); [done|]. destruct (_ <=? 0); [done|]. destruct (_check_prefill_tile_budget _ _ _); [done|].
      intros [= <-]. simpl. split; [done|]. split; [|by left].
      pose proof (truncate_le lim (prefix_len r + h) align Hal) as Htl.
      assert (truncate_extend cfg lim (prefix_len r + h) align ≤ a_ceil cfg x) as Hle.
      { pose proof (ceil_paged_bounds (page_size cfg) x Hps). fold (a_ceil cfg x) in *. destruct (exact_chunk_fill cfg); lia. }
      unfold a_ceil in *. rewrite <- (ceil_paged_idem (page_size cfg) x) by done. by apply ceil_paged_mono.
    + destruct (_check_prefill_tile_budget _ _ _); [done|]. intros [= <-]. simpl. split; [done|]. split; [done|]. by right.
  - unfold _check_prefill_budget, check_prefill, plain_check_prefill. rewrite Hplain.
    destruct (qltb_spec (zq t) (remaining_total (bcfg cfg) (env a) (memory_budget a))) as [Hlt|]; [|done]. cbn [negb].
    destruct (_ && _); [done|]. destruct (_check_prefill_tile_budget _ _ _); [done|]. intros [= <-]. simpl. split; [done|]. split; [done|]. by right.
Qed.

(** The memory budget after a commit. *)
Lemma commit_memory (r r' : R) adm g (a a' : Adder) :
  _commit_prefill_admission cfg r adm g a = Ok (r', a') →
  memory_budget a' =
    plain_reserve (bcfg cfg) (memory_budget a) (a_ceil cfg (adm_extend_len adm)) (adm_max_new_tokens adm)
      (g + per_req_token_overhead cfg - page_size cfg) ∧
  last_node r = last_node r' ∧ ∀ n, cap (tree_unlock n (env a')) = cap (tree_unlock n (tree_lock (last_node r) (env a))).
Proof.
  unfold _commit_prefill_admission. destruct (_ =? _); [|done]. simpl. intros [= <- <-].
  set (b := _update_prefill_budget _ _ _ _ _ _ _ _ _ _).
  assert (memory_budget b = plain_reserve (bcfg cfg) (memory_budget a) (a_ceil cfg (adm_extend_len adm))
    (adm_max_new_tokens adm) (g + per_req_token_overhead cfg - page_size cfg)) as Hb.
  { unfold b, _update_prefill_budget, reserve, _request_slot_reserve_for_req. simpl. rewrite Hplain, Hslot.
    do 2 f_equal. lia. }
  assert (env b = tree_lock (last_node r) (env a)) as He by done. clearbody b.
  unfold _account_prefill_cache_admission. change (last_node (set_extend_end _ r)) with (last_node r). simpl.
  destruct (retracted_stain r); [simpl; split; [done|]; split; [done|]; intros n; by rewrite Hdiscard, He|].
  destruct (0 <? _).
  - destruct (split_cached_prefix_by_tier _ _ _ _ _) as [[dv ho] st]. simpl.
    split; [done|]. split; [done|]. intros n. by rewrite Hfinish, He.
  - simpl. split; [done|]. split; [done|]. intros n. by rewrite Hfinish, He.
Qed.

(** Admitting a new request overdraws the memory budget by less than one
    page: the check counts the request's tokens, its new tokens and one page of
    overhead, and only rounding its tokens up to whole pages can exceed it.
    The prefix the request matched, locked for it, no longer counts as free. *)
Theorem admission_overdraft (r r' : R) hc align (a a' : Adder) v :
  (∀ s, align = Some s → 0 < s) → fits_full r → output_len r = 0 → needs_host_load_back r = false →
  add_one_req negotiate cfg r hc align a = Ok (v, r', a') → can_run_list a' ≠ can_run_list a →
  (zq (- page_size cfg) < rem_total_tokens cfg a')%Q.
Proof.
  intros Hal (Hp & Hh & Hf) Ho Hn. unfold add_one_req. case_if_goal; [by intros [= _ _ <-]|].
  rewrite Htree, andb_false_r. case_if_goal. { intros [= _ _ <-] Hne. by destruct (_ && _). }
  set (a1 := with_env (tree_lock _ _) a). set (t := _ + _request_slot_reserve_for_req _ _ _).
  destruct (_select_prefill_admission _ _ _ _ _ _ _ a1) as [[v1|adm]|] eqn:Es; simpl; [| |done].
  { intros [= _ _ <-] Hne. exfalso. apply Hne. destruct (bool_decide _); [|done]. by destruct (defer_same r "prefill_budget" a1). }
  assert (host_hit_length r = 0) as Eh.
  { unfold needs_host_load_back in Hn. destruct (Z.ltb_spec 0 (host_hit_length r)); [done|lia]. }
  apply select_memory in Es as (Hlt & Hce & Hmn); [|done]. rewrite Eh, Z.add_0_r in Hce.
  pose proof (delayer_same a1) as Hd. pose proof (delayer_mem a1) as Hdm.
  destruct (delayer_allows _ _ a1) as [ok a2]. simpl in Hd, Hdm.
  destruct ok; simpl; [|intros [= _ _ <-] Hne; exfalso; apply Hne; by destruct Hd].
  unfold load_back. rewrite Hn. simpl.
  destruct (_kv_shard_reserve_scratch _ _ _ a2) as [[ok4 a4]|] eqn:E4; simpl; [|done].
  apply shard_same in E4 as Hs4. apply shard_mem in E4 as Hm4.
  destruct ok4; simpl; [|intros [= _ _ <-] Hne; exfalso; apply Hne; destruct Hd as [Ed _]; destruct Hs4 as [Es4 _]; simpl; by rewrite Es4, Ed].
  destruct (_commit_prefill_admission _ _ _ _ a4) as [[r5 a5]|] eqn:E5; simpl; [|done]. intros [= _ _ <-] _.
  apply commit_memory in E5 as (Eb & _ & He). destruct Hm4 as [Em4 Eb4], Hdm as [Em2 Eb2].
  unfold rem_total_tokens, remaining_total in *. simpl. rewrite He, Em4, Em2. unfold a1; simpl.
  rewrite Hlock, Eb, Eb4, Eb2. unfold plain_reserve. simpl. unfold a1 in Hlt; simpl in Hlt.
  set (k := zq (cap (tree_lock (last_node r) (env a)))) in *. set (o := total_offset (memory_budget a)) in *.
  unfold b_ceil. rewrite Hbps. unfold a_ceil at 1. rewrite ceil_paged_idem by done. fold (a_ceil cfg (adm_extend_len adm)).
  set (im := _ + adm_max_new_tokens adm).
  assert (im < t + page_size cfg) as Him.
  { unfold im, t. unfold _request_slot_reserve_for_req. rewrite Hslot.
    pose proof (ceil_paged_bounds (page_size cfg) (full_len r - prefix_len r) Hps) as Hcb.
    fold (a_ceil cfg (full_len r - prefix_len r)) in Hcb.
    unfold clipped_new_tokens in Hmn. destruct Hmn as [-> | ->]; lia. }
  assert (zq im < zq t + zq (page_size cfg))%Q as Hq by (rewrite <- zq_plus; by apply zq_lt).
  assert (zq (- page_size cfg) == - zq (page_size cfg))%Q as -> by (rewrite inject_Z_opp; reflexivity). lra.
Qed.
End memory.

(** ** Preemption *)

Section preemption.
Abbreviation cap := (_available_and_evictable (bcfg cfg)).
Abbreviation offset := (_get_running_request_total_token_offset (N:=N) cfg).

(** Releasing a request never takes capacity away. *)
Hypothesis Hrelease : ∀ x n (e : E), cap e ≤ cap (release_req x n e).

Definition qsum (l : list Q) : Q := foldr Qplus 0%Q l.

Lemma qsum_perm l l' : l ≡ₚ l' → (qsum l == qsum l')%Q.
Proof. induction 1; simpl; lra. Qed.

Lemma qsum_nil : qsum (offset <$> []) = 0%Q. Proof. done. Qed.
Lemma qsum_cons x l : qsum (offset <$> x :: l) = (offset x + qsum (offset <$> l))%Q. Proof. done. Qed.

Lemma pick_spec prio missing (rs : list R) l m :
  pick_preemptible cfg prio missing rs = (l, m) →
  l `prefix_of` rs ∧ (m == missing - qsum (offset <$> l))%Q ∧
  Forall (λ x, preemption_threshold cfg < (prio - priority x) * (- priority_sign cfg)) l.
Proof.
  revert missing l m. induction rs as [|x rs IH]; intros missing l m; simpl.
  { intros [= <- <-]. split; [apply prefix_nil|]. split; [rewrite ?qsum_cons, ?qsum_nil; lra|constructor]. }
  destruct (Z.ltb_spec (preemption_threshold cfg) ((prio - priority x) * - priority_sign cfg)) as [Ht|Ht].
  - destruct (qleb _ _).
    + intros [= <- <-]. split; [apply prefix_cons, prefix_nil|]. split; [rewrite ?qsum_cons, ?qsum_nil; lra|by repeat constructor].
    + destruct (pick_preemptible cfg prio (missing - offset x) rs) as [l2 m2] eqn:Ep. intros [= <- <-].
      destruct (IH _ _ _ Ep) as (H1 & H2 & H3). split; [by apply prefix_cons|]. split; [rewrite ?qsum_cons, ?qsum_nil; lra|by constructor].
  - intros [= <- <-]. split; [apply prefix_nil|]. split; [rewrite ?qsum_cons, ?qsum_nil; lra|constructor].
Qed.

Lemma release_spec total ids count (rs : list R) off (e : E) keep off' e' :
  release_loop cfg total ids count rs off e = (keep, off', e') →
  keep = filter (λ x, ¬ rid x ∈ ids) rs ∧
  (off' == off - qsum (offset <$> filter (λ x, rid x ∈ ids) rs))%Q ∧ cap e ≤ cap e'.
Proof.
  revert count off e keep off' e'. induction rs as [|x rs IH]; intros count off e keep off' e'; simpl.
  { intros [= <- <- <-]. split; [done|]. split; [rewrite ?qsum_cons, ?qsum_nil; lra|done]. }
  case_bool_decide as Hx.
  - intros Hr. apply IH in Hr as (H1 & H2 & H3).
    rewrite filter_cons_False by (intros Hn; by apply Hn). rewrite filter_cons_True by done.
    split; [done|]. split; [rewrite ?qsum_cons, ?qsum_nil; lra|]. etrans; [apply Hrelease|done].
  - destruct (release_loop cfg total ids count rs off e) as [[k o] e2] eqn:Er. intros [= <- <- <-].
    apply IH in Er as (H1 & H2 & H3). rewrite filter_cons_True by done. rewrite filter_cons_False by done.
    split; [by f_equal|]. by split.
Qed.

Lemma filter_picked (rs picked : list R) :
  NoDup (rid <$> rs) → NoDup picked → (∀ x, x ∈ picked → x ∈ rs) →
  filter (λ x, rid x ∈ rid <$> picked) rs ≡ₚ picked.
Proof.
  intros Hnd Hnp Hsub. apply NoDup_Permutation; [apply NoDup_filter; by eapply NoDup_fmap_1|done|].
  intros x. rewrite list_elem_of_filter, list_elem_of_fmap. split.
  - intros [(y & Exy & Hy) Hx]. assert (x = y) as ->; [|done].
    apply Hsub in Hy. apply list_elem_of_lookup in Hx as [i Hi], Hy as [j Hj].
    assert (i = j) as ->; [|congruence].
    eapply NoDup_lookup; [exact Hnd|rewrite list_lookup_fmap, Hi; done|rewrite list_lookup_fmap, Hj; simpl; by rewrite Exy].
  - intros Hx. split; [by exists x|by apply Hsub].
Qed.

(** What [preempt_to_schedule] makes room for. *)
Definition tokens_wanted (r : R) : Z :=
  full_len r - prefix_len r + clipped_new_tokens cfg r + _request_slot_reserve_for_req cfg r None.

(** A preemption either changes nothing or makes room: the requests taken
    off the running batch are unfinished, were not preempted before and differ
    in priority by more than the threshold; the others stay in order; and
    afterwards the budget holds the whole request with its new tokens. *)
Theorem preempt_makes_room (r : R) (a a' : Adder) rs ok :
  running a = Some rs → NoDup (rid <$> rs) →
  preempt_to_schedule cfg r a = Ok (ok, a') →
  if ok then
    ∃ picked keep, running a' = Some keep ∧ preempt_list a' = preempt_list a ++ picked ∧ picked ≠ [] ∧
      rs ≡ₚ picked ++ keep ∧ keep `sublist_of` rs ∧
      Forall (λ x, preemption_threshold cfg < (priority r - priority x) * (- priority_sign cfg) ∧
                   finished x = false ∧ rid x ∉ rid <$> preempt_list a) picked ∧
      (zq (tokens_wanted r) <= rem_total_tokens cfg a')%Q
  else a' = a.
Proof.
  intros Hrun Hnd. unfold preempt_to_schedule. rewrite Hrun.
  set (valid := List.filter _ rs). fold (tokens_wanted r). set (need := zq (tokens_wanted r)). set (sorted := py_sort _ _ valid).
  destruct (pick_preemptible _ _ _ sorted) as [picked m] eqn:Ep. apply pick_spec in Ep as (Hpre & Hm & Hthr).
  case_bool_decide as Hnil; simpl; [by intros [= <- <-]|].
  destruct (qltb_spec 0 m) as [Hlt|Hle]; simpl; [by intros [= <- <-]|].
  destruct (release_loop _ _ _ _ rs _ _) as [[keep off] e] eqn:Er. intros [= <- <-].
  apply release_spec in Er as (Hkeep & Hoff & Hcap).
  assert (∀ x, x ∈ picked → x ∈ rs ∧ finished x = false ∧ rid x ∉ rid <$> preempt_list a) as Hval.
  { intros x Hx. assert (x ∈ valid) as Hv.
    { apply (elem_of_py_sort (pair_leb Z.leb Z.leb) (λ x, (priority x * (- priority_sign cfg), - wait_queue_entry_time x))).
      fold sorted. destruct Hpre as [k ->]. apply elem_of_app. by left. }
    unfold valid in Hv. rewrite list_elem_of_In, filter_In, andb_true_iff, !negb_true_iff, bool_decide_eq_false in Hv.
    rewrite list_elem_of_In. tauto. }
  assert (NoDup picked) as Hnp.
  { assert (NoDup sorted) as Hs.
    { unfold sorted. rewrite py_sort_perm. unfold valid. rewrite NoDup_ListNoDup. apply List.NoDup_filter.
      rewrite <- NoDup_ListNoDup. by eapply NoDup_fmap_1. }
    destruct Hpre as [k ->]. by apply NoDup_app in Hs as (? & _ & _). }
  assert (filter (λ x, rid x ∈ rid <$> picked) rs ≡ₚ picked) as Hfp.
  { apply filter_picked; [done|done|]. intros x Hx. by apply Hval. }
  exists picked, keep. split; [done|]. split; [done|]. split; [done|]. split.
  { rewrite Hkeep. rewrite <- Hfp at 1. symmetry. apply filter_app_complement. }
  split; [rewrite Hkeep; apply sublist_filter|]. split.
  { apply Forall_forall. intros x Hx. split; [by eapply Forall_forall in Hthr|]. by apply Hval. }
  unfold rem_total_tokens, remaining_total in *. simpl. fold need.
  assert (qsum (offset <$> filter (λ x, rid x ∈ rid <$> picked) rs) == qsum (offset <$> picked))%Q as Hq
    by (apply qsum_perm; by rewrite Hfp).
  assert (zq (cap (env a)) <= zq (cap e))%Q by by apply zq_le.
  unfold remaining_total in Hm. lra.
Qed.
End preemption.
End theorems.
