(* ===== verification/PrefillCases.v ===== *)
(** * Concrete passes

    A cache with one node and pools of fixed sizes: witnesses for the theorems
    on prefill admission, and the passes in which the code does not do what it
    means to. *)
From S2P Require Import Prelude PySort PrefillBudget PrefillAdder PrefillTheorems.

(** One node whose tokens are evictable while nobody locks it. *)
Record one_node := mkOne { on_pools : fixed_pools; on_locks : Z }.

Definition on_evictable (e : one_node) : Z := if 0 <? on_locks e then 0 else fp_evictable (on_pools e).

#[local] Instance one_node_pools : KvPools one_node := {
  available_size e := fp_available (on_pools e);
  evictable_size := on_evictable;
  full_available_size e := fp_available (on_pools e);
  full_evictable_size := on_evictable;
  swa_available_size e := fp_swa_available (on_pools e);
  swa_evictable_size e := fp_swa_evictable (on_pools e);
  can_reserve e f s fe se _ _ := qleb (f + zq s) (zq (fp_bytes (on_pools e) + fe + se));
  reclaim_for_prealloc e f s := (f + s <=? fp_bytes (on_pools e), e)
}.

#[local] Instance one_node_tree : PrefixTree one_node unit := {
  tree_lock _ e := mkOne (on_pools e) (on_locks e + 1);
  tree_unlock _ e := mkOne (on_pools e) (on_locks e - 1);
  inc_host_lock_ref _ e := e;
  dec_host_lock_ref _ e := e;
  init_load_back r e := (Some (Z.min (host_hit_length r) (full_len r - prefix_len r), tt), e);
  full_transfer_len _ _ := 0;
  linker_has_hit _ _ := false;
  defer_staged_admission _ _ e := e;
  finish_storage_prefetch_admission _ _ _ e := e;
  discard_storage_prefetch_accounting _ e := e;
  release_req r _ e :=
    mkOne (mkPools (fp_available (on_pools e) + Z.max 0 (origin_len r)) (fp_evictable (on_pools e))
             (fp_swa_available (on_pools e)) (fp_swa_evictable (on_pools e)) (fp_bytes (on_pools e)))
      (on_locks e)
}.

(** No delayer. *)
Definition no_delay (d : unit) (_ _ _ _ : Z) : bool * unit := (true, d).

Definition case_cfg (cls : budget_class) : adder_cfg :=
  mkAdderCfg 16 (mkBudgetCfg cls 16 false (Some 128) 1024 0) (1 # 2) 4096 false None
    (match cls with PlainBudget => false | _ => true end) 0 0 false 0 1 None None 0 0 0 64 false 0 Compact
    false false false false false false false (λ _ _, 0).

Definition case_req (id : string) (len max_new prio time : Z) : Req unit :=
  mkReqS id len len 0 0 0 max_new false false false None false 0 0 0 0 0 0 None false 0 tt tt false 0 false
    prio time false.

Definition case_pools : one_node := mkOne (mkPools 100000 64 1024 0 0) 0.

Abbreviation CaseAdder := (adder one_node unit unit).

Definition case_start (cls : budget_class) (running : list (Req unit)) (e : one_node) : CaseAdder :=
  adder_init (case_cfg cls) 16384 (Some 8192) 0 (Some running) None None e.

(** The state after offering a request. *)
Definition offer_req (cls : budget_class) (r : Req unit) (a : CaseAdder) : CaseAdder :=
  match add_one_req no_delay (case_cfg cls) r false None a with Ok (_, _, a') => a' | Raise _ => a end.

Lemma offer_req_ok cls r a :
  (match add_one_req no_delay (case_cfg cls) r false None a with Ok _ => true | Raise _ => false end) = true →
  ∃ v r', add_one_req no_delay (case_cfg cls) r false None a = Ok (v, r', offer_req cls r a).
Proof. unfold offer_req. destruct (add_one_req _ _ _ _ _ _) as [[[v r'] a']|]; [eauto|done]. Qed.

(** ** Witnesses *)

Lemma chunk_budget_respected_witness :
  let a := offer_req PlainBudget (case_req "b" 9000 10 0 0) (offer_req PlainBudget (case_req "a" 100 10 0 0)
             (case_start PlainBudget [] case_pools)) in
  extend_len <$> can_run_list a = [100; 8080] ∧ zsum (extend_len <$> can_run_list a) ≤ 8192 - 0.
Proof.
  cbv zeta. split; [by vm_compute|].
  destruct (offer_req_ok PlainBudget (case_req "a" 100 10 0 0) (case_start PlainBudget [] case_pools)) as (v1 & r1 & E1);
    [by vm_compute|].
  destruct (offer_req_ok PlainBudget (case_req "b" 9000 10 0 0)
    (offer_req PlainBudget (case_req "a" 100 10 0 0) (case_start PlainBudget [] case_pools))) as (v2 & r2 & E2); [by vm_compute|].
  apply (chunk_budget_respected no_delay (case_cfg PlainBudget) ltac:(done) eq_refl ltac:(done)
    16384 8192 0 (Some []) None None case_pools); [done|].
  eapply rtc_l; [eapply (astep_one _ _ (case_req "a" 100 10 0 0) false None); [by split|done|exact E1]|].
  eapply rtc_l; [eapply (astep_one _ _ (case_req "b" 9000 10 0 0) false None); [by split|done|exact E2]|].
  apply rtc_refl.
Defined.

Lemma one_request_is_cut_witness :
  let a := offer_req PlainBudget (case_req "b" 9000 10 0 0) (case_start PlainBudget [] case_pools) in
  let a' := offer_req PlainBudget (case_req "c" 9000 10 0 0) a in
  rid <$> new_chunked_req a = Some "b"%string ∧ new_chunked_req a' = new_chunked_req a.
Proof.
  cbv zeta. split; [by vm_compute|]. set (a := offer_req _ (case_req "b" _ _ _ _) _).
  destruct (offer_req_ok PlainBudget (case_req "b" 9000 10 0 0) (case_start PlainBudget [] case_pools)) as (v1 & r1 & E1);
    [by vm_compute|]. fold a in E1.
  destruct (offer_req_ok PlainBudget (case_req "c" 9000 10 0 0) a) as (v2 & r2 & E2); [by vm_compute|].
  destruct (new_chunked_req a) as [r|] eqn:Er; [|vm_compute in Er; discriminate Er].
  apply (one_request_is_cut no_delay (case_cfg PlainBudget) ltac:(done) eq_refl None eq_refl eq_refl ltac:(done))
    with (rem_input := 16384) (c0 := 8192) (mixed := 0) (running_reqs := Some []) (slots := None) (d := None)
      (e := case_pools) (a := a); [|done| |exact Er|].
  - intros x e e' n node. simpl. intros [= <- _]. lia.
  - eapply rtc_l; [eapply (offer_one _ _ _ (case_req "b" 9000 10 0 0) false); [done|exact E1]|apply rtc_refl].
  - eapply rtc_l; [eapply (offer_one _ _ _ (case_req "c" 9000 10 0 0) false); [done|exact E2]|apply rtc_refl].
Defined.

Lemma admission_overdraft_witness :
  let e := mkOne (mkPools 121 16 0 0 0) 0 in
  let a := offer_req PlainBudget (case_req "a" 97 7 0 0) (case_start PlainBudget [] e) in
  rid <$> can_run_list a = ["a"%string] ∧ (zq (- 16) < rem_total_tokens (case_cfg PlainBudget) a)%Q.
Proof.
  cbv zeta. split; [by vm_compute|]. set (e := mkOne _ _).
  destruct (offer_req_ok PlainBudget (case_req "a" 97 7 0 0) (case_start PlainBudget [] e)) as (v1 & r1 & E1); [by vm_compute|].
  eapply (admission_overdraft no_delay (case_cfg PlainBudget) ltac:(done) eq_refl eq_refl eq_refl eq_refl ltac:(done)
    ltac:(done)) with (r := case_req "a" 97 7 0 0) (align := None) (a := case_start PlainBudget [] e);
    [|done|done|done|done|done|done|exact E1|by vm_compute].
  intros [] x. simpl. unfold _available_and_evictable. simpl. unfold plain_available_and_evictable. simpl. unfold on_evictable. simpl.
  by replace (on_locks x + 1 + 1 - 1) with (on_locks x + 1) by lia.
Defined.

Lemma preempt_makes_room_witness :
  let e := mkOne (mkPools 100 0 0 0 0) 0 in
  let low := case_req "low" 200 100 1 5 in
  let a := case_start PlainBudget [low; case_req "peer" 50 20 9 6] e in
  ∃ a', preempt_to_schedule (case_cfg PlainBudget) (case_req "new" 40 10 9 7) a = Ok (true, a') ∧
    preempt_list a' = [low].
Proof.
  cbv zeta. set (e := mkOne _ _). set (low := case_req "low" 200 100 1 5). set (peer := case_req "peer" 50 20 9 6).
  destruct (preempt_to_schedule (case_cfg PlainBudget) (case_req "new" 40 10 9 7) (case_start PlainBudget [low; peer] e))
    as [[ok a']|] eqn:E1; [|vm_compute in E1; discriminate E1].
  assert (ok = true) as -> by (vm_compute in E1; congruence).
  exists a'. split; [done|].
  assert (NoDup (rid <$> [low; peer])) as Hnd by (apply (bool_decide_unpack _); by vm_compute).
  pose proof (λ Hrel, preempt_makes_room (case_cfg PlainBudget) Hrel (case_req "new" 40 10 9 7)
    (case_start PlainBudget [low; peer] e) a' [low; peer] true eq_refl Hnd E1) as H.
  destruct H as (picked & keep & _ & Hp & _).
  { intros x n y. unfold _available_and_evictable. simpl. unfold plain_available_and_evictable. simpl. unfold on_evictable. simpl. destruct (0 <? _); lia. }
  vm_compute in E1. injection E1 as <-. done.
Defined.

(** ** Passes in which the code does not do what it means to *)

(** With separate FULL and SWA pools a pass can cut two requests.  The SWA
    check shrinks the first chunk without using up the chunk budget, a second
    long request with fewer new tokens is then cut too and replaces the first
    as [new_chunked_req]; the first stays in the batch with 880 of its 5000
    prompt tokens and no record that it is unfinished. *)
Theorem swa_pass_cuts_two :
  let cls := SWABudget false false in
  let a := offer_req cls (case_req "second" 5000 1 0 0)
             (offer_req cls (case_req "first" 5000 512 0 0) (case_start cls [] case_pools)) in
  (λ r, (rid r, extend_end r, full_len r)) <$> can_run_list a =
    [("first"%string, 880, 5000); ("second"%string, 96, 5000)] ∧
  rid <$> new_chunked_req a = Some "second"%string.
Proof. by vm_compute. Qed.

Section findings.
Context {E N D : Type}.

(** Where [add_req_state] inserts among smaller entries: one before the end. *)
Lemma insert_pos_last t (l : list (Q * Z)) i last :
  Forall (λ x, (x.1 < t)%Q) l → insert_pos t i last l = match l with [] => last | _ => (i + length l - 1)%nat end.
Proof.
  revert i last. induction l as [|x l IH]; intros i last Hf; [done|]. apply Forall_cons in Hf as [Hx Hf]. simpl.
  destruct (qleb_spec t x.1) as [Hle|Hlt]; [exfalso; lra|]. rewrite IH by done. destruct l; simpl; lia.
Qed.

(** The tokens a fixed-length request may still produce. *)
Definition tokens_left (r : Req N) : Q := (zq (max_new_tokens r) * 1 - zq (output_len r))%Q.

(** The insertion that should keep [req_states] sorted by remaining tokens
    puts a request with more remaining tokens than all others before the last
    entry instead of at the end, so the walk over the requests in the order
    they finish no longer sees them in that order. *)
Theorem add_req_state_misplaces_longest (cfg : adder_cfg) (states : list (Q * Z)) (r : Req N) :
  states ≠ [] → ignore_eos r = true → 0 < max_new_tokens r - output_len r →
  Forall (λ x, (x.1 < tokens_left r)%Q) states →
  ∃ front back, states = front ++ [back] ∧
    add_req_state cfg true states r = front ++ [(tokens_left r, origin_len r + output_len r); back] ∧
    ¬ StronglySorted (λ x y, qleb x.1 y.1 = true) (add_req_state cfg true states r).
Proof.
  intros Hne Hi Hpos Hf. unfold add_req_state. rewrite Hi. cbv beta iota. fold (tokens_left r). set (t := tokens_left r) in *.
  destruct (qleb_spec t 0) as [Hle|_].
  { exfalso. assert (0 < zq (max_new_tokens r) - zq (output_len r))%Q; [|unfold t, tokens_left in Hle; lra].
    assert (zq (output_len r) < zq (max_new_tokens r))%Q by (apply zq_lt; lia). lra. }
  cbn [negb]. rewrite insert_pos_last by done. destruct (exists_last Hne) as (front & back & ->).
  assert ((match front ++ [back] with [] => 0%nat | _ => (0 + length (front ++ [back]) - 1)%nat end) = length front) as ->.
  { rewrite length_app. simpl. destruct (front ++ [back]) eqn:E1; [by destruct front|lia]. }
  rewrite take_app_length, drop_app_length. exists front, back. split; [done|]. split; [done|].
  intros Hs. clear -Hs Hf. induction front as [|x front IH]; simpl in *.
  - apply StronglySorted_inv in Hs as [_ Hs]. apply Forall_cons in Hs as [Hs _], Hf as [Hf _]. simpl in Hs.
    destruct (qleb_spec t back.1); [lra|done].
  - apply StronglySorted_inv in Hs as [Hs _]. apply Forall_cons in Hf as [_ Hf]. by apply IH.
Qed.

(** Some request was admitted before. *)
Definition batch_started (a : adder E N D) : Prop := can_run_list a ≠ [].

(** In compact mode the tile budget does not count the requests already
    admitted: its verdict on a candidate is the same whatever they are, because
    their lengths are read from an attribute that requests do not have. *)
Theorem tile_budget_ignores_admitted (cfg : adder_cfg) (a b : adder E N D) (candidate : Z) :
  tile_budget_mode cfg = Compact → batch_started a → batch_started b →
  _check_prefill_tile_budget cfg a candidate = _check_prefill_tile_budget cfg b candidate.
Proof.
  unfold batch_started. intros Hm Ha Hb. unfold _check_prefill_tile_budget. destruct (_ || _); [done|]. rewrite Hm.
  assert (∀ c : adder E N D, compact_q_tiles (_candidate_tile_metrics cfg c candidate) =
    (if 0 <? Z.max 0 candidate then - ((- Z.max 0 candidate) / tile_block_m cfg) else 0)) as Hc.
  { intros c. unfold _candidate_tile_metrics, estimate_prefill_extend_tile_metrics, _admitted_extend_lens.
    cbn [compact_q_tiles]. generalize (can_run_list c). intros l.
    set (t := if 0 <? Z.max 0 candidate then _ else 0). rewrite <- (Z.add_0_r t).
    induction l as [|x l IH]; [done|]. exact IH. }
  rewrite !Hc. destruct (can_run_list a), (can_run_list b); done.
Qed.
End findings.

Lemma add_req_state_misplaces_longest_witness :
  add_req_state (case_cfg PlainBudget) true [(5%Q, 10); (7%Q, 10)]
    (mkReqS "long" 20 20 0 0 0 9 true false false None false 0 0 0 0 0 0 None false 0 tt tt false 0 false 0 0 false)
  = [(5%Q, 10); ((zq 9 * 1 - zq 0)%Q, 20); (7%Q, 10)].
Proof.
  set (r := mkReqS _ _ _ _ _ _ _ _ _ _ _ _ _ _ _ _ _ _ _ _ _ _ _ _ _ _ _ _ _).
  destruct (add_req_state_misplaces_longest (case_cfg PlainBudget) [(5%Q, 10); (7%Q, 10)] r) as (f & b & Ef & Ea & _);
    [done|done|done|repeat constructor; unfold tokens_left; simpl; lra|].
  assert (f = [(5%Q, 10)] ∧ b = (7%Q, 10)) as [-> ->].
  { destruct f as [|x f]; [discriminate Ef|]. destruct f as [|y f]; [by injection Ef as -> ->|].
    destruct f; discriminate Ef. }
  exact Ea.
Defined.

Lemma tile_budget_ignores_admitted_witness :
  let a := offer_req PlainBudget (case_req "a" 100 10 0 0) (case_start PlainBudget [] case_pools) in
  let b := offer_req PlainBudget (case_req "b" 4000 10 0 0) (case_start PlainBudget [] case_pools) in
  _check_prefill_tile_budget (case_cfg PlainBudget) a 500 = _check_prefill_tile_budget (case_cfg PlainBudget) b 500.
Proof. cbv zeta. apply tile_budget_ignores_admitted; [done|by vm_compute|by vm_compute]. Defined.
