(* ===== verification/PrefillDelayer.v ===== *)
(** * Delaying prefills ([managers/prefill_delayer.py])

    Every scheduler pass the data-parallel ranks gather what each can prefill
    and decide together whether to prefill now or to wait for a larger batch.
    Times are integers in microseconds; thresholds in milliseconds and ratios
    are rationals. *)
From S2P Require Import Prelude PrefillBudget.

(** ** Recent batch sizes *)

Record RecentPrefillBatchSizeTracker := mkTracker { window_size : Z; recent_attempt_sizes : list Z }.

Definition tracker_init (w : Z) : result RecentPrefillBatchSizeTracker :=
  if w <=? 0 then Raise ValueError else Ok (mkTracker w []).

Definition tracker_max (t : RecentPrefillBatchSizeTracker) : Z :=
  match recent_attempt_sizes t with [] => 0 | x :: l => foldr Z.max x l end.

(** A deque of bounded length drops its oldest entry. *)
Definition observe_attempt (t : RecentPrefillBatchSizeTracker) (bs : Z) :
    result (Z * RecentPrefillBatchSizeTracker) :=
  if bs <=? 0 then Raise ValueError
  else
    let l := recent_attempt_sizes t ++ [bs] in
    let t := mkTracker (window_size t) (drop (length l - Z.to_nat (window_size t)) l) in
    Ok (tracker_max t, t).

(** ** State *)

Record _State := mkDState {
  delayed_count : Z; start_time : Z; max_waiting_queue_len : Z; last_queue_growth_time : Z
}.

Definition bump_delayed_count (s : _State) : _State :=
  mkDState (delayed_count s + 1) (start_time s) (max_waiting_queue_len s) (last_queue_growth_time s).

Definition observe_waiting_queue_len (s : _State) (len now : Z) : _State :=
  if len <=? max_waiting_queue_len s then s
  else mkDState (delayed_count s) (start_time s) len now.

Inductive reason := TokenWatermark | Delay | WaitTimeout | WaitSuccess | NoWait | NoReason.
Inductive prefillable_status := PAll | PNone | PMixed.

Record _NegotiateOutput := mkOut {
  next_state : option _State;
  input_estimation : prefillable_status;
  output_allow : bool;
  output_reason : reason;
  num_prefillable : Z;
  num_token_watermark_force_allow : Z;
  wait_forward_passes : Z;
  wait_us : Z
}.

Record delayer_cfg := mkDelayerCfg {
  max_delay_passes : Z;
  token_usage_low_watermark : option Q;
  queue_min_ratio : option Q;
  max_delay_ms : Q;
  enable_idle_coalescing : bool;
  idle_max_delay_ms : Q;
  idle_settle_ms : Q;
  idle_burst_max_delay_ms : Q;
  idle_max_batch_size : Z;
  delayer_prefill_max_requests : option Z;
  num_dp_ranks : Z;
  attn_dp_enabled : bool
}.

(** The checks of [__init__]. *)
Definition delayer_check (cfg : delayer_cfg) (disable_overlap_schedule : bool) : result unit :=
  if qleb (idle_max_delay_ms cfg) 0 then Raise ValueError
  else if qleb (idle_settle_ms cfg) 0 then Raise ValueError
  else if qleb (idle_burst_max_delay_ms cfg) 0 then Raise ValueError
  else if idle_max_batch_size cfg <? 2 then Raise ValueError
  else assert! negb disable_overlap_schedule in Ok tt.

(** What a rank contributes to a pass. *)
Record inputs := mkInputs {
  local_prefillable : bool;
  token_usage : Q;
  i_running_batch : Z;
  i_max_prefill_bs : Z;
  i_max_running_requests : Z;
  i_waiting_queue_len : Z;
  now : Z;           (* the clock when the call starts *)
  now_state : Z      (* the clock when a fresh [_State()] is made *)
}.

(** A row of the gathered tensor. *)
Record row := mkRow {
  w_prefillable : Z; w_force_allow : Z; w_running : Z; w_max_prefill_bs : Z;
  w_waiting : Z; w_wait_us : Z; w_quiet_us : Z
}.

Definition lmin (l : list Z) : Z := match l with [] => 0 | x :: l => foldr Z.min x l end.
Definition lmax (l : list Z) : Z := match l with [] => 0 | x :: l => foldr Z.max x l end.

Section delayer.
Context (cfg : delayer_cfg).

Definition local_force_allow (i : inputs) : bool :=
  local_prefillable i && match token_usage_low_watermark cfg with
                         | Some x => qltb (token_usage i) x
                         | None => false
                         end.

Definition local_observed (prev : option _State) (i : inputs) : option _State :=
  (λ s, observe_waiting_queue_len s (i_waiting_queue_len i) (now i)) <$> prev.

(** The row of [_gather_info]. *)
Definition local_info (prev : option _State) (i : inputs) : row :=
  let obs := local_observed prev i in
  mkRow (if local_prefillable i then 1 else 0) (if local_force_allow i then 1 else 0)
    (i_running_batch i) (i_max_prefill_bs i) (i_waiting_queue_len i)
    (match obs with Some s => now i - start_time s | None => 0 end)
    (match obs with Some s => now i - last_queue_growth_time s | None => 0 end).

(** Elapsed microseconds against milliseconds. *)
Definition us_lt_ms (us : Z) (ms : Q) : bool := qltb (zq us / 1000) ms.

(** Wait until the queue reaches a share of the running batch. *)
Definition queue_trigger (running_max prefill_bs_max waiting_max longest_wait_us : Z) : bool :=
  match queue_min_ratio cfg with
  | Some ratio =>
      if 0 <? running_max then
        let capacity := default prefill_bs_max (delayer_prefill_max_requests cfg) in
        let queue_min := Z.min (qint (zq running_max * ratio)) capacity in
        (0 <? queue_min) && (waiting_max <? queue_min) && us_lt_ms longest_wait_us (max_delay_ms cfg)
      else false
  | None => false
  end.

(** On an idle engine, wait for a burst to settle. *)
Definition idle_trigger (running_max waiting_max wait_us quiet_us : Z) : bool :=
  enable_idle_coalescing cfg && (running_max =? 0) && (0 <? waiting_max) &&
  (waiting_max <? idle_max_batch_size cfg) &&
  (((waiting_max =? 1) && us_lt_ms wait_us (idle_max_delay_ms cfg)) ||
   ((2 <=? waiting_max) && us_lt_ms wait_us (idle_burst_max_delay_ms cfg) &&
    us_lt_ms quiet_us (idle_settle_ms cfg))).

(** The state all ranks share while they coalesce, and the quiet time: growth
    of the global queue restarts it. *)
Definition coalesce_state (obs : option _State) (waiting_max quiet_us t : Z) : _State * Z :=
  match obs with
  | None => (mkDState 0 t waiting_max t, quiet_us)
  | Some s =>
      if max_waiting_queue_len s <? waiting_max
      then (observe_waiting_queue_len s waiting_max t, 0)
      else (s, quiet_us)
  end.

Definition _negotiate_should_allow_prefill_pure (skip_first : bool) (prev : option _State) (i : inputs)
    (tp0_info : list row) : _NegotiateOutput * bool :=
  let obs := local_observed prev i in
  let prefillable := w_prefillable <$> tp0_info in
  let force := w_force_allow <$> tp0_info in
  let wait_us := lmin (w_wait_us <$> tp0_info) in
  let quiet_us := lmin (w_quiet_us <$> tp0_info) in
  let status := if 0 <? lmin prefillable then PAll
                else if lmax prefillable =? 0 then PNone else PMixed in
  let force_allow := 0 <? lmax force in
  let out st allow why passes us :=
    mkOut st status allow why (zsum prefillable) (zsum force) passes us in
  let release why := out None true why (match prev with Some s => delayed_count s | None => 0 end)
                         (match prev with Some s => now i - start_time s | None => 0 end) in
  let count := match prev with Some s => delayed_count s | None => 0 end in
  match status with
  | PAll =>
      if force_allow then (release TokenWatermark, skip_first)
      else
        let max_running := if attn_dp_enabled cfg then i_max_running_requests i
                           else (i_max_running_requests i + num_dp_ranks cfg - 1) / num_dp_ranks cfg in
        let running_max := lmax (w_running <$> tp0_info) in
        let prefill_bs_max := lmax (w_max_prefill_bs <$> tp0_info) in
        let waiting_max := lmax (w_waiting <$> tp0_info) in
        let '(idle_state, quiet_us) := coalesce_state obs waiting_max quiet_us (now i) in
        let queue_condition := queue_trigger running_max prefill_bs_max waiting_max (lmax (w_wait_us <$> tp0_info)) in
        let idle_condition := idle_trigger running_max waiting_max wait_us quiet_us in
        let slot_condition := max_running - running_max <? prefill_bs_max in
        let success := release (match prev with Some _ => WaitSuccess | None => NoWait end) in
        if slot_condition || queue_condition || idle_condition then
          if skip_first && negb idle_condition then (success, false)
          else if count <? max_delay_passes cfg - 1 then
            let st := if idle_condition then idle_state
                      else default (mkDState 0 (now_state i) 0 (now_state i)) obs in
            (out (Some (bump_delayed_count st)) false Delay 0 0, skip_first)
          else (release WaitTimeout, skip_first)
        else (success, skip_first)
  | PNone => (release NoReason, skip_first)
  | PMixed =>
      if force_allow then (release TokenWatermark, skip_first)
      else if count <? max_delay_passes cfg - 1 then
        let st := default (mkDState 0 (now_state i) 0 (now_state i)) prev in
        (out (Some (bump_delayed_count st)) false Delay 0 0, skip_first)
      else (release WaitTimeout, skip_first)
  end.

(** ** One delayer over passes *)

Record PrefillDelayer := mkDelayer { _curr_state : option _State; skip_first_delayer : bool }.

Definition delayer_init : PrefillDelayer := mkDelayer None true.

Definition _negotiate_should_allow_prefill (d : PrefillDelayer) (i : inputs) (tp0_info : list row) :
    _NegotiateOutput * PrefillDelayer :=
  let '(out, skip) := _negotiate_should_allow_prefill_pure (skip_first_delayer d) (_curr_state d) i tp0_info in
  (out, mkDelayer (next_state out) skip).

(** ** The executor of a pass *)

Record executor := mkExec {
  e_delayer : PrefillDelayer; _result : option _NegotiateOutput; _attempted_prefill_bs : Z
}.

Definition _estimate_attempted_prefill_bs (i : inputs) : Z :=
  let local_max := if attn_dp_enabled cfg then i_max_running_requests i
                   else (i_max_running_requests i + num_dp_ranks cfg - 1) / num_dp_ranks cfg in
  let free_slots := Z.max (local_max - i_running_batch i) 1 in
  Z.min (Z.max (i_waiting_queue_len i) 1) free_slots.

(** [gather] is the collective the call joins when it is the first. *)
Definition negotiate_should_allow_prefill (x : executor) (i : inputs) (gather : row → list row) :
    bool * executor :=
  let attempted := if local_prefillable i
                   then Z.max (_attempted_prefill_bs x) (_estimate_attempted_prefill_bs i)
                   else _attempted_prefill_bs x in
  match _result x with
  | Some out => (output_allow out, mkExec (e_delayer x) (Some out) attempted)
  | None =>
      let '(out, d) := _negotiate_should_allow_prefill (e_delayer x) i
                         (gather (local_info (_curr_state (e_delayer x)) i)) in
      (output_allow out, mkExec d (Some out) attempted)
  end.

(** [finalize]: the batch size to record, and the executor. *)
Definition finalize (x : executor) (i : inputs) (gather : row → list row) (actual_prefill_bs : Z) :
    Z * executor :=
  let x := match _result x with
           | Some _ => x
           | None => (negotiate_should_allow_prefill x (mkInputs false (token_usage i) 0 0 0 0 (now i) (now_state i)) gather).2
           end in
  (if actual_prefill_bs =? 0 then _attempted_prefill_bs x else actual_prefill_bs, x).
End delayer.

(** ** The wait is bounded *)

Definition count_of (s : option _State) : Z := match s with Some s => delayed_count s | None => 0 end.

Section bounded.
Context (cfg : delayer_cfg).

Lemma observed_count prev i : count_of (local_observed prev i) = count_of prev.
Proof. destruct prev as [s|]; [|done]. simpl. unfold observe_waiting_queue_len. by destruct (_ <=? _). Qed.

(** A refusal counts one more pass, and only below the limit. *)
Lemma refusal_counts skip prev i rows out skip' :
  _negotiate_should_allow_prefill_pure cfg skip prev i rows = (out, skip') → output_allow out = false →
  count_of prev < max_delay_passes cfg - 1 ∧ count_of (next_state out) = count_of prev + 1.
Proof.
  unfold _negotiate_should_allow_prefill_pure. fold (count_of prev). pose proof (observed_count prev i) as Hobs.
  set (obs := local_observed prev i) in *. clearbody obs.
  destruct (0 <? lmin _).
  - destruct (0 <? lmax _); [intros [= <- _]; done|].
    set (idq := coalesce_state obs _ _ _).
    assert (delayed_count idq.1 = count_of prev) as Hidq.
    { unfold idq, coalesce_state. destruct obs as [s|]; [|done]. destruct (_ <? _); [|done].
      simpl. unfold observe_waiting_queue_len. by destruct (_ <=? _). }
    destruct idq as [ist q]. simpl in Hidq. destruct (_ || _); [|intros [= <- _]; done].
    destruct (_ && negb _); [intros [= <- _]; done|].
    destruct (Z.ltb_spec (count_of prev) (max_delay_passes cfg - 1)) as [Hlt|]; [|intros [= <- _]; done].
    intros [= <- _] _. split; [done|]. simpl. destruct (idle_trigger _ _ _ _ _); simpl; [lia|].
    destruct obs as [s|]; simpl in *; lia.
  - destruct (_ =? 0); [intros [= <- _]; done|]. destruct (0 <? lmax _); [intros [= <- _]; done|].
    destruct (Z.ltb_spec (count_of prev) (max_delay_passes cfg - 1)) as [Hlt|]; [|intros [= <- _]; done].
    intros [= <- _] _. split; [done|]. simpl. destruct prev as [s|]; simpl in *; lia.
Qed.

(** The verdicts of successive passes. *)
Fixpoint verdicts (d : PrefillDelayer) (passes : list (inputs * list row)) : list bool :=
  match passes with
  | [] => []
  | (i, rows) :: rest =>
      let '(out, d) := _negotiate_should_allow_prefill cfg d i rows in
      output_allow out :: verdicts d rest
  end.

Lemma refusals_bounded passes d n :
  count_of (_curr_state d) = n → Forall (λ b, b = false) (verdicts d passes) →
  passes ≠ [] → n + zlen passes ≤ max_delay_passes cfg - 1.
Proof.
  revert d n. induction passes as [|[i rows] rest IH]; intros d n Hn Hf Hne; [done|]. simpl in Hf.
  unfold _negotiate_should_allow_prefill in Hf.
  destruct (_negotiate_should_allow_prefill_pure _ _ _ _ _) as [out skip] eqn:Eo.
  apply Forall_cons in Hf as [Ho Hf]. destruct (refusal_counts _ _ _ _ _ _ Eo Ho) as [H1 H2].
  unfold zlen. simpl length. destruct rest as [|p rest]; [simpl; lia|].
  assert (count_of (_curr_state (mkDelayer (next_state out) skip)) = n + 1) as Hn2 by (simpl; lia).
  pose proof (IH _ (n + 1) Hn2 Hf ltac:(done)) as Hb. unfold zlen in Hb. simpl length in *. lia.
Qed.

(** C39: prefill is never delayed for ever: among any [max_delay_passes]
    successive passes, whatever the ranks report, at least one allows it. *)
Theorem delay_is_bounded (d : PrefillDelayer) (passes : list (inputs * list row)) :
  0 ≤ count_of (_curr_state d) → 1 ≤ max_delay_passes cfg → max_delay_passes cfg ≤ zlen passes →
  true ∈ verdicts d passes.
Proof.
  intros Hc Hm Hl. destruct (decide (true ∈ verdicts d passes)) as [|Hn]; [done|]. exfalso.
  assert (passes ≠ []) as Hne by (intros ->; unfold zlen in Hl; simpl in Hl; lia).
  assert (Forall (λ b, b = false) (verdicts d passes)) as Hf.
  { apply Forall_forall. intros b Hb. destruct b; [done|done]. }
  pose proof (refusals_bounded passes d _ eq_refl Hf Hne). lia.
Qed.

(** ** All ranks take the same decision *)

(** Ranks in step: same wait, same high-watermark of the queue, same flag. *)
Record in_step (s1 s2 : option _State) : Prop := {
  is_count : count_of s1 = count_of s2;
  is_some : bool_decide (s1 = None) = bool_decide (s2 = None);
  is_max : (max_waiting_queue_len <$> s1) = (max_waiting_queue_len <$> s2)
}.

(** The quiet time the decision uses. *)
Definition effective_quiet (prev : option _State) (i : inputs) (rows : list row) : Z :=
  let q := lmin (w_quiet_us <$> rows) in
  match local_observed prev i with
  | Some s => if max_waiting_queue_len s <? lmax (w_waiting <$> rows) then 0 else q
  | None => q
  end.

(** Everything else the decision uses is the same on every rank. *)
Lemma decision_agrees skip s1 s2 i1 i2 rows :
  in_step s1 s2 → i_max_running_requests i1 = i_max_running_requests i2 →
  effective_quiet s1 i1 rows = effective_quiet s2 i2 rows →
  let r1 := _negotiate_should_allow_prefill_pure cfg skip s1 i1 rows in
  let r2 := _negotiate_should_allow_prefill_pure cfg skip s2 i2 rows in
  output_allow r1.1 = output_allow r2.1 ∧ output_reason r1.1 = output_reason r2.1 ∧
  count_of (next_state r1.1) = count_of (next_state r2.1) ∧ r1.2 = r2.2.
Proof.
  intros [Hc Hs Hm] Hr Hq. cbv zeta. unfold effective_quiet in Hq.
  pose proof (observed_count s1 i1) as Ho1. pose proof (observed_count s2 i2) as Ho2.
  unfold _negotiate_should_allow_prefill_pure. fold (count_of s1) (count_of s2). rewrite Hr.
  assert ((match s1 with Some _ => WaitSuccess | None => NoWait end) =
          (match s2 with Some _ => WaitSuccess | None => NoWait end)) as Hws by (by destruct s1, s2).
  assert (count_of s1 = count_of s2) as Hc' by done.
  destruct (0 <? lmin _).
  - destruct (0 <? lmax _); [done|].
    set (o1 := local_observed s1 i1) in *. set (o2 := local_observed s2 i2) in *. clearbody o1 o2.
    set (p1 := coalesce_state o1 _ _ _). set (p2 := coalesce_state o2 _ _ _).
    assert (p1.2 = p2.2 ∧ delayed_count p1.1 = count_of s1 ∧ delayed_count p2.1 = count_of s2) as (Hp & Hd1 & Hd2).
    { unfold p1, p2, coalesce_state. clear -Hq Ho1 Ho2. destruct o1 as [a|], o2 as [b|]; simpl in *.
      - destruct (max_waiting_queue_len a <? _), (max_waiting_queue_len b <? _); simpl;
          unfold observe_waiting_queue_len; repeat (destruct (_ <=? _)); simpl; lia.
      - destruct (max_waiting_queue_len a <? _); simpl; unfold observe_waiting_queue_len; repeat (destruct (_ <=? _)); simpl; lia.
      - destruct (max_waiting_queue_len b <? _); simpl; unfold observe_waiting_queue_len; repeat (destruct (_ <=? _)); simpl; lia.
      - lia. }
    clear Hq. destruct p1 as [is1 q1], p2 as [is2 q2]. simpl in Hp, Hd1, Hd2. subst q2. rewrite Hws, Hc'.
    destruct (_ || _); [|done]. destruct (_ && negb _); [done|]. destruct (_ <? _); [|done].
    cbn [fst snd output_allow output_reason next_state]. split; [done|]. split; [done|]. split; [|done].
    simpl. f_equal. destruct (idle_trigger _ _ _ _ _); [congruence|].
    destruct o1, o2; simpl in *; lia.
  - destruct (_ =? 0); [done|]. destruct (0 <? lmax _); [done|]. rewrite Hc'. destruct (_ <? _); [|done].
    cbn [fst snd output_allow output_reason next_state]. split; [done|]. split; [done|]. split; [|done].
    simpl. f_equal. by destruct s1, s2.
Qed.

(** A rank: its state and what it contributes. *)
Record rank := mkRank { rk_state : option _State; rk_in : inputs }.

(** The gathered tensor: the row of one representative per replica. *)
Definition gather_rows (reps : list rank) : list row := (λ k, local_info cfg (rk_state k) (rk_in k)) <$> reps.

Lemma lmax_spec l : l ≠ [] → lmax l ∈ l ∧ ∀ x, x ∈ l → x ≤ lmax l.
Proof.
  destruct l as [|x l]; [done|]. intros _. simpl. induction l as [|y l [IH1 IH2]]; simpl.
  { split; [by left|]. intros z Hz. apply list_elem_of_singleton in Hz. lia. }
  split.
  - destruct (Z.max_spec y (foldr Z.max x l)) as [[_ ->]|[_ ->]]; [|by right; left].
    apply elem_of_cons in IH1 as [E1|E1]; [rewrite E1; by left|by right; right].
  - intros z Hz. rewrite !elem_of_cons in Hz. destruct Hz as [->|[->|Hz]]; [|lia|].
    + assert (x ≤ foldr Z.max x l) by (apply IH2; by left). lia.
    + assert (z ≤ foldr Z.max x l) by (apply IH2; by right). lia.
Qed.

Lemma lmin_spec l : l ≠ [] → lmin l ∈ l ∧ ∀ x, x ∈ l → lmin l ≤ x.
Proof.
  destruct l as [|x l]; [done|]. intros _. simpl. induction l as [|y l [IH1 IH2]]; simpl.
  { split; [by left|]. intros z Hz. apply list_elem_of_singleton in Hz. lia. }
  split.
  - destruct (Z.min_spec y (foldr Z.min x l)) as [[_ ->]|[_ ->]]; [by right; left|].
    apply elem_of_cons in IH1 as [E1|E1]; [rewrite E1; by left|by right; right].
  - intros z Hz. rewrite !elem_of_cons in Hz. destruct Hz as [->|[->|Hz]]; [|lia|].
    + assert (foldr Z.min x l ≤ x) by (apply IH2; by left). lia.
    + assert (foldr Z.min x l ≤ z) by (apply IH2; by right). lia.
Qed.

Lemma lmin_zero l : Forall (λ x, 0 ≤ x) l → 0 ∈ l → lmin l = 0.
Proof.
  intros Hf Hin. assert (l ≠ []) as Hne by (intros ->; by apply elem_of_nil in Hin).
  destruct (lmin_spec l Hne) as [H1 H2]. pose proof (H2 0 Hin). eapply Forall_forall in Hf; [|exact H1]. simpl in Hf. lia.
Qed.

(** The clock of a rank does not run backwards. *)
Definition clock_ok (k : rank) : Prop :=
  match rk_state k with Some s => last_queue_growth_time s ≤ now (rk_in k) | None => True end.

Lemma quiet_nonneg k : clock_ok k → 0 ≤ w_quiet_us (local_info cfg (rk_state k) (rk_in k)).
Proof.
  unfold clock_ok. destruct (rk_state k) as [s|]; simpl; [|done]. intros Hc.
  unfold observe_waiting_queue_len. destruct (_ <=? _); simpl; lia.
Qed.

Lemma quiet_of_step (reps : list rank) k (s : _State) :
  Forall clock_ok reps → Forall (λ j, in_step (rk_state k) (rk_state j)) reps → rk_state k = Some s →
  (∃ j, j ∈ reps ∧ i_waiting_queue_len (rk_in j) = i_waiting_queue_len (rk_in k)) →
  effective_quiet (rk_state k) (rk_in k) (gather_rows reps) =
    (if max_waiting_queue_len s <? lmax (w_waiting <$> gather_rows reps) then 0
     else lmin (w_quiet_us <$> gather_rows reps)).
Proof.
  intros Hck Hst Hk (j & Hj & Hwj). unfold effective_quiet. rewrite Hk. simpl.
  set (w := i_waiting_queue_len (rk_in k)) in *. set (gw := lmax _).
  assert (w ∈ w_waiting <$> gather_rows reps) as Hin.
  { unfold gather_rows. rewrite <- list_fmap_compose. apply list_elem_of_fmap. exists j. by split. }
  assert ((w_waiting <$> gather_rows reps) ≠ []) as Hne by (intros E0; rewrite E0 in Hin; by apply elem_of_nil in Hin).
  destruct (lmax_spec _ Hne) as [_ Hmax]. pose proof (Hmax w Hin) as Hwle. fold gw in Hwle.
  assert (max_waiting_queue_len (observe_waiting_queue_len s w (now (rk_in k))) = Z.max (max_waiting_queue_len s) w) as Eo.
  { unfold observe_waiting_queue_len. destruct (Z.leb_spec w (max_waiting_queue_len s)); simpl; lia. }
  rewrite Eo. destruct (Z.ltb_spec (max_waiting_queue_len s) gw) as [Hlt|Hge];
    destruct (Z.ltb_spec (Z.max (max_waiting_queue_len s) w) gw) as [H1|H1]; try done; [|lia].
  apply lmin_zero.
  - apply Forall_forall. intros x Hx. unfold gather_rows in Hx. rewrite <- list_fmap_compose in Hx.
    apply list_elem_of_fmap in Hx as (y & -> & Hy). simpl. apply quiet_nonneg. by eapply Forall_forall in Hck.
  - unfold gather_rows. rewrite <- list_fmap_compose. apply list_elem_of_fmap. exists j. split; [|done]. simpl.
    eapply Forall_forall in Hst; [|exact Hj]. destruct Hst as [_ _ Hm]. rewrite Hk in Hm.
    destruct (rk_state j) as [sj|]; [|done]. simpl in *. injection Hm as Hm.
    unfold observe_waiting_queue_len. rewrite Hwj. destruct (Z.leb_spec w (max_waiting_queue_len sj)); simpl; lia.
Qed.

(** Ranks whose wait states are in step (same count, same high-watermark of
    the queue) decide alike although their clocks and queues differ: same
    verdict, same reason, same count of delayed passes afterwards. *)
Theorem ranks_agree (skip : bool) (reps : list rank) (a b : rank) :
  Forall clock_ok reps →
  Forall (λ j, in_step (rk_state a) (rk_state j)) (b :: reps) →
  i_max_running_requests (rk_in a) = i_max_running_requests (rk_in b) →
  (∃ j, j ∈ reps ∧ i_waiting_queue_len (rk_in j) = i_waiting_queue_len (rk_in a)) →
  (∃ j, j ∈ reps ∧ i_waiting_queue_len (rk_in j) = i_waiting_queue_len (rk_in b)) →
  let ra := _negotiate_should_allow_prefill_pure cfg skip (rk_state a) (rk_in a) (gather_rows reps) in
  let rb := _negotiate_should_allow_prefill_pure cfg skip (rk_state b) (rk_in b) (gather_rows reps) in
  output_allow ra.1 = output_allow rb.1 ∧ output_reason ra.1 = output_reason rb.1 ∧
  count_of (next_state ra.1) = count_of (next_state rb.1) ∧ ra.2 = rb.2.
Proof.
  intros Hck Hst Hr Ha Hb. apply Forall_cons in Hst as [Hab Hst]. apply decision_agrees; [done|done|].
  pose proof Hab as [Hc Hs Hm]. destruct (rk_state a) as [sa|] eqn:Ea, (rk_state b) as [sb|] eqn:Eb; try done.
  rewrite <- Ea, <- Eb. rewrite (quiet_of_step reps a sa), (quiet_of_step reps b sb); try done.
  - simpl in Hm. injection Hm as ->. done.
  - rewrite Eb. eapply Forall_impl; [exact Hst|]. intros j [Hc' Hs' Hm']. split; congruence.
  - by rewrite Ea.
Qed.
End bounded.

(** ** Witnesses, and a pass on which ranks disagree *)

Definition demo_cfg : delayer_cfg :=
  mkDelayerCfg 30 None None 5000 true 50 10 500 32 None 2 true.

Definition demo_in (running bs waiting t : Z) : inputs := mkInputs true (1 # 2) running bs 16 waiting t t.

Lemma delay_is_bounded_witness :
  true ∈ verdicts demo_cfg delayer_init
           (replicate 30 (demo_in 10 8 3 0, gather_rows demo_cfg [mkRank None (demo_in 10 8 3 0)])).
Proof. apply delay_is_bounded; [done|done|by vm_compute]. Defined.

Lemma ranks_agree_witness :
  let s t := Some (mkDState 3 0 2 t) in
  let a := mkRank (s 100) (demo_in 0 8 5 20000) in
  let b := mkRank (s 120) (demo_in 0 8 3 20100) in
  output_allow (_negotiate_should_allow_prefill_pure demo_cfg false (rk_state a) (rk_in a) (gather_rows demo_cfg [a; b])).1
  = output_allow (_negotiate_should_allow_prefill_pure demo_cfg false (rk_state b) (rk_in b) (gather_rows demo_cfg [a; b])).1.
Proof.
  cbv zeta. set (a := mkRank _ (demo_in 0 8 5 20000)). set (b := mkRank _ (demo_in 0 8 3 20100)).
  assert (Forall clock_ok [a; b]) as Hc.
  { apply Forall_cons. split; [unfold clock_ok; simpl; lia|]. apply Forall_singleton. unfold clock_ok. simpl. lia. }
  assert (Forall (λ j, in_step (rk_state a) (rk_state j)) [b; a; b]) as Hs.
  { apply Forall_forall. intros j Hj. rewrite !elem_of_cons in Hj.
    destruct Hj as [->|[->|[->|Hj]]]; [by split..|by apply elem_of_nil in Hj]. }
  apply (ranks_agree demo_cfg false [a; b] a b Hc Hs eq_refl); [exists a; split; [by left|done]|].
  exists b. split; [by right; left|done].
Defined.

(** One pass of two ranks, each representing its replica. *)
Definition two_ranks (d1 d2 : PrefillDelayer) (i1 i2 : inputs) : bool * bool * PrefillDelayer * PrefillDelayer :=
  let rows := gather_rows demo_cfg [mkRank (_curr_state d1) i1; mkRank (_curr_state d2) i2] in
  let '(o1, d1) := _negotiate_should_allow_prefill demo_cfg d1 i1 rows in
  let '(o2, d2) := _negotiate_should_allow_prefill demo_cfg d2 i2 rows in
  (output_allow o1, output_allow o2, d1, d2).

Fixpoint two_rank_passes (d1 d2 : PrefillDelayer) (ps : list (inputs * inputs)) : list (bool * bool) :=
  match ps with
  | [] => []
  | (i1, i2) :: rest =>
      let '(b1, b2, d1, d2) := two_ranks d1 d2 i1 i2 in (b1, b2) :: two_rank_passes d1 d2 rest
  end.

(** Two replicas can decide differently on the same gathered tensor.  While
    decodes run, a delay keeps each rank's own high-watermark of the queue (5
    and 3 here); when the engine then becomes idle, only the second rank sees
    the global queue above its own mark and starts the quiet window again: the
    first rank prefills, the second waits. *)
Theorem replicas_disagree_after_decode :
  two_rank_passes delayer_init delayer_init
    [(demo_in 10 8 5 0, demo_in 10 8 3 0);
     (demo_in 10 8 5 1000, demo_in 10 8 3 1000);
     (demo_in 10 8 5 2000, demo_in 10 8 3 2000);
     (demo_in 0 8 5 15000, demo_in 0 8 3 15000)]
  = [(true, true); (false, false); (false, false); (true, false)].
Proof. by vm_compute. Qed.
