(* ===== verification/DfsWeight.v ===== *)
(** * Depth-first order of waiting requests ([base_prefix_cache.py], [_dfs_weight_order])

    Requests are ordered by a walk over the prefix tree that visits heavier
    subtrees first.  The code runs two loops over an explicit stack with a
    dictionary of weights; the reference is the recursion they implement. *)
From S2P Require Import Prelude PySort.

(** A tree of cache nodes, children in the order of their dictionary. *)
#[warnings="-register-all"]
Inductive tree := Node (id : nat) (kids : list tree).

Definition tid (t : tree) : nat := match t with Node i _ => i end.
Definition tkids (t : tree) : list tree := match t with Node _ l => l end.

Section tree_ind.
Context (P : tree → Prop) (HP : ∀ i l, Forall P l → P (Node i l)).
Fixpoint tree_ind' (t : tree) : P t :=
  match t with
  | Node i l => HP i l ((fix go (l : list tree) : Forall P l :=
                           match l with [] => Forall_nil_2 P | t :: l => Forall_cons_2 P t l (tree_ind' t) (go l) end) l)
  end.
End tree_ind.

Fixpoint tsize (t : tree) : nat := match t with Node _ l => S (list_sum (tsize <$> l)) end.
Fixpoint tids (t : tree) : list nat := match t with Node i l => mjoin (tids <$> l) ++ [i] end.

(** ** The code *)

(** [last_node_to_indices.setdefault(node, []).append(index)]. *)
Definition add_index (m : gmap nat (list nat)) (ix : nat * nat) : gmap nat (list nat) :=
  <[ ix.2 := default [] (m !! ix.2) ++ [ix.1] ]> m.

Definition last_node_to_indices (handles : list nat) : gmap nat (list nat) :=
  foldl add_index ∅ (imap pair handles).

(** The first loop: weights in post-order.  The head of the list is the top of
    the stack. *)
Fixpoint weight_loop (fuel : nat) (stack : list (tree * bool)) (w : gmap nat Z) : gmap nat Z :=
  match fuel, stack with
  | S fuel, (t, true) :: stack =>
      let weight := default 0 (w !! tid t) + zsum ((λ c, default 0 (w !! tid c)) <$> tkids t) in
      weight_loop fuel stack (<[ tid t := weight ]> w)
  | S fuel, (t, false) :: stack =>
      weight_loop fuel (((λ c, (c, false)) <$> tkids t) ++ (t, true) :: stack) w
  | _, _ => w
  end.

(** The second loop: children by descending weight, a node's own indices after
    its subtrees. *)
Fixpoint order_loop (fuel : nat) (w : gmap nat Z) (ix : gmap nat (list nat)) (stack : list (tree * bool))
    (order : list nat) : list nat :=
  match fuel, stack with
  | S fuel, (t, true) :: stack => order_loop fuel w ix stack (order ++ default [] (ix !! tid t))
  | S fuel, (t, false) :: stack =>
      let children := py_sort Z.leb (λ c, - default 0 (w !! tid c)) (tkids t) in
      order_loop fuel w ix (((λ c, (c, false)) <$> children) ++ (t, true) :: stack) order
  | _, _ => order
  end.

Definition _dfs_weight_order (root : tree) (handles : list nat) : list nat :=
  let ix := last_node_to_indices handles in
  let w := weight_loop (S (2 * tsize root)) [(root, false)] ((λ l : list nat, zlen l) <$> ix) in
  order_loop (S (2 * tsize root)) w ix [(root, false)] [].

(** ** The reference *)

Section reference.
Context (ix : gmap nat (list nat)).

(** Requests in a subtree. *)
Fixpoint subtree_weight (t : tree) : Z :=
  match t with Node i l => zlen (default [] (ix !! i)) + zsum (subtree_weight <$> l) end.

Fixpoint subtree_order (t : tree) : list nat :=
  match t with
  | Node i l =>
      mjoin (snd <$> py_sort Z.leb (λ p, - p.1) ((λ c, (subtree_weight c, subtree_order c)) <$> l))
      ++ default [] (ix !! i)
  end.
End reference.

(** ** The loops implement the recursion *)

Lemma list_sum_perm (l l' : list nat) : l ≡ₚ l' → list_sum l = list_sum l'.
Proof. induction 1; simpl in *; lia. Qed.

Lemma tid_in t : tid t ∈ tids t.
Proof. destruct t as [i l]. simpl. apply elem_of_app. right. by left. Qed.

Lemma tids_sub t c x : c ∈ tkids t → x ∈ tids c → x ∈ tids t.
Proof.
  destruct t as [i l]. simpl. intros Hc Hx. apply elem_of_app. left. apply list_elem_of_join.
  exists (tids c). split; [done|]. apply list_elem_of_fmap. eauto.
Qed.

Section loops.
Context (ix : gmap nat (list nat)).

Definition own (i : nat) : Z := zlen (default [] (ix !! i)).

(** [w] has the final weights of the nodes of [t]. *)
Definition weighted (t : tree) (w : gmap nat Z) : Prop :=
  default 0 (w !! tid t) = subtree_weight ix t.
Fixpoint all_weighted (t : tree) (w : gmap nat Z) : Prop :=
  weighted t w ∧ match t with Node _ l => foldr and True ((λ c, all_weighted c w) <$> l) end.

Lemma all_weighted_node t w :
  all_weighted t w ↔ weighted t w ∧ Forall (λ c, all_weighted c w) (tkids t).
Proof.
  destruct t as [i l]. simpl. apply and_iff_compat_l. induction l as [|c l IH]; simpl; [done|]. by rewrite Forall_cons, IH.
Qed.

Lemma all_weighted_ext t w w' :
  (∀ i, i ∈ tids t → w' !! i = w !! i) → all_weighted t w → all_weighted t w'.
Proof.
  revert w w'. induction t as [i l IH] using tree_ind'. intros w w' He. rewrite !all_weighted_node. intros [Hw Hl]. split.
  - unfold weighted in *. rewrite He; [done|apply tid_in].
  - simpl in *. rewrite Forall_forall in *. intros c Hc. eapply IH; [done| |by apply Hl].
    intros j Hj. apply He. by eapply (tids_sub (Node i l)).
Qed.

(** The first loop on one subtree: it consumes two units per node, writes the
    weights of that subtree and touches nothing else. *)
Definition weighs (t : tree) : Prop :=
  NoDup (tids t) → ∀ w, (∀ i, i ∈ tids t → default 0 (w !! i) = own i) →
  ∃ w', (∀ fuel rest, weight_loop (2 * tsize t + fuel) ((t, false) :: rest) w = weight_loop fuel rest w') ∧
        all_weighted t w' ∧ (∀ i, i ∉ tids t → w' !! i = w !! i).

Lemma weigh_forest l : Forall weighs l →
  NoDup (mjoin (tids <$> l)) → ∀ w, (∀ i, i ∈ mjoin (tids <$> l) → default 0 (w !! i) = own i) →
  ∃ w', (∀ fuel rest, weight_loop (2 * list_sum (tsize <$> l) + fuel) (((λ c, (c, false)) <$> l) ++ rest) w
                      = weight_loop fuel rest w') ∧
        Forall (λ c, all_weighted c w') l ∧ (∀ i, i ∉ mjoin (tids <$> l) → w' !! i = w !! i).
Proof.
  induction 1 as [|t l Ht Hl IH]; intros Hnd w Hw; [by exists w|].
  simpl in Hnd, Hw. apply NoDup_app in Hnd as (Hnt & Hdis & Hnl).
  destruct (Ht Hnt w) as (w1 & Hrun1 & Hall1 & Hout1). { intros i Hi. apply Hw. apply elem_of_app. by left. }
  destruct (IH Hnl w1) as (w2 & Hrun2 & Hall2 & Hout2).
  { intros i Hi. rewrite Hout1 by (intros ?; by eapply Hdis). apply Hw. apply elem_of_app. by right. }
  exists w2. split; [|split].
  - intros fuel rest. rewrite !fmap_cons, <- app_comm_cons.
    replace (2 * list_sum (tsize t :: (tsize <$> l)) + fuel)%nat
      with (2 * tsize t + (2 * list_sum (tsize <$> l) + fuel))%nat by (simpl; lia).
    by rewrite Hrun1, Hrun2.
  - constructor; [|done]. eapply all_weighted_ext; [|exact Hall1]. intros i Hi. apply Hout2. intros ?. by eapply Hdis.
  - simpl. intros i Hi. rewrite elem_of_app in Hi. rewrite Hout2, Hout1 by tauto. done.
Qed.

Lemma all_weighted_sum l w : Forall (λ c, all_weighted c w) l →
  zsum ((λ c, default 0 (w !! tid c)) <$> l) = zsum (subtree_weight ix <$> l).
Proof.
  induction 1 as [|c l Hc _ IH]; [done|]. apply all_weighted_node in Hc as [Hc _]. unfold weighted in Hc.
  rewrite !fmap_cons. unfold zsum in *. cbn [foldr]. by rewrite Hc, IH.
Qed.

Lemma weighs_tree t : weighs t.
Proof.
  induction t as [i l IH] using tree_ind'. intros Hnd w Hw. simpl in Hnd, Hw.
  apply NoDup_app in Hnd as (Hnl & Hi & _).
  assert (i ∉ mjoin (tids <$> l)) as Hi'. { intros Hin. apply (Hi i Hin). by left. }
  destruct (weigh_forest l IH Hnl w) as (w1 & Hrun & Hall & Hout). { intros j Hj. apply Hw. apply elem_of_app. by left. }
  pose proof (all_weighted_sum l w1 Hall) as Hsum.
  exists (<[ i := default 0 (w1 !! i) + zsum ((λ c, default 0 (w1 !! tid c)) <$> l) ]> w1). split; [|split].
  - intros fuel rest. replace (2 * tsize (Node i l) + fuel)%nat
      with (S (2 * list_sum (tsize <$> l) + S fuel))%nat by (simpl; lia).
    cbn [weight_loop tkids]. rewrite Hrun. done.
  - apply all_weighted_node. split.
    + unfold weighted. simpl. rewrite lookup_insert_eq. simpl. rewrite Hsum, Hout by done.
      rewrite Hw by (apply elem_of_app; right; by left). done.
    + simpl. rewrite Forall_forall in *. intros c Hc. eapply all_weighted_ext; [|by apply Hall].
      intros j Hj. rewrite lookup_insert_ne; [done|]. intros <-. apply Hi'. apply list_elem_of_join.
      exists (tids c). split; [done|]. apply list_elem_of_fmap. eauto.
  - simpl. intros j Hj. rewrite elem_of_app, list_elem_of_singleton in Hj.
    rewrite lookup_insert_ne by (intros ->; tauto). apply Hout. tauto.
Qed.

(** The second loop on one subtree, with the weights in place. *)
Definition orders (w : gmap nat Z) (t : tree) : Prop :=
  all_weighted t w → ∀ fuel rest order,
  order_loop (2 * tsize t + fuel) w ix ((t, false) :: rest) order
  = order_loop fuel w ix rest (order ++ subtree_order ix t).

Lemma order_forest w l : Forall (orders w) l → Forall (λ c, all_weighted c w) l → ∀ fuel rest order,
  order_loop (2 * list_sum (tsize <$> l) + fuel) w ix (((λ c, (c, false)) <$> l) ++ rest) order
  = order_loop fuel w ix rest (order ++ mjoin (subtree_order ix <$> l)).
Proof.
  induction 1 as [|t l Ht Hl IH]; intros Hw fuel rest order; [by rewrite app_nil_r|].
  apply Forall_cons in Hw as [Hwt Hwl]. rewrite !fmap_cons, <- app_comm_cons.
  replace (2 * list_sum (tsize t :: (tsize <$> l)) + fuel)%nat
    with (2 * tsize t + (2 * list_sum (tsize <$> l) + fuel))%nat by (simpl; lia).
  rewrite (Ht Hwt), (IH Hwl). simpl. by rewrite app_assoc.
Qed.

Lemma sort_kids w l : Forall (λ c, all_weighted c w) l →
  snd <$> py_sort Z.leb (λ p : Z * list nat, - p.1) ((λ c, (subtree_weight ix c, subtree_order ix c)) <$> l)
  = subtree_order ix <$> py_sort Z.leb (λ c, - default 0 (w !! tid c)) l.
Proof.
  intros Hw. rewrite py_sort_fmap, <- list_fmap_compose. apply (f_equal (fmap _)). apply py_sort_ext.
  intros c Hc. rewrite Forall_forall in Hw. specialize (Hw c Hc). apply all_weighted_node in Hw as [Hw _].
  unfold weighted in Hw. simpl. lia.
Qed.

Lemma orders_tree w t : orders w t.
Proof.
  induction t as [i l IH] using tree_ind'. intros Hw fuel rest order. apply all_weighted_node in Hw as [_ Hw].
  simpl in Hw. replace (2 * tsize (Node i l) + fuel)%nat
    with (S (2 * list_sum (tsize <$> l) + S fuel))%nat by (simpl; lia).
  cbn [order_loop tkids tid subtree_order]. rewrite (sort_kids w) by done.
  set (s := py_sort Z.leb (λ c, - default 0 (w !! tid c)) l).
  assert (s ≡ₚ l) as Hs by apply py_sort_perm.
  replace (list_sum (tsize <$> l)) with (list_sum (tsize <$> s)).
  2:{ apply list_sum_perm. by rewrite Hs. }
  rewrite order_forest by (by rewrite Hs). simpl. by rewrite app_assoc.
Qed.
End loops.

(** ** The indices *)

(** A node's list has exactly the indices of its requests, each once. *)
Lemma last_node_to_indices_spec handles i :
  (∀ k, k ∈ default [] (last_node_to_indices handles !! i) ↔ handles !! k = Some i) ∧
  NoDup (default [] (last_node_to_indices handles !! i)).
Proof.
  unfold last_node_to_indices. revert i. induction handles as [|h hs IH] using rev_ind; intros i.
  - simpl. rewrite lookup_empty. split; [|constructor]. intros k. split; [by intros ?%elem_of_nil|done].
  - rewrite imap_app, foldl_app. simpl. unfold add_index at 1 3. simpl. rewrite Nat.add_0_r.
    destruct (IH i) as [IHi IHd]. destruct (decide (i = h)) as [->|Hne].
    + rewrite lookup_insert_eq. simpl. split.
      * intros k. rewrite elem_of_app, IHi, list_elem_of_singleton. rewrite lookup_app_Some, list_lookup_singleton_Some.
        split; [intros [?| ->]; [by left|right; split; [lia|split; [lia|done]]]|intros [?|(? & ? & _)]; [by left|right; lia]].
      * apply NoDup_app. split; [done|]. split; [|apply NoDup_singleton].
        intros k Hk%IHi Hn%list_elem_of_singleton. subst k. apply lookup_lt_Some in Hk. lia.
    + rewrite lookup_insert_ne by done. split; [|done]. intros k. rewrite IHi, lookup_app_Some, list_lookup_singleton_Some.
      split; [by left|intros [?|(_ & _ & ?)]; [done|congruence]].
Qed.

Lemma subtree_order_perm ix t :
  subtree_order ix t ≡ₚ mjoin ((λ i, default [] (ix !! i)) <$> tids t).
Proof.
  induction t as [i l IH] using tree_ind'. cbn [subtree_order tids]. rewrite fmap_app, join_app. simpl. rewrite app_nil_r.
  apply Permutation_app_tail. rewrite py_sort_perm, <- list_fmap_compose.
  induction IH as [|c l Hc _ IHl]; [done|]. simpl in *. rewrite fmap_app, join_app, Hc. by apply Permutation_app_head.
Qed.

Lemma dfs_loops_reference root handles : NoDup (tids root) →
  _dfs_weight_order root handles = subtree_order (last_node_to_indices handles) root.
Proof.
  intros Hnd. unfold _dfs_weight_order. set (ix := last_node_to_indices handles).
  destruct (weighs_tree ix root Hnd ((λ l : list nat, zlen l) <$> ix)) as (w & Hrun & Hw & _).
  { intros i _. rewrite lookup_fmap. unfold own. by destruct (ix !! i). }
  replace (S (2 * tsize root)) with (2 * tsize root + 1)%nat by lia.
  rewrite (Hrun 1%nat []). change (weight_loop 1 [] w) with w. by rewrite (orders_tree ix w root Hw 1%nat [] []).
Qed.

(** The two stack loops compute the recursive weighted walk: for a tree with distinct nodes the order is every child's order, children by descending number of requests below them and ties in dictionary order, then the node's own requests in queue order. *)
Theorem dfs_weight_order_recursive root handles : NoDup (tids root) →
  _dfs_weight_order root handles = subtree_order (last_node_to_indices handles) root.
Proof. apply dfs_loops_reference. Qed.

Lemma mjoin_indices_NoDup handles ids : NoDup ids →
  NoDup (mjoin ((λ i, default [] (last_node_to_indices handles !! i)) <$> ids)).
Proof.
  induction 1 as [|i ids Hi _ IH]; simpl; [constructor|]. apply NoDup_app.
  split; [apply last_node_to_indices_spec|]. split; [|done].
  intros k Hk%last_node_to_indices_spec (l & Hkl & Hl)%list_elem_of_join.
  apply list_elem_of_fmap in Hl as (j & -> & Hj). apply last_node_to_indices_spec in Hkl. congruence.
Qed.

(** The request at index [k] is below the root. *)
Definition in_tree (root : tree) (handles : list nat) (k : nat) : Prop :=
  match handles !! k with Some i => i ∈ tids root | None => False end.
#[export] Instance in_tree_dec root handles k : Decision (in_tree root handles k).
Proof. unfold in_tree. destruct (handles !! k); apply _. Defined.

(** What the order holds. *)
Lemma dfs_order_in_tree root handles : NoDup (tids root) →
  _dfs_weight_order root handles
  ≡ₚ filter (in_tree root handles) (seq 0 (length handles)).
Proof.
  intros Hnd. rewrite dfs_loops_reference, subtree_order_perm by done.
  apply NoDup_Permutation; [by apply mjoin_indices_NoDup|apply NoDup_filter, NoDup_seq|].
  intros k. rewrite list_elem_of_filter, elem_of_seq, list_elem_of_join. split.
  - intros (l & Hk & Hl). apply list_elem_of_fmap in Hl as (i & -> & Hi). apply last_node_to_indices_spec in Hk.
    unfold in_tree. rewrite Hk. split; [done|]. apply lookup_lt_Some in Hk. lia.
  - unfold in_tree. intros [Hi _]. destruct (handles !! k) as [i|] eqn:Hk; [|done]. exists (default [] (last_node_to_indices handles !! i)).
    split; [by apply last_node_to_indices_spec|]. apply list_elem_of_fmap. eauto.
Qed.

(** The order holds each index whose node is in the tree exactly once and no other index, so the queue rebuilt from it keeps precisely the requests whose handle the tree still has. *)
Theorem dfs_weight_order_indices root handles : NoDup (tids root) →
  _dfs_weight_order root handles
  ≡ₚ filter (in_tree root handles) (seq 0 (length handles)).
Proof. apply dfs_order_in_tree. Qed.

(** A root with two children; three requests under the second, one under the
    first, one on a node that left the tree. *)
Definition sample_tree : tree := Node 0 [Node 1 []; Node 2 [Node 3 []]].

Lemma dfs_weight_order_recursive_witness :
  NoDup (tids sample_tree) ∧ _dfs_weight_order sample_tree [1; 3; 9; 2; 3]%nat = [1; 4; 3; 0]%nat.
Proof.
  assert (NoDup (tids sample_tree)) as H by (by vm_compute; repeat constructor; set_solver).
  split; [exact H|]. rewrite (dfs_weight_order_recursive sample_tree _ H). reflexivity.
Defined.

Lemma dfs_weight_order_indices_witness :
  NoDup (tids sample_tree) ∧ _dfs_weight_order sample_tree [1; 3; 9; 2; 3]%nat ≡ₚ [0; 1; 3; 4]%nat.
Proof.
  assert (NoDup (tids sample_tree)) as H by (by vm_compute; repeat constructor; set_solver).
  split; [exact H|]. exact (dfs_weight_order_indices sample_tree [1; 3; 9; 2; 3]%nat H).
Defined.
