(* ===== verification/SchedulePolicy.v ===== *)
(** * The order of the waiting queue ([managers/schedule_policy.py], [SchedulePolicy])

    Before each prefill pass the scheduler sorts its waiting queue by the
    configured policy.  Cache-aware policies first match every request against
    the prefix cache ([match_kv_cache] of [mem_cache/common.py]) and against a
    second, simulated radix tree that holds the prompts seen earlier in the same
    queue, so that of several requests with one long prompt only the first goes
    ahead.  The prefix cache is behind the record [tree_cache]; the simulated
    tree is the radix tree of RadixCache.v.  Float keys are exact rationals and
    the two infinities. *)
From Stdlib Require Import QArith.
From S2P Require Import Prelude RadixKey EvictPolicy RadixCache RadixInv RadixOps RadixInsert RadixSpec RadixTheorems PySort.
Open Scope Z_scope.

(** ** Requests *)

(** What [match_kv_cache] writes into a request. *)
Record Hit := mkHit {
  r_prefix_len : Z;
  r_last_node : nat;
  r_last_host_node : nat;
  r_best_match_node : nat;
  r_host_hit_length : Z;
  r_swa_host_hit_length : Z;
  r_mamba_host_hit_length : Z;
  num_matched_prefix_tokens : Z;
  r_swa_branching_seqlen : option Z;
  r_mamba_branching_seqlen : option Z;
  r_cache_protected_len : Z
}.

(** The attributes of [Req] the policies read. *)
Record Req := mkReq {
  rid : string;
  origin_input_ids : list Z;
  output_ids : list Z;
  full_untruncated_len : Z;        (* len(full_untruncated_fill_ids) *)
  r_extra_key : option string;
  r_cache_salt : option string;
  routing_key : option string;
  r_priority : option Z;
  max_new_tokens : Z;
  wait_queue_entry_time : Z;
  arrival_processed_tokens : Z;
  separate_context_encoding : bool; (* dllm_config set and requires it *)
  dllm_block_offset : Z;
  return_logprob : bool;
  logprob_start_len : Z;
  pd_hidden_max_prefix_len : option Z;
  hit : Hit
}.

Definition set_hit (h : Hit) (r : Req) : Req :=
  mkReq (rid r) (origin_input_ids r) (output_ids r) (full_untruncated_len r) (r_extra_key r)
    (r_cache_salt r) (routing_key r) (r_priority r) (max_new_tokens r) (wait_queue_entry_time r)
    (arrival_processed_tokens r) (separate_context_encoding r) (dllm_block_offset r)
    (return_logprob r) (logprob_start_len r) (pd_hidden_max_prefix_len r) h.

Definition all_ids (r : Req) : list Z := origin_input_ids r ++ output_ids r.

Definition _compute_max_prefix_len (r : Req) (input_len : Z) : Z :=
  let m := input_len - 1 in
  let m := if separate_context_encoding r then Z.min m (dllm_block_offset r) else m in
  let m := if return_logprob r && (0 <=? logprob_start_len r) then Z.min m (logprob_start_len r) else m in
  let m := match pd_hidden_max_prefix_len r with Some l => Z.min m l | None => m end in
  Z.max m 0.

(** ** The prefix cache as the policies use it *)

Record match_result := mkResult {
  mr_device_prefix_len : Z;
  mr_last_device_node : nat;
  mr_last_host_node : nat;
  mr_best_match_node : nat;
  mr_host_hit_length : Z;
  mr_swa_host_hit_length : Z;
  mr_mamba_host_hit_length : Z;
  mr_swa_branching_seqlen : option Z;
  mr_mamba_branching_seqlen : option Z;
  mr_cache_protected_len : option Z
}.

Record tree_cache (T : Type) := mkTreeCache {
  tc_disable : bool;
  supports_fast_match_prefix : bool;
  supports_prefix_sharing : bool;
  swa_reprefill_tail_tokens : option Req → Z;
  root_node_handle : option string → T → nat;
  tc_match_prefix : RadixKey → bool → bool → T → result (match_result * T);
  tc_touch_prefix : RadixKey → T → result T;
  dfs_weight_order : list nat → T → list nat
}.
Arguments tc_disable {T} _.
Arguments supports_fast_match_prefix {T} _.
Arguments supports_prefix_sharing {T} _.
Arguments swa_reprefill_tail_tokens {T} _ _.
Arguments root_node_handle {T} _ _ _.
Arguments tc_match_prefix {T} _ _ _ _ _.
Arguments tc_touch_prefix {T} _ _ _.
Arguments dfs_weight_order {T} _ _ _.

(** Settings read from the environment and the runtime context. *)
Record settings := mkSettings {
  force_miss : bool;               (* SGLANG_RADIX_FORCE_MISS *)
  waiting_prefix_refresh : bool;   (* SGLANG_ENABLE_WAITING_PREFIX_REFRESH *)
  decode_mode : bool;              (* disaggregation_mode == "decode" *)
  radix_eviction_policy : string;
  CHECK_THRESHOLD : Z;             (* IN_BATCH_PREFIX_CACHING_CHECK_THRESHOLD *)
  DEPRIORITIZE_THRESHOLD : Z       (* IN_BATCH_PREFIX_CACHING_DEPRIORITIZE_THRESHOLD *)
}.

Definition WAITING_QUEUE_PREFIX_MATCH_MAX : Z := 128.
Definition WAITING_PREFIX_REFRESH_INTERVAL : Z := 32.

Definition zero_match_result {T} (tc : tree_cache T) (mr : match_result) (extra : option string) (t : T) :
    match_result :=
  if negb (supports_prefix_sharing tc) then mr
  else
    let root := root_node_handle tc extra t in
    mkResult 0 root root root 0 0 0 None (mr_mamba_branching_seqlen mr) (mr_cache_protected_len mr).

(** A Python number is true unless it is zero. *)
Definition truthy (z : Z) : bool := negb (z =? 0).

Definition _req_radix_key {T} (tc : tree_cache T) (r : Req) (ids : list Z) (max_prefix_len : option Z) : RadixKey :=
  let reprefill_tail := swa_reprefill_tail_tokens tc (Some r) in
  let key_limit := if truthy reprefill_tail then Some (Z.max 0 (zlen ids - reprefill_tail)) else None in
  let key_limit := match max_prefix_len with
                   | Some m => Some (match key_limit with None => m | Some l => Z.min l m end)
                   | None => key_limit
                   end in
  RadixKey_init ids (r_extra_key r) false key_limit (r_cache_salt r).

Definition touch_waiting_prefix {T} (tc : tree_cache T) (r : Req) (t : T) : result T :=
  tc_touch_prefix tc (_req_radix_key tc r (all_ids r) None) t.

Definition match_kv_cache {T} (tc : tree_cache T) (st : settings) (token_ids : option (list Z))
    (cow_mamba : bool) (max_prefix_len : option Z) (return_full_match : bool) (r : Req) (t : T) :
    result (match_result * Req * T) :=
  let ids := default (all_ids r) token_ids in
  let! (mr, t) := tc_match_prefix tc (_req_radix_key tc r ids max_prefix_len)
                    (return_full_match || truthy (swa_reprefill_tail_tokens tc None)) cow_mamba t in
  let mr := if force_miss st then zero_match_result tc mr (r_extra_key r) t else mr in
  let max_len := _compute_max_prefix_len r (zlen ids) in
  let h := mkHit (mr_device_prefix_len mr) (mr_last_device_node mr) (mr_last_host_node mr)
             (mr_best_match_node mr) (mr_host_hit_length mr) (mr_swa_host_hit_length mr)
             (mr_mamba_host_hit_length mr)
             (Z.min (mr_device_prefix_len mr + mr_host_hit_length mr) max_len)
             (mr_swa_branching_seqlen mr)
             (match mr_mamba_branching_seqlen mr with Some x => Some x | None => r_mamba_branching_seqlen (hit r) end)
             (default (r_cache_protected_len (hit r)) (mr_cache_protected_len mr)) in
  Ok (mr, set_hit h r, t).

(** ** Policies *)

Inductive CacheAwarePolicy := LPM | DFS_WEIGHT | HRRN | SHORTEST_PREFILL_FIRST.
Inductive CacheAgnosticPolicy := FCFS | LOF | RANDOM | ROUTING_KEY.
Inductive Policy := Aware (p : CacheAwarePolicy) | Agnostic (p : CacheAgnosticPolicy).

#[export] Instance CacheAwarePolicy_dec : EqDecision CacheAwarePolicy.
Proof. solve_decision. Defined.
#[export] Instance CacheAgnosticPolicy_dec : EqDecision CacheAgnosticPolicy.
Proof. solve_decision. Defined.
#[export] Instance Policy_dec : EqDecision Policy.
Proof. solve_decision. Defined.

(** [CacheAwarePolicy(policy)] and [CacheAgnosticPolicy(policy)]. *)
Definition CacheAwarePolicy_of (s : string) : option CacheAwarePolicy :=
  if decide (s = "lpm") then Some LPM
  else if decide (s = "dfs-weight") then Some DFS_WEIGHT
  else if decide (s = "hrrn") then Some HRRN
  else if decide (s = "shortest-prefill-first") then Some SHORTEST_PREFILL_FIRST
  else None.

Definition CacheAgnosticPolicy_of (s : string) : option CacheAgnosticPolicy :=
  if decide (s = "fcfs") then Some FCFS
  else if decide (s = "lof") then Some LOF
  else if decide (s = "random") then Some RANDOM
  else if decide (s = "routing-key") then Some ROUTING_KEY
  else None.

Inductive policy_error :=
  | NotAMember                     (* raised by the enum *)
  | RequiresPrefixCaching
  | UnknownSchedulePolicy.

(** The [try] block, then its handler: both raise [ValueError]. *)
Definition validate_try (policy : string) (disabled : bool) : policy_error + Policy :=
  match CacheAwarePolicy_of policy with
  | None => inl NotAMember
  | Some p =>
      if disabled then
        match p with SHORTEST_PREFILL_FIRST => inl RequiresPrefixCaching | _ => inr (Agnostic FCFS) end
      else inr (Aware p)
  end.

Definition _validate_and_adjust_policy (policy : string) (disabled : bool) : policy_error + Policy :=
  match validate_try policy disabled with
  | inr p => inr p
  | inl _ => match CacheAgnosticPolicy_of policy with
             | Some p => inr (Agnostic p)
             | None => inl UnknownSchedulePolicy
             end
  end.

(** The state of a [SchedulePolicy]. *)
Record SchedulePolicy := mkPolicy {
  policy : Policy;
  enable_priority_scheduling : bool;
  priority_sign : Z;
  _shortest_prefill_calls : Z;
  _waiting_prefix_refresh_calls : Z;
  waiting_queue_radix_tree : RadixCache
}.

Definition set_counters (a b : Z) (c : RadixCache) (s : SchedulePolicy) : SchedulePolicy :=
  mkPolicy (policy s) (enable_priority_scheduling s) (priority_sign s) a b c.

Definition _determine_active_policy (s : SchedulePolicy) (waiting_queue : list Req) : Policy :=
  if bool_decide (policy s = Aware LPM ∨ policy s = Aware HRRN)
     && (WAITING_QUEUE_PREFIX_MATCH_MAX <? zlen waiting_queue)
  then Agnostic FCFS else policy s.

Definition is_aware (p : Policy) : bool := match p with Aware _ => true | Agnostic _ => false end.

Definition waiting_queue_prefix_matched {T} (tc : tree_cache T) (s : SchedulePolicy) (waiting_queue : list Req) : bool :=
  is_aware (_determine_active_policy s waiting_queue) || supports_fast_match_prefix tc.

(** ** Sort keys *)

(** A number or one of the float infinities. *)
Inductive ext (K : Type) := NInf | Fin (k : K) | PInf.
Arguments NInf {K}.
Arguments Fin {K} k.
Arguments PInf {K}.

Definition ext_leb {K} (leb : K → K → bool) (a b : ext K) : bool :=
  match a, b with
  | NInf, _ | _, PInf => true
  | _, NInf | PInf, _ => false
  | Fin x, Fin y => leb x y
  end.

(** Strings compare by code points. *)
Fixpoint codes (s : string) : list Z :=
  match s with EmptyString => [] | String a s => Z.of_nat (Ascii.nat_of_ascii a) :: codes s end.
Definition str_leb (a b : string) : bool := lex_leb (codes a) (codes b).

#[export] Instance ext_leb_total {K} (leb : K → K → bool) `{!TotalLeb leb} : TotalLeb (ext_leb leb).
Proof.
  split.
  - intros [|x|] [|y|]; simpl; auto. apply leb_total; apply _.
  - intros [|x|] [|y|] [|z|]; simpl; auto; try done. by apply leb_trans.
Qed.

#[export] Instance str_leb_total : TotalLeb str_leb.
Proof. split; intros; unfold str_leb in *; [apply lex_leb_total|by eapply lex_leb_trans]. Qed.

#[export] Instance Qleb_total : TotalLeb Qle_bool.
Proof.
  split; intros; rewrite ?Qle_bool_iff in *.
  - destruct (Qlt_le_dec a b); [left; by apply Qlt_le_weak|by right].
  - by eapply Qle_trans.
Qed.

(** [list.sort] with a key function that may raise: the keys are computed
    first, and if one raises the list is left as it was. *)
Fixpoint map_keys {A K} (key : A → result K) (l : list A) : result (list (K * A)) :=
  match l with
  | [] => Ok []
  | x :: l => let! k := key x in let! l := map_keys key l in Ok ((k, x) :: l)
  end.
Definition try_sort {A K} (leb : K → K → bool) (key : A → result K) (l : list A) : result (list A) :=
  let! l := map_keys key l in Ok (snd <$> py_sort leb fst l).

(** ** The sorts *)

Definition priority_key (priority_sign : Z) (r : Req) : result Z :=
  match r_priority r with Some p => Ok (p * priority_sign) | None => Raise TypeError end.

Definition _sort_by_priority_and_fcfs (waiting_queue : list Req) (priority_sign : Z) : result (list Req) :=
  try_sort (pair_leb Z.leb Z.leb)
    (λ r, let! p := priority_key priority_sign r in Ok (p, wait_queue_entry_time r)) waiting_queue.

Definition _sort_by_longest_output (waiting_queue : list Req) (enable_priority_scheduling : bool)
    (priority_sign : Z) : result (list Req) :=
  if enable_priority_scheduling then
    try_sort (pair_leb Z.leb Z.leb)
      (λ r, let! p := priority_key priority_sign r in Ok (p, - max_new_tokens r)) waiting_queue
  else Ok (py_sort Z.leb (λ r, - max_new_tokens r) waiting_queue).

Definition longest_prefix_key (deprioritized : gset string) (r : Req) : ext Z :=
  if negb (bool_decide (rid r ∈ deprioritized)) then Fin (- num_matched_prefix_tokens (hit r)) else PInf.

Definition _sort_by_longest_prefix (waiting_queue : list Req) (deprioritized : gset string) : list Req :=
  py_sort (ext_leb Z.leb) (longest_prefix_key deprioritized) waiting_queue.

Definition _uncached_len (r : Req) : Z :=
  Z.max 0 (zlen (origin_input_ids r) - num_matched_prefix_tokens (hit r)).

Definition hrrn_key (deprioritized : gset string) (processed_tokens : Z) (r : Req) : ext Q * string :=
  if bool_decide (rid r ∈ deprioritized) then (PInf, rid r)
  else
    let uncached := _uncached_len r in
    if uncached <=? 0 then (NInf, rid r)
    else
      let waited_tokens := Z.max 0 (processed_tokens - arrival_processed_tokens r) in
      (Fin (- (inject_Z waited_tokens / inject_Z uncached))%Q, rid r).

Definition _sort_by_hrrn (waiting_queue : list Req) (deprioritized : gset string) (processed_tokens : Z) : list Req :=
  py_sort (pair_leb (ext_leb Qle_bool) str_leb) (hrrn_key deprioritized processed_tokens) waiting_queue.

Definition _shortest_prefill_work (r : Req) : Z :=
  Z.max 1 (zlen (origin_input_ids r) + zlen (output_ids r) - num_matched_prefix_tokens (hit r)).

Definition shortest_prefill_key (deprioritized : gset string) (r : Req) : bool * (Z * Z) :=
  (bool_decide (rid r ∈ deprioritized), (_shortest_prefill_work r, wait_queue_entry_time r)).

Definition _sort_by_shortest_prefill (waiting_queue : list Req) (deprioritized : gset string) : list Req :=
  py_sort (pair_leb bool_leb (pair_leb Z.leb Z.leb)) (shortest_prefill_key deprioritized) waiting_queue.

(** [[waiting_queue[index] for index in order]]. *)
Fixpoint pick_indices {A} (l : list A) (order : list nat) : result (list A) :=
  match order with
  | [] => Ok []
  | i :: order => match l !! i with
                  | Some x => let! rest := pick_indices l order in Ok (x :: rest)
                  | None => Raise IndexError
                  end
  end.

Definition _sort_by_dfs_weight {T} (tc : tree_cache T) (t : T) (waiting_queue : list Req) : result (list Req) :=
  pick_indices waiting_queue (dfs_weight_order tc ((λ r, r_last_node (hit r)) <$> waiting_queue) t).

(** [Counter(r.routing_key for r in running if r.routing_key)]. *)
Definition truthy_key (k : option string) : option string :=
  match k with Some "" => None | k => k end.
Definition count_key (m : gmap string Z) (k : option string) : gmap string Z :=
  match truthy_key k with Some k => <[ k := default 0 (m !! k) + 1 ]> m | None => m end.
Definition routing_key_counts (running : list (option string)) : gmap string Z := foldl count_key ∅ running.

Definition routing_sort_key (counts : gmap string Z) (r : Req) : Z * (Z * string) :=
  match truthy_key (routing_key r) with
  | Some key => match counts !! key with
                | Some count => (0, (- count, key))
                | None => (1, (0, key))
                end
  | None => (1, (0, ""))
  end.

(** [running] has the routing keys of the running batch. *)
Definition _sort_by_routing_key (waiting_queue : list Req) (running : list (option string)) : list Req :=
  let counts := routing_key_counts running in
  if bool_decide (counts = ∅) then waiting_queue
  else py_sort (pair_leb Z.leb (pair_leb Z.leb str_leb)) (routing_sort_key counts) waiting_queue.

(** ** The chunk limit of the shortest-prefill policy *)

Fixpoint reserve_loop (waiting_queue : list Req) (remaining budget page_size reserved : Z) : Z :=
  match waiting_queue with
  | [] => reserved
  | r :: l =>
      let work := _shortest_prefill_work r in
      let charge := - (- work / page_size) * page_size in
      if (remaining <=? work) || (budget - page_size <? reserved + charge) then reserved
      else reserve_loop l remaining budget page_size (reserved + charge)
  end.

Definition shortest_prefill_chunk_limit (s : SchedulePolicy) (chunked_req : Req) (waiting_queue : list Req)
    (budget page_size : Z) : option Z :=
  if negb (bool_decide (policy s = Aware SHORTEST_PREFILL_FIRST)) || (budget <? 2 * page_size) then None
  else
    let remaining := full_untruncated_len chunked_req - r_prefix_len (hit chunked_req) in
    let reserved := reserve_loop waiting_queue remaining budget page_size 0 in
    if reserved =? 0 then None else Some ((budget - reserved) / page_size * page_size).

(** ** Matching a queue *)

(** [RadixCache.create_simulated()]: one-token pages, caching on. *)
Definition simulated : cache_config := mkConfig false 1 false LRUStrategy.

(** The key of a request in the simulated tree. *)
Definition batch_key (r : Req) : RadixKey := RadixKey_init (all_ids r) (r_extra_key r) false None (r_cache_salt r).

Section passes.
Context {T : Type} (tc : tree_cache T) (st : settings) (clock : nat → Z).
(** [torch.empty(n)] and [random.shuffle]. *)
Context (empty : nat → list Z) (shuffle : list Req → list Req).

(** [for r in waiting_queue: match_kv_cache(r, self.tree_cache)]. *)
Fixpoint match_all (waiting_queue : list Req) (t : T) : result (list Req * T) :=
  match waiting_queue with
  | [] => Ok ([], t)
  | r :: l =>
      let! (_, r, t) := match_kv_cache tc st None false None false r t in
      let! (l, t) := match_all l t in
      Ok (r :: l, t)
  end.

(** The in-batch part of one iteration of [_compute_prefix_matches]. *)
Definition check_in_batch (r : Req) (deprioritized : gset string) (c : RadixCache) :
    result (gset string * RadixCache) :=
  if r_prefix_len (hit r) <=? CHECK_THRESHOLD st then
    let! (mr, c) := match_prefix clock simulated (batch_key r) c in
    let len := if force_miss st then 0 else device_prefix_len mr in
    if DEPRIORITIZE_THRESHOLD st <=? len then Ok ({[ rid r ]} ∪ deprioritized, c)
    else
      let! (_, c) := insert clock simulated (batch_key r) (Some (empty (length (all_ids r)))) None 0 c in
      Ok (deprioritized, c)
  else Ok (deprioritized, c).

Fixpoint prefix_match_loop (waiting_queue : list Req) (deprioritized : gset string) (t : T) (c : RadixCache) :
    result (list Req * gset string * T * RadixCache) :=
  match waiting_queue with
  | [] => Ok ([], deprioritized, t, c)
  | r :: l =>
      let! (_, r, t) := match_kv_cache tc st (Some (all_ids r)) false None false r t in
      let! (deprioritized, c) := check_in_batch r deprioritized c in
      let! (l, deprioritized, t, c) := prefix_match_loop l deprioritized t c in
      Ok (r :: l, deprioritized, t, c)
  end.

Definition _compute_prefix_matches (waiting_queue : list Req) (t : T) (c : RadixCache) :
    result (list Req * gset string * T * RadixCache) :=
  prefix_match_loop waiting_queue ∅ t (reset clock c).

Fixpoint touch_all (l : list Req) (t : T) : result T :=
  match l with
  | [] => Ok t
  | r :: l => let! t := touch_waiting_prefix tc r t in touch_all l t
  end.

Definition _touch_waiting_prefixes (active : Policy) (waiting_queue : list Req) (s : SchedulePolicy) (t : T) :
    result (SchedulePolicy * T) :=
  if is_aware active || bool_decide (waiting_queue = []) || negb (waiting_prefix_refresh st) || decode_mode st
     || negb (bool_decide (py_lower (radix_eviction_policy st) = "lru"))
     || supports_fast_match_prefix tc || negb (supports_prefix_sharing tc)
  then Ok (s, t)
  else
    let calls := _waiting_prefix_refresh_calls s in
    let s := set_counters (_shortest_prefill_calls s) (calls + 1) (waiting_queue_radix_tree s) s in
    if negb (calls mod WAITING_PREFIX_REFRESH_INTERVAL =? 0) then Ok (s, t)
    else let! t := touch_all (reverse (pytake waiting_queue WAITING_QUEUE_PREFIX_MATCH_MAX)) t in Ok (s, t).

(** The branch of [calc_priority] for a cache-aware policy. *)
Definition sort_aware (p : CacheAwarePolicy) (waiting_queue : list Req) (processed_tokens : Z)
    (s : SchedulePolicy) (t : T) : result (list Req * SchedulePolicy * T) :=
  let! (q, deprioritized, t, c) := _compute_prefix_matches waiting_queue t (waiting_queue_radix_tree s) in
  let calls := _shortest_prefill_calls s in
  let s := set_counters calls (_waiting_prefix_refresh_calls s) c s in
  match p with
  | LPM => Ok (_sort_by_longest_prefix q deprioritized, s, t)
  | DFS_WEIGHT => let! q := _sort_by_dfs_weight tc t q in Ok (q, s, t)
  | HRRN => Ok (_sort_by_hrrn q deprioritized processed_tokens, s, t)
  | SHORTEST_PREFILL_FIRST =>
      Ok (_sort_by_shortest_prefill q deprioritized,
          set_counters (calls + 1) (_waiting_prefix_refresh_calls s) c s, t)
  end.

(** The branch for a cache-agnostic one; [running] is [None] without a running
    batch. *)
Definition sort_agnostic (p : CacheAgnosticPolicy) (waiting_queue : list Req)
    (running : option (list (option string))) (s : SchedulePolicy) : result (list Req) :=
  match p with
  | FCFS => Ok waiting_queue
  | LOF => _sort_by_longest_output waiting_queue (enable_priority_scheduling s) (priority_sign s)
  | RANDOM => Ok (shuffle waiting_queue)
  | ROUTING_KEY => match running with
                   | Some run => Ok (_sort_by_routing_key waiting_queue run)
                   | None => Ok waiting_queue
                   end
  end.

Definition calc_priority (waiting_queue : list Req) (running : option (list (option string)))
    (processed_tokens : Z) (s : SchedulePolicy) (t : T) : result (list Req * SchedulePolicy * T) :=
  let active := _determine_active_policy s waiting_queue in
  let! (q, t) := if negb (is_aware active) && supports_fast_match_prefix tc && negb (decode_mode st)
                 then match_all waiting_queue t else Ok (waiting_queue, t) in
  let! (q, s, t) :=
    if bool_decide (policy s = Agnostic FCFS) then
      if enable_priority_scheduling s then
        let! q := _sort_by_priority_and_fcfs q (priority_sign s) in Ok (q, s, t)
      else Ok (q, s, t)
    else
      match active with
      | Aware p => sort_aware p q processed_tokens s t
      | Agnostic p => let! q := sort_agnostic p q running s in Ok (q, s, t)
      end in
  let! (s, t) := _touch_waiting_prefixes active q s t in
  Ok (q, s, t).
End passes.

(** ** Policy names *)

(** The policy names: with a cache each cache-aware name gives its policy, without one it falls back to first-come-first-served; agnostic names are kept; any other name raises.  The message that shortest-prefill-first requires prefix caching is never seen: the handler of the same [try] catches it and reports an unknown policy. *)
Theorem validate_policy_names name disabled :
  _validate_and_adjust_policy name disabled =
    match CacheAwarePolicy_of name, CacheAgnosticPolicy_of name with
    | Some SHORTEST_PREFILL_FIRST, _ =>
        if disabled then inl UnknownSchedulePolicy else inr (Aware SHORTEST_PREFILL_FIRST)
    | Some p, _ => inr (if disabled then Agnostic FCFS else Aware p)
    | None, Some p => inr (Agnostic p)
    | None, None => inl UnknownSchedulePolicy
    end ∧
  _validate_and_adjust_policy name disabled ≠ inl RequiresPrefixCaching ∧
  validate_try "shortest-prefill-first" true = inl RequiresPrefixCaching.
Proof.
  unfold _validate_and_adjust_policy, validate_try, CacheAwarePolicy_of, CacheAgnosticPolicy_of.
  repeat case_decide; subst; try done; destruct disabled; done.
Qed.

(** ** Response ratios and the order of the queue *)

Lemma str_leb_antisym a b : str_leb a b = true → str_leb b a = true → a = b.
Proof.
  unfold str_leb. revert b. induction a as [|x a IH]; intros [|y b]; try done. simpl.
  rewrite !orb_true_iff, !andb_true_iff, !Z.ltb_lt, !Z.eqb_eq. intros [?|[E1 H1]] [?|[E2 H2]]; try lia.
  f_equal; [|by apply IH]. apply Nat2Z.inj in E1. rewrite <- (Ascii.ascii_nat_embedding x), <- (Ascii.ascii_nat_embedding y).
  by f_equal.
Qed.

(** With distinct request ids the response-ratio order does not depend on the order of the waiting queue, so ranks whose queues hold the same requests in different orders sort them alike. *)
Theorem hrrn_order_independent q1 q2 off n : NoDup (rid <$> q1) → q1 ≡ₚ q2 →
  _sort_by_hrrn q1 off n = _sort_by_hrrn q2 off n.
Proof.
  intros Hnd Hp. apply py_sort_unique; [apply _| |done]. intros x y Hx Hy Hxy Hyx.
  assert (∀ r, (hrrn_key off n r).2 = rid r) as Hrid.
  { intros r. unfold hrrn_key. by repeat case_match. }
  unfold pair_leb in *. apply andb_true_iff in Hxy as [H1 H2], Hyx as [H3 H4].
  rewrite H3 in H2. rewrite H1 in H4. rewrite !Hrid in H2, H4. simpl in H2, H4.
  pose proof (str_leb_antisym _ _ H2 H4) as E.
  apply list_elem_of_lookup in Hx as [i Hi], Hy as [j Hj].
  assert (i = j) as <-; [|congruence].
  eapply (NoDup_lookup _ _ _ (rid x) Hnd); rewrite list_lookup_fmap; [by rewrite Hi|by rewrite Hj, E].
Qed.
