(* ===== verification/PolicyTheorems.v ===== *)
(** * Theorems on the order of the waiting queue

    In-batch deduplication against a direct definition on token lists, the
    interface a prefix cache offers the policies and what the policies promise
    over it, the order each sort produces, and the chunk limit. *)
From Stdlib Require Import QArith.
From S2P Require Import Prelude RadixKey EvictPolicy RadixCache RadixInv RadixOps RadixInsert RadixSpec RadixTheorems PySort SchedulePolicy.
Open Scope Z_scope.

(** ** In-batch deduplication *)

Definition batch_ns (r : Req) : option string * option string := knamespace (batch_key r).

(** The longest prefix a request shares with one of [seen] in its namespace. *)
Fixpoint shared_prefix (seen : list Req) (r : Req) : nat :=
  match seen with
  | [] => O
  | x :: seen =>
      Nat.max (if decide (batch_ns x = batch_ns r) then lcp (all_ids x) (all_ids r) else O) (shared_prefix seen r)
  end.

(** A request with a short cached prefix is put off when it shares a long
    prefix with an earlier one that is itself not put off. *)
Section reference.
Context (st : settings).
Definition put_off (seen : list Req) (r : Req) : bool :=
  DEPRIORITIZE_THRESHOLD st <=? (if force_miss st then 0 else Z.of_nat (shared_prefix seen r)).

Fixpoint in_batch (seen : list Req) (queue : list Req) (off : gset string) : gset string :=
  match queue with
  | [] => off
  | r :: queue =>
      if r_prefix_len (hit r) <=? CHECK_THRESHOLD st then
        if put_off seen r then in_batch seen queue ({[ rid r ]} ∪ off)
        else in_batch (r :: seen) queue off
      else in_batch seen queue off
  end.
End reference.

(** A key of the simulated tree: one unit per token. *)
Lemma batch_key_units r : tree_key simulated (batch_key r) = batch_key r ∧ units (batch_key r) = UTok <$> all_ids r.
Proof.
  split; [done|]. unfold units, raw_token_ids, batch_key, RadixKey_init, _raw_len. simpl. by rewrite Z.eqb_refl.
Qed.

Lemma batch_key_ok r : key_ok (batch_key r).
Proof. split; [done|]. unfold batch_key, RadixKey_init. simpl. destruct (r_cache_salt r) as [[]|]; done. Qed.

Section simulated.
Context (clock : nat → Z).

(** The simulated tree holds the prompts of [seen]. *)
Definition holds (c : RadixCache) (seen : list Req) : Prop :=
  reachable clock simulated c (λ _, 0) ∧
  ∀ ns us, (∃ vs, cached simulated c ns us vs) ↔
    us ≠ [] ∧ ∃ x, x ∈ seen ∧ ns = batch_ns x ∧ us `prefix_of` (UTok <$> all_ids x).

Lemma holds_reset c : holds (reset clock c) [].
Proof.
  split; [apply reach_reset|]. intros ns us. split; [|by intros (_ & x & ?%elem_of_nil & _)].
  intros (vs & n & pu & pv & Hr & Hns & _). unfold node_namespace, reset in *. simpl in *.
  rewrite lookup_singleton_ne in Hns by done. done.
Qed.

Lemma shared_prefix_le seen r : (shared_prefix seen r ≤ length (all_ids r))%nat.
Proof.
  induction seen as [|x seen IH]; simpl; [lia|]. pose proof (lcp_le_r (all_ids x) (all_ids r)). destruct (decide _); lia.
Qed.

Lemma shared_prefix_ge seen r x :
  x ∈ seen → batch_ns x = batch_ns r → (lcp (all_ids x) (all_ids r) ≤ shared_prefix seen r)%nat.
Proof.
  intros Hx Hns. induction Hx as [seen|x y seen _ IH]; simpl.
  - rewrite decide_True by done. lia.
  - specialize (IH Hns). lia.
Qed.

Lemma shared_prefix_in seen r : (0 < shared_prefix seen r)%nat →
  ∃ x, x ∈ seen ∧ batch_ns x = batch_ns r ∧ lcp (all_ids x) (all_ids r) = shared_prefix seen r.
Proof.
  induction seen as [|x seen IH]; simpl; [lia|]. intros Hpos. destruct (decide (batch_ns x = batch_ns r)) as [E|E].
  - destruct (Nat.max_spec (lcp (all_ids x) (all_ids r)) (shared_prefix seen r)) as [[? ->]|[? ->]].
    + destruct IH as (y & ? & ? & ?); [lia|]. exists y. split; [by right|done].
    + exists x. split; [by left|done].
  - destruct IH as (y & ? & ? & ?); [done|]. exists y. split; [by right|]. by rewrite Nat.max_0_l.
Qed.

(** Matching a request reports what it shares. *)
Lemma match_holds c seen r : holds c seen →
  ∃ mr c', match_prefix clock simulated (batch_key r) c = Ok (mr, c') ∧ holds c' seen ∧
           device_prefix_len mr = Z.of_nat (shared_prefix seen r).
Proof.
  intros [Hr Hc]. destruct (batch_key_units r) as [Ek Eu].
  destruct (match_longest clock simulated ltac:(done) ltac:(done) c _ (batch_key r) Hr (batch_key_ok r))
    as (mr & c' & vs & E & Hlen & _ & _ & _ & Hhit & Hmax & Hsame).
  cbv zeta in *. rewrite Ek, Eu in *. change (knamespace (batch_key r)) with (batch_ns r) in *.
  exists mr, c'. split; [done|]. split.
  { split; [eapply reach_step; [done|]; by eapply step_match, E; apply batch_key_ok|].
    intros ns us. rewrite <- Hc. split; intros [ws Hws]; exists ws; by apply Hsame. }
  destruct Hlen as [[Hge Hle] _]. rewrite klen_units, Eu in Hle by done. unfold zlen in Hle. rewrite length_fmap in Hle.
  set (len := device_prefix_len mr) in *. apply Z.le_antisymm.
  - destruct (decide (0 < len)) as [Hpos|]; [|lia]. specialize (Hhit Hpos).
    destruct (proj1 (Hc _ _) (ex_intro _ _ Hhit)) as (Hne & x & Hx & Hns & Hpre).
    pose proof (shared_prefix_ge seen r x Hx (eq_sym Hns)). enough (Z.to_nat len ≤ lcp (all_ids x) (all_ids r))%nat by lia.
    rewrite <- lcp_fmap_UTok. pose proof (prefix_length _ _ Hpre) as Hpl.
    rewrite !length_fmap, length_take, length_fmap in Hpl. apply lcp_max; [rewrite length_fmap; lia|].
    destruct Hpre as [tl ->]. rewrite take_app_le by (rewrite length_take, length_fmap; lia).
    by rewrite take_take, Nat.min_id.
  - destruct (decide (shared_prefix seen r = 0)%nat) as [|Hpos]; [lia|].
    destruct (shared_prefix_in seen r ltac:(lia)) as (x & Hx & Hns & El).
    pose proof (shared_prefix_le seen r) as Hsl. set (m := shared_prefix seen r) in *.
    assert (∃ ws, cached simulated c (batch_ns r) (take m (UTok <$> all_ids r)) ws) as [ws Hws].
    { apply Hc. split.
      { intros E0%(f_equal length). rewrite length_take, length_fmap in E0. simpl in E0. lia. }
      exists x. split; [done|]. split; [done|]. rewrite <- El, <- lcp_fmap_UTok, <- lcp_take. apply take_prefix_of. }
    specialize (Hmax _ _ Hws (take_prefix_of _ _)). unfold zlen in Hmax. rewrite length_take, length_fmap in Hmax. lia.
Qed.

(** Inserting one adds it. *)
Lemma insert_holds c seen r v : holds c seen → length v = length (all_ids r) →
  ∃ res c', insert clock simulated (batch_key r) (Some v) None 0 c = Ok (res, c') ∧ holds c' (r :: seen).
Proof.
  intros [Hr Hc] Hv. destruct (batch_key_units r) as [Ek Eu].
  assert (value_ok simulated (batch_key r) (Some v)) as Hval.
  { unfold value_ok. rewrite Ek, klen_units, Eu by done. unfold zlen. rewrite length_fmap. lia. }
  destruct (insert_extends clock simulated ltac:(done) ltac:(done) c _ (batch_key r) (Some v) None 0 Hr (batch_key_ok r) Hval)
    as (j & n & c' & full & E & _ & _ & _ & _ & _ & _ & _ & Hnew).
  cbv zeta in *. rewrite Ek, Eu in *. change (knamespace (batch_key r)) with (batch_ns r) in *.
  eexists _, c'. split; [exact E|]. split.
  { eapply reach_step; [done|]. eapply step_insert; [apply batch_key_ok|exact Hval|exact E]. }
  intros ns us. setoid_rewrite Hnew. setoid_rewrite elem_of_cons. split.
  - intros [vs [Hold|(-> & Hpre & _ & _ & Hne)]].
    + destruct (proj1 (Hc ns us)) as (? & x & ? & ?); [eauto|]. split; [done|]. exists x. tauto.
    + split; [done|]. exists r. tauto.
  - intros (Hne & x & [->|Hx] & -> & Hpre).
    + exists (take (length us) full). right. split; [done|]. split; [done|]. split; [done|]. split; [|done].
      exists (zlen us). simpl. lia.
    + destruct (proj2 (Hc (batch_ns x) us)) as [vs Hvs]; [eauto|]. exists vs. by left.
Qed.
End simulated.

(** ** What a prefix cache promises the policies *)

(** A cache in a good state matches and touches without raising and stays
    good; a match returns a live node and makes no live node dead; the
    depth-first order of live handles is an order of all of them. *)
Class TreeCacheLaws {T : Type} (tc : tree_cache T) := {
  tc_ok : T → Prop;
  tc_live : T → nat → Prop;
  tc_match_ok t key full cow : tc_ok t → key_ok key →
    ∃ mr t', tc_match_prefix tc key full cow t = Ok (mr, t') ∧ tc_ok t' ∧
      tc_live t' (mr_last_device_node mr) ∧ ∀ n, tc_live t n → tc_live t' n;
  tc_touch_ok t key : tc_ok t → key_ok key → ∃ t', tc_touch_prefix tc key t = Ok t' ∧ tc_ok t';
  tc_root_live t extra : tc_ok t → tc_live t (root_node_handle tc extra t);
  tc_dfs_order t handles : tc_ok t → Forall (tc_live t) handles →
    dfs_weight_order tc handles t ≡ₚ seq 0 (length handles)
}.

(** A request without what matching writes. *)
Definition no_hit : Hit := mkHit 0 0 0 0 0 0 0 0 None None 0.
Definition forget (r : Req) : Req := set_hit no_hit r.

Lemma req_radix_key_ok {T} (tc : tree_cache T) r ids : key_ok (_req_radix_key tc r ids None).
Proof.
  unfold _req_radix_key, RadixKey_init, key_ok, wf_key. simpl. split.
  - destruct (truthy _); [lia|done].
  - by destruct (r_cache_salt r) as [[]|].
Qed.

Section over_cache.
Context {T : Type} (tc : tree_cache T) `{!TreeCacheLaws tc} (st : settings) (clock : nat → Z).
Context (empty : nat → list Z) (shuffle : list Req → list Req).
Context (Hempty : ∀ n, length (empty n) = n) (Hshuffle : ∀ l, shuffle l ≡ₚ l).

Lemma match_kv_cache_ok t ids r : tc_ok t →
  ∃ mr r' t', match_kv_cache tc st ids false None false r t = Ok (mr, r', t') ∧ tc_ok t' ∧
    forget r' = forget r ∧ tc_live t' (r_last_node (hit r')) ∧ (∀ n, tc_live t n → tc_live t' n).
Proof.
  intros Ht. unfold match_kv_cache.
  destruct (tc_match_ok t (_req_radix_key tc r (default (all_ids r) ids) None)
    (false || truthy (swa_reprefill_tail_tokens tc None)) false Ht (req_radix_key_ok _ _ _))
    as (mr & t' & E & Ht' & Hl & Hmono).
  rewrite E. simpl. do 3 eexists. split; [done|]. split; [done|]. split; [done|]. split; [|done]. simpl.
  destruct (force_miss st); [|done]. unfold zero_match_result. destruct (supports_prefix_sharing tc); [|done].
  simpl. by apply tc_root_live.
Qed.

Lemma match_all_ok q t : tc_ok t →
  ∃ q' t', match_all tc st q t = Ok (q', t') ∧ tc_ok t' ∧ forget <$> q' = forget <$> q.
Proof.
  revert t. induction q as [|r q IH]; intros t Ht; simpl; [by exists [], t|].
  destruct (match_kv_cache_ok t None r Ht) as (mr & r' & t1 & -> & Ht1 & Hf & _). simpl.
  destruct (IH t1 Ht1) as (q' & t2 & -> & Ht2 & Hq). simpl. exists (r' :: q'), t2.
  rewrite !fmap_cons, Hf, Hq. done.
Qed.

Lemma check_in_batch_spec r off c seen : holds clock c seen →
  ∃ c', check_in_batch st clock empty r off c
        = Ok (if r_prefix_len (hit r) <=? CHECK_THRESHOLD st
              then if put_off st seen r then {[ rid r ]} ∪ off else off else off, c') ∧
    holds clock c' (if r_prefix_len (hit r) <=? CHECK_THRESHOLD st
                    then if put_off st seen r then seen else r :: seen else seen).
Proof.
  intros Hc. unfold check_in_batch. destruct (_ <=? CHECK_THRESHOLD st); [|by exists c].
  destruct (match_holds clock c seen r Hc) as (mr & c1 & -> & Hc1 & Hlen). simpl. unfold put_off. rewrite Hlen.
  destruct (DEPRIORITIZE_THRESHOLD st <=? _); [by exists c1|].
  destruct (insert_holds clock c1 seen r (empty (length (all_ids r))) Hc1) as (res & c2 & -> & Hc2); [by rewrite Hempty|].
  by exists c2.
Qed.

(** Matching a queue: the requests with their hits, and the reference's set. *)
Lemma prefix_match_loop_spec q off t c seen : tc_ok t → holds clock c seen →
  ∃ q' t' c', prefix_match_loop tc st clock empty q off t c = Ok (q', in_batch st seen q' off, t', c') ∧
    tc_ok t' ∧ forget <$> q' = forget <$> q ∧
    Forall (λ r, tc_live t' (r_last_node (hit r))) q' ∧ (∀ n, tc_live t n → tc_live t' n).
Proof.
  revert off t c seen. induction q as [|r q IH]; intros off t c seen Ht Hc; simpl; [by exists [], t, c|].
  destruct (match_kv_cache_ok t (Some (all_ids r)) r Ht) as (mr & r' & t1 & -> & Ht1 & Hf & Hl & Hm). simpl.
  destruct (check_in_batch_spec r' off c seen Hc) as (c1 & -> & Hc1). simpl.
  set (off1 := if _ <=? _ then _ else _). set (seen1 := if _ <=? _ then _ else _) in Hc1.
  destruct (IH off1 t1 c1 seen1 Ht1 Hc1) as (q' & t2 & c2 & -> & Ht2 & Hq & Hlive & Hm2).
  exists (r' :: q'), t2, c2. rewrite !fmap_cons, Hf, Hq.
  split; [|split; [done|split; [done|split; [constructor; auto|auto]]]].
  subst off1 seen1. cbn [in_batch rbind]. destruct (r_prefix_len (hit r') <=? CHECK_THRESHOLD st); [|done].
  by destruct (put_off st seen r').
Qed.

Lemma compute_prefix_matches_spec q t c : tc_ok t →
  ∃ q' t' c', _compute_prefix_matches tc st clock empty q t c = Ok (q', in_batch st [] q' ∅, t', c') ∧
    tc_ok t' ∧ forget <$> q' = forget <$> q ∧ Forall (λ r, tc_live t' (r_last_node (hit r))) q'.
Proof.
  intros Ht. destruct (prefix_match_loop_spec q ∅ t (reset clock c) [] Ht (holds_reset clock c))
    as (q' & t' & c' & E & ? & ? & ? & _). by exists q', t', c'.
Qed.

(** C40: matching the waiting queue never raises, keeps the requests in place, and
    puts off exactly the requests of the reference: those with a cached prefix of at
    most the check threshold (the comment on the constant says less than it) whose
    prompt shares at least the deprioritize threshold of tokens (the comment says
    more than it) with an earlier request of the same namespace that was not itself
    put off or skipped. *)
Theorem compute_prefix_matches_in_batch q t c : tc_ok t →
  ∃ q' t' c', _compute_prefix_matches tc st clock empty q t c = Ok (q', in_batch st [] q' ∅, t', c') ∧
    forget <$> q' = forget <$> q.
Proof. intros Ht. destruct (compute_prefix_matches_spec q t c Ht) as (q' & t' & c' & ? & _ & ? & _). eauto. Qed.

Lemma touch_all_ok q t : tc_ok t → ∃ t', touch_all tc q t = Ok t' ∧ tc_ok t'.
Proof.
  revert t. induction q as [|r q IH]; intros t Ht; simpl; [by exists t|]. unfold touch_waiting_prefix.
  destruct (tc_touch_ok t (_req_radix_key tc r (all_ids r) None) Ht (req_radix_key_ok _ _ _)) as (t1 & -> & Ht1).
  simpl. by apply IH.
Qed.

Lemma touch_waiting_ok p q s t : tc_ok t →
  ∃ s' t', _touch_waiting_prefixes tc st p q s t = Ok (s', t') ∧ tc_ok t'.
Proof.
  intros Ht. unfold _touch_waiting_prefixes. destruct (_ || _); [eauto|]. destruct (negb (_ =? 0)); [eauto|].
  destruct (touch_all_ok (reverse (pytake q WAITING_QUEUE_PREFIX_MATCH_MAX)) t Ht) as (t' & -> & ?). simpl. eauto.
Qed.

Lemma pick_indices_perm {A} (l : list A) order : order ≡ₚ seq 0 (length l) →
  ∃ l', pick_indices l order = Ok l' ∧ l' ≡ₚ l.
Proof.
  intros Ho. assert (∀ order, Forall (λ i, i < length l)%nat order →
    ∃ l', pick_indices l order = Ok l' ∧ Some <$> l' = (λ i, l !! i) <$> order) as Hpick.
  { clear. induction 1 as [|i order Hi _ (l' & E & Em)]; simpl; [by exists []|].
    destruct (lookup_lt_is_Some_2 l i Hi) as [x Hx]. rewrite Hx, E. exists (x :: l').
    split; [done|]. rewrite !fmap_cons, Em. by f_equal. }
  destruct (Hpick order) as (l' & E & Em).
  { rewrite Ho. apply Forall_forall. intros i Hi%elem_of_seq. lia. }
  exists l'. split; [done|]. apply (fmap_Permutation (λ i, l !! i)) in Ho. rewrite <- Em in Ho.
  assert ((λ i, l !! i) <$> seq 0 (length l) = Some <$> l) as El.
  { apply list_eq. intros i. rewrite !list_lookup_fmap. destruct (decide (i < length l)%nat) as [Hi|Hi].
    - rewrite lookup_seq_lt by done. simpl. destruct (lookup_lt_is_Some_2 l i Hi) as [x ->]. done.
    - rewrite lookup_seq_ge, (lookup_ge_None_2 l) by lia. done. }
  rewrite El in Ho. assert (∀ k : list A, omap id (Some <$> k) = k) as Hid.
  { clear. induction k as [|x k IH]; [done|]. rewrite fmap_cons. cbn. f_equal. exact IH. }
  rewrite <- (Hid l'), Ho, Hid. done.
Qed.

Lemma map_keys_snd {A K} (key : A → result K) l kl : map_keys key l = Ok kl → snd <$> kl = l.
Proof.
  revert kl. induction l as [|x l IH]; intros kl; simpl; [by intros [= <-]|]. destruct (key x) as [k|]; [|done]. simpl.
  destruct (map_keys key l) as [kl'|]; [|done]. simpl. intros [= <-]. rewrite fmap_cons. f_equal. by apply IH.
Qed.

Lemma map_keys_total {A K} (key : A → result K) l : Forall (λ x, ∃ k, key x = Ok k) l → ∃ kl, map_keys key l = Ok kl.
Proof. induction 1 as [|x l [k Hk] _ [kl IH]]; simpl; [eauto|]. rewrite Hk, IH. simpl. eauto. Qed.

Lemma try_sort_ok {A K} (leb : K → K → bool) (key : A → result K) l :
  Forall (λ x, ∃ k, key x = Ok k) l → ∃ l', try_sort leb key l = Ok l' ∧ l' ≡ₚ l.
Proof.
  intros [kl E]%map_keys_total. unfold try_sort. rewrite E. simpl. eexists. split; [done|].
  by rewrite py_sort_perm, (map_keys_snd _ _ _ E).
Qed.

(** Requests have a priority wherever the policy compares priorities. *)
Definition has_priorities (s : SchedulePolicy) (q : list Req) : Prop :=
  enable_priority_scheduling s = true → Forall (λ r, is_Some (r_priority r)) q.

Lemma has_priorities_forget s q q' : forget <$> q' = forget <$> q → has_priorities s q → has_priorities s q'.
Proof.
  intros E H Hs. specialize (H Hs). revert q E H. induction q' as [|r' q' IH]; intros [|r q] E H; try done.
  rewrite !fmap_cons in E. injection E. intros. apply Forall_cons in H as [? ?]. constructor; [congruence|]. by eapply IH.
Qed.

Lemma sort_agnostic_ok p q running s : has_priorities s q →
  ∃ q', sort_agnostic shuffle p q running s = Ok q' ∧ q' ≡ₚ q.
Proof.
  intros Hp. destruct p; simpl; eauto.
  - unfold _sort_by_longest_output. destruct (enable_priority_scheduling s) eqn:Es.
    + apply try_sort_ok. eapply Forall_impl; [by apply Hp|]. intros r [z Hz]. unfold priority_key. rewrite Hz. simpl. eauto.
    + eexists. split; [done|]. apply py_sort_perm.
  - destruct running as [run|]; [|eauto]. eexists. split; [done|]. unfold _sort_by_routing_key.
    case_bool_decide; [done|]. apply py_sort_perm.
Qed.

Lemma sort_aware_ok p q n s t : tc_ok t →
  ∃ q' s' t', sort_aware tc st clock empty p q n s t = Ok (q', s', t') ∧ tc_ok t' ∧ forget <$> q' ≡ₚ forget <$> q.
Proof.
  intros Ht. unfold sort_aware.
  destruct (compute_prefix_matches_spec q t (waiting_queue_radix_tree s) Ht) as (q1 & t1 & c1 & -> & Ht1 & Hf & Hl).
  cbn [rbind]. destruct p; cbn [rbind].
  - do 3 eexists. split; [done|]. split; [done|]. rewrite <- Hf. apply fmap_Permutation, py_sort_perm.
  - unfold _sort_by_dfs_weight. destruct (pick_indices_perm q1
      (dfs_weight_order tc ((λ r, r_last_node (hit r)) <$> q1) t1)) as (q2 & -> & Hq2).
    { rewrite tc_dfs_order, length_fmap; [done|done|]. by apply Forall_fmap. }
    cbn [rbind]. do 3 eexists. split; [done|]. split; [done|]. by rewrite Hq2, Hf.
  - do 3 eexists. split; [done|]. split; [done|]. rewrite <- Hf. apply fmap_Permutation, py_sort_perm.
  - do 3 eexists. split; [done|]. split; [done|]. rewrite <- Hf. apply fmap_Permutation, py_sort_perm.
Qed.

(** Under every policy, on every queue and running batch, [calc_priority] returns and the queue it leaves holds the same requests, each once, up to the match results it wrote into them. *)
Theorem calc_priority_keeps_requests q running n s t : tc_ok t → has_priorities s q →
  ∃ q' s' t', calc_priority tc st clock empty shuffle q running n s t = Ok (q', s', t') ∧
    tc_ok t' ∧ forget <$> q' ≡ₚ forget <$> q.
Proof.
  intros Ht Hp. unfold calc_priority. set (active := _determine_active_policy s q).
  assert (∃ q1 t1, (if negb (is_aware active) && supports_fast_match_prefix tc && negb (decode_mode st)
      then match_all tc st q t else Ok (q, t)) = Ok (q1, t1) ∧ tc_ok t1 ∧ forget <$> q1 = forget <$> q)
    as (q1 & t1 & -> & Ht1 & Hf1).
  { destruct (_ && _); [by apply match_all_ok|eauto]. }
  cbn [rbind]. pose proof (has_priorities_forget _ _ _ Hf1 Hp) as Hp1.
  match goal with |- context [rbind (if bool_decide ?b then ?x else ?y)] =>
    assert (∃ q2 s2 t2, (if bool_decide b then x else y) = Ok (q2, s2, t2) ∧ tc_ok t2 ∧ forget <$> q2 ≡ₚ forget <$> q1)
      as (q2 & s2 & t2 & -> & Ht2 & Hf2) end.
  { case_bool_decide; [destruct (enable_priority_scheduling s) eqn:Es; [|eauto 10]|].
    - destruct (try_sort_ok (pair_leb Z.leb Z.leb) (λ r, let! p := priority_key (priority_sign s) r in Ok (p, wait_queue_entry_time r)) q1)
        as (q2 & E & Hq2).
      + eapply Forall_impl; [by apply Hp1|]. intros r [z Hz]. unfold priority_key. rewrite Hz. simpl. eauto.
      + unfold _sort_by_priority_and_fcfs. rewrite E. cbn [rbind]. do 3 eexists. split; [done|]. split; [done|]. by rewrite Hq2.
    - destruct active as [p|p]; [by apply sort_aware_ok|].
      destruct (sort_agnostic_ok p q1 running s Hp1) as (q2 & -> & Hq2). cbn [rbind]. do 3 eexists. split; [done|].
      split; [done|]. by rewrite Hq2. }
  cbn [rbind]. destruct (touch_waiting_ok active q2 s2 t2 Ht2) as (s3 & t3 & -> & Ht3). cbn [rbind].
  exists q2, s3, t3. split; [done|]. split; [done|]. by rewrite Hf2, Hf1.
Qed.
End over_cache.

(** ** The orders *)

#[export] Instance ext_eq_dec {K} `{EqDecision K} : EqDecision (ext K).
Proof. solve_decision. Defined.

Section lpm.
Context {T : Type} (tc : tree_cache T) `{!TreeCacheLaws tc} (st : settings) (clock : nat → Z).
Context (empty : nat → list Z) (shuffle : list Req → list Req) (Hempty : ∀ n, length (empty n) = n).

(** Under the longest-prefix policy, with at most 128 waiting requests, the queue [calc_priority] leaves has the matched requests with the put-off ones after all others; the others come in descending number of matched prefix tokens, and requests with equal keys in the order in which they waited. *)
Theorem lpm_longest_first q running n s t : tc_ok t → policy s = Aware LPM → zlen q ≤ WAITING_QUEUE_PREFIX_MATCH_MAX →
  ∃ q1 q' s' t', calc_priority tc st clock empty shuffle q running n s t = Ok (q', s', t') ∧
    forget <$> q1 = forget <$> q ∧ q' ≡ₚ q1 ∧
    let off := in_batch st [] q1 ∅ in
    (∀ i j x y, q' !! i = Some x → q' !! j = Some y → (i < j)%nat → rid y ∉ off →
       (rid x ∉ off) ∧ num_matched_prefix_tokens (hit y) ≤ num_matched_prefix_tokens (hit x)) ∧
    (∀ k, filter (λ r, longest_prefix_key off r = k) q' = filter (λ r, longest_prefix_key off r = k) q1).
Proof.
  intros Ht Hs Hq. unfold calc_priority.
  assert (_determine_active_policy s q = Aware LPM) as ->.
  { unfold _determine_active_policy. rewrite Hs.
    destruct (WAITING_QUEUE_PREFIX_MATCH_MAX <? zlen q) eqn:E; [zbool; lia|]. by rewrite andb_false_r. }
  cbn [is_aware negb andb rbind]. rewrite bool_decide_false by (by rewrite Hs). unfold sort_aware.
  destruct (compute_prefix_matches_spec tc st clock empty Hempty q t (waiting_queue_radix_tree s) Ht)
    as (q1 & t1 & c1 & -> & Ht1 & Hf & _).
  cbn [rbind]. unfold _touch_waiting_prefixes. cbn [is_aware orb rbind].
  do 4 eexists. split; [done|]. split; [exact Hf|]. split; [apply py_sort_perm|]. cbv zeta. split.
  - intros i j x y Hx Hy Hij Hn.
    pose proof (py_sort_lookup (ext_leb Z.leb) _ _ _ _ _ _ Hx Hy Hij) as Hle. unfold longest_prefix_key in Hle.
    rewrite (bool_decide_false (rid y ∈ _)) in Hle by done. case_bool_decide; simpl in Hle; [done|]. split; [done|].
    apply Z.leb_le in Hle. lia.
  - intros k. apply py_sort_stable. intros y z Hy Hz. unfold key_le. rewrite Hy, Hz.
    destruct k; simpl; [done| |done]. apply Z.leb_refl.
Qed.
End lpm.

(** ** Highest response ratio next *)

(** Tokens prefilled for others since the request came in. *)
Definition waited (processed_tokens : Z) (r : Req) : Z := Z.max 0 (processed_tokens - arrival_processed_tokens r).

Lemma neg_ratio_le a b c d : 0 < b → 0 < d →
  Qle_bool (- (inject_Z a / inject_Z b))%Q (- (inject_Z c / inject_Z d))%Q = true ↔ c * b ≤ a * d.
Proof.
  intros Hb Hd. rewrite Qle_bool_iff. unfold Qle, Qopp, Qdiv, Qmult, Qinv, inject_Z.
  destruct b as [|b|b], d as [|d|d]; try lia. simpl. lia.
Qed.

(** Under the response-ratio policy requests without uncached tokens come first and put-off ones last; between two others the earlier has the larger ratio of waited to uncached tokens. *)
Theorem hrrn_ratio_order q off n i j x y :
  _sort_by_hrrn q off n !! i = Some x → _sort_by_hrrn q off n !! j = Some y → (i < j)%nat → rid y ∉ off →
  (rid x ∉ off) ∧ (_uncached_len y ≤ 0 → _uncached_len x ≤ 0) ∧
  (0 < _uncached_len x → waited n y * _uncached_len x ≤ waited n x * _uncached_len y).
Proof.
  intros Hx Hy Hij Hn. pose proof (py_sort_lookup (pair_leb (ext_leb Qle_bool) str_leb) _ _ _ _ _ _ Hx Hy Hij) as Hle.
  unfold pair_leb in Hle. apply andb_true_iff in Hle as [Hle _]. unfold hrrn_key in Hle.
  rewrite (bool_decide_false (rid y ∈ _)) in Hle by done.
  case_bool_decide as Hox; [by destruct (_uncached_len y <=? 0)|]. split; [done|].
  destruct (_uncached_len x <=? 0) eqn:Ex; [apply Z.leb_le in Ex; lia|]. destruct (_uncached_len y <=? 0) eqn:Ey; [done|].
  apply Z.leb_gt in Ex, Ey. split; [lia|]. intros _. by apply neg_ratio_le in Hle.
Qed.

(** ** The chunk limit *)

Definition charge (page_size : Z) (r : Req) : Z := - (- _shortest_prefill_work r / page_size) * page_size.

Lemma charge_bounds ps r : 0 < ps →
  (ps | charge ps r) ∧ _shortest_prefill_work r ≤ charge ps r < _shortest_prefill_work r + ps ∧ ps ≤ charge ps r.
Proof.
  intros Hps. unfold charge. set (w := _shortest_prefill_work r).
  assert (1 ≤ w) as Hw by (unfold w, _shortest_prefill_work; lia).
  pose proof (Z.div_mod (- w) ps ltac:(lia)). pose proof (Z.mod_pos_bound (- w) ps Hps).
  set (d := - w / ps) in *. set (m := - w mod ps) in *. split; [by exists (- d)|].
  assert (- d * ps = w + m) by lia. split; [lia|]. assert (1 ≤ - d) by nia. nia.
Qed.

Lemma reserve_loop_spec q remaining budget ps reserved : 0 < ps →
  ∃ k, (k ≤ length q)%nat ∧
    reserve_loop q remaining budget ps reserved = reserved + zsum (charge ps <$> take k q) ∧
    (reserved ≤ budget - ps → reserved + zsum (charge ps <$> take k q) ≤ budget - ps) ∧
    Forall (λ r, _shortest_prefill_work r < remaining) (take k q) ∧
    ∀ r, q !! k = Some r → remaining ≤ _shortest_prefill_work r ∨
      budget - ps < reserved + zsum (charge ps <$> take k q) + charge ps r.
Proof.
  intros Hps. revert reserved. induction q as [|r q IH]; intros reserved.
  { exists O. simpl. split; [lia|]. split; [unfold zsum; simpl; lia|]. split; [unfold zsum; simpl; lia|]. split; [constructor|done]. }
  simpl. fold (charge ps r). destruct (_ || _) eqn:E.
  - exists O. rewrite orb_true_iff, Z.leb_le, Z.ltb_lt in E. (split; [lia|]; split; [unfold zsum; simpl; lia|]);
      (split; [unfold zsum; simpl; lia|]; split; [constructor|]); intros x [= <-]; unfold zsum; simpl; lia.
  - rewrite orb_false_iff, Z.leb_gt, Z.ltb_ge in E. destruct E as [E1 E2]. destruct (IH (reserved + charge ps r)) as (k & Hk & Hr & Hb & Hf & Hm).
    assert (∀ z, reserved + zsum (charge ps <$> r :: take k q) + z = reserved + charge ps r + zsum (charge ps <$> take k q) + z) as Es.
    { intros z. rewrite fmap_cons. unfold zsum. cbn [foldr]. lia. }
    exists (S k). cbn [take]. split; [simpl; lia|]. pose proof (Es 0) as Es0.
    split; [lia|]. split; [intros _; lia|]. split; [by constructor|]. intros x Hx. rewrite Es. by apply Hm.
Qed.

(** When the shortest-prefill policy caps the active chunk, the cap is a positive multiple of the page size, and the cap and the page-rounded work of some first [k] waiting requests fit in the budget with less than a page to spare; each of these requests is shorter than what the chunked request has left, and the next one is not or does not fit. *)
Theorem chunk_limit_reserves s chunked q budget ps lim : 0 < ps →
  shortest_prefill_chunk_limit s chunked q budget ps = Some lim →
  ∃ k, (0 < k ≤ length q)%nat ∧
    let served := take k q in
    let total := zsum (charge ps <$> served) in
    let remaining := full_untruncated_len chunked - r_prefix_len (hit chunked) in
    (ps | lim) ∧ ps ≤ lim ∧ lim + total ≤ budget < lim + total + ps ∧
    Forall (λ r, _shortest_prefill_work r < remaining) served ∧
    ∀ r, q !! k = Some r → remaining ≤ _shortest_prefill_work r ∨ budget - ps < total + charge ps r.
Proof.
  intros Hps. unfold shortest_prefill_chunk_limit. destruct (_ || _) eqn:E; [done|].
  apply orb_false_iff in E as [_ E%Z.ltb_ge]. set (remaining := full_untruncated_len chunked - _).
  destruct (reserve_loop_spec q remaining budget ps 0 Hps) as (k & Hk & Hr & Hb & Hf & Hm). rewrite Hr.
  set (total := zsum _) in *. destruct (0 + total =? 0) eqn:E0; [done|]. apply Z.eqb_neq in E0. intros [= <-].
  exists k. assert (0 < k)%nat as Hk0. { destruct k; [|lia]. unfold total, zsum in *. simpl in *. lia. }
  split; [lia|]. cbv zeta. fold total remaining. rewrite Z.add_0_l in *.
  pose proof (Z.div_mod (budget - total) ps ltac:(lia)). pose proof (Z.mod_pos_bound (budget - total) ps Hps).
  split; [by eexists|]. split; [|split; [lia|done]].
  specialize (Hb ltac:(lia)). assert (1 ≤ (budget - total) / ps) by (apply Z.div_le_lower_bound; lia). nia.
Qed.
