(* ===== verification/RadixTreeCache.v ===== *)
(** * The radix tree as the policies' prefix cache

    [radix_tree_cache] offers the radix tree of RadixCache.v through the record
    the waiting-queue policies use, with the defaults [RadixCache] inherits from
    [BasePrefixCache], and its instance of [TreeCacheLaws] discharges what the
    policies' theorems assume.  The depth-first walk reads the store as a tree;
    the insertion order of a node's children dictionary, which the store does
    not keep, is the parameter [child_order]. *)
From S2P Require Import Prelude RadixKey EvictPolicy RadixCache RadixInv RadixOps RadixInsert RadixLock RadixEvict RadixSpec RadixTotal RadixTheorems PySort DfsWeight SchedulePolicy PolicyTheorems.

(** ** The store as a tree *)

Section view.
Context (child_order : gmap pyval nat → list nat).

(** The object graph below a node. *)
Fixpoint tree_of (fuel : nat) (c : RadixCache) (n : nat) : tree :=
  match fuel, nodes c !! n with
  | S fuel, Some x => Node n (tree_of fuel c <$> child_order (children x))
  | _, _ => Node n []
  end.

Definition radix_dfs_weight_order (handles : list nat) (c : RadixCache) : list nat :=
  _dfs_weight_order (tree_of (S (size (nodes c))) c (root_node c)) handles.

Definition radix_tree_cache (clock : nat → Z) (cfg : cache_config) : tree_cache RadixCache :=
  mkTreeCache RadixCache (disable cfg) false (negb (disable cfg)) (λ _, 0) (λ _ c, root_node c)
    (λ key _ _ c,
       let! (r, c) := match_prefix clock cfg key c in
       let n := last_device_node r in
       Ok (mkResult (device_prefix_len r) n n n 0 0 0 None None None, c))
    (λ key c, touch_prefix clock cfg key c)
    radix_dfs_weight_order.
End view.

Lemma up_path_suffix c x l l' : up_path c x (l ++ l') → ∃ n, up_path c n l'.
Proof.
  revert x. induction l as [|k l IH]; intros x Hup; [eauto|]. inversion Hup; simplify_eq. eauto.
Qed.

Lemma up_path_end c n n' l : up_path c n l → up_path c n' l → n = n'.
Proof. intros H1 H2. inversion H1; inversion H2; simplify_eq; done. Qed.

Section walk.
Context (child_order : gmap pyval nat → list nat).
Context (Horder : ∀ m, child_order m ≡ₚ (map_to_list m).*2).
Context (cfg : cache_config) (c : RadixCache) (P : nat → list logical_unit) (V : nat → list Z) (H : nat → Z).
Context (Hps : 0 < page_size cfg) (Hinv : inv cfg c P V H).
Abbreviation T := (tree_of child_order).

Lemma child_order_spec n x k l : nodes c !! n = Some x → up_path c n l → k ∈ child_order (children x) →
  is_Some (nodes c !! k) ∧ up_path c k (k :: l).
Proof.
  intros Hx Hl Hk. rewrite Horder in Hk. apply list_elem_of_fmap in Hk as ([ck k'] & -> & Hk). simpl.
  apply elem_of_map_to_list in Hk.
  destruct (inv_child _ _ _ _ _ _ _ _ _ Hinv Hx Hk) as (Hr & y & Hy & Hp & _).
  split; [by eexists|]. by eapply up_step.
Qed.

Lemma tid_tree_of fuel n : tid (T fuel c n) = n.
Proof. destruct fuel; simpl; [done|]. by destruct (nodes c !! n). Qed.

(** What the walk reaches from a node is below it. *)
Lemma tree_of_below fuel n l x : up_path c n l → is_Some (nodes c !! n) → x ∈ tids (T fuel c n) →
  is_Some (nodes c !! x) ∧ ∃ l0, up_path c x (l0 ++ l).
Proof.
  revert n l. induction fuel as [|fuel IH]; intros n l Hl [y Hy]; simpl; [|rewrite Hy; simpl].
  - rewrite list_elem_of_singleton. intros ->. split; [by eexists|by exists []].
  - rewrite elem_of_app, list_elem_of_singleton. intros [Hx| ->]; [|split; [by eexists|by exists []]].
    apply list_elem_of_join in Hx as (ids & Hx & Hids). apply list_elem_of_fmap in Hids as (t & -> & Ht).
    apply list_elem_of_fmap in Ht as (k & -> & Hk). destruct (child_order_spec n y k l Hy Hl Hk) as [Hks Hkl].
    destruct (IH k (k :: l) Hkl Hks Hx) as [Hs [l0 Hl0]]. split; [done|]. exists (l0 ++ [k]). by rewrite <- app_assoc.
Qed.

Lemma child_order_nodup n x : nodes c !! n = Some x → NoDup (child_order (children x)).
Proof. intros Hx. rewrite Horder. by eapply child_ids_nodup. Qed.

(** It reaches nothing twice. *)
Lemma tree_of_nodup fuel n l : up_path c n l → is_Some (nodes c !! n) → NoDup (tids (T fuel c n)).
Proof.
  revert n l. induction fuel as [|fuel IH]; intros n l Hl [y Hy]; simpl; [apply NoDup_singleton|]. rewrite Hy. simpl.
  pose proof (child_order_nodup n y Hy) as Hnd. pose proof (λ k, child_order_spec n y k l Hy Hl) as Hks.
  apply NoDup_app. split; [|split; [|apply NoDup_singleton]].
  - induction Hnd as [|k ks Hk _ IHk]; [constructor|]. rewrite !fmap_cons. simpl.
    destruct (Hks k ltac:(by left)) as [Hs Hkl]. apply NoDup_app. split; [by eapply IH|].
    split; [|apply IHk; intros; apply Hks; by right].
    intros x Hx (ids & Hx' & Hids)%list_elem_of_join. apply list_elem_of_fmap in Hids as (t & -> & Ht).
    apply list_elem_of_fmap in Ht as (k' & -> & Hk'). destruct (Hks k' ltac:(by right)) as [Hs' Hkl'].
    destruct (tree_of_below _ _ _ _ Hkl Hs Hx) as [_ [l1 H1]]. destruct (tree_of_below _ _ _ _ Hkl' Hs' Hx') as [_ [l2 H2]].
    pose proof (up_path_det _ _ _ _ H1 H2) as E. apply app_inj_2 in E as [_ E]; [|done]. by injection E as ->.
  - intros x (ids & Hx & Hids)%list_elem_of_join ->%list_elem_of_singleton.
    apply list_elem_of_fmap in Hids as (t & -> & Ht). apply list_elem_of_fmap in Ht as (k & -> & Hk).
    destruct (Hks k Hk) as [Hs Hkl]. destruct (tree_of_below _ _ _ _ Hkl Hs Hx) as [_ [l1 H1]].
    pose proof (f_equal length (up_path_det _ _ _ _ H1 Hl)) as E. rewrite length_app in E. simpl in E. lia.
Qed.

(** With fuel for the height it reaches everything below. *)
Lemma tree_of_complete fuel n l x l0 : up_path c n l → up_path c x (l0 ++ l) → is_Some (nodes c !! n) →
  (length l0 < fuel)%nat → x ∈ tids (T fuel c n).
Proof.
  revert n l l0. induction fuel as [|fuel IH]; intros n l l0 Hl Hx [y Hy] Hf; [lia|]. simpl. rewrite Hy. simpl.
  apply elem_of_app. destruct l0 as [|k l0 _] using rev_ind.
  { right. apply list_elem_of_singleton. by eapply up_path_end. }
  left. rewrite <- app_assoc in Hx. simpl in Hx. destruct (up_path_suffix _ _ _ _ Hx) as [k' Hk].
  assert (k' = k) as -> by (by inversion Hk).
  inversion Hk as [|k1 z p l1 Hr Hz Hp Hup]; simplify_eq. assert (p = n) as -> by (by eapply up_path_end).
  assert (k ∈ child_order (children y)) as Hin.
  { rewrite Horder. destruct (inv_node _ _ _ _ _ _ _ Hinv Hz Hr) as (_ & _ & q & w & v & Hq & Hw & Hc & _).
    assert (q = n) as -> by congruence. assert (w = y) as -> by congruence.
    apply list_elem_of_fmap. eexists (_, k). split; [done|]. by apply elem_of_map_to_list. }
  apply list_elem_of_join. exists (tids (T fuel c k)). split.
  - rewrite length_app in Hf. simpl in Hf. eapply IH; [exact Hk|exact Hx|by eexists|lia].
  - apply list_elem_of_fmap. eexists. split; [done|]. by apply list_elem_of_fmap_2.
Qed.

Lemma up_path_length n l : up_path c n l → (length l ≤ size (nodes c))%nat.
Proof.
  intros Hl. assert (NoDup l ∧ ∀ k, k ∈ l → k ∈ dom (nodes c)) as [Hnd Hdom].
  { induction Hl as [|n x p l Hr Hx Hp Hl [IH1 IH2]]; [split; [constructor|set_solver]|].
    split; [constructor; [eapply (up_path_notin cfg Hps c P V H); [exact Hinv|done..]|done]|]. intros k [->|Hk]%elem_of_cons; [by apply elem_of_dom|by apply IH2]. }
  rewrite <- size_dom, <- (size_list_to_set (C:=gset nat) l Hnd). apply subseteq_size. intros k Hk.
  apply Hdom. by apply elem_of_list_to_set in Hk.
Qed.

(** The walk lists every live handle once. *)
Lemma radix_dfs_perm handles : Forall (λ n, is_Some (nodes c !! n)) handles →
  radix_dfs_weight_order child_order handles c ≡ₚ seq 0 (length handles).
Proof.
  intros Hh. destruct (inv_root _ _ _ _ _ Hinv) as [r Hr]. unfold radix_dfs_weight_order.
  assert (up_path c (root_node c) []) as Hroot by constructor.
  rewrite dfs_order_in_tree by (by eapply tree_of_nodup; [exact Hroot|eexists]).
  assert (∀ ks, Forall (in_tree (T (S (size (nodes c))) c (root_node c)) handles) ks →
    filter (in_tree (T (S (size (nodes c))) c (root_node c)) handles) ks = ks) as Hall.
  { induction 1 as [|k ks Hk _ IH]; [done|]. by rewrite filter_cons, decide_True, IH. }
  rewrite Hall; [done|]. apply Forall_forall. intros k Hk%elem_of_seq.
  destruct (lookup_lt_is_Some_2 handles k ltac:(lia)) as [n Hn]. unfold in_tree. rewrite Hn.
  rewrite Forall_lookup in Hh. specialize (Hh _ _ Hn). destruct (up_path_exists cfg _ _ _ _ _ Hinv Hh) as [l Hl].
  eapply (tree_of_complete _ _ [] _ l); [done|by rewrite app_nil_r|by eexists|].
  pose proof (up_path_length _ _ Hl). lia.
Qed.
End walk.

(** ** The laws *)

#[export] Instance radix_tree_cache_laws (child_order : gmap pyval nat → list nat) (clock : nat → Z) (cfg : cache_config)
    {HQ : HeapQ entry entry_le} (Horder : ∀ m, child_order m ≡ₚ (map_to_list m).*2)
    (Hps : 0 < page_size cfg) (Hdis : disable cfg = false) :
  TreeCacheLaws (radix_tree_cache child_order clock cfg).
Proof.
  refine {| tc_ok c := ∃ H, reachable clock cfg c H; tc_live c n := is_Some (nodes c !! n) |}.
  - intros c key full cow [H Hr] Hk. pose proof (reachable_inv clock cfg Hps Hdis c H Hr) as [(P & V & Hinv) _].
    destruct (match_prefix_spec clock cfg Hps c P V H key Hinv Hk Hdis) as (r & c' & P' & V' & seg & E & W).
    simpl. rewrite E. simpl. do 2 eexists. split; [done|]. split.
    { exists H. eapply reach_step; [done|]. by eapply step_match. }
    pose proof W as [_ [_ Hext] _ _ _ _ _ _ (x & Hx & _) _]. split; [by eexists|].
    intros n [y Hy]. destruct (Hext _ _ Hy) as (_ & _ & y' & Hy' & _). by eexists.
  - intros c key [H Hr] Hk. pose proof (reachable_inv clock cfg Hps Hdis c H Hr) as [(P & V & Hinv) _].
    destruct (touch_prefix_spec clock cfg Hps c P V H key Hinv Hk) as (c' & P' & V' & E & _). simpl. exists c'.
    split; [done|]. exists H. eapply reach_step; [done|]. by eapply step_touch.
  - intros c extra [H Hr]. pose proof (reachable_inv clock cfg Hps Hdis c H Hr) as [(P & V & Hinv) _].
    destruct (inv_root _ _ _ _ _ Hinv) as [x Hx]. simpl. by eexists.
  - intros c handles [H Hr] Hh. pose proof (reachable_inv clock cfg Hps Hdis c H Hr) as [(P & V & Hinv) _].
    by eapply radix_dfs_perm.
Defined.
