(* ===== verification/PolicyCases.v ===== *)
(** * The policies on concrete queues

    Three requests on the radix tree of RadixCache.v: the second shares the
    prompt of the first, the third is alone. *)
From S2P Require Import Prelude RadixKey EvictPolicy RadixCache RadixTheorems PySort DfsWeight SchedulePolicy PolicyTheorems RadixTreeCache.

Definition waiting (id : string) (ids : list Z) (prio entry_time arrived : Z) : Req :=
  mkReq id ids [] (zlen ids) None None None (Some prio) 16 entry_time arrived false 0 false (-1) None no_hit.

Definition ra : Req := waiting "a" [1; 2; 3; 4; 5] 0 10 0.
Definition rb : Req := waiting "b" [1; 2; 3; 4; 6] 1 11 0.
Definition rc : Req := waiting "c" [7; 8] 0 12 40.
Definition queue : list Req := [ra; rb; rc].

Definition in_order (m : gmap pyval nat) : list nat := (map_to_list m).*2.
Definition the_cache : tree_cache RadixCache := radix_tree_cache in_order Run.clk Run.cfg.
Definition zeros (n : nat) : list Z := replicate n 0.
Definition thresholds : settings := mkSettings false true false "lru" 3 3.
Definition policy_state (p : Policy) : SchedulePolicy := mkPolicy p true 1 0 0 Run.c0.

#[local] Instance the_cache_laws : TreeCacheLaws the_cache.
Proof. exact (radix_tree_cache_laws in_order Run.clk Run.cfg (λ m, reflexivity _) eq_refl eq_refl). Defined.

Lemma zeros_length n : length (zeros n) = n.
Proof. apply length_replicate. Qed.

(** The queue a policy leaves, by request id. *)
Definition order_under (p : Policy) (q : list Req) (t : RadixCache) : result (list string) :=
  let! (q, _, _) := calc_priority the_cache thresholds Run.clk zeros reverse q (Some []) 50 (policy_state p) t in
  Ok (rid <$> q).

(** [b] is put off behind [c]; on the cache that holds [7; 8], [c] goes first;
    the walk takes the root's own requests last. *)
Example orders_on_queue :
  order_under (Aware LPM) queue Run.c0 = Ok ["a"; "c"; "b"] ∧
  order_under (Aware LPM) queue (Run.state (insert Run.clk Run.cfg (batch_key rc) (Some [1; 2]) None 0 Run.c0)) = Ok ["c"; "a"; "b"] ∧
  order_under (Aware DFS_WEIGHT) queue (Run.state (insert Run.clk Run.cfg (batch_key rc) (Some [1; 2]) None 0 Run.c0)) = Ok ["c"; "a"; "b"] ∧
  order_under (Aware HRRN) queue Run.c0 = Ok ["a"; "c"; "b"] ∧
  order_under (Aware SHORTEST_PREFILL_FIRST) queue Run.c0 = Ok ["c"; "a"; "b"] ∧
  order_under (Agnostic FCFS) queue Run.c0 = Ok ["a"; "c"; "b"] ∧
  order_under (Agnostic RANDOM) queue Run.c0 = Ok ["c"; "b"; "a"].
Proof. vm_compute. repeat split; reflexivity. Qed.

Lemma c0_ok : tc_ok (tc := the_cache) Run.c0.
Proof. exists (λ _, 0). exact Run.reach0. Qed.

Lemma compute_prefix_matches_in_batch_witness : tc_ok (tc := the_cache) Run.c0 ∧
  ∃ q' t' c', _compute_prefix_matches the_cache thresholds Run.clk zeros queue Run.c0 Run.c0
                = Ok (q', in_batch thresholds [] q' ∅, t', c') ∧ forget <$> q' = forget <$> queue.
Proof.
  split; [exact c0_ok|].
  exact (compute_prefix_matches_in_batch the_cache thresholds Run.clk zeros zeros_length queue Run.c0 Run.c0 c0_ok).
Defined.

(** The thresholds are 2 and 3.  Two requests have exactly two tokens in the cache,
    and share exactly three: they are checked, and the second is put off. *)
Definition cached3 : RadixCache := Run.state (insert Run.clk Run.cfg (batch_key (waiting "x" [1; 2; 3] 0 0 0)) (Some [1; 2; 3]) None 0 Run.c0).
Example at_the_thresholds :
  match _compute_prefix_matches the_cache (mkSettings false true false "lru" 2 3) Run.clk zeros [waiting "y" [1; 2; 3; 4] 0 0 0; waiting "z" [1; 2; 3; 5] 0 0 0] cached3 Run.c0 with
  | Ok (q', off, _, _) => (r_prefix_len ∘ hit <$> q') = [2; 2] ∧ elements off = ["z"]
  | Raise _ => False
  end.
Proof. vm_compute. split; reflexivity. Qed.

Lemma queue_priorities p : has_priorities (policy_state p) queue.
Proof. intros _. repeat constructor; eexists; reflexivity. Qed.

Lemma calc_priority_keeps_requests_witness : tc_ok (tc := the_cache) Run.c0 ∧
  ∃ q' s' t', calc_priority the_cache thresholds Run.clk zeros reverse queue None 0 (policy_state (Aware DFS_WEIGHT)) Run.c0
                = Ok (q', s', t') ∧ tc_ok (tc := the_cache) t' ∧ forget <$> q' ≡ₚ forget <$> queue.
Proof.
  split; [exact c0_ok|].
  exact (calc_priority_keeps_requests the_cache thresholds Run.clk zeros reverse zeros_length (@reverse_Permutation Req)
    queue None 0 (policy_state (Aware DFS_WEIGHT)) Run.c0 c0_ok (queue_priorities _)).
Defined.

Lemma lpm_longest_first_witness : zlen queue ≤ WAITING_QUEUE_PREFIX_MATCH_MAX ∧
  ∃ q1 q' s' t', calc_priority the_cache thresholds Run.clk zeros reverse queue None 0 (policy_state (Aware LPM)) Run.c0
                   = Ok (q', s', t') ∧ forget <$> q1 = forget <$> queue ∧ q' ≡ₚ q1.
Proof.
  split; [vm_compute; discriminate|].
  destruct (lpm_longest_first the_cache thresholds Run.clk zeros reverse zeros_length queue None 0
    (policy_state (Aware LPM)) Run.c0 c0_ok eq_refl ltac:(vm_compute; discriminate)) as (q1 & q' & s' & t' & E & F & Pq & _).
  exists q1, q', s', t'. exact (conj E (conj F Pq)).
Defined.

Lemma hrrn_ratio_order_witness :
  rid <$> _sort_by_hrrn queue {[ "b" ]} 50 = ["a"; "c"; "b"] ∧
  waited 50 rc * _uncached_len ra ≤ waited 50 ra * _uncached_len rc.
Proof.
  split; [vm_compute; reflexivity|].
  refine (proj2 (proj2 (hrrn_ratio_order queue {[ "b" ]} 50 0 1 ra rc _ _ _ _)) _).
  - vm_compute. reflexivity.
  - vm_compute. reflexivity.
  - lia.
  - vm_compute. discriminate.
  - vm_compute. reflexivity.
Defined.

Lemma hrrn_order_independent_witness :
  NoDup (rid <$> queue) ∧ _sort_by_hrrn queue ∅ 50 = _sort_by_hrrn (reverse queue) ∅ 50.
Proof.
  assert (NoDup (rid <$> queue)) as Hnd by (apply (bool_decide_unpack _); vm_compute; exact I).
  split; [exact Hnd|]. apply (hrrn_order_independent queue (reverse queue) ∅ 50 Hnd). symmetry. apply reverse_Permutation.
Defined.

(** Of a budget of 16 with pages of 4, [c] takes one page and [a] two; the
    active chunk keeps one. *)
Lemma chunk_limit_reserves_witness :
  let s := policy_state (Aware SHORTEST_PREFILL_FIRST) in
  let long := waiting "d" (replicate 50 9) 0 0 0 in
  shortest_prefill_chunk_limit s long [rc; ra; rb] 16 4 = Some 4 ∧
  ∃ k, (0 < k ≤ 3)%nat ∧ 4 + zsum (charge 4 <$> take k [rc; ra; rb]) ≤ 16.
Proof.
  intros s long. split; [vm_compute; reflexivity|].
  destruct (chunk_limit_reserves s long [rc; ra; rb] 16 4 4 ltac:(lia) ltac:(vm_compute; reflexivity))
    as (k & Hk & _ & _ & [Hb _] & _).
  exists k. exact (conj Hk Hb).
Defined.
