(* ===== verification/RadixClient.v ===== *)
(** * What a client of the prefix tree sees

    Each tree operation on a reachable cache in the terms a client needs: the
    cached map, the slots the tree stores as a multiset, and that the nodes a
    client keeps references to stay where they are.  [evict] takes exactly the
    slots it reports out of the tree. *)
From S2P Require Import Prelude RadixKey EvictPolicy RadixCache RadixInv RadixOps RadixInsert RadixLock RadixEvict RadixSpec RadixTotal RadixTheorems.

(** All slots the tree stores. *)
Definition tree_slots (c : RadixCache) : list Z := mjoin ((λ p, default [] (value p.2)) <$> map_to_list (nodes c)).

Lemma occurs_perm l l' : (∀ s, occurs s l = occurs s l') → l ≡ₚ l'.
Proof.
  intros H. apply (Permutation_count_occ Z.eq_dec). intros s. specialize (H s). unfold occurs in H. lia.
Qed.

Lemma perm_occurs l l' s : l ≡ₚ l' → occurs s l = occurs s l'.
Proof. intros H. unfold occurs. f_equal. by apply (Permutation_count_occ Z.eq_dec). Qed.

Lemma occurs_tree_slots s c : occurs s (tree_slots c) = slot_count s c.
Proof.
  unfold tree_slots, slot_count. simpl. generalize (nodes c) as m. intros m.
  induction m as [|k x m Hk IH] using map_ind.
  { rewrite fmap_empty, msum_empty, map_to_list_empty. done. }
  rewrite fmap_insert, msum_insert by (by rewrite lookup_fmap, Hk).
  assert (mjoin ((λ p, default [] (value p.2)) <$> map_to_list (<[k:=x]> m))
          ≡ₚ default [] (value x) ++ mjoin ((λ p, default [] (value p.2)) <$> map_to_list m)) as Hp.
  { rewrite map_to_list_insert by done. done. }
  rewrite (perm_occurs _ _ s Hp), occurs_app, IH. done.
Qed.

Lemma tree_slots_same c c' : (∀ s, slot_count s c' = slot_count s c) → tree_slots c' ≡ₚ tree_slots c.
Proof. intros H. apply occurs_perm. intros s. by rewrite !occurs_tree_slots. Qed.

Lemma tree_slots_more c c' v : (∀ s, slot_count s c' = occurs s v + slot_count s c) → tree_slots c' ≡ₚ v ++ tree_slots c.
Proof. intros H. apply occurs_perm. intros s. by rewrite occurs_app, !occurs_tree_slots. Qed.

(** A node a client refers to is where it was. *)
Record same_node (c c' : RadixCache) (n : nat) : Prop := {
  sn_live : is_Some (nodes c' !! n);
  sn_units : path_units n c' = path_units n c;
  sn_slots : path_device_indices n c' = path_device_indices n c;
  sn_ns : n ≠ root_node c → node_namespace n c' = node_namespace n c
}.

Section client.
Context (clock : nat → Z) (cfg : cache_config) {HQ : HeapQ entry entry_le}.
Abbreviation ps := (page_size cfg).
Context (Hps : 0 < ps) (Hdis : disable cfg = false).

Lemma extends_same_node c c' P P' V V' H H' n :
  inv cfg c P V H → inv cfg c' P' V' H' → extends c c' P P' V V' → is_Some (nodes c !! n) → same_node c c' n.
Proof.
  intros I I' [Er E] [x Hx]. destruct (E _ _ Hx) as (EP & EV & x' & Hx' & _ & Ens). split.
  - by eexists.
  - rewrite (path_units_inv cfg c' P' V' H'), (path_units_inv cfg c P V H) by eauto. by rewrite EP.
  - rewrite (path_device_indices_inv cfg c' P' V' H'), (path_device_indices_inv cfg c P V H) by eauto. by rewrite EV.
  - intros Hr. unfold node_namespace. rewrite Hx, Hx'. simpl. by rewrite Ens.
Qed.

(** What every operation that keeps the nodes leaves behind. *)
Record kept (c c' : RadixCache) (H' : nat → Z) (new : list Z) : Prop := {
  kp_reach : reachable clock cfg c' H';
  kp_root : root_node c' = root_node c;
  kp_slots : tree_slots c' ≡ₚ new ++ tree_slots c;
  kp_nodes : ∀ n, is_Some (nodes c !! n) → same_node c c' n
}.

Lemma match_kept c H key : reachable clock cfg c H → key_ok key →
  ∃ r c', match_prefix clock cfg key c = Ok (r, c') ∧ kept c c' H [].
Proof.
  intros Hr Hk. pose proof (reachable_inv clock cfg Hps Hdis c H Hr) as [(P & V & Hinv) _].
  destruct (match_prefix_spec clock cfg Hps c P V H key Hinv Hk Hdis) as (r & c' & P' & V' & seg & E & W).
  pose proof W as [I' Hext [Hs _] _ _ _ _ _ _ _]. exists r, c'. split; [done|]. split.
  - eapply reach_step; [done|]. by eapply step_match.
  - apply Hext.
  - by apply tree_slots_same.
  - intros n Hn. by eapply extends_same_node.
Qed.

Lemma insert_kept c H key val prio ilen : reachable clock cfg c H → key_ok key → value_ok cfg key val →
  ∃ j n c', insert clock cfg key val prio ilen c = Ok (mkInsert j (Some n), c') ∧
    kept c c' H (drop (Z.to_nat j) (tree_value cfg key val)) ∧ (ps | j).
Proof.
  intros Hr Hk Hv. pose proof (reachable_inv clock cfg Hps Hdis c H Hr) as [(P & V & Hinv) _].
  destruct (insert_spec clock cfg Hps c P V H key val prio ilen Hinv Hk Hv Hdis) as (n & c' & P' & V' & j & E & W).
  pose proof W as [I' Hext _ _ (c1 & P1 & V1 & n1 & seg & W1 & _ & _ & _ & Hs)].
  pose proof (we_new _ _ _ _ _ _ _ _ _ _ _ _ _ W1) as [Hs1 _].
  exists j, n, c'. split; [done|]. split; [|apply W1]. split.
  - eapply reach_step; [done|]. by eapply step_insert.
  - apply Hext.
  - apply tree_slots_more. intros s. by rewrite Hs, Hs1.
  - intros k Hn. by eapply extends_same_node.
Qed.

Lemma locked_extends δ l c c' : locked δ l c c' →
  (∀ s, slot_count s c' = slot_count s c) ∧
  (∀ n x, nodes c !! n = Some x → ∃ x', nodes c' !! n = Some x' ∧ nkey x' = nkey x).
Proof.
  intros L. split.
  - intros s. unfold slot_count. simpl.
    assert (∀ m m' : gmap nat ncore, (∀ k, nc_value <$> m' !! k = nc_value <$> m !! k) →
      msum (λ _ x, occurs s (default [] (nc_value x))) m' = msum (λ _ x, occurs s (default [] (nc_value x))) m) as Hm.
    { intros m. induction m as [|k x m Hk IH] using map_ind; intros m' E.
      - assert (m' = ∅) as ->; [|done]. apply map_eq. intros k. specialize (E k). rewrite lookup_empty in *. by destruct (m' !! k).
      - pose proof (E k) as Ek. rewrite lookup_insert_eq in Ek. destruct (m' !! k) as [x'|] eqn:Hx'; [|done].
        simpl in Ek. injection Ek as Ek. rewrite msum_insert by done. rewrite (msum_delete _ m' k x' Hx'), Ek. f_equal.
        apply IH. intros i. destruct (decide (i = k)) as [->|Hi]; [by rewrite lookup_delete_eq, Hk|].
        rewrite lookup_delete_ne by done. rewrite E, lookup_insert_ne by done. done. }
    apply Hm. intros k. rewrite !lookup_fmap, (lk_nodes_eq _ _ _ _ L k). destruct (nodes c !! k); simpl; [|done].
    by case_decide.
  - intros n x Hx. rewrite (lk_nodes_eq _ _ _ _ L n), Hx. simpl. eexists. split; [done|]. by case_decide.
Qed.

Lemma locked_kept δ l c c' P V H H' : reachable clock cfg c' H' →
  inv cfg c P V H → inv cfg c' P V H' → locked δ l c c' → kept c c' H' [].
Proof.
  intros Hr I I' L. destruct (locked_extends _ _ _ _ L) as [Hs Hn]. split.
  - done.
  - apply L.
  - by apply tree_slots_same.
  - intros n [x Hx]. destruct (Hn _ _ Hx) as (x' & Hx' & Ek). split.
    + by eexists.
    + by rewrite (path_units_inv cfg c' P V H'), (path_units_inv cfg c P V H) by eauto.
    + by rewrite (path_device_indices_inv cfg c' P V H'), (path_device_indices_inv cfg c P V H) by eauto.
    + intros _. unfold node_namespace. rewrite Hx, Hx'. simpl. by rewrite Ek.
Qed.

Lemma locked_cached δ l c c' P V H H' ns us vs :
  inv cfg c P V H → inv cfg c' P V H' → locked δ l c c' → cached cfg c' ns us vs ↔ cached cfg c ns us vs.
Proof.
  intros I I' L. rewrite (cached_inv cfg c' P V H' _ _ _ I'), (cached_inv cfg c P V H _ _ _ I).
  split; intros (n & x & Hx & Hr & Hns & Hrest).
  - rewrite (lk_nodes_eq _ _ _ _ L n) in Hx. apply fmap_Some in Hx as (x0 & Hx0 & ->). exists n, x0.
    rewrite (lk_root _ _ _ _ L) in Hr. split; [done|]. split; [done|]. split; [|done]. rewrite <- Hns. by case_decide.
  - destruct (proj2 (locked_extends _ _ _ _ L) _ _ Hx) as (x' & Hx' & Ek). exists n, x'.
    rewrite (lk_root _ _ _ _ L), Ek. done.
Qed.

Lemma inc_kept c H n : reachable clock cfg c H → is_Some (nodes c !! n) →
  ∃ d c', inc_lock_ref cfg n c = Ok (d, c') ∧ kept c c' (hold H n 1) [] ∧
    ∀ ns us vs, cached cfg c' ns us vs ↔ cached cfg c ns us vs.
Proof.
  intros Hr Hn. pose proof (reachable_inv clock cfg Hps Hdis c H Hr) as [(P & V & Hinv) _].
  destruct (up_path_exists cfg c P V H n Hinv Hn) as [l Hl].
  destruct (inc_lock_ref_spec clock cfg Hps c P V H n l Hinv Hl Hdis) as (c' & E & I' & L & _).
  eexists _, c'. split; [exact E|]. split; [|intros; by eapply locked_cached].
  eapply locked_kept; [|done..]. eapply reach_step; [done|]. by eapply step_inc.
Qed.

Lemma dec_kept c H n : reachable clock cfg c H → is_Some (nodes c !! n) → 1 ≤ H n →
  ∃ d c', dec_lock_ref cfg n c = Ok (d, c') ∧ kept c c' (hold H n (-1)) [] ∧
    ∀ ns us vs, cached cfg c' ns us vs ↔ cached cfg c ns us vs.
Proof.
  intros Hr Hn Hh. pose proof (reachable_inv clock cfg Hps Hdis c H Hr) as [(P & V & Hinv) HH].
  destruct (up_path_exists cfg c P V H n Hinv Hn) as [l Hl].
  destruct (dec_lock_ref_spec clock cfg Hps c P V H n l Hinv) as (c' & E & I' & L & _); [|done|done|].
  { intros k _. pose proof (HH k). unfold hold. case_decide; subst; lia. }
  eexists _, c'. split; [exact E|]. split; [|intros; by eapply locked_cached].
  eapply locked_kept; [|done..]. eapply reach_step; [done|]. by eapply step_dec.
Qed.

(** Evicted slots leave the tree, each as often as it was there. *)
Lemma evicts_slots c tr c' P V H : inv cfg c P V H → evicts cfg c tr c' →
  tree_slots c ≡ₚ mjoin tr.*2 ++ tree_slots c'.
Proof.
  intros Hinv Hev. revert Hinv. induction Hev as [c|c n x v c1 tr c' Hn Hx Hv Hmin Hdel Hev IH]; intros Hinv; [done|].
  destruct (delete_leaf_inv clock cfg Hps _ _ _ _ _ Hinv Hn) as
    (x0 & p & y & v0 & c1' & Hx0 & Hr & Hl & Hnp & Hp & Hy & Hv0 & Hlen & Hck & Hdel' & Hinv1 & Hn1 & _).
  assert (x0 = x) as -> by congruence. assert (v0 = v) as -> by congruence. assert (c1' = c1) as -> by congruence.
  specialize (IH Hinv1). simpl. rewrite <- app_assoc, <- IH. apply tree_slots_more. intros s.
  unfold slot_count. simpl. rewrite Hn1, fmap_delete, fmap_insert.
  rewrite delete_insert_ne by done.
  rewrite (msum_update _ _ p (core y)) by (rewrite lookup_delete_ne, lookup_fmap, Hy by done; done).
  rewrite (msum_delete _ (core <$> nodes c) n (core x)) by (by rewrite lookup_fmap, Hx). simpl. rewrite Hv. simpl. lia.
Qed.

Lemma same_node_trans c1 c2 c3 n : root_node c2 = root_node c1 →
  same_node c1 c2 n → same_node c2 c3 n → same_node c1 c3 n.
Proof.
  intros Er [L1 U1 S1 N1] [L2 U2 S2 N2]. split; [done|congruence|congruence|].
  intros Hr. rewrite N2, N1; congruence.
Qed.

Lemma kept_trans c1 c2 c3 H2 H3 a b : kept c1 c2 H2 a → kept c2 c3 H3 b → kept c1 c3 H3 (b ++ a).
Proof.
  intros [R1 E1 S1 N1] [R2 E2 S2 N2]. split; [done|congruence| |].
  - rewrite S2, S1. by rewrite app_assoc.
  - intros n Hn. pose proof (N1 n Hn) as Hs. eapply same_node_trans; [done|done|]. apply N2, Hs.
Qed.

(** ** The cached map *)

Lemma cached_det c H ns us vs vs' : reachable clock cfg c H →
  cached cfg c ns us vs → cached cfg c ns us vs' → vs = vs'.
Proof.
  intros Hr. pose proof (reachable_inv clock cfg Hps Hdis c H Hr) as [(P & V & Hinv) _]. by eapply cached_functional.
Qed.

Lemma cached_prefix c ns us vs us' : cached cfg c ns us vs → us' `prefix_of` us → (ps | zlen us') → us' ≠ [] →
  cached cfg c ns us' (take (length us') vs).
Proof.
  intros (n & pu & pv & Hr & Hns & Hpu & Hpv & Hpre & -> & _ & _) Hp Hd Hne. exists n, pu, pv.
  split; [done|]. split; [done|]. split; [done|]. split; [done|]. split; [by etrans|]. split; [|done].
  rewrite take_take. f_equal. pose proof (prefix_length _ _ Hp). lia.
Qed.

(** Inserting: the map and the multiset together. *)
Lemma insert_client c H key val prio ilen : reachable clock cfg c H → key_ok key → value_ok cfg key val →
  ∃ j n c' full, insert clock cfg key val prio ilen c = Ok (mkInsert j (Some n), c') ∧
    kept c c' H (drop (Z.to_nat j) (tree_value cfg key val)) ∧ (ps | j) ∧
    let k := tree_key cfg key in
    zlen full = klen k ∧ 0 ≤ j ≤ klen k ∧
    drop (Z.to_nat j) full = drop (Z.to_nat j) (tree_value cfg key val) ∧
    (0 < j → cached cfg c (knamespace key) (take (Z.to_nat j) (units k)) (take (Z.to_nat j) full)) ∧
    (∀ us vs, cached cfg c (knamespace key) us vs → us `prefix_of` units k → zlen us ≤ j) ∧
    (∀ ns us vs, cached cfg c' ns us vs ↔
       cached cfg c ns us vs ∨
       (ns = knamespace key ∧ us `prefix_of` units k ∧ vs = take (length us) full ∧ (ps | zlen us) ∧ us ≠ [])).
Proof.
  intros Hr Hk Hv.
  destruct (insert_extends clock cfg Hps Hdis c H key val prio ilen Hr Hk Hv) as (j & n & c' & full & E & _ & _ & Hrest).
  destruct (insert_kept c H key val prio ilen Hr Hk Hv) as (j' & n' & c2 & E' & Hkept & Hd).
  rewrite E in E'. injection E' as <- <- <-. by exists j, n, c', full.
Qed.

(** Matching a key all of which is cached. *)
Lemma match_client c H key full : reachable clock cfg c H → key_ok key →
  zlen full = klen (tree_key cfg key) →
  (0 < klen (tree_key cfg key) → cached cfg c (knamespace key) (units (tree_key cfg key)) full) →
  ∃ r c', match_prefix clock cfg key c = Ok (r, c') ∧ kept c c' H [] ∧
    is_Some (nodes c' !! last_device_node r) ∧
    path_units (last_device_node r) c' = Ok (units (tree_key cfg key)) ∧
    path_device_indices (last_device_node r) c' = Ok full ∧
    (last_device_node r ≠ root_node c' → node_namespace (last_device_node r) c' = Some (knamespace key)) ∧
    (∀ ns us vs, cached cfg c' ns us vs ↔ cached cfg c ns us vs).
Proof.
  intros Hr Hk Hlen Hc. set (k := tree_key cfg key) in *.
  destruct (tree_key_ok cfg Hps key Hk) as [[Hwf _] Hd]. fold k in Hwf, Hd.
  destruct (match_longest clock cfg Hps Hdis c H key Hr Hk) as (r & c' & vs & E & Hb & Hpu & Hpv & Hvs & Hhit & Hmax & Hsame).
  destruct (match_kept c H key Hr Hk) as (r' & c2 & E' & Hkept). rewrite E in E'. injection E' as <- <-.
  cbv zeta in *. fold k in Hb, Hpu, Hhit, Hmax. rewrite klen_units in * by done.
  assert (device_prefix_len r = zlen (units k)) as Hall.
  { destruct (decide (0 < zlen (units k))) as [Hpos|]; [|lia]. specialize (Hmax _ _ (Hc Hpos) (reflexivity _)). lia. }
  rewrite Hall in *. rewrite take_ge in Hpu, Hhit by (unfold zlen; lia).
  assert (vs = full) as ->.
  { destruct (decide (0 < zlen (units k))) as [Hpos|Hz].
    - eapply cached_det; [exact Hr|by apply Hhit|by apply Hc].
    - assert (zlen (units k) = 0) as E0 by (pose proof (zlen_nonneg (units k)); lia). rewrite E0 in *.
      by rewrite (zlen_nil_inv full), (zlen_nil_inv vs) by done. }
  pose proof (reachable_inv clock cfg Hps Hdis c H Hr) as [(P & V & Hinv) _].
  destruct (match_prefix_spec clock cfg Hps c P V H key Hinv Hk Hdis) as (r2 & c2 & P' & V' & seg & E2 & W).
  rewrite E in E2. injection E2 as <- <-. destruct (we_node _ _ _ _ _ _ _ _ _ _ _ _ _ W) as (x & Hx & Hxns).
  exists r, c'. split; [done|]. split; [done|]. split; [by eexists|]. split; [done|]. split; [done|]. split; [|done].
  intros Hn. unfold node_namespace. rewrite Hx. simpl. rewrite (Hxns Hn). by rewrite (tree_key_namespace cfg key Hk).
Qed.
End client.
