(* ===== verification/KvRow.v ===== *)
(** * Who owns a KV slot ([radix_cache.py], [mem_cache/common.py], [memory_pool.py])

    A running request has a row of [req_to_token] with one slot per token.  The
    prefix tree owns the first [cache_protected_len] of them (they are the slots
    of the path to the node the request has locked), the request owns the rest.
    [checkpoint] hands slots over to the tree, [release_kv_cache] gives the row
    back, [run_cleanup_step] makes a release that failed half-way resumable.
    The tree is RadixCache.v, the slot allocator is behind [PagePool]. *)
From S2P Require Import Prelude RadixKey EvictPolicy RadixCache TokenAllocator.

(** ** Data *)

Inductive ComponentType := FULL | SWA | MAMBA | C128 | AUXILIARY_SWA.

#[export] Instance ComponentType_eq_dec : EqDecision ComponentType.
Proof. solve_decision. Defined.

Record ReqKvInfo := mkKv {
  req_pool_idx : option nat;
  cache_protected_len : Z;
  cache_inserted_len : Z;
  kv_committed_len : Z;
  kv_allocated_len : Z;
  swa_evict_floor : Z;
  component_evicted_seqlens : list (ComponentType * Z);
  mamba_pool_idx : option Z
}.

(** The state of one step of an abort cleanup, with the value it returned. *)
Inductive step_result := RUnit | RBool (b : bool) | RLayout (l : option (Z * Z * Z)).
Inductive step_state := StepUnknown | StepDone (r : step_result).

Record KvReq := mkKvReq {
  k_rid : string;
  k_origin_input_ids : list Z;
  k_output_ids : list Z;
  full_untruncated_fill_ids : list Z;
  fill_ids_is_origin : bool;       (* the two names refer to one array *)
  k_input_embeds : bool;           (* input_embeds is not None *)
  k_extra_key : option string;
  k_cache_salt : option string;
  k_priority : option Z;
  reasoning_tokens : Z;
  finished_len : option Z;
  finished_reason : bool;          (* finished() *)
  skip_radix_cache_insert : bool;
  allow_radix_cache_insert_once : bool;
  k_extend_end : Z;
  k_prefix_len : Z;
  k_last_node : option nat;
  lock : option nat;               (* the node of the TreeLock *)
  dsv4_donated_swa_len : Z;
  external_kv_abort_requested : bool;
  external_kv_cleanup_steps : gmap string step_state;
  kv : ReqKvInfo
}.

Definition set_kv (f : ReqKvInfo → ReqKvInfo) (r : KvReq) : KvReq :=
  mkKvReq (k_rid r) (k_origin_input_ids r) (k_output_ids r) (full_untruncated_fill_ids r) (fill_ids_is_origin r) (k_input_embeds r)
    (k_extra_key r) (k_cache_salt r) (k_priority r) (reasoning_tokens r) (finished_len r) (finished_reason r)
    (skip_radix_cache_insert r) (allow_radix_cache_insert_once r) (k_extend_end r) (k_prefix_len r) (k_last_node r)
    (lock r) (dsv4_donated_swa_len r) (external_kv_abort_requested r) (external_kv_cleanup_steps r) (f (kv r)).
Definition set_fill (l : list Z) (alias : bool) (r : KvReq) : KvReq :=
  mkKvReq (k_rid r) (k_origin_input_ids r) (k_output_ids r) l alias (k_input_embeds r)
    (k_extra_key r) (k_cache_salt r) (k_priority r) (reasoning_tokens r) (finished_len r) (finished_reason r)
    (skip_radix_cache_insert r) (allow_radix_cache_insert_once r) (k_extend_end r) (k_prefix_len r) (k_last_node r)
    (lock r) (dsv4_donated_swa_len r) (external_kv_abort_requested r) (external_kv_cleanup_steps r) (kv r).
Definition set_lock (l : option nat) (r : KvReq) : KvReq :=
  mkKvReq (k_rid r) (k_origin_input_ids r) (k_output_ids r) (full_untruncated_fill_ids r) (fill_ids_is_origin r) (k_input_embeds r)
    (k_extra_key r) (k_cache_salt r) (k_priority r) (reasoning_tokens r) (finished_len r) (finished_reason r)
    (skip_radix_cache_insert r) (allow_radix_cache_insert_once r) (k_extend_end r) (k_prefix_len r) (k_last_node r)
    l (dsv4_donated_swa_len r) (external_kv_abort_requested r) (external_kv_cleanup_steps r) (kv r).
Definition set_last_node (n : option nat) (r : KvReq) : KvReq :=
  mkKvReq (k_rid r) (k_origin_input_ids r) (k_output_ids r) (full_untruncated_fill_ids r) (fill_ids_is_origin r) (k_input_embeds r)
    (k_extra_key r) (k_cache_salt r) (k_priority r) (reasoning_tokens r) (finished_len r) (finished_reason r)
    (skip_radix_cache_insert r) (allow_radix_cache_insert_once r) (k_extend_end r) (k_prefix_len r) n
    (lock r) (dsv4_donated_swa_len r) (external_kv_abort_requested r) (external_kv_cleanup_steps r) (kv r).
Definition set_prefix (p : Z) (once : bool) (r : KvReq) : KvReq :=
  mkKvReq (k_rid r) (k_origin_input_ids r) (k_output_ids r) (full_untruncated_fill_ids r) (fill_ids_is_origin r) (k_input_embeds r)
    (k_extra_key r) (k_cache_salt r) (k_priority r) (reasoning_tokens r) (finished_len r) (finished_reason r)
    (skip_radix_cache_insert r) once (k_extend_end r) p (k_last_node r)
    (lock r) (dsv4_donated_swa_len r) (external_kv_abort_requested r) (external_kv_cleanup_steps r) (kv r).
Definition set_donated (d : Z) (r : KvReq) : KvReq :=
  mkKvReq (k_rid r) (k_origin_input_ids r) (k_output_ids r) (full_untruncated_fill_ids r) (fill_ids_is_origin r) (k_input_embeds r)
    (k_extra_key r) (k_cache_salt r) (k_priority r) (reasoning_tokens r) (finished_len r) (finished_reason r)
    (skip_radix_cache_insert r) (allow_radix_cache_insert_once r) (k_extend_end r) (k_prefix_len r) (k_last_node r)
    (lock r) d (external_kv_abort_requested r) (external_kv_cleanup_steps r) (kv r).
Definition set_steps (f : gmap string step_state → gmap string step_state) (r : KvReq) : KvReq :=
  mkKvReq (k_rid r) (k_origin_input_ids r) (k_output_ids r) (full_untruncated_fill_ids r) (fill_ids_is_origin r) (k_input_embeds r)
    (k_extra_key r) (k_cache_salt r) (k_priority r) (reasoning_tokens r) (finished_len r) (finished_reason r)
    (skip_radix_cache_insert r) (allow_radix_cache_insert_once r) (k_extend_end r) (k_prefix_len r) (k_last_node r)
    (lock r) (dsv4_donated_swa_len r) (external_kv_abort_requested r) (f (external_kv_cleanup_steps r)) (kv r).

Definition set_extend (e : Z) (r : KvReq) : KvReq :=
  mkKvReq (k_rid r) (k_origin_input_ids r) (k_output_ids r) (full_untruncated_fill_ids r) (fill_ids_is_origin r) (k_input_embeds r)
    (k_extra_key r) (k_cache_salt r) (k_priority r) (reasoning_tokens r) (finished_len r) (finished_reason r)
    (skip_radix_cache_insert r) (allow_radix_cache_insert_once r) e (k_prefix_len r) (k_last_node r)
    (lock r) (dsv4_donated_swa_len r) (external_kv_abort_requested r) (external_kv_cleanup_steps r) (kv r).

Definition set_output (l : list Z) (r : KvReq) : KvReq :=
  mkKvReq (k_rid r) (k_origin_input_ids r) l (full_untruncated_fill_ids r) (fill_ids_is_origin r) (k_input_embeds r)
    (k_extra_key r) (k_cache_salt r) (k_priority r) (reasoning_tokens r) (finished_len r) (finished_reason r)
    (skip_radix_cache_insert r) (allow_radix_cache_insert_once r) (k_extend_end r) (k_prefix_len r) (k_last_node r)
    (lock r) (dsv4_donated_swa_len r) (external_kv_abort_requested r) (external_kv_cleanup_steps r) (kv r).

Definition kv_with (idx : option nat) (cpl cil alloc : Z) (ev : list (ComponentType * Z)) (k : ReqKvInfo) : ReqKvInfo :=
  mkKv idx cpl cil (kv_committed_len k) alloc (swa_evict_floor k) ev (mamba_pool_idx k).
Definition set_protected (z : Z) (k : ReqKvInfo) : ReqKvInfo :=
  kv_with (req_pool_idx k) z (cache_inserted_len k) (kv_allocated_len k) (component_evicted_seqlens k) k.
Definition set_inserted (z : Z) (k : ReqKvInfo) : ReqKvInfo :=
  kv_with (req_pool_idx k) (cache_protected_len k) z (kv_allocated_len k) (component_evicted_seqlens k) k.
Definition set_pool_idx (o : option nat) (k : ReqKvInfo) : ReqKvInfo :=
  kv_with o (cache_protected_len k) (cache_inserted_len k) (kv_allocated_len k) (component_evicted_seqlens k) k.
Definition mark_kv_released (k : ReqKvInfo) : ReqKvInfo :=
  kv_with (req_pool_idx k) (cache_protected_len k) (cache_inserted_len k) 0 [] k.

(** ** [ReqKvInfo] *)

Definition holds_kv (k : ReqKvInfo) : bool := bool_decide (req_pool_idx k ≠ None).
Definition holds_mamba (k : ReqKvInfo) : bool := bool_decide (mamba_pool_idx k ≠ None).

Definition get_evicted_seqlen (t : ComponentType) (k : ReqKvInfo) : Z :=
  match list_find (λ p, p.1 = t) (component_evicted_seqlens k) with Some (_, (_, z)) => z | None => 0 end.

Definition max_evicted_seqlen (k : ReqKvInfo) : Z :=
  match (component_evicted_seqlens k).*2 with [] => 0 | z :: l => foldl Z.max z l end.

Definition is_kv_released (k : ReqKvInfo) : bool := (kv_allocated_len k =? 0) && (max_evicted_seqlen k =? 0).

Definition swa_dead_lo (page_size : Z) (k : ReqKvInfo) : Z :=
  let lo := Z.max (cache_protected_len k) (swa_evict_floor k) in
  if (1 <? page_size) && (cache_protected_len k <? lo) then ceil_align lo page_size else lo.

(** ** [ReqToTokenPool] *)

Record ReqToTokenPool := mkRows {
  req_to_token : gmap nat (list Z);
  free_slots : list nat;
  req_generation : gmap nat Z
}.

Definition rows_init (size max_context_len : nat) : ReqToTokenPool :=
  mkRows (list_to_map ((λ i, (i, replicate max_context_len 0)) <$> seq 0 (S size))) (seq 1 size)
    (list_to_map ((λ i, (i, 0)) <$> seq 0 (S size))).

(** [alloc_rows]: the last [need_size] free rows, in their order. *)
Definition alloc_rows (need_size : nat) (p : ReqToTokenPool) : option (list nat) * ReqToTokenPool :=
  let n := length (free_slots p) in
  if (n <? need_size)%nat then (None, p)
  else if (need_size =? 0)%nat then (Some [], p)
  else
    let select_index := drop (n - need_size) (free_slots p) in
    (Some select_index,
     mkRows (req_to_token p) (take (n - need_size) (free_slots p))
       (foldl (λ g i, alter (Z.add 1) i g) (req_generation p) select_index)).

(** [alloc]: rows for the requests that hold none. *)
Fixpoint bind_rows (reqs : list KvReq) (select_index : list nat) : list KvReq :=
  match reqs with
  | [] => []
  | r :: reqs =>
      if holds_kv (kv r) then r :: bind_rows reqs select_index
      else match select_index with
           | i :: rest => set_kv (set_pool_idx (Some i)) r :: bind_rows reqs rest
           | [] => r :: bind_rows reqs []
           end
  end.

Definition rows_alloc (reqs : list KvReq) (p : ReqToTokenPool) :
    result (option (list nat) * list KvReq * ReqToTokenPool) :=
  let reusing := filter (λ r, holds_kv (kv r) = true) reqs in
  assert! forallb (λ r, 0 <? kv_allocated_len (kv r)) reusing in
  match alloc_rows (length reqs - length reusing) p with
  | (None, p) => Ok (None, reqs, p)
  | (Some sel, p) =>
      let reqs := bind_rows reqs sel in
      Ok (Some (omap (λ r, req_pool_idx (kv r)) reqs), reqs, p)
  end.

Definition free_rows (indices : list nat) (p : ReqToTokenPool) : ReqToTokenPool :=
  mkRows (req_to_token p) (free_slots p ++ indices) (req_generation p).

Definition rows_free (r : KvReq) (p : ReqToTokenPool) : result (KvReq * ReqToTokenPool) :=
  match req_pool_idx (kv r) with
  | None => Raise AssertionError
  | Some i => Ok (set_kv (set_pool_idx None) r, free_rows [i] p)
  end.

Definition get_row (idx : option nat) (p : ReqToTokenPool) : result (list Z) :=
  match idx with
  | Some i => match req_to_token p !! i with Some row => Ok row | None => Raise IndexError end
  | None => Raise TypeError
  end.

(** [write((idx, slice(start, stop)), values)]; the callers pass as many values
    as the slice has places, anything else is an error here. *)
Definition rows_write (idx : option nat) (start stop : Z) (values : list Z) (p : ReqToTokenPool) : result ReqToTokenPool :=
  let! row := get_row idx p in
  let lo := norm_idx (zlen row) start in
  let hi := Z.max lo (norm_idx (zlen row) stop) in
  if negb (hi - lo =? zlen values) then Raise RuntimeError
  else
    let row := pytake row lo ++ values ++ pydrop row hi in
    Ok (mkRows (match idx with Some i => <[ i := row ]> (req_to_token p) | None => req_to_token p end)
          (free_slots p) (req_generation p)).

(** ** Fill ids *)

Definition refresh_fill_ids (r : KvReq) : KvReq :=
  let n_have_output := zlen (full_untruncated_fill_ids r) - zlen (k_origin_input_ids r) in
  if negb (fill_ids_is_origin r) && (0 <=? n_have_output) && (n_have_output <=? zlen (k_output_ids r)) then
    set_fill (full_untruncated_fill_ids r ++ pydrop (k_output_ids r) n_have_output) false r
  else set_fill (k_origin_input_ids r ++ k_output_ids r) false r.

Definition output_ids_through_stop (r : KvReq) : list Z :=
  match finished_len r with Some n => pytake (k_output_ids r) n | None => k_output_ids r end.

Definition owned_kv_len (strip_thinking_cache : bool) (r : KvReq) : Z :=
  if strip_thinking_cache && (0 <? reasoning_tokens r) then
    Z.min (kv_committed_len (kv r)) (zlen (k_origin_input_ids r))
  else match finished_len r with
       | None => kv_committed_len (kv r)
       | Some _ => Z.min (kv_committed_len (kv r))
                     (zlen (k_origin_input_ids r) + zlen (output_ids_through_stop r))
       end.

(** [_compute_max_prefix_len]; [caps] are the caps that apply to the request
    (a block offset, a logprob start, a hidden-state prefix). *)
Definition _compute_max_prefix_len (caps : list Z) (input_len : Z) : Z :=
  Z.max (foldl Z.min (input_len - 1) caps) 0.

(** What [match_kv_cache] and [init_next_round_input] store of a match in a
    radix tree, which reports no protected length of its own. *)
Definition adopt_match (m : MatchResult) (r : KvReq) : KvReq :=
  set_kv (set_protected (device_prefix_len m))
    (set_last_node (Some (last_device_node m)) (set_prefix (device_prefix_len m) (allow_radix_cache_insert_once r) r)).

(** Before admission [extend_end] is [None] in the code; nothing reads it then,
    and it is 0 here.  Counters, log probabilities, hidden states and the mamba
    positions that are reset too are not in the record. *)
Definition reset_for_retract (r : KvReq) : result KvReq :=
  let r := set_kv (λ k, mkKv (req_pool_idx k) 0 0 (kv_committed_len k) (kv_allocated_len k) (swa_evict_floor k)
                          (component_evicted_seqlens k) None)
             (set_lock None (set_last_node None (set_prefix 0 (allow_radix_cache_insert_once r) (set_extend 0 r)))) in
  assert! negb (holds_kv (kv r)) in
  let r := set_kv (λ k, mkKv (req_pool_idx k) (cache_protected_len k) (cache_inserted_len k) 0 (kv_allocated_len k) (swa_evict_floor k)
                          (component_evicted_seqlens k) (mamba_pool_idx k)) r in
  Ok (if k_input_embeds r then set_output [] r else r).

(** ** Rows and the tree *)

Record world (A : Type) := mkWorld {
  cache : RadixCache;
  pool : A;
  rows : ReqToTokenPool
}.
Arguments mkWorld {A} _ _ _.
Arguments cache {A} _.
Arguments pool {A} _.
Arguments rows {A} _.

(** [torch.iinfo(torch.int64).max]. *)
Definition int64_max : Z := 2 ^ 63 - 1.

Fixpoint coalesce_ranges (merged : list (Z * Z)) (ranges : list (Z * Z)) : list (Z * Z) :=
  match ranges with
  | [] => merged
  | (start, stop) :: ranges =>
      match last merged with
      | Some (a, b) => if start =? b then coalesce_ranges (removelast merged ++ [(a, stop)]) ranges
                       else coalesce_ranges (merged ++ [(start, stop)]) ranges
      | None => coalesce_ranges [(start, stop)] ranges
      end
  end.

(** ** Freeing the segments of a row *)

Section segments.
(** The page size, and [free_segment] and [free_full_segment] of the allocator. *)
Context {A : Type} (p : Z) (free_segment free_full_segment : A → list Z → Z → result A).

(** [_page_disjoint] and the loop of [free_segments] or [free_full_segments]. *)
Fixpoint free_page_disjoint (free : A → list Z → Z → result A) (prev_end : option Z)
    (segments : list (list Z * Z)) (a : A) : result A :=
  match segments with
  | [] => Ok a
  | (free_index, start_pos) :: segments =>
      let n := zlen free_index in
      if n =? 0 then free_page_disjoint free prev_end segments a
      else
        assert! match prev_end with None => true | Some e => (e - 1) / p <? start_pos / p end in
        let! a := free a free_index start_pos in
        free_page_disjoint free (Some (start_pos + n)) segments a
  end.

(** One segment cut at the dead range: its dead part and its live parts. *)
Definition cut_segment (dead_lo dead_hi : Z) (seg : list Z * Z) : list (list Z * Z) * list (list Z * Z) :=
  let (kv_indices, start_pos) := seg in
  let end_pos := start_pos + zlen kv_indices in
  let lo := Z.min (Z.max dead_lo start_pos) end_pos in
  let hi := Z.min (Z.max dead_hi start_pos) end_pos in
  if hi <=? lo then ([], [(kv_indices, start_pos)])
  else
    ([(pyslice kv_indices (lo - start_pos) (hi - start_pos), lo)],
     (if start_pos <? lo then [(pytake kv_indices (lo - start_pos), start_pos)] else [])
     ++ (if hi <? end_pos then [(pydrop kv_indices (hi - start_pos), hi)] else [])).

Definition free_kv_row_segments (segments : list (list Z * Z)) (swa_evicted_seqlen swa_dead_lo : Z) (a : A) : result A :=
  let dead_hi := Z.max swa_evicted_seqlen swa_dead_lo in
  let cuts := cut_segment swa_dead_lo dead_hi <$> segments in
  let swa_dead := mjoin cuts.*1 in
  let swa_alive := mjoin cuts.*2 in
  assert! negb (negb (bool_decide (swa_dead = [])) && negb (bool_decide (swa_alive = [])))
          || (swa_evicted_seqlen mod p =? 0) in
  let! a := if bool_decide (swa_dead = []) then Ok a
            else free_page_disjoint free_full_segment None swa_dead a in
  if bool_decide (swa_alive = []) then Ok a else free_page_disjoint free_segment None swa_alive a.

End segments.

Section ops.
Context {A : Type} `{!PagePool A} (clock : nat → Z) (cfg : cache_config).
(** [free_full_segment] of the allocator. *)
Context (pool_free_full_segment : A → list Z → Z → result A).
(** [strip_thinking_cache], and whether a speculative algorithm is configured. *)
Context (strip_thinking_cache speculative : bool).
Abbreviation ps := (page_size cfg).

Definition free_kv_row (k : ReqKvInfo) (ranges : list (Z * Z)) (w : world A) : result (world A) :=
  let! row := get_row (req_pool_idx k) (rows w) in
  let segments := (λ r, (pyslice row r.1 r.2, r.1)) <$> coalesce_ranges [] ranges in
  let page := pool_page_size (pool w) in
  let! a := free_kv_row_segments page pool_free_segment pool_free_full_segment segments
              (get_evicted_seqlen SWA k) (swa_dead_lo page k) (pool w) in
  Ok (mkWorld (cache w) a (rows w)).

Definition tree_lock (n : nat) (c : RadixCache) : result RadixCache :=
  let! (_, c) := inc_lock_ref cfg n c in Ok c.
Definition tree_unlock (l : option nat) (c : RadixCache) : result RadixCache :=
  match l with Some n => let! (_, c) := dec_lock_ref cfg n c in Ok c | None => Ok c end.

(** [init_next_round_input]; [embed] says that embedding overrides are present. *)
Definition init_next_round_input (embed : bool) (caps : list Z) (r : KvReq) (w : world A) : result (KvReq * world A) :=
  let r := refresh_fill_ids r in
  let fill := full_untruncated_fill_ids r in
  let key := if embed then RadixKey_init [] (k_extra_key r) false None (k_cache_salt r)
             else RadixKey_init fill (k_extra_key r) false (Some (_compute_max_prefix_len caps (zlen fill))) (k_cache_salt r) in
  let! (m, c) := match_prefix clock cfg key (cache w) in
  Ok (adopt_match m r, mkWorld c (pool w) (rows w)).

(** The lock and the bounds of [_commit_prefill_admission]. *)
Definition lock_admitted (extend_len : Z) (r : KvReq) (w : world A) : result (KvReq * world A) :=
  match k_last_node r with
  | None => Raise AttributeError
  | Some n =>
      let! c := tree_lock n (cache w) in
      Ok (set_lock (Some n) (set_extend (k_prefix_len r + extend_len) r), mkWorld c (pool w) (rows w))
  end.

Definition row_key (r : KvReq) (token_ids : list Z) : RadixKey :=
  page_aligned (RadixKey_init token_ids (k_extra_key r) (is_eagle cfg) None (k_cache_salt r)) ps.

(** The second insert of [_insert_cache]: a split at the prompt boundary. *)
Definition split_at_prompt (r : KvReq) (token_ids values : list Z) (key_len priority : Z) (c : RadixCache) :
    result RadixCache :=
  let prompt_key := row_key r (pytake token_ids (zlen (k_origin_input_ids r))) in
  let n := klen prompt_key in
  if (0 <? n) && (n <? key_len) then
    let! (_, c) := insert clock cfg prompt_key (Some (pytake values n)) (Some (Z.min (priority + 1) int64_max)) n c in
    Ok c
  else Ok c.

Definition _insert_cache (r : KvReq) (token_ids : list Z) (key_limit : option Z) (split_prompt : bool) (w : world A) :
    result (RadixKey * list Z * Z * KvReq * world A) :=
  let! row := get_row (req_pool_idx (kv r)) (rows w) in
  let kv_indices := pytake row (zlen token_ids) in
  let radix_key := row_key r token_ids in
  let radix_key := match key_limit with Some l => ktake radix_key l | None => radix_key end in
  let key_len := klen radix_key in
  let values := pytake kv_indices key_len in
  let priority := default 0 (k_priority r) in
  let! (res, c) := insert clock cfg radix_key (Some values) (Some priority) (cache_inserted_len (kv r)) (cache w) in
  let r := set_kv (λ k, set_inserted (Z.max (cache_inserted_len k) key_len) k) r in
  let! c := if split_prompt then split_at_prompt r token_ids values key_len priority c else Ok c in
  let cpl := cache_protected_len (kv r) in
  let! a := pool_free_segment (pool w) (pyslice kv_indices cpl (prefix_len res)) cpl in
  Ok (radix_key, kv_indices, prefix_len res, r, mkWorld c a (rows w)).

Definition checkpoint (r : KvReq) (up_to : Z) (w : world A) : result (KvReq * world A) :=
  if disable cfg then Ok (r, w)
  else
    let token_ids := pytake (full_untruncated_fill_ids r) up_to in
    let floor := swa_evict_floor (kv r) in
    let key_limit := if 0 <? floor then Some (ceil_align floor ps) else None in
    let! (radix_key, _, _, r, w) := _insert_cache r token_ids key_limit true w in
    let! (m, c) := match_prefix clock cfg radix_key (cache w) in
    let new_last_node := last_device_node m in
    let! new_indices := path_device_indices new_last_node c in
    assert! zlen new_indices =? klen radix_key in
    let cpl := cache_protected_len (kv r) in
    let! rs := rows_write (req_pool_idx (kv r)) cpl (zlen new_indices) (pydrop new_indices cpl) (rows w) in
    let r := set_kv (set_protected (zlen new_indices)) r in
    let! c := tree_unlock (lock r) c in
    let! c := tree_lock new_last_node c in
    Ok (set_last_node (Some new_last_node) (set_lock (Some new_last_node) r), mkWorld c (pool w) rs).

Definition checkpoint_kv_cache (r : KvReq) (w : world A) : result (KvReq * world A) :=
  assert! negb (finished_reason r) in
  let! (r, w) :=
    if negb (skip_radix_cache_insert r) || allow_radix_cache_insert_once r then
      checkpoint (set_prefix (k_prefix_len r) false r) (k_extend_end r) w
    else Ok (r, w) in
  Ok (set_prefix (k_extend_end r) (allow_radix_cache_insert_once r) r, w).

(** ** Release *)

Definition _release_overallocated_kv_indices (r : KvReq) (start_p end_p : Z) (w : world A) : result (world A) :=
  let page := pool_page_size (pool w) in
  assert! speculative || strip_thinking_cache || (start_p =? end_p)
          || match finished_len r with
             | Some n => zlen (k_origin_input_ids r) + n <? kv_committed_len (kv r)
             | None => false
             end in
  let start_p := if 1 <? page then ceil_align start_p page else start_p in
  if start_p <? end_p then free_kv_row (kv r) [(start_p, end_p)] w else Ok w.

(** [_release_donated_swa_slots]: the allocators of [PagePool] have no
    [free_swa], so only the mark is cleared. *)
Definition _release_donated_swa_slots (r : KvReq) : KvReq :=
  if (dsv4_donated_swa_len r <=? 0) || negb (holds_kv (kv r)) then r else set_donated 0 r.

Definition free_request_row (r : KvReq) (w : world A) : result (KvReq * world A) :=
  let! (r, rs) := rows_free r (rows w) in Ok (r, mkWorld (cache w) (pool w) rs).

(** [release_kv_cache] from the free of the row's tail on. *)
Definition release_row (r : KvReq) (owned : Z) (w : world A) : result (KvReq * world A) :=
  let! w := free_kv_row (kv r) [(cache_protected_len (kv r), owned)] w in
  let! c := tree_unlock (lock r) (cache w) in
  let r := set_lock None r in
  let! w := _release_overallocated_kv_indices r owned (kv_allocated_len (kv r)) (mkWorld c (pool w) (rows w)) in
  let! (r, w) := free_request_row (_release_donated_swa_slots r) w in
  Ok (set_kv mark_kv_released r, w).

(** The normal path of [release_kv_cache]; the radix tree claims no rows, has no
    Mamba state and keeps nothing per request. *)
Definition release_kv_cache (r : KvReq) (ckpt : bool) (w : world A) : result (KvReq * world A) :=
  assert! Bool.eqb (negb (holds_kv (kv r))) (is_kv_released (kv r)) in
  assert! holds_kv (kv r) in
  let owned := owned_kv_len strip_thinking_cache r in
  let! (r, w) := if ckpt && negb (skip_radix_cache_insert r) then checkpoint (refresh_fill_ids r) owned w
                 else Ok (r, w) in
  release_row r owned w.

(** [evict], with the free of every victim's slots. *)
Fixpoint free_evicted (freed : list (list Z)) (a : A) : result A :=
  match freed with
  | [] => Ok a
  | v :: freed => let! a := pool_free_segment a v 0 in free_evicted freed a
  end.

Definition evict_kv {HQ : HeapQ entry entry_le} (num_tokens : Z) (leaves : list nat) (w : world A) : result (Z * world A) :=
  let! (n, freed, c) := evict cfg num_tokens leaves (cache w) in
  let! a := free_evicted freed (pool w) in
  Ok (n, mkWorld c a (rows w)).
End ops.
