(* ===== verification/KvTheorems.v ===== *)
(** * Slots are neither lost nor owned twice

    [kv_ok] says who owns what: the pages in use of the allocator are, each
    once, those the tree stores, those in the own part of a request's row and
    those of everybody else.  [checkpoint] and [release_kv_cache] keep it. *)
From S2P Require Import Prelude RadixKey EvictPolicy RadixCache RadixInv RadixOps RadixInsert RadixLock RadixEvict RadixSpec RadixTheorems RadixClient TokenAllocator KvRow.

(** ** Pages of a slot list *)

(** The pages whose first slot is in a list. *)
Definition head_pages (ps : Z) (l : list Z) : list Z := (λ s, s / ps) <$> filter (λ s, s mod ps = 0) l.

(** The slots of a row come in pages: slot [i] lies [i mod ps] slots after the
    first slot of its page, which is aligned. *)
Definition paged (ps : Z) (l : list Z) : Prop := ∀ i x, l !! i = Some x →
  let p := Z.to_nat ps in ∃ y, l !! (i / p * p)%nat = Some y ∧ x = y + Z.of_nat (i mod p) ∧ y mod ps = 0.

Lemma list_filter_nil {A} (P : A → Prop) `{!∀ x, Decision (P x)} (l : list A) :
  (∀ i x, l !! i = Some x → ¬ P x) → filter P l = [].
Proof.
  induction l as [|y l IH]; intros Hn; [done|]. rewrite filter_cons_False by (by apply (Hn 0%nat)).
  apply IH. intros i x Hx. by apply (Hn (S i)).
Qed.

Section pages.
Context (ps : Z) (Hps : 0 < ps).

Lemma head_pages_app l1 l2 : head_pages ps (l1 ++ l2) = head_pages ps l1 ++ head_pages ps l2.
Proof. unfold head_pages. by rewrite filter_app, fmap_app. Qed.

#[export] Instance head_pages_perm : Proper ((≡ₚ) ==> (≡ₚ)) (head_pages ps).
Proof. intros l1 l2 H. unfold head_pages. by rewrite H. Qed.

Lemma paged_mod l i x : paged ps l → l !! i = Some x → x mod ps = Z.of_nat i mod ps.
Proof.
  intros H Hi. destruct (H i x Hi) as (y & _ & -> & Hy). rewrite <- Zplus_mod_idemp_l, Hy, Z.add_0_l, Nat2Z.inj_mod.
  rewrite Z2Nat.id by lia. apply Z.mod_mod. lia.
Qed.

Lemma paged_take n l : paged ps l → paged ps (take n l).
Proof.
  intros H i x Hi. apply lookup_take_Some in Hi as [Hi Hlt]. destruct (H i x Hi) as (y & Hy & Hx). exists y. split; [|done].
  rewrite lookup_take_lt; [done|]. pose proof (Nat.Div0.mul_div_le i (Z.to_nat ps)). lia.
Qed.

Lemma page_index (n i : nat) : (ps | Z.of_nat n) → let p := Z.to_nat ps in
  ((n + i) / p * p = n + i / p * p ∧ (n + i) mod p = i mod p)%nat.
Proof.
  intros [q Hq]. cbv zeta. set (p := Z.to_nat ps). assert (p ≠ 0)%nat as Hp by lia.
  assert (n = Z.to_nat q * p)%nat as -> by nia. split.
  - rewrite Nat.div_add_l by done. lia.
  - rewrite Nat.add_comm, Nat.Div0.mod_add. done.
Qed.

Lemma paged_drop n l : (ps | Z.of_nat n) → paged ps l → paged ps (drop n l).
Proof.
  intros Hd H i x Hi. rewrite lookup_drop in Hi. destruct (H _ _ Hi) as (y & Hy & Hx & Hm).
  destruct (page_index n i Hd) as [E1 E2]. rewrite E1 in Hy. rewrite E2 in Hx. exists y. by rewrite lookup_drop.
Qed.

Lemma paged_app l1 l2 : (ps | zlen l1) → paged ps l1 → paged ps l2 → paged ps (l1 ++ l2).
Proof.
  intros Hd H1 H2 i x Hi. apply lookup_app_Some in Hi as [Hi|[Hge Hi]].
  - destruct (H1 i x Hi) as (y & Hy & Hx). exists y. split; [|done]. by apply lookup_app_l_Some.
  - destruct (H2 _ _ Hi) as (y & Hy & Hx & Hm). destruct (page_index (length l1) (i - length l1) Hd) as [E1 E2].
    replace (length l1 + (i - length l1))%nat with i in E1, E2 by lia. exists y. rewrite E1, E2. split; [|done].
    rewrite lookup_app_r by lia. rewrite <- Hy. f_equal. lia.
Qed.

(** The first page of a list. *)
Lemma head_pages_first x l : paged ps (x :: l) → head_pages ps (take (Z.to_nat ps) (x :: l)) = [x / ps].
Proof.
  intros Hl. assert (x mod ps = 0) as Hx by (rewrite (paged_mod _ 0%nat x Hl eq_refl); apply Z.mod_0_l; lia).
  destruct (Z.to_nat ps) as [|k] eqn:Ek; [lia|]. cbn [take]. unfold head_pages.
  rewrite filter_cons_True, fmap_cons by done. f_equal. rewrite list_filter_nil; [done|].
  intros i s Hs. apply lookup_take_Some in Hs as [Hs Hi]. rewrite (paged_mod _ (S i) s Hl Hs), Z.mod_small by lia. lia.
Qed.

Lemma paged_rest l : paged ps l → paged ps (drop (Z.to_nat ps) l).
Proof. apply paged_drop. exists 1. lia. Qed.

(** A list that starts at a page boundary names its pages in its first slots. *)
Lemma segment_pages_head l : paged ps l → segment_pages ps l = head_pages ps l.
Proof.
  unfold segment_pages. assert (∀ fuel l, (length l ≤ fuel)%nat → paged ps l →
    (λ x, x / ps) <$> every_nth fuel (Z.to_nat ps) l = head_pages ps l) as Hg; [|intros; by apply Hg].
  intros fuel. induction fuel as [|fuel IH]; intros [|x l'] Hf Hl; try done; [simpl in Hf; lia|].
  cbn [every_nth]. rewrite fmap_cons, IH.
  - rewrite <- (take_drop (Z.to_nat ps) (x :: l')) at 2. by rewrite head_pages_app, head_pages_first.
  - rewrite length_drop. simpl in *. lia.
  - by apply paged_rest.
Qed.

(** Whole pages: one first slot per [ps] slots. *)
Lemma head_pages_count l : paged ps l → (ps | zlen l) → zlen (head_pages ps l) * ps = zlen l.
Proof.
  intros Hl [q Hq]. assert (0 ≤ q) as Hq0 by (pose proof (zlen_nonneg l); nia). revert l Hl Hq.
  pattern q. apply natlike_ind; [|clear q Hq0|done].
  - intros l _ Hq. by rewrite (zlen_nil_inv l Hq).
  - intros q Hq0 IH l Hl Hq. destruct l as [|x l]; [unfold zlen in Hq; simpl in Hq; lia|].
    rewrite <- (take_drop (Z.to_nat ps) (x :: l)) at 1. rewrite head_pages_app, head_pages_first, zlen_app by done.
    specialize (IH (drop (Z.to_nat ps) (x :: l)) (paged_rest _ Hl)). unfold zlen in *. rewrite length_drop in IH. cbn [length] in *. nia.
Qed.
End pages.

(** ** The key of a row *)

(** The units of a token list. *)
Definition row_units (eagle : bool) (toks : list Z) : list logical_unit :=
  if eagle then bigrams toks else UTok <$> toks.

Lemma row_units_take eagle toks m : row_units eagle (take m toks) `prefix_of` row_units eagle toks.
Proof.
  unfold row_units. destruct eagle.
  - rewrite <- (take_drop m toks) at 2. generalize (take m toks) as a, (drop m toks) as b. clear.
    induction a as [|x a IH]; intros b; [apply prefix_nil|]. unfold bigrams in *. simpl.
    destruct a as [|y a]; simpl; [apply prefix_nil|]. apply prefix_cons, IH.
  - rewrite fmap_take. apply take_prefix_of.
Qed.

Lemma prefix_take_app {A} (a b : list A) n : a `prefix_of` b → (n ≤ length a)%nat → take n a = take n b.
Proof. intros [t ->] Hn. by rewrite take_app_le. Qed.

Section kv.
Context {A : Type} `{!PagePool A} (clock : nat → Z) (cfg : cache_config) {HQ : HeapQ entry entry_le}.
Context (free_full : A → list Z → Z → result A) (strip speculative : bool).
Abbreviation ps := (page_size cfg).
Context (Hps : 0 < ps) (Hdis : disable cfg = false).

Definition row_ns (r : KvReq) : option string * option string :=
  knamespace (RadixKey_init [] (k_extra_key r) false None (k_cache_salt r)).

Record row_key_spec (r : KvReq) (toks : list Z) (k : RadixKey) : Prop := {
  rk_ok : key_ok k;
  rk_tree_units : units (tree_key cfg k) = units k;
  rk_tree_len : klen (tree_key cfg k) = klen k;
  rk_namespace : knamespace k = row_ns r;
  rk_all_units : units k = take (Z.to_nat (klen k)) (row_units (is_eagle cfg) toks);
  rk_pages : (ps | klen k);
  rk_bounds : 0 ≤ klen k ≤ zlen toks
}.

Lemma row_key_ok r toks : row_key_spec r toks (row_key cfg r toks).
Proof.
  unfold row_key. set (k0 := RadixKey_init toks _ _ _ _).
  assert (wf_key k0) as Hwf by done.
  assert (cache_salt k0 ≠ Some "") as Hsalt by (unfold k0, RadixKey_init; simpl; by destruct (k_cache_salt r) as [[]|]).
  assert (units k0 = row_units (is_eagle cfg) toks) as Hu.
  { unfold units, raw_token_ids, k0, RadixKey_init, _raw_len. simpl. by rewrite Z.eqb_refl. }
  assert (klen k0 = zlen (row_units (is_eagle cfg) toks)) as Hl by (by rewrite klen_units, Hu).
  set (k := page_aligned k0 ps).
  assert (wf_key k) as Hwfk by (by apply page_aligned_wf).
  assert (klen k = page_align_floor (klen k0) ps) as Hlk by (by apply klen_page_aligned).
  pose proof (klen_nonneg k0 Hwf) as Hn0.
  pose proof (page_align_floor_nonneg ps Hps (klen k0) Hn0). pose proof (page_align_floor_le ps Hps (klen k0)).
  assert ((ps | klen k)) as Hd by (rewrite Hlk; apply page_align_floor_divide).
  assert (tree_key cfg k = page_aligned k ps) as Htk.
  { unfold tree_key, maybe_to_bigram_view. enough (is_eagle cfg && negb (is_bigram k) = false) as -> by done.
    assert (is_bigram k = is_eagle cfg) as ->; [|by destruct (is_eagle cfg)].
    unfold k, page_aligned. destruct (_ =? 1); [done|]. unfold ktake. by rewrite kslice_bigram. }
  assert (units (tree_key cfg k) = units k) as Htu.
  { rewrite Htk, page_aligned_units by done. rewrite page_align_floor_id by done.
    apply take_ge. rewrite klen_units by done. unfold zlen. lia. }
  split.
  - split; [done|]. unfold k, page_aligned. destruct (_ =? 1); [done|apply kslice_salt].
  - done.
  - rewrite !klen_units, Htu; [done|done|]. rewrite Htk. by apply page_aligned_wf.
  - unfold k, page_aligned. destruct (_ =? 1); [done|]. unfold ktake. by rewrite kslice_namespace.
  - rewrite Hlk, <- Hu. by apply page_aligned_units.
  - done.
  - split; [by apply klen_nonneg|]. rewrite Hl in *. enough (zlen (row_units (is_eagle cfg) toks) ≤ zlen toks) by lia.
    unfold row_units, zlen. destruct (is_eagle cfg); [rewrite length_bigrams; lia|rewrite length_fmap; lia].
Qed.

(** The length of a row's key. *)
Definition key_len (n : Z) : Z := page_align_floor (if is_eagle cfg then Z.max 0 (n - 1) else n) ps.

Lemma row_key_len r toks : klen (row_key cfg r toks) = key_len (zlen toks).
Proof.
  unfold row_key, key_len. rewrite klen_page_aligned by done. f_equal. rewrite klen_units by done.
  unfold units, raw_token_ids, RadixKey_init, _raw_len. simpl. rewrite Z.eqb_refl. unfold row_units, zlen.
  destruct (is_eagle cfg); [rewrite length_bigrams; lia|by rewrite length_fmap].
Qed.

Lemma key_len_mono m n : m ≤ n → key_len m ≤ key_len n.
Proof. intros. apply page_align_floor_mono; [done|]. destruct (is_eagle cfg); lia. Qed.

Lemma key_len_le n : 0 ≤ n → 0 ≤ key_len n ≤ n.
Proof.
  intros. unfold key_len. set (m := if is_eagle cfg then _ else _). assert (0 ≤ m ≤ n) by (unfold m; destruct (is_eagle cfg); lia).
  pose proof (page_align_floor_nonneg ps Hps m). pose proof (page_align_floor_le ps Hps m). lia.
Qed.

Lemma key_len_max m n : (ps | m) → 0 ≤ m < n → m ≤ key_len n.
Proof. intros Hd Hm. apply page_align_floor_max; [done|done|]. destruct (is_eagle cfg); lia. Qed.

(** ** Ownership *)

(** The part of the row the request owns. *)
Definition own (r : KvReq) (row : list Z) : list Z :=
  drop (Z.to_nat (cache_protected_len (kv r))) (take (Z.to_nat (kv_allocated_len (kv r))) row).

(** The tree is sound, [H] counts the locks held on it, and every cached path is
    laid out in pages. *)
Record tree_ok (w : world A) (H : nat → Z) : Prop := {
  ko_reach : reachable clock cfg (cache w) H;
  ko_tree_paged : ∀ ns us vs, cached cfg (cache w) ns us vs → paged ps vs;
  ko_page : pool_page_size (pool w) = ps
}.

(** Request [r] holds row [idx] with content [row] and a lock on node [n], whose
    path spells the protected part of the row. *)
Record req_ok (w : world A) (r : KvReq) (idx : nat) (row : list Z) (n : nat) : Prop := {
  ko_idx : req_pool_idx (kv r) = Some idx;
  ko_row : req_to_token (rows w) !! idx = Some row;
  ko_lens : 0 ≤ cache_protected_len (kv r) ≤ kv_allocated_len (kv r) ∧ kv_allocated_len (kv r) ≤ zlen row;
  ko_cpl_page : (ps | cache_protected_len (kv r));
  ko_row_paged : paged ps (take (Z.to_nat (kv_allocated_len (kv r))) row);
  ko_lock : lock r = Some n;
  ko_live : is_Some (nodes (cache w) !! n);
  ko_units : path_units n (cache w)
             = Ok (take (Z.to_nat (cache_protected_len (kv r))) (row_units (is_eagle cfg) (full_untruncated_fill_ids r)));
  ko_slots : path_device_indices n (cache w) = Ok (take (Z.to_nat (cache_protected_len (kv r))) row);
  ko_ns : n ≠ root_node (cache w) → node_namespace n (cache w) = Some (row_ns r)
}.

(** The pages in use are those of the tree, those of the request and [others]. *)
Record kv_ok (w : world A) (H : nat → Z) (r : KvReq) (idx : nat) (row : list Z) (n : nat) (others : list Z) : Prop := {
  ko_tree : tree_ok w H;
  ko_req : req_ok w r idx row n;
  ko_held : 1 ≤ H n;
  ko_owns : owns (pool w) (head_pages ps (tree_slots (cache w)) ++ head_pages ps (own r row) ++ others)
}.

Lemma root_path c H : reachable clock cfg c H → path_units (root_node c) c = Ok [].
Proof.
  intros Hr. pose proof (reachable_inv clock cfg Hps Hdis c H Hr) as [(P & V & Hinv) _].
  rewrite (path_units_inv cfg c P V H) by (by eapply inv_root || done). by rewrite (inv_P_root cfg c P V H).
Qed.

(** The protected prefix is cached with the slots of the row. *)
Lemma protected_cached w H r idx row n others us : kv_ok w H r idx row n others →
  us = take (Z.to_nat (cache_protected_len (kv r))) (row_units (is_eagle cfg) (full_untruncated_fill_ids r)) →
  zlen us = cache_protected_len (kv r) → us ≠ [] →
  cached cfg (cache w) (row_ns r) us (take (Z.to_nat (cache_protected_len (kv r))) row).
Proof.
  intros [[] [] ? ?] Hus Hlen Hne. exists n, us, (take (Z.to_nat (cache_protected_len (kv r))) row).
  assert (n ≠ root_node (cache w)) as Hn.
  { intros ->. rewrite (root_path _ _ ko_reach0), <- Hus in ko_units0. congruence. }
  split; [done|]. split; [by apply ko_ns0|]. split; [by rewrite ko_units0, Hus|]. split; [done|]. split; [done|].
  split; [|split; [by rewrite Hlen|done]]. rewrite take_take. f_equal. unfold zlen in Hlen. lia.
Qed.

(** The units of the key of a row's first tokens are the first units of the row. *)
Lemma row_key_units r m :
  let key := row_key cfg r (take m (full_untruncated_fill_ids r)) in
  units key = take (Z.to_nat (klen key)) (row_units (is_eagle cfg) (full_untruncated_fill_ids r)).
Proof.
  intros key. pose proof (row_key_ok r (take m (full_untruncated_fill_ids r))) as [Hk _ _ _ Hall _ _].
  fold key in Hk, Hall. rewrite Hall. apply prefix_take_app; [apply row_units_take|].
  pose proof (klen_units _ (proj1 Hk)) as Eu. rewrite Hall in Eu. unfold zlen in Eu. rewrite length_take in Eu. lia.
Qed.

(** The slots of the key as the tree stores them are laid out in pages: the part
    cached before by the tree's own layout, the rest by the row's. *)
Lemma stored_paged c row full j L alloc ns us :
  (∀ ns us vs, cached cfg c ns us vs → paged ps vs) → paged ps (take (Z.to_nat alloc) row) →
  0 ≤ j ≤ L → L ≤ alloc → zlen full = L → (ps | j) →
  (0 < j → cached cfg c ns us (take (Z.to_nat j) full)) →
  drop (Z.to_nat j) full = drop (Z.to_nat j) (take (Z.to_nat L) row) → paged ps full.
Proof.
  intros Htree Hrow Hj HL Hfl Hdj Hold Hdrop.
  rewrite <- (take_drop (Z.to_nat j) full). apply (paged_app ps Hps).
  - unfold zlen in *. rewrite length_take. rewrite Nat.min_l, Z2Nat.id by lia. done.
  - destruct (decide (0 < j)) as [Hpos|]; [by apply (Htree _ _ _ (Hold Hpos))|].
    replace (Z.to_nat j) with 0%nat by lia. by intros i x Hi.
  - rewrite Hdrop. apply (paged_drop ps Hps); [rewrite Z2Nat.id by lia; done|].
    replace (take (Z.to_nat L) row) with (take (Z.to_nat L) (take (Z.to_nat alloc) row)); [by apply paged_take|].
    rewrite take_take. f_equal. lia.
Qed.

(** What the first insert of a checkpoint does. *)
Lemma checkpoint_insert w H r idx row n others m prio ilen :
  kv_ok w H r idx row n others →
  let toks := take m (full_untruncated_fill_ids r) in
  let key := row_key cfg r toks in
  let cpl := cache_protected_len (kv r) in
  let L := klen key in
  cpl ≤ L → L ≤ kv_allocated_len (kv r) →
  ∃ j k c1 full,
    insert clock cfg key (Some (take (Z.to_nat L) row)) prio ilen (cache w) = Ok (mkInsert j (Some k), c1) ∧
    kept clock cfg (cache w) c1 H (drop (Z.to_nat j) (take (Z.to_nat L) row)) ∧
    zlen full = L ∧ cpl ≤ j ≤ L ∧ take (Z.to_nat cpl) full = take (Z.to_nat cpl) row ∧ paged ps full ∧
    (0 < L → cached cfg c1 (row_ns r) (units key) full) ∧
    (∀ ns us vs, cached cfg c1 ns us vs → paged ps vs) ∧
    (∀ ns us vs, cached cfg (cache w) ns us vs → cached cfg c1 ns us vs).
Proof.
  intros Hok toks key cpl L Hcpl HL. pose proof (row_key_ok r toks) as [Hk Htu Htl Hns Hall Hpg Hb]. fold key L in Hk, Htu, Htl, Hns, Hall, Hpg, Hb.
  pose proof Hok as [[] [] ? ?]. fold cpl in ko_lens0, ko_cpl_page0, ko_slots0.
  assert (length (take (Z.to_nat L) row) = Z.to_nat L) as Hlr by (rewrite length_take; unfold zlen in *; lia).
  assert (tree_value cfg key (Some (take (Z.to_nat L) row)) = take (Z.to_nat L) row) as Htv.
  { unfold tree_value. rewrite Htl. fold L. rewrite pytake_eq by lia. apply take_ge. lia. }
  assert (value_ok cfg key (Some (take (Z.to_nat L) row))) as Hval.
  { unfold value_ok. rewrite Htl. fold L. unfold zlen. lia. }
  destruct (insert_client clock cfg Hps Hdis (cache w) H key (Some (take (Z.to_nat L) row)) prio ilen ko_reach0 Hk Hval)
    as (j & k & c1 & full & E & Hkept & Hdj & Hfl & Hj & Hdrop & Hold & Hmax & Hnew).
  rewrite Htv in Hkept, Hdrop. rewrite Htl, Hns, Htu in *. fold L in Hfl, Hj.
  assert (zlen (units key) = L) as Hul by (rewrite <- klen_units by apply Hk; done).
  (* the protected part of the key *)
  set (us0 := take (Z.to_nat cpl) (units key)).
  assert (zlen us0 = cpl) as Hu0 by (unfold us0, zlen in *; rewrite length_take; lia).
  assert (us0 = take (Z.to_nat cpl) (row_units (is_eagle cfg) (full_untruncated_fill_ids r))) as Hus0.
  { pose proof (row_key_units r m) as Eu. cbv zeta in Eu. fold toks key L in Eu.
    unfold us0. by rewrite Eu, take_take, Nat.min_l by lia. }
  assert (0 < cpl → cached cfg (cache w) (row_ns r) us0 (take (Z.to_nat cpl) row)) as Hprot.
  { intros Hpos. eapply protected_cached; [done|done|done|]. intros E0. rewrite E0 in Hu0. unfold zlen in Hu0. simpl in Hu0. lia. }
  assert (us0 `prefix_of` units key) as Hpre0 by apply take_prefix_of.
  assert (0 < L → cached cfg c1 (row_ns r) (units key) full) as Hfull.
  { intros Hpos. apply Hnew. right. split; [done|]. split; [done|]. split.
    { rewrite take_ge; [done|]. unfold zlen in *. lia. }
    rewrite Hul. split; [done|]. intros E0. rewrite E0 in Hul. unfold zlen in Hul. simpl in Hul. lia. }
  assert (cpl ≤ j) as Hcj.
  { destruct (decide (0 < cpl)) as [Hpos|]; [|lia]. specialize (Hmax _ _ (Hprot Hpos) Hpre0). lia. }
  assert (take (Z.to_nat cpl) full = take (Z.to_nat cpl) row) as Htk.
  { destruct (decide (0 < cpl)) as [Hpos|]; [|replace (Z.to_nat cpl) with 0%nat by lia; done].
    assert (us0 ≠ []) as Hne. { intros E0. rewrite E0 in Hu0. unfold zlen in Hu0. simpl in Hu0. lia. }
    assert (length us0 = Z.to_nat cpl) as Hl0 by (unfold zlen in Hu0; lia). rewrite <- Hl0 at 1.
    eapply (cached_det clock cfg Hps Hdis c1 H); [apply Hkept| |].
    - eapply cached_prefix; [apply Hfull; lia|done|by rewrite Hu0|done].
    - apply Hnew. left. by apply Hprot. }
  assert (paged ps full) as Hpf by (eapply (stored_paged (cache w) row full j L); done || lia).
  exists j, k, c1, full. split; [done|]. split; [done|]. split; [done|]. split; [lia|]. split; [done|]. split; [done|].
  split; [done|]. split; [|intros; apply Hnew; by left].
  intros ns us vs [Hc|(_ & _ & -> & _)]%Hnew; [by eapply ko_tree_paged0|by apply paged_take].
Qed.

(** The split at the prompt boundary changes the shape of the tree only. *)
Lemma split_at_prompt_ok r toks values prio c H full :
  let key := row_key cfg r toks in
  reachable clock cfg c H → zlen values = klen key → zlen full = klen key →
  (0 < klen key → cached cfg c (row_ns r) (units key) full) →
  ∃ c', split_at_prompt clock cfg r toks values (klen key) prio c = Ok c' ∧ kept clock cfg c c' H [] ∧
    ∀ ns us vs, cached cfg c' ns us vs ↔ cached cfg c ns us vs.
Proof.
  intros key Hr Hvl Hfl Hc. unfold split_at_prompt.
  set (pk := row_key cfg r (pytake toks _)).
  pose proof (row_key_ok r (pytake toks (zlen (k_origin_input_ids r)))) as [Hk Htu Htl Hns Hall Hpg Hb]. fold pk in Hk, Htu, Htl, Hns, Hall, Hpg, Hb.
  pose proof (row_key_ok r toks) as [Hk' _ _ _ Hall' _ _]. fold key in Hk', Hall'.
  assert (kept clock cfg c c H []) as Hid by (split; [done|done|done|]; intros m Hm; by split).
  destruct ((0 <? klen pk) && (klen pk <? klen key)) eqn:Hif; [|by exists c].
  apply andb_true_iff in Hif as [Hpos%Z.ltb_lt Hlt%Z.ltb_lt].
  assert (zlen (units pk) = klen pk) as Hul by (by rewrite klen_units by apply Hk).
  assert (zlen (units key) = klen key) as Hul' by (by rewrite klen_units by apply Hk').
  assert (units pk ≠ []) as Hne. { intros E0. rewrite E0 in Hul. unfold zlen in Hul. simpl in Hul. lia. }
  assert (units pk `prefix_of` units key) as Hpre.
  { rewrite pytake_eq in Hall by apply zlen_nonneg. rewrite Hall' in Hul' |- *. rewrite Hall in Hul |- *.
    apply (prefix_total _ _ (row_units (is_eagle cfg) toks)); [|apply take_prefix_of|unfold zlen in *; lia].
    etrans; [apply take_prefix_of|apply row_units_take]. }
  assert (cached cfg c (row_ns r) (units pk) (take (length (units pk)) full)) as Hcp.
  { eapply cached_prefix; [apply Hc; lia|done|by rewrite Hul|done]. }
  assert (tree_value cfg pk (Some (pytake values (klen pk))) = take (Z.to_nat (klen pk)) values) as Htv.
  { unfold tree_value. rewrite Htl, !pytake_eq by lia. by rewrite take_take, Nat.min_id. }
  destruct (insert_client clock cfg Hps Hdis c H pk (Some (pytake values (klen pk)))
    (Some (Z.min (prio + 1) int64_max)) (klen pk) Hr Hk) as (j & k & c1 & full2 & E & Hkept & _ & Hfl2 & Hj & _ & Hold & Hmax & Hnew).
  { unfold value_ok. rewrite Htl, zlen_pytake by lia. lia. }
  rewrite Htl, Htu, Hns, Htv in *. rewrite E. cbn [rbind]. exists c1. split; [done|].
  assert (j = klen pk) as -> by (specialize (Hmax _ _ Hcp (reflexivity _)); lia).
  rewrite drop_ge in Hkept by (rewrite length_take; lia). split; [done|].
  specialize (Hold ltac:(lia)).
  assert (take (Z.to_nat (klen pk)) (units pk) = units pk) as Et by (apply take_ge; unfold zlen in Hul; lia).
  rewrite Et in Hold. intros ns us vs. rewrite Hnew. split; [|tauto].
  intros [?|(-> & Hp & -> & Hd & Hne')]; [done|]. pose proof (prefix_length _ _ Hp).
  replace (take (length us) full2) with (take (length us) (take (Z.to_nat (klen pk)) full2)).
  - by eapply cached_prefix.
  - rewrite take_take. f_equal. unfold zlen in Hul. lia.
Qed.

Lemma pages_split row cpl j L alloc :
  0 ≤ cpl → cpl ≤ j → j ≤ L → L ≤ alloc →
  head_pages ps (drop (Z.to_nat cpl) (take (Z.to_nat alloc) row))
  = head_pages ps (drop (Z.to_nat cpl) (take (Z.to_nat j) row))
    ++ head_pages ps (drop (Z.to_nat j) (take (Z.to_nat L) row))
    ++ head_pages ps (drop (Z.to_nat L) (take (Z.to_nat alloc) row)).
Proof.
  intros. rewrite <- !head_pages_app. f_equal.
  assert (∀ a b : nat, ∀ l : list Z, (a ≤ b)%nat → take a l ++ drop a (take b l) = take b l) as Hs.
  { intros a b l Hab. rewrite <- (take_drop a (take b l)) at 2. by rewrite take_take, Nat.min_l by lia. }
  rewrite <- (Hs (Z.to_nat L) (Z.to_nat alloc) row) at 1 by lia. rewrite <- (Hs (Z.to_nat j) (Z.to_nat L) row) at 1 by lia.
  rewrite <- app_assoc. destruct (decide (Z.to_nat cpl ≤ length (take (Z.to_nat j) row))%nat) as [Hle|Hgt].
  - by rewrite drop_app_le.
  - rewrite length_take in Hgt. rewrite (drop_ge (take (Z.to_nat j) row)) by (rewrite length_take; lia).
    assert (∀ a b, (Z.to_nat cpl ≤ a)%nat → drop a (take b row) = []) as Hnil.
    { intros a b Ha. apply drop_ge. rewrite length_take. lia. }
    rewrite !Hnil by lia. rewrite !app_nil_r. apply drop_ge. rewrite length_take. lia.
Qed.

(** Writing the tree's slots over the protected part. *)
Lemma rows_write_ok p idx row cpl full :
  req_to_token p !! idx = Some row → 0 ≤ cpl ≤ zlen full → zlen full ≤ zlen row →
  take (Z.to_nat cpl) full = take (Z.to_nat cpl) row →
  rows_write (Some idx) cpl (zlen full) (pydrop full cpl) p
  = Ok (mkRows (<[ idx := full ++ drop (length full) row ]> (req_to_token p)) (free_slots p) (req_generation p)).
Proof.
  intros Hrow Hc Hl Ht. unfold rows_write, get_row. rewrite Hrow. cbn [rbind].
  rewrite !norm_idx_in by lia. rewrite Z.max_r by lia. rewrite zlen_pydrop by lia.
  destruct (Z.eqb_spec (zlen full - cpl) (Z.max 0 (zlen full - cpl))) as [_|]; [|lia]. cbn [negb].
  rewrite pytake_eq, !pydrop_eq by lia. rewrite <- Ht, app_assoc, take_drop.
  by replace (Z.to_nat (zlen full)) with (length full) by (unfold zlen; lia).
Qed.

Lemma hold_held H n m : (∀ k, 0 ≤ H k) → 1 ≤ H n → 1 ≤ hold (hold H n (-1)) m 1 m.
Proof. intros H0 H1. pose proof (H0 m). unfold hold. rewrite decide_True by done. case_decide; subst; lia. Qed.

(** Handing the duplicates of a checkpoint back. *)
Lemma free_duplicates a row cpl j L alloc tree others :
  pool_page_size a = ps → 0 ≤ cpl → (ps | cpl) → cpl ≤ j → j ≤ L → L ≤ alloc → alloc ≤ zlen row →
  paged ps (take (Z.to_nat alloc) row) →
  owns a (head_pages ps tree ++ head_pages ps (drop (Z.to_nat cpl) (take (Z.to_nat alloc) row)) ++ others) →
  ∃ a', pool_free_segment a (drop (Z.to_nat cpl) (take (Z.to_nat j) row)) cpl = Ok a' ∧
    owns a' (head_pages ps (drop (Z.to_nat j) (take (Z.to_nat L) row) ++ tree)
             ++ head_pages ps (drop (Z.to_nat L) (take (Z.to_nat alloc) row)) ++ others) ∧
    pool_page_size a' = ps.
Proof.
  intros Hpa H0 Hd Hj HL Ha Hr Hpg Ho. rewrite (pages_split row cpl j L alloc) in Ho by lia.
  destruct (free_segment_owns a (drop (Z.to_nat cpl) (take (Z.to_nat j) row)) cpl
    (head_pages ps (drop (Z.to_nat j) (take (Z.to_nat L) row) ++ tree)
     ++ head_pages ps (drop (Z.to_nat L) (take (Z.to_nat alloc) row)) ++ others)) as (a' & E & Ho' & Ep).
  - rewrite Hpa, segment_pages_head.
    + eapply owns_perm; [|exact Ho]. rewrite head_pages_app. solve_Permutation.
    + done.
    + apply paged_drop; [done|rewrite Z2Nat.id by lia; done|].
      replace (take (Z.to_nat j) row) with (take (Z.to_nat j) (take (Z.to_nat alloc) row)).
      * by apply paged_take.
      * rewrite take_take. f_equal. lia.
  - rewrite Hpa. destruct Hd as [q ->]. apply Z.mod_mul. lia.
  - exists a'. by rewrite Ep.
Qed.

(** [_insert_cache] on a consistent state: the key of the row is cached with the
    slots [full], the request's duplicates of cached slots are free again. *)
Lemma insert_cache_ok w H r idx row n others m :
  kv_ok w H r idx row n others →
  let toks := take m (full_untruncated_fill_ids r) in
  let key := row_key cfg r toks in
  let cpl := cache_protected_len (kv r) in
  let alloc := kv_allocated_len (kv r) in
  let L := klen key in
  cpl ≤ L → zlen toks ≤ alloc →
  ∃ j c2 a' full,
    _insert_cache clock cfg r toks None true w
    = Ok (key, take (length toks) row, j, set_kv (λ k, set_inserted (Z.max (cache_inserted_len k) L) k) r,
          mkWorld c2 a' (rows w)) ∧
    kept clock cfg (cache w) c2 H (drop (Z.to_nat j) (take (Z.to_nat L) row)) ∧
    zlen full = L ∧ cpl ≤ j ≤ L ∧ take (Z.to_nat cpl) full = take (Z.to_nat cpl) row ∧ paged ps full ∧
    (0 < L → cached cfg c2 (row_ns r) (units key) full) ∧
    (∀ ns us vs, cached cfg c2 ns us vs → paged ps vs) ∧
    (∀ ns us vs, cached cfg (cache w) ns us vs → cached cfg c2 ns us vs) ∧
    owns a' (head_pages ps (drop (Z.to_nat j) (take (Z.to_nat L) row) ++ tree_slots (cache w))
             ++ head_pages ps (drop (Z.to_nat L) (take (Z.to_nat alloc) row)) ++ others) ∧
    pool_page_size a' = ps.
Proof.
  intros Hok toks key cpl alloc L Hcpl Htoks. pose proof Hok as [[] [] ? ?]. fold cpl alloc in ko_lens0, ko_cpl_page0, ko_row_paged0.
  pose proof (row_key_ok r toks) as [_ _ _ _ _ _ Hb]. fold key L in Hb.
  destruct (checkpoint_insert w H r idx row n others m (Some (default 0 (k_priority r)))
    (cache_inserted_len (kv r)) Hok ltac:(done) ltac:(cbv zeta; fold toks key L alloc; lia))
    as (j & k & c1 & full & E1 & K1 & Hfl & Hj & Htk & Hpf & Hcf & Hpg1 & Hmono).
  fold toks key L cpl in E1, K1, Hfl, Hj, Htk, Hcf.
  set (r1 := set_kv (λ k, set_inserted (Z.max (cache_inserted_len k) L) k) r).
  pose proof (split_at_prompt_ok r1 toks (take (Z.to_nat L) row) (default 0 (k_priority r)) c1 H full) as Hsp.
  cbv zeta in Hsp. change (row_key cfg r1 toks) with key in Hsp. change (row_ns r1) with (row_ns r) in Hsp. fold L in Hsp.
  destruct Hsp as (c2 & E2 & K2 & Hc2); [apply K1|unfold zlen in *; rewrite length_take; lia|done|done|].
  destruct (free_duplicates (pool w) row cpl j L alloc (tree_slots (cache w)) others ko_page0) as (a' & E3 & Ho & Hpa);
    [lia|done|lia|lia|lia|lia|done|done|].
  pose proof (kept_trans clock cfg _ _ _ _ _ _ _ K1 K2) as K12. rewrite app_nil_l in K12.
  exists j, c2, a', full. split.
  { unfold _insert_cache. rewrite ko_idx0. unfold get_row. rewrite ko_row0. cbn [rbind]. fold key L.
    rewrite (pytake_eq row) by apply zlen_nonneg. rewrite pytake_eq by lia.
    rewrite take_take, Nat.min_l by (unfold zlen in *; lia). rewrite E1. cbn [rbind]. fold r1.
    rewrite E2. cbn [rbind prefix_len]. change (cache_protected_len (kv r1)) with cpl.
    replace (Z.to_nat (zlen toks)) with (length toks) by (unfold zlen; lia).
    rewrite pyslice_eq by (try (unfold zlen in *; rewrite length_take); lia).
    replace (take (Z.to_nat (j - cpl)) (drop (Z.to_nat cpl) (take (length toks) row)))
      with (drop (Z.to_nat cpl) (take (Z.to_nat j) row)); [by rewrite E3|].
    rewrite take_drop_commute, take_take. do 2 f_equal. unfold zlen in *. lia. }
  split; [done|]. split; [done|]. split; [done|]. split; [done|]. split; [done|].
  split; [intros Hpos; by apply Hc2, Hcf|]. split; [intros ns us vs Hc; by eapply Hpg1, Hc2|].
  split; [|done]. intros ns us vs Hc. by apply Hc2, Hmono.
Qed.

(** Moving a request's lock from one node to another. *)
Lemma relock_ok c H n nn : reachable clock cfg c H →
  is_Some (nodes c !! n) → 1 ≤ H n → is_Some (nodes c !! nn) →
  ∃ c1 c2, tree_unlock cfg (Some n) c = Ok c1 ∧ tree_lock cfg nn c1 = Ok c2 ∧
    kept clock cfg c c2 (hold (hold H n (-1)) nn 1) [] ∧
    (∀ ns us vs, cached cfg c2 ns us vs ↔ cached cfg c ns us vs).
Proof.
  intros Hr Hn Hh Hnn. unfold tree_unlock, tree_lock.
  destruct (dec_kept clock cfg Hps Hdis c H n) as (d & c4 & E5 & K4 & Hc4); [done..|].
  destruct (inc_kept clock cfg Hps Hdis c4 (hold H n (-1)) nn) as (d' & c5 & E6 & K5 & Hc5);
    [apply K4|apply (kp_nodes clock cfg _ _ _ _ K4 nn Hnn)|].
  exists c4, c5. rewrite E5. cbn [rbind]. rewrite E6. cbn [rbind]. split; [done|]. split; [done|].
  split; [apply (kept_trans clock cfg _ _ _ _ _ _ _ K4 K5)|]. intros. by rewrite Hc5, Hc4.
Qed.

(** The request after a checkpoint of [L] units that ended at node [nn]. *)
Abbreviation stored L nn r :=
  (set_last_node (Some nn) (set_lock (Some nn) (set_kv (set_protected L)
     (set_kv (λ k, set_inserted (Z.max (cache_inserted_len k) L) k) r)))).

(** A row whose beginning was replaced by the slots [full] of the tree's path to
    [nn] is consistent with the tree. *)
Lemma stored_ok w H r idx row n others H' c' a' full nn :
  kv_ok w H r idx row n others →
  let L := zlen full in
  let row' := full ++ drop (length full) row in
  L ≤ kv_allocated_len (kv r) → (ps | L) → paged ps full →
  tree_ok (mkWorld c' a' (rows w)) H' → 1 ≤ H' nn → is_Some (nodes c' !! nn) →
  path_units nn c' = Ok (take (Z.to_nat L) (row_units (is_eagle cfg) (full_untruncated_fill_ids r))) →
  path_device_indices nn c' = Ok full →
  (nn ≠ root_node c' → node_namespace nn c' = Some (row_ns r)) →
  owns a' (head_pages ps (tree_slots c') ++ head_pages ps (drop (Z.to_nat L) (take (Z.to_nat (kv_allocated_len (kv r))) row)) ++ others) →
  kv_ok (mkWorld c' a' (mkRows (<[ idx := row' ]> (req_to_token (rows w))) (free_slots (rows w)) (req_generation (rows w))))
    H' (stored L nn r) idx row' nn others.
Proof.
  intros [_ [] _ _] L row' HL Hd Hpf [] Hh Hlive Hu Hs Hns Ho. set (alloc := kv_allocated_len (kv r)) in *.
  assert (Z.to_nat L = length full) as ELn by (unfold L, zlen; lia).
  split; [split|split|done|]; cbn [cache pool rows kv lock req_pool_idx cache_protected_len kv_allocated_len
    full_untruncated_fill_ids set_kv set_lock set_last_node set_protected set_inserted kv_with req_to_token]; fold alloc; try done.
  - apply lookup_insert_eq.
  - unfold row'. rewrite zlen_app. unfold L, zlen in *. rewrite length_drop. lia.
  - replace (take (Z.to_nat alloc) row') with (full ++ drop (length full) (take (Z.to_nat alloc) row)).
    + apply (paged_app ps Hps); [done|done|]. by apply paged_drop.
    + unfold row'. rewrite take_app_ge by lia. f_equal. by rewrite skipn_firstn_comm.
  - rewrite Hs. f_equal. unfold row'. by rewrite ELn, take_app_length.
  - unfold own. cbn [kv set_kv set_lock set_last_node cache_protected_len kv_allocated_len set_protected set_inserted kv_with].
    fold alloc. unfold row'. rewrite ELn, !skipn_firstn_comm in *. by rewrite drop_app_length.
Qed.

(** [checkpoint] on a consistent state. *)
Lemma checkpoint_spec w H r idx row n others up_to :
  kv_ok w H r idx row n others →
  let L := klen (row_key cfg r (take (Z.to_nat up_to) (full_untruncated_fill_ids r))) in
  0 ≤ up_to ≤ kv_allocated_len (kv r) → cache_protected_len (kv r) ≤ L → swa_evict_floor (kv r) ≤ 0 →
  ∃ r' w' H' row' n',
    checkpoint clock cfg r up_to w = Ok (r', w') ∧ kv_ok w' H' r' idx row' n' others ∧
    r' = set_last_node (Some n') (set_lock (Some n') (set_kv (set_protected L)
           (set_kv (λ k, set_inserted (Z.max (cache_inserted_len k) L) k) r))) ∧
    drop (Z.to_nat L) row' = drop (Z.to_nat L) row ∧ H' = hold (hold H n (-1)) n' 1 ∧
    rows w' = mkRows (<[ idx := row' ]> (req_to_token (rows w))) (free_slots (rows w)) (req_generation (rows w)) ∧
    (∃ added, kept clock cfg (cache w) (cache w') H' added) ∧
    (∀ ns us vs, cached cfg (cache w) ns us vs → cached cfg (cache w') ns us vs) ∧
    (0 < L → cached cfg (cache w') (row_ns r) (units (row_key cfg r (take (Z.to_nat up_to) (full_untruncated_fill_ids r))))
               (take (Z.to_nat L) row')).
Proof.
  intros Hok L Hup Hcpl Hfloor. set (fill := full_untruncated_fill_ids r) in *. pose proof Hok as [[] [] ? ?].
  assert (pytake fill up_to = take (Z.to_nat up_to) fill) as Ept by (apply pytake_eq; lia).
  set (toks := take (Z.to_nat up_to) fill) in *. set (cpl := cache_protected_len (kv r)) in *.
  set (alloc := kv_allocated_len (kv r)) in *.
  pose proof (row_key_ok r toks) as [Hk Htu Htl Hns _ Hpg Hb]. fold L in Htl, Hpg, Hb.
  assert (zlen toks ≤ up_to) as Htoks by (unfold toks, zlen; rewrite length_take; lia).
  destruct (insert_cache_ok w H r idx row n others (Z.to_nat up_to) Hok ltac:(done) ltac:(fold fill toks alloc; lia))
    as (j & c2 & a' & full & E1 & K2 & Hfl & Hj & Htk & Hpf & Hcf & Hpg2 & Hmono & Ho & Hpa).
  fold fill toks L cpl alloc in E1, K2, Hfl, Hj, Htk, Hcf, Ho.
  destruct (match_client clock cfg Hps Hdis c2 H (row_key cfg r toks) full) as (m & c3 & E4 & K3 & Hm & Hmu & Hms & Hmn & Hc3).
  { apply K2. } { done. } { by rewrite Htl. } { rewrite Htl, Hns, Htu. done. }
  set (nn := last_device_node m) in *. rewrite Htu in Hmu. rewrite Hns in Hmn.
  pose proof (kept_trans clock cfg _ _ _ _ _ _ _ K2 K3) as K13. rewrite app_nil_l in K13.
  destruct (relock_ok c3 H n nn) as (c4 & c5 & E5 & E6 & K5 & Hc5);
    [apply K3|by apply (kp_nodes clock cfg _ _ _ _ K13 n)|done|done|].
  pose proof (kp_nodes clock cfg _ _ _ _ K5 nn Hm) as Hm5.
  pose proof (kept_trans clock cfg _ _ _ _ _ _ _ K13 K5) as K15. rewrite app_nil_l in K15.
  assert (Z.to_nat L = length full) as ELn by (unfold zlen in Hfl; lia).
  eexists _, (mkWorld c5 a' _), (hold (hold H n (-1)) nn 1), (full ++ drop (length full) row), nn. split.
  { unfold checkpoint. rewrite Hdis. fold fill. rewrite Ept. destruct (Z.ltb_spec 0 (swa_evict_floor (kv r))); [lia|].
    rewrite E1. cbn [rbind cache]. rewrite E4. cbn [rbind]. fold nn. rewrite Hms. cbn [rbind].
    rewrite Hfl. fold L. rewrite Z.eqb_refl. cbn [assert_ rbind rows].
    change (req_pool_idx (kv (set_kv _ r))) with (req_pool_idx (kv r)). change (cache_protected_len (kv (set_kv _ r))) with cpl.
    rewrite ko_idx0, <- Hfl, (rows_write_ok (rows w) idx row cpl full ko_row0) by (done || lia). cbn [rbind].
    change (lock (set_kv _ (set_kv _ r))) with (lock r). rewrite ko_lock0, E5. cbn [rbind]. rewrite E6. cbn [rbind pool].
    rewrite Hfl. reflexivity. }
  split; [|split; [done|split; [rewrite ELn; apply drop_app_length|split; [done|split; [done|split; [by eexists|split]]]]]].
  - rewrite <- Hfl. eapply stored_ok; rewrite ?Hfl; try done; [lia| | | | | | |].
    + split; [apply K15| |done]. intros ns us vs Hc. by eapply Hpg2, Hc3, Hc5.
    + apply hold_held; [|done]. apply (reachable_inv clock cfg Hps Hdis (cache w) H ko_reach0).
    + apply Hm5.
    + rewrite (sn_units _ _ _ Hm5), Hmu. f_equal. apply row_key_units.
    + rewrite (sn_slots _ _ _ Hm5). exact Hms.
    + intros Hr. rewrite (kp_root clock cfg _ _ _ _ K5) in Hr. rewrite (sn_ns _ _ _ Hm5 Hr). by apply Hmn.
    + eapply owns_perm; [|exact Ho]. by rewrite (kp_slots clock cfg _ _ _ _ K15).
  - intros ns us vs Hc. by apply Hc5, Hc3, Hmono.
  - intros Hpos. apply Hc5, Hc3. rewrite ELn, take_app_length. by apply Hcf.
Qed.

(** A checkpoint of a request that holds a row returns; afterwards the
    tree stores the key of the row's first tokens with exactly the slots the row
    now lists for them, everything cached before is still cached, the rest of the
    row, the other rows and the other owners' pages are as before, and every page
    still has one owner. *)
Theorem checkpoint_stores_row w H r idx row n others up_to :
  kv_ok w H r idx row n others →
  let key := row_key cfg r (take (Z.to_nat up_to) (full_untruncated_fill_ids r)) in
  0 ≤ up_to ≤ kv_allocated_len (kv r) → cache_protected_len (kv r) ≤ klen key → swa_evict_floor (kv r) ≤ 0 →
  ∃ r' w' H' row' n', checkpoint clock cfg r up_to w = Ok (r', w') ∧ kv_ok w' H' r' idx row' n' others ∧
    cache_protected_len (kv r') = klen key ∧ kv_allocated_len (kv r') = kv_allocated_len (kv r) ∧
    drop (Z.to_nat (klen key)) row' = drop (Z.to_nat (klen key)) row ∧
    req_to_token (rows w') = <[ idx := row' ]> (req_to_token (rows w)) ∧ free_slots (rows w') = free_slots (rows w) ∧
    (∀ ns us vs, cached cfg (cache w) ns us vs → cached cfg (cache w') ns us vs) ∧
    (0 < klen key → cached cfg (cache w') (row_ns r) (units key) (take (Z.to_nat (klen key)) row')).
Proof.
  intros Hok key Hup Hc Hfl. destruct (checkpoint_spec w H r idx row n others up_to Hok Hup Hc Hfl)
    as (r' & w' & H' & row' & n' & E & Hok' & Er & Hd & _ & Erow & _ & Hm & Hk).
  exists r', w', H', row', n'. rewrite Er at 3 4. rewrite Erow. done.
Qed.
End kv.
