(* ===== verification/KvRelease.v ===== *)
(** * Giving a row back

    [release_kv_cache] and [evict] on a consistent state: every page the request
    owned is free again, exactly once, and nothing else changes hands. *)
From S2P Require Import Prelude RadixKey EvictPolicy RadixCache RadixInv RadixOps RadixInsert RadixLock RadixEvict RadixSpec RadixTheorems RadixClient TokenAllocator KvRow KvTheorems.

Section release.
Context {A : Type} `{!PagePool A} (clock : nat → Z) (cfg : cache_config) {HQ : HeapQ entry entry_le}.
Context (free_full : A → list Z → Z → result A) (strip speculative : bool).
Abbreviation ps := (page_size cfg).
Context (Hps : 0 < ps) (Hdis : disable cfg = false).
Abbreviation kv_ok := (kv_ok clock cfg).

(** ** One range of a row *)

Lemma cut_live lo seg : cut_segment lo lo seg = ([], [seg]).
Proof. unfold cut_segment. destruct seg as [l s]. by rewrite (proj2 (Z.leb_le _ _) (Z.le_refl _)). Qed.

Lemma drop_take_length {B} a b (l : list B) : length (drop a (take b l)) = (b `min` length l - a)%nat.
Proof. by rewrite length_drop, length_take. Qed.

Lemma pyslice_row (row : list Z) a b : 0 ≤ a → 0 ≤ b ≤ zlen row →
  pyslice row a b = drop (Z.to_nat a) (take (Z.to_nat b) row).
Proof.
  intros Ha Hb. destruct (decide (a ≤ b)) as [Hab|Hab].
  - rewrite pyslice_eq by lia. rewrite take_drop_commute. do 2 f_equal. lia.
  - rewrite drop_ge by (rewrite length_take; lia). unfold pyslice, norm_idx.
    destruct (Z.ltb_spec a 0); [lia|]. destruct (Z.ltb_spec b 0); [lia|].
    replace (Z.to_nat _) with 0%nat by lia. done.
Qed.

Lemma paged_slice row a b : paged ps (take b row) → (ps | Z.of_nat a) → paged ps (drop a (take b row)).
Proof. intros. by apply paged_drop. Qed.

(** The free of one range, when no sliding window was evicted. *)
Lemma free_kv_row_ok w k idx row a b used :
  req_pool_idx k = Some idx → req_to_token (rows w) !! idx = Some row →
  component_evicted_seqlens k = [] → 0 ≤ cache_protected_len k →
  0 ≤ a → 0 ≤ b ≤ zlen row → (ps | a) → pool_page_size (pool w) = ps →
  paged ps (take (Z.to_nat b) row) →
  owns (pool w) (head_pages ps (drop (Z.to_nat a) (take (Z.to_nat b) row)) ++ used) →
  ∃ a', free_kv_row free_full k [(a, b)] w = Ok (mkWorld (cache w) a' (rows w)) ∧ owns a' used ∧ pool_page_size a' = ps.
Proof.
  intros Hi Hrow Hev Hcpl Ha Hb Hd Hpa Hpg Ho. unfold free_kv_row, get_row. rewrite Hi, Hrow. cbn [rbind coalesce_ranges last].
  cbn [fmap list_fmap fst snd]. rewrite pyslice_row by lia. set (seg := drop _ _) in *. set (dl := swa_dead_lo _ _).
  assert (get_evicted_seqlen SWA k = 0) as -> by (unfold get_evicted_seqlen; by rewrite Hev).
  assert (0 ≤ dl) as Hdl.
  { unfold dl, swa_dead_lo. destruct (_ && _); [|lia]. rewrite Hpa.
    pose proof (ceil_align_ge ps Hps (Z.max (cache_protected_len k) (swa_evict_floor k))). lia. }
  unfold free_kv_row_segments. rewrite Z.max_r by lia. cbn [fmap list_fmap]. rewrite cut_live. cbn.
  destruct (Z.eqb_spec (zlen seg) 0) as [Hz|Hnz].
  { exists (pool w). split; [done|]. split; [|done]. by rewrite (zlen_nil_inv seg Hz) in Ho. }
  assert (paged ps seg) as Hsp by (apply paged_slice; [done|rewrite Z2Nat.id by lia; done]).
  destruct (free_segment_owns (pool w) seg a used) as (a' & E & Ho' & Ep).
  { rewrite Hpa, segment_pages_head; done. }
  { rewrite Hpa. destruct Hd as [q ->]. apply Z.mod_mul. lia. }
  rewrite E. cbn. exists a'. by rewrite Ep.
Qed.

(** Between a length and the next page boundary no page begins. *)
Lemma no_heads row o alloc : 0 ≤ o → paged ps (take (Z.to_nat alloc) row) →
  head_pages ps (drop (Z.to_nat o) (take (Z.to_nat (Z.min (ceil_align o ps) alloc)) row)) = [].
Proof.
  intros Ho Hpg. unfold head_pages. rewrite list_filter_nil; [done|]. intros i x Hi.
  rewrite lookup_drop in Hi. apply lookup_take_Some in Hi as [Hi Hlt].
  rewrite (paged_mod ps Hps _ (Z.to_nat o + i) x Hpg) by (rewrite lookup_take_lt by lia; done).
  intros [q Hq]%Z.mod_divide; [|lia].
  pose proof (ceil_align_min ps Hps o (q * ps) ltac:(by exists q) ltac:(lia)). lia.
Qed.

Lemma owned_pages row cpl o alloc : 0 ≤ cpl → cpl ≤ o → o ≤ alloc → paged ps (take (Z.to_nat alloc) row) →
  head_pages ps (drop (Z.to_nat cpl) (take (Z.to_nat alloc) row))
  = head_pages ps (drop (Z.to_nat cpl) (take (Z.to_nat o) row))
    ++ head_pages ps (drop (Z.to_nat (ceil_align o ps)) (take (Z.to_nat alloc) row)).
Proof.
  intros. pose proof (ceil_align_ge ps Hps o).
  rewrite (pages_split cfg row cpl o (Z.min (ceil_align o ps) alloc) alloc) by lia.
  rewrite no_heads by (done || lia). rewrite app_nil_l. f_equal.
  destruct (decide (ceil_align o ps ≤ alloc)); [by rewrite Z.min_l by lia|].
  rewrite Z.min_r by lia. rewrite !drop_ge; [done|rewrite length_take; lia..].
Qed.

(** Over-allocation is expected: speculative decoding, stripped thinking, a stop
    before the last committed token, or none at all. *)
Definition overalloc_expected (r : KvReq) (start_p end_p : Z) : bool :=
  speculative || strip || (start_p =? end_p)
  || match finished_len r with
     | Some n => zlen (k_origin_input_ids r) + n <? kv_committed_len (kv r)
     | None => false
     end.

Lemma overallocated_ok w r idx row o used :
  let alloc := kv_allocated_len (kv r) in
  req_pool_idx (kv r) = Some idx → req_to_token (rows w) !! idx = Some row →
  component_evicted_seqlens (kv r) = [] → 0 ≤ cache_protected_len (kv r) →
  0 ≤ o ≤ alloc → alloc ≤ zlen row → pool_page_size (pool w) = ps → paged ps (take (Z.to_nat alloc) row) →
  overalloc_expected r o alloc = true →
  owns (pool w) (head_pages ps (drop (Z.to_nat (ceil_align o ps)) (take (Z.to_nat alloc) row)) ++ used) →
  ∃ a', _release_overallocated_kv_indices free_full strip speculative r o alloc w = Ok (mkWorld (cache w) a' (rows w)) ∧
    owns a' used ∧ pool_page_size a' = ps.
Proof.
  intros alloc Hi Hrow Hev Hcpl Ho Ha Hpa Hpg Hexp Hown. unfold _release_overallocated_kv_indices.
  unfold overalloc_expected in Hexp. rewrite Hexp. cbn [assert_ rbind]. rewrite Hpa.
  assert ((if 1 <? ps then ceil_align o ps else o) = ceil_align o ps) as ->.
  { destruct (Z.ltb_spec 1 ps); [done|]. rewrite ceil_align_id; [done|done|]. replace ps with 1 by lia. apply Z.divide_1_l. }
  pose proof (ceil_align_ge ps Hps o). destruct (Z.ltb_spec (ceil_align o ps) alloc).
  - apply (free_kv_row_ok w (kv r) idx row (ceil_align o ps) alloc used); try done; [lia|lia|by apply ceil_align_divide].
  - exists (pool w). rewrite drop_ge in Hown by (rewrite length_take; lia). by destruct w.
Qed.

(** ** The release *)

(** What a release leaves: the request without row and lock, the row free, the
    request's pages no longer in use. *)
(** What the request keeps. *)
Record retains (r r' : KvReq) : Prop := {
  rt_rid : k_rid r' = k_rid r;
  rt_origin : k_origin_input_ids r' = k_origin_input_ids r;
  rt_output : k_output_ids r' = k_output_ids r;
  rt_fill : full_untruncated_fill_ids r' = full_untruncated_fill_ids r ∨
            full_untruncated_fill_ids r' = k_origin_input_ids r ++ k_output_ids r;
  rt_floor : swa_evict_floor (kv r') = swa_evict_floor (kv r);
  rt_evicted : component_evicted_seqlens (kv r') = [];
  rt_finished : finished_len r' = finished_len r
}.

Record released (w : world A) (r : KvReq) (idx n : nat) (H : nat → Z) (others : list Z)
    (r' : KvReq) (w' : world A) : Prop := {
  rl_tree : ∃ H', tree_ok clock cfg w' H' ∧ ∀ m, H' m = hold H n (-1) m;
  rl_owns : owns (pool w') (head_pages ps (tree_slots (cache w')) ++ others);
  rl_rows : free_slots (rows w') = free_slots (rows w) ++ [idx] ∧ req_generation (rows w') = req_generation (rows w) ∧
            (∀ i, i ≠ idx → req_to_token (rows w') !! i = req_to_token (rows w) !! i) ∧
            is_Some (req_to_token (rows w') !! idx);
  rl_req : lock r' = None ∧ req_pool_idx (kv r') = None ∧ kv_allocated_len (kv r') = 0 ∧
           is_kv_released (kv r') = true ∧ retains r r';
  rl_nodes : root_node (cache w') = root_node (cache w) ∧ ∀ m, is_Some (nodes (cache w) !! m) → same_node (cache w) (cache w') m;
  rl_cached : ∀ ns us vs, cached cfg (cache w) ns us vs → cached cfg (cache w') ns us vs
}.

Lemma release_row_ok w H r idx row n others o :
  kv_ok w H r idx row n others →
  component_evicted_seqlens (kv r) = [] →
  cache_protected_len (kv r) ≤ o → o ≤ kv_allocated_len (kv r) →
  overalloc_expected r o (kv_allocated_len (kv r)) = true →
  ∃ r' w', release_row cfg free_full strip speculative r o w = Ok (r', w') ∧ released w r idx n H others r' w' ∧
    (∀ ns us vs, cached cfg (cache w') ns us vs ↔ cached cfg (cache w) ns us vs).
Proof.
  intros [[] [] ? ?] Hev Hc Ho Hexp. unfold release_row. unfold own in ko_owns. rewrite (owned_pages row _ o) in ko_owns by (done || lia).
  assert (paged ps (take (Z.to_nat o) row)) as Hpo.
  { replace (take (Z.to_nat o) row) with (take (Z.to_nat o) (take (Z.to_nat (kv_allocated_len (kv r))) row)); [by apply paged_take|].
    rewrite take_take. f_equal. lia. }
  destruct (free_kv_row_ok w (kv r) idx row (cache_protected_len (kv r)) o
    (head_pages ps (drop (Z.to_nat (ceil_align o ps)) (take (Z.to_nat (kv_allocated_len (kv r))) row))
     ++ head_pages ps (tree_slots (cache w)) ++ others)) as (a1 & E1 & Ho1 & Hp1); try done; try lia.
  { eapply owns_perm; [|exact ko_owns]. solve_Permutation. }
  rewrite E1. cbn [rbind cache]. rewrite ko_lock.
  destruct (dec_kept clock cfg Hps Hdis (cache w) H n) as (d & c2 & E2 & K2 & Hc2); [done..|].
  cbn [tree_unlock]. rewrite E2. cbn [rbind pool rows].
  destruct (overallocated_ok (mkWorld c2 a1 (rows w)) (set_lock None r) idx row o (head_pages ps (tree_slots (cache w)) ++ others))
    as (a3 & E3 & Ho3 & Hp3); cbn [kv set_lock rows pool]; [done|done|done|lia|lia|lia|done|done|done|done|].
  cbn [kv set_lock] in E3 |- *. rewrite E3. cbn [rbind]. unfold free_request_row, rows_free.
  assert (kv (_release_donated_swa_slots (set_lock None r)) = kv r) as Ekv by (unfold _release_donated_swa_slots; by destruct (_ || _)).
  rewrite Ekv, ko_idx. cbn [rbind]. eexists _, _. split; [reflexivity|]. split; [|exact Hc2].
  assert (lock (_release_donated_swa_slots (set_lock None r)) = None) as Elk by (unfold _release_donated_swa_slots; by destruct (_ || _)).
  split; cbn [cache pool rows].
  - exists (hold H n (-1)). split; [|done]. split; [apply K2|intros ns us vs Hcc; by eapply ko_tree_paged, Hc2|done].
  - eapply owns_perm; [|exact Ho3]. by rewrite (kp_slots clock cfg _ _ _ _ K2).
  - cbn. rewrite ko_row. by repeat split.
  - split; [done|]. cbn [kv set_kv]. rewrite Ekv. split; [done|]. split; [done|]. split; [done|].
    split; cbn [kv set_kv]; rewrite ?Ekv; unfold _release_donated_swa_slots; repeat case_match; try done; by left.
  - split; [apply K2|apply K2].
  - intros ns us vs Hcc. by apply Hc2.
Qed.
(** ** Fill ids *)

(** [refresh_fill_ids] brings the array up to date. *)
Lemma refresh_fill_ok r : full_untruncated_fill_ids r `prefix_of` k_origin_input_ids r ++ k_output_ids r →
  full_untruncated_fill_ids (refresh_fill_ids r) = k_origin_input_ids r ++ k_output_ids r.
Proof.
  intros [t Ht]. unfold refresh_fill_ids. destruct (_ && _ && _) eqn:E; [|done]. cbn [full_untruncated_fill_ids set_fill].
  apply andb_true_iff in E as [[_ E1%Z.leb_le]%andb_true_iff E2%Z.leb_le]. rewrite pydrop_eq by lia. rewrite Ht. f_equal.
  assert (full_untruncated_fill_ids r = k_origin_input_ids r ++ take (Z.to_nat (zlen (full_untruncated_fill_ids r) - zlen (k_origin_input_ids r))) (k_output_ids r)) as Ef.
  { rewrite <- (take_app_length (full_untruncated_fill_ids r) t) at 1. rewrite <- Ht, take_app. f_equal.
    - apply take_ge. unfold zlen in E1. lia.
    - f_equal. unfold zlen. lia. }
  set (m := Z.to_nat _) in *. rewrite Ef, <- app_assoc in Ht. apply app_inv_head in Ht.
  rewrite <- (take_drop m (k_output_ids r)) in Ht at 1. by apply app_inv_head in Ht.
Qed.

(** What a refresh needs of the array: it holds the ids up to date, or is too long
    to be taken for them. *)
Definition refreshable (r : KvReq) : Prop := full_untruncated_fill_ids (refresh_fill_ids r) = k_origin_input_ids r ++ k_output_ids r.

Lemma refreshable_set r : refreshable r → refresh_fill_ids r = set_fill (k_origin_input_ids r ++ k_output_ids r) false r.
Proof.
  unfold refreshable, refresh_fill_ids. destruct (_ && _ && _); [|done].
  cbn [full_untruncated_fill_ids set_fill]. by intros ->.
Qed.

(** Discarded output is not taken for up to date. *)
Lemma refreshable_discard r : full_untruncated_fill_ids r `prefix_of` k_origin_input_ids r ++ k_output_ids r → refreshable (set_output [] r).
Proof.
  intros Hf. unfold refreshable, refresh_fill_ids. cbn. destruct (_ && _ && _) eqn:E; [|done]. cbn. change (zlen []) with 0 in *.
  apply andb_true_iff in E as [[_ E1%Z.leb_le]%andb_true_iff E2%Z.leb_le]. rewrite app_nil_r.
  replace (pydrop [] _) with (@nil Z); [|rewrite pydrop_eq by lia; by rewrite drop_nil]. rewrite app_nil_r.
  destruct Hf as [t Ht]. assert (length (full_untruncated_fill_ids r) = length (k_origin_input_ids r)) as El by (unfold zlen in *; lia).
  by apply app_inj_1 in Ht as [? _].
Qed.

Lemma refresh_set r : full_untruncated_fill_ids r `prefix_of` k_origin_input_ids r ++ k_output_ids r →
  refresh_fill_ids r = set_fill (k_origin_input_ids r ++ k_output_ids r) false r.
Proof.
  intros Hf%refresh_fill_ok. unfold refresh_fill_ids in *. destruct (_ && _ && _); [|done].
  cbn [full_untruncated_fill_ids set_fill] in Hf. by rewrite Hf.
Qed.

Lemma row_units_prefix eagle a b : a `prefix_of` b → row_units eagle a `prefix_of` row_units eagle b.
Proof. intros [t ->]. rewrite <- (take_app_length a t) at 1. apply row_units_take. Qed.

Lemma set_fill_ok w H r idx row n others fill b : kv_ok w H r idx row n others →
  full_untruncated_fill_ids r `prefix_of` fill → kv_ok w H (set_fill fill b r) idx row n others.
Proof.
  intros [[] [] ? ?] Hpre. split; [done| |done|done]. split; try done.
  rewrite ko_units. cbn [kv set_fill full_untruncated_fill_ids]. f_equal. apply prefix_take_app; [by apply row_units_prefix|].
  pose proof (reachable_inv clock cfg Hps Hdis (cache w) H ko_reach) as [(P & V & Hinv) _].
  destruct (path_lengths cfg _ _ _ _ n Hinv ko_live) as (_ & El & _).
  rewrite (path_units_inv cfg _ _ _ _ n Hinv ko_live) in ko_units. rewrite (path_device_indices_inv cfg _ _ _ _ n Hinv ko_live) in ko_slots.
  injection ko_units as E1. injection ko_slots as E2. rewrite E1, E2, !length_take in El. unfold zlen in *. lia.
Qed.

(** ** The whole call *)

Lemma hold_moved H n n' m : hold (hold (hold H n (-1)) n' 1) n' (-1) m = hold H n (-1) m.
Proof. unfold hold. repeat case_decide; lia. Qed.

(** The length the tree is to keep. *)
Definition release_key (r : KvReq) : RadixKey :=
  row_key cfg r (take (Z.to_nat (owned_kv_len strip r)) (k_origin_input_ids r ++ k_output_ids r)).

Record releasable (r : KvReq) (ckpt : bool) : Prop := {
  re_alloc : 0 < kv_allocated_len (kv r);
  re_evicted : component_evicted_seqlens (kv r) = [] ∧ swa_evict_floor (kv r) ≤ 0;
  re_fill : full_untruncated_fill_ids r `prefix_of` k_origin_input_ids r ++ k_output_ids r;
  re_owned : 0 ≤ owned_kv_len strip r ≤ kv_allocated_len (kv r);
  re_protected : cache_protected_len (kv r)
                 ≤ if ckpt && negb (skip_radix_cache_insert r) then klen (release_key r) else owned_kv_len strip r;
  re_expected : overalloc_expected r (owned_kv_len strip r) (kv_allocated_len (kv r)) = true
}.

Lemma release_ok w H r idx row n others ckpt :
  kv_ok w H r idx row n others → releasable r ckpt →
  ∃ r' w', release_kv_cache clock cfg free_full strip speculative r ckpt w = Ok (r', w') ∧
    released w r idx n H others r' w' ∧
    (ckpt = true → skip_radix_cache_insert r = false → 0 < klen (release_key r) →
       ∃ vs, cached cfg (cache w') (row_ns r) (units (release_key r)) vs).
Proof.
  intros Hok [Ha [Hev Hfl] Hfill Ho Hp Hexp]. pose proof Hok as [_ [] _ _]. set (o := owned_kv_len strip r) in *.
  unfold release_kv_cache. fold o.
  assert (holds_kv (kv r) = true) as Hh by (unfold holds_kv; rewrite ko_idx; done).
  assert (is_kv_released (kv r) = false) as Hre by (unfold is_kv_released; rewrite (proj2 (Z.eqb_neq _ 0)) by lia; done).
  rewrite Hh, Hre. cbn [negb Bool.eqb assert_ rbind].
  destruct (ckpt && negb (skip_radix_cache_insert r)) eqn:Eck.
  2:{ cbn [rbind]. destruct (release_row_ok w H r idx row n others o Hok Hev Hp (proj2 Ho) Hexp) as (r' & w' & E & Hr & _).
      exists r', w'. split; [done|]. split; [done|]. intros -> Hs. by rewrite Hs in Eck. }
  pose proof (row_key_ok cfg Hps r (take (Z.to_nat o) (k_origin_input_ids r ++ k_output_ids r))) as [_ _ _ _ _ _ Hb].
  change (row_key cfg r (take (Z.to_nat o) (k_origin_input_ids r ++ k_output_ids r))) with (release_key r) in Hb. unfold zlen in Hb. rewrite length_take in Hb.
  destruct ko_lens as [[Hc0 Hca] _]. rewrite (refresh_set r Hfill).
  pose proof (set_fill_ok w H r idx row n others _ false Hok Hfill) as Hok1. set (r1 := set_fill _ false r) in *.
  destruct (checkpoint_spec clock cfg Hps Hdis w H r1 idx row n others o Hok1) as
    (r2 & w2 & H2 & row2 & n2 & E2 & Hok2 & Er2 & _ & -> & Erows & (added & K2) & Hmono & Hin).
  { cbn. lia. } { exact Hp. } { exact Hfl. }
  change (row_key cfg r1 (take (Z.to_nat o) (full_untruncated_fill_ids r1))) with (release_key r) in *.
  change (row_ns r1) with (row_ns r) in Hin.
  rewrite E2. cbn [rbind].
  destruct (release_row_ok w2 _ r2 idx row2 n2 others o Hok2) as (r' & w' & E & [(H3 & Ht3 & Eh3) Ho3 (Ef & Eg & Eo & Hs3) Hrq [Er0 Hn3] Hc3] & Hiff).
  { by rewrite Er2. } { rewrite Er2. change (klen (release_key r) ≤ o). lia. } { rewrite Er2. apply Ho. } { by rewrite Er2. }
  exists r', w'. split; [done|]. split; [split|].
  - exists H3. split; [done|]. intros m. rewrite Eh3. apply hold_moved.
  - done.
  - rewrite Ef, Eg, Erows. split; [done|]. split; [done|]. split; [|done].
    intros i Hi. rewrite (Eo i Hi), Erows. cbn. by rewrite lookup_insert_ne.
  - destruct Hrq as (? & ? & ? & ? & []). subst r2. repeat (split; [done|]). split; try done. right. by destruct rt_fill0.
  - split; [by rewrite Er0, (kp_root clock cfg _ _ _ _ K2)|]. intros m Hm. pose proof (kp_nodes clock cfg _ _ _ _ K2 m Hm) as Hs.
    eapply same_node_trans; [apply K2|exact Hs|]. apply Hn3, Hs.
  - intros ns us vs Hcc. by apply Hc3, Hmono.
  - intros _ _ Hpos. eexists. by apply Hc3, Hin.
Qed.

(** C14: releasing a request returns and gives back each of its pages once:
    afterwards the pages in use are those the tree stores and those of the
    others, the row is free, the lock is dropped, the request is marked released,
    what was cached stays cached, and with a checkpoint the key of the tokens the
    request owned is stored. *)
Theorem release_returns_all w H r idx row n others ckpt :
  kv_ok w H r idx row n others → releasable r ckpt →
  ∃ r' w', release_kv_cache clock cfg free_full strip speculative r ckpt w = Ok (r', w') ∧
    released w r idx n H others r' w' ∧
    (ckpt = true → skip_radix_cache_insert r = false → 0 < klen (release_key r) →
       ∃ vs, cached cfg (cache w') (row_ns r) (units (release_key r)) vs).
Proof. apply release_ok. Qed.
End release.
