(* ===== verification/KvSystem.v ===== *)
(** * All requests together

    [sys_ok]: the tree, the rows and the allocator are consistent with the list
    of requests in flight.  Every lock on the tree belongs to a request, every
    row in use belongs to one request, and the pages in use are, each once, those
    the tree stores and those in the own parts of the rows.  Matching, locking,
    checkpoints, releases and evictions keep it. *)
From S2P Require Import Prelude RadixKey EvictPolicy RadixCache RadixInv RadixOps RadixInsert RadixLock RadixEvict RadixSpec RadixTheorems RadixClient TokenAllocator KvRow KvTheorems KvRelease.

(** The locks a list of requests holds on a node. *)
Definition lock_count (rs : list KvReq) (m : nat) : Z :=
  zsum ((λ r, if bool_decide (lock r = Some m) then 1 else 0) <$> rs).

Lemma lock_count_app l1 l2 m : lock_count (l1 ++ l2) m = lock_count l1 m + lock_count l2 m.
Proof. unfold lock_count. by rewrite fmap_app, zsum_app. Qed.

Lemma lock_count_cons r l m : lock_count (r :: l) m = (if bool_decide (lock r = Some m) then 1 else 0) + lock_count l m.
Proof. done. Qed.

Lemma lock_count_nonneg l m : 0 ≤ lock_count l m.
Proof. induction l as [|r l IH]; [done|]. rewrite lock_count_cons. case_bool_decide; lia. Qed.

Lemma lock_count_pos l1 r l2 n : lock r = Some n → 1 ≤ lock_count (l1 ++ r :: l2) n.
Proof.
  intros E. rewrite lock_count_app, lock_count_cons, bool_decide_true by done.
  pose proof (lock_count_nonneg l1 n). pose proof (lock_count_nonneg l2 n). lia.
Qed.

Section system.
Context {A : Type} `{!PagePool A} (clock : nat → Z) (cfg : cache_config) {HQ : HeapQ entry entry_le}.
Context (free_full : A → list Z → Z → result A) (strip speculative : bool).
Abbreviation ps := (page_size cfg).
Context (Hps : 0 < ps) (Hdis : disable cfg = false).
(** The rows of the pool. *)
Context (all_rows : list nat) (Hall : NoDup all_rows).
Abbreviation req_ok := (req_ok cfg).
Abbreviation tree_ok := (tree_ok clock cfg).

(** A request that has matched and locked a prefix and holds no row yet. *)
Record waiting_ok (w : world A) (r : KvReq) (n : nat) : Prop := {
  wo_idx : req_pool_idx (kv r) = None;
  wo_alloc : kv_allocated_len (kv r) = 0;
  wo_lock : lock r = Some n;
  wo_last : k_last_node r = Some n;
  wo_prefix : k_prefix_len r = cache_protected_len (kv r);
  wo_len : 0 ≤ cache_protected_len (kv r) ∧ (ps | cache_protected_len (kv r));
  wo_live : is_Some (nodes (cache w) !! n);
  wo_units : path_units n (cache w)
             = Ok (take (Z.to_nat (cache_protected_len (kv r))) (row_units (is_eagle cfg) (full_untruncated_fill_ids r)));
  wo_slots : ∃ vs, path_device_indices n (cache w) = Ok vs ∧ zlen vs = cache_protected_len (kv r);
  wo_ns : n ≠ root_node (cache w) → node_namespace n (cache w) = Some (row_ns r)
}.

(** A request in flight. *)
Definition flight_ok (w : world A) (r : KvReq) : Prop :=
  (∃ idx row n, req_ok w r idx row n) ∨ (∃ n, waiting_ok w r n).

Definition own_pages (w : world A) (r : KvReq) : list Z :=
  match req_pool_idx (kv r) with
  | Some i => match req_to_token (rows w) !! i with Some row => head_pages ps (own r row) | None => [] end
  | None => []
  end.

Definition row_ids (rs : list KvReq) : list nat := omap (λ r, req_pool_idx (kv r)) rs.

Record sys_ok (w : world A) (rs : list KvReq) : Prop := {
  so_tree : ∃ H, tree_ok w H ∧ ∀ m, H m = lock_count rs m;
  so_reqs : ∀ r, r ∈ rs → flight_ok w r;
  so_rows : row_ids rs ++ free_slots (rows w) ≡ₚ all_rows;
  so_free : ∀ i, i ∈ free_slots (rows w) → is_Some (req_to_token (rows w) !! i);
  so_owns : owns (pool w) (head_pages ps (tree_slots (cache w)) ++ mjoin (own_pages w <$> rs))
}.

Lemma sys_nodup w rs : sys_ok w rs → NoDup (row_ids rs ++ free_slots (rows w)).
Proof. intros [_ _ E _ _]. by rewrite E. Qed.

(** ** Framing *)

(** What the other requests need of a change. *)
Record framed (w w' : world A) (touched : list nat) (held : nat → Prop) : Prop := {
  fr_root : root_node (cache w') = root_node (cache w);
  fr_nodes : ∀ n, held n → is_Some (nodes (cache w) !! n) → same_node (cache w) (cache w') n;
  fr_rows : ∀ i, i ∉ touched → req_to_token (rows w') !! i = req_to_token (rows w) !! i
}.

Lemma flight_frame w w' touched held r :
  framed w w' touched held → (∀ n, lock r = Some n → held n) → (∀ i, req_pool_idx (kv r) = Some i → i ∉ touched) →
  flight_ok w r → flight_ok w' r.
Proof.
  intros [Er Hn Hr] Hh Hi [(idx & row & n & [])|(n & [])].
  - left. exists idx, row, n. destruct (Hn n (Hh n ko_lock) ko_live) as [L U S N].
    split; try done; [by rewrite Hr by (by apply Hi)|congruence|congruence|]. rewrite Er. intros Hne. rewrite N by done. by apply ko_ns.
  - right. exists n. destruct (Hn n (Hh n wo_lock0) wo_live0) as [L U S N].
    split; try done; [congruence|by rewrite S|]. rewrite Er. intros Hne. rewrite N by done. by apply wo_ns0.
Qed.

Lemma own_pages_frame w w' touched held r :
  framed w w' touched held → (∀ i, req_pool_idx (kv r) = Some i → i ∉ touched) → own_pages w' r = own_pages w r.
Proof. intros [_ _ Hr] Hi. unfold own_pages. destruct (req_pool_idx (kv r)) as [i|]; [|done]. by rewrite Hr by (by apply Hi). Qed.

Lemma own_pages_frame_list w w' touched held (rs : list KvReq) :
  framed w w' touched held → (∀ r i, r ∈ rs → req_pool_idx (kv r) = Some i → i ∉ touched) →
  own_pages w' <$> rs = own_pages w <$> rs.
Proof.
  intros F Hi. apply list_fmap_ext. intros k r Hr. apply list_elem_of_lookup_2 in Hr.
  eapply own_pages_frame; [done|]. intros i. by apply Hi.
Qed.

(** ** One request among the others *)

Lemma row_ids_app l1 l2 : row_ids (l1 ++ l2) = row_ids l1 ++ row_ids l2.
Proof. apply omap_app. Qed.

Lemma row_ids_elem r rs i : r ∈ rs → req_pool_idx (kv r) = Some i → i ∈ row_ids rs.
Proof. intros Hr Hi. apply list_elem_of_omap. by exists r. Qed.

(** The other requests hold other rows. *)
Lemma other_rows w l1 r l2 idx : sys_ok w (l1 ++ r :: l2) → req_pool_idx (kv r) = Some idx →
  ∀ r' i, r' ∈ l1 ++ l2 → req_pool_idx (kv r') = Some i → i ∉ [idx].
Proof.
  intros Hs Hidx r' i Hr' Hi ->%list_elem_of_singleton. pose proof (sys_nodup _ _ Hs) as so_rows0. rewrite row_ids_app in so_rows0. cbn in so_rows0. rewrite Hidx in so_rows0.
  apply NoDup_app in so_rows0 as (Hnd & _ & _). 
  assert (NoDup (idx :: row_ids (l1 ++ l2))) as Hnd'.
  { eapply (NoDup_Permutation_proper _ (row_ids l1 ++ idx :: row_ids l2)); [|done]. rewrite row_ids_app. solve_Permutation. }
  apply NoDup_cons in Hnd' as [Hnin _]. apply Hnin. by eapply row_ids_elem.
Qed.

Lemma mjoin_middle {B} (l1 l2 : list (list B)) x : mjoin (l1 ++ x :: l2) ≡ₚ x ++ mjoin (l1 ++ l2).
Proof. rewrite !join_app. cbn. solve_Permutation. Qed.

(** Focus on a request that holds a row. *)
Lemma sys_focus w l1 r l2 idx row n : sys_ok w (l1 ++ r :: l2) → req_ok w r idx row n →
  ∃ H, kv_ok clock cfg w H r idx row n (mjoin (own_pages w <$> (l1 ++ l2))) ∧ ∀ m, H m = lock_count (l1 ++ r :: l2) m.
Proof.
  intros Hs Hr. pose proof Hs as [(H & Ht & HH) _ _ _ Ho]. pose proof Hr as []. exists H. split; [|done]. split; [done|done| |].
  - rewrite HH. by apply lock_count_pos.
  - eapply owns_perm; [|exact Ho]. rewrite !fmap_app, fmap_cons, mjoin_middle. unfold own_pages at 1. by rewrite ko_idx, ko_row.
Qed.

(** Put a changed request back among the others. *)
Lemma sys_unfocus w l1 r l2 idx n w' H' r' row' n' :
  sys_ok w (l1 ++ r :: l2) → req_pool_idx (kv r) = Some idx → lock r = Some n →
  kv_ok clock cfg w' H' r' idx row' n' (mjoin (own_pages w <$> (l1 ++ l2))) →
  (∀ m, H' m = hold (hold (lock_count (l1 ++ r :: l2)) n (-1)) n' 1 m) →
  free_slots (rows w') = free_slots (rows w) → framed w w' [idx] (λ _, True) →
  sys_ok w' (l1 ++ r' :: l2).
Proof.
  intros Hs Hidx Hn [Ht Hr Hh Ho] HH Hfree F. pose proof Hr as [Hidx' Hrow' _ _ _ Hlock' _ _ _ _].
  pose proof (other_rows w l1 r l2 idx Hs Hidx) as Hother. pose proof (sys_nodup _ _ Hs) as Hnd. destruct Hs as [_ Hreqs Hperm Hfr _]. split.
  - exists H'. split; [done|]. intros m. rewrite HH, lock_count_app, lock_count_cons. unfold hold.
    rewrite lock_count_app, lock_count_cons, Hn, Hlock'. repeat (case_decide || case_bool_decide); try congruence; lia.
  - intros r0 Hr0. assert (r0 = r' ∨ r0 ∈ l1 ++ l2) as [->|Hin] by set_solver.
    + left. by exists idx, row', n'.
    + eapply flight_frame; [done|done| |]; [intros i; by apply Hother|]. apply Hreqs. set_solver.
  - rewrite Hfree. rewrite row_ids_app in *. cbn in *. by rewrite Hidx' in *; rewrite Hidx in *.
  - rewrite Hfree. intros i Hi. rewrite (fr_rows _ _ _ _ F); [by apply Hfr|]. intros ->%list_elem_of_singleton.
    apply NoDup_app in Hnd as (_ & Hnd & _). apply (Hnd idx); [|done]. rewrite row_ids_app. cbn. rewrite Hidx. set_solver.
  - eapply owns_perm; [|exact Ho]. rewrite (fmap_app (own_pages w') l1 (r' :: l2)), fmap_cons, mjoin_middle, <- fmap_app.
    rewrite (own_pages_frame_list w w' [idx] (λ _, True) (l1 ++ l2)) by done. unfold own_pages at 2. by rewrite Hidx', Hrow'.
Qed.

(** [checkpoint] of one request. *)
Lemma sys_checkpoint w l1 r l2 idx row n up_to :
  sys_ok w (l1 ++ r :: l2) → req_ok w r idx row n →
  0 ≤ up_to ≤ kv_allocated_len (kv r) → swa_evict_floor (kv r) ≤ 0 →
  cache_protected_len (kv r) ≤ klen (row_key cfg r (take (Z.to_nat up_to) (full_untruncated_fill_ids r))) →
  let L := klen (row_key cfg r (take (Z.to_nat up_to) (full_untruncated_fill_ids r))) in
  ∃ n' w', let r' := set_last_node (Some n') (set_lock (Some n') (set_kv (set_protected L)
             (set_kv (λ k, set_inserted (Z.max (cache_inserted_len k) L) k) r))) in
    checkpoint clock cfg r up_to w = Ok (r', w') ∧ sys_ok w' (l1 ++ r' :: l2).
Proof.
  intros Hs Hr Hup Hfl Hc L. destruct (sys_focus w l1 r l2 idx row n Hs Hr) as (H & Hok & HH).
  destruct (checkpoint_spec clock cfg Hps Hdis w H r idx row n _ up_to Hok Hup Hc Hfl)
    as (r' & w' & H' & row' & n' & E & Hok' & -> & _ & EH & Erows & (added & K) & _).
  exists n', w'. split; [done|]. eapply (sys_unfocus w l1 r l2 idx n); [done|apply Hr|apply Hr|exact Hok'| |by rewrite Erows|].
  - intros m. rewrite EH. unfold hold. repeat case_decide; subst; rewrite HH; lia.
  - split; [apply K|intros; by apply K|]. intros i Hi. rewrite Erows. cbn. rewrite lookup_insert_ne; [done|]. set_solver.
Qed.

(** A release takes the request out. *)
Lemma sys_release w l1 r l2 idx row n ckpt :
  sys_ok w (l1 ++ r :: l2) → req_ok w r idx row n → releasable cfg strip speculative r ckpt →
  ∃ r' w', release_kv_cache clock cfg free_full strip speculative r ckpt w = Ok (r', w') ∧
    sys_ok w' (l1 ++ l2) ∧ lock r' = None ∧ req_pool_idx (kv r') = None ∧ is_kv_released (kv r') = true ∧
    kv_allocated_len (kv r') = 0 ∧ retains r r' ∧ free_slots (rows w') = free_slots (rows w) ++ [idx].
Proof.
  intros Hs Hr Hre. destruct (sys_focus w l1 r l2 idx row n Hs Hr) as (H & Hok & HH).
  destruct (release_ok clock cfg free_full strip speculative Hps Hdis w H r idx row n _ ckpt Hok Hre)
    as (r' & w' & E & [(H' & Ht & EH) Ho (Ef & Eg & Erow & Hidx') (E1 & E2 & E3 & E4 & E5) [Er Hn] _] & _).
  pose proof Hr as []. pose proof (other_rows w l1 r l2 idx Hs ko_idx) as Hother.
  assert (framed w w' [idx] (λ _, True)) as F.
  { split; [done|auto|]. intros i Hi. apply Erow. set_solver. }
  exists r', w'. split; [done|]. split; [|done]. pose proof (sys_nodup _ _ Hs) as Hnd. destruct Hs as [_ Hreqs Hperm Hfr _]. split.
  - exists H'. split; [done|]. intros m. rewrite EH. unfold hold. rewrite !HH, !lock_count_app, lock_count_cons, ko_lock.
    repeat (case_decide || case_bool_decide); try congruence; lia.
  - intros r0 Hr0. eapply flight_frame; [done|done| |]; [intros i; by apply Hother|]. apply Hreqs. set_solver.
  - rewrite Ef, <- Hperm, !row_ids_app. cbn. rewrite ko_idx. solve_Permutation.
  - rewrite Ef. intros i [Hi| ->%list_elem_of_singleton]%elem_of_app.
    + rewrite Erow; [by apply Hfr|]. intros ->. apply NoDup_app in Hnd as (_ & Hnd & _). apply (Hnd idx); [|done].
      rewrite row_ids_app. cbn. rewrite ko_idx. set_solver.
    + done.
  - eapply owns_perm; [|exact Ho]. by rewrite (own_pages_frame_list w w' [idx] (λ _, True) (l1 ++ l2)) by done.
Qed.

(** ** Eviction *)

(** The own slots of a node are laid out in pages. *)
Lemma node_value_paged c P V H n x v :
  inv cfg c P V H → nodes c !! n = Some x → n ≠ root_node c → value x = Some v →
  (∀ ns us vs, cached cfg c ns us vs → paged ps vs) → paged ps v.
Proof.
  intros Hinv Hx Hn Hv Hpg. destruct (inv_node _ _ _ _ _ _ _ Hinv Hx Hn) as (_ & _ & p & y & v0 & _ & Hy & _ & Hv0 & _ & _ & HV & _).
  assert (v0 = v) as -> by congruence.
  destruct (path_lengths cfg _ _ _ _ n Hinv ltac:(by eexists)) as (Hd & El & Hroot).
  destruct (path_lengths cfg _ _ _ _ p Hinv ltac:(by eexists)) as (Hdp & Elp & _).
  assert (paged ps (V n)) as Hpn.
  { apply (Hpg (knamespace (nkey x)) (P n)), (cached_inv cfg c P V H); [done|]. exists n, x.
    split; [done|]. split; [done|]. split; [done|]. split; [done|]. rewrite <- El, firstn_all. split; [done|]. split; [done|]. auto. }
  replace v with (drop (length (V p)) (V n)) by (by rewrite HV, drop_app_length).
  apply paged_drop; [done| |done]. rewrite Elp. exact Hdp.
Qed.

(** A run of evictions only removes paths, and every victim's slots are whole pages. *)
Lemma evicts_cached c tr c' P V H : inv cfg c P V H → evicts cfg c tr c' →
  (∀ ns us vs, cached cfg c ns us vs → paged ps vs) →
  (∀ ns us vs, cached cfg c' ns us vs → cached cfg c ns us vs) ∧ Forall (paged ps) tr.*2.
Proof.
  intros Hinv Hev Hpg. split.
  - intros ns us vs. destruct (evicts_inv clock cfg Hps _ _ _ _ _ _ Hinv Hev) as (Hinv' & Hr & _ & _ & Hkeep & Hgone & Hold).
    rewrite (cached_inv cfg c' P V H _ _ _ Hinv'), (cached_inv cfg c P V H _ _ _ Hinv).
    intros (n & x & Hx & Hn & Hns & Hrest). destruct (Hold n ltac:(by eexists)) as [x0 Hx0]. exists n, x0.
    destruct (decide (n ∈ tr.*1)) as [Hin|Hin]; [destruct (Hgone n Hin) as (? & _ & _ & ?); congruence|].
    destruct (Hkeep n x0 Hx0 Hin) as (x1 & Hx1 & f & E). split; [done|]. split; [congruence|]. split; [|done].
    rewrite <- Hns. assert (x1 = x) as <- by congruence. by rewrite E.
  - revert Hinv Hpg. induction Hev as [c|c n x v c1 tr c' Hn Hx Hv Hmin Hdel Hev IH]; intros Hinv Hpg; [constructor|].
    destruct (leaf_lookup_inv cfg Hps _ _ _ _ _ Hinv Hn) as (x0 & Hx0 & Hr & _). assert (x0 = x) as -> by congruence.
    destruct (delete_leaf_inv clock cfg Hps _ _ _ _ _ Hinv Hn) as
      (x2 & p & y & v2 & c2 & Hx2 & _ & _ & Hnp & Hpar & Hy & _ & _ & _ & Hdel2 & Hinv1 & Hn1 & Hr1 & _).
    assert (c2 = c1) as -> by congruence. rewrite fmap_cons; apply Forall_cons; split; [by apply (node_value_paged c P V H n x)|].
    apply IH; [done|]. intros ns us vs Hc. apply (Hpg ns us vs). revert Hc.
    rewrite (cached_inv cfg (log_call (record_remove n) c1) P V H _ _ _ Hinv1), (cached_inv cfg c P V H _ _ _ Hinv).
    cbn [log_call nodes root_node].
    rewrite Hr1, Hn1. intros (k & z & Hz & Hk & Hns & Hrest). apply lookup_delete_Some in Hz as [Hkn Hz].
    destruct (decide (k = p)) as [->|Hkp].
    + rewrite lookup_insert_eq in Hz. injection Hz as <-. exists p, y. done.
    + rewrite lookup_insert_ne in Hz by done. by exists k, z.
Qed.

Lemma free_evicted_ok freed a used : pool_page_size a = ps → Forall (paged ps) freed →
  owns a (head_pages ps (mjoin freed) ++ used) →
  ∃ a', free_evicted freed a = Ok a' ∧ owns a' used ∧ pool_page_size a' = ps.
Proof.
  revert a. induction freed as [|v freed IH]; intros a Hpa Hf Ho; [by exists a|]. apply Forall_cons in Hf as [Hv Hf].
  destruct (free_segment_owns a v 0 (head_pages ps (mjoin freed) ++ used)) as (a1 & E & Ho1 & Ep).
  { rewrite Hpa, segment_pages_head by done. change (mjoin (v :: freed)) with (v ++ mjoin freed) in Ho. by rewrite head_pages_app, <- app_assoc in Ho. }
  { apply Z.mod_0_l. lia. }
  destruct (IH a1) as (a' & E' & Ho' & Ep'); [congruence|done|done|]. exists a'. cbn. rewrite E. cbn. done.
Qed.

(** A node somebody holds is locked. *)
Lemma held_lock_pos c P V H n x : inv cfg c P V H → nodes c !! n = Some x → 1 ≤ H n → 1 ≤ lock_ref x.
Proof.
  intros Hinv Hx Hh. destruct (decide (n = root_node c)) as [->|Hn].
  - destruct (ci_root _ _ _ _ _ _ Hinv) as (r & Hr & _ & _ & Hr1). apply core_lookup_inv in Hr as (r' & Hr' & ->).
    simpl in Hr', Hr1. congruence.
  - pose proof (held_le_lock cfg _ _ _ _ n x Hinv Hx Hn). lia.
Qed.

(** [evict]: what leaves the tree is free again, and what is held stays. *)
Lemma evict_ok w H used num leaves : tree_ok w H →
  owns (pool w) (head_pages ps (tree_slots (cache w)) ++ used) → leaves ≡ₚ elements (evictable_leaves (cache w)) →
  ∃ n w', evict_kv cfg num leaves w = Ok (n, w') ∧ tree_ok w' H ∧
    owns (pool w') (head_pages ps (tree_slots (cache w')) ++ used) ∧ rows w' = rows w ∧
    framed w w' [] (λ n, 1 ≤ H n) ∧ (num ≤ n ∨ evictable_size (cache w') = 0) ∧
    evictable_size (cache w') = evictable_size (cache w) - n ∧
    zlen (tree_slots (cache w)) = n + zlen (tree_slots (cache w')) ∧
    (∃ freed, free_evicted freed (pool w) = Ok (pool w')).
Proof.
  intros [Hreach Hpg Hpa] Ho Hlv.
  pose proof (reachable_inv clock cfg Hps Hdis (cache w) H Hreach) as [(P & V & Hinv) H0].
  destruct (evict_spec clock cfg Hps num leaves (cache w) P V H Hinv Hdis Hlv) as (tr & c' & E & Hev & Hstop & _).
  destruct (evicts_inv clock cfg Hps _ _ _ _ _ _ Hinv Hev) as (Hinv' & Hr & Hevs & _ & Hkeep & Hgone & _).
  destruct (evicts_cached _ _ _ _ _ _ Hinv Hev Hpg) as [Hc' Hfp].
  pose proof (evicts_slots clock cfg Hps _ _ _ _ _ _ Hinv Hev) as Hsl.
  destruct (free_evicted_ok tr.*2 (pool w) (head_pages ps (tree_slots c') ++ used)) as (a' & Ea & Ho' & Hpa'); [done..| |].
  { eapply owns_perm; [|exact Ho]. by rewrite Hsl, head_pages_app, <- app_assoc. }
  unfold evict_kv. rewrite E. cbn [rbind]. rewrite Ea. cbn [rbind]. eexists _, _. split; [reflexivity|].
  split; [|split; [done|split; [done|split; [|split; [|split; [done|split; [|by exists tr.*2]]]]]]].
  - split; [|intros ns us vs Hcc; by eapply Hpg, Hc'|done]. eapply reach_step; [done|]. by eapply step_evict.
  - split; [done| |done]. intros n Hpos [x Hx]. cbn [cache].
    assert (n ∉ tr.*1) as Hnt.
    { intros (x' & Hx' & Hl0 & _)%Hgone. pose proof (held_lock_pos _ _ _ _ _ _ Hinv Hx' Hpos). lia. }
    destruct (Hkeep n x Hx Hnt) as (x' & Hx' & f & Ex). split.
    + by eexists.
    + by rewrite (path_units_inv cfg c' P V H), (path_units_inv cfg (cache w) P V H) by eauto.
    + by rewrite (path_device_indices_inv cfg c' P V H), (path_device_indices_inv cfg (cache w) P V H) by eauto.
    + intros _. unfold node_namespace. rewrite Hx, Hx'. cbn. by rewrite Ex.
  - destruct Hstop as [?|Hlf]; [by left|right]. cbn. eapply (no_leaf_no_evictable clock cfg Hps); [done|auto|done].
  - cbn [cache]. apply Permutation_length in Hsl. unfold zlen. rewrite Hsl, length_app, Nat2Z.inj_add. f_equal.
    clear. induction tr as [|[k v] tr IH]; [done|]. rewrite freed_len_cons, <- IH, fmap_cons.
    change (mjoin (?x :: ?y)) with (x ++ mjoin y). rewrite length_app. unfold zlen. cbn [snd]. lia.
Qed.

(** The tree stores whole pages. *)
Lemma tree_pages_count w H : tree_ok w H → zlen (head_pages ps (tree_slots (cache w))) * ps = zlen (tree_slots (cache w)).
Proof.
  intros [Hreach Hpg _]. pose proof (reachable_inv clock cfg Hps Hdis (cache w) H Hreach) as [(P & V & Hinv) _].
  assert (∀ p, p ∈ map_to_list (nodes (cache w)) → let v := default [] (value p.2) in zlen (head_pages ps v) * ps = zlen v) as Hnodes.
  { intros [n x] Hx%elem_of_map_to_list. cbn. destruct (decide (n = root_node (cache w))) as [->|Hn].
    - destruct (ci_root _ _ _ _ _ _ Hinv) as (r & Hr & _ & Hv & _). apply core_lookup_inv in Hr as (r' & Hr' & ->).
      simpl in Hr', Hv. assert (r' = x) as -> by congruence. by rewrite Hv.
    - destruct (inv_node _ _ _ _ _ _ _ Hinv Hx Hn) as (Hk & _ & p & y & v & _ & _ & _ & Hv & Hl & _). rewrite Hv. cbn.
      apply head_pages_count; [done|by eapply node_value_paged|]. rewrite Hl. apply Hk. }
  unfold tree_slots. induction (map_to_list (nodes (cache w))) as [|q l IH]; [done|]. rewrite fmap_cons.
  change (mjoin (?x :: ?y)) with (x ++ mjoin y). rewrite head_pages_app, !zlen_app, Z.mul_add_distr_r.
  rewrite IH by (intros z Hz; apply Hnodes; by right). f_equal. apply (Hnodes q). by left.
Qed.

(** Nobody in flight notices. *)
Lemma sys_evict w rs num leaves : sys_ok w rs → leaves ≡ₚ elements (evictable_leaves (cache w)) →
  ∃ n w', evict_kv cfg num leaves w = Ok (n, w') ∧ sys_ok w' rs ∧ rows w' = rows w ∧
    (num ≤ n ∨ evictable_size (cache w') = 0).
Proof.
  intros [(H & Ht & HH) Hreqs Hnd Hfr Ho] Hlv.
  destruct (evict_ok w H _ num leaves Ht Ho Hlv) as (n & w' & E & Ht' & Ho' & Er & F & Hstop & _).
  exists n, w'. split; [done|]. split; [|done]. split.
  - by exists H.
  - intros r Hin. eapply flight_frame; [done| |set_solver|by apply Hreqs]. intros m Hl. cbv beta. rewrite HH.
    apply list_elem_of_split in Hin as (l1 & l2 & ->). by apply lock_count_pos.
  - by rewrite Er.
  - by rewrite Er.
  - eapply owns_perm; [|exact Ho']. by rewrite (own_pages_frame_list w _ [] _ rs F) by set_solver.
Qed.

(** ** Admission *)

(** The key a request is matched with spells a prefix of its fill ids. *)
Lemma match_key_units toks extra lim salt : match lim with Some l => 0 ≤ l | None => True end →
  units (tree_key cfg (RadixKey_init toks extra false lim salt)) `prefix_of` row_units (is_eagle cfg) toks.
Proof.
  intros Hl. unfold tree_key, maybe_to_bigram_view. cbn [RadixKey_init is_bigram negb]. rewrite andb_true_r.
  set (k := if is_eagle cfg then _ else _).
  assert (wf_key k.1 ∧ units k.1 `prefix_of` row_units (is_eagle cfg) toks) as [Hwf Hpre].
  { unfold k, units, raw_token_ids, _raw_len, row_units. destruct (is_eagle cfg); (split; [exact Hl|]);
      cbn [fst is_bigram token_ids limit RadixKey_init];
      (destruct (_ =? zlen toks) eqn:E; [done|]); destruct lim as [l|]; try (by rewrite Z.eqb_refl in E);
      (destruct (Z.ltb_spec l (zlen toks)); [|by rewrite Z.eqb_refl in E]); rewrite pytake_eq by done.
    - apply (row_units_take true).
    - apply (row_units_take false). }
  rewrite page_aligned_units by done. etrans; [apply take_prefix_of|done].
Qed.

Lemma match_key_len toks extra l salt : 0 ≤ l → klen (tree_key cfg (RadixKey_init toks extra false (Some l) salt)) ≤ l.
Proof.
  intros Hl. unfold tree_key. set (k := maybe_to_bigram_view _ _ _).
  assert (limit k.1 = Some l) as El by (unfold k, maybe_to_bigram_view; by destruct (_ && _)).
  rewrite klen_page_aligned; [|unfold wf_key; by rewrite El|done].
  etrans; [by apply page_align_floor_le|]. unfold klen, _raw_len. rewrite El. pose proof (zlen_nonneg (token_ids k.1)).
  destruct (is_bigram k.1); repeat (case_match; zbool); lia.
Qed.

(** A match, in a client's terms. *)
Lemma match_any c H key : reachable clock cfg c H → key_ok key →
  ∃ m c' vs, match_prefix clock cfg key c = Ok (m, c') ∧ kept clock cfg c c' H [] ∧
    is_Some (nodes c' !! last_device_node m) ∧
    0 ≤ device_prefix_len m ≤ klen (tree_key cfg key) ∧ (ps | device_prefix_len m) ∧
    path_units (last_device_node m) c' = Ok (take (Z.to_nat (device_prefix_len m)) (units (tree_key cfg key))) ∧
    path_device_indices (last_device_node m) c' = Ok vs ∧ zlen vs = device_prefix_len m ∧
    (last_device_node m ≠ root_node c' → node_namespace (last_device_node m) c' = Some (knamespace key)) ∧
    (∀ ns us vs, cached cfg c' ns us vs ↔ cached cfg c ns us vs).
Proof.
  intros Hr Hk. destruct (match_longest clock cfg Hps Hdis c H key Hr Hk) as (m & c' & vs & E & [Hb Hd] & Hpu & Hpv & Hvs & _ & _ & Hsame).
  destruct (match_kept clock cfg Hps Hdis c H key Hr Hk) as (m' & c2 & E' & Hkept). rewrite E in E'. injection E' as <- <-.
  pose proof (reachable_inv clock cfg Hps Hdis c H Hr) as [(P & V & Hinv) _].
  destruct (match_prefix_spec clock cfg Hps c P V H key Hinv Hk Hdis) as (m2 & c2 & P' & V' & seg & E2 & W).
  rewrite E in E2. injection E2 as <- <-. destruct (we_node _ _ _ _ _ _ _ _ _ _ _ _ _ W) as (x & Hx & Hxns).
  exists m, c', vs. do 8 (split; [done || by eexists|]). split; [|done].
  intros Hn. unfold node_namespace. rewrite Hx. simpl. rewrite (Hxns Hn). by rewrite (tree_key_namespace cfg key Hk).
Qed.

(** The order of the requests does not matter. *)
Lemma sys_perm w rs rs' : rs ≡ₚ rs' → sys_ok w rs → sys_ok w rs'.
Proof.
  intros Hp [(H & Ht & HH) Hreqs Hrows Hfr Ho]. split.
  - exists H. split; [done|]. intros m. rewrite HH. unfold lock_count.
    apply zsum_perm. by rewrite Hp.
  - intros r. rewrite <- Hp. apply Hreqs.
  - rewrite <- Hrows. f_equiv. unfold row_ids. by rewrite Hp.
  - done.
  - eapply owns_perm; [|exact Ho]. by rewrite Hp.
Qed.

(** A call on the tree that moves no slot and no lock. *)
Lemma sys_kept w rs c' : sys_ok w rs → (∀ H, reachable clock cfg (cache w) H → kept clock cfg (cache w) c' H []) →
  (∀ ns us vs, cached cfg c' ns us vs ↔ cached cfg (cache w) ns us vs) → sys_ok (mkWorld c' (pool w) (rows w)) rs.
Proof.
  intros [(H & [Hreach Hpg Hpa] & HH) Hreqs Hrows Hfr Ho] HK Hc. specialize (HK H Hreach).
  assert (framed w (mkWorld c' (pool w) (rows w)) [] (λ _, True)) as F by (split; [apply HK|intros; by apply HK|done]).
  split; cbn [cache pool rows]; [|intros r Hr; eapply flight_frame; [done|done|set_solver|by apply Hreqs]|done|done|].
  - exists H. split; [|done]. split; [apply HK|intros ns us vs Hcc; by eapply Hpg, Hc|done].
  - eapply owns_perm; [|exact Ho]. rewrite (kp_slots clock cfg _ _ _ _ HK). cbn.
    by rewrite (own_pages_frame_list w _ [] _ rs F) by set_solver.
Qed.

(** A match as a request stores it. *)
Record matched (fill : list Z) (r : KvReq) (m : MatchResult) (c : RadixCache) : Prop := {
  mt_live : is_Some (nodes c !! last_device_node m);
  mt_len : 0 ≤ device_prefix_len m ≤ Z.max 0 (zlen fill - 1);
  mt_page : (ps | device_prefix_len m);
  mt_units : path_units (last_device_node m) c = Ok (take (Z.to_nat (device_prefix_len m)) (row_units (is_eagle cfg) fill));
  mt_slots : ∃ vs, path_device_indices (last_device_node m) c = Ok vs ∧ zlen vs = device_prefix_len m;
  mt_ns : last_device_node m ≠ root_node c → node_namespace (last_device_node m) c = Some (row_ns r)
}.

(** The key [init_next_round_input] looks up. *)
Lemma match_key (embed : bool) caps r fill :
  let key := if embed then RadixKey_init [] (k_extra_key r) false None (k_cache_salt r)
             else RadixKey_init fill (k_extra_key r) false (Some (_compute_max_prefix_len caps (zlen fill))) (k_cache_salt r) in
  key_ok key ∧ knamespace key = row_ns r ∧ klen (tree_key cfg key) ≤ Z.max 0 (zlen fill - 1) ∧
  units (tree_key cfg key) `prefix_of` row_units (is_eagle cfg) fill.
Proof.
  intros key. assert (∀ toks lim, key = RadixKey_init toks (k_extra_key r) false lim (k_cache_salt r) →
    toks `prefix_of` fill → match lim with Some l => 0 ≤ l | None => True end →
    key_ok key ∧ knamespace key = row_ns r ∧ units (tree_key cfg key) `prefix_of` row_units (is_eagle cfg) fill) as Hkey.
  { intros toks lim -> Ht Hlim. split; [|split; [done|]].
    - split; [exact Hlim|]. cbn. by destruct (k_cache_salt r) as [[]|].
    - etrans; [by apply match_key_units|by apply row_units_prefix]. }
  destruct embed.
  - destruct (Hkey [] None) as (Hk & Hn & Hu); [done|apply prefix_nil|done|]. split; [done|]. split; [done|]. split; [|done].
    pose proof (prefix_length _ _ (match_key_units [] (k_extra_key r) None (k_cache_salt r) I)) as Hl.
    rewrite klen_units by (by apply tree_key_ok). unfold row_units, zlen in *. destruct (is_eagle cfg); cbn in Hl; fold key in Hl; lia.
  - assert (0 ≤ _compute_max_prefix_len caps (zlen fill) ≤ Z.max 0 (zlen fill - 1)) as Hcap.
    { unfold _compute_max_prefix_len. enough (foldl Z.min (zlen fill - 1) caps ≤ zlen fill - 1) by lia.
      generalize (zlen fill - 1) as z. clear key Hkey. induction caps as [|x caps IH]; intros z; cbn; [lia|]. etrans; [apply (IH (Z.min z x))|lia]. }
    destruct (Hkey fill (Some (_compute_max_prefix_len caps (zlen fill)))) as (Hk & Hn & Hu); [done|done|lia|]. split; [done|]. split; [done|]. split; [|done].
    etrans; [apply match_key_len; lia|]. lia.
Qed.

(** [init_next_round_input] changes nothing for the others. *)
Lemma sys_match w rs embed caps r : sys_ok w rs →
  refreshable r →
  let fill := k_origin_input_ids r ++ k_output_ids r in
  ∃ m c1, init_next_round_input clock cfg embed caps r w = Ok (adopt_match m (set_fill fill false r), mkWorld c1 (pool w) (rows w)) ∧
    sys_ok (mkWorld c1 (pool w) (rows w)) rs ∧ matched fill r m c1.
Proof.
  intros Hs Hfill fill. destruct (so_tree _ _ Hs) as (H & [Hreach Hpg Hpa] & HH).
  unfold init_next_round_input. rewrite (refreshable_set r Hfill). fold fill.
  cbn [k_extra_key k_cache_salt full_untruncated_fill_ids set_fill].
  destruct (match_key embed caps r fill) as (Hk & Hkn & Hkl & Hu). set (key := if embed then _ else _) in *.
  destruct (match_any (cache w) H key Hreach Hk) as (m & c1 & vs & E1 & K1 & Hm & Hb & Hd & Hpu & Hpv & Hvl & Hns & Hc1).
  rewrite E1. cbn [rbind]. exists m, c1. split; [done|]. split.
  - apply sys_kept; [done| |done]. intros H' Hr'. destruct (match_kept clock cfg Hps Hdis (cache w) H' key Hr' Hk) as (m' & c2 & E' & K').
    rewrite E1 in E'. by injection E' as _ <-.
  - split; try done; [lia| |by exists vs|].
    + rewrite Hpu. f_equal. apply prefix_take_app; [done|].
      pose proof (klen_units _ (proj1 (proj1 (tree_key_ok cfg Hps key Hk)))) as Eu. unfold zlen in Eu. lia.
    + intros Hn. by rewrite Hns, Hkn.
Qed.

(** A request without row and lock is matched and locked. *)
Lemma sys_admit w rs embed caps ext r : sys_ok w rs →
  refreshable r →
  req_pool_idx (kv r) = None → kv_allocated_len (kv r) = 0 →
  let fill := k_origin_input_ids r ++ k_output_ids r in
  ∃ m w1 w2, let r1 := adopt_match m (set_fill fill false r) in
    let r2 := set_lock (Some (last_device_node m)) (set_extend (k_prefix_len r1 + ext) r1) in
    init_next_round_input clock cfg embed caps r w = Ok (r1, w1) ∧
    lock_admitted cfg ext r1 w1 = Ok (r2, w2) ∧ sys_ok w2 (rs ++ [r2]) ∧
    0 ≤ device_prefix_len m ≤ Z.max 0 (zlen fill - 1) ∧ (ps | device_prefix_len m) ∧ rows w2 = rows w.
Proof.
  intros Hs0 Hfill Hidx Hal fill. destruct (sys_match w rs embed caps r Hs0 Hfill) as (m & c1 & E1 & Hs & Hm). fold fill in E1, Hm.
  destruct Hs as [(H & [Hreach Hpg Hpa] & HH) Hreqs Hrows Hfr Ho]. destruct Hm as [Hm Hb Hd Hpu (vs & Hpv & Hvl) Hns]. cbn [cache] in *.
  destruct (inc_kept clock cfg Hps Hdis c1 H (last_device_node m)) as (d & c2 & E2 & K2 & Hc2); [done..|].
  eexists m, _, (mkWorld c2 (pool w) (rows w)). split; [exact E1|].
  unfold lock_admitted. cbn [adopt_match set_kv set_last_node set_prefix k_last_node]. unfold tree_lock. cbn [cache pool rows].
  rewrite E2. cbn [rbind]. split; [reflexivity|]. pose proof (kp_nodes clock cfg _ _ _ _ K2 _ Hm) as Hm2.
  split; [|done].
  assert (framed (mkWorld c1 (pool w) (rows w)) (mkWorld c2 (pool w) (rows w)) [] (λ _, True)) as F by (split; [apply K2|intros; by apply K2|done]).
  split; cbn [cache pool rows].
  - exists (hold H (last_device_node m) 1). split; [split; [apply K2|intros ns us vs0 Hcc; by eapply Hpg, Hc2|done]|].
    intros k. unfold hold. rewrite !HH, lock_count_app, lock_count_cons. cbn [lock set_lock].
    repeat (case_decide || case_bool_decide); try congruence; unfold lock_count; cbn; lia.
  - intros r0 [Hr0| ->%list_elem_of_singleton]%elem_of_app.
    + eapply flight_frame; [done|done|set_solver|by apply Hreqs].
    + right. exists (last_device_node m). split; cbn; try done; [split; [lia|done]|apply Hm2|..].
      * change (path_units (last_device_node m) c2 = Ok (take (Z.to_nat (device_prefix_len m)) (row_units (is_eagle cfg) fill))).
        by rewrite (sn_units _ _ _ Hm2), Hpu.
      * exists vs. by rewrite (sn_slots _ _ _ Hm2).
      * intros Hn. rewrite (kp_root clock cfg _ _ _ _ K2) in Hn. by rewrite (sn_ns _ _ _ Hm2 Hn), Hns.
  - rewrite row_ids_app. cbn. by rewrite Hidx, app_nil_r.
  - done.
  - eapply owns_perm; [|exact Ho]. rewrite (kp_slots clock cfg _ _ _ _ K2), fmap_app, join_app. cbn [cache app].
    rewrite (own_pages_frame_list _ _ [] _ rs F) by set_solver. cbn. unfold own_pages at 3. cbn. by rewrite Hidx, !app_nil_r.
Qed.
End system.
