(* ===== verification/KvAlloc.v ===== *)
(** * Slots for a batch ([mem_cache/allocation.py])

    [alloc_for_extend] binds rows, evicts from the tree what the allocator is
    short of, takes slots and writes prefix and slots into the rows;
    [alloc_for_decode] does the same for one more token per request.  What the
    two allocators promise when they hand slots out is the class [SlotPool]. *)
From S2P Require Import Prelude RadixKey EvictPolicy RadixCache TokenAllocator PagedKernels PagedAllocator KvRow.

(** ** What an allocator hands out *)

(** [alloc] is called where pages are single slots, [alloc_extend] and
    [alloc_decode] where they are larger.  [owns] counts every slot: what is not
    in use is available, so no free waits in an open group. *)
Class SlotPool (A : Type) `{!PagePool A} := {
  pool_total : Z;
  pool_alloc : A → Z → result (option (list Z) * A);
  pool_alloc_extend : A → list Z → list Z → list Z → Z → result (option (list Z) * A);
  pool_alloc_decode : A → list Z → list Z → result (option (list Z) * A);
  (** [get_all_free_pages]. *)
  pool_free_pages : A → list Z;
  pool_free_owns : ∀ a used, owns a used → NoDup (pool_free_pages a ++ used);
  pool_available_owns : ∀ a used, owns a used → pool_available a = pool_total - zlen used * pool_page_size a;
  pool_alloc_owns : ∀ a used n, owns a used → pool_page_size a = 1 → 0 ≤ n →
    match pool_alloc a n with
    | Ok (Some out, a') => zlen out = n ∧ owns a' (out ++ used) ∧ pool_page_size a' = pool_page_size a
    | Ok (None, a') => pool_available a < n ∧ owns a' used ∧ pool_page_size a' = pool_page_size a
    | Raise _ => False
    end;
  pool_extend_owns : ∀ a used rs, owns a used → 1 < pool_page_size a → batch_ok rs →
    let need := sum_pages (pool_page_size a) rs in
    match pool_alloc_extend a (r_prefix <$> rs) (r_seq <$> rs) (r_last <$> rs) (sum_ext rs) with
    | Ok (Some out, a') => ∃ free, need ≤ zlen free ∧ out = place_batch (pool_page_size a) free rs 0 ∧
        owns a' (pytake free need ++ used) ∧ pool_page_size a' = pool_page_size a
    | Ok (None, a') => pool_available a < need * pool_page_size a ∧ owns a' used ∧ pool_page_size a' = pool_page_size a
    | Raise _ => False
    end;
  pool_decode_owns : ∀ a used ds, owns a used → 1 < pool_page_size a → Forall (λ d : Z * Z, 1 ≤ d.1) ds →
    Forall (continues (pool_page_size a) used) (decode_req <$> ds) →
    let need := decode_pages (pool_page_size a) ds in
    match pool_alloc_decode a (ds.*1) (ds.*2) with
    | Ok (Some out, a') => ∃ free, need ≤ zlen free ∧ out = place_batch (pool_page_size a) free (decode_req <$> ds) 0 ∧
        owns a' (pytake free need ++ used) ∧ pool_page_size a' = pool_page_size a
    | Ok (None, a') => pool_available a < need * pool_page_size a ∧ owns a' used ∧ pool_page_size a' = pool_page_size a
    | Raise _ => False
    end
}.

(** ** The token allocator: pages of one slot and no paged interface *)

Section token.
Context (total : Z).

(** No group is open, and there are [total] slots. *)
Definition token_settled (a : Token.TokenToKVPoolAllocator) : Prop :=
  Token.free_group a = None ∧ Token.size a = total ∧ 0 ≤ total.

Lemma token_settled_alloc a n : token_settled a → token_settled (Token.alloc a n).2.
Proof.
  intros (Hg & Hs & H0). unfold Token.alloc. set (a1 := if _ && _ then _ else _).
  assert (token_settled a1) as (Hg1 & Hs1 & _).
  { unfold a1, Token.merge_and_sort_free. destruct (_ && _); [|done]. by destruct (0 <? _). }
  clearbody a1. by destruct (_ <? _).
Qed.

Program Definition token_kv_pool : PagePool Token.TokenToKVPoolAllocator := {|
  pool_page_size _ := 1;
  pool_available := Token.available_size;
  pool_free_segment := Token.free_segment;
  owns a used := Token.wf a used ∧ token_settled a
|}.
Next Obligation. cbn. intros a used used' E [H ?]. split; [by eapply Token.wf_perm|done]. Qed.
Next Obligation. cbn. intros a used [Hwf _]. by apply (owns_nodup (PagePool := Token.token_pool) a). Qed.
Next Obligation. done. Qed.
Next Obligation.
  cbn. intros a seg start used [Hwf (Hg & Hs & H0)] _. rewrite Token.segment_pages_1 in Hwf. unfold Token.free_segment. rewrite Z.mod_1_r.
  eexists. split; [done|]. split; [|done]. split; [by apply Token.free_spec|]. unfold Token.free. destruct (_ =? 0); [done|]. rewrite Hg.
  by destruct (Token.need_sort a).
Qed.

Program Definition token_slots : SlotPool Token.TokenToKVPoolAllocator (PagePool0 := token_kv_pool) := {|
  pool_total := total;
  pool_free_pages := Token.get_all_free_pages;
  pool_alloc a n := Ok (Token.alloc a n);
  pool_alloc_extend _ _ _ _ _ := Raise NotImplementedError;
  pool_alloc_decode _ _ _ := Raise NotImplementedError
|}.
Next Obligation.
  cbn. intros a used [Hwf (Hg & _)]. pose proof (Token.wf_nodup a used Hwf) as Hnd. unfold Token.pending in Hnd. rewrite Hg in Hnd. cbn in Hnd.
  unfold Token.get_all_free_pages. destruct (Z.eqb_spec (zlen (Token.release_pages a)) 0) as [E|_]; [|by rewrite <- app_assoc].
  by rewrite (zlen_nil_inv _ E) in Hnd.
Qed.
Next Obligation.
  cbn. intros a used [[Hp _ _] (Hg & <- & H0)]. unfold Token.pending in Hp. rewrite Hg in Hp. cbn in Hp.
  apply Permutation_length in Hp. unfold arange1 in Hp. rewrite !length_app, length_seqZ in Hp.
  unfold Token.available_size, zlen. lia.
Qed.
Next Obligation.
  cbn. intros a used n [Hwf Hs] _ Hn. pose proof (Token.alloc_spec a n used Hwf Hn) as H. pose proof (token_settled_alloc a n Hs) as Hs'.
  destruct (Token.alloc a n) as [[sel|] a']; [destruct H as (_ & Hl & Hw & _)|destruct H as (Hlt & Hw & _)]; done.
Qed.
Next Obligation. cbn. intros. lia. Qed.
Next Obligation. cbn. intros. lia. Qed.
End token.

(** ** The paged allocator *)

Lemma page_slots_one pages : page_slots 1 pages = pages.
Proof.
  induction pages as [|p l IH]; [done|]. trans ((p * 1 + 0) :: page_slots 1 l); [done|]. rewrite IH. f_equal. lia.
Qed.

Section paged.
Context (lightop_alloc_extend : Z → list Z → list Z → list Z → list Z → list Z → Z → list Z).
Context (oob : Z) (He : lightop_extend_ok lightop_alloc_extend).
Context (total : Z).

Definition paged_settled (a : PagedTokenToKVPoolAllocator) : Prop :=
  free_group a = None ∧ free_page_ids_group a = [] ∧ 0 ≤ num_pages a ∧ num_pages a * ppage_size a = total ∧ debug_mode a = false.

Lemma paged_settled_same a a' : same_rest a a' → paged_settled a → paged_settled a'.
Proof. intros (H1 & H2 & H3 & H4 & H5 & _) (? & ? & ? & ? & ?). unfold paged_settled. rewrite H1, H2, H3, H4, H5. done. Qed.

Lemma paged_settled_free a seg start a' : paged_settled a → pfree_segment a seg start = Ok a' → paged_settled a'.
Proof.
  intros (Hg & Hi & H0 & Ht & Hdb). unfold pfree_segment. destruct (_ =? 0); [by intros [= <-]|].
  destruct (_ =? 0); [|done]. cbn [assert_ rbind]. destruct (negb _ || _); [|done]. cbn [assert_ rbind]. unfold pfree_page_ids.
  destruct (_ =? 0); [by intros [= <-]|]. rewrite Hg. set (b := _release_page_ids _ a).
  assert (paged_settled b) as Hb by (unfold b, _release_page_ids; by destruct (pneed_sort a)).
  destruct Hb as (? & ? & ? & ? & Hdb'). rewrite Hdb'. by intros [= <-].
Qed.

Program Definition paged_kv_pool : PagePool PagedTokenToKVPoolAllocator := {|
  pool_page_size := ppage_size;
  pool_available := pavailable_size;
  pool_free_segment := pfree_segment;
  owns a used := pwf a used ∧ paged_settled a
|}.
Next Obligation. cbn. intros a used used' E [H ?]. split; [by eapply pwf_perm|done]. Qed.
Next Obligation. cbn. intros a used [Hwf _]. by eapply pwf_used_nodup. Qed.
Next Obligation. cbn. intros a used [[] _]. done. Qed.
Next Obligation.
  cbn. intros a seg start used [Hwf Hs] Hm. pose proof Hs as (_ & _ & _ & _ & Hdb).
  destruct (pfree_segment_spec a seg start used Hwf Hdb Hm) as (a' & E & Hw & Ep & _). exists a'.
  split; [done|]. split; [|done]. split; [done|]. by eapply paged_settled_free.
Qed.

Program Definition paged_slots : SlotPool PagedTokenToKVPoolAllocator (PagePool0 := paged_kv_pool) := {|
  pool_total := total;
  pool_free_pages := pget_all_free_pages;
  pool_alloc := palloc;
  pool_alloc_extend a pl sl ll n := palloc_extend lightop_alloc_extend oob a pl sl ll n None;
  pool_alloc_decode a sl ll := palloc_decode oob a sl ll
|}.
Next Obligation.
  cbn. intros a used [[Hp _ _ _] (Hg & Hi & _)]. unfold pend in Hp. rewrite Hg, Hi in Hp. cbn in Hp.
  unfold pget_all_free_pages. rewrite <- app_assoc, Hp. apply NoDup_seqZ.
Qed.
Next Obligation.
  cbn. intros a used [[Hp Hs _ _] (Hg & Hi & H0 & <- & _)]. unfold pend in Hp. rewrite Hg, Hi in Hp. cbn in Hp.
  apply Permutation_length in Hp. unfold arange1 in Hp. rewrite !length_app, length_seqZ in Hp.
  unfold pavailable_size. rewrite Hs. unfold zlen. rewrite <- Z.mul_sub_distr_r. f_equal. lia.
Qed.
Next Obligation.
  cbn. intros a used n [Hwf Hs] Hp Hn. pose proof Hs as (_ & _ & _ & _ & Hdb). pose proof (palloc_spec a n used Hwf Hn Hdb) as H. cbv zeta in H.
  destruct (palloc a n) as [[[out|] a']|] eqn:E; [| |done]; apply palloc_same in E as Hsr; pose proof Hsr as (_ & Ep & _);
    pose proof (paged_settled_same _ _ Hsr Hs) as Hs'.
  - destruct H as (_ & pages & Hl & -> & Hwf'). rewrite Hp, page_slots_one. rewrite Hp, Z.div_1_r in Hl. split; [done|]. split; [done|congruence].
  - destruct H as [Hlt Hwf']. unfold pavailable_size. rewrite Hp in *. rewrite Z.div_1_r in Hlt. split; [lia|]. split; [done|congruence].
Qed.
Next Obligation.
  cbn. intros a used rs [Hwf Hs] Hp Hb. pose proof Hs as (_ & _ & _ & _ & Hdb).
  pose proof (extend_spec lightop_alloc_extend oob a used rs None He Hwf Hb Hdb ltac:(done)) as H. cbv zeta in H.
  destruct (palloc_extend _ _ a _ _ _ _ _) as [[[out|] a']|] eqn:E; [| |done]; apply palloc_extend_same in E as Hsr; pose proof Hsr as (_ & Ep & _);
    pose proof (paged_settled_same _ _ Hsr Hs) as Hs'.
  - destruct H as (_ & free & Hl & Hout & _ & Hwf'). exists free. split; [|done].
    pose proof (sum_pages_nonneg (ppage_size a) rs ltac:(lia) Hb) as H0. rewrite zlen_pytake in Hl by done. lia.
  - destruct H as [Hlt Hwf']. unfold pavailable_size. split; [nia|done].
Qed.
Next Obligation.
  cbn. intros a used ds [Hwf Hs] Hp Hb Hc. pose proof Hs as (_ & _ & _ & _ & Hdb).
  pose proof (decode_spec oob a used ds Hwf Hp Hb Hc Hdb) as H. cbv zeta in H.
  destruct (palloc_decode _ a _ _) as [[[out|] a']|] eqn:E; [| |done]; apply palloc_decode_same in E as Hsr; pose proof Hsr as (_ & Ep & _);
    pose proof (paged_settled_same _ _ Hsr Hs) as Hs'.
  - destruct H as (_ & free & Hl & Hout & _ & Hwf'). exists free. split; [|done].
    assert (0 ≤ decode_pages (ppage_size a) ds) as H0 by (apply zsum_nonneg, needs_pages_nonneg). rewrite zlen_pytake in Hl by done. lia.
  - destruct H as [Hlt Hwf']. unfold pavailable_size. split; [nia|done].
Qed.
End paged.

(** ** The batch *)

Section alloc.
Context {A : Type} `{!PagePool A} `{!SlotPool A} (clock : nat → Z) (cfg : cache_config) {HQ : HeapQ entry entry_le}.
(** [list(self.evictable_leaves)]: some order of the set. *)
Context (leaves_of : RadixCache → list nat).
Abbreviation ps := (page_size cfg).

(** [evict_from_tree_cache] with [evict_to_free_tokens]; the second pass is for
    sharded pages only. *)
Definition evict_from_tree_cache (num_tokens : Z) (w : world A) : result (world A) :=
  let shortfall := num_tokens - pool_available (pool w) in
  if 0 <? shortfall then
    let! (_, w) := evict_kv cfg shortfall (leaves_of (cache w)) w in Ok w
  else Ok w.

(** The slots, or the out-of-memory error. *)
Definition or_oom (res : result (option (list Z) * A)) (w : world A) : result (list Z * world A) :=
  let! (out, a) := res in
  match out with
  | Some out => Ok (out, mkWorld (cache w) a (rows w))
  | None => Raise RuntimeError
  end.

Definition alloc_token_slots (num_tokens : Z) (w : world A) : result (list Z * world A) :=
  let! w := evict_from_tree_cache num_tokens w in
  or_oom (pool_alloc (pool w) num_tokens) w.

Definition alloc_paged_token_slots_extend (prefix_lens seq_lens last_loc : list Z) (extend_num_tokens : Z)
    (w : world A) : result (list Z * world A) :=
  let num_tokens := extend_num_tokens + zlen seq_lens * pool_page_size (pool w) in
  let! w := evict_from_tree_cache num_tokens w in
  or_oom (pool_alloc_extend (pool w) prefix_lens seq_lens last_loc extend_num_tokens) w.

Definition alloc_paged_token_slots_decode (seq_lens last_loc : list Z) (w : world A) : result (list Z * world A) :=
  let num_tokens := zlen seq_lens * pool_page_size (pool w) in
  let! w := evict_from_tree_cache num_tokens w in
  or_oom (pool_alloc_decode (pool w) seq_lens last_loc) w.

(** [_prefix_kv_indices] and [prefix_device_indices]. *)
Definition _prefix_kv_indices (w : world A) (r : KvReq) : result (list Z) :=
  if holds_kv (kv r) then
    let! row := get_row (req_pool_idx (kv r)) (rows w) in Ok (pytake row (k_prefix_len r))
  else if k_prefix_len r =? 0 then Ok []
  else
    match k_last_node r with
    | None => Raise AttributeError
    | Some n =>
        let! path := path_device_indices n (cache w) in
        assert! k_prefix_len r <=? zlen path in
        Ok (pytake path (k_prefix_len r))
    end.

Definition alloc_req_slots (reqs : list KvReq) (w : world A) : result (list KvReq * world A) :=
  let! (out, reqs, p) := rows_alloc reqs (rows w) in
  match out with
  | Some _ => Ok (reqs, mkWorld (cache w) (pool w) p)
  | None => Raise RuntimeError
  end.

(** The fallback loop of [write_cache_indices]; the Triton kernel writes the
    same entries. *)
Fixpoint write_cache_indices (out_cache_loc : list Z) (pt : Z) (reqs : list KvReq) (prefix_tensors : list (list Z))
    (p : ReqToTokenPool) : result ReqToTokenPool :=
  match reqs, prefix_tensors with
  | r :: reqs, t :: ts =>
      let prefix_len := k_prefix_len r in
      let seq_len := k_extend_end r in
      let extend_len := seq_len - prefix_len in
      let! p := rows_write (req_pool_idx (kv r)) 0 prefix_len t p in
      let! p := rows_write (req_pool_idx (kv r)) prefix_len seq_len (pyslice out_cache_loc pt (pt + extend_len)) p in
      write_cache_indices out_cache_loc (pt + extend_len) reqs ts p
  | _, _ => Ok p
  end.

Definition last_of (t : list Z) : Z := default (-1) (last t).

Definition set_alloc (n : Z) (k : ReqKvInfo) : ReqKvInfo :=
  mkKv (req_pool_idx k) (cache_protected_len k) (cache_inserted_len k) n n (swa_evict_floor k)
    (component_evicted_seqlens k) (mamba_pool_idx k).

(** The tokens of the next forward pass: [get_fill_ids()[prefix_len:]]. *)
Definition extend_input (r : KvReq) : list Z :=
  pydrop (pytake (full_untruncated_fill_ids r) (k_extend_end r)) (k_prefix_len r).

Fixpoint mapR {B C} (f : B → result C) (l : list B) : result (list C) :=
  match l with [] => Ok [] | x :: l => let! y := f x in let! ys := mapR f l in Ok (y :: ys) end.

(** [alloc_for_extend] of a batch as [prepare_for_extend] sets it up, for a plain
    pool: the branches for diffusion batches, sliding windows, HiSparse, auxiliary
    caches, NPUs and streaming sessions belong to other configurations. *)
Definition alloc_for_extend (reqs : list KvReq) (w : world A) : result (list Z * list KvReq * world A) :=
  let prefix_lens := k_prefix_len <$> reqs in
  let seq_lens := k_extend_end <$> reqs in
  let extend_num_tokens := zsum (zlen ∘ extend_input <$> reqs) in
  let! prefix_tensors := mapR (_prefix_kv_indices w) reqs in
  let! (reqs, w) := alloc_req_slots reqs w in
  let! (out_cache_loc, w) :=
    if ps =? 1 then alloc_token_slots extend_num_tokens w
    else alloc_paged_token_slots_extend prefix_lens seq_lens (last_of <$> prefix_tensors) extend_num_tokens w in
  let! p := write_cache_indices out_cache_loc 0 reqs prefix_tensors (rows w) in
  Ok (out_cache_loc, (λ r, set_kv (set_alloc (k_extend_end r)) r) <$> reqs, mkWorld (cache w) (pool w) p).

(** One entry of a row. *)
Definition row_at (idx : option nat) (i : Z) (p : ReqToTokenPool) : result Z :=
  let! row := get_row idx p in
  let i := if i <? 0 then i + zlen row else i in
  if i <? 0 then Raise IndexError
  else match row !! Z.to_nat i with Some x => Ok x | None => Raise IndexError end.

Fixpoint write_decode (reqs : list KvReq) (locs out_cache_loc : list Z) (p : ReqToTokenPool) : result ReqToTokenPool :=
  match reqs, locs, out_cache_loc with
  | r :: reqs, l :: locs, x :: out =>
      let! p := rows_write (req_pool_idx (kv r)) l (l + 1) [x] p in write_decode reqs locs out p
  | _, _, _ => Ok p
  end.

(** [alloc_for_decode_default] with one token per request of a decoder-only
    model on a plain pool; [seq_lens] are the batch's. *)
Definition alloc_for_decode (reqs : list KvReq) (seq_lens : list Z) (w : world A) :
    result (list Z * list KvReq * world A) :=
  let! (out_cache_loc, w) :=
    if ps =? 1 then alloc_token_slots (zlen seq_lens) w
    else
      let! last_loc := mapR (λ rs, row_at (req_pool_idx (kv rs.1)) (rs.2 - 1) (rows w)) (zip reqs seq_lens) in
      alloc_paged_token_slots_decode (Z.add 1 <$> seq_lens) last_loc w in
  let! p := write_decode reqs seq_lens out_cache_loc (rows w) in
  Ok (out_cache_loc,
      (λ r, set_kv (λ k, mkKv (req_pool_idx k) (cache_protected_len k) (cache_inserted_len k)
              (kv_committed_len k + 1) (kv_allocated_len k + 1) (swa_evict_floor k)
              (component_evicted_seqlens k) (mamba_pool_idx k)) r) <$> reqs,
      mkWorld (cache w) (pool w) p).
End alloc.
