(* ===== verification/KvPlace.v ===== *)
(** * Placement and rows

    The slots [place_batch] chooses continue a row in pages and begin exactly
    the pages taken from the free list; [write_cache_indices] puts prefix and
    slots into the rows of the batch. *)
From S2P Require Import Prelude RadixKey EvictPolicy RadixCache TokenAllocator PagedKernels PagedAllocator KvRow KvTheorems KvAlloc.

(** ** Pages of a placement *)

Lemma seqZ_snoc m n : 0 ≤ n → seqZ m (n + 1) = seqZ m n ++ [m + n].
Proof. intros Hn. by rewrite seqZ_app by lia. Qed.

Section place.
Context (ps : Z) (Hps : 0 < ps) (free : list Z).

Lemma head_pages_snoc l x : head_pages ps (l ++ [x]) = head_pages ps l ++ (if decide (x mod ps = 0) then [x / ps] else []).
Proof. rewrite head_pages_app. f_equal. unfold head_pages. cbn. by case_decide. Qed.

Lemma ceil_div_succ s : ceil_div (s + 1) ps = ceil_div s ps + (if decide (s mod ps = 0) then 1 else 0).
Proof.
  pose proof (Z.div_mod s ps ltac:(lia)) as Hs. pose proof (Z.mod_pos_bound s ps Hps) as Hb.
  rewrite (ceil_div_unique ps Hps (s + 1) (s / ps + 1)) by nia. case_decide as Hm.
  - rewrite (ceil_div_unique ps Hps s (s / ps)) by nia. lia.
  - rewrite (ceil_div_unique ps Hps s (s / ps + 1)) by nia. lia.
Qed.

(** The last slot of the prefix is where its position says. *)
Definition last_fits (r : req) : Prop := r_prefix r mod ps ≠ 0 → (r_last r + 1) mod ps = r_prefix r mod ps.

Lemma place_mod r k t : 0 ≤ t → last_fits r → place ps free r k t mod ps = (r_prefix r + t) mod ps.
Proof.
  intros Ht Hl. unfold place. cbv zeta. destruct (Z.ltb_spec (r_prefix r + t) (ceil_align (r_prefix r) ps)) as [Hlt|_].
  - assert (r_prefix r mod ps ≠ 0) as Hm.
    { intros Hm%Z.mod_divide; [|lia]. rewrite ceil_align_id in Hlt by done. lia. }
    rewrite <- (Zplus_mod_idemp_l (r_last r + 1)), (Hl Hm). apply Zplus_mod_idemp_l.
  - rewrite Z.add_comm, Z.mod_add by lia. apply Z.mod_mod. lia.
Qed.

Lemma place_req_snoc p s l k : 0 ≤ p ≤ s →
  place_req ps free (mkReq p (s + 1) l) k = place_req ps free (mkReq p s l) k ++ [place ps free (mkReq p s l) k (s - p)].
Proof.
  intros Hp. unfold place_req, ext. cbn [r_prefix r_seq]. replace (s + 1 - p) with (s - p + 1) by lia.
  rewrite seqZ_snoc by lia. rewrite fmap_app. cbn. by rewrite Z.add_0_l.
Qed.

(** The pages a request's slots begin. *)
Lemma place_req_heads r k : 0 ≤ r_prefix r ≤ r_seq r → last_fits r →
  head_pages ps (place_req ps free r k) = at_ free <$> seqZ k (new_pages ps r).
Proof.
  destruct r as [p s l]. cbn [r_prefix r_seq]. intros [Hp Hs] Hl. revert Hl.
  pattern s. apply (Zlt_lower_bound_ind _ p); [|done]. clear s Hs. intros s IH Hs Hl.
  destruct (decide (s = p)) as [->|Hne].
  { unfold place_req, ext, new_pages. cbn [r_prefix r_seq]. rewrite !Z.sub_diag. done. }
  replace s with (s - 1 + 1) in * by lia. set (s' := s - 1) in *. rewrite place_req_snoc by lia.
  rewrite head_pages_snoc, (IH s') by (done || lia). rewrite place_mod by (done || lia). cbn [r_prefix].
  replace (p + (s' - p)) with s' by lia. unfold new_pages. cbn [r_prefix r_seq]. rewrite ceil_div_succ.
  case_decide as Hm; [|rewrite app_nil_r; do 2 f_equal; lia].
  assert (ps | s') as Hd by (apply Z.mod_divide; [lia|done]).
  pose proof (ceil_align_min ps Hps p s' Hd ltac:(lia)) as Hca.
  assert (ceil_div s' ps = s' / ps) as Ec.
  { destruct Hd as [q ->]. rewrite Z.div_mul by lia. apply ceil_div_unique; nia. }
  replace (ceil_div s' ps + 1 - ceil_div p ps) with (ceil_div s' ps - ceil_div p ps + 1) by lia.
  rewrite seqZ_snoc, fmap_app; [|pose proof (ceil_div_spec ps Hps p); pose proof (ceil_div_spec ps Hps s'); nia]. f_equal. cbn. f_equal.
  unfold place. cbn [r_prefix]. cbv zeta. replace (p + (s' - p)) with s' by lia.
  destruct (Z.ltb_spec s' (ceil_align p ps)); [lia|]. rewrite Hm, Z.add_0_r, Z.div_mul by lia. f_equal. lia.
Qed.

Lemma place_req_lookup r k i x : place_req ps free r k !! i = Some x ↔ Z.of_nat i < ext r ∧ x = place ps free r k (Z.of_nat i).
Proof.
  unfold place_req. rewrite list_lookup_fmap, fmap_Some. split.
  - intros (z & Hz & ->). apply lookup_seqZ in Hz as [-> Hz]. rewrite Z.add_0_l in *. done.
  - intros [Hi ->]. exists (Z.of_nat i). by rewrite lookup_seqZ_lt by lia.
Qed.

(** The last slot of a prefix fits. *)
Lemma paged_last t l : paged ps t → last t = Some l → ∃ y,
  t !! Z.to_nat (page_align_floor (zlen t - 1) ps) = Some y ∧ l = y + (zlen t - 1) mod ps ∧ y mod ps = 0.
Proof.
  intros Hp Hl. rewrite last_lookup in Hl. destruct (Hp _ _ Hl) as (y & Hy & Hx & Hm).
  assert (0 < zlen t) as Hpos. { destruct t; [done|]. unfold zlen. cbn. lia. }
  exists y. assert (Z.of_nat (pred (length t)) = zlen t - 1) as E by (unfold zlen in *; lia). split; [|split; [|done]].
  - rewrite <- Hy. f_equal. unfold page_align_floor. apply Nat2Z.inj. rewrite Nat2Z.inj_mul, Nat2Z.inj_div, E, Z2Nat.id, Z2Nat.id by
      (try apply Z.mul_nonneg_nonneg; try apply Z.div_pos; lia). done.
  - rewrite Hx. f_equal. rewrite Nat2Z.inj_mod, E, Z2Nat.id by lia. done.
Qed.

(** Prefix and new slots together come in pages. *)
Lemma place_paged t r k : paged ps t → zlen t = r_prefix r → 0 ≤ r_prefix r → (t ≠ [] → last t = Some (r_last r)) →
  paged ps (t ++ place_req ps free r k).
Proof.
  intros Hp Hl H0 Hlast i x Hi. cbv zeta. set (q := Z.to_nat ps). assert (Z.of_nat q = ps) as Eq by lia.
  apply lookup_app_Some in Hi as [Hi|[Hge Hi]].
  { destruct (Hp i x Hi) as (y & Hy & Hx). exists y. split; [|done]. by apply lookup_app_l_Some. }
  apply place_req_lookup in Hi as [Hi ->]. unfold zlen in Hl. replace (Z.of_nat (i - length t)) with (Z.of_nat i - r_prefix r) in * by lia.
  assert (Z.of_nat (i / q * q) = page_align_floor (Z.of_nat i) ps) as Eb by (rewrite Nat2Z.inj_mul, Nat2Z.inj_div, Eq; done).
  assert (Z.of_nat (i mod q) = Z.of_nat i mod ps) as Em by (rewrite Nat2Z.inj_mod, Eq; done).
  pose proof (page_align_floor_le ps Hps (Z.of_nat i)) as Hfl. pose proof (Z.div_mod (Z.of_nat i) ps ltac:(lia)) as Hdm. rewrite Em.
  unfold place at 1. cbv zeta. replace (r_prefix r + (Z.of_nat i - r_prefix r)) with (Z.of_nat i) by lia.
  destruct (Z.ltb_spec (Z.of_nat i) (ceil_align (r_prefix r) ps)) as [Hlt|Hgec].
  - (* the rest of the prefix's last page *)
    assert (page_align_floor (Z.of_nat i) ps < r_prefix r) as Hb.
    { destruct (decide (r_prefix r ≤ page_align_floor (Z.of_nat i) ps)) as [Hle|]; [|lia].
      pose proof (ceil_align_min ps Hps _ _ (page_align_floor_divide ps (Z.of_nat i)) Hle). lia. }
    assert (page_align_floor (zlen t - 1) ps = page_align_floor (Z.of_nat i) ps) as Ef.
    { apply Z.le_antisymm; [apply page_align_floor_mono; unfold zlen; lia|]. apply page_align_floor_max; [done|apply page_align_floor_divide|unfold zlen; lia]. }
    destruct (paged_last t (r_last r) Hp) as (y & Hy & Hx & Hm).
    { apply Hlast. intros ->. cbn in *. pose proof (page_align_floor_nonneg ps Hps (Z.of_nat i)). lia. }
    exists y. rewrite Ef in Hy. rewrite <- Eb, Nat2Z.id in Hy. split; [|split; [|done]].
    + by apply lookup_app_l_Some.
    + pose proof (Z.div_mod (zlen t - 1) ps ltac:(lia)). unfold page_align_floor, zlen in *. lia.
  - (* a new page *)
    assert (r_prefix r ≤ page_align_floor (Z.of_nat i) ps) as Hb.
    { etrans; [apply (ceil_align_ge ps Hps)|]. apply page_align_floor_max; [done|apply ceil_align_divide|done]. }
    exists (at_ free (k + (Z.of_nat i / ps - ceil_div (r_prefix r) ps)) * ps). split; [|split; [done|apply Z.mod_mul; lia]].
    rewrite lookup_app_r by lia. apply place_req_lookup. replace (Z.of_nat (i / q * q - length t)) with (page_align_floor (Z.of_nat i) ps - r_prefix r) by lia.
    split; [lia|]. unfold place. cbv zeta. replace (r_prefix r + (_ - r_prefix r)) with (page_align_floor (Z.of_nat i) ps) by lia.
    destruct (Z.ltb_spec (page_align_floor (Z.of_nat i) ps) (ceil_align (r_prefix r) ps)) as [Hlt|_].
    { pose proof (page_align_floor_max ps Hps (Z.of_nat i) _ (ceil_align_divide ps (r_prefix r)) Hgec). lia. }
    unfold page_align_floor. rewrite Z.div_mul, Z.mod_mul, Z.add_0_r by lia. done.
Qed.

(** The slots of each request of a batch. *)
Fixpoint place_segs (rs : list req) (k : Z) : list (list Z) :=
  match rs with [] => [] | r :: rs => place_req ps free r k :: place_segs rs (k + new_pages ps r) end.

Lemma place_segs_join rs k : place_batch ps free rs k = mjoin (place_segs rs k).
Proof. revert k. induction rs as [|r rs IH]; intros k; [done|]. cbn. by rewrite IH. Qed.

Lemma length_place_segs rs k : length (place_segs rs k) = length rs.
Proof. revert k. induction rs as [|r rs IH]; intros k; [done|]. cbn. by rewrite IH. Qed.

Lemma place_segs_lookup rs k i seg : place_segs rs k !! i = Some seg →
  ∃ r k', rs !! i = Some r ∧ seg = place_req ps free r k'.
Proof.
  revert k i. induction rs as [|r rs IH]; intros k i Hi; [done|]. destruct i as [|i]; cbn in Hi.
  - injection Hi as <-. by exists r, k.
  - by eapply IH.
Qed.

Lemma place_segs_heads rs k : batch_ok rs → Forall last_fits rs →
  mjoin (head_pages ps <$> place_segs rs k) = at_ free <$> seqZ k (sum_pages ps rs).
Proof.
  intros Hb. revert k. induction Hb as [|r rs Hr Hb IH]; intros k Hl; [done|]. apply Forall_cons in Hl as [Hl1 Hl2].
  cbn [place_segs]. rewrite fmap_cons. change (mjoin (?x :: ?y)) with (x ++ mjoin y).
  rewrite IH, place_req_heads by done. pose proof (new_pages_nonneg ps Hps r Hr). pose proof (sum_pages_nonneg ps rs Hps Hb).
  rewrite <- fmap_app, <- seqZ_app by done. done.
Qed.

Lemma pytake_at n : 0 ≤ n ≤ zlen free → pytake free n = at_ free <$> seqZ 0 n.
Proof.
  intros Hn. rewrite pytake_eq by lia. apply list_eq. intros i. destruct (decide (i < Z.to_nat n)%nat) as [Hi|Hi].
  - rewrite lookup_take_lt by done. destruct (lookup_lt_is_Some_2 free i) as [x Hx]; [unfold zlen in Hn; lia|].
    rewrite Hx, list_lookup_fmap, lookup_seqZ_lt by lia. cbn. unfold at_. f_equal. symmetry.
    apply list_lookup_total_correct. rewrite <- Hx. f_equal. lia.
  - rewrite lookup_take_ge by lia. rewrite list_lookup_fmap, lookup_seqZ_ge by lia. done.
Qed.
End place.

(** With pages of one slot a placement is the free list itself. *)
Lemma sum_pages_one rs : sum_pages 1 rs = sum_ext rs.
Proof.
  unfold sum_pages, sum_ext. f_equal. apply list_fmap_ext. intros i r _. unfold new_pages, ext, ceil_div.
  rewrite !Z.div_1_r. lia.
Qed.

Lemma place_batch_one free rs k : batch_ok rs → 0 ≤ k →
  place_batch 1 free rs k = at_ free <$> seqZ k (sum_ext rs).
Proof.
  intros Hb. revert k. induction Hb as [|r rs Hr Hb IH]; intros k Hk; [done|]. cbn [place_batch].
  assert (new_pages 1 r = ext r) as -> by (unfold new_pages, ext, ceil_div; rewrite !Z.div_1_r; lia).
  assert (0 ≤ ext r) as He by (unfold ext; lia). assert (0 ≤ sum_ext rs) as Hs by (by apply zsum_nonneg, batch_ext_nonneg).
  rewrite IH by lia. change (sum_ext (r :: rs)) with (ext r + sum_ext rs). rewrite seqZ_app, fmap_app by done. f_equal.
  unfold place_req. apply list_eq. intros i. rewrite !list_lookup_fmap. destruct (decide (Z.of_nat i < ext r)) as [Hi|Hi].
  - rewrite !lookup_seqZ_lt by lia. cbn. rewrite Z.add_0_l. f_equal. unfold place. cbv zeta. unfold ceil_align, ceil_div. rewrite !Z.div_1_r, Z.mod_1_r.
    destruct (Z.ltb_spec (r_prefix r + Z.of_nat i) ((r_prefix r + 1 - 1) * 1)); [lia|]. rewrite Z.mul_1_r, Z.add_0_r. f_equal. lia.
  - rewrite !lookup_seqZ_ge by lia. done.
Qed.

(** ** Writing rows *)

Lemma rows_write_range p idx row a b vals : req_to_token p !! idx = Some row → 0 ≤ a ≤ b → b ≤ zlen row → zlen vals = b - a →
  rows_write (Some idx) a b vals p
  = Ok (mkRows (<[ idx := take (Z.to_nat a) row ++ vals ++ drop (Z.to_nat b) row ]> (req_to_token p)) (free_slots p) (req_generation p)).
Proof.
  intros Hrow Hab Hb Hl. unfold rows_write, get_row. rewrite Hrow. cbn [rbind]. rewrite !norm_idx_in by lia. rewrite Z.max_r by lia.
  destruct (Z.eqb_spec (b - a) (zlen vals)) as [_|]; [|lia]. cbn [negb]. by rewrite pytake_eq, pydrop_eq by lia.
Qed.

(** A request of the batch with its prefix and its new slots. *)
Record item_ok (p : ReqToTokenPool) (r : KvReq) (t s : list Z) (idx : nat) (row : list Z) : Prop := {
  it_idx : req_pool_idx (kv r) = Some idx;
  it_row : req_to_token p !! idx = Some row;
  it_prefix : zlen t = k_prefix_len r;
  it_slots : zlen s = k_extend_end r - k_prefix_len r;
  it_width : k_extend_end r ≤ zlen row
}.

Lemma write_item p r t s idx row pt out reqs ts : item_ok p r t s idx row → pyslice out pt (pt + zlen s) = s →
  write_cache_indices out pt (r :: reqs) (t :: ts) p
  = write_cache_indices out (pt + zlen s) reqs ts
      (mkRows (<[ idx := t ++ s ++ drop (Z.to_nat (k_extend_end r)) row ]> (req_to_token p)) (free_slots p) (req_generation p)).
Proof.
  intros [Hi Hrow Ht Hs Hw] Hout. cbn [write_cache_indices]. rewrite <- Hs, Hout, Hi.
  pose proof (zlen_nonneg t). pose proof (zlen_nonneg s).
  rewrite (rows_write_range p idx row 0 (k_prefix_len r) t) by (done || lia). cbn [rbind].
  set (row1 := take (Z.to_nat 0) row ++ t ++ drop (Z.to_nat (k_prefix_len r)) row).
  assert (zlen row1 = zlen row) as Hl1.
  { unfold row1. rewrite !zlen_app. unfold zlen in *. rewrite length_take, length_drop. lia. }
  rewrite (rows_write_range _ idx row1 (k_prefix_len r) (k_extend_end r) s); [|cbn; by rewrite lookup_insert_eq|lia..].
  cbn [rbind req_to_token free_slots req_generation]. rewrite insert_insert_eq.
  assert (take (Z.to_nat (k_prefix_len r)) row1 ++ s ++ drop (Z.to_nat (k_extend_end r)) row1
          = t ++ s ++ drop (Z.to_nat (k_extend_end r)) row) as ->; [|done].
  unfold row1. change (take (Z.to_nat 0) row ++ t ++ drop (Z.to_nat (k_prefix_len r)) row) with (t ++ drop (Z.to_nat (k_prefix_len r)) row).
  replace (Z.to_nat (k_prefix_len r)) with (length t) by (unfold zlen in Ht; lia).
  rewrite take_app_length. f_equal. f_equal. rewrite drop_app_ge by (unfold zlen in *; lia). rewrite drop_drop. f_equal.
  unfold zlen in *. lia.
Qed.
