(* ===== verification/SwaAllocator.v ===== *)
(** * The allocator of a sliding-window model ([mem_cache/allocator/swa.py])

    Two pools, one for the layers with full attention and one for the layers
    with a sliding window, and a table from the slots of the first to the slots
    of the second.  Requests see slots of the full pool only; every operation
    keeps the window pool in step through the table.  Out-of-window slots are
    given back early on the window side ([free_swa], [free_swa_segment]) and
    later on the full side ([free_full]).

    The pools are the allocators of TokenAllocator.v (page size 1) and
    PagedAllocator.v; [sub] is the choice the constructor makes.  With a
    per-request ring ([_swa_req_ring]) the window pool is not used.  This file
    holds the operations; SwaInv.v and SwaTheorems.v hold what is proved. *)
From S2P Require Import Prelude TokenAllocator PagedKernels PagedAllocator.

(** ** Run-time invariant checks ([utils/invariants.py]) *)

Inductive InvariantCheckLevel := OFF | WARN | STRICT.
Inductive Bucket := SOFTEN | GUARD | FATAL_CONTAINABLE | FATAL_UNCONTAINABLE.

Definition _crashes (bucket : Bucket) (level : InvariantCheckLevel) : bool :=
  match bucket, level with
  | SOFTEN, _ => false
  | FATAL_UNCONTAINABLE, (WARN | STRICT) => true
  | FATAL_UNCONTAINABLE, OFF => false
  | _, STRICT => true
  | _, _ => false
  end.

(** [expect] of an [IsTrue] invariant without recovery.  The assertion is
    raised at the check, not at the next synchronisation. *)
Definition expect (level : InvariantCheckLevel) (bucket : Bucket) (ok : list bool) : result unit :=
  if _crashes bucket level && negb (forallb id ok) then Raise RuntimeError else Ok tt.

(** ** Indexing a tensor *)

(** Python's negative indices count from the end; others are out of range. *)
Definition tensor_index (m : list Z) (i : Z) : option nat :=
  if (0 <=? i) && (i <? zlen m) then Some (Z.to_nat i)
  else if (- zlen m <=? i) && (i <? 0) then Some (Z.to_nat (zlen m + i)) else None.

(** [m[idx]]. *)
Definition gather (m idx : list Z) : result (list Z) :=
  match mapM (λ i, tensor_index m i ≫= λ n, m !! n) idx with
  | Some l => Ok l
  | None => Raise IndexError
  end.

(** [m[idx] = vals] with as many values as indices. *)
Definition scatter (m idx vals : list Z) : result (list Z) :=
  match mapM (tensor_index m) idx with
  | Some ns => Ok (foldl (λ m nv, <[ nv.1 := nv.2 ]> m) m (zip ns vals))
  | None => Raise IndexError
  end.

(** [m.index_fill_(0, idx, 0)]. *)
Definition index_fill_0 (m idx : list Z) : result (list Z) := scatter m idx (replicate (length idx) 0).

(** ** One of the two pools *)

Inductive sub :=
  | STok (t : Token.TokenToKVPoolAllocator)
  | SPag (p : PagedTokenToKVPoolAllocator).

Definition sub_size (s : sub) : Z := match s with STok t => Token.size t | SPag p => psize p end.
Definition sub_debug (s : sub) : bool := match s with STok _ => false | SPag p => debug_mode p end.
Definition sub_available_size (s : sub) : Z :=
  match s with STok t => Token.available_size t | SPag p => pavailable_size p end.
Definition sub_clear (s : sub) : sub :=
  match s with STok t => STok (Token.clear t) | SPag p => SPag (pclear p) end.

Definition sub_map {A} (k : A → sub) (m : result A) : result sub := let! x := m in Ok (k x).

Definition sub_free (s : sub) (free_index : list Z) : result sub :=
  match s with
  | STok t => Ok (STok (Token.free t free_index))
  | SPag p => sub_map SPag (pfree p free_index)
  end.
Definition sub_free_page_ids (s : sub) (page_ids : list Z) : result sub :=
  match s with
  | STok t => Ok (STok (Token.free_page_ids t page_ids))
  | SPag p => sub_map SPag (pfree_page_ids p page_ids)
  end.
Definition sub_free_segment (s : sub) (free_index : list Z) (start_pos : Z) : result sub :=
  match s with
  | STok t => sub_map STok (Token.free_segment t free_index start_pos)
  | SPag p => sub_map SPag (pfree_segment p free_index start_pos)
  end.
Definition sub_free_group_begin (s : sub) : result sub :=
  match s with
  | STok t => sub_map STok (Token.free_group_begin t)
  | SPag p => sub_map SPag (pfree_group_begin p)
  end.
Definition sub_free_group_end (s : sub) : result sub :=
  match s with
  | STok t => Ok (STok (Token.free_group_end t))
  | SPag p => sub_map SPag (pfree_group_end p)
  end.
Definition sub_alloc (s : sub) (need_size : Z) : result (option (list Z) * sub) :=
  match s with
  | STok t => let (out, t) := Token.alloc t need_size in Ok (out, STok t)
  | SPag p => let! (out, p) := palloc p need_size in Ok (out, SPag p)
  end.

(** The size fields [resize] sets before it clears both pools. *)
Definition sub_set_size (s : sub) (ps sz : Z) : sub :=
  match s with
  | STok t => STok (Token.mk sz (Token.need_sort t) (Token.free_pages t) (Token.release_pages t) (Token.free_group t))
  | SPag p =>
      SPag (mkPaged sz (ppage_size p) (if 1 <? ps then sz / ps else num_pages p) (pneed_sort p) (debug_mode p)
              (kernels p) (free_pages p) (staged_pages p) (num_staged_pages p) (free_group p) (free_page_ids_group p))
  end.

Section placement.
Context (lightop_alloc_extend : Z → list Z → list Z → list Z → list Z → list Z → Z → list Z).
Context (oob : Z).

(** Only the paged allocator extends and decodes. *)
Definition sub_alloc_extend (s : sub) (prefix_lens seq_lens last_loc : list Z) (extend_num_tokens : Z)
    (num_new_pages : option Z) : result (option (list Z) * sub) :=
  match s with
  | STok _ => Raise NotImplementedError
  | SPag p =>
      let! (out, p) := palloc_extend lightop_alloc_extend oob p prefix_lens seq_lens last_loc
                          extend_num_tokens num_new_pages in
      Ok (out, SPag p)
  end.
Definition sub_alloc_decode (s : sub) (seq_lens last_loc : list Z) : result (option (list Z) * sub) :=
  match s with
  | STok _ => Raise NotImplementedError
  | SPag p => let! (out, p) := palloc_decode oob p seq_lens last_loc in Ok (out, SPag p)
  end.
End placement.

(** ** The allocator *)

Record SWATokenToKVPoolAllocator := mkSwa {
  _size_full : Z;
  _size_swa : Z;
  spage_size : Z;
  is_cuda : bool;
  full_attn_allocator : sub;
  swa_attn_allocator : sub;
  full_to_swa_index_mapping : list Z;
  sfree_group : option (list (list Z));
  swa_free_group : list (list Z);
  swa_page_ids_group : list (list Z);
  _swa_req_ring : bool;
  _swa_ring_cost : Z
}.
Abbreviation Swa := SWATokenToKVPoolAllocator.

Definition with_full (s : sub) (a : Swa) : Swa :=
  mkSwa (_size_full a) (_size_swa a) (spage_size a) (is_cuda a) s (swa_attn_allocator a)
    (full_to_swa_index_mapping a) (sfree_group a) (swa_free_group a) (swa_page_ids_group a)
    (_swa_req_ring a) (_swa_ring_cost a).
Definition with_swa (s : sub) (a : Swa) : Swa :=
  mkSwa (_size_full a) (_size_swa a) (spage_size a) (is_cuda a) (full_attn_allocator a) s
    (full_to_swa_index_mapping a) (sfree_group a) (swa_free_group a) (swa_page_ids_group a)
    (_swa_req_ring a) (_swa_ring_cost a).
Definition with_mapping (m : list Z) (a : Swa) : Swa :=
  mkSwa (_size_full a) (_size_swa a) (spage_size a) (is_cuda a) (full_attn_allocator a) (swa_attn_allocator a)
    m (sfree_group a) (swa_free_group a) (swa_page_ids_group a) (_swa_req_ring a) (_swa_ring_cost a).
Definition with_groups (g : option (list (list Z))) (toks ids : list (list Z)) (a : Swa) : Swa :=
  mkSwa (_size_full a) (_size_swa a) (spage_size a) (is_cuda a) (full_attn_allocator a) (swa_attn_allocator a)
    (full_to_swa_index_mapping a) g toks ids (_swa_req_ring a) (_swa_ring_cost a).
Definition with_sizes (size_full size_swa : Z) (a : Swa) : Swa :=
  mkSwa size_full size_swa (spage_size a) (is_cuda a) (full_attn_allocator a) (swa_attn_allocator a)
    (full_to_swa_index_mapping a) (sfree_group a) (swa_free_group a) (swa_page_ids_group a)
    (_swa_req_ring a) (_swa_ring_cost a).

(** [self.full_to_swa_index_mapping[:-1].fill_(0)]. *)
Definition zero_mapping (m : list Z) : list Z := replicate (length m - 1) 0 ++ drop (length m - 1) m.

Definition sclear (a : Swa) : Swa :=
  with_groups None [] []
    (with_mapping (zero_mapping (full_to_swa_index_mapping a))
       (with_full (sub_clear (full_attn_allocator a)) (with_swa (sub_clear (swa_attn_allocator a)) a))).

(** The constructor: [ring_size] is [kvcache.swa_req_ring_size], [req_slots] what
    [req_to_token_pool.available_size()] returns, [debug] and [k] configure the
    paged pools. *)
Definition swa_init (size size_swa page_size : Z) (need_sort cuda debug : bool) (k : backend)
    (ring_size : option Z) (req_slots : Z) : Swa :=
  let make sz := if page_size =? 1 then STok (Token.init sz need_sort)
                 else SPag (paged_init sz page_size need_sort debug k) in
  let cost := match ring_size with
              | Some ring_size => (ring_size + page_size - 1) / page_size * page_size
              | None => 0
              end in
  sclear (mkSwa size (match ring_size with Some _ => req_slots * cost | None => size_swa end) page_size cuda
            (make size) (make size_swa) (replicate (Z.to_nat (size + page_size)) 0 ++ [-1])
            None [] [] (bool_decide (ring_size ≠ None)) cost).

Definition sresize (a : Swa) (full_max_total_num_tokens swa_max_total_num_tokens : Z) : Swa :=
  let a := with_sizes full_max_total_num_tokens
             (if _swa_req_ring a then _size_swa a else swa_max_total_num_tokens) a in
  sclear (with_full (sub_set_size (full_attn_allocator a) (spage_size a) full_max_total_num_tokens)
            (with_swa (sub_set_size (swa_attn_allocator a) (spage_size a) swa_max_total_num_tokens) a)).

(** *** Sizes *)

Definition full_available_size (a : Swa) : Z := sub_available_size (full_attn_allocator a).

Definition swa_available_size (req_slots : Z) (a : Swa) : Z :=
  if _swa_req_ring a then req_slots * _swa_ring_cost a else sub_available_size (swa_attn_allocator a).

Definition savailable_size (a : Swa) : Z :=
  if _swa_req_ring a then sub_available_size (full_attn_allocator a)
  else Z.min (sub_available_size (full_attn_allocator a)) (sub_available_size (swa_attn_allocator a)).

Definition ssize (a : Swa) : Z := Z.min (_size_full a) (_size_swa a).

Definition new_pages_available (a : Swa) (num_full_pages num_swa_pages : Z) : bool :=
  let full_ok := num_full_pages <=? sub_available_size (full_attn_allocator a) / spage_size a in
  if _swa_req_ring a then full_ok
  else full_ok && (num_swa_pages <=? sub_available_size (swa_attn_allocator a) / spage_size a).

(** *** The table *)

Definition translate_loc_from_full_to_swa (a : Swa) (kv_indices : list Z) : result (list Z) :=
  gather (full_to_swa_index_mapping a) kv_indices.

Definition set_full_to_swa_mapping (a : Swa) (full_indices swa_indices : list Z) : result Swa :=
  if zlen full_indices =? 0 then Ok a
  else
    assert! zlen full_indices =? zlen swa_indices in
    let! m := scatter (full_to_swa_index_mapping a) full_indices swa_indices in
    Ok (with_mapping m a).

Definition clear_full_to_swa_mapping (a : Swa) (full_indices : list Z) : result Swa :=
  if zlen full_indices =? 0 then Ok a
  else let! m := index_fill_0 (full_to_swa_index_mapping a) full_indices in Ok (with_mapping m a).

(** All slots of the pages of the given slots, with repetitions. *)
Definition expanded (ps : Z) (indices : list Z) : list Z :=
  page_slots ps ((λ i, i / ps) <$> indices).

Definition _expand_to_full_pages (a : Swa) (indices : list Z) : result (list Z) :=
  let ps := spage_size a in
  let expanded := expanded ps indices in
  assert! negb (sub_debug (swa_attn_allocator a)) ||
    bool_decide (tunique ((λ x, x / ps) <$> expanded) = tunique ((λ x, x / ps) <$> indices)) in
  Ok expanded.

Definition some_or_fail {A} (o : option A) : result A :=
  match o with Some x => Ok x | None => Raise AssertionError end.

(** *** Allocation *)

Definition salloc (a : Swa) (need_size : Z) : result (option (list Z) * Swa) :=
  assert! spage_size a =? 1 in
  if sub_available_size (full_attn_allocator a) <? need_size then Ok (None, a)
  else if sub_available_size (swa_attn_allocator a) <? need_size then Ok (None, a)
  else
    let! (out_full, f) := sub_alloc (full_attn_allocator a) need_size in
    let! (out_swa, w) := sub_alloc (swa_attn_allocator a) need_size in
    let! alloc_full_indices := some_or_fail out_full in
    let! alloc_swa_indices := some_or_fail out_swa in
    let! a := set_full_to_swa_mapping (with_full f (with_swa w a)) alloc_full_indices alloc_swa_indices in
    Ok (Some alloc_full_indices, a).

Section allocation.
Context (lightop_alloc_extend : Z → list Z → list Z → list Z → list Z → list Z → Z → list Z).
Context (oob : Z).

Definition salloc_extend (a : Swa) (prefix_lens seq_lens last_loc : list Z) (extend_num_tokens : Z) :
    result (option (list Z) * Swa) :=
  assert! 1 <? spage_size a in
  let! num_new_pages := get_num_new_pages seq_lens (spage_size a) (Some prefix_lens) false in
  if negb (new_pages_available a num_new_pages num_new_pages) then Ok (None, a)
  else if _swa_req_ring a then
    let! (out, f) := sub_alloc_extend lightop_alloc_extend oob (full_attn_allocator a) prefix_lens seq_lens last_loc
                        extend_num_tokens (Some num_new_pages) in
    Ok (out, with_full f a)
  else
    let! swa_last_loc := translate_loc_from_full_to_swa a last_loc in
    let! (out_full, f) := sub_alloc_extend lightop_alloc_extend oob (full_attn_allocator a) prefix_lens seq_lens
                             last_loc extend_num_tokens (Some num_new_pages) in
    let! (out_swa, w) := sub_alloc_extend lightop_alloc_extend oob (swa_attn_allocator a) prefix_lens seq_lens
                            swa_last_loc extend_num_tokens (Some num_new_pages) in
    let! alloc_full_indices := some_or_fail out_full in
    let! alloc_swa_indices := some_or_fail out_swa in
    let! a := set_full_to_swa_mapping (with_full f (with_swa w a)) alloc_full_indices alloc_swa_indices in
    Ok (Some alloc_full_indices, a).

(** Full slots for the whole extension of one request, window slots only for
    its last [swa_tail_len] tokens. *)
Definition alloc_extend_swa_tail (a : Swa) (prefix_lens seq_lens last_loc : list Z)
    (extend_num_tokens swa_tail_len : Z) : result (option (list Z) * Swa) :=
  assert! 1 <? spage_size a in
  assert! zlen seq_lens =? 1 in
  assert! zlen prefix_lens =? 1 in
  assert! (0 <=? swa_tail_len) && (swa_tail_len <=? extend_num_tokens) in
  let! num_full_pages := get_num_new_pages seq_lens (spage_size a) (Some prefix_lens) false in
  let num_swa_pages := (swa_tail_len + spage_size a - 1) / spage_size a in
  if negb (new_pages_available a num_full_pages num_swa_pages) then Ok (None, a)
  else if _swa_req_ring a then
    let! (out, f) := sub_alloc_extend lightop_alloc_extend oob (full_attn_allocator a) prefix_lens seq_lens last_loc
                        extend_num_tokens (Some num_full_pages) in
    Ok (out, with_full f a)
  else
    let! (out_full, f) := sub_alloc_extend lightop_alloc_extend oob (full_attn_allocator a) prefix_lens seq_lens
                             last_loc extend_num_tokens (Some num_full_pages) in
    let! alloc_full_indices := some_or_fail out_full in
    let a := with_full f a in
    if swa_tail_len =? 0 then Ok (Some alloc_full_indices, a)
    else
      let! (out_swa, w) := sub_alloc_extend lightop_alloc_extend oob (swa_attn_allocator a) [0] [swa_tail_len] [-1]
                              swa_tail_len (Some num_swa_pages) in
      let! alloc_swa_indices := some_or_fail out_swa in
      let! a := set_full_to_swa_mapping (with_swa w a)
                  (pydrop alloc_full_indices (- swa_tail_len)) alloc_swa_indices in
      let! a := if swa_tail_len <? extend_num_tokens
                then clear_full_to_swa_mapping a (pytake alloc_full_indices (- swa_tail_len)) else Ok a in
      Ok (Some alloc_full_indices, a).

Definition salloc_decode (a : Swa) (seq_lens last_loc : list Z) : result (option (list Z) * Swa) :=
  assert! 1 <? spage_size a in
  if _swa_req_ring a then
    let! (out, f) := sub_alloc_decode oob (full_attn_allocator a) seq_lens last_loc in
    Ok (out, with_full f a)
  else
    let! swa_last_loc := translate_loc_from_full_to_swa a last_loc in
    let! (out_full, f) := sub_alloc_decode oob (full_attn_allocator a) seq_lens last_loc in
    let! (out_swa, w) := sub_alloc_decode oob (swa_attn_allocator a) seq_lens swa_last_loc in
    let a := with_full f (with_swa w a) in
    match out_full, out_swa with
    | Some alloc_full_indices, Some alloc_swa_indices =>
        let! m := scatter (full_to_swa_index_mapping a) alloc_full_indices alloc_swa_indices in
        Ok (Some alloc_full_indices, with_mapping m a)
    | _, _ => Ok (None, a)
    end.
End allocation.

(** *** Freeing *)

Section freeing.
Context (level : InvariantCheckLevel).

Definition _release_swa (a : Swa) (swa_indices : list Z) : result Swa :=
  let swa_indices := if 1 <? spage_size a then List.filter (λ x, 0 <? x) swa_indices else swa_indices in
  let! w := sub_free (swa_attn_allocator a) swa_indices in
  assert! sub_available_size w <=? sub_size w in
  Ok (with_swa w a).

(** [_free_swa_pages_none_cuda]: the window pages of the given full slots. *)
Definition _free_swa_pages_none_cuda (a : Swa) (reps : list Z) : result (list Z * Swa) :=
  let ps := spage_size a in
  let! swa_tokens := gather (full_to_swa_index_mapping a) reps in
  let! _ := expect level FATAL_UNCONTAINABLE ((λ x, 0 <? x) <$> swa_tokens) in
  if ps =? 1 then
    let! a := clear_full_to_swa_mapping a reps in Ok (swa_tokens, a)
  else
    let swa_pages := (λ x, x / ps) <$> swa_tokens in
    let! mapping_indices := _expand_to_full_pages a reps in
    let! _ := if sub_debug (swa_attn_allocator a) then
                let! ref := gather (full_to_swa_index_mapping a) mapping_indices in
                assert_ (bool_decide (tsort swa_pages =
                  tunique ((λ x, x / ps) <$> List.filter (λ x, 0 <? x) ref)))
              else Ok tt in
    let! a := clear_full_to_swa_mapping a mapping_indices in Ok (swa_pages, a).

(** [get_and_clear_swa_pages_kernel] ([kernels/ops/memory/allocator.py]): one
    program handles [BLOCK_PAGES] representatives.  It reads the window slot of
    each, then clears the entries of their pages.  [loads] is what the reads
    give: page, whether mapped, and whether the page's entries agree. *)
Definition kernel_block (block_pages : nat) (reps : list Z) (pid : nat) : list Z :=
  take block_pages (drop (pid * block_pages) reps).

Definition kernel_loads (ps : Z) (m : list Z) (rep : Z) : Z * bool * bool :=
  let swa_rep := at_ m rep in
  let page := (λ o, at_ m (rep / ps * ps + o)) <$> seqZ 0 ps in
  (swa_rep / ps, 0 <? swa_rep,
   (0 <? swa_rep) && negb (existsb (λ x, (0 <? x) && negb (x / ps =? swa_rep / ps)) page)).

Definition kernel_clear (ps : Z) (m : list Z) (reps : list Z) : list Z :=
  run_stores ((λ i, (i, 0)) <$> expanded ps reps) m.

Definition get_and_clear_swa_pages_kernel (ps : Z) (block_pages : nat) (reps : list Z)
    (st : list Z * gmap nat (list (Z * bool * bool))) (pid : nat) : list Z * gmap nat (list (Z * bool * bool)) :=
  let block := kernel_block block_pages reps pid in
  (kernel_clear ps st.1 block, <[ pid := kernel_loads ps st.1 <$> block ]> st.2).

(** The launch over all blocks, its programs in the given order. *)
Definition get_and_clear_swa_pages (ps : Z) (order : list nat) (reps m : list Z) (check : bool) :
    result (list (Z * bool * bool) * list Z) :=
  assert! negb check || forallb (λ r, (0 <=? r) && (r <? zlen m / ps * ps)) reps in
  let block_pages := Z.to_nat (Z.max 1 (256 / next_power_of_2 ps)) in
  let '(m, outs) := foldl (get_and_clear_swa_pages_kernel ps block_pages reps) (m, ∅) order in
  Ok (mjoin ((λ pid, default [] (outs !! pid)) <$> seq 0 (length order)), m).

(** The order in which the device runs the programs of a launch. *)
Context (order : nat → list nat).

Definition num_programs (ps : Z) (reps : list Z) : nat :=
  Z.to_nat (ceil_div (zlen reps) (Z.max 1 (256 / next_power_of_2 ps))).

Definition _free_swa_pages_cuda (a : Swa) (reps : list Z) : result (list Z * Swa) :=
  let ps := spage_size a in
  let check := (1 <? ps) && sub_debug (swa_attn_allocator a) in
  let! (outs, m) := get_and_clear_swa_pages ps (order (num_programs ps reps)) reps
                       (full_to_swa_index_mapping a) check in
  let swa_pages := (λ o, o.1.1) <$> outs in
  let! _ := expect level FATAL_UNCONTAINABLE ((λ o, o.1.2) <$> outs) in
  assert! negb check || (forallb snd outs && (zlen (tunique swa_pages) =? zlen swa_pages)) in
  Ok (swa_pages, with_mapping m a).

Definition _free_swa_pages (a : Swa) (free_index : list Z) (start_pos : Z) : result Swa :=
  let ps := spage_size a in
  assert! start_pos mod ps =? 0 in
  let reps := every_nth (length free_index) (Z.to_nat ps) free_index in
  let! (swa_pages, a) := if is_cuda a then _free_swa_pages_cuda a reps else _free_swa_pages_none_cuda a reps in
  if _swa_req_ring a then Ok a
  else match sfree_group a with
       | Some g => Ok (with_groups (Some g) (swa_free_group a) (swa_page_ids_group a ++ [swa_pages]) a)
       | None =>
           let! w := sub_free_page_ids (swa_attn_allocator a) swa_pages in
           assert! sub_available_size w <=? sub_size w in
           Ok (with_swa w a)
       end.

Definition free_swa (a : Swa) (free_index : list Z) : result Swa :=
  if _swa_req_ring a || (zlen free_index =? 0) then Ok a
  else if spage_size a =? 1 then _free_swa_pages a free_index 0
  else
    let! mapping_indices := _expand_to_full_pages a free_index in
    let! swa_indices := gather (full_to_swa_index_mapping a) mapping_indices in
    let! a := clear_full_to_swa_mapping a mapping_indices in
    match sfree_group a with
    | Some g => Ok (with_groups (Some g) (swa_free_group a ++ [swa_indices]) (swa_page_ids_group a) a)
    | None => _release_swa a swa_indices
    end.

Definition free_swa_segment (a : Swa) (free_index : list Z) (start_pos : Z) : result Swa :=
  if _swa_req_ring a || (zlen free_index =? 0) then Ok a else _free_swa_pages a free_index start_pos.

Definition free_full (a : Swa) (free_index : list Z) : result Swa :=
  if zlen free_index =? 0 then Ok a
  else
    let! peers := gather (full_to_swa_index_mapping a) free_index in
    let! _ := expect level GUARD ((λ x, x =? 0) <$> peers) in
    let! f := sub_free (full_attn_allocator a) free_index in
    assert! sub_available_size f <=? sub_size f in
    Ok (with_full f a).

Definition sfree (a : Swa) (free_index : list Z) : result Swa :=
  if zlen free_index =? 0 then Ok a
  else let! a := free_swa a free_index in free_full a free_index.

Definition sfree_segment (a : Swa) (free_index : list Z) (start_pos : Z) : result Swa :=
  if zlen free_index =? 0 then Ok a
  else
    let! a := free_swa_segment a free_index start_pos in
    let! f := sub_free_segment (full_attn_allocator a) free_index start_pos in
    Ok (with_full f a).

Definition free_full_segment (a : Swa) (free_index : list Z) (start_pos : Z) : result Swa :=
  if zlen free_index =? 0 then Ok a
  else
    let! peers := gather (full_to_swa_index_mapping a) free_index in
    let! _ := expect level GUARD ((λ x, x =? 0) <$> peers) in
    let! f := sub_free_segment (full_attn_allocator a) free_index start_pos in
    Ok (with_full f a).

Definition sfree_group_begin (a : Swa) : result Swa :=
  assert! bool_decide (sfree_group a = None) in
  let! f := sub_free_group_begin (full_attn_allocator a) in
  Ok (with_full f (with_groups (Some []) [] [] a)).

Definition sfree_group_end (a : Swa) : result Swa :=
  let pending := sfree_group a in
  let a := with_groups None (swa_free_group a) (swa_page_ids_group a) a in
  let! a := match pending with Some ((_ :: _) as g) => sfree a (mjoin g) | _ => Ok a end in
  let! a := match swa_page_ids_group a with
            | [] => Ok a
            | ids =>
                let a := with_groups (sfree_group a) (swa_free_group a) [] a in
                if _swa_req_ring a then Ok a
                else let! w := sub_free_page_ids (swa_attn_allocator a) (mjoin ids) in Ok (with_swa w a)
            end in
  let! a := match swa_free_group a with
            | [] => Ok a
            | toks => _release_swa (with_groups (sfree_group a) [] (swa_page_ids_group a) a) (mjoin toks)
            end in
  let! f := sub_free_group_end (full_attn_allocator a) in
  assert! sub_available_size f <=? sub_size f in
  assert! sub_available_size (swa_attn_allocator a) <=? sub_size (swa_attn_allocator a) in
  Ok (with_full f a).
End freeing.

(** *** Room from the prefix cache *)

Section reclaim.
(** The prefix cache [T]: whether it shares prefixes, and [evict_for_alloc] with
    the full and window tokens asked for, which frees into the allocator. *)
Context {T : Type} (supports_prefix_sharing : T → bool) (evict_for_alloc : Z → Z → T * Swa → T * Swa).

Definition sevict_to_free_tokens (req_slots num_tokens : Z) (tree_cache : option T) (a : Swa) : option T * Swa :=
  match tree_cache with
  | None => (None, a)
  | Some t =>
      if negb (supports_prefix_sharing t) then (Some t, a)
      else
        let full_shortfall := Z.max 0 (num_tokens - full_available_size a) in
        let swa_shortfall := Z.max 0 (num_tokens - swa_available_size req_slots a) in
        if negb (full_shortfall =? 0) || negb (swa_shortfall =? 0) then
          let '(t, a) := evict_for_alloc full_shortfall swa_shortfall (t, a) in (Some t, a)
        else (Some t, a)
  end.

(** [None] when there is room, else the tokens that are available. *)
Definition reclaim_for_prealloc (req_slots swa_tokens : Z) (t : T) (a : Swa) : option Z * (T * Swa) :=
  let available := swa_available_size req_slots a in
  let '(available, (t, a)) :=
    if available <? swa_tokens then
      let '(t, a) := evict_for_alloc 0 (swa_tokens - available) (t, a) in
      (swa_available_size req_slots a, (t, a))
    else (available, (t, a)) in
  (if available <? swa_tokens then Some available else None, (t, a)).
End reclaim.

(** ** All layers with a sliding window *)

(** One pool of single slots; its slots are their own window slots. *)
Module PureSWA.

Record PureSWATokenToKVPoolAllocator := mk {
  swa : Token.TokenToKVPoolAllocator;
  group : option (list (list Z))
}.

Definition init (size_swa : Z) (need_sort : bool) : PureSWATokenToKVPoolAllocator := mk (Token.init size_swa need_sort) None.
Definition available_size (a : PureSWATokenToKVPoolAllocator) : Z := Token.available_size (swa a).
Definition new_pages_available (a : PureSWATokenToKVPoolAllocator) (num_full_pages num_swa_pages : Z) : bool :=
  let avail := Token.available_size (swa a) / 1 in (num_full_pages <=? avail) && (num_swa_pages <=? avail).
Definition translate_loc_from_full_to_swa (kv_indices : list Z) : list Z := kv_indices.

Definition alloc (a : PureSWATokenToKVPoolAllocator) (need_size : Z) : option (list Z) * PureSWATokenToKVPoolAllocator :=
  let (out, t) := Token.alloc (swa a) need_size in (out, mk t (group a)).

(** [free_swa], also the first part of [free]. *)
Definition free_swa (a : PureSWATokenToKVPoolAllocator) (free_index : list Z) : PureSWATokenToKVPoolAllocator :=
  if zlen free_index =? 0 then a
  else match group a with
       | None => mk (Token.free (swa a) (List.filter (λ x, 0 <? x) free_index)) None
       | Some g => mk (swa a) (Some (g ++ [free_index]))
       end.

Definition free (a : PureSWATokenToKVPoolAllocator) (free_index : list Z) : result PureSWATokenToKVPoolAllocator :=
  if zlen free_index =? 0 then Ok a
  else
    let a := free_swa a free_index in
    assert! Token.available_size (swa a) <=? Token.size (swa a) in Ok a.

Definition free_swa_segment (a : PureSWATokenToKVPoolAllocator) (free_index : list Z) (start_pos : Z) :
    PureSWATokenToKVPoolAllocator := free_swa a free_index.
Definition free_full (a : PureSWATokenToKVPoolAllocator) (free_index : list Z) : PureSWATokenToKVPoolAllocator := a.
Definition free_segment (a : PureSWATokenToKVPoolAllocator) (free_index : list Z) (start_pos : Z) :
    result PureSWATokenToKVPoolAllocator := free a free_index.
Definition free_full_segment (a : PureSWATokenToKVPoolAllocator) (free_index : list Z) (start_pos : Z) :
    PureSWATokenToKVPoolAllocator := a.

Definition free_group_begin (a : PureSWATokenToKVPoolAllocator) : result PureSWATokenToKVPoolAllocator :=
  assert! bool_decide (group a = None) in Ok (mk (swa a) (Some [])).
Definition free_group_end (a : PureSWATokenToKVPoolAllocator) : result PureSWATokenToKVPoolAllocator :=
  let pending := group a in
  let a := mk (swa a) None in
  match pending with Some ((_ :: _) as g) => free a (mjoin g) | _ => Ok a end.

Definition clear (a : PureSWATokenToKVPoolAllocator) : PureSWATokenToKVPoolAllocator := mk (Token.clear (swa a)) None.

(** Slots in use, given that those of an open group left it. *)
Definition waiting (a : PureSWATokenToKVPoolAllocator) : list Z := List.filter (λ x, 0 <? x) (mjoin (default [] (group a))).
Definition inv (a : PureSWATokenToKVPoolAllocator) (used : list Z) : Prop :=
  Token.wf (swa a) (waiting a ++ used) ∧ 0 ≤ Token.size (swa a).

Lemma token_available_le t used : Token.wf t used → 0 ≤ Token.size t → Token.available_size t ≤ Token.size t.
Proof.
  intros [Hp _ _] Hs. apply Permutation_length in Hp. unfold arange1 in Hp. rewrite length_seqZ, !length_app in Hp.
  unfold Token.available_size, zlen. lia.
Qed.

Lemma token_free_size t l : Token.size (Token.free t l) = Token.size t.
Proof. unfold Token.free. destruct (_ =? 0); [done|]. by destruct (Token.free_group t), (Token.need_sort t). Qed.

(** Slots of the padding entry are ignored, the others go back once; inside a
    group they wait. *)
Lemma free_swa_inv a toks used : inv a (List.filter (λ x, 0 <? x) toks ++ used) → inv (free_swa a toks) used.
Proof.
  intros [Hwf Hs]. unfold free_swa. destruct (Z.eqb_spec (zlen toks) 0) as [E|E].
  { apply zlen_nil_inv in E. by subst toks. }
  unfold inv, waiting in *. destruct (group a) as [g|] eqn:Eg; cbn in *.
  - rewrite join_app, List.filter_app. cbn. rewrite app_nil_r, <- app_assoc. done.
  - split; [by apply Token.free_spec|]. by rewrite token_free_size.
Qed.

Lemma free_inv a toks used : inv a (List.filter (λ x, 0 <? x) toks ++ used) → ∃ a', free a toks = Ok a' ∧ inv a' used.
Proof.
  intros Hi. pose proof (free_swa_inv a toks used Hi) as Hf. unfold free. destruct (Z.eqb_spec (zlen toks) 0) as [E|E].
  { apply zlen_nil_inv in E. subst toks. by exists a. }
  exists (free_swa a toks). destruct Hf as [Hwf Hs]. rewrite (proj2 (Z.leb_le _ _)); [done|]. by eapply token_available_le.
Qed.

Lemma free_group_end_inv a used : inv a used → ∃ a', free_group_end a = Ok a' ∧ inv a' used ∧ group a' = None.
Proof.
  intros [Hwf Hs]. unfold free_group_end, waiting in *. destruct (group a) as [[|l g]|] eqn:Eg; [by eexists| |by eexists].
  destruct (free_inv (mk (swa a) None) (mjoin (l :: g)) used) as (a' & E & Hi); [by split|].
  exists a'. split; [done|]. split; [done|]. unfold free in E. destruct (_ =? 0); [by injection E as <-|].
  destruct (_ <=? _); [|done]. cbn in E. injection E as <-. unfold free_swa. by destruct (_ =? 0).
Qed.
End PureSWA.
