(* ===== verification/SwaInv.v ===== *)
(** * The two pools in step

    What the table and the pools of SwaAllocator.v satisfy between operations:
    every full page in use either has no window slots or has one window page of
    its own, whose slots stand at the same offsets.  First the tensor operations
    and one pool, then the invariant of both. *)
From S2P Require Import Prelude RadixKey EvictPolicy RadixCache TokenAllocator PagedKernels PagedAllocator.
From S2P Require Import KvRow KvTheorems KvAlloc KvPlace SwaAllocator.

(** ** Tensors *)

Definition in_range (m : list Z) (i : Z) : Prop := 0 ≤ i < zlen m.

Lemma tensor_index_in m i : in_range m i → tensor_index m i = Some (Z.to_nat i).
Proof. unfold in_range, tensor_index. intros [??]. zbool; try lia. done. Qed.

Lemma lookup_at m i : in_range m i → m !! Z.to_nat i = Some (at_ m i).
Proof.
  unfold in_range, zlen, at_. intros Hi. destruct (lookup_lt_is_Some_2 m (Z.to_nat i)) as [x Hx]; [lia|].
  by rewrite Hx, (list_lookup_total_correct _ _ _ Hx).
Qed.

Lemma gather_ok m idx : Forall (in_range m) idx → gather m idx = Ok (at_ m <$> idx).
Proof.
  intros Hf. unfold gather. replace (mapM _ idx) with (Some (at_ m <$> idx)); [done|]. symmetry.
  induction Hf as [|i idx Hi Hf IH]; [done|]. cbn. rewrite tensor_index_in by done. cbn.
  rewrite lookup_at by done. cbn. by rewrite IH.
Qed.

(** Values that depend on the index only: the order of the writes is immaterial. *)
Lemma scatter_ok m idx (g : Z → Z) : Forall (in_range m) idx →
  ∃ m', scatter m idx (g <$> idx) = Ok m' ∧ length m' = length m ∧
    ∀ i, in_range m i → at_ m' i = if decide (i ∈ idx) then g i else at_ m i.
Proof.
  intros Hf. unfold scatter. assert (mapM (tensor_index m) idx = Some (Z.to_nat <$> idx)) as ->.
  { induction Hf as [|i idx Hi Hf IH]; [done|]. cbn. rewrite tensor_index_in by done. cbn. by rewrite IH. }
  eexists. split; [done|]. revert m Hf. induction idx as [|j idx IH]; intros m Hf.
  { split; [done|]. intros i _. by rewrite decide_False by apply not_elem_of_nil. }
  apply Forall_cons in Hf as [Hj Hf]. cbn. set (m1 := <[ _ := _ ]> m).
  assert (length m1 = length m) as El by apply length_insert.
  assert (∀ i, in_range m1 i ↔ in_range m i) as Er by (intros i; unfold in_range, zlen; by rewrite El).
  destruct (IH m1) as [Hl Hat]; [eapply Forall_impl; [done|]; intros i; apply Er|].
  split; [by rewrite Hl|]. intros i Hi. rewrite Hat by by apply Er. case_decide as H1; [by rewrite decide_True by by right|].
  unfold m1, at_. destruct (decide (i = j)) as [->|Hne].
  - rewrite decide_True by by left. rewrite list_lookup_total_insert_eq; [done|]. unfold in_range, zlen in Hj. lia.
  - rewrite decide_False by (rewrite elem_of_cons; tauto). unfold in_range in *. rewrite list_lookup_total_insert_ne; [done|lia].
Qed.

Lemma index_fill_ok m idx : Forall (in_range m) idx →
  ∃ m', index_fill_0 m idx = Ok m' ∧ length m' = length m ∧
    ∀ i, in_range m i → at_ m' i = if decide (i ∈ idx) then 0 else at_ m i.
Proof.
  intros Hf. unfold index_fill_0. assert (replicate (length idx) 0 = (λ _, 0) <$> idx) as ->.
  { symmetry. clear. induction idx; cbn; [done|by f_equal]. }
  by apply scatter_ok.
Qed.

Lemma elem_of_expanded ps idx i : 0 < ps → i ∈ expanded ps idx ↔ i / ps ∈ toks_pages ps idx.
Proof.
  intros Hps. unfold expanded, page_slots, toks_pages. rewrite list_elem_of_join. split.
  - intros (l & Hi & Hl). apply list_elem_of_fmap in Hl as (p & -> & Hp). apply list_elem_of_fmap in Hi as (o & -> & Ho).
    apply elem_of_seqZ in Ho. rewrite Z.add_comm, Z.div_add, Z.div_small by lia. by rewrite Z.add_0_l.
  - intros Hp. eexists. split; [|apply list_elem_of_fmap; by exists (i / ps)].
    apply list_elem_of_fmap. exists (i mod ps). pose proof (Z.mod_pos_bound i ps Hps). pose proof (Z.div_mod i ps ltac:(lia)).
    split; [lia|]. apply elem_of_seqZ. lia.
Qed.

(** ** One pool *)

Definition sub_pages (s : sub) : Z := match s with STok t => Token.size t | SPag p => num_pages p end.
Definition sub_open (s : sub) : bool :=
  match s with
  | STok t => bool_decide (Token.free_group t ≠ None)
  | SPag p => bool_decide (free_group p ≠ None)
  end.

(** The pages of [used] are handed out, all others accounted for. *)
Definition sub_ok (ps : Z) (s : sub) (used : list Z) : Prop :=
  match s with
  | STok t => ps = 1 ∧ Token.wf t used ∧ 0 ≤ Token.size t
  | SPag p => 1 < ps ∧ ppage_size p = ps ∧ pinv p used ∧ 0 ≤ num_pages p ∧ num_pages p * ps ≤ psize p
  end.

(** What an operation leaves alone. *)
Definition sub_same (s s' : sub) : Prop :=
  sub_pages s' = sub_pages s ∧ sub_size s' = sub_size s ∧ sub_open s' = sub_open s.

Lemma paged_release_same ids a :
  let a' := _release_page_ids ids a in
  psize a' = psize a ∧ num_pages a' = num_pages a ∧ ppage_size a' = ppage_size a ∧
  free_group a' = free_group a ∧ debug_mode a' = debug_mode a.
Proof. cbv zeta. unfold _release_page_ids. by destruct (pneed_sort a). Qed.

(** Sizes, mode and whether a group is open. *)
Definition paged_same (p p' : Alloc) : Prop :=
  psize p' = psize p ∧ num_pages p' = num_pages p ∧ ppage_size p' = ppage_size p ∧
  bool_decide (free_group p' ≠ None) = bool_decide (free_group p ≠ None) ∧ debug_mode p' = debug_mode p.

Lemma paged_release_ok ids p : debug_mode p = false → free_group p = None →
  (if debug_mode (_release_page_ids ids p)
   then let! _ := _debug_check_no_duplicate_pages (_release_page_ids ids p) in Ok (_release_page_ids ids p)
   else Ok (_release_page_ids ids p)) = Ok (_release_page_ids ids p) ∧ paged_same p (_release_page_ids ids p).
Proof.
  intros Hd Hg. destruct (paged_release_same ids p) as (E1 & E2 & E3 & E4 & E5).
  unfold paged_same. by rewrite E1, E2, E3, E4, E5, Hd.
Qed.

Lemma pfree_same p toks p' : debug_mode p = false → pfree p toks = Ok p' → paged_same p p'.
Proof.
  intros Hd E. unfold pfree in E. destruct (_ =? 0); [by injection E as <-|]. cbv zeta in E.
  destruct (free_group p) as [g|] eqn:Eg.
  - cbn in E. rewrite Hd in E. injection E as <-. unfold paged_same. cbn. by rewrite Eg.
  - destruct (_ =? 0); [by injection E as <-|]. destruct (_ =? 0); [by injection E as <-|].
    destruct (paged_release_ok (List.filter (λ q, negb (bool_decide (q ∈ pget_all_free_pages p)))
      (List.filter (λ q, 0 <? q) (tunique ((λ x, x / ppage_size p) <$> toks)))) p Hd Eg) as [E1 E2].
    rewrite E1 in E. by injection E as <-.
Qed.

Lemma pfree_page_ids_same p ids p' : debug_mode p = false → pfree_page_ids p ids = Ok p' → paged_same p p'.
Proof.
  intros Hd E. unfold pfree_page_ids in E. destruct (_ =? 0); [by injection E as <-|].
  destruct (free_group p) as [g|] eqn:Eg; [injection E as <-; unfold paged_same; cbn; by rewrite Eg|].
  destruct (paged_release_ok ids p Hd Eg) as [E1 E2]. cbv zeta in E. rewrite E1 in E. by injection E as <-.
Qed.

Lemma pfree_group_end_same p p' : debug_mode p = false → pfree_group_end p = Ok p' →
  psize p' = psize p ∧ num_pages p' = num_pages p ∧ ppage_size p' = ppage_size p.
Proof.
  intros Hd E. unfold pfree_group_end in E. cbv zeta in E. apply rbind_Ok in E as (p1 & E1 & E).
  assert (psize p1 = psize p ∧ num_pages p1 = num_pages p ∧ ppage_size p1 = ppage_size p ∧ debug_mode p1 = false)
    as (H1 & H2 & H3 & H4).
  { destruct (free_group p) as [[|l g]|]; [by injection E1 as <-| |by injection E1 as <-].
    destruct (pfree_same (with_group None (free_page_ids_group p) p) _ _ Hd E1) as (? & ? & ? & _ & Hd1).
    do 3 (split; [done|]). by rewrite Hd1. }
  rewrite <- H1, <- H2, <- H3. destruct (paged_release_same (mjoin (free_page_ids_group p1)) p1) as (R1 & R2 & R3 & _ & R5).
  destruct (free_page_ids_group p1) as [|l g] eqn:Ei.
  - rewrite H4 in E. by injection E as <-.
  - change (debug_mode (with_group _ _ (_release_page_ids ?i ?q))) with (debug_mode (_release_page_ids i q)) in E. rewrite R5, H4 in E. injection E as <-. done.
Qed.

Section sub.
Context (ps : Z).

Lemma sub_ok_ps s used : sub_ok ps s used → 0 < ps.
Proof. destruct s; [intros (-> & _)|intros (? & _)]; lia. Qed.

Lemma sub_ok_perm s used used' : used ≡ₚ used' → sub_ok ps s used → sub_ok ps s used'.
Proof.
  intros E. destruct s as [t|p].
  - intros (? & Hwf & ?). split; [done|]. split; [by eapply Token.wf_perm|done].
  - intros (? & ? & [Hwf Ho Hd] & ?). split; [done|]. split; [done|]. split; [|done]. split; [by eapply pwf_perm|done..].
Qed.

Lemma sub_ok_nodup s used : sub_ok ps s used → NoDup used.
Proof.
  destruct s as [t|p]; [intros (_ & Hwf & _)|intros (_ & _ & [Hwf _ _] & _)].
  - pose proof (Token.wf_nodup _ _ Hwf) as Hnd. by do 3 apply NoDup_app in Hnd as (_ & _ & Hnd).
  - by eapply pwf_used_nodup.
Qed.

Lemma sub_ok_range s used p : sub_ok ps s used → p ∈ used → 1 ≤ p ≤ sub_pages s.
Proof.
  destruct s as [t|q]; [intros (_ & Hwf & _) Hp|intros (_ & _ & [Hwf _ _] & _) Hp; by eapply pwf_used_range].
  assert (p ∈ arange1 (Token.size t)) as H by (rewrite <- (Token.wf_part _ _ Hwf), !elem_of_app; tauto).
  apply elem_of_seqZ in H. cbn. lia.
Qed.

(** Pages waiting in an open group of the pool itself. *)
Definition sub_waiting (s : sub) : list Z :=
  match s with STok t => Token.pending t | SPag p => pend p ++ mjoin (free_page_ids_group p) end.

Lemma sub_available_exact s used : sub_ok ps s used →
  sub_available_size s = (sub_pages s - zlen used - zlen (sub_waiting s)) * ps.
Proof.
  destruct s as [t|p].
  - intros (-> & [Hp _ _] & Hsz). apply Permutation_length in Hp. unfold arange1 in Hp. rewrite length_seqZ, !length_app in Hp.
    cbn. unfold Token.available_size, zlen. lia.
  - intros (Hps & Eps & [[Hp Hs _ _] _ _] & Hn & _). apply Permutation_length in Hp. unfold arange1 in Hp.
    rewrite length_seqZ, !length_app in Hp. cbn. unfold pavailable_size. rewrite Eps, Hs. f_equal. unfold zlen.
    rewrite length_app. lia.
Qed.

Lemma sub_waiting_closed s used : sub_ok ps s used → sub_open s = false → sub_waiting s = [].
Proof.
  destruct s as [t|p]; cbn; intros Hok Ho; apply bool_decide_eq_false, dec_stable in Ho.
  - unfold Token.pending. by rewrite Ho.
  - destruct Hok as (_ & _ & [_ Horph _] & _). unfold pend. by rewrite Ho, (Horph Ho).
Qed.

Lemma sub_available_le s used : sub_ok ps s used → sub_available_size s ≤ sub_size s.
Proof.
  intros Hok. rewrite (sub_available_exact s used Hok). pose proof (zlen_nonneg used). pose proof (zlen_nonneg (sub_waiting s)).
  destruct s as [t|p]; cbn in *; [destruct Hok as (-> & _); lia|destruct Hok as (? & _ & _ & ? & ?); nia].
Qed.

Lemma sub_assert_ok s used : sub_ok ps s used → (sub_available_size s <=? sub_size s) = true.
Proof. intros Hok. apply Z.leb_le. by eapply sub_available_le. Qed.

(** *** Giving back *)

Lemma sub_free_page_ids_ok s ids used : sub_ok ps s (ids ++ used) →
  ∃ s', sub_free_page_ids s ids = Ok s' ∧ sub_ok ps s' used ∧ sub_same s s'.
Proof.
  destruct s as [t|p]; cbn.
  - intros (-> & Hwf & Hsz). eexists. split; [done|]. unfold Token.free_page_ids.
    assert (Token.size (Token.free t ids) = Token.size t ∧
      (Token.free_group (Token.free t ids) = None ↔ Token.free_group t = None)) as [Es Eg].
    { unfold Token.free. destruct (_ =? 0); [done|]. destruct (Token.free_group t), (Token.need_sort t); done. }
    split; [split; [done|]; split; [by apply Token.free_spec|by rewrite Es]|].
    split; [done|]. split; [done|]. cbn. apply bool_decide_ext. by rewrite Eg.
  - intros (Hps & Eps & Hi & Hn & Hsz). pose proof Hi as [Hwf Ho Hd].
    destruct (pfree_page_ids_spec p ids used Hwf) as (p' & E & _). rewrite E. cbn. eexists. split; [done|].
    destruct (pfree_page_ids_same p ids p' Hd E) as (E1 & E2 & E3 & E4 & E5).
    split; [|by split]. split; [done|]. split; [congruence|]. split; [by eapply pinv_free_page_ids|].
    rewrite E1, E2. done.
Qed.

Lemma kept_elem toks used q : q ∈ kept_of ps toks used ↔ q ∈ used ∧ q ∉ toks_pages ps toks.
Proof. unfold kept_of. rewrite list_elem_of_filter. tauto. Qed.

Lemma sub_free_ok s toks used : sub_ok ps s used → (∀ q, q ∈ toks_pages ps toks → q ∈ used) → (ps = 1 → NoDup toks) →
  ∃ s', sub_free s toks = Ok s' ∧ sub_ok ps s' (kept_of ps toks used) ∧ sub_same s s'.
Proof.
  intros Hok Hin Hnd. destruct s as [t|p].
  - pose proof Hok as (E1 & _). assert (toks_pages ps toks = toks) as Et.
    { unfold toks_pages. rewrite E1. rewrite <- (list_fmap_id toks) at 2. apply list_fmap_ext. intros i x _. apply Z.div_1_r. }
    apply (sub_free_page_ids_ok (STok t)). eapply sub_ok_perm; [|done]. rewrite (used_split ps toks used) at 1.
    apply Permutation_app_tail. apply NoDup_Permutation; [by apply NoDup_filter, (sub_ok_nodup _ _ Hok)|by apply Hnd|].
    intros x. unfold freed_of. rewrite list_elem_of_filter, Et. rewrite Et in Hin. naive_solver.
  - destruct Hok as (Hps & Eps & Hi & Hn & Hsz). pose proof Hi as [Hwf Ho Hd]. cbn.
    assert (∃ p', pfree p toks = Ok p') as [p' E].
    { rewrite <- Eps in Hin. destruct (free_group p) as [g|] eqn:Eg.
      - destruct (pfree_group_spec p g toks used Hwf Eg) as (b & E & _); eauto.
      - destruct (pfree_spec p toks used Hwf Eg) as (b & E & _); eauto. }
    rewrite E. cbn. eexists. split; [done|]. destruct (pfree_same p toks p' Hd E) as (E1 & E2 & E3 & E4 & E5).
    split; [|by split]. split; [done|]. split; [congruence|]. rewrite E1, E2. split; [|done].
    rewrite <- Eps. rewrite <- Eps in Hin. by apply (pinv_free p used toks p' Hi Hin E).
Qed.

Lemma sub_free_segment_ok s seg start used : sub_ok ps s (segment_pages ps seg ++ used) → start mod ps = 0 →
  ∃ s', sub_free_segment s seg start = Ok s' ∧ sub_ok ps s' used ∧ sub_same s s'.
Proof.
  intros Hok Hm. destruct s as [t|p].
  - pose proof Hok as (E1 & _). rewrite E1, Token.segment_pages_1, <- E1 in Hok.
    destruct (sub_free_page_ids_ok (STok t) seg used Hok) as (s' & E & H). exists s'. split; [|done].
    cbn in *. unfold Token.free_segment. rewrite Z.mod_1_r. exact E.
  - destruct (sub_free_page_ids_ok (SPag p) (segment_pages ps seg) used Hok) as (s' & E & H). exists s'. split; [|done].
    destruct Hok as (Hps & Eps & [Hwf Ho Hd] & _). cbn in *. unfold pfree_segment. rewrite Hd, Eps, Hm. cbn.
    destruct (Z.eqb_spec (zlen seg) 0) as [En|En]; [|exact E].
    apply zlen_nil_inv in En. subst seg. exact E.
Qed.

Lemma sub_begin_ok s used : sub_ok ps s used → sub_open s = false →
  ∃ s', sub_free_group_begin s = Ok s' ∧ sub_ok ps s' used ∧
    sub_pages s' = sub_pages s ∧ sub_size s' = sub_size s ∧ sub_open s' = true.
Proof.
  intros Hok Ho. destruct s as [t|p]; cbn in *; apply bool_decide_eq_false, dec_stable in Ho.
  - destruct Hok as (-> & Hwf & Hsz). pose proof (Token.free_group_begin_spec t used Hwf) as H.
    unfold Token.free_group_begin in *. rewrite bool_decide_true in * by done. cbn in *. eexists. split; [done|].
    destruct H as [_ H]. by split.
  - destruct Hok as (Hps & Eps & [Hwf Horph Hd] & Hn & Hsz). pose proof (pfree_group_begin_spec p used Hwf Horph) as H.
    unfold pfree_group_begin in *. rewrite bool_decide_true in * by done. cbn in *. eexists. split; [done|].
    destruct H as [_ H]. split; [|done]. do 2 (split; [done|]). split; [|done]. by split.
Qed.

Lemma sub_end_ok s used : sub_ok ps s used →
  ∃ s', sub_free_group_end s = Ok s' ∧ sub_ok ps s' used ∧
    sub_pages s' = sub_pages s ∧ sub_size s' = sub_size s ∧ sub_open s' = false.
Proof.
  intros Hok. destruct s as [t|p]; cbn in *.
  - destruct Hok as (-> & Hwf & Hsz). eexists. split; [done|]. pose proof (Token.free_group_end_spec t used Hwf) as H.
    assert (Token.size (Token.free_group_end t) = Token.size t ∧ Token.free_group (Token.free_group_end t) = None) as [E1 E2].
    { unfold Token.free_group_end. destruct (Token.free_group t) as [[|l g]|]; [done| |done].
      unfold Token.free. cbn. destruct (_ =? 0); [done|]. by destruct (Token.need_sort t). }
    cbn. rewrite E1, E2. done.
  - destruct Hok as (Hps & Eps & [Hwf Horph Hd] & Hn & Hsz).
    destruct (pfree_group_end_spec p used Hwf) as (p' & E & Hwf' & Eg & Ei & Ed). rewrite E. cbn. eexists. split; [done|].
    destruct (pfree_group_end_same p p' Hd E) as (E1 & E2 & E3). cbn. rewrite E1, E2, Eg.
    split; [|done]. split; [done|]. split; [congruence|]. split; [|done]. split; [done|by intros _|congruence].
Qed.
End sub.

#[export] Instance sub_ok_proper ps s : Proper ((≡ₚ) ==> iff) (sub_ok ps s).
Proof. intros l1 l2 E. split; apply sub_ok_perm; [done|by symmetry]. Qed.

(** *** Taking *)

Lemma token_alloc_same t need out t' : Token.alloc t need = (out, t') →
  Token.size t' = Token.size t ∧ Token.free_group t' = Token.free_group t.
Proof.
  unfold Token.alloc, Token.merge_and_sort_free. intros E.
  destruct (Token.need_sort t && _); [destruct (0 <? _)|]; destruct (_ <? _); injection E as _ <-; done.
Qed.

Lemma sub_alloc_ok s need used : sub_ok 1 s used → 0 ≤ need ≤ sub_available_size s →
  ∃ sel s', sub_alloc s need = Ok (Some sel, s') ∧ zlen sel = need ∧ sub_ok 1 s' (sel ++ used) ∧ sub_same s s'.
Proof.
  intros Hok Hn. destruct s as [t|p]; [|destruct Hok; lia]. destruct Hok as (_ & Hwf & Hsz). cbn in *.
  pose proof (Token.alloc_spec t need used Hwf ltac:(lia)) as Hs.
  destruct (Token.alloc t need) as [[sel|] t'] eqn:E; [|lia]. destruct (token_alloc_same _ _ _ _ E) as [E1 E2].
  destruct Hs as (_ & Hl & Hwf' & _). exists sel, (STok t'). split; [done|]. split; [done|]. split; [by split_and!; [done..|rewrite E1]|].
  unfold sub_same. cbn. by rewrite E1, E2.
Qed.

(** The pages counted by [available_size]. *)
Lemma sub_available_pages ps p used : sub_ok ps (SPag p) used →
  sub_available_size (SPag p) / ps = zlen (free_pages p) + num_staged_pages p.
Proof. intros (Hps & Eps & _). cbn. unfold pavailable_size. rewrite Eps. apply Z.div_mul. lia. Qed.

Lemma sub_paged ps s used : sub_ok ps s used → 1 < ps → ∃ p, s = SPag p.
Proof. destruct s as [t|p]; [intros (-> & _) ?; lia|by exists p]. Qed.

Lemma sub_same_rest ps p p' used pages : sub_ok ps (SPag p) used → same_rest p p' → pwf p' (pages ++ used) →
  sub_ok ps (SPag p') (pages ++ used) ∧ sub_same (SPag p) (SPag p').
Proof.
  intros (Hps & Eps & [Hwf Ho Hd] & Hn & Hsz) (E1 & E2 & E3 & E4 & E5 & E6) Hwf'. cbn. unfold sub_same. cbn.
  rewrite E1, E4, E6. split; [|done]. split; [done|]. split; [congruence|]. split; [|done].
  split; [done| |congruence]. unfold no_orphans. by rewrite E4, E5.
Qed.

Section taking.
Context (lightop_alloc_extend : Z → list Z → list Z → list Z → list Z → list Z → Z → list Z).
Context (oob : Z).
Context (He : lightop_extend_ok lightop_alloc_extend).

(** The pages a placement took from a pool, and the slots it gave. *)
Definition sub_placed (ps : Z) (s : sub) (used : list Z) (rs : list req) (need : Z) (out : list Z) (s' : sub) : Prop :=
  ∃ free, zlen (pytake free need) = need ∧ 0 ≤ need ∧ out = place_batch ps free rs 0 ∧
    sub_ok ps s' (pytake free need ++ used) ∧ sub_same s s'.

Lemma sub_extend_ok ps s used rs : sub_ok ps s used → 1 < ps → batch_ok rs →
  let need := sum_pages ps rs in
  need ≤ sub_available_size s / ps →
  ∃ out s', sub_alloc_extend lightop_alloc_extend oob s (r_prefix <$> rs) (r_seq <$> rs) (r_last <$> rs)
              (sum_ext rs) (Some need) = Ok (Some out, s') ∧ sub_placed ps s used rs need out s'.
Proof.
  intros Hok Hps Hb need Hn. destruct (sub_paged ps s used Hok Hps) as [p ->].
  rewrite (sub_available_pages ps p used Hok) in Hn. pose proof Hok as (_ & Eps & [Hwf Ho Hd] & _).
  pose proof (extend_spec lightop_alloc_extend oob p used rs (Some need) He Hwf Hb Hd) as Hs. rewrite Eps in Hs.
  specialize (Hs ltac:(by intros n [= <-])). cbv zeta in Hs. fold need in Hs. cbn.
  destruct (palloc_extend _ _ _ _ _ _ _ _) as [[[out|] p']|] eqn:E; [|lia|done].
  pose proof (palloc_extend_same _ _ _ _ _ _ _ _ _ _ E) as Hsr. destruct Hs as (_ & free & Hl & -> & _ & Hwf').
  destruct (sub_same_rest ps p p' used _ Hok Hsr Hwf') as [H1 H2].
  exists (place_batch ps free rs 0), (SPag p'). split; [done|]. exists free. split; [done|]. split; [|done].
  apply sum_pages_nonneg; [lia|done].
Qed.

Lemma sub_decode_ok ps s used ds : sub_ok ps s used → 1 < ps → Forall (λ d : Z * Z, 1 ≤ d.1) ds →
  Forall (continues ps used) (decode_req <$> ds) →
  let need := decode_pages ps ds in
  ∃ out s', sub_alloc_decode oob s (ds.*1) (ds.*2) = Ok (out, s') ∧
    match out with
    | Some out => need ≤ sub_available_size s / ps ∧ sub_placed ps s used (decode_req <$> ds) need out s'
    | None => sub_available_size s / ps < need ∧ sub_ok ps s' used ∧ sub_same s s'
    end.
Proof.
  intros Hok Hps Hf Hc need. destruct (sub_paged ps s used Hok Hps) as [p ->].
  rewrite (sub_available_pages ps p used Hok). pose proof Hok as (_ & Eps & [Hwf Ho Hd] & _).
  pose proof (decode_spec oob p used ds Hwf) as Hs. rewrite Eps in Hs.
  specialize (Hs Hps Hf Hc Hd). cbv zeta in Hs. fold need in Hs. cbn.
  destruct (palloc_decode _ _ _ _) as [[[out|] p']|] eqn:E; [| |done];
    pose proof (palloc_decode_same _ _ _ _ _ _ E) as Hsr.
  - destruct Hs as (Hle & free & Hl & -> & _ & Hwf'). destruct (sub_same_rest ps p p' used _ Hok Hsr Hwf') as [H1 H2].
    exists (Some (place_batch ps free (decode_req <$> ds) 0)), (SPag p'). split; [done|]. split; [done|].
    exists free. split; [done|]. split; [|done]. apply zsum_nonneg, needs_pages_nonneg.
  - destruct Hs as (Hlt & Hwf'). destruct (sub_same_rest ps p p' used [] Hok Hsr Hwf') as [H1 H2].
    exists None, (SPag p'). done.
Qed.
End taking.
