(* ===== verification/SwaKernel.v ===== *)
(** * The kernel that resolves and clears window pages

    On a CUDA device [_free_swa_pages] launches [get_and_clear_swa_pages_kernel]
    ([kernels/ops/memory/allocator.py]); elsewhere it uses tensor operations.
    For representatives of distinct pages the launch, in whatever order its
    programs run, does what the tensor operations do. *)
From S2P Require Import Prelude RadixKey EvictPolicy RadixCache TokenAllocator PagedKernels PagedAllocator.
From S2P Require Import KvRow KvTheorems KvAlloc KvPlace SwaAllocator SwaInv.

(** ** Blocks *)

Lemma blocks_take {A} (B : nat) (l : list A) (N : nat) :
  mjoin ((λ pid, take B (drop (pid * B) l)) <$> seq 0 N) = take (N * B) l.
Proof.
  induction N as [|N IH]; [done|]. rewrite seq_S, fmap_app, join_app, IH. cbn. rewrite app_nil_r.
  rewrite take_take_drop. f_equal. lia.
Qed.

Lemma elem_of_block B reps pid r : r ∈ kernel_block B reps pid →
  ∃ k, reps !! k = Some r ∧ (pid * B ≤ k < pid * B + B)%nat.
Proof.
  unfold kernel_block. intros Hr. apply list_elem_of_lookup_1 in Hr as [j Hj].
  apply lookup_take_Some in Hj as [Hj Hlt]. rewrite lookup_drop in Hj. exists (pid * B + j)%nat. split; [done|lia].
Qed.

(** Blocks of representatives of distinct pages do not share a page. *)
Lemma blocks_disjoint ps B reps pid pid' r r' : NoDup ((λ x, x / ps) <$> reps) → pid ≠ pid' →
  r ∈ kernel_block B reps pid → r' ∈ kernel_block B reps pid' → r / ps ≠ r' / ps.
Proof.
  intros Hnd Hne Hr Hr' E. apply elem_of_block in Hr as (k & Hk & Hb), Hr' as (k' & Hk' & Hb').
  apply Hne. assert (k = k') as ->; [|nia]. eapply (NoDup_lookup _ _ _ _ Hnd); rewrite list_lookup_fmap.
  - by rewrite Hk.
  - rewrite Hk'. cbn. by rewrite E.
Qed.

Lemma fmap_mjoin {A B} (f : A → B) (ls : list (list A)) : f <$> mjoin ls = mjoin (fmap f <$> ls).
Proof. induction ls as [|l ls IH]; [done|]. change (mjoin (l :: ls)) with (l ++ mjoin ls). by rewrite fmap_app, IH. Qed.

(** ** Clearing *)

Lemma kernel_clear_at ps m reps i : 0 < ps → in_range m i → (∀ j, j ∈ expanded ps reps → 0 ≤ j) →
  at_ (kernel_clear ps m reps) i = if decide (i / ps ∈ toks_pages ps reps) then 0 else at_ m i.
Proof.
  intros Hps Hi Hpos. unfold kernel_clear. set (idx := expanded ps reps) in *.
  assert (∀ i, i ∈ idx ↔ i / ps ∈ toks_pages ps reps) as Hidx by (intros j; by apply elem_of_expanded). clearbody idx.
  assert (at_ (run_stores ((λ i, (i, 0)) <$> idx) m) i = if decide (i ∈ idx) then 0 else at_ m i) as ->.
  2: { pose proof (Hidx i). destruct (decide (i ∈ idx)), (decide (i / ps ∈ _)); done || tauto. }
  clear Hidx. revert m Hi. induction idx as [|j idx IH]; intros m Hi; [done|].
  cbn. change (fold_left _ ?l ?o) with (run_stores l o). rewrite IH; [|intros; apply Hpos; by right|
    unfold in_range, zlen in *; by rewrite length_insert].
  destruct (decide (i ∈ idx)) as [H1|H1]; [by rewrite decide_True by by right|].
  unfold at_. destruct (decide (i = j)) as [->|Hne].
  - rewrite decide_True by by left. apply list_lookup_total_insert_eq. unfold in_range, zlen in Hi. lia.
  - rewrite decide_False by (rewrite elem_of_cons; tauto). pose proof (Hpos j ltac:(by left)). unfold in_range in Hi.
    apply list_lookup_total_insert_ne. lia.
Qed.

Lemma length_kernel_clear ps m reps : length (kernel_clear ps m reps) = length m.
Proof. apply length_run_stores. Qed.

(** Loads see only the entries of the representative's own page. *)
Lemma kernel_loads_same ps m m' r : 0 < ps →
  (∀ i, i / ps = r / ps → at_ m' i = at_ m i) → kernel_loads ps m' r = kernel_loads ps m r.
Proof.
  intros Hps Hat. unfold kernel_loads. rewrite (Hat r) by done. do 3 f_equal. f_equal. apply list_fmap_ext.
  intros k o Ho. apply list_elem_of_lookup_2, elem_of_seqZ in Ho. apply Hat.
  rewrite Z.add_comm, Z.div_add, Z.div_small by lia. lia.
Qed.

Section launch.
Context (ps : Z) (Hps : 0 < ps) (B : nat) (reps m : list Z).
Context (Hnd : NoDup (toks_pages ps reps)).
Context (Hr : Forall (λ r, 0 ≤ r ∧ (r / ps + 1) * ps ≤ zlen m) reps).

Definition blocks_of (pids : list nat) : list Z := mjoin (kernel_block B reps <$> pids).

Lemma block_in_reps pid r : r ∈ kernel_block B reps pid → r ∈ reps.
Proof. intros (k & Hk & _)%elem_of_block. by eapply list_elem_of_lookup_2. Qed.

Lemma expanded_nonneg l j : (∀ r, r ∈ l → r ∈ reps) → j ∈ expanded ps l → 0 ≤ j.
Proof.
  intros Hl Hj. apply elem_of_expanded in Hj; [|done]. apply list_elem_of_fmap in Hj as (r & E & Hin).
  rewrite Forall_forall in Hr. destruct (Hr r (Hl r Hin)) as [H0 _]. pose proof (Z.div_pos r ps H0 Hps).
  pose proof (Z.div_mod j ps ltac:(lia)). pose proof (Z.mod_pos_bound j ps Hps). nia.
Qed.

(** The state after the programs of [pids]: their pages cleared, their loads
    those of the initial table. *)
Lemma launch_prefix pids : NoDup pids →
  let st := foldl (get_and_clear_swa_pages_kernel ps B reps) (m, ∅) pids in
  length st.1 = length m ∧
  (∀ i, in_range m i → at_ st.1 i = if decide (i / ps ∈ toks_pages ps (blocks_of pids)) then 0 else at_ m i) ∧
  (∀ pid, pid ∈ pids → st.2 !! pid = Some (kernel_loads ps m <$> kernel_block B reps pid)).
Proof.
  intros Hn. cbv zeta. induction pids as [|pid pids IH] using rev_ind.
  { split; [done|]. split; [done|]. intros pid Hp. by apply not_elem_of_nil in Hp. }
  apply NoDup_app in Hn as (Hn & Hd & _). destruct (IH Hn) as (Hl & Hat & Hout). rewrite foldl_app. cbn.
  set (st := foldl _ _ pids) in *. clearbody st. split; [by rewrite length_kernel_clear|].
  assert (blocks_of (pids ++ [pid]) = blocks_of pids ++ kernel_block B reps pid) as Eb.
  { unfold blocks_of. rewrite fmap_app, join_app. cbn. by rewrite app_nil_r. }
  split.
  - intros i Hi. rewrite kernel_clear_at; [|done|unfold in_range, zlen in *; by rewrite Hl|].
    2: { intros j. apply expanded_nonneg. intros r. apply block_in_reps. }
    rewrite Hat by done. rewrite Eb. unfold toks_pages. rewrite fmap_app.
    repeat case_decide; rewrite elem_of_app in *; tauto || done.
  - intros q [Hq|Hq]%elem_of_app; [rewrite lookup_insert_ne; [by apply Hout|]|].
    { intros ->. apply (Hd q Hq). by left. }
    apply list_elem_of_singleton in Hq as ->. rewrite lookup_insert_eq. f_equal. apply list_fmap_ext.
    intros k r Hrk. apply list_elem_of_lookup_2 in Hrk. apply kernel_loads_same; [done|]. intros i Ei.
    pose proof (block_in_reps pid r Hrk) as Hrr. rewrite Forall_forall in Hr. destruct (Hr r Hrr) as [H0 H1].
    pose proof (Z.div_mod i ps ltac:(lia)). pose proof (Z.mod_pos_bound i ps Hps). pose proof (Z.div_pos r ps H0 Hps).
    rewrite Hat by (unfold in_range; nia). rewrite decide_False; [done|]. rewrite Ei. unfold blocks_of. intros Hin.
    apply list_elem_of_fmap in Hin as (r' & E' & Hin). apply list_elem_of_join in Hin as (l & Hin & Hpl).
    apply list_elem_of_fmap in Hpl as (pid' & -> & Hpid'). apply (blocks_disjoint ps B reps pid pid' r r' Hnd); try done.
    intros ->. apply (Hd pid' Hpid'). by left.
Qed.

Lemma at_ext (m1 m2 : list Z) : length m1 = length m2 → (∀ i, in_range m1 i → at_ m1 i = at_ m2 i) → m1 = m2.
Proof.
  intros Hl Hat. apply list_eq. intros k. destruct (decide (k < length m1)%nat) as [Hk|Hk].
  - pose proof (Hat (Z.of_nat k)) as H. unfold in_range, zlen, at_ in H. rewrite Nat2Z.id in H.
    rewrite !list_lookup_lookup_total_lt by lia. f_equal. apply H. lia.
  - by rewrite !lookup_ge_None_2 by lia.
Qed.

Lemma launch_result order N : order ≡ₚ seq 0 N → (length reps ≤ N * B)%nat →
  let st := foldl (get_and_clear_swa_pages_kernel ps B reps) (m, ∅) order in
  mjoin ((λ pid, default [] (st.2 !! pid)) <$> seq 0 (length order)) = kernel_loads ps m <$> reps ∧
  st.1 = kernel_clear ps m reps.
Proof.
  intros Ho HN. cbv zeta. assert (NoDup order) as Hno by (rewrite Ho; apply NoDup_seq).
  assert (length order = N) as Elo by by rewrite (Permutation_length Ho), length_seq.
  assert (blocks_of (seq 0 N) = reps) as Eb.
  { unfold blocks_of, kernel_block. rewrite (blocks_take B reps N). by apply take_ge. }
  destruct (launch_prefix order Hno) as (Hl & Hat & Hout). set (st := foldl _ _ order) in *. clearbody st. split.
  - rewrite Elo. rewrite <- Eb. unfold blocks_of. rewrite fmap_mjoin, <- list_fmap_compose. f_equal.
    apply list_fmap_ext. intros k pid Hk. apply list_elem_of_lookup_2 in Hk. cbn. rewrite Hout by by rewrite Ho. done.
  - apply at_ext; [by rewrite length_kernel_clear|]. intros i Hi.
    assert (in_range m i) as Hi' by (unfold in_range, zlen in *; lia).
    rewrite Hat by done. rewrite kernel_clear_at; [|done|done|intros j; by apply expanded_nonneg].
    assert (toks_pages ps (blocks_of order) ≡ₚ toks_pages ps reps) as Ep.
    { rewrite <- Eb. unfold toks_pages, blocks_of. by rewrite Ho. }
    destruct (decide (i / ps ∈ toks_pages ps (blocks_of order))) as [H|H]; rewrite Ep in H;
      [by rewrite decide_True|by rewrite decide_False].
Qed.
End launch.

(** ** The two paths *)

Lemma index_fill_stores m idx : Forall (in_range m) idx → index_fill_0 m idx = Ok (run_stores ((λ i, (i, 0)) <$> idx) m).
Proof.
  intros Hf. unfold index_fill_0, scatter. assert (mapM (tensor_index m) idx = Some (Z.to_nat <$> idx)) as ->.
  { induction Hf as [|i idx Hi Hf IH]; [done|]. cbn. rewrite tensor_index_in by done. cbn. by rewrite IH. }
  f_equal. clear Hf. revert m. induction idx as [|i idx IH]; intros m; [done|]. cbn. apply IH.
Qed.

Lemma expanded_one l : expanded 1 l = l.
Proof.
  induction l as [|x l IH]; [done|]. change (expanded 1 (x :: l)) with ((x / 1 * 1 + 0) :: expanded 1 l).
  rewrite IH, Z.div_1_r. f_equal. lia.
Qed.

Lemma with_mapping_same a : with_mapping (full_to_swa_index_mapping a) a = a.
Proof. by destruct a. Qed.

Lemma clear_stores a idx : Forall (in_range (full_to_swa_index_mapping a)) idx →
  clear_full_to_swa_mapping a idx = Ok (with_mapping (run_stores ((λ i, (i, 0)) <$> idx) (full_to_swa_index_mapping a)) a).
Proof.
  intros Hf. unfold clear_full_to_swa_mapping. destruct (Z.eqb_spec (zlen idx) 0) as [E|E].
  - apply zlen_nil_inv in E. subst idx. cbn. by rewrite with_mapping_same.
  - by rewrite index_fill_stores.
Qed.

Definition reps_fit (ps : Z) (m reps : list Z) : Prop := Forall (λ r, 0 ≤ r ∧ (r / ps + 1) * ps ≤ zlen m) reps.

Lemma reps_fit_range ps m reps r : 0 < ps → reps_fit ps m reps → r ∈ reps → in_range m r.
Proof.
  unfold reps_fit. rewrite Forall_forall. intros Hps Hf Hr. destruct (Hf r Hr). unfold in_range.
  pose proof (Z.div_mod r ps ltac:(lia)). pose proof (Z.mod_pos_bound r ps Hps). nia.
Qed.

Lemma reps_fit_expanded ps m reps : 0 < ps → reps_fit ps m reps → Forall (in_range m) (expanded ps reps).
Proof.
  intros Hps Hf. apply Forall_forall. intros i Hi. apply elem_of_expanded in Hi; [|done].
  apply list_elem_of_fmap in Hi as (r & E & Hr). unfold reps_fit in Hf. rewrite Forall_forall in Hf. destruct (Hf r Hr) as [H0 H1].
  pose proof (Z.div_mod i ps ltac:(lia)). pose proof (Z.mod_pos_bound i ps Hps). pose proof (Z.div_pos r ps H0 Hps).
  unfold in_range. nia.
Qed.

Section paths.
Context (level : InvariantCheckLevel) (order : nat → list nat) (a : Swa) (reps : list Z).
Context (Hps : 0 < spage_size a) (Hdbg : sub_debug (swa_attn_allocator a) = false).
Context (Hfit : reps_fit (spage_size a) (full_to_swa_index_mapping a) reps).

(** What the tensor operations compute. *)
Lemma none_cuda_eq :
  _free_swa_pages_none_cuda level a reps
  = (let! _ := expect level FATAL_UNCONTAINABLE ((λ r, 0 <? at_ (full_to_swa_index_mapping a) r) <$> reps) in
     Ok ((λ r, at_ (full_to_swa_index_mapping a) r / spage_size a) <$> reps,
         with_mapping (kernel_clear (spage_size a) (full_to_swa_index_mapping a) reps) a)).
Proof.
  unfold _free_swa_pages_none_cuda. set (m := full_to_swa_index_mapping a) in *. set (ps := spage_size a) in *.
  rewrite gather_ok. 2: { apply Forall_forall. intros r. by apply (reps_fit_range ps). }
  cbn [rbind]. rewrite <- list_fmap_compose. unfold compose.
  destruct (expect level FATAL_UNCONTAINABLE _); [|done]. cbn [rbind].
  pose proof (reps_fit_expanded ps m reps Hps Hfit) as Hex. unfold kernel_clear.
  destruct (Z.eqb_spec ps 1) as [E1|E1].
  - rewrite E1, expanded_one in *. rewrite clear_stores by done. cbn [rbind]. do 2 f_equal.
    apply list_fmap_ext. intros i x _. by rewrite Z.div_1_r.
  - unfold _expand_to_full_pages. rewrite Hdbg. cbn [negb orb assert_ rbind]. fold ps.
    rewrite clear_stores by done. cbn [rbind]. by rewrite <- list_fmap_compose.
Qed.

Lemma blocks_cover : (length reps ≤ num_programs (spage_size a) reps * Z.to_nat (Z.max 1 (256 / next_power_of_2 (spage_size a))))%nat.
Proof.
  unfold num_programs. set (B := Z.max 1 _). pose proof (ceil_div_spec B ltac:(lia) (zlen reps)) as Hc. unfold zlen in *. nia.
Qed.

Lemma cuda_eq : NoDup (toks_pages (spage_size a) reps) →
  order (num_programs (spage_size a) reps) ≡ₚ seq 0 (num_programs (spage_size a) reps) →
  _free_swa_pages_cuda level order a reps = _free_swa_pages_none_cuda level a reps.
Proof.
  intros Hnd Ho. rewrite none_cuda_eq. unfold _free_swa_pages_cuda, get_and_clear_swa_pages.
  rewrite Hdbg, andb_false_r. cbn [negb orb assert_ rbind].
  destruct (launch_result _ Hps _ reps _ Hnd Hfit _ _ Ho blocks_cover) as [E1 E2]. revert E1 E2.
  destruct (foldl _ _ _) as [m' outs]. cbn [fst snd]. intros E1 ->. rewrite E1. cbn [rbind].
  rewrite <- !list_fmap_compose. unfold compose, kernel_loads. cbn [fst snd]. done.
Qed.
End paths.

(** On a CUDA device the launch of the resolve-and-clear kernel, in whatever
    order its programs run, returns the window pages, raises and clears the table
    as the tensor operations of the other devices do, when the representatives
    name distinct pages inside the table. *)
Theorem cuda_free_is_reference level order a reps :
  0 < spage_size a → sub_debug (swa_attn_allocator a) = false →
  reps_fit (spage_size a) (full_to_swa_index_mapping a) reps →
  NoDup (toks_pages (spage_size a) reps) →
  order (num_programs (spage_size a) reps) ≡ₚ seq 0 (num_programs (spage_size a) reps) →
  _free_swa_pages_cuda level order a reps = _free_swa_pages_none_cuda level a reps.
Proof. intros. by apply cuda_eq. Qed.
