(* ===== verification/SwaPair.v ===== *)
(** * The pairing of the two pools, and giving slots back

    [table] says how the index table reads between operations, through the
    function [pf] that gives the window page of a full page (0 for none);
    [swa_inv] adds the two pools: the window pages handed out are those of the
    table and those that wait in an open group.  Every free keeps it. *)
From S2P Require Import Prelude RadixKey EvictPolicy RadixCache TokenAllocator PagedKernels PagedAllocator.
From S2P Require Import KvRow KvTheorems KvAlloc KvPlace SwaAllocator SwaInv SwaKernel.

(** ** The table *)

(** Pages [0 .. n] of the full pool, those of [used] in use. *)
Record table (ps : Z) (m : list Z) (n : Z) (used : list Z) (pf : Z → Z) : Prop := {
  tb_ps : 0 < ps;
  tb_len : (n + 1) * ps < zlen m;
  tb_last : at_ m (zlen m - 1) = -1;
  tb_used : ∀ f, f ∈ used → 1 ≤ f ≤ n;
  tb_pf : ∀ f, 0 ≤ pf f ∧ (pf f ≠ 0 → f ∈ used);
  tb_rep : ∀ f, f ∈ used → at_ m (f * ps) = pf f * ps;
  tb_slot : ∀ i, 0 ≤ i < (n + 1) * ps →
    at_ m i = 0 ∨ pf (i / ps) ≠ 0 ∧ at_ m i = pf (i / ps) * ps + i mod ps
}.

(** Window pages of a list of full pages. *)
Definition peers (pf : Z → Z) (used : list Z) : list Z := List.filter (λ q, 0 <? q) (pf <$> used).

(** No window page for the pages of [fs]. *)
Definition unpair (fs : list Z) (pf : Z → Z) (f : Z) : Z := if decide (f ∈ fs) then 0 else pf f.

Lemma elem_of_peers pf used q : q ∈ peers pf used ↔ 0 < q ∧ ∃ f, f ∈ used ∧ pf f = q.
Proof.
  unfold peers. rewrite elem_of_bfilter, Z.ltb_lt, list_elem_of_fmap. naive_solver.
Qed.

Lemma peers_app pf l1 l2 : peers pf (l1 ++ l2) = peers pf l1 ++ peers pf l2.
Proof. unfold peers. by rewrite fmap_app, List.filter_app. Qed.

#[export] Instance peers_perm pf : Proper ((≡ₚ) ==> (≡ₚ)) (peers pf).
Proof.
  intros l1 l2 E. unfold peers. induction E as [|x l1 l2 _ IH|x y l|l1 l2 l3 _ IH1 _ IH2]; cbn in *.
  - done.
  - destruct (0 <? pf x); [by constructor|done].
  - destruct (0 <? pf x), (0 <? pf y); try done. constructor.
  - by rewrite IH1.
Qed.

Lemma peers_ext pf pf' l : (∀ f, f ∈ l → pf' f = pf f) → peers pf' l = peers pf l.
Proof.
  intros H. unfold peers. f_equal. apply list_fmap_ext. intros i f Hf. apply H. by eapply list_elem_of_lookup_2.
Qed.

Lemma peers_none pf l : (∀ f, f ∈ l → pf f = 0) → peers pf l = [].
Proof.
  intros H. induction l as [|f l IH]; [done|]. unfold peers in *. cbn. rewrite (H f) by by left. cbn. apply IH.
  intros g Hg. apply H. by right.
Qed.

Lemma peers_all pf l : (∀ f, f ∈ l → 0 < pf f) → peers pf l = pf <$> l.
Proof.
  intros H. unfold peers. induction l as [|f l IH]; [done|]. cbn. rewrite (proj2 (Z.ltb_lt _ _)) by (apply H; by left).
  f_equal. apply IH. intros g Hg. apply H. by right.
Qed.

(** Taking the pages of [fs] out of the pairing splits their peers off. *)
Lemma peers_unpair pf fs rest used : used ≡ₚ fs ++ rest → NoDup used →
  peers pf used ≡ₚ peers pf fs ++ peers (unpair fs pf) used.
Proof.
  intros E Hnd. rewrite E in Hnd |- *. apply NoDup_app in Hnd as (_ & Hd & _).
  rewrite !peers_app. apply Permutation_app_head.
  rewrite (peers_none (unpair fs pf) fs) by (intros f Hf; unfold unpair; by rewrite decide_True). cbn.
  erewrite peers_ext; [done|]. intros f Hf. unfold unpair. rewrite decide_False; [done|]. intros Hin. by apply (Hd f).
Qed.

Lemma div_lt_pages ps n i : 0 < ps → 0 ≤ i < (n + 1) * ps → 0 ≤ i / ps ≤ n.
Proof. intros. split; [apply Z.div_pos; lia|]. assert (i / ps < n + 1); [apply Z.div_lt_upper_bound; lia|lia]. Qed.

Lemma slot_range ps m n used pf i : table ps m n used pf → i / ps ∈ used → 0 ≤ i < (n + 1) * ps.
Proof.
  intros Ht Hi. apply (tb_used _ _ _ _ _ Ht) in Hi. pose proof (tb_ps _ _ _ _ _ Ht).
  pose proof (Z.div_mod i ps ltac:(lia)). pose proof (Z.mod_pos_bound i ps ltac:(lia)). nia.
Qed.

Lemma table_in_range ps m n used pf i : table ps m n used pf → 0 ≤ i < (n + 1) * ps → in_range m i.
Proof. intros Ht Hi. pose proof (tb_len _ _ _ _ _ Ht). unfold in_range. lia. Qed.

(** Clearing exactly the entries of some pages. *)
Lemma table_clear ps m n used pf idx fs : table ps m n used pf →
  (∀ i, i ∈ idx ↔ i / ps ∈ fs) → (∀ f, f ∈ fs → f ∈ used) →
  ∃ m', index_fill_0 m idx = Ok m' ∧ table ps m' n used (unpair fs pf).
Proof.
  intros Ht Hidx Hfs. pose proof Ht as [Hps Hlen Hlast Hused Hpf Hrep Hslot].
  destruct (index_fill_ok m idx) as (m' & E & Hl & Hat).
  { apply Forall_forall. intros i Hi. eapply table_in_range; [done|]. eapply slot_range; [done|]. by apply Hfs, Hidx. }
  exists m'. split; [done|]. assert (zlen m' = zlen m) as El by (unfold zlen; by rewrite Hl).
  assert (∀ i, 0 ≤ i < (n + 1) * ps → at_ m' i = if decide (i / ps ∈ fs) then 0 else at_ m i) as Hat'.
  { intros i Hi. rewrite Hat by by eapply table_in_range. pose proof (Hidx i).
    destruct (decide (i ∈ idx)), (decide (i / ps ∈ fs)); done || tauto. }
  split; try done.
  - by rewrite El.
  - assert (0 < zlen m) as Hpos.
    { destruct (decide (m = [])) as [->|]; [|destruct m; [done|unfold zlen; cbn; lia]].
      unfold zlen, at_ in Hlast. cbn in Hlast. discriminate. }
    rewrite El, Hat by (unfold in_range; lia). case_decide as Hin; [|done]. exfalso.
    apply Hidx, Hfs in Hin. pose proof (slot_range _ _ _ _ _ _ Ht Hin). lia.
  - intros f. unfold unpair. case_decide; [|apply Hpf]. split; [lia|done].
  - intros f Hf. pose proof (Hused f Hf). rewrite Hat', Z.div_mul by nia. unfold unpair. case_decide; [done|by apply Hrep].
  - intros i Hi. rewrite Hat' by done. unfold unpair. case_decide; [by left|by apply Hslot].
Qed.

(** ** The invariant of the allocator *)

(** Window pages of the slots that wait in an open group. *)
Definition tok_pend (ps : Z) (g : list (list Z)) : list Z :=
  remove_dups (toks_pages ps (List.filter (λ x, 0 <? x) (mjoin g))).
Arguments tok_pend : simpl never.
Definition swa_waiting (a : Swa) : list Z :=
  tok_pend (spage_size a) (swa_free_group a) ++ mjoin (swa_page_ids_group a).

(** Window pages in no pair: a decode step that the full pool refuses may leave
    pages of the window pool with nobody. *)
Class Lost := lost_pages : list Z.

Record swa_inv {L : Lost} (a : Swa) (used : list Z) (pf : Z → Z) : Prop := {
  si_ring : _swa_req_ring a = false;
  si_full : sub_ok (spage_size a) (full_attn_allocator a) used;
  si_swa : sub_ok (spage_size a) (swa_attn_allocator a) (swa_waiting a ++ peers pf used ++ lost_pages);
  si_table : table (spage_size a) (full_to_swa_index_mapping a) (sub_pages (full_attn_allocator a)) used pf;
  si_group : match sfree_group a with
             | None => sub_open (full_attn_allocator a) = false ∧ swa_free_group a = [] ∧ swa_page_ids_group a = []
             | Some g => sub_open (full_attn_allocator a) = true ∧ g = []
             end;
  si_closed : sub_open (swa_attn_allocator a) = false;
  si_toks : swa_free_group a ≠ [] → 1 < spage_size a
}.

(** What a free on the window side leaves alone. *)
Definition full_same (a a' : Swa) : Prop :=
  full_attn_allocator a' = full_attn_allocator a ∧ spage_size a' = spage_size a ∧
  sfree_group a' = sfree_group a ∧ is_cuda a' = is_cuda a ∧
  sub_pages (swa_attn_allocator a') = sub_pages (swa_attn_allocator a) ∧
  zlen (full_to_swa_index_mapping a') = zlen (full_to_swa_index_mapping a).

Lemma sub_ok_debug ps s used : sub_ok ps s used → sub_debug s = false.
Proof. destruct s; [done|]. by intros (_ & _ & [] & _). Qed.

Lemma kept_split ps toks l A B : l ≡ₚ A ++ B → NoDup l → (∀ q, q ∈ toks_pages ps toks ↔ q ∈ A) → kept_of ps toks l ≡ₚ B.
Proof.
  intros E Hnd HA. rewrite E in Hnd. apply NoDup_app in Hnd as (HnA & Hd & HnB). apply NoDup_Permutation.
  - apply NoDup_filter. rewrite E. apply NoDup_app. done.
  - done.
  - intros q. rewrite kept_elem, E, elem_of_app, HA. specialize (Hd q). naive_solver.
Qed.

(** The pages of a set of slots, each once, are the part of [used] they touch. *)
Lemma freed_elem ps toks used f : (∀ q, q ∈ toks_pages ps toks → q ∈ used) →
  f ∈ freed_of ps toks used ↔ f ∈ toks_pages ps toks.
Proof. intros H. unfold freed_of. rewrite list_elem_of_filter. naive_solver. Qed.

Section window.
Context {L : Lost}.
Context (level : InvariantCheckLevel) (order : nat → list nat).
Context (Horder : ∀ n, order n ≡ₚ seq 0 n).

(** *** Segments *)

Lemma segment_reps ps seg : segment_pages ps seg = toks_pages ps (every_nth (length seg) (Z.to_nat ps) seg).
Proof. done. Qed.

(** The window page of a mapped slot is the one of its page. *)
Lemma mapped_page ps m n used pf r : table ps m n used pf → r / ps ∈ used → at_ m r ≠ 0 →
  0 < pf (r / ps) ∧ 0 < at_ m r ∧ at_ m r / ps = pf (r / ps).
Proof.
  intros Ht Hu Hne. pose proof (slot_range _ _ _ _ _ _ Ht Hu) as Hr. pose proof (tb_ps _ _ _ _ _ Ht) as Hps.
  destruct (tb_pf _ _ _ _ _ Ht (r / ps)) as [H0 _]. destruct (tb_slot _ _ _ _ _ Ht r Hr) as [|[Hp E]]; [done|].
  pose proof (Z.mod_pos_bound r ps Hps). rewrite E. split; [lia|]. split; [nia|].
  rewrite Z.add_comm, Z.div_add, Z.div_small by lia. lia.
Qed.

Lemma inv_reps_fit a used pf reps : swa_inv a used pf → (∀ r, r ∈ reps → r / spage_size a ∈ used) →
  reps_fit (spage_size a) (full_to_swa_index_mapping a) reps.
Proof.
  intros Hi Hr. apply Forall_forall. intros r Hin. pose proof (si_table _ _ _ Hi) as Ht.
  pose proof (slot_range _ _ _ _ _ _ Ht (Hr r Hin)). pose proof (tb_used _ _ _ _ _ Ht _ (Hr r Hin)).
  pose proof (tb_len _ _ _ _ _ Ht). pose proof (tb_ps _ _ _ _ _ Ht). nia.
Qed.

(** Either path gives the window pages and takes the full pages out of the pairing. *)
Lemma resolve_ok a used pf reps rest : swa_inv a used pf →
  used ≡ₚ toks_pages (spage_size a) reps ++ rest →
  (∀ r, r ∈ reps → at_ (full_to_swa_index_mapping a) r ≠ 0) →
  ∃ m, (if is_cuda a then _free_swa_pages_cuda level order a reps else _free_swa_pages_none_cuda level a reps)
       = Ok (pf <$> toks_pages (spage_size a) reps, with_mapping m a) ∧
    table (spage_size a) m (sub_pages (full_attn_allocator a)) used (unpair (toks_pages (spage_size a) reps) pf) ∧
    zlen m = zlen (full_to_swa_index_mapping a).
Proof.
  intros Hi Hu Hm. pose proof (si_table _ _ _ Hi) as Ht. set (ps := spage_size a) in *. set (M := full_to_swa_index_mapping a) in *.
  assert (∀ r, r ∈ reps → r / ps ∈ used) as Hin.
  { intros r Hr. rewrite Hu, elem_of_app. left. by apply (list_elem_of_fmap_2 (λ x, x / ps)). }
  assert (NoDup (toks_pages ps reps)) as Hnd.
  { pose proof (sub_ok_nodup _ _ _ (si_full _ _ _ Hi)) as H. rewrite Hu in H. by apply NoDup_app in H as (? & _). }
  pose proof (inv_reps_fit a used pf reps Hi Hin) as Hfit. pose proof (tb_ps _ _ _ _ _ Ht) as Hps.
  pose proof (sub_ok_debug _ _ _ (si_swa _ _ _ Hi)) as Hdbg.
  assert ((if is_cuda a then _free_swa_pages_cuda level order a reps else _free_swa_pages_none_cuda level a reps)
    = _free_swa_pages_none_cuda level a reps) as ->.
  { destruct (is_cuda a); [|done]. by apply cuda_eq. }
  rewrite none_cuda_eq by done. fold ps M.
  assert (expect level FATAL_UNCONTAINABLE ((λ r, 0 <? at_ M r) <$> reps) = Ok tt) as ->.
  { unfold expect. replace (forallb id _) with true; [by rewrite andb_false_r|]. symmetry. apply forallb_forall.
    intros b Hb. apply list_elem_of_In, list_elem_of_fmap in Hb as (r & -> & Hr).
    destruct (mapped_page _ _ _ _ _ r Ht (Hin r Hr) (Hm r Hr)) as (_ & Hpos & _). by apply Z.ltb_lt. }
  cbn [rbind]. destruct (table_clear ps M _ used pf (expanded ps reps) (toks_pages ps reps) Ht) as (m & E & Ht').
  { intros i. by apply elem_of_expanded. }
  { intros f Hf. rewrite Hu, elem_of_app. by left. }
  rewrite index_fill_stores in E by by apply reps_fit_expanded. injection E as E.
  exists m. split; [|split; [done|]].
  - unfold kernel_clear. rewrite E. do 2 f_equal. unfold toks_pages. rewrite <- list_fmap_compose. apply list_fmap_ext.
    intros i r Hr. apply list_elem_of_lookup_2 in Hr.
    by destruct (mapped_page _ _ _ _ _ r Ht (Hin r Hr) (Hm r Hr)) as (_ & _ & ?).
  - subst m. unfold zlen. by rewrite length_run_stores.
Qed.

Lemma free_swa_pages_ok a used pf seg start rest : swa_inv a used pf →
  let reps := every_nth (length seg) (Z.to_nat (spage_size a)) seg in
  start mod spage_size a = 0 → used ≡ₚ toks_pages (spage_size a) reps ++ rest →
  (∀ r, r ∈ reps → at_ (full_to_swa_index_mapping a) r ≠ 0) →
  ∃ a', _free_swa_pages level order a seg start = Ok a' ∧ full_same a a' ∧
    swa_inv a' used (unpair (toks_pages (spage_size a) reps) pf).
Proof.
  intros Hi reps Hst Hu Hm. destruct (resolve_ok a used pf reps rest Hi Hu Hm) as (m & E & Ht & Hl).
  unfold _free_swa_pages. fold reps. rewrite Hst. cbn [Z.eqb assert_ rbind]. rewrite E. cbn [rbind].
  pose proof Hi as [Hring Hf Hs Htab Hg Hc Htk]. cbn [_swa_req_ring with_mapping]. rewrite Hring.
  set (fs := toks_pages (spage_size a) reps) in *.
  assert (∀ f, f ∈ fs → 0 < pf f) as Hpos.
  { intros f Hin. assert (f ∈ used) as Hfu by (rewrite Hu, elem_of_app; by left).
    apply list_elem_of_fmap in Hin as (r & -> & Hr).
    by destruct (mapped_page _ _ _ _ _ r Htab Hfu (Hm r Hr)). }
  pose proof (peers_unpair pf fs rest used Hu (sub_ok_nodup _ _ _ Hf)) as Hp. rewrite (peers_all pf fs Hpos) in Hp.
  cbn [sfree_group with_mapping]. destruct (sfree_group a) as [g|] eqn:Eg.
  - eexists. split; [done|]. split; [repeat split; cbn; congruence|]. split; cbn; try done.
    eapply sub_ok_perm; [|exact Hs]. rewrite Hp. unfold swa_waiting. cbn. rewrite join_app. cbn. rewrite app_nil_r.
    set (x := tok_pend _ _). set (y := mjoin _). set (z := pf <$> fs). set (u := lost_pages). solve_Permutation.
  - destruct Hg as (Ho & E1 & E2). unfold swa_waiting in Hs. rewrite E1, E2 in Hs.
    change (tok_pend _ [] ++ mjoin []) with (@nil Z) in Hs. rewrite app_nil_l in Hs.
    rewrite Hp, <- app_assoc in Hs. destruct (sub_free_page_ids_ok _ _ _ _ Hs) as (w & Ew & Hw & Hsame).
    cbn. rewrite Ew. cbn [rbind]. rewrite (sub_assert_ok _ _ _ Hw). cbn [assert_ rbind]. eexists. split; [done|].
    destruct Hsame as (S1 & S2 & S3). split; [by repeat split|]. split; cbn; try done.
    + unfold swa_waiting. cbn. by rewrite E1, E2.
    + by rewrite Eg.
    + by rewrite S3.
Qed.

(** *** Sets of slots *)

Lemma swa_inv_ext a used pf pf' : (∀ f, pf' f = pf f) → swa_inv a used pf → swa_inv a used pf'.
Proof.
  intros E [Hring Hf Hs [] Hg Hc Htk]. split; try done.
  - by rewrite (peers_ext pf pf') by (intros; apply E).
  - split; try done; intros; rewrite E; eauto.
Qed.

(** The window pages of all entries of the pages of some slots. *)
Lemma entries_pages ps m n used pf toks q : table ps m n used pf → (∀ x, x ∈ toks → x / ps ∈ used) →
  q ∈ toks_pages ps (List.filter (λ x, 0 <? x) (at_ m <$> expanded ps toks))
  ↔ q ∈ peers pf (freed_of ps toks used).
Proof.
  intros Ht Hin. pose proof (tb_ps _ _ _ _ _ Ht) as Hps.
  assert (∀ f, f ∈ toks_pages ps toks → f ∈ used) as Hfu.
  { intros f Hf. apply list_elem_of_fmap in Hf as (x & -> & Hx). by apply Hin. }
  unfold toks_pages at 1. rewrite list_elem_of_fmap, elem_of_peers. split.
  - intros (x & -> & Hx). apply elem_of_bfilter in Hx as [Hx Hpos]. apply Z.ltb_lt in Hpos.
    apply list_elem_of_fmap in Hx as (i & -> & Hi). apply elem_of_expanded in Hi; [|done].
    destruct (mapped_page ps m n used pf i Ht (Hfu _ Hi)) as (H1 & H2 & ->); [lia|]. split; [done|].
    exists (i / ps). by rewrite freed_elem.
  - intros (Hq & f & Hf & <-). rewrite freed_elem in Hf by done. exists (pf f * ps). rewrite Z.div_mul by lia.
    split; [done|]. rewrite elem_of_bfilter. split; [|apply Z.ltb_lt; nia]. apply list_elem_of_fmap.
    exists (f * ps). split; [symmetry; by eapply tb_rep, Hfu|]. rewrite elem_of_expanded, Z.div_mul by lia. done.
Qed.

Lemma release_swa_ok a idx A B : 1 < spage_size a → sub_ok (spage_size a) (swa_attn_allocator a) (A ++ B) →
  (∀ q, q ∈ toks_pages (spage_size a) (List.filter (λ x, 0 <? x) idx) ↔ q ∈ A) →
  ∃ w, _release_swa a idx = Ok (with_swa w a) ∧ sub_ok (spage_size a) w B ∧ sub_same (swa_attn_allocator a) w.
Proof.
  intros Hps Hok HA. unfold _release_swa. rewrite (proj2 (Z.ltb_lt _ _) Hps).
  destruct (sub_free_ok _ _ (List.filter (λ x, 0 <? x) idx) _ Hok) as (w & E & Hw & Hsame).
  { intros q Hq. rewrite elem_of_app. left. by apply HA. }
  { lia. }
  rewrite E. cbn [rbind]. rewrite (sub_assert_ok _ _ _ Hw). cbn [assert_ rbind]. exists w. split; [done|]. split; [|done].
  eapply sub_ok_perm; [|exact Hw]. by apply (kept_split _ _ _ A B (reflexivity _) (sub_ok_nodup _ _ _ Hok)).
Qed.

(** A new batch of waiting slots adds its pages to those that wait. *)
Lemma tok_pend_snoc ps g idx A : NoDup (tok_pend ps g ++ A) →
  (∀ q, q ∈ toks_pages ps (List.filter (λ x, 0 <? x) idx) ↔ q ∈ A) →
  tok_pend ps (g ++ [idx]) ≡ₚ tok_pend ps g ++ A.
Proof.
  intros Hnd HA. apply NoDup_Permutation; [apply NoDup_remove_dups|done|]. intros q. unfold tok_pend at 1.
  rewrite elem_of_remove_dups, join_app. cbn. rewrite app_nil_r, List.filter_app. unfold toks_pages at 1.
  rewrite fmap_app, !elem_of_app. unfold tok_pend. rewrite elem_of_remove_dups. unfold toks_pages in *. by rewrite <- HA.
Qed.

Lemma clear_ok a used pf toks : swa_inv a used pf → (∀ x, x ∈ toks → x / spage_size a ∈ used) → toks ≠ [] →
  ∃ m, clear_full_to_swa_mapping a (expanded (spage_size a) toks) = Ok (with_mapping m a) ∧
    table (spage_size a) m (sub_pages (full_attn_allocator a)) used (unpair (toks_pages (spage_size a) toks) pf) ∧
    zlen m = zlen (full_to_swa_index_mapping a).
Proof.
  intros Hi Hin Hne. pose proof (si_table _ _ _ Hi) as Ht. pose proof (tb_ps _ _ _ _ _ Ht) as Hps.
  destruct (table_clear _ _ _ used pf (expanded (spage_size a) toks) (toks_pages (spage_size a) toks) Ht) as (m & E & Ht').
  { intros i. by apply elem_of_expanded. }
  { intros f Hf. apply list_elem_of_fmap in Hf as (x & -> & Hx). by apply Hin. }
  pose proof (reps_fit_expanded _ _ _ Hps (inv_reps_fit a used pf toks Hi Hin)) as Hr.
  rewrite clear_stores by done. rewrite index_fill_stores in E by done. injection E as E. rewrite E.
  exists m. split; [done|]. split; [done|]. subst m. unfold zlen. by rewrite length_run_stores.
Qed.

(** The window pages of the freed slots leave the window pool: at once, or with the
    end of the open group. *)
Lemma window_pages_freed a used pf toks m : swa_inv a used pf → (∀ x, x ∈ toks → x / spage_size a ∈ used) →
  spage_size a ≠ 1 → let ps := spage_size a in
  let idx := at_ (full_to_swa_index_mapping a) <$> expanded ps toks in
  let a1 := with_mapping m a in
  table ps m (sub_pages (full_attn_allocator a)) used (unpair (toks_pages ps toks) pf) →
  zlen m = zlen (full_to_swa_index_mapping a) →
  ∃ a', match sfree_group a1 with
        | Some g => Ok (with_groups (Some g) (swa_free_group a1 ++ [idx]) (swa_page_ids_group a1) a1)
        | None => _release_swa a1 idx
        end = Ok a' ∧ full_same a a' ∧ swa_inv a' used (unpair (toks_pages ps toks) pf).
Proof.
  intros Hi Hin E1 ps idx a1 Ht' Hl. pose proof Hi as [Hring Hf Hs Ht Hg Hc Htk]. pose proof (tb_ps _ _ _ _ _ Ht) as Hps.
  fold ps in Hin, E1, Hf, Hs, Ht, Hps. set (fs := toks_pages ps toks) in *.
  assert (∀ f, f ∈ fs → f ∈ used) as Hfu.
  { intros f Hff. apply list_elem_of_fmap in Hff as (x & -> & Hx). by apply Hin. }
  pose proof (λ q, entries_pages _ _ _ _ _ toks q Ht Hin) as HA.
  pose proof (peers_unpair pf _ _ used (used_split ps toks used) (sub_ok_nodup _ _ _ Hf)) as Hp.
  rewrite (peers_ext (unpair fs pf) (unpair (freed_of ps toks used) pf)) in Hp.
  2: { intros f _. unfold unpair. pose proof (freed_elem ps toks used f Hfu).
       destruct (decide (f ∈ freed_of _ _ _)), (decide (f ∈ fs)); done || tauto. }
  unfold a1. cbn [sfree_group with_mapping]. destruct (sfree_group a) as [g|] eqn:Eg.
  - eexists. split; [done|]. split; [by repeat split|]. split; cbn; try done; [|intros _; lia].
    pose proof (sub_ok_nodup _ _ _ Hs) as Hnd. unfold swa_waiting in Hs, Hnd |- *. cbn [swa_free_group swa_page_ids_group spage_size with_groups with_mapping]. fold ps in Hs, Hnd |- *. rewrite Hp in Hs, Hnd.
    eapply sub_ok_perm; [|exact Hs]. rewrite (tok_pend_snoc _ _ idx (peers pf (freed_of ps toks used))).
    + set (x := tok_pend _ _). set (y := mjoin _). set (z := peers pf _). set (u := lost_pages). solve_Permutation.
    + apply NoDup_app in Hnd as (Hn1 & Hd & Hn2). apply NoDup_app in Hn1 as (Hn1 & Hd1 & Hn3).
      apply NoDup_app in Hn2 as (Hn2 & _ & _). apply NoDup_app in Hn2 as (Hn2 & _ & _). apply NoDup_app. split; [done|]. split; [|done].
      intros q Hq Hq'. apply (Hd q); rewrite !elem_of_app; tauto.
    + intros q. by apply HA.
  - destruct Hg as (Ho & Eg1 & Eg2). unfold swa_waiting in Hs. rewrite Eg1, Eg2 in Hs.
    change (tok_pend _ [] ++ mjoin []) with (@nil Z) in Hs. rewrite app_nil_l in Hs.
    rewrite Hp, <- app_assoc in Hs.
    destruct (release_swa_ok (with_mapping m a) idx _ _ ltac:(cbn; lia) Hs) as (w & Ew & Hw & S1 & S2 & S3).
    { intros q. by apply HA. }
    rewrite Ew. eexists. split; [done|]. split; [by repeat split|]. split; cbn; try done.
    + unfold swa_waiting. cbn. by rewrite Eg1, Eg2.
    + by rewrite Eg.
    + rewrite <- Hc. exact S3.
Qed.

Lemma free_swa_ok a used pf toks : swa_inv a used pf → (∀ x, x ∈ toks → x / spage_size a ∈ used) →
  (spage_size a = 1 → NoDup toks ∧ ∀ x, x ∈ toks → at_ (full_to_swa_index_mapping a) x ≠ 0) →
  ∃ a', free_swa level order a toks = Ok a' ∧ full_same a a' ∧ swa_inv a' used (unpair (toks_pages (spage_size a) toks) pf).
Proof.
  intros Hi Hin H1. pose proof Hi as [Hring Hf Hs Ht Hg Hc Htk]. unfold free_swa. rewrite Hring. cbn [orb].
  destruct (Z.eqb_spec (zlen toks) 0) as [En|En].
  { apply zlen_nil_inv in En. subst toks. exists a. split; [done|]. split; [by repeat split|].
    eapply swa_inv_ext; [|done]. done. }
  assert (toks ≠ []) as Hne by (intros ->; done). pose proof (tb_ps _ _ _ _ _ Ht) as Hps.
  assert (∀ f, f ∈ toks_pages (spage_size a) toks → f ∈ used) as Hfu.
  { intros f Hff. apply list_elem_of_fmap in Hff as (x & -> & Hx). by apply Hin. }
  destruct (Z.eqb_spec (spage_size a) 1) as [E1|E1].
  - destruct (H1 E1) as [Hnd Hm]. pose proof (free_swa_pages_ok a used pf toks 0 (kept_of (spage_size a) toks used) Hi) as H.
    cbv zeta in H. assert (every_nth (length toks) (Z.to_nat (spage_size a)) toks = toks) as Er.
    { rewrite E1. by apply Token.every_nth_1. }
    rewrite Er in H. apply H; [by rewrite Z.mod_0_l by lia| |done].
    rewrite (used_split (spage_size a) toks used) at 1. apply Permutation_app_tail. apply NoDup_Permutation.
    + by apply NoDup_filter, (sub_ok_nodup _ _ _ Hf).
    + unfold toks_pages. rewrite E1. rewrite (list_fmap_ext _ id toks); [by rewrite list_fmap_id|]. intros i x _. apply Z.div_1_r.
    + intros f. by apply freed_elem.
  - unfold _expand_to_full_pages. rewrite (sub_ok_debug _ _ _ Hs). cbn [negb orb assert_ rbind].
    rewrite gather_ok by (eapply reps_fit_expanded, inv_reps_fit; done). cbn [rbind].
    destruct (clear_ok a used pf toks Hi Hin Hne) as (m & E & Ht' & Hl). rewrite E. cbn [rbind].
    by apply window_pages_freed.
Qed.

Lemma free_swa_segment_ok a used pf seg start rest : swa_inv a used pf →
  start mod spage_size a = 0 → used ≡ₚ segment_pages (spage_size a) seg ++ rest →
  (∀ r, r ∈ every_nth (length seg) (Z.to_nat (spage_size a)) seg → at_ (full_to_swa_index_mapping a) r ≠ 0) →
  ∃ a', free_swa_segment level order a seg start = Ok a' ∧ full_same a a' ∧
    swa_inv a' used (unpair (segment_pages (spage_size a) seg) pf).
Proof.
  intros Hi Hst Hu Hm. unfold free_swa_segment. rewrite (si_ring _ _ _ Hi). cbn [orb].
  destruct (Z.eqb_spec (zlen seg) 0) as [En|En].
  { apply zlen_nil_inv in En. subst seg. exists a. split; [done|]. split; [by repeat split|]. by eapply swa_inv_ext. }
  by apply (free_swa_pages_ok a used pf seg start rest).
Qed.

(** *** The full side *)

Lemma with_full_same a : with_full (full_attn_allocator a) a = a.
Proof. by destruct a. Qed.

Lemma every_nth_sub fuel k l x : x ∈ every_nth fuel k l → x ∈ l.
Proof.
  revert l. induction fuel as [|fuel IH]; intros [|y l] Hx; cbn in Hx; try by apply not_elem_of_nil in Hx.
  apply elem_of_cons in Hx as [->|Hx]; [by left|]. apply IH in Hx. rewrite <- (take_drop k (y :: l)), elem_of_app. by right.
Qed.

Lemma table_drop ps m n used used' pf : table ps m n used pf →
  (∀ f, f ∈ used' → f ∈ used) → (∀ f, f ∈ used → f ∉ used' → pf f = 0) → table ps m n used' pf.
Proof.
  intros [] Hsub Hz. split; auto. intros f. destruct (tb_pf0 f) as [H0 Hu]. split; [done|]. intros Hne.
  destruct (decide (f ∈ used')); [done|]. exfalso. by apply Hne, Hz; auto.
Qed.

(** Pages without window slots leave the full pool. *)
Lemma full_give a used pf gone rest f : swa_inv a used pf → used ≡ₚ gone ++ rest → (∀ q, q ∈ gone → pf q = 0) →
  sub_ok (spage_size a) f rest → sub_same (full_attn_allocator a) f → swa_inv (with_full f a) rest pf.
Proof.
  intros [Hring Hf Hs Ht Hg Hc Htk] Hu Hz Hok (S1 & S2 & S3). split; cbn; try done.
  - change (swa_waiting (with_full f a)) with (swa_waiting a). by rewrite Hu, peers_app, (peers_none pf gone Hz) in Hs.
  - rewrite S1. eapply table_drop; [done| |]; intros q; rewrite Hu, elem_of_app; [tauto|].
    intros [Hq|Hq] Hn; [by apply Hz|done].
  - by rewrite S3.
Qed.

(** What a free on the full side leaves alone. *)
Definition window_same (a a' : Swa) : Prop :=
  swa_attn_allocator a' = swa_attn_allocator a ∧ spage_size a' = spage_size a ∧
  sfree_group a' = sfree_group a ∧ is_cuda a' = is_cuda a ∧
  sub_pages (full_attn_allocator a') = sub_pages (full_attn_allocator a) ∧
  full_to_swa_index_mapping a' = full_to_swa_index_mapping a.

Lemma unmapped_entry ps m n used pf x : table ps m n used pf → x / ps ∈ used → pf (x / ps) = 0 → at_ m x = 0.
Proof. intros Ht Hu Hz. destruct (tb_slot _ _ _ _ _ Ht x) as [|[? _]]; [by eapply slot_range|done|done]. Qed.

Lemma expect_unmapped a used pf toks : swa_inv a used pf →
  (∀ x, x ∈ toks → x / spage_size a ∈ used ∧ pf (x / spage_size a) = 0) →
  ∃ l, gather (full_to_swa_index_mapping a) toks = Ok l ∧ expect level GUARD ((λ x, x =? 0) <$> l) = Ok tt.
Proof.
  intros Hi Hx. pose proof (si_table _ _ _ Hi) as Ht. eexists. split.
  - apply gather_ok, Forall_forall. intros x Hin. eapply table_in_range, slot_range; [done..|]. by apply Hx.
  - unfold expect. replace (forallb id _) with true; [by rewrite andb_false_r|]. symmetry. apply forallb_forall.
    intros b Hb. apply list_elem_of_In in Hb. rewrite <- list_fmap_compose in Hb. apply list_elem_of_fmap in Hb as (x & -> & Hin). unfold compose.
    destruct (Hx x Hin). by rewrite (unmapped_entry _ _ _ _ _ x Ht).
Qed.

Lemma free_full_ok a used pf toks : swa_inv a used pf →
  (∀ x, x ∈ toks → x / spage_size a ∈ used ∧ pf (x / spage_size a) = 0) → (spage_size a = 1 → NoDup toks) →
  ∃ a', free_full level a toks = Ok a' ∧ window_same a a' ∧ swa_inv a' (kept_of (spage_size a) toks used) pf.
Proof.
  intros Hi Hx Hnd. unfold free_full. destruct (Z.eqb_spec (zlen toks) 0) as [En|En].
  { apply zlen_nil_inv in En. subst toks. exists a. split; [done|]. split; [by repeat split|]. by rewrite kept_nil. }
  destruct (expect_unmapped a used pf toks Hi Hx) as (l & -> & Hexp). cbn [rbind]. rewrite Hexp. cbn [rbind].
  destruct (sub_free_ok _ _ toks _ (si_full _ _ _ Hi)) as (f & E & Hok & Hs); [|done|].
  { intros q Hq. apply list_elem_of_fmap in Hq as (x & -> & Hin). by apply Hx. }
  rewrite E. cbn [rbind]. rewrite (sub_assert_ok _ _ _ Hok). cbn [assert_ rbind]. eexists. split; [done|].
  split; [destruct Hs as (? & _); by repeat split|].
  eapply full_give; [done|apply (used_split (spage_size a) toks)| |done|done].
  intros q Hq. apply list_elem_of_filter in Hq as [Hq _]. apply list_elem_of_fmap in Hq as (x & -> & Hin). by apply Hx.
Qed.

Definition pools_same (a a' : Swa) : Prop :=
  spage_size a' = spage_size a ∧ sfree_group a' = sfree_group a ∧
  sub_pages (full_attn_allocator a') = sub_pages (full_attn_allocator a) ∧
  sub_pages (swa_attn_allocator a') = sub_pages (swa_attn_allocator a).

Lemma sfree_ok a used pf toks : swa_inv a used pf → (∀ x, x ∈ toks → x / spage_size a ∈ used) →
  (spage_size a = 1 → NoDup toks ∧ ∀ x, x ∈ toks → at_ (full_to_swa_index_mapping a) x ≠ 0) →
  ∃ a', sfree level order a toks = Ok a' ∧ pools_same a a' ∧
    swa_inv a' (kept_of (spage_size a) toks used) (unpair (toks_pages (spage_size a) toks) pf).
Proof.
  intros Hi Hin H1. unfold sfree. destruct (Z.eqb_spec (zlen toks) 0) as [En|En].
  { apply zlen_nil_inv in En. subst toks. exists a. split; [done|]. rewrite kept_nil. split; [by repeat split|by eapply swa_inv_ext]. }
  destruct (free_swa_ok a used pf toks Hi Hin H1) as (b & -> & (Ef & Eps & Eg & _ & Es & _) & Hb). cbn [rbind].
  destruct (free_full_ok b used _ toks Hb) as (c & -> & (Es' & Eps' & Eg' & _ & Ef' & _) & Hc); rewrite Eps in *.
  - intros x Hx. split; [by apply Hin|]. unfold unpair. rewrite decide_True; [done|].
    by apply (list_elem_of_fmap_2 (λ x, x / spage_size a)).
  - intros E. by apply H1.
  - exists c. split; [done|]. split; [|done]. repeat split; congruence.
Qed.

Lemma free_full_segment_ok a used pf seg start rest : swa_inv a used pf →
  start mod spage_size a = 0 → used ≡ₚ segment_pages (spage_size a) seg ++ rest →
  (∀ x, x ∈ seg → x / spage_size a ∈ used ∧ pf (x / spage_size a) = 0) →
  ∃ a', free_full_segment level a seg start = Ok a' ∧ window_same a a' ∧ swa_inv a' rest pf.
Proof.
  intros Hi Hst Hu Hx. unfold free_full_segment. destruct (Z.eqb_spec (zlen seg) 0) as [En|En].
  { apply zlen_nil_inv in En. subst seg. cbn in Hu. exists a. split; [done|]. split; [by repeat split|].
    rewrite <- (with_full_same a). eapply (full_give a used pf [] rest); try done.
    - intros q Hq. by apply not_elem_of_nil in Hq.
    - rewrite <- Hu. apply Hi. }
  destruct (expect_unmapped a used pf seg Hi Hx) as (l & -> & Hexp). cbn [rbind]. rewrite Hexp. cbn [rbind].
  pose proof (si_full _ _ _ Hi) as Hf. rewrite Hu in Hf.
  destruct (sub_free_segment_ok _ _ seg start rest Hf Hst) as (f & -> & Hok & Hs). cbn [rbind]. eexists. split; [done|].
  split; [destruct Hs as (? & _); by repeat split|]. eapply full_give; [done|done| |done|done].
  intros q Hq. rewrite segment_reps in Hq. apply list_elem_of_fmap in Hq as (x & -> & Hin). apply Hx. by eapply every_nth_sub.
Qed.

Lemma sfree_segment_ok a used pf seg start rest : swa_inv a used pf →
  start mod spage_size a = 0 → used ≡ₚ segment_pages (spage_size a) seg ++ rest →
  (∀ r, r ∈ every_nth (length seg) (Z.to_nat (spage_size a)) seg → at_ (full_to_swa_index_mapping a) r ≠ 0) →
  ∃ a', sfree_segment level order a seg start = Ok a' ∧ spage_size a' = spage_size a ∧
    swa_inv a' rest (unpair (segment_pages (spage_size a) seg) pf).
Proof.
  intros Hi Hst Hu Hm. unfold sfree_segment. destruct (Z.eqb_spec (zlen seg) 0) as [En|En].
  { apply zlen_nil_inv in En. subst seg. cbn in Hu. exists a. split; [done|]. split; [done|]. eapply swa_inv_ext; [done|].
    rewrite <- (with_full_same a). eapply (full_give a used pf [] rest); try done.
    - intros q Hq. by apply not_elem_of_nil in Hq.
    - rewrite <- Hu. apply Hi. }
  destruct (free_swa_segment_ok a used pf seg start rest Hi Hst Hu Hm) as (b & -> & (Ef & Eps & _) & Hb). cbn [rbind].
  pose proof (si_full _ _ _ Hb) as Hf. rewrite Hu, Eps in Hf.
  destruct (sub_free_segment_ok _ _ seg start rest Hf Hst) as (f & -> & Hok & Hs). cbn [rbind]. eexists. split; [done|].
  split; [done|]. eapply full_give; [done|done| |by rewrite Eps|done]. intros q Hq. unfold unpair. by rewrite decide_True.
Qed.

(** *** Groups *)

Lemma sfree_group_begin_ok a used pf : swa_inv a used pf → sfree_group a = None →
  ∃ a', sfree_group_begin a = Ok a' ∧ spage_size a' = spage_size a ∧ sfree_group a' = Some [] ∧ swa_inv a' used pf.
Proof.
  intros [Hring Hf Hs Ht Hg Hc Htk] Eg. rewrite Eg in Hg. destruct Hg as (Ho & E1 & E2).
  unfold sfree_group_begin. rewrite Eg, bool_decide_true by done. cbn [assert_ rbind].
  destruct (sub_begin_ok _ _ _ Hf Ho) as (f & -> & Hok & P1 & P2 & P3). cbn [rbind]. eexists. split; [done|].
  split; [done|]. split; [done|]. split; cbn; try done.
  - unfold swa_waiting in *. cbn. by rewrite E1, E2 in Hs.
  - by rewrite P1.
Qed.

(** The pages that wait for the end of a group go back to the window pool. *)
Lemma flush_ids a B : _swa_req_ring a = false →
  sub_ok (spage_size a) (swa_attn_allocator a) ((tok_pend (spage_size a) (swa_free_group a) ++ mjoin (swa_page_ids_group a)) ++ B) →
  ∃ w, match swa_page_ids_group a with
       | [] => Ok a
       | ids =>
           if _swa_req_ring (with_groups (sfree_group a) (swa_free_group a) [] a) then Ok (with_groups (sfree_group a) (swa_free_group a) [] a)
           else let! w := sub_free_page_ids (swa_attn_allocator (with_groups (sfree_group a) (swa_free_group a) [] a)) (mjoin ids) in Ok (with_swa w (with_groups (sfree_group a) (swa_free_group a) [] a))
       end = Ok (with_swa w (with_groups (sfree_group a) (swa_free_group a) [] a)) ∧
    sub_ok (spage_size a) w (tok_pend (spage_size a) (swa_free_group a) ++ B) ∧ sub_same (swa_attn_allocator a) w.
Proof.
  intros Hring Hs. destruct (swa_page_ids_group a) as [|i ids] eqn:Ei.
  - exists (swa_attn_allocator a). cbn in Hs. rewrite app_nil_r in Hs. split; [destruct a; cbn in *; by subst|]. by repeat split.
  - cbn. rewrite Hring.
    destruct (sub_free_page_ids_ok (spage_size a) (swa_attn_allocator a) (mjoin (i :: ids))
      (tok_pend (spage_size a) (swa_free_group a) ++ B)) as (w & E & Hok & Hsame).
    { eapply sub_ok_perm; [|exact Hs]. set (x := tok_pend _ _). set (y := mjoin _). solve_Permutation. }
    exists w. cbn in E. rewrite E. done.
Qed.

Lemma flush_toks a B : (swa_free_group a ≠ [] → 1 < spage_size a) →
  sub_ok (spage_size a) (swa_attn_allocator a) (tok_pend (spage_size a) (swa_free_group a) ++ B) →
  ∃ w, match swa_free_group a with
       | [] => Ok a
       | toks => _release_swa (with_groups (sfree_group a) [] (swa_page_ids_group a) a) (mjoin toks)
       end = Ok (with_swa w (with_groups (sfree_group a) [] (swa_page_ids_group a) a)) ∧
    sub_ok (spage_size a) w B ∧ sub_same (swa_attn_allocator a) w.
Proof.
  intros Hps Hok. destruct (swa_free_group a) as [|t g] eqn:Eg.
  - exists (swa_attn_allocator a). split; [destruct a; cbn in *; by subst|]. by repeat split.
  - destruct (release_swa_ok (with_groups (sfree_group a) [] (swa_page_ids_group a) a) (mjoin (t :: g)) _ _ (Hps ltac:(done)) Hok)
      as (w & E & Hw & Hs).
    + intros q. unfold tok_pend. by rewrite elem_of_remove_dups.
    + exists w. split; [exact E|]. by split.
Qed.

Lemma sfree_group_end_ok a used pf : swa_inv a used pf →
  ∃ a', sfree_group_end level order a = Ok a' ∧ spage_size a' = spage_size a ∧ sfree_group a' = None ∧ swa_inv a' used pf.
Proof.
  intros Hi. pose proof Hi as [Hring Hf Hs Ht Hg Hc Htk]. unfold sfree_group_end.
  set (a0 := with_groups None (swa_free_group a) (swa_page_ids_group a) a).
  assert (match sfree_group a with Some ((_ :: _) as g) => sfree level order a0 (mjoin g) | _ => Ok a0 end = Ok a0) as ->.
  { destruct (sfree_group a) as [g|]; [|done]. destruct Hg as [_ ->]. done. }
  cbn [rbind]. destruct (flush_ids a0 _ Hring Hs) as (w & -> & Hw & S1 & _ & S3). cbn [rbind].
  set (a1 := with_swa w _). destruct (flush_toks a1 (peers pf used ++ lost_pages) Htk Hw) as (w' & -> & Hw' & S4 & _ & S6). cbn [rbind].
  set (a2 := with_swa w' _). destruct (sub_end_ok _ (full_attn_allocator a) used Hf) as (f & Ef & Hfo & P1 & P2 & P3).
  change (full_attn_allocator a2) with (full_attn_allocator a). rewrite Ef. cbn [rbind].
  rewrite (sub_assert_ok _ _ _ Hfo). change (swa_attn_allocator a2) with w'.
  rewrite (sub_assert_ok _ _ _ Hw'). cbn [assert_ rbind]. eexists. split; [done|]. split; [done|]. split; [done|].
  split; cbn; try done.
  - by rewrite P1.
  - rewrite S6. cbn. by rewrite S3.
Qed.
End window.
