(* ===== verification/SwaAlloc.v ===== *)
(** * Taking slots from both pools

    An extension or a decode step places its tokens on fresh pages of both pools
    at the same offsets, and enters the pairs in the table: the invariant of
    SwaPair.v is kept and every new slot has its window slot in step. *)
From S2P Require Import Prelude RadixKey EvictPolicy RadixCache TokenAllocator PagedKernels PagedAllocator.
From S2P Require Import KvRow KvTheorems KvAlloc KvPlace SwaAllocator SwaInv SwaKernel SwaPair.

(** ** New pairs *)

Fixpoint pair_new (fs qs : list Z) (pf : Z → Z) (f : Z) : Z :=
  match fs, qs with
  | f' :: fs, q :: qs => if decide (f = f') then q else pair_new fs qs pf f
  | _, _ => pf f
  end.

Lemma pair_new_other fs qs pf f : f ∉ fs → pair_new fs qs pf f = pf f.
Proof.
  revert qs. induction fs as [|f' fs IH]; intros [|q qs] Hf; cbn; try done. apply not_elem_of_cons in Hf as [Hne Hf].
  rewrite decide_False by done. by apply IH.
Qed.

Lemma pair_new_lookup fs qs pf k f q : NoDup fs → fs !! k = Some f → qs !! k = Some q → pair_new fs qs pf f = q.
Proof.
  revert qs k. induction fs as [|f' fs IH]; intros qs k Hnd Hf Hq; [done|]. apply NoDup_cons in Hnd as [Hn Hnd].
  destruct qs as [|q' qs]; [done|]. destruct k as [|k]; cbn in *.
  - injection Hf as ->. injection Hq as ->. by rewrite decide_True.
  - rewrite decide_False; [by eapply IH|]. intros ->. by apply Hn, (list_elem_of_lookup_2 _ k).
Qed.

Lemma fmap_pair_new fs qs pf : NoDup fs → length fs = length qs → pair_new fs qs pf <$> fs = qs.
Proof.
  intros Hnd Hl. apply list_eq. intros k. rewrite list_lookup_fmap. destruct (fs !! k) as [f|] eqn:Ef.
  - destruct (lookup_lt_is_Some_2 qs k) as [q Hq]. { rewrite <- Hl. by eapply lookup_lt_Some. }
    cbn. rewrite Hq. f_equal. by eapply pair_new_lookup.
  - symmetry. apply lookup_ge_None. apply lookup_ge_None in Ef. lia.
Qed.

Lemma peers_pair_new fs qs pf used : NoDup (fs ++ used) → length fs = length qs → Forall (λ q, 0 < q) qs →
  peers (pair_new fs qs pf) (fs ++ used) = qs ++ peers pf used.
Proof.
  intros Hnd Hl Hq. apply NoDup_app in Hnd as (Hnf & Hd & _). rewrite peers_app. f_equal.
  - rewrite peers_all; [by apply fmap_pair_new|]. intros f Hf. apply list_elem_of_lookup_1 in Hf as [k Hk].
    destruct (lookup_lt_is_Some_2 qs k) as [q Hqk]. { rewrite <- Hl. by eapply lookup_lt_Some. }
    rewrite (pair_new_lookup fs qs pf k f q Hnf Hk Hqk). rewrite Forall_lookup in Hq. by eapply Hq.
  - apply peers_ext. intros f Hf. apply pair_new_other. intros Hin. by apply (Hd f).
Qed.

(** ** Writing pairs *)

(** The window slot in step with a full slot. *)
Definition in_step (ps : Z) (pf : Z → Z) (x : Z) : Z := pf (x / ps) * ps + x mod ps.

Lemma table_set ps m n used pf pf' fs idx : table ps m n used pf →
  (∀ f, f ∈ fs → 1 ≤ f ≤ n ∧ f ∉ used) → (∀ f, f ∉ fs → pf' f = pf f) →
  (∀ f, f ∈ fs → pf' f = 0 ∨ 0 < pf' f ∧ f * ps ∈ idx) →
  (∀ x, x ∈ idx → x / ps ∈ fs ++ used ∧ pf' (x / ps) ≠ 0) →
  ∃ m', scatter m idx (in_step ps pf' <$> idx) = Ok m' ∧ table ps m' n (fs ++ used) pf' ∧ zlen m' = zlen m ∧
    ∀ x, 0 ≤ x < (n + 1) * ps → at_ m' x = if decide (x ∈ idx) then in_step ps pf' x else at_ m x.
Proof.
  intros Ht Hfs Hold Hnew Hidx. pose proof Ht as [Hps Hlen Hlast Hused Hpf Hrep Hslot].
  assert (∀ f, f ∈ fs ++ used → 1 ≤ f ≤ n) as Hused'.
  { intros f. rewrite elem_of_app. intros [Hf|Hf]; [by apply Hfs|by apply Hused]. }
  assert (∀ x, x ∈ idx → 0 ≤ x < (n + 1) * ps) as Hir.
  { intros x Hx. destruct (Hidx x Hx) as [Hf _]. apply Hused' in Hf. pose proof (Z.div_mod x ps ltac:(lia)).
    pose proof (Z.mod_pos_bound x ps ltac:(lia)). nia. }
  destruct (scatter_ok m idx (in_step ps pf')) as (m' & E & Hl & Hat).
  { apply Forall_forall. intros x Hx. apply Hir in Hx. unfold in_range. lia. }
  assert (zlen m' = zlen m) as El by (unfold zlen; by rewrite Hl).
  assert (∀ x, 0 ≤ x < (n + 1) * ps → at_ m' x = if decide (x ∈ idx) then in_step ps pf' x else at_ m x) as Hat'.
  { intros x Hx. apply Hat. unfold in_range. lia. }
  exists m'. split; [done|]. split; [|done]. split; try done.
  - lia.
  - assert (0 < zlen m) as Hpos.
    { destruct m; [|unfold zlen; cbn; lia]. unfold zlen, at_ in Hlast. cbn in Hlast. discriminate. }
    rewrite El, Hat by (unfold in_range; lia). rewrite decide_False; [done|]. intros Hx%Hir. lia.
  - intros f. destruct (decide (f ∈ fs)) as [Hf|Hf].
    + split; [|intros _; rewrite elem_of_app; by left]. destruct (Hnew f Hf) as [->|[? _]]; lia.
    + rewrite Hold by done. rewrite elem_of_app. destruct (Hpf f). tauto.
  - intros f Hf. pose proof (Hused' f Hf). rewrite Hat' by nia. unfold in_step.
    rewrite Z.div_mul, Z_mod_mult, Z.add_0_r by lia. destruct (decide (f * ps ∈ idx)) as [|Hn]; [done|].
    destruct (decide (f ∈ fs)) as [Hin|Hin].
    + destruct (Hnew f Hin) as [->|[_ ?]]; [|done]. destruct (Hfs f Hin) as [_ Hnu].
      destruct (Hslot (f * ps) ltac:(nia)) as [->|[Hne _]]; [done|]. rewrite Z.div_mul in Hne by lia. by destruct Hnu; apply Hpf.
    + rewrite Hold by done. apply Hrep. apply elem_of_app in Hf as [?|?]; done.
  - intros x Hx. rewrite Hat' by done. case_decide as Hxi.
    + right. split; [by apply Hidx|done].
    + destruct (Hslot x Hx) as [|[Hne E']]; [by left|]. right. assert (x / ps ∉ fs) as Hnf.
      { intros Hin. destruct (Hfs _ Hin) as [_ Hnu]. by apply Hnu, Hpf. }
      by rewrite Hold.
Qed.

(** ** Placing on both pools *)

(** [m[i]] where [i] may be -1. *)
Definition gat (m : list Z) (i : Z) : Z := if i <? 0 then at_ m (zlen m + i) else at_ m i.

Lemma gather_gat m idx : m ≠ [] → Forall (λ i, i = -1 ∨ in_range m i) idx → gather m idx = Ok (gat m <$> idx).
Proof.
  intros Hm Hf. unfold gather. replace (mapM _ idx) with (Some (gat m <$> idx)); [done|]. symmetry.
  assert (0 < zlen m) by (destruct m; [done|unfold zlen; cbn; lia]).
  induction Hf as [|i idx Hi Hf IH]; [done|]. cbn.
  assert (tensor_index m i ≫= (λ n, m !! n) = Some (gat m i)) as ->; [|cbn; by rewrite IH].
  destruct Hi as [->|Hi].
  - unfold tensor_index, gat. cbn [Z.leb Z.ltb Z.compare andb]. rewrite (proj2 (Z.leb_le _ _)) by lia. cbn.
    rewrite lookup_at; [done|unfold in_range; lia].
  - rewrite tensor_index_in by done. cbn. rewrite lookup_at by done. unfold gat. unfold in_range in Hi.
    by rewrite (proj2 (Z.ltb_ge _ _)) by lia.
Qed.

(** The request as the window pool sees it. *)
Definition follow (m : list Z) (r : req) : req := mkReq (r_prefix r) (r_seq r) (gat m (r_last r)).

(** A request continues a page in the middle only after a slot with a window slot. *)
Definition linked (ps : Z) (m used : list Z) (r : req) : Prop :=
  (r_last r = -1 ∨ in_range m (r_last r)) ∧
  (r_prefix r mod ps ≠ 0 →
     (r_last r + 1) mod ps = r_prefix r mod ps ∧ r_last r / ps ∈ used ∧ at_ m (r_last r) ≠ 0).

Lemma linked_fits ps m used r : linked ps m used r → last_fits ps r.
Proof. intros [_ H] Hm. by apply H. Qed.

Section pairing.
Context (ps : Z) (m : list Z) (n : Z) (used : list Z) (pf : Z → Z) (Ht : table ps m n used pf).
Context (freeF freeS fs qs : list Z) (need : Z).
Context (Hfs : ∀ j, 0 ≤ j < need → fs !! Z.to_nat j = Some (at_ freeF j)).
Context (Hqs : ∀ j, 0 ≤ j < need → qs !! Z.to_nat j = Some (at_ freeS j)).
Context (Hnd : NoDup (fs ++ used)) (Hpos : Forall (λ q, 0 < q) qs).

Definition paired_slot (x : Z) : Prop := x / ps ∈ fs ++ used ∧ pair_new fs qs pf (x / ps) ≠ 0.

Lemma place_pair r k t : 0 ≤ r_prefix r ≤ r_seq r → linked ps m used r → 0 ≤ t < ext r → 0 ≤ k → k + new_pages ps r ≤ need →
  place ps freeS (follow m r) k t = in_step ps (pair_new fs qs pf) (place ps freeF r k t) ∧
  paired_slot (place ps freeF r k t).
Proof.
  intros Hr [Hrange Hlink] Htt Hk Hneed. pose proof (tb_ps _ _ _ _ _ Ht) as Hps. unfold place, follow, paired_slot, in_step. cbn.
  destruct (Z.ltb_spec (r_prefix r + t) (ceil_align (r_prefix r) ps)) as [Hlt|Hge].
  - assert (r_prefix r mod ps ≠ 0) as Hm.
    { intros Hm%Z.mod_divide; [|lia]. rewrite ceil_align_id in Hlt by done. lia. }
    destruct (Hlink Hm) as (Hfit & Hu & Hne). destruct (same_page ps r t Hps ltac:(lia) Hlt Hfit) as [E1 E2]. rewrite E1, E2.
    pose proof (slot_range _ _ _ _ _ _ Ht Hu) as Hir. unfold gat. rewrite (proj2 (Z.ltb_ge _ _)) by lia.
    destruct (tb_slot _ _ _ _ _ Ht _ Hir) as [|[Hp E]]; [done|].
    apply NoDup_app in Hnd as (_ & Hd & _). rewrite pair_new_other by (intros Hin; by apply (Hd _ Hin)).
    split; [lia|]. split; [rewrite elem_of_app; by right|done].
  - pose proof (fresh_page_index ps r t Hps ltac:(lia) Htt Hge) as Hix. set (j := (r_prefix r + t) / ps - _) in *.
    pose proof (Hfs (k + j) ltac:(lia)) as Hf. pose proof (Hqs (k + j) ltac:(lia)) as Hq.
    pose proof (Z.mod_pos_bound (r_prefix r + t) ps Hps) as Hb. set (o := (r_prefix r + t) mod ps) in *.
    assert ((at_ freeF (k + j) * ps + o) / ps = at_ freeF (k + j)) as E1.
    { rewrite Z.add_comm, Z.div_add, Z.div_small by lia. lia. }
    assert ((at_ freeF (k + j) * ps + o) mod ps = o) as E2.
    { rewrite Z.add_comm, Z.mod_add, Z.mod_small by lia. lia. }
    rewrite E1, E2. apply NoDup_app in Hnd as (Hnf & _ & _). rewrite (pair_new_lookup fs qs pf _ _ _ Hnf Hf Hq).
    split; [done|]. split; [rewrite elem_of_app; left; by eapply list_elem_of_lookup_2|].
    rewrite Forall_lookup in Hpos. apply Hpos in Hq. lia.
Qed.

Lemma batch_pair rs k : batch_ok rs → Forall (linked ps m used) rs → 0 ≤ k → k + sum_pages ps rs ≤ need →
  place_batch ps freeS (follow m <$> rs) k = in_step ps (pair_new fs qs pf) <$> place_batch ps freeF rs k ∧
  Forall paired_slot (place_batch ps freeF rs k).
Proof.
  intros Hb. revert k. induction Hb as [|r rs Hr Hb IH]; intros k Hl Hk Hn; [done|]. apply Forall_cons in Hl as [Hl1 Hl2].
  pose proof (tb_ps _ _ _ _ _ Ht) as Hps. pose proof (new_pages_nonneg ps Hps r Hr). pose proof (sum_pages_nonneg ps rs Hps Hb).
  change (sum_pages ps (r :: rs)) with (new_pages ps r + sum_pages ps rs) in Hn.
  destruct (IH (k + new_pages ps r) Hl2 ltac:(lia) ltac:(lia)) as [E1 E2].
  rewrite fmap_cons. cbn [place_batch]. change (new_pages ps (follow m r)) with (new_pages ps r). rewrite E1, fmap_app.
  rewrite Forall_app. split; [f_equal|split; [|done]].
  - unfold place_req. change (ext (follow m r)) with (ext r). rewrite <- list_fmap_compose. apply list_fmap_ext.
    intros i t Hit. apply list_elem_of_lookup_2, elem_of_seqZ in Hit. unfold compose. apply place_pair; try done; lia.
  - unfold place_req. apply Forall_fmap, Forall_forall. intros t Hit. apply elem_of_seqZ in Hit. apply place_pair; try done; lia.
Qed.
End pairing.

Lemma follow_batch m (rs : list req) :
  r_prefix <$> (follow m <$> rs) = r_prefix <$> rs ∧ r_seq <$> (follow m <$> rs) = r_seq <$> rs ∧
  r_last <$> (follow m <$> rs) = gat m <$> (r_last <$> rs).
Proof. by rewrite <- !list_fmap_compose. Qed.

Lemma follow_sums m (rs : list req) : sum_ext (follow m <$> rs) = sum_ext rs ∧ ∀ ps, sum_pages ps (follow m <$> rs) = sum_pages ps rs.
Proof. unfold sum_ext, sum_pages. split; [|intros ps]; by rewrite <- list_fmap_compose. Qed.

Lemma follow_ok m rs : batch_ok rs → batch_ok (follow m <$> rs).
Proof. intros Hb. apply Forall_fmap. eapply Forall_impl; [exact Hb|]. done. Qed.

Section commit.
Context {L : Lost}.

(** Fresh pages of both pools are entered in the table; those of [bare] get no
    window page. *)
Lemma commit_pairs a used pf bare fs qs idx f w : swa_inv a used pf →
  let ps := spage_size a in let m := full_to_swa_index_mapping a in let pf' := pair_new fs qs pf in
  length fs = length qs →
  sub_ok ps f (bare ++ fs ++ used) → sub_same (full_attn_allocator a) f →
  sub_ok ps w (qs ++ swa_waiting a ++ peers pf used ++ lost_pages) → sub_same (swa_attn_allocator a) w →
  (∀ q, q ∈ fs → q * ps ∈ idx) → Forall (paired_slot ps used pf fs qs) idx →
  ∃ m', scatter m idx (in_step ps pf' <$> idx) = Ok m' ∧
    swa_inv (with_mapping m' (with_full f (with_swa w a))) (bare ++ fs ++ used) pf' ∧
    Forall (λ x, in_range m' x ∧ at_ m' x = in_step ps pf' x ∧ pf' (x / ps) ≠ 0) idx.
Proof.
  intros Hi ps m pf' El HokF SF HokS SS Hheads Hpair. pose proof Hi as [Hring Hf Hs Ht Hg Hc Htk]. fold ps m in Ht.
  pose proof (sub_ok_nodup _ _ _ HokF) as Hnd. rewrite Forall_forall in Hpair.
  apply NoDup_app in Hnd as (Hnb & Hdb & Hnd). pose proof Hnd as (Hnf & Hdf & _)%NoDup_app.
  assert (Forall (λ q, 0 < q) qs) as Hpos.
  { apply Forall_forall. intros q Hq. enough (1 ≤ q ≤ sub_pages w) by lia. eapply sub_ok_range; [done|]. rewrite elem_of_app. by left. }
  assert (∀ q, q ∈ bare → pf' q = 0) as Hbare.
  { intros q Hq. pose proof (Hdb q Hq) as Hn. rewrite elem_of_app in Hn. unfold pf'. rewrite pair_new_other by tauto.
    destruct (tb_pf _ _ _ _ _ Ht q) as [_ Hu]. destruct (decide (pf q = 0)); [done|]. tauto. }
  destruct (table_set ps m _ used pf pf' (bare ++ fs) idx Ht) as (m' & Em & Ht' & Hlen & Hat).
  { intros q Hq. destruct SF as (<- & _). split; [eapply sub_ok_range; [done|]; rewrite elem_of_app in *; set_solver|].
    apply elem_of_app in Hq as [Hq|Hq]; [|by apply Hdf]. pose proof (Hdb q Hq) as Hn. rewrite elem_of_app in Hn. tauto. }
  { intros q Hq. rewrite elem_of_app in Hq. apply pair_new_other. tauto. }
  { intros q [Hq|Hq]%elem_of_app; [left; by apply Hbare|]. right. split; [|by apply Hheads].
    apply list_elem_of_lookup_1 in Hq as [k Hk]. destruct (lookup_lt_is_Some_2 qs k) as [z Hz].
    { apply lookup_lt_Some in Hk. lia. }
    unfold pf'. rewrite (pair_new_lookup _ _ _ _ _ _ Hnf Hk Hz). rewrite Forall_lookup in Hpos. by eapply Hpos. }
  { intros x Hx. destruct (Hpair x Hx) as [Hx1 Hx2]. split; [|done]. rewrite !elem_of_app in *. tauto. }
  rewrite <- app_assoc in Ht'. exists m'. split; [done|]. split.
  - destruct SF as (P1 & P2 & P3), SS as (Q1 & Q2 & Q3). split; cbn; try done.
    + change (swa_waiting _) with (swa_waiting a). rewrite peers_app, (peers_none pf' bare Hbare). unfold pf'.
      rewrite peers_pair_new by done.
      eapply sub_ok_perm; [|exact HokS]. rewrite <- app_assoc. set (x := swa_waiting a). set (y := peers _ _). set (u := lost_pages). cbn. solve_Permutation.
    + by rewrite P1.
    + by rewrite P3.
    + by rewrite Q3.
  - apply Forall_forall. intros x Hx. destruct (Hpair x Hx) as [Hx1 Hx2].
    assert (0 ≤ x < (sub_pages (full_attn_allocator a) + 1) * ps) as Hr.
    { eapply slot_range; [exact Ht'|]. rewrite elem_of_app. by right. }
    split; [eapply table_in_range; [exact Ht'|done]|]. split; [|done]. rewrite Hat by done. by rewrite decide_True.
Qed.

(** Both pools placed a batch: the pairs are written and everything is in step. *)
Lemma commit_ok a used pf rs outF outS f w : swa_inv a used pf → batch_ok rs →
  let ps := spage_size a in let m := full_to_swa_index_mapping a in let need := sum_pages ps rs in
  Forall (linked ps m used) rs →
  sub_placed ps (full_attn_allocator a) used rs need outF f →
  sub_placed ps (swa_attn_allocator a) (swa_waiting a ++ peers pf used ++ lost_pages) (follow m <$> rs) need outS w →
  ∃ fs qs m', zlen fs = need ∧ zlen qs = need ∧ zlen outF = zlen outS ∧ zlen outF = sum_ext rs ∧
    scatter m outF outS = Ok m' ∧ (∀ q, q ∈ fs → q * ps ∈ outF) ∧ Forall (λ q, 0 < q) qs ∧
    swa_inv (with_mapping m' (with_full f (with_swa w a))) (fs ++ used) (pair_new fs qs pf) ∧
    Forall (λ x, in_range m' x ∧ at_ m' x = in_step ps (pair_new fs qs pf) x ∧ pair_new fs qs pf (x / ps) ≠ 0) outF.
Proof.
  intros Hi Hb ps m need Hl (freeF & HlF & H0 & -> & HokF & SF) (freeS & HlS & _ & -> & HokS & SS).
  pose proof (si_table _ _ _ Hi) as Ht. fold ps m in Ht. set (fs := pytake freeF need) in *. set (qs := pytake freeS need) in *.
  assert (Forall (λ q, 0 < q) qs) as Hpos.
  { apply Forall_forall. intros q Hq. enough (1 ≤ q ≤ sub_pages w) by lia. eapply sub_ok_range; [done|]. rewrite elem_of_app. by left. }
  destruct (batch_pair ps m _ used pf Ht freeF freeS fs qs need) with rs 0 as [E Hpair]; try done; try lia.
  { intros j Hj. by apply pytake_index. }
  { intros j Hj. by apply pytake_index. }
  { by eapply sub_ok_nodup. }
  assert (∀ q, q ∈ fs → q * ps ∈ place_batch ps freeF rs 0) as Hheads.
  { intros q Hq. apply fresh_heads; try done. by eapply tb_ps. }
  destruct (commit_pairs a used pf [] fs qs (place_batch ps freeF rs 0) f w Hi) as (m' & Em & Hinv & Hout); try done.
  { unfold zlen in *. lia. }
  exists fs, qs, m'. rewrite E. split_and!; try done; [unfold zlen; by rewrite length_fmap|by apply length_place_batch].
Qed.

(** ** The operations *)

Lemma get_num_new_pages_eq ps rs : get_num_new_pages (r_seq <$> rs) ps (Some (r_prefix <$> rs)) false = Ok (sum_pages ps rs).
Proof. cbn. by rewrite zip_with_fmap_same. Qed.

(** What an allocation of both pools gives: fresh pages of the full pool, each
    with a fresh window page, and slots whose window slots are in step. *)
Definition taken_in_step (a : Swa) (used : list Z) (pf : Z → Z) (need : Z) (out : list Z) (a' : Swa) : Prop :=
  pools_same a a' ∧
  ∃ fs qs, zlen fs = need ∧ zlen qs = need ∧ (∀ q, q ∈ fs → q * spage_size a ∈ out) ∧ Forall (λ q, 0 < q) qs ∧
    swa_inv a' (fs ++ used) (pair_new fs qs pf) ∧
    translate_loc_from_full_to_swa a' out = Ok (in_step (spage_size a) (pair_new fs qs pf) <$> out) ∧
    Forall (λ x, pair_new fs qs pf (x / spage_size a) ≠ 0) out.

Lemma translate_committed a m' (g : Z → Z) out : full_to_swa_index_mapping a = m' →
  Forall (λ x, in_range m' x ∧ at_ m' x = g x) out → translate_loc_from_full_to_swa a out = Ok (g <$> out).
Proof.
  intros E Hf. unfold translate_loc_from_full_to_swa. rewrite E, gather_ok; [f_equal|].
  - apply list_fmap_ext. intros i x Hx. rewrite Forall_lookup in Hf. by apply (Hf i x Hx).
  - eapply Forall_impl; [done|]. by intros x [? _].
Qed.

Lemma set_mapping_scatter a full swa m' : zlen full = zlen swa →
  scatter (full_to_swa_index_mapping a) full swa = Ok m' →
  set_full_to_swa_mapping a full swa = Ok (with_mapping m' a).
Proof.
  intros Hl E. unfold set_full_to_swa_mapping. destruct (Z.eqb_spec (zlen full) 0) as [E0|E0].
  - apply zlen_nil_inv in E0. subst full. cbn in E. injection E as <-. by rewrite with_mapping_same.
  - rewrite (proj2 (Z.eqb_eq _ _) Hl). cbn [assert_ rbind]. by rewrite E.
Qed.

Lemma taken_ok a used pf rs outF outS f w : swa_inv a used pf → batch_ok rs →
  Forall (linked (spage_size a) (full_to_swa_index_mapping a) used) rs →
  sub_placed (spage_size a) (full_attn_allocator a) used rs (sum_pages (spage_size a) rs) outF f →
  sub_placed (spage_size a) (swa_attn_allocator a) (swa_waiting a ++ peers pf used ++ lost_pages)
    (follow (full_to_swa_index_mapping a) <$> rs) (sum_pages (spage_size a) rs) outS w →
  ∃ m', scatter (full_to_swa_index_mapping a) outF outS = Ok m' ∧ zlen outF = zlen outS ∧ zlen outF = sum_ext rs ∧
    taken_in_step a used pf (sum_pages (spage_size a) rs) outF (with_mapping m' (with_full f (with_swa w a))).
Proof.
  intros Hi Hb Hl HF HS. destruct (commit_ok a used pf rs outF outS f w Hi Hb Hl HF HS)
    as (fs & qs & m' & H1 & H2 & H3 & H4 & Em & Hh & Hpos & Hinv & Hout).
  destruct HF as (_ & _ & _ & _ & _ & SF & _), HS as (_ & _ & _ & _ & _ & SS & _).
  exists m'. split; [done|]. split; [done|]. split; [done|]. split; [by repeat split|]. exists fs, qs.
  do 5 (split; [done|]). split.
  - eapply translate_committed; [done|]. eapply Forall_impl; [done|]. by intros x (? & ? & _).
  - eapply Forall_impl; [done|]. by intros x (_ & _ & ?).
Qed.

(** Page size 1: as many slots of both pools as asked, paired in order. *)
Lemma salloc_ok a used pf need : swa_inv a used pf → spage_size a = 1 → 0 ≤ need →
  let room := Z.min (sub_available_size (full_attn_allocator a)) (sub_available_size (swa_attn_allocator a)) in
  match salloc a need with
  | Ok (None, a') => room < need ∧ a' = a
  | Ok (Some out, a') => need ≤ room ∧ zlen out = need ∧ taken_in_step a used pf need out a'
  | Raise _ => False
  end.
Proof.
  intros Hi E1 Hn room. unfold salloc. rewrite E1. cbn [Z.eqb Pos.eqb assert_ rbind].
  destruct (Z.ltb_spec (sub_available_size (full_attn_allocator a)) need); [split; [lia|done]|].
  destruct (Z.ltb_spec (sub_available_size (swa_attn_allocator a)) need); [split; [lia|done]|].
  pose proof (si_full _ _ _ Hi) as Hf. pose proof (si_swa _ _ _ Hi) as Hs. rewrite E1 in Hf, Hs.
  destruct (sub_alloc_ok _ need _ Hf ltac:(lia)) as (fs & f & -> & Lf & HokF & SF). cbn [rbind].
  destruct (sub_alloc_ok _ need _ Hs ltac:(lia)) as (qs & w & -> & Lq & HokS & SS). cbn [rbind some_or_fail].
  rewrite <- E1 in HokF, HokS. pose proof (sub_ok_nodup _ _ _ HokF) as Hnd. apply NoDup_app in Hnd as (Hnf & _ & _).
  assert (length fs = length qs) as El by (unfold zlen in *; lia).
  assert (∀ q, q ∈ qs → 0 < q) as Hpos.
  { intros q Hq. enough (1 ≤ q ≤ sub_pages w) by lia. eapply sub_ok_range; [done|]. rewrite elem_of_app. by left. }
  destruct (commit_pairs a used pf [] fs qs fs f w Hi El HokF SF HokS SS) as (m' & Em & Hinv & Hout).
  { intros q Hq. by rewrite E1, Z.mul_1_r. }
  { apply Forall_forall. intros x Hx. unfold paired_slot. rewrite E1, Z.div_1_r. split; [rewrite elem_of_app; by left|].
    apply list_elem_of_lookup_1 in Hx as [k Hk]. destruct (lookup_lt_is_Some_2 qs k) as [q Hq]; [apply lookup_lt_Some in Hk; lia|].
    rewrite (pair_new_lookup _ _ _ _ _ _ Hnf Hk Hq). apply list_elem_of_lookup_2, Hpos in Hq. lia. }
  assert (in_step (spage_size a) (pair_new fs qs pf) <$> fs = qs) as Eq.
  { rewrite <- (fmap_pair_new fs qs pf Hnf El) at 2. apply list_fmap_ext. intros i x _. unfold in_step.
    rewrite E1, Z.div_1_r, Z.mod_1_r. lia. }
  rewrite Eq in Em. rewrite (set_mapping_scatter (with_full f (with_swa w a)) fs qs m'); [|by rewrite Lf, Lq|done].
  cbn [rbind]. split; [lia|]. split; [done|].
  split; [destruct SF as (? & _), SS as (? & _); by repeat split|]. exists fs, qs. split_and!; try done.
  - intros q Hq. by rewrite E1, Z.mul_1_r.
  - by apply Forall_forall.
  - eapply translate_committed; [done|]. eapply Forall_impl; [done|]. by intros x (? & ? & _).
  - eapply Forall_impl; [done|]. by intros x (_ & _ & ?).
Qed.

End commit.

Section operations.
Context {L : Lost}.
Context (lightop_alloc_extend : Z → list Z → list Z → list Z → list Z → list Z → Z → list Z).
Context (oob : Z).
Context (He : lightop_extend_ok lightop_alloc_extend).

Lemma linked_gather a used pf rs : swa_inv a used pf → Forall (linked (spage_size a) (full_to_swa_index_mapping a) used) rs →
  translate_loc_from_full_to_swa a (r_last <$> rs) = Ok (r_last <$> (follow (full_to_swa_index_mapping a) <$> rs)).
Proof.
  intros Hi Hl. rewrite (proj2 (proj2 (follow_batch _ rs))). apply gather_gat.
  - intros E. pose proof (tb_last _ _ _ _ _ (si_table _ _ _ Hi)) as H. by rewrite E in H.
  - apply Forall_fmap. eapply Forall_impl; [done|]. by intros r [? _].
Qed.

Lemma pages_available a need : _swa_req_ring a = false →
  new_pages_available a need need
  = bool_decide (need ≤ Z.min (sub_available_size (full_attn_allocator a) / spage_size a)
                          (sub_available_size (swa_attn_allocator a) / spage_size a)).
Proof.
  intros Hr. unfold new_pages_available. rewrite Hr. case_bool_decide; zbool; done || lia.
Qed.

Lemma salloc_extend_ok a used pf rs : swa_inv a used pf → 1 < spage_size a → batch_ok rs →
  Forall (linked (spage_size a) (full_to_swa_index_mapping a) used) rs →
  let need := sum_pages (spage_size a) rs in
  let room := Z.min (sub_available_size (full_attn_allocator a) / spage_size a)
                    (sub_available_size (swa_attn_allocator a) / spage_size a) in
  match salloc_extend lightop_alloc_extend oob a (r_prefix <$> rs) (r_seq <$> rs) (r_last <$> rs) (sum_ext rs) with
  | Ok (None, a') => room < need ∧ a' = a
  | Ok (Some out, a') => need ≤ room ∧ zlen out = sum_ext rs ∧ taken_in_step a used pf need out a'
  | Raise _ => False
  end.
Proof.
  intros Hi Hps Hb Hl need room. unfold salloc_extend. rewrite (proj2 (Z.ltb_lt _ _) Hps). cbn [assert_ rbind].
  rewrite get_num_new_pages_eq. cbn [rbind]. fold need. rewrite (si_ring _ _ _ Hi).
  rewrite pages_available by apply Hi. fold room. case_bool_decide as Hle; cbn [negb]; [|split; [lia|done]].
  rewrite (linked_gather a used pf rs Hi Hl). cbn [rbind]. set (m := full_to_swa_index_mapping a) in *.
  destruct (sub_extend_ok lightop_alloc_extend oob He _ _ _ rs (si_full _ _ _ Hi) Hps Hb ltac:(unfold room in *; lia))
    as (outF & f & EF & HF). fold need in EF, HF. rewrite EF. cbn [rbind].
  destruct (follow_batch m rs) as (F1 & F2 & _), (follow_sums m rs) as [F3 F4].
  pose proof (sub_extend_ok lightop_alloc_extend oob He _ _ _ (follow m <$> rs) (si_swa _ _ _ Hi) Hps (follow_ok m rs Hb)) as HS.
  cbv zeta in HS. rewrite F1, F2, F3, F4 in HS. fold need in HS.
  destruct (HS ltac:(unfold room in *; lia)) as (outS & w & -> & HS'). cbn [rbind some_or_fail].
  destruct (taken_ok a used pf rs outF outS f w Hi Hb Hl HF HS') as (m' & Em & El & Els & Htk).
  rewrite (set_mapping_scatter (with_full f (with_swa w a)) _ _ m' El Em). cbn [rbind].
  split; [done|]. split; [done|]. exact Htk.
Qed.

(** A request that continues a page in step with its window page continues
    that page in the window pool. *)
Lemma linked_continues a used pf r : swa_inv a used pf → linked (spage_size a) (full_to_swa_index_mapping a) used r →
  continues (spage_size a) used r ∧
  continues (spage_size a) (swa_waiting a ++ peers pf used ++ lost_pages) (follow (full_to_swa_index_mapping a) r).
Proof.
  intros Hi [_ Hl]. pose proof (si_table _ _ _ Hi) as Ht. pose proof (tb_ps _ _ _ _ _ Ht) as Hps. split; intros Hm; cbn in Hm.
  - by destruct (Hl Hm) as (? & ? & _).
  - destruct (Hl Hm) as (Hfit & Hu & Hne). cbn. pose proof (slot_range _ _ _ _ _ _ Ht Hu) as Hir. unfold gat.
    rewrite (proj2 (Z.ltb_ge _ _)) by lia. destruct (tb_slot _ _ _ _ _ Ht _ Hir) as [|[Hp ->]]; [done|].
    pose proof (Z.mod_pos_bound (r_last r) (spage_size a) Hps). destruct (tb_pf _ _ _ _ _ Ht (r_last r / spage_size a)) as [H0 _]. split.
    + rewrite <- Z.add_assoc, Z.add_comm, Z.mod_add by lia. rewrite <- Hfit. rewrite Z.add_mod_idemp_l by lia. done.
    + rewrite (Z.add_comm (_ * _)), Z.div_add, Z.div_small by lia. rewrite Z.add_0_l, !elem_of_app, elem_of_peers. right. left. split; [lia|].
      by exists (r_last r / spage_size a).
Qed.

(** The requests of a decode step. *)
Definition decode_linked (a : Swa) (used : list Z) (ds : list (Z * Z)) : Prop :=
  Forall (λ d : Z * Z, 1 ≤ d.1) ds ∧
  Forall (linked (spage_size a) (full_to_swa_index_mapping a) used) (decode_req <$> ds).

(** The batch of the window pool in a decode step. *)
Definition follow_decode (m : list Z) (ds : list (Z * Z)) : list (Z * Z) := (λ d, (d.1, gat m d.2)) <$> ds.

Lemma follow_decode_eq m ds :
  (follow_decode m ds).*1 = ds.*1 ∧ (follow_decode m ds).*2 = gat m <$> ds.*2 ∧
  decode_req <$> follow_decode m ds = follow m <$> (decode_req <$> ds) ∧
  (∀ ps, decode_pages ps (follow_decode m ds) = decode_pages ps ds).
Proof. unfold follow_decode, decode_pages. split_and!; [..|intros ps]; by rewrite <- !list_fmap_compose. Qed.

(** [alloc_decode] asks each pool in turn: with pages in both, it takes from
    both; when one is short it answers [None], and the pages the other gave are
    in no pair. *)
Lemma salloc_decode_ok a used pf ds : swa_inv a used pf → 1 < spage_size a → decode_linked a used ds →
  let need := decode_pages (spage_size a) ds in
  let room_full := sub_available_size (full_attn_allocator a) / spage_size a in
  let room_swa := sub_available_size (swa_attn_allocator a) / spage_size a in
  match salloc_decode oob a (ds.*1) (ds.*2) with
  | Ok (None, a') => (room_full < need ∨ room_swa < need) ∧
      full_to_swa_index_mapping a' = full_to_swa_index_mapping a ∧
      ∃ fs qs, zlen fs = (if decide (need ≤ room_full) then need else 0) ∧
        zlen qs = (if decide (need ≤ room_swa) then need else 0) ∧
        sub_ok (spage_size a) (full_attn_allocator a') (fs ++ used) ∧ sub_same (full_attn_allocator a) (full_attn_allocator a') ∧
        sub_ok (spage_size a) (swa_attn_allocator a') (qs ++ swa_waiting a ++ peers pf used ++ lost_pages) ∧
        sub_same (swa_attn_allocator a) (swa_attn_allocator a')
  | Ok (Some out, a') => need ≤ room_full ∧ need ≤ room_swa ∧ zlen out = zlen ds ∧ taken_in_step a used pf need out a'
  | Raise _ => False
  end.
Proof.
  intros Hi Hps [Hf Hl] need room_full room_swa. unfold salloc_decode. rewrite (proj2 (Z.ltb_lt _ _) Hps). cbn [assert_ rbind].
  rewrite (si_ring _ _ _ Hi). set (m := full_to_swa_index_mapping a) in *.
  destruct (follow_decode_eq m ds) as (F1 & F2 & F3 & F4).
  pose proof (linked_gather a used pf _ Hi Hl) as Hg. rewrite <- list_fmap_compose in Hg.
  change (r_last ∘ decode_req) with (@snd Z Z) in Hg. rewrite Hg. cbn [rbind].
  assert (r_last <$> (follow (full_to_swa_index_mapping a) <$> (decode_req <$> ds)) = (follow_decode m ds).*2) as ->.
  { rewrite F2, <- !list_fmap_compose. done. }
  assert (Forall (continues (spage_size a) used) (decode_req <$> ds)) as HcF.
  { eapply Forall_impl; [exact Hl|]. intros r Hr. by eapply linked_continues. }
  assert (Forall (continues (spage_size a) (swa_waiting a ++ peers pf used ++ lost_pages)) (decode_req <$> follow_decode m ds)) as HcS.
  { rewrite F3. apply Forall_fmap. eapply Forall_impl; [exact Hl|]. intros r Hr. by eapply linked_continues. }
  destruct (sub_decode_ok oob _ _ _ ds (si_full _ _ _ Hi) Hps Hf HcF) as (oF & f & EF & HF).
  rewrite EF. cbn [rbind]. fold need room_full in HF.
  assert (Forall (λ d : Z * Z, 1 ≤ d.1) (follow_decode m ds)) as Hf'.
  { apply Forall_fmap. eapply Forall_impl; [exact Hf|]. done. }
  destruct (sub_decode_ok oob _ _ _ _ (si_swa _ _ _ Hi) Hps Hf' HcS) as (oS & w & ES & HS).
  rewrite F1 in ES. rewrite ES. cbn [rbind]. rewrite F3, F4 in HS. fold need room_swa in HS.
  pose proof (decode_sum_pages (spage_size a) ds ltac:(lia) Hf) as En. fold need in En.
  destruct oF as [outF|], oS as [outS|].
  - destruct HF as [HF1 HF2], HS as [HS1 HS2]. rewrite <- En in HF2, HS2 |- *.
    destruct (taken_ok a used pf _ outF outS f w Hi (decode_batch_ok ds Hf) Hl HF2 HS2) as (m' & Em & _ & Els & Htk).
    cbn [full_to_swa_index_mapping with_full with_swa]. rewrite Em. cbn [rbind]. rewrite decode_sum_ext in Els. rewrite En. split_and!; try done. by rewrite <- En.
  - destruct HF as [HF1 (free & HlF & _ & _ & HokF & SF)], HS as (HS1 & HS2 & SS). split; [by right|]. split; [done|].
    exists (pytake free need), []. rewrite decide_True, decide_False by lia. done.
  - destruct HS as [HS1 (free & HlS & _ & _ & HokS & SS)], HF as (HF1 & HF2 & SF). split; [by left|]. split; [done|].
    exists [], (pytake free need). rewrite decide_False, decide_True by lia. done.
  - destruct HF as (HF1 & HF2 & SF), HS as (HS1 & HS2 & SS). split; [by left|]. split; [done|].
    exists [], []. rewrite !decide_False by lia. done.
Qed.
End operations.
