(* ===== verification/SwaTail.v ===== *)
(** * Window slots for the tail only

    [alloc_extend_swa_tail] takes full slots for a whole extension and window
    slots for its last tokens.  Its callers start the tail on a page boundary
    ([disaggregation/decode.py: alloc_for_decode_prealloc]); then the pages of
    the tail are paired in step and the ones before have no window page. *)
From S2P Require Import Prelude RadixKey EvictPolicy RadixCache TokenAllocator PagedKernels PagedAllocator.
From S2P Require Import KvRow KvTheorems KvAlloc KvPlace SwaAllocator SwaInv SwaKernel SwaPair SwaAlloc.

(** Clearing single entries that are not the first of a paired page. *)
Lemma table_clear_slots ps m n used pf idx : table ps m n used pf →
  (∀ x, x ∈ idx → x / ps ∈ used ∧ (pf (x / ps) = 0 ∨ x mod ps ≠ 0)) →
  ∃ m', index_fill_0 m idx = Ok m' ∧ table ps m' n used pf ∧ zlen m' = zlen m ∧
    ∀ x, 0 ≤ x < (n + 1) * ps → at_ m' x = if decide (x ∈ idx) then 0 else at_ m x.
Proof.
  intros Ht Hidx. pose proof Ht as [Hps Hlen Hlast Hused Hpf Hrep Hslot].
  assert (∀ x, x ∈ idx → 0 ≤ x < (n + 1) * ps) as Hir by (intros x Hx; eapply slot_range; [done|by apply Hidx]).
  destruct (index_fill_ok m idx) as (m' & E & Hl & Hat).
  { apply Forall_forall. intros x Hx. by eapply table_in_range, Hir. }
  assert (zlen m' = zlen m) as El by (unfold zlen; by rewrite Hl).
  assert (∀ x, 0 ≤ x < (n + 1) * ps → at_ m' x = if decide (x ∈ idx) then 0 else at_ m x) as Hat'.
  { intros x Hx. apply Hat. by eapply table_in_range. }
  exists m'. split; [done|]. split; [|done]. split; try done.
  - lia.
  - assert (0 < zlen m) as Hpos.
    { destruct m; [|unfold zlen; cbn; lia]. unfold zlen, at_ in Hlast. cbn in Hlast. discriminate. }
    rewrite El, Hat by (unfold in_range; lia). rewrite decide_False; [done|]. intros Hx%Hir. lia.
  - intros f Hf. pose proof (Hused f Hf). rewrite Hat' by nia. case_decide as Hin; [|by apply Hrep].
    destruct (Hidx _ Hin) as [_ Hor]. rewrite Z.div_mul, Z_mod_mult in Hor by lia. destruct Hor as [->|?]; done.
  - intros x Hx. rewrite Hat' by done. case_decide; [by left|by apply Hslot].
Qed.

Section tail.
Context (ps : Z) (Hps : 0 < ps) (r : req) (tail : Z).
Context (Hr : 0 ≤ r_prefix r ≤ r_seq r) (Hlast : last_fits ps r).
Context (Htail : 0 < tail ≤ ext r) (Hal : (r_seq r - tail) mod ps = 0).

(** The page of the tail's first token, counted from the first fresh page. *)
Definition tail_page : Z := (r_seq r - tail) / ps - ceil_div (r_prefix r) ps.

Lemma tail_start : r_seq r - tail = (r_seq r - tail) / ps * ps.
Proof. pose proof (Z.div_mod (r_seq r - tail) ps ltac:(lia)). lia. Qed.

Lemma tail_pages : 0 ≤ tail_page ∧ tail_page + ceil_div tail ps = new_pages ps r.
Proof.
  unfold tail_page, new_pages, ext in *. pose proof tail_start as Hs. set (b := (r_seq r - tail) / ps) in *.
  pose proof (ceil_div_spec ps Hps (r_prefix r)). pose proof (ceil_div_spec ps Hps tail).
  split; [nia|]. assert (ceil_div (r_seq r) ps = b + ceil_div tail ps); [|lia]. apply ceil_div_unique; [done|]. nia.
Qed.

(** A token of the tail, in both pools. *)
Lemma tail_place freeF freeS j : 0 ≤ j < tail →
  place ps freeF r 0 (ext r - tail + j) = at_ freeF (tail_page + j / ps) * ps + j mod ps ∧
  place ps freeS (mkReq 0 tail (-1)) 0 j = at_ freeS (j / ps) * ps + j mod ps ∧
  0 ≤ j / ps < ceil_div tail ps.
Proof.
  intros Hj. pose proof tail_start as Hs. pose proof tail_pages as [Ht0 _]. unfold tail_page in *.
  set (b := (r_seq r - tail) / ps) in *.
  assert (r_prefix r + (ext r - tail + j) = b * ps + j) as Ep by (unfold ext; lia).
  unfold place. cbn. rewrite Ep. split_and!.
  - rewrite (proj2 (Z.ltb_ge _ _)) by (unfold ceil_align; pose proof (Z.div_pos j ps); nia).
    rewrite (Z.add_comm (b * ps)), Z.div_add, Z.mod_add by lia. do 3 f_equal. lia.
  - rewrite (proj2 (Z.ltb_ge _ _)). 2: { unfold ceil_align. rewrite (ceil_div_unique ps Hps 0 0); lia. }
    rewrite (ceil_div_unique ps Hps 0 0) by lia. by rewrite !Z.add_0_l, Z.sub_0_r.
  - apply Z.div_pos; lia.
  - pose proof (ceil_div_spec ps Hps tail). apply Z.div_lt_upper_bound; lia.
Qed.

(** A token before the tail. *)
Lemma head_place freeF t : 0 ≤ t < ext r - tail →
  (r_prefix r mod ps ≠ 0 ∧ place ps freeF r 0 t / ps = r_last r / ps ∧ place ps freeF r 0 t mod ps ≠ 0) ∨
  ∃ d, 0 ≤ d < tail_page ∧ place ps freeF r 0 t / ps = at_ freeF d.
Proof.
  intros Ht. pose proof tail_start as Hs. unfold place. destruct (Z.ltb_spec (r_prefix r + t) (ceil_align (r_prefix r) ps)) as [Hlt|Hge].
  - left. assert (r_prefix r mod ps ≠ 0) as Hm.
    { intros Hm%Z.mod_divide; [|lia]. rewrite ceil_align_id in Hlt by done. lia. }
    destruct (same_page ps r t Hps ltac:(lia) Hlt (Hlast Hm)) as [-> ->].
    pose proof (Z.mod_pos_bound (r_last r) ps Hps). split; [done|]. split; [done|]. lia.
  - right. exists (0 + ((r_prefix r + t) / ps - ceil_div (r_prefix r) ps)). unfold tail_page, ceil_align in *.
    pose proof (Z.mod_pos_bound (r_prefix r + t) ps Hps). pose proof (Z.div_mod (r_prefix r + t) ps ltac:(lia)). split.
    + set (b := (r_seq r - tail) / ps) in *. unfold ext in Ht. nia.
    + rewrite Z.add_comm, Z.div_add, Z.div_small by lia. lia.
Qed.

Section pairs.
Context (freeF freeS fs qs used : list Z) (pf : Z → Z) (Hnd : NoDup (fs ++ used)) (Hpos : Forall (λ q, 0 < q) qs).
Context (Hfs : ∀ e, 0 ≤ e < ceil_div tail ps → fs !! Z.to_nat e = Some (at_ freeF (tail_page + e))).
Context (Hqs : ∀ e, 0 ≤ e < ceil_div tail ps → qs !! Z.to_nat e = Some (at_ freeS e)).
Context (Hlen : zlen fs = ceil_div tail ps).

Lemma tail_pair j : 0 ≤ j < tail →
  place ps freeS (mkReq 0 tail (-1)) 0 j = in_step ps (pair_new fs qs pf) (place ps freeF r 0 (ext r - tail + j)) ∧
  paired_slot ps used pf fs qs (place ps freeF r 0 (ext r - tail + j)) ∧
  place ps freeF r 0 (ext r - tail + j) / ps ∈ fs.
Proof.
  intros Hj. destruct (tail_place freeF freeS j Hj) as (-> & -> & He). set (e := j / ps) in *.
  pose proof (Z.mod_pos_bound j ps Hps) as Hb. set (o := j mod ps) in *. unfold in_step, paired_slot.
  rewrite !(Z.add_comm (at_ freeF _ * ps) o), Z.div_add, Z.div_small, Z.add_0_l, Z.mod_add, Z.mod_small by lia.
  pose proof (Hfs e He) as Hf. pose proof (Hqs e He) as Hq. apply NoDup_app in Hnd as (Hnf & _ & _).
  rewrite (pair_new_lookup fs qs pf _ _ _ Hnf Hf Hq). pose proof (list_elem_of_lookup_2 _ _ _ Hf) as Hin.
  rewrite Forall_lookup in Hpos. apply Hpos in Hq. split; [lia|]. split; [split; [rewrite elem_of_app; by left|lia]|done].
Qed.

Lemma tail_heads q : q ∈ fs → q * ps ∈ (λ j, place ps freeF r 0 (ext r - tail + j)) <$> seqZ 0 tail.
Proof.
  intros Hq. apply list_elem_of_lookup_1 in Hq as [k Hk]. pose proof (lookup_lt_Some _ _ _ Hk) as Hlt. unfold zlen in Hlen.
  set (e := Z.of_nat k). assert (0 ≤ e < ceil_div tail ps) as He by lia.
  pose proof (ceil_div_spec ps Hps tail) as Hc. assert (0 ≤ e * ps < tail) as Hj by nia.
  apply list_elem_of_fmap. exists (e * ps). split; [|apply elem_of_seqZ; lia].
  destruct (tail_place freeF freeS (e * ps) Hj) as (-> & _). rewrite Z.div_mul, Z_mod_mult, Z.add_0_r by lia. f_equal.
  pose proof (Hfs e He) as Hf. unfold e in Hf at 1. rewrite Nat2Z.id, Hk in Hf. by injection Hf.
Qed.
End pairs.
End tail.

(** *** The operation *)

(** What the callers pass: the tail starts on a page boundary, and a request
    that continues a page ends on a page in use. *)
Record tail_call (a : Swa) (used : list Z) (r : req) (tail : Z) : Prop := {
  tc_len : 0 ≤ r_prefix r ≤ r_seq r;
  tc_tail : 0 ≤ tail ≤ ext r;
  tc_align : 0 < tail → (r_seq r - tail) mod spage_size a = 0;
  tc_last : r_prefix r mod spage_size a ≠ 0 →
    (r_last r + 1) mod spage_size a = r_prefix r mod spage_size a ∧ r_last r / spage_size a ∈ used
}.

Lemma batch_one ps free r k : place_batch ps free [r] k = place_req ps free r k.
Proof. cbn. apply app_nil_r. Qed.

Lemma place_req_app ps free r k b : 0 ≤ b ≤ ext r →
  place_req ps free r k = (place ps free r k <$> seqZ 0 (ext r - b)) ++ ((λ j, place ps free r k (ext r - b + j)) <$> seqZ 0 b).
Proof.
  intros Hb. unfold place_req. replace (ext r) with (ext r - b + b) at 1 by lia. rewrite seqZ_app, fmap_app by lia. f_equal.
  rewrite <- (Z.add_0_r (0 + (ext r - b))), <- fmap_add_seqZ, <- list_fmap_compose. apply list_fmap_ext. by intros i j _.
Qed.

(** The slots before the tail and the slots of the tail. *)
Lemma tail_split (h t : list Z) tail : zlen t = tail → 0 < tail →
  pydrop (h ++ t) (- tail) = t ∧ pytake (h ++ t) (- tail) = h.
Proof.
  intros Hl Ht. split.
  - rewrite pydrop_neg, length_app by done. unfold zlen in Hl. replace (_ - _)%nat with (length h) by lia. apply drop_app_length.
  - unfold pytake, pyslice, norm_idx. rewrite (proj2 (Z.ltb_lt (- tail) 0)) by lia. rewrite zlen_app. cbn [Z.ltb Z.compare].
    unfold zlen in *. rewrite Z.min_l by lia. replace (Z.to_nat (Z.max _ _ - 0)) with (length h) by lia. apply take_app_length.
Qed.

Section tail_op.
Context {L : Lost}.
Context (lightop_alloc_extend : Z → list Z → list Z → list Z → list Z → list Z → Z → list Z).
Context (oob : Z) (He : lightop_extend_ok lightop_alloc_extend).

(** The slots of one request lie on its fresh pages, all of which they begin, and
    on the page it ends inside. *)
Definition on_pages (ps : Z) (r : req) (fs : list Z) (x : Z) : Prop :=
  x / ps ∈ fs ∨ r_prefix r mod ps ≠ 0 ∧ x / ps = r_last r / ps.

Lemma req_pages ps free r : 0 < ps → 0 ≤ r_prefix r ≤ r_seq r → last_fits ps r →
  zlen (pytake free (new_pages ps r)) = new_pages ps r →
  (∀ q, q ∈ pytake free (new_pages ps r) → q * ps ∈ place_req ps free r 0) ∧
  Forall (on_pages ps r (pytake free (new_pages ps r))) (place_req ps free r 0).
Proof.
  intros Hps Hr Hlast Hl. assert (sum_pages ps [r] = new_pages ps r) as En by (unfold sum_pages; cbn; lia).
  rewrite <- batch_one, <- En in *. assert (batch_ok [r]) as Hb by by constructor. split; [intros q; by apply fresh_heads|].
  set (last := if decide (r_prefix r mod ps = 0) then [] else [r_last r / ps]).
  assert (Forall (continues ps last) [r]) as Hc.
  { constructor; [|done]. intros Hm. split; [by apply Hlast|]. unfold last. rewrite decide_False by done. by left. }
  apply Forall_forall. intros x Hx. pose proof (batch_on_pages ps Hps free [r] Hb Hl last x Hc Hx) as Hin.
  apply elem_of_app in Hin as [Hin|Hin]; [by left|]. unfold last in Hin. case_decide; [by apply not_elem_of_nil in Hin|].
  right. split; [done|]. by apply list_elem_of_singleton in Hin.
Qed.

(** The tail paired, the slots before it without a window slot. *)
Definition taken_tail (a : Swa) (used : list Z) (pf : Z → Z) (r : req) (tail : Z) (out : list Z) (a' : Swa) : Prop :=
  zlen out = ext r ∧
  ∃ bare fs qs, zlen (bare ++ fs) = new_pages (spage_size a) r ∧ zlen fs = ceil_div tail (spage_size a) ∧ zlen qs = zlen fs ∧
    (∀ q, q ∈ bare ++ fs → q * spage_size a ∈ out) ∧ Forall (on_pages (spage_size a) r (bare ++ fs)) out ∧
    swa_inv a' (bare ++ fs ++ used) (pair_new fs qs pf) ∧
    translate_loc_from_full_to_swa a' (pydrop out (ext r - tail))
      = Ok (in_step (spage_size a) (pair_new fs qs pf) <$> pydrop out (ext r - tail)).

(** Full pages alone. *)
Lemma tail_none a used pf fs f : swa_inv a used pf → sub_ok (spage_size a) f (fs ++ used) →
  sub_same (full_attn_allocator a) f → swa_inv (with_full f a) (fs ++ used) pf.
Proof.
  intros Hi Hok Hs. pose proof Hi as [_ _ Hswa _ _ _ _].
  destruct (commit_pairs a used pf fs [] [] [] f (swa_attn_allocator a) Hi) as (m' & Em & Hinv & _); try done.
  - intros q Hq. by apply not_elem_of_nil in Hq.
  - cbn in Em. injection Em as <-. by destruct a.
Qed.

(** The slots before the tail lose entries they do not need. *)
Lemma clear_head a used pf r tail freeF bare fs : swa_inv a used pf → 0 < spage_size a →
  tail_call a used r tail → 0 < tail → (∀ q, q ∈ bare ++ fs → q ∉ used) →
  ∀ a1 pf', swa_inv a1 (bare ++ fs ++ used) pf' → spage_size a1 = spage_size a →
  (∀ q, q ∈ bare → pf' q = 0) → (∀ d, 0 ≤ d < tail_page (spage_size a) r tail → at_ freeF d ∈ bare) →
  ∃ m2, clear_full_to_swa_mapping a1 (place (spage_size a) freeF r 0 <$> seqZ 0 (ext r - tail)) = Ok (with_mapping m2 a1) ∧
    swa_inv (with_mapping m2 a1) (bare ++ fs ++ used) pf' ∧ zlen m2 = zlen (full_to_swa_index_mapping a1) ∧
    ∀ x, 0 ≤ x < (sub_pages (full_attn_allocator a1) + 1) * spage_size a → x / spage_size a ∈ fs →
         at_ m2 x = at_ (full_to_swa_index_mapping a1) x.
Proof.
  intros Hi Hps [Hr Htl Hal Hlast] Htail Hnu a1 pf' Hi1 Eps Hbare Hd. specialize (Hal Htail). set (ps := spage_size a) in *.
  set (idx := place ps freeF r 0 <$> seqZ 0 (ext r - tail)).
  pose proof (sub_ok_nodup _ _ _ (si_full _ _ _ Hi1)) as Hnd. apply NoDup_app in Hnd as (_ & Hdb & Hnd).
  assert (∀ x, x ∈ idx → x / ps ∈ bare ++ fs ++ used ∧ (x / ps ∉ fs) ∧ (pf' (x / ps) = 0 ∨ x mod ps ≠ 0)) as Hidx.
  { intros x Hx. apply list_elem_of_fmap in Hx as (t & -> & Ht). apply elem_of_seqZ in Ht.
    destruct (head_place ps Hps r tail ltac:(intros Hm; by apply Hlast) ltac:(done) freeF t ltac:(lia))
      as [(Hm & -> & Hne)|(d & Hdd & ->)].
    - destruct (Hlast Hm) as [_ Hu]. split; [rewrite !elem_of_app; tauto|]. split; [|by right]. intros Hin. apply (Hnu (r_last r / ps)); [|done].
      rewrite elem_of_app. by right.
    - apply Hd in Hdd. split; [rewrite elem_of_app; by left|]. split; [|left; by apply Hbare].
      intros Hin. apply (Hdb _ Hdd). rewrite elem_of_app. by left. }
  pose proof (si_table _ _ _ Hi1) as Ht1. rewrite Eps in Ht1.
  destruct (table_clear_slots ps _ _ _ _ idx Ht1) as (m2 & Em & Ht2 & Hl & Hat).
  { intros x Hx. destruct (Hidx x Hx) as (? & _ & ?). done. }
  exists m2. split_and!; [|destruct Hi1; split; cbn; try done; by rewrite Eps|done|].
  - unfold clear_full_to_swa_mapping. destruct (Z.eqb_spec (zlen idx) 0) as [E0|E0]; [|by rewrite Em].
    apply zlen_nil_inv in E0. rewrite E0 in Em. cbn in Em. injection Em as <-. by rewrite with_mapping_same.
  - intros x Hx Hin. rewrite Hat by done. rewrite decide_False; [done|]. intros Hxi. by destruct (Hidx x Hxi) as (_ & ? & _).
Qed.

(** The window pool gives the tail its pages. *)
Lemma tail_window a used pf tail : swa_inv a used pf → 1 < spage_size a → 0 < tail →
  let ps := spage_size a in
  ceil_div tail ps ≤ sub_available_size (swa_attn_allocator a) / ps →
  ∃ w freeS, sub_alloc_extend lightop_alloc_extend oob (swa_attn_allocator a) [0] [tail] [-1] tail (Some (ceil_div tail ps))
      = Ok (Some (place_req ps freeS (mkReq 0 tail (-1)) 0), w) ∧
    zlen (pytake freeS (ceil_div tail ps)) = ceil_div tail ps ∧
    sub_ok ps w (pytake freeS (ceil_div tail ps) ++ swa_waiting a ++ peers pf used ++ lost_pages) ∧
    sub_same (swa_attn_allocator a) w ∧ Forall (λ q, 0 < q) (pytake freeS (ceil_div tail ps)).
Proof.
  intros Hi Hps Htail ps Hroom. set (r0 := mkReq 0 tail (-1)). assert (batch_ok [r0]) as Hb0 by (repeat constructor; cbn; lia).
  pose proof (sub_extend_ok lightop_alloc_extend oob He ps _ _ [r0] (si_swa _ _ _ Hi) Hps Hb0) as HS. cbv zeta in HS.
  assert (sum_pages ps [r0] = ceil_div tail ps) as Es.
  { unfold sum_pages, new_pages. cbn. rewrite (ceil_div_unique ps ltac:(lia) 0 0); lia. }
  assert (sum_ext [r0] = tail) as Ee by (unfold sum_ext, ext; cbn; lia). rewrite Es, Ee in HS.
  destruct (HS Hroom) as (outS & w & ES & freeS & HlS & Hn0 & -> & HokS & SS). rewrite batch_one in ES.
  exists w, freeS. split_and!; try done. apply Forall_forall. intros q Hq. enough (1 ≤ q ≤ sub_pages w) by lia.
  eapply sub_ok_range; [done|]. rewrite elem_of_app. by left.
Qed.

(** After the tail is paired, the entries of the slots before it are cleared; those
    of the tail stay. *)
Lemma tail_cleared a used pf r tail freeF bare fs qs m' f w T : swa_inv a used pf → 0 < spage_size a →
  tail_call a used r tail → 0 < tail → NoDup (bare ++ fs ++ used) →
  let a1 := with_mapping m' (with_full f (with_swa w a)) in
  swa_inv a1 (bare ++ fs ++ used) (pair_new fs qs pf) → Forall (λ x, x / spage_size a ∈ fs) T →
  (∀ d, 0 ≤ d < tail_page (spage_size a) r tail → at_ freeF d ∈ bare) →
  ∃ m2, (if tail <? ext r then clear_full_to_swa_mapping a1 (place (spage_size a) freeF r 0 <$> seqZ 0 (ext r - tail)) else Ok a1)
      = Ok (with_mapping m2 a1) ∧
    swa_inv (with_mapping m2 a1) (bare ++ fs ++ used) (pair_new fs qs pf) ∧ zlen m2 = zlen m' ∧
    ∀ x, x ∈ T → at_ m2 x = at_ m' x.
Proof.
  intros Hi Hps Htc Htail Hnd a1 Hinv HT Hbare. rewrite Forall_forall in HT. apply NoDup_app in Hnd as (_ & Hdb & Hnd).
  destruct (Z.ltb_spec tail (ext r)) as [Hlt|Hge]; [|by exists m'].
  destruct (clear_head a used pf r tail freeF bare fs Hi Hps Htc Htail) with a1 (pair_new fs qs pf) as (m2 & E2 & I2 & L2 & A2); try done.
  - intros q [Hq|Hq]%elem_of_app; [|by apply NoDup_app in Hnd as (_ & Hdf & _); apply Hdf].
    pose proof (Hdb q Hq) as Hn. rewrite elem_of_app in Hn. tauto.
  - intros q Hq. pose proof (Hdb q Hq) as Hn. rewrite elem_of_app in Hn. rewrite pair_new_other by tauto.
    destruct (tb_pf _ _ _ _ _ (si_table _ _ _ Hi) q) as [_ Hu]. destruct (decide (pf q = 0)); [done|]. tauto.
  - exists m2. split_and!; try done. intros x HxT. apply A2; [|by apply HT].
    eapply slot_range; [exact (si_table _ _ _ Hinv)|]. rewrite !elem_of_app. right; left. by apply HT.
Qed.

(** Pairing the tail, then clearing what lies before it. *)
Lemma tail_commit a used pf r tail freeF f : swa_inv a used pf → 1 < spage_size a → tail_call a used r tail → 0 < tail →
  let ps := spage_size a in
  zlen (pytake freeF (new_pages ps r)) = new_pages ps r →
  sub_ok ps f (pytake freeF (new_pages ps r) ++ used) → sub_same (full_attn_allocator a) f →
  ceil_div tail ps ≤ sub_available_size (swa_attn_allocator a) / ps →
  ∃ outS w a1 a', sub_alloc_extend lightop_alloc_extend oob (swa_attn_allocator a) [0] [tail] [-1] tail (Some (ceil_div tail ps))
      = Ok (Some outS, w) ∧
    set_full_to_swa_mapping (with_swa w (with_full f a)) (pydrop (place_req ps freeF r 0) (- tail)) outS = Ok a1 ∧
    (if tail <? ext r then clear_full_to_swa_mapping a1 (pytake (place_req ps freeF r 0) (- tail)) else Ok a1) = Ok a' ∧
    taken_tail a used pf r tail (place_req ps freeF r 0) a'.
Proof.
  intros Hi Hps Htc Htail ps HlF HokF SF Hroom. pose proof Htc as [Hr Htl Hal Hlast]. specialize (Hal Htail). fold ps in Hps, Hal, Hlast.
  assert (0 < ps) as Hps0 by lia. assert (last_fits ps r) as Hfit by (intros Hm; by apply Hlast).
  destruct (tail_window a used pf tail Hi Hps Htail Hroom) as (w & freeS & ES & HlS & HokS & SS & Hpos). fold ps in ES, HlS, HokS, Hpos.
  assert (0 ≤ tail_page ps r tail ∧ tail_page ps r tail + ceil_div tail ps = new_pages ps r) as [Hd0 Hd1]
    by (apply tail_pages; done || lia). set (d0 := tail_page ps r tail) in *.
  set (all := pytake freeF (new_pages ps r)) in *. set (bare := take (Z.to_nat d0) all). set (fs := drop (Z.to_nat d0) all).
  assert (all = bare ++ fs) as Eall by (symmetry; apply take_drop). set (qs := pytake freeS (ceil_div tail ps)) in *. pose proof (zlen_nonneg qs) as Hq0.
  assert (zlen fs = ceil_div tail ps) as Hlfs by (unfold zlen, fs in *; rewrite length_drop; lia).
  rewrite Eall, <- app_assoc in HokF. pose proof (sub_ok_nodup _ _ _ HokF) as Hnd. pose proof Hnd as (_ & _ & Hnd')%NoDup_app.
  assert (∀ d, 0 ≤ d < d0 → at_ freeF d ∈ bare) as Hbare.
  { intros d Hd. apply (list_elem_of_lookup_2 _ (Z.to_nat d)). unfold bare. rewrite lookup_take_lt by lia. apply pytake_index; [done|lia]. }
  assert (∀ e, 0 ≤ e < ceil_div tail ps → fs !! Z.to_nat e = Some (at_ freeF (d0 + e))) as Hfs.
  { intros e Hee. unfold fs. rewrite lookup_drop. replace (Z.to_nat d0 + Z.to_nat e)%nat with (Z.to_nat (d0 + e)) by lia.
    apply pytake_index; [done|lia]. }
  assert (∀ e, 0 ≤ e < ceil_div tail ps → qs !! Z.to_nat e = Some (at_ freeS e)) as Hqs by (intros; by apply pytake_index).
  pose proof (tail_pair ps Hps0 r tail ltac:(lia) Hal freeF freeS fs qs used pf Hnd' Hpos Hfs Hqs) as Hpair.
  set (T := (λ j, place ps freeF r 0 (ext r - tail + j)) <$> seqZ 0 tail). set (H := place ps freeF r 0 <$> seqZ 0 (ext r - tail)).
  assert (place_req ps freeF r 0 = H ++ T) as Eout by by apply place_req_app.
  assert (zlen T = tail) as HlT by (unfold T, zlen; rewrite length_fmap, length_seqZ; lia).
  destruct (tail_split H T tail HlT Htail) as [Etd Eth]. rewrite Eout, Etd, Eth.
  assert (Forall (λ x, x / ps ∈ fs) T) as HTfs.
  { apply Forall_fmap, Forall_forall. intros j Hj. apply elem_of_seqZ in Hj. apply (Hpair j). lia. }
  assert (place_req ps freeS (mkReq 0 tail (-1)) 0 = in_step ps (pair_new fs qs pf) <$> T) as ET.
  { unfold place_req, T. replace (ext (mkReq 0 tail (-1))) with tail by (unfold ext; cbn; lia). rewrite <- list_fmap_compose. apply list_fmap_ext.
    intros i j Hj. apply list_elem_of_lookup_2, elem_of_seqZ in Hj. apply (Hpair j). lia. }
  destruct (commit_pairs a used pf bare fs qs T f w Hi) as (m' & Em & Hinv & Hout); try done.
  { unfold zlen in *. lia. }
  { intros q Hq. eapply tail_heads; try done; lia. }
  { apply Forall_fmap, Forall_forall. intros j Hj. apply elem_of_seqZ in Hj. apply (Hpair j). lia. }
  destruct (tail_cleared a used pf r tail freeF bare fs qs m' f w T Hi Hps0 Htc Htail Hnd Hinv HTfs Hbare)
    as (m2 & Em2 & Hinv2 & Hl2 & Hat2).
  eexists (in_step ps (pair_new fs qs pf) <$> T), w, _, _. rewrite ET in ES. split; [exact ES|]. split.
  { apply (set_mapping_scatter (with_full f (with_swa w a))); [unfold zlen; by rewrite length_fmap|done]. }
  split; [exact Em2|].
  split; [rewrite zlen_app, HlT; unfold H, zlen; rewrite length_fmap, length_seqZ; lia|]. exists bare, fs, qs. split_and!; try done.
  - by rewrite <- Eall.
  - by rewrite Hlfs.
  - rewrite <- Eall, <- Eout. apply (req_pages ps freeF r); done.
  - rewrite <- Eall, <- Eout. apply (req_pages ps freeF r); done.
  - rewrite pydrop_eq by lia. rewrite drop_app_length' by (unfold H; rewrite length_fmap, length_seqZ; lia).
    eapply (translate_committed _ m2); [done|]. apply Forall_forall. intros x Hx. rewrite Forall_forall in Hout.
    destruct (Hout x Hx) as (Hx1 & Hx2 & _). split; [unfold in_range in *; lia|]. by rewrite Hat2.
Qed.

Lemma swa_tail_ok a used pf r tail : swa_inv a used pf → 1 < spage_size a → tail_call a used r tail →
  let room_full := sub_available_size (full_attn_allocator a) / spage_size a in
  let room_swa := sub_available_size (swa_attn_allocator a) / spage_size a in
  match alloc_extend_swa_tail lightop_alloc_extend oob a [r_prefix r] [r_seq r] [r_last r] (ext r) tail with
  | Ok (None, a') => (room_full < new_pages (spage_size a) r ∨ room_swa < ceil_div tail (spage_size a)) ∧ a' = a
  | Ok (Some out, a') => taken_tail a used pf r tail out a'
  | Raise _ => False
  end.
Proof.
  intros Hi Hps Htc room_full room_swa. pose proof Htc as [Hr Htl Hal Hlast]. unfold alloc_extend_swa_tail.
  rewrite (proj2 (Z.ltb_lt _ _) Hps). cbn [assert_ rbind zlen length Z.of_nat Z.eqb Pos.of_succ_nat Pos.eqb].
  rewrite (proj2 (Z.leb_le 0 tail)), (proj2 (Z.leb_le tail (ext r))) by lia. cbn [andb assert_ rbind].
  change [r_prefix r] with (r_prefix <$> [r]). change [r_seq r] with (r_seq <$> [r]). change [r_last r] with (r_last <$> [r]).
  rewrite get_num_new_pages_eq. cbn [rbind]. change ((tail + spage_size a - 1) / spage_size a) with (ceil_div tail (spage_size a)).
  set (ps := spage_size a) in *. assert (sum_pages ps [r] = new_pages ps r) as En by (unfold sum_pages; cbn; lia).
  assert (sum_ext [r] = ext r) as Ee by (unfold sum_ext; cbn; lia).
  assert (batch_ok [r]) as Hb by (constructor; [done|constructor]). rewrite En.
  unfold new_pages_available. fold ps. rewrite (si_ring _ _ _ Hi). fold room_full room_swa.
  destruct (Z.leb_spec (new_pages ps r) room_full) as [H1|H1]; cbn [andb negb]; [|split; [by left|done]].
  destruct (Z.leb_spec (ceil_div tail ps) room_swa) as [H2|H2]; cbn [negb]; [|split; [by right|done]].
  pose proof (sub_extend_ok lightop_alloc_extend oob He ps _ used [r] (si_full _ _ _ Hi) Hps Hb) as HF. cbv zeta in HF.
  rewrite En, Ee in HF. destruct (HF H1) as (outF & f & -> & freeF & HlF & H0 & -> & HokF & SF). cbn [rbind some_or_fail].
  rewrite batch_one. pose proof (length_place_req ps freeF r 0 ltac:(unfold ext in *; lia)) as Hlen.
  destruct (Z.eqb_spec tail 0) as [->|Hne].
  - split; [done|]. exists (pytake freeF (new_pages ps r)), [], []. rewrite app_nil_r. split_and!; try done.
    + unfold zlen. cbn. symmetry. apply ceil_div_unique; lia.
    + apply (req_pages ps freeF r); [lia|done|intros Hm; by apply Hlast|done].
    + apply (req_pages ps freeF r); [lia|done|intros Hm; by apply Hlast|done].
    + by eapply tail_none.
    + rewrite Z.sub_0_r. assert (pydrop (place_req ps freeF r 0) (ext r) = []) as ->; [|done].
      apply zlen_nil_inv. rewrite zlen_pydrop by lia. lia.
  - destruct (tail_commit a used pf r tail freeF f Hi Hps Htc ltac:(lia) HlF HokF SF H2) as (outS & w & a1 & a' & E1 & E2 & E3 & Htk).
    change (swa_attn_allocator (with_full f a)) with (swa_attn_allocator a). fold ps in E1, E2, E3. rewrite E1. cbn [rbind some_or_fail].
    rewrite E2. cbn [rbind]. rewrite E3. cbn [rbind]. exact Htk.
Qed.
End tail_op.
