(* ===== verification/SwaTheorems.v ===== *)
(** * The allocator of a sliding-window model: every reachable state

    A client takes slots, gives back the window side of pages that left the
    window, and later the full side.  In every state it can reach each full page
    in use has at most one window page, no window page serves two full pages,
    and both pools account for all their pages. *)
From S2P Require Import Prelude RadixKey EvictPolicy RadixCache TokenAllocator PagedKernels PagedAllocator.
From S2P Require Import KvRow KvTheorems KvAlloc KvPlace SwaAllocator SwaInv SwaKernel SwaPair SwaAlloc SwaTail.

(** ** An empty allocator *)

(** A pool configured for pages of [ps] slots. *)
Definition sub_cfg (ps : Z) (s : sub) : Prop :=
  match s with
  | STok t => ps = 1 ∧ 0 ≤ Token.size t
  | SPag p => 1 < ps ∧ ppage_size p = ps ∧ debug_mode p = false ∧ 0 ≤ num_pages p ∧ num_pages p * ps ≤ psize p ∧
      int32_slots (kernels p) (num_pages p) ps
  end.

Lemma sub_clear_ok ps s : sub_cfg ps s →
  sub_ok ps (sub_clear s) [] ∧ sub_open (sub_clear s) = false ∧ sub_pages (sub_clear s) = sub_pages s.
Proof.
  destruct s as [t|p]; cbn.
  - intros [-> Hs]. split; [|done]. split; [done|]. split; [apply Token.wf_clear|done].
  - intros (Hps & Eps & Hd & Hn & Hsz & Hw). split; [|done]. do 2 (split; [done|]). split; [|done].
    split; [apply pwf_clear; [lia|by rewrite Eps]|by intros _|done].
Qed.

Lemma sclear_inv a : _swa_req_ring a = false → sub_cfg (spage_size a) (full_attn_allocator a) →
  sub_cfg (spage_size a) (swa_attn_allocator a) →
  (sub_pages (full_attn_allocator a) + 1) * spage_size a < zlen (full_to_swa_index_mapping a) →
  at_ (full_to_swa_index_mapping a) (zlen (full_to_swa_index_mapping a) - 1) = -1 → swa_inv (L := []) (sclear a) [] (λ _, 0).
Proof.
  intros Hring HF HS Hlen Hlast. destruct (sub_clear_ok _ _ HF) as (F1 & F2 & F3), (sub_clear_ok _ _ HS) as (S1 & S2 & _).
  pose proof (sub_ok_ps _ _ _ F1) as Hps.
  assert (0 ≤ sub_pages (full_attn_allocator a)) as Hn by (destruct (full_attn_allocator a); cbn in *; tauto).
  set (m := full_to_swa_index_mapping a) in *. assert (zlen (zero_mapping m) = zlen m) as El.
  { unfold zero_mapping, zlen in *. rewrite length_app, length_replicate, length_drop. nia. }
  assert (∀ i, 0 ≤ i < zlen m - 1 → at_ (zero_mapping m) i = 0) as Hz.
  { intros i Hi. unfold zero_mapping, at_, zlen in *. rewrite lookup_total_app_l by (rewrite length_replicate; lia).
    apply lookup_total_replicate_2. lia. }
  assert (table (spage_size a) (zero_mapping m) (sub_pages (full_attn_allocator a)) [] (λ _, 0)) as Ht.
  { split; try done.
    - by rewrite El.
    - rewrite El. unfold zero_mapping, at_, zlen in *. rewrite lookup_total_app_r by (rewrite length_replicate; lia).
      rewrite length_replicate, lookup_total_drop. rewrite <- Hlast. f_equal. lia.
    - intros f Hf. by apply not_elem_of_nil in Hf.
    - intros f Hf. by apply not_elem_of_nil in Hf.
    - intros i Hi. left. apply Hz. lia. }
  split; try done. cbn [full_attn_allocator sclear with_groups with_mapping with_full]. by rewrite F3.
Qed.

Lemma swa_init_inv size size_swa ps ns cuda k slots : 0 < ps → 0 ≤ size → 0 ≤ size_swa →
  int32_slots k (size / ps) ps → int32_slots k (size_swa / ps) ps →
  swa_inv (L := []) (swa_init size size_swa ps ns cuda false k None slots) [] (λ _, 0).
Proof.
  intros Hps Hs Hw Hk1 Hk2.
  assert (∀ sz, 0 ≤ sz → int32_slots k (sz / ps) ps → sub_cfg ps (if ps =? 1 then STok (Token.init sz ns) else SPag (paged_init sz ps ns false k)) ∧
    sub_pages (if ps =? 1 then STok (Token.init sz ns) else SPag (paged_init sz ps ns false k)) * ps ≤ sz) as Hcfg.
  { intros sz Hsz Hk. pose proof (Z.mul_div_le sz ps Hps). destruct (Z.eqb_spec ps 1) as [->|Hne]; cbn; [lia|].
    assert (0 ≤ sz / ps) by (apply Z.div_pos; lia). split; [|lia]. split_and!; done || lia. }
  destruct (Hcfg size Hs Hk1) as [C1 P1], (Hcfg size_swa Hw Hk2) as [C2 _].
  apply sclear_inv; cbn [full_attn_allocator swa_attn_allocator full_to_swa_index_mapping spage_size]; try done.
  - unfold zlen. rewrite length_app, length_replicate. cbn. lia.
  - unfold zlen, at_. rewrite length_app, length_replicate. cbn. rewrite lookup_total_app_r by (rewrite length_replicate; lia).
    rewrite length_replicate. replace (_ - _)%nat with 0%nat by lia. done.
Qed.

(** ** Runs *)

(** The pages of the slots handed out that were not in use before. *)
Definition fresh (ps : Z) (used out fs : list Z) : Prop :=
  NoDup fs ∧ ∀ q, q ∈ fs ↔ q ∈ toks_pages ps out ∧ q ∉ used.

(** The window slot of a full slot; 0 when it has none. *)
Definition window_slot (a : Swa) (x : Z) : Z := at_ (full_to_swa_index_mapping a) x.

(** A full page without a window page. *)
Definition bare_page (a : Swa) (f : Z) : Prop := window_slot a (f * spage_size a) = 0.
#[export] Instance bare_page_dec a f : Decision (bare_page a f).
Proof. unfold bare_page. apply _. Defined.

(** A pool of [sz] slots suits the width of its backend's slots. *)
Definition sub_int32 (s : sub) (ps sz : Z) : Prop :=
  match s with STok _ => True | SPag p => int32_slots (kernels p) (sz / ps) ps end.

Section runs.
Context (level : InvariantCheckLevel) (order : nat → list nat).
Context (lightop_alloc_extend : Z → list Z → list Z → list Z → list Z → list Z → Z → list Z).
Context (oob : Z).

(** One call.  A client extends what it was given and gives back what it has:
    the window side of pages that have one, the full side of pages that have
    none any more, or both.  A refused call leaves everything as it was, except
    that a refused [alloc_decode] keeps the pages the pool that was not short
    gave.  The second component is the full pages in use, as the client knows
    them from its slots; the third counts the pages of the full and of the window
    pool that refused decode steps have taken. *)
Definition kept_pages (need room : Z) : Z := if decide (need ≤ room) then need else 0.

Inductive sstep : Swa → list Z → Z * Z → Swa → list Z → Z * Z → Prop :=
  | ss_alloc a used lost need out a' fs :
      spage_size a = 1 → 0 ≤ need → salloc a need = Ok (Some out, a') → fresh 1 used out fs →
      sstep a used lost a' (fs ++ used) lost
  | ss_alloc_none a used lost need a' :
      spage_size a = 1 → 0 ≤ need → salloc a need = Ok (None, a') → sstep a used lost a' used lost
  | ss_extend a used lost rs out a' fs :
      1 < spage_size a → batch_ok rs → Forall (linked (spage_size a) (full_to_swa_index_mapping a) used) rs →
      salloc_extend lightop_alloc_extend oob a (r_prefix <$> rs) (r_seq <$> rs) (r_last <$> rs) (sum_ext rs) = Ok (Some out, a') →
      fresh (spage_size a) used out fs → sstep a used lost a' (fs ++ used) lost
  | ss_extend_none a used lost rs a' :
      1 < spage_size a → batch_ok rs → Forall (linked (spage_size a) (full_to_swa_index_mapping a) used) rs →
      salloc_extend lightop_alloc_extend oob a (r_prefix <$> rs) (r_seq <$> rs) (r_last <$> rs) (sum_ext rs) = Ok (None, a') →
      sstep a used lost a' used lost
  | ss_tail a used lost r tail out a' fs :
      1 < spage_size a → tail_call a used r tail →
      alloc_extend_swa_tail lightop_alloc_extend oob a [r_prefix r] [r_seq r] [r_last r] (ext r) tail = Ok (Some out, a') →
      fresh (spage_size a) used out fs → sstep a used lost a' (fs ++ used) lost
  | ss_tail_none a used lost r tail a' :
      1 < spage_size a → tail_call a used r tail →
      alloc_extend_swa_tail lightop_alloc_extend oob a [r_prefix r] [r_seq r] [r_last r] (ext r) tail = Ok (None, a') →
      sstep a used lost a' used lost
  | ss_decode a used lost ds out a' fs :
      1 < spage_size a → decode_linked a used ds →
      salloc_decode oob a (ds.*1) (ds.*2) = Ok (Some out, a') →
      fresh (spage_size a) used out fs → sstep a used lost a' (fs ++ used) lost
  | ss_decode_none a used lost ds a' :
      1 < spage_size a → decode_linked a used ds →
      salloc_decode oob a (ds.*1) (ds.*2) = Ok (None, a') →
      let need := decode_pages (spage_size a) ds in
      sstep a used lost a' used
        (lost.1 + kept_pages need (sub_available_size (full_attn_allocator a) / spage_size a),
         lost.2 + kept_pages need (sub_available_size (swa_attn_allocator a) / spage_size a))
  | ss_free a used lost toks a' :
      (∀ x, x ∈ toks → x / spage_size a ∈ used) →
      (spage_size a = 1 → NoDup toks ∧ ∀ x, x ∈ toks → window_slot a x ≠ 0) →
      sfree level order a toks = Ok a' → sstep a used lost a' (kept_of (spage_size a) toks used) lost
  | ss_free_swa a used lost toks a' :
      (∀ x, x ∈ toks → x / spage_size a ∈ used) →
      (spage_size a = 1 → NoDup toks ∧ ∀ x, x ∈ toks → window_slot a x ≠ 0) →
      free_swa level order a toks = Ok a' → sstep a used lost a' used lost
  | ss_free_full a used lost toks a' :
      (∀ x, x ∈ toks → x / spage_size a ∈ used ∧ bare_page a (x / spage_size a)) → (spage_size a = 1 → NoDup toks) →
      free_full level a toks = Ok a' → sstep a used lost a' (kept_of (spage_size a) toks used) lost
  | ss_free_swa_segment a used lost seg start rest a' :
      start mod spage_size a = 0 → used ≡ₚ segment_pages (spage_size a) seg ++ rest →
      (∀ x, x ∈ every_nth (length seg) (Z.to_nat (spage_size a)) seg → window_slot a x ≠ 0) →
      free_swa_segment level order a seg start = Ok a' → sstep a used lost a' used lost
  | ss_free_segment a used lost seg start rest a' :
      start mod spage_size a = 0 → used ≡ₚ segment_pages (spage_size a) seg ++ rest →
      (∀ x, x ∈ every_nth (length seg) (Z.to_nat (spage_size a)) seg → window_slot a x ≠ 0) →
      sfree_segment level order a seg start = Ok a' → sstep a used lost a' rest lost
  | ss_free_full_segment a used lost seg start rest a' :
      start mod spage_size a = 0 → used ≡ₚ segment_pages (spage_size a) seg ++ rest →
      (∀ x, x ∈ seg → x / spage_size a ∈ used ∧ bare_page a (x / spage_size a)) →
      free_full_segment level a seg start = Ok a' → sstep a used lost a' rest lost
  | ss_begin a used lost a' : sfree_group a = None → sfree_group_begin a = Ok a' → sstep a used lost a' used lost
  | ss_end a used lost a' : sfree_group_end level order a = Ok a' → sstep a used lost a' used lost
  | ss_clear a used lost : sstep a used lost (sclear a) [] (0, 0)
  | ss_resize a used lost size_full size_swa :
      0 ≤ size_full → 0 ≤ size_swa → size_full + spage_size a < zlen (full_to_swa_index_mapping a) →
      sub_int32 (full_attn_allocator a) (spage_size a) size_full → sub_int32 (swa_attn_allocator a) (spage_size a) size_swa →
      sstep a used lost (sresize a size_full size_swa) [] (0, 0).

Inductive sreachable : Swa → list Z → Z * Z → Prop :=
  | sr_init size size_swa ps ns cuda k slots : 0 < ps → 0 ≤ size → 0 ≤ size_swa →
      int32_slots k (size / ps) ps → int32_slots k (size_swa / ps) ps →
      sreachable (swa_init size size_swa ps ns cuda false k None slots) [] (0, 0)
  | sr_step a used lost a' used' lost' : sreachable a used lost → sstep a used lost a' used' lost' → sreachable a' used' lost'.

Context (Horder : ∀ n, order n ≡ₚ seq 0 n).
Context (He : lightop_extend_ok lightop_alloc_extend).

(** The pages refused decode steps took are [lf] of the full pool, which have no
    window page, and [lw] of the window pool. *)
Record sinv_with (a : Swa) (used : list Z) (lost : Z * Z) (pf : Z → Z) (lf lw : list Z) : Prop := {
  sw_inv : swa_inv (L := lw) a (lf ++ used) pf;
  sw_bare : ∀ f, f ∈ lf → pf f = 0;
  sw_count : lost = (zlen lf, zlen lw)
}.
Definition sinv (a : Swa) (used : list Z) (lost : Z * Z) : Prop := ∃ pf lf lw, sinv_with a used lost pf lf lw.

Lemma swa_inv_perm {L : Lost} a used used' pf : used ≡ₚ used' → swa_inv a used pf → swa_inv a used' pf.
Proof.
  intros E Hi. rewrite <- (with_full_same a). eapply (full_give a used pf [] used'); try done.
  - intros q Hq. by apply not_elem_of_nil in Hq.
  - rewrite <- E. apply Hi.
Qed.

Lemma sinv_nodup a used lost pf lf lw : sinv_with a used lost pf lf lw → NoDup (lf ++ used).
Proof. intros [Hi _ _]. exact (sub_ok_nodup _ _ _ (si_full _ _ _ Hi)). Qed.

(** The pages of a call that gave [out]. *)
Lemma fresh_perm ps a' used lost pf lf lw out fs gs : 0 < ps → fresh ps used out fs →
  swa_inv (L := lw) a' (gs ++ lf ++ used) pf → (∀ f, f ∈ lf → pf f = 0) → lost = (zlen lf, zlen lw) →
  (∀ q, q ∈ gs → q * ps ∈ out) → (∀ x, x ∈ out → x / ps ∈ gs ++ used) → sinv a' (fs ++ used) lost.
Proof.
  intros Hps [Hnd Hfs] Hi Hb Hc Hh Hout. exists pf, lf, lw. split; [|done|done].
  pose proof (sub_ok_nodup _ _ _ (si_full _ _ _ Hi)) as Hn. apply NoDup_app in Hn as (Hng & Hd & _).
  eapply swa_inv_perm; [|exact Hi]. assert (gs ≡ₚ fs) as ->; [|solve_Permutation].
  apply NoDup_Permutation; [done|done|]. intros q. rewrite Hfs. split.
  - intros Hq. split; [|intros Hu; apply (Hd q Hq); rewrite elem_of_app; by right].
    apply list_elem_of_fmap. exists (q * ps). rewrite Z.div_mul by lia. split; [done|by apply Hh].
  - intros [Hq Hn]. apply list_elem_of_fmap in Hq as (x & -> & Hx). apply Hout, elem_of_app in Hx as [?|?]; done.
Qed.

Lemma taken_fresh a used lost pf lf lw need out a' fs : 0 < spage_size a → sinv_with a used lost pf lf lw →
  taken_in_step (L := lw) a (lf ++ used) pf need out a' → fresh (spage_size a) used out fs → sinv a' (fs ++ used) lost.
Proof.
  intros Hps [Hi Hb Hc] ((Eps & _) & gs & qs & _ & _ & Hh & _ & Hi' & _ & Hp) Hf.
  pose proof (sub_ok_nodup _ _ _ (si_full _ _ _ Hi')) as Hnd. apply NoDup_app in Hnd as (_ & Hd & _).
  assert (∀ f, f ∈ lf → pair_new gs qs pf f = 0) as Hb'.
  { intros f Hff. rewrite pair_new_other; [by apply Hb|]. intros Hg. apply (Hd f Hg). rewrite elem_of_app. by left. }
  eapply fresh_perm; try done. intros x Hx. rewrite Forall_forall in Hp. specialize (Hp x Hx). rewrite <- Eps in *.
  destruct (tb_pf _ _ _ _ _ (si_table _ _ _ Hi') (x / spage_size a')) as [_ Hu]. specialize (Hu Hp).
  rewrite !elem_of_app in *. destruct Hu as [?|[Hl|?]]; [by left| |by right]. by rewrite Hb' in Hp.
Qed.

Lemma bare_unpaired {L : Lost} a used pf f : swa_inv a used pf → f ∈ used → bare_page a f → pf f = 0.
Proof.
  intros Hi Hf Hb. pose proof (si_table _ _ _ Hi) as Ht. pose proof (tb_ps _ _ _ _ _ Ht).
  unfold bare_page, window_slot in Hb. rewrite (tb_rep _ _ _ _ _ Ht f Hf) in Hb. nia.
Qed.

Lemma sinv_clear a used lost : sinv a used lost → sinv (sclear a) [] (0, 0).
Proof.
  intros (pf & lf & lw & [[Hring Hf Hs Ht _ _ _] _ _]). exists (λ _, 0), [], []. split; [|done|done].
  assert (∀ s used, sub_ok (spage_size a) s used → sub_cfg (spage_size a) s) as Hcfg.
  { intros [t|p] u; cbn; [tauto|]. intros (? & E & [Hwf _ ?] & ? & ?). pose proof (pw_width _ _ Hwf) as Hw. rewrite E in Hw. done. }
  apply sclear_inv; [done|by eapply Hcfg|by eapply Hcfg|apply Ht|apply Ht].
Qed.

Lemma sub_resize_cfg ps s used sz : sub_ok ps s used → 0 ≤ sz → sub_int32 s ps sz →
  sub_cfg ps (sub_set_size s ps sz) ∧ sub_pages (sub_set_size s ps sz) * ps ≤ sz.
Proof.
  intros Hok Hsz Hw. destruct s as [t|p]; cbn in *; [destruct Hok as (-> & _); lia|].
  destruct Hok as (Hps & Eps & [_ _ Hd] & _). rewrite (proj2 (Z.ltb_lt 1 ps) Hps).
  pose proof (Z.mul_div_le sz ps ltac:(lia)). assert (0 ≤ sz / ps) by (apply Z.div_pos; lia). split_and!; done || lia.
Qed.

(** The table is not reallocated: a pool may only shrink to what it covers. *)
Lemma sinv_resize a used lost nf nw : sinv a used lost → 0 ≤ nf → 0 ≤ nw →
  nf + spage_size a < zlen (full_to_swa_index_mapping a) →
  sub_int32 (full_attn_allocator a) (spage_size a) nf → sub_int32 (swa_attn_allocator a) (spage_size a) nw →
  sinv (sresize a nf nw) [] (0, 0).
Proof.
  intros (pf & lf & lw & [[Hring Hf Hs Ht _ _ _] _ _]) Hnf Hnw Hlen W1 W2. exists (λ _, 0), [], []. split; [|done|done].
  destruct (sub_resize_cfg _ _ _ nf Hf Hnf W1) as [C1 P1], (sub_resize_cfg _ _ _ nw Hs Hnw W2) as [C2 _].
  unfold sresize. apply sclear_inv; cbn [full_attn_allocator swa_attn_allocator full_to_swa_index_mapping spage_size _swa_req_ring with_full with_swa with_sizes]; try done.
  - lia.
  - apply Ht.
Qed.

(** What the calls need of a request does not depend on pages in no pair. *)
Lemma linked_mono ps m used used' r : (∀ p, p ∈ used → p ∈ used') → linked ps m used r → linked ps m used' r.
Proof. intros Hin [? H]. split; [done|]. intros Hm. destruct (H Hm) as (? & ? & ?). split; [done|]. split; [by apply Hin|done]. Qed.

Lemma tail_call_mono a used used' r tail : (∀ p, p ∈ used → p ∈ used') → tail_call a used r tail → tail_call a used' r tail.
Proof. intros Hin [? ? ? H]. split; try done. intros Hm. destruct (H Hm). split; [done|by apply Hin]. Qed.

Lemma linked_lost a lf used rs : Forall (linked (spage_size a) (full_to_swa_index_mapping a) used) rs →
  Forall (linked (spage_size a) (full_to_swa_index_mapping a) (lf ++ used)) rs.
Proof. intros Hl. eapply Forall_impl; [exact Hl|]. intros r. apply linked_mono. intros p Hp. rewrite elem_of_app. by right. Qed.

Lemma list_filter_all {A} (P : A → Prop) `{!∀ x, Decision (P x)} (l : list A) : (∀ x, x ∈ l → P x) → filter P l = l.
Proof.
  induction l as [|x l IH]; intros Hl; [done|]. rewrite filter_cons_True by (apply Hl; by left). f_equal. apply IH.
  intros y Hy. apply Hl. by right.
Qed.

(** Frees of pages in use leave the others. *)
Lemma kept_lost ps toks lf used : NoDup (lf ++ used) → (∀ x, x ∈ toks → x / ps ∈ used) →
  kept_of ps toks (lf ++ used) = lf ++ kept_of ps toks used.
Proof.
  intros (_ & Hd & _)%NoDup_app Hin. unfold kept_of. rewrite filter_app. f_equal. apply list_filter_all.
  intros p Hp Ht. apply list_elem_of_fmap in Ht as (x & -> & Hx). by apply (Hd _ Hp), Hin.
Qed.

Lemma unpair_zero fs pf f : pf f = 0 → unpair fs pf f = 0.
Proof. intros E. unfold unpair. by case_decide. Qed.

(** A decode step that one pool refused. *)
Lemma sinv_decode_none a used lost ds a' : sinv a used lost → 1 < spage_size a → decode_linked a used ds →
  salloc_decode oob a (ds.*1) (ds.*2) = Ok (None, a') →
  let need := decode_pages (spage_size a) ds in
  sinv a' used (lost.1 + kept_pages need (sub_available_size (full_attn_allocator a) / spage_size a),
                lost.2 + kept_pages need (sub_available_size (swa_attn_allocator a) / spage_size a)).
Proof.
  intros (pf & lf & lw & [Hi Hb ->]) Hps [Hf1 Hl] E need.
  pose proof (salloc_decode_ok (L := lw) oob a (lf ++ used) pf ds Hi Hps (conj Hf1 (linked_lost a lf used _ Hl))) as H. cbv zeta in H. rewrite E in H.
  destruct H as (_ & Em & fs & qs & Hlf & Hlq & HokF & SF & HokS & SS).
  assert (a' = with_full (full_attn_allocator a') (with_swa (swa_attn_allocator a') a)) as Ea.
  { clear -E Em Hi Hps. unfold salloc_decode in E. rewrite (proj2 (Z.ltb_lt _ _) Hps), (si_ring _ _ _ Hi) in E. cbn [assert_ rbind] in E.
    destruct (translate_loc_from_full_to_swa _ _) as [l|]; [|done]. cbn [rbind] in E.
    destruct (sub_alloc_decode _ (full_attn_allocator a) _ _) as [[oF f]|]; [|done]. cbn [rbind] in E.
    destruct (sub_alloc_decode _ (swa_attn_allocator a) _ _) as [[oS w]|]; [|done]. cbn [rbind] in E.
    destruct oF as [oF|], oS as [oS|]; try by injection E as <-.
    destruct (scatter _ _ _); done. }
  assert (swa_inv (L := qs ++ lw) (with_swa (swa_attn_allocator a') a) (lf ++ used) pf) as Hi1.
  { destruct Hi as [Hring Hff Hs Ht Hg Hc Htk]. destruct SS as (S1 & S2 & S3). split; cbn; try done; [|by rewrite S3].
    eapply sub_ok_perm; [|exact HokS]. change (swa_waiting (with_swa _ a)) with (swa_waiting a).
    unfold lost_pages. set (x := swa_waiting a). set (y := peers pf _). solve_Permutation. }
  exists pf, (fs ++ lf), (qs ++ lw). rewrite Ea. split.
  - rewrite <- app_assoc. exact (tail_none _ _ _ _ _ Hi1 HokF SF).
  - intros f [Hff|Hff]%elem_of_app; [|by apply Hb]. destruct (tb_pf _ _ _ _ _ (si_table _ _ _ Hi) f) as [_ Hu].
    destruct (decide (pf f = 0)); [done|]. exfalso. pose proof (sub_ok_nodup _ _ _ HokF) as Hnd. apply NoDup_app in Hnd as (_ & Hd & _).
    by apply (Hd f Hff), Hu.
  - rewrite !zlen_app. unfold kept_pages. fold need in Hlf, Hlq. cbn [fst snd]. f_equal; lia.
Qed.

Lemma sinv_step a used lost a' used' lost' : sinv a used lost → sstep a used lost a' used' lost' → sinv a' used' lost'.
Proof.
  intros Hs0 Hs. pose proof Hs0 as (pf & lf & lw & Hw). pose proof Hw as [Hi Hb Hc]. pose proof (tb_ps _ _ _ _ _ (si_table _ _ _ Hi)) as Hps.
  pose proof (sinv_nodup _ _ _ _ _ _ Hw) as Hnd.
  assert (∀ p, p ∈ used → p ∈ lf ++ used) as Hsub by (intros p Hp; rewrite elem_of_app; by right).
  assert (∀ seg rest, used ≡ₚ seg ++ rest → lf ++ used ≡ₚ seg ++ lf ++ rest) as Hseg by (intros seg rest ->; solve_Permutation).
  destruct Hs as [a used lost need out a' fs E1 Hn E Hf|a used lost need a' E1 Hn E|a used lost rs out a' fs Hp Hbo Hl E Hf
    |a used lost rs a' Hp Hbo Hl E|a used lost r tail out a' fs Hp Htc E Hf|a used lost r tail a' Hp Htc E
    |a used lost ds out a' fs Hp [Hd1 Hl] E Hf|a used lost ds a' Hp Hl E need
    |a used lost toks a' Hin H1 E|a used lost toks a' Hin H1 E|a used lost toks a' Hin H1 E
    |a used lost seg start rest a' Hst Hu Hm E|a used lost seg start rest a' Hst Hu Hm E|a used lost seg start rest a' Hst Hu Hx E
    |a used lost a' Eg E|a used lost a' E|a used lost|a used lost nf nw Hnf Hnw Hlen W1 W2].
  - pose proof (salloc_ok a _ pf need Hi E1 Hn) as H. cbv zeta in H. rewrite E in H. destruct H as (_ & _ & H).
    rewrite <- E1 in Hf. by eapply taken_fresh.
  - pose proof (salloc_ok a _ pf need Hi E1 Hn) as H. cbv zeta in H. rewrite E in H. by destruct H as [_ ->].
  - pose proof (salloc_extend_ok lightop_alloc_extend oob He a _ pf rs Hi Hp Hbo (linked_lost a lf used rs Hl)) as H. cbv zeta in H. rewrite E in H.
    destruct H as (_ & _ & H). by eapply taken_fresh.
  - pose proof (salloc_extend_ok lightop_alloc_extend oob He a _ pf rs Hi Hp Hbo (linked_lost a lf used rs Hl)) as H. cbv zeta in H. rewrite E in H.
    by destruct H as [_ ->].
  - pose proof (swa_tail_ok lightop_alloc_extend oob He a _ pf r tail Hi Hp (tail_call_mono _ _ _ _ _ Hsub Htc)) as H. cbv zeta in H. rewrite E in H.
    destruct H as (_ & bare & gs & qs & _ & _ & _ & Hh & Hout & Hi' & _). rewrite app_assoc in Hi'.
    assert (∀ f, f ∈ lf → pair_new gs qs pf f = 0) as Hb'.
    { pose proof (sub_ok_nodup _ _ _ (si_full _ _ _ Hi')) as Hn. apply NoDup_app in Hn as (_ & Hd & _).
      intros f Hff. rewrite pair_new_other; [by apply Hb|]. intros Hg. apply (Hd f); rewrite elem_of_app; by auto. }
    eapply fresh_perm; try done. intros x Hx. rewrite Forall_forall in Hout. rewrite elem_of_app.
    destruct (Hout x Hx) as [?|[Hm ->]]; [by left|]. right. by apply (tc_last _ _ _ _ Htc).
  - pose proof (swa_tail_ok lightop_alloc_extend oob He a _ pf r tail Hi Hp (tail_call_mono _ _ _ _ _ Hsub Htc)) as H. cbv zeta in H. rewrite E in H.
    by destruct H as [_ ->].
  - pose proof (salloc_decode_ok oob a _ pf ds Hi Hp (conj Hd1 (linked_lost a lf used _ Hl))) as H. cbv zeta in H. rewrite E in H.
    destruct H as (_ & _ & _ & H). by eapply taken_fresh.
  - by apply sinv_decode_none.
  - destruct (sfree_ok level order Horder a _ pf toks Hi (λ x Hx, Hsub _ (Hin x Hx)) H1) as (b & E' & _ & Hb1). rewrite E in E'. injection E' as <-.
    rewrite kept_lost in Hb1 by done. eexists _, lf, lw. split; [exact Hb1| |done]. intros f Hf. by apply unpair_zero, Hb.
  - destruct (free_swa_ok level order Horder a _ pf toks Hi (λ x Hx, Hsub _ (Hin x Hx)) H1) as (b & E' & _ & Hb1). rewrite E in E'. injection E' as <-.
    eexists _, lf, lw. split; [exact Hb1| |done]. intros f Hf. by apply unpair_zero, Hb.
  - destruct (free_full_ok level a _ pf toks Hi) as (b & E' & _ & Hb1); [|done|].
    { intros x Hx. destruct (Hin x Hx). split; [by apply Hsub|]. eapply bare_unpaired; [done|by apply Hsub|done]. }
    rewrite E in E'. injection E' as <-. rewrite kept_lost in Hb1 by (done || naive_solver). by exists pf, lf, lw.
  - destruct (free_swa_segment_ok level order Horder a _ pf seg start _ Hi Hst (Hseg _ _ Hu) Hm) as (b & E' & _ & Hb1).
    rewrite E in E'. injection E' as <-. eexists _, lf, lw. split; [exact Hb1| |done]. intros f Hf. by apply unpair_zero, Hb.
  - destruct (sfree_segment_ok level order Horder a _ pf seg start _ Hi Hst (Hseg _ _ Hu) Hm) as (b & E' & _ & Hb1).
    rewrite E in E'. injection E' as <-. eexists _, lf, lw. split; [exact Hb1| |done]. intros f Hf. by apply unpair_zero, Hb.
  - destruct (free_full_segment_ok level a _ pf seg start _ Hi Hst (Hseg _ _ Hu)) as (b & E' & _ & Hb1).
    { intros x Hin. destruct (Hx x Hin). split; [by apply Hsub|]. eapply bare_unpaired; [done|by apply Hsub|done]. }
    rewrite E in E'. injection E' as <-. by exists pf, lf, lw.
  - destruct (sfree_group_begin_ok a _ pf Hi Eg) as (b & E' & _ & _ & Hb1). rewrite E in E'. injection E' as <-. by exists pf, lf, lw.
  - destruct (sfree_group_end_ok level order a _ pf Hi) as (b & E' & _ & _ & Hb1). rewrite E in E'. injection E' as <-. by exists pf, lf, lw.
  - by eapply sinv_clear.
  - by eapply sinv_resize.
Qed.

Lemma sreachable_inv a used lost : sreachable a used lost → sinv a used lost.
Proof.
  induction 1 as [size size_swa ps ns cuda k slots ?????|a used lost a' used' lost' _ IH Hs]; [|by eapply sinv_step].
  exists (λ _, 0), [], []. split; [by apply swa_init_inv|done|done].
Qed.

(** ** What holds in every state *)

(** The full pages in use that have a window page. *)
Definition paired_pages (a : Swa) (used : list Z) : list Z := filter (λ f, ¬ bare_page a f) used.

Lemma zlen_peers {L : Lost} a all used pf : swa_inv a all pf → (∀ f, f ∈ used → f ∈ all) →
  zlen (peers pf used) = zlen (paired_pages a used).
Proof.
  intros Hi Hsub. pose proof (si_table _ _ _ Hi) as Ht. pose proof (tb_ps _ _ _ _ _ Ht) as Hps.
  assert (∀ f, f ∈ used → window_slot a (f * spage_size a) = pf f * spage_size a) as Hrep by (intros f Hf; by apply Ht, Hsub).
  assert (∀ f, 0 ≤ pf f) as H0 by (intros f; by apply (tb_pf _ _ _ _ _ Ht)). clear Hi Ht Hsub.
  unfold zlen, paired_pages, peers. induction used as [|f used IH]; [done|]. rewrite fmap_cons, filter_cons. cbn [List.filter].
  specialize (IH ltac:(intros g Hg; apply Hrep; by right)). pose proof (Hrep f ltac:(by left)) as Hf. pose proof (H0 f).
  destruct (Z.ltb_spec 0 (pf f)), (decide (¬ bare_page a f)) as [Hb|Hb]; unfold bare_page in Hb; rewrite Hf in Hb; cbn; lia || (exfalso; nia).
Qed.

Lemma window_in_step {L : Lost} a used pf x : swa_inv a used pf → x / spage_size a ∈ used → window_slot a x ≠ 0 →
  window_slot a x / spage_size a = pf (x / spage_size a) ∧ window_slot a x mod spage_size a = x mod spage_size a ∧
  0 < pf (x / spage_size a).
Proof.
  intros Hi Hu Hne. pose proof (si_table _ _ _ Hi) as Ht. pose proof (tb_ps _ _ _ _ _ Ht) as Hps.
  destruct (tb_slot _ _ _ _ _ Ht x) as [|[Hp E]]; [by eapply slot_range|done|]. unfold window_slot. rewrite E.
  pose proof (Z.mod_pos_bound x (spage_size a) Hps). destruct (tb_pf _ _ _ _ _ Ht (x / spage_size a)) as [H0 _].
  rewrite (Z.add_comm (_ * _)), Z.div_add, Z.div_small, Z.mod_add, Z.mod_small by lia. lia.
Qed.

(** Different full pages have different window pages. *)
Lemma window_injective {L : Lost} a used pf f g : swa_inv a used pf → f ∈ used → g ∈ used → 0 < pf f → pf f = pf g → f = g.
Proof.
  intros Hi Hf Hg Hpos E. pose proof (sub_ok_nodup _ _ _ (si_swa _ _ _ Hi)) as Hnd.
  apply NoDup_app in Hnd as (_ & _ & Hnd). apply NoDup_app in Hnd as (Hnd & _ & _). destruct (decide (f = g)) as [|Hne]; [done|]. exfalso.
  apply list_elem_of_split in Hf as (l1 & l2 & ->).
  rewrite peers_app in Hnd. unfold peers at 2 in Hnd. rewrite fmap_cons in Hnd. cbn [List.filter] in Hnd.
  rewrite (proj2 (Z.ltb_lt _ _) Hpos) in Hnd. fold (peers pf l2) in Hnd.
  apply NoDup_app in Hnd as (_ & Hd & Hnd). apply NoDup_cons in Hnd as [Hn _].
  assert (∀ l, g ∈ l → pf f ∈ peers pf l) as Hin by (intros l Hl; apply elem_of_peers; eauto).
  apply elem_of_app in Hg as [Hj|Hj]; [apply (Hd (pf f)); [by apply Hin|by left]|].
  apply elem_of_cons in Hj as [->|Hj]; [done|]. by apply Hn, Hin.
Qed.

(** The window pages of the pages in use are those of the pages the client has. *)
Lemma peers_lost a used lost pf lf lw : sinv_with a used lost pf lf lw → zlen (peers pf (lf ++ used)) = zlen (paired_pages a used).
Proof.
  intros [Hi Hb _]. rewrite peers_app, (peers_none pf lf Hb). eapply zlen_peers; [done|]. intros f Hf. rewrite elem_of_app. by right.
Qed.

Lemma swa_state_facts a used lost : sinv a used lost →
  full_available_size a
    = (sub_pages (full_attn_allocator a) - zlen used - lost.1 - zlen (sub_waiting (full_attn_allocator a))) * spage_size a ∧
  sub_available_size (swa_attn_allocator a)
    = (sub_pages (swa_attn_allocator a) - zlen (paired_pages a used) - lost.2 - zlen (swa_waiting a)) * spage_size a ∧
  (∀ x, x / spage_size a ∈ used → window_slot a x ≠ 0 →
     window_slot a x mod spage_size a = x mod spage_size a ∧
     1 ≤ window_slot a x / spage_size a ≤ sub_pages (swa_attn_allocator a)) ∧
  (∀ x y, x / spage_size a ∈ used → y / spage_size a ∈ used → window_slot a x ≠ 0 → window_slot a y ≠ 0 →
     window_slot a x / spage_size a = window_slot a y / spage_size a ↔ x / spage_size a = y / spage_size a).
Proof.
  intros (pf & lf & lw & Hw). pose proof Hw as [Hi Hb ->]. pose proof Hi as [_ Hf Hs Ht _ Hc _]. cbn [fst snd].
  assert (∀ p, p ∈ used → p ∈ lf ++ used) as Hsub by (intros p Hp; rewrite elem_of_app; by right). split_and!.
  - unfold full_available_size. rewrite (sub_available_exact _ _ _ Hf), zlen_app. f_equal. lia.
  - rewrite (sub_available_exact _ _ _ Hs), (sub_waiting_closed _ _ _ Hs Hc), !zlen_app, (peers_lost _ _ _ _ _ _ Hw).
    change (zlen (@lost_pages lw)) with (zlen lw). change (zlen []) with 0. f_equal. lia.
  - intros x Hx Hne. destruct (window_in_step a _ pf x Hi (Hsub _ Hx) Hne) as (E1 & E2 & Hp). split; [done|]. rewrite E1.
    eapply sub_ok_range; [done|]. rewrite !elem_of_app, elem_of_peers. right. left. eauto.
  - intros x y Hx Hy Hnx Hny. destruct (window_in_step a _ pf x Hi (Hsub _ Hx) Hnx) as (-> & _ & Hpx).
    destruct (window_in_step a _ pf y Hi (Hsub _ Hy) Hny) as (-> & _ & Hpy). split; [|congruence].
    eapply window_injective; [done|by apply Hsub|by apply Hsub|done].
Qed.

(** C24: in every state a client can reach, also by calls that are refused, each
    pool's free slots are exactly its pages less those in use, those waiting in a
    group and those that refused decode steps took (as many as the step needed,
    from each pool that had them), where the window pages in use are those of the
    paired full pages; a full slot's window slot stands at the same offset of a
    real window page; and two full slots share a window page exactly when they
    share a full page. *)
Theorem swa_pools_in_step a used lost :
  sreachable a used lost →
  full_available_size a
    = (sub_pages (full_attn_allocator a) - zlen used - lost.1 - zlen (sub_waiting (full_attn_allocator a))) * spage_size a ∧
  sub_available_size (swa_attn_allocator a)
    = (sub_pages (swa_attn_allocator a) - zlen (paired_pages a used) - lost.2 - zlen (swa_waiting a)) * spage_size a ∧
  (∀ x, x / spage_size a ∈ used → window_slot a x ≠ 0 →
     window_slot a x mod spage_size a = x mod spage_size a ∧
     1 ≤ window_slot a x / spage_size a ≤ sub_pages (swa_attn_allocator a)) ∧
  (∀ x y, x / spage_size a ∈ used → y / spage_size a ∈ used → window_slot a x ≠ 0 → window_slot a y ≠ 0 →
     window_slot a x / spage_size a = window_slot a y / spage_size a ↔ x / spage_size a = y / spage_size a).
Proof. intros Hr. apply swa_state_facts. by apply sreachable_inv. Qed.

(** ** Taking *)

Lemma closed_available {L : Lost} a used pf : swa_inv a used pf → sfree_group a = None →
  full_available_size a = (sub_pages (full_attn_allocator a) - zlen used) * spage_size a ∧
  sub_available_size (swa_attn_allocator a) = (sub_pages (swa_attn_allocator a) - zlen (peers pf used) - zlen lost_pages) * spage_size a.
Proof.
  intros [_ Hf Hs _ Hg Hc _] Eg. rewrite Eg in Hg. destruct Hg as (Ho & E1 & E2). unfold full_available_size.
  rewrite (sub_available_exact _ _ _ Hf), (sub_waiting_closed _ _ _ Hf Ho).
  rewrite (sub_available_exact _ _ _ Hs), (sub_waiting_closed _ _ _ Hs Hc). unfold swa_waiting. rewrite E1, E2.
  change (tok_pend (spage_size a) [] ++ mjoin []) with (@nil Z). change (zlen []) with 0. rewrite !Z.sub_0_r, app_nil_l, zlen_app.
  split; [done|]. f_equal. lia.
Qed.

(** Slots handed out with a window slot each, in step, and pages taken from both. *)
Definition handed_out (a : Swa) (need : Z) (out : list Z) (a' : Swa) : Prop :=
  Forall (λ x, window_slot a' x ≠ 0 ∧ window_slot a' x mod spage_size a = x mod spage_size a) out ∧
  full_available_size a' = full_available_size a - need * spage_size a ∧
  sub_available_size (swa_attn_allocator a') = sub_available_size (swa_attn_allocator a) - need * spage_size a.

Lemma translate_window a out l : translate_loc_from_full_to_swa a out = Ok l → Forall (in_range (full_to_swa_index_mapping a)) out →
  window_slot a <$> out = l.
Proof. intros E Hf. unfold translate_loc_from_full_to_swa in E. rewrite gather_ok in E by done. by injection E. Qed.

Lemma taken_handed_out {L : Lost} a used pf need out a' : swa_inv a used pf → sfree_group a = None → taken_in_step a used pf need out a' → handed_out a need out a'.
Proof.
  intros Hi Eg ((Eps & Eg' & E1 & E2) & fs & qs & Hlf & Hlq & Hh & Hpos & Hi' & Htr & Hp). rewrite Eg in Eg'.
  pose proof (si_table _ _ _ Hi') as Ht'. destruct (closed_available _ _ _ Hi Eg) as [A1 A2], (closed_available _ _ _ Hi' Eg') as [B1 B2].
  rewrite Forall_forall in Hp. assert (∀ x, x ∈ out → x / spage_size a' ∈ fs ++ used) as Hin.
  { intros x Hx. rewrite <- Eps in Hp. by eapply (tb_pf _ _ _ _ _ Ht'), Hp. }
  split_and!.
  - apply Forall_forall. intros x Hx. rewrite <- Eps in *. pose proof (Hp x Hx) as Hne.
    assert (window_slot a' x = in_step (spage_size a') (pair_new fs qs pf) x) as Ew.
    { apply translate_window in Htr; [|apply Forall_forall; intros y Hy; by eapply table_in_range, slot_range, Hin].
      apply list_elem_of_lookup_1 in Hx as [i Hx]. apply (f_equal (.!! i)) in Htr. rewrite !list_lookup_fmap, Hx in Htr. by injection Htr. }
    rewrite Ew. unfold in_step. destruct (tb_pf _ _ _ _ _ Ht' (x / spage_size a')) as [H0 _].
    pose proof (tb_ps _ _ _ _ _ Ht'). pose proof (Z.mod_pos_bound x (spage_size a') ltac:(lia)).
    rewrite Z.add_comm, Z.mod_add, Z.mod_mod by lia. split; [nia|done].
  - rewrite B1, A1, E1, Eps, zlen_app. lia.
  - rewrite B2, A2, E2, Eps. assert (zlen (peers (pair_new fs qs pf) (fs ++ used)) = zlen qs + zlen (peers pf used)); [|lia].
    rewrite peers_pair_new, zlen_app; [done|by eapply sub_ok_nodup, Hi'|unfold zlen in *; lia|done].
Qed.

(** Pages both pools can still give. *)
Definition room (a : Swa) : Z :=
  Z.min (full_available_size a / spage_size a) (sub_available_size (swa_attn_allocator a) / spage_size a).

(** Outside a free group, [alloc_extend] of a batch whose requests continue
    slots that have window slots answers [None], with nothing changed, exactly
    when one of the pools has fewer pages than the batch needs; otherwise it
    gives every token a full slot with a window slot at the same offset of its
    page, and takes exactly the pages needed from both pools.  It never raises. *)
Theorem swa_extend_in_step a used lost rs :
  sreachable a used lost → sfree_group a = None → 1 < spage_size a → batch_ok rs →
  Forall (linked (spage_size a) (full_to_swa_index_mapping a) used) rs →
  let need := sum_pages (spage_size a) rs in
  match salloc_extend lightop_alloc_extend oob a (r_prefix <$> rs) (r_seq <$> rs) (r_last <$> rs) (sum_ext rs) with
  | Ok (None, a') => room a < need ∧ a' = a
  | Ok (Some out, a') => need ≤ room a ∧ zlen out = sum_ext rs ∧ handed_out a need out a'
  | Raise _ => False
  end.
Proof.
  intros Hr Eg Hps Hb Hl need. destruct (sreachable_inv a used lost Hr) as (pf & lf & lw & [Hi _ _]).
  pose proof (salloc_extend_ok lightop_alloc_extend oob He a _ pf rs Hi Hps Hb (linked_lost a lf used rs Hl)) as H. cbv zeta in H. fold need in H.
  destruct (salloc_extend _ _ _ _ _ _ _) as [[[out|] a']|]; [|done|done]. destruct H as (H1 & H2 & H3).
  split; [done|]. split; [done|]. by eapply taken_handed_out.
Qed.

(** ** Giving everything back *)

(** The slots of paged-out requests go back to both pools, those whose window
    side went back before to the full pool alone; one slot names its page. *)
Definition drain (a : Swa) (used : list Z) : result Swa :=
  let! a' := sfree level order a ((λ f, f * spage_size a) <$> paired_pages a used) in
  free_full level a' ((λ f, f * spage_size a) <$> filter (bare_page a) used).

Lemma toks_pages_starts ps l : 0 < ps → toks_pages ps ((λ f, f * ps) <$> l) = l.
Proof.
  intros Hps. unfold toks_pages. rewrite <- list_fmap_compose. rewrite <- (list_fmap_id l) at 2. apply list_fmap_ext.
  intros i f _. unfold compose. by rewrite Z.div_mul by lia.
Qed.

Lemma NoDup_starts ps l : 0 < ps → NoDup l → NoDup ((λ f, f * ps) <$> l).
Proof. intros Hps Hnd. apply NoDup_fmap_2_strong; [|done]. intros f g _ _ E. nia. Qed.

Lemma elem_of_paired a used f : f ∈ paired_pages a used ↔ f ∈ used ∧ ¬ bare_page a f.
Proof. unfold paired_pages. rewrite list_elem_of_filter. tauto. Qed.

(** From every state a client can reach outside a free group, giving back the
    paired pages and then the bare ones succeeds and leaves both pools with every
    page free but those refused decode steps took, however much of the window
    side went back early. *)
Theorem swa_drains a used lost :
  sreachable a used lost → sfree_group a = None →
  ∃ a', drain a used = Ok a' ∧
    full_available_size a' = (sub_pages (full_attn_allocator a) - lost.1) * spage_size a ∧
    sub_available_size (swa_attn_allocator a') = (sub_pages (swa_attn_allocator a) - lost.2) * spage_size a.
Proof.
  intros Hr Eg. destruct (sreachable_inv a used lost Hr) as (pf & lf & lw & Hw). pose proof Hw as [Hi Hb ->].
  pose proof (tb_ps _ _ _ _ _ (si_table _ _ _ Hi)) as Hps.
  pose proof (sinv_nodup _ _ _ _ _ _ Hw) as Hnd0. pose proof Hnd0 as (_ & _ & Hnd)%NoDup_app. set (ps := spage_size a) in *.
  assert (∀ p, p ∈ used → p ∈ lf ++ used) as Hsub by (intros p Hp; rewrite elem_of_app; by right).
  set (toks1 := (λ f, f * ps) <$> paired_pages a used). set (toks2 := (λ f, f * ps) <$> filter (bare_page a) used).
  assert (toks_pages ps toks1 = paired_pages a used) as T1 by by apply toks_pages_starts.
  assert (toks_pages ps toks2 = filter (bare_page a) used) as T2 by by apply toks_pages_starts.
  assert (∀ x, x ∈ toks1 → x / ps ∈ used) as Hin1.
  { intros x Hx. apply list_elem_of_fmap in Hx as (f & -> & Hf). rewrite Z.div_mul by lia. by apply elem_of_paired in Hf as [? _]. }
  destruct (sfree_ok level order Horder a _ pf toks1 Hi (λ x Hx, Hsub _ (Hin1 x Hx))) as (a1 & E1 & (P1 & P2 & P3 & P4) & Hi1).
  { intros _. split; [by apply NoDup_starts, NoDup_filter|]. intros x Hx. apply list_elem_of_fmap in Hx as (f & -> & Hf).
    by apply elem_of_paired in Hf as [_ ?]. }
  fold ps in Hi1, P1. rewrite T1, kept_lost in Hi1 by done. fold ps in Hi1.
  assert (∀ x, x ∈ toks2 → x / ps ∈ kept_of ps toks1 used) as Hin2.
  { intros x Hx. apply list_elem_of_fmap in Hx as (f & -> & Hf). rewrite Z.div_mul by lia. apply list_elem_of_filter in Hf as [Hbf Hf].
    rewrite kept_elem, T1, elem_of_paired. tauto. }
  destruct (free_full_ok level a1 _ _ toks2 Hi1) as (a2 & E2 & (Q1 & Q2 & Q3 & _ & Q4 & _) & Hi2); rewrite ?P1.
  { intros x Hx. pose proof (Hin2 x Hx) as Hk. apply list_elem_of_fmap in Hx as (f & -> & Hf). rewrite Z.div_mul in * by lia.
    apply list_elem_of_filter in Hf as [Hbf Hf]. split; [rewrite elem_of_app; by right|].
    apply unpair_zero. by eapply bare_unpaired; [done|apply Hsub|]. }
  { intros _. by apply NoDup_starts, NoDup_filter. }
  assert (kept_of ps toks2 (kept_of ps toks1 used) = []) as Ek.
  { destruct (kept_of ps toks2 _) as [|q l] eqn:Ek; [done|]. exfalso.
    assert (q ∈ kept_of ps toks2 (kept_of ps toks1 used)) as Hq by (rewrite Ek; by left).
    rewrite !kept_elem, T1, T2, elem_of_paired, list_elem_of_filter in Hq. destruct (decide (bare_page a q)); tauto. }
  rewrite P1, kept_lost, Ek, app_nil_r in Hi2; [|exact (sub_ok_nodup _ _ _ (si_full _ _ _ Hi1))|done].
  exists a2. unfold drain. fold ps toks1 toks2. rewrite E1. cbn [rbind]. split; [done|].
  destruct (closed_available a2 lf _ Hi2 ltac:(congruence)) as [A1 A2]. rewrite A1, A2.
  rewrite peers_none by (intros f Hf; by apply unpair_zero, Hb). change (zlen (@lost_pages lw)) with (zlen lw).
  change (zlen []) with 0. rewrite !Z.sub_0_r, Q2, P1, Q4, P3, Q1, P4. done.
Qed.

(** ** A decode step with one pool short *)

(** Outside a free group, a decode step for which the full pool has the pages
    and the window pool has not returns [None] although it has taken the pages
    from the full pool: they belong to no request, and giving everything back
    does not bring them back.  [alloc_extend] looks at both pools first;
    [alloc_decode] does not. *)
Theorem swa_decode_keeps_pages a used lost ds :
  sreachable a used lost → sfree_group a = None → 1 < spage_size a → decode_linked a used ds →
  let need := decode_pages (spage_size a) ds in
  need ≤ full_available_size a / spage_size a → sub_available_size (swa_attn_allocator a) / spage_size a < need →
  ∃ a', salloc_decode oob a (ds.*1) (ds.*2) = Ok (None, a') ∧
    full_available_size a' = full_available_size a - need * spage_size a ∧
    sreachable a' used (lost.1 + need, lost.2).
Proof.
  intros Hr Eg Hps Hl need H1 H2. destruct (sreachable_inv a used lost Hr) as (pf & lf & lw & [Hi _ _]). pose proof Hl as [Hd1 Hl1].
  pose proof (salloc_decode_ok oob a _ pf ds Hi Hps (conj Hd1 (linked_lost a lf used _ Hl1))) as H. cbv zeta in H. fold need in H.
  unfold full_available_size in *.
  destruct (salloc_decode _ _ _ _) as [[[out|] a']|] eqn:E; [lia| |done]. exists a'. split; [done|]. split.
  - destruct H as (_ & _ & fs & qs & Hlf & _ & HokF & (S1 & _ & S3) & _). rewrite decide_True in Hlf by done.
    pose proof Hi as [_ Hf _ _ Hg _ _]. rewrite Eg in Hg. destruct Hg as (Ho & _). rewrite <- S3 in Ho.
    rewrite (sub_available_exact _ _ _ HokF), (sub_waiting_closed _ _ _ HokF Ho), S1, zlen_app.
    rewrite (sub_available_exact _ _ _ Hf), (sub_waiting_closed _ _ _ Hf) by congruence. lia.
  - pose proof (ss_decode_none a used lost ds a' Hps Hl E) as Hst. cbv zeta in Hst. unfold kept_pages in Hst. fold need in Hst.
    rewrite decide_True, decide_False, Z.add_0_r in Hst by lia. by eapply sr_step.
Qed.
End runs.
