(* ===== verification/SwaRow.v ===== *)
(** * The row of a request of a sliding-window model

    While a request runs, the window slots of tokens that left the window go back
    ([mem_cache/common.py: free_swa_out_of_window_slots], called from
    [ScheduleBatch.maybe_evict_swa]); the cursor of the request remembers how
    far.  When it ends, [free_kv_row_segments] gives the evicted part back on the
    full side only and the rest on both sides.  Together every page of the row
    goes back once to each pool. *)
From S2P Require Import Prelude RadixKey EvictPolicy RadixCache TokenAllocator PagedKernels PagedAllocator.
From S2P Require Import KvRow KvTheorems KvAlloc KvPlace SwaAllocator SwaInv SwaKernel SwaPair SwaAlloc SwaTail SwaTheorems.

(** ** Evicting behind the window *)

(** [component_evicted_seqlens[t] = length]. *)
Definition set_evicted_seqlen (t : ComponentType) (length : Z) (k : ReqKvInfo) : ReqKvInfo :=
  let ev := component_evicted_seqlens k in
  let ev := match list_find (λ p, p.1 = t) ev with
            | Some (i, _) => <[ i := (t, length) ]> ev
            | None => ev ++ [(t, length)]
            end in
  kv_with (req_pool_idx k) (cache_protected_len k) (cache_inserted_len k) (kv_allocated_len k) ev k.

(** Up to where the window slots may go. *)
Definition evict_threshold (pre_len window page_size : Z) (supports_prefix_sharing : bool) (retain_floor : option Z) : Z :=
  if supports_prefix_sharing then
    let t := pre_len - ceil_align (Z.max window page_size) page_size in
    match retain_floor with Some f => Z.min t f | None => t end
  else pre_len - window.

Section evict.
Context (level : InvariantCheckLevel) (order : nat → list nat).
Context (window page_size : Z) (supports_prefix_sharing : bool) (retain_floor : option Z) (eviction_interval : Z).

(** For the component [SWA], whose free is the allocator's [free_swa_segment]. *)
Definition free_swa_out_of_window_slots (pre_len : Z) (p : ReqToTokenPool) (k : ReqKvInfo) (a : Swa) : result (ReqKvInfo * Swa) :=
  if negb (holds_kv k) then Ok (k, a)
  else
    assert! cache_protected_len k mod page_size =? 0 in
    let evicted_seqlen := get_evicted_seqlen SWA k in
    if pre_len - window <? evicted_seqlen + eviction_interval then Ok (k, a)
    else
      let evicted_seqlen := Z.max evicted_seqlen (swa_dead_lo page_size k) in
      let k := set_evicted_seqlen SWA evicted_seqlen k in
      let new_evicted_seqlen :=
        Z.max evicted_seqlen (evict_threshold pre_len window page_size supports_prefix_sharing retain_floor) in
      let new_evicted_seqlen := if 1 <? page_size then page_align_floor new_evicted_seqlen page_size else new_evicted_seqlen in
      if evicted_seqlen <? new_evicted_seqlen then
        let! row := get_row (req_pool_idx k) p in
        let! a := free_swa_segment level order a (pyslice row evicted_seqlen new_evicted_seqlen) evicted_seqlen in
        Ok (set_evicted_seqlen SWA new_evicted_seqlen k, a)
      else Ok (k, a).
End evict.

Lemma get_set_evicted z k : get_evicted_seqlen SWA (set_evicted_seqlen SWA z k) = z.
Proof.
  unfold get_evicted_seqlen, set_evicted_seqlen. cbn. set (ev := component_evicted_seqlens k).
  destruct (list_find (λ p, p.1 = SWA) ev) as [[i [t z']]|] eqn:E.
  - apply list_find_Some in E as (Hi & Ht & Hn). cbn in Ht. subst t.
    assert (list_find (λ p, p.1 = SWA) (<[ i := (SWA, z) ]> ev) = Some (i, (SWA, z))) as ->; [|done].
    apply list_find_Some. split; [apply list_lookup_insert_eq; by eapply lookup_lt_Some|]. split; [done|].
    intros j y Hj Hlt. rewrite list_lookup_insert_ne in Hj by lia. by eapply Hn.
  - apply list_find_None in E. rewrite list_find_app_r by (by apply list_find_None). done.
Qed.

(** ** The pages of a row *)

Section row.
Context (ps : Z) (Hps : 0 < ps).

(** In a segment that starts on a page boundary every [ps]-th slot starts a page. *)
Lemma reps_starts l x : paged ps l → x ∈ every_nth (length l) (Z.to_nat ps) l → x mod ps = 0 ∧ x ∈ l.
Proof.
  intros Hl Hx. split; [|by eapply every_nth_sub].
  assert (∀ fuel l, paged ps l → x ∈ every_nth fuel (Z.to_nat ps) l → x mod ps = 0) as Hg; [|by eapply Hg].
  clear l Hl Hx. intros fuel. induction fuel as [|fuel IH]; intros [|y l] Hl Hx; cbn [every_nth] in Hx; try by apply not_elem_of_nil in Hx.
  apply elem_of_cons in Hx as [->|Hx]; [|apply (IH (drop (Z.to_nat ps) (y :: l))); [by apply paged_rest|done]].
  rewrite (paged_mod ps Hps _ 0%nat y Hl eq_refl). apply Z.mod_0_l. lia.
Qed.

(** A slot of a paged list lies on a page the list starts. *)
Lemma paged_page l x : paged ps l → x ∈ l → x / ps ∈ head_pages ps l.
Proof.
  intros Hl Hx. apply list_elem_of_lookup_1 in Hx as [i Hi]. destruct (Hl i x Hi) as (y & Hy & -> & Hm).
  apply list_elem_of_fmap. exists y. split; [|apply list_elem_of_filter; split; [done|by eapply list_elem_of_lookup_2]].
  assert (0 ≤ Z.of_nat (i mod Z.to_nat ps) < ps) as Hr.
  { pose proof (Nat.mod_upper_bound i (Z.to_nat ps) ltac:(lia)). lia. }
  pose proof (Z.div_mod y ps ltac:(lia)) as Ey. rewrite Hm, Z.add_0_r in Ey. rewrite Ey at 1.
  rewrite (Z.mul_comm ps), Z.add_comm, Z.div_add, Z.div_small by lia. lia.
Qed.

Lemma divide_len (A B : list Z) : (ps | zlen A) → paged ps (A ++ B) → paged ps A ∧ paged ps B.
Proof.
  intros Hd Hp. split.
  - apply (paged_take ps Hps (length A)) in Hp. by rewrite take_app_length in Hp.
  - apply (paged_drop ps Hps (length A)) in Hp; [|done]. by rewrite drop_app_length in Hp.
Qed.
End row.

(** ** A row between evictions *)

(** The slots [seg] of positions [s, s + n) of a row, in three parts: before the
    part the request may evict, evicted, and live.  The pages of the first and
    the last part have window pages, those of the middle part none. *)
Record row_parts (a : Swa) (used rest : list Z) (head dead live : list Z) : Prop := {
  rp_paged : paged (spage_size a) (head ++ dead ++ live);
  rp_used : used ≡ₚ head_pages (spage_size a) (head ++ dead ++ live) ++ rest;
  rp_head : (spage_size a | zlen head);
  rp_dead : (spage_size a | zlen dead);
  rp_paired : ∀ f, f ∈ head_pages (spage_size a) head ∨ f ∈ head_pages (spage_size a) live → ¬ bare_page a f;
  rp_bare : ∀ f, f ∈ head_pages (spage_size a) dead → bare_page a f
}.

Lemma bare_iff {L : Lost} a used pf f : swa_inv a used pf → f ∈ used → bare_page a f ↔ pf f = 0.
Proof.
  intros Hi Hf. pose proof (si_table _ _ _ Hi) as Ht. pose proof (tb_ps _ _ _ _ _ Ht).
  unfold bare_page, window_slot. rewrite (tb_rep _ _ _ _ _ Ht f Hf). nia.
Qed.

(** A page start has a window slot when its page has one. *)
Lemma start_mapped a x : 0 < spage_size a → x mod spage_size a = 0 → ¬ bare_page a (x / spage_size a) → window_slot a x ≠ 0.
Proof.
  intros Hps Hm Hb. unfold bare_page in Hb. pose proof (Z.div_mod x (spage_size a) ltac:(lia)).
  replace (x / spage_size a * spage_size a) with x in Hb by lia. done.
Qed.

(** A segment whose pages have window pages, as the frees see it. *)
Lemma segment_mapped a seg : 0 < spage_size a → paged (spage_size a) seg →
  (∀ f, f ∈ head_pages (spage_size a) seg → ¬ bare_page a f) →
  ∀ r, r ∈ every_nth (length seg) (Z.to_nat (spage_size a)) seg → window_slot a r ≠ 0.
Proof.
  intros Hps Hp Hb r Hr. destruct (reps_starts _ Hps seg r Hp Hr) as [Hm Hin]. apply start_mapped; [done|done|].
  by apply Hb, paged_page.
Qed.

Section release.
Context (level : InvariantCheckLevel) (order : nat → list nat) (Horder : ∀ n, order n ≡ₚ seq 0 n).
Context (lightop_alloc_extend : Z → list Z → list Z → list Z → list Z → list Z → Z → list Z).
Context (oob : Z).
Context (He : lightop_extend_ok lightop_alloc_extend).
(** Pages refused decode steps took: no operation on a row changes them. *)
Context (lost : Z * Z).
Abbreviation reachable a used := (sreachable level order lightop_alloc_extend oob a used lost).

Lemma row_reachable_inv a used : reachable a used → sinv a used lost.
Proof. by apply sreachable_inv. Qed.

(** The pages in use, with those in no pair. *)
Lemma with_lost lf (used seg rest : list Z) : used ≡ₚ seg ++ rest → lf ++ used ≡ₚ seg ++ lf ++ rest.
Proof. intros ->. solve_Permutation. Qed.

(** After a free of some pages: the others, and whether they have window pages. *)
Definition kept (a : Swa) (rest : list Z) (a' : Swa) : Prop :=
  reachable a' rest ∧ spage_size a' = spage_size a ∧ ∀ f, f ∈ rest → bare_page a' f ↔ bare_page a f.

Lemma free_live a used seg start rest : reachable a used → paged (spage_size a) seg → (spage_size a | start) →
  used ≡ₚ head_pages (spage_size a) seg ++ rest → (∀ f, f ∈ head_pages (spage_size a) seg → ¬ bare_page a f) →
  ∃ a', sfree_segment level order a seg start = Ok a' ∧ kept a rest a'.
Proof.
  intros Hr Hp Hst Hu Hb. destruct (row_reachable_inv a used Hr) as (pf & lf & lw & [Hi _ _]).
  pose proof (tb_ps _ _ _ _ _ (si_table _ _ _ Hi)) as Hps. rewrite <- (segment_pages_head _ Hps seg Hp) in Hu.
  assert (start mod spage_size a = 0) as Hst0 by (destruct Hst as [q ->]; apply Z.mod_mul; lia).
  pose proof (segment_mapped a seg Hps Hp Hb) as Hm.
  destruct (sfree_segment_ok level order Horder a _ pf seg start _ Hi Hst0 (with_lost lf _ _ _ Hu) Hm) as (a' & E & Eps & Hi').
  exists a'. split; [done|]. split; [eapply sr_step; [done|by eapply ss_free_segment]|]. split; [done|]. intros f Hf.
  rewrite (bare_iff a' _ _ f Hi'), (bare_iff a _ pf f Hi) by (rewrite ?Hu, !elem_of_app; tauto).
  unfold unpair. rewrite decide_False; [done|]. intros Hin.
  pose proof (sub_ok_nodup _ _ _ (si_full _ _ _ Hi)) as Hnd. apply NoDup_app in Hnd as (_ & _ & Hnd). rewrite Hu in Hnd.
  apply NoDup_app in Hnd as (_ & Hd & _). by apply (Hd f).
Qed.

Lemma free_dead a used seg start rest : reachable a used → paged (spage_size a) seg → (spage_size a | start) →
  used ≡ₚ head_pages (spage_size a) seg ++ rest → (∀ f, f ∈ head_pages (spage_size a) seg → bare_page a f) →
  ∃ a', free_full_segment level a seg start = Ok a' ∧ kept a rest a'.
Proof.
  intros Hr Hp Hst Hu Hb. destruct (row_reachable_inv a used Hr) as (pf & lf & lw & [Hi _ _]).
  pose proof (tb_ps _ _ _ _ _ (si_table _ _ _ Hi)) as Hps. pose proof (segment_pages_head _ Hps seg Hp) as Esp.
  assert (start mod spage_size a = 0) as Hst0 by (destruct Hst as [q ->]; apply Z.mod_mul; lia).
  assert (∀ x, x ∈ seg → x / spage_size a ∈ used ∧ bare_page a (x / spage_size a)) as Hx.
  { intros x Hx. pose proof (paged_page _ Hps seg x Hp Hx) as Hin. split; [rewrite Hu, elem_of_app; by left|by apply Hb]. }
  rewrite <- Esp in Hu. destruct (free_full_segment_ok level a _ pf seg start _ Hi Hst0 (with_lost lf _ _ _ Hu)) as (a' & E & Hw & Hi').
  { intros x Hin. destruct (Hx x Hin) as [Hxu Hxb]. assert (x / spage_size a ∈ lf ++ used) as Hxl by (rewrite elem_of_app; by right).
    split; [done|]. by rewrite <- (bare_iff a _ pf _ Hi Hxl). }
  destruct Hw as (_ & Eps & _ & _ & _ & Em). exists a'. split; [done|].
  split; [eapply sr_step; [done|by eapply ss_free_full_segment]|]. split; [done|].
  intros f Hf. unfold bare_page, window_slot. by rewrite Em, Eps.
Qed.

(** A free of nothing only reorders the pages in use. *)
Lemma reachable_reorder a used used' : reachable a used → used ≡ₚ used' → reachable a used'.
Proof.
  intros Hr E. eapply sr_step; [done|]. eapply (ss_free_segment _ _ _ _ a used lost [] 0 used'); try done.
  intros x Hx. by apply not_elem_of_nil in Hx.
Qed.

(** Both sides of live segments, in order. *)
Lemma free_live_list segs a used rest prev : reachable a used →
  used ≡ₚ mjoin ((λ sg, head_pages (spage_size a) sg.1) <$> segs) ++ rest →
  Forall (λ sg, sg.1 ≠ [] ∧ paged (spage_size a) sg.1 ∧ (spage_size a | sg.2) ∧
                ∀ f, f ∈ head_pages (spage_size a) sg.1 → ¬ bare_page a f) segs →
  (∀ sg segs', segs = sg :: segs' → from_option (λ e, (e - 1) / spage_size a < sg.2 / spage_size a) True prev) →
  (∀ i sg sg', segs !! i = Some sg → segs !! S i = Some sg' → (sg.2 + zlen sg.1 - 1) / spage_size a < sg'.2 / spage_size a) →
  ∃ a', free_page_disjoint (spage_size a) (sfree_segment level order) prev segs a = Ok a' ∧ kept a rest a'.
Proof.
  revert a used prev. induction segs as [|[seg start] segs IH]; intros a used prev Hr Hu Hf Hprev Hnext.
  - exists a. split; [done|]. split; [by eapply reachable_reorder|]. done.
  - apply Forall_cons in Hf as [(Hne & Hp & Hst & Hb) Hf]. cbn in Hne, Hp, Hst, Hb.
    rewrite fmap_cons in Hu. change (mjoin (?x :: ?l)) with (x ++ mjoin l) in Hu. rewrite <- app_assoc in Hu. cbn [fst] in Hu.
    destruct (free_live a used seg start _ Hr Hp Hst Hu Hb) as (a1 & E1 & Hr1 & Eps & Hb1).
    cbn [free_page_disjoint]. rewrite (proj2 (Z.eqb_neq (zlen seg) 0)) by (intros E%zlen_nil_inv; done).
    specialize (Hprev _ _ eq_refl). cbn [snd] in Hprev.
    assert (match prev with None => true | Some e => (e - 1) / spage_size a <? start / spage_size a end = true) as ->.
    { destruct prev; [|done]. by apply Z.ltb_lt. }
    cbn [assert_ rbind]. rewrite E1. cbn [rbind]. rewrite <- Eps in Hu, Hf, Hnext |- *.
    destruct (IH a1 _ (Some (start + zlen seg)) Hr1 ltac:(by rewrite <- Eps)) as (a2 & E2 & Hr2 & Eps2 & Hb2).
    + apply Forall_forall. intros sg Hin. rewrite Forall_forall in Hf. destruct (Hf sg Hin) as (? & ? & ? & Hbs). split_and!; try done.
      intros f Hff. rewrite Hb1; [by apply Hbs|]. rewrite elem_of_app. left. apply list_elem_of_join. eexists. split; [exact Hff|].
      rewrite <- Eps. by apply (list_elem_of_fmap_2 (λ sg, head_pages (spage_size a1) sg.1)).
    + intros sg' segs' ->. cbn. by apply (Hnext 0%nat (seg, start) sg').
    + intros j sg sg' H1 H2. by apply (Hnext (S j) sg sg').
    + exists a2. split; [done|]. split; [done|]. split; [congruence|]. intros f Hff. rewrite Hb2, Hb1; [done| |done].
      rewrite elem_of_app. by right.
Qed.

(** ** Releasing a row *)

(** Cutting a row at its dead range gives back its parts. *)
Lemma cut_parts (head dead live : list Z) s : dead ≠ [] → let lo := s + zlen head in let hi := lo + zlen dead in
  cut_segment lo hi (head ++ dead ++ live, s)
  = ([(dead, lo)], (if bool_decide (head = []) then [] else [(head, s)]) ++ (if bool_decide (live = []) then [] else [(live, hi)])).
Proof.
  intros Hd lo hi. unfold cut_segment. pose proof (zlen_nonneg head). pose proof (zlen_nonneg live).
  assert (0 < zlen dead) by (destruct dead; [done|unfold zlen; cbn; lia]). rewrite !zlen_app.
  rewrite (Z.max_l lo s), (Z.max_l hi s), (Z.min_l lo), (Z.min_l hi) by lia. rewrite (proj2 (Z.leb_gt hi lo)) by lia.
  replace (lo - s) with (zlen head) by lia. replace (hi - s) with (zlen head + zlen dead) by lia. f_equal; [|f_equal].
  - rewrite pyslice_eq by (rewrite ?zlen_app; lia). unfold zlen. rewrite drop_app_length' by lia.
    replace (Z.to_nat _) with (length dead) by lia. by rewrite take_app_length.
  - case_bool_decide as Eh; [subst head; change (zlen []) with 0 in *; rewrite (proj2 (Z.ltb_ge s lo)) by lia; done|].
    assert (0 < zlen head) by (destruct head; [done|unfold zlen; cbn; lia]). rewrite (proj2 (Z.ltb_lt s lo)) by lia.
    rewrite pytake_eq by lia. unfold zlen. by rewrite Nat2Z.id, take_app_length.
  - case_bool_decide as El; [subst live; change (zlen []) with 0 in *; rewrite (proj2 (Z.ltb_ge hi _)) by lia; done|].
    assert (0 < zlen live) by (destruct live; [done|unfold zlen; cbn; lia]). rewrite (proj2 (Z.ltb_lt hi _)) by lia.
    rewrite pydrop_eq by lia. unfold zlen. rewrite app_assoc, drop_app_length'; [done|]. rewrite length_app. lia.
Qed.

(** The two live parts, in the order they are freed. *)
Definition live_parts (head dead live : list Z) (s : Z) : list (list Z * Z) :=
  (if bool_decide (head = []) then [] else [(head, s)]) ++
  (if bool_decide (live = []) then [] else [(live, s + zlen head + zlen dead)]).

Lemma zlen_pos {A} (l : list A) : l ≠ [] → 0 < zlen l.
Proof. destruct l; [done|]. unfold zlen. cbn. lia. Qed.

(** The parts of a row, page by page. *)
Lemma parts_split a used rest head dead live : 0 < spage_size a → row_parts a used rest head dead live →
  paged (spage_size a) head ∧ paged (spage_size a) dead ∧ paged (spage_size a) live ∧
  used ≡ₚ head_pages (spage_size a) dead ++ head_pages (spage_size a) head ++ head_pages (spage_size a) live ++ rest.
Proof.
  intros Hps [Hp Hu Hh Hd _ _]. destruct (divide_len _ Hps head _ Hh Hp) as [H1 H2]. destruct (divide_len _ Hps dead _ Hd H2) as [H3 H4].
  split_and!; try done. rewrite Hu, !head_pages_app. set (x := head_pages _ head). set (y := head_pages _ dead).
  set (z := head_pages _ live). solve_Permutation.
Qed.

(** The live parts go back on both sides. *)
Lemma free_live_parts a used head dead live s rest : reachable a used → (spage_size a | s) →
  (spage_size a | zlen head) → (spage_size a | zlen dead) → paged (spage_size a) head → paged (spage_size a) live →
  used ≡ₚ head_pages (spage_size a) head ++ head_pages (spage_size a) live ++ rest →
  (∀ f, f ∈ head_pages (spage_size a) head ∨ f ∈ head_pages (spage_size a) live → ¬ bare_page a f) →
  ∃ a', (if bool_decide (live_parts head dead live s = []) then Ok a
         else free_page_disjoint (spage_size a) (sfree_segment level order) None (live_parts head dead live s) a) = Ok a' ∧
    reachable a' rest.
Proof.
  intros Hr Hs Hh Hd Hph Hpl Hu Hb. destruct (row_reachable_inv a used Hr) as (pf & lf & lw & [Hi _ _]).
  pose proof (tb_ps _ _ _ _ _ (si_table _ _ _ Hi)) as Hps.
  destruct (free_live_list (live_parts head dead live s) a used rest None Hr) as (a' & E & Hr' & _).
  - rewrite Hu. unfold live_parts. case_bool_decide as E1; case_bool_decide as E2; subst; cbn; by rewrite ?app_nil_r, <- ?app_assoc.
  - unfold live_parts. apply Forall_app. split; case_bool_decide; constructor; try done.
    + split_and!; try done. intros f Hf. apply Hb. by left.
    + split_and!; try done; [|intros f Hf; apply Hb; by right]. apply Z.divide_add_r; [by apply Z.divide_add_r|done].
  - done.
  - intros i sg sg' H1 H2. unfold live_parts in *. case_bool_decide; case_bool_decide; destruct i as [|[|i]]; try done.
    injection H1 as <-. injection H2 as <-. cbn. pose proof (zlen_nonneg dead).
    destruct Hs as [q1 ->], Hh as [q2 ->], Hd as [q3 Ed]. rewrite Ed in *.
    replace (q1 * spage_size a + q2 * spage_size a - 1) with (spage_size a - 1 + (q1 + q2 - 1) * spage_size a) by lia.
    replace (q1 * spage_size a + q2 * spage_size a + q3 * spage_size a) with ((q1 + q2 + q3) * spage_size a) by lia.
    rewrite Z.div_add, Z.div_small, Z.div_mul by lia. nia.
  - exists a'. case_bool_decide as En; [|done]. rewrite En in E. cbn in E. by injection E as <-.
Qed.

Lemma row_released a used rest head dead live s ev : reachable a used → row_parts a used rest head dead live →
  (spage_size a | s) → Z.max ev (s + zlen head) = s + zlen head + zlen dead →
  ∃ a', free_kv_row_segments (spage_size a) (sfree_segment level order) (free_full_segment level)
          [(head ++ dead ++ live, s)] ev (s + zlen head) a = Ok a' ∧ reachable a' rest.
Proof.
  intros Hr Hrp Hs Hev. destruct (row_reachable_inv a used Hr) as (pf & lf & lw & [Hi _ _]). pose proof (tb_ps _ _ _ _ _ (si_table _ _ _ Hi)) as Hps.
  destruct (parts_split a used rest head dead live Hps Hrp) as (Hph & Hpd & Hpl & Hu). pose proof Hrp as [Hp Hu0 Hh Hd Hpair Hbare].
  unfold free_kv_row_segments. rewrite Hev. destruct (decide (dead = [])) as [->|Hne].
  - change (zlen []) with 0. rewrite Z.add_0_r. cbn [fmap list_fmap].
    assert (∀ lo seg, cut_segment lo lo seg = ([], [seg])) as Hcut.
    { intros lo [l st]. unfold cut_segment. by rewrite (proj2 (Z.leb_le _ _) (Z.le_refl _)). }
    rewrite Hcut. cbn. destruct (free_live_parts a used [] [] (head ++ live) s rest Hr Hs) as (a' & E & Hr'); try done.
    + intros f Hf. rewrite head_pages_app, elem_of_app in Hf. apply Hpair. destruct Hf as [Hf|Hf]; [by apply not_elem_of_nil in Hf|done].
    + exists a'. split; [|done]. unfold live_parts in E. rewrite (bool_decide_true ([] = [])) in E by done. cbn [app] in E.
      change (zlen []) with 0 in E. rewrite !Z.add_0_r in E. destruct (bool_decide (head ++ live = [])) eqn:En; [|exact E].
      apply bool_decide_eq_true in En. rewrite En. exact E.
  - cbn [fmap list_fmap]. rewrite (cut_parts head dead live s Hne). fold (live_parts head dead live s). cbn [fst snd fmap list_fmap mjoin list_join].
    rewrite app_nil_r. cbn [app]. pose proof (zlen_pos dead Hne). assert (ev = s + zlen head + zlen dead) as -> by lia.
    rewrite (bool_decide_false ([_] = [])) by done. cbn [negb andb].
    assert ((s + zlen head + zlen dead) mod spage_size a = 0) as ->.
    { apply Z.mod_divide; [lia|]. apply Z.divide_add_r; [by apply Z.divide_add_r|done]. }
    rewrite Z.eqb_refl, orb_true_r. cbn [assert_ rbind free_page_disjoint].
    rewrite (proj2 (Z.eqb_neq (zlen dead) 0)) by lia. cbn [assert_ rbind].
    destruct (free_dead a used dead (s + zlen head) _ Hr Hpd ltac:(by apply Z.divide_add_r) Hu Hbare) as (a1 & E1 & Hr1 & Eps & Hb1).
    rewrite E1. cbn [rbind]. rewrite <- Eps in *.
    destruct (free_live_parts a1 _ head dead live s rest Hr1 Hs Hh Hd Hph Hpl (reflexivity _)) as (a' & E & Hr').
    + intros f Hf. rewrite Hb1; [by apply Hpair|]. rewrite !elem_of_app. tauto.
    + exists a'. split; [by rewrite (app_nil_r (live_parts _ _ _ _))|done].
Qed.

(** ** Evicting part of a row *)

Lemma evict_part a used rest head dead live1 live2 start : reachable a used →
  row_parts a used rest head dead (live1 ++ live2) → (spage_size a | zlen live1) → (spage_size a | start) →
  ∃ a', free_swa_segment level order a live1 start = Ok a' ∧ reachable a' used ∧ spage_size a' = spage_size a ∧
    row_parts a' used rest head (dead ++ live1) live2.
Proof.
  intros Hr Hrp Hd1 Hst. destruct (row_reachable_inv a used Hr) as (pf & lf & lw & [Hi _ _]). pose proof (tb_ps _ _ _ _ _ (si_table _ _ _ Hi)) as Hps.
  destruct (parts_split a used rest head dead _ Hps Hrp) as (Hph & Hpd & Hpl & Hu). pose proof Hrp as [Hp Hu0 Hh Hd Hpair Hbare].
  destruct (divide_len _ Hps live1 live2 Hd1 Hpl) as [Hp1 Hp2]. rewrite head_pages_app in Hu, Hpair.
  set (hp := head_pages (spage_size a)) in *.
  assert (used ≡ₚ hp live1 ++ hp dead ++ hp head ++ hp live2 ++ rest) as Hu1.
  { rewrite Hu. set (x := hp head). set (y := hp dead). set (z := hp live1). set (w := hp live2). solve_Permutation. }
  assert (start mod spage_size a = 0) as Hst0 by (destruct Hst as [q ->]; apply Z.mod_mul; lia).
  assert (∀ r, r ∈ every_nth (length live1) (Z.to_nat (spage_size a)) live1 → window_slot a r ≠ 0) as Hm.
  { apply segment_mapped; try done. intros f Hf. apply Hpair. right. rewrite elem_of_app. by left. }
  pose proof Hu1 as Hu2. unfold hp in Hu2 at 1. rewrite <- (segment_pages_head _ Hps live1 Hp1) in Hu2.
  destruct (free_swa_segment_ok level order Horder a _ pf live1 start _ Hi Hst0 (with_lost lf _ _ _ Hu2) Hm) as (a' & E & Hsame & Hi').
  destruct Hsame as (_ & Eps & _). rewrite (segment_pages_head _ Hps live1 Hp1) in Hi'. fold hp in Hi'.
  exists a'. split; [done|]. split; [eapply sr_step; [done|by eapply ss_free_swa_segment]|]. split; [done|].
  assert (∀ f, f ∈ used → bare_page a' f ↔ f ∈ hp live1 ∨ bare_page a f) as Hb.
  { intros f Hf. rewrite (bare_iff a' _ _ f Hi'), (bare_iff a _ pf f Hi) by (rewrite elem_of_app; by right). unfold unpair. case_decide; tauto. }
  pose proof (sub_ok_nodup _ _ _ (si_full _ _ _ Hi)) as Hnd. apply NoDup_app in Hnd as (_ & _ & Hnd). rewrite Hu1 in Hnd.
  apply NoDup_app in Hnd as (_ & Hdis & _).
  split; rewrite Eps; fold hp.
  - by rewrite <- app_assoc.
  - rewrite Hu1, !(head_pages_app (spage_size a)). fold hp. set (x := hp head). set (y := hp dead). set (z := hp live1). set (w := hp live2). solve_Permutation.
  - done.
  - rewrite zlen_app. by apply Z.divide_add_r.
  - intros f Hf. rewrite Hb by (rewrite Hu1, !elem_of_app; tauto). intros [Hin|Hba].
    + apply (Hdis f Hin). rewrite !elem_of_app. tauto.
    + revert Hba. apply Hpair. rewrite elem_of_app. tauto.
  - intros f Hf. unfold hp in Hf. rewrite head_pages_app, elem_of_app in Hf. fold hp in Hf.
    rewrite Hb by (rewrite Hu1, !elem_of_app; tauto). destruct Hf as [Hf|Hf]; [right; by apply Hbare|by left].
Qed.

(** The slots of a row that a request holds: [before] positions belong to the tree. *)
Definition row_holds (p : ReqToTokenPool) (k : ReqKvInfo) (s : Z) (slots : list Z) : Prop :=
  ∃ row, get_row (req_pool_idx k) p = Ok row ∧ 0 ≤ s ∧ s + zlen slots ≤ zlen row ∧ pyslice row s (s + zlen slots) = slots.

Lemma row_slice p k s A B C : row_holds p k s (A ++ B ++ C) →
  ∃ row, get_row (req_pool_idx k) p = Ok row ∧ pyslice row (s + zlen A) (s + zlen A + zlen B) = B.
Proof.
  intros (row & Hrow & Hs & Hlen & E). exists row. split; [done|]. rewrite !zlen_app in *.
  pose proof (zlen_nonneg A). pose proof (zlen_nonneg B). pose proof (zlen_nonneg C).
  rewrite pyslice_eq in E by lia. rewrite pyslice_eq by lia. unfold zlen in *.
  replace (Z.to_nat (s + Z.of_nat (length A))) with (Z.to_nat s + length A)%nat by lia. rewrite <- drop_drop.
  replace (Z.to_nat (_ - _)) with (length B) by lia. set (R := drop (Z.to_nat s) row) in *. clearbody R.
  rewrite take_drop_commute. replace (take (length A + length B) R) with (A ++ B); [by rewrite drop_app_length|].
  apply (f_equal (take (length A + length B))) in E. rewrite take_take in E.
  rewrite Nat.min_l in E by lia. rewrite E, app_assoc, take_app_length'; [done|]. by rewrite length_app.
Qed.

(** Where the cursor goes: a page boundary at least [window] before [pre_len]. *)
Lemma new_cursor window ps sharing floor pre_len hi : 0 < ps → 0 ≤ window → (ps | hi) →
  let new := Z.max hi (evict_threshold pre_len window ps sharing floor) in
  let new := if 1 <? ps then page_align_floor new ps else new in
  hi < new → (ps | new) ∧ new ≤ pre_len - window.
Proof.
  intros Hps Hw Hhi new0 new Hlt.
  assert (evict_threshold pre_len window ps sharing floor ≤ pre_len - window) as Ht.
  { unfold evict_threshold. pose proof (ceil_align_ge ps Hps (Z.max window ps)). destruct sharing, floor; lia. }
  assert (new ≤ new0) as Hle.
  { unfold new. destruct (1 <? ps); [|done]. by apply page_align_floor_le. }
  split; [|unfold new0 in *; lia]. unfold new. destruct (Z.ltb_spec 1 ps); [by apply page_align_floor_divide|].
  replace ps with 1 by lia. apply Z.divide_1_l.
Qed.

(** C25: while a request of a sliding-window model holds a row, evicting behind the
    window frees the window pages of a whole number of further pages and nothing
    else: the parts of the row move on accordingly, the cursor says where, every
    position inside the window (the last [window] before [pre_len]) keeps its
    window slot, and nothing is raised. *)
Theorem swa_evict_keeps_window a used rest head dead live s pre_len window sharing floor interval p k :
  reachable a used → row_parts a used rest head dead live → (spage_size a | s) →
  holds_kv k = true → (spage_size a | cache_protected_len k) → 0 ≤ window →
  swa_dead_lo (spage_size a) k = s + zlen head →
  Z.max (get_evicted_seqlen SWA k) (s + zlen head) = s + zlen head + zlen dead →
  row_holds p k s (head ++ dead ++ live) → pre_len ≤ s + zlen (head ++ dead ++ live) →
  ∃ k' a' live1 live2,
    free_swa_out_of_window_slots level order window (spage_size a) sharing floor interval pre_len p k a = Ok (k', a') ∧
    live = live1 ++ live2 ∧ reachable a' used ∧ spage_size a' = spage_size a ∧
    row_parts a' used rest head (dead ++ live1) live2 ∧
    Z.max (get_evicted_seqlen SWA k') (s + zlen head) = s + zlen head + zlen (dead ++ live1) ∧
    (live1 ≠ [] → s + zlen head + zlen (dead ++ live1) ≤ pre_len - window).
Proof.
  intros Hr Hrp Hs Hk Hcp Hw Hlo Hev Hrow Hpre. destruct (row_reachable_inv a used Hr) as (pf & lf & lw & [Hi _ _]).
  pose proof (tb_ps _ _ _ _ _ (si_table _ _ _ Hi)) as Hps. unfold free_swa_out_of_window_slots. rewrite Hk. cbn [negb].
  assert (cache_protected_len k mod spage_size a = 0) as -> by (apply Z.mod_divide; [lia|done]). cbn [Z.eqb assert_ rbind].
  assert (∀ k', Z.max (get_evicted_seqlen SWA k') (s + zlen head) = s + zlen head + zlen dead →
    ∃ k'' a' live1 live2, Ok (k', a) = Ok (k'', a') ∧ live = live1 ++ live2 ∧ reachable a' used ∧ spage_size a' = spage_size a ∧
    row_parts a' used rest head (dead ++ live1) live2 ∧
    Z.max (get_evicted_seqlen SWA k'') (s + zlen head) = s + zlen head + zlen (dead ++ live1) ∧
    (live1 ≠ [] → s + zlen head + zlen (dead ++ live1) ≤ pre_len - window)) as Hstay.
  { intros k' Hk'. exists k', a, [], live. rewrite app_nil_r. by split_and!. }
  destruct (_ <? _ + interval); [by apply Hstay|]. rewrite Hlo, Hev. set (hi := s + zlen head + zlen dead) in *.
  set (new := if 1 <? spage_size a then _ else _).
  destruct (Z.ltb_spec hi new) as [Hlt|Hge]; [|apply Hstay; rewrite get_set_evicted; pose proof (zlen_nonneg dead); lia].
  destruct (new_cursor window (spage_size a) sharing floor pre_len hi Hps Hw) as [Hdiv Hle]; [|exact Hlt|].
  { apply Z.divide_add_r; [by apply Z.divide_add_r; [|apply Hrp]|apply Hrp]. }
  fold new in Hdiv, Hle. rewrite !zlen_app in Hpre. pose proof (zlen_nonneg dead).
  set (live1 := take (Z.to_nat (new - hi)) live). set (live2 := drop (Z.to_nat (new - hi)) live).
  assert (live = live1 ++ live2) as El by (symmetry; apply take_drop).
  assert (zlen live1 = new - hi) as Hl1 by (unfold live1, zlen in *; rewrite length_take; lia).
  rewrite El in Hrow, Hrp. rewrite app_assoc in Hrow. destruct (row_slice p k s (head ++ dead) live1 live2 Hrow) as (row & Erow & Esl).
  rewrite zlen_app, Z.add_assoc, Hl1 in Esl. fold hi in Esl. replace (hi + (new - hi)) with new in Esl by lia.
  change (req_pool_idx (set_evicted_seqlen SWA hi k)) with (req_pool_idx k). rewrite Erow. cbn [rbind]. rewrite Esl.
  assert (spage_size a | hi) as Hhi.
  { apply Z.divide_add_r; [by apply Z.divide_add_r; [|apply Hrp]|apply Hrp]. }
  destruct (evict_part a used rest head dead live1 live2 hi Hr Hrp) as (a' & E & Hr' & Eps & Hrp').
  { rewrite Hl1. by apply Z.divide_sub_r. }
  { done. }
  rewrite E. cbn [rbind]. eexists _, a', live1, live2. split; [done|]. rewrite get_set_evicted, zlen_app, Hl1.
  split_and!; try done; lia.
Qed.

(** C26: when a request of a sliding-window model ends, giving its row back frees
    the evicted part on the full side only and the parts with window slots on both
    sides: it succeeds, every page of the row goes back once to each pool that
    held it, and the pages in use are those of the others. *)
Theorem swa_row_released a used rest head dead live s ev :
  reachable a used → row_parts a used rest head dead live → (spage_size a | s) →
  Z.max ev (s + zlen head) = s + zlen head + zlen dead →
  ∃ a', free_kv_row_segments (spage_size a) (sfree_segment level order) (free_full_segment level)
          [(head ++ dead ++ live, s)] ev (s + zlen head) a = Ok a' ∧ reachable a' rest.
Proof. apply row_released. Qed.
End release.

(** ** On concrete inputs *)

Module SwaDemo.

Definition order (n : nat) : list nat := seq 0 n.
Lemma order_ok n : order n ≡ₚ seq 0 n.
Proof. done. Qed.

Abbreviation run := (sreachable STRICT order own_extend 0).

Definition empty : Swa := swa_init 12 6 2 false true false Native None 0.
Definition reqs : list req := [mkReq 0 5 (-1)].

Definition after {A} (d : A) (m : result A) : A := match m with Ok x => x | Raise _ => d end.
Definition extended : Swa :=
  snd (after (None, empty) (salloc_extend own_extend 0 empty [0] [5] [-1] 5)).

Lemma empty_run : run empty [] (0, 0).
Proof. by apply sr_init. Qed.

Lemma reqs_linked m used : Forall (linked 2 m used) reqs.
Proof. constructor; [|constructor]. split; [by left|]. intros H. by destruct H. Qed.

Lemma extended_eq : salloc_extend own_extend 0 empty (r_prefix <$> reqs) (r_seq <$> reqs) (r_last <$> reqs) (sum_ext reqs)
  = Ok (Some [2; 3; 4; 5; 6], extended).
Proof. vm_compute. reflexivity. Qed.

Lemma pages_2 : toks_pages 2 [2; 3; 4; 5; 6] = [1; 1; 2; 2; 3].
Proof. vm_compute. reflexivity. Qed.

Lemma extended_run : run extended [1; 2; 3] (0, 0).
Proof.
  eapply sr_step; [apply empty_run|].
  apply (ss_extend STRICT order own_extend 0 empty [] (0, 0) reqs [2; 3; 4; 5; 6] extended [1; 2; 3]).
  - done.
  - by repeat constructor.
  - apply reqs_linked.
  - apply extended_eq.
  - split; [by apply (bool_decide_unpack _)|]. intros q. change (spage_size empty) with 2. rewrite pages_2, !elem_of_cons, !elem_of_nil. tauto.
Qed.

(** A decode step that the window pool, now empty, refuses: the full pool has
    given a page. *)
Definition refused : Swa := snd (after (None, extended) (salloc_decode 0 extended [5] [5])).

Lemma step_linked : decode_linked extended [1; 2; 3] [(5, 5)].
Proof.
  split; [by repeat constructor|]. constructor; [|constructor]. split; [right; split; vm_compute; done|]. intros H. by destruct H.
Qed.

Lemma refused_run : run refused [1; 2; 3] (1, 0).
Proof.
  eapply sr_step; [apply extended_run|].
  apply (ss_decode_none STRICT order own_extend 0 extended [1; 2; 3] (0, 0) [(5, 5)] refused); [done|exact step_linked|].
  vm_compute. reflexivity.
Qed.

(** The window slots of the first page given back. *)
Definition evicted : Swa := after extended (free_swa_segment STRICT order extended [2; 3] 0).

Lemma evicted_run : run evicted [1; 2; 3] (0, 0).
Proof.
  eapply sr_step; [apply extended_run|].
  apply (ss_free_swa_segment STRICT order own_extend 0 extended [1; 2; 3] (0, 0) [2; 3] 0 [2; 3] evicted); [done|done| |].
  - intros x Hx. change (every_nth _ _ _) with [2] in Hx. apply list_elem_of_singleton in Hx as ->. vm_compute. done.
  - vm_compute. reflexivity.
Qed.
End SwaDemo.
Import SwaDemo.

Lemma swa_pools_in_step_witness :
  full_available_size refused = 4 ∧ sub_available_size (swa_attn_allocator refused) = 0.
Proof.
  destruct (swa_pools_in_step STRICT order own_extend 0 order_ok own_extend_ok refused [1; 2; 3] (1, 0) refused_run)
    as (H1 & H2 & _). rewrite H1, H2. split; vm_compute; reflexivity.
Defined.

Lemma swa_extend_in_step_witness :
  ∃ a', salloc_extend own_extend 0 empty [0] [5] [-1] 5 = Ok (Some [2; 3; 4; 5; 6], a') ∧ handed_out empty 3 [2; 3; 4; 5; 6] a'.
Proof.
  pose proof (swa_extend_in_step STRICT order own_extend 0 order_ok own_extend_ok empty [] (0, 0) reqs
    empty_run eq_refl ltac:(done) ltac:(by repeat constructor) (reqs_linked _ _)) as H.
  cbv zeta in H. rewrite extended_eq in H. destruct H as (_ & _ & H). exists extended. split; [exact extended_eq|exact H].
Defined.

Lemma swa_drains_witness : ∃ a', drain STRICT order extended [1; 2; 3] = Ok a' ∧ full_available_size a' = 12.
Proof.
  destruct (swa_drains STRICT order own_extend 0 order_ok own_extend_ok extended [1; 2; 3] (0, 0) extended_run eq_refl)
    as (a' & E & H & _). exists a'. split; [exact E|]. rewrite H. vm_compute. reflexivity.
Defined.

Lemma swa_decode_keeps_pages_witness :
  ∃ a', salloc_decode 0 extended [5] [5] = Ok (None, a') ∧ full_available_size a' = 4 ∧ run a' [1; 2; 3] (1, 0).
Proof.
  destruct (swa_decode_keeps_pages STRICT order own_extend 0 order_ok own_extend_ok extended [1; 2; 3] (0, 0) [(5, 5)])
    as (a' & E & H & Hr).
  - exact extended_run.
  - reflexivity.
  - reflexivity.
  - exact step_linked.
  - vm_compute. discriminate.
  - vm_compute. reflexivity.
  - exists a'. split; [exact E|]. split; [rewrite H; vm_compute; reflexivity|exact Hr].
Defined.

Lemma cuda_free_is_reference_witness :
  ∃ m, _free_swa_pages_cuda STRICT order extended [2; 4] = Ok ([1; 2], m) ∧
       _free_swa_pages_none_cuda STRICT extended [2; 4] = Ok ([1; 2], m).
Proof.
  rewrite (cuda_free_is_reference STRICT order extended [2; 4]).
  - eexists. split; vm_compute; reflexivity.
  - reflexivity.
  - reflexivity.
  - repeat constructor; vm_compute; done.
  - apply (bool_decide_unpack _). vm_compute. done.
  - done.
Defined.

(** ** The row of the request *)

Definition demo_kv : ReqKvInfo := mkKv (Some 0%nat) 0 0 5 5 0 [] None.
Definition demo_rows : ReqToTokenPool := mkRows {[ 0%nat := [2; 3; 4; 5; 6; 0; 0; 0] ]} [] ∅.

Lemma demo_paged : paged 2 [2; 3; 4; 5; 6].
Proof.
  intros i x Hi. do 5 (destruct i as [|i]; [injection Hi as <-; eexists; split; [reflexivity|split; reflexivity]|]). done.
Qed.

Lemma swa_demo_parts : row_parts extended [1; 2; 3] [] [] [] [2; 3; 4; 5; 6].
Proof.
  split.
  - exact demo_paged.
  - vm_compute. done.
  - by exists 0.
  - by exists 0.
  - intros f [Hf|Hf]; [by apply not_elem_of_nil in Hf|].
    assert (head_pages 2 [2; 3; 4; 5; 6] = [1; 2; 3]) as E by (vm_compute; reflexivity).
    change (spage_size extended) with 2 in Hf. rewrite E in Hf. rewrite !elem_of_cons, elem_of_nil in Hf.
    destruct Hf as [->|[->|[->|[]]]]; intros Hb; vm_compute in Hb; discriminate.
  - intros f Hf. by apply not_elem_of_nil in Hf.
Qed.

Lemma swa_evict_keeps_window_witness :
  ∃ k' a' live1 live2,
    free_swa_out_of_window_slots STRICT order 2 2 false None 1 5 demo_rows demo_kv extended = Ok (k', a') ∧
    [2; 3; 4; 5; 6] = live1 ++ live2 ∧ get_evicted_seqlen SWA k' = 2.
Proof.
  destruct (swa_evict_keeps_window STRICT order order_ok own_extend 0 own_extend_ok (0, 0)
    extended [1; 2; 3] [] [] [] [2; 3; 4; 5; 6] 0 5 2 false None 1 demo_rows demo_kv) as (k' & a' & l1 & l2 & E & El & _ & _ & _ & Hc & _).
  - exact extended_run.
  - exact swa_demo_parts.
  - by exists 0.
  - reflexivity.
  - by exists 0.
  - done.
  - reflexivity.
  - reflexivity.
  - exists [2; 3; 4; 5; 6; 0; 0; 0]. split; [reflexivity|]. split; [done|]. split; vm_compute; done.
  - vm_compute. done.
  - exists k', a', l1, l2. split; [exact E|]. split; [exact El|].
    assert (match free_swa_out_of_window_slots STRICT order 2 2 false None 1 5 demo_rows demo_kv extended with
            | Ok (k, _) => get_evicted_seqlen SWA k = 2 | Raise _ => False end) as H by (vm_compute; reflexivity).
    change (spage_size extended) with 2 in E. rewrite E in H. exact H.
Defined.

Lemma swa_evicted_parts : row_parts evicted [1; 2; 3] [] [] [2; 3] [4; 5; 6].
Proof.
  assert (spage_size evicted = 2) as Eps by (vm_compute; reflexivity). split; rewrite ?Eps.
  - exact demo_paged.
  - vm_compute. done.
  - by exists 0.
  - by exists 1.
  - intros f [Hf|Hf]; [exfalso; exact (not_elem_of_nil f Hf)|].
    assert (head_pages 2 [4; 5; 6] = [2; 3]) as E by (vm_compute; reflexivity).
    rewrite E, !elem_of_cons, elem_of_nil in Hf.
    destruct Hf as [->|[->|[]]]; intros Hb; vm_compute in Hb; discriminate.
  - intros f Hf. assert (head_pages 2 [2; 3] = [1]) as E by (vm_compute; reflexivity).
    rewrite E in Hf. apply list_elem_of_singleton in Hf as ->. vm_compute. reflexivity.
Qed.

Lemma swa_row_released_witness :
  ∃ a', free_kv_row_segments 2 (sfree_segment STRICT order) (free_full_segment STRICT)
          [([2; 3; 4; 5; 6], 0)] 2 0 evicted = Ok a' ∧ run a' [] (0, 0).
Proof.
  apply (swa_row_released STRICT order order_ok own_extend 0 own_extend_ok (0, 0)
    evicted [1; 2; 3] [] [] [2; 3] [4; 5; 6] 0 2).
  - exact evicted_run.
  - exact swa_evicted_parts.
  - by exists 0.
  - reflexivity.
Defined.
