(* ===== verification/KvExtend.v ===== *)
(** * Allocation for a batch keeps every slot accounted for

    [alloc_for_extend] on a consistent system: either it reports that rows or
    slots ran out, or every request of the batch holds a row that continues its
    prefix in pages, and the system is consistent again. *)
From S2P Require Import Prelude RadixKey EvictPolicy RadixCache RadixInv RadixOps RadixInsert RadixLock RadixEvict RadixSpec RadixTheorems RadixClient TokenAllocator PagedKernels PagedAllocator KvRow KvTheorems KvRelease KvSystem KvAlloc KvPlace.

(** ** Writing a batch *)

Lemma pyslice_from {B} (l : list B) i n : 0 ≤ i → 0 ≤ n → pyslice l i (i + n) = take (Z.to_nat n) (drop (Z.to_nat i) l).
Proof.
  intros Hi Hn. unfold pyslice, norm_idx. destruct (Z.ltb_spec i 0); [lia|]. destruct (Z.ltb_spec (i + n) 0); [lia|].
  pose proof (zlen_nonneg l). destruct (decide (i ≤ zlen l)) as [Hle|Hgt].
  - rewrite (Z.min_l i) by lia. destruct (decide (i + n ≤ zlen l)).
    + rewrite Z.min_l by lia. do 2 f_equal. lia.
    + rewrite Z.min_r by lia. rewrite !take_ge; [done|rewrite length_drop; unfold zlen in *; lia..].
  - rewrite !Z.min_r by lia. rewrite !drop_ge; [by rewrite !take_nil|unfold zlen in *; lia..].
Qed.

Abbreviation item := (KvReq * list Z * list Z)%type.

Lemma write_items (items : list item) pt out p :
  (∀ x, x ∈ items → ∃ idx row, item_ok p x.1.1 x.1.2 x.2 idx row) → NoDup (row_ids items.*1.*1) →
  0 ≤ pt → drop (Z.to_nat pt) out = mjoin items.*2 →
  ∃ p', write_cache_indices out pt items.*1.*1 items.*1.*2 p = Ok p' ∧
    free_slots p' = free_slots p ∧ req_generation p' = req_generation p ∧
    (∀ i, i ∉ row_ids items.*1.*1 → req_to_token p' !! i = req_to_token p !! i) ∧
    (∀ x idx row, x ∈ items → item_ok p x.1.1 x.1.2 x.2 idx row →
       req_to_token p' !! idx = Some (x.1.2 ++ x.2 ++ drop (Z.to_nat (k_extend_end x.1.1)) row)).
Proof.
  revert pt p. induction items as [|[[r t] s] items IH]; intros pt p Hit Hnd Hpt Hout.
  { exists p. split; [done|]. split; [done|]. split; [done|]. split; [done|]. intros x idx row Hx. by apply elem_of_nil in Hx. }
  destruct (Hit (r, t, s) ltac:(by left)) as (idx & row & Hok). cbn [fst snd] in Hok. pose proof Hok as [Hi Hrow _ _ _].
  rewrite !fmap_cons in *. cbn [fst snd] in *. change (mjoin (s :: items.*2)) with (s ++ mjoin items.*2) in Hout.
  cbn [row_ids omap list_omap] in Hnd. rewrite Hi in Hnd. apply NoDup_cons in Hnd as [Hnin Hnd].
  pose proof (zlen_nonneg s) as Hs0. rewrite (write_item p r t s idx row).
  2:{ done. }
  2:{ rewrite pyslice_from by lia. rewrite Hout. unfold zlen. rewrite Nat2Z.id. apply take_app_length. }
  set (p1 := mkRows _ _ _).
  destruct (IH (pt + zlen s) p1) as (p' & E & Ef & Eg & Hother & Hmine).
  - intros x Hx. destruct (Hit x ltac:(by right)) as (ix & rowx & Hx1). exists ix, rowx. destruct Hx1 as [Hxi Hxr Hxp Hxs Hxw]. split; try done.
    cbn. rewrite lookup_insert_ne; [done|]. intros <-. apply Hnin. eapply row_ids_elem; [|done].
    apply list_elem_of_fmap. exists x.1. split; [done|]. apply list_elem_of_fmap. by exists x.
  - done.
  - lia.
  - replace (Z.to_nat (pt + zlen s)) with (length s + Z.to_nat pt)%nat by (unfold zlen in *; lia).
    rewrite Nat.add_comm, <- drop_drop, Hout. apply drop_app_length.
  - exists p'. split; [done|]. split; [done|]. split; [done|]. split.
    + intros i Hin. cbn [row_ids omap list_omap] in Hin. rewrite Hi in Hin. apply not_elem_of_cons in Hin as [Hne Hin].
      rewrite Hother by done. cbn. by rewrite lookup_insert_ne.
    + intros x ix rowx [->|Hx]%elem_of_cons Hxk; cbn [fst snd] in *.
      * destruct Hxk as [Hxi Hxr _ _ _]. assert (ix = idx) as -> by congruence. assert (rowx = row) as -> by congruence.
        rewrite Hother by done. cbn. apply lookup_insert_eq.
      * apply Hmine; [done|]. destruct Hxk as [Hxi Hxr Hxp Hxs Hxw]. split; try done. cbn. rewrite lookup_insert_ne; [done|].
        intros <-. apply Hnin. eapply row_ids_elem; [|done]. apply list_elem_of_fmap. exists x.1. split; [done|]. apply list_elem_of_fmap. by exists x.
Qed.

(** ** Binding rows *)

(** [r'] is [r] with a row, its own or a new one. *)
Definition bound (r r' : KvReq) : Prop :=
  (r' = r ∧ holds_kv (kv r) = true) ∨ (∃ i, r' = set_kv (set_pool_idx (Some i)) r ∧ holds_kv (kv r) = false).

Lemma bind_rows_ok reqs sel : length sel = length (filter (λ r, holds_kv (kv r) = false) reqs) →
  Forall2 bound reqs (bind_rows reqs sel) ∧ row_ids (bind_rows reqs sel) ≡ₚ row_ids reqs ++ sel.
Proof.
  revert sel. induction reqs as [|r reqs IH]; intros sel Hlen.
  { destruct sel; [|done]. split; [constructor|done]. }
  cbn [bind_rows]. destruct (holds_kv (kv r)) eqn:Eh.
  - rewrite filter_cons_False in Hlen by congruence. destruct (IH sel Hlen) as [H1 H2]. split; [constructor; [by left|done]|].
    cbn. destruct (req_pool_idx (kv r)) as [i|] eqn:Ei; [by rewrite H2|]. unfold holds_kv in Eh. by rewrite Ei in Eh.
  - rewrite filter_cons_True in Hlen by done. destruct sel as [|i sel]; [done|]. cbn in Hlen. injection Hlen as Hlen.
    destruct (IH sel Hlen) as [H1 H2]. split; [constructor; [right; by exists i|done]|]. cbn.
    assert (req_pool_idx (kv r) = None) as ->. { unfold holds_kv in Eh. destruct (req_pool_idx (kv r)); [by rewrite bool_decide_true in Eh|done]. }
    rewrite H2. solve_Permutation.
Qed.

(** [rows_alloc]: enough free rows, or none taken. *)
Lemma rows_alloc_ok reqs p : (∀ r, r ∈ reqs → holds_kv (kv r) = true → 0 < kv_allocated_len (kv r)) →
  match rows_alloc reqs p with
  | Ok (Some _, reqs', p') => Forall2 bound reqs reqs' ∧ req_to_token p' = req_to_token p ∧
      ∃ sel, row_ids reqs' ≡ₚ row_ids reqs ++ sel ∧ free_slots p = free_slots p' ++ sel
  | Ok (None, reqs', p') => (length (free_slots p) < length (filter (λ r, holds_kv (kv r) = false) reqs))%nat
  | Raise _ => False
  end.
Proof.
  intros Hal. unfold rows_alloc.
  assert (forallb (λ r, 0 <? kv_allocated_len (kv r)) (filter (λ r, holds_kv (kv r) = true) reqs) = true) as ->.
  { apply forallb_forall. intros r Hr%list_elem_of_In. apply list_elem_of_filter in Hr as [Hh Hr]. apply Z.ltb_lt. by apply Hal. }
  cbn [assert_ rbind].
  assert (length reqs - length (filter (λ r, holds_kv (kv r) = true) reqs) = length (filter (λ r, holds_kv (kv r) = false) reqs))%nat as ->.
  { clear Hal. induction reqs as [|r reqs IH]; [done|]. pose proof (length_filter (λ r, holds_kv (kv r) = true) reqs).
    destruct (holds_kv (kv r)) eqn:Eh; [rewrite filter_cons_True, filter_cons_False by congruence|
      rewrite filter_cons_False, filter_cons_True by congruence]; cbn [length]; lia. }
  set (need := length (filter _ reqs)). unfold alloc_rows. destruct (Nat.ltb_spec (length (free_slots p)) need) as [Hlt|Hge]; [done|].
  destruct (Nat.eqb_spec need 0) as [E0|_].
  - destruct (bind_rows_ok reqs []) as [H1 H2]; [done|]. split; [done|]. split; [done|]. exists []. rewrite !app_nil_r in *. done.
  - destruct (bind_rows_ok reqs (drop (length (free_slots p) - need) (free_slots p))) as [H1 H2]; [rewrite length_drop; lia|].
    split; [done|]. split; [done|]. eexists. split; [exact H2|]. cbn [free_slots]. by rewrite take_drop.
Qed.

Section extend.
Context {A : Type} `{!PagePool A} `{!SlotPool A} (clock : nat → Z) (cfg : cache_config) {HQ : HeapQ entry entry_le}.
Context (leaves_of : RadixCache → list nat) (Hlv : ∀ c, leaves_of c ≡ₚ elements (evictable_leaves c)).
Abbreviation ps := (page_size cfg).
Context (Hps : 0 < ps) (Hdis : disable cfg = false).
Context (all_rows : list nat) (Hall : NoDup all_rows).
Abbreviation tree_ok := (tree_ok clock cfg).
Abbreviation sys_ok := (sys_ok clock cfg all_rows).

(** ** Eviction for an allocation *)

Lemma framed_refl (w : world A) touched held : framed w w touched held.
Proof. split; [done| |done]. intros n _ Hn. by split. Qed.

(** The slots the tree could give up and those that are free. *)
Definition reclaimable (w : world A) : Z := pool_available (pool w) + evictable_size (cache w).

(** What allocation steps keep: the tree, its locks, the accounting. *)
Record alloc_frame (w : world A) (H : nat → Z) (used : list Z) (w' : world A) : Prop := {
  af_tree : tree_ok w' H;
  af_owns : owns (pool w') (head_pages ps (tree_slots (cache w')) ++ used);
  af_rows : rows w' = rows w;
  af_frame : framed w w' [] (λ n, 1 ≤ H n)
}.

(** Slots are free, in the tree or used elsewhere. *)
Lemma slots_accounted w H used : tree_ok w H → owns (pool w) (head_pages ps (tree_slots (cache w)) ++ used) →
  pool_available (pool w) + zlen (tree_slots (cache w)) + zlen used * ps = pool_total.
Proof.
  intros Ht Ho. rewrite (pool_available_owns _ _ Ho), zlen_app, (ko_page _ _ _ _ Ht), Z.mul_add_distr_r.
  rewrite (tree_pages_count clock cfg Hps Hdis w H Ht). lia.
Qed.

Lemma evictable_nonneg w H : tree_ok w H → 0 ≤ evictable_size (cache w).
Proof.
  intros [Hreach _ _]. pose proof (reachable_inv clock cfg Hps Hdis (cache w) H Hreach) as [(P & V & Hinv) _].
  pose proof (ci_ev _ _ _ _ _ _ Hinv) as E. unfold evictable_size. simpl in E. rewrite E, msum_fmap. apply msum_nonneg. intros n x Hx.
  unfold ev_size. cbn [nc_lock nc_key core]. case_decide as Hn; [done|]. destruct (_ =? 0); [|done].
  destruct (inv_node _ _ _ _ _ _ _ Hinv Hx Hn) as (_ & _ & p & y & v & _ & _ & _ & _ & Hl & _). pose proof (zlen_nonneg v). lia.
Qed.

Lemma evict_enough w H used need : tree_ok w H → owns (pool w) (head_pages ps (tree_slots (cache w)) ++ used) →
  ∃ w', evict_from_tree_cache cfg leaves_of need w = Ok w' ∧ alloc_frame w H used w' ∧
    (need ≤ reclaimable w → need ≤ pool_available (pool w')) ∧ pool_available (pool w) ≤ pool_available (pool w').
Proof.
  intros Ht Ho. unfold evict_from_tree_cache, reclaimable. destruct (Z.ltb_spec 0 (need - pool_available (pool w))) as [Hlt|Hge].
  2:{ exists w. split; [done|]. split; [|split; lia]. split; try done; apply framed_refl. }
  destruct (evict_ok clock cfg Hps Hdis w H used (need - pool_available (pool w)) (leaves_of (cache w)) Ht Ho (Hlv _))
    as (n & w' & E & Ht' & Ho' & Er & F & Hstop & Hev & Hcount & _).
  rewrite E. cbn [rbind]. exists w'. split; [done|]. split; [by split|].
  pose proof (slots_accounted w H used Ht Ho). pose proof (slots_accounted w' H used Ht' Ho').
  pose proof (evictable_nonneg w H Ht). split; lia.
Qed.

(** ** The slots of a batch *)

Definition demand (rs : list req) : Z := if ps =? 1 then sum_ext rs else sum_ext rs + zlen rs * ps.

Definition take_slots (rs : list req) (w : world A) : result (list Z * world A) :=
  if ps =? 1 then alloc_token_slots cfg leaves_of (sum_ext rs) w
  else alloc_paged_token_slots_extend cfg leaves_of (r_prefix <$> rs) (r_seq <$> rs) (r_last <$> rs) (sum_ext rs) w.

(** The slots are those of the reference placement on pages that were free. *)
Lemma take_slots_ok w H used rs : tree_ok w H →
  owns (pool w) (head_pages ps (tree_slots (cache w)) ++ used) → batch_ok rs →
  match take_slots rs w with
  | Ok (out, w') => ∃ free, sum_pages ps rs ≤ zlen free ∧ out = place_batch ps free rs 0 ∧ rows w' = rows w ∧
      framed w w' [] (λ n, 1 ≤ H n) ∧ tree_ok w' H ∧
      owns (pool w') (pytake free (sum_pages ps rs) ++ head_pages ps (tree_slots (cache w')) ++ used)
  | Raise e => e = RuntimeError ∧ reclaimable w < demand rs ∧ pool_available (pool w) < sum_pages ps rs * ps
  end.
Proof.
  intros Ht Ho Hb. assert (0 ≤ sum_ext rs) as Hn by (by apply zsum_nonneg, batch_ext_nonneg).
  unfold take_slots, demand. destruct (Z.eqb_spec ps 1) as [E1|Hne].
  - unfold alloc_token_slots. destruct (evict_enough w H used (sum_ext rs) Ht Ho) as (w1 & -> & [Ht1 Ho1 Hr1 F1] & Hen & Hmono).
    cbn [rbind]. unfold or_oom. pose proof (pool_alloc_owns (pool w1) _ (sum_ext rs) Ho1) as Hal.
    rewrite (ko_page _ _ _ _ Ht1), E1 in Hal. specialize (Hal eq_refl Hn).
    destruct (pool_alloc (pool w1) (sum_ext rs)) as [[[out|] a']|]; [| |done]; cbn [rbind].
    + destruct Hal as (Hl & Ho' & Hp'). exists out. rewrite E1, sum_pages_one. split; [lia|]. split.
      { rewrite place_batch_one by (done || lia). rewrite <- pytake_at by lia. rewrite <- Hl, pytake_eq by apply zlen_nonneg.
        symmetry. apply take_ge. unfold zlen. lia. }
      cbn [rows cache pool]. split; [done|]. split; [by destruct F1; split|]. split.
      { destruct Ht1. split; [done|done|]. cbn. congruence. }
      rewrite pytake_eq by lia. rewrite take_ge by (unfold zlen in Hl; lia). done.
    + destruct Hal as (Hlt & _). split; [done|]. rewrite E1, sum_pages_one. lia.
  - unfold alloc_paged_token_slots_extend. rewrite (ko_page _ _ _ _ Ht).
    assert (zlen (r_seq <$> rs) = zlen rs) as -> by (unfold zlen; by rewrite length_fmap).
    destruct (evict_enough w H used (sum_ext rs + zlen rs * ps) Ht Ho) as (w1 & -> & [Ht1 Ho1 Hr1 F1] & Hen & Hmono).
    cbn [rbind]. unfold or_oom. pose proof (pool_extend_owns (pool w1) _ rs Ho1) as Hal.
    rewrite (ko_page _ _ _ _ Ht1) in Hal. specialize (Hal ltac:(lia) Hb). cbv zeta in Hal.
    destruct (pool_alloc_extend _ _ _ _ _) as [[[out|] a']|]; [| |done]; cbn [rbind].
    + destruct Hal as (free & Hl & -> & Ho' & Hp'). exists free. split; [done|]. split; [done|]. split; [done|].
      split; [by destruct F1; split|]. split; [|done]. destruct Ht1. split; [done|done|]. cbn. congruence.
    + destruct Hal as (Hlt & _). split; [done|]. pose proof (sum_pages_bound ps rs Hps Hb) as Hbd.
      pose proof (Z.mul_div_le (sum_ext rs) ps Hps). split; [|lia].
      destruct (decide (sum_ext rs + zlen rs * ps ≤ reclaimable w)); [|lia]. specialize (Hen ltac:(done)). nia.
Qed.

(** ** Prefixes *)

(** What the scheduler guarantees of a request it extends. *)
Record extendable (w : world A) (r : KvReq) : Prop := {
  el_len : k_prefix_len r ≤ k_extend_end r;
  el_row : holds_kv (kv r) = true → k_prefix_len r = kv_allocated_len (kv r) ∧ 0 < kv_allocated_len (kv r);
  el_width : ∀ i row, req_to_token (rows w) !! i = Some row → k_extend_end r ≤ zlen row
}.

(** [t] holds the slots of the prefix of [r], the first of them in the tree. *)
Record pre_ok (w : world A) (r : KvReq) (t : list Z) (n : nat) : Prop := {
  po_lock : lock r = Some n;
  po_live : is_Some (nodes (cache w) !! n);
  po_units : path_units n (cache w)
             = Ok (take (Z.to_nat (cache_protected_len (kv r))) (row_units (is_eagle cfg) (full_untruncated_fill_ids r)));
  po_slots : path_device_indices n (cache w) = Ok (take (Z.to_nat (cache_protected_len (kv r))) t);
  po_ns : n ≠ root_node (cache w) → node_namespace n (cache w) = Some (row_ns r);
  po_len : zlen t = k_prefix_len r;
  po_paged : paged ps t;
  po_cpl : 0 ≤ cache_protected_len (kv r) ≤ k_prefix_len r;
  po_page : (ps | cache_protected_len (kv r))
}.

Lemma pre_frame w w' r t n H : pre_ok w r t n → framed w w' [] (λ n, 1 ≤ H n) → 1 ≤ H n → pre_ok w' r t n.
Proof.
  intros [] [Er Hn _] Hh. destruct (Hn n Hh po_live0) as [L U S N]. split; try done; [congruence|congruence|].
  rewrite Er. intros Hne. rewrite N by done. by apply po_ns0.
Qed.

Lemma path_paged w H n vs : tree_ok w H → is_Some (nodes (cache w) !! n) → path_device_indices n (cache w) = Ok vs → paged ps vs.
Proof.
  intros [Hreach Hpg _] [x Hx] Hvs. pose proof (reachable_inv clock cfg Hps Hdis (cache w) H Hreach) as [(P & V & Hinv) _].
  destruct (path_lengths cfg _ _ _ _ n Hinv ltac:(by eexists)) as (Hd & El & Hroot).
  rewrite (path_device_indices_inv cfg _ _ _ _ n Hinv ltac:(by eexists)) in Hvs. injection Hvs as <-.
  destruct (decide (P n = [])) as [E0|Hne].
  { rewrite E0 in El. destruct (V n); [|done]. by intros i y Hy. }
  apply (Hpg (knamespace (nkey x)) (P n)), (cached_inv cfg (cache w) P V H); [done|]. exists n, x. split; [done|].
  split; [|split; [done|split; [done|rewrite <- El, firstn_all; done]]].
  intros ->. by rewrite (inv_P_root cfg _ _ _ _ Hinv) in Hne.
Qed.

Lemma prefix_indices_ok w rs r : sys_ok w rs → r ∈ rs → extendable w r →
  ∃ t n, _prefix_kv_indices w r = Ok t ∧ pre_ok w r t n ∧
    own_pages cfg w r = head_pages ps (drop (Z.to_nat (cache_protected_len (kv r))) t).
Proof.
  intros Hs Hin [Hlen Hrow _]. destruct (so_tree _ _ _ _ _ Hs) as (H & Ht & HH). unfold _prefix_kv_indices.
  destruct (so_reqs _ _ _ _ _ Hs r Hin) as [(idx & row & n & [])|(n & [])].
  - assert (holds_kv (kv r) = true) as Hh by (unfold holds_kv; by rewrite ko_idx).
    destruct (Hrow Hh) as [Ep Ha]. rewrite Hh. unfold get_row. rewrite ko_idx, ko_row. cbn [rbind].
    exists (take (Z.to_nat (k_prefix_len r)) row), n. rewrite pytake_eq by lia. split; [done|]. split.
    + split; try done; try lia.
      * rewrite ko_slots, take_take. do 2 f_equal. lia.
      * unfold zlen in *. rewrite length_take. lia.
      * by rewrite Ep.
    + unfold own_pages, own. by rewrite ko_idx, ko_row, Ep.
  - assert (holds_kv (kv r) = false) as -> by (unfold holds_kv; by rewrite wo_idx). destruct wo_slots as (vs & Hvs & Hvl).
    rewrite wo_last. exists vs, n. split.
    + destruct (Z.eqb_spec (k_prefix_len r) 0) as [E0|_]; [by rewrite (zlen_nil_inv vs) by lia|].
      rewrite Hvs. cbn [rbind]. rewrite (proj2 (Z.leb_le _ _)) by lia. cbn [assert_ rbind]. rewrite pytake_eq by lia.
      rewrite take_ge by (unfold zlen in Hvl; lia). done.
    + split.
      * split; try done; try lia; [|by eapply path_paged|tauto]. rewrite Hvs. f_equal. symmetry. apply take_ge. unfold zlen in Hvl. lia.
      * unfold own_pages. rewrite wo_idx. rewrite drop_ge by (unfold zlen in Hvl; lia). done.
Qed.

Lemma mapR_ok {B C} (f : B → result C) (Q : B → C → Prop) l :
  (∀ x, x ∈ l → ∃ y, f x = Ok y ∧ Q x y) → ∃ ys, mapR f l = Ok ys ∧ Forall2 Q l ys.
Proof.
  induction l as [|x l IH]; intros Hf; [by exists []|]. destruct (Hf x ltac:(by left)) as (y & E & HQ').
  destruct IH as (ys & E' & HF); [intros z Hz; apply Hf; by right|]. exists (y :: ys). cbn. rewrite E. cbn. rewrite E'. cbn.
  split; [done|by constructor].
Qed.

(** ** The batch with its slots *)

Definition rq (r : KvReq) (t : list Z) : req := mkReq (k_prefix_len r) (k_extend_end r) (last_of t).

Lemma rq_last_fits w r t n : pre_ok w r t n → last_fits ps (rq r t).
Proof.
  intros [] Hm. cbn in *. unfold last_of. destruct (last t) as [x|] eqn:El.
  - cbn. rewrite last_lookup in El. rewrite <- Zplus_mod_idemp_l, (paged_mod ps Hps _ _ _ po_paged0 El), Zplus_mod_idemp_l. f_equal.
    destruct t as [|y t]; [done|]. unfold zlen in po_len0. cbn [length pred] in *. lia.
  - apply last_None in El as ->. unfold zlen in po_len0. cbn in po_len0. rewrite <- po_len0 in Hm. by rewrite Z.mod_0_l in Hm by lia.
Qed.

(** The page a prefix ends inside is one of the request's own. *)
Lemma rq_continues w r t n : pre_ok w r t n → own_pages cfg w r = head_pages ps (drop (Z.to_nat (cache_protected_len (kv r))) t) →
  continues ps (own_pages cfg w r) (rq r t).
Proof.
  intros Hp Eo Hm. split; [by eapply rq_last_fits|]. destruct Hp as [_ _ _ _ _ Hl Hpg Hc Hdiv]. cbn in *. unfold last_of.
  destruct (last t) as [x|] eqn:El; last first.
  { apply last_None in El as ->. unfold zlen in Hl. cbn in Hl. rewrite <- Hl in Hm. by rewrite Z.mod_0_l in Hm by lia. }
  rewrite last_lookup in El. cbn. set (i := pred (length t)) in *. destruct (Hpg i x El) as (y & Hy & -> & Hy0).
  set (p := Z.to_nat ps) in *. assert (i mod p < p)%nat as Hlt by (apply Nat.mod_upper_bound; lia).
  assert ((y + Z.of_nat (i mod p)) / ps = y / ps) as ->.
  { pose proof (Z.div_mod y ps ltac:(lia)) as Hd. rewrite Hd, Hy0, Z.add_0_r, Z.mul_comm, Z.add_comm, Z.div_add, Z.div_mul by lia.
    rewrite Z.div_small by lia. lia. }
  rewrite Eo. unfold head_pages. apply list_elem_of_fmap. exists y. split; [done|]. apply list_elem_of_filter. split; [done|].
  destruct Hdiv as [q Eq]. assert (cache_protected_len (kv r) ≠ k_prefix_len r) as Hne.
  { intros E. apply Hm. rewrite <- E, Eq. by apply Z_mod_mult. }
  pose proof (lookup_lt_Some _ _ _ El). assert (Z.to_nat (cache_protected_len (kv r)) ≤ i / p * p)%nat as Hle.
  { rewrite Eq. assert (0 ≤ q) by nia. replace (Z.to_nat (q * ps)) with (Z.to_nat q * p)%nat by (unfold p; rewrite Z2Nat.inj_mul by lia; lia).
    apply Nat.mul_le_mono_r, Nat.div_le_lower_bound; [lia|]. unfold p, i, zlen in *. nia. }
  apply (list_elem_of_lookup_2 _ (i / p * p - Z.to_nat (cache_protected_len (kv r)))). rewrite lookup_drop. rewrite <- Hy. f_equal. lia.
Qed.

(** A bound request with its prefix and new slots. *)
Record item_of (w w2 : world A) (r : KvReq) (x : item) (n : nat) : Prop := {
  io_bound : bound r x.1.1;
  io_pre : pre_ok w2 r x.1.2 n;
  io_own : own_pages cfg w r = head_pages ps (drop (Z.to_nat (cache_protected_len (kv r))) x.1.2);
  io_len : zlen x.2 = k_extend_end r - k_prefix_len r;
  io_paged : paged ps (x.1.2 ++ x.2)
}.

Lemma items_of w w2 free batch reqs' ts k :
  Forall2 bound batch reqs' → (∀ r, r ∈ batch → 0 ≤ k_prefix_len r ≤ k_extend_end r) →
  Forall2 (λ r t, ∃ n, pre_ok w2 r t n ∧ own_pages cfg w r = head_pages ps (drop (Z.to_nat (cache_protected_len (kv r))) t)) batch ts →
  Forall2 (λ r x, ∃ n, item_of w w2 r x n) batch (zip (zip reqs' ts) (place_segs ps free (zip_with rq batch ts) k)).
Proof.
  intros Hb. revert ts k. induction Hb as [|r r' batch reqs' Hr Hb IH]; intros ts k Hlen Hts.
  { apply Forall2_nil_inv_l in Hts as ->. constructor. }
  apply Forall2_cons_inv_l in Hts as (t & ts' & (n & Hpre & Hown) & Hts & ->). cbn. constructor.
  - exists n. destruct (Hlen r ltac:(by left)). split; try done; cbn [fst snd].
    + rewrite length_place_req; [done|]. unfold ext. cbn. lia.
    + pose proof Hpre as []. apply place_paged; try done. intros Hne. unfold rq, last_of. cbn. by destruct t as [|y t] using rev_ind; [|rewrite last_snoc].
  - apply IH; [|done]. intros r0 Hr0. apply Hlen. by right.
Qed.

Definition extended (r : KvReq) : KvReq := set_kv (set_alloc (k_extend_end r)) r.

Lemma row_ids_fmap (f : KvReq → KvReq) l : (∀ r, req_pool_idx (kv (f r)) = req_pool_idx (kv r)) → row_ids (f <$> l) = row_ids l.
Proof.
  intros Hf. unfold row_ids. induction l as [|r l IH]; [done|]. rewrite fmap_cons. cbn [omap list_omap] in *. rewrite Hf, IH. done.
Qed.

(** [r'] is [r] up to the row it holds. *)
Lemma bound_same r r' : bound r r' → ∃ i, req_pool_idx (kv r') = Some i ∧ r' = set_kv (set_pool_idx (Some i)) r.
Proof.
  intros [[-> Hh]|(i & -> & _)]; [|by exists i]. unfold holds_kv in Hh. destruct (req_pool_idx (kv r)) as [i|] eqn:E; [|done].
  exists i. split; [done|]. unfold set_kv, set_pool_idx, kv_with. destruct r as [? ? ? ? ? ? ? ? ? ? ? ? ? ? ? ? ? ? ? ? ? []]. cbn in *. by subst.
Qed.

(** One request once its row is written. *)
Lemma item_done (w w2 w4 : world A) r (x : item) n idx row : item_of w w2 r x n → extendable w r →
  req_pool_idx (kv x.1.1) = Some idx → cache w4 = cache w2 → k_extend_end r ≤ zlen row →
  req_to_token (rows w4) !! idx = Some (x.1.2 ++ x.2 ++ drop (Z.to_nat (k_extend_end r)) row) →
  req_ok cfg w4 (extended x.1.1) idx (x.1.2 ++ x.2 ++ drop (Z.to_nat (k_extend_end r)) row) n ∧
  own_pages cfg w4 (extended x.1.1) = own_pages cfg w r ++ head_pages ps x.2.
Proof.
  intros [Hb [] Hown Hl Hmod] [Hlen _ _] Hi Ec Hw Hrow. destruct (bound_same _ _ Hb) as (j & Ej & Ex). assert (j = idx) as -> by congruence.
  rewrite Ex. set (t := x.1.2) in *. set (sl := x.2) in *.
  assert (zlen (t ++ sl) = k_extend_end r) as Hts by (rewrite zlen_app; lia).
  assert (take (Z.to_nat (k_extend_end r)) (t ++ sl ++ drop (Z.to_nat (k_extend_end r)) row) = t ++ sl) as Etake.
  { rewrite app_assoc, take_app_le by (unfold zlen in Hts; lia). apply take_ge. unfold zlen in Hts. lia. }
  split.
  - split; cbn [kv extended set_kv set_alloc set_pool_idx kv_with req_pool_idx cache_protected_len kv_allocated_len lock
                full_untruncated_fill_ids k_extend_end]; rewrite ?Ec; try done.
    + rewrite app_assoc, zlen_app. unfold zlen in *. rewrite length_drop. lia.
    + by rewrite Etake.
    + rewrite po_slots0. f_equal. rewrite take_app_le by (unfold zlen in po_len0; lia). done.
  - unfold own_pages at 1. cbn [kv extended set_kv set_alloc set_pool_idx kv_with req_pool_idx]. rewrite Hrow. unfold own.
    cbn [kv extended set_kv set_alloc set_pool_idx kv_with cache_protected_len kv_allocated_len k_extend_end]. rewrite Etake.
    rewrite drop_app_le by (unfold zlen in po_len0; lia). by rewrite head_pages_app, <- Hown.
Qed.

Lemma mjoin_zip_app {B} (f g : list (list B)) : length f = length g → mjoin (zip_with app f g) ≡ₚ mjoin f ++ mjoin g.
Proof.
  revert g. induction f as [|x f IH]; intros [|y g] Hl; try done. cbn in *. rewrite IH by lia. solve_Permutation.
Qed.

Lemma zip_fst {B C} (l : list B) (k : list C) : length l = length k → (zip l k).*1 = l ∧ (zip l k).*2 = k.
Proof. intros Hl. split; [apply fst_zip; lia|apply snd_zip; lia]. Qed.

Lemma zip_with_fields batch ts : length batch = length ts →
  r_prefix <$> zip_with rq batch ts = k_prefix_len <$> batch ∧ r_seq <$> zip_with rq batch ts = k_extend_end <$> batch ∧
  r_last <$> zip_with rq batch ts = last_of <$> ts.
Proof.
  revert ts. induction batch as [|r batch IH]; intros [|t ts] Hl; try done. cbn in *.
  destruct (IH ts ltac:(lia)) as (H1 & H2 & H3). rewrite H1, H2, H3. done.
Qed.

Lemma sum_ext_inputs batch ts : length batch = length ts →
  (∀ r, r ∈ batch → 0 ≤ k_prefix_len r ≤ k_extend_end r ∧ k_extend_end r ≤ zlen (full_untruncated_fill_ids r)) →
  zsum (zlen ∘ extend_input <$> batch) = sum_ext (zip_with rq batch ts).
Proof.
  revert ts. induction batch as [|r batch IH]; intros [|t ts] Hl Hb; try done. cbn [zip_with length] in *. rewrite fmap_cons.
  change (sum_ext (?x :: ?l)) with (ext x + sum_ext l). change (zsum (?x :: ?l)) with (x + zsum l).
  destruct (Hb r ltac:(by left)). rewrite (IH ts) by (lia || (intros; apply Hb; by right)). f_equal.
  unfold ext. cbn. unfold extend_input. rewrite zlen_pydrop, zlen_pytake by lia. lia.
Qed.

(** The tokens [alloc_for_extend] makes room for. *)
Definition extend_demand (batch : list KvReq) : Z :=
  let n := zsum (zlen ∘ extend_input <$> batch) in if ps =? 1 then n else n + zlen batch * ps.

Lemma batch_rows w batch rest reqs' sel p' :
  sys_ok w (batch ++ rest) → row_ids reqs' ≡ₚ row_ids batch ++ sel → free_slots (rows w) = free_slots p' ++ sel →
  row_ids reqs' ++ row_ids rest ++ free_slots p' ≡ₚ all_rows ∧
  (∀ i, i ∈ row_ids reqs' → is_Some (req_to_token (rows w) !! i)) ∧
  (∀ i, i ∈ free_slots p' → is_Some (req_to_token (rows w) !! i)).
Proof.
  intros [_ Hreqs Hperm Hfr _] Hids Hfree. rewrite Hfree in Hperm, Hfr. rewrite row_ids_app in Hperm. split; [|split].
  - rewrite <- Hperm, Hids. solve_Permutation.
  - intros i Hi. rewrite Hids in Hi. apply elem_of_app in Hi as [Hi|Hi]; [|apply Hfr; set_solver].
    apply list_elem_of_omap in Hi as (r & Hr & Hi). destruct (Hreqs r ltac:(set_solver)) as [(idx & row & n & [])|(n & [])]; [|congruence].
    exists row. congruence.
  - intros i Hi. apply Hfr. set_solver.
Qed.

(** The prefix of [r], which ends in the pages only [r] has. *)
Definition prefixed (w : world A) (r : KvReq) (t : list Z) : Prop :=
  ∃ n, pre_ok w r t n ∧ own_pages cfg w r = head_pages ps (drop (Z.to_nat (cache_protected_len (kv r))) t).

Lemma prefixes_ok w batch rest : sys_ok w (batch ++ rest) → (∀ r, r ∈ batch → extendable w r) →
  ∃ ts, mapR (_prefix_kv_indices w) batch = Ok ts ∧ Forall2 (prefixed w) batch ts ∧ batch_ok (zip_with rq batch ts) ∧
    (∀ r, r ∈ batch → 0 ≤ k_prefix_len r ≤ k_extend_end r).
Proof.
  intros Hs Hex. destruct (mapR_ok (_prefix_kv_indices w) (prefixed w) batch) as (ts & E & Hts).
  { intros r Hr. destruct (prefix_indices_ok w (batch ++ rest) r Hs ltac:(set_solver) (Hex r Hr)) as (t & n & E & Hp). exists t. split; [done|]. by exists n. }
  assert (∀ r, r ∈ batch → 0 ≤ k_prefix_len r ≤ k_extend_end r) as Hbl.
  { intros r Hr. pose proof (el_len _ _ (Hex r Hr)). apply list_elem_of_lookup_1 in Hr as [k Hk].
    destruct (Forall2_lookup_l _ _ _ _ _ Hts Hk) as (t & _ & n & [] & _). lia. }
  exists ts. split; [done|]. split; [done|]. split; [|done]. apply Forall_lookup. intros k q Hq.
  apply lookup_zip_with_Some in Hq as (r & t & -> & Hr & _). cbn. apply Hbl. by eapply list_elem_of_lookup_2.
Qed.

(** The bound batch, item by item: what is written to the rows. *)
Record placed (w w3 : world A) (batch reqs' : list KvReq) (ts : list (list Z)) (free : list Z) (items : list item) : Prop := {
  pl_reqs : items.*1.*1 = reqs';
  pl_ts : items.*1.*2 = ts;
  pl_out : mjoin items.*2 = place_batch ps free (zip_with rq batch ts) 0;
  pl_items : Forall2 (λ r x, ∃ n, item_of w w3 r x n) batch items;
  pl_heads : mjoin (head_pages ps <$> items.*2) = pytake free (sum_pages ps (zip_with rq batch ts))
}.

Lemma place_items w w3 H batch rest reqs' ts free :
  (∀ m, H m = lock_count (batch ++ rest) m) → framed w w3 [] (λ n, 1 ≤ H n) → Forall2 bound batch reqs' →
  (∀ r, r ∈ batch → 0 ≤ k_prefix_len r ≤ k_extend_end r) → Forall2 (prefixed w) batch ts → batch_ok (zip_with rq batch ts) →
  sum_pages ps (zip_with rq batch ts) ≤ zlen free → ∃ items, placed w w3 batch reqs' ts free items.
Proof.
  intros HH F Hb Hbl Hts Hbo Hneed. set (rs := zip_with rq batch ts) in *. set (segs := place_segs ps free rs 0).
  pose proof (Forall2_length _ _ _ Hts) as Hlen. pose proof (Forall2_length _ _ _ Hb) as Hlb.
  assert (length segs = length rs) as Hls by apply length_place_segs.
  assert (length rs = length batch) as Hlr by (unfold rs; rewrite length_zip_with; lia).
  exists (zip (zip reqs' ts) segs). destruct (zip_fst (zip reqs' ts) segs) as [E1 E2]; [rewrite length_zip_with; lia|].
  destruct (zip_fst reqs' ts) as [E3 E4]; [lia|]. split; rewrite ?E1, ?E2; try done.
  - unfold segs. by rewrite <- place_segs_join.
  - apply items_of; [done|done|]. apply Forall2_same_length_lookup_2; [done|]. intros k r t Hr Ht.
    destruct (Forall2_lookup_lr _ _ _ _ _ _ Hts Hr Ht) as (n & Hp & Hown). exists n. split; [|done]. eapply pre_frame; [done|exact F|].
    rewrite HH. apply list_elem_of_lookup_2, list_elem_of_split in Hr as (l1 & l2 & ->). rewrite <- app_assoc. apply lock_count_pos, Hp.
  - unfold segs. rewrite place_segs_heads; [|done|done|].
    + symmetry. apply pytake_at. split; [by apply sum_pages_nonneg|done].
    + apply Forall_lookup. intros k q Hq. apply lookup_zip_with_Some in Hq as (r & t & -> & Hr & Hk).
      destruct (Forall2_lookup_lr _ _ _ _ _ _ Hts Hr Hk) as (n & Hp & _). by eapply rq_last_fits.
Qed.

(** Every item fits the row it is written to. *)
Lemma placed_fits w w3 batch reqs' ts free items : placed w w3 batch reqs' ts free items →
  (∀ r, r ∈ batch → extendable w r) → req_to_token (rows w3) = req_to_token (rows w) →
  (∀ i, i ∈ row_ids reqs' → is_Some (req_to_token (rows w) !! i)) →
  ∀ k x, items !! k = Some x → ∃ r idx row, batch !! k = Some r ∧ ts !! k = Some x.1.2 ∧ bound r x.1.1 ∧ item_ok (rows w3) x.1.1 x.1.2 x.2 idx row.
Proof.
  intros [E1 E2 _ HF _] Hex Htok Hrows k x Hk. destruct (Forall2_lookup_r _ _ _ _ _ HF Hk) as (r & Hr & n & [Hb [] _ Hl _]).
  destruct (bound_same _ _ Hb) as (i & Ei & Ex). destruct (Hrows i) as [row Hrow].
  { eapply row_ids_elem; [|exact Ei]. rewrite <- E1, <- list_fmap_compose. apply (list_elem_of_fmap_2 (λ y : item, y.1.1)). by eapply list_elem_of_lookup_2. }
  exists r, i, row. split; [done|]. split; [by rewrite <- E2, !list_lookup_fmap, Hk|]. split; [done|].
  pose proof (el_width _ _ (Hex r ltac:(by eapply list_elem_of_lookup_2)) _ _ Hrow).
  assert (k_extend_end x.1.1 = k_extend_end r ∧ k_prefix_len x.1.1 = k_prefix_len r) as [Ee Ep] by (by rewrite Ex).
  split; rewrite ?Ee, ?Ep, ?Htok; done.
Qed.

(** The written row of one item, in the new state [w4]. *)
Lemma item_written (w w3 w4 : world A) reqs' r x n :
  item_of w w3 r x n → extendable w r → cache w4 = cache w3 → req_to_token (rows w3) = req_to_token (rows w) →
  (∀ i, i ∈ row_ids reqs' → is_Some (req_to_token (rows w) !! i)) → x.1.1 ∈ reqs' →
  (∀ idx row, item_ok (rows w3) x.1.1 x.1.2 x.2 idx row →
     req_to_token (rows w4) !! idx = Some (x.1.2 ++ x.2 ++ drop (Z.to_nat (k_extend_end x.1.1)) row)) →
  (∃ idx row n, req_ok cfg w4 (extended x.1.1) idx row n) ∧
  own_pages cfg w4 (extended x.1.1) = own_pages cfg w r ++ head_pages ps x.2.
Proof.
  intros Hio Hex Hc Htok Hrows Hx Hmine. pose proof Hio as [Hb [] _ Hl _]. destruct (bound_same _ _ Hb) as (i & Ei & Ex).
  destruct (Hrows i) as [row Hrow]; [by eapply row_ids_elem|]. pose proof Hex as [Hlen Hrw Hwd]. pose proof (Hwd _ _ Hrow) as Hw.
  assert (k_extend_end x.1.1 = k_extend_end r ∧ k_prefix_len x.1.1 = k_prefix_len r) as [Ee Ep] by (by rewrite Ex).
  assert (item_ok (rows w3) x.1.1 x.1.2 x.2 i row) as Hit by (split; rewrite ?Ee, ?Ep, ?Htok; done).
  pose proof (Hmine i row Hit) as Hm. rewrite Ee in Hm.
  destruct (item_done w w3 w4 r x n i row Hio Hex Ei Hc Hw Hm) as [H1 H2]. split; [|done]. by eexists _, _, _.
Qed.

Lemma lock_count_same l l' : Forall2 (λ r r', lock r' = lock r) l l' → ∀ m, lock_count l' m = lock_count l m.
Proof. intros Hl m. induction Hl as [|r r' l l' E _ IH]; [done|]. by rewrite !lock_count_cons, IH, E. Qed.

(** Putting the extended batch back. *)
Lemma extend_done w w3 p4 H batch rest reqs' (items : list item) sel free need :
  sys_ok w (batch ++ rest) → (∀ r, r ∈ batch → extendable w r) →
  row_ids reqs' ≡ₚ row_ids batch ++ sel → free_slots (rows w) = free_slots (rows w3) ++ sel → req_to_token (rows w3) = req_to_token (rows w) →
  framed w w3 [] (λ n, 1 ≤ H n) → tree_ok w3 H → (∀ m, H m = lock_count (batch ++ rest) m) →
  items.*1.*1 = reqs' → Forall2 (λ r x, ∃ n, item_of w w3 r x n) batch items →
  mjoin (head_pages ps <$> items.*2) = pytake free need →
  owns (pool w3) (pytake free need ++ head_pages ps (tree_slots (cache w3)) ++ mjoin (own_pages cfg w <$> batch ++ rest)) →
  free_slots p4 = free_slots (rows w3) →
  (∀ i, i ∉ row_ids reqs' → req_to_token p4 !! i = req_to_token (rows w3) !! i) →
  (∀ x idx row, x ∈ items → item_ok (rows w3) x.1.1 x.1.2 x.2 idx row →
     req_to_token p4 !! idx = Some (x.1.2 ++ x.2 ++ drop (Z.to_nat (k_extend_end x.1.1)) row)) →
  sys_ok (mkWorld (cache w3) (pool w3) p4) ((extended <$> reqs') ++ rest).
Proof.
  intros Hs Hex Hids Hfree Htok F Ht HH Hreqs' HF Hheads Ho Hf4 Hother Hmine.
  destruct (batch_rows w batch rest reqs' sel (rows w3) Hs Hids Hfree) as (Hperm & Hrows & Hfr).
  assert (NoDup (row_ids reqs' ++ row_ids rest ++ free_slots (rows w3))) as Hnd by (by rewrite Hperm).
  set (w4 := mkWorld (cache w3) (pool w3) p4).
  assert (∀ r x, (∃ n, item_of w w3 r x n) → r ∈ batch → x ∈ items →
            (∃ idx row n, req_ok cfg w4 (extended x.1.1) idx row n) ∧
            own_pages cfg w4 (extended x.1.1) = own_pages cfg w r ++ head_pages ps x.2) as Hdone.
  { intros r x (n & Hio) Hr Hx. eapply (item_written w w3 w4 reqs'); try done; [by apply Hex| |by intros; apply Hmine].
    rewrite <- Hreqs', <- list_fmap_compose. apply (list_elem_of_fmap_2 (λ y : item, y.1.1)). done. }
  assert (framed w w4 (row_ids reqs') (λ n, 1 ≤ H n)) as F4.
  { destruct F as [Fr Fn _]. split; [done|done|]. intros i Hi. unfold w4. cbn. by rewrite Hother, Htok. }
  assert (∀ r i, r ∈ rest → req_pool_idx (kv r) = Some i → i ∉ row_ids reqs') as Hdisj.
  { intros r i Hr Hi Hin. apply NoDup_app in Hnd as (_ & Hnd & _). apply (Hnd i Hin), elem_of_app. left. by eapply row_ids_elem. }
  assert (∀ r x, bound r x → lock (extended x) = lock r) as Hlocks.
  { intros r x Hb. destruct (bound_same _ _ Hb) as (i & _ & ->). done. }
  assert (Forall2 (λ r r', lock r' = lock r) batch (extended <$> reqs')) as Hlk.
  { rewrite <- Hreqs'. apply Forall2_fmap_r, Forall2_fmap_r, Forall2_fmap_r. eapply Forall2_impl; [exact HF|].
    intros r x (n & Hio). cbn. eapply Hlocks, Hio. }
  split.
  - exists H. split; [by destruct Ht|]. intros m. rewrite HH, !lock_count_app. f_equal. symmetry. by apply lock_count_same.
  - intros r [Hr|Hr]%elem_of_app.
    + left. rewrite <- Hreqs' in Hr. rewrite <- !list_fmap_compose in Hr. apply list_elem_of_fmap in Hr as (x & -> & Hx).
      apply list_elem_of_lookup_1 in Hx as [k Hk]. destruct (Forall2_lookup_r _ _ _ _ _ HF Hk) as (r & Hr & Hio).
      eapply Hdone; [exact Hio|by eapply list_elem_of_lookup_2|by eapply list_elem_of_lookup_2].
    + eapply flight_frame; [exact F4| |intros i; by eapply Hdisj|apply Hs; set_solver]. intros n Hn. cbv beta. rewrite HH, lock_count_app.
      apply list_elem_of_split in Hr as (l1 & l2 & ->). pose proof (lock_count_pos l1 r l2 n Hn). pose proof (lock_count_nonneg batch n). lia.
  - rewrite row_ids_app. assert (row_ids (extended <$> reqs') = row_ids reqs') as ->; [|by rewrite <- app_assoc; cbn; rewrite Hf4].
    by apply row_ids_fmap.
  - cbn. rewrite Hf4. intros i Hi. rewrite Hother, Htok; [by apply Hfr|]. intros Hin.
    apply NoDup_app in Hnd as (_ & Hnd & _). apply (Hnd i Hin), elem_of_app. by right.
  - cbn [pool cache]. eapply owns_perm; [|exact Ho]. rewrite (fmap_app (own_pages cfg w4)), join_app, (own_pages_frame_list cfg w w4 _ _ rest F4) by done.
    assert (own_pages cfg w4 <$> (extended <$> reqs') = zip_with app (own_pages cfg w <$> batch) (head_pages ps <$> items.*2)) as ->.
    { rewrite <- Hreqs', <- !list_fmap_compose. clear -HF Hdone. induction HF as [|r x batch items Hio HF IH]; [done|].
      cbn. destruct (Hdone r x Hio) as [_ E]; [by left..|]. cbn in E. rewrite E. f_equal. apply IH. intros; apply Hdone; [done|by right..]. }
    rewrite mjoin_zip_app by (rewrite !length_fmap; by eapply Forall2_length). rewrite Hheads, fmap_app, join_app. solve_Permutation.
Qed.

(** The rows a batch still needs. *)
Definition rows_needed (batch : list KvReq) : Z := zlen (filter (λ r, holds_kv (kv r) = false) batch).

Lemma extend_sys w batch rest :
  sys_ok w (batch ++ rest) →
  (∀ r, r ∈ batch → extendable w r ∧ k_extend_end r ≤ zlen (full_untruncated_fill_ids r)) →
  match alloc_for_extend cfg leaves_of batch w with
  | Ok (out, batch', w') => sys_ok w' (batch' ++ rest) ∧ zlen out = zsum (zlen ∘ extend_input <$> batch) ∧
      Forall2 (λ r r', ∃ i, r' = extended (set_kv (set_pool_idx (Some i)) r)) batch batch'
  | Raise e => e = RuntimeError ∧ (zlen (free_slots (rows w)) < rows_needed batch ∨ reclaimable w < extend_demand batch)
  end.
Proof.
  intros Hs Hex0. assert (∀ r, r ∈ batch → extendable w r) as Hex by (intros r Hr; by apply Hex0).
  destruct (so_tree _ _ _ _ _ Hs) as (H & Ht & HH). pose proof (so_owns _ _ _ _ _ Hs) as Ho.
  destruct (prefixes_ok w batch rest Hs Hex) as (ts & Ets & Hts & Hbo & Hbl). unfold alloc_for_extend. rewrite Ets. cbn [rbind].
  pose proof (Forall2_length _ _ _ Hts) as Hlen.
  unfold alloc_req_slots. pose proof (rows_alloc_ok batch (rows w) (λ r Hr Hh, proj2 (el_row _ _ (Hex r Hr) Hh))) as Hra.
  destruct (rows_alloc batch (rows w)) as [[[[idxs|] reqs'] p']|]; [| |done]; cbn [rbind].
  2:{ split; [done|]. left. unfold rows_needed, zlen. lia. }
  destruct Hra as (Hbound & Htok & sel & Hids & Hfree). set (w1 := mkWorld (cache w) (pool w) p').
  set (rs := zip_with rq batch ts) in *. destruct (zip_with_fields batch ts Hlen) as (E1 & E2 & E3). fold rs in E1, E2, E3.
  assert (zsum (zlen ∘ extend_input <$> batch) = sum_ext rs) as En.
  { apply sum_ext_inputs; [done|]. intros r Hr. split; [by apply Hbl|by apply Hex0]. }
  assert (tree_ok w1 H) as Ht1 by (by destruct Ht).
  pose proof (take_slots_ok w1 H _ rs Ht1 Ho Hbo) as Hts'. unfold take_slots in Hts'. rewrite E1, E2, E3, <- En in Hts'.
  destruct (if ps =? 1 then _ else _) as [[out w3]|e]; cbn [rbind].
  2:{ destruct Hts' as (-> & Hlt & _). split; [done|]. right. unfold extend_demand, demand in *. rewrite <- En in Hlt. cbv zeta.
      assert (zlen rs = zlen batch) as <- by (unfold zlen, rs; rewrite length_zip_with; lia). exact Hlt. }
  destruct Hts' as (free & Hneed & Hout & Er3 & F3 & Ht3 & Ho3).
  assert (framed w w3 [] (λ n, 1 ≤ H n)) as F.
  { destruct F3 as [Fr Fn Frw]. split; [done|done|]. intros i Hi. rewrite (Frw i Hi). cbn. by rewrite Htok. }
  assert (req_to_token (rows w3) = req_to_token (rows w)) as Htok3 by (by rewrite Er3).
  destruct (place_items w w3 H batch rest reqs' ts free HH F Hbound Hbl Hts Hbo Hneed) as (items & Hpl).
  destruct (batch_rows w batch rest reqs' sel p' Hs Hids Hfree) as (Hperm & Hrows & _).
  pose proof (placed_fits _ _ _ _ _ _ _ Hpl Hex Htok3 Hrows) as Hfits. destruct Hpl as [Ei1 Ei2 Eout HF Hheads].
  destruct (write_items items 0 out (rows w3)) as (p4 & Ew & Ef & Eg & Hother & Hmine).
  { intros x [k Hk]%list_elem_of_lookup_1. destruct (Hfits k x Hk) as (r & i & row & _ & _ & _ & Hit). by exists i, row. }
  { rewrite Ei1. assert (NoDup (row_ids reqs' ++ row_ids rest ++ free_slots p')) as Hnd by (by rewrite Hperm). by apply NoDup_app in Hnd as (? & _). }
  { done. } { by rewrite Hout, Eout. }
  rewrite Ei1, Ei2 in Ew. rewrite Ew. cbn [rbind]. split; [|split].
  - eapply (extend_done w w3 p4 H batch rest reqs' items sel free (sum_pages ps rs)); try done.
    + by rewrite Er3.
    + intros i Hi. apply Hother. by rewrite Ei1.
  - rewrite Hout, En. by apply length_place_batch.
  - apply Forall2_fmap_r. eapply Forall2_impl; [exact Hbound|]. intros r r' Hb. destruct (bound_same _ _ Hb) as (i & _ & ->). by exists i.
Qed.

(** C12: [alloc_for_extend] on a consistent system either gives every request of
    the batch a row and exactly the slots of its new tokens and leaves the system
    consistent, evicting only what nobody holds, or raises [RuntimeError], and
    then rows are short or the free and evictable slots do not cover the batch. *)
Theorem extend_exact w batch rest :
  sys_ok w (batch ++ rest) →
  (∀ r, r ∈ batch → extendable w r ∧ k_extend_end r ≤ zlen (full_untruncated_fill_ids r)) →
  match alloc_for_extend cfg leaves_of batch w with
  | Ok (out, batch', w') => sys_ok w' (batch' ++ rest) ∧ zlen out = zsum (zlen ∘ extend_input <$> batch) ∧
      Forall2 (λ r r', ∃ i, r' = extended (set_kv (set_pool_idx (Some i)) r)) batch batch'
  | Raise e => e = RuntimeError ∧ (zlen (free_slots (rows w)) < rows_needed batch ∨ reclaimable w < extend_demand batch)
  end.
Proof. apply extend_sys. Qed.
End extend.
