(* ===== verification/KvDecode.v ===== *)
(** * One more slot per request

    [alloc_for_decode] is an extension by one token: the same accounting, with
    the decode placement and one entry written per row. *)
From S2P Require Import Prelude RadixKey EvictPolicy RadixCache RadixInv RadixOps RadixInsert RadixLock RadixEvict RadixSpec RadixTheorems RadixClient TokenAllocator PagedKernels PagedAllocator KvRow KvTheorems KvRelease KvSystem KvAlloc KvPlace KvExtend.

(** ** Fields the accounting does not read *)

Record same_kv (r r' : KvReq) : Prop := {
  sk_idx : req_pool_idx (kv r') = req_pool_idx (kv r) ∧ is_Some (req_pool_idx (kv r));
  sk_cpl : cache_protected_len (kv r') = cache_protected_len (kv r);
  sk_alloc : kv_allocated_len (kv r') = kv_allocated_len (kv r);
  sk_lock : lock r' = lock r;
  sk_fill : full_untruncated_fill_ids r' = full_untruncated_fill_ids r;
  sk_ns : row_ns r' = row_ns r
}.

Section decode.
Context {A : Type} `{!PagePool A} `{!SlotPool A} (clock : nat → Z) (cfg : cache_config) {HQ : HeapQ entry entry_le}.
Context (leaves_of : RadixCache → list nat) (Hlv : ∀ c, leaves_of c ≡ₚ elements (evictable_leaves c)).
Abbreviation ps := (page_size cfg).
Context (Hps : 0 < ps) (Hdis : disable cfg = false).
Context (all_rows : list nat) (Hall : NoDup all_rows).
Abbreviation tree_ok := (tree_ok clock cfg).
Abbreviation sys_ok := (sys_ok clock cfg all_rows).

Lemma sys_same w (l l' rest : list KvReq) : Forall2 same_kv l l' → sys_ok w (l ++ rest) → sys_ok w (l' ++ rest).
Proof.
  intros HF [(H & Ht & HH) Hreqs Hnd Hfr Ho].
  assert (row_ids l' = row_ids l) as Eids.
  { unfold row_ids. clear -HF. induction HF as [|r r' l l' [[E _]] HF IH]; [done|]. cbn [omap list_omap] in *. by rewrite E, IH. }
  assert (own_pages cfg w <$> l' = own_pages cfg w <$> l) as Eown.
  { clear -HF. induction HF as [|r r' l l' [[E1 _] E2 E3] HF IH]; [done|]. rewrite !fmap_cons, IH. f_equal.
    unfold own_pages, own. by rewrite E1, E2, E3. }
  split.
  - exists H. split; [done|]. intros m. rewrite HH, !lock_count_app. f_equal. clear -HF.
    induction HF as [|r r' l l' [] HF IH]; [done|]. rewrite !lock_count_cons, IH, sk_lock0. done.
  - intros r' [Hr'|Hr]%elem_of_app; [|apply Hreqs; set_solver]. apply list_elem_of_lookup_1 in Hr' as [k Hk].
    destruct (Forall2_lookup_r _ _ _ _ _ HF Hk) as (r & Hr & [[E1 [i Ei]] E2 E3 E4 E5 E6]). apply list_elem_of_lookup_2 in Hr.
    destruct (Hreqs r ltac:(set_solver)) as [(idx & row & n & [])|(n & [])]; [|congruence].
    left. exists idx, row, n. split; rewrite ?E1, ?E2, ?E3, ?E4, ?E5, ?E6; done.
  - by rewrite row_ids_app, Eids, <- row_ids_app.
  - done.
  - rewrite fmap_app, Eown, <- fmap_app. done.
Qed.

(** ** The placement of a decode step *)

Definition decode_demand (n : Z) : Z := if ps =? 1 then n else n * ps.

Definition take_decode (ds : list (Z * Z)) (w : world A) : result (list Z * world A) :=
  if ps =? 1 then alloc_token_slots cfg leaves_of (zlen ds) w
  else alloc_paged_token_slots_decode cfg leaves_of ds.*1 ds.*2 w.

Lemma take_decode_ok w H used ds : tree_ok w H →
  owns (pool w) (head_pages ps (tree_slots (cache w)) ++ used) → Forall (λ d : Z * Z, 1 ≤ d.1) ds →
  Forall (continues ps used) (decode_req <$> ds) →
  let rs := decode_req <$> ds in
  match take_decode ds w with
  | Ok (out, w') => ∃ free, sum_pages ps rs ≤ zlen free ∧ out = place_batch ps free rs 0 ∧ rows w' = rows w ∧
      framed w w' [] (λ n, 1 ≤ H n) ∧ tree_ok w' H ∧
      owns (pool w') (pytake free (sum_pages ps rs) ++ head_pages ps (tree_slots (cache w')) ++ used)
  | Raise e => e = RuntimeError ∧ reclaimable w < decode_demand (zlen ds) ∧ pool_available (pool w) < sum_pages ps rs * ps
  end.
Proof.
  intros Ht Ho Hf Hc rs. unfold take_decode, decode_demand. destruct (Z.eqb_spec ps 1) as [E1|Hne].
  { pose proof (take_slots_ok clock cfg leaves_of Hlv Hps Hdis w H used rs Ht Ho (decode_batch_ok ds Hf)) as Hts.
    unfold take_slots, demand in Hts. rewrite (proj2 (Z.eqb_eq _ _) E1) in Hts. unfold rs in *. rewrite decode_sum_ext in Hts. exact Hts. }
  unfold alloc_paged_token_slots_decode. rewrite (ko_page _ _ _ _ Ht).
  assert (zlen ds.*1 = zlen ds) as -> by (unfold zlen; by rewrite length_fmap).
  destruct (evict_enough clock cfg leaves_of Hlv Hps Hdis w H used (zlen ds * ps) Ht Ho) as (w1 & -> & [Ht1 Ho1 Hr1 F1] & Hen & Hmono).
  cbn [rbind]. unfold or_oom. pose proof (pool_decode_owns (pool w1) _ ds Ho1) as Hal.
  rewrite (ko_page _ _ _ _ Ht1) in Hal. specialize (Hal ltac:(lia) Hf). cbv zeta in Hal. specialize (Hal ltac:(eapply Forall_impl; [exact Hc|]; intros r; apply continues_mono; set_solver)).
  unfold rs. rewrite decode_sum_pages by done.
  destruct (pool_alloc_decode _ _ _) as [[[out|] a']|]; [| |done]; cbn [rbind].
  - destruct Hal as (free & Hl & -> & Ho' & Hp'). exists free. split; [done|]. split; [done|]. split; [done|].
    split; [by destruct F1; split|]. split; [|done]. destruct Ht1. split; [done|done|]. cbn. congruence.
  - destruct Hal as (Hlt & _). split; [done|]. split; [|lia]. destruct (decide (zlen ds * ps ≤ reclaimable w)); [|lia]. specialize (Hen ltac:(done)).
    assert (decode_pages ps ds ≤ zlen ds) as Hd.
    { clear. unfold decode_pages, zlen. induction ds as [|d ds IH]; [done|]. rewrite fmap_cons. change (zsum (?x :: ?l)) with (x + zsum l).
      cbn [length]. destruct (needs_page_01 ps d.1); lia. }
    nia.
Qed.

(** ** Rows of a decode step *)

(** The extension by one token that a decode step amounts to. *)
Definition as_extend (r : KvReq) : KvReq :=
  set_extend (kv_allocated_len (kv r) + 1) (set_prefix (kv_allocated_len (kv r)) (allow_radix_cache_insert_once r) r).

(** What the scheduler guarantees of a request it decodes. *)
Record decodable (w : world A) (r : KvReq) : Prop := {
  dc_row : holds_kv (kv r) = true;
  dc_alloc : 0 < kv_allocated_len (kv r);
  dc_width : ∀ i row, req_to_token (rows w) !! i = Some row → kv_allocated_len (kv r) < zlen row
}.

Lemma as_extend_same r : holds_kv (kv r) = true → same_kv r (as_extend r).
Proof. intros Hh. split; try done. split; [done|]. unfold holds_kv in Hh. destruct (req_pool_idx (kv r)); [done|by rewrite bool_decide_false in Hh]. Qed.

Lemma as_extend_extendable w r : decodable w r → extendable w (as_extend r).
Proof. intros [Hh Ha Hw]. split; cbn; [lia|done|]. intros i row Hi. pose proof (Hw i row Hi). lia. Qed.

Lemma write_decode_items (items : list item) p :
  (∀ x, x ∈ items → (∃ y, x.2 = [y]) ∧ ∃ idx row, item_ok p x.1.1 x.1.2 x.2 idx row ∧ x.1.2 = take (Z.to_nat (k_prefix_len x.1.1)) row) →
  NoDup (row_ids items.*1.*1) →
  ∃ p', write_decode items.*1.*1 (k_prefix_len <$> items.*1.*1) (mjoin items.*2) p = Ok p' ∧
    free_slots p' = free_slots p ∧ req_generation p' = req_generation p ∧
    (∀ i, i ∉ row_ids items.*1.*1 → req_to_token p' !! i = req_to_token p !! i) ∧
    (∀ x idx row, x ∈ items → item_ok p x.1.1 x.1.2 x.2 idx row →
       req_to_token p' !! idx = Some (x.1.2 ++ x.2 ++ drop (Z.to_nat (k_extend_end x.1.1)) row)).
Proof.
  revert p. induction items as [|[[r t] sl] items IH]; intros p Hit Hnd.
  { exists p. split; [done|]. split; [done|]. split; [done|]. split; [done|]. intros x idx row Hx. by apply elem_of_nil in Hx. }
  destruct (Hit (r, t, sl) ltac:(by left)) as ((y & Ey) & idx & row & Hok & Et). cbn [fst snd] in *. subst sl.
  pose proof Hok as [Hi Hrow Hp Hsl Hw]. rewrite !fmap_cons in *. cbn [fst snd] in *.
  cbn [row_ids omap list_omap] in Hnd. rewrite Hi in Hnd. apply NoDup_cons in Hnd as [Hnin Hnd].
  change (zlen [y]) with 1 in Hsl. pose proof (zlen_nonneg t) as Ht0.
  set (p1 := mkRows (<[ idx := t ++ [y] ++ drop (Z.to_nat (k_extend_end r)) row ]> (req_to_token p)) (free_slots p) (req_generation p)).
  assert (∀ x, x ∈ items → ∀ ix, req_pool_idx (kv x.1.1) = Some ix → ix ≠ idx) as Hdis'.
  { intros x Hx ix Hix ->. apply Hnin. eapply row_ids_elem; [|done]. apply list_elem_of_fmap. exists x.1. split; [done|]. apply list_elem_of_fmap. by exists x. }
  assert (∀ x ix rowx, x ∈ items → item_ok p x.1.1 x.1.2 x.2 ix rowx → item_ok p1 x.1.1 x.1.2 x.2 ix rowx) as Hkeep.
  { intros x ix rowx Hx [Hxi Hxr Hxp Hxs Hxw]. split; try done. cbn. rewrite lookup_insert_ne; [done|]. intros E. by apply (Hdis' x Hx ix). }
  destruct (IH p1) as (p' & E & Ef & Eg & Hother & Hmine).
  - intros x Hx. destruct (Hit x ltac:(by right)) as (Hy & ix & rowx & Hx1 & Hx2). split; [done|]. exists ix, rowx. split; [by apply Hkeep|done].
  - done.
  - exists p'. split; [|split; [done|split; [done|split]]].
    + change (mjoin ([y] :: items.*2)) with (y :: mjoin items.*2). cbn [write_decode]. rewrite Hi.
      rewrite (rows_write_range p idx row) by (done || change (zlen [y]) with 1; lia). cbn [rbind]. rewrite <- Et.
      replace (k_prefix_len r + 1) with (k_extend_end r) by lia. exact E.
    + intros i Hin. cbn [row_ids omap list_omap] in Hin. rewrite Hi in Hin. apply not_elem_of_cons in Hin as [Hne Hin].
      rewrite Hother by done. cbn. by rewrite lookup_insert_ne.
    + intros x ix rowx [->|Hx]%elem_of_cons Hxk; cbn [fst snd] in *; [|by apply Hmine, Hkeep].
      destruct Hxk as [Hxi Hxr _ _ _]. assert (ix = idx) as -> by congruence. assert (rowx = row) as -> by congruence.
      rewrite Hother by done. cbn. apply lookup_insert_eq.
Qed.

Lemma write_decode_same f reqs locs out p : (∀ r, req_pool_idx (kv (f r)) = req_pool_idx (kv r)) →
  write_decode (f <$> reqs) locs out p = write_decode reqs locs out p.
Proof.
  intros Hf. revert locs out p. induction reqs as [|r reqs IH]; intros [|l locs] [|x out] p; try done. cbn. rewrite Hf.
  destruct (rows_write _ _ _ _ _); [|done]. cbn. apply IH.
Qed.

(** One more token, allocated and committed. *)
Definition decoded (r : KvReq) : KvReq :=
  set_kv (λ k, mkKv (req_pool_idx k) (cache_protected_len k) (cache_inserted_len k)
                 (kv_committed_len k + 1) (kv_allocated_len k + 1) (swa_evict_floor k)
                 (component_evicted_seqlens k) (mamba_pool_idx k)) r.

Abbreviation seq_lens_of batch := ((λ r, kv_allocated_len (kv r)) <$> batch).

(** The prefix of a decoded request is its row. *)
Definition row_prefix (w : world A) (r : KvReq) (t : list Z) : Prop :=
  ∃ idx row, req_pool_idx (kv r) = Some idx ∧ req_to_token (rows w) !! idx = Some row ∧
    t = take (Z.to_nat (kv_allocated_len (kv r))) row ∧ 0 < kv_allocated_len (kv r) ≤ zlen row.

Lemma last_locs w batch ts : Forall2 (λ r t, row_prefix w r t) batch ts →
  mapR (λ rs, row_at (req_pool_idx (kv rs.1)) (rs.2 - 1) (rows w)) (zip batch (seq_lens_of batch)) = Ok (last_of <$> ts).
Proof.
  induction 1 as [|r t batch ts (idx & row & Hi & Hrow & -> & Hl) HF IH]; [done|]. rewrite fmap_cons. cbn [zip zip_with mapR fst snd].
  unfold row_at at 1, get_row. rewrite Hi, Hrow. cbn [rbind]. destruct (Z.ltb_spec (kv_allocated_len (kv r) - 1) 0); [lia|].
  destruct (Z.ltb_spec (kv_allocated_len (kv r) - 1) 0); [lia|].
  destruct (lookup_lt_is_Some_2 row (Z.to_nat (kv_allocated_len (kv r) - 1))) as [x Hx]; [unfold zlen in Hl; lia|].
  rewrite Hx. cbn [rbind]. fold (zip batch (seq_lens_of batch)). rewrite IH. cbn [rbind]. rewrite fmap_cons. do 2 f_equal.
  unfold last_of. rewrite last_lookup, length_take. rewrite lookup_take_lt by (unfold zlen in Hl; lia).
  replace (pred (Z.to_nat (kv_allocated_len (kv r)) `min` length row)) with (Z.to_nat (kv_allocated_len (kv r) - 1)) by (unfold zlen in Hl; lia).
  by rewrite Hx.
Qed.

Lemma decode_requests batch ts : length batch = length ts →
  decode_req <$> zip (Z.add 1 <$> seq_lens_of batch) (last_of <$> ts) = zip_with rq (as_extend <$> batch) ts.
Proof.
  revert ts. induction batch as [|r batch IH]; intros [|t ts] Hl; try done. cbn in *. f_equal; [|apply IH; lia].
  unfold decode_req, rq. cbn. f_equal; lia.
Qed.

(** The slots of a decode step, in terms of the extension it amounts to. *)
Lemma decode_requests_ok w batch ts : Forall2 (row_prefix w) batch ts →
  let ds := zip (Z.add 1 <$> seq_lens_of batch) (last_of <$> ts) in
  zlen ds = zlen batch ∧ Forall (λ d : Z * Z, 1 ≤ d.1) ds ∧ decode_req <$> ds = zip_with rq (as_extend <$> batch) ts.
Proof.
  intros Hts ds. pose proof (Forall2_length _ _ _ Hts) as Hl. split; [|split; [|by apply decode_requests]].
  - unfold zlen, ds. rewrite length_zip_with, !length_fmap. lia.
  - apply Forall_lookup. intros k d Hk. apply lookup_zip_with_Some in Hk as (a & b & -> & Ha & _). cbn. rewrite !list_lookup_fmap in Ha.
    destruct (batch !! k) as [r|] eqn:Er; [|done]. cbn in Ha. injection Ha as <-.
    destruct (Forall2_lookup_l _ _ _ _ _ Hts Er) as (t & _ & idx & row & _ & _ & _ & Ha). lia.
Qed.

Lemma alloc_for_decode_take w batch ts : Forall2 (row_prefix w) batch ts →
  alloc_for_decode cfg leaves_of batch (seq_lens_of batch) w
  = let! (out, w3) := take_decode (zip (Z.add 1 <$> seq_lens_of batch) (last_of <$> ts)) w in
    let! p := write_decode batch (seq_lens_of batch) out (rows w3) in
    Ok (out, decoded <$> batch, mkWorld (cache w3) (pool w3) p).
Proof.
  intros Hts. destruct (decode_requests_ok w batch ts Hts) as (Hl & _ & _). pose proof (Forall2_length _ _ _ Hts) as Hlen.
  set (ds := zip _ _) in *. unfold alloc_for_decode, take_decode. destruct (ps =? 1).
  - replace (zlen (seq_lens_of batch)) with (zlen ds) by (rewrite Hl; unfold zlen; by rewrite length_fmap). done.
  - rewrite (last_locs w batch ts Hts). cbn [rbind]. unfold ds.
    destruct (zip_fst (Z.add 1 <$> seq_lens_of batch) (last_of <$> ts)) as [-> ->]; [rewrite !length_fmap; lia|]. done.
Qed.

(** The prefixes of the requests are their rows. *)
Lemma prefixed_row w r t : holds_kv (kv r) = true → extendable w r → _prefix_kv_indices w r = Ok t → row_prefix w r t.
Proof.
  intros Hh Hx E. unfold _prefix_kv_indices, get_row in E. rewrite Hh in E.
  destruct (req_pool_idx (kv r)) as [idx|] eqn:Ei; [|done]. destruct (req_to_token (rows w) !! idx) as [row|] eqn:Er; [|done].
  destruct (el_row _ _ Hx Hh) as [El Hal]. cbn in E. injection E as <-. rewrite El, pytake_eq by lia. exists idx, row.
  pose proof (el_width _ _ Hx _ _ Er). pose proof (el_len _ _ Hx). repeat split; try done; lia.
Qed.

Lemma mapR_inv {B C} (f : B → result C) l ys : mapR f l = Ok ys → Forall2 (λ x y, f x = Ok y) l ys.
Proof.
  revert ys. induction l as [|x l IH]; cbn; intros ys E; [injection E as <-; constructor|]. run_ok E. injection E as <-.
  constructor; [done|]. by apply IH.
Qed.

(** The demand of a decode step, to the page. *)
Definition pages_due (batch : list KvReq) : Z := zsum ((λ r, if kv_allocated_len (kv r) mod ps =? 0 then 1 else 0) <$> batch).

Lemma pages_due_sum batch ts : length batch = length ts → (∀ r, r ∈ batch → 0 ≤ kv_allocated_len (kv r)) →
  sum_pages ps (zip_with rq (as_extend <$> batch) ts) = pages_due batch.
Proof.
  intros Hl Ha. unfold sum_pages, pages_due. f_equal. apply list_eq. intros k. rewrite !list_lookup_fmap, lookup_zip_with, list_lookup_fmap.
  destruct (batch !! k) as [r|] eqn:Er; [|done]. destruct (lookup_lt_is_Some_2 ts k) as [t Ht]; [rewrite <- Hl; by eapply lookup_lt_Some|].
  rewrite Ht. cbn. f_equal. pose proof (Ha r ltac:(by eapply list_elem_of_lookup_2)).
  pose proof (decode_new_pages ps Hps (kv_allocated_len (kv r) + 1, last_of t) ltac:(cbn; lia)) as E. unfold needs_page, decode_req in E. cbn in E.
  rewrite Z.add_simpl_r in E. exact E.
Qed.

(** An item of a decode step is one slot, written behind the row. *)
Lemma decode_item_fits (w w3 : world A) r (x : item) idx row : extendable w r → holds_kv (kv r) = true →
  k_extend_end r = k_prefix_len r + 1 → rows w3 = rows w →
  row_prefix w r x.1.2 → bound r x.1.1 → item_ok (rows w3) x.1.1 x.1.2 x.2 idx row →
  (∃ y, x.2 = [y]) ∧ ∃ idx row, item_ok (rows w3) x.1.1 x.1.2 x.2 idx row ∧ x.1.2 = take (Z.to_nat (k_prefix_len x.1.1)) row.
Proof.
  intros Hx Hh He Er3 Hrp Hb Hit.
  assert (x.1.1 = r) as Exr. { destruct Hb as [[-> _]|(i & _ & Hf)]; [done|congruence]. } rewrite Exr in *.
  split. { pose proof (it_slots _ _ _ _ _ _ Hit) as Hl. destruct x.2 as [|y [|z l]]; unfold zlen in Hl; cbn in Hl; [lia|by exists y|lia]. }
  exists idx, row. split; [done|]. destruct Hrp as (idx' & row' & Hi & Hrow & -> & _).
  destruct (el_row _ _ Hx Hh) as [-> _]. destruct Hit. rewrite Er3 in *. congruence.
Qed.

Lemma decode_sys w batch rest :
  sys_ok w (batch ++ rest) → (∀ r, r ∈ batch → decodable w r) →
  match alloc_for_decode cfg leaves_of batch (seq_lens_of batch) w with
  | Ok (out, batch', w') => sys_ok w' (batch' ++ rest) ∧ zlen out = zlen batch ∧ batch' = decoded <$> batch
  | Raise e => e = RuntimeError ∧ reclaimable w < decode_demand (zlen batch) ∧ pool_available (pool w) < pages_due batch * ps
  end.
Proof.
  intros Hs0 Hdc. set (bat := as_extend <$> batch).
  assert (Forall2 same_kv batch bat) as Hsame.
  { apply Forall2_fmap_r, Forall_Forall2_diag, Forall_forall. intros r Hr. apply as_extend_same, (dc_row w), Hdc, Hr. }
  pose proof (sys_same w _ _ rest Hsame Hs0) as Hs. destruct (so_tree _ _ _ _ _ Hs) as (H & Ht & HH). pose proof (so_owns _ _ _ _ _ Hs) as Ho.
  assert (∀ r, r ∈ bat → extendable w r ∧ holds_kv (kv r) = true ∧ k_extend_end r = k_prefix_len r + 1) as Hex.
  { intros r (r0 & -> & Hr)%list_elem_of_fmap. pose proof (Hdc r0 Hr). split; [by apply as_extend_extendable|]. split; [apply H0|done]. }
  destruct (prefixes_ok clock cfg leaves_of Hlv Hps Hdis all_rows Hall w bat rest Hs (λ r Hr, proj1 (Hex r Hr))) as (ts & Ets & Hts & Hbo & Hbl).
  assert (Forall2 (row_prefix w) bat ts) as Hrp.
  { apply mapR_inv in Ets. apply Forall2_same_length_lookup_2; [by eapply Forall2_length|]. intros k r t Hr Hk.
    destruct (Hex r ltac:(by eapply list_elem_of_lookup_2)) as (? & ? & _). apply prefixed_row; [done..|]. by eapply (Forall2_lookup_lr _ _ _ _ _ _ Ets). }
  assert (Forall2 (row_prefix w) batch ts) as Hrb by (exact (proj1 (Forall2_fmap_l as_extend (row_prefix w) batch ts) Hrp)).
  pose proof (Forall2_length _ _ _ Hrb) as Hlen. destruct (decode_requests_ok w batch ts Hrb) as (Hlds & Hd1 & Eds).
  rewrite (alloc_for_decode_take w batch ts Hrb). set (ds := zip _ _) in *. fold bat in Eds. set (rs := zip_with rq bat ts) in *.
  assert (Forall (continues ps (mjoin (own_pages cfg w <$> bat ++ rest))) rs) as Hct.
  { apply Forall_lookup. intros k q Hq. apply lookup_zip_with_Some in Hq as (r & t & -> & Hr & Htk).
    destruct (Forall2_lookup_lr _ _ _ _ _ _ Hts Hr Htk) as (n & Hp & Eo). eapply continues_mono; [|by eapply rq_continues].
    intros p Hpp. apply list_elem_of_join. exists (own_pages cfg w r). split; [done|]. apply list_elem_of_fmap. exists r.
    split; [done|]. rewrite elem_of_app. left. by eapply list_elem_of_lookup_2. }
  pose proof (take_decode_ok w H _ ds Ht Ho Hd1) as Htd. cbv zeta in Htd. rewrite Eds in Htd. specialize (Htd Hct).
  destruct (take_decode ds w) as [[out w3]|e]; cbn [rbind].
  2:{ rewrite Hlds in Htd. unfold rs, bat in Htd. rewrite pages_due_sum in Htd; [exact Htd|exact Hlen|]. intros r Hr. pose proof (dc_alloc _ _ (Hdc r Hr)). lia. }
  destruct Htd as (free & Hneed & Hout & Er3 & F3 & Ht3 & Ho3).
  destruct (place_items cfg Hps w w3 H bat rest bat ts free HH F3) as (items & Hpl); [|done..|].
  { apply Forall_Forall2_diag, Forall_forall. intros r Hr. left. split; [done|]. by apply Hex. }
  destruct (batch_rows clock cfg leaves_of Hlv Hps Hdis all_rows Hall w bat rest bat [] (rows w3) Hs) as (Hperm & Hrows & _); [by rewrite app_nil_r|by rewrite Er3, app_nil_r|].
  pose proof (placed_fits _ _ _ _ _ _ _ _ Hpl (λ r Hr, proj1 (Hex r Hr)) ltac:(by rewrite Er3) Hrows) as Hfits. destruct Hpl as [Ei1 Ei2 Eout HF Hheads].
  destruct (write_decode_items items (rows w3)) as (p4 & Ew & Ef & Eg & Hother & Hmine).
  { intros x [k Hk]%list_elem_of_lookup_1. destruct (Hfits k x Hk) as (r & idx & row & Hr & Htk & Hb & Hit).
    destruct (Hex r ltac:(by eapply list_elem_of_lookup_2)) as (Hx & Hh & He).
    eapply (decode_item_fits w w3 r); try done. by eapply (Forall2_lookup_lr _ _ _ _ _ _ Hrp). }
  { rewrite Ei1. pose proof (sys_nodup _ _ _ Hall _ _ Hs) as Hn. rewrite row_ids_app, <- app_assoc in Hn. by apply NoDup_app in Hn as (? & _). }
  fold rs in Eout. rewrite Ei1, Eout, <- Hout in Ew. unfold bat in Ew. rewrite write_decode_same, <- list_fmap_compose in Ew by done.
  change (k_prefix_len ∘ as_extend <$> batch) with (seq_lens_of batch) in Ew. rewrite Ew. cbn [rbind].
  split; [|split; [|done]].
  - assert (sys_ok (mkWorld (cache w3) (pool w3) p4) ((extended <$> bat) ++ rest)) as Hfin.
    { eapply (extend_done clock cfg leaves_of Hlv Hps Hdis all_rows Hall w w3 p4 H bat rest bat items [] free (sum_pages ps rs)); try done.
      + intros r Hr. by apply Hex.
      + by rewrite app_nil_r.
      + by rewrite Er3, app_nil_r.
      + by rewrite Er3.
      + intros i Hi. apply Hother. by rewrite Ei1. }
    eapply sys_same; [|exact Hfin]. unfold bat. rewrite <- list_fmap_compose. apply Forall2_fmap, Forall_Forall2_diag, Forall_forall.
    intros r Hr. destruct (as_extend_same r) as [[_ Hi] _ _ _ _ _]; [|by split]. apply (dc_row w), Hdc, Hr.
  - rewrite Hout. rewrite <- Eds, length_place_batch by (by apply decode_batch_ok). by rewrite decode_sum_ext.
Qed.

(** C13: [alloc_for_decode] on a consistent system either gives every request of
    the batch one more slot at the end of its row and leaves the system
    consistent, or raises [RuntimeError], and then the free and evictable slots
    do not cover one page per request, and the free slots not even the pages of
    the requests that are at the end of theirs. *)
Theorem decode_exact w batch rest :
  sys_ok w (batch ++ rest) → (∀ r, r ∈ batch → decodable w r) →
  match alloc_for_decode cfg leaves_of batch (seq_lens_of batch) w with
  | Ok (out, batch', w') => sys_ok w' (batch' ++ rest) ∧ zlen out = zlen batch ∧ batch' = decoded <$> batch
  | Raise e => e = RuntimeError ∧ reclaimable w < decode_demand (zlen batch) ∧ pool_available (pool w) < pages_due batch * ps
  end.
Proof. apply decode_sys. Qed.
End decode.
