(* ===== verification/InvariantChecker.v ===== *)
(** * The scheduler's own leak checks ([scheduler_components/invariant_checker.py],
    [pool_stats_observer.py])

    The branches for a plain (not hybrid) pool, unsharded and without decode
    context parallelism, over a tree that keeps no session records. *)
From S2P Require Import Prelude RadixKey EvictPolicy RadixCache TokenAllocator PagedKernels PagedAllocator KvRow KvAlloc.

Definition kv_private_tokens (k : ReqKvInfo) (page_size : Z) : Z :=
  ceil_align (kv_allocated_len k) page_size - cache_protected_len k.

Record PoolStats := mkStats {
  full_num_used : Z;
  full_available_size : Z;
  full_evictable_size : Z
}.

(** [available + evictable + protected + session_held + uncached != total]. *)
Definition _check_pool_invariant (available evictable protected session_held total uncached : Z) : bool :=
  negb (available + evictable + protected + session_held + uncached =? total).

(** Requests and batches are compared by identity: a request comes with its
    address, a batch with its own. *)
Abbreviation obj := (nat * KvReq)%type.
Definition batch_obj : Type := nat * list obj.

Fixpoint dedup_owners (seen : list nat) (reqs : list obj) : list obj :=
  match reqs with
  | [] => []
  | (i, r) :: reqs =>
      if bool_decide (i ∈ seen) then dedup_owners seen reqs
      else if holds_kv (kv r) then (i, r) :: dedup_owners (i :: seen) reqs
      else dedup_owners (i :: seen) reqs
  end.

Definition _requests_owning_rows (last_batch running_batch : option batch_obj) (chunked_req : option obj) : list obj :=
  let reqs := match last_batch with Some b => b.2 | None => [] end in
  let reqs := match running_batch with
              | Some b => if bool_decide (fst <$> last_batch = Some b.1) then reqs else reqs ++ b.2
              | None => reqs
              end in
  let reqs := match chunked_req with Some r => reqs ++ [r] | None => reqs end in
  dedup_owners [] reqs.

Section check.
Context {A : Type} `{!PagePool A} `{!SlotPool A} (cfg : cache_config).
Context (max_total_num_tokens : Z).
Abbreviation ps := (page_size cfg).

Definition _get_token_info (w : world A) : PoolStats :=
  let available_size := pool_available (pool w) in
  let evictable_size := evictable_size (cache w) in
  mkStats (max_total_num_tokens - (available_size + evictable_size)) available_size evictable_size.

Definition _check_full_pool (st : PoolStats) (uncached : Z) (w : world A) : bool :=
  _check_pool_invariant (full_available_size st) (full_evictable_size st) (protected_size (cache w)) 0
    max_total_num_tokens uncached.

Fixpoint _get_total_uncached_sizes (owners : list obj) : result Z :=
  match owners with
  | [] => Ok 0
  | (_, r) :: owners =>
      assert! cache_protected_len (kv r) mod ps =? 0 in
      let! n := _get_total_uncached_sizes owners in
      Ok (kv_private_tokens (kv r) ps + n)
  end.

(** [self_check_during_busy]: the assertion on the full pool. *)
Definition self_check_during_busy (last_batch running_batch : option batch_obj) (chunked_req : option obj) (w : world A) :
    result unit :=
  match last_batch with
  | None => Ok tt
  | Some _ =>
      let st := _get_token_info w in
      let! full_uncached := _get_total_uncached_sizes (_requests_owning_rows last_batch running_batch chunked_req) in
      assert_ (negb (_check_full_pool st full_uncached w))
  end.

(** Whether [_check_req_pool] reports a leak. *)
Definition _check_req_pool (size pre_alloc_size : Z) (w : world A) : bool :=
  negb (zlen (free_slots (rows w)) + 0 =? size + pre_alloc_size).

(** [_check_all_pools] at idle. *)
Definition _check_all_pools (w : world A) : bool := _check_full_pool (_get_token_info w) 0 w.

(** The slots an owner's row refers to. *)
Definition owner_locs (w : world A) (o : obj) : list Z :=
  match req_pool_idx (kv o.2) with
  | Some i => if 0 <? kv_allocated_len (kv o.2) then
                pytake (default [] (req_to_token (rows w) !! i)) (kv_allocated_len (kv o.2))
              else []
  | None => []
  end.

(** [_check_kv_page_invariants]: the number of duplicate free pages (check B) and
    the owner pages that are free (check A); both are reported. *)
Definition _check_kv_page_invariants (row_width : Z) (owners : list obj) (w : world A) : result (Z * list Z) :=
  assert! forallb (λ o, (0 <=? kv_committed_len (kv o.2)) && (kv_committed_len (kv o.2) <=? kv_allocated_len (kv o.2))
                        && (kv_allocated_len (kv o.2) <=? row_width)) owners in
  if forallb (λ o, negb (holds_kv (kv o.2)) || (kv_allocated_len (kv o.2) <=? 0)) owners then Ok (0, []) else
  let free := pool_free_pages (pool w) in
  let owner_pages := (λ x, x / pool_page_size (pool w)) <$> mjoin (owner_locs w <$> owners) in
  Ok (zlen free - zlen (tunique free), filter (λ p, p ∈ free) owner_pages).
End check.
