(* ===== verification/KvChecks.v ===== *)
(** * The leak checks never fire

    On a consistent system every slot is free, stored by the tree or in the own
    part of one row, and the sizes the tree and the requests report say how many
    of each there are.  So the equation the scheduler checks while it is busy
    holds, and no row refers to a free page. *)
From S2P Require Import Prelude RadixKey EvictPolicy RadixCache RadixInv RadixOps RadixInsert RadixLock RadixEvict RadixSpec RadixTheorems RadixClient TokenAllocator PagedKernels PagedAllocator KvRow KvTheorems KvRelease KvSystem KvAlloc KvPlace KvExtend InvariantChecker.

Lemma zlen_mjoin_nodes (m : gmap nat TreeNode) :
  zlen (mjoin ((λ p, default [] (value p.2)) <$> map_to_list m)) = msum (λ _ x, zlen (default [] (value x))) m.
Proof.
  induction m as [|k x m Hk IH] using map_ind; [by rewrite map_to_list_empty, msum_empty|].
  rewrite msum_insert by done. rewrite <- IH.
  assert (mjoin ((λ p, default [] (value p.2)) <$> map_to_list (<[k:=x]> m))
          ≡ₚ default [] (value x) ++ mjoin ((λ p, default [] (value p.2)) <$> map_to_list m)) as Hp.
  { rewrite map_to_list_insert by done. done. }
  apply Permutation_length in Hp. unfold zlen. rewrite Hp, length_app. lia.
Qed.

(** ** Counting the pages of a row *)

Lemma head_pages_ceil ps (Hps : 0 < ps) l : paged ps l → zlen (head_pages ps l) = ceil_div (zlen l) ps.
Proof.
  remember (length l) as n eqn:En. revert l En. induction n as [n IH] using lt_wf_ind. intros l -> Hl.
  destruct l as [|x l]; [cbn; symmetry; apply ceil_div_unique; unfold zlen; cbn; lia|].
  rewrite <- (take_drop (Z.to_nat ps) (x :: l)) at 1. rewrite head_pages_app, head_pages_first, zlen_app by done.
  rewrite (IH (length (drop (Z.to_nat ps) (x :: l)))); [|rewrite length_drop; cbn; lia|done|by apply paged_rest].
  change (zlen [x / ps]) with 1. symmetry. apply ceil_div_unique; [done|].
  assert (zlen (drop (Z.to_nat ps) (x :: l)) = Z.max 0 (zlen (x :: l) - ps)) as -> by (unfold zlen; rewrite length_drop; lia).
  pose proof (ceil_div_spec ps Hps (Z.max 0 (zlen (x :: l) - ps))) as Hc. set (q := ceil_div _ ps) in *.
  assert (0 < zlen (x :: l)) by (unfold zlen; cbn; lia).
  destruct (decide (zlen (x :: l) ≤ ps)); [|nia]. rewrite Z.max_l in Hc by lia. assert (q = 0) as -> by nia. lia.
Qed.

Lemma NoDup_fmap_fst_unique {B} (l : list (nat * B)) i x y : NoDup l.*1 → (i, x) ∈ l → (i, y) ∈ l → x = y.
Proof.
  induction l as [|[j z] l IH]; cbn; intros Hnd Hx Hy; [by apply elem_of_nil in Hx|]. apply NoDup_cons in Hnd as [Hni Hnd].
  assert (∀ v, (j, v) ∈ l → False) as Hno by (intros v Hv; apply Hni, list_elem_of_fmap; by exists (j, v)).
  apply elem_of_cons in Hx as [Ex|Hx]; apply elem_of_cons in Hy as [Ey|Hy]; [congruence| | |by apply IH].
  - injection Ex as -> ->. by destruct (Hno y).
  - injection Ey as -> ->. by destruct (Hno x).
Qed.

(** ** The requests the checker looks at *)

Lemma dedup_owners_spec objs seen reqs : NoDup objs.*1 → (∀ o, o ∈ reqs → o ∈ objs) →
  NoDup (dedup_owners seen reqs).*1 ∧
  ∀ o, o ∈ dedup_owners seen reqs ↔ o ∈ reqs ∧ (o.1 ∉ seen) ∧ holds_kv (kv o.2) = true.
Proof.
  intros Hnd. revert seen. induction reqs as [|[i r] reqs IH]; intros seen Hin.
  { split; [constructor|]. intros o. cbn. rewrite elem_of_nil. tauto. }
  assert (∀ o, o ∈ reqs → o ∈ objs) as Hin' by (intros; apply Hin; by right).
  assert (∀ o, o ∈ reqs → o.1 = i → o = (i, r)) as Huniq.
  { intros o Ho E. destruct o as [j r0]. cbn in E. subst j. f_equal.
    assert ((i, r0) ∈ objs) as H1 by (by apply Hin'). assert ((i, r) ∈ objs) as H2 by (apply Hin; by left).
    eapply (NoDup_fmap_fst_unique objs); done. }
  cbn [dedup_owners]. case_bool_decide as Hseen.
  - destruct (IH seen Hin') as [H1 H2]. split; [done|]. intros o. rewrite H2, elem_of_cons. split; [tauto|]. intros ([->|Ho] & Hs & Hh); [done|tauto].
  - destruct (holds_kv (kv r)) eqn:Eh; destruct (IH (i :: seen) Hin') as [H1 H2].
    + split.
      * cbn. apply NoDup_cons. split; [|done]. intros (o & Eo & Ho)%list_elem_of_fmap. apply H2 in Ho as (_ & Hs & _). rewrite <- Eo in Hs. set_solver.
      * intros o. rewrite elem_of_cons, H2, not_elem_of_cons, elem_of_cons. split; [intros [->|(Ho & [Hne Hs] & Hh)]; tauto|].
        intros ([->|Ho] & Hs & Hh); [by left|]. destruct (decide (o.1 = i)) as [E|Hne]; [left; by apply Huniq|right; tauto].
    + split; [done|]. intros o. rewrite H2, not_elem_of_cons, elem_of_cons. split; [tauto|].
      intros ([->|Ho] & Hs & Hh); [cbn in Hh; congruence|]. destruct (decide (o.1 = i)) as [E|Hne]; [|tauto].
      rewrite (Huniq o Ho E) in Hh. cbn in Hh. congruence.
Qed.

(** What the checker can see: the requests [objs], by address, with the row
    holders all in the last batch, the running batch or the chunked slot; two
    batches with one address are one batch. *)
Definition batch_members (b : option batch_obj) : list obj := match b with Some b => b.2 | None => [] end.

Record visible (objs : list obj) (last_batch running_batch : option batch_obj) (chunked_req : option obj) : Prop := {
  vi_ids : NoDup objs.*1;
  vi_alias : ∀ i l1 l2, last_batch = Some (i, l1) → running_batch = Some (i, l2) → l1 = l2;
  vi_known : ∀ o, o ∈ batch_members last_batch ++ batch_members running_batch ++ option_list chunked_req → o ∈ objs;
  vi_holders : ∀ o, o ∈ objs → holds_kv (kv o.2) = true →
    o ∈ batch_members last_batch ++ batch_members running_batch ++ option_list chunked_req
}.

Lemma owners_perm objs last_batch running_batch chunked_req : visible objs last_batch running_batch chunked_req →
  _requests_owning_rows last_batch running_batch chunked_req ≡ₚ filter (λ o, holds_kv (kv o.2) = true) objs.
Proof.
  intros [Hnd Hal Hkn Hho]. unfold _requests_owning_rows. set (reqs := match chunked_req with Some r => _ | None => _ end).
  assert (∀ o, o ∈ reqs ↔ o ∈ batch_members last_batch ++ batch_members running_batch ++ option_list chunked_req) as Hreqs.
  { intros o. unfold reqs. clear -Hal. destruct last_batch as [[i l1]|], running_batch as [[j l2]|], chunked_req as [c|]; cbn;
      repeat case_bool_decide; simplify_eq; try rewrite (Hal j l1 l2 eq_refl eq_refl); set_solver. }
  destruct (dedup_owners_spec objs [] reqs Hnd) as [H1 H2]; [intros o Ho; by apply Hkn, Hreqs|].
  apply NoDup_Permutation; [by eapply NoDup_fmap_1|apply NoDup_filter; by eapply NoDup_fmap_1|].
  intros o. rewrite H2, list_elem_of_filter, Hreqs. split; [intros (Ho & _ & Hh); auto|]. intros [Hh Ho]. split; [auto|]. split; [set_solver|done].
Qed.

Section checks.
Context {A : Type} `{!PagePool A} `{!SlotPool A} (clock : nat → Z) (cfg : cache_config) {HQ : HeapQ entry entry_le}.
Abbreviation ps := (page_size cfg).
Context (Hps : 0 < ps) (Hdis : disable cfg = false).
Context (all_rows : list nat) (Hall : NoDup all_rows).
Abbreviation tree_ok := (tree_ok clock cfg).
Abbreviation sys_ok := (sys_ok clock cfg all_rows).

(** The tree's two counters add up to the slots it stores. *)
Lemma tree_sizes c H : reachable clock cfg c H → zlen (tree_slots c) = evictable_size c + protected_size c.
Proof.
  intros Hr. pose proof (reachable_inv clock cfg Hps Hdis c H Hr) as [(P & V & Hinv) _].
  pose proof (ci_ev _ _ _ _ _ _ Hinv) as E1. pose proof (ci_pr _ _ _ _ _ _ Hinv) as E2. simpl in E1, E2.
  unfold evictable_size, protected_size, tree_slots. rewrite E1, E2, <- msum_add, msum_fmap, zlen_mjoin_nodes.
  apply msum_ext. intros n x Hx. unfold ev_size, pr_size. cbn [nc_lock nc_key core]. case_decide as Hn.
  - subst n. destruct (ci_root _ _ _ _ _ _ Hinv) as (r & Hr' & _ & Hv & _). apply core_lookup_inv in Hr' as (r' & Hr' & ->).
    simpl in Hr', Hv. assert (r' = x) as -> by congruence. by rewrite Hv.
  - destruct (inv_node _ _ _ _ _ _ _ Hinv Hx Hn) as (_ & _ & p & y & v & _ & _ & _ & Hv & Hl & _). rewrite Hv. cbn. destruct (_ =? 0); lia.
Qed.

(** A row's own pages, counted as the checker does. *)
Lemma private_tokens (w : world A) r idx row n : req_ok cfg w r idx row n →
  zlen (head_pages ps (own r row)) * ps = kv_private_tokens (kv r) ps.
Proof.
  intros []. unfold own, kv_private_tokens. rewrite head_pages_ceil; [|done|apply paged_drop; [done|rewrite Z2Nat.id by lia; done|done]].
  assert (zlen (drop (Z.to_nat (cache_protected_len (kv r))) (take (Z.to_nat (kv_allocated_len (kv r))) row))
          = kv_allocated_len (kv r) - cache_protected_len (kv r)) as -> by (unfold zlen in *; rewrite length_drop, length_take; lia).
  destruct ko_cpl_page as [q Hq]. unfold ceil_align.
  rewrite (ceil_div_unique ps Hps (kv_allocated_len (kv r) - cache_protected_len (kv r)) (ceil_div (kv_allocated_len (kv r)) ps - q)); [lia|].
  pose proof (ceil_div_spec ps Hps (kv_allocated_len (kv r))). nia.
Qed.

(** Every slot of a row lies on a page the tree stores or the request owns. *)
Lemma path_in_tree c H n vs x : reachable clock cfg c H → is_Some (nodes c !! n) → path_device_indices n c = Ok vs → x ∈ vs → x ∈ tree_slots c.
Proof.
  intros Hr Hn Hvs Hx. pose proof (reachable_inv clock cfg Hps Hdis c H Hr) as [(P & V & Hinv) _].
  rewrite (path_device_indices_inv cfg _ _ _ _ n Hinv Hn) in Hvs. injection Hvs as <-.
  remember (length (P n)) as d eqn:Ed. revert n Hn Ed Hx. induction d as [d IH] using lt_wf_ind. intros n [y Hy] -> Hx.
  destruct (decide (n = root_node c)) as [->|Hne]; [pose proof (ci_V _ _ _ _ _ _ Hinv) as E0; simpl in E0; rewrite E0 in Hx; by apply elem_of_nil in Hx|].
  destruct (inv_node _ _ _ _ _ _ _ Hinv Hy Hne) as (_ & _ & p & z & v & Hp & Hz & _ & Hv & _ & _ & HV & _).
  destruct (inv_parent_depth _ _ _ _ _ _ _ _ Hinv Hy Hne Hp) as [Hps' Hd].
  rewrite HV in Hx. apply elem_of_app in Hx as [Hx|Hx]; [by eapply (IH (length (P p)))|].
  unfold tree_slots. apply list_elem_of_join. exists v. split; [done|]. apply list_elem_of_fmap. exists (n, y). cbn. rewrite Hv. split; [done|].
  by apply elem_of_map_to_list.
Qed.

Lemma row_slot_owned (w : world A) H r idx row n x : tree_ok w H → req_ok cfg w r idx row n →
  x ∈ take (Z.to_nat (kv_allocated_len (kv r))) row →
  x / ps ∈ head_pages ps (tree_slots (cache w)) ++ head_pages ps (own r row).
Proof.
  intros [Hreach _ _] [] [i Hi]%list_elem_of_lookup_1. destruct (ko_row_paged i x Hi) as (y & Hy & -> & Hm).
  set (b := (i / Z.to_nat ps * Z.to_nat ps)%nat) in *.
  assert ((y + Z.of_nat (i mod Z.to_nat ps)) / ps = y / ps) as ->.
  { pose proof (Z.mod_pos_bound (Z.of_nat i) ps Hps). rewrite Nat2Z.inj_mod, Z2Nat.id by lia. symmetry.
    pose proof (Z.div_mod y ps ltac:(lia)). apply (Z.div_unique_pos _ _ _ (Z.of_nat i mod ps)); lia. }
  assert (∀ l, y ∈ l → y / ps ∈ head_pages ps l) as Hhead.
  { intros l Hl. unfold head_pages. apply list_elem_of_fmap. exists y. split; [done|]. by apply list_elem_of_filter. }
  apply elem_of_app. destruct (decide (Z.of_nat b < cache_protected_len (kv r))) as [Hlt|Hge].
  - left. apply Hhead. eapply path_in_tree; [done|exact ko_live|exact ko_slots|]. apply lookup_take_Some in Hy as [Hy _].
    apply (list_elem_of_lookup_2 _ b). rewrite lookup_take_lt by lia. done.
  - right. apply Hhead. unfold own. apply (list_elem_of_lookup_2 _ (b - Z.to_nat (cache_protected_len (kv r)))). rewrite lookup_drop.
    rewrite <- Hy. f_equal. lia.
Qed.

Lemma total_uncached owners : Forall (λ o, (ps | cache_protected_len (kv o.2))) owners →
  _get_total_uncached_sizes cfg owners = Ok (zsum ((λ o, kv_private_tokens (kv o.2) ps) <$> owners)).
Proof.
  induction 1 as [|[i r] owners Hd _ IH]; [done|]. cbn [_get_total_uncached_sizes]. cbn in Hd.
  rewrite (proj2 (Z.eqb_eq _ _)) by (by apply Z.mod_divide; [lia|]). cbn [assert_ rbind]. rewrite IH. done.
Qed.

(** A request in flight that holds a row, and one that holds none. *)
Lemma flight_pages (w : world A) r : flight_ok cfg w r →
  (holds_kv (kv r) = true → (ps | cache_protected_len (kv r))) ∧
  zlen (own_pages cfg w r) * ps = if holds_kv (kv r) then kv_private_tokens (kv r) ps else 0.
Proof.
  intros [(idx & row & n & Hr)|(n & [])].
  - pose proof (private_tokens w r idx row n Hr) as Hp. destruct Hr. split; [done|]. unfold own_pages, holds_kv.
    rewrite ko_idx, ko_row. done.
  - unfold own_pages, holds_kv. by rewrite wo_idx.
Qed.

Lemma flight_pages_sum (w : world A) (objs : list obj) : (∀ o, o ∈ objs → flight_ok cfg w o.2) →
  zlen (mjoin (own_pages cfg w <$> objs.*2)) * ps
  = zsum ((λ o, kv_private_tokens (kv o.2) ps) <$> filter (λ o, holds_kv (kv o.2) = true) objs).
Proof.
  induction objs as [|o objs IH]; intros Ho; [done|]. rewrite !fmap_cons. change (mjoin (?x :: ?y)) with (x ++ mjoin y).
  rewrite zlen_app, Z.mul_add_distr_r, IH by (intros; apply Ho; by right).
  destruct (flight_pages w o.2 ltac:(apply Ho; by left)) as [_ ->].
  destruct (holds_kv (kv o.2)) eqn:E; [by rewrite filter_cons_True by done|]. rewrite filter_cons_False by (cbv beta; by rewrite E). done.
Qed.

(** The slots of the pool, as the checker adds them up. *)
Lemma pool_adds_up (w : world A) (rs : list KvReq) : sys_ok w rs →
  pool_available (pool w) + evictable_size (cache w) + protected_size (cache w) + zlen (mjoin (own_pages cfg w <$> rs)) * ps = pool_total.
Proof.
  intros [(H & Ht & _) _ _ _ Ho]. pose proof (slots_accounted clock cfg Hps Hdis w H _ Ht Ho) as E. pose proof (tree_sizes _ _ (ko_reach _ _ _ _ Ht)). lia.
Qed.

(** While it is busy. *)
Lemma busy_check (w : world A) objs last_batch running_batch chunked_req :
  sys_ok w objs.*2 → visible objs last_batch running_batch chunked_req →
  self_check_during_busy cfg pool_total last_batch running_batch chunked_req w = Ok tt.
Proof.
  intros Hs Hv. unfold self_check_during_busy. destruct last_batch as [b|] eqn:Eb; [|done]. rewrite <- Eb in *. clear Eb b.
  pose proof (owners_perm _ _ _ _ Hv) as Hp.
  assert (∀ o, o ∈ objs → flight_ok cfg w o.2) as Hfl.
  { intros o Ho. eapply so_reqs; [done|]. apply list_elem_of_fmap. by exists o. }
  rewrite total_uncached.
  2:{ apply Forall_forall. intros o Ho. rewrite Hp in Ho. apply list_elem_of_filter in Ho as [Hh Ho].
      by apply (flight_pages w o.2 (Hfl o Ho)). }
  cbn [rbind]. rewrite (zsum_perm _ _ (fmap_Permutation _ _ _ Hp)), <- (flight_pages_sum w) by done.
  pose proof (pool_adds_up w _ Hs) as E. unfold _check_full_pool, _check_pool_invariant, _get_token_info. cbn.
  replace (_ =? _) with true; [done|]. symmetry. apply Z.eqb_eq. lia.
Qed.

(** Where nobody holds a lock, nothing is protected. *)
Lemma unlocked_node c P V H n x : inv cfg c P V H → (∀ m, H m = 0) → nodes c !! n = Some x → n ≠ root_node c → lock_ref x = 0.
Proof.
  intros Hinv HH. remember (size (nodes c) - rank P (nodes c) n)%nat as d eqn:Ed.
  revert n x Ed. induction d as [d IH] using lt_wf_ind. intros n x -> Hx Hr.
  destruct (ci_node _ _ _ _ _ _ Hinv _ _ (core_lookup _ _ _ Hx) Hr) as [_ _ _ Hl]. simpl in Hl. rewrite Hl, HH.
  unfold child_locks. apply msum_zero. intros k m Hk. simpl in Hk.
  destruct (inv_child _ _ _ _ _ _ _ _ _ Hinv Hx Hk) as (Hmr & y & Hy & Hyp & _).
  destruct (inv_parent_depth _ _ _ _ _ _ _ _ Hinv Hy Hmr Hyp) as [_ Hd].
  pose proof (rank_lt P (nodes c) m n ltac:(by eexists) Hd). pose proof (rank_le P (nodes c) m).
  unfold lock_of. simpl. rewrite lookup_fmap, Hy. cbn. eapply IH; [|done..]. lia.
Qed.

Lemma unlocked_protected c H : reachable clock cfg c H → (∀ m, H m = 0) → protected_size c = 0.
Proof.
  intros Hr HH. pose proof (reachable_inv clock cfg Hps Hdis c H Hr) as [(P & V & Hinv) _]. unfold protected_size.
  pose proof (ci_pr _ _ _ _ _ _ Hinv) as E. simpl in E. rewrite E. apply msum_zero. intros k z Hz. apply core_lookup_inv in Hz as (x & Hx & ->).
  unfold pr_size. case_decide as Hn; [done|]. simpl. by rewrite (unlocked_node c P V H k x).
Qed.

(** When no request in flight has a row. *)
Lemma rowless_own (w : world A) rs : (∀ r, r ∈ rs → holds_kv (kv r) = false) → mjoin (own_pages cfg w <$> rs) = [] ∧ row_ids rs = [].
Proof.
  induction rs as [|r rs IH]; intros Hh; [done|]. destruct IH as [E1 E2]; [intros; apply Hh; by right|].
  pose proof (Hh r ltac:(left)) as Hr. unfold holds_kv in Hr. rewrite fmap_cons. change (mjoin (?x :: ?l)) with (x ++ mjoin l). rewrite E1.
  unfold own_pages, row_ids in *. cbn [omap list_omap]. rewrite E2. by destruct (req_pool_idx (kv r)).
Qed.

Lemma idle_check (w : world A) rs : sys_ok w rs → (∀ r, r ∈ rs → holds_kv (kv r) = false) →
  _check_all_pools pool_total w = false ∧ _check_req_pool (zlen all_rows) 0 w = false ∧
  pool_available (pool w) + evictable_size (cache w) + protected_size (cache w) = pool_total ∧ (rs = [] → protected_size (cache w) = 0).
Proof.
  intros Hs Hh. destruct (rowless_own w rs Hh) as [E1 E2]. pose proof (pool_adds_up w rs Hs) as E. rewrite E1 in E. change (zlen []) with 0 in E.
  pose proof Hs as [_ _ Hrows _ _]. rewrite E2 in Hrows. cbn in Hrows.
  apply Permutation_length in Hrows. unfold _check_all_pools, _check_full_pool, _check_req_pool, _check_pool_invariant. cbn.
  split; [apply negb_false_iff, Z.eqb_eq; lia|]. split; [apply negb_false_iff, Z.eqb_eq; unfold zlen in *; lia|]. split; [lia|].
  intros ->. destruct Hs as [(H & [Hr _ _] & HH) _ _ _ _]. eapply unlocked_protected; [exact Hr|]. intros m. by rewrite HH.
Qed.

Lemma zlen_tunique l : NoDup l → zlen (tunique l) = zlen l.
Proof.
  intros Hnd. unfold tunique, zlen. f_equal. apply Permutation_length. rewrite tsort_perm.
  apply NoDup_Permutation; [apply NoDup_remove_dups|done|]. intros x. apply elem_of_remove_dups.
Qed.

Lemma filter_none (P : Z → Prop) `{∀ x, Decision (P x)} l : (∀ x, x ∈ l → ¬ P x) → filter P l = [].
Proof. induction l as [|x l IH]; intros Hn; [done|]. rewrite filter_cons_False by set_solver. apply IH. set_solver. Qed.

Lemma owner_slot (w : world A) H rs o x : tree_ok w H → (∀ r, r ∈ rs → flight_ok cfg w r) → o.2 ∈ rs →
  holds_kv (kv o.2) = true → x ∈ owner_locs w o →
  x / ps ∈ head_pages ps (tree_slots (cache w)) ++ mjoin (own_pages cfg w <$> rs).
Proof.
  intros Ht Hfl Hin Hh Hx. destruct (Hfl _ Hin) as [(idx & row & n & Hr)|(n & [])]; [|unfold holds_kv in Hh; by rewrite wo_idx in Hh].
  pose proof Hr as []. unfold owner_locs in Hx. rewrite ko_idx, ko_row in Hx. cbn in Hx. destruct (0 <? _); [|by apply elem_of_nil in Hx].
  rewrite pytake_eq in Hx by lia. pose proof (row_slot_owned w H _ _ _ _ _ Ht Hr Hx) as [?|Hp]%elem_of_app; apply elem_of_app; [by left|right].
  apply list_elem_of_join. eexists. split; [exact Hp|]. apply list_elem_of_fmap. exists o.2. split; [|done].
  unfold own_pages. by rewrite ko_idx, ko_row.
Qed.

(** No row refers to a page that is free, and no page is free twice. *)
Lemma page_check (w : world A) objs owners row_width : sys_ok w objs.*2 → (∀ o, o ∈ owners → o ∈ objs ∧ holds_kv (kv o.2) = true) →
  (∀ o, o ∈ owners → 0 ≤ kv_committed_len (kv o.2) ≤ kv_allocated_len (kv o.2) ∧ kv_allocated_len (kv o.2) ≤ row_width) →
  _check_kv_page_invariants row_width owners w = Ok (0, []).
Proof.
  intros Hs Hown Hlen. unfold _check_kv_page_invariants.
  rewrite (proj2 (forallb_forall _ _)).
  2:{ intros o Ho%list_elem_of_In. destruct (Hlen o Ho). apply andb_true_iff; split; [apply andb_true_iff; split|]; apply Z.leb_le; lia. }
  cbn [assert_ rbind]. destruct (forallb _ owners); [done|].
  pose proof Hs as [(H & Ht & HH) Hreqs _ _ Ho]. pose proof (pool_free_owns _ _ Ho) as Hnd. apply NoDup_app in Hnd as (Hnd & Hdis' & _).
  rewrite (zlen_tunique _ Hnd), Z.sub_diag. do 2 f_equal. apply filter_none. intros p [x [-> Hx]]%list_elem_of_fmap Hfree.
  apply list_elem_of_join in Hx as (l & Hx & [o [-> Ho']]%list_elem_of_fmap). destruct (Hown o Ho') as [Hob Hh].
  apply (Hdis' _ Hfree). rewrite (ko_page _ _ _ _ Ht). eapply owner_slot; [done|done| |done|done].
  apply list_elem_of_fmap. by exists o.
Qed.
End checks.
