(* ===== verification/KvLife.v ===== *)
(** * The life of requests

    The scheduler's state is the world, the requests in flight and those that
    wait.  A step is what the scheduler does with one request or one batch:
    matching, admission, the slots of a prefill chunk or of a decode token, a
    checkpoint, a new output token, release, retraction and eviction.  [sched_ok]
    holds initially and every step keeps it. *)
From S2P Require Import Prelude RadixKey EvictPolicy RadixCache RadixInv RadixOps RadixInsert RadixLock RadixEvict RadixSpec RadixTheorems RadixClient TokenAllocator PagedKernels PagedAllocator KvRow KvTheorems KvRelease KvSystem KvAlloc KvPlace KvExtend KvDecode InvariantChecker KvChecks.

(** ** Operations *)

(** A new output token, with the state [update_finish_state] leaves. *)
Definition append_output (tok : Z) (fin : option Z) (done : bool) (r : KvReq) : KvReq :=
  mkKvReq (k_rid r) (k_origin_input_ids r) (k_output_ids r ++ [tok]) (full_untruncated_fill_ids r) (fill_ids_is_origin r) (k_input_embeds r)
    (k_extra_key r) (k_cache_salt r) (k_priority r) (reasoning_tokens r) fin done
    (skip_radix_cache_insert r) (allow_radix_cache_insert_once r) (k_extend_end r) (k_prefix_len r) (k_last_node r)
    (lock r) (dsv4_donated_swa_len r) (external_kv_abort_requested r) (external_kv_cleanup_steps r) (kv r).

(** [release_req]; [decode_steps] is [SGLANG_RETRACT_DECODE_STEPS]. *)
Definition release_req {A} `{!PagePool A} (clock : nat → Z) (cfg : cache_config) {HQ : HeapQ entry entry_le}
    (free_full : A → list Z → Z → result A) (strip speculative : bool) (leaves_of : RadixCache → list nat)
    (decode_steps remaining_req_count : Z) (r : KvReq) (w : world A) : result (KvReq * world A) :=
  let! (r, w) := release_kv_cache clock cfg free_full strip speculative r false w in
  let! w := evict_from_tree_cache cfg leaves_of (remaining_req_count * decode_steps) w in
  let! r := reset_for_retract r in Ok (r, w).

Record sched (A : Type) := mkSched {
  s_world : world A;
  s_running : list KvReq;
  s_waiting : list KvReq
}.
Arguments mkSched {A} _ _ _.
Arguments s_world {A} _.
Arguments s_running {A} _.
Arguments s_waiting {A} _.

(** A request that waits: no row, nothing in the pool. *)
Record fresh (r : KvReq) : Prop := {
  fs_idx : req_pool_idx (kv r) = None;
  fs_alloc : kv_allocated_len (kv r) = 0;
  fs_evicted : component_evicted_seqlens (kv r) = [] ∧ swa_evict_floor (kv r) ≤ 0;
  fs_fill : refreshable r;
  fs_running : finished_len r = None
}.

Section life.
Context {A : Type} `{!PagePool A} `{!SlotPool A} (clock : nat → Z) (cfg : cache_config) {HQ : HeapQ entry entry_le}.
Context (free_full : A → list Z → Z → result A).
Context (leaves_of : RadixCache → list nat).
Context (decode_steps : Z).
(** The number of rows and their width. *)
Context (size width : nat).
Abbreviation ps := (page_size cfg).
Abbreviation all_rows := (seq 1 size).
Abbreviation sys_ok := (sys_ok clock cfg all_rows).
Abbreviation seq_lens_of batch := ((λ r, kv_allocated_len (kv r)) <$> batch).

(** The forward pass over [extend_end] tokens was prepared. *)
Definition computed (r : KvReq) : Prop := holds_kv (kv r) = true ∧ k_extend_end r ≤ kv_allocated_len (kv r).

(** The next forward pass is planned. *)
Definition planned (r : KvReq) : Prop :=
  holds_kv (kv r) = true → k_prefix_len r = kv_allocated_len (kv r) ∧ k_prefix_len r ≤ k_extend_end r.

Definition chunk_fits (r : KvReq) (fill : list Z) (ext : Z) : Prop :=
  1 ≤ ext ∧ k_prefix_len r + ext ≤ zlen fill ∧ k_prefix_len r + ext ≤ Z.of_nat width.

(** Where generation may stop: past what the fill ids hold. *)
Definition stops (r : KvReq) (fin : option Z) : Prop :=
  match fin with
  | Some n => zlen (full_untruncated_fill_ids r) ≤ zlen (k_origin_input_ids r) + n ∧ 0 ≤ n ≤ zlen (k_output_ids r) + 1
  | None => True
  end.

Inductive sched_step : sched A → sched A → Prop :=
  | ss_arrive w rs q r : fresh r → sched_step (mkSched w rs q) (mkSched w rs (q ++ [r]))
  | ss_order w rs rs' q q' : rs ≡ₚ rs' → q ≡ₚ q' → sched_step (mkSched w rs q) (mkSched w rs' q')
  | ss_match w rs q1 r q2 embed caps r1 w1 :
      init_next_round_input clock cfg embed caps r w = Ok (r1, w1) →
      sched_step (mkSched w rs (q1 ++ r :: q2)) (mkSched w1 rs (q1 ++ r1 :: q2))
  | ss_admit w rs q1 r q2 embed caps ext r1 w1 r2 w2 :
      init_next_round_input clock cfg embed caps r w = Ok (r1, w1) →
      chunk_fits r1 (full_untruncated_fill_ids r1) ext →
      lock_admitted cfg ext r1 w1 = Ok (r2, w2) →
      sched_step (mkSched w rs (q1 ++ r :: q2)) (mkSched w2 (rs ++ [r2]) (q1 ++ q2))
  | ss_extend w batch rest q out batch' w' :
      (∀ r, r ∈ batch → planned r) →
      alloc_for_extend cfg leaves_of batch w = Ok (out, batch', w') →
      sched_step (mkSched w (batch ++ rest) q) (mkSched w' (batch' ++ rest) q)
  | ss_checkpoint w l1 r l2 q r' w' :
      computed r → checkpoint_kv_cache clock cfg r w = Ok (r', w') →
      sched_step (mkSched w (l1 ++ r :: l2) q) (mkSched w' (l1 ++ r' :: l2) q)
  | ss_next_chunk w l1 r l2 q ext :
      computed r → k_prefix_len r = kv_allocated_len (kv r) → finished_len r = None →
      chunk_fits r (full_untruncated_fill_ids (refresh_fill_ids r)) ext →
      sched_step (mkSched w (l1 ++ r :: l2) q)
        (mkSched w (l1 ++ set_extend (k_prefix_len r + ext) (refresh_fill_ids r) :: l2) q)
  | ss_decode w batch rest q out batch' w' :
      (∀ r, r ∈ batch → computed r ∧ kv_allocated_len (kv r) < Z.of_nat width) →
      alloc_for_decode cfg leaves_of batch (seq_lens_of batch) w = Ok (out, batch', w') →
      sched_step (mkSched w (batch ++ rest) q) (mkSched w' (batch' ++ rest) q)
  | ss_output w l1 r l2 q tok fin done :
      computed r → finished_len r = None → stops r fin →
      sched_step (mkSched w (l1 ++ r :: l2) q) (mkSched w (l1 ++ append_output tok fin done r :: l2) q)
  | ss_release w l1 r l2 q ckpt r' w' :
      holds_kv (kv r) = true → release_kv_cache clock cfg free_full false false r ckpt w = Ok (r', w') →
      sched_step (mkSched w (l1 ++ r :: l2) q) (mkSched w' (l1 ++ l2) q)
  | ss_retract w l1 r l2 q remaining r' w' :
      holds_kv (kv r) = true → finished_len r = None →
      release_req clock cfg free_full false false leaves_of decode_steps remaining r w = Ok (r', w') →
      sched_step (mkSched w (l1 ++ r :: l2) q) (mkSched w' (l1 ++ l2) (q ++ [r']))
  | ss_evict w rs q num n w' :
      evict_kv cfg num (leaves_of (cache w)) w = Ok (n, w') →
      sched_step (mkSched w rs q) (mkSched w' rs q).

(** The state after start-up: a tree just reset and an allocator [a] that has
    handed out nothing. *)
Definition sched_init (c : RadixCache) (a : A) : sched A :=
  mkSched (mkWorld (reset clock c) a (rows_init size width)) [] [].

Definition sched_reachable (c : RadixCache) (a : A) : sched A → Prop := rtc sched_step (sched_init c a).

(** ** Well-formed states *)

Record life (r : KvReq) : Prop := {
  lf_evicted : component_evicted_seqlens (kv r) = [] ∧ swa_evict_floor (kv r) ≤ 0;
  lf_fill : full_untruncated_fill_ids r `prefix_of` k_origin_input_ids r ++ k_output_ids r;
  lf_end : 0 < k_extend_end r ∧ k_extend_end r ≤ zlen (full_untruncated_fill_ids r) ∧ k_extend_end r ≤ Z.of_nat width;
  lf_cpl : cache_protected_len (kv r) ≤ key_len cfg (k_extend_end r);
  lf_row : holds_kv (kv r) = true →
           0 < kv_allocated_len (kv r) ∧ kv_committed_len (kv r) = kv_allocated_len (kv r) ∧
           cache_protected_len (kv r) ≤ key_len cfg (kv_allocated_len (kv r));
  lf_stop : match finished_len r with
            | Some n => zlen (full_untruncated_fill_ids r) ≤ zlen (k_origin_input_ids r) + n ∧ 0 ≤ n ≤ zlen (k_output_ids r)
            | None => True
            end
}.

Definition rows_wide (p : ReqToTokenPool) : Prop :=
  ∀ i row, req_to_token p !! i = Some row → zlen row = Z.of_nat width.

Record sched_ok (s : sched A) : Prop := {
  sd_sys : sys_ok (s_world s) (s_running s);
  sd_running : Forall life (s_running s);
  sd_waiting : Forall fresh (s_waiting s);
  sd_wide : rows_wide (rows (s_world s))
}.

(** ** The width of the rows *)

Lemma rows_write_wide idx lo hi vs p p' : rows_write idx lo hi vs p = Ok p' → rows_wide p → rows_wide p'.
Proof.
  unfold rows_write, get_row. destruct idx as [i|]; [|done]. destruct (req_to_token p !! i) as [row|] eqn:Ei; [|done]. cbn [rbind].
  set (l := norm_idx (zlen row) lo). set (h := Z.max l (norm_idx (zlen row) hi)). destruct (Z.eqb_spec (h - l) (zlen vs)) as [E|]; [|done].
  intros [= <-] Hw j r. cbn. pose proof (Hw i row Ei) as Hrow.
  assert (0 ≤ l ≤ zlen row ∧ l ≤ h ≤ zlen row) as [Hl Hh].
  { pose proof (zlen_nonneg row). unfold h, l, norm_idx. repeat case_match; zbool; lia. }
  destruct (decide (j = i)) as [->|Hne]; [rewrite lookup_insert_eq|rewrite lookup_insert_ne by done; apply Hw].
  intros [= <-]. rewrite pytake_eq, pydrop_eq by lia. unfold zlen in *. rewrite !length_app, length_take, length_drop. lia.
Qed.

Lemma write_cache_wide out pt reqs ts p p' : write_cache_indices out pt reqs ts p = Ok p' → rows_wide p → rows_wide p'.
Proof.
  revert pt ts p. induction reqs as [|r reqs IH]; intros pt [|t ts] p; try (by intros [= <-]). cbn. intros E. run_ok E.
  intros Hw. eapply IH; [exact E|]. eapply rows_write_wide; [done|]. by eapply rows_write_wide.
Qed.

Lemma write_decode_wide reqs locs out p p' : write_decode reqs locs out p = Ok p' → rows_wide p → rows_wide p'.
Proof.
  revert locs out p. induction reqs as [|r reqs IH]; intros [|l locs] [|x out] p; try (by intros [= <-]). cbn. intros E. run_ok E.
  intros Hw. eapply IH; [exact E|]. by eapply rows_write_wide.
Qed.

(** Evictions and the allocators leave the rows alone. *)
Lemma evict_from_tree_rows num (w w' : world A) : evict_from_tree_cache cfg leaves_of num w = Ok w' → rows w' = rows w.
Proof.
  unfold evict_from_tree_cache, evict_kv. destruct (0 <? _); [|by intros [= <-]]. intros ([n w1] & Ev & [= <-])%rbind_Ok.
  apply rbind_Ok in Ev as ([[k freed] c] & _ & Ev). apply rbind_Ok in Ev as (a & _ & Ev). by injection Ev as _ <-.
Qed.

Lemma or_oom_rows res (w : world A) out w' : or_oom res w = Ok (out, w') → rows w' = rows w.
Proof. unfold or_oom. intros E. run_ok E. destruct x as [[o|] a]; [|done]. by injection E as _ <-. Qed.

Lemma rows_alloc_table reqs p o reqs' p' : rows_alloc reqs p = Ok (o, reqs', p') → req_to_token p' = req_to_token p.
Proof.
  unfold rows_alloc, alloc_rows. destruct (forallb _ _); [|done]. cbn [assert_ rbind].
  destruct (_ <? _)%nat; [intros [= _ _ <-]; done|]. by destruct (_ =? 0)%nat; intros [= _ _ <-].
Qed.

Lemma alloc_for_extend_wide batch (w : world A) out batch' w' :
  alloc_for_extend cfg leaves_of batch w = Ok (out, batch', w') → rows_wide (rows w) → rows_wide (rows w').
Proof.
  unfold alloc_for_extend. intros (ts & _ & E)%rbind_Ok Hw. apply rbind_Ok in E as ([reqs w1] & E1 & E).
  apply rbind_Ok in E as ([loc w2] & E2 & E). apply rbind_Ok in E as (p & E3 & E). injection E as _ _ <-. cbn [rows].
  eapply write_cache_wide; [exact E3|]. assert (rows w2 = rows w1) as ->.
  { destruct (ps =? 1); apply rbind_Ok in E2 as (w3 & E4 & E2); by rewrite (or_oom_rows _ _ _ _ E2), (evict_from_tree_rows _ _ _ E4). }
  unfold alloc_req_slots in E1. apply rbind_Ok in E1 as ([[o reqs1] p1] & E5 & E1). destruct o; [|done]. injection E1 as _ <-. cbn [rows].
  intros i row. rewrite (rows_alloc_table _ _ _ _ _ E5). apply Hw.
Qed.

Lemma alloc_for_decode_wide batch lens (w : world A) out batch' w' :
  alloc_for_decode cfg leaves_of batch lens w = Ok (out, batch', w') → rows_wide (rows w) → rows_wide (rows w').
Proof.
  unfold alloc_for_decode. intros ([loc w2] & E2 & E)%rbind_Ok Hw. apply rbind_Ok in E as (p & E3 & E). injection E as _ _ <-. cbn [rows].
  eapply write_decode_wide; [exact E3|]. assert (rows w2 = rows w) as ->; [|done].
  destruct (ps =? 1); [|apply rbind_Ok in E2 as (last_loc & _ & E2)]; apply rbind_Ok in E2 as (w3 & E4 & E2);
    by rewrite (or_oom_rows _ _ _ _ E2), (evict_from_tree_rows _ _ _ E4).
Qed.

Lemma checkpoint_wide r up_to (w : world A) r' w' : checkpoint clock cfg r up_to w = Ok (r', w') → rows_wide (rows w) → rows_wide (rows w').
Proof.
  unfold checkpoint. destruct (disable cfg); [by intros [= _ <-]|]. intros ([[[[k kvi] j] r1] w1] & E1 & E)%rbind_Ok Hw.
  assert (rows w1 = rows w) as Er.
  { unfold _insert_cache in E1. apply rbind_Ok in E1 as (row & _ & E1). apply rbind_Ok in E1 as ([res c] & _ & E1).
    apply rbind_Ok in E1 as (c1 & _ & E1). apply rbind_Ok in E1 as (a & _ & E1). by injection E1 as _ _ _ _ <-. }
  apply rbind_Ok in E as ([m c] & _ & E). apply rbind_Ok in E as (vs & _ & E). apply rbind_Ok in E as ([] & _ & E).
  apply rbind_Ok in E as (p & Ep & E). apply rbind_Ok in E as (c1 & _ & E). apply rbind_Ok in E as (c2 & _ & E). injection E as _ <-. cbn [rows].
  eapply rows_write_wide; [exact Ep|]. by rewrite Er.
Qed.

Lemma release_wide ckpt r (w : world A) r' w' :
  release_kv_cache clock cfg free_full false false r ckpt w = Ok (r', w') → rows_wide (rows w) → rows_wide (rows w').
Proof.
  unfold release_kv_cache. intros ([] & _ & E)%rbind_Ok Hw. apply rbind_Ok in E as ([] & _ & E).
  apply rbind_Ok in E as ([r1 w1] & E1 & E).
  assert (rows_wide (rows w1)) as Hw1 by (destruct (ckpt && _); [by eapply checkpoint_wide|by injection E1 as _ <-]). clear E1 Hw.
  unfold release_row, free_kv_row, _release_overallocated_kv_indices in E.
  apply rbind_Ok in E as (w2 & E2 & E). apply rbind_Ok in E2 as (row & _ & E2). apply rbind_Ok in E2 as (a & _ & E2). injection E2 as <-.
  apply rbind_Ok in E as (c & _ & E). apply rbind_Ok in E as (w3 & E3 & E). apply rbind_Ok in E3 as ([] & _ & E3).
  assert (rows w3 = rows w1) as Er.
  { destruct (_ <? _) in E3; [|by injection E3 as <-]. apply rbind_Ok in E3 as (row3 & _ & E3). apply rbind_Ok in E3 as (a3 & _ & E3). by injection E3 as <-. }
  apply rbind_Ok in E as ([r4 w4] & E4 & E). injection E as _ <-. unfold free_request_row, rows_free in E4.
  destruct (req_pool_idx _); [|done]. injection E4 as _ <-. cbn. by rewrite Er.
Qed.

(** ** Every step keeps the state well-formed *)

Context (Hps : 0 < ps) (Hdis : disable cfg = false) (Hlv : ∀ c, leaves_of c ≡ₚ elements (evictable_leaves c)).
Abbreviation Hall := (NoDup_seq 1 size).

Lemma sys_update (w : world A) l1 r r' l2 : same_kv r r' → sys_ok w (l1 ++ r :: l2) → sys_ok w (l1 ++ r' :: l2).
Proof.
  intros Hr Hs. apply (sys_perm clock cfg all_rows w ([r'] ++ (l1 ++ l2))); [cbn; solve_Permutation|].
  apply (sys_same clock cfg leaves_of Hlv Hps Hdis all_rows Hall w [r] [r']); [by constructor|].
  eapply sys_perm; [|exact Hs]. cbn. solve_Permutation.
Qed.

Lemma running_row (w : world A) rs r : sys_ok w rs → r ∈ rs → holds_kv (kv r) = true → ∃ idx row n, req_ok cfg w r idx row n.
Proof.
  intros Hs Hin Hh. destruct (so_reqs _ _ _ _ _ Hs r Hin) as [?|(n & [])]; [done|]. unfold holds_kv in Hh. by rewrite wo_idx in Hh.
Qed.

Lemma holds_some k : holds_kv k = true → is_Some (req_pool_idx k).
Proof. unfold holds_kv. by destruct (req_pool_idx k). Qed.

Lemma sys_refill (w : world A) l1 r l2 : sys_ok w (l1 ++ r :: l2) → holds_kv (kv r) = true →
  full_untruncated_fill_ids r `prefix_of` k_origin_input_ids r ++ k_output_ids r → sys_ok w (l1 ++ refresh_fill_ids r :: l2).
Proof.
  intros Hs Hh Hf. destruct (running_row w _ r Hs ltac:(set_solver) Hh) as (idx & row & n & Hr).
  destruct (sys_focus clock cfg all_rows w l1 r l2 idx row n Hs Hr) as (H & Hok & HH). rewrite (refresh_set r Hf).
  pose proof (set_fill_ok clock cfg Hps Hdis w H r idx row n _ _ false Hok Hf) as Hok'.
  eapply (sys_unfocus clock cfg Hps Hdis all_rows Hall w l1 r l2 idx n); [done|apply Hr|apply Hr|exact Hok'| |done|apply framed_refl].
  intros m. unfold hold. rewrite HH. repeat case_decide; subst; lia.
Qed.

Lemma step_admit w rs q1 r q2 embed caps ext r1 w1 r2 w2 : sched_ok (mkSched w rs (q1 ++ r :: q2)) →
  init_next_round_input clock cfg embed caps r w = Ok (r1, w1) → chunk_fits r1 (full_untruncated_fill_ids r1) ext →
  lock_admitted cfg ext r1 w1 = Ok (r2, w2) → sched_ok (mkSched w2 (rs ++ [r2]) (q1 ++ q2)).
Proof.
  intros [Hs Hl Hq Hw] E1 Hfit E2. cbn in *. apply Forall_app in Hq as [Hq1 [Hr Hq2]%Forall_cons]. destruct Hr as [Hi Ha Hev Hf Hfin].
  destruct (sys_admit clock cfg Hps Hdis all_rows Hall w rs embed caps ext r Hs Hf Hi Ha) as (m & w1' & w2' & E1' & E2' & Hs' & Hm & Hd & Er).
  rewrite E1 in E1'. injection E1' as -> ->. rewrite E2 in E2'. injection E2' as -> ->. destruct Hfit as (He & Hfl & Hwd). cbn in Hfl, Hwd.
  split; cbn; [done| |by apply Forall_app|by rewrite Er]. apply Forall_app. split; [done|]. constructor; [|done]. split; cbn; try done; [lia| | |].
  - apply key_len_max; [done|done|lia].
  - unfold holds_kv. cbn. by rewrite Hi.
  - by rewrite Hfin.
Qed.

Lemma step_match w rs q1 r q2 embed caps r1 w1 : sched_ok (mkSched w rs (q1 ++ r :: q2)) →
  init_next_round_input clock cfg embed caps r w = Ok (r1, w1) → sched_ok (mkSched w1 rs (q1 ++ r1 :: q2)).
Proof.
  intros [Hs Hl Hq Hw] E1. cbn in *. apply Forall_app in Hq as [Hq1 [Hr Hq2]%Forall_cons]. destruct Hr as [Hi Ha Hev Hf Hfin].
  destruct (sys_match clock cfg Hps Hdis all_rows Hall w rs embed caps r Hs Hf) as (m & c1 & E1' & Hs' & _).
  rewrite E1 in E1'. injection E1' as -> ->. split; cbn; try done. apply Forall_app. split; [done|]. constructor; [|done]. split; try done. by apply refresh_fill_ok.
Qed.

Lemma step_extend w batch rest q out batch' w' : sched_ok (mkSched w (batch ++ rest) q) → (∀ r, r ∈ batch → planned r) →
  alloc_for_extend cfg leaves_of batch w = Ok (out, batch', w') → sched_ok (mkSched w' (batch' ++ rest) q).
Proof.
  intros [Hs Hl Hq Hw] Hpl E. cbn in *. apply Forall_app in Hl as [Hlb Hlr]. rewrite Forall_forall in Hlb.
  assert (∀ r, r ∈ batch → extendable w r ∧ k_extend_end r ≤ zlen (full_untruncated_fill_ids r)) as Hex.
  { intros r Hr. pose proof (Hlb r Hr) as []. split; [|lia]. split.
    - destruct (holds_kv (kv r)) eqn:Eh; [by destruct (Hpl r Hr Eh)|].
      destruct (so_reqs _ _ _ _ _ Hs r ltac:(set_solver)) as [(idx & row & n & [])|(n & [])]; [unfold holds_kv in Eh; by rewrite ko_idx in Eh|].
      pose proof (key_len_le cfg Hps (k_extend_end r)). lia.
    - intros Hh. destruct (Hpl r Hr Hh). split; [done|]. by apply lf_row0.
    - intros i row Hi. rewrite (Hw i row Hi). lia. }
  pose proof (extend_sys clock cfg leaves_of Hlv Hps Hdis all_rows Hall w batch rest Hs Hex) as H. rewrite E in H. destruct H as (Hs' & _ & HF).
  split; cbn; [done| |done|by eapply alloc_for_extend_wide]. apply Forall_app. split; [|done].
  apply Forall_lookup. intros k r' Hk. destruct (Forall2_lookup_r _ _ _ _ _ HF Hk) as (r & Hr & i & ->). apply list_elem_of_lookup_2 in Hr.
  pose proof (Hlb r Hr) as []. split; cbn; try done. intros _. split; [lia|]. done.
Qed.

Lemma running_decodable w batch rest q : sched_ok (mkSched w (batch ++ rest) q) →
  (∀ r, r ∈ batch → computed r ∧ kv_allocated_len (kv r) < Z.of_nat width) → ∀ r, r ∈ batch → decodable w r.
Proof.
  intros [_ Hl _ Hw] Hc r Hr. cbn in *. apply Forall_app in Hl as [Hlb _]. rewrite Forall_forall in Hlb.
  destruct (Hc r Hr) as [[Hh _] Hwd]. split; [done|by apply (lf_row _ (Hlb r Hr))|]. intros i row Hi. by rewrite (Hw i row Hi).
Qed.

Lemma step_decode w batch rest q out batch' w' : sched_ok (mkSched w (batch ++ rest) q) →
  (∀ r, r ∈ batch → computed r ∧ kv_allocated_len (kv r) < Z.of_nat width) →
  alloc_for_decode cfg leaves_of batch (seq_lens_of batch) w = Ok (out, batch', w') → sched_ok (mkSched w' (batch' ++ rest) q).
Proof.
  intros Hok Hc E. pose proof (running_decodable w batch rest q Hok Hc) as Hdc. destruct Hok as [Hs Hl Hq Hw].
  cbn in *. apply Forall_app in Hl as [Hlb Hlr]. rewrite Forall_forall in Hlb.
  pose proof (decode_sys clock cfg leaves_of Hlv Hps Hdis all_rows Hall w batch rest Hs Hdc) as H. rewrite E in H. destruct H as (Hs' & _ & ->).
  split; cbn; [done| |done|by eapply alloc_for_decode_wide]. apply Forall_app. split; [|done]. apply Forall_fmap, Forall_forall. intros r Hr.
  destruct (Hc r Hr) as [[Hh _] _]. pose proof (Hlb r Hr) as []. destruct (lf_row0 Hh) as (H0 & Hcm & Hk). split; cbn; try done.
  intros _. split; [lia|]. split; [lia|]. etrans; [exact Hk|]. apply key_len_mono; [done|lia].
Qed.

Lemma step_checkpoint w l1 r l2 q r' w' : sched_ok (mkSched w (l1 ++ r :: l2) q) → computed r →
  checkpoint_kv_cache clock cfg r w = Ok (r', w') → sched_ok (mkSched w' (l1 ++ r' :: l2) q).
Proof.
  intros [Hs Hl Hq Hw] [Hh Hc] E. cbn in *. apply Forall_app in Hl as [Hl1 [Hr Hl2]%Forall_cons]. pose proof Hr as [].
  destruct (running_row w _ r Hs ltac:(set_solver) Hh) as (idx & row & n & Hrow). destruct (lf_row0 Hh) as (H0 & Hcm & Hk).
  unfold checkpoint_kv_cache in E. apply rbind_Ok in E as ([] & _ & E). apply rbind_Ok in E as ([r1 w1] & E1 & E). injection E as <- <-.
  destruct (negb _ || _).
  2:{ injection E1 as <- <-. split; cbn; try done; [|apply Forall_app; split; [done|]; constructor; [by split|done]].
      eapply sys_update; [|exact Hs]. split; try done. split; [done|by apply holds_some]. }
  set (r0 := set_prefix (k_prefix_len r) false r) in *.
  assert (sys_ok w (l1 ++ r0 :: l2)) as Hs0.
  { eapply sys_update; [|exact Hs]. split; try done. split; [done|by apply holds_some]. }
  destruct (sys_checkpoint clock cfg Hps Hdis all_rows Hall w l1 r0 l2 idx row n (k_extend_end r) Hs0) as (n' & w2 & E2 & Hs2); [by destruct Hrow; split|cbn; lia|cbn; lia| |].
  { rewrite row_key_len by done. etrans; [exact lf_cpl0|]. apply key_len_mono; [done|]. cbn. unfold zlen in *. rewrite length_take. lia. }
  rewrite E2 in E1. injection E1 as <- <-.
  set (L := klen _) in *. assert (L = key_len cfg (k_extend_end r)) as EL.
  { unfold L. rewrite row_key_len by done. f_equal. cbn. unfold zlen in *. rewrite length_take. lia. }
  split; cbn; [|apply Forall_app; split; [done|]; constructor; [|done]|done|by eapply checkpoint_wide].
  - eapply sys_update; [|exact Hs2]. split; try done. split; [done|by apply holds_some].
  - split; cbn; try done; [by rewrite EL|]. intros _. split; [done|]. split; [done|]. rewrite EL. apply key_len_mono; [done|lia].
Qed.

Lemma step_next_chunk w l1 r l2 q ext : sched_ok (mkSched w (l1 ++ r :: l2) q) → computed r →
  k_prefix_len r = kv_allocated_len (kv r) → finished_len r = None →
  chunk_fits r (full_untruncated_fill_ids (refresh_fill_ids r)) ext →
  sched_ok (mkSched w (l1 ++ set_extend (k_prefix_len r + ext) (refresh_fill_ids r) :: l2) q).
Proof.
  intros [Hs Hl Hq Hw] [Hh Hc] Hp Hfin (He & Hf & Hwd). cbn in *. apply Forall_app in Hl as [Hl1 [Hr Hl2]%Forall_cons].
  pose proof Hr as []. destruct (lf_row0 Hh) as (H0 & Hcm & Hk). pose proof (sys_refill w l1 r l2 Hs Hh lf_fill0) as Hs1.
  rewrite (refresh_set r lf_fill0) in *. cbn in Hf.
  split; cbn; [|apply Forall_app; split; [done|]; constructor; [|done]|done|done].
  - eapply sys_update; [|exact Hs1]. split; try done. split; [done|by apply holds_some].
  - split; cbn; try done; [lia| |by rewrite Hfin]. etrans; [exact lf_cpl0|]. apply key_len_mono; [done|lia].
Qed.

Lemma step_output w l1 r l2 q tok fin done : sched_ok (mkSched w (l1 ++ r :: l2) q) → computed r →
  finished_len r = None → stops r fin → sched_ok (mkSched w (l1 ++ append_output tok fin done r :: l2) q).
Proof.
  intros [Hs Hl Hq Hw] [Hh Hc] Hfin Hst. cbn in *. apply Forall_app in Hl as [Hl1 [Hr Hl2]%Forall_cons]. pose proof Hr as [].
  split; cbn; [|apply Forall_app; split; [done|]; constructor; [|done]|done|done].
  - eapply sys_update; [|exact Hs]. split; try done. split; [done|by apply holds_some].
  - split; cbn; try done; [rewrite app_assoc; by apply prefix_app_r|]. unfold stops in Hst. destruct fin as [n|]; [|done].
    rewrite zlen_app. change (zlen [tok]) with 1. done.
Qed.

(** A running request can be released at any time. *)
Lemma life_releasable r ckpt : life r → holds_kv (kv r) = true → 0 ≤ cache_protected_len (kv r) → releasable cfg false false r ckpt.
Proof.
  intros [] Hh Hc0. destruct (lf_row0 Hh) as (H0 & Hcm & Hk). pose proof (prefix_length _ _ lf_fill0) as Hlen. rewrite length_app in Hlen.
  set (o := owned_kv_len false r).
  assert (Z.min (kv_allocated_len (kv r)) (zlen (full_untruncated_fill_ids r)) ≤ o ≤ kv_allocated_len (kv r)) as Ho.
  { unfold o, owned_kv_len, output_ids_through_stop. cbn. rewrite Hcm. destruct (finished_len r) as [n|]; [|lia].
    unfold zlen in *. rewrite pytake_eq, length_take by lia. lia. }
  assert (cache_protected_len (kv r) ≤ key_len cfg (Z.min o (zlen (k_origin_input_ids r ++ k_output_ids r)))) as Hkey.
  { destruct (Z.le_gt_cases (kv_allocated_len (kv r)) (zlen (full_untruncated_fill_ids r))) as [Hle|Hgt];
      [etrans; [exact Hk|]|etrans; [exact lf_cpl0|]]; apply key_len_mono; try done; unfold zlen in *; rewrite length_app; lia. }
  pose proof (key_len_le cfg Hps (Z.min o (zlen (k_origin_input_ids r ++ k_output_ids r)))) as Hb.
  pose proof (zlen_nonneg (full_untruncated_fill_ids r)). pose proof (zlen_nonneg (k_origin_input_ids r ++ k_output_ids r)).
  split; try done; fold o; [lia| |].
  - destruct (ckpt && _); [|lia]. unfold release_key. rewrite row_key_len by done. fold o. etrans; [exact Hkey|].
    apply key_len_mono; [done|]. unfold zlen. rewrite length_take. lia.
  - unfold overalloc_expected. cbn. unfold o, owned_kv_len, output_ids_through_stop. cbn. rewrite Hcm.
    destruct (finished_len r) as [n|]; [|by rewrite Z.eqb_refl].
    destruct (Z.ltb_spec (zlen (k_origin_input_ids r) + n) (kv_allocated_len (kv r))); [by rewrite orb_true_r|].
    rewrite (proj2 (Z.eqb_eq _ _)); [done|]. unfold zlen in *. rewrite pytake_eq, length_take by lia. lia.
Qed.

Lemma step_release w l1 r l2 q ckpt : sched_ok (mkSched w (l1 ++ r :: l2) q) → holds_kv (kv r) = true →
  ∃ r' w', release_kv_cache clock cfg free_full false false r ckpt w = Ok (r', w') ∧ sched_ok (mkSched w' (l1 ++ l2) q) ∧
    lock r' = None ∧ req_pool_idx (kv r') = None ∧ kv_allocated_len (kv r') = 0 ∧ retains r r'.
Proof.
  intros [Hs Hl Hq Hw] Hh. cbn in *. apply Forall_app in Hl as [Hl1 [Hr Hl2]%Forall_cons].
  destruct (running_row w _ r Hs ltac:(set_solver) Hh) as (idx & row & n & Hrow).
  destruct (sys_release clock cfg free_full false false Hps Hdis all_rows Hall w l1 r l2 idx row n ckpt Hs Hrow) as (r' & w' & E & Hs' & H1 & H2 & _ & H3 & H4 & _).
  { apply life_releasable; [done|done|apply Hrow]. }
  exists r', w'. split; [done|]. split; [|done]. split; cbn; [done|by apply Forall_app|done|by eapply release_wide].
Qed.

Lemma step_evict_to w rs q num : sched_ok (mkSched w rs q) → ∃ w', evict_from_tree_cache cfg leaves_of num w = Ok w' ∧ sched_ok (mkSched w' rs q).
Proof.
  intros [Hs Hl Hq Hw]. cbn in *. unfold evict_from_tree_cache. destruct (0 <? _); [|by exists w].
  destruct (sys_evict clock cfg Hps Hdis all_rows Hall w rs (num - pool_available (pool w)) (leaves_of (cache w)) Hs (Hlv _)) as (n & w' & E & Hs' & Er & _).
  exists w'. rewrite E. split; [done|]. split; cbn; try done. by rewrite Er.
Qed.

Lemma reset_fresh r : req_pool_idx (kv r) = None → kv_allocated_len (kv r) = 0 →
  component_evicted_seqlens (kv r) = [] → swa_evict_floor (kv r) ≤ 0 → finished_len r = None →
  full_untruncated_fill_ids r `prefix_of` k_origin_input_ids r ++ k_output_ids r →
  ∃ r', reset_for_retract r = Ok r' ∧ fresh r' ∧ lock r' = None ∧ k_rid r' = k_rid r.
Proof.
  intros Hi Ha He Hf Hfin Hfill. unfold reset_for_retract, holds_kv. cbn [kv set_kv req_pool_idx]. cbn. rewrite Hi. cbn [bool_decide negb assert_ rbind].
  eexists. split; [reflexivity|]. destruct (k_input_embeds r); cbn.
  - split; [|done]. split; cbn; try done. apply refreshable_discard. exact Hfill.
  - split; [|done]. split; cbn; try done. apply refresh_fill_ok. exact Hfill.
Qed.

Lemma step_retract w l1 r l2 q remaining : sched_ok (mkSched w (l1 ++ r :: l2) q) → holds_kv (kv r) = true → finished_len r = None →
  ∃ r' w', release_req clock cfg free_full false false leaves_of decode_steps remaining r w = Ok (r', w') ∧
    sched_ok (mkSched w' (l1 ++ l2) (q ++ [r'])) ∧ lock r' = None ∧ k_rid r' = k_rid r.
Proof.
  intros Hok Hh Hfin. destruct (step_release w l1 r l2 q false Hok Hh) as (r1 & w1 & E1 & Hok1 & H1 & H2 & H3 & []).
  destruct (step_evict_to w1 _ q (remaining * decode_steps) Hok1) as (w2 & E2 & Hok2).
  destruct Hok as [_ Hl _ _]. cbn in Hl. apply Forall_app in Hl as [_ [[] _]%Forall_cons].
  destruct (reset_fresh r1) as (r2 & E3 & Hr2 & Hlk & Hrid); [done|done|done|rewrite rt_floor; tauto|congruence| |].
  { rewrite rt_origin, rt_output. by destruct rt_fill as [->| ->]. }
  exists r2, w2. unfold release_req. rewrite E1. cbn [rbind]. rewrite E2. cbn [rbind]. rewrite E3. split; [done|]. split; [|by rewrite Hrid].
  destruct Hok2. split; cbn in *; try done. apply Forall_app. split; [done|]. by constructor.
Qed.

Lemma step_ok s s' : sched_ok s → sched_step s s' → sched_ok s'.
Proof.
  intros Hok Hst. destruct Hst as [w rs q r Hf|w rs rs' q q' Hr Hq'|*|*|*|*|*|*|*|w l1 r l2 q ckpt r' w' Hh E|w l1 r l2 q remaining r' w' Hh Hf E|w rs q num n w' E].
  - destruct Hok. split; cbn in *; try done. apply Forall_app. by split; [|constructor].
  - destruct Hok. split; cbn in *; [by eapply sys_perm|by rewrite <- Hr|by rewrite <- Hq'|done].
  - by eapply step_match.
  - by eapply step_admit.
  - by eapply step_extend.
  - by eapply step_checkpoint.
  - by apply step_next_chunk.
  - by eapply step_decode.
  - by apply step_output.
  - destruct (step_release w l1 r l2 q ckpt Hok Hh) as (r1 & w1 & E1 & Hok1 & _). rewrite E in E1. by injection E1 as _ ->.
  - destruct (step_retract w l1 r l2 q remaining Hok Hh Hf) as (r1 & w1 & E1 & Hok1 & _). rewrite E in E1. by injection E1 as -> ->.
  - destruct Hok. cbn in *. destruct (sys_evict clock cfg Hps Hdis all_rows Hall w rs num (leaves_of (cache w)) sd_sys0 (Hlv _)) as (n1 & w1 & E1 & Hs1 & Er & _).
    rewrite E in E1. injection E1 as _ ->. split; cbn; try done. by rewrite Er.
Qed.

Lemma rows_init_lookup i row : req_to_token (rows_init size width) !! i = Some row ↔ (i ≤ size)%nat ∧ row = replicate width 0.
Proof.
  cbn [rows_init req_to_token]. rewrite <- elem_of_list_to_map.
  - rewrite list_elem_of_fmap. split.
    + intros (j & [= -> ->] & Hj%elem_of_seq). split; [lia|done].
    + intros [Hi ->]. exists i. split; [done|]. apply elem_of_seq. lia.
  - rewrite <- list_fmap_compose. cbn. rewrite list_fmap_id. apply (NoDup_seq 0 (S size)).
Qed.

Lemma init_ok c a : owns a [] → pool_page_size a = ps → sched_ok (sched_init c a).
Proof.
  intros Ho Hp. pose proof (reach_reset clock cfg c) as Hreach. split; cbn [sched_init s_world s_running s_waiting rows]; [|done|done|].
  - split.
    + exists (λ _, 0). split; [|done]. split; [done| |done]. intros ns us vs. cbn [cache].
      pose proof (reachable_inv clock cfg Hps Hdis _ _ Hreach) as [(P & V & Hinv) _]. rewrite (cached_inv cfg _ P V _ ns us vs Hinv).
      intros (n & x & Hx & Hn & _). cbn in Hx, Hn. by apply lookup_singleton_Some in Hx as [<- _].
    + intros r Hr. by apply elem_of_nil in Hr.
    + done.
    + intros i Hi%elem_of_seq. exists (replicate width 0). apply rows_init_lookup. split; [lia|done].
    + cbn [pool cache]. replace (tree_slots (reset clock c)) with (@nil Z); [done|]. unfold tree_slots, reset.
      cbn -[map_to_list singletonM map_singleton]. by rewrite map_to_list_singleton.
  - intros i row [_ ->]%rows_init_lookup. unfold zlen. by rewrite length_replicate.
Qed.

Lemma reachable_ok c a s : owns a [] → pool_page_size a = ps → sched_reachable c a s → sched_ok s.
Proof. intros Ho Hp Hr. pose proof (init_ok c a Ho Hp) as Hi. induction Hr as [|x y z Hs _ IH]; [done|]. apply IH. by eapply step_ok. Qed.

(** ** What a well-formed state can do *)

(** A request that waits is matched and locked without an error. *)
Lemma admit_total s r embed caps ext : sched_ok s → r ∈ s_waiting s →
  ∃ r1 w1 r2 w2, init_next_round_input clock cfg embed caps r (s_world s) = Ok (r1, w1) ∧ lock_admitted cfg ext r1 w1 = Ok (r2, w2).
Proof.
  intros [Hs _ Hq _] Hr. rewrite Forall_forall in Hq. destruct (Hq r Hr) as [Hi Ha _ Hf _].
  destruct (sys_admit clock cfg Hps Hdis all_rows Hall _ _ embed caps ext r Hs Hf Hi Ha) as (m & w1 & w2 & E1 & E2 & _). by eexists _, _, _, _.
Qed.

Lemma checkpoint_total s r : sched_ok s → r ∈ s_running s → computed r → finished_reason r = false →
  ∃ r' w', checkpoint_kv_cache clock cfg r (s_world s) = Ok (r', w').
Proof.
  intros [Hs Hl _ _] (l1 & l2 & E)%list_elem_of_split [Hh Hc] Hfin. rewrite E in *. apply Forall_app in Hl as [_ [[] _]%Forall_cons].
  destruct (running_row _ _ r Hs ltac:(set_solver) Hh) as (idx & row & n & Hrow). unfold checkpoint_kv_cache. rewrite Hfin. cbn [negb assert_ rbind].
  destruct (_ || _); [|by eexists _, _]. set (r0 := set_prefix (k_prefix_len r) false r) in *.
  destruct (sys_checkpoint clock cfg Hps Hdis all_rows Hall (s_world s) l1 r0 l2 idx row n (k_extend_end r)) as (n' & w2 & E2 & _).
  - eapply sys_update; [|exact Hs]. split; try done. split; [done|by apply holds_some].
  - by destruct Hrow; split.
  - cbn. lia.
  - cbn. lia.
  - rewrite row_key_len by done. etrans; [exact lf_cpl0|]. apply key_len_mono; [done|]. cbn. unfold zlen in *. rewrite length_take. lia.
  - rewrite E2. by eexists _, _.
Qed.

(** ** Draining *)

(** The requests that were admitted and have no row yet. *)
Definition rowless (rs : list KvReq) : list KvReq := filter (λ r, holds_kv (kv r) = false) rs.

Lemma rowless_ok rs r : r ∈ rowless rs → holds_kv (kv r) = false.
Proof. by intros [? _]%list_elem_of_filter. Qed.

(** Releasing every request that has a row. *)
Lemma drain w adm rs q : sched_ok (mkSched w (adm ++ rs) q) →
  ∃ w', rtc sched_step (mkSched w (adm ++ rs) q) (mkSched w' (adm ++ rowless rs) q) ∧ sched_ok (mkSched w' (adm ++ rowless rs) q).
Proof.
  revert w adm. induction rs as [|r rs IH]; intros w adm Hok; [by exists w|]. unfold rowless in *. rewrite filter_cons. case_decide as Hh.
  - destruct (IH w (adm ++ [r])) as (w' & Hrun & Hok'); rewrite <- ?app_assoc in *; [done|]. by exists w'.
  - apply not_false_is_true in Hh. destruct (step_release w adm r rs q true Hok Hh) as (r' & w1 & E & Hok1 & _).
    destruct (IH w1 adm Hok1) as (w' & Hrun & Hok'). exists w'. split; [|done].
    eapply rtc_l; [|exact Hrun]. by apply (ss_release w adm r rs q true r' w1).
Qed.

Lemma evict_all w rs q : sched_ok (mkSched w rs q) →
  ∃ w', rtc sched_step (mkSched w rs q) (mkSched w' rs q) ∧ sched_ok (mkSched w' rs q) ∧ evictable_size (cache w') = 0.
Proof.
  intros [Hs Hl Hq Hw]. cbn in *. set (num := zlen (tree_slots (cache w)) + 1).
  destruct (sys_evict clock cfg Hps Hdis all_rows Hall w rs num (leaves_of (cache w)) Hs (Hlv _)) as (n & w' & E & Hs' & Er & Hstop).
  exists w'. split; [apply rtc_once; by econstructor|]. split; [split; cbn; try done; by rewrite Er|].
  destruct Hstop as [Hn|]; [|done]. destruct (so_tree _ _ _ _ _ Hs) as (H & Ht & _).
  destruct (evict_ok clock cfg Hps Hdis w H _ num (leaves_of (cache w)) Ht (so_owns _ _ _ _ _ Hs) (Hlv _))
    as (n1 & w1 & E1 & _ & _ & _ & _ & _ & _ & Esl & _).
  rewrite E in E1. injection E1 as -> ->. pose proof (zlen_nonneg (tree_slots (cache w1))). lia.
Qed.

(** ** The properties *)

(** C1: from start-up on, whatever the scheduler does (matches, admissions,
    prefill chunks, decode steps, checkpoints, outputs, releases, retractions
    and evictions, in any order), the tree, the rows and the allocator stay
    consistent with the requests: every page is free, stored once by the tree or
    in the own part of exactly one row, every row is free or held by one request,
    the locks on the tree are those of the running requests, and each request's
    lengths are in order. *)
Theorem sched_invariant c a s : owns a [] → pool_page_size a = ps → sched_reachable c a s → sched_ok s.
Proof. apply reachable_ok. Qed.

(** C3: in every reachable state the leak check the scheduler runs while it is
    busy passes: available, evictable, protected and uncached slots add up to
    the pool, provided the batches show the checker every request with a row. *)
Theorem busy_check_passes c a s objs last_batch running_batch chunked_req :
  owns a [] → pool_page_size a = ps → sched_reachable c a s →
  s_running s = objs.*2 → visible objs last_batch running_batch chunked_req →
  self_check_during_busy cfg pool_total last_batch running_batch chunked_req (s_world s) = Ok tt.
Proof.
  intros Ho Hp Hr E Hv. destruct (reachable_ok c a s Ho Hp Hr) as [Hs _ _ _]. rewrite E in Hs. by apply (busy_check clock cfg Hps Hdis all_rows _ objs).
Qed.

(** C2: in every reachable state no row of a request refers to a page the
    allocator holds free, and no page is in the free lists twice (the checks of
    [_check_kv_page_invariants]). *)
Theorem no_use_after_free c a s objs last_batch running_batch chunked_req :
  owns a [] → pool_page_size a = ps → sched_reachable c a s →
  s_running s = objs.*2 → visible objs last_batch running_batch chunked_req →
  _check_kv_page_invariants (Z.of_nat width) (_requests_owning_rows last_batch running_batch chunked_req) (s_world s) = Ok (0, []).
Proof.
  intros Ho Hp Hr E Hv. destruct (reachable_ok c a s Ho Hp Hr) as [Hs Hl _ Hw]. rewrite E in *. rewrite Forall_forall in Hl.
  assert (∀ o, o ∈ _requests_owning_rows last_batch running_batch chunked_req → o ∈ objs ∧ holds_kv (kv o.2) = true) as Hown.
  { intros o Ho'. rewrite (owners_perm _ _ _ _ Hv) in Ho'. apply list_elem_of_filter in Ho' as [? ?]. done. }
  apply (page_check clock cfg Hps Hdis all_rows Hall _ objs); [done..|]. intros o Hin. destruct (Hown o Hin) as [Hob Hh].
  assert (o.2 ∈ objs.*2) as Hin2 by (apply list_elem_of_fmap; by exists o). destruct (lf_row _ (Hl _ Hin2) Hh) as (? & -> & _).
  destruct (running_row _ _ _ Hs Hin2 Hh) as (idx & row & n & []). rewrite (Hw _ _ ko_row) in ko_lens. lia.
Qed.

(** C4: from every reachable state the requests with a row can be released one
    after the other; then neither idle check finds a leak, every row is free, and
    evicting the tree makes every slot of the pool available again but those under
    the locks of requests that were admitted and have no row yet.  Without such
    requests nothing is protected and the whole pool is available. *)
Theorem drain_no_leak c a s : owns a [] → pool_page_size a = ps → sched_reachable c a s →
  ∃ w1 w2, let left := rowless (s_running s) in
    rtc sched_step s (mkSched w1 left (s_waiting s)) ∧ rtc sched_step (mkSched w1 left (s_waiting s)) (mkSched w2 left (s_waiting s)) ∧
    _check_all_pools pool_total w1 = false ∧ _check_req_pool (Z.of_nat size) 0 w1 = false ∧
    pool_available (pool w2) + protected_size (cache w2) = pool_total ∧
    (left = [] → protected_size (cache w1) = 0 ∧ pool_available (pool w2) = pool_total).
Proof.
  intros Ho Hp Hr. pose proof (reachable_ok c a s Ho Hp Hr) as Hok. destruct s as [w rs q]. cbn [s_running s_waiting].
  destruct (drain w [] rs q Hok) as (w1 & Hrun & Hok1). destruct (evict_all w1 (rowless rs) q Hok1) as (w2 & Hrun2 & Hok2 & Hev).
  destruct (idle_check clock cfg Hps Hdis all_rows w1 _ (sd_sys _ Hok1) (rowless_ok rs)) as (H1 & H2 & _ & H3).
  destruct (idle_check clock cfg Hps Hdis all_rows w2 _ (sd_sys _ Hok2) (rowless_ok rs)) as (_ & _ & H4 & H5).
  exists w1, w2. unfold zlen in H2. rewrite length_seq in H2. split_and!; [done..|lia|]. intros E. split; [by apply H3|]. specialize (H5 E). lia.
Qed.

(** C11: in a reachable state the calls of the scheduler do not fail: every
    waiting request can be matched and locked, every computed request that is
    not finished can be checkpointed, and every request with a row can be
    released or, unfinished, retracted. *)
Theorem calls_return c a s : owns a [] → pool_page_size a = ps → sched_reachable c a s →
  (∀ r embed caps ext, r ∈ s_waiting s → ∃ r1 w1 r2 w2,
     init_next_round_input clock cfg embed caps r (s_world s) = Ok (r1, w1) ∧ lock_admitted cfg ext r1 w1 = Ok (r2, w2)) ∧
  (∀ r, r ∈ s_running s → computed r → finished_reason r = false → ∃ r' w', checkpoint_kv_cache clock cfg r (s_world s) = Ok (r', w')) ∧
  (∀ r, r ∈ s_running s → holds_kv (kv r) = true →
     (∀ ckpt, ∃ r' w', release_kv_cache clock cfg free_full false false r ckpt (s_world s) = Ok (r', w') ∧
        is_kv_released (kv r') = true ∧ req_pool_idx (kv r') = None ∧ lock r' = None) ∧
     (finished_len r = None → ∀ remaining, ∃ r' w',
        release_req clock cfg free_full false false leaves_of decode_steps remaining r (s_world s) = Ok (r', w') ∧ fresh r')).
Proof.
  intros Ho Hp Hr. pose proof (reachable_ok c a s Ho Hp Hr) as Hok. split; [|split].
  - intros. by apply admit_total.
  - intros. by apply checkpoint_total.
  - intros r (l1 & l2 & E)%list_elem_of_split Hh. destruct s as [w rs q]. cbn in E. subst rs. cbn [s_world]. split.
    + intros ckpt. destruct (step_release w l1 r l2 q ckpt Hok Hh) as (r' & w' & E & _ & H1 & H2 & H3 & []). exists r', w'.
      split; [done|]. split; [|done]. unfold is_kv_released, max_evicted_seqlen. by rewrite H3, rt_evicted.
    + intros Hf remaining. destruct (step_retract w l1 r l2 q remaining Hok Hh Hf) as (r' & w' & E & Hok' & _). exists r', w'. split; [done|].
      pose proof (sd_waiting _ Hok') as Hq. cbn in Hq. apply Forall_app in Hq as [_ Hq]. by apply Forall_cons in Hq as [? _].
Qed.
End life.
