(* ===== verification/Cleanup.v ===== *)
(** * Abort cleanup ([mem_cache/cleanup.py], [_release_aborted_kv_cache])

    An aborted request is released in named steps that remember their outcome,
    so that a later attempt can resume.  A step runs on the request and on the
    rest of the state, and what it changed stays when it raises. *)
From S2P Require Import Prelude RadixKey EvictPolicy RadixCache RadixInv RadixOps RadixInsert RadixLock RadixEvict RadixSpec RadixTheorems TokenAllocator KvRow KvTheorems KvRelease.

(** ** Stateful calls that may raise *)

Definition call (W T : Type) : Type := KvReq * W → result T * (KvReq * W).
Definition cret {W T} (x : T) : call W T := λ s, (Ok x, s).
Definition cbind {W T U} (m : call W T) (k : T → call W U) : call W U :=
  λ s, match m s with (Ok x, s) => k x s | (Raise e, s) => (Raise e, s) end.
Notation "'do!' x := m 'in' k" := (cbind m (λ x, k)) (at level 10, x pattern, m at level 100, k at level 200) : py_scope.

(** Read the request, and assign to its fields. *)
Definition creq {W} : call W KvReq := λ s, (Ok s.1, s).
Definition cassign {W} (f : KvReq → KvReq) : call W unit := λ s, (Ok tt, (f s.1, s.2)).

Definition run_cleanup_step {W} (name : string) (action : call W step_result) : call W step_result := λ s,
  if negb (external_kv_abort_requested s.1) then action s
  else
    match external_kv_cleanup_steps s.1 !! name with
    | Some (StepDone r) => (Ok r, s)
    | Some StepUnknown => (Raise CleanupOutcomeUnknown, s)
    | None =>
        match action (set_steps <[ name := StepUnknown ]> s.1, s.2) with
        | (Ok r, s) => (Ok r, (set_steps <[ name := StepDone r ]> s.1, s.2))
        | (Raise RetryableCleanupError, s) => (Raise RetryableCleanupError, (set_steps (delete name) s.1, s.2))
        | (Raise e, s) => (Raise e, s)
        end
    end.

(** The calls on the tree and the pools, which differ between tree caches. *)
Record cleanup_ops (W : Type) := mkOps {
  op_early_mamba : call W step_result;
  op_claim_kv_row : call W step_result;
  op_checkpoint : Z → call W step_result;
  op_free_kv_row : list (Z * Z) → call W step_result;
  op_unlock : call W step_result;
  op_overallocated : Z → Z → call W step_result;
  op_on_release : bool → call W step_result;
  op_donated_swa : call W step_result;
  op_request_slot : call W step_result
}.
Arguments op_early_mamba {W} _.
Arguments op_claim_kv_row {W} _.
Arguments op_checkpoint {W} _ _.
Arguments op_free_kv_row {W} _ _.
Arguments op_unlock {W} _.
Arguments op_overallocated {W} _ _ _.
Arguments op_on_release {W} _ _.
Arguments op_donated_swa {W} _.
Arguments op_request_slot {W} _.

Definition truthy (r : step_result) : bool := match r with RBool b => b | _ => false end.

Section aborted.
Context {W : Type} (o : cleanup_ops W) (strip_thinking_cache : bool).

Definition snapshot : call W step_result := λ s,
  (Ok (RLayout (if holds_kv (kv s.1)
                then Some (owned_kv_len strip_thinking_cache s.1, kv_allocated_len (kv s.1), cache_protected_len (kv s.1))
                else None)), s).

Definition clear_mamba (r : KvReq) : KvReq :=
  set_kv (λ k, mkKv (req_pool_idx k) (cache_protected_len k) (cache_inserted_len k) (kv_committed_len k)
                 (kv_allocated_len k) (swa_evict_floor k) (component_evicted_seqlens k) None) r.

(** The steps from the free of the row on. *)
Definition release_steps (checkpoint : bool) (owned allocated protected : Z) : call W unit :=
  do! _ := run_cleanup_step "kv.row" (op_free_kv_row o [(protected, owned)]) in
  do! _ := run_cleanup_step "kv.unlock" (op_unlock o) in
  do! _ := cassign (set_lock None) in
  do! _ := run_cleanup_step "kv.overallocated" (op_overallocated o owned allocated) in
  do! _ := run_cleanup_step "kv.on_release" (op_on_release o checkpoint) in
  do! _ := run_cleanup_step "kv.donated_swa" (op_donated_swa o) in
  do! _ := run_cleanup_step "kv.request_slot" (op_request_slot o) in
  cassign (set_kv mark_kv_released).

(** The steps of a request whose row the tree did not claim. *)
Definition release_unclaimed (checkpoint : bool) (owned allocated protected : Z) : call W unit :=
  do! r := creq in
  let checkpoint := checkpoint && negb (skip_radix_cache_insert r) in
  do! _ := if checkpoint then
             do! _ := cassign refresh_fill_ids in
             do! _ := run_cleanup_step "kv.checkpoint" (op_checkpoint o owned) in cret tt
           else cret tt in
  release_steps checkpoint owned allocated protected.

Definition release_layout (checkpoint : bool) (layout : step_result) : call W unit :=
  match layout with
  | RLayout (Some (owned, allocated, protected)) =>
      do! claimed := run_cleanup_step "kv.claim" (op_claim_kv_row o) in
      if truthy claimed then cret tt else release_unclaimed checkpoint owned allocated protected
  | _ =>
      do! r := creq in
      if holds_mamba (kv r) then
        do! _ := run_cleanup_step "kv.early_mamba" (op_early_mamba o) in cassign clear_mamba
      else cret tt
  end.

Definition _release_aborted_kv_cache (checkpoint : bool) : call W unit :=
  do! layout := run_cleanup_step "kv.layout" snapshot in release_layout checkpoint layout.
End aborted.

(** ** The radix tree's calls *)

Section radix.
Context {A : Type} `{!PagePool A} (clock : nat → Z) (cfg : cache_config).
Context (pool_free_full_segment : A → list Z → Z → result A) (strip_thinking_cache speculative : bool).

Definition lift_call (f : KvReq → world A → result (KvReq * world A)) : call (world A) step_result := λ s,
  match f s.1 s.2 with Ok s' => (Ok RUnit, s') | Raise e => (Raise e, s) end.

(** [claim_kv_row] and [on_release] are those of [BasePrefixCache], and there is
    no Mamba allocator. *)
Definition radix_ops : cleanup_ops (world A) :=
  mkOps (world A)
    (λ s, (Raise AttributeError, s))
    (λ s, (Ok (RBool false), s))
    (λ up_to, lift_call (λ r w, checkpoint clock cfg r up_to w))
    (λ ranges, lift_call (λ r w, let! w := free_kv_row pool_free_full_segment (kv r) ranges w in Ok (r, w)))
    (lift_call (λ r w, let! c := tree_unlock cfg (lock r) (cache w) in Ok (r, mkWorld c (pool w) (rows w))))
    (λ start_p end_p, lift_call (λ r w,
       let! w := _release_overallocated_kv_indices pool_free_full_segment strip_thinking_cache speculative r start_p end_p w in Ok (r, w)))
    (λ _ s, (Ok RUnit, s))
    (lift_call (λ r w, Ok (_release_donated_swa_slots r, w)))
    (lift_call (λ r w, free_request_row r w)).

(** [release_kv_cache], the path of an aborted request included. *)
Definition release_kv_cache_any (checkpoint : bool) : call (world A) unit := λ s,
  if external_kv_abort_requested s.1 then _release_aborted_kv_cache radix_ops strip_thinking_cache checkpoint s
  else match release_kv_cache clock cfg pool_free_full_segment strip_thinking_cache speculative s.1 checkpoint s.2 with
       | Ok s' => (Ok tt, s')
       | Raise e => (Raise e, s)
       end.

(** The request with another record of its steps. *)
Abbreviation rs M r := (set_steps (λ _, M) r).

Lemma run_fresh (name : string) (action : call (world A) step_result) M r w x r' w' :
  external_kv_abort_requested r = true → M !! name = None →
  action (rs (<[ name := StepUnknown ]> M) r, w) = (Ok x, (rs (<[ name := StepUnknown ]> M) r', w')) →
  run_cleanup_step name action (rs M r, w) = (Ok x, (rs (<[ name := StepDone x ]> M) r', w')).
Proof.
  intros Hf Hn E. unfold run_cleanup_step. cbn [fst snd set_steps external_kv_abort_requested external_kv_cleanup_steps] in *. rewrite Hf, Hn. cbn [negb].
  unfold set_steps in *. cbn in *. rewrite E. cbn. by rewrite insert_insert_eq.
Qed.

Lemma run_lift (name : string) f M r w r' w' :
  external_kv_abort_requested r = true → M !! name = None →
  (∀ N, f (rs N r) w = Ok (rs N r', w')) →
  run_cleanup_step name (lift_call f) (rs M r, w) = (Ok RUnit, (rs (<[ name := StepDone RUnit ]> M) r', w')).
Proof. intros Hf Hn E. apply run_fresh; [done|done|]. unfold lift_call. cbn [fst snd]. by rewrite E. Qed.

Lemma cbind_run {W T U} (m : call W T) (k : T → call W U) s x s1 : m s = (Ok x, s1) → cbind m k s = k x s1.
Proof. intros E. unfold cbind. by rewrite E. Qed.

Lemma donated_rs M r : _release_donated_swa_slots (rs M r) = rs M (_release_donated_swa_slots r).
Proof. unfold _release_donated_swa_slots. cbn. by destruct (_ || _). Qed.

Lemma free_request_row_rs M r (w : world A) r' w' : free_request_row r w = Ok (r', w') → free_request_row (rs M r) w = Ok (rs M r', w').
Proof.
  unfold free_request_row, rows_free. cbn [set_steps kv]. destruct (req_pool_idx (kv r)); [|done]. cbn. by intros [= <- <-].
Qed.

(** The steps from the row on. *)
Lemma release_steps_same r owned w r' w' b M : external_kv_abort_requested r = true →
  (∀ n, n ∈ dom M → n = "kv.layout" ∨ n = "kv.claim") →
  release_row cfg pool_free_full_segment strip_thinking_cache speculative r owned w = Ok (r', w') →
  ∃ M', release_steps radix_ops b owned (kv_allocated_len (kv r)) (cache_protected_len (kv r)) (rs M r, w) = (Ok tt, (rs M' r', w')).
Proof.
  intros Hf HM E. unfold release_row in E. apply rbind_Ok in E as (w1 & E1 & E). apply rbind_Ok in E as (c2 & E2 & E).
  apply rbind_Ok in E as (w3 & E3 & E). apply rbind_Ok in E as ([r4 w4] & E4 & E). injection E as <- <-.
  assert (∀ n, n ≠ "kv.layout" → n ≠ "kv.claim" → M !! n = None) as HN.
  { intros n H1 H2. apply not_elem_of_dom. intros Hn. by destruct (HM n Hn). }
  eexists. unfold release_steps, radix_ops.
  cbn [op_free_kv_row op_unlock op_overallocated op_on_release op_donated_swa op_request_slot].
  erewrite cbind_run; [|eapply run_lift; [done|by apply HN|intros N; cbn [kv set_steps]; rewrite E1; reflexivity]].
  erewrite cbind_run; [|eapply (run_lift _ _ _ r); [done|rewrite lookup_insert_ne by done; by apply HN|intros N; cbn [lock set_steps]; rewrite E2; reflexivity]].
  erewrite cbind_run; [|reflexivity]. cbn [fst snd]. change (set_lock None (rs ?X r)) with (rs X (set_lock None r)).
  erewrite cbind_run; [|eapply (run_lift _ _ _ (set_lock None r)); [done|rewrite !lookup_insert_ne by done; by apply HN|]].
  2:{ intros N. change (_release_overallocated_kv_indices pool_free_full_segment strip_thinking_cache speculative
        (rs N (set_lock None r)) owned (kv_allocated_len (kv r)) (mkWorld c2 (pool w1) (rows w1)) = Ok w3) in E3. by rewrite E3. }
  erewrite cbind_run; [|eapply (run_fresh _ _ _ (set_lock None r)); [done|rewrite !lookup_insert_ne by done; by apply HN|reflexivity]].
  erewrite cbind_run; [|eapply (run_lift _ _ _ (set_lock None r)); [done|rewrite !lookup_insert_ne by done; by apply HN|intros N; rewrite donated_rs; reflexivity]].
  erewrite cbind_run; [|eapply run_lift; [|rewrite !lookup_insert_ne by done; by apply HN|intros N; by apply free_request_row_rs]].
  - reflexivity.
  - unfold _release_donated_swa_slots. by destruct (_ || _).
Qed.

(** Releasing an aborted request on a radix tree without a checkpoint
    does what the plain release does: the same tree, rows and allocator, and the
    same request but for the record of its steps. *)
Theorem abort_release_same r ckpt w r' w' :
  external_kv_abort_requested r = true → external_kv_cleanup_steps r = ∅ → ckpt && negb (skip_radix_cache_insert r) = false →
  release_kv_cache clock cfg pool_free_full_segment strip_thinking_cache speculative r ckpt w = Ok (r', w') →
  ∃ M, release_kv_cache_any ckpt (r, w) = (Ok tt, (rs M r', w')).
Proof.
  intros Hf Hs Hck E. unfold release_kv_cache in E. apply rbind_Ok in E as ([] & _ & E). apply rbind_Ok in E as ([] & Hh & E).
  rewrite Hck in E. cbn [rbind] in E. assert (holds_kv (kv r) = true) as Hh' by (by destruct (holds_kv (kv r))).
  assert (r = rs ∅ r) as Er by (rewrite <- Hs; by destruct r).
  unfold release_kv_cache_any. cbn [fst snd]. rewrite Hf. unfold _release_aborted_kv_cache.
  replace (r, w) with (rs ∅ r, w) by (by rewrite <- Er).
  erewrite cbind_run; [|eapply (run_fresh _ _ _ r w (RLayout (Some (owned_kv_len strip_thinking_cache r, kv_allocated_len (kv r), cache_protected_len (kv r)))) r w);
    [done|apply lookup_empty|unfold snapshot; cbn [fst kv set_steps]; by rewrite Hh']].
  cbn [release_layout].
  erewrite cbind_run; [|eapply run_fresh; [done|by rewrite lookup_insert_ne|reflexivity]]. cbn [truthy]. unfold release_unclaimed.
  erewrite cbind_run; [|reflexivity]. cbn [fst skip_radix_cache_insert set_steps]. rewrite Hck.
  erewrite cbind_run; [|reflexivity]. apply release_steps_same; [done| |done].
  intros n. rewrite !dom_insert. set_solver.
Qed.
End radix.

(** ** Each step takes effect at most once *)

(** What the calls promise, with [effects w] the names of the steps that may have
    changed something, in order: a call that raises [RetryableCleanupError] has
    changed nothing, and no call touches the request's record of the steps. *)
Section once.
Context {W : Type} (effects : W → list string).

Record step_of (name : string) (action : call W step_result) : Prop := {
  so_steps : ∀ s, external_kv_cleanup_steps (action s).2.1 = external_kv_cleanup_steps s.1;
  so_flag : ∀ s, external_kv_abort_requested (action s).2.1 = external_kv_abort_requested s.1;
  so_effect : ∀ s, (action s).1 ≠ Raise RetryableCleanupError → effects (action s).2.2 = effects s.2 ++ [name];
  so_retry : ∀ s, (action s).1 = Raise RetryableCleanupError → effects (action s).2.2 = effects s.2
}.

Record lawful (o : cleanup_ops W) : Prop := {
  la_mamba : step_of "kv.early_mamba" (op_early_mamba o);
  la_claim : step_of "kv.claim" (op_claim_kv_row o);
  la_checkpoint : ∀ n, step_of "kv.checkpoint" (op_checkpoint o n);
  la_row : ∀ l, step_of "kv.row" (op_free_kv_row o l);
  la_unlock : step_of "kv.unlock" (op_unlock o);
  la_over : ∀ a b, step_of "kv.overallocated" (op_overallocated o a b);
  la_release : ∀ b, step_of "kv.on_release" (op_on_release o b);
  la_donated : step_of "kv.donated_swa" (op_donated_swa o);
  la_slot : step_of "kv.request_slot" (op_request_slot o)
}.

Context (o : cleanup_ops W) (Ho : lawful o) (strip : bool).

(** The record of the steps is right. *)
Record tracked (s : KvReq * W) : Prop := {
  tk_flag : external_kv_abort_requested s.1 = true;
  tk_once : NoDup (effects s.2);
  tk_known : ∀ n, n ∈ effects s.2 → is_Some (external_kv_cleanup_steps s.1 !! n);
  tk_done : ∀ n r, external_kv_cleanup_steps s.1 !! n = Some (StepDone r) → n = "kv.layout" ∨ n ∈ effects s.2
}.

(** Step [n] returned [r]. *)
Definition performed (n : string) (r : step_result) (s : KvReq * W) : Prop := external_kv_cleanup_steps s.1 !! n = Some (StepDone r).

(** A call keeps the record right, and what was done stays done. *)
Definition keeps {T} (m : call W T) : Prop :=
  ∀ s, tracked s → tracked (m s).2 ∧ ∀ n r, performed n r s → performed n r (m s).2.

Lemma keeps_ret {T} (x : T) : keeps (cret x).
Proof. by intros s. Qed.

Lemma keeps_creq : keeps creq.
Proof. by intros s. Qed.

Lemma keeps_bind {T U} (m : call W T) (k : T → call W U) : keeps m → (∀ x, keeps (k x)) → keeps (cbind m k).
Proof.
  intros Hm Hk s Hs. unfold cbind. destruct (Hm s Hs) as [H1 H2]. destruct (m s) as [[x|e] s1]; cbn in *; [|done].
  destruct (Hk x s1 H1) as [H3 H4]. split; [done|]. auto.
Qed.

Lemma keeps_assign f : (∀ r, external_kv_cleanup_steps (f r) = external_kv_cleanup_steps r) →
  (∀ r, external_kv_abort_requested (f r) = external_kv_abort_requested r) → keeps (cassign f).
Proof.
  intros Hf Hg s [H1 H2 H3 H4]. unfold performed. cbn. split; [split; cbn; rewrite ?Hf, ?Hg; done|by rewrite Hf].
Qed.

Lemma keeps_snapshot : keeps (run_cleanup_step "kv.layout" (snapshot strip)).
Proof.
  intros [r w] [Hfl Hnd Hk Hd]. unfold run_cleanup_step, performed. cbn in *. rewrite Hfl. cbn [negb].
  destruct (external_kv_cleanup_steps r !! "kv.layout") as [[|x]|] eqn:E; cbn; [by split|by split|]. split.
  - split; cbn; [done|done| |].
    + intros n Hn. destruct (decide (n = "kv.layout")) as [->|Hne]; [by rewrite lookup_insert_eq|]. rewrite !lookup_insert_ne by done. auto.
    + intros n x. destruct (decide (n = "kv.layout")) as [->|Hne]; [by left|]. rewrite !lookup_insert_ne by done. apply Hd.
  - intros n x Hx. rewrite !lookup_insert_ne; [done|congruence..].
Qed.

(** The state after a step that may have had an effect. *)
Lemma tracked_set name v s s' : tracked s → external_kv_cleanup_steps s.1 !! name = None →
  external_kv_cleanup_steps s'.1 = <[ name := v ]> (external_kv_cleanup_steps s.1) →
  external_kv_abort_requested s'.1 = true → effects s'.2 = effects s.2 ++ [name] →
  tracked s' ∧ ∀ n r, performed n r s → performed n r s'.
Proof.
  intros [Hfl Hnd Hk Hd] E Es Ef Ee. assert (name ∉ effects s.2) as Hnin by (intros Hin; destruct (Hk _ Hin); congruence). split; [split|].
  - done.
  - rewrite Ee. apply NoDup_app. split; [done|]. split; [set_solver|apply NoDup_singleton].
  - intros n. rewrite Ee, Es. intros [Hn| ->%list_elem_of_singleton]%elem_of_app; [|by rewrite lookup_insert_eq].
    rewrite lookup_insert_ne; [auto|by intros ->].
  - intros n r. rewrite Ee, Es. destruct (decide (n = name)) as [->|Hn]; [right; set_solver|].
    rewrite lookup_insert_ne by done. intros Hy. destruct (Hd n r Hy) as [->|?]; [by left|right; set_solver].
  - intros n r Hr. unfold performed in *. rewrite Es, lookup_insert_ne; [done|congruence].
Qed.

Lemma keeps_step name action : step_of name action → keeps (run_cleanup_step name action).
Proof.
  intros [Hst Hfl' Hef Hre] [r w] Ht. pose proof Ht as [Hfl _ _ _]. unfold run_cleanup_step. cbn [fst snd] in *. rewrite Hfl. cbn [negb].
  destruct (external_kv_cleanup_steps r !! name) as [[|x]|] eqn:E; [by split|by split|].
  set (s0 := (set_steps <[ name := StepUnknown ]> r, w)). specialize (Hst s0). specialize (Hfl' s0). specialize (Hef s0). specialize (Hre s0).
  destruct (action s0) as [[x|e] [r1 w1]] eqn:Ea; cbn [fst snd s0 set_steps external_kv_cleanup_steps external_kv_abort_requested] in *.
  - apply (tracked_set name (StepDone x) (r, w)); [done|done| |cbn; congruence|by apply Hef]. cbn. by rewrite Hst, insert_insert_eq.
  - destruct (decide (e = RetryableCleanupError)) as [->|Hne].
    + destruct Ht as [_ Hnd Hk Hd]. assert (delete name (external_kv_cleanup_steps r1) = external_kv_cleanup_steps r) as Es.
      { rewrite Hst, delete_insert_eq. by apply delete_id. }
      unfold performed. cbn. split; [|by rewrite Es]. split; cbn; rewrite ?Es, ?Hre by done; [congruence|done..].
    + assert (tracked (r1, w1) ∧ ∀ n x, performed n x (r, w) → performed n x (r1, w1)) as Hk.
      { apply (tracked_set name StepUnknown (r, w)); [done|done|done|cbn; congruence|]. apply Hef. congruence. }
      destruct e; done.
Qed.

(** A step that returned is done. *)
Lemma step_performed name action s x s' : tracked s →
  run_cleanup_step name action s = (Ok x, s') → performed name x s'.
Proof.
  intros [Hfl _ _ _] E. unfold run_cleanup_step in E. rewrite Hfl in E. cbn [negb] in E.
  destruct (external_kv_cleanup_steps s.1 !! name) as [[|y]|] eqn:Es; [done|by injection E as <- <-|].
  destruct (action _) as [[y|e] s1]; [|by destruct e]. injection E as <- <-. unfold performed. cbn. by rewrite lookup_insert_eq.
Qed.

Lemma keeps_release_steps ckpt a b c : keeps (release_steps o ckpt a b c).
Proof.
  destruct Ho. unfold release_steps. repeat (apply keeps_bind; [by apply keeps_step || by apply keeps_assign|intros ?]). by apply keeps_assign.
Qed.

Lemma refresh_steps r : external_kv_cleanup_steps (refresh_fill_ids r) = external_kv_cleanup_steps r ∧
  external_kv_abort_requested (refresh_fill_ids r) = external_kv_abort_requested r.
Proof. unfold refresh_fill_ids. by destruct (_ && _ && _). Qed.

Lemma keeps_checkpoint_step (b : bool) n : keeps (if b then
    cbind (cassign refresh_fill_ids) (λ _, cbind (run_cleanup_step "kv.checkpoint" (op_checkpoint o n)) (λ _, cret tt)) else cret tt).
Proof.
  destruct b; [|apply keeps_ret]. apply keeps_bind; [apply keeps_assign; apply refresh_steps|intros _].
  apply keeps_bind; [apply keeps_step, Ho|intros _; apply keeps_ret].
Qed.

Lemma keeps_release_unclaimed ckpt a b c : keeps (release_unclaimed o ckpt a b c).
Proof. apply keeps_bind; [apply keeps_creq|intros r]. apply keeps_bind; [apply keeps_checkpoint_step|intros _]. apply keeps_release_steps. Qed.

Lemma keeps_release_layout ckpt layout : keeps (release_layout o ckpt layout).
Proof.
  assert (keeps (cbind creq (λ r, if holds_mamba (kv r) then cbind (run_cleanup_step "kv.early_mamba" (op_early_mamba o)) (λ _, cassign clear_mamba) else cret tt))) as Hearly.
  { apply keeps_bind; [apply keeps_creq|intros r]. destruct (holds_mamba (kv r)); [|apply keeps_ret].
    apply keeps_bind; [apply keeps_step, Ho|intros _]. by apply keeps_assign. }
  destruct layout as [| |[[[owned allocated] protected]|]]; try exact Hearly.
  apply keeps_bind; [apply keeps_step, Ho|intros claimed]. destruct (truthy claimed); [apply keeps_ret|apply keeps_release_unclaimed].
Qed.

Lemma keeps_release_aborted ckpt : keeps (_release_aborted_kv_cache o strip ckpt).
Proof. apply keeps_bind; [apply keeps_snapshot|apply keeps_release_layout]. Qed.

(** Attempts, with the rest of the system moving in between. *)
Inductive attempts : KvReq * W → KvReq * W → Prop :=
  | at_none s : attempts s s
  | at_release s ckpt s' : attempts (_release_aborted_kv_cache o strip ckpt s).2 s' → attempts s s'
  | at_other s s1 s' :
      external_kv_cleanup_steps s1.1 = external_kv_cleanup_steps s.1 → external_kv_abort_requested s1.1 = external_kv_abort_requested s.1 →
      effects s1.2 = effects s.2 → attempts s1 s' → attempts s s'.

Lemma attempts_tracked s s' : attempts s s' → tracked s → tracked s'.
Proof.
  induction 1 as [s|s ckpt s' _ IH|s s1 s' E1 E2 E3 _ IH]; [done|intros Ht; by apply IH, keeps_release_aborted|].
  intros [H1 H2 H3 H4]. apply IH. split; [congruence|congruence| |].
  - intros n. rewrite E1, E3. apply H3.
  - intros n r. rewrite E1, E3. apply H4.
Qed.

(** ** A successful attempt *)

Lemma cbind_Ok {T U} (m : call W T) (k : T → call W U) s y s' :
  cbind m k s = (Ok y, s') → ∃ x s1, m s = (Ok x, s1) ∧ k x s1 = (Ok y, s').
Proof. unfold cbind. destruct (m s) as [[x|e] s1]; [by exists x, s1|done]. Qed.

Definition step_names : list string := ["kv.row"; "kv.unlock"; "kv.overallocated"; "kv.on_release"; "kv.donated_swa"; "kv.request_slot"].

Lemma peel_step name act {U} (k : step_result → call W U) s y s' :
  step_of name act → (∀ x, keeps (k x)) → tracked s → cbind (run_cleanup_step name act) k s = (Ok y, s') →
  ∃ x s1, performed name x s' ∧ tracked s1 ∧ k x s1 = (Ok y, s').
Proof.
  intros Ha Hk Ht (x & s1 & E1 & E)%cbind_Ok. destruct (keeps_step name act Ha s Ht) as [Ht1 _]. rewrite E1 in Ht1. cbn in Ht1. exists x, s1.
  split; [|done]. pose proof (step_performed name act s x s1 Ht E1) as Hp. destruct (Hk x s1 Ht1) as [_ H]. rewrite E in H. by apply H.
Qed.

Lemma peel_assign f {U} (k : unit → call W U) s y s' : keeps (cassign f) → tracked s → cbind (cassign f) k s = (Ok y, s') →
  ∃ x s1, tracked s1 ∧ k x s1 = (Ok y, s').
Proof. intros Hf Ht (x & s1 & E1 & E)%cbind_Ok. exists x, s1. split; [|done]. destruct (Hf s Ht) as [H _]. by rewrite E1 in H. Qed.

Ltac solve_keeps := intros ?; repeat (apply keeps_bind; [by apply keeps_step || by apply keeps_assign|intros ?]); by apply keeps_assign.

Lemma release_steps_all ckpt a b c s s' : tracked s → release_steps o ckpt a b c s = (Ok tt, s') →
  ∀ n, n ∈ step_names → ∃ x, performed n x s'.
Proof.
  intros Ht E. destruct Ho. unfold release_steps in E.
  apply peel_step in E as (? & s1 & P1 & Ht1 & E); [|done|solve_keeps|done].
  apply peel_step in E as (? & s2 & P2 & Ht2 & E); [|done|solve_keeps|done].
  apply peel_assign in E as (? & s3 & Ht3 & E); [|by apply keeps_assign|done].
  apply peel_step in E as (? & s4 & P3 & Ht4 & E); [|done|solve_keeps|done].
  apply peel_step in E as (? & s5 & P4 & Ht5 & E); [|done|solve_keeps|done].
  apply peel_step in E as (? & s6 & P5 & Ht6 & E); [|done|solve_keeps|done].
  apply peel_step in E as (? & s7 & P6 & Ht7 & E); [|done|solve_keeps|done].
  intros n Hn. unfold step_names in Hn. rewrite !elem_of_cons in Hn. destruct Hn as [->|[->|[->|[->|[->|[->|Hn]]]]]]; eauto. by apply elem_of_nil in Hn.
Qed.

Lemma release_aborted_all ckpt s s' l : tracked s → _release_aborted_kv_cache o strip ckpt s = (Ok tt, s') →
  performed "kv.layout" (RLayout (Some l)) s' → performed "kv.claim" (RBool false) s' → ∀ n, n ∈ step_names → ∃ x, performed n x s'.
Proof.
  intros Ht (lay & s1 & E1 & E)%cbind_Ok Hlay Hcl.
  destruct (keeps_snapshot s Ht) as [Ht1 _]. pose proof (step_performed _ _ _ _ _ Ht E1) as P1. rewrite E1 in Ht1. cbn [snd] in Ht1.
  destruct (keeps_release_layout ckpt lay s1 Ht1) as [_ Hm]. rewrite E in Hm. apply Hm in P1. cbn in P1. unfold performed in P1, Hlay.
  rewrite Hlay in P1. injection P1 as <-. destruct l as [[owned allocated] protected]. cbn [release_layout] in E.
  apply peel_step in E as (cl & s2 & P2 & Ht2 & E); [|apply Ho|intros x; destruct (truthy x); [apply keeps_ret|apply keeps_release_unclaimed]|done].
  unfold performed in P2, Hcl. rewrite Hcl in P2. injection P2 as <-. cbn [truthy] in E.
  apply cbind_Ok in E as (r & s3 & [= <- <-] & E). apply cbind_Ok in E as ([] & s4 & E4 & E).
  eapply release_steps_all; [|exact E].
  destruct (keeps_checkpoint_step (ckpt && negb (skip_radix_cache_insert s2.1)) owned s2 Ht2) as [Ht4 _]. by rewrite E4 in Ht4.
Qed.

Lemma tracked_init r w : external_kv_abort_requested r = true → external_kv_cleanup_steps r = ∅ → effects w = [] → tracked (r, w).
Proof.
  intros Hf Hs He. split; cbn; [done|by rewrite He; constructor| |by rewrite Hs]. intros n. rewrite He. by intros ?%elem_of_nil.
Qed.

(** C35: however often the release of an aborted request is attempted, with
    or without a checkpoint and with the rest of the system moving in between, no
    step that may have changed the ownership of memory runs twice: retries
    skip what is done and stop at what failed with unknown effect. *)
Theorem cleanup_at_most_once r w s' :
  external_kv_abort_requested r = true → external_kv_cleanup_steps r = ∅ → effects w = [] →
  attempts (r, w) s' → NoDup (effects s'.2).
Proof.
  intros Hf Hs He Ha. exact (tk_once _ (attempts_tracked _ _ Ha (tracked_init r w Hf Hs He))).
Qed.

(** When an attempt on a request with a row that the tree did not claim
    returns, every step of the release (the row's tail, the lock, the
    overallocated slots, the tree's own state, the donated slots and the request
    slot) has run exactly once over all attempts. *)
Theorem cleanup_complete r w s ckpt s' l :
  external_kv_abort_requested r = true → external_kv_cleanup_steps r = ∅ → effects w = [] →
  attempts (r, w) s → _release_aborted_kv_cache o strip ckpt s = (Ok tt, s') →
  external_kv_cleanup_steps s'.1 !! "kv.layout" = Some (StepDone (RLayout (Some l))) →
  external_kv_cleanup_steps s'.1 !! "kv.claim" = Some (StepDone (RBool false)) →
  NoDup (effects s'.2) ∧ ∀ n, n ∈ step_names → n ∈ effects s'.2.
Proof.
  intros Hf Hs He Ha E Hlay Hcl. pose proof (attempts_tracked _ _ Ha (tracked_init r w Hf Hs He)) as Ht. destruct (keeps_release_aborted ckpt s Ht) as [Ht' _]. rewrite E in Ht'. cbn [snd] in Ht'.
  split; [by apply Ht'|]. intros n Hn. destruct (release_aborted_all ckpt s s' l Ht E Hlay Hcl n Hn) as [x Hx].
  destruct (tk_done _ Ht' n x Hx) as [->|?]; [|done]. unfold step_names in Hn. set_solver.
Qed.
End once.

(** ** A script of failures *)

Module Script.
Inductive outcome := Fine | Retry | Broken.
Definition state : Type := list string * list outcome.

Definition logged (name : string) (v : step_result) : call state step_result := λ s,
  let '(r, (log, script)) := s in
  match script with
  | Retry :: rest => (Raise RetryableCleanupError, (r, (log, rest)))
  | Broken :: rest => (Raise RuntimeError, (r, (log ++ [name], rest)))
  | Fine :: rest => (Ok v, (r, (log ++ [name], rest)))
  | [] => (Ok v, (r, (log ++ [name], [])))
  end.

Definition ops : cleanup_ops state :=
  mkOps state (logged "kv.early_mamba" RUnit) (logged "kv.claim" (RBool false)) (λ _, logged "kv.checkpoint" RUnit)
    (λ _, logged "kv.row" RUnit) (logged "kv.unlock" RUnit) (λ _ _, logged "kv.overallocated" RUnit)
    (λ _, logged "kv.on_release" RUnit) (logged "kv.donated_swa" RUnit) (logged "kv.request_slot" RUnit).

Lemma logged_step name v : step_of fst name (logged name v).
Proof. split; intros [r [log [|[] rest]]]; cbn; done. Qed.

Lemma ops_lawful : lawful fst ops.
Proof. split; intros; apply logged_step. Qed.

Definition aborted : KvReq :=
  mkKvReq "x" [1; 2; 3] [] [1; 2; 3] true false None None None 0 None true false false 3 0 None (Some 0%nat) 0 true ∅
    (mkKv (Some 1%nat) 0 0 3 3 0 [] None).

(** The claim fails and is retried; the second attempt stops at the unlock, which
    is retried too; the third attempt succeeds. *)
Definition start : KvReq * state := (aborted, ([], [Retry; Fine; Fine; Retry])).
Definition once : KvReq * state := (_release_aborted_kv_cache ops false false start).2.
Definition twice : KvReq * state := (_release_aborted_kv_cache ops false false once).2.
Definition thrice : KvReq * state := (_release_aborted_kv_cache ops false false twice).2.

(** With an unlock of unknown effect no attempt gets past it. *)
Example broken_unlock :
  let s1 := _release_aborted_kv_cache ops false false (aborted, ([], [Fine; Fine; Broken])) in
  let s2 := _release_aborted_kv_cache ops false false s1.2 in
  s1.1 = Raise RuntimeError ∧ s2 = (Raise CleanupOutcomeUnknown, s1.2) ∧ s2.2.2.1 = ["kv.claim"; "kv.row"; "kv.unlock"].
Proof. by vm_compute. Qed.
End Script.

Lemma cleanup_at_most_once_witness : NoDup Script.thrice.2.1 ∧ length Script.thrice.2.1 = 7%nat.
Proof.
  split; [|by vm_compute].
  apply (cleanup_at_most_once fst Script.ops Script.ops_lawful false Script.aborted Script.start.2); [reflexivity..|].
  apply (at_release _ _ _ _ false), (at_release _ _ _ _ false), (at_release _ _ _ _ false), at_none.
Defined.

Lemma cleanup_complete_witness : NoDup Script.thrice.2.1 ∧ ∀ n, n ∈ step_names → n ∈ Script.thrice.2.1.
Proof.
  apply (cleanup_complete fst Script.ops Script.ops_lawful false Script.aborted Script.start.2 Script.twice false Script.thrice (3, 3, 0)); [reflexivity|reflexivity|reflexivity| |vm_compute; reflexivity..].
  apply (at_release _ _ _ _ false), (at_release _ _ _ _ false), at_none.
Defined.
