(* ===== verification/KvCases.v ===== *)
(** * A run of the scheduler

    Sixteen slots, pages of one slot, three rows of twelve entries.  Request [ra]
    is admitted, prefilled and checkpointed, gets a token and a decode slot; then
    [rb], which shares three tokens with it, is admitted and prefilled. *)
From S2P Require Import Prelude RadixKey EvictPolicy RadixCache RadixInv RadixOps RadixInsert RadixLock RadixEvict RadixSpec RadixTheorems RadixClient TokenAllocator PagedKernels PagedAllocator KvRow KvTheorems KvRelease KvSystem KvAlloc KvPlace KvExtend KvDecode InvariantChecker KvChecks KvLife Cleanup.

Definition get {T} (d : T) (m : result T) : T := match m with Ok x => x | Raise _ => d end.

Module Demo.
#[local] Instance pages : PagePool Token.TokenToKVPoolAllocator := token_kv_pool 16.
#[local] Instance slots : SlotPool Token.TokenToKVPoolAllocator := token_slots 16.

Definition cfg : cache_config := mkConfig false 1 false LRUStrategy.
Definition leaves_of (c : RadixCache) : list nat := elements (evictable_leaves c).
Definition free_full (a : Token.TokenToKVPoolAllocator) (seg : list Z) (start : Z) : result Token.TokenToKVPoolAllocator := Raise NotImplementedError.
Definition c0 : RadixCache := mkCache ∅ 0 0 0 0 0 ∅ [].
Definition a0 : Token.TokenToKVPoolAllocator := Token.init 16 false.

Definition request (rid : string) (ids : list Z) : KvReq :=
  mkKvReq rid ids [] ids true false None None None 0 None false false false 0 0 None None 0 false ∅
    (mkKv None 0 0 0 0 0 [] None).
Definition ra : KvReq := request "a" [1; 2; 3; 4; 5].
Definition rb : KvReq := request "b" [1; 2; 3; 9].

Abbreviation step := (sched_step Run.clk cfg free_full leaves_of 20 12).
Abbreviation reachable := (sched_reachable Run.clk cfg free_full leaves_of 20 3 12 c0 a0).
Definition s0 : sched Token.TokenToKVPoolAllocator := sched_init Run.clk 3 12 c0 a0.
Definition w0 : world Token.TokenToKVPoolAllocator := s_world s0.

Definition extend (w : world Token.TokenToKVPoolAllocator) (l : list KvReq) : list Z * list KvReq * world Token.TokenToKVPoolAllocator :=
  get ([], l, w) (alloc_for_extend cfg leaves_of l w).
Definition decode (w : world Token.TokenToKVPoolAllocator) (l : list KvReq) : list Z * list KvReq * world Token.TokenToKVPoolAllocator :=
  get ([], l, w) (alloc_for_decode cfg leaves_of l ((λ r, kv_allocated_len (kv r)) <$> l) w).

Definition m1 := get (ra, w0) (init_next_round_input Run.clk cfg false [] ra w0).
Definition x1 := get (ra, w0) (lock_admitted cfg 5 m1.1 m1.2).
Definition x2 := extend x1.2 [x1.1].
Definition r2 := default ra (head x2.1.2).
Definition x3 := get (ra, w0) (checkpoint_kv_cache Run.clk cfg r2 x2.2).
Definition r4 := append_output 7 None false x3.1.
Definition x5 := decode x3.2 [r4].
Definition m6 := get (rb, w0) (init_next_round_input Run.clk cfg false [] rb x5.2).
Definition x6 := get (rb, w0) (lock_admitted cfg 1 m6.1 m6.2).
Definition x7 := extend x6.2 [x6.1].
Definition running : list KvReq := x7.1.2 ++ x5.1.2.
Definition s1 : sched Token.TokenToKVPoolAllocator := mkSched x7.2 running [].

Example run_values :
  x2.1.1 = [1; 2; 3; 4; 5] ∧ x5.1.1 = [6] ∧ x7.1.1 = [7] ∧
  (cache_protected_len ∘ kv <$> running) = [3; 5] ∧ (kv_allocated_len ∘ kv <$> running) = [4; 6] ∧
  pool_available (pool x7.2) = 9.
Proof. vm_compute. done. Qed.

Lemma fresh_request rid ids : fresh (request rid ids).
Proof. by split. Qed.

Lemma reach_ra : rtc step s0 (mkSched x2.2 (x2.1.2 ++ []) []).
Proof.
  eapply rtc_l; [apply (ss_arrive _ _ _ _ _ _ w0 [] [] ra (fresh_request _ _))|].
  eapply rtc_l; [eapply (ss_admit _ _ _ _ _ _ w0 [] [] ra [] false [] 5 m1.1 m1.2 x1.1 x1.2)|].
  - by vm_compute.
  - by vm_compute.
  - by vm_compute.
  - eapply rtc_l; [eapply (ss_extend _ _ _ _ _ _ x1.2 [x1.1] [] [] x2.1.1 x2.1.2 x2.2)|apply rtc_refl].
    + intros r ->%list_elem_of_singleton Hh. by vm_compute in Hh.
    + by vm_compute.
Qed.

(** [ra] has its first token and is about to be decoded. *)
Abbreviation s3 := (mkSched x3.2 ([] ++ r4 :: []) []).

Lemma reach_first : reachable s3.
Proof.
  unfold sched_reachable. fold s0. etrans; [apply reach_ra|]. rewrite app_nil_r.
  assert (x2.1.2 = [] ++ r2 :: []) as -> by (by vm_compute).
  eapply rtc_l; [eapply (ss_checkpoint _ _ _ _ _ _ x2.2 [] r2 [] [] x3.1 x3.2); by vm_compute|].
  eapply rtc_l; [eapply (ss_output _ _ _ _ _ _ x3.2 [] x3.1 [] [] 7 None false); by vm_compute|apply rtc_refl].
Qed.

(** [rb] is admitted and about to be prefilled. *)
Abbreviation s6 := (mkSched x6.2 ([x6.1] ++ x5.1.2) []).

Lemma reach_decode : step s3 (mkSched x5.2 (x5.1.2 ++ []) []).
Proof.
  eapply (ss_decode _ _ _ _ _ _ x3.2 [r4] [] [] x5.1.1 x5.1.2 x5.2).
  - intros r ->%list_elem_of_singleton. by vm_compute.
  - by vm_compute.
Qed.

Lemma reach_rb : rtc step (mkSched x5.2 x5.1.2 []) s6.
Proof.
  eapply rtc_l; [apply (ss_arrive _ _ _ _ _ _ x5.2 x5.1.2 [] rb (fresh_request _ _))|].
  eapply rtc_l; [eapply (ss_admit _ _ _ _ _ _ x5.2 x5.1.2 [] rb [] false [] 1 m6.1 m6.2 x6.1 x6.2); by vm_compute|].
  eapply rtc_l; [eapply (ss_order _ _ _ _ _ _ x6.2 (x5.1.2 ++ [x6.1]) ([x6.1] ++ x5.1.2) ([] ++ []) []); [apply Permutation_app_comm|done]|apply rtc_refl].
Qed.

Lemma reach_admitted : reachable s6.
Proof.
  unfold sched_reachable. fold s0. etrans; [apply reach_first|]. eapply rtc_l; [apply reach_decode|]. rewrite app_nil_r. apply reach_rb.
Qed.

Lemma reach_both : reachable s1.
Proof.
  unfold sched_reachable. fold s0. etrans; [apply reach_admitted|]. unfold s1, running.
  eapply rtc_l; [eapply (ss_extend _ _ _ _ _ _ x6.2 [x6.1] x5.1.2 [] x7.1.1 x7.1.2 x7.2)|apply rtc_refl].
  - intros r ->%list_elem_of_singleton Hh. by vm_compute in Hh.
  - by vm_compute.
Qed.

Lemma owns0 : owns a0 [].
Proof. split; [apply Token.wf_clear|by split]. Qed.

(** Both requests are in the running batch, which is also the last one. *)
Definition objs : list (nat * KvReq) := zip [1%nat; 2%nat] running.

Lemma seen : visible objs (Some (9%nat, objs)) (Some (9%nat, objs)) None.
Proof.
  split.
  - assert (objs.*1 = [1; 2]%nat) as -> by (by vm_compute). repeat constructor; set_solver.
  - congruence.
  - intros o. unfold batch_members. cbn [snd option_list]. generalize objs. intros l. rewrite app_nil_r, elem_of_app. by intros [|].
  - intros o Ho _. apply elem_of_app. by left.
Qed.

Lemma leaves_ok c : leaves_of c ≡ₚ elements (evictable_leaves c).
Proof. done. Qed.
End Demo.


(** ** The properties on this run *)

#[local] Existing Instance Demo.pages.
#[local] Existing Instance Demo.slots.

Lemma sched_invariant_witness : sched_ok Run.clk Demo.cfg 3 12 Demo.s1.
Proof. apply (sched_invariant Run.clk Demo.cfg Demo.free_full Demo.leaves_of 20 3 12 eq_refl eq_refl Demo.leaves_ok Demo.c0 Demo.a0 Demo.s1 Demo.owns0 eq_refl Demo.reach_both). Defined.

Lemma busy_check_passes_witness :
  self_check_during_busy Demo.cfg 16 (Some (9%nat, Demo.objs)) (Some (9%nat, Demo.objs)) None (s_world Demo.s1) = Ok tt.
Proof. apply (busy_check_passes Run.clk Demo.cfg Demo.free_full Demo.leaves_of 20 3 12 eq_refl eq_refl Demo.leaves_ok Demo.c0 Demo.a0 Demo.s1 Demo.objs _ _ None Demo.owns0 eq_refl Demo.reach_both); [by vm_compute|apply Demo.seen]. Defined.

Lemma no_use_after_free_witness :
  _check_kv_page_invariants 12 (_requests_owning_rows (Some (9%nat, Demo.objs)) (Some (9%nat, Demo.objs)) None) (s_world Demo.s1) = Ok (0, []).
Proof. apply (no_use_after_free Run.clk Demo.cfg Demo.free_full Demo.leaves_of 20 3 12 eq_refl eq_refl Demo.leaves_ok Demo.c0 Demo.a0 Demo.s1 Demo.objs _ _ None Demo.owns0 eq_refl Demo.reach_both); [by vm_compute|apply Demo.seen]. Defined.

(** Where [rb] is admitted and has no row yet, and where both requests run. *)
Lemma drain_no_leak_witness :
  (∃ w1 w2 : world Token.TokenToKVPoolAllocator, rtc Demo.step Demo.s6 (mkSched w1 [Demo.x6.1] []) ∧
     rtc Demo.step (mkSched w1 [Demo.x6.1] []) (mkSched w2 [Demo.x6.1] []) ∧
     _check_all_pools 16 w1 = false ∧ _check_req_pool 3 0 w1 = false ∧ pool_available (pool w2) + protected_size (cache w2) = 16) ∧
  (∃ w1 w2 : world Token.TokenToKVPoolAllocator, rtc Demo.step Demo.s1 (mkSched w1 [] []) ∧ rtc Demo.step (mkSched w1 [] []) (mkSched w2 [] []) ∧
     _check_all_pools 16 w1 = false ∧ _check_req_pool 3 0 w1 = false ∧ pool_available (pool w2) = 16).
Proof.
  split.
  - pose proof (drain_no_leak Run.clk Demo.cfg Demo.free_full Demo.leaves_of 20 3 12 eq_refl eq_refl Demo.leaves_ok Demo.c0 Demo.a0 Demo.s6 Demo.owns0 eq_refl Demo.reach_admitted) as H.
    replace (rowless (s_running Demo.s6)) with [Demo.x6.1] in H by (vm_compute; reflexivity).
    destruct H as (w1 & w2 & Hr1 & Hr2 & H1 & H2 & H3 & _). exists w1, w2. exact (conj Hr1 (conj Hr2 (conj H1 (conj H2 H3)))).
  - pose proof (drain_no_leak Run.clk Demo.cfg Demo.free_full Demo.leaves_of 20 3 12 eq_refl eq_refl Demo.leaves_ok Demo.c0 Demo.a0 Demo.s1 Demo.owns0 eq_refl Demo.reach_both) as H.
    replace (rowless (s_running Demo.s1)) with (@nil KvReq) in H by (vm_compute; reflexivity).
    destruct H as (w1 & w2 & Hr1 & Hr2 & H1 & H2 & _ & H3). exists w1, w2. exact (conj Hr1 (conj Hr2 (conj H1 (conj H2 (proj2 (H3 eq_refl)))))).
Defined.

Lemma calls_return_witness : ∃ r' w',
  release_kv_cache Run.clk Demo.cfg Demo.free_full false false (default Demo.ra (head Demo.running)) true (s_world Demo.s1) = Ok (r', w') ∧ lock r' = None.
Proof.
  destruct (calls_return Run.clk Demo.cfg Demo.free_full Demo.leaves_of 20 3 12 eq_refl eq_refl Demo.leaves_ok Demo.c0 Demo.a0 Demo.s1 Demo.owns0 eq_refl Demo.reach_both) as (_ & _ & H).
  destruct (H (default Demo.ra (head Demo.running))) as [Hr _].
  - apply (list_elem_of_lookup_2 _ 0). by vm_compute.
  - by vm_compute.
  - destruct (Hr true) as (r' & w' & E & _ & _ & Hl). exists r', w'. exact (conj E Hl).
Defined.

(** Request [rb] as it runs in this state. *)
Definition running_b : KvReq := default Demo.ra (head Demo.running).

Lemma demo_reachable_ok s : sched_reachable Run.clk Demo.cfg Demo.free_full Demo.leaves_of 20 3 12 Demo.c0 Demo.a0 s → sched_ok Run.clk Demo.cfg 3 12 s.
Proof. apply (reachable_ok Run.clk Demo.cfg Demo.free_full Demo.leaves_of 20 3 12 eq_refl eq_refl Demo.leaves_ok Demo.c0 Demo.a0 s Demo.owns0 eq_refl). Qed.

(** The parts, for states written out. *)
Lemma demo_parts (w : world Token.TokenToKVPoolAllocator) rs q : sched_reachable Run.clk Demo.cfg Demo.free_full Demo.leaves_of 20 3 12 Demo.c0 Demo.a0 (mkSched w rs q) →
  sys_ok Run.clk Demo.cfg (seq 1 3) w rs ∧ rows_wide 12 (rows w).
Proof. intros [Hs _ _ Hw]%demo_reachable_ok. exact (conj Hs Hw). Qed.

Lemma demo_sys : sys_ok Run.clk Demo.cfg (seq 1 3) (s_world Demo.s1) ([] ++ running_b :: drop 1 Demo.running).
Proof.
  pose proof (sd_sys _ _ _ _ _ (demo_reachable_ok Demo.s1 Demo.reach_both)) as H. replace ([] ++ running_b :: drop 1 Demo.running) with (s_running Demo.s1); [exact H|].
  vm_compute. reflexivity.
Qed.

Lemma demo_kv : ∃ H row n, kv_ok Run.clk Demo.cfg (s_world Demo.s1) H running_b 2 row n
  (mjoin (own_pages Demo.cfg (s_world Demo.s1) <$> ([] ++ drop 1 Demo.running))).
Proof.
  destruct (running_row Run.clk Demo.cfg 3 (s_world Demo.s1) _ running_b demo_sys) as (idx & row & n & Hr); [apply elem_of_cons; left; reflexivity|by vm_compute|].
  destruct (sys_focus Run.clk Demo.cfg (seq 1 3) _ _ _ _ _ _ _ demo_sys Hr) as (H & Hok & _). exists H, row, n.
  replace 2%nat with idx; [exact Hok|]. destruct Hr as [Hi _ _ _ _ _ _ _ _ _]. vm_compute in Hi. congruence.
Qed.

Lemma checkpoint_stores_row_witness : ∃ r' w', checkpoint Run.clk Demo.cfg running_b 4 (s_world Demo.s1) = Ok (r', w') ∧ cache_protected_len (kv r') = 4.
Proof.
  destruct demo_kv as (H & row & n & Hok).
  destruct (checkpoint_stores_row Run.clk Demo.cfg eq_refl eq_refl (s_world Demo.s1) H running_b 2 row n _ 4 Hok) as (r' & w' & H' & row' & n' & E & _ & Ec & _).
  - by vm_compute.
  - by vm_compute.
  - by vm_compute.
  - exists r', w'. split; [exact E|]. rewrite Ec. vm_compute. reflexivity.
Defined.

Lemma release_returns_all_witness : ∃ r' w', release_kv_cache Run.clk Demo.cfg Demo.free_full false false running_b true (s_world Demo.s1) = Ok (r', w') ∧
  lock r' = None ∧ is_kv_released (kv r') = true.
Proof.
  destruct demo_kv as (H & row & n & Hok).
  destruct (release_returns_all Run.clk Demo.cfg Demo.free_full false false eq_refl eq_refl (s_world Demo.s1) H running_b 2 row n _ true Hok)
    as (r' & w' & E & [_ _ _ (Hl & _ & _ & Hr & _) _ _] & _).
  - split; try (by vm_compute). by exists [].
  - exists r', w'. exact (conj E (conj Hl Hr)).
Defined.

Lemma demo_sys6 : sys_ok Run.clk Demo.cfg (seq 1 3) Demo.x6.2 ([Demo.x6.1] ++ Demo.x5.1.2) ∧ rows_wide 12 (rows Demo.x6.2).
Proof. apply (demo_parts _ _ []), Demo.reach_admitted. Qed.

Lemma demo_sys3 : sys_ok Run.clk Demo.cfg (seq 1 3) Demo.x3.2 ([] ++ Demo.r4 :: []) ∧ rows_wide 12 (rows Demo.x3.2).
Proof. apply (demo_parts _ _ []), Demo.reach_first. Qed.

Lemma demo_extendable r : r ∈ [Demo.x6.1] → extendable Demo.x6.2 r ∧ k_extend_end r ≤ zlen (full_untruncated_fill_ids r).
Proof.
  intros ->%list_elem_of_singleton. split; [|by vm_compute]. split; [by vm_compute|intros Hh; by vm_compute in Hh|].
  intros i row Hi. rewrite (proj2 demo_sys6 i row Hi). by vm_compute.
Qed.

Lemma demo_decodable r : r ∈ [Demo.r4] → decodable Demo.x3.2 r.
Proof.
  intros ->%list_elem_of_singleton. split; [by vm_compute|by vm_compute|]. intros i row Hi.
  rewrite (proj2 demo_sys3 i row Hi). by vm_compute.
Qed.

Lemma extend_exact_witness :
  match alloc_for_extend Demo.cfg Demo.leaves_of [Demo.x6.1] Demo.x6.2 with
  | Ok (out, batch', w') => sys_ok Run.clk Demo.cfg (seq 1 3) w' (batch' ++ Demo.x5.1.2)
  | Raise e => e = RuntimeError
  end.
Proof.
  pose proof (extend_exact Run.clk Demo.cfg Demo.leaves_of Demo.leaves_ok eq_refl eq_refl (seq 1 3) (NoDup_seq 1 3)
    Demo.x6.2 [Demo.x6.1] Demo.x5.1.2 (proj1 demo_sys6) demo_extendable) as H.
  destruct (alloc_for_extend Demo.cfg Demo.leaves_of [Demo.x6.1] Demo.x6.2) as [[[out batch'] w']|e]; exact (proj1 H).
Defined.

Lemma decode_exact_witness :
  match alloc_for_decode Demo.cfg Demo.leaves_of [Demo.r4] ((λ r, kv_allocated_len (kv r)) <$> [Demo.r4]) Demo.x3.2 with
  | Ok (out, batch', w') => sys_ok Run.clk Demo.cfg (seq 1 3) w' (batch' ++ [])
  | Raise e => e = RuntimeError
  end.
Proof.
  pose proof (decode_exact Run.clk Demo.cfg Demo.leaves_of Demo.leaves_ok eq_refl eq_refl (seq 1 3) (NoDup_seq 1 3)
    Demo.x3.2 [Demo.r4] [] (proj1 demo_sys3) demo_decodable) as H.
  destruct (alloc_for_decode Demo.cfg Demo.leaves_of [Demo.r4] ((λ r, kv_allocated_len (kv r)) <$> [Demo.r4]) Demo.x3.2) as [[[out batch'] w']|e]; exact (proj1 H).
Defined.

(** The first running request, aborted. *)
Definition aborted_request : KvReq :=
  let r := running_b in
  mkKvReq (k_rid r) (k_origin_input_ids r) (k_output_ids r) (full_untruncated_fill_ids r) (fill_ids_is_origin r) (k_input_embeds r)
    (k_extra_key r) (k_cache_salt r) (k_priority r) (reasoning_tokens r) (finished_len r) (finished_reason r)
    (skip_radix_cache_insert r) (allow_radix_cache_insert_once r) (k_extend_end r) (k_prefix_len r) (k_last_node r)
    (lock r) (dsv4_donated_swa_len r) true ∅ (kv r).

Lemma abort_release_same_witness :
  let s := get (aborted_request, Demo.w0) (release_kv_cache Run.clk Demo.cfg Demo.free_full false false aborted_request false (s_world Demo.s1)) in
  ∃ M, release_kv_cache_any Run.clk Demo.cfg Demo.free_full false false false (aborted_request, s_world Demo.s1)
       = (Ok tt, (set_steps (λ _, M) s.1, s.2)).
Proof.
  intros s. apply (abort_release_same Run.clk Demo.cfg Demo.free_full false false aborted_request false (s_world Demo.s1) s.1 s.2);
    [reflexivity|reflexivity|reflexivity|vm_compute; reflexivity].
Defined.

(** ** Stripped thinking after a retraction

    With [strip_thinking_cache] a reasoning request reports only its prompt as
    its own.  A retracted request is prefilled again with the tokens it had
    generated, and its checkpoint stores them in the tree. *)
Module Strip.
(** Prompt [1; 2], retracted after the reasoning tokens 7 and 8. *)
Definition retracted : KvReq :=
  mkKvReq "t" [1; 2] [7; 8] [1; 2] false false None None None 2 None false false false 0 0 None None 0 false ∅
    (mkKv None 0 0 0 0 0 [] None).
Definition m1 := get (retracted, Demo.w0) (init_next_round_input Run.clk Demo.cfg false [] retracted Demo.w0).
Definition x1 := get (retracted, Demo.w0) (lock_admitted Demo.cfg 4 m1.1 m1.2).
Definition x2 := Demo.extend x1.2 [x1.1].
Definition x3 := get (retracted, Demo.w0) (checkpoint_kv_cache Run.clk Demo.cfg (default retracted (head x2.1.2)) x2.2).
Definition finished : KvReq := append_output 9 (Some 3) true x3.1.
Definition s : sched Token.TokenToKVPoolAllocator := mkSched x3.2 ([] ++ finished :: []) [].

Lemma reach_finished : sched_reachable Run.clk Demo.cfg Demo.free_full Demo.leaves_of 20 3 12 Demo.c0 Demo.a0 s.
Proof.
  unfold sched_reachable. fold Demo.s0.
  eapply rtc_l; [eapply (ss_arrive _ _ _ _ _ _ Demo.w0 [] [] retracted)|].
  { by split. }
  eapply rtc_l; [eapply (ss_admit _ _ _ _ _ _ Demo.w0 [] [] retracted [] false [] 4 m1.1 m1.2 x1.1 x1.2); by vm_compute|].
  eapply rtc_l; [eapply (ss_extend _ _ _ _ _ _ x1.2 [x1.1] [] _ x2.1.1 x2.1.2 x2.2)|].
  { intros r ->%list_elem_of_singleton Hh. by vm_compute in Hh. } { by vm_compute. }
  assert (x2.1.2 ++ [] = [] ++ default retracted (head x2.1.2) :: []) as -> by (by vm_compute).
  eapply rtc_l; [eapply (ss_checkpoint _ _ _ _ _ _ x2.2 [] _ [] _ x3.1 x3.2); by vm_compute|].
  eapply rtc_l; [eapply (ss_output _ _ _ _ _ _ x3.2 [] x3.1 [] _ 9 (Some 3) true); by vm_compute|apply rtc_refl].
Qed.
End Strip.

(** A reachable state in which releasing a finished reasoning request with
    [strip_thinking_cache] set returns normally and leaves two slots both free
    in the allocator and stored by the tree, where a later match would find
    them; without the option the same release leaves none. *)
Theorem strip_thinking_frees_cached :
  sched_reachable Run.clk Demo.cfg Demo.free_full Demo.leaves_of 20 3 12 Demo.c0 Demo.a0 Strip.s ∧
  Strip.finished ∈ s_running Strip.s ∧
  (∃ r' w', release_kv_cache Run.clk Demo.cfg Demo.free_full true false Strip.finished true (s_world Strip.s) = Ok (r', w') ∧
     filter (λ x, x ∈ tree_slots (cache w')) (Token.get_all_free_pages (pool w')) = [3; 4]) ∧
  (∃ r' w', release_kv_cache Run.clk Demo.cfg Demo.free_full false false Strip.finished true (s_world Strip.s) = Ok (r', w') ∧
     filter (λ x, x ∈ tree_slots (cache w')) (Token.get_all_free_pages (pool w')) = []).
Proof.
  split; [apply Strip.reach_finished|]. split; [apply elem_of_app; right; by left|].
  split; (eexists _, _; split; [vm_compute; reflexivity|vm_compute; reflexivity]).
Qed.
