(* ===== verification/KvRetract.v ===== *)
(** * Running out of slots ([ScheduleBatch.retract_decode], [update_running_batch])

    Before a decode step the scheduler checks that the batch's next tokens fit,
    evicting from the tree what it can.  When they do not, requests go back to the
    waiting queue, the least preferred first, until the rest fit; a last request
    that does not fit alone is aborted.  The queue may be bounded.  Here are the
    calls, on the plain pool, without beam groups, speculation or disaggregation. *)
From S2P Require Import Prelude RadixKey EvictPolicy RadixCache TokenAllocator PySort KvRow KvAlloc KvLife.
From Stdlib Require Import QArith Qminmax.
Open Scope Z_scope.

(** ** The ratio of new tokens ([new_token_ratio_tracker.py]) *)

Module NewTokenRatioTracker.
Record t := mk { init : Q; min : Q; decay : Q; current : Q }.

(** The two environment factors and the number of steps are arguments. *)
Definition from_config (init_new_token_ratio min_new_token_ratio_factor schedule_conservativeness : Q) (decay_steps : Z) : t :=
  let init := Qmin (init_new_token_ratio * schedule_conservativeness) 1 in
  let min_ratio := Qmin (init * min_new_token_ratio_factor) 1 in
  mk init min_ratio ((init - min_ratio) / inject_Z decay_steps) init.

Definition decay_step (x : t) : t := mk (init x) (min x) (decay x) (Qmax (current x - decay x) (min x)).
Definition reset (x : t) : t := mk (init x) (min x) (decay x) (init x).
Definition set_current (q : Q) (x : t) : t := mk (init x) (min x) (decay x) q.

(** [max_new_tokens] reads the sampling parameters of a request. *)
Definition estimate_new_token_ratio_after_retract (max_new_tokens : KvReq → Z) (decode_steps : Z) (reqs : list KvReq) : Q :=
  let total_decoded_tokens := zsum ((λ r, zlen (k_output_ids r)) <$> reqs) in
  let total_max_new_tokens := zsum (max_new_tokens <$> reqs) in
  Qmin 1 (inject_Z (total_decoded_tokens + decode_steps * zlen reqs) / inject_Z (total_max_new_tokens + 1)).
End NewTokenRatioTracker.

(** ** The decode batch *)

Record ScheduleBatch := mkBatch {
  b_reqs : list KvReq;
  b_seq_lens : list Z;              (* seq_lens_cpu *)
  b_out_cache_loc : option (list Z);
  batch_is_full : bool
}.

Definition batch_size (b : ScheduleBatch) : Z := zlen (b_reqs b).
Definition is_empty (b : ScheduleBatch) : bool := zlen (b_reqs b) =? 0.
Definition set_full (f : bool) (b : ScheduleBatch) : ScheduleBatch :=
  mkBatch (b_reqs b) (b_seq_lens b) (b_out_cache_loc b) f.
Definition set_req (i : nat) (r : KvReq) (b : ScheduleBatch) : ScheduleBatch :=
  mkBatch (<[i := r]> (b_reqs b)) (b_seq_lens b) (b_out_cache_loc b) (batch_is_full b).

(** [l[i]] for an index that is not negative. *)
Definition at_index {B} (l : list B) (i : nat) : result B := match l !! i with Some x => Ok x | None => Raise IndexError end.
(** [[l[i] for i in indices]]. *)
Definition select {B} (l : list B) (indices : list nat) : result (list B) := mapR (at_index l) indices.

(** The indices [filter_batch] keeps when it is not given them; requests are
    told apart by [rid]. *)
Definition stays (reqs_to_exclude : list string) (reqs : list KvReq) (i : nat) : bool :=
  match reqs !! i with
  | Some r => negb (finished_reason r) && bool_decide (k_rid r ∉ reqs_to_exclude)
  | None => false
  end.
Definition keep_indices_of (reqs_to_exclude : list string) (reqs : list KvReq) : list nat :=
  filter (λ i, stays reqs_to_exclude reqs i = true) (seq 0 (length reqs)).

Definition filter_batch (keep_indices : list nat) (b : ScheduleBatch) : result ScheduleBatch :=
  if (length keep_indices =? 0)%nat then Ok (mkBatch [] (b_seq_lens b) (b_out_cache_loc b) (batch_is_full b))
  else if (length keep_indices =? length (b_reqs b))%nat then Ok b
  else
    let! reqs := select (b_reqs b) keep_indices in
    let! seq_lens := select (b_seq_lens b) keep_indices in
    Ok (mkBatch reqs seq_lens None (batch_is_full b)).

(** ** Settings the code reads *)

Record sched_config := {
  retraction_by_priority : bool;    (* retraction_policy == "priority" *)
  schedule_low_priority_values_first : bool;
  enable_priority_scheduling : bool;
  abort_on_priority_when_disabled : bool;
  max_queued_requests : option Z;
  enable_skip_finishing_decode : bool;
  retract_decode_steps : Z          (* SGLANG_RETRACT_DECODE_STEPS *)
}.

(** ** The order of retraction *)

Definition length_key (r : KvReq) : Z * Z := (zlen (k_output_ids r), - zlen (k_origin_input_ids r)).

Definition default_priority (sc : sched_config) : Z :=
  if schedule_low_priority_values_first sc then maxsize else - maxsize - 1.

Definition retraction_key (sc : sched_config) (r : KvReq) : Z * (Z * Z) :=
  let priority_sign := if schedule_low_priority_values_first sc then 1 else -1 in
  (default (default_priority sc) (k_priority r) * (- priority_sign), length_key r).

(** [sort(key=..., reverse=True)] is stable too. *)
Definition sort_reverse {B K} (leb : K → K → bool) (key : B → K) (l : list B) : list B := py_sort (λ a b, leb b a) key l.

(** Requests are looked up by index, so the key of an index is that of its request. *)
Definition index_key {K} (key : KvReq → K) (reqs : list KvReq) (i : nat) : option K := key <$> reqs !! i.
Definition opt_leb {K} (leb : K → K → bool) (a b : option K) : bool :=
  match a, b with Some x, Some y => leb x y | None, _ => true | _, _ => false end.

Definition _get_decode_retraction_order (sc : sched_config) (reqs : list KvReq) : list nat :=
  let sorted_indices := seq 0 (length reqs) in
  if retraction_by_priority sc then
    sort_reverse (opt_leb (pair_leb Z.leb (pair_leb Z.leb Z.leb))) (index_key (retraction_key sc) reqs) sorted_indices
  else sort_reverse (opt_leb (pair_leb Z.leb Z.leb)) (index_key length_key reqs) sorted_indices.

(** ** The waiting queue *)

Section queue.
Context (sc : sched_config).
(** The time stamps of the queued requests, by [rid]. *)
Context (wait_queue_entry_time : string → Z).

Definition set_priority (p : Z) (r : KvReq) : KvReq :=
  mkKvReq (k_rid r) (k_origin_input_ids r) (k_output_ids r) (full_untruncated_fill_ids r) (fill_ids_is_origin r) (k_input_embeds r)
    (k_extra_key r) (k_cache_salt r) (Some p) (reasoning_tokens r) (finished_len r) (finished_reason r)
    (skip_radix_cache_insert r) (allow_radix_cache_insert_once r) (k_extend_end r) (k_prefix_len r) (k_last_node r)
    (lock r) (dsv4_donated_swa_len r) (external_kv_abort_requested r) (external_kv_cleanup_steps r) (kv r).

(** The request with its default priority, or [None] when it is refused. *)
Definition _set_or_validate_priority (r : KvReq) : option KvReq :=
  match k_priority r with
  | None => Some (if enable_priority_scheduling sc then set_priority (default_priority sc) r else r)
  | Some _ => if negb (enable_priority_scheduling sc) && abort_on_priority_when_disabled sc then None else Some r
  end.

(** A comparison of priorities fails on [None]. *)
Definition priority_of (r : KvReq) : result Z := match k_priority r with Some p => Ok p | None => Raise TypeError end.

Definition queue_key (direction : Z) (r : KvReq) : result (Z * Z) :=
  let! p := priority_of r in Ok (direction * p, wait_queue_entry_time (k_rid r)).

(** [max(enumerate(queue), key=...)]: the first of the largest. *)
Fixpoint max_by (direction : Z) (i : nat) (best : nat * KvReq * (Z * Z)) (l : list KvReq) : result (nat * KvReq) :=
  match l with
  | [] => Ok best.1
  | r :: l =>
      let! k := queue_key direction r in
      max_by direction (S i) (if pair_leb Z.leb Z.leb k best.2 then best else (i, r, k)) l
  end.
Definition max_queued (direction : Z) (l : list KvReq) : result (nat * KvReq) :=
  match l with
  | [] => Raise ValueError
  | r :: l => let! k := queue_key direction r in max_by direction 1 (0%nat, r, k) l
  end.

(** Whether the incoming request is dropped, the queue, and the aborted requests. *)
Definition _abort_on_queued_limit (recv_req : KvReq) (waiting_queue : list KvReq) : result (bool * list KvReq * list KvReq) :=
  match max_queued_requests sc with
  | None => Ok (false, waiting_queue, [])
  | Some m =>
      if zlen waiting_queue + 1 <=? m then Ok (false, waiting_queue, [])
      else if enable_priority_scheduling sc then
        let direction := if schedule_low_priority_values_first sc then 1 else -1 in
        let! (idx, candidate_req) := max_queued direction waiting_queue in
        let! p := priority_of recv_req in
        let! c := priority_of candidate_req in
        if direction * p <? direction * c then
          Ok (bool_decide (k_rid candidate_req = k_rid recv_req), delete idx waiting_queue, [candidate_req])
        else Ok (true, waiting_queue, [recv_req])
      else Ok (true, waiting_queue, [recv_req])
  end.

(** Without disaggregation; prefetching and time stamps left out.  The second
    list holds the requests the tokenizer is told were aborted. *)
Definition _add_request_to_queue (req : KvReq) (waiting_queue : list KvReq) : result (list KvReq * list KvReq) :=
  match _set_or_validate_priority req with
  | None => Ok (waiting_queue, [req])
  | Some req =>
      let! (dropped, queue, aborted) := _abort_on_queued_limit req waiting_queue in
      Ok (if dropped then queue else queue ++ [req], aborted)
  end.

Fixpoint add_requests_to_queue (reqs waiting_queue : list KvReq) : result (list KvReq * list KvReq) :=
  match reqs with
  | [] => Ok (waiting_queue, [])
  | r :: reqs =>
      let! (queue, aborted) := _add_request_to_queue r waiting_queue in
      let! (queue, aborted') := add_requests_to_queue reqs queue in
      Ok (queue, aborted ++ aborted')
  end.
End queue.

(** ** The decode step *)

Section retract.
Context {A : Type} `{!PagePool A} `{!SlotPool A} (clock : nat → Z) (cfg : cache_config) {HQ : HeapQ entry entry_le}.
Context (free_full : A → list Z → Z → result A) (leaves_of : RadixCache → list nat).
Context (sc : sched_config) (wait_queue_entry_time : string → Z) (max_new_tokens : KvReq → Z).
Abbreviation ps := (page_size cfg).

(** [selected_indices] or the whole batch. *)
Definition selected (selected_indices : option (list nat)) (reqs : list KvReq) : result (list KvReq) :=
  match selected_indices with None => Ok reqs | Some l => select reqs l end.

Definition new_tokens_required_next_decode (requests : list KvReq) (w : world A) : Z :=
  let page_size := pool_page_size (pool w) in
  zlen (filter (λ r, kv_committed_len (kv r) mod page_size = 0) requests) * page_size.

Definition check_decode_capacity (num_tokens : Z) (w : world A) : result (bool * world A) :=
  let! w := evict_from_tree_cache cfg leaves_of num_tokens w in
  Ok (num_tokens <=? pool_available (pool w), w).

Definition check_decode_mem (selected_indices : option (list nat)) (b : ScheduleBatch) (w : world A) : result (bool * world A) :=
  let! requests := selected selected_indices (b_reqs b) in
  check_decode_capacity (new_tokens_required_next_decode requests w) w.

(** [self.release_req(idx, n)]: the request object of the batch changes. *)
Definition batch_release_req (idx : nat) (remaing_req_count : Z) (b : ScheduleBatch) (w : world A) :
    result (KvReq * ScheduleBatch * world A) :=
  let! r := at_index (b_reqs b) idx in
  let! (r, w) := release_req clock cfg free_full false false leaves_of (retract_decode_steps sc) remaing_req_count r w in
  Ok (r, set_req idx r b, w).

(** The loop; [popped] is [sorted_indices] read from its end. *)
Fixpoint retract_loop (first_iter : bool) (popped : list nat) (b : ScheduleBatch) (retracted_reqs : list KvReq) (w : world A) :
    result (list nat * ScheduleBatch * list KvReq * world A) :=
  let! (enter, w) :=
    if first_iter then Ok (true, w)
    else let! (fits, w) := check_decode_mem (Some (reverse popped)) b w in Ok (negb fits, w) in
  if enter then
    match popped with
    | [] => Raise IndexError
    | [_] => Ok (popped, b, retracted_reqs, w)
    | idx :: popped =>
        let! (req, b, w) := batch_release_req idx (zlen popped) b w in
        retract_loop false popped b (retracted_reqs ++ [req]) w
    end
  else Ok (popped, b, retracted_reqs, w).

(** The last request, when even it does not fit. *)
Definition abort_last (popped : list nat) (b : ScheduleBatch) (w : world A) :
    result (list nat * ScheduleBatch * list KvReq * world A) :=
  if zlen popped <=? 1 then
    let! (fits, w) := check_decode_mem (Some (reverse popped)) b w in
    if fits then Ok (popped, b, [], w)
    else
      match popped with
      | [] => Raise IndexError
      | last_idx :: popped =>
          let! (last_req, b, w) := batch_release_req last_idx 0 b w in
          Ok (popped, b, [last_req], w)
      end
  else Ok (popped, b, [], w).

Record retraction := mkRetraction {
  rd_retracted : list KvReq;
  rd_ratio : Q;
  rd_to_abort : list KvReq;
  rd_batch : ScheduleBatch
}.

Definition retract_decode (b : ScheduleBatch) (w : world A) : result (retraction * world A) :=
  let sorted_indices := _get_decode_retraction_order sc (b_reqs b) in
  let! (popped, b, retracted_reqs, w) := retract_loop true (reverse sorted_indices) b [] w in
  let! (popped, b, reqs_to_abort, w) := abort_last popped b w in
  let! b := filter_batch (reverse popped) b in
  let ratio := NewTokenRatioTracker.estimate_new_token_ratio_after_retract max_new_tokens (retract_decode_steps sc) (b_reqs b) in
  Ok (mkRetraction retracted_reqs ratio reqs_to_abort b, w).

(** [prepare_for_decode], as far as slots and lengths go. *)
Definition prepare_for_decode (b : ScheduleBatch) (w : world A) : result (ScheduleBatch * world A) :=
  let! (out_cache_loc, reqs, w) := alloc_for_decode cfg leaves_of (b_reqs b) (b_seq_lens b) w in
  Ok (mkBatch reqs (Z.add 1 <$> b_seq_lens b) (Some out_cache_loc) (batch_is_full b), w).

Definition next_output_finishes_by_length (r : KvReq) : bool := max_new_tokens r <=? zlen (k_output_ids r) + 1.

(** [result_queue] holds the [rid]s of the batches whose results are due. *)
Definition _reqs_finishing_inflight (result_queue : list (list string)) (b : ScheduleBatch) : result (list string) :=
  if negb (enable_skip_finishing_decode sc) then Ok []
  else
    match result_queue with
    | [] => Ok []
    | [queued_reqs] =>
        Ok (k_rid <$> filter (λ r, k_rid r ∈ queued_reqs ∧ next_output_finishes_by_length r = true) (b_reqs b))
    | _ => Raise AssertionError
    end.

(** What [update_running_batch] leaves: the batch ([None]: no decode in this
    step), the queue, the ratio, and the requests that were told off. *)
Record update := mkUpdate {
  up_batch : ScheduleBatch;
  up_decode : bool;                 (* false for None *)
  up_queue : list KvReq;
  up_tracker : NewTokenRatioTracker.t;
  up_aborted : list KvReq
}.

Definition update_running_batch (testing : bool) (result_queue : list (list string)) (tracker : NewTokenRatioTracker.t)
    (waiting_queue : list KvReq) (b : ScheduleBatch) (w : world A) : result (update * world A) :=
  let initial_bs := batch_size b in
  let! finishing_reqs := _reqs_finishing_inflight result_queue b in
  let! b := filter_batch (keep_indices_of finishing_reqs (b_reqs b)) b in
  if is_empty b then Ok (mkUpdate (set_full false b) true waiting_queue tracker [], w)
  else
    let! (fits, w) := check_decode_mem None b w in
    if negb fits && negb (zlen finishing_reqs =? 0) then Ok (mkUpdate (set_full false b) false waiting_queue tracker [], w)
    else
      let! (b, queue, tracker, aborted, w) :=
        if negb fits || testing then
          let! (rd, w) := retract_decode b w in
          let tracker := NewTokenRatioTracker.set_current (rd_ratio rd) tracker in
          let! (queue, aborted) := add_requests_to_queue sc wait_queue_entry_time (rd_retracted rd) waiting_queue in
          Ok (rd_batch rd, queue, tracker, rd_to_abort rd ++ aborted, w)
        else Ok (b, waiting_queue, NewTokenRatioTracker.decay_step tracker, [], w) in
      let b := if batch_size b <? initial_bs then set_full false b else b in
      if is_empty b then Ok (mkUpdate b true queue tracker aborted, w)
      else
        let! (b, w) := prepare_for_decode b w in
        Ok (mkUpdate b true queue tracker aborted, w).
End retract.
