(* ===== verification/RetractTheorems.v ===== *)
(** * Retraction makes room and loses nobody

    The loop of [retract_decode] pops the least preferred request of the batch
    until the rest fit, so it ends after at most one pass over the batch; what it
    keeps can be decoded, what it gives up is back in the queue, and the slots are
    accounted for all along.  [update_running_batch] therefore never fails. *)
From S2P Require Import Prelude RadixKey EvictPolicy RadixCache RadixInv RadixOps RadixInsert RadixLock RadixEvict RadixSpec RadixTheorems RadixClient TokenAllocator PagedKernels PagedAllocator PySort KvRow KvTheorems KvRelease KvSystem KvAlloc KvPlace KvExtend KvDecode InvariantChecker KvChecks KvLife KvRetract.
From Stdlib Require Import QArith Qminmax Lqa.
Open Scope Z_scope.

(** ** Selecting by index *)

(** [out] are the elements of [l] at [idx]. *)
Definition picks {B} (l : list B) (idx : list nat) (out : list B) : Prop := Forall2 (λ i x, l !! i = Some x) idx out.

Lemma select_picks {B} (l : list B) idx out : picks l idx out → select l idx = Ok out.
Proof. unfold select. induction 1 as [|i x idx out Hi _ IH]; [done|]. cbn [mapR]. unfold at_index at 1. rewrite Hi. cbn [rbind]. by rewrite IH. Qed.

Lemma picks_insert {B} (l : list B) idx out i x : i ∉ idx → picks l idx out → picks (<[i := x]> l) idx out.
Proof.
  intros Hi. induction 1 as [|j y idx out Hj _ IH]; [constructor|]. apply not_elem_of_cons in Hi as [Hne Hi].
  constructor; [by rewrite list_lookup_insert_ne|by apply IH].
Qed.

Lemma picks_all {B} (l : list B) : picks l (seq 0 (length l)) l.
Proof.
  apply Forall2_same_length_lookup_2; [by rewrite length_seq|]. intros k i x Hi Hx. apply lookup_seq in Hi as [-> _]. done.
Qed.

Lemma picks_perm {B} (l : list B) idx idx' out : idx ≡ₚ idx' → picks l idx out → ∃ out', picks l idx' out' ∧ out ≡ₚ out'.
Proof.
  intros Hp. revert out. induction Hp as [|i idx idx' _ IH|i j idx|idx1 idx2 idx3 _ IH1 _ IH2]; intros out Ho.
  - apply Forall2_nil_inv_l in Ho as ->. exists []. by split; [constructor|].
  - apply Forall2_cons_inv_l in Ho as (x & o & Hx & Ho & ->). destruct (IH o Ho) as (o' & ? & ?). exists (x :: o'). split; [by constructor|by constructor].
  - apply Forall2_cons_inv_l in Ho as (x & o & Hx & Ho & ->). apply Forall2_cons_inv_l in Ho as (y & o' & Hy & Ho & ->).
    exists (y :: x :: o'). split; [by repeat constructor|constructor].
  - destruct (IH1 out Ho) as (o2 & H2 & ?). destruct (IH2 o2 H2) as (o3 & H3 & ?). exists o3. split; [done|by etrans].
Qed.

Lemma picks_reverse {B} (l : list B) idx out : picks l idx out → picks l (reverse idx) (reverse out).
Proof. apply Forall2_reverse. Qed.

Lemma picks_fmap {B C} (f : B → C) l l' idx out :
  (∀ i x, i ∈ idx → l !! i = Some x → l' !! i = Some (f x)) → picks l idx out → picks l' idx (f <$> out).
Proof.
  intros Hf. induction 1 as [|i x idx out Hi _ IH]; [constructor|]. constructor; [apply Hf; [by left|done]|].
  apply IH. intros j y Hj. apply Hf. by right.
Qed.

(** Every index once: the whole list. *)
Lemma picks_full {B} (l : list B) idx out : NoDup idx → picks l idx out → length idx = length l → idx ≡ₚ seq 0 (length l) ∧ out ≡ₚ l.
Proof.
  intros Hnd Hp Hl. assert (idx ≡ₚ seq 0 (length l)) as Hi.
  { apply submseteq_length_Permutation; [|rewrite length_seq; lia]. apply NoDup_submseteq; [done|]. intros i Hi.
    apply list_elem_of_lookup_1 in Hi as [k Hk]. destruct (Forall2_lookup_l _ _ _ _ _ Hp Hk) as (x & _ & Hx).
    apply elem_of_seq. apply lookup_lt_Some in Hx. lia. }
  split; [done|]. destruct (picks_perm l idx _ out Hi Hp) as (o & Ho & ->).
  assert (o = l) as ->; [|done]. pose proof (select_picks _ _ _ Ho) as E1. pose proof (select_picks _ _ _ (picks_all l)) as E2. congruence.
Qed.

(** ** Filtering a batch *)

(** The recorded lengths of the requests at [idx] are current. *)
Definition lens_at (b : ScheduleBatch) (idx : list nat) : Prop :=
  length (b_seq_lens b) = length (b_reqs b) ∧
  ∀ i r, i ∈ idx → b_reqs b !! i = Some r → b_seq_lens b !! i = Some (kv_allocated_len (kv r)).

Definition lens_current (b : ScheduleBatch) : Prop := b_reqs b = [] ∨ b_seq_lens b = (λ r, kv_allocated_len (kv r)) <$> b_reqs b.

Lemma filter_batch_ok b keep kept : NoDup keep → picks (b_reqs b) keep kept → lens_at b keep →
  ∃ b', filter_batch keep b = Ok b' ∧ b_reqs b' ≡ₚ kept ∧ lens_current b'.
Proof.
  intros Hnd Hp [Hll Hlens]. unfold filter_batch. pose proof (Forall2_length _ _ _ Hp) as Hl. destruct (Nat.eqb_spec (length keep) 0) as [E0|Hn0].
  { apply nil_length_inv in E0 as ->. apply Forall2_nil_inv_l in Hp as ->. eexists. split; [done|]. split; [done|by left]. }
  destruct (Nat.eqb_spec (length keep) (length (b_reqs b))) as [El|_].
  - destruct (picks_full _ _ _ Hnd Hp El) as [Hi Hk]. exists b. split; [done|]. split; [done|]. right. apply list_eq. intros i.
    rewrite list_lookup_fmap. destruct (b_reqs b !! i) as [r|] eqn:Er; cbn.
    + apply Hlens; [|done]. rewrite Hi. apply elem_of_seq. apply lookup_lt_Some in Er. lia.
    + apply lookup_ge_None_2. apply lookup_ge_None_1 in Er. lia.
  - rewrite (select_picks _ _ _ Hp). cbn [rbind].
    rewrite (select_picks (b_seq_lens b) keep ((λ r, kv_allocated_len (kv r)) <$> kept)) by (by eapply picks_fmap). cbn [rbind].
    eexists. split; [done|]. split; [done|by right].
Qed.

(** The kept indices of a filter are those of the requests that stay. *)
Lemma keep_indices_picks ex reqs :
  picks reqs (keep_indices_of ex reqs) (filter (λ r, finished_reason r = false ∧ k_rid r ∉ ex) reqs).
Proof.
  unfold keep_indices_of. enough (∀ pre, picks (pre ++ reqs) (filter (λ i, stays ex (pre ++ reqs) i = true) (seq (length pre) (length reqs)))
    (filter (λ r, finished_reason r = false ∧ k_rid r ∉ ex) reqs)) as H by apply (H []).
  induction reqs as [|r reqs IH]; intros pre; [constructor|]. cbn [length seq].
  assert (stays ex (pre ++ r :: reqs) (length pre) = negb (finished_reason r) && bool_decide (k_rid r ∉ ex)) as E
    by (unfold stays; by rewrite lookup_app_r, Nat.sub_diag by done).
  specialize (IH (pre ++ [r])). rewrite length_app, Nat.add_1_r, <- app_assoc in IH. cbn [app] in IH.
  rewrite filter_cons, E, filter_cons. destruct (finished_reason r) eqn:Ef; cbn [negb andb].
  { rewrite !decide_False by intuition discriminate. exact IH. }
  case_bool_decide as Hr.
  - rewrite !decide_True by done. constructor; [|exact IH]. by rewrite lookup_app_r, Nat.sub_diag by done.
  - rewrite !decide_False by intuition discriminate. exact IH.
Qed.

(** ** The queue *)

Section queue.
Context (sc : sched_config) (wait_queue_entry_time : string → Z).

(** Under priority scheduling every queued request has a priority, and a bounded
    queue has room for at least one. *)
Definition queue_ok (q : list KvReq) : Prop := enable_priority_scheduling sc = true → Forall (λ r, is_Some (k_priority r)) q.
Definition limit_ok : Prop := enable_priority_scheduling sc = true → ∀ m, max_queued_requests sc = Some m → 1 ≤ m.

Lemma max_by_ok d l i best pre :
  Forall (λ r, is_Some (k_priority r)) l → (best.1.1 < i)%nat → length pre = i → (pre ++ l) !! best.1.1 = Some best.1.2 →
  ∃ j c, max_by wait_queue_entry_time d i best l = Ok (j, c) ∧ (pre ++ l) !! j = Some c.
Proof.
  revert i best pre. induction l as [|r l IH]; intros i best pre HF Hb Hi Hl.
  { destruct best as [[j c] k]. by exists j, c. }
  apply Forall_cons in HF as [[p Hp] HF]. cbn [max_by]. unfold queue_key, priority_of. rewrite Hp. cbn [rbind].
  rewrite (cons_middle r pre l), app_assoc in *.
  apply (IH (S i)); [done| |rewrite length_app; cbn; lia|]; destruct (pair_leb _ _ _ _); cbn [fst snd]; try lia; try done.
  rewrite lookup_app_l, lookup_app_r, <- Hi, Nat.sub_diag by (rewrite ?length_app; cbn; lia). done.
Qed.

Lemma max_queued_ok d l : Forall (λ r, is_Some (k_priority r)) l → l ≠ [] →
  ∃ j c, max_queued wait_queue_entry_time d l = Ok (j, c) ∧ l !! j = Some c.
Proof.
  destruct l as [|r l]; [done|]. intros [[p Hp] HF]%Forall_cons _. unfold max_queued, queue_key, priority_of. rewrite Hp. cbn [rbind].
  apply (max_by_ok d l 1 _ [r]); [done|cbn; lia|done|done].
Qed.

(** What joins the queue, or is refused, is the request up to its priority. *)
Definition priority_only (r r' : KvReq) : Prop := r' = r ∨ r' = set_priority (default_priority sc) r.

Lemma limit_spec r q : queue_ok q → limit_ok → k_rid r ∉ k_rid <$> q → (enable_priority_scheduling sc = true → is_Some (k_priority r)) →
  ∃ dropped q' ab, _abort_on_queued_limit sc wait_queue_entry_time r q = Ok (dropped, q', ab) ∧
    q ++ [r] ≡ₚ (if dropped then q' else q' ++ [r]) ++ ab ∧
    (∀ m, max_queued_requests sc = Some m → zlen q ≤ m → zlen (if dropped then q' else q' ++ [r]) ≤ m) ∧ zlen ab ≤ 1.
Proof.
  intros Hq Hlim Hr Hp. unfold _abort_on_queued_limit. destruct (max_queued_requests sc) as [m|] eqn:Em.
  2:{ exists false, q, []. split; [done|]. by rewrite app_nil_r. }
  destruct (Z.leb_spec (zlen q + 1) m) as [Hle|Hgt].
  { exists false, q, []. split; [done|]. split; [by rewrite app_nil_r|]. split; [|done]. intros m' [= <-] _. rewrite zlen_app. cbn. done. }
  assert (∀ m', Some m = Some m' → zlen q ≤ m' → zlen q ≤ m') as Hkeep by (by intros).
  destruct (enable_priority_scheduling sc) eqn:Ee; [|by exists true, q, [r]].
  destruct (max_queued_ok (if schedule_low_priority_values_first sc then 1 else -1) q) as (j & c & E & Hj); [by apply Hq| |].
  { intros ->. pose proof (Hlim Ee m Em). change (zlen []) with 0 in Hgt. lia. }
  rewrite E. cbn [rbind]. unfold priority_of. destruct (Hp eq_refl) as [p ->]. cbn [rbind].
  pose proof (proj1 (Forall_lookup _ q) (Hq Ee) j c Hj) as [pc ->]. cbn [rbind].
  destruct (_ <? _); [|by exists true, q, [r]].
  assert (c ∈ q) as Hc by (by eapply list_elem_of_lookup_2). rewrite bool_decide_false.
  2:{ intros Ec. apply Hr. rewrite <- Ec. by apply list_elem_of_fmap_2. }
  exists false, (delete j q), [c]. split; [done|]. pose proof (delete_Permutation q j c Hj) as Hd. split; [rewrite Hd at 1; solve_Permutation|].
  split; [|done]. intros m' _ Hle. apply Permutation_length in Hd. unfold zlen in *. rewrite length_app. cbn in *. lia.
Qed.

Lemma add_spec r q : queue_ok q → limit_ok → k_rid r ∉ k_rid <$> q →
  ∃ q' ab r', _add_request_to_queue sc wait_queue_entry_time r q = Ok (q', ab) ∧ priority_only r r' ∧ q ++ [r'] ≡ₚ q' ++ ab ∧ queue_ok q' ∧
    (∀ m, max_queued_requests sc = Some m → zlen q ≤ m → zlen q' ≤ m) ∧ zlen ab ≤ 1.
Proof.
  intros Hq Hlim Hr. unfold _add_request_to_queue, _set_or_validate_priority.
  assert (∀ r', priority_only r r' → (enable_priority_scheduling sc = true → is_Some (k_priority r')) →
    ∃ q' ab, (let! (dropped, queue, aborted) := _abort_on_queued_limit sc wait_queue_entry_time r' q in
              Ok (if dropped then queue else queue ++ [r'], aborted)) = Ok (q', ab) ∧ q ++ [r'] ≡ₚ q' ++ ab ∧ queue_ok q' ∧
      (∀ m, max_queued_requests sc = Some m → zlen q ≤ m → zlen q' ≤ m) ∧ zlen ab ≤ 1) as Hadd.
  { intros r' Hro Hp. destruct (limit_spec r' q Hq Hlim) as (d & q' & ab & E & Hpm & Hm & Ha); [by destruct Hro as [->| ->]|done|].
    rewrite E. cbn [rbind]. eexists _, _. split; [done|]. split; [done|]. split; [|done]. intros Ee.
    assert (Forall (λ r0, is_Some (k_priority r0)) (q ++ [r'])) as HF by (apply Forall_app; split; [by apply Hq|]; constructor; [by apply Hp|done]).
    rewrite Hpm in HF. by apply Forall_app in HF as [? _]. }
  destruct (k_priority r) as [p|] eqn:Ep.
  - destruct (negb _ && _) eqn:Ec.
    + exists q, [r], r. split; [done|]. split; [by left|]. done.
    + destruct (Hadd r) as (q' & ab & ? & ?); [by left|by rewrite Ep|]. exists q', ab, r. by split; [|split; [left|]].
  - destruct (enable_priority_scheduling sc) eqn:Ee.
    + destruct (Hadd (set_priority (default_priority sc) r)) as (q' & ab & ? & ?); [by right|done|]. exists q', ab, (set_priority (default_priority sc) r).
      by split; [|split; [right|]].
    + destruct (Hadd r) as (q' & ab & ? & ?); [by left|done|]. exists q', ab, r. by split; [|split; [left|]].
Qed.

Lemma add_all_spec rs q : queue_ok q → limit_ok → NoDup (k_rid <$> rs ++ q) →
  ∃ q' ab rs', add_requests_to_queue sc wait_queue_entry_time rs q = Ok (q', ab) ∧ Forall2 priority_only rs rs' ∧
    q ++ rs' ≡ₚ q' ++ ab ∧ queue_ok q' ∧ (∀ m, max_queued_requests sc = Some m → zlen q ≤ m → zlen q' ≤ m).
Proof.
  revert q. induction rs as [|r rs IH]; intros q Hq Hlim Hnd.
  { exists q, [], []. split; [done|]. split; [constructor|]. by rewrite !app_nil_r. }
  change (k_rid <$> (r :: rs) ++ q) with (k_rid r :: (k_rid <$> rs ++ q)) in Hnd. apply NoDup_cons in Hnd as [Hr Hnd]. rewrite fmap_app, not_elem_of_app in Hr. destruct Hr as [Hr1 Hr2].
  destruct (add_spec r q Hq Hlim Hr2) as (q1 & ab1 & r' & E1 & Hro & Hp1 & Hq1 & Hm1 & _).
  assert (k_rid r' = k_rid r) as Hrid by (by destruct Hro as [->| ->]).
  destruct (IH q1 Hq1 Hlim) as (q' & ab & rs' & E & HF & Hp & Hq' & Hm).
  { assert (NoDup (k_rid <$> rs ++ (q1 ++ ab1))) as Hn.
    { rewrite <- Hp1, !fmap_app. cbn. rewrite Hrid. apply (NoDup_Permutation_proper _ (k_rid r :: (k_rid <$> rs ++ q)));
        [rewrite fmap_app; solve_Permutation|]. apply NoDup_cons. split; [|done]. by rewrite fmap_app, not_elem_of_app. }
    rewrite app_assoc, fmap_app in Hn. by apply NoDup_app in Hn as [? _]. }
  exists q', (ab1 ++ ab), (r' :: rs'). cbn [add_requests_to_queue]. rewrite E1. cbn [rbind]. rewrite E. split; [done|].
  split; [by constructor|]. split; [|split; [done|]].
  - rewrite (cons_middle r' q rs'), app_assoc, Hp1. rewrite <- app_assoc, (Permutation_app_comm ab1), app_assoc, Hp. solve_Permutation.
  - intros m Em Hle. apply (Hm m Em), (Hm1 m Em Hle).
Qed.
End queue.

(** ** The order of retraction *)

Lemma flip_leb_total {K} (leb : K → K → bool) `{!TotalLeb leb} : TotalLeb (λ a b, leb b a).
Proof. split; intros; [by destruct (leb_total leb a b); auto|by eapply leb_trans]. Qed.

#[export] Instance opt_leb_total {K} (leb : K → K → bool) `{!TotalLeb leb} : TotalLeb (opt_leb leb).
Proof.
  split; [intros [a|] [b|]; cbn; auto; apply (leb_total leb)|]. intros [a|] [b|] [c|]; cbn; try done. by apply leb_trans.
Qed.

Lemma sort_reverse_sorted {B K} (leb : K → K → bool) (key : B → K) `{!TotalLeb leb} l :
  StronglySorted (λ x y, leb (key y) (key x) = true) (sort_reverse leb key l).
Proof. apply (py_sort_sorted (λ a b, leb b a) key (H := flip_leb_total leb)). Qed.

(** [r] is kept rather than [g]. *)
Definition prefers (sc : sched_config) (r g : KvReq) : bool :=
  if retraction_by_priority sc then pair_leb Z.leb (pair_leb Z.leb Z.leb) (retraction_key sc g) (retraction_key sc r)
  else pair_leb Z.leb Z.leb (length_key g) (length_key r).

Lemma retraction_order_perm sc reqs : _get_decode_retraction_order sc reqs ≡ₚ seq 0 (length reqs).
Proof. unfold _get_decode_retraction_order. destruct (retraction_by_priority sc); apply py_sort_perm. Qed.

Lemma sort_reverse_front {K} (leb : K → K → bool) `{!TotalLeb leb} (key : KvReq → K) reqs l l1 l2 i j r g :
  sort_reverse (opt_leb leb) (index_key key reqs) l = l1 ++ l2 → i ∈ l1 → j ∈ l2 → reqs !! i = Some r → reqs !! j = Some g →
  leb (key g) (key r) = true.
Proof.
  intros E Hi Hj Hr Hg. pose proof (sort_reverse_sorted (opt_leb leb) (index_key key reqs) l) as Hs. rewrite E in Hs.
  pose proof (StronglySorted_app_1_elem_of _ _ _ i j Hs Hi Hj) as H. unfold index_key in H. rewrite Hr, Hg in H. exact H.
Qed.

Lemma retraction_order_prefers sc reqs l1 l2 i j r g : _get_decode_retraction_order sc reqs = l1 ++ l2 → i ∈ l1 → j ∈ l2 →
  reqs !! i = Some r → reqs !! j = Some g → prefers sc r g = true.
Proof. unfold _get_decode_retraction_order, prefers. destruct (retraction_by_priority sc); apply sort_reverse_front; apply _. Qed.

(** ** Room for the next tokens *)

Lemma zlen_filter_sum {B} (P : B → Prop) `{!∀ x, Decision (P x)} (f : B → Z) l :
  (∀ x, x ∈ l → f x = if decide (P x) then 1 else 0) → zlen (filter P l) = zsum (f <$> l).
Proof.
  induction l as [|x l IH]; intros Hf; [done|]. rewrite filter_cons, fmap_cons. change (zsum (?a :: ?b)) with (a + zsum b).
  rewrite <- IH by (intros; apply Hf; by right). rewrite (Hf x) by left. destruct (decide (P x)); [|lia]. unfold zlen. cbn [length]. lia.
Qed.

Section retraction.
Context {A : Type} `{!PagePool A} `{!SlotPool A} (clock : nat → Z) (cfg : cache_config) {HQ : HeapQ entry entry_le}.
Context (free_full : A → list Z → Z → result A) (leaves_of : RadixCache → list nat).
Context (sc : sched_config) (wait_queue_entry_time : string → Z) (max_new_tokens : KvReq → Z).
Context (size width : nat).
Abbreviation ps := (page_size cfg).
Context (Hps : 0 < ps) (Hdis : disable cfg = false) (Hlv : ∀ c, leaves_of c ≡ₚ elements (evictable_leaves c)).
Abbreviation sched_ok := (sched_ok clock cfg size width).
Abbreviation pages_due := (pages_due cfg).

Lemma sched_perm w rs rs' q q' : rs ≡ₚ rs' → q ≡ₚ q' → sched_ok (mkSched w rs q) → sched_ok (mkSched w rs' q').
Proof. intros Hr Hq []. split; cbn in *; [by eapply sys_perm|by rewrite <- Hr|by rewrite <- Hq|done]. Qed.

Lemma sched_queue w rs q q' : Forall fresh q' → sched_ok (mkSched w rs q) → sched_ok (mkSched w rs q').
Proof. intros Hq []. by split. Qed.

Lemma pages_due_perm l l' : l ≡ₚ l' → pages_due l = pages_due l'.
Proof. intros Hp. unfold pages_due. apply zsum_perm. by rewrite Hp. Qed.

(** A request that decodes: it has a row and is not at its end. *)
Definition running (r : KvReq) : Prop := holds_kv (kv r) = true ∧ finished_len r = None.

Lemma due_tokens w rs q reqs : sched_ok (mkSched w rs q) → (∀ r, r ∈ reqs → r ∈ rs) → Forall running reqs →
  new_tokens_required_next_decode reqs w = pages_due reqs * ps.
Proof.
  intros [Hs Hl _ _] Hin Hrun. cbn in *. rewrite Forall_forall in Hl, Hrun. destruct (so_tree _ _ _ _ _ Hs) as (H & Ht & _).
  unfold new_tokens_required_next_decode. rewrite (ko_page _ _ _ _ Ht). f_equal. apply zlen_filter_sum. intros r Hr.
  destruct (lf_row _ _ _ (Hl r (Hin r Hr)) (proj1 (Hrun r Hr))) as (_ & -> & _).
  destruct (Z.eqb_spec (kv_allocated_len (kv r) mod ps) 0); [by rewrite decide_True|by rewrite decide_False].
Qed.

Lemma check_mem_ok sel b reqs w rs q : sched_ok (mkSched w rs q) → selected sel (b_reqs b) = Ok reqs →
  (∀ r, r ∈ reqs → r ∈ rs) → Forall running reqs →
  ∃ w', check_decode_mem cfg leaves_of sel b w = Ok (pages_due reqs * ps <=? pool_available (pool w'), w') ∧ sched_ok (mkSched w' rs q).
Proof.
  intros Hok E Hin Hrun. unfold check_decode_mem, check_decode_capacity. rewrite E. cbn [rbind]. rewrite (due_tokens w rs q) by done.
  destruct (step_evict_to clock cfg leaves_of size width Hps Hdis Hlv w rs q (pages_due reqs * ps) Hok) as (w' & -> & Hok').
  exists w'. done.
Qed.

(** ** The loop *)

Lemma batch_release_ok idx idxs remaining b r kept rest q w : picks (b_reqs b) (idx :: idxs) (r :: kept) → lens_at b (idx :: idxs) →
  NoDup (idx :: idxs) → Forall running (r :: kept) → sched_ok (mkSched w (r :: kept ++ rest) q) →
  ∃ r' b' w', batch_release_req clock cfg free_full leaves_of sc idx remaining b w = Ok (r', b', w') ∧
    picks (b_reqs b') idxs kept ∧ lens_at b' idxs ∧ sched_ok (mkSched w' (kept ++ rest) (q ++ [r'])) ∧ k_rid r' = k_rid r.
Proof.
  intros Hp [Hll Hlens] [Hnin Hnd]%NoDup_cons [[Hh Hf] _]%Forall_cons Hok. apply Forall2_cons in Hp as [Hi Hp].
  destruct (step_retract clock cfg free_full leaves_of (retract_decode_steps sc) size width Hps Hdis Hlv w [] r (kept ++ rest) q remaining Hok Hh Hf)
    as (r' & w' & E & Hok' & _ & Hrid).
  unfold batch_release_req, at_index. rewrite Hi. cbn [rbind]. rewrite E. cbn [rbind]. eexists _, _, _. split; [done|].
  split; [by apply picks_insert|]. split; [|done]. split; [cbn; by rewrite length_insert|]. intros i x Hin Hx. cbn in Hx |- *.
  rewrite list_lookup_insert_ne in Hx by (intros ->; done). apply Hlens; [by right|done].
Qed.

(** What the loop has done when it stops: [gone] left the batch as [new], the
    others are as they were. *)
Record retracted_to (b : ScheduleBatch) (idx : list nat) (kept rest q : list KvReq)
    (b' : ScheduleBatch) (idx' : list nat) (kept' gone new : list KvReq) (w' : world A) : Prop := {
  re_idx : ∃ out, idx = out ++ idx' ∧ length out = length gone;
  re_kept : kept = gone ++ kept';
  re_picks : picks (b_reqs b') idx' kept';
  re_lens : lens_at b' idx';
  re_ok : sched_ok (mkSched w' (kept' ++ rest) (q ++ new));
  re_rids : k_rid <$> new = k_rid <$> gone
}.

Lemma retract_loop_ok first idx b kept rest q ret w :
  NoDup idx → idx ≠ [] → picks (b_reqs b) idx kept → lens_at b idx → Forall running kept → sched_ok (mkSched w (kept ++ rest) (q ++ ret)) →
  ∃ idx' b' new w' gone kept',
    retract_loop clock cfg free_full leaves_of sc first idx b ret w = Ok (idx', b', ret ++ new, w') ∧
    retracted_to b idx kept rest (q ++ ret) b' idx' kept' gone new w' ∧ kept' ≠ [] ∧
    (length kept' = 1%nat ∨ pages_due kept' * ps ≤ pool_available (pool w')) ∧ (first = true → (1 < length kept)%nat → gone ≠ []).
Proof.
  revert first b kept ret w. induction idx as [|i idx IH]; intros first b kept ret w Hnd Hne Hp Hlens Hrun Hok; [done|].
  pose proof Hp as (r & kept0 & Hr & Hp0 & ->)%Forall2_cons_inv_l. pose proof (Forall2_length _ _ _ Hp) as Hl.
  destruct (check_mem_ok (Some (reverse (i :: idx))) b (reverse (r :: kept0)) w ((r :: kept0) ++ rest) (q ++ ret) Hok) as (w1 & Ec & Hok1).
  { by apply select_picks, picks_reverse. } { intros x Hx%elem_of_reverse. set_solver. } { by apply Forall_reverse. }
  rewrite (pages_due_perm _ (r :: kept0)) in Ec by apply reverse_Permutation.
  assert (∀ v, sched_ok (mkSched v ((r :: kept0) ++ rest) (q ++ ret)) →
    retracted_to b (i :: idx) (r :: kept0) rest (q ++ ret) b (i :: idx) (r :: kept0) [] [] v) as Hstop.
  { intros v Hv. split; try done; [by exists []|by rewrite app_nil_r]. }
  assert (∀ v, sched_ok (mkSched v ((r :: kept0) ++ rest) (q ++ ret)) → idx ≠ [] → ∃ idx' b' new w' gone kept',
    (let! (req, b, v) := batch_release_req clock cfg free_full leaves_of sc i (zlen idx) b v in
     retract_loop clock cfg free_full leaves_of sc false idx b (ret ++ [req]) v) = Ok (idx', b', ret ++ new, w') ∧
    retracted_to b (i :: idx) (r :: kept0) rest (q ++ ret) b' idx' kept' gone new w' ∧ kept' ≠ [] ∧
    (length kept' = 1%nat ∨ pages_due kept' * ps ≤ pool_available (pool w')) ∧ gone ≠ []) as Hpop.
  { intros v Hv Hidx. destruct (batch_release_ok i idx (zlen idx) b r kept0 rest (q ++ ret) v Hp Hlens Hnd Hrun Hv) as (r' & b1 & v1 & -> & Hp1 & Hl1 & Hv1 & Hrid).
    cbn [rbind]. apply NoDup_cons in Hnd as [_ Hnd]. apply Forall_cons in Hrun as [_ Hrun]. rewrite <- app_assoc in Hv1.
    destruct (IH false b1 kept0 (ret ++ [r']) v1 Hnd Hidx Hp1 Hl1 Hrun Hv1) as (idx' & b' & new & w' & gone & kept' & E & [(out & Eo & Hlo) -> H3 H4 H5 H6] & Hk & Hfit & _).
    exists idx', b', (r' :: new), w', (r :: gone), kept'. rewrite E, <- app_assoc. split; [done|]. split; [|done]. split; try done.
    - exists (i :: out). cbn. by rewrite Eo, Hlo.
    - rewrite <- !app_assoc in H5. rewrite <- app_assoc. exact H5.
    - rewrite !fmap_cons, H6, Hrid. done. }
  cbn [retract_loop]. destruct first; cbn [rbind negb].
  - destruct idx as [|j idx].
    + apply Forall2_nil_inv_l in Hp0 as ->. exists [i], b, [], w, [], [r]. rewrite app_nil_r. split; [done|]. split; [by apply Hstop|]. split; [done|]. split; [by left|cbn; lia].
    + destruct (Hpop w Hok ltac:(done)) as (idx' & b' & new & w' & gone & kept' & ? & ? & ? & ? & ?). by exists idx', b', new, w', gone, kept'.
  - rewrite Ec. cbn [rbind]. destruct (Z.leb_spec (pages_due (r :: kept0) * ps) (pool_available (pool w1))) as [Hfit|_]; cbn [negb].
    + exists (i :: idx), b, [], w1, [], (r :: kept0). rewrite app_nil_r. split; [done|]. split; [by apply Hstop|]. split; [done|]. split; [by right|done].
    + destruct idx as [|j idx].
      * apply Forall2_nil_inv_l in Hp0 as ->. exists [i], b, [], w1, [], [r]. rewrite app_nil_r. split; [done|]. split; [by apply Hstop|]. split; [done|]. split; [by left|done].
      * destruct (Hpop w1 Hok1 ltac:(done)) as (idx' & b' & new & w' & gone & kept' & ? & ? & ? & ? & ?). by exists idx', b', new, w', gone, kept'.
Qed.

Lemma abort_last_ok idx b kept rest q w :
  NoDup idx → picks (b_reqs b) idx kept → lens_at b idx → Forall running kept → sched_ok (mkSched w (kept ++ rest) q) → kept ≠ [] →
  length kept = 1%nat ∨ pages_due kept * ps ≤ pool_available (pool w) →
  ∃ idx' b' ab w' kept', abort_last clock cfg free_full leaves_of sc idx b w = Ok (idx', b', ab, w') ∧
    NoDup idx' ∧ picks (b_reqs b') idx' kept' ∧ lens_at b' idx' ∧ sched_ok (mkSched w' (kept' ++ rest) q) ∧
    (kept' = kept ∧ ab = [] ∧ pages_due kept' * ps ≤ pool_available (pool w') ∨ kept' = [] ∧ ∃ r r', kept = [r] ∧ ab = [r'] ∧ k_rid r' = k_rid r).
Proof.
  intros Hnd Hp Hlens Hrun Hok Hne Hfit. unfold abort_last. pose proof (Forall2_length _ _ _ Hp) as Hl.
  destruct (Z.leb_spec (zlen idx) 1) as [Hle|Hgt].
  2:{ exists idx, b, [], w, kept. repeat (split; [done|]). left. split; [done|]. split; [done|]. destruct Hfit; [unfold zlen in Hgt; lia|done]. }
  destruct (check_mem_ok (Some (reverse idx)) b (reverse kept) w (kept ++ rest) q Hok) as (w1 & -> & Hok1).
  { by apply select_picks, picks_reverse. } { intros x Hx%elem_of_reverse. set_solver. } { by apply Forall_reverse. }
  rewrite (pages_due_perm _ kept) by apply reverse_Permutation. cbn [rbind].
  destruct (Z.leb_spec (pages_due kept * ps) (pool_available (pool w1))) as [Hf|_].
  { exists idx, b, [], w1, kept. repeat (split; [done|]). by left. }
  destruct idx as [|i idx]; [by destruct kept|]. destruct idx; [|unfold zlen in Hle; cbn in Hle; lia].
  pose proof Hp as (r & kept0 & Hr & Hp0 & ->)%Forall2_cons_inv_l. apply Forall2_nil_inv_l in Hp0 as ->.
  destruct (batch_release_ok i [] 0 b r [] rest q w1 Hp Hlens Hnd Hrun Hok1) as (r' & b1 & w2 & -> & Hp1 & Hl1 & Hok2 & Hrid). cbn [rbind].
  exists [], b1, [r'], w2, []. split; [done|]. split; [constructor|]. split; [done|]. split; [done|]. split.
  - eapply sched_queue; [|exact Hok2]. apply Hok.
  - right. split; [done|]. by exists r, r'.
Qed.

(** What [retract_decode] leaves of the batch [b]. *)
Record retract_result (b : ScheduleBatch) (rest q : list KvReq) (rd : retraction) (w' : world A) : Prop := {
  rr_ok : sched_ok (mkSched w' (b_reqs (rd_batch rd) ++ rest) (q ++ rd_retracted rd));
  rr_lens : lens_current (rd_batch rd);
  rr_fits : b_reqs (rd_batch rd) = [] ∨ pages_due (b_reqs (rd_batch rd)) * ps ≤ pool_available (pool w');
  rr_gone : ∃ gone, b_reqs b ≡ₚ b_reqs (rd_batch rd) ++ gone ∧ k_rid <$> gone ≡ₚ k_rid <$> rd_retracted rd ++ rd_to_abort rd ∧
              (∀ r g, r ∈ b_reqs (rd_batch rd) → g ∈ gone → prefers sc r g = true);
  rr_abort : rd_to_abort rd = [] ∨ b_reqs (rd_batch rd) = [] ∧ length (rd_to_abort rd) = 1%nat;
  rr_progress : (1 < length (b_reqs b))%nat → (length (b_reqs (rd_batch rd)) < length (b_reqs b))%nat
}.

Lemma retract_decode_ok b rest q w : b_reqs b ≠ [] → lens_current b → Forall running (b_reqs b) →
  sched_ok (mkSched w (b_reqs b ++ rest) q) →
  ∃ rd w', retract_decode clock cfg free_full leaves_of sc max_new_tokens b w = Ok (rd, w') ∧ retract_result b rest q rd w'.
Proof.
  intros Hne [?|Hlens] Hrun Hok; [done|]. unfold retract_decode. set (order := _get_decode_retraction_order sc (b_reqs b)).
  pose proof (retraction_order_perm sc (b_reqs b)) as Hord. fold order in Hord.
  assert (reverse order ≡ₚ seq 0 (length (b_reqs b))) as Hrev by (by rewrite reverse_Permutation).
  assert (NoDup (reverse order)) as Hnd by (rewrite Hrev; apply NoDup_seq).
  destruct (picks_perm (b_reqs b) _ (reverse order) _ (symmetry Hrev) (picks_all _)) as (kept & Hp & Hk).
  assert (lens_at b (reverse order)) as Hla.
  { split; [rewrite Hlens; by rewrite length_fmap|]. intros i r _ Hi. by rewrite Hlens, list_lookup_fmap, Hi. }
  destruct (retract_loop_ok true (reverse order) b kept rest q [] w) as (idx1 & b1 & new & w1 & gone & kept1 & E1 & [(out & Eo & Hlo) Ek Hp1 Hl1 Hok1 Hrids] & Hne1 & Hfit1 & Hprog);
    [done| |done|done|by rewrite <- Hk|rewrite app_nil_r; apply (sched_perm w (b_reqs b ++ rest) _ q q); [by rewrite Hk|done|done]|].
  { intros E. rewrite E in Hrev. symmetry in Hrev. apply Permutation_nil_r in Hrev. by destruct (b_reqs b). }
  rewrite app_nil_r in Hok1. cbn [app] in E1. rewrite E1. cbn [rbind].
  assert (Forall running kept1) as Hrun1 by (rewrite Hk, Ek in Hrun; by apply Forall_app in Hrun as [_ ?]).
  assert (NoDup idx1) as Hnd1 by (rewrite Eo in Hnd; by apply NoDup_app in Hnd as (_ & _ & ?)).
  destruct (abort_last_ok idx1 b1 kept1 rest (q ++ new) w1 Hnd1 Hp1 Hl1 Hrun1 Hok1 Hne1 Hfit1) as (idx2 & b2 & ab & w2 & kept2 & -> & Hnd2 & Hp2 & Hl2 & Hok2 & Hab).
  cbn [rbind]. destruct (filter_batch_ok b2 (reverse idx2) (reverse kept2)) as (b3 & -> & Hb3 & Hl3);
    [by rewrite reverse_Permutation|by apply picks_reverse| |].
  { destruct Hl2 as [? Hl2]. split; [done|]. intros i r Hi Hr. rewrite elem_of_reverse in Hi. exact (Hl2 i r Hi Hr). }
  cbn [rbind]. rewrite reverse_Permutation in Hb3. eexists _, _. split; [reflexivity|].
  assert (b_reqs b ≡ₚ kept1 ++ gone) as Hall by (rewrite Hk, Ek; solve_Permutation).
  split; cbn [rd_batch rd_retracted rd_to_abort].
  - eapply (sched_perm w2 (kept2 ++ rest)); [by rewrite Hb3|done|done].
  - done.
  - destruct Hab as [(-> & _ & Hf)|[-> _]]; [right; by rewrite (pages_due_perm _ _ Hb3)|left]. by apply Permutation_nil_r in Hb3.
  - destruct Hab as [(-> & -> & _)|(-> & r & r' & -> & -> & Hrid)].
    + exists gone. rewrite Hb3, app_nil_r, Hrids. split; [done|]. split; [done|]. intros r g Hr Hg. rewrite Hb3 in Hr.
      rewrite Eo in Hp. rewrite Ek in Hp. apply Forall2_app_inv in Hp as [Hpo Hpk]; [|done].
      apply list_elem_of_lookup_1 in Hr as [k Hr], Hg as [k' Hg].
      destruct (Forall2_lookup_r _ _ _ _ _ Hpk Hr) as (i & Hi & Hri). destruct (Forall2_lookup_r _ _ _ _ _ Hpo Hg) as (j & Hj & Hgj).
      apply (retraction_order_prefers sc (b_reqs b) (reverse idx1) (reverse out) i j); [|by eapply elem_of_reverse, list_elem_of_lookup_2..|done|done].
      fold order. by rewrite <- reverse_app, <- Eo, reverse_involutive.
    + exists (r :: gone). apply Permutation_nil_r in Hb3. rewrite Hb3. split; [rewrite Hall; solve_Permutation|]. split; [|intros ? ? []%elem_of_nil].
      rewrite fmap_app, fmap_cons, Hrids. cbn. rewrite Hrid. solve_Permutation.
  - destruct Hab as [(_ & -> & _)|(-> & r & r' & _ & -> & _)]; [by left|right]. split; [by apply Permutation_nil_r in Hb3|done].
  - intros Hlt. rewrite Hall, length_app, Hb3. specialize (Hprog eq_refl). rewrite <- Hk in Hprog. specialize (Hprog Hlt).
    destruct gone; [done|]. cbn. destruct Hab as [(-> & _)|(-> & _)]; cbn; lia.
Qed.

(** ** The step *)

(** Ready for the next token. *)
Definition ready (r : KvReq) : Prop := running r ∧ computed r ∧ kv_allocated_len (kv r) < Z.of_nat width.

Lemma prepare_ok b rest q w : sched_ok (mkSched w (b_reqs b ++ rest) q) → b_reqs b ≠ [] → lens_current b → Forall ready (b_reqs b) →
  pages_due (b_reqs b) * ps ≤ pool_available (pool w) →
  ∃ b' out w', prepare_for_decode cfg leaves_of b w = Ok (b', w') ∧ sched_ok (mkSched w' (b_reqs b' ++ rest) q) ∧
    b_reqs b' = decoded <$> b_reqs b ∧ lens_current b' ∧ b_out_cache_loc b' = Some out ∧ zlen out = batch_size b'.
Proof.
  intros Hok Hne [?|Hlens] Hrd Hroom; [done|]. rewrite Forall_forall in Hrd.
  assert (∀ r, r ∈ b_reqs b → computed r ∧ kv_allocated_len (kv r) < Z.of_nat width) as Hc by (intros r Hr; apply Hrd, Hr).
  pose proof (running_decodable clock cfg size width w (b_reqs b) rest q Hok Hc) as Hdc.
  pose proof (decode_sys clock cfg leaves_of Hlv Hps Hdis (seq 1 size) (NoDup_seq 1 size) w (b_reqs b) rest (sd_sys _ _ _ _ _ Hok) Hdc) as H.
  unfold prepare_for_decode. rewrite Hlens. destruct (alloc_for_decode _ _ _ _ _) as [[[out batch'] w']|e] eqn:E; [|lia].
  pose proof (step_decode clock cfg leaves_of size width Hps Hdis Hlv w (b_reqs b) rest q out batch' w' Hok Hc E) as Hok'.
  destruct H as (_ & Hl & ->). cbn [rbind]. eexists _, out, w'. split; [done|]. cbn. split; [done|]. split; [done|]. split; [|split; [done|]].
  - right. cbn. rewrite <- !list_fmap_compose. apply list_fmap_ext. intros i r _. cbn. lia.
  - unfold batch_size. cbn. unfold zlen in *. by rewrite length_fmap.
Qed.

(** [update_running_batch] on a batch whose live requests are ready; [stay] are
    the requests about to finish, which sit this step out. *)
Record update_result (b : ScheduleBatch) (rest q : list KvReq) (stay : list KvReq) (up : update) (w' : world A) : Prop := {
  ur_ok : sched_ok (mkSched w' (b_reqs (up_batch up) ++ stay ++ rest) (up_queue up));
  ur_rids : k_rid <$> filter (λ r, finished_reason r = false) (b_reqs b) ++ q
            ≡ₚ k_rid <$> b_reqs (up_batch up) ++ stay ++ up_queue up ++ up_aborted up;
  ur_queue : queue_ok sc (up_queue up) ∧ (∀ m, max_queued_requests sc = Some m → zlen q ≤ m → zlen (up_queue up) ≤ m);
  ur_lens : lens_current (up_batch up);
  ur_slots : up_decode up = true → b_reqs (up_batch up) ≠ [] →
             ∃ out, b_out_cache_loc (up_batch up) = Some out ∧ zlen out = batch_size (up_batch up)
}.

Lemma is_empty_nil b : is_empty b = true ↔ b_reqs b = [].
Proof. unfold is_empty. rewrite Z.eqb_eq. split; [apply zlen_nil_inv|by intros ->]. Qed.

(** The end of the step: the batch is decoded unless it is empty. *)
Lemma decode_rest b n rest q tracker aborted w : sched_ok (mkSched w (b_reqs b ++ rest) q) → lens_current b → Forall ready (b_reqs b) →
  b_reqs b = [] ∨ pages_due (b_reqs b) * ps ≤ pool_available (pool w) →
  ∃ b' w', (let b := if batch_size b <? n then set_full false b else b in
            if is_empty b then Ok (mkUpdate b true q tracker aborted, w)
            else let! (b, w) := prepare_for_decode cfg leaves_of b w in Ok (mkUpdate b true q tracker aborted, w))
           = Ok (mkUpdate b' true q tracker aborted, w') ∧
    sched_ok (mkSched w' (b_reqs b' ++ rest) q) ∧ k_rid <$> b_reqs b' = k_rid <$> b_reqs b ∧ lens_current b' ∧
    (b_reqs b' ≠ [] → ∃ out, b_out_cache_loc b' = Some out ∧ zlen out = batch_size b').
Proof.
  intros Hok Hl Hrd Hroom. cbv zeta. set (b1 := if batch_size b <? n then set_full false b else b).
  assert (b_reqs b1 = b_reqs b ∧ b_seq_lens b1 = b_seq_lens b) as [E1 E2] by (unfold b1; by destruct (batch_size b <? n)).
  assert (lens_current b1) as Hl1 by (unfold lens_current; by rewrite E1, E2). rewrite <- E1 in Hok, Hrd, Hroom |- *. clearbody b1. clear E1 E2 Hl b.
  destruct (is_empty b1) eqn:Ee.
  - apply is_empty_nil in Ee. exists b1, w. split; [done|]. split; [done|]. split; [done|]. split; [done|]. by rewrite Ee.
  - assert (b_reqs b1 ≠ []) as Hne by (intros E; apply is_empty_nil in E; congruence). destruct Hroom as [?|Hroom]; [done|].
    destruct (prepare_ok b1 rest q w Hok Hne Hl1 Hrd Hroom) as (b' & out & w' & -> & Hok' & Er & Hl' & Ho & Hz). cbn [rbind].
    exists b', w'. split; [done|]. split; [done|]. split; [rewrite Er, <- list_fmap_compose; done|]. split; [done|]. by exists out.
Qed.

(** Retraction and requeueing. *)
Lemma retract_requeue b rest q w : b_reqs b ≠ [] → lens_current b → Forall ready (b_reqs b) → sched_ok (mkSched w (b_reqs b ++ rest) q) →
  queue_ok sc q → limit_ok sc → NoDup (k_rid <$> b_reqs b ++ q) →
  ∃ rd w' q' ab, retract_decode clock cfg free_full leaves_of sc max_new_tokens b w = Ok (rd, w') ∧
    add_requests_to_queue sc wait_queue_entry_time (rd_retracted rd) q = Ok (q', ab) ∧
    sched_ok (mkSched w' (b_reqs (rd_batch rd) ++ rest) q') ∧ lens_current (rd_batch rd) ∧ Forall ready (b_reqs (rd_batch rd)) ∧
    (b_reqs (rd_batch rd) = [] ∨ pages_due (b_reqs (rd_batch rd)) * ps ≤ pool_available (pool w')) ∧
    k_rid <$> b_reqs b ++ q ≡ₚ k_rid <$> b_reqs (rd_batch rd) ++ q' ++ rd_to_abort rd ++ ab ∧ queue_ok sc q' ∧
    (∀ m, max_queued_requests sc = Some m → zlen q ≤ m → zlen q' ≤ m).
Proof.
  intros Hne Hl Hrd Hok Hq Hlim Hnd. assert (Forall running (b_reqs b)) as Hrun by (eapply Forall_impl; [exact Hrd|]; intros r Hr; apply Hr).
  destruct (retract_decode_ok b rest q w Hne Hl Hrun Hok) as (rd & w' & E & [Hok' Hl' Hroom (gone & Hg & Hrids & _) _ _]).
  assert (NoDup (k_rid <$> rd_retracted rd ++ q)) as Hnd'.
  { rewrite Hg, !fmap_app, Hrids, fmap_app in Hnd. rewrite fmap_app. apply NoDup_app in Hnd as (H1 & H2 & H3).
    apply NoDup_app in H1 as (_ & _ & H1). apply NoDup_app in H1 as (H1 & _ & _). apply NoDup_app. split; [done|]. split; [|done].
    intros x Hx. apply H2. rewrite !elem_of_app. auto. }
  destruct (add_all_spec sc wait_queue_entry_time (rd_retracted rd) q Hq Hlim Hnd') as (q' & ab & rs' & Eq & HF & Hp & Hq' & Hm).
  exists rd, w', q', ab. split; [done|]. split; [done|].
  assert (k_rid <$> rs' = k_rid <$> rd_retracted rd) as Ers.
  { clear -HF. induction HF as [|r r' l l' Hr HF IH]; [done|]. rewrite !fmap_cons, IH. by destruct Hr as [->| ->]. }
  assert (Forall fresh (q' ++ ab)) as Hfr.
  { rewrite <- Hp. pose proof (sd_waiting _ _ _ _ _ Hok') as Hw. cbn in Hw. apply Forall_app in Hw as [Hw1 Hw2]. apply Forall_app. split; [done|].
    clear -HF Hw2. induction HF as [|r r' l l' Hr HF IH]; [done|]. apply Forall_cons in Hw2 as [Hr0 Hw2]. constructor; [|by apply IH].
    destruct Hr as [->| ->]; [done|]. destruct Hr0 as [? ? ? Hfill ?]. split; try done.
    unfold refreshable, refresh_fill_ids in *. cbn in *. by destruct (_ && _ && _). }
  apply Forall_app in Hfr as [Hfr _]. split; [eapply sched_queue; [done|exact Hok']|]. split; [done|]. split; [|split; [done|split; [|done]]].
  - rewrite Hg in Hrd. by apply Forall_app in Hrd as [? _].
  - apply (fmap_Permutation k_rid) in Hp. rewrite !fmap_app, Ers in Hp. rewrite Hg, !fmap_app, Hrids, fmap_app.
    transitivity ((k_rid <$> b_reqs (rd_batch rd)) ++ (k_rid <$> rd_to_abort rd) ++ ((k_rid <$> q) ++ (k_rid <$> rd_retracted rd))); [solve_Permutation|].
    rewrite Hp. solve_Permutation.
Qed.

(** Who is about to finish. *)
Lemma finishing_ok result_queue b : (length result_queue ≤ 1)%nat →
  ∃ ex, _reqs_finishing_inflight sc max_new_tokens result_queue b = Ok ex.
Proof.
  intros Hl. unfold _reqs_finishing_inflight. destruct (negb _); [by eexists|]. destruct result_queue as [|l [|]]; [by eexists..|cbn in Hl; lia].
Qed.

(** The live requests are those that go on and those that are left out. *)
Lemma live_split (ex : list string) (l : list KvReq) : filter (λ r, finished_reason r = false) l
  ≡ₚ filter (λ r, finished_reason r = false ∧ k_rid r ∉ ex) l ++ filter (λ r, finished_reason r = false ∧ k_rid r ∈ ex) l.
Proof.
  induction l as [|r l IH]; [done|]. rewrite !filter_cons. destruct (decide (finished_reason r = false)) as [Hf|Hf].
  - destruct (decide (k_rid r ∈ ex)) as [Hin|Hin].
    + rewrite decide_False, decide_True by tauto. rewrite IH. solve_Permutation.
    + rewrite decide_True, decide_False by tauto. rewrite IH. solve_Permutation.
  - rewrite !decide_False by tauto. exact IH.
Qed.

Lemma update_ok testing result_queue tracker q b rest w :
  let live := filter (λ r, finished_reason r = false) (b_reqs b) in
  sched_ok (mkSched w (live ++ rest) q) → Forall ready live → (∀ ex, lens_at b (keep_indices_of ex (b_reqs b))) →
  queue_ok sc q → limit_ok sc → NoDup (k_rid <$> live ++ q) → (length result_queue ≤ 1)%nat →
  ∃ ex up w', _reqs_finishing_inflight sc max_new_tokens result_queue b = Ok ex ∧
    update_running_batch clock cfg free_full leaves_of sc wait_queue_entry_time max_new_tokens testing result_queue tracker q b w = Ok (up, w') ∧
    update_result b rest q (filter (λ r, finished_reason r = false ∧ k_rid r ∈ ex) (b_reqs b)) up w'.
Proof.
  intros live Hok Hrd Hlens Hq Hlim Hnd Hrq. destruct (finishing_ok result_queue b Hrq) as (ex & Eex). unfold update_running_batch. rewrite Eex. cbn [rbind].
  pose proof (live_split ex (b_reqs b)) as Hsplit. fold live in Hsplit.
  set (go := filter (λ r, finished_reason r = false ∧ k_rid r ∉ ex) (b_reqs b)) in *. set (stay := filter (λ r, _ ∧ k_rid r ∈ ex) _) in *.
  pose proof (keep_indices_picks ex (b_reqs b)) as Hp. fold go in Hp.
  destruct (filter_batch_ok b (keep_indices_of ex (b_reqs b)) go (NoDup_filter _ _ (NoDup_seq _ _)) Hp (Hlens ex)) as (b1 & -> & Hb1 & Hl1). cbn [rbind].
  assert (sched_ok (mkSched w (b_reqs b1 ++ stay ++ rest) q)) as Hok1.
  { eapply sched_perm; [|done|exact Hok]. rewrite Hsplit, Hb1. by rewrite app_assoc. }
  assert (live ++ q ≡ₚ b_reqs b1 ++ stay ++ q) as Hlive by (rewrite Hsplit, Hb1; by rewrite app_assoc).
  assert (Forall ready (b_reqs b1)) as Hrd1 by (rewrite Hb1; rewrite Hsplit in Hrd; by apply Forall_app in Hrd as [? _]).
  assert (NoDup (k_rid <$> b_reqs b1 ++ q)) as Hnd1.
  { rewrite Hlive in Hnd. assert (b_reqs b1 ++ stay ++ q ≡ₚ stay ++ b_reqs b1 ++ q) as Hsw by solve_Permutation. rewrite Hsw, fmap_app in Hnd. by apply NoDup_app in Hnd as (_ & _ & ?). }
  assert (∀ up v, sched_ok (mkSched v (b_reqs (up_batch up) ++ stay ++ rest) (up_queue up)) →
    k_rid <$> b_reqs b1 ++ q ≡ₚ k_rid <$> b_reqs (up_batch up) ++ up_queue up ++ up_aborted up →
    queue_ok sc (up_queue up) ∧ (∀ m, max_queued_requests sc = Some m → zlen q ≤ m → zlen (up_queue up) ≤ m) → lens_current (up_batch up) →
    (up_decode up = true → b_reqs (up_batch up) ≠ [] → ∃ out, b_out_cache_loc (up_batch up) = Some out ∧ zlen out = batch_size (up_batch up)) →
    update_result b rest q stay up v) as Hdone.
  { intros up v H1 H2 H3 H4 H5. split; try done. fold live. rewrite Hlive. rewrite !fmap_app in H2 |- *.
    transitivity (((k_rid <$> b_reqs b1) ++ (k_rid <$> q)) ++ (k_rid <$> stay)); [solve_Permutation|]. rewrite H2, !fmap_app. solve_Permutation. }
  exists ex. destruct (is_empty b1) eqn:Ee.
  { apply is_empty_nil in Ee. eexists _, w. split; [done|]. split; [done|]. apply Hdone; cbn; rewrite ?app_nil_r; try done. }
  assert (b_reqs b1 ≠ []) as Hne by (intros E; apply is_empty_nil in E; congruence).
  destruct (check_mem_ok None b1 (b_reqs b1) w (b_reqs b1 ++ stay ++ rest) q Hok1 eq_refl) as (w2 & -> & Hok2);
    [set_solver|eapply Forall_impl; [exact Hrd1|]; intros r Hr; apply Hr|].
  cbn [rbind]. set (fits := _ <=? _). destruct (negb fits && _) eqn:Ew.
  { eexists _, w2. split; [done|]. split; [done|]. apply Hdone; cbn; rewrite ?app_nil_r; try done. }
  destruct (negb fits || testing) eqn:Er.
  - destruct (retract_requeue b1 (stay ++ rest) q w2 Hne Hl1 Hrd1 Hok2 Hq Hlim Hnd1) as (rd & w3 & q' & ab & -> & Eadd & Hok3 & Hl3 & Hrd3 & Hroom & Hrids & Hq' & Hm).
    cbn [rbind]. rewrite Eadd. cbn [rbind].
    destruct (decode_rest (rd_batch rd) (batch_size b) (stay ++ rest) q' (NewTokenRatioTracker.set_current (rd_ratio rd) tracker) (rd_to_abort rd ++ ab) w3 Hok3 Hl3 Hrd3 Hroom)
      as (b' & w' & E & Hok' & Hr' & Hl' & Hs').
    eexists _, w'. split; [done|]. split; [exact E|]. apply Hdone; cbn; try done. rewrite Hrids, !fmap_app, Hr'. done.
  - apply orb_false_iff in Er as [Hf _]. apply negb_false_iff, Z.leb_le in Hf. cbn [rbind].
    destruct (decode_rest b1 (batch_size b) (stay ++ rest) q (NewTokenRatioTracker.decay_step tracker) [] w2 Hok2 Hl1 Hrd1 (or_intror Hf)) as (b' & w' & E & Hok' & Hr' & Hl' & Hs').
    eexists _, w'. split; [done|]. split; [exact E|]. apply Hdone; cbn; try done. by rewrite app_nil_r, !fmap_app, Hr'.
Qed.
(** ** The properties *)

(** C6: [retract_decode] returns: the loop pops one request per round, so it
    ends.  What it keeps is a part of the batch with recorded lengths that are
    current and whose next tokens fit the free slots, unless it keeps nothing; the
    requests it gave up are less preferred than every one it keeps, and are back,
    without slots, among the waiting; only a last request that did not fit alone is
    aborted; and of two requests or more at least one goes. *)
Theorem retract_makes_room b rest q w : b_reqs b ≠ [] → lens_current b → Forall running (b_reqs b) →
  sched_ok (mkSched w (b_reqs b ++ rest) q) →
  ∃ rd w', retract_decode clock cfg free_full leaves_of sc max_new_tokens b w = Ok (rd, w') ∧ retract_result b rest q rd w'.
Proof. apply retract_decode_ok. Qed.

(** C5: [update_running_batch] never fails and loses no request: the live
    requests of the batch and the waiting ones are, after it, in the batch, among
    those about to finish, in the queue or reported aborted, each once; the system
    stays consistent, a bounded queue within its bound, and a batch that is to be
    decoded has one new slot per request. *)
Theorem update_loses_nobody testing result_queue tracker q b rest w :
  let live := filter (λ r, finished_reason r = false) (b_reqs b) in
  sched_ok (mkSched w (live ++ rest) q) → Forall ready live → (∀ ex, lens_at b (keep_indices_of ex (b_reqs b))) →
  queue_ok sc q → limit_ok sc → NoDup (k_rid <$> live ++ q) → (length result_queue ≤ 1)%nat →
  ∃ ex up w', _reqs_finishing_inflight sc max_new_tokens result_queue b = Ok ex ∧
    update_running_batch clock cfg free_full leaves_of sc wait_queue_entry_time max_new_tokens testing result_queue tracker q b w = Ok (up, w') ∧
    update_result b rest q (filter (λ r, finished_reason r = false ∧ k_rid r ∈ ex) (b_reqs b)) up w'.
Proof. apply update_ok. Qed.
End retraction.

(** ** The ratio *)

Module Ratio.
Import NewTokenRatioTracker.

Lemma Qmax_cases a b : (Qmax a b == a ∧ b <= a)%Q ∨ (Qmax a b == b ∧ a <= b)%Q.
Proof. destruct (Q.max_spec a b) as [[? ?]|[? ?]]; [right|left]; split; try done; lra. Qed.

Lemma Qmin_cases a b : (Qmin a b == a ∧ a <= b)%Q ∨ (Qmin a b == b ∧ b <= a)%Q.
Proof. destruct (Q.min_spec a b) as [[? ?]|[? ?]]; [left|right]; split; try done; lra. Qed.

(** Settings that make sense. *)
Record config_ok (i f c : Q) (n : Z) : Prop := {
  cf_init : (0 <= i)%Q;
  cf_factor : (0 <= f <= 1)%Q;
  cf_cons : (0 <= c)%Q;
  cf_steps : 0 < n
}.

(** The three constants are in order. *)
Record ordered (x : t) : Prop := {
  or_min : (0 <= min x <= init x)%Q;
  or_init : (init x <= 1)%Q;
  or_decay : (0 <= decay x)%Q
}.

Definition in_range (x : t) : Prop := (0 <= current x <= 1)%Q.

Lemma config_ordered i f c n : config_ok i f c n →
  ordered (from_config i f c n) ∧ in_range (from_config i f c n) ∧
  (decay (from_config i f c n) * inject_Z n == init (from_config i f c n) - min (from_config i f c n))%Q.
Proof.
  intros [Hi [Hf0 Hf1] Hc Hn]. assert (0 < inject_Z n)%Q as Hq by (rewrite Zlt_Qlt in Hn; exact Hn).
  unfold from_config. cbn zeta. set (a := Qmin (i * c) 1). assert (0 <= a <= 1)%Q as [Ha0 Ha1].
  { pose proof (Qmult_le_0_compat _ _ Hi Hc). destruct (Qmin_cases (i * c) 1) as [[E ?]|[E ?]]; fold a in E; rewrite E; split; lra. }
  set (m := Qmin (a * f) 1). assert (0 <= m <= a)%Q as [Hm0 Hm1].
  { assert (0 <= a * f <= a)%Q by (split; nra). destruct (Qmin_cases (a * f) 1) as [[E ?]|[E ?]]; fold m in E; rewrite E; split; lra. }
  assert ((a - m) / inject_Z n * inject_Z n == a - m)%Q as Ed by (field; lra).
  split; [|split; [split; cbn; lra|exact Ed]]. split; cbn; [split; lra|lra|]. apply Qle_shift_div_l; lra.
Qed.

Lemma decay_iter x k : ordered x → (min x <= current x)%Q →
  let y := Nat.iter k decay_step x in
  (current y == Qmax (current x - inject_Z (Z.of_nat k) * decay x) (min x))%Q ∧ min y = min x ∧ decay y = decay x ∧ init y = init x.
Proof.
  intros [_ _ Hd] Hc. induction k as [|k IH].
  { cbn. split; [|done]. destruct (Qmax_cases (current x - 0 * decay x) (min x)) as [[-> ?]|[-> ?]]; lra. }
  cbv zeta in *. rewrite Nat.iter_succ. set (y := Nat.iter k decay_step x) in *.
  destruct IH as (IH & Em & Ed & Ei). cbn [decay_step current min decay init]. rewrite Em, Ed, Ei. split; [|done].
  rewrite Nat2Z.inj_succ, <- Z.add_1_r, inject_Z_plus. change (inject_Z 1) with 1%Q.
  destruct (Qmax_cases (current x - inject_Z (Z.of_nat k) * decay x) (min x)) as [[E ?]|[E ?]]; rewrite E in IH;
    destruct (Qmax_cases (current y - decay x) (min x)) as [[E1 ?]|[E1 ?]]; rewrite E1;
    destruct (Qmax_cases (current x - (inject_Z (Z.of_nat k) + 1) * decay x) (min x)) as [[E2 ?]|[E2 ?]]; rewrite E2; lra.
Qed.

Lemma estimate_in_range max_new decode_steps reqs : 0 ≤ decode_steps → (∀ r, r ∈ reqs → 0 ≤ max_new r) →
  (0 <= estimate_new_token_ratio_after_retract max_new decode_steps reqs <= 1)%Q.
Proof.
  intros Hd Hm. unfold estimate_new_token_ratio_after_retract. cbv zeta. set (a := _ + _ * _). set (b := _ + 1).
  assert (0 ≤ a) as Ha.
  { assert (0 ≤ zsum ((λ r, zlen (k_output_ids r)) <$> reqs)) by (apply zsum_nonneg, Forall_fmap, Forall_forall; intros r _; apply zlen_nonneg).
    pose proof (zlen_nonneg reqs). unfold a. nia. }
  assert (0 < b) as Hb.
  { assert (0 ≤ zsum (max_new <$> reqs)) by (apply zsum_nonneg, Forall_fmap, Forall_forall; intros r Hr; by apply Hm). unfold b. lia. }
  rewrite Zle_Qle in Ha. rewrite Zlt_Qlt in Hb. change (inject_Z 0) with 0%Q in *.
  assert (0 <= inject_Z a / inject_Z b)%Q by (apply Qle_shift_div_l; lra).
  destruct (Qmin_cases 1 (inject_Z a / inject_Z b)) as [[E ?]|[E ?]]; rewrite E; lra.
Qed.

(** The life of the ratio: it decays, is reset, or is estimated after a retraction. *)
Inductive ratio_run (decode_steps : Z) : t → t → Prop :=
  | rn_refl x : ratio_run decode_steps x x
  | rn_decay x y : ratio_run decode_steps x y → ratio_run decode_steps x (decay_step y)
  | rn_reset x y : ratio_run decode_steps x y → ratio_run decode_steps x (reset y)
  | rn_retract x y max_new reqs : ratio_run decode_steps x y → (∀ r, r ∈ reqs → 0 ≤ max_new r) →
      ratio_run decode_steps x (set_current (estimate_new_token_ratio_after_retract max_new decode_steps reqs) y).

Lemma ratio_run_ok d x y : 0 ≤ d → ratio_run d x y → ordered x → in_range x →
  in_range y ∧ init y = init x ∧ min y = min x ∧ decay y = decay x.
Proof.
  intros Hd. induction 1 as [x|x y _ IH|x y _ IH|x y mx reqs _ IH Hm]; intros Ho Hr; [done|..]; destruct (IH Ho Hr) as (Hy & Ei & Em & Ed);
    destruct Ho as [[H1 H2] H3 H4]; split; try done; unfold in_range in *; cbn.
  - destruct (Qmax_cases (current y - decay y) (min y)) as [[-> ?]|[-> ?]]; rewrite ?Ed, ?Em in *; lra.
  - rewrite Ei. lra.
  - by apply estimate_in_range.
Qed.

(** Whatever the scheduler does with it, the ratio stays between 0 and 1 and
    its bounds as configured; and from start-up or a reset it falls, in the
    configured number of decay steps, to its minimum, and stays there. *)
Theorem ratio_in_range i f c n d y : config_ok i f c n → 0 ≤ d → ratio_run d (from_config i f c n) y →
  in_range y ∧ (0 <= min y <= init y)%Q ∧ ∀ k, n ≤ Z.of_nat k → (current (Nat.iter k decay_step (reset y)) == min y)%Q.
Proof.
  intros Hc Hd Hrun. destruct (config_ordered i f c n Hc) as (Ho & Hr & Hdec).
  destruct (ratio_run_ok d _ y Hd Hrun Ho Hr) as (Hy & Ei & Em & Ed). split; [done|]. split; [rewrite Ei, Em; apply Ho|].
  intros k Hk. destruct Ho as [[H1 H2] H3 H4]. rewrite <- Ei, <- Em, <- Ed in *.
  destruct (decay_iter (reset y) k) as (E & _); [by split|done|]. rewrite E. cbn [reset current decay min].
  assert (inject_Z n <= inject_Z (Z.of_nat k))%Q as Hq by (by rewrite <- Zle_Qle).
  destruct (Qmax_cases (init y - inject_Z (Z.of_nat k) * decay y) (min y)) as [[-> ?]|[-> ?]]; [|done]. nra.
Qed.
End Ratio.
