(* ===== verification/RetractCases.v ===== *)
(** * Retraction on concrete batches

    The two requests of the demonstration run as a decode batch, and a pool that
    is too small for two requests. *)
From S2P Require Import Prelude RadixKey EvictPolicy RadixCache RadixInv RadixOps RadixInsert RadixLock RadixEvict RadixSpec RadixTheorems RadixClient TokenAllocator PagedKernels PagedAllocator PySort KvRow KvTheorems KvRelease KvSystem KvAlloc KvPlace KvExtend KvDecode InvariantChecker KvChecks KvLife KvCases KvRetract RetractTheorems.
From Stdlib Require Import QArith.
Open Scope Z_scope.

#[local] Existing Instance Demo.pages.
#[local] Existing Instance Demo.slots.

Definition demo_sc : sched_config := {|
  retraction_by_priority := false;
  schedule_low_priority_values_first := false;
  enable_priority_scheduling := true;
  abort_on_priority_when_disabled := false;
  max_queued_requests := Some 4;
  enable_skip_finishing_decode := false;
  retract_decode_steps := 20
|}.

Definition batch_of (rs : list KvReq) : ScheduleBatch := mkBatch rs ((λ r, kv_allocated_len (kv r)) <$> rs) None false.
Definition demo_batch : ScheduleBatch := batch_of Demo.running.

Lemma batch_of_lens rs : lens_current (batch_of rs) ∧ ∀ idx, lens_at (batch_of rs) idx.
Proof.
  split; [by right|]. intros idx. split; [cbn; by rewrite length_fmap|]. intros i r _ Hi. cbn in *. by rewrite list_lookup_fmap, Hi.
Qed.

(** A request that still has its row is not reset; one with input embeddings forgets
    its output. *)
Definition with_embeds (r : KvReq) : KvReq :=
  mkKvReq (k_rid r) (k_origin_input_ids r) [7; 8] (full_untruncated_fill_ids r ++ [7]) false true
    (k_extra_key r) (k_cache_salt r) (k_priority r) (reasoning_tokens r) (finished_len r) (finished_reason r)
    (skip_radix_cache_insert r) (allow_radix_cache_insert_once r) (k_extend_end r) (k_prefix_len r) (k_last_node r)
    (lock r) (dsv4_donated_swa_len r) (external_kv_abort_requested r) (external_kv_cleanup_steps r) (kv r).
Example reset_on_requests :
  reset_for_retract running_b = Raise AssertionError ∧
  (let! r := reset_for_retract (with_embeds Demo.ra) in Ok (k_output_ids r, full_untruncated_fill_ids (refresh_fill_ids r))) = Ok ([], [1; 2; 3; 4; 5]).
Proof. split; vm_compute; reflexivity. Qed.

Definition demo_ratio : NewTokenRatioTracker.t := NewTokenRatioTracker.from_config (7 # 10) (14 # 100) 1 600.

Lemma demo_batch_reqs : b_reqs demo_batch = Demo.running.
Proof. reflexivity. Qed.

Lemma demo_batch_ok : sched_ok Run.clk Demo.cfg 3 12 (mkSched Demo.x7.2 (Demo.running ++ []) []).
Proof. rewrite app_nil_r. exact (demo_reachable_ok Demo.s1 Demo.reach_both). Qed.

Lemma demo_running : Forall running Demo.running.
Proof. vm_compute. repeat constructor. Qed.

(** The request with fewer output tokens goes back to the queue. *)
Lemma retract_makes_room_witness : ∃ rd w',
  retract_decode Run.clk Demo.cfg Demo.free_full Demo.leaves_of demo_sc (λ _, 100) demo_batch Demo.x7.2 = Ok (rd, w') ∧
  (length (b_reqs (rd_batch rd)) < 2)%nat.
Proof.
  destruct (retract_makes_room Run.clk Demo.cfg Demo.free_full Demo.leaves_of demo_sc (λ _, 100) 3 12 eq_refl eq_refl Demo.leaves_ok demo_batch [] [] Demo.x7.2)
    as (rd & w' & E & Hr).
  - rewrite demo_batch_reqs. intros H. vm_compute in H. discriminate H.
  - apply batch_of_lens.
  - rewrite demo_batch_reqs. exact demo_running.
  - rewrite demo_batch_reqs. exact demo_batch_ok.
  - exists rd, w'. split; [exact E|]. apply (rr_progress _ _ _ _ _ _ _ _ _ _ Hr). vm_compute. lia.
Defined.

Lemma demo_live : filter (λ r, finished_reason r = false) (b_reqs demo_batch) = Demo.running.
Proof. vm_compute. reflexivity. Qed.

Lemma demo_rids : k_rid <$> Demo.running ++ [] = ["b"; "a"].
Proof. vm_compute. reflexivity. Qed.

Lemma update_loses_nobody_witness : ∃ up w',
  update_running_batch Run.clk Demo.cfg Demo.free_full Demo.leaves_of demo_sc (λ _, 0) (λ _, 100) true [] demo_ratio [] demo_batch Demo.x7.2 = Ok (up, w') ∧
  ["b"; "a"] ≡ₚ k_rid <$> b_reqs (up_batch up) ++ up_queue up ++ up_aborted up.
Proof.
  destruct (update_loses_nobody Run.clk Demo.cfg Demo.free_full Demo.leaves_of demo_sc (λ _, 0) (λ _, 100) 3 12 eq_refl eq_refl Demo.leaves_ok
    true [] demo_ratio [] demo_batch [] Demo.x7.2) as (ex & up & w' & Eex & E & Hr).
  - rewrite demo_live. exact demo_batch_ok.
  - rewrite demo_live. vm_compute. repeat constructor; discriminate.
  - intros ex. apply (proj2 (batch_of_lens Demo.running)).
  - intros _. constructor.
  - intros _ m [= <-]. lia.
  - rewrite demo_live, demo_rids. repeat constructor; set_solver.
  - cbn. lia.
  - exists up, w'. split; [exact E|]. pose proof (ur_rids _ _ _ _ _ _ _ _ _ _ _ Hr) as H. rewrite demo_live, demo_rids in H.
    vm_compute in Eex. injection Eex as <-. rewrite H, !fmap_app. apply Permutation_app_head.
    replace (filter _ _) with (@nil KvReq); [reflexivity|]. vm_compute. reflexivity.
Defined.

Lemma ratio_in_range_witness : Ratio.in_range (NewTokenRatioTracker.decay_step demo_ratio).
Proof.
  apply (Ratio.ratio_in_range (7 # 10) (14 # 100) 1 600 20 (NewTokenRatioTracker.decay_step demo_ratio)).
  - split; [by vm_compute|split; by vm_compute|by vm_compute|lia].
  - lia.
  - apply Ratio.rn_decay, Ratio.rn_refl.
Defined.

(** ** A pool that is too small *)

(** Eight slots hold two requests of four and three tokens, with one slot left:
    the next tokens do not fit, nothing can be evicted, and the shorter one, with
    as many output tokens and a shorter prompt, stays. *)
Module Tight.
Definition a1 : Token.TokenToKVPoolAllocator := Token.init 8 false.
Definition w1 : world Token.TokenToKVPoolAllocator := mkWorld (cache Demo.w0) a1 (rows Demo.w0).
Definition admitted (rid : string) (ids : list Z) (w : world Token.TokenToKVPoolAllocator) : KvReq * world Token.TokenToKVPoolAllocator :=
  let r := Demo.request rid ids in
  let m := get (r, w) (init_next_round_input Run.clk Demo.cfg false [] r w) in
  get (r, w) (lock_admitted Demo.cfg (zlen ids) m.1 m.2).
Definition ya := admitted "a" [1; 2; 3; 4] w1.
Definition yb := admitted "b" [5; 6; 7] ya.2.
Definition x := Demo.extend yb.2 [ya.1; yb.1].
Definition b : ScheduleBatch := batch_of (append_output 8 None false <$> x.1.2).
Definition up := update_running_batch Run.clk Demo.cfg Demo.free_full Demo.leaves_of demo_sc (λ _, 0) (λ _, 100) false [] demo_ratio [] b x.2.

Example tight_retracts : ∃ u w, up = Ok (u, w) ∧
  k_rid <$> b_reqs (up_batch u) = ["b"] ∧ k_rid <$> up_queue u = ["a"] ∧ up_aborted u = [] ∧
  b_out_cache_loc (up_batch u) = Some [8] ∧ pool_available (pool w) = 4 ∧
  Qeq (NewTokenRatioTracker.current (up_tracker u)) (21 # 101).
Proof. vm_compute. do 2 eexists. split; [reflexivity|]. repeat split; reflexivity. Qed.
End Tight.

(** With priorities, a queue bounded by zero makes the scheduler compare the
    requests of an empty queue. *)
Example zero_queue_raises :
  _abort_on_queued_limit {| retraction_by_priority := false; schedule_low_priority_values_first := false; enable_priority_scheduling := true;
      abort_on_priority_when_disabled := false; max_queued_requests := Some 0; enable_skip_finishing_decode := false; retract_decode_steps := 20 |}
    (λ _, 0) (set_priority 0 (Demo.request "a" [1])) [] = Raise ValueError.
Proof. reflexivity. Qed.
