(* ===== verification/Text.v ===== *)
(** * Text

    A Python string as the list of its code points, and the operations on strings
    the modelled code uses: membership, position, suffix test, length in UTF-8. *)
From S2P Require Import Prelude.
From Stdlib Require Import Ascii.

Definition text := list Z.

(** A literal. *)
Definition txt (s : string) : text := (λ c, Z.of_N (N_of_ascii c)) <$> String.list_ascii_of_string s.

(** [s in t]. *)
Fixpoint str_in (s t : text) : bool :=
  bool_decide (s `prefix_of` t) || match t with [] => false | _ :: t => str_in s t end.

(** [t.find(s)], from position [i]; [-1] when there is none. *)
Fixpoint find_from (s t : text) (i : Z) : Z :=
  if bool_decide (s `prefix_of` t) then i else match t with [] => -1 | _ :: t => find_from s t (i + 1) end.
Definition str_find (s t : text) : Z := find_from s t 0.

(** [t.endswith(c)] for one character. *)
Definition ends_with (t : text) (c : Z) : bool := bool_decide (last t = Some c).

(** [t.rfind(c)] for one character: the last position of it from [i], or [best]. *)
Fixpoint rfind_from (c : Z) (t : text) (i best : Z) : Z :=
  match t with [] => best | x :: t => rfind_from c t (i + 1) (if x =? c then i else best) end.
Definition str_rfind (c : Z) (t : text) : Z := rfind_from c t 0 (-1).

(** [len(t.encode("utf-8"))]. *)
Definition utf8_width (c : Z) : Z := if c <? 128 then 1 else if c <? 2048 then 2 else if c <? 65536 then 3 else 4.
Definition utf8_len (t : text) : Z := zsum (utf8_width <$> t).

(** ** Occurrences *)

Lemma str_in_spec s t : str_in s t = true ↔ ∃ a b, t = a ++ s ++ b.
Proof.
  induction t as [|x t IH]; cbn [str_in]; rewrite orb_true_iff, bool_decide_eq_true.
  - split.
    + intros [[b Hb]|?]; [|done]. by exists [], b.
    + intros (a & b & E). left. exists b. destruct a; [exact E|done].
  - rewrite IH. split.
    + intros [[b Hb]|(a & b & ->)]; [by exists [], b|by exists (x :: a), b].
    + intros ([|y a] & b & E); [left; by exists b|right]. injection E as _ ->. by exists a, b.
Qed.

(** The text [s] occurs in [t] at position [i]. *)
Definition occurs_at (s t : text) (i : nat) : Prop := s `prefix_of` drop i t.

Lemma occurs_at_split s t i : s ≠ [] → occurs_at s t i → ∃ a b, t = a ++ s ++ b ∧ length a = i.
Proof.
  intros Hne [b Hb]. exists (take i t), b. split; [by rewrite <- Hb, take_drop|]. rewrite length_take.
  apply (f_equal length) in Hb. rewrite length_drop, length_app in Hb. destruct s; [done|]. cbn in Hb. lia.
Qed.

Lemma occurs_at_app s a b : occurs_at s (a ++ s ++ b) (length a).
Proof. unfold occurs_at. rewrite drop_app_length. by exists b. Qed.

(** [find] gives the first occurrence. *)
Lemma find_from_spec s t i : 0 ≤ i →
  (find_from s t i = -1 ∧ ∀ k, (k ≤ length t)%nat → ¬ occurs_at s t k) ∨
  (∃ k, find_from s t i = i + Z.of_nat k ∧ (k ≤ length t)%nat ∧ occurs_at s t k ∧ ∀ k', (k' < k)%nat → ¬ occurs_at s t k').
Proof.
  revert i. induction t as [|x t IH]; intros i Hi; cbn [find_from]; case_bool_decide as Hp.
  - right. exists 0%nat. split; [lia|]. split; [lia|]. split; [done|]. intros; lia.
  - left. split; [done|]. intros k Hk. cbn in Hk. replace k with 0%nat by lia. done.
  - right. exists 0%nat. split; [lia|]. split; [lia|]. split; [done|]. intros; lia.
  - destruct (IH (i + 1) ltac:(lia)) as [[-> Hn]|(k & -> & Hk & Ho & Hmin)].
    + left. split; [done|]. intros [|k] Hk; [done|]. apply Hn. cbn in Hk. lia.
    + right. exists (S k). split; [lia|]. split; [cbn; lia|]. split; [done|].
      intros [|k'] Hk'; [done|]. apply Hmin. lia.
Qed.

Lemma utf8_width_pos c : 1 ≤ utf8_width c.
Proof. unfold utf8_width. repeat case_match; lia. Qed.

Lemma utf8_len_ge t : zlen t ≤ utf8_len t.
Proof.
  unfold utf8_len, zlen. induction t as [|c t IH]; cbn [fmap list_fmap length]; [done|].
  change (zsum (utf8_width c :: (utf8_width <$> t))) with (utf8_width c + zsum (utf8_width <$> t)).
  pose proof (utf8_width_pos c). lia.
Qed.
