(* ===== verification/Finish.v ===== *)
(** * When a request is done ([Req.update_finish_state], [schedule_batch.py])

    After a forward pass the new tokens are checked: ids outside the vocabulary,
    stop strings and patterns in the decoded tail, stop tokens, the length limit,
    the grammar.  What is found sets the reason and, usually, the length of the
    output through the stop.  Also the ids kept for incremental decoding and the
    test whether the tail may begin a stop string.  The tokenizer and [re.search]
    are arguments. *)
From S2P Require Import Prelude Text.

Inductive finish_reason :=
  | FINISH_MATCHED_TOKEN (matched : Z)
  | FINISH_MATCHED_STR (matched : text)
  | FINISHED_MATCHED_REGEX (matched : text)
  | FINISH_LENGTH (length : Z)
  | FINISH_ABORT (message : text).

Record SamplingParams := mkParams {
  stop_strs : list text;
  stop_str_max_len : Z;
  stop_regex_strs : list text;
  stop_regex_max_len : Z;
  stop_token_ids : list Z;         (* in the order of iteration; None and empty alike *)
  p_max_new_tokens : Z;
  p_ignore_eos : bool
}.

(** What the request reads of its tokenizer. *)
Record Tokenizer := mkTokenizer {
  eos_token_id : option Z;
  additional_stop_token_ids : list Z;
  decode : list Z → text
}.

(** The part of [Req] that finishing touches. *)
Record FinReq := mkFin {
  origin_input_ids_unpadded : list Z;
  output_ids : list Z;
  finished_reason : option finish_reason;
  finished_len : option Z;
  to_finish : option finish_reason;
  decoded_text : text;
  surr_offset : option Z;
  read_offset : option Z;
  surr_and_decode_ids : list Z;
  cur_decode_ids_len : Z
}.

Definition set_finish (why : finish_reason) (len : option Z) (r : FinReq) : FinReq :=
  mkFin (origin_input_ids_unpadded r) (output_ids r) (Some why) len (to_finish r) (decoded_text r)
    (surr_offset r) (read_offset r) (surr_and_decode_ids r) (cur_decode_ids_len r).
Definition set_output (l : list Z) (r : FinReq) : FinReq :=
  mkFin (origin_input_ids_unpadded r) l (finished_reason r) (finished_len r) (to_finish r) (decoded_text r)
    (surr_offset r) (read_offset r) (surr_and_decode_ids r) (cur_decode_ids_len r).
Definition clear_to_finish (r : FinReq) : FinReq :=
  mkFin (origin_input_ids_unpadded r) (output_ids r) (finished_reason r) (finished_len r) None (decoded_text r)
    (surr_offset r) (read_offset r) (surr_and_decode_ids r) (cur_decode_ids_len r).
Definition set_decode (surr read : Z) (ids : list Z) (n : Z) (r : FinReq) : FinReq :=
  mkFin (origin_input_ids_unpadded r) (output_ids r) (finished_reason r) (finished_len r) (to_finish r) (decoded_text r)
    (Some surr) (Some read) ids n.

Definition finished (r : FinReq) : bool := match finished_reason r with Some _ => true | None => false end.

Definition through_stop (r : FinReq) : list Z :=
  match finished_len r with Some n => pytake (output_ids r) n | None => output_ids r end.

(** ** Incremental decoding *)

Definition INIT_INCREMENTAL_DETOKENIZATION_OFFSET : Z := 5.

(** The ids to decode, how many of them were read before, and the request. *)
Definition init_incremental_detokenize (r : FinReq) : list Z * Z * FinReq :=
  let out := through_stop r in
  let r :=
    match surr_offset r, read_offset r with
    | Some surr, Some read =>
        set_decode surr read (surr_and_decode_ids r ++ pydrop out (cur_decode_ids_len r)) (zlen out) r
    | _, _ =>
        let read := zlen (origin_input_ids_unpadded r) in
        let surr := Z.max (read - INIT_INCREMENTAL_DETOKENIZATION_OFFSET) 0 in
        set_decode surr read (pydrop (origin_input_ids_unpadded r) surr ++ out) (zlen out) r
    end in
  (surr_and_decode_ids r, default 0 (read_offset r) - default 0 (surr_offset r), r).

(** ** Stops *)

Section finish.
Context (sp : SamplingParams) (tokenizer : option Tokenizer) (vocab_size : option Z) (eos_token_ids : list Z).
(** [None]: no grammar; otherwise [is_terminated()]. *)
Context (grammar : option bool).
(** [re.search]: [None] when it raises. *)
Context (re_search : text → text → option bool).

Definition _stop_match_tail_len (new_accepted_len : Z) (r : FinReq) : Z :=
  let max_len_tail_str := Z.max (stop_str_max_len sp + 1) (stop_regex_max_len sp + 1) in
  Z.min (max_len_tail_str + Z.max (new_accepted_len - 1) 0) (zlen (output_ids r)).

(** [self.tokenizer.decode], which fails without a tokenizer. *)
Definition decode_ids (ids : list Z) : result text :=
  match tokenizer with Some t => Ok (decode t ids) | None => Raise AttributeError end.

Definition no_stop_text : bool := (zlen (stop_strs sp) =? 0) && (zlen (stop_regex_strs sp) =? 0).

Definition tail_str (new_accepted_len : Z) (r : FinReq) : result text :=
  if no_stop_text then Ok []
  else decode_ids (pydrop (output_ids r) (- _stop_match_tail_len new_accepted_len r)).

(** [tail_str[-i:] == stop_str[:i]] for some [i] from 1. *)
Definition begins (tail stop : text) : bool :=
  existsb (λ i, bool_decide (pydrop tail (- Z.of_nat i) = pytake stop (Z.of_nat i))) (seq 1 (Nat.min (length tail) (length stop))).

Definition check_match_stop_str_prefix (r : FinReq) : result bool :=
  if zlen (stop_strs sp) =? 0 then Ok false
  else
    let! tail := tail_str 1 r in
    if zlen tail =? 0 then Ok false
    else Ok (existsb (λ stop, negb (zlen stop =? 0) && (str_in stop tail || begins tail stop)) (stop_strs sp)).

Definition is_stop_token (t : Z) : bool :=
  bool_decide (t ∈ stop_token_ids sp) || bool_decide (t ∈ eos_token_ids) ||
  match tokenizer with
  | Some tk => bool_decide (Some t = eos_token_id tk) || bool_decide (t ∈ additional_stop_token_ids tk)
  | None => false
  end.

(** The first token with the property, and its position. *)
Fixpoint first_index (f : Z → bool) (i : Z) (l : list Z) : option (Z * Z) :=
  match l with [] => None | t :: l => if f t then Some (i, t) else first_index f (i + 1) l end.

Definition _check_token_based_finish (new_accepted_tokens : list Z) (r : FinReq) : bool * FinReq :=
  if p_ignore_eos sp then (false, r)
  else
    match first_index is_stop_token 0 new_accepted_tokens with
    | Some (i, t) =>
        let matched_pos := zlen (output_ids r) - zlen new_accepted_tokens + i in
        (true, set_finish (FINISH_MATCHED_TOKEN t) (Some (matched_pos + 1)) r)
    | None => (false, r)
    end.

(** [matched(text)] for a stop string or a pattern. *)
Inductive stop := StopStr (s : text) | StopRegex (p : text).
Definition matched (st : stop) (t : text) : result bool :=
  match st with
  | StopStr s => Ok (str_in s t)
  | StopRegex p => match re_search p t with Some b => Ok b | None => Raise ReError end
  end.

(** The loop over [range(token_count, len(token_window))]; [n] rounds are left. *)
Fixpoint locate_loop (st : stop) (token_window : list Z) (token_count : Z) (n : nat) : result (option Z) :=
  match n with
  | O => Ok None
  | S n =>
      let! t := decode_ids (pytake token_window token_count) in
      let! m := matched st t in
      if m then Ok (Some token_count) else locate_loop st token_window (token_count + 1) n
  end.

Definition _locate_str_stop_finished_len (new_accepted_len : Z) (st : stop) (r : FinReq) : result Z :=
  let tail_len := _stop_match_tail_len new_accepted_len r in
  let start := zlen (output_ids r) - tail_len in
  let token_window := pydrop (output_ids r) start in
  let first := Z.max 1 (zlen token_window - new_accepted_len + 1) in
  let! found := locate_loop st token_window first (Z.to_nat (zlen token_window - first)) in
  Ok (match found with Some token_count => start + token_count | None => zlen (output_ids r) end).

Fixpoint stop_str_loop (new_accepted_len : Z) (tail : text) (stops : list text) (r : FinReq) : result (bool * FinReq) :=
  match stops with
  | [] => Ok (false, r)
  | s :: stops =>
      if str_in s tail then
        let! n := _locate_str_stop_finished_len new_accepted_len (StopStr s) r in
        Ok (true, set_finish (FINISH_MATCHED_STR s) (Some n) r)
      else if str_in s (decoded_text r) then Ok (true, set_finish (FINISH_MATCHED_STR s) (finished_len r) r)
      else stop_str_loop new_accepted_len tail stops r
  end.

Fixpoint stop_regex_loop (new_accepted_len : Z) (tail : text) (patterns : list text) (r : FinReq) : result (bool * FinReq) :=
  match patterns with
  | [] => Ok (false, r)
  | p :: patterns =>
      match re_search p tail with
      | None => Ok (false, set_finish (FINISH_ABORT p) (finished_len r) r)
      | Some true =>
          let! n := _locate_str_stop_finished_len new_accepted_len (StopRegex p) r in
          Ok (true, set_finish (FINISHED_MATCHED_REGEX p) (Some n) r)
      | Some false => stop_regex_loop new_accepted_len tail patterns r
      end
  end.

Definition _check_str_based_finish (new_accepted_len : Z) (r : FinReq) : result (bool * FinReq) :=
  if no_stop_text then Ok (false, r)
  else
    let! tail := tail_str new_accepted_len r in
    let! (b, r) := stop_str_loop new_accepted_len tail (stop_strs sp) r in
    if b then Ok (true, r) else stop_regex_loop new_accepted_len tail (stop_regex_strs sp) r.

Definition out_of_vocab (t : Z) : bool := (t <? 0) || match vocab_size with Some v => v <=? t | None => false end.

(** ["NaN happened"]. *)
Definition NaN_happened : text := txt "NaN happened".

(** The first bad id is replaced, by a stop id and then by an end id, if any. *)
Definition _check_vocab_boundary_finish (new_accepted_tokens : list Z) (r : FinReq) : bool * FinReq :=
  match first_index out_of_vocab 0 new_accepted_tokens with
  | Some (i, _) =>
      let offset := zlen (output_ids r) - zlen new_accepted_tokens + i in
      let put l (ids : list Z) := match ids with t :: _ => <[Z.to_nat offset := t]> l | [] => l end in
      let r := set_output (put (put (output_ids r) (stop_token_ids sp)) eos_token_ids) r in
      (true, set_finish (FINISH_MATCHED_STR NaN_happened) (Some (offset + 1)) r)
  | None => (false, r)
  end.

Definition _cap_finished_len_at_max_new_tokens (r : FinReq) : FinReq :=
  match finished_len r with
  | Some n =>
      if p_max_new_tokens sp <? n then set_finish (FINISH_LENGTH (p_max_new_tokens sp)) (Some (p_max_new_tokens sp)) r else r
  | None => r
  end.

Definition update_finish_state (new_accepted_len : Z) (r : FinReq) : result FinReq :=
  if finished r then Ok r
  else
    match to_finish r with
    | Some why => Ok (clear_to_finish (set_finish why (finished_len r) r))
    | None =>
        let new_accepted_tokens := pydrop (output_ids r) (- new_accepted_len) in
        let (b, r) := _check_vocab_boundary_finish new_accepted_tokens r in
        if b then Ok (_cap_finished_len_at_max_new_tokens r)
        else
          let! (b, r) := _check_str_based_finish new_accepted_len r in
          if b then Ok (_cap_finished_len_at_max_new_tokens r)
          else
            let (b, r) := _check_token_based_finish new_accepted_tokens r in
            if b then Ok (_cap_finished_len_at_max_new_tokens r)
            else if p_max_new_tokens sp <=? zlen (output_ids r) then
              Ok (set_finish (FINISH_LENGTH (p_max_new_tokens sp)) (Some (p_max_new_tokens sp)) r)
            else
              match grammar with
              | Some true =>
                  match last (output_ids r) with
                  | Some t => Ok (set_finish (FINISH_MATCHED_TOKEN t) (finished_len r) r)
                  | None => Raise IndexError
                  end
              | _ => Ok r
              end
    end.
End finish.
