(* ===== verification/FinishTheorems.v ===== *)
(** * The end of a request is where it should be

    The recorded length of a finished request lies within the tokens of the step
    that finished it and within the length limit, a stop text is located at its
    earliest end, a request goes on exactly when nothing stops it, what is held
    back for streaming suffices, and incremental decoding sees every id once. *)
From S2P Require Import Prelude Text Finish.

(** ** Scans *)

Lemma first_index_Some f i l j t : first_index f i l = Some (j, t) →
  ∃ k, l !! k = Some t ∧ f t = true ∧ j = i + Z.of_nat k ∧ ∀ k' t', (k' < k)%nat → l !! k' = Some t' → f t' = false.
Proof.
  revert i. induction l as [|x l IH]; intros i; [done|]. cbn [first_index]. destruct (f x) eqn:Ex.
  - intros [= <- <-]. exists 0%nat. split; [done|]. split; [done|]. split; [lia|]. intros; lia.
  - intros (k & Hk & Ht & -> & Hmin)%IH. exists (S k). split; [done|]. split; [done|]. split; [lia|].
    intros [|k'] t' Hlt; [by intros [= <-]|]. apply Hmin. lia.
Qed.

Lemma first_index_None f i l : first_index f i l = None ↔ Forall (λ t, f t = false) l.
Proof.
  revert i. induction l as [|x l IH]; intros i; cbn [first_index]; [done|]. rewrite Forall_cons. destruct (f x) eqn:Ex.
  - split; [done|]. intros [? _]. congruence.
  - rewrite IH. tauto.
Qed.

(** Where the scan of the last [n] tokens of a list finds something. *)
Lemma first_index_new f n l j t : 1 ≤ n ≤ zlen l → first_index f 0 (pydrop l (- n)) = Some (j, t) →
  zlen l - n < zlen l - zlen (pydrop l (- n)) + j + 1 ≤ zlen l ∧ zlen (pydrop l (- n)) = n.
Proof.
  intros Hn (k & Hk & _ & -> & _)%first_index_Some. apply lookup_lt_Some in Hk. rewrite pydrop_neg in * by lia.
  unfold zlen in *. rewrite length_drop in *. lia.
Qed.

Section finish.
Context (sp : SamplingParams) (tokenizer : option Tokenizer) (vocab_size : option Z) (eos_token_ids : list Z).
Context (grammar : option bool) (re_search : text → text → option bool).

(** The settings a normalised request has. *)
Record params_ok : Prop := {
  pa_str : 0 ≤ stop_str_max_len sp;
  pa_regex : 0 ≤ stop_regex_max_len sp;
  pa_tokenizer : no_stop_text sp = false → is_Some tokenizer
}.

(** A pattern that does not compile raises on every text. *)
Definition re_ok : Prop := ∀ p t t', re_search p t = None → re_search p t' = None.

Context (Hpar : params_ok).

Lemma tail_len_bounds n r : 1 ≤ n ≤ zlen (output_ids r) → n ≤ _stop_match_tail_len sp n r ≤ zlen (output_ids r).
Proof. destruct Hpar. unfold _stop_match_tail_len. lia. Qed.

(** ** Locating a stop *)

Lemma locate_loop_spec st window c n tk : tokenizer = Some tk → (∀ t, is_Some (match matched re_search st t with Ok b => Some b | Raise _ => None end)) →
  ∃ found, locate_loop tokenizer re_search st window c n = Ok found ∧
    match found with
    | Some k => c ≤ k < c + Z.of_nat n ∧ matched re_search st (decode tk (pytake window k)) = Ok true ∧
        ∀ j, c ≤ j < k → matched re_search st (decode tk (pytake window j)) = Ok false
    | None => ∀ j, c ≤ j < c + Z.of_nat n → matched re_search st (decode tk (pytake window j)) = Ok false
    end.
Proof.
  intros Htk Hm. revert c. induction n as [|n IH]; intros c; cbn [locate_loop].
  { exists None. split; [done|]. lia. }
  unfold decode_ids. rewrite Htk. cbn [rbind]. destruct (Hm (decode tk (pytake window c))) as [b Hb].
  destruct (matched re_search st (decode tk (pytake window c))) as [b'|] eqn:Eb; [|done]. cbn [rbind]. destruct b'.
  - exists (Some c). split; [done|]. split; [lia|]. split; [done|]. lia.
  - destruct (IH (c + 1)) as (found & E & Hf). rewrite Htk in E. exists found. split; [exact E|]. destruct found as [k|].
    + destruct Hf as (Hk & Hmk & Hmin). split; [lia|]. split; [done|]. intros j Hj. destruct (decide (j = c)) as [->|]; [done|]. apply Hmin. lia.
    + intros j Hj. destruct (decide (j = c)) as [->|]; [done|]. apply Hf. lia.
Qed.

(** The text of the tokens from the start of the window to position [c]. *)
Definition window_text (tk : Tokenizer) (n : Z) (r : FinReq) (c : Z) : text :=
  decode tk (pyslice (output_ids r) (zlen (output_ids r) - _stop_match_tail_len sp n r) c).

Lemma locate_spec n st r tk : tokenizer = Some tk → 1 ≤ n ≤ zlen (output_ids r) →
  (∀ t, is_Some (match matched re_search st t with Ok b => Some b | Raise _ => None end)) →
  ∃ k, _locate_str_stop_finished_len sp tokenizer re_search n st r = Ok k ∧ zlen (output_ids r) - n < k ≤ zlen (output_ids r) ∧
    (k = zlen (output_ids r) ∨ matched re_search st (window_text tk n r k) = Ok true) ∧
    ∀ c, zlen (output_ids r) - n < c < k → matched re_search st (window_text tk n r c) = Ok false.
Proof.
  intros Htk Hn Hm. pose proof (tail_len_bounds n r Hn) as Htl. unfold _locate_str_stop_finished_len, window_text.
  set (tl := _stop_match_tail_len sp n r) in *. set (len := zlen (output_ids r)) in *. set (w := pydrop (output_ids r) (len - tl)).
  assert (zlen w = tl) as Hw by (unfold w; rewrite zlen_pydrop by lia; fold len; lia). rewrite Hw.
  assert (∀ c, len - tl ≤ c ≤ len → pyslice (output_ids r) (len - tl) c = pytake w (c - (len - tl))) as Hsl.
  { intros c Hc. rewrite pyslice_eq by (fold len; lia). unfold w. rewrite pytake_eq, pydrop_eq by lia. done. }
  destruct (locate_loop_spec st w (Z.max 1 (tl - n + 1)) (Z.to_nat (tl - Z.max 1 (tl - n + 1))) tk Htk Hm) as (found & -> & Hf). cbn [rbind].
  destruct found as [k|]; eexists; (split; [reflexivity|]).
  - destruct Hf as (Hk & Hmk & Hmin). split; [lia|]. split.
    + right. rewrite Hsl by lia. replace (len - tl + k - (len - tl)) with k by lia. done.
    + intros c Hc. rewrite Hsl by lia. apply Hmin. lia.
  - split; [lia|]. split; [by left|]. intros c Hc. rewrite Hsl by lia. apply Hf. lia.
Qed.

(** ** The checks *)

(** [k] is the end of one of the last [n] tokens. *)
Definition in_step (n : Z) (r : FinReq) (fl : option Z) : Prop :=
  match fl with Some k => zlen (output_ids r) - n < k ≤ zlen (output_ids r) | None => True end.

Lemma stop_str_loop_spec n tail stops r tk : tokenizer = Some tk → 1 ≤ n ≤ zlen (output_ids r) → finished_len r = None →
  ∃ b r', stop_str_loop sp tokenizer re_search n tail stops r = Ok (b, r') ∧
    (if b then ∃ s fl, s ∈ stops ∧ r' = set_finish (FINISH_MATCHED_STR s) fl r ∧ in_step n r fl ∧ (str_in s tail = true ∨ str_in s (decoded_text r) = true)
     else r' = r ∧ Forall (λ s, str_in s tail = false ∧ str_in s (decoded_text r) = false) stops).
Proof.
  intros Htk Hn Hfl. induction stops as [|s stops IH]; cbn [stop_str_loop]; [by exists false, r|].
  destruct (str_in s tail) eqn:Et.
  { destruct (locate_spec n (StopStr s) r tk Htk Hn) as (k & -> & Hk & _); [by intros; eexists|]. cbn [rbind].
    eexists true, _. split; [done|]. exists s, (Some k). split; [by left|]. auto. }
  destruct (str_in s (decoded_text r)) eqn:Ed.
  { eexists true, _. split; [done|]. exists s, (finished_len r). rewrite Hfl. split; [by left|]. split; [done|]. split; [done|auto]. }
  destruct IH as (b & r' & -> & Hb). exists b, r'. split; [done|]. destruct b.
  - destruct Hb as (s' & fl & Hs & ?). exists s', fl. split; [by right|done].
  - destruct Hb as [-> HF]. split; [done|]. by constructor.
Qed.

Lemma stop_regex_loop_spec n tail patterns r tk : re_ok → tokenizer = Some tk → 1 ≤ n ≤ zlen (output_ids r) → finished_len r = None →
  ∃ b r', stop_regex_loop sp tokenizer re_search n tail patterns r = Ok (b, r') ∧
    (if b then ∃ p k, p ∈ patterns ∧ r' = set_finish (FINISHED_MATCHED_REGEX p) (Some k) r ∧ in_step n r (Some k) ∧ re_search p tail = Some true
     else r' = r ∧ Forall (λ p, re_search p tail = Some false) patterns ∨
          ∃ p, p ∈ patterns ∧ re_search p tail = None ∧ r' = set_finish (FINISH_ABORT p) None r).
Proof.
  intros Hre Htk Hn Hfl. induction patterns as [|p patterns IH]; cbn [stop_regex_loop]; [exists false, r; split; [done|by left]|].
  destruct (re_search p tail) as [[|]|] eqn:Ep.
  - destruct (locate_spec n (StopRegex p) r tk Htk Hn) as (k & -> & Hk & _).
    { intros t. cbn. destruct (re_search p t) eqn:Et; [by eexists|]. by rewrite (Hre p t tail Et) in Ep. }
    cbn [rbind]. eexists true, _. split; [done|]. exists p, k. split; [by left|]. auto.
  - destruct IH as (b & r' & -> & Hb). exists b, r'. split; [done|]. destruct b.
    + destruct Hb as (p' & k & Hp & ?). exists p', k. split; [by right|done].
    + destruct Hb as [[-> HF]|(p' & Hp & ?)]; [left; split; [done|by constructor]|right]. exists p'. split; [by right|done].
  - eexists false, _. rewrite Hfl. split; [done|]. right. exists p. split; [by left|done].
Qed.

(** The text the stops are looked for in. *)
Definition tail_of (n : Z) (r : FinReq) : text := match tail_str sp tokenizer n r with Ok t => t | Raise _ => [] end.

(** Nothing in the text stops the request. *)
Definition text_quiet (n : Z) (r : FinReq) : Prop :=
  Forall (λ s, str_in s (tail_of n r) = false ∧ str_in s (decoded_text r) = false) (stop_strs sp) ∧
  Forall (λ p, re_search p (tail_of n r) = Some false) (stop_regex_strs sp).

Lemma str_based_spec n r : re_ok → 1 ≤ n ≤ zlen (output_ids r) → finished_len r = None →
  ∃ b r', _check_str_based_finish sp tokenizer re_search n r = Ok (b, r') ∧
    (if b then ∃ why fl, r' = set_finish why fl r ∧ in_step n r fl ∧ ¬ text_quiet n r
     else r' = r ∧ text_quiet n r ∨ (∃ p, r' = set_finish (FINISH_ABORT p) None r) ∧ ¬ text_quiet n r).
Proof.
  intros Hre Hn Hfl. unfold _check_str_based_finish. destruct (no_stop_text sp) eqn:En.
  { exists false, r. split; [done|]. left. split; [done|]. unfold no_stop_text in En. apply andb_true_iff in En as [E1 E2].
    apply Z.eqb_eq, zlen_nil_inv in E1, E2. unfold text_quiet. rewrite E1, E2. done. }
  destruct (pa_tokenizer Hpar En) as [tk Htk]. assert (tail_str sp tokenizer n r = Ok (tail_of n r)) as Et.
  { unfold tail_of, tail_str, decode_ids. by rewrite En, Htk. }
  rewrite Et. cbn [rbind]. unfold text_quiet. set (tail := tail_of n r) in *.
  destruct (stop_str_loop_spec n tail (stop_strs sp) r tk Htk Hn Hfl) as (b & r1 & -> & Hb). cbn [rbind]. destruct b.
  { destruct Hb as (s & fl & Hs & -> & Hin & Hor). eexists true, _. split; [done|]. exists (FINISH_MATCHED_STR s), fl. split; [done|]. split; [done|].
    intros [HF _]. rewrite Forall_forall in HF. destruct (HF s Hs). destruct Hor; congruence. }
  destruct Hb as [-> HF]. destruct (stop_regex_loop_spec n tail (stop_regex_strs sp) r tk Hre Htk Hn Hfl) as (b & r2 & -> & Hb).
  exists b, r2. split; [done|]. destruct b.
  - destruct Hb as (p & k & Hp & -> & Hin & Hm). exists (FINISHED_MATCHED_REGEX p), (Some k). split; [done|]. split; [done|].
    intros [_ HF']. rewrite Forall_forall in HF'. specialize (HF' p Hp). congruence.
  - destruct Hb as [[-> HF']|(p & Hp & Hm & ->)]; [by left|right]. split; [by exists p|]. intros [_ HF'].
    rewrite Forall_forall in HF'. specialize (HF' p Hp). congruence.
Qed.

(** ** The step *)

(** What the step leaves. *)
Record finish_step (n : Z) (r r' : FinReq) : Prop := {
  fs_len : length (output_ids r') = length (output_ids r);
  fs_old : take (Z.to_nat (zlen (output_ids r) - n)) (output_ids r') = take (Z.to_nat (zlen (output_ids r) - n)) (output_ids r);
  fs_end : match finished_len r' with
           | Some k => finished r' = true ∧ zlen (output_ids r) - n < k ≤ zlen (output_ids r) ∧ k ≤ p_max_new_tokens sp
           | None => True
           end
}.

Lemma cap_step n r why fl r1 : output_ids r1 = output_ids r ∨
    (length (output_ids r1) = length (output_ids r) ∧ take (Z.to_nat (zlen (output_ids r) - n)) (output_ids r1) = take (Z.to_nat (zlen (output_ids r) - n)) (output_ids r)) →
  in_step n r fl → zlen (output_ids r) - n < p_max_new_tokens sp →
  finish_step n r (_cap_finished_len_at_max_new_tokens sp (set_finish why fl r1)) ∧ finished (_cap_finished_len_at_max_new_tokens sp (set_finish why fl r1)) = true.
Proof.
  intros Ho Hin Hmax. assert (length (output_ids r1) = length (output_ids r) ∧
    take (Z.to_nat (zlen (output_ids r) - n)) (output_ids r1) = take (Z.to_nat (zlen (output_ids r) - n)) (output_ids r)) as [H1 H2] by (by destruct Ho as [->|?]).
  unfold _cap_finished_len_at_max_new_tokens. cbn [finished_len set_finish]. destruct fl as [k|]; [|by split].
  cbn in Hin. destruct (Z.ltb_spec (p_max_new_tokens sp) k); (split; [|done]); split; cbn; try done; lia.
Qed.

(** The new tokens are in the vocabulary, and none of them stops the request. *)
Definition tokens_quiet (n : Z) (r : FinReq) : Prop :=
  Forall (λ t, out_of_vocab vocab_size t = false) (pydrop (output_ids r) (- n)) ∧
  (p_ignore_eos sp = true ∨ Forall (λ t, is_stop_token sp tokenizer eos_token_ids t = false) (pydrop (output_ids r) (- n))).

(** Nothing stops the request. *)
Definition quiet (n : Z) (r : FinReq) : Prop :=
  tokens_quiet n r ∧ text_quiet n r ∧ zlen (output_ids r) < p_max_new_tokens sp ∧ grammar ≠ Some true.

Lemma vocab_spec n r : 1 ≤ n ≤ zlen (output_ids r) →
  let (b, r') := _check_vocab_boundary_finish sp vocab_size eos_token_ids (pydrop (output_ids r) (- n)) r in
  if b then ∃ r1 fl, r' = set_finish (FINISH_MATCHED_STR NaN_happened) fl r1 ∧ in_step n r fl ∧
              length (output_ids r1) = length (output_ids r) ∧
              take (Z.to_nat (zlen (output_ids r) - n)) (output_ids r1) = take (Z.to_nat (zlen (output_ids r) - n)) (output_ids r) ∧
              ¬ Forall (λ t, out_of_vocab vocab_size t = false) (pydrop (output_ids r) (- n))
  else r' = r ∧ Forall (λ t, out_of_vocab vocab_size t = false) (pydrop (output_ids r) (- n)).
Proof.
  intros Hn. unfold _check_vocab_boundary_finish. destruct (first_index _ _ _) as [[i t]|] eqn:Ef.
  2:{ split; [done|]. by apply first_index_None in Ef. }
  destruct (first_index_new _ n _ _ _ Hn Ef) as [Hk Hl]. eexists _, _. split; [reflexivity|]. split; [cbn; lia|].
  set (o := Z.to_nat _). assert ((Z.to_nat (zlen (output_ids r) - n) ≤ o)%nat) as Ho.
  { apply first_index_Some in Ef as (k & _ & _ & -> & _). unfold o. lia. }
  split; [|split].
  - cbn. destruct (stop_token_ids sp), eos_token_ids; by rewrite ?length_insert.
  - cbn. destruct (stop_token_ids sp), eos_token_ids; rewrite ?take_insert_ge by done; done.
  - rewrite <- (first_index_None _ 0). by rewrite Ef.
Qed.

Lemma token_spec n r r0 : 1 ≤ n ≤ zlen (output_ids r) → output_ids r0 = output_ids r →
  let (b, r') := _check_token_based_finish sp tokenizer eos_token_ids (pydrop (output_ids r) (- n)) r0 in
  if b then ∃ why fl, r' = set_finish why fl r0 ∧ in_step n r fl ∧
              ¬ (p_ignore_eos sp = true ∨ Forall (λ t, is_stop_token sp tokenizer eos_token_ids t = false) (pydrop (output_ids r) (- n)))
  else r' = r0 ∧ (p_ignore_eos sp = true ∨ Forall (λ t, is_stop_token sp tokenizer eos_token_ids t = false) (pydrop (output_ids r) (- n))).
Proof.
  intros Hn Ho. unfold _check_token_based_finish. destruct (p_ignore_eos sp); [by split; [|left]|].
  destruct (first_index _ _ _) as [[i t]|] eqn:Ef.
  2:{ split; [done|]. right. by apply first_index_None in Ef. }
  destruct (first_index_new _ n _ _ _ Hn Ef) as [Hk Hl]. rewrite Ho. eexists _, _. split; [reflexivity|]. split; [cbn; lia|].
  intros [?|HF]; [done|]. apply (first_index_None _ 0) in HF. congruence.
Qed.

(** The end of the step, when no check has returned. *)
Lemma length_or_grammar n r r0 : 1 ≤ n ≤ zlen (output_ids r) → output_ids r0 = output_ids r → finished_len r0 = None →
  zlen (output_ids r) - n < p_max_new_tokens sp →
  ∃ r', (if p_max_new_tokens sp <=? zlen (output_ids r0) then
           Ok (set_finish (FINISH_LENGTH (p_max_new_tokens sp)) (Some (p_max_new_tokens sp)) r0)
         else match grammar with
              | Some true => match last (output_ids r0) with
                             | Some t => Ok (set_finish (FINISH_MATCHED_TOKEN t) (finished_len r0) r0)
                             | None => Raise IndexError
                             end
              | _ => Ok r0
              end) = Ok r' ∧ finish_step n r r' ∧
    (finished r' = false ↔ finished r0 = false ∧ zlen (output_ids r) < p_max_new_tokens sp ∧ grammar ≠ Some true).
Proof.
  intros Hn Ho Hfl Hmax. rewrite Ho. destruct (Z.leb_spec (p_max_new_tokens sp) (zlen (output_ids r))) as [Hle|Hgt].
  { eexists. split; [done|]. split; [split; cbn; rewrite ?Ho; try done; lia|]. split; [done|]. lia. }
  assert (finish_step n r r0) as Hs0 by (split; rewrite ?Ho, ?Hfl; done).
  destruct grammar as [[|]|].
  - destruct (last (output_ids r)) as [t|] eqn:El.
    + eexists. split; [done|]. split; [split; cbn; rewrite ?Ho, ?Hfl; done|]. split; [done|]. by intros (_ & _ & ?).
    + apply last_None in El. rewrite El in Hn. change (zlen []) with 0 in Hn. lia.
  - exists r0. split; [done|]. split; [done|]. split; [|tauto]. intros ->. by split; [|split; [lia|]].
  - exists r0. split; [done|]. split; [done|]. split; [|tauto]. intros ->. by split; [|split; [lia|]].
Qed.

Lemma update_spec n r : re_ok → 1 ≤ n ≤ zlen (output_ids r) → finished r = false → to_finish r = None → finished_len r = None →
  zlen (output_ids r) - n < p_max_new_tokens sp →
  ∃ r', update_finish_state sp tokenizer vocab_size eos_token_ids grammar re_search n r = Ok r' ∧ finish_step n r r' ∧
    (finished r' = false ↔ quiet n r).
Proof.
  intros Hre Hn Hf Ht Hfl Hmax. unfold update_finish_state, quiet, tokens_quiet. rewrite Hf, Ht.
  pose proof (vocab_spec n r Hn) as Hv. destruct (_check_vocab_boundary_finish _ _ _ _ _) as [b r1]. destruct b.
  { destruct Hv as (r2 & fl & -> & Hin & H1 & H2 & Hbad). destruct (cap_step n r (FINISH_MATCHED_STR NaN_happened) fl r2 (or_intror (conj H1 H2)) Hin Hmax) as [Hs Hfin].
    eexists. split; [reflexivity|]. split; [done|]. rewrite Hfin. split; [done|tauto]. }
  destruct Hv as [-> Hvoc]. destruct (str_based_spec n r Hre Hn Hfl) as (b & r1 & -> & Hb). cbn [rbind]. destruct b.
  { destruct Hb as (why & fl & -> & Hin & Hq). destruct (cap_step n r why fl r (or_introl eq_refl) Hin Hmax) as [Hs Hfin].
    eexists. split; [reflexivity|]. split; [done|]. rewrite Hfin. split; [done|tauto]. }
  assert (output_ids r1 = output_ids r ∧ finished_len r1 = None ∧ (finished r1 = false ↔ text_quiet n r)) as (Ho1 & Hfl1 & Hq1).
  { destruct Hb as [[-> Hq]|[(p & ->) Hq]]; [by rewrite Hf|]. split; [done|]. split; [done|]. by split. }
  clear Hb. pose proof (token_spec n r r1 Hn Ho1) as Htok. destruct (_check_token_based_finish _ _ _ _ _) as [b r2]. destruct b.
  { destruct Htok as (why & fl & -> & Hin & Hq). destruct (cap_step n r why fl r1 (or_introl Ho1) Hin Hmax) as [Hs Hfin].
    eexists. split; [reflexivity|]. split; [done|]. rewrite Hfin. split; [done|tauto]. }
  destruct Htok as [-> Hq2]. destruct (length_or_grammar n r r1 Hn Ho1 Hfl1 Hmax) as (r' & E & Hs & Hfin).
  exists r'. split; [exact E|]. split; [done|]. rewrite Hfin, Hq1. tauto.
Qed.

(** ** What is held back *)

Lemma begins_spec tail s k : (0 < k)%nat → (k ≤ length tail)%nat → (k ≤ length s)%nat → drop (length tail - k) tail = take k s → begins tail s = true.
Proof.
  intros H0 H1 H2 E. unfold begins. apply existsb_exists. exists k. split; [apply in_seq; lia|].
  apply bool_decide_eq_true. rewrite pydrop_neg, pytake_eq by lia. by rewrite !Nat2Z.id.
Qed.

(** A text that occurs across the end of [tail] begins in it. *)
Lemma straddle (tail later a s b : text) : tail ++ later = a ++ s ++ b → (length a < length tail)%nat → s ≠ [] →
  str_in s tail = true ∨ begins tail s = true.
Proof.
  intros E Hlt Hs. assert (tail = a ++ drop (length a) tail) as Et.
  { rewrite <- (take_drop (length a) tail) at 1. f_equal. apply (f_equal (take (length a))) in E. rewrite take_app_le in E by lia.
    rewrite E, take_app_le, take_ge by lia. done. }
  assert (drop (length a) tail ++ later = s ++ b) as E'.
  { apply (f_equal (drop (length a))) in E. rewrite drop_app_le in E by lia. by rewrite drop_app_length in E. }
  set (u := drop (length a) tail) in *. assert (length u = length tail - length a)%nat as Hu by (unfold u; apply length_drop).
  destruct (decide (length s ≤ length u)%nat) as [Hle|Hgt].
  - left. apply str_in_spec. exists a, (drop (length s) u). rewrite Et at 1. f_equal.
    rewrite <- (take_drop (length s) u) at 1. f_equal. apply (f_equal (take (length s))) in E'. rewrite take_app_le, take_app_le in E' by lia.
    rewrite E'. by apply take_ge.
  - right. apply (begins_spec tail s (length u)); [lia..|]. replace (length tail - length u)%nat with (length a) by lia. fold u.
    apply (f_equal (take (length u))) in E'. rewrite take_app_le, take_app_le in E' by lia. rewrite take_ge in E' by done. exact E'.
Qed.

Lemma held_back_spec r tail : tail_str sp tokenizer 1 r = Ok tail → check_match_stop_str_prefix sp tokenizer r = Ok false →
  ∀ s later a b, s ∈ stop_strs sp → s ≠ [] → tail ++ later = a ++ s ++ b → (length tail ≤ length a)%nat.
Proof.
  intros Et Ec s later a b Hs Hne E. destruct (decide (length a < length tail)%nat) as [Hlt|]; [|lia]. exfalso.
  unfold check_match_stop_str_prefix in Ec. destruct (Z.eqb_spec (zlen (stop_strs sp)) 0) as [E0|_].
  { apply zlen_nil_inv in E0. rewrite E0 in Hs. by apply elem_of_nil in Hs. }
  rewrite Et in Ec. cbn [rbind] in Ec. destruct (Z.eqb_spec (zlen tail) 0) as [E0|_]; [unfold zlen in E0; lia|]. injection Ec as Ec.
  assert (existsb (λ stop, negb (zlen stop =? 0) && (str_in stop tail || begins tail stop)) (stop_strs sp) = true) as Hx; [|congruence].
  apply existsb_exists. exists s. split; [by apply list_elem_of_In|]. apply andb_true_iff. split.
  - apply negb_true_iff, Z.eqb_neq. intros E0. by apply zlen_nil_inv in E0.
  - apply orb_true_iff. by eapply straddle.
Qed.
End finish.

(** ** Incremental decoding *)

(** The ids held are the end of the prompt and the output [out] so far. *)
Record decoding (r : FinReq) (out : list Z) : Prop := {
  dg_surr : surr_offset r = Some (Z.max (zlen (origin_input_ids_unpadded r) - 5) 0);
  dg_read : read_offset r = Some (zlen (origin_input_ids_unpadded r));
  dg_ids : surr_and_decode_ids r = pydrop (origin_input_ids_unpadded r) (Z.max (zlen (origin_input_ids_unpadded r) - 5) 0) ++ out;
  dg_len : cur_decode_ids_len r = zlen out
}.

Definition set_progress (p : list Z * option Z) (r : FinReq) : FinReq :=
  mkFin (origin_input_ids_unpadded r) p.1 (finished_reason r) p.2 (to_finish r) (decoded_text r)
    (surr_offset r) (read_offset r) (surr_and_decode_ids r) (cur_decode_ids_len r).

(** Either nothing was decoded yet, or what was decoded is still there. *)
Definition resumable (r : FinReq) (out : list Z) : Prop := surr_offset r = None ∨ decoding r out.

Lemma detokenize_spec r out : resumable r out → out `prefix_of` through_stop r →
  ∃ r', init_incremental_detokenize r
        = (pydrop (origin_input_ids_unpadded r) (Z.max (zlen (origin_input_ids_unpadded r) - 5) 0) ++ through_stop r,
           zlen (origin_input_ids_unpadded r) - Z.max (zlen (origin_input_ids_unpadded r) - 5) 0, r') ∧
    decoding r' (through_stop r) ∧ origin_input_ids_unpadded r' = origin_input_ids_unpadded r.
Proof.
  intros Hr Hp. unfold init_incremental_detokenize. destruct Hr as [E|[E1 E2 E3 E4]].
  - rewrite E. eexists. split; [reflexivity|]. by split.
  - rewrite E1, E2. destruct Hp as [more Em]. eexists. cbn [surr_and_decode_ids set_decode surr_offset read_offset default].
    assert (surr_and_decode_ids r ++ pydrop (through_stop r) (cur_decode_ids_len r)
            = pydrop (origin_input_ids_unpadded r) (Z.max (zlen (origin_input_ids_unpadded r) - 5) 0) ++ through_stop r) as Ei.
    { rewrite E3, E4, Em, <- app_assoc. f_equal. rewrite pydrop_eq by apply zlen_nonneg. unfold zlen. by rewrite Nat2Z.id, drop_app_length. }
    rewrite Ei. split; [reflexivity|]. by split.
Qed.

(** The calls over the steps of a request, and what they return. *)
Fixpoint detokenize_all (steps : list (list Z * option Z)) (r : FinReq) : list (list Z * Z) * FinReq :=
  match steps with
  | [] => ([], r)
  | p :: steps =>
      let '(ids, off, r) := init_incremental_detokenize (set_progress p r) in
      let (rest, r) := detokenize_all steps r in ((ids, off) :: rest, r)
  end.

(** The output through the stop after a step. *)
Definition progress_out (p : list Z * option Z) : list Z := match p.2 with Some n => pytake p.1 n | None => p.1 end.

(** Each step's output extends the one before. *)
Fixpoint growing (out : list Z) (steps : list (list Z * option Z)) : Prop :=
  match steps with [] => True | p :: steps => out `prefix_of` progress_out p ∧ growing (progress_out p) steps end.

Lemma detokenize_all_spec steps r out : resumable r out → growing out steps →
  (detokenize_all steps r).1
  = (λ p, (pydrop (origin_input_ids_unpadded r) (Z.max (zlen (origin_input_ids_unpadded r) - 5) 0) ++ progress_out p,
           zlen (origin_input_ids_unpadded r) - Z.max (zlen (origin_input_ids_unpadded r) - 5) 0)) <$> steps.
Proof.
  revert r out. induction steps as [|p steps IH]; intros r out Hr Hg; [done|]. destruct Hg as [Hp Hg]. cbn [detokenize_all].
  destruct (detokenize_spec (set_progress p r) out) as (r' & E & Hd & Ho).
  { destruct Hr as [?|[]]; [by left|right; by split]. } { done. }
  rewrite E. specialize (IH r' (progress_out p) (or_intror Hd) Hg). destruct (detokenize_all steps r') as [rest r'']. cbn [fst] in *.
  rewrite IH, Ho. done.
Qed.

(** ** The properties *)

(** C15: for a running request that has not reached its length limit before the
    step, with normalised parameters, the check returns whether the request
    finishes or goes on; it leaves the earlier output alone, and when it records
    where the output ends, that is the end of one of the tokens of this step and
    not past the length limit. *)
Theorem finish_within_step sp tokenizer vocab_size eos_token_ids grammar re_search n r :
  params_ok sp tokenizer → re_ok re_search → 1 ≤ n ≤ zlen (output_ids r) → finished r = false → to_finish r = None → finished_len r = None →
  zlen (output_ids r) - n < p_max_new_tokens sp →
  ∃ r', update_finish_state sp tokenizer vocab_size eos_token_ids grammar re_search n r = Ok r' ∧ finish_step sp n r r'.
Proof. intros. destruct (update_spec sp tokenizer vocab_size eos_token_ids grammar re_search H n r) as (r' & ? & ? & _); [done..|]. by exists r'. Qed.

(** A request goes on exactly when its new tokens are in the vocabulary, no
    stop string is in the decoded tail or text, no pattern matches the tail or is
    invalid, no new token is a stop token, the length limit is not reached and the
    grammar has not ended. *)
Theorem unfinished_iff_quiet sp tokenizer vocab_size eos_token_ids grammar re_search n r r' :
  params_ok sp tokenizer → re_ok re_search → 1 ≤ n ≤ zlen (output_ids r) → finished r = false → to_finish r = None → finished_len r = None →
  zlen (output_ids r) - n < p_max_new_tokens sp →
  update_finish_state sp tokenizer vocab_size eos_token_ids grammar re_search n r = Ok r' →
  (finished r' = false ↔ quiet sp tokenizer vocab_size eos_token_ids grammar re_search n r).
Proof.
  intros ? ? ? ? ? ? ? E. destruct (update_spec sp tokenizer vocab_size eos_token_ids grammar re_search H n r) as (r1 & E1 & _ & Hq); [done..|].
  rewrite E in E1. by injection E1 as <-.
Qed.

(** A stop text is located at the earliest of the new tokens whose text, from
    the start of the window, contains it; the end of the output otherwise. *)
Theorem locate_is_earliest sp re_search n st r tk : params_ok sp (Some tk) → 1 ≤ n ≤ zlen (output_ids r) →
  (∀ t, is_Some (match matched re_search st t with Ok b => Some b | Raise _ => None end)) →
  ∃ k, _locate_str_stop_finished_len sp (Some tk) re_search n st r = Ok k ∧ zlen (output_ids r) - n < k ≤ zlen (output_ids r) ∧
    (k = zlen (output_ids r) ∨ matched re_search st (window_text sp tk n r k) = Ok true) ∧
    ∀ c, zlen (output_ids r) - n < c < k → matched re_search st (window_text sp tk n r c) = Ok false.
Proof. intros. by apply (locate_spec sp (Some tk) re_search H n st r tk). Qed.

(** When [check_match_stop_str_prefix] says the tail need not be held back,
    no stop string can begin in it: however the text goes on, every occurrence of
    a stop string starts after the tail. *)
Theorem held_back_suffices sp tokenizer r : check_match_stop_str_prefix sp tokenizer r = Ok false →
  ∀ s later i, s ∈ stop_strs sp → s ≠ [] → occurs_at s (tail_of sp tokenizer 1 r ++ later) i → (length (tail_of sp tokenizer 1 r) ≤ i)%nat.
Proof.
  intros Ec s later i Hs Hne Ho. destruct (occurs_at_split s _ i Hne Ho) as (a & b & E & <-). unfold tail_of in *.
  destruct (tail_str sp tokenizer 1 r) as [tail|x] eqn:Et; [by eapply held_back_spec|]. exfalso. unfold check_match_stop_str_prefix in Ec.
  rewrite Et in Ec. destruct (Z.eqb_spec (zlen (stop_strs sp)) 0) as [E0%zlen_nil_inv|_]; [|done]. rewrite E0 in Hs. by apply elem_of_nil in Hs.
Qed.

(** Over the steps of a request, each of which extends its output, every call
    of [init_incremental_detokenize] returns the last five ids of the prompt
    followed by the whole output through the stop, and the same offset. *)
Theorem detokenize_sees_all steps r : surr_offset r = None → growing [] steps →
  (detokenize_all steps r).1
  = (λ p, (pydrop (origin_input_ids_unpadded r) (Z.max (zlen (origin_input_ids_unpadded r) - 5) 0) ++ progress_out p,
           zlen (origin_input_ids_unpadded r) - Z.max (zlen (origin_input_ids_unpadded r) - 5) 0)) <$> steps.
Proof. intros H. apply detokenize_all_spec. by left. Qed.
