(* ===== verification/FinishCases.v ===== *)
(** * Finishing within the life of a request

    The output step of KvLife.v is what [update_finish_state] does after a decode
    step, and the checks on concrete requests. *)
From S2P Require Import Prelude RadixKey EvictPolicy RadixCache RadixTheorems TokenAllocator KvRow KvAlloc KvSystem KvLife KvCases Text Finish FinishTheorems.

(** ** The step of the scheduler *)

Section life.
Context {A : Type} `{!PagePool A} `{!SlotPool A} (clock : nat → Z) (cfg : cache_config) {HQ : HeapQ entry entry_le}.
Context (free_full : A → list Z → Z → result A) (leaves_of : RadixCache → list nat) (decode_steps : Z) (size width : nat).

(** [f] is the finish state of the running request [r] after [tok] is appended. *)
Record finish_state_of (r : KvReq) (tok : Z) (f : FinReq) : Prop := {
  fs_output : output_ids f = k_output_ids r ++ [tok];
  fs_running : finished f = false;
  fs_to_finish : to_finish f = None;
  fs_len : finished_len f = None
}.

(** The finish check after a decode step is an output step of the scheduler:
    on a running request whose new token [tok] is appended, [update_finish_state]
    returns, and the request it leaves (with [tok] or the id that replaces it) is
    the one the step relation allows, so everything proved of reachable states
    holds of the finish check as written. *)
Theorem finish_is_a_step sp tokenizer vocab_size eos_token_ids grammar re_search w l1 r l2 q tok f :
  sched_ok clock cfg size width (mkSched w (l1 ++ r :: l2) q) → computed r → KvRow.finished_len r = None →
  finish_state_of r tok f →
  params_ok sp tokenizer → re_ok re_search → zlen (k_output_ids r) < p_max_new_tokens sp →
  ∃ f' tok', update_finish_state sp tokenizer vocab_size eos_token_ids grammar re_search 1 f = Ok f' ∧ output_ids f' = k_output_ids r ++ [tok'] ∧
    sched_step clock cfg free_full leaves_of decode_steps width (mkSched w (l1 ++ r :: l2) q)
      (mkSched w (l1 ++ append_output tok' (finished_len f') (finished f') r :: l2) q).
Proof.
  intros [_ Hl _ _] Hc Hfl [Ho Hf Ht Hfl'] Hpar Hre Hmax. cbn in Hl. apply Forall_app in Hl as [_ [Hlife _]%Forall_cons].
  assert (zlen (output_ids f) = zlen (k_output_ids r) + 1) as Hlen by (rewrite Ho, zlen_app; done).
  destruct (update_spec sp tokenizer vocab_size eos_token_ids grammar re_search Hpar 1 f Hre) as (f' & E & [Hl1 Hold Hend] & _);
    [pose proof (zlen_nonneg (k_output_ids r)); lia|done..|lia|].
  assert (∃ tok', output_ids f' = k_output_ids r ++ [tok']) as [tok' Ho'].
  { rewrite Hlen, Z.add_simpl_r, Ho in Hold. unfold zlen in Hold. rewrite Nat2Z.id, take_app_length in Hold. rewrite Ho, length_app in Hl1. cbn in Hl1.
    rewrite <- (take_drop (length (k_output_ids r)) (output_ids f')), Hold.
    assert (length (drop (length (k_output_ids r)) (output_ids f')) = 1%nat) as Hd by (rewrite length_drop; lia).
    destruct (drop _ _) as [|x [|]]; [done|by exists x|done]. }
  exists f', tok'. split; [done|]. split; [done|]. apply ss_output; [done|done|]. unfold stops. destruct (finished_len f') as [k|]; [|done].
  destruct Hend as (_ & Hk & _). destruct Hlife as [_ Hfill _ _ _ _]. apply prefix_length in Hfill. rewrite length_app in Hfill.
  rewrite Hlen in Hk. unfold zlen in *. lia.
Qed.
End life.

(** ** Concrete checks *)

(** A tokenizer whose tokens are the characters. *)
Definition char_tokenizer : Tokenizer := mkTokenizer (Some 0) [] id.
(** Patterns that match nothing, save [bad], which does not compile. *)
Definition demo_search (p t : text) : option bool := if bool_decide (p = txt "(") then None else Some false.
Lemma demo_search_ok : re_ok demo_search.
Proof. intros p t t'. unfold demo_search. by destruct (bool_decide _). Qed.

Definition demo_params : SamplingParams := mkParams [txt "end"] 3 [] 0 [] 10 false.
Lemma demo_params_ok : params_ok demo_params (Some char_tokenizer).
Proof. split; [done|done|by eexists]. Qed.

Definition demo_fin (out : string) : FinReq := mkFin (txt "prompt") (txt out) None None None [] None None [] 0.

(** Four tokens are accepted at once; the stop string ends at the second. *)
Lemma finish_within_step_witness : ∃ r', update_finish_state demo_params (Some char_tokenizer) None [] None demo_search 4 (demo_fin "the end!!") = Ok r' ∧
  finished_len r' = Some 7.
Proof.
  destruct (finish_within_step demo_params (Some char_tokenizer) None [] None demo_search 4 (demo_fin "the end!!")) as (r' & E & _);
    [apply demo_params_ok|apply demo_search_ok|by vm_compute..|].
  exists r'. split; [exact E|]. vm_compute in E. injection E as <-. reflexivity.
Defined.

Lemma unfinished_iff_quiet_witness : quiet demo_params (Some char_tokenizer) None [] None demo_search 1 (demo_fin "the en").
Proof.
  apply (unfinished_iff_quiet demo_params (Some char_tokenizer) None [] None demo_search 1 (demo_fin "the en") (demo_fin "the en"));
    [apply demo_params_ok|apply demo_search_ok|by vm_compute..].
Defined.

Lemma locate_is_earliest_witness : ∃ k,
  _locate_str_stop_finished_len demo_params (Some char_tokenizer) demo_search 4 (StopStr (txt "end")) (demo_fin "the end!!") = Ok k ∧ k = 7.
Proof.
  destruct (locate_is_earliest demo_params demo_search 4 (StopStr (txt "end")) (demo_fin "the end!!") char_tokenizer) as (k & E & _);
    [apply demo_params_ok|by vm_compute|by intros; eexists|].
  exists k. split; [exact E|]. vm_compute in E. congruence.
Defined.

(** The tail of ["the fish"] is not held back for ["end"], that of ["the e"] is. *)
Lemma held_back_suffices_witness :
  check_match_stop_str_prefix demo_params (Some char_tokenizer) (demo_fin "the e") = Ok true ∧
  ∀ later i, occurs_at (txt "end") (txt "fish" ++ later) i → (4 ≤ i)%nat.
Proof.
  split; [vm_compute; reflexivity|]. intros later i Ho.
  apply (held_back_suffices demo_params (Some char_tokenizer) (demo_fin "the fish") eq_refl (txt "end") later i); [by left|done|exact Ho].
Defined.

Lemma detokenize_sees_all_witness :
  (detokenize_all [(txt "a", None); (txt "ab", None); (txt "abcd", Some 3)] (demo_fin "")).1
  = [(txt "rompt" ++ txt "a", 5); (txt "rompt" ++ txt "ab", 5); (txt "rompt" ++ txt "abc", 5)].
Proof.
  rewrite (detokenize_sees_all [(txt "a", None); (txt "ab", None); (txt "abcd", Some 3)] (demo_fin "")); [vm_compute; reflexivity|reflexivity|].
  split; [by eexists|]. split; [by exists (txt "b")|]. split; [by exists (txt "c")|done].
Defined.

#[local] Existing Instance Demo.pages.
#[local] Existing Instance Demo.slots.

Lemma finish_is_a_step_witness : ∃ f' tok',
  update_finish_state demo_params (Some char_tokenizer) None [] None demo_search 1
    (mkFin [1; 2; 3; 4; 5] [7; 8] None None None [] None None [] 0) = Ok f' ∧ output_ids f' = [7] ++ [tok'].
Proof.
  destruct (finish_is_a_step Run.clk Demo.cfg Demo.free_full Demo.leaves_of 20 3 12 demo_params (Some char_tokenizer) None [] None demo_search
    Demo.x3.2 [] Demo.r4 [] [] 8 (mkFin [1; 2; 3; 4; 5] [7; 8] None None None [] None None [] 0)) as (f' & tok' & E & Ho & _).
  - apply demo_reachable_ok, Demo.reach_first.
  - by vm_compute.
  - by vm_compute.
  - split; by vm_compute.
  - apply demo_params_ok.
  - apply demo_search_ok.
  - by vm_compute.
  - exists f', tok'. split; [exact E|]. rewrite Ho. vm_compute. reflexivity.
Defined.

(** An invalid pattern is meant to fail its request, but the checks go on after it:
    when the same step reaches the length limit the request is reported finished
    by length. *)
Example regex_abort_overwritten : ∃ r',
  update_finish_state (mkParams [] 0 [txt "("] 1 [] 3 false) (Some char_tokenizer) None [] None demo_search 1 (demo_fin "abc") = Ok r' ∧
  finished_reason r' = Some (FINISH_LENGTH 3).
Proof. eexists. split; vm_compute; reflexivity. Qed.
