(* ===== verification/Params.v ===== *)
(** * Sampling parameters ([sampling/sampling_params.py])

    What a request asks for: defaults ([__post_init__]), limits ([verify]), stop
    strings and patterns ([normalize]) with the longest text a pattern can match,
    and the watermark settings.  [sre_parse.parse] and [tokenizer.encode] are
    arguments; fields the modelled methods never touch are left out. *)
From S2P Require Import Prelude Text Finish.
From Stdlib Require Export QArith.
Open Scope Z_scope.

(** ** Values *)

(** A float: the number it denotes, an infinity or NaN. *)
Inductive pyfloat := Fin (q : Q) | PosInf | NegInf | NaN.

Definition fle (a b : pyfloat) : bool :=
  match a, b with
  | NaN, _ | _, NaN => false
  | NegInf, _ | _, PosInf => true
  | Fin a, Fin b => Qle_bool a b
  | _, _ => false
  end.
Definition flt (a b : pyfloat) : bool :=
  match a, b with
  | NaN, _ | _, NaN => false
  | Fin a, Fin b => negb (Qle_bool b a)
  | NegInf, (Fin _ | PosInf) | Fin _, PosInf => true
  | _, _ => false
  end.
Definition isfinite (a : pyfloat) : bool := match a with Fin _ => true | _ => false end.
Definition fz (z : Z) : pyfloat := Fin (inject_Z z).

(** What a JSON field may hold. *)
Inductive jval := JBool (b : bool) | JInt (z : Z) | JStr (s : text) | JElse.

(** A string or a list of strings. *)
Inductive stops := One (s : text) | Many (l : list text).

Definition _SAMPLING_EPS : pyfloat := Fin (4722366482869645 # 4722366482869645213696).
Definition TOP_K_ALL : Z := 2 ^ 30.
Definition MAX_STOP_COUNT : Z := 32.
Definition MAX_STOP_REGEX_LEN : Z := 256.
Definition MAX_STOP_REGEX_COUNT : Z := 32.
Definition MAX_REQUEST_REASONING_END_TOKEN_IDS : Z := 32.

(** ** Watermarks ([sampling/watermarking]) *)

Record WatermarkRequestConfig := mkWm { w_enabled : option jval; w_key : option jval; w_context_window : option jval }.

(** None, a config, a dict with those keys and maybe others, or something else. *)
Inductive watermark_value := WNone | WConfig (c : WatermarkRequestConfig) | WDict (c : WatermarkRequestConfig) (unknown : bool) | WOther.

(** The value of a hexadecimal digit. *)
Definition hex_digit (c : Z) : option Z :=
  if (48 <=? c) && (c <=? 57) then Some (c - 48)
  else if (97 <=? c) && (c <=? 102) then Some (c - 87)
  else if (65 <=? c) && (c <=? 70) then Some (c - 55)
  else None.

(** [int(digits, 16)]. *)
Definition hex_value (digits : list Z) : Z := foldl (λ acc d, 16 * acc + d) 0 digits.

Definition parse_watermark_key (value : jval) : result Z :=
  match value with
  | JStr s =>
      let digits := match s with 48 :: (120 | 88) :: rest => rest | _ => s end in
      if negb ((1 <=? zlen digits) && (zlen digits <=? 16)) then Raise ValueError
      else
        match mapM hex_digit digits with
        | None => Raise ValueError
        | Some ds => let key := hex_value ds in Ok (if key <? 2 ^ 63 then key else key - 2 ^ 64)
        end
  | _ => Raise ValueError
  end.

Definition check_watermark (c : WatermarkRequestConfig) : result WatermarkRequestConfig :=
  let! _ := match w_enabled c with None | Some (JBool _) => Ok tt | Some _ => Raise ValueError end in
  let! _ := match w_key c with None => Ok tt | Some k => let! _ := parse_watermark_key k in Ok tt end in
  let! _ := match w_context_window c with
            | None => Ok tt
            | Some (JInt z) => if z <? 1 then Raise ValueError else Ok tt
            | Some _ => Raise ValueError
            end in
  Ok c.

Definition normalize_watermark_request (value : watermark_value) : result (option WatermarkRequestConfig) :=
  match value with
  | WNone => Ok None
  | WConfig c => let! c := check_watermark c in Ok (Some c)
  | WDict c unknown => if unknown then Raise ValueError else let! c := check_watermark c in Ok (Some c)
  | WOther => Raise ValueError
  end.

(** ** The reasoning terminator *)

(** The argument is the value under the private key of [custom_params]: absent;
    present and not a list; a list whose elements are integers or not. *)
Definition get_request_reasoning_end_token_ids (value : option (option (list (option Z))))
    (allowed_sequences : option (list (list Z))) (vocab_size : option Z) (strict : bool) : result (option (list Z)) :=
  match value with
  | None => Ok None
  | Some token_ids =>
      let invalid :=
        match token_ids with
        | None => true
        | Some l =>
            (zlen l =? 0) || (MAX_REQUEST_REASONING_END_TOKEN_IDS <? zlen l) ||
            existsb (λ t, match t with None => true | Some t => t <? 0 end) l ||
            match vocab_size with
            | Some v => existsb (λ t, match t with None => false | Some t => v <=? t end) l
            | None => false
            end
        end in
      if invalid then if strict then Raise ValueError else Ok None
      else
        let ids := omap id (default [] token_ids) in
        match allowed_sequences with
        | None => Ok None
        | Some allowed => Ok (if bool_decide (ids ∈ allowed) then Some ids else None)
        end
  end.

(** ** The parameters *)

Record ApiParams := mkApi {
  sp_max_new_tokens : option Z;
  sp_stop : option stops;
  sp_stop_token_ids : option (list (option Z));
  sp_stop_regex : option stops;
  sp_temperature : option pyfloat;
  sp_top_p : option pyfloat;
  sp_top_k : option Z;
  sp_min_p : option pyfloat;
  sp_frequency_penalty : option pyfloat;
  sp_presence_penalty : option pyfloat;
  sp_repetition_penalty : option pyfloat;
  sp_min_new_tokens : option Z;
  sp_n : option Z;
  sp_beam_width : option Z;
  sp_json_schema : option text;
  sp_regex : option text;
  sp_ebnf : option text;
  sp_structural_tag : option text;
  sp_ignore_eos : option bool;
  sp_skip_special_tokens : option bool;
  sp_spaces_between_special_tokens : option bool;
  sp_no_stop_trim : option bool;
  sp_logit_bias : option (list (option Z));        (* the keys as integers; None when int() fails *)
  sp_sampling_seed : option (option Z);            (* inner None: not an integer *)
  sp_reasoning_end : option (option (list (option Z)));
  sp_watermark : watermark_value;
  sp_stop_strs : option stops;
  sp_stop_regex_strs : option stops;
  sp_stop_str_max_len : Z;
  sp_stop_regex_max_len : Z;
  sp_is_normalized : bool
}.

(** [x or None] for a string. *)
Definition text_or_none (x : option text) : option text := match x with Some [] => None | _ => x end.

(** The assignments of [__post_init__], with the watermark already checked. *)
Definition with_defaults (watermark : option WatermarkRequestConfig) (p : ApiParams) : ApiParams :=
  let temperature := default (fz 1) (sp_temperature p) in
  let top_k := default (-1) (sp_top_k p) in
  let greedy := fle (fz 0) temperature && flt temperature _SAMPLING_EPS in
  let temperature := if greedy then fz 1 else temperature in
  let top_k := if greedy then 1 else top_k in
  mkApi
    (sp_max_new_tokens p)
    (sp_stop p)
    (match sp_stop_token_ids p with
     | Some ((_ :: _) as l) =>
         match filter (λ t, t ≠ None) (remove_dups l) with [] => None | filtered => Some filtered end
     | _ => None
     end)
    (sp_stop_regex p)
    (Some temperature)
    (Some (default (fz 1) (sp_top_p p)))
    (Some (if top_k =? -1 then TOP_K_ALL else top_k))
    (Some (default (fz 0) (sp_min_p p)))
    (Some (default (fz 0) (sp_frequency_penalty p)))
    (Some (default (fz 0) (sp_presence_penalty p)))
    (Some (default (fz 1) (sp_repetition_penalty p)))
    (Some (default 0 (sp_min_new_tokens p)))
    (Some (default 1 (sp_n p)))
    (sp_beam_width p)
    (text_or_none (sp_json_schema p))
    (text_or_none (sp_regex p))
    (text_or_none (sp_ebnf p))
    (text_or_none (sp_structural_tag p))
    (Some (default false (sp_ignore_eos p)))
    (Some (default true (sp_skip_special_tokens p)))
    (Some (default true (sp_spaces_between_special_tokens p)))
    (Some (default false (sp_no_stop_trim p)))
    (sp_logit_bias p) (sp_sampling_seed p) (sp_reasoning_end p)
    (match watermark with Some c => WConfig c | None => WNone end)
    (sp_stop p) (sp_stop_regex p)
    (sp_stop_str_max_len p) (sp_stop_regex_max_len p) (sp_is_normalized p).

Definition __post_init__ (p : ApiParams) : result ApiParams :=
  if sp_is_normalized p then Ok p
  else let! watermark := normalize_watermark_request (sp_watermark p) in Ok (with_defaults watermark p).

(** A number of a field; [None] does not compare. *)
Definition need {A} (x : option A) : result A := match x with Some a => Ok a | None => Raise TypeError end.

(** [if not b: raise ValueError]. *)
Definition require (b : bool) : result unit := if b then Ok tt else Raise ValueError.

Definition is_set {A} (x : option A) : Z := match x with Some _ => 1 | None => 0 end.

Definition verify (vocab_size : Z) (p : ApiParams) : result unit :=
  let! _ := require (match sp_beam_width p with Some w => negb (w <? 1) | None => true end) in
  let! temperature := need (sp_temperature p) in
  let! _ := require (isfinite temperature && negb (flt temperature (fz 0))) in
  let! top_p := need (sp_top_p p) in
  let! _ := require (flt (fz 0) top_p && fle top_p (fz 1)) in
  let! min_p := need (sp_min_p p) in
  let! _ := require (fle (fz 0) min_p && fle min_p (fz 1)) in
  let! top_k := need (sp_top_k p) in
  let! _ := require (negb ((top_k <? 1) || (top_k =? -1))) in
  let! frequency_penalty := need (sp_frequency_penalty p) in
  let! _ := require (fle (fz (-2)) frequency_penalty && fle frequency_penalty (fz 2)) in
  let! presence_penalty := need (sp_presence_penalty p) in
  let! _ := require (fle (fz (-2)) presence_penalty && fle presence_penalty (fz 2)) in
  let! repetition_penalty := need (sp_repetition_penalty p) in
  let! _ := require (flt (fz 0) repetition_penalty && fle repetition_penalty (fz 2)) in
  let! min_new_tokens := need (sp_min_new_tokens p) in
  let! _ := require (0 <=? min_new_tokens) in
  let! _ := require (match sp_max_new_tokens p with Some m => negb (m <? 0) && (min_new_tokens <=? m) | None => true end) in
  let! _ := require (match sp_logit_bias p with
                     | Some keys => forallb (λ k, match k with Some t => (0 <=? t) && (t <? vocab_size) | None => false end) keys
                     | None => true
                     end) in
  let! _ := require (match sp_sampling_seed p with
                     | Some (Some s) => (- 2 ^ 63 <=? s) && (s <=? 2 ^ 63 - 1)
                     | Some None => false
                     | None => true
                     end) in
  let! _ := get_request_reasoning_end_token_ids (sp_reasoning_end p) None (Some vocab_size) true in
  require (is_set (sp_json_schema p) + is_set (sp_regex p) + is_set (sp_ebnf p) + is_set (sp_structural_tag p) <=? 1).

(** ** Patterns *)

#[local] Set Warnings "-register-all".

(** The parse tree of [sre_parse], by the tokens the code tells apart; [None] for
    [MAXREPEAT]. *)
Inductive op :=
  | LITERAL (c : Z)
  | IN (set : list Z)
  | ANY
  | SUBPATTERN (p : list op)
  | BRANCH (first : list op) (branches : list (list op))
  | MAX_REPEAT (min_repeat : Z) (max_repeat : option Z) (p : list op)
  | MIN_REPEAT (min_repeat : Z) (max_repeat : option Z) (p : list op)
  | AT
  | OTHER_TOKEN.

Definition MAX_LEN : Z := 2 ^ 30.

(** The step of the loop of [_max_length_from_subpattern] for one token. *)
Fixpoint op_max_len (o : op) : Z :=
  match o with
  | LITERAL _ | IN _ | ANY => 1
  | SUBPATTERN p => zsum (map op_max_len p)
  | BRANCH b bs => foldr Z.max (zsum (map op_max_len b)) (map (λ b, zsum (map op_max_len b)) bs)
  | MAX_REPEAT _ hi p | MIN_REPEAT _ hi p =>
      match hi with None => MAX_LEN | Some hi => hi * zsum (map op_max_len p) end
  | AT => 0
  | OTHER_TOKEN => MAX_LEN
  end.
Definition _max_length_from_subpattern (p : list op) : Z := zsum (map op_max_len p).

Definition raise_if_tokenizer_required (has_tokenizer : bool) (stop_strs stop_regex_strs : list text) (min_new_tokens : Z) : result unit :=
  if has_tokenizer then Ok tt
  else if negb (zlen stop_strs =? 0) then Raise ValueError
  else if negb (zlen stop_regex_strs =? 0) then Raise ValueError
  else if 0 <? min_new_tokens then Raise ValueError
  else Ok tt.

Section normalize.
(** [tokenizer.encode], when there is a tokenizer; [sre_parse.parse], [None] when
    it raises. *)
Context (encode : option (text → list Z)) (sre_parse : text → option (list op)).

Definition get_max_seq_length (regex_str : text) : result Z :=
  match sre_parse regex_str with Some p => Ok (_max_length_from_subpattern p) | None => Raise ReError end.

Definition as_list (s : stops) : list text := match s with One s => [s] | Many l => l end.

Definition stop_len (s : text) : Z := match encode with Some f => zlen (f s) | None => zlen s end.

(** The loop over the patterns. *)
Fixpoint regex_loop (patterns : list text) (max_len : Z) : result Z :=
  match patterns with
  | [] => Ok max_len
  | s :: patterns =>
      if MAX_STOP_REGEX_LEN <? utf8_len s then Raise ValueError
      else let! n := get_max_seq_length s in regex_loop patterns (Z.max max_len n)
  end.

Definition normalize (p : ApiParams) : result ApiParams :=
  let! (strs, str_len) :=
    match sp_stop_strs p with
    | None => Ok ([], 0)
    | Some s =>
        let l := as_list s in
        if MAX_STOP_COUNT <? zlen l then Raise ValueError
        else Ok (l, foldl (λ m s, Z.max m (stop_len s)) 0 l)
    end in
  let! (regexes, regex_len) :=
    match sp_stop_regex_strs p with
    | None => Ok ([], 0)
    | Some s =>
        let l := as_list s in
        if MAX_STOP_REGEX_COUNT <? zlen l then Raise ValueError
        else let! m := regex_loop l 0 in Ok (l, m)
    end in
  let! min_new := need (sp_min_new_tokens p) in
  let! _ := raise_if_tokenizer_required (match encode with Some _ => true | None => false end) strs regexes min_new in
  Ok (mkApi (sp_max_new_tokens p) None (sp_stop_token_ids p) None
    (sp_temperature p) (sp_top_p p) (sp_top_k p) (sp_min_p p) (sp_frequency_penalty p) (sp_presence_penalty p)
    (sp_repetition_penalty p) (sp_min_new_tokens p) (sp_n p) (sp_beam_width p) (sp_json_schema p) (sp_regex p) (sp_ebnf p)
    (sp_structural_tag p) (sp_ignore_eos p) (sp_skip_special_tokens p) (sp_spaces_between_special_tokens p) (sp_no_stop_trim p)
    (sp_logit_bias p) (sp_sampling_seed p) (sp_reasoning_end p) (sp_watermark p)
    (Some (Many strs)) (Some (Many regexes)) str_len regex_len true).
End normalize.

(** What [Req] reads of its parameters when it checks for the end. *)
Definition finish_view (p : ApiParams) (max_new_tokens : Z) : SamplingParams :=
  mkParams (match sp_stop_strs p with Some s => as_list s | None => [] end) (sp_stop_str_max_len p)
    (match sp_stop_regex_strs p with Some s => as_list s | None => [] end) (sp_stop_regex_max_len p)
    (omap id (default [] (sp_stop_token_ids p))) max_new_tokens (default false (sp_ignore_eos p)).
