(* ===== verification/ParamsTheorems.v ===== *)
(** * What the sampling parameters guarantee

    A pattern's computed length bounds every text it can match; parameters that
    pass are in range; a normalised object survives a second initialisation and
    gives the finish check what it relies on; no stop text that ends in the new
    tokens escapes the tail the finish check decodes. *)
From S2P Require Import Prelude Text Finish FinishTheorems Params.
From Stdlib Require Import Lqa.
Open Scope Z_scope.

(** ** Patterns *)

Section consumes.
(** The characters a one-character token accepts (the flags decide). *)
Context (accepts : op → Z → bool).

(** Consecutive pieces. *)
Fixpoint seq_of (Ps : list (text → Prop)) (s : text) : Prop :=
  match Ps with [] => s = [] | P :: Ps => ∃ a b, s = a ++ b ∧ P a ∧ seq_of Ps b end.

(** The texts a token can consume; nothing is known of the tokens the code does
    not tell apart. *)
Fixpoint consumes_op (o : op) (s : text) : Prop :=
  match o with
  | LITERAL _ | IN _ | ANY => ∃ c, s = [c] ∧ accepts o c = true
  | SUBPATTERN p => seq_of (map consumes_op p) s
  | BRANCH b bs => seq_of (map consumes_op b) s ∨ Exists (λ P, P s) (map (λ b, seq_of (map consumes_op b)) bs)
  | MAX_REPEAT lo hi p | MIN_REPEAT lo hi p =>
      ∃ ss, s = concat ss ∧ lo ≤ zlen ss ∧ match hi with Some h => zlen ss ≤ h | None => True end ∧
        Forall (seq_of (map consumes_op p)) ss
  | AT => s = []
  | OTHER_TOKEN => True
  end.

Definition consumes (p : list op) : text → Prop := seq_of (map consumes_op p).

(** Induction over parse trees. *)
Section op_ind.
Context (P : op → Prop).
Context (Hlit : ∀ c, P (LITERAL c)) (Hin : ∀ l, P (IN l)) (Hany : P ANY) (Hat : P AT) (Hother : P OTHER_TOKEN).
Context (Hsub : ∀ p, Forall P p → P (SUBPATTERN p)).
Context (Hbranch : ∀ b bs, Forall P b → Forall (Forall P) bs → P (BRANCH b bs)).
Context (Hmax : ∀ lo hi p, Forall P p → P (MAX_REPEAT lo hi p)) (Hmin : ∀ lo hi p, Forall P p → P (MIN_REPEAT lo hi p)).

Fixpoint op_ind' (o : op) : P o :=
  let fix all (p : list op) : Forall P p :=
    match p with [] => Forall_nil_2 _ | o :: p => Forall_cons_2 _ _ _ (op_ind' o) (all p) end in
  match o with
  | LITERAL c => Hlit c
  | IN l => Hin l
  | ANY => Hany
  | AT => Hat
  | OTHER_TOKEN => Hother
  | SUBPATTERN p => Hsub p (all p)
  | BRANCH b bs =>
      Hbranch b bs (all b)
        ((fix alls (bs : list (list op)) : Forall (Forall P) bs :=
            match bs with [] => Forall_nil_2 _ | b :: bs => Forall_cons_2 _ _ _ (all b) (alls bs) end) bs)
  | MAX_REPEAT lo hi p => Hmax lo hi p (all p)
  | MIN_REPEAT lo hi p => Hmin lo hi p (all p)
  end.
End op_ind.

(** A bound that holds, or is past what any output reaches. *)
Definition bounds (n : Z) (s : text) : Prop := zlen s ≤ n ∨ MAX_LEN ≤ n.

Definition op_bounded (o : op) : Prop := 0 ≤ op_max_len o ∧ ∀ s, consumes_op o s → bounds (op_max_len o) s.

Lemma seq_bounded p : Forall op_bounded p →
  0 ≤ zsum (map op_max_len p) ∧ ∀ s, seq_of (map consumes_op p) s → bounds (zsum (map op_max_len p)) s.
Proof.
  induction 1 as [|o p [Ho Hs] _ [IH0 IH]]; cbn [map seq_of].
  - split; [done|]. intros s ->. by left.
  - change (zsum (op_max_len o :: ?l)) with (op_max_len o + zsum l). split; [lia|].
    intros s (a & b & -> & Ha & Hb). unfold bounds in *. rewrite zlen_app. specialize (Hs a Ha). specialize (IH b Hb). lia.
Qed.

Lemma foldr_max_spec d l : d ≤ foldr Z.max d l ∧ ∀ x, x ∈ l → x ≤ foldr Z.max d l.
Proof.
  induction l as [|y l [IH1 IH2]]; cbn [foldr]; [split; [done|intros ? []%elem_of_nil]|].
  split; [lia|]. intros x [->|Hx]%elem_of_cons; [lia|]. specialize (IH2 x Hx). lia.
Qed.

Lemma concat_bounded n (ss : list text) : 0 ≤ n → Forall (bounds n) ss → zlen (concat ss) ≤ zlen ss * n ∨ (ss ≠ [] ∧ MAX_LEN ≤ n).
Proof.
  intros Hn. induction 1 as [|s ss Hs _ IH]; cbn [concat]; [by left|].
  rewrite zlen_app. assert (zlen (s :: ss) = zlen ss + 1) as -> by (unfold zlen; cbn [length]; lia). unfold bounds in Hs.
  destruct Hs as [Hs|Hs]; [|by right]. destruct IH as [IH|[_ IH]]; [left|by right].
  lia.
Qed.

Lemma repeat_bounded lo hi p : Forall op_bounded p → match hi with Some h => 0 ≤ h | None => True end →
  let n := match hi with None => MAX_LEN | Some h => h * zsum (map op_max_len p) end in
  0 ≤ n ∧ ∀ s, (∃ ss, s = concat ss ∧ lo ≤ zlen ss ∧ match hi with Some h => zlen ss ≤ h | None => True end ∧
                      Forall (seq_of (map consumes_op p)) ss) → bounds n s.
Proof.
  intros [Hp0 Hp]%seq_bounded Hh. destruct hi as [h|]; cbv zeta; [|split; [done|by right]]. split; [nia|].
  intros s (ss & -> & _ & Hhi & Hss).
  assert (Forall (bounds (zsum (map op_max_len p))) ss) as Hb by (eapply Forall_impl; [exact Hss|exact Hp]).
  destruct (concat_bounded _ _ Hp0 Hb) as [Hc|[Hne Hc]]; [left|right].
  - etrans; [exact Hc|]. by apply Z.mul_le_mono_nonneg_r.
  - assert (0 < zlen ss) by (destruct ss; [done|]; unfold zlen; cbn; lia). unfold MAX_LEN in *. nia.
Qed.

(** The counts of a tree are not negative. *)
Fixpoint counts_ok (o : op) : Prop :=
  match o with
  | SUBPATTERN p => foldr and True (map counts_ok p)
  | BRANCH b bs => foldr and True (map counts_ok b) ∧ foldr and True (map (λ b, foldr and True (map counts_ok b)) bs)
  | MAX_REPEAT _ hi p | MIN_REPEAT _ hi p =>
      match hi with Some h => 0 ≤ h | None => True end ∧ foldr and True (map counts_ok p)
  | _ => True
  end.

Lemma foldr_and {A} (f : A → Prop) l : foldr and True (map f l) ↔ Forall f l.
Proof. induction l as [|x l IH]; cbn [map foldr]; [by rewrite Forall_nil|by rewrite Forall_cons, IH]. Qed.

Lemma branches_bounded (bs : list (list op)) d s : Forall (Forall op_bounded) bs →
  Exists (λ P, P s) (map (λ b, seq_of (map consumes_op b)) bs) → bounds (foldr Z.max d (map (λ b, zsum (map op_max_len b)) bs)) s.
Proof.
  induction 1 as [|b bs [_ Hb]%seq_bounded _ IH]; cbn [map foldr]; [by intros []%Exists_nil|].
  intros [Hs|Hs]%Exists_cons; unfold bounds in *; [specialize (Hb s Hs)|specialize (IH Hs)]; lia.
Qed.

Lemma Forall_apply {A} (P Q : A → Prop) l : Forall (λ x, P x → Q x) l → Forall P l → Forall Q l.
Proof. intros H1 H2. induction H1; inversion_clear H2; constructor; auto. Qed.

Lemma op_bounded_all o : counts_ok o → op_bounded o.
Proof.
  induction o as [c|l| | | |p Hp|b bs Hb Hbs|lo hi p Hp|lo hi p Hp] using op_ind'; cbn [counts_ok]; rewrite ?foldr_and; intros Hc;
    [by split; [|intros s (x & -> & _); left]..|by split; [|intros s ->; left]|by split; [|right]| | | |].
  - by apply seq_bounded, (Forall_apply _ _ _ Hp).
  - destruct Hc as [Hcb Hcs].
    apply (Forall_apply _ _ _ Hb), seq_bounded in Hcb as [H0 Hs].
    assert (Forall (Forall op_bounded) bs) as Hall.
    { eapply Forall_apply, Hcs. eapply Forall_impl; [exact Hbs|]. intros b' Hb' Hc'. rewrite foldr_and in Hc'. by apply (Forall_apply _ _ _ Hb'). }
    destruct (foldr_max_spec (zsum (map op_max_len b)) (map (λ b, zsum (map op_max_len b)) bs)) as [Hm _].
    split; cbn [op_max_len]; [lia|]. intros s [H|H]; [specialize (Hs s H); unfold bounds in *; lia|by apply branches_bounded].
  - destruct Hc as [Hh Hc]. by apply (repeat_bounded lo hi p (Forall_apply _ _ _ Hp Hc)).
  - destruct Hc as [Hh Hc]. by apply (repeat_bounded lo hi p (Forall_apply _ _ _ Hp Hc)).
Qed.

Lemma consumes_bounded p s : Forall counts_ok p → consumes p s → bounds (_max_length_from_subpattern p) s.
Proof. intros Hp. apply seq_bounded. eapply Forall_impl; [exact Hp|apply op_bounded_all]. Qed.
End consumes.

(** ** The tail the finish check decodes *)

(** What is needed of the tokens of an output when only the last [t] are decoded:
    the cut is not inside a character, and the [t - n] of them that are not new have
    at least as many characters as there are tokens. *)
Definition tail_reads (decode : list Z → text) (n t : Z) (out : list Z) : Prop :=
  t < zlen out → let k := (length out - Z.to_nat t)%nat in
  decode out = decode (take k out) ++ decode (drop k out) ∧
  zlen (decode (take k out)) + (t - n) ≤ zlen (decode (take (length out - Z.to_nat n) out)).

(** The text [s] occurs in the decoded output and ends in the last [n] tokens. *)
Definition ends_in_new (decode : list Z → text) (n : Z) (out : list Z) (s : text) : Prop :=
  ∃ a b, decode out = a ++ s ++ b ∧ (length (decode (take (length out - Z.to_nat n) out)) < length a + length s)%nat.

Lemma split_text (d1 d2 a s b : text) : (length d1 ≤ length a)%nat → d1 ++ d2 = a ++ s ++ b → ∃ a', d2 = a' ++ s ++ b.
Proof. intros Hl E. exists (drop (length d1) a). apply (f_equal (drop (length d1))) in E. rewrite drop_app_length, drop_app_le in E by lia. done. Qed.

(** A text no longer than the tail less the new tokens is in the tail. *)
Lemma in_tail decode n t out s : tail_reads decode n t out → 1 ≤ n ≤ zlen out → n ≤ t ≤ zlen out → zlen s ≤ t - n ∨ t = zlen out →
  ends_in_new decode n out s → str_in s (decode (pydrop out (- t))) = true.
Proof.
  intros Hd Hn Ht Hs (a & b & E & Hlt). rewrite pydrop_neg by lia. apply str_in_spec. destruct (decide (t = zlen out)) as [->|Hne].
  { unfold zlen. rewrite Nat2Z.id, Nat.sub_diag, drop_0. by exists a, b. }
  destruct Hs as [Hs|]; [|done]. destruct (Hd ltac:(lia)) as [Ec Hlen]. set (k := (length out - Z.to_nat t)%nat) in *.
  rewrite Ec in E. assert (length (decode (take k out)) ≤ length a)%nat as Hk by (unfold zlen in *; lia).
  destruct (split_text _ _ _ _ _ Hk E) as [a' ->]. by exists a', b.
Qed.

Section stops.
Context (sp : SamplingParams) (tk : Tokenizer) (Hpar : params_ok sp (Some tk)).
Definition readable_tail (n : Z) (r : FinReq) : Prop := tail_reads (decode tk) n (_stop_match_tail_len sp n r) (output_ids r).

(** The settings say the text is short enough, or the whole output is in the tail. *)
Lemma stop_in_tail n r s : no_stop_text sp = false → readable_tail n r → 1 ≤ n ≤ zlen (output_ids r) →
  zlen s ≤ Z.max (stop_str_max_len sp) (stop_regex_max_len sp) ∨ zlen (output_ids r) ≤ Z.max (stop_str_max_len sp) (stop_regex_max_len sp) →
  ends_in_new (decode tk) n (output_ids r) s → str_in s (tail_of sp (Some tk) n r) = true.
Proof.
  intros Hno Hd Hn Hs He. unfold tail_of, tail_str, decode_ids. rewrite Hno.
  pose proof (tail_len_bounds sp (Some tk) Hpar n r Hn) as Ht. apply (in_tail _ n); [done|done|done| |done].
  destruct Hpar. unfold _stop_match_tail_len in *. lia.
Qed.
End stops.

(** ** Normalised parameters *)

Lemma foldl_max_spec {A} (f : A → Z) l m : let n := foldl (λ m x, Z.max m (f x)) m l in m ≤ n ∧ Forall (λ x, f x ≤ n) l.
Proof.
  revert m. induction l as [|x l IH]; intros m; cbn [foldl]; [done|]. destruct (IH (Z.max m (f x))) as [H1 H2]. cbv zeta.
  split; [lia|]. constructor; [lia|done].
Qed.

Section normalize.
Context (encode : option (text → list Z)) (sre_parse : text → option (list op)).

(** The pattern is not too long and parses, to a tree of at most [n] characters. *)
Definition pattern_ok (n : Z) (q : text) : Prop :=
  utf8_len q ≤ MAX_STOP_REGEX_LEN ∧ ∃ ops, sre_parse q = Some ops ∧ _max_length_from_subpattern ops ≤ n.

Lemma pattern_ok_mono n n' q : n ≤ n' → pattern_ok n q → pattern_ok n' q.
Proof. intros ? (? & ops & ? & ?). split; [done|]. exists ops. split; [done|lia]. Qed.

Lemma regex_loop_Ok l m n : regex_loop sre_parse l m = Ok n → m ≤ n ∧ Forall (pattern_ok n) l.
Proof.
  revert m. induction l as [|q l IH]; intros m; cbn [regex_loop]; [by intros [= ->]|].
  destruct (Z.ltb_spec MAX_STOP_REGEX_LEN (utf8_len q)); [done|]. unfold get_max_seq_length.
  destruct (sre_parse q) as [ops|] eqn:Eq; [|done]. intros [H1 H2]%IH. split; [lia|]. constructor; [|done].
  split; [lia|]. exists ops. split; [done|lia].
Qed.

Lemma regex_loop_returns l m :
  Forall (λ q, utf8_len q ≤ MAX_STOP_REGEX_LEN ∧ is_Some (sre_parse q)) l → ∃ n, regex_loop sre_parse l m = Ok n.
Proof.
  intros Hl. revert m. induction Hl as [|q l [H1 [ops H2]] _ IH]; intros m; cbn [regex_loop]; [by eexists|].
  destruct (Z.ltb_spec MAX_STOP_REGEX_LEN (utf8_len q)); [lia|]. unfold get_max_seq_length. rewrite H2. apply IH.
Qed.

(** The strings and patterns asked for. *)
Definition asked (s : option stops) : list text := match s with Some s => as_list s | None => [] end.

(** When [normalize] accepts. *)
Record stops_accepted (p : ApiParams) : Prop := {
  sa_count : zlen (asked (sp_stop_strs p)) ≤ MAX_STOP_COUNT;
  sa_regex_count : zlen (asked (sp_stop_regex_strs p)) ≤ MAX_STOP_REGEX_COUNT;
  sa_regex : Forall (λ q, utf8_len q ≤ MAX_STOP_REGEX_LEN ∧ is_Some (sre_parse q)) (asked (sp_stop_regex_strs p));
  sa_tokenizer : is_Some encode ∨ asked (sp_stop_strs p) = [] ∧ asked (sp_stop_regex_strs p) = [] ∧ default 0 (sp_min_new_tokens p) ≤ 0
}.

(** What it leaves. *)
Record normalized (p p' : ApiParams) : Prop := {
  no_done : sp_is_normalized p' = true;
  no_strs : sp_stop_strs p' = Some (Many (asked (sp_stop_strs p)));
  no_regexes : sp_stop_regex_strs p' = Some (Many (asked (sp_stop_regex_strs p)));
  no_str_len : 0 ≤ sp_stop_str_max_len p' ∧ Forall (λ s, stop_len encode s ≤ sp_stop_str_max_len p') (asked (sp_stop_strs p));
  no_regex_len : 0 ≤ sp_stop_regex_max_len p' ∧ Forall (pattern_ok (sp_stop_regex_max_len p')) (asked (sp_stop_regex_strs p));
  no_rest : sp_temperature p' = sp_temperature p ∧ sp_max_new_tokens p' = sp_max_new_tokens p ∧ sp_stop_token_ids p' = sp_stop_token_ids p ∧ sp_ignore_eos p' = sp_ignore_eos p
}.

Lemma require_tokenizer_spec (a b : list text) m :
  raise_if_tokenizer_required (match encode with Some _ => true | None => false end) a b m =
  if bool_decide (is_Some encode ∨ a = [] ∧ b = [] ∧ m ≤ 0) then Ok tt else Raise ValueError.
Proof.
  unfold raise_if_tokenizer_required. destruct encode as [f|]; [by rewrite bool_decide_true by (left; by eexists)|].
  destruct a; cbn [zlen length Z.of_nat Z.eqb negb]; [|rewrite bool_decide_false; [done|by intros [[]|[]]]].
  destruct b; cbn [zlen length Z.of_nat Z.eqb negb]; [|rewrite bool_decide_false; [done|by intros [[]|(_ & ? & _)]]].
  destruct (Z.ltb_spec 0 m); [rewrite bool_decide_false; [done|intros [[]|]; [done|lia]]|]. by rewrite bool_decide_true by auto.
Qed.

(** An absent list is an empty one. *)
Lemma stage_eq {B} (s : option stops) (limit : Z) (z : B) (f : list text → result B) : 0 ≤ limit → f [] = Ok z →
  match s with
  | None => Ok ([], z)
  | Some s => let l := as_list s in if limit <? zlen l then Raise ValueError else let! m := f l in Ok (l, m)
  end = if limit <? zlen (asked s) then Raise ValueError else let! m := f (asked s) in Ok (asked s, m).
Proof. intros Hl Hz. destruct s as [s|]; [done|]. cbn [asked]. rewrite (proj2 (Z.ltb_ge limit (zlen []))) by done. by rewrite Hz. Qed.

Lemma normalize_eq p : normalize encode sre_parse p =
  if MAX_STOP_COUNT <? zlen (asked (sp_stop_strs p)) then Raise ValueError
  else if MAX_STOP_REGEX_COUNT <? zlen (asked (sp_stop_regex_strs p)) then Raise ValueError
  else
    let! regex_len := regex_loop sre_parse (asked (sp_stop_regex_strs p)) 0 in
    let! min_new := need (sp_min_new_tokens p) in
    let! _ := raise_if_tokenizer_required (match encode with Some _ => true | None => false end)
                (asked (sp_stop_strs p)) (asked (sp_stop_regex_strs p)) min_new in
    Ok (mkApi (sp_max_new_tokens p) None (sp_stop_token_ids p) None
      (sp_temperature p) (sp_top_p p) (sp_top_k p) (sp_min_p p) (sp_frequency_penalty p) (sp_presence_penalty p)
      (sp_repetition_penalty p) (sp_min_new_tokens p) (sp_n p) (sp_beam_width p) (sp_json_schema p) (sp_regex p) (sp_ebnf p)
      (sp_structural_tag p) (sp_ignore_eos p) (sp_skip_special_tokens p) (sp_spaces_between_special_tokens p) (sp_no_stop_trim p)
      (sp_logit_bias p) (sp_sampling_seed p) (sp_reasoning_end p) (sp_watermark p)
      (Some (Many (asked (sp_stop_strs p)))) (Some (Many (asked (sp_stop_regex_strs p))))
      (foldl (λ m s, Z.max m (stop_len encode s)) 0 (asked (sp_stop_strs p))) regex_len true).
Proof.
  unfold normalize. pose proof (stage_eq (sp_stop_regex_strs p) MAX_STOP_REGEX_COUNT 0 (λ l, regex_loop sre_parse l 0)) as E2.
  cbv beta zeta in *. rewrite E2 by done. clear E2.
  pose proof (stage_eq (sp_stop_strs p) MAX_STOP_COUNT 0 (λ l, Ok (foldl (λ m s, Z.max m (stop_len encode s)) 0 l))) as E1.
  cbn [rbind] in *. cbv beta zeta in *. rewrite E1 by done. destruct (_ <? _); [done|]. cbn [rbind]. destruct (_ <? _); [done|].
  by destruct (regex_loop _ _ _).
Qed.

Lemma normalize_Ok p p' : normalize encode sre_parse p = Ok p' → stops_accepted p ∧ normalized p p'.
Proof.
  rewrite normalize_eq. destruct (Z.ltb_spec MAX_STOP_COUNT (zlen (asked (sp_stop_strs p)))); [done|].
  destruct (Z.ltb_spec MAX_STOP_REGEX_COUNT (zlen (asked (sp_stop_regex_strs p)))); [done|].
  destruct (regex_loop _ _ _) as [m|] eqn:Er; [|done]. cbn [rbind]. apply regex_loop_Ok in Er as [Hm Hq].
  destruct (sp_min_new_tokens p) as [mn|] eqn:Emn; [|done]. cbn [need rbind]. rewrite require_tokenizer_spec. case_bool_decide as Ht; [|done].
  intros [= <-]. destruct (foldl_max_spec (stop_len encode) (asked (sp_stop_strs p)) 0) as [Hs1 Hs2]. split; split; cbn; try done.
  - eapply Forall_impl; [exact Hq|]. intros q (Hu & ops & -> & _). split; [done|by eexists].
  - by rewrite Emn.
Qed.

Lemma normalize_accepts p : is_Some (sp_min_new_tokens p) → stops_accepted p → ∃ p', normalize encode sre_parse p = Ok p'.
Proof.
  intros [mn Hmn] [H1 H2 H3 H4]. rewrite normalize_eq, !(proj2 (Z.ltb_ge _ _)) by done. destruct (regex_loop_returns _ 0 H3) as [m ->]. cbn [rbind].
  rewrite Hmn in *. cbn [need rbind default] in *. rewrite require_tokenizer_spec, bool_decide_true by done. by eexists.
Qed.

(** Normalised parameters are what the finish check relies on. *)
Lemma normalized_params_ok p p' m tk : normalized p p' → stops_accepted p → (is_Some encode → is_Some tk) → params_ok (finish_view p' m) tk.
Proof.
  intros [_ Hs Hr [Hl _] [Hq _] _] [_ _ _ Ht] Htk. split; [done|done|]. unfold no_stop_text, finish_view. cbn [stop_strs stop_regex_strs].
  rewrite Hs, Hr. cbn [as_list]. intros Hno. destruct Ht as [Ht|(E1 & E2 & _)]; [auto|]. by rewrite E1, E2 in Hno.
Qed.
End normalize.

(** ** Defaults and limits *)

(** The values of a request that passed. *)
Record in_range (vocab_size : Z) (p : ApiParams) : Prop := {
  ir_temperature : ∃ q, sp_temperature p = Some (Fin q) ∧ (4722366482869645 # 4722366482869645213696 <= q)%Q;
  ir_top_p : ∃ q, sp_top_p p = Some (Fin q) ∧ (0 < q <= 1)%Q;
  ir_min_p : ∃ q, sp_min_p p = Some (Fin q) ∧ (0 <= q <= 1)%Q;
  ir_top_k : ∃ k, sp_top_k p = Some k ∧ 1 ≤ k;
  ir_frequency : ∃ q, sp_frequency_penalty p = Some (Fin q) ∧ (-2 <= q <= 2)%Q;
  ir_presence : ∃ q, sp_presence_penalty p = Some (Fin q) ∧ (-2 <= q <= 2)%Q;
  ir_repetition : ∃ q, sp_repetition_penalty p = Some (Fin q) ∧ (0 < q <= 2)%Q;
  ir_tokens : ∃ m, sp_min_new_tokens p = Some m ∧ 0 ≤ m ∧ ∀ n, sp_max_new_tokens p = Some n → m ≤ n;
  ir_bias : ∀ keys, sp_logit_bias p = Some keys → Forall (λ k, ∃ t, k = Some t ∧ 0 ≤ t < vocab_size) keys;
  ir_seed : ∀ s, sp_sampling_seed p = Some s → ∃ z, s = Some z ∧ - 2 ^ 63 ≤ z < 2 ^ 63;
  ir_grammar : is_set (sp_json_schema p) + is_set (sp_regex p) + is_set (sp_ebnf p) + is_set (sp_structural_tag p) ≤ 1
}.

Lemma require_Ok b : require b = Ok tt ↔ b = true.
Proof. by destruct b. Qed.

Lemma fle_Fin a b : fle (Fin a) (Fin b) = true ↔ (a <= b)%Q.
Proof. apply Qle_bool_iff. Qed.
Lemma flt_Fin a b : flt (Fin a) (Fin b) = true ↔ (a < b)%Q.
Proof. cbn. rewrite negb_true_iff. split; [|intros H; destruct (Qle_bool b a) eqn:E; [apply Qle_bool_iff in E; lra|done]].
  intros H. destruct (Qlt_le_dec a b) as [|Hle]; [done|]. apply Qle_bool_iff in Hle. congruence. Qed.

Lemma between_le a b x : fle (Fin a) x && fle x (Fin b) = true → ∃ q, x = Fin q ∧ (a <= q <= b)%Q.
Proof. intros [H1 H2]%andb_true_iff. destruct x; try done. exists q. by rewrite !fle_Fin in *. Qed.
Lemma between_lt a b x : flt (Fin a) x && fle x (Fin b) = true → ∃ q, x = Fin q ∧ (a < q <= b)%Q.
Proof. intros [H1 H2]%andb_true_iff. destruct x; try done. exists q. by rewrite flt_Fin, fle_Fin in *. Qed.

Lemma need_Ok {A} (x : option A) a : need x = Ok a → x = Some a.
Proof. destruct x; [by intros [= ->]|done]. Qed.

(** Takes the next step of [verify] apart. *)
Ltac verify_step H E := let x := fresh "x" in
  apply rbind_Ok in H as (x & E & H); first [apply need_Ok in E | destruct x; apply require_Ok in E | idtac].

Lemma seed_range (s : option Z) : match s with Some s => (- 2 ^ 63 <=? s) && (s <=? 2 ^ 63 - 1) | None => false end = true →
  ∃ z, s = Some z ∧ - 2 ^ 63 ≤ z < 2 ^ 63.
Proof. destruct s as [z|]; [|done]. intros [?%Z.leb_le ?%Z.leb_le]%andb_true_iff. exists z. split; [done|lia]. Qed.

Lemma verify_ranges v p : verify v p = Ok tt →
  (∃ q, sp_temperature p = Some (Fin q) ∧ (0 <= q)%Q) ∧
  ((∃ q, sp_temperature p = Some (Fin q) ∧ (4722366482869645 # 4722366482869645213696 <= q)%Q) → in_range v p).
Proof.
  unfold verify. intros H. verify_step H Hbeam. verify_step H Et. verify_step H Ht. verify_step H Etp. verify_step H Htp.
  verify_step H Emp. verify_step H Hmp. verify_step H Etk. verify_step H Htk. verify_step H Efp. verify_step H Hfp.
  verify_step H Epp. verify_step H Hpp. verify_step H Erp. verify_step H Hrp. verify_step H Emn. verify_step H Hmn.
  verify_step H Hmx. verify_step H Hlb. verify_step H Hseed. verify_step H Hre. apply require_Ok, Z.leb_le in H. split.
  - destruct x as [q| | |]; try done. exists q. split; [done|]. apply andb_true_iff in Ht as [_ Ht%negb_true_iff].
    destruct (Qlt_le_dec q 0) as [Hlt|]; [|done]. apply flt_Fin in Hlt. change (fz 0) with (Fin 0) in Ht. congruence.
  - intros Htemp. split; [done|..|done].
    + apply between_lt in Htp as (q & -> & ?). by exists q.
    + apply between_le in Hmp as (q & -> & ?). by exists q.
    + rewrite negb_true_iff, orb_false_iff in Htk. destruct Htk as [?%Z.ltb_ge _]. by eexists.
    + apply between_le in Hfp as (q & -> & ?). by exists q.
    + apply between_le in Hpp as (q & -> & ?). by exists q.
    + apply between_lt in Hrp as (q & -> & ?). by exists q.
    + apply Z.leb_le in Hmn. eexists. split; [done|]. split; [done|]. intros n En. rewrite En in Hmx.
      by apply andb_true_iff in Hmx as [_ ?%Z.leb_le].
    + intros keys Ek. rewrite Ek, forallb_forall in Hlb. apply Forall_forall. intros k Hk%list_elem_of_In. specialize (Hlb k Hk).
      destruct k as [t|]; [|done]. apply andb_true_iff in Hlb as [?%Z.leb_le ?%Z.ltb_lt]. by exists t.
    + intros s Es. rewrite Es in Hseed. by apply seed_range.
Qed.

Lemma filter_ids_idem (l : list (option Z)) :
  filter (λ t, t ≠ None) (remove_dups (filter (λ t, t ≠ None) (remove_dups l))) = filter (λ t, t ≠ None) (remove_dups l).
Proof.
  assert (∀ l : list (option Z), NoDup l → remove_dups l = l) as Hd.
  { induction 1 as [|x k Hx _ IH]; [done|]. cbn. destruct (decide_rel elem_of x k); [done|]. by rewrite IH. }
  rewrite Hd by apply NoDup_filter, NoDup_remove_dups. rewrite list_filter_filter. apply list_filter_iff. naive_solver.
Qed.

Lemma check_watermark_id c c' : check_watermark c = Ok c' → c' = c.
Proof. unfold check_watermark. by intros (? & _ & (? & _ & (? & _ & [= <-])%rbind_Ok)%rbind_Ok)%rbind_Ok. Qed.

Lemma text_or_none_idem x : text_or_none (text_or_none x) = text_or_none x.
Proof. by destruct x as [[]|]. Qed.

(** Initialising a second time changes nothing. *)
Lemma post_init_idem p p' : __post_init__ p = Ok p' → __post_init__ p' = Ok p'.
Proof.
  unfold __post_init__. destruct (sp_is_normalized p) eqn:En; [by intros [= <-]; rewrite En|].
  destruct (normalize_watermark_request (sp_watermark p)) as [w|] eqn:Ew; [|done]. intros [= <-]. change (sp_is_normalized (with_defaults w p)) with (sp_is_normalized p). rewrite En.
  assert (normalize_watermark_request (match w with Some c => WConfig c | None => WNone end) = Ok w) as Ew'.
  { unfold normalize_watermark_request in *. destruct (sp_watermark p) as [|c|c []|]; try done; [by injection Ew as <-|..];
      apply rbind_Ok in Ew as (c' & Ec & [= <-]); pose proof Ec as ->%check_watermark_id; by rewrite Ec. }
  set (t := default (fz 1) (sp_temperature p)). set (g := fle (fz 0) t && flt t _SAMPLING_EPS).
  assert (fle (fz 0) (if g then fz 1 else t) && flt (if g then fz 1 else t) _SAMPLING_EPS = false) as Eg
    by (destruct g eqn:E; [done|exact E]).
  set (k := if g then 1 else default (-1) (sp_top_k p)).
  assert (((if k =? -1 then TOP_K_ALL else k) =? -1) = false) as Ek by (destruct (Z.eqb_spec k (-1)); [done|by apply Z.eqb_neq]).
  change (sp_watermark (with_defaults w p)) with (match w with Some c => WConfig c | None => WNone end). rewrite Ew'. cbn [rbind]. f_equal.
  unfold with_defaults at 1. change (default (fz 1) (sp_temperature (with_defaults w p))) with (if g then fz 1 else t).
  change (default (-1) (sp_top_k (with_defaults w p))) with (if k =? -1 then TOP_K_ALL else k). rewrite Eg, Ek.
  unfold with_defaults. fold t g k. f_equal; try apply text_or_none_idem.
  destruct (sp_stop_token_ids p) as [[|x l]|]; [done| |done].
  destruct (filter _ (remove_dups (x :: l))) as [|y m] eqn:Ef; [done|].
  pose proof (filter_ids_idem (x :: l)) as Ei. rewrite Ef in Ei. cbn [sp_stop_token_ids]. by rewrite Ei.
Qed.

Lemma post_init_temperature p p' : sp_is_normalized p = false → __post_init__ p = Ok p' →
  (∃ q, sp_temperature p' = Some (Fin q) ∧ (0 <= q)%Q) → ∃ q, sp_temperature p' = Some (Fin q) ∧ (4722366482869645 # 4722366482869645213696 <= q)%Q.
Proof.
  unfold __post_init__. intros ->. destruct (normalize_watermark_request _) as [w|]; [|done]. intros [= <-]. unfold with_defaults. cbn [sp_temperature].
  set (t := default (fz 1) (sp_temperature p)). destruct (fle (fz 0) t && flt t _SAMPLING_EPS) eqn:Eg.
  - intros _. exists 1%Q. split; [done|]. by apply Qle_bool_iff.
  - intros (q & [= Eq] & Hq). rewrite Eq in *. exists q. split; [done|].
    apply andb_false_iff in Eg as [Eg|Eg]; [apply (fle_Fin 0 q) in Hq; change (fz 0) with (Fin 0) in Eg; congruence|].
    destruct (Qlt_le_dec q (4722366482869645 # 4722366482869645213696)) as [Hlt|]; [|done]. apply flt_Fin in Hlt. unfold _SAMPLING_EPS in Eg. congruence.
Qed.

(** ** Stops that are found *)

(** A pattern without anchors and look-around matches wherever its text occurs. *)
Fixpoint anchor_free (o : op) : bool :=
  match o with
  | LITERAL _ | IN _ | ANY => true
  | SUBPATTERN p | MAX_REPEAT _ _ p | MIN_REPEAT _ _ p => forallb anchor_free p
  | BRANCH b bs => forallb anchor_free b && forallb (forallb anchor_free) bs
  | AT | OTHER_TOKEN => false
  end.

(** What is assumed of [re]: the parse trees have no negative counts, and a search
    finds every text an anchor-free pattern consumes. *)
Record re_laws (accepts : op → Z → bool) (sre_parse : text → option (list op)) (re_search : text → text → option bool) : Prop := {
  re_counts : ∀ q ops, sre_parse q = Some ops → Forall counts_ok ops;
  re_finds : ∀ q ops s t, sre_parse q = Some ops → forallb anchor_free ops = true → consumes accepts ops s → str_in s t = true →
    re_search q t = Some true
}.

(** A request that is running, with [n] new tokens. *)
Record running_step (sp : SamplingParams) (n : Z) (r : FinReq) : Prop := {
  rs_new : 1 ≤ n ≤ zlen (output_ids r);
  rs_running : finished r = false;
  rs_to_finish : to_finish r = None;
  rs_len : finished_len r = None;
  rs_limit : zlen (output_ids r) - n < p_max_new_tokens sp
}.

Section found.
Context (sp : SamplingParams) (tk : Tokenizer) (vocab_size : option Z) (eos : list Z) (grammar : option bool) (re_search : text → text → option bool).
Context (Hpar : params_ok sp (Some tk)) (Hre : re_ok re_search).

Lemma not_quiet_finishes n r : running_step sp n r → ¬ text_quiet sp (Some tk) re_search n r →
  ∃ r', update_finish_state sp (Some tk) vocab_size eos grammar re_search n r = Ok r' ∧ finished r' = true.
Proof.
  intros [Hn Hf Ht Hl Hm] Hq. destruct (update_spec sp (Some tk) vocab_size eos grammar re_search Hpar n r Hre) as (r' & E & _ & Hiff); [done..|].
  exists r'. split; [done|]. destruct (finished r') eqn:Ef; [done|]. exfalso. by destruct (proj1 Hiff eq_refl) as (_ & ? & _).
Qed.

Lemma string_found n r s : running_step sp n r → readable_tail sp tk n r → s ∈ stop_strs sp → zlen s ≤ stop_str_max_len sp → ends_in_new (decode tk) n (output_ids r) s →
  ∃ r', update_finish_state sp (Some tk) vocab_size eos grammar re_search n r = Ok r' ∧ finished r' = true.
Proof.
  intros Hr Hd Hs Hlen He. apply not_quiet_finishes; [done|]. intros [Hq _]. rewrite Forall_forall in Hq. destruct (Hq s Hs) as [Hq' _].
  rewrite (stop_in_tail sp tk Hpar n r s) in Hq'; [done| |done|apply Hr|lia|done].
  unfold no_stop_text. destruct (stop_strs sp); [by apply elem_of_nil in Hs|]. done.
Qed.

Lemma pattern_found accepts sre_parse n r q ops s : re_laws accepts sre_parse re_search → running_step sp n r → readable_tail sp tk n r → q ∈ stop_regex_strs sp →
  sre_parse q = Some ops → forallb anchor_free ops = true → _max_length_from_subpattern ops ≤ stop_regex_max_len sp →
  consumes accepts ops s → ends_in_new (decode tk) n (output_ids r) s → zlen (output_ids r) ≤ MAX_LEN →
  ∃ r', update_finish_state sp (Some tk) vocab_size eos grammar re_search n r = Ok r' ∧ finished r' = true.
Proof.
  intros [Hc Hfind] Hr Hd Hq Hp Ha Hmax Hs He Hout. apply not_quiet_finishes; [done|]. intros [_ Hn]. rewrite Forall_forall in Hn. specialize (Hn q Hq).
  rewrite (Hfind q ops s) in Hn; [done..|]. apply (stop_in_tail sp tk Hpar); [|done|apply Hr| |done].
  - unfold no_stop_text. destruct (stop_regex_strs sp); [by apply elem_of_nil in Hq|]. by rewrite andb_false_r.
  - destruct (consumes_bounded accepts ops s (Hc q ops Hp) Hs); [left|right]; lia.
Qed.
End found.

(** ** The properties *)

(** The length computed for a pattern bounds every text the pattern can
    consume, or is past [MAX_LEN], which no output reaches. *)
Theorem regex_length_sound accepts p s : Forall counts_ok p → consumes accepts p s → bounds (_max_length_from_subpattern p) s.
Proof. apply consumes_bounded. Qed.

(** C18: the parameters a request ends up with, after the three calls of the
    tokenizer process, are in range (in particular the temperature is at least
    [_SAMPLING_EPS]: dividing by it is safe), satisfy what the finish check
    relies on, and survive the initialisation that follows a transfer between
    processes. *)
Theorem accepted_params encode sre_parse vocab_size raw p p' tokenizer m :
  sp_is_normalized raw = false → __post_init__ raw = Ok p → normalize encode sre_parse p = Ok p' → verify vocab_size p' = Ok tt →
  (is_Some encode → is_Some tokenizer) →
  in_range vocab_size p' ∧ params_ok (finish_view p' m) tokenizer ∧ __post_init__ p' = Ok p'.
Proof.
  intros Hraw Hp Hn Hv Htk. apply normalize_Ok in Hn as [Ha Hn]. apply verify_ranges in Hv as [Ht Hv]. split.
  - apply Hv. destruct Hn as [_ _ _ _ _ (Et & _)]. rewrite Et in *. by eapply post_init_temperature.
  - split; [by eapply normalized_params_ok|]. unfold __post_init__. by rewrite (no_done _ _ _ _ Hn).
Qed.

(** Initialising is idempotent, and [normalize] returns exactly when there are
    at most 32 strings and 32 patterns, every pattern has at most 256 bytes and
    parses, and a tokenizer is there for what needs one. *)
Theorem normalize_accepts_iff encode sre_parse raw p : __post_init__ raw = Ok p → sp_is_normalized raw = false →
  __post_init__ p = Ok p ∧ (is_Ok (normalize encode sre_parse p) = true ↔ stops_accepted encode sre_parse p).
Proof.
  intros Hp Hraw. split; [by eapply post_init_idem|]. split.
  - destruct (normalize _ _ _) as [p'|] eqn:E; [|done]. intros _. by apply normalize_Ok in E as [? _].
  - intros Ha. destruct (normalize_accepts encode sre_parse p) as [p' ->]; [|done|done].
    unfold __post_init__ in Hp. rewrite Hraw in Hp. apply rbind_Ok in Hp as (w & _ & [= <-]). by eexists.
Qed.

(** A stop string that is no longer than the recorded length and ends in the new
    tokens finishes the request, when the tail of its output reads. *)
Theorem no_stop_string_missed sp tk vocab_size eos grammar re_search n r s :
  params_ok sp (Some tk) → re_ok re_search → running_step sp n r → readable_tail sp tk n r →
  s ∈ stop_strs sp → zlen s ≤ stop_str_max_len sp → ends_in_new (decode tk) n (output_ids r) s →
  ∃ r', update_finish_state sp (Some tk) vocab_size eos grammar re_search n r = Ok r' ∧ finished r' = true.
Proof. intros. by eapply string_found. Qed.

(** C17: for parameters that [normalize] accepted, a text that a stop pattern
    without anchors and look-around consumes and that ends in the new tokens
    finishes the request: the tail sized by [get_max_seq_length] is long enough.
    This is for outputs whose tail reads, which an output with characters of
    several tokens may not do: where only part of the output is decoded, the part
    does not start inside a character, and its tokens before the new ones have at
    least as many characters as there are tokens.  The output is at most [MAX_LEN]
    tokens long. *)
Theorem no_stop_pattern_missed accepts encode sre_parse p p' m tk vocab_size eos grammar re_search n r q ops s :
  normalize encode sre_parse p = Ok p' → re_laws accepts sre_parse re_search → re_ok re_search →
  running_step (finish_view p' m) n r → readable_tail (finish_view p' m) tk n r → zlen (output_ids r) ≤ MAX_LEN →
  q ∈ asked (sp_stop_regex_strs p) → sre_parse q = Some ops → forallb anchor_free ops = true → consumes accepts ops s →
  ends_in_new (decode tk) n (output_ids r) s →
  ∃ r', update_finish_state (finish_view p' m) (Some tk) vocab_size eos grammar re_search n r = Ok r' ∧ finished r' = true.
Proof.
  intros [Ha Hn]%normalize_Ok Hre Hok Hr Hd Hout Hq Hp Hfree Hs He. pose proof Hn as [_ _ Er _ [_ Hl] _].
  assert (params_ok (finish_view p' m) (Some tk)) as Hpar by (eapply normalized_params_ok; [done|done|by eexists]).
  eapply (pattern_found _ tk vocab_size eos grammar re_search Hpar Hok); [done|done|done| |done|done| |done|done|done].
  - cbn. by rewrite Er.
  - rewrite Forall_forall in Hl. destruct (Hl q Hq) as (_ & ops' & Ho & Hle). cbn. by simplify_eq.
Qed.
