(* ===== verification/Intake.v ===== *)
(** * Accepting a request ([tokenizer_manager.py], [scheduler.py], [utils.py])

    The length checks a request passes on its way to the waiting queue: in the
    tokenizer process ([_validate_one_request]) and in the scheduler
    ([init_req_max_new_tokens], [validate_input_length] and what
    [handle_generate_request] does around them).  Error messages are abbreviated. *)
From S2P Require Import Prelude Text Finish.

(** ** The tokenizer process *)

Record tm_cfg := mkTm {
  context_len : Z;
  tm_max_req_input_len : option Z;
  num_reserved_tokens : Z;
  tm_allow_auto_truncate : bool;
  validate_total_tokens : bool;
  glm_check_chat_prompt_length : bool;
  glm_adaptive_max_tokens : bool
}.

Definition _max_req_len (cfg : tm_cfg) : Z :=
  Z.min (context_len cfg)
    (match tm_max_req_input_len cfg with Some m => if m =? 0 then context_len cfg else m | None => context_len cfg end).

(** The ids and [max_new_tokens] that are kept. *)
Definition _validate_one_request (cfg : tm_cfg) (is_generate : bool) (input_ids : option (list Z)) (max_new_tokens : option Z) :
    result (option (list Z) * option Z) :=
  let limit := _max_req_len cfg in
  let input_token_num := zlen (default [] input_ids) + num_reserved_tokens cfg in
  let refuse := if glm_check_chat_prompt_length cfg && is_generate then HTTPException else ValueError in
  let! (input_ids, input_token_num) :=
    if limit <=? input_token_num then
      if tm_allow_auto_truncate cfg then
        match input_ids with
        | None => Raise TypeError
        | Some ids =>
            let ids := pytake ids (Z.max (limit - num_reserved_tokens cfg - 1) 0) in
            Ok (Some ids, zlen ids + num_reserved_tokens cfg)
        end
      else Raise refuse
    else Ok (input_ids, input_token_num) in
  let max_new_tokens :=
    match max_new_tokens with
    | Some m =>
        let adaptive_max := limit - input_token_num in
        Some (if glm_adaptive_max_tokens cfg && (0 <? adaptive_max) && (adaptive_max <? m) then adaptive_max else m)
    | None => None
    end in
  if validate_total_tokens cfg && match max_new_tokens with Some m => limit <? m + input_token_num | None => false end then
    if tm_allow_auto_truncate cfg then Ok (input_ids, Some (Z.max 0 (limit - input_token_num))) else Raise refuse
  else Ok (input_ids, max_new_tokens).

(** ** The scheduler *)

Record sched_limits := mkLimits {
  max_req_len : Z;
  max_req_input_len : Z;
  max_new_tokens_limit : option Z;
  max_total_num_tokens : Z;
  kv_shard_widening : Z;
  sl_page_size : Z;
  sl_allow_auto_truncate : bool;
  no_speculation : bool
}.

(** [TpModelWorker.get_worker_info]: the two lengths, from the context length, the
    capacity of the pool and the block of a diffusion model. *)
Definition worker_lens (context_len kv_capacity : Z) (dllm_block : option Z) : Z * Z :=
  let max_req_len := Z.min (context_len - 1) (kv_capacity - 1) in
  (max_req_len, max_req_len - 5 - default 0 dllm_block).

(** The part of [Req] that is set here. *)
Record IntakeReq := mkIntake {
  origin_input_ids : list Z;
  i_max_new_tokens : option Z;
  i_min_new_tokens : Z;
  i_to_finish : option finish_reason;
  return_logprob : bool;
  logprob_start_len : Z
}.

Definition set_finish_with_abort (msg : string) (r : IntakeReq) : IntakeReq :=
  mkIntake [0] (i_max_new_tokens r) (i_min_new_tokens r) (Some (FINISH_ABORT (txt msg))) false (-1).
Definition set_new_tokens (max_new min_new : Z) (r : IntakeReq) : IntakeReq :=
  mkIntake (origin_input_ids r) (Some max_new) min_new (i_to_finish r) (return_logprob r) (logprob_start_len r).
Definition set_logprob_start (n : Z) (r : IntakeReq) : IntakeReq :=
  mkIntake (origin_input_ids r) (i_max_new_tokens r) (i_min_new_tokens r) (i_to_finish r) (return_logprob r) n.
Definition set_input (ids : list Z) (r : IntakeReq) : IntakeReq :=
  mkIntake ids (i_max_new_tokens r) (i_min_new_tokens r) (i_to_finish r) (return_logprob r) (logprob_start_len r).

(** [BaseTokenToKVPoolAllocator.max_new_tokens_for_memory]; [None]: the prompt
    cannot fit, which this allocator never answers. *)
Definition max_new_tokens_for_memory (page_size input_tokens max_new_tokens token_capacity : Z) : option Z :=
  let paged_input := - ((- input_tokens) / page_size) * page_size in
  Some (Z.max 0 (Z.min max_new_tokens (token_capacity - paged_input - page_size - 1))).

Definition token_capacity (cfg : sched_limits) : Z :=
  max_total_num_tokens cfg * kv_shard_widening cfg - sl_page_size cfg * (kv_shard_widening cfg - 1).

Definition init_req_max_new_tokens (cfg : sched_limits) (r : IntakeReq) : IntakeReq :=
  let input_len := zlen (origin_input_ids r) in
  let max_new := default (2 ^ 30) (i_max_new_tokens r) in
  let max_new := match max_new_tokens_limit cfg with Some l => if 0 <? l then Z.min max_new l else max_new | None => max_new end in
  let max_new := Z.max 0 (Z.min max_new (max_req_len cfg - input_len - 1)) in
  let (r, max_new) :=
    match max_new_tokens_for_memory (sl_page_size cfg) input_len max_new (token_capacity cfg) with
    | Some m => (r, m)
    | None => (set_finish_with_abort "Request prompt exceeds the KV memory budget" r, 0)
    end in
  let max_new := Z.max 0 max_new in
  set_new_tokens max_new (if max_new <? i_min_new_tokens r then max_new else i_min_new_tokens r) r.

(** The error, if any, and the request. *)
Definition validate_input_length (max_req_input_len : Z) (allow_auto_truncate : bool) (r : IntakeReq) : option string * IntakeReq :=
  if max_req_input_len <=? zlen (origin_input_ids r) then
    if allow_auto_truncate then (None, set_input (pytake (origin_input_ids r) max_req_input_len) r)
    else (Some "Input length exceeds the maximum allowed length"%string, r)
  else (None, r).

(** [Req.is_prefill_only]. *)
Definition is_prefill_only (cfg : sched_limits) (r : IntakeReq) : bool := bool_decide (i_max_new_tokens r = Some 0) && no_speculation cfg.

(** The end of [handle_generate_request], from the limits on: what is put into the
    queue.  The arguments are fields of the received message. *)
Definition check_and_queue (cfg : sched_limits) (recv_return_logprob no_token_ids_logprob : bool) (recv_logprob_start_len : Z)
    (r : IntakeReq) : IntakeReq :=
  let r := init_req_max_new_tokens cfg r in
  let (error, r) := validate_input_length (max_req_input_len cfg) (sl_allow_auto_truncate cfg) r in
  match error with
  | Some msg => set_finish_with_abort msg r
  | None =>
      let recv_start := if negb recv_return_logprob && negb (recv_logprob_start_len =? -1) then -1 else recv_logprob_start_len in
      let start :=
        if recv_start =? -1 then
          if recv_return_logprob && no_token_ids_logprob then zlen (origin_input_ids r)
          else if is_prefill_only cfg r then zlen (origin_input_ids r)
          else -1
        else recv_start in
      let r := set_logprob_start start r in
      if zlen (origin_input_ids r) <? start then set_finish_with_abort "logprob_start_len is higher than the number of input tokens" (set_logprob_start (-1) r)
      else r
  end.
