(* ===== verification/IntakeTheorems.v ===== *)
(** * Accepted requests fit

    The lengths a request is queued with fit the context and the pool, and an idle
    pool admits it to prefill. *)
From S2P Require Import Prelude Text Finish Intake PySort PrefillBudget PrefillAdder PrefillTheorems.

(** ** The tokenizer process *)

(** What [_validate_one_request] leaves. *)
Record tm_fits (cfg : tm_cfg) (ids ids' : option (list Z)) (m m' : option Z) : Prop := {
  tf_prefix : default [] ids' `prefix_of` default [] ids;
  tf_input : zlen (default [] ids') + num_reserved_tokens cfg < _max_req_len cfg;
  tf_total : ∀ n, m' = Some n → validate_total_tokens cfg = true → zlen (default [] ids') + num_reserved_tokens cfg + n ≤ _max_req_len cfg;
  tf_less : ∀ n', m' = Some n' → ∃ n, m = Some n ∧ n' ≤ Z.max n 0
}.

Lemma validate_one_spec cfg g ids m ids' m' : 0 ≤ num_reserved_tokens cfg < _max_req_len cfg →
  _validate_one_request cfg g ids m = Ok (ids', m') → tm_fits cfg ids ids' m m'.
Proof.
  intros Hres. unfold _validate_one_request. intros ([ids1 n1] & E1 & E2)%rbind_Ok.
  assert (n1 = zlen (default [] ids1) + num_reserved_tokens cfg ∧ n1 < _max_req_len cfg ∧ default [] ids1 `prefix_of` default [] ids) as (-> & Hn & Hp).
  { destruct (Z.leb_spec (_max_req_len cfg) (zlen (default [] ids) + num_reserved_tokens cfg)) as [Hle|Hlt]; [|injection E1 as <- <-; by split].
    destruct (tm_allow_auto_truncate cfg); [|done]. destruct ids as [ids|]; [|done]. injection E1 as <- <-. cbn [default].
    split; [done|]. rewrite zlen_pytake by lia. split; [lia|]. rewrite pytake_eq by lia. apply prefix_take. }
  set (m1 := match m with Some m => Some _ | None => None end) in E2.
  assert (∀ n1, m1 = Some n1 → ∃ n, m = Some n ∧ n1 ≤ n) as Hm1.
  { intros k. unfold m1. destruct m as [n|]; [|done]. intros [= <-]. exists n. split; [done|].
    destruct (_ && _) eqn:Eb; [|done]. apply andb_true_iff in Eb as [_ Eb%Z.ltb_lt]. lia. }
  destruct (validate_total_tokens cfg) eqn:Ev; cbn [andb] in E2; last first.
  { injection E2 as <- <-. split; [done|done|congruence|]. intros n' H. destruct (Hm1 n' H) as (n & ? & ?). exists n. split; [done|lia]. }
  destruct m1 as [k|]; last first. { injection E2 as <- <-. by split. }
  destruct (Hm1 k eq_refl) as (n & -> & Hk). destruct (Z.ltb_spec (_max_req_len cfg) (k + (zlen (default [] ids1) + num_reserved_tokens cfg))).
  - destruct (tm_allow_auto_truncate cfg); [|done]. injection E2 as <- <-. split; [done|done|..]; intros k' [= <-]; [lia|].
    exists n. split; [done|lia].
  - injection E2 as <- <-. split; [done|done|..]; intros k' [= <-]; [lia|]. exists n. split; [done|lia].
Qed.

(** ** The scheduler *)

Section limits.
Context (cfg : sched_limits) (Hps : 0 < sl_page_size cfg).

(** The new tokens fit the longest request and the pool, unless there are none. *)
Record clipped (r r' : IntakeReq) : Prop := {
  cl_input : origin_input_ids r' = origin_input_ids r;
  cl_to_finish : i_to_finish r' = i_to_finish r;
  cl_max : ∃ m, i_max_new_tokens r' = Some m ∧ 0 ≤ m ∧ i_min_new_tokens r' ≤ m ∧ m ≤ Z.max 0 (default (2 ^ 30) (i_max_new_tokens r)) ∧
    (m = 0 ∨ zlen (origin_input_ids r) + m < max_req_len cfg ∧
             ceil_align (zlen (origin_input_ids r)) (sl_page_size cfg) + m + sl_page_size cfg < token_capacity cfg)
}.

Lemma neg_div_ceil x : - ((- x) / sl_page_size cfg) * sl_page_size cfg = ceil_align x (sl_page_size cfg).
Proof.
  unfold ceil_align. f_equal. symmetry. apply ceil_div_unique; [done|].
  pose proof (Z.mul_div_le (- x) (sl_page_size cfg) Hps). pose proof (Z.mul_succ_div_gt (- x) (sl_page_size cfg) Hps). nia.
Qed.

Lemma clip_spec r : clipped r (init_req_max_new_tokens cfg r).
Proof.
  unfold init_req_max_new_tokens. cbn [max_new_tokens_for_memory]. unfold max_new_tokens_for_memory. rewrite neg_div_ceil.
  set (m0 := default (2 ^ 30) (i_max_new_tokens r)).
  set (m1 := match max_new_tokens_limit cfg with Some l => _ | None => _ end).
  assert (m1 ≤ m0) as Hm by (unfold m1; destruct (max_new_tokens_limit cfg); [destruct (0 <? _); lia|lia]).
  set (m := Z.max 0 (Z.max 0 _)). split; [done|done|]. exists m. split; [done|]. split; [lia|]. cbn [i_min_new_tokens set_new_tokens].
  split; [destruct (Z.ltb_spec m (i_min_new_tokens r)); lia|]. unfold m. split; [lia|]. lia.
Qed.

(** A request that goes on is within every limit. *)
Record accepted (r r' : IntakeReq) : Prop := {
  ac_running : i_to_finish r' = None;
  ac_prefix : origin_input_ids r' `prefix_of` origin_input_ids r;
  ac_len : zlen (origin_input_ids r') ≤ max_req_input_len cfg;
  ac_room : ∀ m, i_max_new_tokens r' = Some m → m = 0 ∨ zlen (origin_input_ids r') + m < max_req_len cfg ∧
    ceil_align (zlen (origin_input_ids r')) (sl_page_size cfg) + m + sl_page_size cfg < token_capacity cfg;
  ac_logprob : logprob_start_len r' ≤ zlen (origin_input_ids r')
}.

(** A request that was refused is replaced by a stub of one token. *)
Definition refused (r' : IntakeReq) : Prop :=
  origin_input_ids r' = [0] ∧ logprob_start_len r' = -1 ∧ return_logprob r' = false ∧ ∃ msg, i_to_finish r' = Some (FINISH_ABORT msg).

Lemma room_prefix (l l' : list Z) m : l' `prefix_of` l →
  zlen l + m < max_req_len cfg ∧ ceil_align (zlen l) (sl_page_size cfg) + m + sl_page_size cfg < token_capacity cfg →
  zlen l' + m < max_req_len cfg ∧ ceil_align (zlen l') (sl_page_size cfg) + m + sl_page_size cfg < token_capacity cfg.
Proof.
  intros Hp%prefix_length [H1 H2]. assert (zlen l' ≤ zlen l) as Hl by (unfold zlen; lia). split; [lia|].
  pose proof (ceil_align_mono (sl_page_size cfg) Hps _ _ Hl). lia.
Qed.

Lemma queue_spec rl nt start r : i_to_finish r = None → 0 ≤ max_req_input_len cfg →
  let r' := check_and_queue cfg rl nt start r in
  (∃ m, i_max_new_tokens r' = Some m ∧ 0 ≤ m ∧ i_min_new_tokens r' ≤ m) ∧ (accepted r r' ∨ refused r').
Proof.
  intros Hrun Hmax. unfold check_and_queue. destruct (clip_spec r) as [Hi Hf (m & Hm & H0 & Hmin & _ & Hroom)].
  set (r1 := init_req_max_new_tokens cfg r) in *. clearbody r1.
  destruct (validate_input_length _ _ r1) as [[msg|] r2] eqn:Ev.
  { unfold validate_input_length in Ev. repeat case_match; try done. injection Ev as _ <-. split; [by exists m|]. right. by repeat split; eexists. }
  assert (origin_input_ids r2 `prefix_of` origin_input_ids r ∧ zlen (origin_input_ids r2) ≤ max_req_input_len cfg ∧
          i_to_finish r2 = None ∧ i_max_new_tokens r2 = Some m ∧ i_min_new_tokens r2 ≤ m) as (Hp & Hlen & Hr2 & Hm2 & Hmin2).
  { unfold validate_input_length in Ev. rewrite Hi, Hrun in *.
    destruct (Z.leb_spec (max_req_input_len cfg) (zlen (origin_input_ids r))); [destruct (sl_allow_auto_truncate cfg); [|done]|]; injection Ev as <-.
    - cbn. rewrite zlen_pytake, pytake_eq by done. split; [apply prefix_take|]. split; [lia|]. done.
    - rewrite Hi. split; [done|]. split; [lia|]. done. }
  cbv zeta. set (st := if _ =? -1 then _ else _). cbn [origin_input_ids set_logprob_start].
  destruct (Z.ltb_spec (zlen (origin_input_ids r2)) st) as [Hlt|Hge]; (split; [by exists m|]); [right; by repeat split; eexists|left].
  split; [done|done|done| |done]. cbn [i_max_new_tokens set_logprob_start]. rewrite Hm2. intros ? [= <-].
  destruct Hroom as [->|Hroom]; [by left|right]. by eapply room_prefix.
Qed.
End limits.

(** ** An idle pool admits what was accepted *)

Section idle.
Context {E N D : Type} `{HT : PrefixTree E N}.
Context (negotiate : D → Z → Z → Z → Z → bool * D) (cfg : adder_cfg) (lim : sched_limits).

(** A server with one pool of full attention. *)
Record plain_server : Prop := {
  ps_page : 0 < page_size cfg ∧ sl_page_size lim = page_size cfg;
  ps_budget : b_class (bcfg cfg) = PlainBudget;
  ps_shard : kv_shard_granule cfg = 0 ∧ kv_shard_scratch cfg = None ∧ kv_shard_widening lim = 1;
  ps_mamba : mamba_slot_cost cfg = 0;
  ps_dllm : dllm cfg = None;
  ps_replay : bounded_replay cfg = false;
  ps_reserve : ∀ b n, request_slot_reserve cfg b n = 0;
  ps_tree : tree_disabled cfg = false;
  ps_requests : ∀ n, prefill_max_requests cfg = Some n → 0 < n
}.

(** The waiting form of an accepted request, its prefix matched. *)
Record waiting_as (q : IntakeReq) (r : Req N) : Prop := {
  wa_len : full_len r = zlen (origin_input_ids q);
  wa_prefix : 0 ≤ prefix_len r < full_len r;
  wa_output : output_len r = 0;
  wa_new : i_max_new_tokens q = Some (max_new_tokens r);
  wa_host : host_hit_length r = 0 ∧ needs_host_load_back r = false
}.

(** Nothing runs: all but the matched prefix can be taken. *)
Definition idle_pool (r : Req N) (e : E) : Prop :=
  token_capacity lim - prefix_len r ≤ _available_and_evictable (bcfg cfg) (tree_lock (last_node r) e).

Lemma truncate_pos limit prefix : 0 < page_size cfg → page_size cfg ≤ limit → 0 < truncate_extend cfg limit prefix None.
Proof.
  intros Hps Hl. unfold truncate_extend. destruct (exact_chunk_fill cfg); [lia|].
  pose proof (Z.mul_succ_div_gt (prefix + limit / page_size cfg * page_size cfg) (page_size cfg) Hps).
  assert (1 ≤ limit / page_size cfg) by (apply Z.div_le_lower_bound; lia). nia.
Qed.

Context (Hsrv : plain_server).

Lemma no_replay (r : Req N) p : _replay_len cfg r p = 0.
Proof. unfold _replay_len. by rewrite (ps_replay Hsrv). Qed.

Lemma select_idle (r : Req N) t sh (a : adder E N D) : 0 ≤ prefix_len r < full_len r → can_run_list a = [] →
  (∀ c, rem_chunk_tokens a = Some c → page_size cfg ≤ c) → (zq t < rem_total_tokens cfg a)%Q →
  ∃ adm, _select_prefill_admission cfg r t 0 sh None false a = Ok (inr adm) ∧ adm_prefix_len adm = prefix_len r ∧ 0 < adm_extend_len adm.
Proof.
  intros Hr Hrun Hc Ht. pose proof (ps_page Hsrv) as [Hps _]. unfold _select_prefill_admission. rewrite no_replay, Z.add_0_r. cbn [negb Z.eqb andb].
  assert ((match match rem_chunk_tokens a with Some c => Some c | None => None end with Some _ => false | None => false end) = false) as -> by by destruct (rem_chunk_tokens a).
  unfold _check_prefill_budget, check_prefill, plain_check_prefill. rewrite (ps_budget Hsrv). unfold rem_total_tokens in Ht.
  destruct (qltb_spec (zq t) (remaining_total (bcfg cfg) (env a) (memory_budget a))) as [_|Hn]; [|lra]. cbn [negb].
  unfold _check_prefill_tile_budget. rewrite Hrun, (ps_dllm Hsrv), (bool_decide_false ([] ≠ [])), andb_false_r by tauto. cbn [andb].
  rewrite bool_if_same. destruct (rem_chunk_tokens a) as [c|]; [|eexists; split; [reflexivity|]; cbn; lia].
  destruct (c <? _); [|eexists; split; [reflexivity|]; cbn; lia].
  pose proof (truncate_pos c (prefix_len r) Hps (Hc c eq_refl)) as Hx. destruct (Z.leb_spec (truncate_extend cfg c (prefix_len r) None) 0); [lia|].
  eexists. split; [reflexivity|]. done.
Qed.

Lemma commit_runs (r : Req N) adm g (a : adder E N D) : adm_prefix_len adm = prefix_len r →
  ∃ a', _commit_prefill_admission cfg r adm g a = Ok (set_extend_end (adm_prefix_len adm + adm_extend_len adm) r, a') ∧
    can_run_list a' = can_run_list a ++ [set_extend_end (adm_prefix_len adm + adm_extend_len adm) r].
Proof.
  intros Ep. unfold _commit_prefill_admission. rewrite Ep, Z.eqb_refl. cbn [assert_ rbind]. eexists. split; [reflexivity|].
  match goal with |- can_run_list (_account_prefill_cache_admission ?r ?p ?b) = _ => destruct (account_same r p b) as (-> & _) end. done.
Qed.

(** What the delayer answers on an idle server. *)
Definition delayer_answer (d : option D) : bool :=
  match d with Some d => (negotiate d 0 (max_prefill_bs cfg) (max_running_requests cfg) (waiting_queue_len cfg)).1 | None => true end.

Lemma idle_admits (raw q : IntakeReq) (r : Req N) rem_input rem_chunk d e : accepted lim raw q → waiting_as q r → idle_pool r e →
  full_len r + page_size cfg < token_capacity lim → (∀ c, rem_chunk = Some c → page_size cfg ≤ c) → 0 ≤ clip_max_new_tokens cfg →
  ∃ v r' a', add_one_req negotiate cfg r false None (adder_init cfg rem_input rem_chunk 0 None None d e) = Ok (v, r', a') ∧
    if delayer_answer d then can_run_list a' = [r'] ∧ 0 < extend_len r' else v = OTHER ∧ r' = r ∧ can_run_list a' = [].
Proof.
  intros Hq [Hlen Hp Hout Hnew [Hh1 Hh2]] Hidle Hfit Hc Hclip. destruct (ps_page Hsrv) as [Hps Els]. destruct (ps_shard Hsrv) as (Hg & Hsc & _).
  set (a0 := adder_init _ _ _ _ _ _ _ _). unfold add_one_req.
  assert (match prefill_max_requests cfg with Some x => x <=? zlen (can_run_list a0) | None => false end = false) as ->.
  { destruct (prefill_max_requests cfg) as [x|] eqn:Ex; [|done]. pose proof (ps_requests Hsrv x Ex). apply Z.leb_gt. done. }
  rewrite (ps_tree Hsrv), andb_false_r. assert (rem_mamba_slots a0 = None) as ->. { unfold a0, adder_init. cbn. by rewrite (ps_mamba Hsrv). }
  cbv zeta. set (t := _ + _request_slot_reserve_for_req cfg r None). rewrite Hh1. set (a1 := with_env (tree_lock (last_node r) (env a0)) a0).
  destruct (select_idle r t (swa_host_hit_length r) a1 Hp) as (adm & -> & Ep & Hx).
  - done.
  - intros c. cbn. destruct rem_chunk as [c'|]; [|done]. intros [= <-]. rewrite Z.sub_0_r. by apply Hc.
  - assert (t < token_capacity lim - prefix_len r) as Ht.
    { unfold t, _request_slot_reserve_for_req, _mamba_gap_budget_for_req, per_req_token_overhead. rewrite (ps_reserve Hsrv), (ps_mamba Hsrv), Hg, Hout. cbn [negb Z.eqb].
      pose proof (ac_room _ _ _ Hq _ Hnew) as Hroom. rewrite Els in Hroom. pose proof (ceil_align_ge (page_size cfg) Hps (zlen (origin_input_ids q))). lia. }
    unfold idle_pool in Hidle. unfold rem_total_tokens, remaining_total. change (env a1) with (tree_lock (last_node r) e).
    assert (zq t < zq (_available_and_evictable (bcfg cfg) (tree_lock (last_node r) e)))%Q as Hq1 by (apply zq_lt; lia).
    change (total_offset (memory_budget a1)) with (zq 0 + 0)%Q. change (zq 0) with 0%Q. lra.
  - cbn [rbind]. assert (∃ d', delayer_allows negotiate cfg a1 = (delayer_answer d, with_delayer d' a1)) as (d' & ->).
    { unfold delayer_allows, delayer_answer. cbn. destruct d as [d|]; [destruct (negotiate _ _ _ _ _) as [ok d']; by exists (Some d')|by exists None]. }
    destruct (delayer_answer d); cbn [negb]; [|by eexists _, _, _]. unfold load_back. rewrite Hh2. cbn [negb rbind].
    unfold _kv_shard_reserve_scratch. rewrite Hsc. cbn [negb rbind]. destruct (commit_runs r adm (_mamba_gap_budget_for_req cfg r true) (with_delayer d' a1) Ep) as (a2 & -> & Hrun).
    cbn [rbind]. eexists _, _, _. split; [reflexivity|]. cbn [can_run_list with_env]. rewrite Hrun. split; [done|]. unfold extend_len. cbn. lia.
Qed.
End idle.

(** ** The properties *)

(** What the tokenizer process lets through is a prefix of the input, shorter
    than the limit together with the reserved tokens, and asks for no more new
    tokens than were asked for and than fit (when totals are checked). *)
Theorem tokenizer_check_fits cfg is_generate ids m ids' m' : 0 ≤ num_reserved_tokens cfg < _max_req_len cfg →
  _validate_one_request cfg is_generate ids m = Ok (ids', m') → tm_fits cfg ids ids' m m'.
Proof. apply validate_one_spec. Qed.

(** With the limits a worker reports, a request is queued either as a stub that
    is already aborted, or with a prompt and new tokens that fit the context (a row
    of [context_len] slots) and, unless there are no new tokens, the pool with a
    spare page; [min_new_tokens] is at most [max_new_tokens]. *)
Theorem queued_request_fits cfg context_len kv_capacity dllm_block return_lp no_ids start r :
  worker_lens context_len kv_capacity dllm_block = (max_req_len cfg, max_req_input_len cfg) → 0 ≤ max_req_input_len cfg → 0 ≤ default 0 dllm_block →
  0 < sl_page_size cfg → i_to_finish r = None →
  let r' := check_and_queue cfg return_lp no_ids start r in
  ∃ m, i_max_new_tokens r' = Some m ∧ 0 ≤ m ∧ i_min_new_tokens r' ≤ m ∧
    (refused r' ∨ accepted cfg r r' ∧ zlen (origin_input_ids r') + m ≤ context_len - 2).
Proof.
  intros [= E1 E2] Hmax Hb Hps Hrun. cbv zeta. destruct (queue_spec cfg Hps return_lp no_ids start r Hrun Hmax) as [(m & Hm & H0 & Hmin) Hor].
  exists m. split; [done|]. split; [done|]. split; [done|]. destruct Hor as [Ha|Hr]; [right|by left]. split; [done|].
  pose proof (ac_len _ _ _ Ha). destruct (ac_room _ _ _ Ha m Hm) as [->|[? _]]; lia.
Qed.

(** C16: on a plain server (one pool of full attention with the radix cache on, no
    mamba states, diffusion, sharding, replay or reserve of slots) that is idle, a
    request that was accepted and leaves a page of the pool free is admitted by the
    prefill pass, whole or as its first chunk, unless the prefill delayer holds the
    pass back; then it stays as it is.  A chunk is at least a page. *)
Theorem schedulable_when_idle {E N D} `{HT : PrefixTree E N} (negotiate : D → Z → Z → Z → Z → bool * D) cfg lim return_lp no_ids start
    (raw : IntakeReq) (r : Req N) rem_input rem_chunk d e :
  plain_server cfg lim → 0 ≤ max_req_input_len lim → i_to_finish raw = None →
  let q := check_and_queue lim return_lp no_ids start raw in
  i_to_finish q = None → waiting_as q r → idle_pool cfg lim r e → full_len r + page_size cfg < token_capacity lim →
  (∀ c, rem_chunk = Some c → page_size cfg ≤ c) → 0 ≤ clip_max_new_tokens cfg →
  ∃ v r' a', add_one_req negotiate cfg r false None (adder_init cfg rem_input rem_chunk 0 None None d e) = Ok (v, r', a') ∧
    if delayer_answer negotiate cfg d then can_run_list a' = [r'] ∧ 0 < extend_len r' else v = OTHER ∧ r' = r ∧ can_run_list a' = [].
Proof.
  intros Hsrv Hmax Hraw q Hq. destruct (ps_page _ _ Hsrv) as [Hps Els].
  destruct (queue_spec lim ltac:(lia) return_lp no_ids start raw Hraw Hmax) as [_ [Ha|(_ & _ & _ & msg & Hr)]]; [|unfold q in Hq; congruence].
  by eapply idle_admits.
Qed.
