(* ===== verification/IntakeCases.v ===== *)
(** * Concrete requests

    Witnesses for the theorems on parameters and accepted requests, and the
    requests for which the code does not do what it means to. *)
From S2P Require Import Prelude PySort PrefillBudget PrefillAdder PrefillCases Text Finish FinishTheorems Params ParamsTheorems Intake IntakeTheorems.
Open Scope Z_scope.

(** ** Parameters *)

(** Only the pattern [ab] is understood. *)
Definition demo_parse (q : text) : option (list op) := if bool_decide (q = txt "ab") then Some [LITERAL 97; LITERAL 98] else None.
Definition demo_re_search (q t : text) : option bool := if bool_decide (q = txt "ab") then Some (str_in q t) else None.
Definition demo_accepts (o : op) (c : Z) : bool := match o with LITERAL c' => c =? c' | _ => true end.

Lemma demo_consumes s : consumes demo_accepts [LITERAL 97; LITERAL 98] s → s = txt "ab".
Proof. intros (a & b & -> & (x & -> & ->%Z.eqb_eq) & (c & d & -> & (y & -> & ->%Z.eqb_eq) & ->)). done. Qed.

Lemma demo_re_laws : re_laws demo_accepts demo_parse demo_re_search.
Proof.
  split.
  - intros q ops. unfold demo_parse. case_bool_decide; [|done]. intros [= <-]. by repeat constructor.
  - intros q ops s t. unfold demo_parse, demo_re_search. case_bool_decide as E; [|done]. intros [= <-] _ ->%demo_consumes Hs. by rewrite E, Hs.
Qed.

Lemma demo_re_ok : re_ok demo_re_search.
Proof. intros q t t'. unfold demo_re_search. by case_bool_decide. Qed.

(** One token per character. *)
Definition chars_tokenizer : Tokenizer := mkTokenizer (Some 0) [] (λ ids, concat (map (λ i, [i]) ids)).

(** A byte-level tokenizer: 195 and 169 are the two bytes of one character, alone
    each is shown as a replacement character; the others have one byte. *)
Fixpoint utf8_decode (ids : list Z) : text :=
  match ids with
  | [] => []
  | 195 :: ((169 :: ids) as _) => 233 :: utf8_decode ids
  | i :: ids => (if 128 <=? i then 65533 else i) :: utf8_decode ids
  end.
Definition utf8_tokenizer : Tokenizer := mkTokenizer (Some 0) [] utf8_decode.

(** What a client sends: temperature 0, a stop string and a pattern. *)
Definition demo_raw : ApiParams :=
  mkApi (Some 10) (Some (One (txt "end"))) (Some [Some 7; None; Some 7]) (Some (Many [txt "ab"]))
    (Some (fz 0)) None None None None None None None None None (Some []) None None None None None None None None None None WNone
    None None 0 0 false.
Definition demo_init : ApiParams := with_defaults None demo_raw.
Definition demo_final : ApiParams := match normalize (Some id) demo_parse demo_init with Ok p => p | Raise _ => demo_init end.

Lemma regex_length_sound_witness : bounds (_max_length_from_subpattern [MAX_REPEAT 0 (Some 3) [LITERAL 97]]) [97; 97].
Proof.
  apply (regex_length_sound demo_accepts [MAX_REPEAT 0 (Some 3) [LITERAL 97]] [97; 97]); [by repeat constructor|].
  exists [97; 97], []. split; [done|]. split; [|done]. exists [[97]; [97]]. split; [done|]. split; [done|]. split; [done|].
  assert (seq_of (map (consumes_op demo_accepts) [LITERAL 97]) [97]) by (exists [97], []; split; [done|]; split; [by exists 97|done]).
  by repeat constructor.
Defined.

Lemma accepted_params_witness : in_range 100 demo_final ∧ params_ok (finish_view demo_final 10) (Some chars_tokenizer) ∧
  sp_temperature demo_final = Some (fz 1) ∧ sp_top_k demo_final = Some 1 ∧ sp_stop_token_ids demo_final = Some [Some 7].
Proof.
  destruct (accepted_params (Some id) demo_parse 100 demo_raw demo_init demo_final (Some chars_tokenizer) 10) as (H1 & H2 & _);
    [by vm_compute..|by eexists|]. split; [exact H1|]. split; [exact H2|]. by vm_compute.
Defined.

(** Without a tokenizer the same parameters are refused. *)
Lemma normalize_accepts_iff_witness : stops_accepted (Some id) demo_parse demo_init ∧ normalize None demo_parse demo_init = Raise ValueError.
Proof.
  split; [|by vm_compute]. apply (normalize_accepts_iff (Some id) demo_parse demo_raw demo_init); by vm_compute.
Defined.

Definition demo_out (out : string) : FinReq := mkFin [] (txt out) None None None [] None None [] 0.

Lemma demo_step : running_step (finish_view demo_final 10) 2 (demo_out "the end").
Proof. by split; vm_compute. Qed.

Lemma no_stop_string_missed_witness : ∃ r',
  update_finish_state (finish_view demo_final 10) (Some chars_tokenizer) None [] None demo_re_search 2 (demo_out "the end") = Ok r' ∧ finished r' = true.
Proof.
  apply (no_stop_string_missed (finish_view demo_final 10) chars_tokenizer None [] None demo_re_search 2 (demo_out "the end") (txt "end")).
  - split; [by vm_compute..|by eexists].
  - apply demo_re_ok.
  - apply demo_step.
  - intros _. split; [by vm_compute|]. by vm_compute.
  - vm_compute. by left.
  - by vm_compute.
  - exists (txt "the "), []. split; [by vm_compute|]. vm_compute. lia.
Defined.

(** A character of two tokens comes first; the tail is past it. *)
Definition utf8_out : FinReq := mkFin [] ([195; 169] ++ txt "xxxab") None None None [] None None [] 0.

Lemma no_stop_pattern_missed_witness : ∃ r',
  update_finish_state (finish_view demo_final 10) (Some utf8_tokenizer) None [] None demo_re_search 1 utf8_out = Ok r' ∧ finished r' = true.
Proof.
  apply (no_stop_pattern_missed demo_accepts (Some id) demo_parse demo_init demo_final 10 utf8_tokenizer None [] None demo_re_search 1
    utf8_out (txt "ab") [LITERAL 97; LITERAL 98] (txt "ab")).
  - by vm_compute.
  - apply demo_re_laws.
  - apply demo_re_ok.
  - by split; vm_compute.
  - intros _. split; [by vm_compute|]. by vm_compute.
  - by vm_compute.
  - vm_compute. by left.
  - by vm_compute.
  - done.
  - exists [97], [98]. split; [done|]. split; [by exists 97|]. exists [98], []. split; [done|]. split; [by exists 98|done].
  - exists (233 :: txt "xxx"), []. split; [by vm_compute|]. vm_compute. lia.
Defined.

(** ** Stops that are missed *)

(** A tokenizer whose token 4 is the whole word; the model writes it letter by
    letter, as it may: the recorded length counts one token. *)
Definition word_tokenizer : Tokenizer :=
  mkTokenizer None [] (λ ids, concat (map (λ i, if i =? 1 then txt "e" else if i =? 2 then txt "n" else if i =? 3 then txt "d" else txt "end") ids)).
Definition word_encode (s : text) : list Z := if bool_decide (s = txt "end") then [4] else s.

(** The stop string is generated in three tokens and no check of the three steps
    finds it. *)
Example stop_string_missed : ∃ p,
  normalize (Some word_encode) demo_parse (with_defaults None
    (mkApi (Some 10) (Some (One (txt "end"))) None None None None None None None None None None None None None None None None None None None None None None None WNone
      None None 0 0 false)) = Ok p ∧ sp_stop_str_max_len p = 1 ∧
  decode word_tokenizer [1; 2; 3] = txt "end" ∧
  Forall (λ ids, update_finish_state (finish_view p 10) (Some word_tokenizer) None [] None demo_re_search 1 (mkFin [] ids None None None [] None None [] 0)
               = Ok (mkFin [] ids None None None [] None None [] 0)) [[1]; [1; 2]; [1; 2; 3]].
Proof. eexists. split; [vm_compute; reflexivity|]. split; [done|]. split; [done|]. repeat constructor; by vm_compute. Qed.

(** Token 1 is the first byte of a character and token 2 the second. *)
Fixpoint bytes_decode (ids : list Z) : text :=
  match ids with 1 :: ((2 :: ids) as _) => 233 :: bytes_decode ids | _ :: ids => 65533 :: bytes_decode ids | [] => [] end.
Definition bytes_tokenizer : Tokenizer := mkTokenizer None [] bytes_decode.
Definition two_chars (q : text) : option (list op) := if bool_decide (q = [233; 233]) then Some [LITERAL 233; LITERAL 233] else None.
Definition two_search (q t : text) : option bool := if bool_decide (q = [233; 233]) then Some (str_in q t) else None.

(** A pattern of two characters is given a tail of three tokens, though its text
    has four: no check of the four steps finds it. *)
Example stop_pattern_missed : ∃ p,
  normalize (Some id) two_chars (with_defaults None
    (mkApi (Some 10) None None (Some (One [233; 233])) None None None None None None None None None None None None None None None None None None None None None WNone
      None None 0 0 false)) = Ok p ∧ sp_stop_regex_max_len p = 2 ∧
  decode bytes_tokenizer [1; 2; 1; 2] = [233; 233] ∧
  Forall (λ ids, update_finish_state (finish_view p 10) (Some bytes_tokenizer) None [] None two_search 1 (mkFin [] ids None None None [] None None [] 0)
               = Ok (mkFin [] ids None None None [] None None [] 0)) [[1]; [1; 2]; [1; 2; 1]; [1; 2; 1; 2]].
Proof. eexists. split; [vm_compute; reflexivity|]. split; [done|]. split; [done|]. repeat constructor; by vm_compute. Qed.

(** ** Accepted requests *)

Lemma tokenizer_check_fits_witness :
  tm_fits (mkTm 100 (Some 10) 0 true true false false) (Some (replicate 12 5)) (Some (replicate 9 5)) (Some 30) (Some 1).
Proof. apply (tokenizer_check_fits (mkTm 100 (Some 10) 0 true true false false) true); by vm_compute. Defined.

(** A pool of 4096 tokens in pages of 16. *)
Definition demo_limits : sched_limits := mkLimits 4095 4090 None 4096 1 16 false true.
Definition demo_request (n : nat) : IntakeReq := mkIntake (replicate n 5) (Some 8192) 0 None false (-1).

Lemma queued_request_fits_witness : ∃ m, i_max_new_tokens (check_and_queue demo_limits false true (-1) (demo_request 1000)) = Some m ∧ m = 3071.
Proof.
  destruct (queued_request_fits demo_limits 8192 4096 None false true (-1) (demo_request 1000)) as (m & Em & _);
    [by vm_compute..|]. exists m. split; [exact Em|]. vm_compute in Em. congruence.
Defined.

#[local] Existing Instance one_node_tree.

Lemma demo_server : plain_server (case_cfg PlainBudget) demo_limits.
Proof. by split. Qed.

(** A pool with nothing in it. *)
Definition empty_pool : one_node := mkOne (mkPools 4096 0 0 0 0) 0.

Lemma schedulable_when_idle_witness : ∃ v r' a',
  add_one_req no_delay (case_cfg PlainBudget) (case_req "a" 1000 3071 0 0) false None
    (adder_init (case_cfg PlainBudget) 16384 (Some 512) 0 None None (Some tt) empty_pool) = Ok (v, r', a') ∧ can_run_list a' = [r'] ∧ 0 < extend_len r'.
Proof.
  apply (schedulable_when_idle no_delay (case_cfg PlainBudget) demo_limits false true (-1) (demo_request 1000) (case_req "a" 1000 3071 0 0) 16384 (Some 512) (Some tt));
    [apply demo_server|done|done|by vm_compute| | |done| |done].
  - split; [by vm_compute|by vm_compute|done|by vm_compute|done].
  - by vm_compute.
  - intros c [= <-]. done.
Defined.

(** A prompt of 4085 tokens passes every check for the pool of 4096, yet the
    prefill pass of the empty pool refuses it: it stays in the queue for ever. *)
Example unschedulable_prompt :
  i_to_finish (check_and_queue demo_limits false true (-1) (demo_request 4085)) = None ∧
  i_max_new_tokens (check_and_queue demo_limits false true (-1) (demo_request 4085)) = Some 0 ∧
  ∃ a, add_one_req no_delay (case_cfg PlainBudget) (case_req "a" 4085 0 0 0) false None
    (adder_init (case_cfg PlainBudget) 16384 (Some 512) 0 None None None empty_pool) = Ok (NO_TOKEN, case_req "a" 4085 0 0 0, a) ∧ can_run_list a = [].
Proof. split; [by vm_compute|]. split; [by vm_compute|]. eexists. split; vm_compute; reflexivity. Qed.

(** With truncation allowed, the new tokens are counted for the prompt before it is
    cut: a prompt one token too long for the context is cut to fit and may not
    generate anything. *)
Example truncated_generates_nothing :
  let q := check_and_queue (mkLimits 1023 1018 None 4096 1 16 true true) false true (-1) (demo_request 1030) in
  i_to_finish q = None ∧ zlen (origin_input_ids q) = 1018 ∧ i_max_new_tokens q = Some 0.
Proof. cbv zeta. split; [by vm_compute|]. by vm_compute. Qed.
