(* ===== verification/Detokenizer.v ===== *)
(** * Incremental detokenization ([managers/detokenizer_manager.py])

    The detokenizer keeps, per request, the ids received, the text committed and
    how much was sent; each batch of new ids is decoded (in groups that share the
    decoding flags) and turned into the text to send: what is new and safe, held
    back while the tail may be an incomplete character, and cut at the stop when
    the request ends.  The tokenizer is an argument. *)
From S2P Require Import Prelude Text.

Definition MAX_UTF8_TAIL_TOKENS : Z := 3.
Definition MAX_STALLED_DECODE_STEPS : Z := 8.

(** The replacement character. *)
Definition FFFD : Z := 65533.

(** ** Printable text ([sglang/utils.py]) *)

Definition _is_chinese_char (cp : Z) : bool :=
  ((0x4E00 <=? cp) && (cp <=? 0x9FFF)) || ((0x3400 <=? cp) && (cp <=? 0x4DBF)) || ((0x20000 <=? cp) && (cp <=? 0x2A6DF)) ||
  ((0x2A700 <=? cp) && (cp <=? 0x2B73F)) || ((0x2B740 <=? cp) && (cp <=? 0x2B81F)) || ((0x2B820 <=? cp) && (cp <=? 0x2CEAF)) ||
  ((0xF900 <=? cp) && (cp <=? 0xFAFF)) || ((0x2F800 <=? cp) && (cp <=? 0x2FA1F)).

(** [text[-2]]. *)
Definition penultimate (t : text) : option Z := last (pytake t (-1)).

Definition find_printable_text (t : text) : text :=
  if ends_with t 10 then t
  else if match last t with Some c => _is_chinese_char c | None => false end then t
  else if match penultimate t with Some c => _is_chinese_char c | None => false end then pytake t (-1)
  else pytake t (str_rfind 32 t + 1).

(** ** State *)

Record DecodeStatus := mkDs {
  ds_text : text;                  (* decoded_text *)
  ds_ids : list Z;                 (* decode_ids *)
  ds_surr : Z;
  ds_read : Z;
  ds_sent : Z;
  ds_stalled : Z;
  ds_text_len : Z;                 (* decoded_text_len *)
  ds_chunks : list text            (* decoded_text_chunks *)
}.

Definition new_status (t : text) (ids : list Z) (read : Z) : DecodeStatus := mkDs t ids 0 read 0 0 (zlen t) [].

Definition append_decoded_text (t : text) (s : DecodeStatus) : DecodeStatus :=
  if zlen t =? 0 then s
  else mkDs (ds_text s) (ds_ids s) (ds_surr s) (ds_read s) (ds_sent s) (ds_stalled s) (ds_text_len s + zlen t) (ds_chunks s ++ [t]).

Definition get_decoded_text (s : DecodeStatus) : text := ds_text s ++ concat (ds_chunks s).

Definition extend_ids (ids : list Z) (s : DecodeStatus) : DecodeStatus :=
  mkDs (ds_text s) (ds_ids s ++ ids) (ds_surr s) (ds_read s) (ds_sent s) (ds_stalled s) (ds_text_len s) (ds_chunks s).

Definition _commit_stream_text (t : text) (boundary : Z) (s : DecodeStatus) : DecodeStatus :=
  let s := append_decoded_text t s in
  mkDs (ds_text s) (ds_ids s) (ds_read s) boundary (ds_text_len s) 0 (ds_text_len s) (ds_chunks s).

Definition stall (printable : text) (s : DecodeStatus) : DecodeStatus :=
  mkDs (ds_text s) (ds_ids s) (ds_surr s) (ds_read s) (ds_text_len s + zlen printable) (ds_stalled s + 1) (ds_text_len s) (ds_chunks s).

(** [LimitedCapacityDict], oldest entry first. *)
Abbreviation states := (list (string * DecodeStatus)).
Fixpoint find_state (rid : string) (d : states) : option DecodeStatus :=
  match d with [] => None | e :: d => if bool_decide (e.1 = rid) then Some e.2 else find_state rid d end.
Definition put_state (rid : string) (s : DecodeStatus) (d : states) : states :=
  if existsb (λ e, bool_decide (e.1 = rid)) d then (λ e, if bool_decide (e.1 = rid) then (rid, s) else e) <$> d else d ++ [(rid, s)].
Definition set_item (capacity : Z) (rid : string) (s : DecodeStatus) (d : states) : states :=
  put_state rid s (if capacity <=? zlen d then drop 1 d else d).
Definition del_item (rid : string) (d : states) : states := filter (λ e, e.1 ≠ rid) d.

(** ** Trimming *)

(** The [matched] field of a finish reason: absent, a string, an id, or a list. *)
Inductive matched_stop := MNone | MStr (s : text) | MInt (z : Z) | MElse.

Definition trim_matched_text (output : text) (finished_reason : option matched_stop) (no_stop_trim : bool) : text :=
  match finished_reason with
  | Some (MStr m) =>
      let pos := str_find m output in
      if pos =? -1 then output else if no_stop_trim then pytake output (pos + zlen m) else pytake output pos
  | _ => output
  end.

Definition _clamp_decode_ids (ids : list Z) (vocab_size : option Z) : list Z :=
  let hi := match vocab_size with Some 0 => None | v => v end in
  (λ t, if (0 <=? t) && match hi with Some h => t <? h | None => true end then t else 0) <$> ids.

(** What a message says of one request. *)
Record TokenOut := mkOut {
  to_rid : string;
  to_text : text;                  (* decoded_texts[i] *)
  to_ids : list Z;                 (* decode_ids[i] *)
  to_read : Z;                     (* read_offsets[i] *)
  to_finished : option matched_stop;
  to_no_stop_trim : bool;
  to_skip : bool;                  (* skip_special_tokens[i] *)
  to_space : bool                  (* spaces_between_special_tokens[i] *)
}.

(** ** Decoding *)

(** The indices of each pair of flags, in the order of the dict. *)
Abbreviation groups := (list ((bool * bool) * list nat)).
Fixpoint group_add (key : bool * bool) (i : nat) (g : groups) : groups :=
  match g with
  | [] => [(key, [i])]
  | (k, l) :: g => if bool_decide (k = key) then (k, l ++ [i]) :: g else (k, l) :: group_add key i g
  end.

(** [for i, t in zip(indices, texts): out[i] = t]. *)
Definition scatter (out : list text) (indices : list nat) (texts : list text) : list text :=
  foldl (λ out e, <[e.1 := e.2]> out) out (zip indices texts).

(** Rows of ids with their flags. *)
Abbreviation row := (list Z * (bool * bool))%type.

Section detokenizer.
Context (is_fast disable_batch_decode is_tool_call_parser_gpt_oss : bool) (vocab_size : option Z) (capacity : Z).
(** [tokenizer.batch_decode] and [tokenizer.decode] with the flags, [decode] without. *)
Context (batch_decode : list (list Z) → bool → bool → list text) (decode : list Z → bool → bool → text).
Context (decode_plain : list Z → text) (special_ids : option (list Z)).

Definition trim_matched_ids (output : list Z) (finished_reason : option matched_stop) (no_stop_trim : bool) : result (list Z) :=
  match finished_reason with
  | Some (MInt _) =>
      if no_stop_trim then Ok output
      else
        match last output with
        | None => Raise IndexError
        | Some t => Ok (if (t =? 200012) && is_tool_call_parser_gpt_oss then output else pytake output (-1))
        end
  | _ => Ok output
  end.

Definition decode_without_hf_kwargs (ids : list Z) (skip_special_tokens : bool) : text :=
  decode_plain (if skip_special_tokens then match special_ids with Some l => filter (λ t, t ∉ l) ids | None => ids end else ids).

(** The rows that are not empty. *)
Definition decode_rows (rows : list row) : list text :=
  if negb is_fast then (λ r, decode_without_hf_kwargs r.1 r.2.1) <$> rows
  else
    match rows with
    | [] => []
    | (_, first) :: _ =>
        if forallb (λ r, bool_decide (r.2 = first)) rows then batch_decode (rows.*1) first.1 first.2
        else
          let gs := foldl (λ g e, group_add e.2 e.1 g) [] (imap (λ i r, (i, r.2)) rows) in
          foldl (λ out g, scatter out g.2 (batch_decode ((λ i, default [] (rows.*1 !! i)) <$> g.2) g.1.1 g.1.2))
            (replicate (length rows) []) gs
    end.

Definition _grouped_batch_decode (rows : list row) : list text :=
  if forallb (λ r, negb (zlen r.1 =? 0)) rows then match rows with [] => [] | _ => decode_rows rows end
  else
    let keep := filter (λ i, negb (zlen (default [] (rows.*1 !! i)) =? 0) = true) (seq 0 (length rows)) in
    match keep with
    | [] => replicate (length rows) []
    | _ => scatter (replicate (length rows) []) keep (decode_rows (omap (λ i, rows !! i) keep))
    end.

(** One row. *)
Definition decode_row (ids : list Z) (skip space : bool) : text := default [] (_grouped_batch_decode [(ids, (skip, space))] !! 0%nat).

(** The two texts of the rows of a batch. *)
Definition decode_batch (rows : list row) : list text :=
  if negb disable_batch_decode then _grouped_batch_decode rows else (λ r, decode r.1 r.2.1 r.2.2) <$> rows.

(** ** Commits *)

(** The loop of [_find_clean_commit], downwards from [boundary]; [n] are left. *)
Fixpoint clean_loop (n : nat) (boundary : Z) (s : DecodeStatus) (surr_text : text) (skip space : bool) (pending : Z) : option (Z * text) :=
  match n with
  | O => None
  | S n =>
      let clean_text := pydrop (decode_row (pyslice (ds_ids s) (ds_surr s) boundary) skip space) (zlen surr_text) in
      if negb (zlen clean_text =? 0) && negb (ends_with clean_text FFFD) then
        if zlen clean_text <? pending then None else Some (boundary, clean_text)
      else clean_loop n (boundary - 1) s surr_text skip space pending
  end.

Definition _find_clean_commit (s : DecodeStatus) (surr_text : text) (skip space : bool) (pending : Z) : option (Z * text) :=
  let n := zlen (ds_ids s) in
  let lowest := Z.max (ds_read s) (n - MAX_UTF8_TAIL_TOKENS - 1) in
  clean_loop (Z.to_nat (n - 1 - lowest)) (n - 1) s surr_text skip space pending.

(** [t[pending:] if pending else t]. *)
Definition skip_pending (t : text) (pending : Z) : text := if pending =? 0 then t else pydrop t pending.

(** The streaming branch. *)
Definition stream_text (s : DecodeStatus) (surr_text new_text : text) (skip space : bool) : text * DecodeStatus :=
  let pending := ds_sent s - ds_text_len s in
  if negb (zlen new_text =? 0) && negb (ends_with new_text FFFD) then
    (skip_pending new_text pending, _commit_stream_text new_text (zlen (ds_ids s)) s)
  else
    match _find_clean_commit s surr_text skip space pending with
    | Some (boundary, clean_text) => (skip_pending clean_text pending, _commit_stream_text clean_text boundary s)
    | None =>
        if MAX_STALLED_DECODE_STEPS <=? ds_stalled s then
          (skip_pending new_text pending, _commit_stream_text new_text (zlen (ds_ids s)) s)
        else
          let printable := find_printable_text new_text in
          (skip_pending printable pending, stall printable s)
    end.

(** The last text of a request. *)
Definition final_text (s : DecodeStatus) (new_text : text) (o : TokenOut) : text :=
  pydrop (trim_matched_text (get_decoded_text s ++ new_text) (to_finished o) (to_no_stop_trim o)) (ds_sent s).

(** ** A batch *)

(** The state of a request, created or extended. *)
Definition open_state (o : TokenOut) (d : states) : DecodeStatus * states :=
  let ids := _clamp_decode_ids (to_ids o) vocab_size in
  match find_state (to_rid o) d with
  | None => let s := new_status (to_text o) ids (to_read o) in (s, set_item capacity (to_rid o) s d)
  | Some s => let s := extend_ids ids s in (s, put_state (to_rid o) s d)
  end.

(** The first loop: the ids to decode. *)
Fixpoint collect (items : list TokenOut) (d : states) : result (list row * list row * states) :=
  match items with
  | [] => Ok ([], [], d)
  | o :: items =>
      let (s, d) := open_state o d in
      let! read := trim_matched_ids (pydrop (ds_ids s) (ds_surr s)) (to_finished o) (to_no_stop_trim o) in
      let flags := (to_skip o, to_space o) in
      let! (reads, surrs, d) := collect items d in
      Ok ((read, flags) :: reads, (pyslice (ds_ids s) (ds_surr s) (ds_read s), flags) :: surrs, d)
  end.

(** The text for one request, and the states. *)
Definition emit_one (o : TokenOut) (s : DecodeStatus) (surr new_text : text) (d : states) : text * states :=
  match to_finished o with
  | None => let (out, s) := stream_text s surr new_text (to_skip o) (to_space o) in (out, put_state (to_rid o) s d)
  | Some _ => (final_text s new_text o, del_item (to_rid o) d)
  end.

(** The second loop. *)
Fixpoint emit (items : list TokenOut) (read_texts surr_texts : list text) (d : states) : result (list text * states) :=
  match items, read_texts, surr_texts with
  | o :: items, read :: reads, surr :: surrs =>
      match find_state (to_rid o) d with
      | None => Raise RuntimeError
      | Some s =>
          let (out, d) := emit_one o s surr (pydrop read (zlen surr)) d in
          let! (outs, d) := emit items reads surrs d in Ok (out :: outs, d)
      end
  | _, _, _ => Ok ([], d)
  end.

Definition _decode_batch_token_id_output (items : list TokenOut) (d : states) : result (list text * states) :=
  let! (reads, surrs, d) := collect items d in
  emit items (decode_batch reads) (decode_batch surrs) d.
End detokenizer.
