(* ===== verification/DetokTheorems.v ===== *)
(** * The streamed text is the decoded text

    Decoding in groups is decoding row by row; for a tokenizer that never changes
    finished characters, the pieces sent to the client, put together, are the text
    of all ids decoded at once, cut at the stop. *)
From S2P Require Import Prelude Text Detokenizer.

(** ** Groups *)

Section groups.
Context (is_fast : bool).
Context (batch_decode : list (list Z) → bool → bool → list text) (decode : list Z → bool → bool → text).
Context (decode_plain : list Z → text) (special_ids : option (list Z)).
(** [batch_decode] decodes every row. *)
Context (Hbatch : ∀ l skip space, batch_decode l skip space = (λ ids, decode ids skip space) <$> l).

(** The text of one row. *)
Definition row_text (r : row) : text :=
  if is_fast then decode r.1 r.2.1 r.2.2 else decode_without_hf_kwargs decode_plain special_ids r.1 r.2.1.
Definition row_text_or_empty (r : row) : text := if zlen r.1 =? 0 then [] else row_text r.

(** Writing texts that depend on the position only. *)
Lemma scatter_lookup (f : nat → text) indices out :
  length (scatter out indices (f <$> indices)) = length out ∧
  ∀ i, (i < length out)%nat → scatter out indices (f <$> indices) !! i = if decide (i ∈ indices) then Some (f i) else out !! i.
Proof.
  unfold scatter. revert out. induction indices as [|j indices IH]; intros out; [by split; [|intros; rewrite decide_False by apply not_elem_of_nil]|].
  cbn [fmap list_fmap zip zip_with foldl fst snd]. destruct (IH (<[j:=f j]> out)) as [H1 H2]. rewrite length_insert in *. split; [done|].
  intros i Hi. rewrite (H2 i Hi). destruct (decide (i ∈ indices)); [by rewrite decide_True by (by right)|].
  destruct (decide (i = j)) as [->|Hne]; [rewrite decide_True by (by left); by apply list_lookup_insert_eq|].
  rewrite decide_False by (by intros [?|?]%elem_of_cons). by apply list_lookup_insert_ne.
Qed.

(** The groups hold exactly the pairs that were added. *)
Definition in_groups (g : groups) (i : nat) (key : bool * bool) : Prop := ∃ l, (key, l) ∈ g ∧ i ∈ l.

Lemma group_add_spec key i g j k : in_groups (group_add key i g) j k ↔ in_groups g j k ∨ (j = i ∧ k = key).
Proof.
  unfold in_groups. induction g as [|[k' l'] g IH]; cbn [group_add].
  - split; [intros (l & [[= -> ->]|[]%elem_of_nil]%elem_of_cons & ->%list_elem_of_singleton); by right|].
    intros [(l & []%elem_of_nil & _)|[-> ->]]. exists [i]. by split; left.
  - case_bool_decide as Ek; [subst k'|].
    + split.
      * intros (l & [[= -> ->]|Hl]%elem_of_cons & Hj); [|left; exists l; by split; [right|]].
        apply elem_of_app in Hj as [Hj| ->%list_elem_of_singleton]; [left; exists l'; by split; [left|]|by right].
      * intros [(l & [[= -> ->]|Hl]%elem_of_cons & Hj)|[-> ->]]; [exists (l' ++ [i])|exists l|exists (l' ++ [i])];
          (split; [first [by left|by right]|rewrite ?elem_of_app; rewrite ?list_elem_of_singleton; tauto]).
    + split.
      * intros (l & [[= -> ->]|Hl]%elem_of_cons & Hj); [left; exists l'; by split; [left|]|].
        destruct (proj1 IH (ex_intro _ l (conj Hl Hj))) as [(l2 & ? & ?)|?]; [left; exists l2; by split; [right|]|by right].
      * intros [(l & [[= -> ->]|Hl]%elem_of_cons & Hj)|H]; [exists l'; by split; [left|]|..].
        -- destruct (proj2 IH (or_introl (ex_intro _ l (conj Hl Hj)))) as (l2 & ? & ?). exists l2. by split; [right|].
        -- destruct (proj2 IH (or_intror H)) as (l2 & ? & ?). exists l2. by split; [right|].
Qed.

Lemma groups_spec (pairs : list (nat * (bool * bool))) g j k :
  in_groups (foldl (λ g e, group_add e.2 e.1 g) g pairs) j k ↔ in_groups g j k ∨ (j, k) ∈ pairs.
Proof.
  revert g. induction pairs as [|[i key] pairs IH]; intros g; cbn [foldl fst snd]; [rewrite elem_of_nil; tauto|].
  rewrite IH, group_add_spec, elem_of_cons. split; [intros [[?|[-> ->]]|?]|intros [?|[[= -> ->]|?]]]; tauto.
Qed.

(** Filling a list group by group. *)
Lemma fill_groups (F : nat → text) (f : bool * bool → nat → text) (gs : groups) out :
  (∀ i k, in_groups gs i k → f k i = F i) →
  let res := foldl (λ out g, scatter out g.2 (f g.1 <$> g.2)) out gs in
  length res = length out ∧
  ∀ i, (i < length out)%nat → (∃ k, in_groups gs i k) ∨ out !! i = Some (F i) → res !! i = Some (F i).
Proof.
  revert out. induction gs as [|[k l] gs IH]; intros out Hf; cbn [foldl fst snd].
  { split; [done|]. intros i _ [(k & l & []%elem_of_nil & _)|?]; done. }
  destruct (scatter_lookup (f k) l out) as [H1 H2].
  destruct (IH (scatter out l (f k <$> l))) as [H3 H4]. { intros i k' (l' & ? & ?). apply Hf. exists l'. by split; [right|]. }
  rewrite H1 in *. split; [done|]. intros i Hi Hor. apply H4; [done|]. rewrite H2 by done.
  assert (i ∈ l → f k i = F i) as Hfl by (intros ?; apply Hf; exists l; by split; [left|]).
  destruct (decide (i ∈ l)) as [Hin|Hni]; [right; f_equal; auto|].
  destruct Hor as [(k' & l' & [[= -> ->]|?]%elem_of_cons & ?)|?]; [done|left; by exists k', l'|by right].
Qed.

Abbreviation decode_rows := (decode_rows is_fast batch_decode decode_plain special_ids).
Abbreviation grouped := (_grouped_batch_decode is_fast batch_decode decode_plain special_ids).

Lemma list_eq_filled {A} (f : A → text) (rows : list A) (res : list text) : length res = length rows →
  (∀ i r, rows !! i = Some r → res !! i = Some (f r)) → res = f <$> rows.
Proof.
  intros Hl H. apply list_eq. intros i. rewrite list_lookup_fmap. destruct (rows !! i) as [r|] eqn:Er; [by apply H|].
  apply lookup_ge_None in Er. apply lookup_ge_None. lia.
Qed.

Lemma foldl_same {A B} (f g : A → B → A) l a : (∀ a b, f a b = g a b) → foldl f a l = foldl g a l.
Proof. intros H. revert a. induction l as [|b l IH]; intros a; cbn [foldl]; [done|]. by rewrite H, IH. Qed.

Lemma decode_rows_spec rows : decode_rows rows = row_text <$> rows.
Proof.
  unfold Detokenizer.decode_rows, row_text. destruct is_fast; cbn [negb]; [|done]. destruct rows as [|[ids first] rest] eqn:Erows; [done|].
  rewrite <- Erows. clear Erows. destruct (forallb _ _) eqn:Eall.
  - rewrite Hbatch, <- list_fmap_compose. apply list_fmap_ext. intros i r Hr. rewrite forallb_forall in Eall.
    specialize (Eall r). rewrite bool_decide_eq_true in Eall. cbn. by rewrite Eall by (by eapply list_elem_of_In, list_elem_of_lookup_2).
  - set (gs := foldl (λ g e, group_add e.2 e.1 g) [] (imap (λ i (r : row), (i, r.2)) rows)). set (f := λ (k : bool * bool) i, decode (default [] (rows.*1 !! i)) k.1 k.2).
    set (F := λ i, default [] ((λ r : row, decode r.1 r.2.1 r.2.2) <$> rows !! i)).
    assert (∀ i k, in_groups gs i k ↔ ∃ r, rows !! i = Some r ∧ k = r.2) as Hg.
    { intros i k. unfold gs. rewrite groups_spec, elem_of_lookup_imap. split; [intros [(l & []%elem_of_nil & _)|(j & r & [= -> ->] & Hr)]|intros (r & Hr & ->)];
        [by exists r|right; by exists i, r]. }
    destruct (fill_groups F f gs (replicate (length rows) [])) as [H1 H2].
    { intros i k (r & Hr & ->)%Hg. unfold f, F. by rewrite list_lookup_fmap, Hr. }
    rewrite length_replicate in *.
    assert (foldl (λ out g, scatter out g.2 (batch_decode ((λ i, default [] (rows.*1 !! i)) <$> g.2) g.1.1 g.1.2)) (replicate (length rows) []) gs
      = foldl (λ out g, scatter out g.2 (f g.1 <$> g.2)) (replicate (length rows) []) gs) as ->.
    { apply foldl_same. intros out g. by rewrite Hbatch, <- list_fmap_compose. }
    apply list_eq_filled; [done|]. intros i r Hr. rewrite H2.
    + unfold F. by rewrite Hr.
    + by eapply lookup_lt_Some.
    + left. exists r.2. apply Hg. by exists r.
Qed.

Lemma grouped_spec rows : grouped rows = row_text_or_empty <$> rows.
Proof.
  unfold _grouped_batch_decode. destruct (forallb _ rows) eqn:Eall.
  - destruct rows as [|r0 rest]; [done|]. rewrite decode_rows_spec. apply list_fmap_ext. intros i r Hr. rewrite forallb_forall in Eall.
    specialize (Eall r ltac:(by eapply list_elem_of_In, list_elem_of_lookup_2)). unfold row_text_or_empty. by destruct (_ =? 0).
  - set (keep := filter _ _). set (F := λ i, default [] (row_text <$> rows !! i)).
    assert (∀ i, i ∈ keep ↔ ∃ r, rows !! i = Some r ∧ (zlen r.1 =? 0) = false) as Hk.
    { intros i. unfold keep. rewrite list_elem_of_filter, elem_of_seq, negb_true_iff, list_lookup_fmap. split.
      - intros [H [_ Hi]]. apply lookup_lt_is_Some in Hi as [r Hr]. exists r. by rewrite Hr in H.
      - intros (r & Hr & Hz). rewrite Hr. split; [done|]. apply lookup_lt_Some in Hr. lia. }
    assert (row_text <$> omap (λ i, rows !! i) keep = F <$> keep) as Ef.
    { clear -Hk. assert (∀ i, i ∈ keep → is_Some (rows !! i)) as H by (intros i (r & ? & _)%Hk; by exists r). clear Hk.
      induction keep as [|i keep IH]; [done|]. cbn [omap list_omap]. destruct (H i) as [r Hr]; [by left|]. rewrite Hr. cbn [fmap list_fmap].
      rewrite IH by (intros j Hj; apply H; by right). unfold F at 2. by rewrite Hr. }
    transitivity (scatter (replicate (length rows) []) keep (F <$> keep)). { rewrite <- Ef, <- decode_rows_spec. by destruct keep. }
    destruct (scatter_lookup F keep (replicate (length rows) [])) as [H1 H2]. rewrite length_replicate in *.
    apply list_eq_filled; [done|]. intros i r Hr. apply lookup_lt_Some in Hr as Hlt. rewrite H2 by done. unfold row_text_or_empty.
    destruct (decide (i ∈ keep)) as [(r' & Hr' & Hz)%Hk|Hni].
    + simplify_eq. rewrite Hz. unfold F. by rewrite Hr.
    + destruct (zlen r.1 =? 0) eqn:Ez; [by apply lookup_replicate_2|]. exfalso. apply Hni, Hk. by exists r.
Qed.

Lemma decode_row_spec ids skip space : decode_row is_fast batch_decode decode_plain special_ids ids skip space = row_text_or_empty (ids, (skip, space)).
Proof. unfold decode_row. by rewrite grouped_spec. Qed.
End groups.

(** ** Printable text *)

Lemma rfind_from_spec c t i best :
  (rfind_from c t i best = best ∧ c ∉ t) ∨ (∃ a b, t = a ++ (c :: b) ∧ (c ∉ b) ∧ rfind_from c t i best = i + zlen a).
Proof.
  revert i best. induction t as [|x t IH]; intros i best; cbn [rfind_from]; [left; split; [done|apply not_elem_of_nil]|].
  destruct (IH (i + 1) (if x =? c then i else best)) as [[-> Hn]|(a & b & -> & Hb & ->)].
  - destruct (Z.eqb_spec x c) as [->|Hne]; [right; exists [], t; split; [done|]; split; [done|unfold zlen; simpl; lia]|].
    left. split; [done|]. rewrite not_elem_of_cons. split; [congruence|done].
  - right. exists (x :: a), b. split; [done|]. split; [done|]. unfold zlen. cbn [length]. lia.
Qed.

Lemma pytake_prefix {A} (l : list A) j : pytake l j `prefix_of` l.
Proof.
  unfold pytake, pyslice. replace (norm_idx (zlen l) 0) with 0; [apply prefix_take|]. unfold norm_idx. cbn [Z.ltb Z.compare].
  pose proof (zlen_nonneg l). lia.
Qed.

(** Up to the last space. *)
Lemma to_last_space t : pytake t (str_rfind 32 t + 1) = [] ∨ last (pytake t (str_rfind 32 t + 1)) = Some 32.
Proof.
  unfold str_rfind. destruct (rfind_from_spec 32 t 0 (-1)) as [[-> _]|(a & b & -> & _ & ->)]; [left; by rewrite pytake_eq|right].
  rewrite pytake_eq by (unfold zlen; lia). replace (Z.to_nat (0 + zlen a + 1)) with (length (a ++ [32])) by (unfold zlen; rewrite length_app; cbn; lia).
  change (a ++ 32 :: b) with (a ++ [32] ++ b). by rewrite (app_assoc a [32] b), take_app_length, last_snoc.
Qed.

Lemma ends_other (t : text) c c' : c ≠ c' → ends_with t c = true → ends_with t c' = false.
Proof. unfold ends_with. intros Hne ->%bool_decide_eq_true. apply bool_decide_eq_false. congruence. Qed.

(** What is printable of a text whose end is unclear is a beginning of it that ends
    in a whole character. *)
Lemma printable_clean t : (t = [] ∨ ends_with t FFFD = true) →
  find_printable_text t `prefix_of` t ∧ ends_with (find_printable_text t) FFFD = false.
Proof.
  intros Hend. unfold find_printable_text.
  assert (ends_with t 10 = false) as -> by (destruct Hend as [->|Hend]; [done|by eapply ends_other; [|exact Hend]]).
  assert (match last t with Some c => _is_chinese_char c | None => false end = false) as ->.
  { destruct Hend as [->|Hend]; [done|]. unfold ends_with in Hend. apply bool_decide_eq_true in Hend. by rewrite Hend. }
  destruct (penultimate t) as [c|] eqn:Ep; [destruct (_is_chinese_char c) eqn:Ec|]; (split; [apply pytake_prefix|]).
  - unfold ends_with. unfold penultimate in Ep. rewrite Ep. apply bool_decide_eq_false. intros [= ->]. done.
  - by unfold ends_with; destruct (to_last_space t) as [-> | ->].
  - by unfold ends_with; destruct (to_last_space t) as [-> | ->].
Qed.

(** Whole words of a text without CJK characters whose end is unclear. *)
Lemma printable_words t : (t = [] ∨ ends_with t FFFD = true) → Forall (λ c, _is_chinese_char c = false) t →
  ∃ q, t = find_printable_text t ++ q ∧ (find_printable_text t = [] ∨ last (find_printable_text t) = Some 32) ∧ 32 ∉ q.
Proof.
  intros Hend Hc. unfold find_printable_text.
  assert (ends_with t 10 = false) as ->.
  { destruct Hend as [->|Hend]; [done|]. unfold ends_with in *. apply bool_decide_eq_true in Hend. apply bool_decide_eq_false. rewrite Hend. done. }
  assert (∀ u : text, u `prefix_of` t → match last u with Some c => _is_chinese_char c | None => false end = false) as Hl.
  { intros u [k Hk]. destruct (last u) as [c|] eqn:El; [|done]. rewrite Forall_forall in Hc. apply Hc. rewrite Hk.
    apply elem_of_app. left. by apply last_Some_elem_of. }
  rewrite Hl by done. unfold penultimate. rewrite Hl by apply pytake_prefix.
  destruct (rfind_from_spec 32 t 0 (-1)) as [[E Hn]|(a & b & E & Hb & Ek)]; unfold str_rfind.
  - rewrite E, pytake_eq by done. cbn [Z.add Z.to_nat take]. exists t. split; [done|]. split; [by left|done].
  - rewrite Ek, Z.add_0_l, pytake_eq by (unfold zlen; lia). unfold zlen. replace (Z.to_nat (Z.of_nat (length a) + 1)) with (length (a ++ [32])) by (rewrite length_app; cbn; lia).
    replace t with ((a ++ [32]) ++ b) by (by rewrite E, <- app_assoc). rewrite take_app_length. exists b. split; [done|]. split; [right; by rewrite last_snoc|done].
Qed.

Lemma words_grow (t p pend q : text) : t = p ++ q → 32 ∉ q → pend `prefix_of` t → pend = [] ∨ last pend = Some 32 → pend `prefix_of` p.
Proof.
  intros -> Hq Hp Hl. destruct (prefix_weak_total pend p (p ++ q)) as [?|[w ->]]; [done|by exists q|done|].
  destruct w as [|c w]; [by rewrite app_nil_r|]. exfalso. apply Hq. destruct Hl as [Hl|Hl]; [by destruct p|].
  rewrite last_app_cons in Hl. apply last_Some_elem_of in Hl. apply prefix_app_inv in Hp as [k ->]. apply elem_of_app. by left.
Qed.

(** ** Streaming *)

(** A tokenizer that decodes bytes: text that ends in a finished character splits
    off, and finished characters stay. *)
Record char_decoder (D : list Z → text) : Prop := {
  cd_split : ∀ a b, ends_with (D a) FFFD = false → D (a ++ b) = D a ++ D b;
  cd_stable : ∀ p a b, p `prefix_of` D a → ends_with p FFFD = false → p `prefix_of` D (a ++ b)
}.

Section stream.
Context (is_fast : bool) (batch_decode : list (list Z) → bool → bool → list text) (decode_plain : list Z → text) (special_ids : option (list Z)).
Context (skip space : bool).
Abbreviation D := (λ ids, decode_row is_fast batch_decode decode_plain special_ids ids skip space).
Context (HD : char_decoder D).

(** The ids up to the read position and after it. *)
Definition before (s : DecodeStatus) : list Z := take (Z.to_nat (ds_read s)) (ds_ids s).
Definition after (s : DecodeStatus) : list Z := drop (Z.to_nat (ds_read s)) (ds_ids s).

(** [sent] was sent: the committed text and some whole characters of the rest.  [P] is
    the text of the prompt ids. *)
Record streaming (P sent : text) (s : DecodeStatus) : Prop := {
  so_range : 0 ≤ ds_surr s ≤ ds_read s ∧ ds_read s ≤ zlen (ds_ids s);
  so_surr : ends_with (D (take (Z.to_nat (ds_surr s)) (ds_ids s))) FFFD = false;
  so_read : ends_with (D (before s)) FFFD = false;
  so_text : D (before s) = P ++ get_decoded_text s;
  so_len : ds_text_len s = zlen (get_decoded_text s);
  so_pend : ∃ pend, sent = get_decoded_text s ++ pend ∧ pend `prefix_of` D (after s) ∧ ends_with pend FFFD = false;
  so_sent : ds_sent s = zlen sent
}.

(** The texts decoded for a state. *)
Definition surr_text (s : DecodeStatus) : text := D (pyslice (ds_ids s) (ds_surr s) (ds_read s)).
Definition new_text (s : DecodeStatus) : text := pydrop (D (pydrop (ds_ids s) (ds_surr s))) (zlen (surr_text s)).

Lemma pydrop_app {A} (a b : list A) : pydrop (a ++ b) (zlen a) = b.
Proof. rewrite pydrop_eq by apply zlen_nonneg. unfold zlen. by rewrite Nat2Z.id, drop_app_length. Qed.

Lemma ends_app_false (a b : text) c : ends_with (a ++ b) c = false → ends_with b c = false.
Proof. destruct b as [|x b]; [done|]. unfold ends_with. by rewrite last_app_cons. Qed.

Lemma split_slice (l : list Z) i j k : 0 ≤ i ≤ j → j ≤ k → k ≤ zlen l →
  pyslice l i k = pyslice l i j ++ pyslice l j k.
Proof.
  intros. rewrite !pyslice_eq by lia. replace (Z.to_nat (k - i)) with (Z.to_nat (j - i) + Z.to_nat (k - j))%nat by lia.
  rewrite <- take_take_drop, drop_drop. f_equal. f_equal. f_equal. lia.
Qed.

Lemma take_slice (l : list Z) i j : 0 ≤ i ≤ j → j ≤ zlen l → take (Z.to_nat j) l = take (Z.to_nat i) l ++ pyslice l i j.
Proof. intros. rewrite pyslice_eq by lia. replace (Z.to_nat j) with (Z.to_nat i + Z.to_nat (j - i))%nat at 1 by lia. by rewrite take_take_drop. Qed.

Lemma drop_slice (l : list Z) i : 0 ≤ i ≤ zlen l → pyslice l i (zlen l) = drop (Z.to_nat i) l.
Proof. intros. rewrite pyslice_eq by lia. apply take_ge. rewrite length_drop. unfold zlen. lia. Qed.

(** From the text decoded between two marks, what is new. *)
Lemma marks_text P sent s b : streaming P sent s → ds_read s ≤ b ≤ zlen (ds_ids s) →
  pydrop (D (pyslice (ds_ids s) (ds_surr s) b)) (zlen (surr_text s)) = D (pyslice (ds_ids s) (ds_read s) b).
Proof.
  intros [Hr Hs He _ _ _ _] Hb. unfold surr_text. rewrite (split_slice _ (ds_surr s) (ds_read s) b) by lia.
  rewrite (cd_split _ HD); [apply pydrop_app|]. unfold before in He. rewrite (take_slice _ (ds_surr s)) in He by lia.
  rewrite (cd_split _ HD) in He by done. by apply ends_app_false in He.
Qed.

Lemma new_text_eq P sent s : streaming P sent s → new_text s = D (after s).
Proof.
  intros Hs. unfold new_text. change (pydrop (ds_ids s) (ds_surr s)) with (pyslice (ds_ids s) (ds_surr s) (zlen (ds_ids s))).
  pose proof (so_range _ _ _ Hs). rewrite (marks_text P sent s) by (done || lia). unfold after. by rewrite drop_slice by lia.
Qed.

Lemma extend_streaming P sent s x : streaming P sent s → streaming P sent (extend_ids x s).
Proof.
  intros [Hr Hs He Ht Hl (pend & E & Hp & Hw) Hn]. unfold before, after in *. unfold zlen in Hr.
  assert (∀ k, k ≤ ds_read s → take (Z.to_nat k) (ds_ids s ++ x) = take (Z.to_nat k) (ds_ids s)) as Ek by (intros; apply take_app_le; lia).
  split; unfold before, after; cbn [extend_ids ds_ids ds_read ds_surr ds_text_len ds_sent]; try done.
  - rewrite zlen_app. pose proof (zlen_nonneg x). unfold zlen in *. lia.
  - by rewrite Ek by lia.
  - by rewrite Ek by lia.
  - by rewrite Ek by lia.
  - exists pend. split; [done|]. split; [|done]. rewrite drop_app_le by lia. by apply (cd_stable _ HD).
Qed.

Lemma skip_pending_eq (t pend : text) : pend `prefix_of` t → pend ++ skip_pending t (zlen pend) = t.
Proof.
  intros [k ->]. unfold skip_pending. destruct (Z.eqb_spec (zlen pend) 0) as [->%zlen_nil_inv|_]; [done|]. by rewrite pydrop_app.
Qed.

(** What a commit leaves. *)
Record commits (t : text) (b : Z) (s s' : DecodeStatus) : Prop := {
  co_text : get_decoded_text s' = get_decoded_text s ++ t;
  co_len : ds_text_len s' = ds_text_len s + zlen t;
  co_sent : ds_sent s' = ds_text_len s + zlen t;
  co_ids : ds_ids s' = ds_ids s;
  co_surr : ds_surr s' = ds_read s;
  co_read : ds_read s' = b
}.

Lemma commit_spec (t : text) b s : commits t b s (_commit_stream_text t b s).
Proof.
  unfold _commit_stream_text, append_decoded_text. destruct (Z.eqb_spec (zlen t) 0) as [E|_]; split; cbn; try done; try lia.
  - apply zlen_nil_inv in E as ->. by rewrite app_nil_r.
  - unfold get_decoded_text. cbn. by rewrite concat_app, app_assoc; cbn; rewrite app_nil_r.
Qed.

(** What is not yet sent of the committed text, sent together with a commit. *)
Lemma commit_streaming P sent s b : streaming P sent s → ds_read s ≤ b ≤ zlen (ds_ids s) →
  let c := D (pyslice (ds_ids s) (ds_read s) b) in
  ends_with c FFFD = false → ds_sent s - ds_text_len s ≤ zlen c →
  streaming P (sent ++ skip_pending c (ds_sent s - ds_text_len s)) (_commit_stream_text c b s).
Proof.
  intros Hst Hb c Hc Hlen. pose proof Hst as [Hr Hs He Ht Hl (pend & -> & Hp & Hw) Hn].
  assert (ds_sent s - ds_text_len s = zlen pend) as Epend by (rewrite Hn, Hl, zlen_app; lia). rewrite Epend in *.
  assert (c `prefix_of` D (after s)) as Hca.
  { unfold c, after. rewrite <- drop_slice, (split_slice _ (ds_read s) b (zlen (ds_ids s))) by lia. rewrite (cd_split _ HD) by done. by apply prefix_app_r. }
  assert (pend `prefix_of` c) as Hpc.
  { destruct (prefix_weak_total pend c (D (after s))) as [?|Hcp]; [done..|]. pose proof (prefix_length _ _ Hcp). unfold zlen in Hlen.
    destruct Hcp as [k ->]. rewrite length_app in Hlen. destruct k; [by rewrite app_nil_r|cbn in Hlen; lia]. }
  destruct (commit_spec c b s) as [Ec El Es Ei Esu Er]. rewrite <- app_assoc, skip_pending_eq by done.
  assert (D (take (Z.to_nat b) (ds_ids s)) = P ++ get_decoded_text s ++ c) as EP.
  { rewrite (take_slice _ (ds_read s)) by lia. rewrite (cd_split _ HD) by done. unfold before in Ht. by rewrite Ht, <- app_assoc. }
  split; unfold before, after; rewrite ?Ec, ?El, ?Es, ?Ei, ?Esu, ?Er; try done.
  - lia.
  - rewrite (take_slice _ (ds_read s)), (cd_split _ HD) by (done || lia). fold c. unfold before in He. destruct c as [|x c']; [by rewrite app_nil_r|].
    unfold ends_with in *. by rewrite last_app_cons.
  - rewrite zlen_app. lia.
  - exists []. rewrite app_nil_r. split; [done|]. split; [apply prefix_nil|done].
  - rewrite zlen_app. lia.
Qed.

Lemma stall_streaming P sent s : streaming P sent s → new_text s = [] ∨ ends_with (new_text s) FFFD = true →
  let p := find_printable_text (new_text s) in ds_sent s ≤ ds_text_len s + zlen p →
  streaming P (sent ++ skip_pending p (ds_sent s - ds_text_len s)) (stall p s).
Proof.
  intros Hst. rewrite (new_text_eq P sent s Hst). intros Hend p Hback. pose proof Hst as [Hr Hs He Ht Hl (pend & -> & Hp & Hw) Hn].
  assert (ds_sent s - ds_text_len s = zlen pend) as Epend by (rewrite Hn, Hl, zlen_app; lia). rewrite Epend.
  destruct (printable_clean _ Hend) as [Hpp Hpc]. fold p in Hpp, Hpc. assert (pend `prefix_of` p) as Hg.
  { destruct (prefix_weak_total pend p (D (after s))) as [?|Hcp]; [done..|]. pose proof (prefix_length _ _ Hcp). unfold zlen in *.
    destruct Hcp as [k ->]. rewrite length_app in *. destruct k; [by rewrite app_nil_r|cbn in *; lia]. }
  rewrite <- app_assoc, skip_pending_eq by done. split; try done.
  - by exists p.
  - cbn. rewrite zlen_app. unfold get_decoded_text in *. cbn in *. lia.
Qed.

Abbreviation find_clean := (_find_clean_commit is_fast batch_decode decode_plain special_ids).

Lemma clean_loop_spec n boundary s st pending b c :
  clean_loop is_fast batch_decode decode_plain special_ids n boundary s st skip space pending = Some (b, c) →
  boundary - Z.of_nat n < b ≤ boundary ∧ c = pydrop (D (pyslice (ds_ids s) (ds_surr s) b)) (zlen st) ∧ ends_with c FFFD = false ∧ pending ≤ zlen c.
Proof.
  revert boundary. induction n as [|n IH]; intros boundary; cbn [clean_loop]; [done|].
  destruct (negb _ && negb _) eqn:Ec.
  - destruct (Z.ltb_spec (zlen (pydrop (D (pyslice (ds_ids s) (ds_surr s) boundary)) (zlen st))) pending) as [|Hge]; [done|]. intros [= <- <-].
    apply andb_true_iff in Ec as [_ Ec%negb_true_iff]. split; [lia|]. done.
  - intros (H1 & H2)%IH. split; [lia|done].
Qed.

(** One message of a request that goes on. *)
Definition stream_step (x : list Z) (s : DecodeStatus) : text * DecodeStatus :=
  let s := extend_ids x s in
  stream_text is_fast batch_decode decode_plain special_ids s (surr_text s) (new_text s) skip space.

Lemma step_streaming P sent s x : streaming P sent s → ds_stalled s < MAX_STALLED_DECODE_STEPS → ds_sent s ≤ ds_sent (stream_step x s).2 →
  streaming P (sent ++ (stream_step x s).1) (stream_step x s).2 ∧ ds_ids (stream_step x s).2 = ds_ids s ++ x.
Proof.
  intros Hs0 Hst. pose proof (extend_streaming P sent s x Hs0) as Hs. unfold stream_step, stream_text. cbv zeta. change (ds_sent s) with (ds_sent (extend_ids x s)).
  set (s1 := extend_ids x s) in *. pose proof (so_range _ _ _ Hs) as Hr. pose proof (new_text_eq _ _ _ Hs) as Enew.
  assert (ds_ids s1 = ds_ids s ++ x) as Ei by done. change (ds_stalled s1) with (ds_stalled s).
  assert (ds_sent s1 - ds_text_len s1 ≤ zlen (D (after s1))) as Hpl.
  { destruct Hs as [_ _ _ _ Hl (pend & Es & Hp%prefix_length & _) Hn]. rewrite Hn, Hl, Es, zlen_app. unfold zlen in *. lia. }
  assert (D (pyslice (ds_ids s1) (ds_read s1) (zlen (ds_ids s1))) = D (after s1)) as Ea by (unfold after; by rewrite drop_slice by lia).
  clearbody s1. destruct (negb _ && negb _) eqn:Ec.
  { intros _. apply andb_true_iff in Ec as [_ Ec%negb_true_iff]. cbn [fst snd]. rewrite Enew in *. rewrite <- Ea. split; [|by rewrite (co_ids _ _ _ _ (commit_spec _ _ _))].
    apply commit_streaming; [done|lia|by rewrite Ea|by rewrite Ea]. }
  unfold _find_clean_commit. destruct (clean_loop _ _ _ _ _ _ _ _ _ _ _) as [[b c]|] eqn:Ef.
  { intros _. apply clean_loop_spec in Ef as (Hb & -> & Hc & Hle). rewrite (marks_text P sent s1) in * by (done || lia). cbn [fst snd].
    split; [|by rewrite (co_ids _ _ _ _ (commit_spec _ _ _))]. apply commit_streaming; [done|lia|done|done]. }
  destruct (Z.leb_spec MAX_STALLED_DECODE_STEPS (ds_stalled s)); [lia|]. cbn [fst snd]. intros Hback. split; [|done]. apply stall_streaming; [done| |done].
  apply andb_false_iff in Ec as [Ec%negb_false_iff|Ec%negb_false_iff]; [left; by apply Z.eqb_eq, zlen_nil_inv in Ec|by right].
Qed.

(** The messages of a request before its last, what they send, that no run of
    unclear ends is so long that it is taken for text, and that the offset of what
    was sent never goes back. *)
Fixpoint stream_all (steps : list (list Z)) (s : DecodeStatus) : text * DecodeStatus :=
  match steps with
  | [] => ([], s)
  | x :: steps => let (out, s) := stream_step x s in let (rest, s) := stream_all steps s in (out ++ rest, s)
  end.
Fixpoint unstuck (steps : list (list Z)) (s : DecodeStatus) : Prop :=
  match steps with [] => True | x :: steps => ds_stalled s < MAX_STALLED_DECODE_STEPS ∧ ds_sent s ≤ ds_sent (stream_step x s).2 ∧ unstuck steps (stream_step x s).2 end.

(** As long as unclear text has no CJK characters, whole words were sent of it and
    the offset goes forward. *)
Definition words_sent (s : DecodeStatus) : Prop :=
  ∃ pend, ds_sent s = ds_text_len s + zlen pend ∧ pend `prefix_of` D (after s) ∧ (pend = [] ∨ last pend = Some 32).

Lemma words_extend P sent s x : streaming P sent s → words_sent s → words_sent (extend_ids x s).
Proof.
  intros Hs (pend & E & Hp & Hw). exists pend. split; [done|]. split; [|done]. pose proof (so_range _ _ _ Hs) as Hr. unfold after in *.
  cbn [extend_ids ds_ids ds_read]. rewrite drop_app_le by (unfold zlen in *; lia). apply (cd_stable _ HD); [done|].
  by unfold ends_with; destruct Hw as [-> | ->].
Qed.

Lemma commit_words t b s : words_sent (_commit_stream_text t b s).
Proof. destruct (commit_spec t b s) as [_ El Es _ _ _]. exists []. rewrite Es, El. split; [unfold zlen; cbn; lia|]. split; [apply prefix_nil|by left]. Qed.

Lemma words_forward P sent s x : streaming P sent s → words_sent s → ds_stalled s < MAX_STALLED_DECODE_STEPS →
  Forall (λ c, _is_chinese_char c = false) (new_text (extend_ids x s)) →
  ds_sent s ≤ ds_sent (stream_step x s).2 ∧ words_sent (stream_step x s).2.
Proof.
  intros Hs0 Hw0 Hst. pose proof (extend_streaming P sent s x Hs0) as Hs. pose proof (words_extend P sent s x Hs0 Hw0) as (pend & Ep & Hp & Hw).
  unfold stream_step, stream_text. cbv zeta. change (ds_sent s) with (ds_sent (extend_ids x s)). change (ds_stalled s) with (ds_stalled (extend_ids x s)) in Hst.
  set (s1 := extend_ids x s) in *. pose proof (new_text_eq _ _ _ Hs) as Enew. clearbody s1. intros Hc. rewrite Enew in *. apply prefix_length in Hp as Hl.
  destruct (negb _ && negb _) eqn:Ec.
  { cbn [fst snd]. split; [|apply commit_words]. rewrite (co_sent _ _ _ _ (commit_spec _ _ _)). unfold zlen in *. lia. }
  unfold _find_clean_commit. destruct (clean_loop _ _ _ _ _ _ _ _ _ _ _) as [[b c]|] eqn:Ef.
  { apply clean_loop_spec in Ef as (_ & -> & _ & Hle). cbn [fst snd]. split; [|apply commit_words]. rewrite (co_sent _ _ _ _ (commit_spec _ _ _)). lia. }
  destruct (Z.leb_spec MAX_STALLED_DECODE_STEPS (ds_stalled s1)); [lia|]. cbn [fst snd stall ds_sent].
  assert (D (after s1) = [] ∨ ends_with (D (after s1)) FFFD = true) as Hend.
  { apply andb_false_iff in Ec as [Ec%negb_false_iff|Ec%negb_false_iff]; [left; by apply Z.eqb_eq, zlen_nil_inv in Ec|by right]. }
  destruct (printable_words _ Hend Hc) as (q & Eq & Hpw & Hq). set (p := find_printable_text _) in *.
  pose proof (words_grow _ _ _ _ Eq Hq Hp Hw) as Hg%prefix_length. split; [unfold zlen in *; lia|].
  exists p. split; [done|]. split; [|done]. unfold after in *. cbn [stall ds_ids ds_read]. by exists q.
Qed.

Lemma all_streaming P sent steps s : streaming P sent s → unstuck steps s →
  streaming P (sent ++ (stream_all steps s).1) (stream_all steps s).2 ∧ ds_ids (stream_all steps s).2 = ds_ids s ++ concat steps.
Proof.
  revert sent s. induction steps as [|x steps IH]; intros sent s Hs Hu; cbn [stream_all]; [by rewrite !app_nil_r|]. destruct Hu as (Hst & Hback & Hu).
  destruct (step_streaming P sent s x Hs Hst Hback) as [H1 H2]. destruct (stream_step x s) as [out s1]. cbn [fst snd] in *.
  destruct (IH (sent ++ out) s1 H1 Hu) as [H3 H4]. destruct (stream_all steps s1) as [rest s2]. cbn [fst snd concat] in *.
  by rewrite app_assoc, H4, H2, app_assoc.
Qed.

(** ** The last message *)

Lemma pytake_snoc {A} (l : list A) t : pytake (l ++ [t]) (-1) = l.
Proof.
  unfold pytake, pyslice, norm_idx. rewrite zlen_app. change (zlen [t]) with 1. pose proof (zlen_nonneg l).
  destruct (Z.ltb_spec (-1) 0); [|lia]. rewrite Z.max_r, (Z.min_l 0) by lia. change (Z.to_nat 0) with 0%nat. rewrite drop_0, Z.sub_0_r.
  replace (Z.to_nat (-1 + (zlen l + 1))) with (length l) by (unfold zlen; lia). apply take_app_length.
Qed.

(** The ids that are decoded: all, or all but the stop token at the end. *)
Lemma kept_ids gpt (ids x : list Z) surr o kept : 0 ≤ surr ≤ zlen ids → (x = [] → ∀ z, to_finished o ≠ Some (MInt z)) →
  trim_matched_ids gpt (pydrop (ids ++ x) surr) (to_finished o) (to_no_stop_trim o) = Ok kept →
  ∃ x', (x' = x ∨ (∃ z, to_finished o = Some (MInt z)) ∧ ∃ t, x = x' ++ [t]) ∧ kept = pydrop (ids ++ x') surr.
Proof.
  intros Hsu Hx. unfold trim_matched_ids. destruct (to_finished o) as [[| |z|]|] eqn:Ef; try (intros [= <-]; exists x; by split; [left|]).
  destruct (to_no_stop_trim o); [intros [= <-]; exists x; by split; [left|]|]. destruct (last _) as [t|]; [|done].
  destruct (_ && _); intros [= <-]; [exists x; by split; [left|]|].
  destruct x as [|t' x' _] using rev_ind; [by destruct (Hx eq_refl z)|]. exists x'. split; [right; split; [by exists z|by exists t']|].
  rewrite !pydrop_eq, app_assoc, drop_app_le by (rewrite ?length_app; unfold zlen in *; lia). apply pytake_snoc.
Qed.

Lemma surr_text_extend P sent s x : streaming P sent s → surr_text (extend_ids x s) = surr_text s.
Proof.
  intros Hs. pose proof (so_range _ _ _ Hs) as Hr. unfold surr_text. cbn [extend_ids ds_ids ds_surr ds_read].
  rewrite !pyslice_eq by (rewrite ?zlen_app; unfold zlen in *; lia). rewrite drop_app_le by (unfold zlen in *; lia).
  rewrite take_app_le by (rewrite length_drop; unfold zlen in *; lia). done.
Qed.

Lemma cut_whole (sent whole cut : text) : sent `prefix_of` whole → cut `prefix_of` whole →
  sent ++ pydrop cut (zlen sent) = cut ∨ pydrop cut (zlen sent) = [] ∧ cut `prefix_of` sent.
Proof.
  intros H1 H2. destruct (prefix_weak_total sent cut whole) as [[k ->]|Hc]; [done|done|left; by rewrite pydrop_app|right].
  split; [|done]. apply prefix_length in Hc. rewrite pydrop_eq by apply zlen_nonneg. apply drop_ge. unfold zlen. lia.
Qed.

Lemma final_streaming P sent s x gpt o kept : streaming P sent s → (x = [] → ∀ z, to_finished o ≠ Some (MInt z)) →
  trim_matched_ids gpt (pydrop (ds_ids s ++ x) (ds_surr s)) (to_finished o) (to_no_stop_trim o) = Ok kept →
  ∃ x' whole, (x' = x ∨ (∃ z, to_finished o = Some (MInt z)) ∧ ∃ t, x = x' ++ [t]) ∧ D (ds_ids s ++ x') = P ++ whole ∧
    let out := final_text (extend_ids x s) (pydrop (D kept) (zlen (surr_text s))) o in
    let cut := trim_matched_text whole (to_finished o) (to_no_stop_trim o) in
    sent ++ out = cut ∨ out = [] ∧ cut `prefix_of` sent.
Proof.
  intros Hs Hx Hk. pose proof (so_range _ _ _ Hs) as Hr. apply kept_ids in Hk as (x' & Hx' & ->); [|lia|done].
  pose proof (extend_streaming P sent s x' Hs) as Hs2. pose proof (new_text_eq _ _ _ Hs2) as Enew. unfold new_text in Enew.
  rewrite (surr_text_extend P sent s x' Hs) in Enew. cbn [extend_ids ds_ids ds_surr] in Enew. set (s2 := extend_ids x' s) in *.
  exists x', (get_decoded_text s ++ D (after s2)). split; [done|]. split.
  { change (ds_ids s ++ x') with (ds_ids s2). rewrite <- (take_drop (Z.to_nat (ds_read s2)) (ds_ids s2)).
    rewrite (cd_split _ HD) by apply (so_read _ _ _ Hs2). pose proof (so_text _ _ _ Hs2) as Et. unfold before in Et. by rewrite Et, <- app_assoc. }
  unfold final_text. rewrite Enew. change (get_decoded_text (extend_ids x s)) with (get_decoded_text s). change (ds_sent (extend_ids x s)) with (ds_sent s).
  rewrite (so_sent _ _ _ Hs). eapply cut_whole.
  - destruct Hs2 as [_ _ _ _ _ (pend & -> & Hp & _) _]. change (get_decoded_text s2) with (get_decoded_text s). by apply prefix_app.
  - unfold trim_matched_text. destruct (to_finished o) as [[|m| |]|]; try done. destruct (_ =? _); [done|]. destruct (to_no_stop_trim o); apply pytake_prefix.
Qed.

Lemma new_streaming ids0 R0 : 0 ≤ R0 ≤ zlen ids0 → ends_with (D (take (Z.to_nat R0) ids0)) FFFD = false →
  streaming (D (take (Z.to_nat R0) ids0)) [] (new_status [] ids0 R0).
Proof.
  intros Hr He. split; unfold before, after, get_decoded_text; cbn [new_status ds_ids ds_read ds_surr ds_text ds_chunks ds_text_len ds_sent concat app]; try done.
  - lia.
  - by rewrite app_nil_r.
  - exists []. split; [done|]. split; [apply prefix_nil|done].
Qed.
End stream.

(** ** The properties *)

(** Decoding the rows of a batch in groups that share their flags gives the
    text of every row, in order; empty rows give no text. *)
Theorem grouped_decode_rowwise is_fast batch_decode decode decode_plain special_ids rows :
  (∀ l skip space, batch_decode l skip space = (λ ids, decode ids skip space) <$> l) →
  _grouped_batch_decode is_fast batch_decode decode_plain special_ids rows
  = row_text_or_empty is_fast decode decode_plain special_ids <$> rows.
Proof. intros H. by apply grouped_spec. Qed.

(** For a tokenizer that decodes bytes, the pieces sent for a request and its
    last piece, put together, are the text of all its ids decoded at once (the
    prompt's text [P] taken off), cut at the matched stop; only when the stop lies
    in what was already sent is nothing more sent instead.  Runs are left out in
    which the offset of what was sent goes back, which only happens with CJK
    characters in text whose end is unclear ([words_forward]). *)
Theorem streamed_text_exact is_fast batch_decode decode_plain special_ids skip space gpt ids0 R0 steps sent s x o kept :
  let D ids := decode_row is_fast batch_decode decode_plain special_ids ids skip space in
  let P := D (take (Z.to_nat R0) ids0) in
  char_decoder D → 0 ≤ R0 ≤ zlen ids0 → ends_with P FFFD = false →
  unstuck is_fast batch_decode decode_plain special_ids skip space steps (new_status [] ids0 R0) →
  stream_all is_fast batch_decode decode_plain special_ids skip space steps (new_status [] ids0 R0) = (sent, s) →
  (x = [] → ∀ z, to_finished o ≠ Some (MInt z)) →
  trim_matched_ids gpt (pydrop (ds_ids s ++ x) (ds_surr s)) (to_finished o) (to_no_stop_trim o) = Ok kept →
  ∃ x' whole, (x' = x ∨ (∃ z, to_finished o = Some (MInt z)) ∧ ∃ t, x = x' ++ [t]) ∧ D (ids0 ++ concat steps ++ x') = P ++ whole ∧
    let out := final_text (extend_ids x s) (pydrop (D kept) (zlen (surr_text is_fast batch_decode decode_plain special_ids skip space s))) o in
    let cut := trim_matched_text whole (to_finished o) (to_no_stop_trim o) in
    sent ++ out = cut ∨ out = [] ∧ cut `prefix_of` sent.
Proof.
  intros D P HD Hr He Hu Hall Hx Hk. pose proof (new_streaming _ _ _ _ skip space ids0 R0 Hr He) as H0.
  destruct (all_streaming _ _ _ _ _ _ HD P [] steps _ H0 Hu) as [Hs Hids].
  rewrite Hall in Hs, Hids. cbn [fst snd app] in *.
  destruct (final_streaming _ _ _ _ _ _ HD P sent s x gpt o kept Hs Hx Hk) as (x' & whole & Hx' & Hw & Hc). exists x', whole.
  split; [done|]. split; [|done]. rewrite app_assoc. cbn [new_status ds_ids] in Hids. by rewrite <- Hids.
Qed.
