(* ===== verification/DetokBatch.v ===== *)
(** * A batch of the detokenizer, and concrete streams

    While the table of states has room, a batch does for every request what it
    would do for that request alone.  Then the witnesses, and the stream in which
    text is sent twice. *)
From S2P Require Import Prelude Text Detokenizer DetokTheorems.

(** ** The table of states *)

Lemma find_put_eq rid s d : find_state rid (put_state rid s d) = Some s.
Proof.
  unfold put_state. destruct (existsb _ d) eqn:E.
  - induction d as [|e d IH]; [done|]. cbn [existsb] in E. cbn [fmap list_fmap find_state].
    destruct (bool_decide (e.1 = rid)) eqn:Ee; cbn [fst snd]; [by rewrite bool_decide_true|]. rewrite Ee. apply IH. exact E.
  - induction d as [|e d IH]; cbn [app find_state fst snd]; [by rewrite bool_decide_true|]. cbn [existsb] in E. apply orb_false_iff in E as [-> E]. by apply IH.
Qed.

Lemma find_put_ne rid rid' s d : rid' ≠ rid → find_state rid' (put_state rid s d) = find_state rid' d.
Proof.
  intros Hne. unfold put_state. destruct (existsb _ d).
  - induction d as [|e d IH]; [done|]. cbn [fmap list_fmap find_state]. destruct (bool_decide (e.1 = rid)) eqn:Ee; cbn [fst snd].
    + apply bool_decide_eq_true in Ee. rewrite Ee, bool_decide_false by done. apply IH.
    + destruct (bool_decide (e.1 = rid')); [done|]. apply IH.
  - induction d as [|e d IH]; cbn [app find_state fst snd]; [by rewrite bool_decide_false|]. by rewrite IH.
Qed.

Lemma find_del_eq rid d : find_state rid (del_item rid d) = None.
Proof.
  unfold del_item. induction d as [|e d IH]; [done|]. rewrite filter_cons. case_decide; [|done]. cbn [find_state]. by rewrite bool_decide_false.
Qed.

Lemma find_del_ne rid rid' d : rid' ≠ rid → find_state rid' (del_item rid d) = find_state rid' d.
Proof.
  intros Hne. unfold del_item. induction d as [|e d IH]; [done|]. rewrite filter_cons. case_decide as Hd; cbn [find_state]; rewrite IH; [done|].
  rewrite bool_decide_false; [done|]. congruence.
Qed.

Lemma put_state_length rid s d : zlen (put_state rid s d) ≤ zlen d + 1.
Proof. unfold put_state, zlen. destruct (existsb _ d); rewrite ?length_fmap, ?length_app; cbn; lia. Qed.

Lemma Forall2_impl_in {A B} (P Q : A → B → Prop) l k : Forall2 P l k → (∀ x y, x ∈ l → P x y → Q x y) → Forall2 Q l k.
Proof. induction 1 as [|x y l k Hxy _ IH]; intros H; constructor; [apply H; [by left|done]|]. apply IH. intros x' y' Hx'. apply H. by right. Qed.

Section batch.
Context (is_fast disable_batch_decode gpt : bool) (vocab_size : option Z) (capacity : Z).
Context (batch_decode : list (list Z) → bool → bool → list text) (decode : list Z → bool → bool → text).
Context (decode_plain : list Z → text) (special_ids : option (list Z)).
Context (Hbatch : ∀ l skip space, batch_decode l skip space = (λ ids, decode ids skip space) <$> l).

(** ** One request *)

Definition opened (s : option DecodeStatus) (o : TokenOut) : DecodeStatus :=
  let ids := _clamp_decode_ids (to_ids o) vocab_size in
  match s with None => new_status (to_text o) ids (to_read o) | Some s => extend_ids ids s end.

Definition flags (o : TokenOut) : bool * bool := (to_skip o, to_space o).
Definition surr_row (s : DecodeStatus) (o : TokenOut) : row := (pyslice (ds_ids s) (ds_surr s) (ds_read s), flags o).
Definition read_row (s : DecodeStatus) (o : TokenOut) : result row :=
  let! read := trim_matched_ids gpt (pydrop (ds_ids s) (ds_surr s)) (to_finished o) (to_no_stop_trim o) in Ok (read, flags o).

(** The text of a row. *)
Definition the_text (r : row) : text :=
  if disable_batch_decode then decode r.1 r.2.1 r.2.2 else row_text_or_empty is_fast decode decode_plain special_ids r.

(** The text to send and the state to keep. *)
Definition finish_item (s : DecodeStatus) (read : row) (o : TokenOut) : text * option DecodeStatus :=
  let surr := the_text (surr_row s o) in
  let new := pydrop (the_text read) (zlen surr) in
  match to_finished o with
  | None => let (out, s) := stream_text is_fast batch_decode decode_plain special_ids s surr new (to_skip o) (to_space o) in (out, Some s)
  | Some _ => (final_text s new o, None)
  end.
Definition item_step (s : option DecodeStatus) (o : TokenOut) : result (text * option DecodeStatus) :=
  let s := opened s o in let! read := read_row s o in Ok (finish_item s read o).

(** ** The batch *)

Lemma decode_batch_spec rows : decode_batch is_fast disable_batch_decode batch_decode decode decode_plain special_ids rows = the_text <$> rows.
Proof. unfold decode_batch, the_text. destruct disable_batch_decode; [done|]. cbn [negb]. by apply grouped_spec. Qed.

Abbreviation collect := (collect gpt vocab_size capacity).
Abbreviation emit := (emit is_fast batch_decode decode_plain special_ids).

Lemma open_spec o d : zlen d < capacity →
  open_state vocab_size capacity o d = (opened (find_state (to_rid o) d) o, put_state (to_rid o) (opened (find_state (to_rid o) d) o) d).
Proof. intros. unfold open_state, opened. destruct (find_state (to_rid o) d); [done|]. unfold set_item. by rewrite (proj2 (Z.leb_gt _ _)) by lia. Qed.

Lemma collect_spec items d reads : NoDup (to_rid <$> items) → zlen d + zlen items ≤ capacity →
  Forall2 (λ o r, read_row (opened (find_state (to_rid o) d) o) o = Ok r) items reads →
  ∃ d', collect items d = Ok (reads, (λ o, surr_row (opened (find_state (to_rid o) d) o) o) <$> items, d') ∧
    (∀ o, o ∈ items → find_state (to_rid o) d' = Some (opened (find_state (to_rid o) d) o)) ∧
    (∀ rid, rid ∉ to_rid <$> items → find_state rid d' = find_state rid d).
Proof.
  intros Hnd Hcap HF. revert d Hcap HF. revert reads. induction items as [|o items IH]; intros reads d Hcap HF; cbn [Detokenizer.collect].
  { apply Forall2_nil_inv_l in HF as ->. exists d. split; [done|]. split; [intros o []%elem_of_nil|done]. }
  apply Forall2_cons_inv_l in HF as (r & rest & Hr & HF & ->). rewrite fmap_cons, NoDup_cons in Hnd. destruct Hnd as [Hn Hnd].
  assert (zlen (o :: items) = zlen items + 1) as El by (unfold zlen; cbn [length]; lia). pose proof (zlen_nonneg items).
  set (s := opened (find_state (to_rid o) d) o).
  rewrite open_spec by lia. fold s.
  set (d1 := put_state (to_rid o) s d). assert (∀ o', o' ∈ items → find_state (to_rid o') d1 = find_state (to_rid o') d) as Hsame.
  { intros o' Ho'. apply find_put_ne. intros E. apply Hn. rewrite <- E. by apply list_elem_of_fmap_2. }
  fold s in Hr. unfold read_row in Hr. apply rbind_Ok in Hr as (read & -> & [= <-]). cbn [rbind].
  destruct (IH Hnd rest d1) as (d' & -> & H1 & H2).
  { pose proof (put_state_length (to_rid o) s d). fold d1 in H0. lia. }
  { eapply Forall2_impl_in; [exact HF|]. intros o' r' Ho' Hr'. by rewrite Hsame. }
  cbn [rbind]. exists d'. split; [|split].
  - f_equal. f_equal. f_equal. cbn [fmap list_fmap]. f_equal. apply list_fmap_ext. intros i o' Ho'. rewrite Hsame; [done|by eapply list_elem_of_lookup_2].
  - intros o' [->|Ho']%elem_of_cons; [rewrite H2 by done; by apply find_put_eq|]. rewrite H1 by done. by rewrite Hsame.
  - intros rid Hrid. rewrite fmap_cons, not_elem_of_cons in Hrid. destruct Hrid. rewrite H2 by done. by apply find_put_ne.
Qed.

Lemma emit_spec items reads d : NoDup (to_rid <$> items) → length reads = length items →
  (∀ o, o ∈ items → is_Some (find_state (to_rid o) d)) →
  ∃ outs d', emit items (the_text <$> reads) ((λ o, the_text (surr_row (default (new_status [] [] 0) (find_state (to_rid o) d)) o)) <$> items) d = Ok (outs, d') ∧
    Forall2 (λ e out, ∃ s, find_state (to_rid e.1) d = Some s ∧ finish_item s e.2 e.1 = (out, find_state (to_rid e.1) d')) (zip items reads) outs ∧
    (∀ rid, rid ∉ to_rid <$> items → find_state rid d' = find_state rid d).
Proof.
  revert reads d. induction items as [|o items IH]; intros reads d Hnd Hl Hs; cbn [Detokenizer.emit fmap list_fmap].
  { exists [], d. destruct reads; [|done]. split; [done|]. by split. }
  destruct reads as [|r reads]; [done|]. rewrite fmap_cons, NoDup_cons in Hnd. destruct Hnd as [Hn Hnd].
  destruct (Hs o ltac:(by left)) as [s Es]. rewrite Es. cbn [default fmap list_fmap].
  set (d1 := match (finish_item s r o).2 with Some s => put_state (to_rid o) s d | None => del_item (to_rid o) d end).
  assert (∀ rid, rid ≠ to_rid o → find_state rid d1 = find_state rid d) as Hne.
  { intros rid Hrid. unfold d1. destruct (finish_item s r o).2; [by apply find_put_ne|by apply find_del_ne]. }
  assert (find_state (to_rid o) d1 = (finish_item s r o).2) as He.
  { unfold d1. destruct (finish_item s r o).2; [apply find_put_eq|apply find_del_eq]. }
  assert (∀ o', o' ∈ items → find_state (to_rid o') d1 = find_state (to_rid o') d) as Hsame.
  { intros o' Ho'. apply Hne. intros E. apply Hn. rewrite <- E. by apply list_elem_of_fmap_2. }
  destruct (IH reads d1) as (outs & d' & E & HF & Hrest); [done|by injection Hl| |].
  { intros o' Ho'. rewrite Hsame by done. apply Hs. by right. }
  change (id s) with s.
  assert (emit_one is_fast batch_decode decode_plain special_ids o s (the_text (surr_row s o)) (pydrop (the_text r) (zlen (the_text (surr_row s o)))) d
          = ((finish_item s r o).1, d1)) as ->.
  { unfold d1, emit_one, finish_item. destruct (to_finished o); [done|]. by destruct (stream_text _ _ _ _ _ _ _ _ _). }
  assert (((λ o, the_text (surr_row (default (new_status [] [] 0) (find_state (to_rid o) d1)) o)) <$> items)
          = (λ o, the_text (surr_row (default (new_status [] [] 0) (find_state (to_rid o) d)) o)) <$> items) as Ef.
  { apply list_fmap_ext. intros i o' Ho'. rewrite Hsame; [done|by eapply list_elem_of_lookup_2]. }
  rewrite Ef in E. rewrite E. cbn [rbind]. eexists _, d'. split; [reflexivity|]. cbn [zip zip_with]. split.
  - constructor.
    + exists s. cbn [fst snd]. rewrite Hrest by done. split; [done|]. rewrite He. by destruct (finish_item s r o).
    + eapply Forall2_impl_in; [exact HF|]. intros [o' r'] out Hin (s' & Hs' & Hfin). apply elem_of_zip_l in Hin. cbn [fst snd] in *.
      exists s'. rewrite <- Hsame by done. by split.
  - intros rid Hrid. rewrite not_elem_of_cons in Hrid. destruct Hrid. rewrite Hrest by done. by apply Hne.
Qed.

Lemma batch_spec items d results : NoDup (to_rid <$> items) → zlen d + zlen items ≤ capacity →
  Forall2 (λ o r, item_step (find_state (to_rid o) d) o = Ok r) items results →
  ∃ d', _decode_batch_token_id_output is_fast disable_batch_decode gpt vocab_size capacity batch_decode decode decode_plain special_ids items d
        = Ok (results.*1, d') ∧
    Forall2 (λ o r, find_state (to_rid o) d' = r.2) items results ∧ ∀ rid, rid ∉ to_rid <$> items → find_state rid d' = find_state rid d.
Proof.
  intros Hnd Hcap HF.
  assert (∃ reads, Forall2 (λ o r, read_row (opened (find_state (to_rid o) d) o) o = Ok r) items reads ∧
    Forall2 (λ e r, finish_item (opened (find_state (to_rid e.1) d) e.1) e.2 e.1 = r) (zip items reads) results) as (reads & Hreads & Hfin).
  { clear Hnd Hcap. induction HF as [|o r items results Hr _ (reads & H1 & H2)]; [by exists []|].
    unfold item_step in Hr. apply rbind_Ok in Hr as (read & Hread & [= <-]). exists (read :: reads). by split; constructor. }
  destruct (collect_spec items d reads Hnd Hcap Hreads) as (d1 & E & Hd1 & Hother). unfold _decode_batch_token_id_output. rewrite E. cbn [rbind].
  rewrite !decode_batch_spec. destruct (emit_spec items reads d1 Hnd) as (outs & d' & Ee & HFe & Hrest).
  { symmetry. by eapply Forall2_length. } { intros o Ho. rewrite Hd1 by done. by eexists. }
  assert ((the_text <$> ((λ o, surr_row (opened (find_state (to_rid o) d) o) o) <$> items))
     = (λ o, the_text (surr_row (default (new_status [] [] 0) (find_state (to_rid o) d1)) o)) <$> items) as ->.
  { rewrite <- list_fmap_compose. apply list_fmap_ext. intros i o Ho. cbn. rewrite Hd1; [done|by eapply list_elem_of_lookup_2]. }
  rewrite Ee. exists d'. assert (Forall2 (λ o r, find_state (to_rid o) d' = r.2) items results ∧ outs = results.*1) as [H1 ->].
  { clear -HFe Hfin Hreads Hd1. revert outs results HFe Hfin. induction Hreads as [|o r items reads _ _ IH]; intros outs results HFe Hfin; cbn [zip zip_with] in *.
    - apply Forall2_nil_inv_l in HFe as ->. apply Forall2_nil_inv_l in Hfin as ->. by split.
    - apply Forall2_cons_inv_l in HFe as (out & outs' & (s & Hs & Hf) & HFe & ->). apply Forall2_cons_inv_l in Hfin as (res & results' & Hres & Hfin & ->).
      cbn [fst snd] in *. rewrite Hd1 in Hs by (by left). injection Hs as <-. rewrite Hf in Hres. subst res.
      destruct (IH ltac:(intros; apply Hd1; by right) _ _ HFe Hfin) as [H1 ->]. split; [by constructor|done]. }
  split; [done|]. split; [done|]. intros rid Hrid. by rewrite Hrest, Hother.
Qed.
End batch.

(** ** The property *)

(** C23: while the table of states has room, a batch with distinct requests returns
    for each of them the text and leaves the state that the request alone would
    give, and touches no other request. *)
Theorem batch_is_per_request is_fast disable_batch_decode gpt vocab_size capacity batch_decode decode decode_plain special_ids items d results :
  (∀ l skip space, batch_decode l skip space = (λ ids, decode ids skip space) <$> l) → NoDup (to_rid <$> items) → zlen d + zlen items ≤ capacity →
  Forall2 (λ o r, item_step is_fast disable_batch_decode gpt vocab_size batch_decode decode decode_plain special_ids (find_state (to_rid o) d) o = Ok r) items results →
  ∃ d', _decode_batch_token_id_output is_fast disable_batch_decode gpt vocab_size capacity batch_decode decode decode_plain special_ids items d
        = Ok (results.*1, d') ∧
    Forall2 (λ o r, find_state (to_rid o) d' = r.2) items results ∧ ∀ rid, rid ∉ to_rid <$> items → find_state rid d' = find_state rid d.
Proof. intros. by apply batch_spec. Qed.

(** ** On concrete inputs *)

(** Bytes 1 and 2 are the halves of a character; the others stand for themselves. *)
Fixpoint half_decode (bytes : list Z) : text :=
  match bytes with
  | [] => []
  | 1 :: bytes =>
      match bytes with
      | 2 :: bytes => 233 :: half_decode bytes
      | _ => FFFD :: half_decode bytes
      end
  | b :: bytes => (if (b =? 2) || (128 <=? b) then FFFD else b) :: half_decode bytes
  end.

Lemma half_other x l : x ≠ 1 → half_decode (x :: l) = (if (x =? 2) || (128 <=? x) then FFFD else x) :: half_decode l.
Proof. intros. by destruct x as [|[| |]|]. Qed.
Lemma half_first y l : y ≠ 2 → half_decode (1 :: y :: l) = FFFD :: half_decode (y :: l).
Proof. intros. by destruct y as [|[|[| |]|]|]. Qed.

(** A text splits anywhere but after a first half. *)
Lemma half_split a : (∀ b, half_decode (a ++ b) = half_decode a ++ half_decode b) ∨
  (∃ c, half_decode a = half_decode c ++ [FFFD] ∧ ∀ b, half_decode (a ++ b) = half_decode c ++ half_decode (1 :: b)).
Proof.
  remember (length a) as n eqn:En. revert a En. induction n as [n IH] using lt_wf_ind. intros a ->.
  assert (∀ (h : text) r, (length r < length a)%nat → (∀ b, half_decode (a ++ b) = h ++ half_decode (r ++ b)) →
    (∃ c', ∀ c, half_decode (c' ++ c) = h ++ half_decode c) →
    (∀ b, half_decode (a ++ b) = half_decode a ++ half_decode b) ∨
    (∃ c, half_decode a = half_decode c ++ [FFFD] ∧ ∀ b, half_decode (a ++ b) = half_decode c ++ half_decode (1 :: b))) as Hstep.
  { intros h r Hr E [c' Ec']. pose proof (E []) as E0. rewrite !app_nil_r in E0. destruct (IH (length r) Hr r eq_refl) as [H|(c & H1 & H2)].
    - left. intros b. by rewrite E, E0, H, app_assoc.
    - right. exists (c' ++ c). rewrite E0, H1, Ec', app_assoc. split; [done|]. intros b. by rewrite E, H2, app_assoc. }
  destruct a as [|x a]; [by left|]. destruct (decide (x = 1)) as [->|Hx].
  - destruct a as [|y a]; [right; exists []; by split|]. destruct (decide (y = 2)) as [->|Hy].
    + apply (Hstep [233] a); [cbn; lia|done|by exists [1; 2]].
    + apply (Hstep [FFFD] (y :: a)); [cbn; lia| |by exists [2]]. intros b. by apply half_first.
  - apply (Hstep [if (x =? 2) || (128 <=? x) then FFFD else x] a); [cbn; lia|intros b; by apply half_other|].
    exists [x]. intros c. by apply half_other.
Qed.

Lemma half_char_decoder : char_decoder half_decode.
Proof.
  split.
  - intros a b He. destruct (half_split a) as [H|(c & H & _)]; [done|]. rewrite H in He. unfold ends_with in He. by rewrite last_snoc, bool_decide_true in He.
  - intros p a b Hp He. destruct (half_split a) as [H|(c & H & Hb)]; [rewrite H; by apply prefix_app_r|]. rewrite Hb. rewrite H in Hp.
    apply prefix_app_r. destruct Hp as [k Hk]. destruct k as [|x k _] using rev_ind; [|rewrite app_assoc in Hk; apply app_inj_tail in Hk as [-> _]; by exists k].
    rewrite app_nil_r in Hk. rewrite <- Hk in He. unfold ends_with in He. by rewrite last_snoc, bool_decide_true in He.
Qed.

(** A fast tokenizer whose ids are bytes. *)
Definition half_batch (l : list (list Z)) (_ _ : bool) : list text := half_decode <$> l.
Lemma half_row ids skip space : decode_row true half_batch half_decode None ids skip space = half_decode ids.
Proof.
  rewrite (decode_row_spec true half_batch (λ ids _ _, half_decode ids)) by done. unfold row_text_or_empty. cbn [fst snd].
  destruct (Z.eqb_spec (zlen ids) 0) as [->%zlen_nil_inv|]; done.
Qed.
Lemma half_row_decoder skip space : char_decoder (λ ids, decode_row true half_batch half_decode None ids skip space).
Proof.
  destruct half_char_decoder as [H1 H2]. split; [intros a b|intros p a b]; rewrite !half_row; auto.
Qed.

Lemma grouped_decode_rowwise_witness :
  _grouped_batch_decode true half_batch half_decode None [([104], (true, true)); ([], (true, true)); ([1; 2], (false, true)); ([105], (true, true))]
  = [[104]; []; [233]; [105]].
Proof. by rewrite (grouped_decode_rowwise true half_batch (λ ids _ _, half_decode ids)). Defined.

(** The prompt is [A]; ["hi "], a first half, a second and a first half, a second
    half are received, then [!]. *)
Definition half_steps : list (list Z) := [[]; [1]; [2; 1]; [2]].
Definition last_message : TokenOut := mkOut "a" [] [33] 0 (Some MNone) false true true.

(** The state before the last message. *)
Definition half_sent : text * DecodeStatus := stream_all true half_batch half_decode None true true half_steps (new_status [] (65 :: txt "hi ") 1).
Lemma half_sent_eq : half_sent = (txt "hi " ++ [233; 233], mkDs [] (65 :: txt "hi " ++ [1; 2; 1; 2]) 6 8 5 0 5 [txt "hi "; [233]; [233]]).
Proof. vm_compute. reflexivity. Qed.
Lemma half_all : stream_all true half_batch half_decode None true true half_steps (new_status [] (65 :: txt "hi ") 1) = (half_sent.1, half_sent.2).
Proof. vm_compute. reflexivity. Qed.
Lemma half_unstuck : unstuck true half_batch half_decode None true true half_steps (new_status [] (65 :: txt "hi ") 1).
Proof. by vm_compute. Qed.
Lemma half_kept : trim_matched_ids false (pydrop (ds_ids half_sent.2 ++ [33]) (ds_surr half_sent.2)) (to_finished last_message) (to_no_stop_trim last_message)
  = Ok [1; 2; 33].
Proof. vm_compute. reflexivity. Qed.

Lemma streamed_text_exact_witness : ∃ whole,
  half_decode ((65 :: txt "hi ") ++ [1; 2; 1; 2] ++ [33]) = half_decode [65] ++ whole ∧ whole = txt "hi " ++ [233; 233; 33].
Proof.
  destruct (streamed_text_exact true half_batch half_decode None true true false (65 :: txt "hi ") 1 half_steps half_sent.1 half_sent.2 [33] last_message [1; 2; 33])
    as (x' & whole & [->|[[z Hz] _]] & Hw & _).
  - apply half_row_decoder.
  - by vm_compute.
  - by vm_compute.
  - apply half_unstuck.
  - apply half_all.
  - done.
  - apply half_kept.
  - rewrite !half_row in Hw. exists whole. split; [exact Hw|]. vm_compute in Hw. injection Hw as <-. reflexivity.
  - done.
Defined.

(** Two requests, one known, with different flags. *)
Definition half_table : states := [("a"%string, half_sent.2)].
Definition half_items : list TokenOut := [mkOut "a" [] [33] 0 (Some MNone) false true true; mkOut "b" [] [65; 104] 1 None false false true].
Abbreviation half_step := (item_step true false false None half_batch (λ ids _ _, half_decode ids) half_decode None).

Lemma batch_is_per_request_witness : ∃ d',
  _decode_batch_token_id_output true false false None 3 half_batch (λ ids _ _, half_decode ids) half_decode None half_items half_table = Ok ([[33]; [104]], d') ∧
  find_state "a" d' = None.
Proof.
  destruct (batch_is_per_request true false false None 3 half_batch (λ ids _ _, half_decode ids) half_decode None half_items half_table
    [([33], None); ([104], Some (mkDs [] [65; 104] 1 2 1 0 1 [[104]]))]) as (d' & E & HF & _).
  - done.
  - apply (bool_decide_unpack _). by vm_compute.
  - by vm_compute.
  - repeat constructor; by vm_compute.
  - exists d'. split; [exact E|]. inversion HF as [|? ? ? ? Ha _]. exact Ha.
Defined.

(** The table holds one state: the first request of the batch is evicted before its
    text is written. *)
Example evicted_state_raises :
  _decode_batch_token_id_output true false false None 1 half_batch (λ ids _ _, half_decode ids) half_decode None
    [mkOut "a" [] [65; 104] 1 None false true true; mkOut "b" [] [65; 104] 1 None false true true] [] = Raise RuntimeError.
Proof. vm_compute. reflexivity. Qed.

(** ** Text sent twice *)

(** Token 7 is ["hi "], a CJK character and a first half, token 8 a second and a
    first half. *)
Fixpoint cjk_bytes (bytes : list Z) : text :=
  match bytes with
  | [] => []
  | 1 :: bytes => match bytes with 2 :: bytes => 233 :: cjk_bytes bytes | _ => FFFD :: cjk_bytes bytes end
  | b :: bytes => b :: cjk_bytes bytes
  end.
Definition cjk_decode (ids : list Z) : text :=
  cjk_bytes (concat (map (λ i, if i =? 7 then txt "hi " ++ [20013; 1] else if i =? 8 then [2; 1] else [i]) ids)).
Definition cjk_batch (l : list (list Z)) (_ _ : bool) : list text := cjk_decode <$> l.

(** After the second message the printable text is shorter than what was sent, the
    sent position moves back, and the CJK character is sent again. *)
Example stream_repeats_text :
  (stream_all true cjk_batch cjk_decode None true true [[7]; [8]; [2]] (new_status [] [65] 1)).1 = txt "hi " ++ [20013; 20013; 233; 233] ∧
  cjk_decode [65; 7; 8; 2] = [65] ++ txt "hi " ++ [20013; 233; 233].
Proof. split; vm_compute; reflexivity. Qed.
