(* ===== verification/WeightVersions.v ===== *)
(** * Weight versions of a request's tokens ([utils/weight_versions.py])

    When the weights change while requests run, each request that has output
    records the old version and how many tokens it had.  At its end the events
    become spans: which tokens came from which version.  [version_at] says it
    token by token; the spans tile the output and agree with it. *)
From S2P Require Import Prelude.

Record WeightVersionEvent := mkWv { old_version : string; ev_tokens : Z (* num_output_tokens *) }.
Record WeightVersionSpan := mkSpan { sp_version : string; sp_start : Z; sp_end : Z }.

(** [record_weight_version_events] for one request with [n] output tokens. *)
Definition record_weight_version_event (version : string) (n : Z) (events : list WeightVersionEvent) :
    list WeightVersionEvent * Z :=
  if 0 <? n then (events ++ [mkWv version n], 1) else (events, 0).

Definition record_weight_version_events (version : string) (reqs : list (Z * list WeightVersionEvent)) :
    Z * list (Z * list WeightVersionEvent) :=
  foldl (λ st r, let (events, k) := record_weight_version_event version r.1 r.2 in (st.1 + k, st.2 ++ [(r.1, events)])) (0, []) reqs.

Definition truncate_weight_version_events (events : list WeightVersionEvent) (num_kept_tokens : Z) : list WeightVersionEvent :=
  List.filter (λ e, 0 <? ev_tokens e) ((λ e, mkWv (old_version e) (Z.min (ev_tokens e) num_kept_tokens)) <$> events).

(** One round of the loop over the changes; the spans built so far, last first. *)
Definition add_change (n : Z) (spans : list WeightVersionSpan) (change : string * Z) : list WeightVersionSpan :=
  let '(version, e) := change in
  let e := Z.min e n in
  match spans with
  | [] => [mkSpan version 0 e]
  | s :: rest =>
      if e <=? sp_end s then spans
      else if bool_decide (version = sp_version s) then mkSpan (sp_version s) (sp_start s) e :: rest
      else mkSpan version (sp_end s) e :: spans
  end.

Definition compute_weight_version_spans (events : list WeightVersionEvent) (current_version : string)
    (num_output_tokens : Z) : list WeightVersionSpan :=
  let changes := ((λ e, (old_version e, ev_tokens e)) <$> events) ++ [(current_version, num_output_tokens)] in
  rev (foldl (add_change num_output_tokens) [] changes).

(** [add_weight_versions_to_meta_info]: the spans of the tokens that are shown,
    and the version of the last of them. *)
Definition visible_spans (spans : list WeightVersionSpan) (num_output_tokens : Z) : list WeightVersionSpan :=
  List.filter (λ s, (sp_start s <? num_output_tokens) || (sp_start s =? 0)) spans.
Definition add_weight_versions_to_meta_info (spans : list WeightVersionSpan) (num_output_tokens : Z) :
    result (list WeightVersionSpan * string) :=
  let visible := visible_spans spans num_output_tokens in
  match last visible with
  | Some s => Ok ((λ s, mkSpan (sp_version s) (sp_start s) (Z.min (sp_end s) num_output_tokens)) <$> visible, sp_version s)
  | None => Raise IndexError
  end.

(** ** What the spans mean *)

(** The version that produced token [t]: that of the first change after it. *)
Fixpoint version_at (events : list WeightVersionEvent) (current : string) (t : Z) : string :=
  match events with
  | [] => current
  | e :: events => if t <? ev_tokens e then old_version e else version_at events current t
  end.

(** Spans, last first, that cover the tokens from 0 to [e] without gaps. *)
Fixpoint tiles (spans : list WeightVersionSpan) (e : Z) : Prop :=
  match spans with
  | [] => e = 0
  | s :: rest => sp_end s = e ∧ sp_start s ≤ e ∧ (rest = [] → sp_start s = 0) ∧ (rest ≠ [] → sp_start s < e ∧ tiles rest (sp_start s))
  end.

Definition covers (spans : list WeightVersionSpan) (t : Z) (version : string) : Prop :=
  ∃ s, s ∈ spans ∧ sp_start s ≤ t < sp_end s ∧ sp_version s = version.

(** Up to where the changes seen so far reach. *)
Definition reach (n : Z) (changes : list (string * Z)) : Z := foldl (λ m c, Z.max m (Z.min c.2 n)) 0 changes.

(** The version of a token by the changes alone. *)
Fixpoint change_at (changes : list (string * Z)) (t : Z) : option string :=
  match changes with
  | [] => None
  | c :: changes => if t <? c.2 then Some c.1 else change_at changes t
  end.

Lemma change_at_snoc changes c t :
  change_at (changes ++ [c]) t = match change_at changes t with Some v => Some v | None => if t <? c.2 then Some c.1 else None end.
Proof. induction changes as [|d changes IH]; cbn; [done|]. by destruct (t <? d.2). Qed.

(** The state of the loop: the spans tile what the changes reach and give each
    token there its version. *)
Record spans_ok (n : Z) (changes : list (string * Z)) (spans : list WeightVersionSpan) : Prop := {
  so_tiles : tiles spans (reach n changes);
  so_nil : spans = [] → changes = [];
  so_at : ∀ t, 0 ≤ t < n → (t < reach n changes ↔ change_at changes t ≠ None) ∧
               ∀ v, change_at changes t = Some v → covers spans t v
}.

Lemma reach_snoc n changes c : reach n (changes ++ [c]) = Z.max (reach n changes) (Z.min c.2 n).
Proof. unfold reach. by rewrite foldl_app. Qed.

Lemma covers_cons s spans t v : covers spans t v → covers (s :: spans) t v.
Proof. intros (x & Hx & H). exists x. split; [by right|done]. Qed.

Lemma covers_head s spans t : sp_start s ≤ t < sp_end s → covers (s :: spans) t (sp_version s).
Proof. intros H. exists s. split; [by left|done]. Qed.

(** Growing the last span loses no token. *)
Lemma covers_grow s rest e t v : sp_end s ≤ e → covers (s :: rest) t v → covers (mkSpan (sp_version s) (sp_start s) e :: rest) t v.
Proof.
  intros He (x & [->|Hx]%elem_of_cons & Hr & Hv).
  - exists (mkSpan (sp_version s) (sp_start s) e). split; [by left|]. cbn. split; [lia|done].
  - exists x. split; [by right|done].
Qed.

Lemma add_change_ok n changes spans c : 0 ≤ n → 0 ≤ c.2 → spans_ok n changes spans →
  spans_ok n (changes ++ [c]) (add_change n spans c).
Proof.
  intros Hn Hc [Ht Hnil Hat]. destruct c as [v e]. cbn in Hc. unfold add_change. set (e' := Z.min e n).
  assert (∀ t, 0 ≤ t < n → (t < reach n (changes ++ [(v, e)]) ↔ change_at (changes ++ [(v, e)]) t ≠ None)) as Hreach.
  { intros t Htn. rewrite reach_snoc, change_at_snoc. cbn [fst snd]. destruct (Hat t Htn) as [H _].
    destruct (change_at changes t); [split; [done|]; intros _; apply Z.max_lt_iff; left; by apply H|].
    assert (¬ t < reach n changes) by (intros ?%H; done). destruct (Z.ltb_spec t e); split; intros; try done; lia. }
  assert (∀ spans', tiles spans' (Z.max (reach n changes) e') → spans' ≠ [] →
    (∀ t w, 0 ≤ t < n → covers spans t w → covers spans' t w) →
    (∀ t, 0 ≤ t < n → reach n changes ≤ t < e → covers spans' t v) → spans_ok n (changes ++ [(v, e)]) spans') as Hfin.
  { intros spans' H1 H2 H3 H4. split; [by rewrite reach_snoc|done|]. intros t Htn. split; [by apply Hreach|]. intros w.
    rewrite change_at_snoc. cbn [fst snd]. destruct (Hat t Htn) as [Hr Hv]. destruct (change_at changes t) as [w'|] eqn:E.
    - intros [= ->]. apply H3; [done|]. by apply Hv.
    - destruct (Z.ltb_spec t e); [|done]. intros [= <-]. apply H4; [done|]. split; [|done].
      destruct (decide (t < reach n changes)) as [Hl%Hr|]; [done|lia]. }
  destruct spans as [|s rest].
  - rewrite (Hnil eq_refl) in *. cbn in *. apply Hfin; cbn; [|done| |].
    + unfold e'. split_and!; lia || done.
    + intros t w _ (x & Hx & _). by apply elem_of_nil in Hx.
    + intros t Htn Hr. apply (covers_head (mkSpan v 0 e')). cbn. unfold e'. lia.
  - destruct Ht as (Ee & Hse & Hs0 & Hrest). destruct (Z.leb_spec e' (sp_end s)) as [Hle|Hgt].
    + apply Hfin; [|done|done|]; [rewrite Z.max_l by lia; by split|]. intros t Htn Hr. unfold e' in Hle. lia.
    + case_bool_decide as Ev.
      * apply Hfin; cbn; [|done| |].
        -- rewrite Z.max_r by lia. split; [done|]. split; [lia|]. split; [done|]. intros Hr. destruct (Hrest Hr). split; [lia|done].
        -- intros t w _. apply covers_grow. lia.
        -- intros t Htn Hr. subst v. apply (covers_head (mkSpan (sp_version s) (sp_start s) e')). cbn. unfold e'. lia.
      * apply Hfin; cbn [tiles sp_end sp_start]; [|done| |].
        -- rewrite Z.max_r by lia. split; [done|]. split; [lia|]. split; [done|]. intros _. split; [lia|]. rewrite Ee. by split_and!.
        -- intros t w _. apply covers_cons.
        -- intros t Htn Hr. apply (covers_head (mkSpan v (sp_end s) e')). cbn. unfold e'. lia.
Qed.

Lemma changes_ok n changes : 0 ≤ n → Forall (λ c, 0 ≤ c.2) changes → spans_ok n changes (foldl (add_change n) [] changes).
Proof.
  intros Hn. induction changes as [|c changes IH] using rev_ind; intros Hf.
  - split; [done..|]. intros t Ht. cbn. split; [|done]. split; [lia|done].
  - rewrite foldl_app. cbn. apply Forall_app in Hf as [Hf Hc]. inversion_clear Hc. apply add_change_ok; [done|done|by apply IH].
Qed.

Lemma version_at_change events current n t : t < n →
  change_at (((λ e, (old_version e, ev_tokens e)) <$> events) ++ [(current, n)]) t = Some (version_at events current t).
Proof.
  intros Ht. induction events as [|e events IH]; cbn.
  - by rewrite (proj2 (Z.ltb_lt _ _) Ht).
  - destruct (t <? ev_tokens e); [done|]. apply IH.
Qed.

(** The spans reported for a request cover its output tokens without gap or
    overlap, and every token lies in a span of the version that produced it. *)
Theorem spans_exact events current n : 0 ≤ n → Forall (λ e, 0 ≤ ev_tokens e) events →
  let spans := compute_weight_version_spans events current n in
  tiles (rev spans) n ∧ ∀ t, 0 ≤ t < n → covers spans t (version_at events current t).
Proof.
  intros Hn Hf spans. unfold spans, compute_weight_version_spans. rewrite rev_involutive.
  destruct (changes_ok n (((λ e, (old_version e, ev_tokens e)) <$> events) ++ [(current, n)])) as [Ht _ Hat]; [done| |].
  { apply Forall_app. split; [by apply Forall_fmap|]. by constructor. }
  split.
  - rewrite reach_snoc in Ht. cbn [snd] in Ht. rewrite Z.min_id in Ht. rewrite Z.max_r in Ht; [done|].
    generalize ((λ e, (old_version e, ev_tokens e)) <$> events). intros l. unfold reach.
    induction l as [|c l IH] using rev_ind; [cbn; lia|]. rewrite foldl_app. cbn. lia.
  - intros t Htn. destruct (Hat t Htn) as [_ Hv]. destruct (Hv _ (version_at_change events current n t ltac:(lia))) as (s & Hs & H).
    exists s. split; [|done]. apply list_elem_of_In; rewrite <- in_rev; by apply list_elem_of_In.
Qed.
