(* ===== verification/Streamer.v ===== *)
(** * Sending output to the detokenizer ([scheduler_components/output_streamer.py])

    After a step the streamer goes over the batch and decides, request by
    request, whether to send: always when the request is done (once), every
    [stream_interval] tokens while it streams and no stop string may have begun,
    and at a fixed interval otherwise.  What is sent continues where the last
    message ended: output ids, ids to decode, log probabilities, and the per-token
    values of models that add their own.

    The accumulator's parallel lists are one list of entries; [customized_info]
    stays a dict of lists, since its lists start late and are padded.  Values the
    streamer only passes on are of a type [V].  Copies that depend on nothing here
    (counters, timings, routed experts, sampling masks, beams, speculation) are
    left out. *)
From S2P Require Import Prelude Text Finish Detokenizer WeightVersions.

(** ** Requests *)

Section values.
Context {V : Type}.

(** The prompt's log probabilities, once computed. *)
Record InputLogprobs := mkInLp {
  input_token_logprobs_val : option V;
  input_token_logprobs_idx : option V;
  input_top_logprobs_val : option V;
  input_top_logprobs_idx : option V;
  input_top_logprobs_val_flat : option V;
  input_top_logprobs_idx_flat : option V;
  input_top_logprobs_flat_null_prefix : option V;
  input_token_ids_logprobs_val : option V;
  input_token_ids_logprobs_idx : option V
}.

(** Those of the output, one value per token. *)
Record OutputLogprobs := mkOutLp {
  output_token_logprobs_val : list V;
  output_token_logprobs_idx : list V;
  output_top_logprobs_val : list V;
  output_top_logprobs_idx : list V;
  output_token_ids_logprobs_val : list V;
  output_token_ids_logprobs_idx : list V
}.

Inductive hidden_mode := HiddenNo | HiddenLast | HiddenAll.

(** What the streamer remembers of a request. *)
Record SendState := mkSend {
  finished_output : bool;
  send_token_offset : Z;
  send_decode_id_offset : Z;
  input_logprob_sent : bool;
  send_output_token_logprobs_offset : Z
}.

Record StreamReq := mkStream {
  s_rid : string;
  s_fin : FinReq;
  s_params : SamplingParams;
  s_tokenizer : option Tokenizer;
  s_stream : bool;
  s_stream_interval : option Z;
  s_skip_special_tokens : bool;
  s_spaces_between_special_tokens : bool;
  s_no_stop_trim : bool;
  s_prompt_tokens : Z;                      (* len(origin_input_ids) *)
  s_send : SendState;
  s_is_retracted : bool;
  s_return_logprob : bool;
  s_input_logprobs : InputLogprobs;
  s_output_logprobs : OutputLogprobs;
  s_return_hidden_states : hidden_mode;
  s_hidden_states : list V;
  s_customized_info : option (list (string * option (list V)));
  s_weight_version_events : list WeightVersionEvent
}.

Definition with_fin (f : FinReq) (r : StreamReq) : StreamReq :=
  mkStream (s_rid r) f (s_params r) (s_tokenizer r) (s_stream r) (s_stream_interval r) (s_skip_special_tokens r)
    (s_spaces_between_special_tokens r) (s_no_stop_trim r) (s_prompt_tokens r) (s_send r) (s_is_retracted r) (s_return_logprob r)
    (s_input_logprobs r) (s_output_logprobs r) (s_return_hidden_states r) (s_hidden_states r) (s_customized_info r)
    (s_weight_version_events r).
Definition with_send (s : SendState) (r : StreamReq) : StreamReq :=
  mkStream (s_rid r) (s_fin r) (s_params r) (s_tokenizer r) (s_stream r) (s_stream_interval r) (s_skip_special_tokens r)
    (s_spaces_between_special_tokens r) (s_no_stop_trim r) (s_prompt_tokens r) s (s_is_retracted r) (s_return_logprob r)
    (s_input_logprobs r) (s_output_logprobs r) (s_return_hidden_states r) (s_hidden_states r) (s_customized_info r)
    (s_weight_version_events r).

(** ** Messages *)

Inductive logprob_entry (A : Type) := LpOff | LpEmpty | LpSent (a : A).
Arguments LpOff {A}.
Arguments LpEmpty {A}.
Arguments LpSent {A} a.

(** What one request adds to the parallel lists.  [en_detok] are the fields for
    the detokenizer of Python: decoded text, ids to decode, offset, completion
    tokens; in the mode of the Rust server they are left out. *)
Record Entry := mkEntry {
  en_req : StreamReq;
  en_finished_reason : option finish_reason;
  en_output_ids : list Z;
  en_prompt_tokens : Z;
  en_detok : option (text * list Z * Z * Z);
  en_weight_versions : option (list WeightVersionSpan);
  en_input_logprobs : logprob_entry InputLogprobs;
  en_output_logprobs : logprob_entry OutputLogprobs;
  en_hidden_states : option (list V)
}.

(** [customized_info]: keys in the order they were met; one list per request. *)
Abbreviation info := (list (string * list (list (option V)))).

Record Accumulator := mkAcc { acc_entries : list Entry; acc_info : info }.

Section streamer.
Context (default_stream_interval default_force_stream_interval : Z) (current_weight_version : string).
(** The flags of the batch, the mode of a decode server, and the Rust server. *)
Context (return_logprob return_hidden_states decode_server rust_server_mode : bool).
Context (is_request_level_customized_info_key : string → bool).

(** [req.sampling_params.stream_interval or default]. *)
Definition stream_interval_of (r : StreamReq) : Z :=
  match s_stream_interval r with Some n => if n =? 0 then default_stream_interval else n | None => default_stream_interval end.

(** Whether a request that goes on sends now. *)
Definition should_output (r : StreamReq) : result bool :=
  let n := zlen (output_ids (s_fin r)) in
  if s_stream r then
    let stream_interval := stream_interval_of r in
    let num_unsent := n - send_token_offset (s_send r) in
    if (stream_interval =? 1) || (stream_interval <=? num_unsent)
       || ((send_token_offset (s_send r) =? 0) && (0 <? num_unsent))
    then let! b := check_match_stop_str_prefix (s_params r) (s_tokenizer r) (s_fin r) in Ok (negb b)
    else Ok false
  else Ok (n mod default_force_stream_interval =? 0).

(** The first part of [accept]: a request that is done is marked and sent. *)
Definition admit_output (r : StreamReq) : result (bool * StreamReq) :=
  let s := s_send r in
  if finished (s_fin r) then
    assert! negb (finished_output s) in
    let f := s_fin r in
    let f := match finished_len f with
             | Some _ => f
             | None => mkFin (origin_input_ids_unpadded f) (output_ids f) (finished_reason f) (Some (zlen (output_ids f)))
                         (to_finish f) (decoded_text f) (surr_offset f) (read_offset f) (surr_and_decode_ids f) (cur_decode_ids_len f)
             end in
    Ok (true, with_send (mkSend true (send_token_offset s) (send_decode_id_offset s) (input_logprob_sent s)
                           (send_output_token_logprobs_offset s)) (with_fin f r))
  else let! b := should_output r in Ok (b, r).

(** The slices of the six output lists. *)
Definition slice_logprobs (lp : OutputLogprobs) (a b : Z) : OutputLogprobs :=
  mkOutLp (pyslice (output_token_logprobs_val lp) a b) (pyslice (output_token_logprobs_idx lp) a b)
    (pyslice (output_top_logprobs_val lp) a b) (pyslice (output_top_logprobs_idx lp) a b)
    (pyslice (output_token_ids_logprobs_val lp) a b) (pyslice (output_token_ids_logprobs_idx lp) a b).

(** The prompt's log probabilities are sent once, when there are any. *)
Definition input_logprob_entry (r : StreamReq) : logprob_entry InputLogprobs * bool :=
  if negb return_logprob then (LpOff, input_logprob_sent (s_send r))
  else if s_return_logprob r && negb (input_logprob_sent (s_send r)) && negb decode_server
          && match input_token_logprobs_val (s_input_logprobs r) with Some _ => true | None => false end
  then (LpSent (s_input_logprobs r), true)
  else (LpEmpty, input_logprob_sent (s_send r)).

(** The output's, from where the last message ended; [n] output ids are out. *)
Definition output_logprob_entry (r : StreamReq) (n : Z) : logprob_entry OutputLogprobs * Z :=
  let from := send_output_token_logprobs_offset (s_send r) in
  if negb return_logprob then (LpOff, from)
  else if s_return_logprob r then
    let logprob_end := if s_is_retracted r then n else Z.max n 1 in
    (LpSent (slice_logprobs (s_output_logprobs r) from logprob_end), logprob_end)
  else (LpEmpty, from).

Definition hidden_entry (r : StreamReq) : option (list V) :=
  if negb return_hidden_states then None
  else match s_return_hidden_states r with
       | HiddenNo => None
       | HiddenLast => option_map (λ v, [v]) (last (s_hidden_states r))
       | HiddenAll => Some (match finished_len (s_fin r) with Some n => pytake (s_hidden_states r) n | None => s_hidden_states r end)
       end.

(** *** Values per token *)

Definition info_has (key : string) (d : info) : bool := existsb (λ e, bool_decide (e.1 = key)) d.
Definition info_push (key : string) (vs : list (option V)) (d : info) : info :=
  (λ e, if bool_decide (e.1 = key) then (key, e.2 ++ [vs]) else e) <$> d.
Definition nones (n : Z) : list (option V) := replicate (Z.to_nat n) None.

(** One key of the request; [prev] are the lengths of the output ids of the
    entries before, [from] and [upto] the range of tokens sent, [done] whether the
    request is done. *)
Definition add_info (prev : list Z) (r : StreamReq) (from upto len : Z) (d : info) (kv : string * option (list V)) : info :=
  let '(key, values) := kv in
  let request_level := is_request_level_customized_info_key key in
  if request_level && (if s_stream r then negb (from =? 0) else negb (finished (s_fin r))) then d
  else
    let d := if info_has key d then d
             else d ++ [(key, (λ n, if request_level then [] else nones n) <$> prev)] in
    info_push key
      (match values with
       | None => if request_level then [] else nones len
       | Some vs => Some <$> (if request_level then vs else pyslice vs from upto)
       end) d.

(** Keys the request does not have. *)
Definition pad_info (entries len : Z) (d : info) : info :=
  (λ e : string * list (list (option V)),
    if zlen e.2 <? entries
    then (e.1, e.2 ++ [if is_request_level_customized_info_key e.1 then [] else nones len]) else e) <$> d.

(** *** One request *)

Definition accept (r : StreamReq) (acc : Accumulator) : result (StreamReq * Accumulator) :=
  let! (send, r) := admit_output r in
  if negb send then Ok (r, acc)
  else
    let s := s_send r in
    let from := send_token_offset s in
    let output_ids_ := through_stop (s_fin r) in
    let n := zlen output_ids_ in
    let new_ids := pydrop output_ids_ from in
    let '(detok, f, decode_offset) :=
      if rust_server_mode then (None, s_fin r, send_decode_id_offset s)
      else
        let '(decode_ids, read_offset, f) := init_incremental_detokenize (s_fin r) in
        (Some (decoded_text (s_fin r), pydrop decode_ids (send_decode_id_offset s), read_offset, n), f, zlen decode_ids) in
    let '(in_lp, in_sent) := input_logprob_entry r in
    let '(out_lp, lp_offset) := output_logprob_entry r n in
    let prev := (λ e, zlen (en_output_ids e)) <$> acc_entries acc in
    let d := match s_customized_info r with
             | None => acc_info acc
             | Some kvs => foldl (add_info prev r from n (zlen new_ids)) (acc_info acc) kvs
             end in
    let d := pad_info (zlen prev + 1) (zlen new_ids) d in
    let e := mkEntry r (finished_reason (s_fin r)) new_ids (s_prompt_tokens r) detok
               (if finished (s_fin r)
                then Some (compute_weight_version_spans (s_weight_version_events r) current_weight_version n) else None)
               in_lp out_lp (hidden_entry r) in
    Ok (with_fin f (with_send (mkSend (finished_output s) n decode_offset in_sent lp_offset) r),
        mkAcc (acc_entries acc ++ [e]) d).

(** *** A batch *)

(** [_stream_output_generation]; [skip] is the position of [skip_req]. *)
Fixpoint stream_loop (skip : option nat) (i : nat) (reqs : list StreamReq) (acc : Accumulator) :
    result (list StreamReq * Accumulator) :=
  match reqs with
  | [] => Ok ([], acc)
  | r :: reqs =>
      let! (r, acc) :=
        if bool_decide (skip = Some i) || (finished (s_fin r) && finished_output (s_send r)) then Ok (r, acc)
        else accept r acc in
      let! (reqs, acc) := stream_loop skip (S i) reqs acc in
      Ok (r :: reqs, acc)
  end.

(** [to_payload]. *)
Definition to_payload (acc : Accumulator) (is_idle_batch : bool) : option Accumulator :=
  if negb (zlen (acc_entries acc) =? 0) || is_idle_batch then Some acc else None.

Definition _stream_output_generation (reqs : list StreamReq) (skip : option nat) (is_idle_batch : bool) :
    result (list StreamReq * option Accumulator) :=
  let! (reqs, acc) := stream_loop skip 0 reqs (mkAcc [] []) in
  Ok (reqs, to_payload acc is_idle_batch).
End streamer.

(** ** What the detokenizer receives *)

(** [finished_reason.to_json()], as far as the detokenizer reads it. *)
Definition to_json (why : finish_reason) : matched_stop :=
  match why with
  | FINISH_MATCHED_TOKEN t => MInt t
  | FINISH_MATCHED_STR s => MStr s
  | FINISHED_MATCHED_REGEX s => MStr s
  | FINISH_LENGTH _ | FINISH_ABORT _ => MNone
  end.

(** The row of an entry in [BatchTokenIDOutput]. *)
Definition token_out (e : Entry) : option TokenOut :=
  match en_detok e with
  | Some (t, ids, read, _) =>
      Some (mkOut (s_rid (en_req e)) t ids read (to_json <$> en_finished_reason e) (s_no_stop_trim (en_req e))
              (s_skip_special_tokens (en_req e)) (s_spaces_between_special_tokens (en_req e)))
  | None => None
  end.
End values.
Arguments StreamReq V : clear implicits.
Arguments Entry V : clear implicits.
Arguments Accumulator V : clear implicits.
Arguments InputLogprobs V : clear implicits.
Arguments OutputLogprobs V : clear implicits.
