(* ===== verification/StreamerTheorems.v ===== *)
(** * What is sent for a request

    The steps of one request (new tokens, finish check, streamer) keep an
    invariant between what was sent and the request's offsets; a batch is its
    requests one by one, and its per-token values are aligned with its ids. *)
From S2P Require Import Prelude Text Finish FinishTheorems Detokenizer DetokTheorems WeightVersions Streamer.

(** ** The finish check leaves the decoding state alone *)

Record same_decode (r r' : FinReq) : Prop := {
  sd_origin : origin_input_ids_unpadded r' = origin_input_ids_unpadded r;
  sd_text : decoded_text r' = decoded_text r;
  sd_surr : surr_offset r' = surr_offset r;
  sd_read : read_offset r' = read_offset r;
  sd_ids : surr_and_decode_ids r' = surr_and_decode_ids r;
  sd_len : cur_decode_ids_len r' = cur_decode_ids_len r
}.

Lemma same_decode_refl r : same_decode r r.
Proof. done. Qed.
Lemma same_decode_trans r1 r2 r3 : same_decode r1 r2 → same_decode r2 r3 → same_decode r1 r3.
Proof. intros [] []. split; congruence. Qed.

Section frame.
Context (sp : SamplingParams) (tokenizer : option Tokenizer) (vocab_size : option Z) (eos_token_ids : list Z).
Context (grammar : option bool) (re_search : text → text → option bool).

Lemma stop_str_frame n tail stops r b r' : stop_str_loop sp tokenizer re_search n tail stops r = Ok (b, r') → same_decode r r' ∧ to_finish r' = to_finish r.
Proof.
  induction stops as [|s stops IH]; cbn [stop_str_loop]; [by intros [= _ <-]|]. destruct (str_in s tail).
  - destruct (_locate_str_stop_finished_len _ _ _ _ _ _); [|done]. by intros [= _ <-].
  - destruct (str_in s _); [by intros [= _ <-]|done].
Qed.

Lemma stop_regex_frame n tail ps r b r' : stop_regex_loop sp tokenizer re_search n tail ps r = Ok (b, r') → same_decode r r' ∧ to_finish r' = to_finish r.
Proof.
  induction ps as [|p ps IH]; cbn [stop_regex_loop]; [by intros [= _ <-]|]. destruct (re_search p tail) as [[|]|]; [| |by intros [= _ <-]].
  - destruct (_locate_str_stop_finished_len _ _ _ _ _ _); [|done]. by intros [= _ <-].
  - done.
Qed.

Lemma str_based_frame n r b r' : _check_str_based_finish sp tokenizer re_search n r = Ok (b, r') → same_decode r r' ∧ to_finish r' = to_finish r.
Proof.
  unfold _check_str_based_finish. destruct (no_stop_text sp); [by intros [= _ <-]|].
  destruct (tail_str _ _ _ _); cbn [rbind]; [|done].
  destruct (stop_str_loop _ _ _ _ _ _ _) as [[b1 r1]|] eqn:E1; cbn [rbind]; [|done]. apply stop_str_frame in E1 as [H1 H2].
  destruct b1; [by intros [= _ <-]|]. intros [H3 H4]%stop_regex_frame. split; [by eapply same_decode_trans|congruence].
Qed.

Lemma cap_frame r : same_decode r (_cap_finished_len_at_max_new_tokens sp r) ∧ to_finish (_cap_finished_len_at_max_new_tokens sp r) = to_finish r.
Proof. unfold _cap_finished_len_at_max_new_tokens. destruct (finished_len r); [|done]. by destruct (_ <? _). Qed.

Lemma update_frame n r r' : to_finish r = None → update_finish_state sp tokenizer vocab_size eos_token_ids grammar re_search n r = Ok r' →
  same_decode r r' ∧ to_finish r' = None.
Proof.
  intros Ht. unfold update_finish_state. rewrite Ht. destruct (finished r); [by intros [= <-]|].
  destruct (_check_vocab_boundary_finish _ _ _ _ _) as [b r1] eqn:E1.
  assert (same_decode r r1 ∧ to_finish r1 = None) as [H1 T1].
  { unfold _check_vocab_boundary_finish in E1. destruct (first_index _ _ _) as [[i t]|]; injection E1 as <- <-; done. }
  destruct b.
  { intros [= <-]. destruct (cap_frame r1). split; [by eapply same_decode_trans|congruence]. }
  destruct (_check_str_based_finish _ _ _ _ _) as [[b r2]|] eqn:E2; cbn [rbind]; [|done]. apply str_based_frame in E2 as [H2 T2].
  pose proof (same_decode_trans _ _ _ H1 H2) as H3. destruct b.
  { intros [= <-]. destruct (cap_frame r2). split; [by eapply same_decode_trans|congruence]. }
  destruct (_check_token_based_finish _ _ _ _ r2) as [b r3] eqn:E3.
  assert (same_decode r2 r3 ∧ to_finish r3 = to_finish r2) as [H4 T4].
  { unfold _check_token_based_finish in E3. destruct (p_ignore_eos sp); [by injection E3 as _ <-|].
    destruct (first_index _ _ _) as [[i t]|]; injection E3 as <- <-; done. }
  pose proof (same_decode_trans _ _ _ H3 H4) as H5. destruct b.
  { intros [= <-]. destruct (cap_frame r3). split; [by eapply same_decode_trans|congruence]. }
  destruct (_ <=? _); [intros [= <-]; split; [by eapply same_decode_trans|]; cbn; congruence|].
  destruct grammar as [[|]|]; [destruct (last _); [|done]|..]; intros [= <-]; (split; [by eapply same_decode_trans|cbn; congruence]).
Qed.
End frame.

(** ** One request at a time *)

Section send.
Context {V : Type}.
Abbreviation Req := (StreamReq V).
Context (default_stream_interval default_force_stream_interval : Z) (current_weight_version : string).
Context (return_logprob return_hidden_states decode_server rust_server_mode : bool) (request_level : string → bool).

(** What a request adds to the message, and the request after it. *)
Definition send_one (r : Req) : result (Req * option (Entry V)) :=
  if finished (s_fin r) && finished_output (s_send r) then Ok (r, None)
  else
    let! (r, acc) := accept default_stream_interval default_force_stream_interval current_weight_version
                       return_logprob return_hidden_states decode_server rust_server_mode request_level r (mkAcc [] []) in
    Ok (r, head (acc_entries acc)).

Abbreviation accept_ := (accept default_stream_interval default_force_stream_interval current_weight_version
                       return_logprob return_hidden_states decode_server rust_server_mode request_level).

(** The entries before do not matter. *)
Lemma accept_any r acc : finished (s_fin r) && finished_output (s_send r) = false →
  match send_one r with
  | Raise e => accept_ r acc = Raise e
  | Ok (r', e) => ∃ d, accept_ r acc = Ok (r', mkAcc (acc_entries acc ++ option_list e) d) ∧ (e = None → d = acc_info acc)
  end.
Proof.
  intros Hf. unfold send_one, accept. rewrite Hf. destruct (admit_output _ _ r) as [[send r1]|]; cbn [rbind]; [|done].
  destruct send; cbn [negb]; [|exists (acc_info acc); cbn; rewrite app_nil_r; by destruct acc].
  destruct (if rust_server_mode then _ else _) as [[detok f] off]. destruct (input_logprob_entry _ _ _) as [il isent].
  destruct (output_logprob_entry _ _ _) as [ol loff]. cbn. eexists. by split.
Qed.

(** The loop over a batch: each request as if alone, the entries in order. *)
Lemma stream_loop_spec skip i reqs acc : 
  match stream_loop default_stream_interval default_force_stream_interval current_weight_version return_logprob return_hidden_states
          decode_server rust_server_mode request_level skip i reqs acc with
  | Raise e => ∃ k r, reqs !! k = Some r ∧ skip ≠ Some (i + k)%nat ∧ send_one r = Raise e
  | Ok (reqs', acc') => ∃ es d, acc' = mkAcc (acc_entries acc ++ omap id es) d ∧ length reqs' = length reqs ∧ length es = length reqs ∧
      ∀ k r, reqs !! k = Some r →
        if decide (skip = Some (i + k)%nat) then reqs' !! k = Some r ∧ es !! k = Some None
        else ∃ r' e, send_one r = Ok (r', e) ∧ reqs' !! k = Some r' ∧ es !! k = Some e
  end.
Proof.
  revert i acc. induction reqs as [|r reqs IH]; intros i acc; cbn [stream_loop].
  { exists [], (acc_info acc). cbn. rewrite app_nil_r. split; [by destruct acc|]. split; [done|]. split; [done|]. intros k r Hk. done. }
  set (step := if _ || _ then _ else _).
  assert (match step with
    | Raise e => skip ≠ Some i ∧ send_one r = Raise e
    | Ok (r', acc') => ∃ e d, acc' = mkAcc (acc_entries acc ++ option_list e) d ∧
        if decide (skip = Some i) then r' = r ∧ e = None else send_one r = Ok (r', e) end) as Hstep.
  { unfold step. destruct (decide (skip = Some i)) as [->|Hs]; [rewrite bool_decide_true by done|rewrite bool_decide_false by done]; cbn [orb].
    { exists None, (acc_info acc). cbn. rewrite app_nil_r. by destruct acc. }
    destruct (finished (s_fin r) && finished_output (s_send r)) eqn:Ef.
    { exists None, (acc_info acc). cbn. rewrite app_nil_r. split; [by destruct acc|]. unfold send_one. by rewrite Ef. }
    pose proof (accept_any r acc Ef) as Ha. destruct (send_one r) as [[r1 e]|x].
    - destruct Ha as (d & -> & _). by exists e, d.
    - by rewrite Ha. }
  destruct step as [[r1 acc1]|x]; cbn [rbind]; [|destruct Hstep; exists 0%nat, r; rewrite Nat.add_0_r; by split_and!].
  destruct Hstep as (e & d & -> & Hr). specialize (IH (S i) (mkAcc (acc_entries acc ++ option_list e) d)).
  destruct (stream_loop _ _ _ _ _ _ _ _ _ _ _ _) as [[reqs' acc2]|x]; cbn [rbind].
  - destruct IH as (es & d2 & -> & H1 & H2 & H3). exists (e :: es), d2. cbn [acc_entries]. split; [f_equal; rewrite <- app_assoc; by destruct e|].
    split; [cbn; lia|]. split; [cbn; lia|]. intros [|k] r2 Hk; cbn in Hk.
    + injection Hk as <-. rewrite Nat.add_0_r. destruct (decide _); [by destruct Hr as [-> ->]|]. by exists r1, e.
    + specialize (H3 k r2 Hk). replace (i + S k)%nat with (S i + k)%nat by lia. exact H3.
  - destruct IH as (k & r2 & Hk & Hs & E). exists (S k), r2. replace (i + S k)%nat with (S i + k)%nat by lia. done.
Qed.

(** ** A request over its steps *)

Context (enable_overlap : bool) (vocab_size : option Z) (eos_token_ids : list Z) (re_search : text → text → option bool).
Context (Hre : re_ok re_search).

(** One step of a request: its new tokens, whether the grammar has ended, and
    the message of an abort that was asked for. *)
Record tick := mkTick { tk_tokens : list Z; tk_grammar : option bool; tk_abort : option text }.

(** [self.to_finish = FINISH_ABORT(...)] of [abort_request]. *)
Definition set_to_finish (why : finish_reason) (f : FinReq) : FinReq :=
  mkFin (origin_input_ids_unpadded f) (output_ids f) (finished_reason f) (finished_len f) (Some why) (decoded_text f)
    (surr_offset f) (read_offset f) (surr_and_decode_ids f) (cur_decode_ids_len f).

(** The result of a decode step for one request ([process_batch_result_decode]). *)
Definition commit_tokens (next_token_id : list Z) (grammar : option bool) (r : Req) : result Req :=
  if enable_overlap && (finished (s_fin r) || s_is_retracted r) then Ok r
  else
    let f := set_output (output_ids (s_fin r) ++ next_token_id) (s_fin r) in
    let! f := update_finish_state (s_params r) (s_tokenizer r) vocab_size eos_token_ids grammar re_search (zlen next_token_id) f in
    Ok (with_fin f r).

Definition tick_req (t : tick) (r : Req) : result (Req * option (Entry V)) :=
  let r := match tk_abort t with Some m => with_fin (set_to_finish (FINISH_ABORT m) (s_fin r)) r | None => r end in
  let! r := commit_tokens (tk_tokens t) (tk_grammar t) r in
  send_one r.

(** Until it is done, or, with overlap, also in a batch after that. *)
Fixpoint run (ticks : list tick) (r : Req) : result (list (Entry V) * Req) :=
  match ticks with
  | [] => Ok ([], r)
  | t :: ticks =>
      if negb enable_overlap && finished (s_fin r) then Ok ([], r)
      else
        let! (r, e) := tick_req t r in
        let! (es, r) := run ticks r in
        Ok (option_list e ++ es, r)
  end.

(** The prompt ids sent along for decoding. *)
Definition prompt_tail (f : FinReq) : list Z :=
  pydrop (origin_input_ids_unpadded f) (Z.max (zlen (origin_input_ids_unpadded f) - 5) 0).

(** The decoding state when [out] was sent. *)
Definition decode_state (r : Req) (out : list Z) : Prop :=
  if rust_server_mode then True
  else (surr_offset (s_fin r) = None ∧ send_decode_id_offset (s_send r) = 0 ∧ out = []) ∨
       (decoding (s_fin r) out ∧ send_decode_id_offset (s_send r) = zlen (prompt_tail (s_fin r)) + zlen out).

(** [out] was sent for a request that goes on ... *)
Record sending (r : Req) (out : list Z) : Prop := {
  se_open : finished (s_fin r) = false;
  se_to_finish : to_finish (s_fin r) = None;
  se_len : finished_len (s_fin r) = None;
  se_room : zlen (output_ids (s_fin r)) < p_max_new_tokens (s_params r);
  se_retracted : s_is_retracted r = false;
  se_not_sent : finished_output (s_send r) = false;
  se_offset : send_token_offset (s_send r) = zlen out;
  se_prefix : out `prefix_of` output_ids (s_fin r);
  se_decode : decode_state r out
}.

(** ... or that is done and was told so. *)
Record sent (r : Req) (out : list Z) : Prop := {
  st_done : finished (s_fin r) = true;
  st_told : finished_output (s_send r) = true;
  st_all : out = through_stop (s_fin r)
}.

(** Between the finish check and the streamer. *)
Record committed (out : list Z) (r : Req) : Prop := {
  cm_not_sent : finished_output (s_send r) = false;
  cm_offset : send_token_offset (s_send r) = zlen out;
  cm_prefix : out `prefix_of` through_stop (s_fin r);
  cm_decode : decode_state r out;
  cm_retracted : s_is_retracted r = false;
  cm_open : finished (s_fin r) = false → finished_len (s_fin r) = None ∧ to_finish (s_fin r) = None ∧
              zlen (output_ids (s_fin r)) < p_max_new_tokens (s_params r);
  cm_new : ∀ t, finished_reason (s_fin r) = Some (FINISH_MATCHED_TOKEN t) → zlen out < zlen (through_stop (s_fin r))
}.

(** The fields a request keeps. *)
Definition same_settings (r r' : Req) : Prop :=
  s_rid r' = s_rid r ∧ s_params r' = s_params r ∧ s_tokenizer r' = s_tokenizer r ∧ s_stream r' = s_stream r ∧
  s_stream_interval r' = s_stream_interval r ∧ s_skip_special_tokens r' = s_skip_special_tokens r ∧
  s_spaces_between_special_tokens r' = s_spaces_between_special_tokens r ∧ s_no_stop_trim r' = s_no_stop_trim r ∧
  origin_input_ids_unpadded (s_fin r') = origin_input_ids_unpadded (s_fin r) ∧ decoded_text (s_fin r') = decoded_text (s_fin r).

Lemma same_settings_trans r1 r2 r3 : same_settings r1 r2 → same_settings r2 r3 → same_settings r1 r3.
Proof. unfold same_settings. intuition congruence. Qed.

Lemma decode_state_same r r' out : same_decode (s_fin r) (s_fin r') → send_decode_id_offset (s_send r') = send_decode_id_offset (s_send r) →
  decode_state r out → decode_state r' out.
Proof.
  intros [E1 E2 E3 E4 E5 E6] Es. unfold decode_state, prompt_tail. rewrite Es, E1, E3. destruct rust_server_mode; [done|].
  intros [H|[[] ?]]; [by left|right]. split; [split; congruence|done].
Qed.

Lemma prefix_same_take (out l l' : list Z) n : out `prefix_of` l → (length out ≤ n)%nat → take n l' = take n l → out `prefix_of` l'.
Proof.
  intros [k ->] Hn E. rewrite <- (take_drop n l'), E, take_app_ge by done. rewrite <- app_assoc. by apply prefix_app_r.
Qed.

(** The finish check on a request that goes on. *)
Lemma commit_tokens_ok r out toks g : params_ok (s_params r) (s_tokenizer r) → sending r out → toks ≠ [] →
  ∃ r', commit_tokens toks g r = Ok r' ∧ committed out r' ∧ same_settings r r'.
Proof.
  intros Hpar [Hf Ht Hfl Hmax Hret Hns Hoff Hp Hd] Hne. unfold commit_tokens. rewrite Hf, Hret, andb_false_r.
  set (f0 := set_output _ _). assert (zlen (output_ids f0) = zlen (output_ids (s_fin r)) + zlen toks) as Hl by (cbn; apply zlen_app).
  assert (1 ≤ zlen toks) as Hn by (destruct toks; [done|unfold zlen; cbn; lia]).
  destruct (update_spec (s_params r) (s_tokenizer r) vocab_size eos_token_ids g re_search Hpar (zlen toks) f0 Hre) as (f1 & E & [L1 L2 L3] & Hq);
    [pose proof (zlen_nonneg (output_ids (s_fin r))); lia|done|done|done|lia|].
  rewrite E. cbn [rbind]. destruct (update_frame _ _ _ _ _ _ _ f0 f1 Ht E) as [Hsd Htf]. eexists. split; [reflexivity|].
  rewrite Hl, Z.add_simpl_r in L2. rewrite Hl, Z.add_simpl_r in L3.
  assert (out `prefix_of` output_ids f1) as Hp1.
  { eapply (prefix_same_take out (output_ids f0)); [|reflexivity|].
    - cbn. by apply prefix_app_r.
    - apply prefix_length in Hp as Hle. apply (f_equal (take (length out))) in L2. rewrite !take_take in L2.
      rewrite Nat.min_l in L2 by (unfold zlen; lia). exact L2. }
  assert (zlen (output_ids f1) = zlen (output_ids (s_fin r)) + zlen toks) as Hl1 by (rewrite <- Hl; unfold zlen; by rewrite L1).
  assert (out `prefix_of` through_stop f1 ∧ zlen out < zlen (through_stop f1)) as [Hpt Hlt].
  { pose proof (prefix_length _ _ Hp) as Hle. unfold through_stop. destruct (finished_len f1) as [k|]; [|split; [done|unfold zlen in *; lia]].
    destruct L3 as (_ & Hk & _). rewrite pytake_eq by (pose proof (zlen_nonneg (output_ids (s_fin r))); lia). split.
    - destruct Hp1 as [m Em]. rewrite Em, take_app_ge by (unfold zlen in *; lia). by apply prefix_app_r.
    - unfold zlen in *. rewrite length_take. lia. }
  split.
  - split; cbn; try done.
    + apply (decode_state_same r); [|done|exact Hd]. apply (same_decode_trans _ f0); done.
    + intros Hop. pose proof (proj1 Hq Hop) as (_ & _ & Hm & _). rewrite Hl in Hm. rewrite Hl1. split_and!; [|done|lia].
      destruct (finished_len f1); [|done]. destruct L3; congruence.
  - destruct Hsd. by split_and!.
Qed.

(** An abort finishes with the output as it is. *)
Lemma commit_abort_ok r out toks g m : sending r out →
  ∃ r', commit_tokens toks g (with_fin (set_to_finish (FINISH_ABORT m) (s_fin r)) r) = Ok r' ∧ committed out r' ∧ same_settings r r' ∧
    finished_reason (s_fin r') = Some (FINISH_ABORT m).
Proof.
  intros [Hf Ht Hfl Hmax Hret Hns Hoff Hp Hd]. unfold commit_tokens.
  change (finished (s_fin (with_fin _ r))) with (finished (s_fin r)). change (s_is_retracted (with_fin _ r)) with (s_is_retracted r).
  rewrite Hf, Hret, andb_false_r. unfold update_finish_state.
  change (finished (set_output _ _)) with (finished (s_fin r)). rewrite Hf. cbn [to_finish set_output set_to_finish s_fin with_fin rbind].
  eexists. split; [reflexivity|]. split; [|by split_and!]. split; cbn; try done.
  - unfold through_stop. cbn. rewrite Hfl. by apply prefix_app_r.
  - apply (decode_state_same r); [done|done|exact Hd].
Qed.

(** What a message holds when [out] was sent before and [out'] is sent after it. *)
Record entry_ok (out out' : list Z) (r : Req) (e : Entry V) : Prop := {
  en_reason_ok : en_finished_reason e = finished_reason (s_fin r);
  en_ids_ok : out' = out ++ en_output_ids e;
  en_detok_ok : en_detok e = if rust_server_mode then None
    else Some (decoded_text (s_fin r),
               (if bool_decide (surr_offset (s_fin r) = None) then prompt_tail (s_fin r) ++ out' else en_output_ids e),
               zlen (prompt_tail (s_fin r)), zlen out');
  en_settings_ok : same_settings r (en_req e)
}.

Lemma should_output_ok (r : Req) : params_ok (s_params r) (s_tokenizer r) →
  ∃ b, should_output default_stream_interval default_force_stream_interval r = Ok b.
Proof.
  intros Hpar. unfold should_output. destruct (s_stream r); [|by eexists]. destruct (_ || _); [|by eexists].
  unfold check_match_stop_str_prefix. destruct (Z.eqb_spec (zlen (stop_strs (s_params r))) 0) as [E|E]; [by eexists|].
  unfold tail_str, decode_ids. destruct (no_stop_text (s_params r)) eqn:En; [by eexists|].
  destruct (pa_tokenizer _ _ Hpar En) as [tk ->]. cbn. destruct (_ =? _); by eexists.
Qed.

Lemma prompt_tail_len f : zlen (origin_input_ids_unpadded f) - Z.max (zlen (origin_input_ids_unpadded f) - 5) 0 = zlen (prompt_tail f).
Proof. unfold prompt_tail. pose proof (zlen_nonneg (origin_input_ids_unpadded f)). rewrite zlen_pydrop by lia. lia. Qed.

Lemma detok_frame f : finished_reason (init_incremental_detokenize f).2 = finished_reason f ∧ finished_len (init_incremental_detokenize f).2 = finished_len f ∧
  output_ids (init_incremental_detokenize f).2 = output_ids f ∧ to_finish (init_incremental_detokenize f).2 = to_finish f ∧
  decoded_text (init_incremental_detokenize f).2 = decoded_text f.
Proof. unfold init_incremental_detokenize. by destruct (surr_offset f), (read_offset f). Qed.

(** The ids to decode that a message adds, and the state after it. *)
Lemma detok_part r out : decode_state r out → rust_server_mode = false → out `prefix_of` through_stop (s_fin r) →
  ∃ f, init_incremental_detokenize (s_fin r) = (prompt_tail (s_fin r) ++ through_stop (s_fin r), zlen (prompt_tail (s_fin r)), f) ∧
    decoding f (through_stop (s_fin r)) ∧ prompt_tail f = prompt_tail (s_fin r) ∧ origin_input_ids_unpadded f = origin_input_ids_unpadded (s_fin r) ∧
    pydrop (prompt_tail (s_fin r) ++ through_stop (s_fin r)) (send_decode_id_offset (s_send r))
    = if bool_decide (surr_offset (s_fin r) = None) then prompt_tail (s_fin r) ++ through_stop (s_fin r)
      else pydrop (through_stop (s_fin r)) (zlen out).
Proof.
  intros Hd Hr Hp. unfold decode_state in Hd. rewrite Hr in Hd.
  destruct (detokenize_spec (s_fin r) out) as (f & E & Hdec & Ho).
  { destruct Hd as [(H & _)|[H _]]; [by left|by right]. } { done. }
  exists f. rewrite E, prompt_tail_len. split; [done|]. split; [done|]. split; [unfold prompt_tail; by rewrite Ho|]. split; [done|].
  destruct Hd as [(Hs & -> & ->)|[[Hs _ _ _] ->]].
  - by rewrite bool_decide_true, pydrop_0.
  - rewrite bool_decide_false by (by rewrite Hs). destruct Hp as [k Ek]. rewrite Ek.
    rewrite pydrop_app, app_assoc, <- zlen_app. apply pydrop_app.
Qed.

(** A message carries what was not sent before. *)
Lemma send_part (r r1 : Req) out : committed out r → admit_output default_stream_interval default_force_stream_interval r = Ok (true, r1) →
  ∃ r' e, send_one r = Ok (r', Some e) ∧ entry_ok out (through_stop (s_fin r)) r e ∧ same_settings r r' ∧
    finished_reason (s_fin r') = finished_reason (s_fin r) ∧ output_ids (s_fin r') = output_ids (s_fin r) ∧
    to_finish (s_fin r') = to_finish (s_fin r) ∧ through_stop (s_fin r') = through_stop (s_fin r) ∧
    (finished (s_fin r) = false → finished_len (s_fin r') = finished_len (s_fin r)) ∧
    send_token_offset (s_send r') = zlen (through_stop (s_fin r)) ∧ finished_output (s_send r') = finished (s_fin r) ∧
    s_is_retracted r' = false ∧
    (rust_server_mode = false → decoding (s_fin r') (through_stop (s_fin r)) ∧
       send_decode_id_offset (s_send r') = zlen (prompt_tail (s_fin r')) + zlen (through_stop (s_fin r))).
Proof.
  intros [Hns Hoff Hp Hd Hret Hop Hnew] Ha. unfold send_one. rewrite Hns, andb_false_r. unfold accept. rewrite Ha. cbn [rbind negb].
  assert (through_stop (s_fin r1) = through_stop (s_fin r) ∧ decode_state r1 out ∧ same_decode (s_fin r) (s_fin r1) ∧
    finished_reason (s_fin r1) = finished_reason (s_fin r) ∧ output_ids (s_fin r1) = output_ids (s_fin r) ∧ to_finish (s_fin r1) = to_finish (s_fin r) ∧
    (finished (s_fin r) = false → finished_len (s_fin r1) = finished_len (s_fin r)) ∧
    send_token_offset (s_send r1) = zlen out ∧ finished_output (s_send r1) = finished (s_fin r) ∧ s_is_retracted r1 = false ∧ same_settings r r1) as
    (T1 & T2 & T3 & T4 & T5 & T6 & T7 & T8 & T9 & T10 & T11).
  { unfold admit_output in Ha. destruct (finished (s_fin r)) eqn:Ef.
    - rewrite Hns in Ha. cbn [negb assert_ rbind] in Ha. injection Ha as <-. destruct (finished_len (s_fin r)) as [k|] eqn:Ek; cbn.
      + rewrite Ek. by split_and!.
      + split_and!; try done; [|by apply (decode_state_same r)]. unfold through_stop. rewrite Ek. apply pytake_all. lia.
    - destruct (should_output _ _ r) as [b|]; [|done]. cbn in Ha. injection Ha as _ <-. by split_and!. }
  clear Ha. rewrite T1, T8. destruct (input_logprob_entry _ _ r1) as [il isent]. destruct (output_logprob_entry _ r1 _) as [ol loff].
  assert (through_stop (s_fin r) = out ++ pydrop (through_stop (s_fin r)) (zlen out)) as Eout.
  { destruct Hp as [k Ek]. rewrite Ek. by rewrite pydrop_app. }
  destruct rust_server_mode eqn:Er.
  { eexists _, _. split; [reflexivity|]. cbn. split; [split; cbn; by rewrite ?Er|]. destruct T3. by split_and!. }
  rewrite <- T1 in Hp. destruct (detok_part r1 out T2 Er Hp) as (f & E & Hdec & Hpt & Hor & Epd). rewrite E, Epd.
  pose proof (detok_frame (s_fin r1)) as (F1 & F2 & F3 & F4 & F5). rewrite E in F1, F2, F3, F4, F5. cbn [snd] in F1, F2, F3, F4, F5.
  destruct T3 as [D1 D2 D3 D4 D5 D6]. assert (prompt_tail (s_fin r1) = prompt_tail (s_fin r)) as Ept by (unfold prompt_tail; by rewrite D1).
  rewrite T1 in *. assert (through_stop f = through_stop (s_fin r)) as Tf by (rewrite <- T1; unfold through_stop; by rewrite F2, F3).
  eexists _, _. split; [reflexivity|]. cbn. rewrite D3, D2, Ept. split; [split; cbn; by rewrite ?Er|].
  unfold same_settings in *. cbn. rewrite F1, F2, F3, F4, F5, T4, T5, T6, Hor, D2, D1, zlen_app, Hpt, Ept. by intuition.
Qed.

(** A message of the request [r0]: [first] when none was sent before. *)
Record message (r0 : Req) (first : bool) (out out' : list Z) (e : Entry V) : Prop := {
  me_ids : out' = out ++ en_output_ids e;
  me_detok : en_detok e = if rust_server_mode then None
    else Some (decoded_text (s_fin r0), (if first then prompt_tail (s_fin r0) ++ out' else en_output_ids e),
               zlen (prompt_tail (s_fin r0)), zlen out');
  me_settings : same_settings r0 (en_req e);
  me_new : ∀ t, en_finished_reason e = Some (FINISH_MATCHED_TOKEN t) → en_output_ids e ≠ []
}.

Definition first_of (r : Req) : bool := bool_decide (surr_offset (s_fin r) = None).

Lemma entry_message r0 r out e : same_settings r0 r → committed out r → entry_ok out (through_stop (s_fin r)) r e →
  message r0 (first_of r) out (through_stop (s_fin r)) e.
Proof.
  intros Hs [_ _ _ _ _ _ Hnew] [H1 H2 H3 H4]. pose proof Hs as (_ & _ & _ & _ & _ & _ & _ & _ & Eo & Et).
  assert (prompt_tail (s_fin r) = prompt_tail (s_fin r0)) as Ep by (unfold prompt_tail; by rewrite Eo). split.
  - done.
  - by rewrite H3, Ep, Et.
  - by eapply same_settings_trans.
  - intros t Ht. rewrite H1 in Ht. apply Hnew in Ht. intros En. rewrite En, app_nil_r in H2. rewrite <- H2 in Ht. lia.
Qed.

(** After a message in the mode of the Python detokenizer, the next is not the first. *)
Definition first_after (r' : Req) : Prop := rust_server_mode = false → first_of r' = false.

(** The streamer on a request after its finish check. *)
Lemma send_ok r0 r out : same_settings r0 r → params_ok (s_params r) (s_tokenizer r) → committed out r →
  ∃ r' o, send_one r = Ok (r', o) ∧ same_settings r r' ∧
    match o with
    | None => r' = r ∧ sending r out
    | Some e => message r0 (first_of r) out (through_stop (s_fin r)) e ∧ en_finished_reason e = finished_reason (s_fin r) ∧
        finished_reason (s_fin r') = finished_reason (s_fin r) ∧ first_after r' ∧
        (if finished (s_fin r) then sent r' (through_stop (s_fin r)) else sending r' (through_stop (s_fin r)))
    end.
Proof.
  intros Hs Hpar Hc. destruct (admit_output default_stream_interval default_force_stream_interval r) as [[b r1]|x] eqn:Ea.
  2:{ exfalso. unfold admit_output in Ea. destruct (finished (s_fin r)); [by rewrite (cm_not_sent _ _ Hc) in Ea|].
      destruct (should_output_ok r Hpar) as [b Eb]. by rewrite Eb in Ea. }
  destruct b.
  - destruct (send_part r r1 out Hc Ea) as (r' & e & E & He & Hss & R1 & R2 & R3 & R4 & R5 & R6 & R7 & R8 & R9).
    exists r', (Some e). split; [done|]. split; [done|]. split; [by apply entry_message|]. split; [apply He|]. split; [done|]. split.
    { intros Hr. destruct (R9 Hr) as [[Hsu _ _ _] _]. unfold first_of. by rewrite bool_decide_false by (by rewrite Hsu). }
    destruct (finished (s_fin r)) eqn:Ef.
    + split; [unfold finished in *; by rewrite R1|done|done].
    + destruct (cm_open _ _ Hc Ef) as (O1 & O2 & O3). assert (through_stop (s_fin r) = output_ids (s_fin r)) as Ets by (unfold through_stop; by rewrite O1).
      split; try done.
      * unfold finished in *. by rewrite R1.
      * by rewrite R3.
      * by rewrite R5.
      * rewrite R2. destruct Hss as (_ & -> & _). done.
      * by rewrite R2, Ets.
      * unfold decode_state. destruct rust_server_mode eqn:Er; [done|]. right. by destruct (R9 eq_refl).
  - unfold admit_output in Ea. destruct (finished (s_fin r)) eqn:Ef; [destruct (negb _); done|].
    destruct (should_output _ _ r) as [b|] eqn:Eb; [|done]. cbn in Ea. injection Ea as -> <-.
    exists r, None. unfold send_one. rewrite Ef. cbn [andb]. unfold accept, admit_output. rewrite Ef, Eb. cbn. split; [done|].
    split; [by split_and!|]. split; [done|]. destruct Hc as [C1 C2 C3 C4 C5 C6 C7]. destruct (C6 Ef) as (O1 & O2 & O3). split; try done.
    unfold through_stop in C3. by rewrite O1 in C3.
Qed.

(** *** How far behind a stream may be *)

(** Nothing is waiting, or less than an interval after the first token, or the
    tail may begin a stop string. *)
Definition caught_up (r : Req) : Prop :=
  let unsent := zlen (output_ids (s_fin r)) - send_token_offset (s_send r) in
  unsent ≤ 0 ∨
  (unsent < stream_interval_of default_stream_interval r ∧ send_token_offset (s_send r) ≠ 0) ∨
  check_match_stop_str_prefix (s_params r) (s_tokenizer r) (s_fin r) = Ok true.

Lemma should_not_output (r : Req) : s_stream r = true →
  should_output default_stream_interval default_force_stream_interval r = Ok false → caught_up r.
Proof.
  intros Hst. unfold should_output, caught_up. rewrite Hst. set (n := _ - _). set (i := stream_interval_of _ _).
  destruct ((i =? 1) || (i <=? n) || _) eqn:E.
  - destruct (check_match_stop_str_prefix _ _ _) as [[|]|]; [|done|done]. intros _. by right; right.
  - intros _. apply orb_false_iff in E as [[E1%Z.eqb_neq E2%Z.leb_gt]%orb_false_iff E3%andb_false_iff].
    destruct (decide (n ≤ 0)) as [|Hn]; [by left|]. right; left. split; [done|].
    destruct E3 as [E3%Z.eqb_neq|E3%Z.ltb_ge]; [done|lia].
Qed.

Lemma send_caught_up r out r' o : committed out r → s_stream r = true → send_one r = Ok (r', o) → finished (s_fin r') = false → caught_up r'.
Proof.
  intros Hc Hst E Hf. destruct (admit_output default_stream_interval default_force_stream_interval r) as [[b r1]|x] eqn:Ea.
  2:{ unfold send_one, accept in E. rewrite (cm_not_sent _ _ Hc), andb_false_r, Ea in E. done. }
  destruct b.
  - destruct (send_part r r1 out Hc Ea) as (r2 & e & E2 & _ & _ & R1 & R2 & _ & _ & R5 & R6 & _). rewrite E in E2. injection E2 as <- ->.
    assert (finished (s_fin r) = false) as Hf0 by (unfold finished in *; by rewrite <- R1). destruct (cm_open _ _ Hc Hf0) as (O1 & _).
    left. rewrite R2, R6. unfold through_stop. rewrite O1. lia.
  - pose proof Ea as Ea'. unfold send_one, accept in E. rewrite (cm_not_sent _ _ Hc), andb_false_r, Ea in E. cbn in E. injection E as <- <-.
    unfold admit_output in Ea'. destruct (finished (s_fin r)); [by destruct (negb _)|].
    destruct (should_output _ _ r) as [b|] eqn:Eb; [|done]. injection Ea' as -> <-. by apply should_not_output.
Qed.
Definition caught (r : Req) : Prop := s_stream r = true → finished (s_fin r) = false → caught_up r.

(** A step of a request that goes on. *)
Lemma tick_ok r0 r out t : same_settings r0 r → params_ok (s_params r) (s_tokenizer r) → sending r out → tk_tokens t ≠ [] →
  ∃ r' o out', tick_req t r = Ok (r', o) ∧ same_settings r r' ∧ (sending r' out' ∨ sent r' out') ∧
    match o with
    | None => out' = out ∧ sending r' out ∧ first_of r' = first_of r
    | Some e => message r0 (first_of r) out out' e ∧ en_finished_reason e = finished_reason (s_fin r') ∧ first_after r'
    end ∧ caught r'.
Proof.
  intros Hs Hpar Hse Hne. unfold tick_req.
  assert (∃ rc, commit_tokens (tk_tokens t) (tk_grammar t)
      (match tk_abort t with Some m => with_fin (set_to_finish (FINISH_ABORT m) (s_fin r)) r | None => r end) = Ok rc ∧
    committed out rc ∧ same_settings r rc ∧ first_of rc = first_of r) as (rc & E & Hc & Hss & Hfo).
  { destruct (tk_abort t) as [m|].
    - destruct (commit_abort_ok r out (tk_tokens t) (tk_grammar t) m Hse) as (rc & E & Hc & Hss & _). exists rc. split_and!; try done.
      unfold commit_tokens in E. destruct (enable_overlap && _); [by injection E as <-|].
      destruct (update_finish_state _ _ _ _ _ _ _ _) as [f|] eqn:Eu; [|done]. injection E as <-. unfold update_finish_state in Eu.
      change (finished (set_output _ _)) with (finished (s_fin r)) in Eu. rewrite (se_open _ _ Hse) in Eu. by injection Eu as <-.
    - destruct (commit_tokens_ok r out (tk_tokens t) (tk_grammar t) Hpar Hse Hne) as (rc & E & Hc & Hss). exists rc. split_and!; try done.
      unfold commit_tokens in E. destruct (enable_overlap && _); [by injection E as <-|].
      destruct (update_finish_state _ _ _ _ _ _ _ _) as [f|] eqn:Eu; [|done]. injection E as <-.
      apply update_frame in Eu as [[_ _ Esu _ _ _] _]; [|apply Hse]. unfold first_of. cbn. by rewrite Esu. }
  rewrite E. cbn [rbind].
  destruct (send_ok r0 rc out) as (r' & o & Eo & Hs' & Ho); [by eapply same_settings_trans| |done|].
  { destruct Hss as (_ & -> & -> & _). done. }
  assert (caught r') as Hcu.
  { intros Hst Hf. eapply (send_caught_up rc); [done| |exact Eo|done]. destruct Hs' as (_ & _ & _ & E4 & _). congruence. }
  exists r', o. destruct o as [e|].
  - destruct Ho as (Hm & Hr & Hr' & Hfa & Hfin). exists (through_stop (s_fin rc)). split; [done|]. split; [by eapply same_settings_trans|].
    split; [destruct (finished (s_fin rc)); [by right|by left]|]. rewrite <- Hfo, Hr'. done.
  - destruct Ho as [-> Hsd]. exists out. split; [done|]. split; [by eapply same_settings_trans|]. split; [by left|]. done.
Qed.

(** The messages of a run. *)
Fixpoint messages (r0 : Req) (first : bool) (out : list Z) (es : list (Entry V)) (out' : list Z) : Prop :=
  match es with
  | [] => out' = out
  | e :: es => ∃ out1, message r0 first out out1 e ∧ messages r0 false out1 es out'
  end.

Lemma messages_ids r0 first out es out' : messages r0 first out es out' → out' = out ++ concat (en_output_ids <$> es).
Proof.
  revert first out. induction es as [|e es IH]; intros first out; cbn [messages]; [intros ->; by rewrite app_nil_r|].
  intros (out1 & [-> _ _ _] & ->%IH). cbn. by rewrite app_assoc.
Qed.

Lemma messages_first r0 b b' out es out' : rust_server_mode = true → messages r0 b out es out' → messages r0 b' out es out'.
Proof.
  intros Hr. destruct es as [|e es]; [done|]. cbn [messages]. intros (out1 & [H1 H2 H3 H4] & H). exists out1. split; [|done].
  split; try done. by rewrite H2, Hr.
Qed.

(** How a run ends: the request goes on and was told of no end, or its last
    message told of it. *)
Definition told (r : Req) (es : list (Entry V)) (out : list Z) : Prop :=
  (sending r out ∧ Forall (λ e, en_finished_reason e = None) es) ∨
  (sent r out ∧ ∃ es0 e, es = es0 ++ [e] ∧ Forall (λ e, en_finished_reason e = None) es0 ∧ en_finished_reason e = finished_reason (s_fin r)).

(** A request that is done and was told so sends nothing more. *)
Lemma run_sent ticks r out : sent r out →
  ∃ r', run ticks r = Ok ([], r') ∧ sent r' out ∧ finished_reason (s_fin r') = finished_reason (s_fin r) ∧ same_settings r r'.
Proof.
  revert r. induction ticks as [|t ticks IH]; intros r Hst; cbn [run]; [exists r; by split_and!|]. pose proof Hst as [Hf Ht Ha]. rewrite Hf.
  destruct enable_overlap eqn:Eo; cbn [negb andb]; [|exists r; by split_and!]. unfold tick_req.
  set (r1 := match tk_abort t with Some _ => _ | None => r end).
  assert (sent r1 out ∧ finished_reason (s_fin r1) = finished_reason (s_fin r) ∧ same_settings r r1) as (Hs1 & E1 & Hss).
  { unfold r1. destruct (tk_abort t); by split_and!. }
  clearbody r1. destruct (IH r1 Hs1) as (r2 & E2 & Hs2 & Hr2 & Hss2). pose proof Hs1 as [Hf1 Ht1 _].
  unfold commit_tokens. rewrite Eo, Hf1. cbn [orb andb rbind]. unfold send_one. rewrite Hf1, Ht1. cbn [andb rbind]. rewrite E2. cbn.
  exists r2. split; [done|]. split; [done|]. split; [congruence|by eapply same_settings_trans].
Qed.

Lemma run_ok ticks r0 r out : same_settings r0 r → params_ok (s_params r0) (s_tokenizer r0) → Forall (λ t, tk_tokens t ≠ []) ticks →
  sending r out →
  ∃ es r' out', run ticks r = Ok (es, r') ∧ messages r0 (first_of r) out es out' ∧ same_settings r0 r' ∧ told r' es out' ∧
    (ticks ≠ [] ∨ caught r → caught r').
Proof.
  intros Hs Hpar Hne. revert r out Hs. induction ticks as [|t ticks IH]; intros r out Hs Hse; cbn [run].
  { exists [], r, out. split; [done|]. split; [done|]. split; [done|]. split; [left; by split|]. by intros [?|?]. }
  inversion_clear Hne as [|? ? Ht Hts]. rewrite (se_open _ _ Hse), andb_false_r.
  assert (params_ok (s_params r) (s_tokenizer r)) as Hpr by (destruct Hs as (_ & -> & -> & _); done).
  destruct (tick_ok r0 r out t Hs Hpr Hse Ht) as (r1 & o & out1 & E & Hs1 & Hst & Ho & Hcu). rewrite E. cbn [rbind].
  pose proof (same_settings_trans _ _ _ Hs Hs1) as Hs01. destruct o as [e|].
  - destruct Ho as (Hm & Hr & Hfa). destruct Hst as [Hse1|Hst1].
    + destruct (IH Hts r1 out1 Hs01 Hse1) as (es & r' & out' & E' & Hms & Hs' & Htl & Hcu'). rewrite E'. cbn [rbind].
      exists (e :: es), r', out'. split; [done|]. split; [|split; [done|split; [|by auto]]].
      { exists out1. split; [done|]. destruct rust_server_mode eqn:Er; [by eapply messages_first|]. by rewrite (Hfa Er) in Hms. }
      assert (en_finished_reason e = None) as En.
      { rewrite Hr. pose proof (se_open _ _ Hse1) as Hop. unfold finished in Hop. by destruct (finished_reason (s_fin r1)). }
      destruct Htl as [[H1 H2]|[H1 (es0 & e1 & -> & H3 & H4)]]; [left; split; [done|by constructor]|right]. split; [done|].
      exists (e :: es0), e1. split; [done|]. split; [by constructor|done].
    + destruct (run_sent ticks r1 out1 Hst1) as (r' & E' & Hst' & Er' & Hs'). rewrite E'. cbn [rbind].
      exists [e], r', out1. split; [done|]. split; [by exists out1|]. split; [by eapply same_settings_trans|].
      split; [|intros _ _ Hf; rewrite (st_done _ _ Hst') in Hf; done]. right. split; [done|].
      exists [], e. split; [done|]. split; [done|congruence].
  - destruct Ho as (-> & Hse1 & Hfo). destruct (IH Hts r1 out Hs01 Hse1) as (es & r' & out' & E' & Hms & Hs' & Htl & Hcu'). rewrite E'. cbn [rbind].
    exists es, r', out'. split; [done|]. split; [by rewrite <- Hfo|]. split; [done|]. split; [done|]. by auto.
Qed.

End send.

(** ** The properties *)

(** A request of which nothing was sent. *)
Record unsent {V} (r : StreamReq V) : Prop := {
  un_open : finished (s_fin r) = false;
  un_to_finish : to_finish (s_fin r) = None;
  un_len : finished_len (s_fin r) = None;
  un_room : zlen (output_ids (s_fin r)) < p_max_new_tokens (s_params r);
  un_retracted : s_is_retracted r = false;
  un_told : finished_output (s_send r) = false;
  un_tokens : send_token_offset (s_send r) = 0;
  un_ids : send_decode_id_offset (s_send r) = 0;
  un_surr : surr_offset (s_fin r) = None
}.

Lemma unsent_sending {V} rust (r : StreamReq V) : unsent r → sending rust r [].
Proof.
  intros []. split; try done; [apply prefix_nil|]. unfold decode_state. destruct rust; [done|]. by left.
Qed.

(** C21: whatever tokens a request gets over its steps, and whether it is aborted,
    the streamer never fails; the ids in its messages, put together, are the
    beginning of its output through the stop, each once and in order, and all of
    it once the request is done; exactly its last message says so, and after it
    nothing is sent.  A retraction is not among the steps. *)
Theorem each_token_sent_once {V} interval force version rl rh ds rust level overlap vocab_size eos_token_ids re_search ticks (r : StreamReq V) :
  params_ok (s_params r) (s_tokenizer r) → re_ok re_search → Forall (λ t, tk_tokens t ≠ []) ticks → unsent r →
  ∃ es r', run interval force version rl rh ds rust level overlap vocab_size eos_token_ids re_search ticks r = Ok (es, r') ∧
    concat (en_output_ids <$> es) `prefix_of` through_stop (s_fin r') ∧
    if finished (s_fin r')
    then concat (en_output_ids <$> es) = through_stop (s_fin r') ∧
         ∃ es0 e, es = es0 ++ [e] ∧ Forall (λ e, en_finished_reason e = None) es0 ∧ en_finished_reason e = finished_reason (s_fin r')
    else Forall (λ e, en_finished_reason e = None) es.
Proof.
  intros Hpar Hre Hne Hu.
  destruct (run_ok interval force version rl rh ds rust level overlap vocab_size eos_token_ids re_search Hre ticks r r [])
    as (es & r' & out & E & Hm & _ & Htl & _); [by split_and!|done|done|by apply unsent_sending|].
  exists es, r'. split; [done|]. apply messages_ids in Hm. cbn in Hm. rewrite <- Hm. destruct Htl as [[Hse HF]|[[Hd Ht Ha] HE]].
  - rewrite (se_open _ _ _ Hse). split; [|done]. unfold through_stop. rewrite (se_len _ _ _ Hse). apply Hse.
  - rewrite Hd, Ha. by split.
Qed.

(** After every step of a streaming request that goes on, nothing is left to
    send, or fewer tokens than its interval after a first message, or the text
    may have begun a stop string. *)
Theorem stream_keeps_up {V} interval force version rl rh ds rust level overlap vocab_size eos_token_ids re_search ticks (r : StreamReq V) es r' :
  params_ok (s_params r) (s_tokenizer r) → re_ok re_search → Forall (λ t, tk_tokens t ≠ []) ticks → unsent r → ticks ≠ [] → s_stream r = true →
  run interval force version rl rh ds rust level overlap vocab_size eos_token_ids re_search ticks r = Ok (es, r') →
  finished (s_fin r') = false → caught_up interval r'.
Proof.
  intros Hpar Hre Hne Hu Ht Hst Er Hf.
  destruct (run_ok interval force version rl rh ds rust level overlap vocab_size eos_token_ids re_search Hre ticks r r [])
    as (es1 & r1 & out & E & _ & Hs & _ & Hc); [by split_and!|done|done|by apply unsent_sending|].
  rewrite Er in E. injection E as <- <-. apply Hc; [by left| |done]. destruct Hs as (_ & _ & _ & -> & _). done.
Qed.
