(* ===== verification/StreamerBatch.v ===== *)
(** * The message of a batch

    A batch is its requests one by one: each entry is what the request alone
    would send, in order, and the lists of [customized_info], which start when a
    key is first met and are padded, have one item per entry, as long as its ids. *)
From S2P Require Import Prelude Text Finish Detokenizer WeightVersions Streamer StreamerTheorems.

Section info.
Context {V : Type} (request_level : string → bool).
Abbreviation info := (list (string * list (list (option V)))).

(** The items of a key for entries whose ids have the given lengths. *)
Definition items_ok (key : string) (lens : list Z) (items : list (list (option V))) : Prop :=
  if request_level key then length items = length lens else zlen <$> items = lens.
Definition info_ok (lens : list Z) (d : info) : Prop := Forall (λ e, items_ok e.1 lens e.2) d.

Lemma items_length key lens items : items_ok key lens items → length items = length lens.
Proof. unfold items_ok. destruct (request_level key); [done|]. intros <-. by rewrite length_fmap. Qed.

Lemma items_push key lens n items vs : items_ok key lens items → (request_level key = false → zlen vs = n) → items_ok key (lens ++ [n]) (items ++ [vs]).
Proof.
  unfold items_ok. destruct (request_level key); intros H Hv.
  - rewrite !length_app. cbn. lia.
  - rewrite fmap_app, H. cbn. by rewrite Hv.
Qed.

Lemma zlen_nones n : 0 ≤ n → zlen (nones (V:=V) n) = n.
Proof. intros. unfold nones, zlen. rewrite length_replicate. lia. Qed.

Lemma items_fresh key lens : Forall (λ n, 0 ≤ n) lens → items_ok key lens ((λ n, if request_level key then [] else nones n) <$> lens).
Proof.
  intros Hf. unfold items_ok. destruct (request_level key); [by rewrite length_fmap|]. induction Hf as [|n lens Hn _ IH]; [done|].
  cbn. f_equal; [by apply zlen_nones|exact IH].
Qed.

(** While the keys [todo] of a request are left: what has its item, and what waits. *)
Record info_part (lens : list Z) (n : Z) (todo : list string) (d : info) : Prop := {
  ip_some : Forall (λ e, items_ok e.1 lens e.2 ∨ ((e.1 ∉ todo) ∧ items_ok e.1 (lens ++ [n]) e.2)) d
}.

Lemma info_push_part lens n key todo vs d : info_part lens n (key :: todo) d → key ∉ todo → (request_level key = false → zlen vs = n) →
  info_part lens n todo (info_push key vs d).
Proof.
  intros [H] Hk Hv. split. unfold info_push. apply Forall_fmap. eapply Forall_impl; [exact H|]. intros [k ls] Hkl. cbn in *. case_bool_decide as E; cbn.
  - subst k. right. split; [done|]. destruct Hkl as [Hkl|[Hn _]]; [by apply items_push|]. by destruct Hn; left.
  - destruct Hkl as [Hkl|[Hn Hkl]]; [by left|right]. split; [|done]. intros Hi. apply Hn. by right.
Qed.

Lemma info_skip_part lens n key todo d : info_part lens n (key :: todo) d → info_part lens n todo d.
Proof.
  intros [H]. split. eapply Forall_impl; [exact H|]. intros [k ls] [?|[Hn ?]]; [by left|right]. split; [|done]. intros Hi. apply Hn. by right.
Qed.

Lemma zlen_pyslice (l : list V) i j : 0 ≤ i → 0 ≤ j ≤ zlen l → zlen (pyslice l i j) = Z.max 0 (j - i).
Proof.
  intros Hi Hj. destruct (decide (i ≤ j)) as [Hle|Hgt].
  - rewrite pyslice_eq by lia. unfold zlen in *. rewrite length_take, length_drop. lia.
  - unfold pyslice, norm_idx. destruct (Z.ltb_spec i 0), (Z.ltb_spec j 0); try lia. rewrite (Z.min_l j) by lia.
    assert (Z.to_nat (j - Z.min i (zlen l)) = 0%nat) as -> by lia. change (zlen (take 0 (drop (Z.to_nat (Z.min i (zlen l))) l))) with 0. lia.
Qed.

(** The values per token cover the output. *)
Definition values_cover (n : Z) (kv : string * option (list V)) : Prop :=
  request_level kv.1 = false → match kv.2 with Some vs => n ≤ zlen vs | None => True end.

Lemma add_info_part lens (r : StreamReq V) from upto kv todo d : Forall (λ n, 0 ≤ n) lens → 0 ≤ from → 0 ≤ upto → values_cover upto kv →
  kv.1 ∉ todo → info_part lens (Z.max 0 (upto - from)) (kv.1 :: todo) d →
  info_part lens (Z.max 0 (upto - from)) todo (add_info request_level lens r from upto (Z.max 0 (upto - from)) d kv).
Proof.
  intros Hl Hfr Hup Hc Hk Hd. destruct kv as [key values]. cbn in *. unfold add_info. destruct (_ && _); [by eapply info_skip_part|].
  apply info_push_part; [|done|].
  - destruct (info_has key d); [done|]. destruct Hd as [Hd]. split. apply Forall_app. split; [done|]. constructor; [|done]. left. cbn.
    by apply items_fresh.
  - intros Hrl. rewrite Hrl. unfold values_cover in Hc. cbn in Hc. destruct values as [vs|].
    + specialize (Hc Hrl). unfold zlen at 1. rewrite length_fmap. change (zlen (pyslice vs from upto) = Z.max 0 (upto - from)). apply zlen_pyslice; lia.
    + apply zlen_nones. lia.
Qed.

Lemma fold_info_part lens (r : StreamReq V) from upto kvs d : Forall (λ n, 0 ≤ n) lens → 0 ≤ from → 0 ≤ upto → Forall (values_cover upto) kvs →
  NoDup kvs.*1 → info_part lens (Z.max 0 (upto - from)) kvs.*1 d →
  info_part lens (Z.max 0 (upto - from)) [] (foldl (add_info request_level lens r from upto (Z.max 0 (upto - from))) d kvs).
Proof.
  intros Hl Hfr Hup. revert d. induction kvs as [|kv kvs IH]; intros d Hc Hnd Hd; cbn [foldl]; [done|].
  inversion_clear Hc. cbn in Hnd, Hd. apply NoDup_cons in Hnd as [Hk Hnd]. apply IH; [done|done|]. by apply add_info_part.
Qed.

Lemma pad_info_ok lens n d : 0 ≤ n → info_part lens n [] d → info_ok (lens ++ [n]) (pad_info request_level (zlen lens + 1) n d).
Proof.
  intros Hn [H]. unfold info_ok, pad_info. apply Forall_fmap. eapply Forall_impl; [exact H|]. intros [k ls] Hk. cbn in *.
  destruct (Z.ltb_spec (zlen ls) (zlen lens + 1)) as [Hlt|Hge]; cbn.
  - destruct Hk as [Hk|[_ Hk%items_length]]; [|rewrite length_app in Hk; cbn in Hk; unfold zlen in Hlt; lia].
    apply items_push; [done|]. intros ->. by apply zlen_nones.
  - destruct Hk as [Hk%items_length|[_ Hk]]; [unfold zlen in *; lia|done].
Qed.
End info.

Section batch.
Context {V : Type}.
Context (interval force : Z) (version : string) (return_logprob return_hidden_states decode_server rust_server_mode : bool).
Context (request_level : string → bool).

Definition id_lens (es : list (Entry V)) : list Z := (λ e, zlen (en_output_ids e)) <$> es.

(** The request's own values: one list per key, with a value for every token. *)
Definition request_ok (r : StreamReq V) : Prop :=
  0 ≤ send_token_offset (s_send r) ∧
  match s_customized_info r with
  | None => True
  | Some kvs => NoDup kvs.*1 ∧ Forall (values_cover request_level (zlen (output_ids (s_fin r)))) kvs
  end.

Lemma admit_frame (r r1 : StreamReq V) b : admit_output interval force r = Ok (b, r1) →
  s_customized_info r1 = s_customized_info r ∧ send_token_offset (s_send r1) = send_token_offset (s_send r) ∧ output_ids (s_fin r1) = output_ids (s_fin r).
Proof.
  unfold admit_output. destruct (finished (s_fin r)).
  - destruct (negb _); [|done]. cbn. intros [= _ <-]. by destruct (finished_len (s_fin r)).
  - destruct (should_output _ _ r); [|done]. by intros [= _ <-].
Qed.

Lemma through_stop_le (f : FinReq) : zlen (through_stop f) ≤ zlen (output_ids f).
Proof.
  unfold through_stop. destruct (finished_len f) as [n|]; [|lia]. unfold pytake, pyslice, zlen. rewrite length_take, length_drop. lia.
Qed.

Lemma accept_info r r' acc acc' : request_ok r → info_ok request_level (id_lens (acc_entries acc)) (acc_info acc) →
  accept interval force version return_logprob return_hidden_states decode_server rust_server_mode request_level r acc = Ok (r', acc') →
  info_ok request_level (id_lens (acc_entries acc')) (acc_info acc').
Proof.
  intros [Hoff Hci] Hi. unfold accept. destruct (admit_output interval force r) as [[b r1]|] eqn:Ea; cbn [rbind]; [|done].
  apply admit_frame in Ea as (E1 & E2 & E3). destruct b; cbn [negb]; [|by intros [= _ <-]].
  set (n := zlen (through_stop (s_fin r1))). set (from := send_token_offset (s_send r1)).
  assert (zlen (pydrop (through_stop (s_fin r1)) from) = Z.max 0 (n - from)) as Hnew by (apply zlen_pydrop; unfold from; lia).
  destruct (if rust_server_mode then _ else _) as [[detok f] off]. destruct (input_logprob_entry _ _ r1) as [il isent].
  destruct (output_logprob_entry _ r1 _) as [ol loff]. intros [= _ <-]. cbn [acc_entries acc_info]. unfold id_lens. rewrite fmap_app. cbn [fmap list_fmap en_output_ids].
  rewrite Hnew. change ((λ e, zlen (en_output_ids e)) <$> acc_entries acc) with (id_lens (acc_entries acc)).
  apply pad_info_ok; [lia|]. assert (∀ todo, info_part request_level (id_lens (acc_entries acc)) (Z.max 0 (n - from)) todo (acc_info acc)) as Hp.
  { intros todo. split. eapply Forall_impl; [exact Hi|]. intros e He. by left. }
  rewrite E1. destruct (s_customized_info r) as [kvs|]; [|apply Hp]. destruct Hci as [Hnd Hcov]. apply fold_info_part; try done.
  - apply Forall_fmap, Forall_forall. intros e _. apply zlen_nonneg.
  - unfold from. lia.
  - apply zlen_nonneg.
  - eapply Forall_impl; [exact Hcov|]. intros [k vs] Hv Hk. specialize (Hv Hk). cbn in *. destruct vs as [vs|]; [|done].
    pose proof (through_stop_le (s_fin r1)). rewrite E3 in *. unfold n. lia.
Qed.

Lemma loop_info skip i reqs acc reqs' acc' : Forall request_ok reqs → info_ok request_level (id_lens (acc_entries acc)) (acc_info acc) →
  stream_loop interval force version return_logprob return_hidden_states decode_server rust_server_mode request_level skip i reqs acc = Ok (reqs', acc') →
  info_ok request_level (id_lens (acc_entries acc')) (acc_info acc').
Proof.
  intros Hf. revert i acc reqs' acc'. induction Hf as [|r reqs Hr _ IH]; intros i acc reqs' acc' Hi; cbn [stream_loop]; [by intros [= _ <-]|].
  destruct (bool_decide _ || _); cbn [rbind].
  - destruct (stream_loop _ _ _ _ _ _ _ _ _ _ _ _) as [[rs a]|] eqn:E; [|done]. intros [= _ <-]. by eapply IH.
  - destruct (accept _ _ _ _ _ _ _ _ _ _) as [[r1 a1]|] eqn:Ea; cbn [rbind]; [|done].
    destruct (stream_loop _ _ _ _ _ _ _ _ _ _ _ _) as [[rs a]|] eqn:E; [|done]. intros [= _ <-]. eapply IH; [|exact E]. by eapply accept_info.
Qed.
End batch.

(** ** The property *)

(** C22: the message of a batch holds, in order, what each of its requests would
    send alone (the one that is left out sends nothing), fails only if one of them
    would, and its added values have one item per entry, with one value per id
    unless the key is of the whole request. *)
Theorem batch_message {V} interval force version rl rh ds rust level (reqs : list (StreamReq V)) skip idle :
  Forall (request_ok level) reqs →
  match _stream_output_generation interval force version rl rh ds rust level reqs skip idle with
  | Raise x => ∃ k r, reqs !! k = Some r ∧ skip ≠ Some k ∧ send_one interval force version rl rh ds rust level r = Raise x
  | Ok (reqs', payload) => ∃ es, length reqs' = length reqs ∧ length es = length reqs ∧
      (∀ k r, reqs !! k = Some r →
        if decide (skip = Some k) then reqs' !! k = Some r ∧ es !! k = Some None
        else ∃ r' e, send_one interval force version rl rh ds rust level r = Ok (r', e) ∧ reqs' !! k = Some r' ∧ es !! k = Some e) ∧
      match payload with
      | Some acc => acc_entries acc = omap id es ∧ info_ok level (id_lens (acc_entries acc)) (acc_info acc)
      | None => omap id es = []
      end
  end.
Proof.
  intros Hok. unfold _stream_output_generation. pose proof (stream_loop_spec interval force version rl rh ds rust level skip 0 reqs (mkAcc [] [])) as H.
  destruct (stream_loop _ _ _ _ _ _ _ _ skip 0 reqs _) as [[reqs' acc]|x] eqn:E; cbn [rbind].
  - destruct H as (es & d & -> & H1 & H2 & H3). exists es. split; [done|]. split; [done|]. split; [exact H3|].
    eapply loop_info in E; [|done|by constructor]. cbn [acc_entries acc_info app] in *. unfold to_payload. cbn [acc_entries].
    destruct (Z.eqb_spec (zlen (omap id es)) 0) as [Hz%zlen_nil_inv|_]; cbn; [|done]. destruct idle; [done|exact Hz].
  - exact H.
Qed.
