(* ===== verification/StreamText.v ===== *)
(** * From the model's tokens to the client's text

    The messages the streamer sends for one request, given to the detokenizer one
    after the other, make the text of the request's output, cut at its stop. *)
From S2P Require Import Prelude Text Finish FinishTheorems Detokenizer DetokTheorems DetokBatch WeightVersions Streamer StreamerTheorems.

Section text.
Context {V : Type}.
Context (is_fast gpt : bool) (tok_vocab : option Z).
Context (batch_decode : list (list Z) → bool → bool → list text) (decode : list Z → bool → bool → text).
Context (decode_plain : list Z → text) (special_ids : option (list Z)).
Context (Hbatch : ∀ l skip space, batch_decode l skip space = (λ ids, decode ids skip space) <$> l).

(** The detokenizer over the messages of one request. *)
Definition detok_step := item_step is_fast false gpt tok_vocab batch_decode decode decode_plain special_ids.
Fixpoint detok_run (s : option DecodeStatus) (items : list TokenOut) : result (list text * option DecodeStatus) :=
  match items with
  | [] => Ok ([], s)
  | o :: items =>
      let! (t, s) := detok_step s o in
      let! (ts, s) := detok_run s items in Ok (t :: ts, s)
  end.

Context (r0 : StreamReq V) (Htext : decoded_text (s_fin r0) = []).
Abbreviation skip := (s_skip_special_tokens r0).
Abbreviation space := (s_spaces_between_special_tokens r0).
Abbreviation D := (λ ids, decode_row is_fast batch_decode decode_plain special_ids ids skip space).
Abbreviation clamp ids := (_clamp_decode_ids ids tok_vocab).
Abbreviation pt := (prompt_tail (s_fin r0)).

(** The state before the first message. *)
Definition base : DecodeStatus := new_status [] (clamp pt) (zlen pt).

Lemma clamp_app a b : clamp (a ++ b) = clamp a ++ clamp b.
Proof. apply fmap_app. Qed.
Lemma zlen_clamp ids : zlen (clamp ids) = zlen ids.
Proof. unfold _clamp_decode_ids, zlen. by rewrite length_fmap. Qed.

Lemma the_text_row ids : the_text is_fast false decode decode_plain special_ids (ids, (skip, space)) = D ids.
Proof. unfold the_text. by rewrite (decode_row_spec is_fast batch_decode decode). Qed.

(** The state the detokenizer holds and the state [s] of the stream. *)
Definition view (first : bool) (out : list Z) (st : option DecodeStatus) (s : DecodeStatus) : Prop :=
  if first then st = None ∧ s = base ∧ out = [] else st = Some s.

(** The item of a message: its ids continue the stream. *)
Lemma message_item first out out' e st s : message false r0 first out out' e → view first out st s →
  ∃ o, token_out e = Some o ∧ opened tok_vocab st o = extend_ids (clamp (en_output_ids e)) s ∧
    to_finished o = to_json <$> en_finished_reason e ∧ to_no_stop_trim o = s_no_stop_trim r0 ∧ flags o = (skip, space).
Proof.
  intros [Hids Hd (_ & _ & _ & _ & _ & Hsk & Hsp & Hns & _) _] Hv. unfold token_out. rewrite Hd. eexists. split; [reflexivity|].
  split; [|cbn; unfold flags; cbn; by rewrite Hsk, Hsp, Hns]. unfold opened. cbn [to_ids to_text to_read]. destruct first; cbn [view] in Hv.
  - destruct Hv as (-> & -> & ->). cbn in Hids. subst out'. rewrite Htext, clamp_app. done.
  - by rewrite Hv.
Qed.

Abbreviation step_ := (stream_step is_fast batch_decode decode_plain special_ids skip space).
Abbreviation all_ := (stream_all is_fast batch_decode decode_plain special_ids skip space).
Abbreviation surr_ := (surr_text is_fast batch_decode decode_plain special_ids skip space).

(** A message before the last. *)
Lemma stream_item st o s x : opened tok_vocab st o = extend_ids x s → flags o = (skip, space) → to_finished o = None →
  detok_step st o = Ok ((step_ x s).1, Some (step_ x s).2).
Proof.
  intros Eo Ef En. unfold detok_step, item_step. rewrite Eo. unfold read_row, finish_item. rewrite En, Ef. cbn [trim_matched_ids rbind].
  unfold surr_row. rewrite Ef, !the_text_row. unfold stream_step, surr_text, new_text, surr_text. injection Ef as -> ->. by destruct (stream_text _ _ _ _ _ _ _ _ _).
Qed.

(** The last message. *)
Lemma final_item st o s x kept : opened tok_vocab st o = extend_ids x s → flags o = (skip, space) → is_Some (to_finished o) →
  trim_matched_ids gpt (pydrop (ds_ids s ++ x) (ds_surr s)) (to_finished o) (to_no_stop_trim o) = Ok kept →
  detok_step st o = Ok (final_text (extend_ids x s) (pydrop (D kept) (zlen (surr_ (extend_ids x s)))) o, None).
Proof.
  intros Eo Ef [m En] Hk. unfold detok_step, item_step. rewrite Eo. unfold read_row, finish_item. cbn [extend_ids ds_ids ds_surr]. rewrite Hk. cbn [rbind].
  rewrite En, Ef. unfold surr_row. rewrite Ef, !the_text_row. done.
Qed.

(** The ids the messages add. *)
Definition added (es : list (Entry V)) : list (list Z) := (λ e, clamp (en_output_ids e)) <$> es.

Lemma omap_cons_eq (e : Entry V) es o : token_out e = Some o → omap token_out (e :: es) = o :: omap token_out es.
Proof. intros E. cbn. by rewrite E. Qed.

(** All messages of a request that is done. *)
Lemma detok_all es e why first out out' st s kept : messages false r0 first out (es ++ [e]) out' → view first out st s →
  Forall (λ e, en_finished_reason e = None) es → en_finished_reason e = Some why →
  let s' := (all_ (added es) s).2 in let x := clamp (en_output_ids e) in
  trim_matched_ids gpt (pydrop (ds_ids s' ++ x) (ds_surr s')) (Some (to_json why)) (s_no_stop_trim r0) = Ok kept →
  ∃ o ts, detok_run st (omap token_out (es ++ [e]))
          = Ok (ts ++ [final_text (extend_ids x s') (pydrop (D kept) (zlen (surr_ (extend_ids x s')))) o], None) ∧
    concat ts = (all_ (added es) s).1 ∧ to_finished o = Some (to_json why) ∧ to_no_stop_trim o = s_no_stop_trim r0.
Proof.
  intros Hm Hv Hn Hw. revert first out st s Hm Hv. induction es as [|e1 es IH]; intros first out st s (out1 & Hm1 & Hms) Hv s' x Hk.
  - destruct (message_item first out out1 e st s Hm1 Hv) as (o & Eo & Eop & Ef & Ens & Efl). rewrite Hw in Ef. cbn [fmap option_fmap option_map] in Ef.
    exists o, []. rewrite <- Ef, <- Ens in Hk. cbn [app omap list_omap]. rewrite Eo. cbn [detok_run].
    rewrite (final_item st o s x kept Eop Efl ltac:(by rewrite Ef) Hk). done.
  - inversion_clear Hn as [|? ? Hn1 Hn2]. destruct (message_item first out out1 e1 st s Hm1 Hv) as (o1 & Eo & Eop & Ef & _ & Efl). rewrite Hn1 in Ef.
    pose proof (stream_item st o1 s _ Eop Efl Ef) as Es. change ((e1 :: es) ++ [e]) with (e1 :: (es ++ [e])). rewrite (omap_cons_eq _ _ _ Eo). cbn [detok_run]. rewrite Es. cbn [rbind].
    subst s' x. unfold added in *. cbn [fmap list_fmap stream_all] in *. set (q := step_ (clamp (en_output_ids e1)) s) in *. destruct q as [t1 s1].
    destruct (all_ ((λ e, clamp (en_output_ids e)) <$> es) s1) as [rest s2] eqn:Ea. cbn [fst snd] in *.
    destruct (IH Hn2 false out1 (Some s1) s1 Hms eq_refl) as (o & ts & E & Ec & Et). { by rewrite Ea. }
    rewrite Ea in E, Ec. cbn [fst snd] in E, Ec. rewrite E. cbn [rbind].
    exists o, (t1 :: ts). split; [done|]. cbn. by rewrite Ec.
Qed.

Lemma messages_last first out es e out' : messages false r0 first out (es ++ [e]) out' → ∃ f o1 o2, message false r0 f o1 o2 e.
Proof.
  revert first out. induction es as [|e1 es IH]; intros first out (out1 & Hm & Hms); [by eexists _, _, _|]. by apply IH in Hms.
Qed.

(** Before the first message. *)
Lemma base_streaming : ends_with (D (clamp pt)) FFFD = false →
  streaming is_fast batch_decode decode_plain special_ids skip space (D (clamp pt)) [] base.
Proof.
  intros He. assert (take (Z.to_nat (zlen pt)) (clamp pt) = clamp pt) as E.
  { apply take_ge. pose proof (zlen_clamp pt). unfold zlen in *. lia. }
  pose proof (new_streaming is_fast batch_decode decode_plain special_ids skip space (clamp pt) (zlen pt)) as H. cbv beta in H. rewrite E in H.
  apply H; [|done]. rewrite zlen_clamp. pose proof (zlen_nonneg pt). lia.
Qed.

(** With an id left to drop, trimming the ids does not fail. *)
Lemma trim_ids_ok ids x surr why : 0 ≤ surr ≤ zlen ids → ((∃ t, why = FINISH_MATCHED_TOKEN t) → x ≠ []) →
  ∃ kept, trim_matched_ids gpt (pydrop (ids ++ x) surr) (Some (to_json why)) (s_no_stop_trim r0) = Ok kept.
Proof.
  intros Hs Hx. unfold trim_matched_ids. destruct why; cbn [to_json]; try by eexists. destruct (s_no_stop_trim r0); [by eexists|].
  destruct (last _) as [t|] eqn:El; [destruct (_ && _); by eexists|]. exfalso. apply last_None in El.
  rewrite pydrop_eq, drop_app_le in El by (unfold zlen in *; lia). apply app_eq_nil in El as [_ ?]. apply Hx; [by eexists|done].
Qed.
End text.

(** ** The property *)

(** C19: for a tokenizer that decodes bytes, the pieces of text a client receives
    for a request (the detokenizer run on the streamer's messages) are, put
    together, the text of the request's output through its stop decoded at once
    after the end of the prompt, without a matched stop token, cut at the first
    occurrence of the matched stop text; only if that lies in what was sent already
    is the last piece empty instead, and the client keeps the text past it.
    [unstuck] leaves out the runs in which unclear ends go on for so long that they
    are taken for text, or the offset of what was sent goes back, which only CJK
    characters in unclear text can make it do ([words_forward]). *)
Theorem client_text_exact {V} interval force version rl rh ds level overlap vocab_size eos_token_ids re_search
    is_fast gpt tok_vocab batch_decode decode decode_plain special_ids ticks (r0 r : StreamReq V) es :
  let D ids := decode_row is_fast batch_decode decode_plain special_ids ids (s_skip_special_tokens r0) (s_spaces_between_special_tokens r0) in
  let clamp ids := _clamp_decode_ids ids tok_vocab in
  (∀ l skip space, batch_decode l skip space = (λ ids, decode ids skip space) <$> l) → char_decoder D →
  params_ok (s_params r0) (s_tokenizer r0) → re_ok re_search → Forall (λ t, tk_tokens t ≠ []) ticks →
  unsent r0 → decoded_text (s_fin r0) = [] → ends_with (D (clamp (prompt_tail (s_fin r0)))) FFFD = false →
  run interval force version rl rh ds false level overlap vocab_size eos_token_ids re_search ticks r0 = Ok (es, r) →
  finished (s_fin r) = true →
  unstuck is_fast batch_decode decode_plain special_ids (s_skip_special_tokens r0) (s_spaces_between_special_tokens r0)
    (added tok_vocab (take (length es - 1) es)) (base tok_vocab r0) →
  ∃ why ts t out whole, finished_reason (s_fin r) = Some why ∧
    detok_run is_fast gpt tok_vocab batch_decode decode decode_plain special_ids None (omap token_out es) = Ok (ts ++ [t], None) ∧
    (out = clamp (through_stop (s_fin r)) ∨
     (∃ m, why = FINISH_MATCHED_TOKEN m) ∧ ∃ stop, clamp (through_stop (s_fin r)) = out ++ [stop]) ∧
    D (clamp (prompt_tail (s_fin r0)) ++ out) = D (clamp (prompt_tail (s_fin r0))) ++ whole ∧
    let cut := trim_matched_text whole (Some (to_json why)) (s_no_stop_trim r0) in
    concat (ts ++ [t]) = cut ∨ t = [] ∧ cut `prefix_of` concat ts.
Proof.
  intros D clamp Hb HD Hpar Hre Hne Hu Htx He Er Hf Hun.
  destruct (run_ok interval force version rl rh ds false level overlap vocab_size eos_token_ids re_search Hre ticks r0 r0 [])
    as (es1 & r1 & out & E & Hm & _ & Htl & _); [by split_and!|done|done|by apply unsent_sending|].
  rewrite Er in E. injection E as <- <-. destruct Htl as [[Hse _]|[[_ _ Ha] (es0 & e & -> & HF & Hw)]]; [by rewrite (se_open _ _ _ Hse) in Hf|].
  rewrite length_app, Nat.add_sub in Hun. cbn [length] in Hun. rewrite take_app_length in Hun.
  unfold first_of in Hm. rewrite bool_decide_true in Hm by apply Hu. unfold finished in Hf. destruct (finished_reason (s_fin r)) as [why|] eqn:Ew; [|done].
  pose proof (messages_ids _ _ _ _ _ _ Hm) as Hids. cbn [app] in Hids. rewrite Ha in Hids.
  set (P := D (clamp (prompt_tail (s_fin r0)))) in *. set (x := clamp (en_output_ids e)).
  assert (Hnew : (∃ t, why = FINISH_MATCHED_TOKEN t) → x ≠ []).
  { intros [t ->] E. destruct (messages_last _ _ _ _ _ _ Hm) as (f1 & o1 & o2 & [_ _ _ Hn]). apply (Hn t); [by rewrite Hw|].
    unfold x, clamp, _clamp_decode_ids in E. by apply fmap_nil_inv in E. }
  pose proof (base_streaming is_fast tok_vocab batch_decode decode_plain special_ids r0 He) as Hb0.
  destruct (all_streaming _ _ _ _ _ _ HD _ [] _ _ Hb0 Hun) as [Hs Hds]. set (a := stream_all _ _ _ _ _ _ _ _) in Hs, Hds.
  pose proof (so_range _ _ _ _ _ _ _ _ _ Hs) as Hr.
  destruct (trim_ids_ok gpt r0 (ds_ids a.2) x (ds_surr a.2) why ltac:(lia) Hnew) as [kept Hk].
  destruct (detok_all is_fast gpt tok_vocab batch_decode decode decode_plain special_ids Hb r0 Htx es0 e why true [] out None
    (base tok_vocab r0) kept Hm ltac:(done) HF Hw Hk) as (o & ts & Ed & Ec & Eo & Ens). fold a in Ec, Ed.
  fold (clamp (en_output_ids e)) in Ed. fold x in Ed. rewrite (surr_text_extend _ _ _ _ _ _ _ _ _ x Hs) in Ed.
  rewrite <- Eo, <- Ens in Hk. destruct (final_streaming _ _ _ _ _ _ HD _ _ _ x gpt o kept Hs) as (x' & whole & Hx' & Hwh & Hc).
  { intros Ex z Ez. rewrite Eo in Ez. destruct why; try done. apply Hnew; [by eexists|done]. }
  { exact Hk. }
  rewrite Eo, Ens in Hc. rewrite app_nil_l in Hs, Hc. eexists why, ts, _, (concat (added tok_vocab es0) ++ x'), whole.
  split; [done|]. split; [exact Ed|].
  assert (clamp (through_stop (s_fin r)) = concat (added tok_vocab es0) ++ x) as Ets.
  { rewrite Hids, fmap_app, concat_app. cbn. rewrite app_nil_r. unfold clamp at 1. rewrite clamp_app. f_equal. unfold added, clamp, _clamp_decode_ids.
    clear. induction es0 as [|e1 es IH]; [done|]. cbn. by rewrite fmap_app, IH. }
  split; [|split].
  - destruct Hx' as [->|[[z Ez] [t ->]]]; [by left|right]. split; [|exists t; by rewrite Ets, app_assoc].
    rewrite Eo in Ez. destruct why; try done. by eexists.
  - rewrite Hds in Hwh. cbn [base new_status ds_ids] in Hwh. by rewrite <- app_assoc in Hwh.
  - cbv zeta. rewrite concat_app, Ec. cbn [concat app]. rewrite app_nil_r. exact Hc.
Qed.
