(* ===== verification/StreamerCases.v ===== *)
(** * A request streamed to its end

    A tokenizer with half characters, a stop string, a message held back: the
    witnesses, and two cases in which the client is sent something else than the
    output: a retracted request with input embeddings, a stop pattern. *)
From S2P Require Import Prelude Text Finish FinishTheorems FinishCases Detokenizer DetokTheorems DetokBatch.
From S2P Require Import WeightVersions Streamer StreamerTheorems StreamerBatch StreamText.

Module StreamDemo.
Definition tk : Tokenizer := mkTokenizer None [] half_decode.
Definition params : SamplingParams := mkParams [txt "!!"] 2 [] 0 [] 20 false.
Definition fin (prompt out : list Z) : FinReq := mkFin prompt out None None None [] None None [] 0.
Definition req (sp : SamplingParams) (prompt : list Z) : StreamReq Z :=
  mkStream "a" (fin prompt []) sp (Some tk) true None true true false (zlen prompt) (mkSend false 0 0 false 0) false false
    (mkInLp None None None None None None None None None) (mkOutLp [] [] [] [] [] []) HiddenNo [] (Some [("score", Some [7; 8; 9; 10; 11; 12; 13])]) [].
Definition ticks : list tick := (λ l, mkTick l None None) <$> [txt "hi "; [1]; [2; 33]; [33; 34]].

Abbreviation demo_run := (run 1 50 "v1" false false false false (λ _, false) true None [] demo_search).
Definition after_run (ts : list tick) (r : StreamReq Z) : list (Entry Z) * StreamReq Z := match demo_run ts r with Ok x => x | Raise _ => ([], r) end.

Lemma params_fine : params_ok params (Some tk).
Proof. by split; [| |eexists]. Qed.
Lemma req_unsent : unsent (req params (txt "abcdefA")).
Proof. by split. Qed.
Lemma ticks_some : Forall (λ t, tk_tokens t ≠ []) ticks.
Proof. by repeat constructor. Qed.
End StreamDemo.
Import StreamDemo.

(** The message with the first [!] is held back; the last tells of the stop. *)
Lemma each_token_sent_once_witness : ∃ es r', demo_run ticks (req params (txt "abcdefA")) = Ok (es, r') ∧
  concat (en_output_ids <$> es) = txt "hi " ++ [1; 2; 33; 33] ∧ length es = 3%nat.
Proof.
  destruct (each_token_sent_once 1 50 "v1" false false false false (λ _, false) true None [] demo_search ticks (req params (txt "abcdefA")))
    as (es & r' & E & _ & H); [apply params_fine|apply demo_search_ok|apply ticks_some|apply req_unsent|].
  exists es, r'. split; [exact E|]. vm_compute in E. injection E as <- <-. split; [|reflexivity]. destruct H as [H _]. exact H.
Defined.

Lemma stream_keeps_up_witness : caught_up 1 (after_run (take 3 ticks) (req params (txt "abcdefA"))).2.
Proof.
  apply (stream_keeps_up 1 50 "v1" false false false false (λ _, false) true None [] demo_search (take 3 ticks) (req params (txt "abcdefA"))
    (after_run (take 3 ticks) (req params (txt "abcdefA"))).1);
    [apply params_fine|apply demo_search_ok|by repeat constructor|apply req_unsent|done|done|vm_compute; reflexivity|vm_compute; reflexivity].
Defined.

(** A batch of the request after its first step and another one, left out. *)
Definition first_step : StreamReq Z := with_fin (fin (txt "abcdefA") (txt "hi ")) (req params (txt "abcdefA")).
Lemma batch_message_witness : ∃ reqs' acc,
  _stream_output_generation 1 50 "v1" false false false false (λ _, false) [first_step; first_step] (Some 1%nat) false = Ok (reqs', Some acc) ∧
  acc_info acc = [("score", [[Some 7; Some 8; Some 9]])] ∧ info_ok (λ _, false) [3] (acc_info acc).
Proof.
  assert (request_ok (λ _, false) first_step) as Hok.
  { split; [done|]. split; [repeat constructor; set_solver|]. repeat constructor. intros _. vm_compute. discriminate. }
  pose proof (batch_message 1 50 "v1" false false false false (λ _, false) [first_step; first_step] (Some 1%nat) false
    (Forall_cons_2 _ _ _ Hok (Forall_cons_2 _ _ _ Hok (Forall_nil_2 _)))) as H.
  destruct (_stream_output_generation 1 50 "v1" false false false false (λ _, false) [first_step; first_step] (Some 1%nat) false) as [[reqs' p]|] eqn:E;
    vm_compute in E; [|discriminate]. injection E as <- <-. destruct H as (es & _ & _ & _ & _ & Hi).
  eexists _, _. split; [reflexivity|]. split; [reflexivity|exact Hi].
Defined.

Lemma spans_exact_witness : compute_weight_version_spans [mkWv "v0" 2; mkWv "v1" 2; mkWv "v1" 5] "v2" 7 = [mkSpan "v0" 0 2; mkSpan "v1" 2 5; mkSpan "v2" 5 7] ∧
  covers (compute_weight_version_spans [mkWv "v0" 2; mkWv "v1" 2; mkWv "v1" 5] "v2" 7) 3 "v1".
Proof.
  destruct (spans_exact [mkWv "v0" 2; mkWv "v1" 2; mkWv "v1" 5] "v2" 7) as [_ H]; [done|by repeat constructor|].
  split; [reflexivity|]. apply (H 3). lia.
Defined.

Abbreviation demo_detok := (detok_run true false None half_batch (λ ids _ _, half_decode ids) half_decode None).

(** The client reads ["hi é"]: the stop string is cut off. *)
Lemma client_text_exact_witness : ∃ ts t, demo_detok None (omap token_out (after_run ticks (req params (txt "abcdefA"))).1) = Ok (ts ++ [t], None) ∧
  concat (ts ++ [t]) = txt "hi " ++ [233].
Proof.
  set (r0 := req params (txt "abcdefA")).
  destruct (client_text_exact 1 50 "v1" false false false (λ _, false) true None [] demo_search true false None half_batch (λ ids _ _, half_decode ids)
    half_decode None ticks r0 (after_run ticks r0).2 (after_run ticks r0).1) as (why & ts & t & out & whole & _ & E & _);
    [done|apply half_row_decoder|apply params_fine|apply demo_search_ok|apply ticks_some|apply req_unsent|done|vm_compute; reflexivity
    |vm_compute; reflexivity|vm_compute; reflexivity|vm_compute; repeat split; intros [=]|].
  exists ts, t. split; [exact E|].
  assert (demo_detok None (omap token_out (after_run ticks r0).1) = Ok ([txt "hi "; []; [233]], None)) as E2 by (vm_compute; reflexivity).
  rewrite E in E2. injection E2 as ->. reflexivity.
Defined.

(** ** Two streams that differ from the output *)

(** A request with input embeddings that is retracted forgets its output ids and
    computes them again, but keeps its offsets: with every token streamed, the
    second message after the retraction sends the second token once more. *)
Definition forget (r : StreamReq Z) : StreamReq Z := with_fin (set_output [] (s_fin r)) r.
Definition twice : list (list Z) :=
  let t (z : Z) := mkTick [z] None None in
  let (es1, r) := after_run [t 104; t 105; t 106] (req params (txt "A")) in
  let (es2, r) := after_run [t 104; t 105; t 106; t 107] (forget r) in
  en_output_ids <$> es1 ++ es2.
Example retracted_embeds_sent_twice : twice = [[104]; [105]; [106]; []; [105]; [106]; [107]].
Proof. vm_compute. reflexivity. Qed.

(** A stop pattern is reported by its source, and the detokenizer cuts the text at
    the source: here the pattern [\d] stops at the digit, and the text ends before
    the place where the model wrote the pattern itself. *)
Definition digit_search (p t : text) : option bool :=
  if bool_decide (p = txt "\d") then Some (existsb (λ c, (48 <=? c) && (c <=? 57)) t) else Some false.
Definition digit_params : SamplingParams := mkParams [] 0 [txt "\d"] 1 [] 20 false.
Definition digit_run : list (Entry Z) * StreamReq Z :=
  match run 1 50 "v1" false false false false (λ _, false) true None [] digit_search
          ((λ c, mkTick [c] None None) <$> txt "a \d is 5") (req digit_params (txt "A")) with
  | Ok x => x | Raise _ => ([], req digit_params []) end.
Example pattern_cut_at_its_source :
  through_stop (s_fin digit_run.2) = txt "a \d is 5" ∧
  trim_matched_text (half_decode (through_stop (s_fin digit_run.2))) (to_json <$> finished_reason (s_fin digit_run.2)) false = txt "a ".
Proof. vm_compute. split; reflexivity. Qed.
