(* ===== verification/Reasoning.v ===== *)
(** * Splitting reasoning from the answer ([parser/reasoning_parser.py])

    [BaseReasoningFormatDetector] separates the reasoning block of an output from the
    answer, at once or as the text arrives in pieces; the detectors of the model
    families that only choose its marks are its configurations.

    A mark can be split over pieces: what might be the beginning of one is held back
    until the next piece or the end. *)
From S2P Require Import Prelude Text.
Local Open Scope Z_scope.

Record StreamingParseResult := mkParse { normal_text : text; reasoning_text : text }.
Definition no_text : StreamingParseResult := mkParse [] [].

(** ** Configuration and state *)

Record Detector := mkDetector {
  think_start_token : text;
  think_end_token : text;
  tool_start_token : text;                 (* empty when there is none *)
  tool_start_at_line_start : bool;
  force_reasoning : bool;
  stream_reasoning : bool;
  think_start_self_label : text;
  _force_nonempty_content : bool;
  previous_content : text
}.

Record DetState := mkDetState {
  _in_reasoning : bool;
  _buffer : text;
  _streamed_reasoning_tail : text;         (* one character, or nothing *)
  stripped_think_start : bool;
  _accumulated_reasoning : text
}.

Definition think_start_text (d : Detector) : text := think_start_token d ++ think_start_self_label d.

Definition detector_init (d : Detector) : DetState :=
  let r := force_reasoning d in
  let r := if str_in (think_start_token d) (previous_content d) then true else r in
  let r := if str_in (think_end_token d) (previous_content d) then false else r in
  mkDetState r [] [] false [].

Definition set_state (r : bool) (buffer : text) (s : DetState) : DetState :=
  mkDetState r buffer (_streamed_reasoning_tail s) (stripped_think_start s) (_accumulated_reasoning s).

(** ** Marks *)

(** [token.startswith(current)] and not the whole token. *)
Definition strict_prefix (current token : text) : bool := bool_decide (current `prefix_of` token) && negb (bool_decide (token = current)).

(** [text.find(token, k)]. *)
Definition str_find_at (s t : text) (k : Z) : Z := if zlen t <? k then -1 else find_from s (pydrop t k) k.

(** The character before position [idx]. *)
Definition prev_char (t : text) (idx : Z) (preceded_by : text) : text := if 0 <? idx then pyslice t (idx - 1) idx else preceded_by.
Definition starts_line (prev : text) : bool := bool_decide (prev = []) || bool_decide (prev = [10]).

Fixpoint tool_loop (fuel : nat) (d : Detector) (t preceded_by : text) (idx : Z) : Z :=
  match fuel with
  | O => -1
  | S fuel =>
      if idx =? -1 then -1
      else if negb (tool_start_at_line_start d) || starts_line (prev_char t idx preceded_by) then idx
      else tool_loop fuel d t preceded_by (str_find_at (tool_start_token d) t (idx + 1))
  end.
Definition _find_tool_start (d : Detector) (t preceded_by : text) : Z :=
  if bool_decide (tool_start_token d = []) then -1
  else tool_loop (S (S (length t))) d t preceded_by (str_find (tool_start_token d) t).

(** The longest end of [buffer] that is the beginning of [token], and not all of it. *)
Fixpoint partial_loop (i : nat) (buffer token : text) : Z :=
  match i with
  | O => 0
  | S i' => if bool_decide (drop (length buffer - i) buffer `prefix_of` token) then Z.of_nat i else partial_loop i' buffer token
  end.
Definition _ends_with_partial_token (buffer token : text) : Z := partial_loop (length buffer `min` (length token - 1))%nat buffer token.

Definition _strip_partial_tool_start (d : Detector) (t preceded_by : text) : text :=
  if negb (tool_start_at_line_start d) || bool_decide (t = []) then t
  else
    let n := _ends_with_partial_token t (tool_start_token d) in
    if n =? 0 then t
    else
      let start := zlen t - n in
      if starts_line (prev_char t start preceded_by) then pytake t start else t.

Definition _strip_leading_think_start (d : Detector) (t : text) : text :=
  if bool_decide (think_start_text d `prefix_of` t) then pydrop t (zlen (think_start_text d)) else t.

(** ** At once *)

(** [while processed_text.startswith(think_start_text)]. *)
Fixpoint strip_starts (fuel : nat) (d : Detector) (t : text) : text :=
  match fuel with
  | O => t
  | S fuel => if bool_decide (think_start_text d `prefix_of` t) then strip_starts fuel d (pydrop t (zlen (think_start_text d))) else t
  end.

Definition _detect_and_parse_impl (d : Detector) (s : DetState) (t : text) : StreamingParseResult :=
  if negb (_in_reasoning s || str_in (think_start_token d) t) then mkParse t []
  else
    let processed_text := strip_starts (length t) d t in
    if negb (str_in (think_end_token d) processed_text) && negb (str_in (think_end_token d) (previous_content d)) then
      let tool_idx := _find_tool_start d processed_text [] in
      if negb (tool_idx =? -1) then mkParse (pydrop processed_text tool_idx) (pytake processed_text tool_idx)
      else mkParse [] (_strip_partial_tool_start d processed_text [])
    else if str_in (think_end_token d) processed_text then
      let end_idx := str_find (think_end_token d) processed_text in
      mkParse (pydrop processed_text (end_idx + zlen (think_end_token d))) (pytake processed_text end_idx)
    else mkParse processed_text [].

Definition _maybe_apply_force_nonempty_content (d : Detector) (r : StreamingParseResult) : StreamingParseResult :=
  if _force_nonempty_content d && bool_decide (normal_text r = []) then mkParse (reasoning_text r) (normal_text r) else r.

Definition detect_and_parse (d : Detector) (s : DetState) (t : text) : StreamingParseResult :=
  _maybe_apply_force_nonempty_content d (_detect_and_parse_impl d s t).

(** ** In pieces *)

Definition tokens_to_check (d : Detector) : list text :=
  [think_start_text d; think_end_token d] ++ if bool_decide (tool_start_token d = []) then [] else [tool_start_token d].

(** [current_text.replace(think_start_text, "", 1)]. *)
Definition remove_first (s t : text) : text :=
  let i := str_find s t in if i =? -1 then t else pytake t i ++ pydrop t (i + zlen s).

Definition holdback_tokens (d : Detector) (s : DetState) : list text :=
  [think_end_token d] ++ (if bool_decide (tool_start_token d = []) then [] else [tool_start_token d])
  ++ (if stripped_think_start s then [] else [think_start_text d]).
Definition holdback (d : Detector) (s : DetState) (t : text) : Z :=
  foldr Z.max 0 ((λ token, _ends_with_partial_token t token) <$> holdback_tokens d s).

(** From the end mark on, with the opening mark taken out. *)
Definition parse_current (d : Detector) (s : DetState) (current_text : text) : StreamingParseResult * DetState :=
  if _in_reasoning s && str_in (think_end_token d) current_text then
    let end_idx := str_find (think_end_token d) current_text in
    (mkParse (pydrop current_text (end_idx + zlen (think_end_token d))) (pytake current_text end_idx), set_state false [] s)
  else if _in_reasoning s then
    let tool_idx := _find_tool_start d current_text (_streamed_reasoning_tail s) in
    if negb (tool_idx =? -1) then (mkParse (pydrop current_text tool_idx) (pytake current_text tool_idx), set_state false [] s)
    else if stream_reasoning d then
      let cut := zlen current_text - holdback d s current_text in
      let reasoning := pytake current_text cut in
      (mkParse [] reasoning,
       mkDetState true (pydrop current_text cut) (if bool_decide (reasoning = []) then _streamed_reasoning_tail s else pydrop reasoning (zlen reasoning - 1))
         (stripped_think_start s) (_accumulated_reasoning s))
    else (no_text, s)
  else (mkParse current_text [], set_state false [] s).

Definition _parse_streaming_increment_impl (d : Detector) (new_text : text) (s : DetState) : StreamingParseResult * DetState :=
  let s := set_state (_in_reasoning s) (_buffer s ++ new_text) s in
  let current_text := _buffer s in
  if existsb (strict_prefix current_text) (tokens_to_check d) then (no_text, s)
  else if negb (stripped_think_start s) && str_in (think_start_text d) current_text then
    let current_text := remove_first (think_start_text d) current_text in
    parse_current d (mkDetState true current_text (_streamed_reasoning_tail s) true (_accumulated_reasoning s)) current_text
  else parse_current d s current_text.

Definition parse_streaming_increment (d : Detector) (new_text : text) (s : DetState) : StreamingParseResult * DetState :=
  let '(r, s) := _parse_streaming_increment_impl d new_text s in
  (r, if _force_nonempty_content d then
        mkDetState (_in_reasoning s) (_buffer s) (_streamed_reasoning_tail s) (stripped_think_start s)
          (if _in_reasoning s then _accumulated_reasoning s ++ reasoning_text r else [])
      else s).

Definition finish (d : Detector) (s : DetState) : StreamingParseResult * DetState :=
  if negb (_in_reasoning s) then (mkParse (_buffer s) [], set_state (_in_reasoning s) [] s)
  else
    let buffer := _strip_leading_think_start d (_buffer s) in
    let buffer := _strip_partial_tool_start d buffer (_streamed_reasoning_tail s) in
    if _force_nonempty_content d then
      (mkParse (_accumulated_reasoning s ++ buffer) [], mkDetState true [] (_streamed_reasoning_tail s) (stripped_think_start s) [])
    else (mkParse [] buffer, set_state true [] s).

(** A whole stream: what the client is sent of both texts. *)
Fixpoint stream_chunks (d : Detector) (chunks : list text) (s : DetState) : StreamingParseResult * DetState :=
  match chunks with
  | [] => (no_text, s)
  | c :: chunks =>
      let '(r1, s) := parse_streaming_increment d c s in
      let '(r2, s) := stream_chunks d chunks s in
      (mkParse (normal_text r1 ++ normal_text r2) (reasoning_text r1 ++ reasoning_text r2), s)
  end.
Definition stream_all (d : Detector) (chunks : list text) : StreamingParseResult :=
  let '(r1, s) := stream_chunks d chunks (detector_init d) in
  let '(r2, _) := finish d s in
  mkParse (normal_text r1 ++ normal_text r2) (reasoning_text r1 ++ reasoning_text r2).

(** ** Model families *)

Definition plain_detector (start_ end_ tool : text) (force stream : bool) : Detector :=
  mkDetector start_ end_ tool false force stream [] false [].

Definition DeepSeekR1Detector (stream : bool) : Detector := plain_detector (txt "<think>") (txt "</think>") [] true stream.
Definition IQuestQ1ReasoningDetector (stream force : bool) : Detector := plain_detector (txt "<think>") (txt "</think>") [] force stream.
Definition Qwen3Detector (stream force : bool) : Detector := plain_detector (txt "<think>") (txt "</think>") (txt "<tool_call>") force stream.
Definition KimiDetector (stream : bool) : Detector :=
  plain_detector ([9665] ++ txt "think" ++ [9655]) ([9665] ++ txt "/think" ++ [9655]) [] false stream.
Definition KimiK2Detector (stream force : bool) : Detector :=
  plain_detector (txt "<think>") (txt "</think>") (txt "<|tool_calls_section_begin|>") force stream.
Definition Glm45Detector (stream force : bool) : Detector := plain_detector (txt "<think>") (txt "</think>") (txt "<tool_call>") force stream.
Definition Nemotron3Detector (stream force : bool) : Detector := plain_detector (txt "<think>") (txt "</think>") (txt "<tool_call>") force stream.
Definition MistralDetector (stream force : bool) : Detector := plain_detector (txt "[THINK]") (txt "[/THINK]") [] force stream.

(** The marks of [K2V3Detector] by effort; an effort that is not known is medium. *)
Definition k2v3_tokens (effort : string) : text * text :=
  if String.eqb effort "high" then (txt "<ifm|think>", txt "</ifm|think>")
  else if String.eqb effort "low" then (txt "<ifm|think_faster>", txt "</ifm|think_faster>")
  else (txt "<ifm|think_fast>", txt "</ifm|think_fast>").
Definition K2V3Detector (stream force : bool) (effort : string) : result Detector :=
  if negb force then Raise ValueError
  else Ok (plain_detector (k2v3_tokens effort).1 (k2v3_tokens effort).2 (txt "<ifm|tool_call") true stream).
