(* ===== verification/ReasoningTheorems.v ===== *)
(** * Reasoning in pieces is reasoning at once

    However an output is cut into pieces, what a client gets of the reasoning and of
    the answer, with what is flushed at the end, is what parsing the whole text at once
    gives. *)
From S2P Require Import Prelude Text Reasoning.
Local Open Scope Z_scope.

(** ** Occurrences *)

Lemma occurs_len s t k : s ≠ [] → occurs_at s t k → (k + length s ≤ length t)%nat.
Proof.
  intros Hs [z Hz]. apply (f_equal length) in Hz. rewrite length_drop, length_app in Hz. destruct s; [done|]. cbn in *. lia.
Qed.

Lemma str_in_occurs s t : str_in s t = true ↔ ∃ k, occurs_at s t k.
Proof.
  rewrite str_in_spec. split.
  - intros (a & b & ->). exists (length a). apply occurs_at_app.
  - intros [k [z Hz]]. exists (take k t), z. by rewrite <- Hz, take_drop.
Qed.

(** [find] on a mark that is not empty. *)
Lemma str_find_spec s t : s ≠ [] →
  (str_find s t = -1 ∧ ∀ k, ¬ occurs_at s t k) ∨ (∃ k, str_find s t = Z.of_nat k ∧ occurs_at s t k ∧ ∀ k', (k' < k)%nat → ¬ occurs_at s t k').
Proof.
  intros Hs. destruct (find_from_spec s t 0 ltac:(lia)) as [[E Hn]|(k & E & _ & Ho & Hmin)]; [left|right; exists k; unfold str_find; rewrite E; split_and!; [lia|done|done]].
  split; [done|]. intros k Ho. pose proof (occurs_len s t k Hs Ho). apply (Hn k); [lia|done].
Qed.

Lemma str_find_at_spec s t k : s ≠ [] →
  (str_find_at s t (Z.of_nat k) = -1 ∧ ∀ i, (k ≤ i)%nat → ¬ occurs_at s t i) ∨
  (∃ i, str_find_at s t (Z.of_nat k) = Z.of_nat i ∧ (k ≤ i)%nat ∧ occurs_at s t i ∧ ∀ i', (k ≤ i' < i)%nat → ¬ occurs_at s t i').
Proof.
  intros Hs. unfold str_find_at. destruct (zlen t <? Z.of_nat k) eqn:E.
  { apply Z.ltb_lt in E. left. split; [done|]. intros i Hi Ho. pose proof (occurs_len s t i Hs Ho). unfold zlen in E. lia. }
  rewrite pydrop_eq, Nat2Z.id by lia. assert (∀ i, occurs_at s (drop k t) i ↔ occurs_at s t (k + i)) as Hd by (intros i; unfold occurs_at; by rewrite drop_drop).
  destruct (find_from_spec s (drop k t) (Z.of_nat k) ltac:(lia)) as [[-> Hn]|(i & -> & _ & Ho & Hmin)].
  - left. split; [done|]. intros i Hi Ho. pose proof (occurs_len s t i Hs Ho) as Hl. apply (Hn (i - k)%nat); [rewrite length_drop; lia|].
    apply Hd. by replace (k + (i - k))%nat with i by lia.
  - right. exists (k + i)%nat. split; [lia|]. split; [lia|]. split; [by apply Hd|]. intros i' Hi' Ho'. apply (Hmin (i' - k)%nat); [lia|].
    apply Hd. by replace (k + (i' - k))%nat with i' by lia.
Qed.

(** ** Tool marks *)

(** A tool mark that interrupts the reasoning. *)
Definition valid (d : Detector) (t prec : text) (i : nat) : Prop :=
  tool_start_token d ≠ [] ∧ occurs_at (tool_start_token d) t i ∧
  (tool_start_at_line_start d = false ∨ starts_line (prev_char t (Z.of_nat i) prec) = true).

Lemma tool_loop_spec d t prec fuel k idx : tool_start_token d ≠ [] → (length t + 2 ≤ fuel + k)%nat → (∀ i, (i < k)%nat → ¬ valid d t prec i) →
  (idx = -1 ∧ (∀ i, (k ≤ i)%nat → ¬ occurs_at (tool_start_token d) t i) ∨
   ∃ i, idx = Z.of_nat i ∧ (k ≤ i)%nat ∧ occurs_at (tool_start_token d) t i ∧ ∀ i', (k ≤ i' < i)%nat → ¬ occurs_at (tool_start_token d) t i') →
  (tool_loop fuel d t prec idx = -1 ∧ ∀ i, ¬ valid d t prec i) ∨
  (∃ i, tool_loop fuel d t prec idx = Z.of_nat i ∧ valid d t prec i ∧ ∀ i', (i' < i)%nat → ¬ valid d t prec i').
Proof.
  intros Hs. revert k idx. induction fuel as [|fuel IH]; intros k idx Hf Hk Hidx.
  { destruct Hidx as [[-> Hn]|(i & -> & Hi & Ho & _)].
    - left. split; [done|]. intros i Hv. destruct (decide (i < k)%nat); [by apply (Hk i)|]. destruct Hv as (_ & Ho & _). apply (Hn i); [lia|done].
    - pose proof (occurs_len _ t i Hs Ho). lia. }
  cbn [tool_loop]. destruct Hidx as [[-> Hn]|(i & -> & Hi & Ho & Hmin)].
  { left. split; [done|]. intros i Hv. destruct (decide (i < k)%nat); [by apply (Hk i)|]. destruct Hv as (_ & Ho & _). apply (Hn i); [lia|done]. }
  rewrite (proj2 (Z.eqb_neq (Z.of_nat i) (-1))) by lia. pose proof (occurs_len _ t i Hs Ho) as Hl.
  assert (∀ i', (i' < i)%nat → ¬ valid d t prec i') as Hnv.
  { intros i' Hi' Hv. destruct (decide (i' < k)%nat); [by apply (Hk i')|]. destruct Hv as (_ & Ho' & _). apply (Hmin i'); [lia|done]. }
  destruct (negb (tool_start_at_line_start d) || starts_line (prev_char t (Z.of_nat i) prec)) eqn:Ec.
  - right. exists i. split; [done|]. split; [|done]. split; [done|]. split; [done|]. apply orb_true_iff in Ec as [?%negb_true_iff|?]; auto.
  - apply orb_false_iff in Ec as [Ea Eb]. apply negb_false_iff in Ea. replace (Z.of_nat i + 1) with (Z.of_nat (S i)) by lia.
    apply (IH (S i)); [lia| |].
    + intros i' Hi' Hv. destruct (decide (i' < i)%nat); [by apply (Hnv i')|]. replace i' with i in Hv by lia. destruct Hv as (_ & _ & [?|?]); congruence.
    + by apply str_find_at_spec.
Qed.

Lemma find_tool_spec d t prec :
  (_find_tool_start d t prec = -1 ∧ ∀ i, ¬ valid d t prec i) ∨
  (∃ i, _find_tool_start d t prec = Z.of_nat i ∧ valid d t prec i ∧ ∀ i', (i' < i)%nat → ¬ valid d t prec i').
Proof.
  unfold _find_tool_start. case_bool_decide as Hs; [left; split; [done|]; by intros i []|].
  apply (tool_loop_spec d t prec _ 0); [done|lia|lia|]. destruct (str_find_spec (tool_start_token d) t Hs) as [[-> Hn]|(k & -> & Ho & Hmin)].
  - left. split; [done|]. intros i _. apply Hn.
  - right. exists k. split_and!; [done|lia|done|]. intros i' Hi'. apply Hmin. lia.
Qed.

(** ** Marks that are cut *)

Lemma partial_loop_spec i b tok : (i ≤ length b)%nat →
  ∃ m, partial_loop i b tok = Z.of_nat m ∧ (m ≤ i)%nat ∧ (m = 0%nat ∨ drop (length b - m) b `prefix_of` tok) ∧
    ∀ m', (m < m' ≤ i)%nat → ¬ drop (length b - m') b `prefix_of` tok.
Proof.
  induction i as [|i IH]; intros Hi; cbn [partial_loop]; [exists 0%nat; split_and!; [done|lia|by left|lia]|].
  case_bool_decide as Hp; [exists (S i); split_and!; [done|lia|by right|lia]|].
  destruct (IH ltac:(lia)) as (m & -> & Hm & Hp' & Hmax). exists m. split_and!; [done|lia|done|]. intros m' Hm'.
  destruct (decide (m' = S i)) as [->|]; [done|]. apply Hmax. lia.
Qed.

Lemma partial_spec b tok : ∃ m, _ends_with_partial_token b tok = Z.of_nat m ∧ (m ≤ length b)%nat ∧ (m ≤ length tok - 1)%nat ∧
  (m = 0%nat ∨ drop (length b - m) b `prefix_of` tok) ∧
  ∀ m', (m < m' ≤ length b)%nat → (m' < length tok)%nat → ¬ drop (length b - m') b `prefix_of` tok.
Proof.
  unfold _ends_with_partial_token. destruct (partial_loop_spec (length b `min` (length tok - 1))%nat b tok) as (m & E & Hm & Hp & Hmax); [lia|].
  exists m. split_and!; [done|lia|lia|done|]. intros m' H1 H2. apply Hmax. lia.
Qed.

(** No end of [q] from before [n] on can become the mark. *)
Definition clear (tok q : text) (n : nat) : Prop := ∀ i, (i < n)%nat → ¬ tok `prefix_of` drop i q ∧ ¬ drop i q `prefix_of` tok.
Definition clear_tool (d : Detector) (q : text) (n : nat) : Prop :=
  ∀ i, (i < n)%nat → ¬ valid d q [] i ∧ ¬ (drop i q `prefix_of` tool_start_token d ∧ (length (drop i q) < length (tool_start_token d))%nat).

Lemma prefix_of_app_cases (tok x c : text) : tok `prefix_of` x ++ c → tok `prefix_of` x ∨ x `prefix_of` tok.
Proof. intros H. destruct (prefix_weak_total tok x (x ++ c) H (prefix_app_r _ _ _ (reflexivity x))); auto. Qed.

Lemma prefix_of_long (s x z : text) : (length s ≤ length x)%nat → s `prefix_of` x ++ z → s `prefix_of` x.
Proof.
  intros Hl [y Hy]. exists (drop (length s) x). rewrite <- (take_drop (length s) x) at 1. f_equal.
  apply (f_equal (take (length s))) in Hy. by rewrite take_app_length, take_app_le in Hy.
Qed.

Lemma clear_app tok q c n : (n ≤ length q)%nat → clear tok q n → clear tok (q ++ c) n.
Proof.
  intros Hn Hc i Hi. destruct (Hc i Hi) as [H1 H2]. rewrite drop_app_le by lia. split.
  - intros [?|?]%prefix_of_app_cases; done.
  - intros H. apply H2. etrans; [|exact H]. by apply prefix_app_r.
Qed.

(** The last character of what was sent, as a text. *)
Definition tail_of (R : text) : text := drop (length R - 1) R.

Lemma prev_char_app q c i : (i ≤ length q)%nat → prev_char (q ++ c) (Z.of_nat i) [] = prev_char q (Z.of_nat i) [].
Proof.
  intros Hi. unfold prev_char. destruct (0 <? Z.of_nat i) eqn:E; [|done]. apply Z.ltb_lt in E.
  rewrite !pyslice_eq by (unfold zlen; rewrite ?length_app; lia). rewrite drop_app_le by lia. rewrite take_app_le; [done|]. rewrite length_drop. lia.
Qed.

Lemma prev_char_shift R cur i : prev_char (R ++ cur) (Z.of_nat (length R + i)) [] = prev_char cur (Z.of_nat i) (tail_of R) ∨ (length cur < i)%nat.
Proof.
  destruct (decide (length cur < i)%nat); [by right|left]. unfold prev_char. destruct (0 <? Z.of_nat i) eqn:E.
  - apply Z.ltb_lt in E. rewrite (proj2 (Z.ltb_lt 0 (Z.of_nat (length R + i)))) by lia.
    rewrite !pyslice_eq by (unfold zlen; rewrite ?length_app; lia). rewrite drop_app_ge by lia. f_equal; [lia|]. f_equal. lia.
  - apply Z.ltb_ge in E. replace i with 0%nat by lia. rewrite Nat.add_0_r. unfold tail_of. destruct R as [|x R]; [done|].
    rewrite (proj2 (Z.ltb_lt 0 (Z.of_nat (length (x :: R))))) by (cbn; lia). rewrite pyslice_eq by (unfold zlen; rewrite ?length_app; cbn; lia).
    rewrite drop_app_le by (cbn; lia). replace (Z.to_nat (Z.of_nat (length (x :: R)) - 1)) with (length (x :: R) - 1)%nat by lia.
    rewrite take_app_le; [apply take_ge|]; rewrite length_drop; cbn; lia.
Qed.

Lemma clear_tool_app d q c n : (n ≤ length q)%nat → clear_tool d q n → clear_tool d (q ++ c) n.
Proof.
  intros Hn Hc i Hi. destruct (Hc i Hi) as [H1 H2]. rewrite drop_app_le by lia. split.
  - intros (Ht & Ho & Hl). unfold occurs_at in Ho. rewrite drop_app_le in Ho by lia. rewrite prev_char_app in Hl by lia.
    apply prefix_of_app_cases in Ho as [Ho|Ho]; [by apply H1|].
    destruct (decide (length (drop i q) < length (tool_start_token d))%nat) as [?|Hge]; [by apply H2|]. apply H1. split; [done|]. split; [|done].
    unfold occurs_at. destruct Ho as [z Hz]. rewrite Hz in Hge. rewrite length_app in Hge. destruct z; [|cbn in Hge; lia]. rewrite app_nil_r in Hz. by rewrite Hz.
  - intros [Hp Hlt]. apply H2. split; [etrans; [|exact Hp]; by apply prefix_app_r|]. rewrite length_app in Hlt. lia.
Qed.

Lemma valid_shift d R cur i : valid d (R ++ cur) [] (length R + i) ↔ valid d cur (tail_of R) i.
Proof.
  unfold valid, occurs_at. rewrite drop_app_ge by lia. replace (length R + i - length R)%nat with i by lia.
  destruct (prev_char_shift R cur i) as [->|Hlt]; [done|]. split; intros (Ht & Ho & _); exfalso;
    pose proof (occurs_len (tool_start_token d) cur i Ht Ho); lia.
Qed.

(** The end of a text that might be a cut tool mark is in what is held back. *)
Lemma partial_app d R b : clear_tool d (R ++ b) (length R) → _ends_with_partial_token (R ++ b) (tool_start_token d) = _ends_with_partial_token b (tool_start_token d).
Proof.
  intros Hc. destruct (partial_spec (R ++ b) (tool_start_token d)) as (m & -> & Hm1 & Hm2 & Hmp & Hmax).
  destruct (partial_spec b (tool_start_token d)) as (k & -> & Hk1 & Hk2 & Hkp & Hkmax). f_equal.
  assert (∀ j, (j ≤ length b)%nat → drop (length (R ++ b) - j) (R ++ b) = drop (length b - j) b) as Hd.
  { intros j Hj. rewrite length_app, drop_app_ge by lia. f_equal. lia. }
  assert (m ≤ length b)%nat as Hmb.
  { destruct Hmp as [->|Hmp]; [lia|]. destruct (decide (m ≤ length b)%nat) as [|Hgt]; [done|]. exfalso. rewrite length_app in *.
    destruct (Hc (length R + length b - m)%nat ltac:(lia)) as [_ H2]. apply H2. split; [done|]. rewrite length_drop, length_app. lia. }
  destruct (Nat.lt_trichotomy m k) as [Hlt|[->|Hlt]]; [|done|]; exfalso.
  - destruct Hkp as [->|Hkp]; [lia|]. apply (Hmax k); [rewrite length_app; lia|lia|]. by rewrite Hd.
  - destruct Hmp as [->|Hmp]; [lia|]. apply (Hkmax m); [lia|lia|]. by rewrite <- Hd.
Qed.

Lemma strip_partial_app d R b : clear_tool d (R ++ b) (length R) →
  _strip_partial_tool_start d (R ++ b) [] = R ++ _strip_partial_tool_start d b (tail_of R).
Proof.
  intros Hc. unfold _strip_partial_tool_start. destruct (tool_start_at_line_start d); cbn [negb orb]; [|done].
  rewrite (partial_app d R b Hc). destruct (partial_spec b (tool_start_token d)) as (m & -> & Hm & _).
  assert (b = [] → m = 0%nat) as Hb by (intros ->; cbn in Hm; lia).
  destruct (decide (m = 0%nat)) as [->|Hm0].
  { change (Z.of_nat 0 =? 0) with true. by repeat case_bool_decide. }
  rewrite !bool_decide_false by (intros [? ?]%app_nil || intros ?; by apply Hm0, Hb). rewrite (proj2 (Z.eqb_neq (Z.of_nat m) 0)) by lia.
  replace (zlen (R ++ b) - Z.of_nat m) with (Z.of_nat (length R + (length b - m))) by (unfold zlen; rewrite length_app; lia).
  replace (zlen b - Z.of_nat m) with (Z.of_nat (length b - m)) by (unfold zlen; lia).
  destruct (prev_char_shift R b (length b - m)) as [->|]; [|lia]. destruct (starts_line _); [|done].
  rewrite !pytake_eq, !Nat2Z.id by lia. rewrite take_app_ge by lia. f_equal. f_equal. lia.
Qed.

Lemma tail_of_app R x : x ≠ [] → tail_of (R ++ x) = tail_of x.
Proof.
  intros Hx. unfold tail_of. rewrite length_app. destruct x as [|y x]; [done|]. cbn [length]. rewrite drop_app_ge by lia. f_equal. lia.
Qed.

Lemma str_in_app s x z : str_in s x = true → str_in s (x ++ z) = true.
Proof. rewrite !str_in_spec. intros (a & b & ->). exists a, (b ++ z). by rewrite <- !app_assoc. Qed.
Lemma str_in_drop s x k : str_in s (drop k x) = true → str_in s x = true.
Proof. rewrite !str_in_spec. intros (a & b & E). exists (take k x ++ a), b. by rewrite <- app_assoc, <- E, take_drop. Qed.
Lemma str_in_prefix s x y : x `prefix_of` y → str_in s x = true → str_in s y = true.
Proof. intros [z ->]. apply str_in_app. Qed.

Lemma holdback_bound d s cur : 0 ≤ holdback d s cur ≤ zlen cur ∧ ∀ tok, tok ∈ holdback_tokens d s → _ends_with_partial_token cur tok ≤ holdback d s cur.
Proof.
  unfold holdback. induction (holdback_tokens d s) as [|tok l [IH1 IH2]]; cbn [fmap list_fmap foldr].
  - split; [unfold zlen; lia|]. intros tok Htok. by apply not_elem_of_nil in Htok.
  - destruct (partial_spec cur tok) as (m & E & Hm & _). rewrite E. unfold zlen in *. split; [lia|]. intros tok' [->|Hin]%elem_of_cons; [lia|]. specialize (IH2 tok' Hin). lia.
Qed.

(** ** A text and its marks *)

(** Marks that cannot be taken for one another: checked by running it. *)
Definition marks_ok (d : Detector) : bool :=
  let '(s, e, t) := (think_start_token d, think_end_token d, tool_start_token d) in
  negb (bool_decide (s = [])) && negb (bool_decide (e = [])) && bool_decide (think_start_self_label d = []) && bool_decide (previous_content d = [])
  && negb (_force_nonempty_content d) && negb (str_in e s) && negb (bool_decide (s `prefix_of` e))
  && (bool_decide (t = []) || negb (str_in e t) && negb (str_in t s) && negb (str_in t e) && negb (bool_decide (s `prefix_of` t))).

Section stream.
Context (d : Detector) (pre body : text).
Abbreviation S_ := (think_start_token d).
Abbreviation E_ := (think_end_token d).
Abbreviation U_ := (tool_start_token d).
Abbreviation T := (pre ++ body).

Context (Hmarks : marks_ok d = true).
(** The opening mark comes first or not at all. *)
Context (Hpre : pre = [] ∨ pre = S_) (Honce : ∀ k, occurs_at S_ T k → k = 0%nat ∧ pre = S_).
(** No tool mark before the end mark, if there is one. *)
Context (Htool : ∀ v e, valid d body [] v → occurs_at E_ body e → ∃ e', (e' ≤ v)%nat ∧ occurs_at E_ body e').

Lemma marks_facts : S_ ≠ [] ∧ E_ ≠ [] ∧ think_start_text d = S_ ∧ previous_content d = [] ∧ _force_nonempty_content d = false ∧
  str_in E_ S_ = false ∧ ¬ S_ `prefix_of` E_ ∧ (U_ ≠ [] → str_in E_ U_ = false ∧ str_in U_ S_ = false ∧ str_in U_ E_ = false ∧ ¬ S_ `prefix_of` U_).
Proof.
  unfold marks_ok, think_start_text in *. repeat rewrite andb_true_iff in Hmarks. rewrite orb_true_iff in Hmarks. repeat rewrite andb_true_iff in Hmarks.
  rewrite !negb_true_iff in Hmarks. rewrite !bool_decide_eq_false, !bool_decide_eq_true in Hmarks.
  destruct Hmarks as (((((((H1 & H2) & H3) & H4) & H5) & H6) & H7) & H8). rewrite H3, app_nil_r. split_and!; try done. intros Hu. destruct H8 as [?|H8]; [done|]. tauto.
Qed.

Lemma init_state : detector_init d = mkDetState (force_reasoning d) [] [] false [].
Proof.
  destruct marks_facts as (HS & HE & _ & Hp & _). unfold detector_init. rewrite Hp.
  assert (∀ s : text, s ≠ [] → str_in s [] = false) as Hin.
  { intros s Hs. apply not_true_is_false. intros [k Ho]%str_in_occurs. apply occurs_len in Ho; [|done]. destruct s; [done|]. cbn in Ho. lia. }
  by rewrite !Hin.
Qed.

Lemma no_start_in q c : pre = [] ∨ q ≠ [] → T = q ++ c → str_in S_ c = false.
Proof.
  intros Hq E. apply not_true_is_false. intros [k [z Hz]]%str_in_occurs. assert (occurs_at S_ T (length q + k)) as Ho.
  { unfold occurs_at. rewrite E, drop_app_ge by lia. replace (length q + k - length q)%nat with k by lia. by exists z. }
  destruct (Honce _ Ho) as [Hk Ep]. destruct Hq as [Hq|Hq]; [rewrite Hq in Ep; by destruct marks_facts as (HS & _)|]. destruct q; [done|cbn in Hk; lia].
Qed.

(** *** At once *)

Definition whole : StreamingParseResult := detect_and_parse d (detector_init d) T.
Definition thinking : Prop := pre = S_ ∨ force_reasoning d = true.

Lemma start_not_in_body : pre = S_ → str_in S_ body = false.
Proof. intros E. apply (no_start_in pre); [right; rewrite E; by destruct marks_facts|done]. Qed.

Lemma not_prefix_of s t : str_in s t = false → ¬ s `prefix_of` t.
Proof. intros E Hp. assert (str_in s t = true) as E'; [|congruence]. apply str_in_occurs. exists 0%nat. unfold occurs_at. by rewrite drop_0. Qed.

Lemma strip_whole : strip_starts (length T) d T = body.
Proof.
  destruct marks_facts as (HS & _ & Hst & _). destruct Hpre as [E|E].
  - pose proof (no_start_in [] T ltac:(left; exact E) eq_refl) as Hn. rewrite E in Hn |- *. cbn [app] in *.
    destruct (length body) as [|n] eqn:El; [done|]. cbn [strip_starts]. rewrite Hst, bool_decide_false; [done|by apply not_prefix_of].
  - rewrite E. destruct (length (S_ ++ body)) as [|n] eqn:El; [rewrite length_app in El; destruct S_; [done|cbn in El; lia]|].
    cbn [strip_starts]. rewrite Hst, bool_decide_true by (by exists body). rewrite pydrop_eq by (unfold zlen; lia). unfold zlen. rewrite Nat2Z.id, drop_app_length.
    destruct n as [|n]; [done|]. cbn [strip_starts]. rewrite Hst, bool_decide_false; [done|]. apply not_prefix_of, start_not_in_body, E.
Qed.

Lemma whole_normal : pre = [] → force_reasoning d = false → whole = mkParse T [].
Proof.
  intros Ep Ef. destruct marks_facts as (_ & _ & _ & _ & Hf & _). unfold whole, detect_and_parse, _maybe_apply_force_nonempty_content. rewrite Hf. cbn [andb].
  unfold _detect_and_parse_impl. rewrite init_state. cbn [_in_reasoning]. rewrite Ef, (no_start_in [] T) by auto. done.
Qed.

Lemma whole_thinking : thinking → whole =
  if str_in E_ body then mkParse (pydrop body (str_find E_ body + zlen E_)) (pytake body (str_find E_ body))
  else if negb (_find_tool_start d body [] =? -1) then mkParse (pydrop body (_find_tool_start d body [])) (pytake body (_find_tool_start d body []))
  else mkParse [] (_strip_partial_tool_start d body []).
Proof.
  intros Ht. destruct marks_facts as (HS & HE & _ & Hp & Hf & _). unfold whole, detect_and_parse, _maybe_apply_force_nonempty_content. rewrite Hf. cbn [andb].
  unfold _detect_and_parse_impl. rewrite init_state. cbn [_in_reasoning].
  assert (force_reasoning d || str_in S_ T = true) as ->.
  { destruct Ht as [E| ->]; [|done]. rewrite E. apply orb_true_iff. right. apply str_in_spec. by exists [], body. }
  cbn [negb]. rewrite strip_whole, Hp. assert (str_in E_ [] = false) as ->.
  { apply not_true_is_false. intros [k Ho]%str_in_occurs. apply occurs_len in Ho; [|done]. destruct E_; [done|]. cbn in Ho. lia. }
  destruct (str_in E_ body); cbn [negb andb]; done.
Qed.

(** *** In pieces *)

(** What has come so far, and what was done with it. *)
Inductive phase (P : text) : DetState → text → text → Prop :=
| ph_start : pre = S_ → P `prefix_of` S_ → P ≠ S_ → phase P (mkDetState (force_reasoning d) P [] false []) [] []
| ph_reason R b : thinking → P = pre ++ R ++ b → clear E_ (R ++ b) (length R) → clear_tool d (R ++ b) (length R) →
    str_in E_ b = false → (∀ i, ¬ valid d (R ++ b) [] i) → (stream_reasoning d = false → R = []) →
    phase P (mkDetState true b (tail_of R) (bool_decide (pre = S_)) []) [] R
| ph_normal w n b r tl st : P = w ++ n ++ b → whole = mkParse (drop (length w) T) r → (st = true ∨ pre = []) →
    phase P (mkDetState false b tl st []) n r.

(** An occurrence that ends before [q] does is the first of the body as well. *)
Lemma first_in_body s q z k : s ≠ [] → body = q ++ z → occurs_at s q k → (∀ i, (i < k)%nat → ¬ occurs_at s q i) →
  occurs_at s body k ∧ ∀ i, (i < k)%nat → ¬ occurs_at s body i.
Proof.
  intros Hs E Ho Hmin. pose proof (occurs_len s q k Hs Ho) as Hl. split.
  - unfold occurs_at in *. rewrite E, drop_app_le by lia. by apply prefix_app_r.
  - intros i Hi Hb. apply (Hmin i Hi). unfold occurs_at in *. rewrite E, drop_app_le in Hb by lia.
    apply prefix_of_long in Hb; [done|]. rewrite length_drop. lia.
Qed.

Lemma find_first s t k : s ≠ [] → occurs_at s t k → (∀ i, (i < k)%nat → ¬ occurs_at s t i) → str_find s t = Z.of_nat k ∧ str_in s t = true.
Proof.
  intros Hs Ho Hmin. split; [|apply str_in_occurs; by exists k]. destruct (str_find_spec s t Hs) as [[_ Hn]|(k' & -> & Ho' & Hmin')]; [by destruct (Hn k)|].
  f_equal. destruct (Nat.lt_trichotomy k k') as [Hlt|[->|Hlt]]; [by destruct (Hmin' k Hlt)|done|by destruct (Hmin k' Hlt)].
Qed.

Lemma valid_app q z i : body = q ++ z → (i + length U_ ≤ length q)%nat → valid d q [] i ↔ valid d body [] i.
Proof.
  intros E Hl. unfold valid. rewrite E, prev_char_app by lia. unfold occurs_at. rewrite drop_app_le by lia.
  split; intros (Hu & Ho & Hp); (split; [done|split; [|done]]).
  - by apply prefix_app_r.
  - apply prefix_of_long in Ho; [done|]. rewrite length_drop. lia.
Qed.

(** Where the end mark comes in. *)
Lemma reason_end R cur z st : thinking → body = (R ++ cur) ++ z → clear E_ (R ++ cur) (length R) → str_in E_ cur = true →
  (st = true ∨ pre = []) →
  let e := str_find E_ cur in
  phase (pre ++ R ++ cur) (mkDetState false [] (tail_of R) st []) (pydrop cur (e + zlen E_)) (R ++ pytake cur e).
Proof.
  intros Ht E Hc Hin Hst. destruct marks_facts as (_ & HE & _).
  destruct (str_find_spec E_ cur HE) as [[_ Hn]|(k & Ek & Ho & Hmin)]; [apply str_in_occurs in Hin as [k Ho]; by destruct (Hn k)|]. intros e. unfold e. rewrite Ek. clear e.
  assert (occurs_at E_ (R ++ cur) (length R + k) ∧ ∀ i, (i < length R + k)%nat → ¬ occurs_at E_ (R ++ cur) i) as [Hq Hqmin].
  { split.
    - unfold occurs_at. rewrite drop_app_ge by lia. by replace (length R + k - length R)%nat with k by lia.
    - intros i Hi. destruct (decide (i < length R)%nat) as [Hi2|Hi2]; [by apply Hc|]. unfold occurs_at. rewrite drop_app_ge by lia. apply Hmin. lia. }
  destruct (first_in_body E_ _ z _ HE E Hq Hqmin) as [Hb Hbmin]. destruct (find_first E_ body _ HE Hb Hbmin) as [Hf Hfin].
  pose proof (occurs_len E_ cur k HE Ho) as Hl.
  rewrite pytake_eq, Nat2Z.id by lia. rewrite pydrop_eq by (unfold zlen; lia). unfold zlen. replace (Z.to_nat (Z.of_nat k + Z.of_nat (length E_))) with (k + length E_)%nat by lia.
  apply (ph_normal _ (pre ++ R ++ take (k + length E_) cur)); [by rewrite app_nil_r, <- !app_assoc, take_drop| |done].
  rewrite (whole_thinking Ht), Hfin, Hf. rewrite pytake_eq, Nat2Z.id by lia. rewrite pydrop_eq by (unfold zlen; lia). unfold zlen.
  replace (Z.to_nat (Z.of_nat (length R + k) + Z.of_nat (length E_))) with (length R + (k + length E_))%nat by lia. f_equal.
  - rewrite !length_app, length_take. rewrite drop_app_ge by lia. f_equal. lia.
  - rewrite E, <- app_assoc, take_app_ge by lia. rewrite take_app_le by lia. f_equal. f_equal. lia.
Qed.

(** Where a tool mark comes in. *)
Lemma reason_tool R cur z st v : thinking → body = (R ++ cur) ++ z → clear E_ (R ++ cur) (length R) → clear_tool d (R ++ cur) (length R) →
  str_in E_ cur = false → valid d cur (tail_of R) v → (∀ i, (i < v)%nat → ¬ valid d cur (tail_of R) i) → (st = true ∨ pre = []) →
  phase (pre ++ R ++ cur) (mkDetState false [] (tail_of R) st []) (pydrop cur (Z.of_nat v)) (R ++ pytake cur (Z.of_nat v)).
Proof.
  intros Ht E Hc Hct Hin Hv Hmin Hst. destruct marks_facts as (_ & HE & _ & _ & _ & _ & _ & HU). destruct Hv as (Hu & Ho & Hl). destruct (HU Hu) as (_ & _ & HUE & _).
  assert (valid d (R ++ cur) [] (length R + v)) as Hq by (by apply valid_shift; split_and!).
  pose proof (occurs_len U_ _ _ Hu (proj1 (proj2 Hq))) as Hlen.
  assert (valid d body [] (length R + v)) as Hb by (apply (valid_app (R ++ cur) z _ E); [lia|exact Hq]).
  assert (∀ i, (i < length R + v)%nat → ¬ valid d body [] i) as Hbmin.
  { intros i Hi Hvi. apply (valid_app (R ++ cur) z) in Hvi; [|done|lia]. destruct (decide (i < length R)%nat) as [Hi2|Hi2]; [by destruct (Hct i Hi2)|].
    apply (Hmin (i - length R)%nat); [lia|]. apply valid_shift. by replace (length R + (i - length R))%nat with i by lia. }
  assert (str_in E_ body = false) as HnE.
  { apply not_true_is_false. intros [e0 He0]%str_in_occurs. destruct (Htool _ _ Hb He0) as (e & Hle & He). pose proof (occurs_len E_ body e HE He) as Hel.
    destruct (decide (e + length E_ ≤ length (R ++ cur))%nat) as [Hfit|Hfit].
    - assert (occurs_at E_ (R ++ cur) e) as Heq.
      { unfold occurs_at in *. rewrite E, drop_app_le in He by lia. apply prefix_of_long in He; [done|]. rewrite length_drop. lia. }
      destruct (decide (e < length R)%nat) as [Hi2|Hi2]; [by destruct (Hc e Hi2)|]. assert (str_in E_ cur = true); [|congruence]. apply str_in_occurs.
      exists (e - length R)%nat. unfold occurs_at in *. by rewrite drop_app_ge in Heq by lia.
    - assert (str_in U_ E_ = true); [|congruence]. apply str_in_occurs. exists (length R + v - e)%nat. unfold occurs_at.
      destruct He as [y Hy]. destruct Hb as (_ & [x Hx] & _).
      apply (f_equal (drop (length R + v - e))) in Hy. rewrite drop_drop in Hy. replace (e + (length R + v - e))%nat with (length R + v)%nat in Hy by lia.
      rewrite Hx in Hy. rewrite drop_app_le in Hy by lia. apply (prefix_of_long _ _ y); [rewrite length_drop; lia|]. rewrite <- Hy. by exists x. }
  assert (_find_tool_start d body [] = Z.of_nat (length R + v)) as Hf.
  { destruct (find_tool_spec d body []) as [[_ Hn]|(k & -> & Hk & Hkmin)]; [by destruct (Hn _ Hb)|]. f_equal.
    destruct (Nat.lt_trichotomy k (length R + v)) as [Hlt|[->|Hlt]]; [by destruct (Hbmin k Hlt)|done|by destruct (Hkmin _ Hlt)]. }
  rewrite pytake_eq, pydrop_eq, Nat2Z.id by lia. rewrite length_app in Hlen.
  apply (ph_normal _ (pre ++ R ++ take v cur)); [by rewrite app_nil_r, <- !app_assoc, take_drop| |done].
  rewrite (whole_thinking Ht), HnE, Hf. rewrite (proj2 (Z.eqb_neq _ _)) by lia. cbn [negb]. rewrite pytake_eq, pydrop_eq, Nat2Z.id by lia. f_equal.
  - rewrite !length_app, length_take. rewrite drop_app_ge by lia. f_equal. lia.
  - rewrite E, <- app_assoc, take_app_ge by lia. rewrite take_app_le by lia. f_equal. f_equal. lia.
Qed.

(** Where neither comes in and the reasoning is passed on but for its end. *)
Lemma reason_more R cur st : thinking → clear E_ (R ++ cur) (length R) → clear_tool d (R ++ cur) (length R) → str_in E_ cur = false →
  (∀ i, ¬ valid d cur (tail_of R) i) → stream_reasoning d = true → stripped_think_start st = bool_decide (pre = S_) →
  let cut := zlen cur - holdback d st cur in
  let x := pytake cur cut in
  phase (pre ++ R ++ cur)
    (mkDetState true (pydrop cur cut) (if bool_decide (x = []) then tail_of R else pydrop x (zlen x - 1)) (bool_decide (pre = S_)) []) [] (R ++ x).
Proof.
  intros Ht Hc Hct Hin Hnv Hstr Hst. destruct marks_facts as (_ & HE & _). destruct (holdback_bound d st cur) as [Hh Hmax]. intros cut x.
  set (n := Z.to_nat cut). assert (n ≤ length cur)%nat as Hn by (unfold n, cut, zlen in *; lia).
  assert (x = take n cur) as Ex by (unfold x; by rewrite pytake_eq by (unfold cut; lia)). rewrite pydrop_eq by (unfold cut; lia). fold n.
  assert (Hhb : ∀ tok j, tok ∈ holdback_tokens d st → (j < n)%nat → (length cur - j < length tok)%nat → ¬ drop j cur `prefix_of` tok).
  { intros tok j Htok Hj Hlt Hp. specialize (Hmax tok Htok). destruct (partial_spec cur tok) as (m & Em & _ & _ & _ & Hm). rewrite Em in Hmax.
    apply (Hm (length cur - j)%nat); [unfold n, cut, zlen in *; lia|lia|]. by replace (length cur - (length cur - j))%nat with j by lia. }
  assert (tail_of (R ++ x) = if bool_decide (x = []) then tail_of R else pydrop x (zlen x - 1)) as <-.
  { clear Hst. case_bool_decide as Hx; [rewrite Hx; by rewrite app_nil_r|]. rewrite tail_of_app by done. unfold tail_of. destruct x as [|y x']; [done|].
    rewrite pydrop_eq by (unfold zlen; cbn; lia). f_equal. unfold zlen. cbn. lia. }
  assert (Eq : (R ++ x) ++ drop n cur = R ++ cur) by (by rewrite Ex, <- app_assoc, take_drop).
  assert (Hlen : length (R ++ x) = (length R + n)%nat) by (rewrite Ex, length_app, length_take; lia).
  assert (Hq : ∀ i, ¬ valid d (R ++ cur) [] i).
  { intros i Hv. destruct (decide (i < length R)%nat) as [Hi|Hi]; [by destruct (Hct i Hi)|]. apply (Hnv (i - length R)%nat). apply valid_shift. by replace (length R + (i - length R))%nat with i by lia. }
  apply ph_reason; try done.
  - by rewrite Eq.
  - rewrite Eq, Hlen. intros i Hi. destruct (decide (i < length R)%nat) as [Hi2|Hi2]; [by apply Hc|]. rewrite drop_app_ge by lia.
    assert (Hocc : ¬ E_ `prefix_of` drop (i - length R) cur). { intros Hp. assert (str_in E_ cur = true); [|congruence]. apply str_in_occurs. by exists (i - length R)%nat. }
    split; [done|]. intros Hp. destruct (decide (length cur - (i - length R) < length E_)%nat) as [Hlt|Hge].
    + apply (Hhb E_ (i - length R)%nat); [unfold holdback_tokens; set_solver|lia|lia|done].
    + apply Hocc. destruct Hp as [y Hy]. pose proof (f_equal length Hy) as Hl. rewrite length_app, length_drop in Hl. destruct y; [|cbn in Hl; lia]. rewrite Hy. by rewrite app_nil_r.
  - rewrite Eq, Hlen. intros i Hi. split; [done|]. destruct (decide (i < length R)%nat) as [Hi2|Hi2]; [by apply Hct|]. rewrite drop_app_ge by lia.
    intros [Hp Hlt]. rewrite length_drop in Hlt. apply (Hhb U_ (i - length R)%nat); [|lia|lia|done].
    unfold holdback_tokens. rewrite bool_decide_false; [set_solver|]. intros E0. rewrite E0 in Hlt. cbn in Hlt. lia.
  - apply not_true_is_false. intros Hd%str_in_drop. congruence.
  - by rewrite Eq.
  - intros Hs0. congruence.
Qed.

Lemma strip_flag : bool_decide (pre = S_) = true ∨ pre = [].
Proof. destruct Hpre as [E|E]; [by right|left]. by apply bool_decide_eq_true. Qed.

Lemma parse_current_phase R cur z : thinking → body = (R ++ cur) ++ z → clear E_ (R ++ cur) (length R) → clear_tool d (R ++ cur) (length R) →
  (stream_reasoning d = false → R = []) →
  let x := parse_current d (mkDetState true cur (tail_of R) (bool_decide (pre = S_)) []) cur in
  phase (pre ++ R ++ cur) x.2 (normal_text x.1) (R ++ reasoning_text x.1).
Proof.
  intros Ht E Hc Hct Hs. unfold parse_current. cbn [_in_reasoning andb _streamed_reasoning_tail set_state stripped_think_start _accumulated_reasoning].
  destruct (str_in E_ cur) eqn:Hin.
  { cbn. apply (reason_end R cur z _ Ht E Hc Hin strip_flag). }
  destruct (find_tool_spec d cur (tail_of R)) as [[-> Hnv]|(v & -> & Hv & Hmin)].
  2:{ rewrite (proj2 (Z.eqb_neq _ _)) by lia. cbn. by apply (reason_tool R cur z _ v Ht E Hc Hct Hin Hv Hmin strip_flag). }
  rewrite Z.eqb_refl. cbn [negb]. destruct (stream_reasoning d) eqn:Hstr.
  - cbn [fst snd normal_text reasoning_text]. by apply reason_more.
  - cbn. rewrite app_nil_r. specialize (Hs eq_refl). subst R. apply ph_reason; try done; try (intros i Hi; cbn in Hi; lia).
Qed.

(** Text that is held back whole has no mark in it. *)
Lemma held_back R cur : existsb (strict_prefix cur) (tokens_to_check d) = true → clear_tool d (R ++ cur) (length R) →
  str_in E_ cur = false ∧ ∀ i, ¬ valid d (R ++ cur) [] i.
Proof.
  intros Hh Hct. destruct marks_facts as (HS & HE & Hst & _ & _ & HES & _ & HU).
  apply existsb_exists in Hh as (tok & Htok & [Hp%bool_decide_eq_true Hne%negb_true_iff%bool_decide_eq_false]%andb_true_iff).
  assert (length cur < length tok)%nat as Hlt.
  { destruct Hp as [y Hy]. pose proof (f_equal length Hy) as Hl. rewrite length_app in Hl. destruct y; [rewrite app_nil_r in Hy; done|cbn in Hl; lia]. }
  assert (tok = S_ ∨ tok = E_ ∨ tok = U_ ∧ U_ ≠ []) as Hcase.
  { unfold tokens_to_check in Htok. rewrite Hst in Htok. apply list_elem_of_In in Htok. case_bool_decide; set_solver. }
  assert (∀ s, s ≠ [] → str_in s cur = true → str_in s tok = true ∧ (length s < length tok)%nat) as Hin.
  { intros s Hs Hi. split; [by eapply str_in_prefix|]. apply str_in_occurs in Hi as [k Hk]. apply occurs_len in Hk; [|done]. lia. }
  split.
  - apply not_true_is_false. intros Hi. destruct (Hin _ HE Hi) as [Ht Hl]. destruct Hcase as [->|[->|[-> Hu]]]; [congruence|lia|]. destruct (HU Hu) as (? & _). congruence.
  - intros i Hv. destruct (decide (i < length R)%nat) as [Hi|Hi]; [by destruct (Hct i Hi)|]. destruct Hv as (Hu & Ho & _).
    assert (str_in U_ cur = true) as Hi2. { apply str_in_occurs. exists (i - length R)%nat. unfold occurs_at in *. by rewrite drop_app_ge in Ho by lia. }
    destruct (Hin _ Hu Hi2) as [Ht Hl]. destruct (HU Hu) as (_ & H1 & H2 & _). destruct Hcase as [->|[->|[-> _]]]; [congruence|congruence|lia].
Qed.

Lemma increment_eq c s : parse_streaming_increment d c s = _parse_streaming_increment_impl d c s.
Proof. destruct marks_facts as (_ & _ & _ & _ & Hf & _). unfold parse_streaming_increment. rewrite Hf. by destruct (_parse_streaming_increment_impl d c s). Qed.

(** The opening mark, in the first pieces. *)
Lemma step_start P c z : pre = S_ → P `prefix_of` S_ → P ≠ S_ → T = P ++ c ++ z →
  let x := _parse_streaming_increment_impl d c (mkDetState (force_reasoning d) P [] false []) in phase (P ++ c) x.2 (normal_text x.1) (reasoning_text x.1).
Proof.
  intros Ep Hp Hne E. destruct marks_facts as (HS & HE & Hst & _ & _ & _ & HSE & HU).
  unfold _parse_streaming_increment_impl. cbn [_in_reasoning _buffer set_state stripped_think_start negb andb _streamed_reasoning_tail _accumulated_reasoning]. rewrite Hst.
  assert (P ++ c `prefix_of` S_ ∨ S_ `prefix_of` P ++ c) as Hcase.
  { apply (prefix_weak_total _ _ T); [exists z; by rewrite <- app_assoc|exists body; by rewrite <- Ep]. }
  destruct (decide (P ++ c `prefix_of` S_ ∧ P ++ c ≠ S_)) as [[Hh Hn]|Hnh].
  { assert (existsb (strict_prefix (P ++ c)) (tokens_to_check d) = true) as ->; [|by apply ph_start].
    apply existsb_exists. exists S_. split; [unfold tokens_to_check; rewrite Hst; by left|]. unfold strict_prefix. rewrite bool_decide_true, bool_decide_false by done. done. }
  assert (S_ `prefix_of` P ++ c) as [x Hx].
  { destruct Hcase as [H|H]; [|done]. destruct (decide (P ++ c = S_)) as [->|]; [done|]. by destruct Hnh. }
  rewrite Hx. assert (existsb (strict_prefix (S_ ++ x)) (tokens_to_check d) = false) as ->.
  { apply not_true_is_false. intros (tok & Htok & [Hq%bool_decide_eq_true Hneq%negb_true_iff%bool_decide_eq_false]%andb_true_iff)%existsb_exists.
    assert (S_ `prefix_of` tok) as HSt by (etrans; [|exact Hq]; by exists x).
    unfold tokens_to_check in Htok. rewrite Hst in Htok. apply list_elem_of_In in Htok.
    assert (tok = S_ ∨ tok = E_ ∨ tok = U_ ∧ U_ ≠ []) as [->|[->|[-> Hu]]] by (case_bool_decide; set_solver).
    - destruct Hq as [y Hy]. apply (f_equal length) in Hy as Hl. rewrite !length_app in Hl. destruct x; [|cbn in Hl; lia]. by rewrite app_nil_r in Hneq.
    - done.
    - by destruct (HU Hu) as (_ & _ & _ & ?). }
  assert (occurs_at S_ (S_ ++ x) 0) as Ho by (unfold occurs_at; rewrite drop_0; by exists x).
  destruct (find_first S_ (S_ ++ x) 0 HS Ho ltac:(lia)) as [Ef ->].
  assert (remove_first S_ (S_ ++ x) = x) as ->.
  { unfold remove_first. rewrite Ef. change (Z.of_nat 0) with 0. change (0 =? -1) with false. rewrite Z.add_0_l, pytake_eq, pydrop_eq by (unfold zlen; lia).
    change (Z.to_nat 0) with 0%nat. rewrite take_0. unfold zlen. by rewrite Nat2Z.id, drop_app_length. }
  assert (body = ([] ++ x) ++ z) as Eb.
  { cbn. rewrite Ep, app_assoc, Hx, <- app_assoc in E. by apply app_inv_head in E. }
  pose proof (parse_current_phase [] x z (or_introl Ep) Eb) as Hph. rewrite (bool_decide_true (pre = S_)) in Hph by done. rewrite <- Ep at 1.
  apply Hph; [intros i Hi; cbn in Hi; lia..|done].
Qed.

(** Pieces of the reasoning. *)
Lemma step_reason R b c z : thinking → T = (pre ++ R ++ b) ++ c ++ z → clear E_ (R ++ b) (length R) → clear_tool d (R ++ b) (length R) →
  (stream_reasoning d = false → R = []) →
  let x := _parse_streaming_increment_impl d c (mkDetState true b (tail_of R) (bool_decide (pre = S_)) []) in
  phase ((pre ++ R ++ b) ++ c) x.2 (normal_text x.1) (R ++ reasoning_text x.1).
Proof.
  intros Ht E Hc Hct Hs. destruct marks_facts as (_ & _ & Hst & _).
  unfold _parse_streaming_increment_impl. cbn [_in_reasoning _buffer set_state stripped_think_start _streamed_reasoning_tail _accumulated_reasoning]. rewrite Hst.
  assert (body = (R ++ b ++ c) ++ z) as Eb. { rewrite <- !app_assoc in E. apply app_inv_head in E. by rewrite <- !app_assoc. }
  apply (clear_app _ _ c) in Hc; [|rewrite length_app; lia]. apply (clear_tool_app _ _ c) in Hct; [|rewrite length_app; lia]. rewrite <- app_assoc in Hc, Hct.
  rewrite <- !app_assoc. destruct (existsb _ _) eqn:Hh.
  { destruct (held_back R (b ++ c) Hh Hct) as [Hin Hnv]. cbn. rewrite app_nil_r. by apply ph_reason. }
  assert (negb (bool_decide (pre = S_)) && str_in S_ (b ++ c) = false) as ->.
  { destruct strip_flag as [->|Ep]; [done|]. apply andb_false_iff. right. apply not_true_is_false. intros Hi.
    assert (str_in S_ ((b ++ c) ++ z) = true) as Hi2 by (by apply str_in_app). rewrite (no_start_in (pre ++ R)) in Hi2; [done|by left|].
    rewrite E. by rewrite <- !app_assoc. }
  by apply (parse_current_phase R (b ++ c) z).
Qed.

Lemma step_phase P s N R c z : phase P s N R → T = P ++ c ++ z →
  let x := parse_streaming_increment d c s in phase (P ++ c) x.2 (N ++ normal_text x.1) (R ++ reasoning_text x.1).
Proof.
  intros Hph E. rewrite increment_eq. destruct marks_facts as (_ & _ & Hst & _).
  destruct Hph as [Ep Hp Hne|R b Ht -> Hc Hct _ _ Hs|w n b r tl st -> Hw Hst'].
  - by apply (step_start P c z).
  - by apply (step_reason R b c z).
  - unfold _parse_streaming_increment_impl. cbn [_in_reasoning _buffer set_state stripped_think_start _streamed_reasoning_tail _accumulated_reasoning]. rewrite Hst.
    destruct (existsb _ _); cbn [fst snd normal_text reasoning_text no_text]; [rewrite !app_nil_r; apply (ph_normal _ w n (b ++ c)); [by rewrite <- !app_assoc|done|done]|].
    assert (negb st && str_in S_ (b ++ c) = false) as ->.
    { destruct Hst' as [->|Ep]; [done|]. apply andb_false_iff. right. apply not_true_is_false. intros Hi.
      assert (str_in S_ ((b ++ c) ++ z) = true) as Hi2 by (by apply str_in_app). rewrite (no_start_in (w ++ n)) in Hi2; [done|by left|]. rewrite E. by rewrite <- !app_assoc. }
    cbn. rewrite app_nil_r. apply (ph_normal _ w (n ++ b ++ c) []); [by rewrite app_nil_r, <- !app_assoc|done|done].
Qed.

Lemma stream_phase chunks P s N R z : phase P s N R → T = P ++ concat chunks ++ z →
  let x := stream_chunks d chunks s in phase (P ++ concat chunks) x.2 (N ++ normal_text x.1) (R ++ reasoning_text x.1).
Proof.
  revert P s N R. induction chunks as [|c chunks IH]; intros P s N R Hph E; cbn [stream_chunks concat].
  { cbn. by rewrite !app_nil_r. }
  cbn [concat] in E. rewrite <- app_assoc in E. pose proof (step_phase P s N R c _ Hph E) as H1.
  destruct (parse_streaming_increment d c s) as [r1 s1]. cbn [fst snd] in H1.
  pose proof (IH _ _ _ _ H1) as H2. rewrite <- app_assoc in H2. specialize (H2 E). destruct (stream_chunks d chunks s1) as [r2 s2].
  cbn [fst snd normal_text reasoning_text] in *. by rewrite !app_assoc in *.
Qed.

(** The end of the stream. *)
Lemma finish_phase s N R : phase T s N R → let x := finish d s in mkParse (N ++ normal_text x.1) (R ++ reasoning_text x.1) = whole.
Proof.
  intros Hph. destruct marks_facts as (HS & HE & Hst & _ & Hf & _). unfold finish. inversion Hph as [Ep Hp Hne|R' b Ht E Hc Hct Hin Hnv _|w n b r tl st E Hw _]; subst; cbn [_in_reasoning negb].
  - exfalso. apply Hne. destruct Hp as [y Hy]. pose proof (f_equal length Hy) as Hl. rewrite Ep, !length_app in Hl. destruct y; [by rewrite app_nil_r in Hy|cbn in Hl; lia].
  - apply app_inv_head in E. cbn [_buffer _streamed_reasoning_tail]. rewrite Hf.
    assert (_strip_leading_think_start d b = b) as ->.
    { unfold _strip_leading_think_start. rewrite Hst, bool_decide_false; [done|]. apply not_prefix_of.
      destruct Hpre as [Ep|Ep]; [apply (no_start_in (pre ++ R)); [by left|by rewrite E, <- app_assoc]|].
      apply (no_start_in (pre ++ R)); [right; rewrite Ep; by destruct S_|by rewrite E, <- app_assoc]. }
    cbn. rewrite (whole_thinking Ht), E. assert (str_in E_ (R ++ b) = false) as ->.
    { apply not_true_is_false. intros [k Ho]%str_in_occurs. destruct (decide (k < length R)%nat) as [Hk|Hk]; [by destruct (Hc k Hk)|].
      assert (str_in E_ b = true); [|congruence]. apply str_in_occurs. exists (k - length R)%nat. unfold occurs_at in *. by rewrite drop_app_ge in Ho by lia. }
    destruct (find_tool_spec d (R ++ b) []) as [[-> _]|(k & _ & Hv & _)]; [|by destruct (Hnv k)]. cbn. by rewrite strip_partial_app.
  - cbn. rewrite Hw, app_nil_r. f_equal. by rewrite E, drop_app_length.
Qed.

Lemma first_phase : phase [] (detector_init d) [] [].
Proof.
  rewrite init_state. destruct marks_facts as (HS & _). destruct Hpre as [Ep|Ep].
  - destruct (force_reasoning d) eqn:Ef.
    + replace false with (bool_decide (pre = S_)) by (apply bool_decide_eq_false; congruence).
      apply (ph_reason [] [] []); try done; try (by right); try (by rewrite Ep); try (intros i Hi; cbn in Hi; lia).
      * destruct marks_facts as (_ & HE & _). apply not_true_is_false. intros [k Ho]%str_in_occurs. apply occurs_len in Ho; [|done]. destruct E_; [done|]. cbn in Ho. lia.
      * intros i (Hu & Ho & _). apply occurs_len in Ho; [|done]. destruct U_; [done|]. cbn in Ho. lia.
    + apply (ph_normal [] [] [] [] []); [done| |by right]. cbn. by apply whole_normal.
  - apply ph_start; [done|apply prefix_nil|congruence].
Qed.
End stream.

(** ** The properties *)


(** ** On concrete outputs *)

(** The marks of the families fit. *)
Example family_marks :
  forallb marks_ok (DeepSeekR1Detector true :: MistralDetector false false :: KimiDetector true
    :: (b ← [true; false]; [IQuestQ1ReasoningDetector b true; Qwen3Detector b false; KimiK2Detector b true; Glm45Detector b false; Nemotron3Detector b true])
    ++ ((λ e, plain_detector (k2v3_tokens e).1 (k2v3_tokens e).2 (txt "<ifm|tool_call") true true) <$> ["high"; "medium"; "low"]%string)) = true.
Proof. vm_compute. reflexivity. Qed.

Definition places (s t : text) : list nat := List.filter (λ k, bool_decide (s `prefix_of` drop k t)) (seq 0 (length t)).
Lemma occurs_places s t k : s ≠ [] → occurs_at s t k → k ∈ places s t.
Proof.
  intros Hs Ho. pose proof (occurs_len s t k Hs Ho). unfold places. apply list_elem_of_In, filter_In. split; [|by apply bool_decide_eq_true].
  apply in_seq. destruct s; [done|]. cbn in *. lia.
Qed.

Definition thought : text := txt "2+2</think>It is 4".

(** A second opening mark: at once both are taken out, in pieces only the first. *)
Example second_mark_streamed : let d := Qwen3Detector true false in let t := txt "<think><think>2+2</think>4" in
  detect_and_parse d (detector_init d) t = mkParse (txt "4") (txt "2+2") ∧ stream_all d [t] = mkParse (txt "4") (txt "<think>2+2").
Proof. split; vm_compute; reflexivity. Qed.

(** An opening mark after some text: what comes before it is reasoning or answer,
    depending on the pieces. *)
Example late_mark_depends_on_pieces : let d := Qwen3Detector true false in
  stream_all d [txt "Well <think>2+2</think>4"] = mkParse (txt "4") (txt "Well 2+2") ∧
  stream_all d [txt "Well "; txt "<think>2+2</think>4"] = mkParse (txt "Well 4") (txt "2+2").
Proof. split; vm_compute; reflexivity. Qed.
