(* ===== verification/Receiver.v ===== *)
(** * Receiving requests on every rank ([scheduler_components/request_receiver.py],
      [scheduler_input_blocker.py], [utils/poll_based_barrier.py], [recv_skipper.py])

    One rank of each data-parallel group takes messages from its sockets and sends
    them to the other ranks of the group, so that all of them run the same batches.
    A blocker holds requests back between two marks and lets them go on all groups
    in the same round; a skipper lets rounds pass without looking at the sockets.

    The ranks run the same code in step: a value per rank is a function of the rank,
    and a collective call is a function of the values of all.  This is the first
    pipeline stage; what is received there is passed on. *)
From S2P Require Import Prelude.
From Stdlib Require Import QArith.
Local Open Scope Z_scope.

(** ** Skipping rounds *)

Inductive ForwardMode := EXTEND | DECODE_MODE | MIXED | IDLE | TARGET_VERIFY | DRAFT_EXTEND_V2 | PREBUILT | SPLIT_PREFILL | DLLM_EXTEND.
#[global] Instance ForwardMode_eq_dec : EqDecision ForwardMode.
Proof. solve_decision. Defined.

Definition is_idle_mode (m : ForwardMode) : bool := match m with IDLE | PREBUILT => true | _ => false end.
Definition is_decode_mode (m : ForwardMode) : bool := match m with DECODE_MODE | TARGET_VERIFY => true | _ => false end.

Definition derive_forward_mode (gathered : list ForwardMode) : option ForwardMode :=
  let active := List.filter (λ m, negb (is_idle_mode m)) gathered in
  match active with
  | [] => None
  | _ =>
      if existsb (λ m, negb (is_decode_mode m)) active then Some EXTEND
      else if forallb (λ m, bool_decide (m = TARGET_VERIFY)) active then Some TARGET_VERIFY
      else Some DECODE_MODE
  end.

Record Weights := mkWeights { w_default : Z; w_decode : Z; w_verify : Z; w_none : Z }.
Record Skipper := mkSkipper { sk_counter : Z; sk_threshold : Z; sk_weights : Weights }.

Definition skipper_maybe_create (interval : Z) (w : Weights) : option Skipper := if interval <=? 1 then None else Some (mkSkipper 0 interval w).

Definition weight_of (w : Weights) (mode : option ForwardMode) : Z :=
  match mode with None => w_none w | Some DECODE_MODE => w_decode w | Some TARGET_VERIFY => w_verify w | Some _ => w_default w end.

Definition skipper_handle (mode : option ForwardMode) (s : Skipper) : bool * Skipper :=
  let counter := sk_counter s + weight_of (sk_weights s) mode in
  if sk_threshold s <=? counter then (true, mkSkipper 0 (sk_threshold s) (sk_weights s))
  else (false, mkSkipper counter (sk_threshold s) (sk_weights s)).

(** ** Ranks *)

Record Rank := mkRank { attn_dp : nat; attn_cp : nat; attn_tp : nat }.
Record Topology := mkTopology { dp_size : nat; cp_size : nat; tp_size : nat }.

Definition all_ranks (t : Topology) : list Rank :=
  d ← seq 0 (dp_size t); c ← seq 0 (cp_size t); k ← seq 0 (tp_size t); [mkRank d c k].
Definition world_size (t : Topology) : nat := dp_size t * cp_size t * tp_size t.
Definition leader (d : nat) : Rank := mkRank d 0 0.
Definition is_leader (r : Rank) : bool := (attn_cp r =? 0)%nat && (attn_tp r =? 0)%nat.

(** ** Messages *)

(** Requests to run, control messages, and the marks of the blocker. *)
Inductive RecvReq := WorkReq (id : Z) | ControlReq (id : Z) | BlockReq | UnblockReq.
#[global] Instance RecvReq_eq_dec : EqDecision RecvReq.
Proof. solve_decision. Defined.

Definition is_work (q : RecvReq) : bool := match q with WorkReq _ => true | _ => false end.

Definition recv_limit_reached (max_recv_per_poll num_recv_reqs : Z) : bool :=
  if max_recv_per_poll <? 0 then false else max_recv_per_poll <=? num_recv_reqs.

(** One of the two loops of [_pull_raw_reqs]: what is taken, and what stays. *)
Fixpoint pull_socket (max_recv : Z) (recv_reqs socket : list RecvReq) : list RecvReq * list RecvReq :=
  if recv_limit_reached max_recv (zlen recv_reqs) then (recv_reqs, socket)
  else match socket with [] => (recv_reqs, []) | q :: socket => pull_socket max_recv (recv_reqs ++ [q]) socket end.

Definition _pull_raw_reqs (max_recv : Z) (from_tokenizer from_rpc : list RecvReq) : list RecvReq * list RecvReq * list RecvReq :=
  let '(recv_reqs, from_tokenizer) := pull_socket max_recv [] from_tokenizer in
  let '(recv_reqs, from_rpc) := pull_socket max_recv recv_reqs from_rpc in
  (recv_reqs, from_tokenizer, from_rpc).

(** ** The blocker *)

Inductive BState := UNBLOCKED | BLOCKED | GLOBAL_UNBLOCK_BARRIER.
#[global] Instance BState_eq_dec : EqDecision BState.
Proof. solve_decision. Defined.

Record Blocker := mkBlocker { _state : BState; _pending_reqs : list RecvReq; _noop : bool; _local_arrived : bool }.
Definition blocker_new (noop : bool) : Blocker := mkBlocker UNBLOCKED [] noop false.

Definition _change_state (original target : BState) (b : Blocker) : result Blocker :=
  assert! bool_decide (_state b = original) in Ok (mkBlocker target (_pending_reqs b) (_noop b) (_local_arrived b)).
Definition local_arrive (b : Blocker) : result Blocker :=
  assert! negb (_local_arrived b) in Ok (mkBlocker (_state b) (_pending_reqs b) (_noop b) true).

Definition _execute_block_req (b : Blocker) : result Blocker := _change_state UNBLOCKED BLOCKED b.
Definition _execute_unblock_req (b : Blocker) : result Blocker :=
  let! b := _change_state BLOCKED GLOBAL_UNBLOCK_BARRIER b in local_arrive b.

Definition _handle_recv_req (q : RecvReq) (b : Blocker) : result (list RecvReq * Blocker) :=
  match q with
  | BlockReq => let! b := _execute_block_req b in Ok ([], b)
  | UnblockReq => let! b := _execute_unblock_req b in Ok ([], b)
  | _ =>
      if bool_decide (_state b = UNBLOCKED) then Ok ([q], b)
      else Ok ([], mkBlocker (_state b) (_pending_reqs b ++ [q]) (_noop b) (_local_arrived b))
  end.
Fixpoint handle_reqs (recv_reqs : list RecvReq) (b : Blocker) : result (list RecvReq * Blocker) :=
  match recv_reqs with
  | [] => Ok ([], b)
  | q :: recv_reqs =>
      let! (o, b) := _handle_recv_req q b in
      let! (os, b) := handle_reqs recv_reqs b in Ok (o ++ os, b)
  end.

(** [handle] up to the collective call. *)
Definition handle_local (recv_reqs : option (list RecvReq)) (b : Blocker) : result (option (list RecvReq) * Blocker) :=
  assert! bool_decide ((recv_reqs = None) ↔ (_noop b = true)) in
  match recv_reqs with
  | None => Ok (None, b)
  | Some l => let! (o, b) := handle_reqs l b in Ok (Some o, b)
  end.

Definition _handle_arrive_unblock_barrier (b : Blocker) : result (list RecvReq * Blocker) :=
  let! b := _change_state GLOBAL_UNBLOCK_BARRIER UNBLOCKED b in
  Ok (_pending_reqs b, mkBlocker (_state b) [] (_noop b) (_local_arrived b)).

(** [poll_global_arrived] once the ranks have agreed, and the rest of [handle]. *)
Definition handle_global (global_arrived : bool) (x : option (list RecvReq) * Blocker) : result (option (list RecvReq) * Blocker) :=
  let '(o, b) := x in
  let output := _local_arrived b && global_arrived in
  let b := if output then mkBlocker (_state b) (_pending_reqs b) (_noop b) false else b in
  if bool_decide (_state b = GLOBAL_UNBLOCK_BARRIER) && output then
    let! (l, b) := _handle_arrive_unblock_barrier b in Ok ((λ o, o ++ l) <$> o, b)
  else Ok (o, b).

(** A computation on every rank; it fails when one of them does. *)
Fixpoint first_error {A} (f : Rank → result A) (rs : list Rank) : option exn :=
  match rs with [] => None | r :: rs => match f r with Raise e => Some e | Ok _ => first_error f rs end end.
Definition on_ranks {A} (t : Topology) (f : Rank → result A) (dflt : Rank → A) : result (Rank → A) :=
  match first_error f (all_ranks t) with
  | Some e => Raise e
  | None => Ok (λ r, match f r with Ok a => a | Raise _ => dflt r end)
  end.

(** [handle] on all ranks, with the minimum over them in the middle. *)
Definition blocker_round (t : Topology) (recv : Rank → option (list RecvReq)) (bs : Rank → Blocker) :
    result (Rank → option (list RecvReq) * Blocker) :=
  let! xs := on_ranks t (λ r, handle_local (recv r) (bs r)) (λ r, (None, bs r)) in
  let global_arrived := forallb (λ r, _noop (xs r).2 || _local_arrived (xs r).2) (all_ranks t) in
  on_ranks t (λ r, handle_global global_arrived (xs r)) xs.

(** The blockers a scheduler is made with. *)
Definition new_blockers : Rank → Blocker := λ r, blocker_new (negb (attn_tp r =? 0)%nat).

(** ** Passing on *)

(** [broadcast_pyobj] in a group with more than one member: the value of its source. *)
Definition _broadcast_attn {A} (t : Topology) (data : Rank → A) : Rank → A :=
  let data := if (1 <? cp_size t)%nat then λ r, if (attn_tp r =? 0)%nat then data (mkRank (attn_dp r) 0 0) else data r else data in
  if (1 <? tp_size t)%nat then λ r, data (mkRank (attn_dp r) (attn_cp r) 0) else data.

Definition broadcast_tp {A} (t : Topology) (data : Rank → A) : Rank → A :=
  if (world_size t =? 1)%nat then data else λ _, data (leader 0).

Definition _split_work_and_control_reqs (recv_reqs : list RecvReq) : list RecvReq * list RecvReq :=
  (List.filter is_work recv_reqs, List.filter (λ q, negb (is_work q)) recv_reqs).

Definition _broadcast_reqs_across_ranks (t : Topology) (attn_dp_enabled local_ctrl : bool) (recv_reqs : Rank → option (list RecvReq))
    (local_reqs : Rank → list RecvReq) : Rank → option (list RecvReq) :=
  if attn_dp_enabled then
    let work r := if is_leader r then (λ l, (_split_work_and_control_reqs l).1 ++ local_reqs r) <$> recv_reqs r else None in
    let control r := if is_leader r then (λ l, (_split_work_and_control_reqs l).2) <$> recv_reqs r else None in
    let work := _broadcast_attn t work in
    let control := if local_ctrl then _broadcast_attn t control else broadcast_tp t control in
    λ r, match work r, control r with Some w, Some c => Some (w ++ c) | _, _ => None end
  else broadcast_tp t (λ r, (λ l, l ++ local_reqs r) <$> recv_reqs r).

(** [recv_requests] on all ranks: [sockets] are those of the groups; [mode] is what the
    ranks agree the last batch ran in. *)
Definition Sockets : Type := nat → list RecvReq * list RecvReq.

(** Whether this round looks at the sockets. *)
Definition skip_step (skipper : option Skipper) (mode : option ForwardMode) : bool * option Skipper :=
  match skipper with None => (true, None) | Some s => let '(b, s) := skipper_handle mode s in (b, Some s) end.

Definition recv_requests (t : Topology) (attn_dp_enabled local_ctrl : bool) (max_recv : Z) (local_reqs : Rank → list RecvReq)
    (mode : option ForwardMode) (skipper : option Skipper) (sockets : Sockets) (blockers : option (Rank → Blocker)) :
    result ((Rank → option (list RecvReq)) * option Skipper * Sockets * option (Rank → Blocker)) :=
  let '(look, skipper) := skip_step skipper mode in
  if negb look then Ok (λ _, Some [], skipper, sockets, blockers)
  else
    let pulled d := _pull_raw_reqs max_recv (sockets d).1 (sockets d).2 in
    let recv r := if is_leader r then Some (pulled (attn_dp r)).1.1 else None in
    let sockets' : Sockets := λ d, ((pulled d).1.2, (pulled d).2) in
    match blockers with
    | None => Ok (_broadcast_reqs_across_ranks t attn_dp_enabled local_ctrl recv local_reqs, skipper, sockets', None)
    | Some bs =>
        let! xs := blocker_round t recv bs in
        Ok (_broadcast_reqs_across_ranks t attn_dp_enabled local_ctrl (λ r, (xs r).1) local_reqs, skipper, sockets', Some (λ r, (xs r).2))
    end.
