(* ===== verification/ReceiverTheorems.v ===== *)
(** * All ranks receive the same

    What every rank gets of the messages, that nothing is lost or reordered, that a
    guarded batch starts on all groups in the same round, and how long a skipper can
    put off looking. *)
From S2P Require Import Prelude Receiver.
Local Open Scope Z_scope.

(** ** Ranks *)

Definition in_world (t : Topology) (r : Rank) : Prop := (attn_dp r < dp_size t)%nat ∧ (attn_cp r < cp_size t)%nat ∧ (attn_tp r < tp_size t)%nat.

Lemma all_ranks_spec t r : r ∈ all_ranks t ↔ in_world t r.
Proof.
  unfold all_ranks, in_world. rewrite list_elem_of_bind. split.
  - intros (d & Hr & Hd%elem_of_seq). apply list_elem_of_bind in Hr as (c & Hr & Hc%elem_of_seq).
    apply list_elem_of_bind in Hr as (k & ->%list_elem_of_singleton & Hk%elem_of_seq). cbn. lia.
  - intros (Hd & Hc & Hk). exists (attn_dp r). split; [|apply elem_of_seq; lia]. apply list_elem_of_bind. exists (attn_cp r). split; [|apply elem_of_seq; lia].
    apply list_elem_of_bind. exists (attn_tp r). split; [|apply elem_of_seq; lia]. apply list_elem_of_singleton. by destruct r.
Qed.

Lemma leader_in t d : (d < dp_size t)%nat → (0 < cp_size t)%nat → (0 < tp_size t)%nat → in_world t (leader d).
Proof. unfold in_world. cbn. lia. Qed.

Lemma is_leader_eq r : is_leader r = true ↔ r = leader (attn_dp r).
Proof.
  unfold is_leader, leader. rewrite andb_true_iff, !Nat.eqb_eq. destruct r as [d c k]. cbn. split; [intros [-> ->]; done|intros [= -> ->]; done].
Qed.

(** ** Passing on *)

(** In its attention groups every rank gets the value of the leader of its group. *)
Lemma broadcast_attn_leader {A} t (data : Rank → A) r : in_world t r → _broadcast_attn t data r = data (leader (attn_dp r)).
Proof.
  intros (Hd & Hc & Hk). unfold _broadcast_attn, leader. destruct r as [d c k]. cbn [attn_dp attn_cp attn_tp] in *.
  destruct (1 <? cp_size t)%nat eqn:Ec, (1 <? tp_size t)%nat eqn:Et; cbn; try done;
    try apply Nat.ltb_ge in Ec; try apply Nat.ltb_ge in Et;
    try (replace k with 0%nat by lia); try (replace c with 0%nat by lia); done.
Qed.
Lemma broadcast_tp_first {A} t (data : Rank → A) r : in_world t r → broadcast_tp t data r = data (leader 0).
Proof.
  intros (Hd & Hc & Hk). unfold broadcast_tp, world_size. destruct (dp_size t * cp_size t * tp_size t =? 1)%nat eqn:E; [|done].
  apply Nat.eqb_eq, Nat.eq_mul_1 in E as [[E1 E2]%Nat.eq_mul_1 E3]. destruct r as [d c k]. cbn in *. assert (d = 0 ∧ c = 0 ∧ k = 0)%nat as (-> & -> & ->) by lia. done.
Qed.

Definition work_of (l : list RecvReq) : list RecvReq := List.filter is_work l.
Definition control_of (l : list RecvReq) : list RecvReq := List.filter (λ q, negb (is_work q)) l.

(** The group whose control messages a rank gets. *)
Definition control_group (local_ctrl : bool) (r : Rank) : nat := if local_ctrl then attn_dp r else 0%nat.

Lemma broadcast_exact t attn_dp_enabled local_ctrl recv local (got : nat → list RecvReq) r :
  (∀ d, (d < dp_size t)%nat → recv (leader d) = Some (got d)) → in_world t r →
  _broadcast_reqs_across_ranks t attn_dp_enabled local_ctrl recv local r =
    Some (if attn_dp_enabled then work_of (got (attn_dp r)) ++ local (leader (attn_dp r)) ++ control_of (got (control_group local_ctrl r))
          else got 0%nat ++ local (leader 0)).
Proof.
  intros Hg Hr. pose proof Hr as (Hd & _). unfold _broadcast_reqs_across_ranks. destruct attn_dp_enabled.
  - rewrite broadcast_attn_leader by done. assert (∀ d, is_leader (leader d) = true) as Hl by done. rewrite Hl, Hg by done. cbn [fmap option_fmap option_map].
    destruct local_ctrl; cbn [control_group].
    + rewrite broadcast_attn_leader by done. rewrite Hl, Hg by done. cbn. by rewrite <- app_assoc.
    + rewrite broadcast_tp_first by done. rewrite Hl, Hg by lia. cbn. by rewrite <- app_assoc.
  - rewrite broadcast_tp_first by done. rewrite Hg by lia. done.
Qed.

(** ** Sockets *)

Lemma pull_socket_keeps max_recv got socket :
  let '(got', rest) := pull_socket max_recv got socket in
  ∃ taken, got' = got ++ taken ∧ socket = taken ++ rest ∧ (0 ≤ max_recv → zlen got ≤ max_recv → zlen got' ≤ max_recv) ∧
    (rest = [] ∨ 0 ≤ max_recv ∧ max_recv ≤ zlen got').
Proof.
  revert got. induction socket as [|q socket IH]; intros got; cbn [pull_socket]; unfold recv_limit_reached.
  - destruct (if max_recv <? 0 then false else max_recv <=? zlen got); exists []; rewrite app_nil_r; split_and!; auto.
  - destruct (max_recv <? 0) eqn:En; [apply Z.ltb_lt in En|apply Z.ltb_ge in En; destruct (max_recv <=? zlen got) eqn:El; [apply Z.leb_le in El|apply Z.leb_gt in El]].
    + specialize (IH (got ++ [q])). destruct (pull_socket max_recv (got ++ [q]) socket) as [got' rest]. destruct IH as (taken & -> & -> & _ & H4).
      exists (q :: taken). rewrite <- app_assoc in H4 |- *. split_and!; [done|done|lia|done].
    + exists []. rewrite app_nil_r. split_and!; auto.
    + specialize (IH (got ++ [q])). destruct (pull_socket max_recv (got ++ [q]) socket) as [got' rest]. destruct IH as (taken & -> & -> & H3 & H4).
      exists (q :: taken). rewrite <- app_assoc in H3, H4 |- *. split_and!; [done|done| |done]. intros _ _. apply H3; [done|]. unfold zlen in *. rewrite length_app. cbn. lia.
Qed.

(** What is taken of the two sockets, in their order, up to the limit. *)
Lemma pull_keeps max_recv tok rpc :
  let '(got, tok', rpc') := _pull_raw_reqs max_recv tok rpc in
  ∃ t1 r1, got = t1 ++ r1 ∧ tok = t1 ++ tok' ∧ rpc = r1 ++ rpc' ∧ (0 ≤ max_recv → zlen got ≤ max_recv) ∧
    (max_recv < 0 → tok' = [] ∧ rpc' = []).
Proof.
  unfold _pull_raw_reqs. pose proof (pull_socket_keeps max_recv [] tok) as H1. destruct (pull_socket max_recv [] tok) as [g1 tok'].
  destruct H1 as (t1 & -> & -> & L1 & E1). cbn [app]. pose proof (pull_socket_keeps max_recv t1 rpc) as H2. destruct (pull_socket max_recv t1 rpc) as [g2 rpc'].
  destruct H2 as (r1 & -> & -> & L2 & E2). exists t1, r1. split_and!; try done.
  - intros Hm. apply L2; [done|]. apply L1; [done|]. done.
  - intros Hm. destruct E1 as [->|[? _]]; [|lia]. destruct E2 as [->|[? _]]; [done|lia].
Qed.

(** ** The blocker of one rank *)

Definition is_mark (q : RecvReq) : bool := match q with BlockReq | UnblockReq => true | _ => false end.
Definition data_of (l : list RecvReq) : list RecvReq := List.filter (λ q, negb (is_mark q)) l.

Record blk_ok (b : Blocker) : Prop := {
  bo_arrived : _local_arrived b = true ↔ _state b = GLOBAL_UNBLOCK_BARRIER;
  bo_pending : _state b = UNBLOCKED → _pending_reqs b = [];
  bo_noop : _noop b = true → _state b = UNBLOCKED
}.

Lemma blocker_new_ok noop : blk_ok (blocker_new noop).
Proof. by split. Qed.

(** What one call does to what came in: it is put out or kept, in order. *)
Definition keeps (b b' : Blocker) (o l : list RecvReq) : Prop :=
  blk_ok b' ∧ _noop b' = _noop b ∧ o ++ _pending_reqs b' = _pending_reqs b ++ data_of l ∧
  (_state b ≠ UNBLOCKED → o = [] ∧ _state b' ≠ UNBLOCKED).

Lemma handle_req_keeps q b o b' : blk_ok b → _noop b = false → _handle_recv_req q b = Ok (o, b') → keeps b b' o [q].
Proof.
  intros [H1 H2 H3] Hn E. destruct b as [s p n a]. cbn in *. subst n. destruct q; cbn in E;
    unfold _execute_block_req, _execute_unblock_req, _change_state, local_arrive in E; cbn in E.
  1,2: case_bool_decide as Hs; injection E as <- <-; cbn in *;
    (split; [split; cbn; naive_solver|split; [done|split; [cbn; rewrite ?(H2 Hs); done|naive_solver]]]).
  - case_bool_decide as Hs; cbn in E; [|done]. injection E as <- <-. subst s.
    split; [split; cbn; naive_solver|]. split; [done|]. split; [cbn; by rewrite app_nil_r|done].
  - case_bool_decide as Hs; cbn in E; [|done]. destruct a; cbn in E; [done|]. injection E as <- <-. subst s.
    split; [split; cbn; naive_solver|]. split; [done|]. split; [cbn; by rewrite app_nil_r|done].
Qed.

Lemma keeps_app b1 b2 b3 o1 o2 l1 l2 : blk_ok b1 → keeps b1 b2 o1 l1 → keeps b2 b3 o2 l2 → keeps b1 b3 (o1 ++ o2) (l1 ++ l2).
Proof.
  intros Hb (H1 & H2 & H3 & H4) (G1 & G2 & G3 & G4). split; [done|]. split; [congruence|]. unfold data_of in *. rewrite List.filter_app. split.
  - destruct (decide (_state b2 = UNBLOCKED)) as [Hs|Hs].
    + rewrite (bo_pending _ H1 Hs) in H3, G3. rewrite app_nil_r in H3. rewrite <- app_assoc, G3. cbn. by rewrite app_assoc, <- H3.
    + destruct (G4 Hs) as [-> _]. cbn in G3. rewrite app_nil_r, G3, !app_assoc. by rewrite H3.
  - intros Hs. destruct (H4 Hs) as [-> Hs2]. destruct (G4 Hs2) as [-> Hs3]. done.
Qed.

Lemma handle_reqs_keeps l b o b' : blk_ok b → _noop b = false → handle_reqs l b = Ok (o, b') → keeps b b' o l.
Proof.
  revert b o. induction l as [|q l IH]; intros b o Hb Hn E; cbn [handle_reqs] in E.
  - injection E as <- <-. split; [done|]. split; [done|]. split; [cbn; by rewrite app_nil_r|done].
  - destruct (_handle_recv_req q b) as [[o1 b1]|] eqn:E1; [|done]. cbn in E. destruct (handle_reqs l b1) as [[o2 b2]|] eqn:E2; [|done].
    cbn in E. injection E as <- <-. pose proof (handle_req_keeps q b o1 b1 Hb Hn E1) as K1.
    apply (keeps_app b b1 b2 o1 o2 [q] l Hb K1). destruct K1 as (Hb1 & Hn1 & _). apply IH; [done|congruence|done].
Qed.

(** ** All ranks *)

Lemma first_error_none {A} (f : Rank → result A) rs : first_error f rs = None ↔ ∀ r, r ∈ rs → ∃ a, f r = Ok a.
Proof.
  induction rs as [|r rs IH]; cbn [first_error].
  - split; [intros _ r Hr%elem_of_nil; done|done].
  - destruct (f r) as [a|e] eqn:E.
    + rewrite IH. split.
      * intros H r' [->|Hr]%elem_of_cons; [by exists a|by apply H].
      * intros H r' Hr. apply H. by right.
    + split; [done|]. intros H. destruct (H r ltac:(left)) as [a Ha]. congruence.
Qed.

Lemma on_ranks_inv {A} t (f : Rank → result A) dflt xs : on_ranks t f dflt = Ok xs → ∀ r, in_world t r → f r = Ok (xs r).
Proof.
  unfold on_ranks. destruct (first_error f (all_ranks t)) eqn:E; [done|]. intros [= <-] r Hr%all_ranks_spec.
  destruct (proj1 (first_error_none f _) E r Hr) as [a Ha]. cbn beta. by rewrite Ha.
Qed.
Lemma on_ranks_ok {A} t (f : Rank → result A) (g : Rank → A) dflt : (∀ r, in_world t r → f r = Ok (g r)) →
  ∃ xs, on_ranks t f dflt = Ok xs ∧ ∀ r, in_world t r → xs r = g r.
Proof.
  intros H. unfold on_ranks. rewrite (proj2 (first_error_none f (all_ranks t))); [|intros r Hr%all_ranks_spec; eauto].
  eexists. split; [done|]. intros r Hr. cbn beta. by rewrite (H r Hr).
Qed.

(** What a rank puts out and keeps over a round. *)
Definition round_keeps (b b' : Blocker) (out recv : option (list RecvReq)) : Prop :=
  blk_ok b' ∧ _noop b' = _noop b ∧
  match recv, out with
  | Some l, Some o => o ++ _pending_reqs b' = _pending_reqs b ++ data_of l
  | None, None => b' = b
  | _, _ => False
  end.

Lemma local_keeps b recv out b' : blk_ok b → handle_local recv b = Ok (out, b') → round_keeps b b' out recv.
Proof.
  intros Hb E. unfold handle_local in E. case_bool_decide as Hn; [|done]. cbn in E. destruct recv as [l|].
  - destruct (handle_reqs l b) as [[o b1]|] eqn:El; [|done]. cbn in E. injection E as <- <-.
    destruct (handle_reqs_keeps l b o b1 Hb) as (K1 & K2 & K3 & _); [|done|by split_and!].
    destruct (_noop b); [|done]. destruct Hn as [_ Hn]. by discriminate (Hn eq_refl).
  - injection E as <- <-. by split_and!.
Qed.

Lemma global_keeps b b1 g out out' recv b' : round_keeps b b1 out recv → (recv = None → _noop b1 = true) →
  handle_global g (out, b1) = Ok (out', b') → round_keeps b b' out' recv.
Proof.
  intros (K1 & K2 & K3) Hn E. unfold handle_global in E. destruct (_local_arrived b1) eqn:Ea, g; cbn [andb] in E; rewrite ?andb_false_r in E;
    try (injection E as <- <-; by split_and!).
  pose proof (proj1 (bo_arrived _ K1) Ea) as Es. destruct b1 as [s p n a]. cbn in Es, Ea, K2, K3, Hn, E. subst s.
  unfold _handle_arrive_unblock_barrier, _change_state in E. cbn in E. injection E as <- <-.
  split; [by split|]. split; [done|]. cbn. destruct recv as [l|], out as [o|]; cbn; try done.
  - by rewrite app_nil_r.
  - by pose proof (bo_noop _ K1 (Hn eq_refl)).
Qed.

Lemma round_all_keep t recv bs xs : blocker_round t recv bs = Ok xs → ∀ r, in_world t r → blk_ok (bs r) →
  round_keeps (bs r) (xs r).2 (xs r).1 (recv r).
Proof.
  intros E r Hr Hb. unfold blocker_round in E. destruct (on_ranks t (λ r, handle_local (recv r) (bs r)) _) as [ys|] eqn:El; [|done]. cbn [rbind] in E.
  pose proof (on_ranks_inv _ _ _ _ El r Hr) as E1. pose proof (on_ranks_inv _ _ _ _ E r Hr) as E2. cbn beta in E1, E2.
  destruct (ys r) as [out b1], (xs r) as [out' b']. pose proof (local_keeps _ _ _ _ Hb E1) as K. eapply global_keeps; [exact K| |exact E2].
  intros Hn. destruct K as (_ & -> & _). unfold handle_local in E1. case_bool_decide as Hd; [|done]. by apply Hd.
Qed.

(** Rounds one after another. *)
Fixpoint run_rounds (t : Topology) (inputs : list (Rank → option (list RecvReq))) (bs : Rank → Blocker) :
    result (list (Rank → option (list RecvReq)) * (Rank → Blocker)) :=
  match inputs with
  | [] => Ok ([], bs)
  | recv :: inputs =>
      let! xs := blocker_round t recv bs in
      let! (outs, bs) := run_rounds t inputs (λ r, (xs r).2) in Ok ((λ r, (xs r).1) :: outs, bs)
  end.

Definition at_rank (r : Rank) (l : list (Rank → option (list RecvReq))) : list RecvReq := concat ((λ f, default [] (f r)) <$> l).

Lemma rounds_keep t inputs bs outs bs' r : run_rounds t inputs bs = Ok (outs, bs') → in_world t r → (∀ r, in_world t r → blk_ok (bs r)) →
  at_rank r outs ++ _pending_reqs (bs' r) = _pending_reqs (bs r) ++ data_of (at_rank r inputs).
Proof.
  revert bs outs. induction inputs as [|recv inputs IH]; intros bs outs E Hr Hb; cbn [run_rounds] in E.
  { injection E as <- <-. cbn. by rewrite app_nil_r. }
  destruct (blocker_round t recv bs) as [xs|] eqn:Ex; [|done]. cbn [rbind] in E.
  destruct (run_rounds t inputs _) as [[outs1 bs1]|] eqn:E1; [|done]. cbn [rbind] in E. injection E as <- <-.
  pose proof (λ r' H', round_all_keep t recv bs xs Ex r' H' (Hb r' H')) as K.
  pose proof (IH _ _ E1 Hr (λ r' H', proj1 (K r' H'))) as IHr. cbn beta in IHr. unfold at_rank, data_of in *. cbn [fmap list_fmap concat]. rewrite List.filter_app.
  rewrite <- app_assoc, IHr. destruct (K r Hr) as (_ & _ & Kr). destruct (recv r) as [l|], (xs r).1 as [o|]; try done; cbn [from_option id].
  - rewrite app_assoc, Kr. by rewrite <- app_assoc.
  - cbn. by rewrite Kr.
Qed.

(** *** A guarded batch *)

(** What the tokenizer sends to a group for one batch. *)
Definition guarded (ws : list RecvReq) : list RecvReq := BlockReq :: ws ++ [UnblockReq].

(** The blocker when a part of that has come in. *)
Definition blocker_at (seen : list RecvReq) : Blocker :=
  match seen with
  | [] => blocker_new false
  | _ => if bool_decide (UnblockReq ∈ seen) then mkBlocker GLOBAL_UNBLOCK_BARRIER (data_of seen) false true
         else mkBlocker BLOCKED (data_of seen) false false
  end.

Lemma data_not_mark ws : Forall (λ q, is_mark q = false) ws → data_of ws = ws ∧ (UnblockReq ∉ ws) ∧ (BlockReq ∉ ws).
Proof.
  induction 1 as [|q ws Hq _ (IH1 & IH2 & IH3)]; [split_and!; [done|apply not_elem_of_nil..]|]. unfold data_of in *. cbn. rewrite Hq. cbn.
  rewrite IH1. split_and!; [done|..]; apply not_elem_of_cons; (split; [intros <-; done|done]).
Qed.

Lemma guarded_step ws seen q rest : Forall (λ q, is_mark q = false) ws → seen ++ q :: rest = guarded ws →
  _handle_recv_req q (blocker_at seen) = Ok ([], blocker_at (seen ++ [q])).
Proof.
  intros Hw E. destruct (data_not_mark ws Hw) as (Hd & Hu & Hb). destruct seen as [|x seen]; [by injection E as -> _|]. injection E as -> E.
  assert ((UnblockReq ∉ (BlockReq :: seen)) ∧ (q = UnblockReq ∨ is_mark q = false ∧ q ≠ UnblockReq)) as [Hns Hq].
  { destruct (decide (rest = [])) as [->|Hne].
    - apply app_inj_tail in E as [-> ->]. split; [apply not_elem_of_cons; split; done|by left].
    - destruct (exists_last Hne) as (rest' & y & ->). rewrite app_comm_cons, app_assoc in E. apply app_inj_tail in E as [<- _].
      apply Forall_app in Hw as [Hw1 [Hq Hw2]%Forall_cons]. destruct (data_not_mark seen Hw1) as (_ & Hu1 & _).
      split; [apply not_elem_of_cons; split; done|]. right. split; [done|]. intros ->. done. }
  unfold blocker_at. cbn [app]. rewrite bool_decide_false by done. destruct Hq as [->|[Hq Hqu]].
  - rewrite bool_decide_true by (rewrite app_comm_cons; apply elem_of_app; right; left). cbn. unfold data_of. rewrite !List.filter_app. cbn. by rewrite app_nil_r.
  - rewrite bool_decide_false.
    2:{ rewrite app_comm_cons, elem_of_app, list_elem_of_singleton. naive_solver. }
    destruct q; try done; cbn; unfold data_of; by rewrite !List.filter_app.
Qed.

Lemma guarded_steps ws l seen rest : Forall (λ q, is_mark q = false) ws → seen ++ l ++ rest = guarded ws →
  handle_reqs l (blocker_at seen) = Ok ([], blocker_at (seen ++ l)).
Proof.
  intros Hw. revert seen. induction l as [|q l IH]; intros seen E; [by rewrite app_nil_r|]. cbn [handle_reqs app] in *.
  rewrite (guarded_step ws seen q (l ++ rest) Hw E). cbn [rbind].
  rewrite (IH (seen ++ [q])); [|by rewrite <- app_assoc]. cbn [rbind]. by rewrite <- app_assoc.
Qed.

(** A part of a guarded batch that is not the whole has no second mark. *)
Lemma proper_part ws seen rest : Forall (λ q, is_mark q = false) ws → seen ++ rest = guarded ws → rest ≠ [] → UnblockReq ∉ seen.
Proof.
  intros Hw E Hne. destruct (data_not_mark ws Hw) as (_ & Hu & _). destruct (exists_last Hne) as (rest' & y & ->).
  unfold guarded in E. rewrite app_assoc, app_comm_cons in E. apply app_inj_tail in E as [E _]. intros Hin.
  assert (UnblockReq ∈ (BlockReq :: ws)) as [|]%elem_of_cons by (rewrite <- E; apply elem_of_app; by left); done.
Qed.

(** The inputs of a round: the leaders read, the others have nothing. *)
Definition recv_of (f : nat → list RecvReq) : Rank → option (list RecvReq) := λ r, if is_leader r then Some (f (attn_dp r)) else None.
Definition came (d : nat) (ins : list (nat → list RecvReq)) : list RecvReq := concat ((λ f, f d) <$> ins).

(** The blockers when every group [d] has seen [seen d]. *)
Definition blockers_at (t : Topology) (seen : nat → list RecvReq) (bs : Rank → Blocker) : Prop :=
  ∀ r, in_world t r → bs r = if is_leader r then blocker_at (seen (attn_dp r)) else blocker_new true.

Section guarded.
Context (t : Topology) (ws : nat → list RecvReq).
Context (Hcp : cp_size t = 1%nat) (Htp : (0 < tp_size t)%nat) (Hws : ∀ d, Forall (λ q, is_mark q = false) (ws d)).

Lemma not_leader_noop r : in_world t r → is_leader r = (attn_tp r =? 0)%nat.
Proof. intros (_ & Hc & _). unfold is_leader. rewrite Hcp in Hc. by replace (attn_cp r) with 0%nat by lia. Qed.

Lemma new_blockers_at : blockers_at t (λ _, []) new_blockers.
Proof. intros r Hr. unfold new_blockers. rewrite (not_leader_noop r Hr). by destruct (attn_tp r =? 0)%nat. Qed.

(** The first half of a round. *)
Lemma guarded_local seen f rest bs : blockers_at t seen bs → (∀ d, (d < dp_size t)%nat → seen d ++ f d ++ rest d = guarded (ws d)) →
  ∀ r, in_world t r → handle_local (recv_of f r) (bs r) =
    Ok (if is_leader r then (Some [], blocker_at (seen (attn_dp r) ++ f (attn_dp r))) else (None, blocker_new true)).
Proof.
  intros Hb Hs r Hr. rewrite (Hb r Hr). unfold recv_of, handle_local. pose proof Hr as (Hd & _). destruct (is_leader r); [|done].
  assert (_noop (blocker_at (seen (attn_dp r))) = false) as Hn. { unfold blocker_at. repeat case_match; done. }
  rewrite Hn. rewrite bool_decide_true by done. cbn [rbind assert_]. by rewrite (guarded_steps (ws (attn_dp r)) _ _ (rest (attn_dp r))) by auto.
Qed.

(** While one group has not seen the end, nothing is put out anywhere. *)
Lemma guarded_quiet seen f rest bs d0 : blockers_at t seen bs → (∀ d, (d < dp_size t)%nat → seen d ++ f d ++ rest d = guarded (ws d)) →
  (d0 < dp_size t)%nat → rest d0 ≠ [] →
  ∃ xs, blocker_round t (recv_of f) bs = Ok xs ∧ (∀ d, (d < dp_size t)%nat → (xs (leader d)).1 = Some []) ∧
    blockers_at t (λ d, seen d ++ f d) (λ r, (xs r).2).
Proof.
  intros Hb Hs Hd0 Hrest. unfold blocker_round.
  destruct (on_ranks_ok t _ _ (λ r, (None, bs r)) (guarded_local seen f rest bs Hb Hs)) as (ys & -> & Hy). cbn [rbind].
  assert (forallb (λ r, _noop (ys r).2 || _local_arrived (ys r).2) (all_ranks t) = false) as ->.
  { apply not_true_is_false. intros Hall. rewrite forallb_forall in Hall. assert (in_world t (leader d0)) as Hw by (apply leader_in; lia).
    specialize (Hall (leader d0) (proj1 (list_elem_of_In _ _) (proj2 (all_ranks_spec t _) Hw))). rewrite (Hy _ Hw) in Hall. cbn in Hall.
    pose proof (proper_part (ws d0) (seen d0 ++ f d0) (rest d0) (Hws d0)) as Hp. rewrite <- app_assoc in Hp. specialize (Hp (Hs d0 Hd0) Hrest).
    unfold blocker_at in Hall. destruct (seen d0 ++ f d0); [done|]. by rewrite bool_decide_false in Hall. }
  destruct (on_ranks_ok t (λ r, handle_global false (ys r)) ys ys) as (xs & -> & Hx).
  { intros r Hr. unfold handle_global. destruct (ys r) as [o b]. rewrite andb_false_r. cbn. by rewrite andb_false_r. }
  exists xs. split; [done|]. split.
  - intros d Hd. assert (in_world t (leader d)) as Hw by (apply leader_in; lia). by rewrite (Hx _ Hw), (Hy _ Hw).
  - intros r Hr. rewrite (Hx _ Hr), (Hy _ Hr). by destruct (is_leader r).
Qed.

Lemma guarded_rounds ins seen rest bs d0 : blockers_at t seen bs →
  (∀ d, (d < dp_size t)%nat → seen d ++ came d ins ++ rest d = guarded (ws d)) → (d0 < dp_size t)%nat → rest d0 ≠ [] →
  ∃ outs bs', run_rounds t (recv_of <$> ins) bs = Ok (outs, bs') ∧ Forall (λ o, ∀ d, (d < dp_size t)%nat → o (leader d) = Some []) outs ∧
    blockers_at t (λ d, seen d ++ came d ins) bs'.
Proof.
  revert seen bs. induction ins as [|f ins IH]; intros seen bs Hb Hs Hd0 Hrest.
  { exists [], bs. split; [done|]. split; [constructor|]. intros r Hr. cbn. rewrite (Hb r Hr), app_nil_r. done. }
  assert (∀ d, came d (f :: ins) = f d ++ came d ins) as Hc by done.
  destruct (guarded_quiet seen f (λ d, came d ins ++ rest d) bs d0 Hb) as (xs & E & Hq & Hb1); [..|done|by intros [_ ?]%app_nil|].
  { intros d Hd. rewrite <- (Hs d Hd), Hc. by rewrite <- app_assoc. }
  destruct (IH (λ d, seen d ++ f d) (λ r, (xs r).2) Hb1) as (outs & bs' & E' & Hq' & Hb'); [|done|done|].
  { intros d Hd. rewrite <- (Hs d Hd), Hc. by rewrite <- !app_assoc. }
  exists ((λ r, (xs r).1) :: outs), bs'. cbn [fmap list_fmap run_rounds]. rewrite E. cbn [rbind]. rewrite E'. cbn [rbind]. split; [done|]. split; [by constructor|].
  intros r Hr. rewrite (Hb' r Hr). cbn beta. by rewrite Hc, <- app_assoc.
Qed.

(** The round in which the last group sees the end. *)
Lemma guarded_release seen f bs : blockers_at t seen bs → (∀ d, (d < dp_size t)%nat → seen d ++ f d = guarded (ws d)) →
  ∃ xs, blocker_round t (recv_of f) bs = Ok xs ∧ (∀ d, (d < dp_size t)%nat → (xs (leader d)).1 = Some (ws d)) ∧
    ∀ r, in_world t r → (xs r).2 = new_blockers r.
Proof.
  intros Hb Hs. assert (∀ d, (d < dp_size t)%nat → seen d ++ f d ++ [] = guarded (ws d)) as Hs' by (intros d Hd; rewrite app_nil_r; by apply Hs).
  unfold blocker_round. destruct (on_ranks_ok t _ _ (λ r, (None, bs r)) (guarded_local seen f (λ _, []) bs Hb Hs')) as (ys & -> & Hy). cbn [rbind].
  assert (∀ d, blocker_at (guarded (ws d)) = mkBlocker GLOBAL_UNBLOCK_BARRIER (ws d) false true) as Hat.
  { intros d. unfold blocker_at, guarded. rewrite bool_decide_true by (rewrite app_comm_cons; apply elem_of_app; right; left).
    destruct (data_not_mark (ws d) (Hws d)) as (Hd & _). unfold data_of in *. cbn. rewrite List.filter_app, Hd. cbn. by rewrite app_nil_r. }
  assert (∀ r, in_world t r → ys r = if is_leader r then (Some [], mkBlocker GLOBAL_UNBLOCK_BARRIER (ws (attn_dp r)) false true) else (None, blocker_new true)) as Hy2.
  { intros r Hr. pose proof Hr as (Hd & _). by rewrite (Hy r Hr), (Hs _ Hd), Hat. }
  assert (forallb (λ r, _noop (ys r).2 || _local_arrived (ys r).2) (all_ranks t) = true) as ->.
  { apply forallb_forall. intros r Hr%list_elem_of_In%all_ranks_spec. rewrite (Hy2 r Hr). by destruct (is_leader r). }
  destruct (on_ranks_ok t (λ r, handle_global true (ys r)) (λ r, if is_leader r then (Some (ws (attn_dp r)), blocker_new false) else (None, blocker_new true)) ys) as (xs & -> & Hx).
  { intros r Hr. rewrite (Hy2 r Hr). by destruct (is_leader r). }
  exists xs. split; [done|]. split.
  - intros d Hd. by rewrite (Hx (leader d)) by (apply leader_in; lia).
  - intros r Hr. rewrite (Hx r Hr). unfold new_blockers. rewrite (not_leader_noop r Hr). by destruct (attn_tp r =? 0)%nat.
Qed.
End guarded.

Lemma run_rounds_app t a b bs outs bs1 : run_rounds t a bs = Ok (outs, bs1) →
  run_rounds t (a ++ b) bs = (let! (outs', bs2) := run_rounds t b bs1 in Ok (outs ++ outs', bs2)).
Proof.
  revert bs outs. induction a as [|f a IH]; intros bs outs E; cbn [run_rounds app] in *.
  - injection E as <- <-. by destruct (run_rounds t b bs) as [[]|].
  - destruct (blocker_round t f bs) as [xs|]; [|done]. cbn [rbind] in *. destruct (run_rounds t a _) as [[o1 b1]|] eqn:E1; [|done].
    cbn [rbind] in E. injection E as <- ->. rewrite (IH _ _ E1). by destruct (run_rounds t b bs1) as [[]|].
Qed.

(** ** Skipping *)

(** Rounds passed without looking. *)
Fixpoint skipped (modes : list (option ForwardMode)) (s : Skipper) : bool :=
  match modes with [] => true | m :: modes => negb (skipper_handle m s).1 && skipped modes (skipper_handle m s).2 end.

Lemma skipped_counter modes s : (∀ m, 0 < weight_of (sk_weights s) m) → skipped modes s = true → modes ≠ [] →
  sk_counter s + zlen modes < sk_threshold s.
Proof.
  revert s. induction modes as [|m modes IH]; intros s Hw Hs Hne; [done|]. cbn [skipped] in Hs. unfold skipper_handle in Hs. pose proof (Hw m).
  destruct (sk_threshold s <=? sk_counter s + weight_of (sk_weights s) m) eqn:E; [done|]. apply Z.leb_gt in E. cbn in Hs.
  assert (zlen (m :: modes) = 1 + zlen modes) as -> by (unfold zlen; cbn; lia). destruct (decide (modes = [])) as [->|Hne2].
  - change (zlen []) with 0. lia.
  - pose proof (λ H1, IH _ H1 Hs Hne2) as IH2. specialize (IH2 Hw). cbn in IH2. lia.
Qed.

(** ** The properties *)

(** C27: in every round that looks at the sockets every rank of the world gets the same
    as its leader: of its own group's messages the requests, after them what its leader
    added, and the control messages of its group or, without local control, of the first
    group; what the leaders take is a beginning of each socket, in order, within the
    limit, and all of it when there is none.  In a round that is skipped all get
    nothing and the sockets stay.  There is no input blocker here. *)
Theorem ranks_receive_alike t attn_dp_enabled local_ctrl max_recv local mode skipper sockets : (0 < cp_size t)%nat → (0 < tp_size t)%nat →
  ∃ recv sockets' got, recv_requests t attn_dp_enabled local_ctrl max_recv local mode skipper sockets None =
      Ok (recv, (skip_step skipper mode).2, sockets', None) ∧
    if (skip_step skipper mode).1 then
      (∀ r, in_world t r → recv r =
        Some (if attn_dp_enabled then work_of (got (attn_dp r)) ++ local (leader (attn_dp r)) ++ control_of (got (control_group local_ctrl r))
              else got 0%nat ++ local (leader 0))) ∧
      ∀ d, ∃ from_tok from_rpc, got d = from_tok ++ from_rpc ∧ (sockets d).1 = from_tok ++ (sockets' d).1 ∧ (sockets d).2 = from_rpc ++ (sockets' d).2 ∧
        (0 ≤ max_recv → zlen (got d) ≤ max_recv) ∧ (max_recv < 0 → sockets' d = ([], []))
    else sockets' = sockets ∧ ∀ r, recv r = Some [].
Proof.
  intros Hc Ht. unfold recv_requests. destruct (skip_step skipper mode) as [[|] sk]; cbn [negb fst snd].
  2:{ by eexists _, _, (λ _, []). }
  eexists _, _, (λ d, (_pull_raw_reqs max_recv (sockets d).1 (sockets d).2).1.1). split; [done|]. split.
  - intros r Hr. apply (broadcast_exact t attn_dp_enabled local_ctrl _ local (λ d, (_pull_raw_reqs max_recv (sockets d).1 (sockets d).2).1.1)); [|done]. intros d _. done.
  - intros d. pose proof (pull_keeps max_recv (sockets d).1 (sockets d).2) as Hp. destruct (_pull_raw_reqs _ _ _) as [[got tok'] rpc'].
    destruct Hp as (t1 & r1 & -> & E1 & E2 & H3 & H4). exists t1, r1. cbn. split_and!; try done. intros Hm. by destruct (H4 Hm) as [-> ->].
Qed.

(** A blocker loses, repeats and reorders nothing: over any rounds that succeed, what
    a rank has put out followed by what it still holds is what came in, without the
    marks. *)
Theorem blocker_loses_nothing t inputs outs bs r : run_rounds t inputs new_blockers = Ok (outs, bs) → in_world t r →
  at_rank r outs ++ _pending_reqs (bs r) = data_of (at_rank r inputs).
Proof.
  intros E Hr. apply (rounds_keep t inputs new_blockers outs bs r E Hr). intros r' _. apply blocker_new_ok.
Qed.

(** C28: one guarded batch, the blockers as at the start, begins on all groups at once:
    whichever rounds bring each group its part of the batch and nothing else, with no
    context parallelism no call fails, no group puts out
    a request before the round in which the last group has seen the end of its part, in
    that round every group puts out all of its part in order, and the blockers are then
    as at the start. *)
Theorem guarded_batch_starts_together t ws ins f d0 : cp_size t = 1%nat → (0 < tp_size t)%nat → (∀ d, Forall (λ q, is_mark q = false) (ws d)) →
  (∀ d, (d < dp_size t)%nat → came d ins ++ f d = guarded (ws d)) → (d0 < dp_size t)%nat → f d0 ≠ [] →
  ∃ outs out bs, run_rounds t (recv_of <$> ins ++ [f]) new_blockers = Ok (outs ++ [out], bs) ∧
    Forall (λ o, ∀ d, (d < dp_size t)%nat → o (leader d) = Some []) outs ∧ (∀ d, (d < dp_size t)%nat → out (leader d) = Some (ws d)) ∧
    ∀ r, in_world t r → bs r = new_blockers r.
Proof.
  intros Hcp Htp Hws Hs Hd0 Hf.
  destruct (guarded_rounds t ws Hcp Htp Hws ins (λ _, []) f new_blockers d0 (new_blockers_at t Hcp Htp) Hs Hd0 Hf) as (outs & bs & E & Hq & Hb).
  destruct (guarded_release t ws Hcp Htp Hws (λ d, came d ins) f bs Hb Hs) as (xs & Ex & Ho & Hn).
  exists outs, (λ r, (xs r).1), (λ r, (xs r).2). rewrite fmap_app, (run_rounds_app _ _ _ _ _ _ E). cbn [fmap list_fmap run_rounds]. rewrite Ex. done.
Qed.

(** With positive weights a skipper never passes [scheduler_recv_interval] rounds in
    a row without looking at the sockets, whatever ran in them. *)
Theorem skipper_looks_in_time interval w s modes : skipper_maybe_create interval w = Some s → (∀ m, 0 < weight_of w m) →
  skipped modes s = true → zlen modes < interval.
Proof.
  unfold skipper_maybe_create. destruct (interval <=? 1) eqn:Ei; [done|]. apply Z.leb_gt in Ei. intros [= <-] Hw Hs.
  destruct (decide (modes = [])) as [->|Hne]; [unfold zlen; cbn; lia|]. apply skipped_counter in Hs; [|done|done]. cbn in Hs. lia.
Qed.

(** ** On concrete ranks *)

(** Two groups of two ranks. *)
Definition four : Topology := mkTopology 2 1 2.
Definition mail : Sockets := λ d, match d with O => ([WorkReq 1; ControlReq 2; WorkReq 3], []) | _ => ([WorkReq 4], [ControlReq 5; ControlReq 6]) end.

Lemma ranks_receive_alike_witness : ∃ recv sockets', recv_requests four true false 2 (λ _, []) None None mail None = Ok (recv, None, sockets', None) ∧
  recv (mkRank 0 0 1) = Some [WorkReq 1; ControlReq 2] ∧ recv (mkRank 1 0 1) = Some [WorkReq 4; ControlReq 2] ∧ (sockets' 0%nat).1 = [WorkReq 3].
Proof.
  destruct (ranks_receive_alike four true false 2 (λ _, []) None None mail ltac:(cbn; lia) ltac:(cbn; lia)) as (recv & sockets' & got & E & _).
  exists recv, sockets'. split; [exact E|]. injection E as <- <-. split; [reflexivity|]. split; reflexivity.
Defined.

(** The first group gets its part in two rounds, the second in one, a round later. *)
Definition parts (d : nat) : list RecvReq := match d with O => [WorkReq 1; WorkReq 2] | 1%nat => [WorkReq 3] | _ => [] end.
Definition round1 : nat → list RecvReq := λ d, match d with O => [BlockReq; WorkReq 1] | _ => [] end.
Definition round2 : nat → list RecvReq := λ d, match d with O => [WorkReq 2; UnblockReq] | 1%nat => [BlockReq] | _ => [] end.
Definition round3 : nat → list RecvReq := λ d, match d with 1%nat => [WorkReq 3; UnblockReq] | _ => [] end.

Lemma guarded_batch_starts_together_witness : ∃ outs out bs,
  run_rounds four (recv_of <$> [round1; round2; round3]) new_blockers = Ok (outs ++ [out], bs) ∧
  Forall (λ o, ∀ d, (d < 2)%nat → o (leader d) = Some []) outs ∧ (∀ d, (d < 2)%nat → out (leader d) = Some (parts d)).
Proof.
  destruct (guarded_batch_starts_together four parts [round1; round2] round3 1) as (outs & out & bs & E & H1 & H2 & _).
  - reflexivity.
  - cbn. lia.
  - intros [|[|d]]; by repeat constructor.
  - intros d Hd. cbn in Hd. destruct d as [|[|d]]; [reflexivity|reflexivity|lia].
  - cbn. lia.
  - done.
  - by exists outs, out, bs.
Defined.

Lemma skipper_looks_in_time_witness : ∃ s, skipper_maybe_create 3 (mkWeights 1000 1 1 1) = Some s ∧
  skipped [None; Some DECODE_MODE] s = true ∧ zlen [None; Some DECODE_MODE] < 3.
Proof.
  eexists. split; [reflexivity|]. split; [reflexivity|].
  apply (skipper_looks_in_time 3 (mkWeights 1000 1 1 1) (mkSkipper 0 3 (mkWeights 1000 1 1 1)) [None; Some DECODE_MODE]); [reflexivity|by intros [[]|]|reflexivity].
Defined.

(** With context parallelism the second rank of a group has no messages but a blocker
    that expects them: the first round fails, whatever comes in. *)
Example context_parallel_blocker_fails f : ∃ e, blocker_round (mkTopology 1 2 1) (recv_of f) new_blockers = Raise e.
Proof.
  unfold blocker_round, on_ranks. cbn [all_ranks].
  destruct (first_error (λ r, handle_local (recv_of f r) (new_blockers r)) (all_ranks (mkTopology 1 2 1))) as [e|] eqn:E; [by exists e|].
  exfalso. destruct (proj1 (first_error_none _ _) E (mkRank 0 1 0)) as [a Ha]; [|discriminate Ha]. vm_compute. right. left.
Qed.

(** A batch that begins before the one before it was let go, or whose first mark is
    read together with the last mark of the one before, fails. *)
Example overlapping_batches_fail :
  handle_reqs [BlockReq; WorkReq 1; BlockReq] (blocker_new false) = Raise AssertionError ∧
  handle_reqs [BlockReq; WorkReq 1; UnblockReq; BlockReq] (blocker_new false) = Raise AssertionError.
Proof. split; reflexivity. Qed.
