(* ===== verification/LoadSnapshot.v ===== *)
(** * Publishing the load of a scheduler ([managers/load_snapshot.py])

    Every scheduler writes its load into its slot of one file in shared memory; the
    data-parallel controller and the tokenizer read the slots.  Across nodes the
    snapshots travel as messages and one process writes them into the file.

    The file is a list of bytes.  Each write and each read runs under a lock of the
    file, so they are atomic to each other; a writer that is killed leaves the
    stores it has done.  The codec ([msgspec]) is a parameter.  Floats are
    rationals. *)
From S2P Require Import Prelude.
From stdpp Require Import strings.
From Stdlib Require Import QArith.
Local Open Scope string_scope.
Local Open Scope Z_scope.
Local Open Scope list_scope.

(** ** Snapshots *)

Record MemoryMetrics := mkMemory { weight_gb : Q; kv_cache_gb : Q; graph_gb : Q; token_capacity : Z }.
Record SpeculativeMetrics := mkSpeculative { accept_length : Q; accept_rate : Q }.
Record LoRAMetrics := mkLoRA { slots_used : Z; slots_total : Z; lora_utilization : Q }.
Record DisaggregationMetrics := mkDisagg {
  dg_mode : string;
  prefill_bootstrap_queue_reqs : Z;
  prefill_inflight_queue_reqs : Z;
  decode_prealloc_queue_reqs : Z;
  decode_transfer_queue_reqs : Z;
  decode_retracted_queue_reqs : Z;
  kv_transfer_speed_gb_s : Q;
  kv_transfer_latency_ms : Q
}.
Record QueueMetrics := mkQueues { q_waiting : Z; q_grammar : Z; q_paused : Z; q_retracted : Z; q_prealloc_ready : Z }.

Record LoadSnapshot := mkLoad {
  timestamp : Q;
  dp_rank : Z;
  num_running_reqs : Z;
  num_waiting_reqs : Z;
  num_waiting_uncached_tokens : Z;
  num_used_tokens : Z;
  num_total_tokens : Z;
  num_active_tokens : Z;
  num_prealloc_ready_tokens : Z;
  max_total_num_tokens : Z;
  max_running_requests : Z;
  token_usage : Q;
  gen_throughput : Q;
  cache_hit_rate : Q;
  utilization : Q;
  total_prefill_uncached_tokens : Z;
  total_prefill_busy_us : Z;
  decode_moments : option (list Q);
  ld_memory : option MemoryMetrics;
  ld_speculative : option SpeculativeMetrics;
  ld_lora : option LoRAMetrics;
  ld_disaggregation : option DisaggregationMetrics;
  ld_queues : option QueueMetrics
}.

(** [LoadSnapshot(dp_rank=rank)]. *)
Definition blank (rank : Z) : LoadSnapshot :=
  mkLoad 0 rank 0 0 0 0 0 0 0 0 0 0 0 0 0 0 0 None None None None None None.

(** *** What [/v1/loads] shows of one *)

Inductive DVal := DZ (n : Z) | DQ (q : Q) | DStr (s : string) | DList (l : option (list Q)).
Inductive DEntry := Plain (v : DVal) | Sect (d : list (string * DVal)).

Definition core_dict (s : LoadSnapshot) : list (string * DVal) :=
  [("timestamp", DQ (timestamp s)); ("dp_rank", DZ (dp_rank s)); ("num_running_reqs", DZ (num_running_reqs s));
   ("num_waiting_reqs", DZ (num_waiting_reqs s)); ("num_waiting_uncached_tokens", DZ (num_waiting_uncached_tokens s));
   ("num_used_tokens", DZ (num_used_tokens s)); ("num_total_tokens", DZ (num_total_tokens s));
   ("num_active_tokens", DZ (num_active_tokens s)); ("num_prealloc_ready_tokens", DZ (num_prealloc_ready_tokens s));
   ("max_total_num_tokens", DZ (max_total_num_tokens s)); ("max_running_requests", DZ (max_running_requests s));
   ("token_usage", DQ (token_usage s)); ("gen_throughput", DQ (gen_throughput s)); ("cache_hit_rate", DQ (cache_hit_rate s));
   ("utilization", DQ (utilization s)); ("total_prefill_uncached_tokens", DZ (total_prefill_uncached_tokens s));
   ("total_prefill_busy_us", DZ (total_prefill_busy_us s)); ("decode_moments", DList (decode_moments s))].

Definition memory_dict (m : MemoryMetrics) : DEntry :=
  Sect [("weight_gb", DQ (weight_gb m)); ("kv_cache_gb", DQ (kv_cache_gb m)); ("graph_gb", DQ (graph_gb m)); ("token_capacity", DZ (token_capacity m))].
Definition speculative_dict (m : SpeculativeMetrics) : DEntry :=
  Sect [("accept_length", DQ (accept_length m)); ("accept_rate", DQ (accept_rate m))].
Definition lora_dict (m : LoRAMetrics) : DEntry :=
  Sect [("slots_used", DZ (slots_used m)); ("slots_total", DZ (slots_total m)); ("utilization", DQ (lora_utilization m))].
Definition disagg_dict (m : DisaggregationMetrics) : DEntry :=
  Sect [("mode", DStr (dg_mode m)); ("prefill_bootstrap_queue_reqs", DZ (prefill_bootstrap_queue_reqs m));
         ("prefill_inflight_queue_reqs", DZ (prefill_inflight_queue_reqs m)); ("decode_prealloc_queue_reqs", DZ (decode_prealloc_queue_reqs m));
         ("decode_transfer_queue_reqs", DZ (decode_transfer_queue_reqs m)); ("decode_retracted_queue_reqs", DZ (decode_retracted_queue_reqs m));
         ("kv_transfer_speed_gb_s", DQ (kv_transfer_speed_gb_s m)); ("kv_transfer_latency_ms", DQ (kv_transfer_latency_ms m))].
Definition queues_dict (m : QueueMetrics) : DEntry :=
  Sect [("waiting", DZ (q_waiting m)); ("grammar", DZ (q_grammar m)); ("paused", DZ (q_paused m)); ("retracted", DZ (q_retracted m));
         ("prealloc_ready", DZ (q_prealloc_ready m))].

Definition VALID_SECTIONS : gset string := {[ "core"; "memory"; "spec"; "lora"; "disagg"; "queues"; "all" ]}.

(** The sections: field, the name a caller asks for it by, value. *)
Definition sections (s : LoadSnapshot) : list (string * (string * option DEntry)) :=
  [("memory", ("memory", memory_dict <$> ld_memory s)); ("speculative", ("spec", speculative_dict <$> ld_speculative s));
   ("lora", ("lora", lora_dict <$> ld_lora s)); ("disaggregation", ("disagg", disagg_dict <$> ld_disaggregation s));
   ("queues", ("queues", queues_dict <$> ld_queues s))].

Definition wanted_sections (want : string → bool) (s : LoadSnapshot) : list (string * DEntry) :=
  omap (λ x, match x.2.2 with Some v => if want x.2.1 then Some (x.1, v) else None | None => None end) (sections s).

Definition core_entries (s : LoadSnapshot) : list (string * DEntry) := (λ x, (x.1, Plain x.2)) <$> core_dict s.

Definition to_dict (include : option (gset string)) (s : LoadSnapshot) : result (list (string * DEntry)) :=
  match include with
  | None => Ok (core_entries s ++ wanted_sections (λ _, true) s)
  | Some inc =>
      if bool_decide ("all" ∈ inc) then Ok (core_entries s ++ wanted_sections (λ _, true) s)
      else if negb (bool_decide (inc ⊆ VALID_SECTIONS)) then Raise ValueError
      else if bool_decide (inc = {[ "core" ]}) then Ok (core_entries s)
      else Ok (core_entries s ++ wanted_sections (λ n, bool_decide (n ∈ inc)) s)
  end.

(** ** Bytes *)

(** A byte is a number below 256. *)
Fixpoint le_bytes (n : nat) (v : Z) : list Z :=
  match n with O => [] | S n => v mod 256 :: le_bytes n (v / 256) end.
Fixpoint le_val (l : list Z) : Z :=
  match l with [] => 0 | b :: l => b + 256 * le_val l end.

(** [struct] packs an unsigned number of [n] bytes that is in range. *)
Definition pack (n : nat) (v : Z) : result (list Z) :=
  if (0 <=? v) && (v <? 256 ^ Z.of_nat n) then Ok (le_bytes n v) else Raise StructError.

Definition splice (start : nat) (bytes mem : list Z) : list Z := take start mem ++ bytes ++ drop (start + length bytes) mem.
Definition sub (start n : nat) (mem : list Z) : list Z := take n (drop start mem).

(** ** The file *)

Definition MAGIC : list Z := [83; 76; 78; 83].
Definition VERSION : Z := 2.
Definition HEADER_SIZE : nat := 12.
Definition SLOT_LEN : nat := 4.
Definition SLOT_SIZE : nat := Z.to_nat (16 * 1024).

Definition file_size (dp_size slot_size : nat) : nat := HEADER_SIZE + dp_size * slot_size.
Definition slot_offset (rank slot_size : nat) : nat := HEADER_SIZE + rank * slot_size.

(** [HEADER_STRUCT.pack_into(mmap, 0, MAGIC, VERSION, dp_size, slot_size)]. *)
Definition header (dp_size slot_size : nat) : result (list Z) :=
  let! v := pack 2 VERSION in
  let! d := pack 2 (Z.of_nat dp_size) in
  let! s := pack 4 (Z.of_nat slot_size) in
  Ok (MAGIC ++ v ++ d ++ s).

Definition ftruncate (size : nat) (mem : list Z) : list Z := take size mem ++ replicate (size - length mem) 0.

(** A store into the mapped file: a length word, or a slice. *)
Inductive Store := PackLen (offset : nat) (v : Z) | Assign (first last : nat) (bytes : list Z).

Definition run_store (s : Store) (mem : list Z) : result (list Z) :=
  match s with
  | PackLen offset v =>
      let! b := pack SLOT_LEN v in
      if (offset + SLOT_LEN <=? length mem)%nat then Ok (splice offset b mem) else Raise StructError
  | Assign first last bytes =>
      let a := (first `min` length mem)%nat in
      if ((last `min` length mem) - a =? length bytes)%nat then Ok (splice a bytes mem) else Raise IndexError
  end.

(** The stores done when one fails stay. *)
Fixpoint run_stores (ss : list Store) (mem : list Z) : list Z * result unit :=
  match ss with
  | [] => (mem, Ok tt)
  | s :: ss => match run_store s mem with Ok mem => run_stores ss mem | Raise e => (mem, Raise e) end
  end.

(** What the library that packs a snapshot promises. *)
Class SnapshotCodec := {
  encode : LoadSnapshot → list Z;
  decode : list Z → option LoadSnapshot;
  decode_encode s : decode (encode s) = Some s;
  encode_some s : encode s ≠ []
}.

Section shm.
Context `{SnapshotCodec}.

(** ** Writers *)

Record Writer := mkWriter {
  publish_interval : Z;
  publish_counter : Z;
  w_dp_size : nat;
  w_dp_rank : Z
}.
Definition with_publish_counter (n : Z) (w : Writer) : Writer := mkWriter (publish_interval w) n (w_dp_size w) (w_dp_rank w).

(** The stores of [_write_payload], in order. *)
Definition payload_stores (rank : Z) (payload : list Z) : list Store :=
  let offset := slot_offset (Z.to_nat rank) SLOT_SIZE in
  let payload_start := (offset + SLOT_LEN)%nat in
  let payload_end := (payload_start + length payload)%nat in
  let slot_end := (offset + SLOT_SIZE)%nat in
  [PackLen offset 0; Assign payload_start payload_end payload;
   Assign payload_end slot_end (replicate (slot_end - payload_end) 0); PackLen offset (zlen payload)].

Definition _write_payload (rank : Z) (s : LoadSnapshot) (mem : list Z) : list Z * result unit :=
  if (SLOT_SIZE - SLOT_LEN <? length (encode s))%nat then (mem, Raise ValueError)
  else run_stores (payload_stores rank (encode s)) mem.

(** [ShmLoadSnapshotWriter.__init__]; a file that does not exist is created. *)
Definition writer_init (dp_size : nat) (rank interval : Z) (file : option (list Z)) : option (list Z) * result Writer :=
  if (rank <? 0) || (Z.of_nat dp_size <=? rank) then (file, Raise ValueError)
  else
    let mem := ftruncate (file_size dp_size SLOT_SIZE) (default [] file) in
    match header dp_size SLOT_SIZE with
    | Raise e => (Some mem, Raise e)
    | Ok h =>
        let '(mem, r) := _write_payload rank (blank rank) (splice 0 h mem) in
        (Some mem, let! _ := r in Ok (mkWriter (1 `max` interval) 0 dp_size rank))
    end.

(** [write]: the file is mapped since [__init__]. *)
Definition write (w : Writer) (s : LoadSnapshot) (mem : list Z) : list Z * result unit :=
  if negb (dp_rank s =? w_dp_rank w) then (mem, Raise ValueError) else _write_payload (w_dp_rank w) s mem.

(** [Scheduler.publish_load_snapshot], of a scheduler that has a writer. *)
Definition publish_load_snapshot (force : bool) (get_loads : result LoadSnapshot) (w : Writer) (mem : list Z) :
    option LoadSnapshot * Writer * list Z :=
  let w := if force then w else with_publish_counter (publish_counter w + 1) w in
  if negb force && (publish_counter w <? publish_interval w) then (None, w, mem)
  else
    let w := with_publish_counter 0 w in
    match get_loads with
    | Raise _ => (None, w, mem)
    | Ok load => match write w load mem with (mem, Ok _) => (Some load, w, mem) | (mem, Raise _) => (None, w, mem) end
    end.

(** [ZmqLoadSnapshotWriter.write]: the message. *)
Definition zmq_write (w : Writer) (s : LoadSnapshot) : result (list Z) :=
  if negb (dp_rank s =? w_dp_rank w) then Raise ValueError else Ok (encode s).

(** ** Readers *)

(** [mapped] is the slot size of the file once it is attached. *)
Record Reader := mkReader { r_dp_size : nat; mapped : option nat }.
Definition reader_new (dp_size : nat) : Reader := mkReader dp_size None.

Definition _attach (file : option (list Z)) (r : Reader) : bool * Reader :=
  match mapped r, file with
  | Some _, _ => (true, r)
  | None, None => (false, r)
  | None, Some mem =>
      if (length mem <? HEADER_SIZE)%nat then (false, r)
      else
        let slot_size := Z.to_nat (le_val (sub 8 4 mem)) in
        if bool_decide (sub 0 4 mem = MAGIC) && (le_val (sub 4 2 mem) =? VERSION) && (le_val (sub 6 2 mem) =? Z.of_nat (r_dp_size r))
           && (SLOT_LEN <=? slot_size)%nat && (file_size (r_dp_size r) slot_size <=? length mem)%nat
        then (true, mkReader (r_dp_size r) (Some slot_size))
        else (false, r)
  end.

Definition _read_slot (slot_size rank : nat) (mem : list Z) : option LoadSnapshot :=
  let offset := slot_offset rank slot_size in
  let payload_len := Z.to_nat (le_val (sub offset SLOT_LEN mem)) in
  if (payload_len =? 0)%nat || (slot_size - SLOT_LEN <? payload_len)%nat then None
  else decode (sub (offset + SLOT_LEN) payload_len mem).

Definition read (rank : Z) (file : option (list Z)) (r : Reader) : option LoadSnapshot * Reader :=
  if (rank <? 0) || (Z.of_nat (r_dp_size r) <=? rank) then (None, r)
  else
    let '(ok, r) := _attach file r in
    match file, mapped r with
    | Some mem, Some slot_size => (if ok then _read_slot slot_size (Z.to_nat rank) mem else None, r)
    | _, _ => (None, r)
    end.

Definition read_all (file : option (list Z)) (r : Reader) : list LoadSnapshot * Reader :=
  let '(ok, r) := _attach file r in
  match file, mapped r with
  | Some mem, Some slot_size => (if ok then omap (λ i, _read_slot slot_size i mem) (seq 0 (r_dp_size r)) else [], r)
  | _, _ => ([], r)
  end.

(** ** The reader that takes messages *)

Record ZmqReader := mkZmqReader { z_reader : Reader; _shm_writers : gmap Z Writer }.

(** [latest[rank] = snapshot] of a dict, which keeps the place of a key. *)
Fixpoint dict_set (rank : Z) (s : LoadSnapshot) (d : list (Z * LoadSnapshot)) : list (Z * LoadSnapshot) :=
  match d with
  | [] => [(rank, s)]
  | (k, v) :: d => if k =? rank then (k, s) :: d else (k, v) :: dict_set rank s d
  end.
Fixpoint drain (dp_size : nat) (messages : list (list Z)) (latest : list (Z * LoadSnapshot)) : list (Z * LoadSnapshot) :=
  match messages with
  | [] => latest
  | data :: messages =>
      drain dp_size messages
        (match decode data with
         | Some s => if (0 <=? dp_rank s) && (dp_rank s <? Z.of_nat dp_size) then dict_set (dp_rank s) s latest else latest
         | None => latest
         end)
  end.

(** The writer of a rank is made when its first message comes; a failed write is
    only logged. *)
Fixpoint write_latest (dp_size : nat) (latest : list (Z * LoadSnapshot)) (writers : gmap Z Writer) (file : option (list Z)) :
    option (list Z) * gmap Z Writer * result unit :=
  match latest with
  | [] => (file, writers, Ok tt)
  | (rank, s) :: latest =>
      let '(file, made) := match writers !! rank with Some w => (file, Ok w) | None => writer_init dp_size rank 1 file end in
      match made with
      | Raise e => (file, writers, Raise e)
      | Ok w => write_latest dp_size latest (<[rank := w]> writers) ((λ mem, (write w s mem).1) <$> file)
      end
  end.

Definition _poll (messages : list (list Z)) (z : ZmqReader) (file : option (list Z)) : option (list Z) * ZmqReader * result unit :=
  let dp_size := r_dp_size (z_reader z) in
  let '(file, writers, r) := write_latest dp_size (drain dp_size messages []) (_shm_writers z) file in
  (file, mkZmqReader (z_reader z) writers, r).

Definition zmq_read_all (messages : list (list Z)) (z : ZmqReader) (file : option (list Z)) :
    option (list Z) * ZmqReader * result (list LoadSnapshot) :=
  let '(file, z, r) := _poll messages z file in
  match r with
  | Raise e => (file, z, Raise e)
  | Ok _ => let '(loads, rd) := read_all file (z_reader z) in (file, mkZmqReader rd (_shm_writers z), Ok loads)
  end.
End shm.

(** ** Who takes the messages *)

Record Deployment := mkDeployment {
  attn_dp_enabled : bool;
  nnodes : Z;
  use_zmq_env : bool;
  node_rank : Z;
  num_dp_ranks : Z;
  load_balance_method : string;
  tokenizer_worker_num : Z
}.

Inductive Caller := DataParallelController | TokenizerManager | MultiTokenizerRouter.
#[global] Instance Caller_eq_dec : EqDecision Caller.
Proof. solve_decision. Defined.

Definition should_use_zmq (d : Deployment) : bool := attn_dp_enabled d && (1 <? nnodes d) || use_zmq_env d.
Definition load_aware (d : Deployment) : bool :=
  bool_decide (py_lower (load_balance_method d) ∈ ["total_requests"; "total_tokens"]).
Definition _tokenizer_load_snapshot_owner_caller (d : Deployment) : Caller :=
  if 1 <? tokenizer_worker_num d then MultiTokenizerRouter else TokenizerManager.

Definition zmq_reader_owner (d : Deployment) (caller : Caller) : bool :=
  if negb (should_use_zmq d) then false
  else if negb (node_rank d =? 0) then false
  else if bool_decide (caller = DataParallelController) then (1 <? num_dp_ranks d) && load_aware d
  else if (1 <? num_dp_ranks d) && load_aware d then false
  else bool_decide (caller = _tokenizer_load_snapshot_owner_caller d).
