(* ===== verification/LoadShm.v ===== *)
(** * The file of load snapshots as a map

    Bytes and splices of a file, and what a file of snapshots stands for: the last
    snapshot of each rank that was written whole. *)
From S2P Require Import Prelude LoadSnapshot.
From Stdlib Require Import QArith.
Local Open Scope Z_scope.

(** ** Bytes *)

Lemma length_le_bytes n v : length (le_bytes n v) = n.
Proof. revert v. induction n as [|n IH]; intros v; [done|]. cbn. by rewrite IH. Qed.

Lemma le_val_le_bytes n v : 0 ≤ v < 256 ^ Z.of_nat n → le_val (le_bytes n v) = v.
Proof.
  revert v. induction n as [|n IH]; intros v Hv; [cbn in *; lia|]. cbn [le_bytes le_val].
  rewrite Nat2Z.inj_succ, Z.pow_succ_r in Hv by lia. rewrite IH; [pose proof (Z.div_mod v 256); lia|].
  split; [apply Z.div_pos; lia|apply Z.div_lt_upper_bound; lia].
Qed.

Lemma le_val_zeros n : le_val (replicate n 0) = 0.
Proof. induction n as [|n IH]; cbn; lia. Qed.

(** ** Splices *)

Lemma length_splice a p mem : (a + length p ≤ length mem)%nat → length (splice a p mem) = length mem.
Proof. intros. unfold splice. rewrite !length_app, length_take, length_drop. lia. Qed.

Lemma lookup_splice a p mem i : (a + length p ≤ length mem)%nat →
  splice a p mem !! i = if decide (a ≤ i < a + length p)%nat then p !! (i - a)%nat else mem !! i.
Proof.
  intros Hf. unfold splice. destruct (decide (i < a)%nat) as [Hi|Hi].
  { rewrite decide_False by lia. rewrite lookup_app_l by (rewrite length_take; lia). by rewrite lookup_take_lt. }
  rewrite lookup_app_r, length_take, Nat.min_l by (rewrite ?length_take; lia). case_decide as Hd.
  - by rewrite lookup_app_l by lia.
  - rewrite lookup_app_r by lia. rewrite lookup_drop. f_equal. lia.
Qed.

Lemma lookup_sub a n l i : sub a n l !! i = if decide (i < n)%nat then l !! (a + i)%nat else None.
Proof.
  unfold sub. case_decide as Hd; [by rewrite lookup_take_lt, lookup_drop|]. by rewrite lookup_take_ge by lia.
Qed.

(** Bytes outside a splice stay. *)
Lemma sub_splice_out a p mem b n : (a + length p ≤ length mem)%nat → (b + n ≤ a ∨ a + length p ≤ b)%nat →
  sub b n (splice a p mem) = sub b n mem.
Proof.
  intros Hf Hd. apply list_eq. intros i. rewrite !lookup_sub. case_decide; [|done]. rewrite lookup_splice by done. by rewrite decide_False by lia.
Qed.
Lemma sub_splice_in a p mem : (a + length p ≤ length mem)%nat → sub a (length p) (splice a p mem) = p.
Proof.
  intros Hf. apply list_eq. intros i. rewrite lookup_sub. case_decide as Hd.
  - rewrite lookup_splice, decide_True by lia. f_equal. lia.
  - symmetry. apply lookup_ge_None_2. lia.
Qed.
Lemma sub_sub a n b k l : (b + k ≤ n)%nat → sub b k (sub a n l) = sub (a + b) k l.
Proof.
  intros Hk. apply list_eq. intros i. rewrite !lookup_sub. case_decide; [|done]. rewrite decide_True by lia. f_equal. lia.
Qed.

Lemma slot_size_ge : (SLOT_LEN ≤ SLOT_SIZE)%nat.
Proof. unfold SLOT_LEN, SLOT_SIZE. lia. Qed.
Lemma slot_size_val : Z.of_nat SLOT_SIZE = 16384.
Proof. unfold SLOT_SIZE. by rewrite Z2Nat.id. Qed.
#[global] Opaque SLOT_SIZE.

Lemma pack_ok n v : 0 ≤ v < 256 ^ Z.of_nat n → pack n v = Ok (le_bytes n v).
Proof. intros [H1 H2]. unfold pack. by rewrite (proj2 (Z.leb_le _ _) H1), (proj2 (Z.ltb_lt _ _) H2). Qed.

Lemma splice_nil a mem : (a ≤ length mem)%nat → splice a [] mem = mem.
Proof. intros H. unfold splice. cbn. by rewrite Nat.add_0_r, take_drop. Qed.

(** A slice that fits is assigned. *)
Lemma run_assign a b p mem : b = (a + length p)%nat → (b ≤ length mem)%nat → run_store (Assign a b p) mem = Ok (splice a p mem).
Proof.
  intros -> Hb. cbn. rewrite !Nat.min_l by lia. replace (a + length p - a)%nat with (length p) by lia. by rewrite Nat.eqb_refl.
Qed.
Lemma run_pack a v mem : 0 ≤ v < 256 ^ 4 → (a + SLOT_LEN ≤ length mem)%nat →
  run_store (PackLen a v) mem = Ok (splice a (le_bytes SLOT_LEN v) mem).
Proof. intros Hv Hb. unfold run_store. rewrite pack_ok by done. cbn [rbind]. by rewrite (proj2 (Nat.leb_le _ _) Hb). Qed.

(** ** What a file stands for *)

Section repr.
Context `{SnapshotCodec}.

Definition fits (s : LoadSnapshot) : Prop := (length (encode s) ≤ SLOT_SIZE - SLOT_LEN)%nat.
#[global] Instance fits_dec s : Decision (fits s) := decide (length (encode s) ≤ SLOT_SIZE - SLOT_LEN)%nat.

Definition slot_is (mem : list Z) (r : nat) (o : option LoadSnapshot) : Prop :=
  let off := slot_offset r SLOT_SIZE in
  match o with
  | None => le_val (sub off SLOT_LEN mem) = 0
  | Some s => fits s ∧ sub off SLOT_LEN mem = le_bytes SLOT_LEN (zlen (encode s)) ∧ sub (off + SLOT_LEN) (length (encode s)) mem = encode s
  end.

(** A file with [n] slots stands for the map [m] from ranks to snapshots. *)
Record shm_repr (n : nat) (mem : list Z) (m : gmap Z LoadSnapshot) : Prop := {
  sr_len : length mem = file_size n SLOT_SIZE;
  sr_header : header n SLOT_SIZE = Ok (sub 0 HEADER_SIZE mem);
  sr_slots : ∀ r, (r < n)%nat → slot_is mem r (m !! Z.of_nat r);
  sr_ranks : ∀ r s, m !! r = Some s → 0 ≤ r < Z.of_nat n ∧ dp_rank s = r
}.

Lemma slot_in_file n r : (r < n)%nat → (slot_offset r SLOT_SIZE + SLOT_SIZE ≤ file_size n SLOT_SIZE)%nat.
Proof. intros. unfold slot_offset, file_size. nia. Qed.
Lemma slots_apart r1 r2 : r1 ≠ r2 →
  (slot_offset r1 SLOT_SIZE + SLOT_SIZE ≤ slot_offset r2 SLOT_SIZE ∨ slot_offset r2 SLOT_SIZE + SLOT_SIZE ≤ slot_offset r1 SLOT_SIZE)%nat.
Proof. intros. unfold slot_offset. destruct (decide (r1 < r2)%nat); nia. Qed.

(** What is read of a slot. *)
Lemma read_slot_is mem r o : slot_is mem r o → _read_slot SLOT_SIZE r mem = o.
Proof.
  unfold slot_is, _read_slot. destruct o as [s|]; [|by intros ->].
  intros (Hf & Hl & Hp). unfold fits in Hf. pose proof slot_size_val as Hv. rewrite Hl, le_val_le_bytes.
  2:{ unfold zlen, SLOT_LEN in *. cbn. lia. }
  unfold zlen. rewrite Nat2Z.id. pose proof (encode_some s) as Hne.
  destruct (length (encode s) =? 0)%nat eqn:E0; [apply Nat.eqb_eq, nil_length_inv in E0; by destruct (Hne E0)|].
  rewrite (proj2 (Nat.ltb_ge _ _) Hf). cbn [orb]. rewrite Hp. apply decode_encode.
Qed.

(** A splice within a slot changes that slot only. *)
Lemma repr_splice n mem m r a p o : shm_repr n mem m → (r < n)%nat →
  (slot_offset r SLOT_SIZE ≤ a)%nat → (a + length p ≤ slot_offset r SLOT_SIZE + SLOT_SIZE)%nat →
  slot_is (splice a p mem) r o → (∀ s, o = Some s → dp_rank s = Z.of_nat r) →
  shm_repr n (splice a p mem) (partial_alter (λ _, o) (Z.of_nat r) m).
Proof.
  intros [H1 H2 H3 H4] Hr Ha Hb Hs Ho. pose proof (slot_in_file n r Hr) as Hin.
  assert (a + length p ≤ length mem)%nat as Hf by lia. split.
  - by rewrite length_splice.
  - rewrite sub_splice_out by (unfold slot_offset in Ha; lia). done.
  - intros r' Hr'. destruct (decide (r' = r)) as [->|Hne]; [by rewrite lookup_partial_alter_eq|].
    rewrite lookup_partial_alter_ne by lia. specialize (H3 r' Hr'). destruct (slots_apart r r' ltac:(done)) as [Hd|Hd];
      (unfold slot_is in *; pose proof slot_size_ge; destruct (m !! Z.of_nat r') as [s|]; [|rewrite sub_splice_out by lia; done]);
      (destruct H3 as (Hfit & E1 & E2); unfold fits in Hfit; split; [done|]; rewrite !sub_splice_out by lia; done).
  - intros r' s E. destruct (decide (r' = Z.of_nat r)) as [->|Hne].
    + rewrite lookup_partial_alter_eq in E. split; [lia|by apply Ho].
    + rewrite lookup_partial_alter_ne in E by done. by apply H4.
Qed.

(** While the length of a slot is zero its other bytes do not matter. *)
Lemma repr_blank n mem m r a p : shm_repr n mem m → (r < n)%nat → m !! Z.of_nat r = None →
  (slot_offset r SLOT_SIZE + SLOT_LEN ≤ a)%nat → (a + length p ≤ slot_offset r SLOT_SIZE + SLOT_SIZE)%nat →
  shm_repr n (splice a p mem) m.
Proof.
  intros Hm Hr Hn Ha Hb. replace m with (partial_alter (λ _, None) (Z.of_nat r) m).
  2:{ apply map_eq. intros k. destruct (decide (k = Z.of_nat r)) as [->|]; [by rewrite lookup_partial_alter_eq|by rewrite lookup_partial_alter_ne]. }
  apply repr_splice; try done; [lia|]. pose proof (slot_in_file n r Hr). pose proof (sr_len _ _ _ Hm).
  unfold slot_is. rewrite sub_splice_out by lia. pose proof (sr_slots _ _ _ Hm r Hr) as Hs. by rewrite Hn in Hs.
Qed.

(** The first store: the length is zero. *)
Lemma repr_zero n mem m r : shm_repr n mem m → (r < n)%nat →
  ∃ mem', run_store (PackLen (slot_offset r SLOT_SIZE) 0) mem = Ok mem' ∧ shm_repr n mem' (delete (Z.of_nat r) m).
Proof.
  intros Hm Hr. pose proof (slot_in_file n r Hr) as Hin. pose proof (sr_len _ _ _ Hm) as Hl. pose proof slot_size_ge. eexists. split.
  - apply run_pack; [done|lia].
  - apply (repr_splice _ _ _ r _ _ None); try done; rewrite ?length_le_bytes; [lia|]. unfold slot_is.
    replace SLOT_LEN with (length (le_bytes SLOT_LEN 0)) at 1 by apply length_le_bytes. rewrite sub_splice_in by (rewrite length_le_bytes; lia). done.
Qed.
End repr.
