(* ===== verification/DpController.v ===== *)
(** * Routing requests to data-parallel ranks ([managers/data_parallel_controller.py])

    The controller sends each request to the scheduler of one rank: by round robin
    over the active ranks, by the bootstrap room, or to the rank with the least
    load, counted from the snapshots the schedulers publish and raised by one for
    each request sent since.  Ranks go up and down; slots can be added.

    Sending is the rank that is sent to; a slot that was never bound has no
    socket.  Time is a rational. *)
From S2P Require Import Prelude LoadSnapshot.
From Stdlib Require Import QArith.
Local Open Scope Z_scope.

Inductive LoadBalanceMethod := ROUND_ROBIN | FOLLOW_BOOTSTRAP_ROOM | TOTAL_REQUESTS | TOTAL_TOKENS.

(** ** Loads *)

Record DPBudget := mkBudget {
  total_requests : list Z;
  total_tokens : list Z;
  last_timestamp : list Q
}.

Definition budget_of (num_dp_ranks : nat) : DPBudget :=
  mkBudget (replicate num_dp_ranks 0) (replicate num_dp_ranks 0) (replicate num_dp_ranks 0%Q).

(** An index as Python takes it, from the end when negative. *)
Definition py_index (len : nat) (i : Z) : option nat :=
  let i := if i <? 0 then i + Z.of_nat len else i in
  if (0 <=? i) && (i <? Z.of_nat len) then Some (Z.to_nat i) else None.

Definition update_load (b : DPBudget) (l : LoadSnapshot) : result DPBudget :=
  match py_index (length (last_timestamp b)) (dp_rank l) with
  | None => Raise IndexError
  | Some i =>
      if Qeq_bool (timestamp l) (default 0%Q (last_timestamp b !! i)) then Ok b
      else Ok (mkBudget (<[i := num_running_reqs l + num_waiting_reqs l]> (total_requests b))
                 (<[i := num_total_tokens l]> (total_tokens b)) (<[i := timestamp l]> (last_timestamp b)))
  end.
Fixpoint update_budget (loads : list LoadSnapshot) (b : DPBudget) : result DPBudget :=
  match loads with [] => Ok b | l :: loads => let! b := update_load b l in update_budget loads b end.

(** The first index with the least key. *)
Fixpoint argmin_from (i : nat) (best : nat * (Z * Z)) (keys : list (Z * Z)) : nat :=
  match keys with
  | [] => best.1
  | k :: keys =>
      argmin_from (S i) (if (k.1 <? best.2.1) || ((k.1 =? best.2.1) && (k.2 <? best.2.2)) then (i, k) else best) keys
  end.
Definition argmin (keys : list (Z * Z)) : option nat :=
  match keys with [] => None | k :: keys => Some (argmin_from 1 (0%nat, k) keys) end.

(** [dispatch]: [None] for the other methods; an empty list has no minimum. *)
Definition dispatch (method : LoadBalanceMethod) (estimated_tokens : Z) (b : DPBudget) : result (option nat * DPBudget) :=
  let keys := match method with
              | TOTAL_REQUESTS => Some ((λ n, (n, 0)) <$> total_requests b)
              | TOTAL_TOKENS => Some (zip (total_tokens b) (total_requests b))
              | _ => None
              end in
  match keys with
  | None => Ok (None, b)
  | Some keys =>
      match argmin keys with
      | None => Raise ValueError
      | Some target_rank =>
          Ok (Some target_rank,
              mkBudget (alter (λ n, n + 1) target_rank (total_requests b))
                (alter (λ n, n + estimated_tokens) target_rank (total_tokens b)) (last_timestamp b))
      end
  end.

(** ** The controller *)

Record Controller := mkController {
  workers : list bool;                 (* whether the slot has a socket *)
  dp_active : list bool;
  status : list bool;
  _active_workers : list nat;
  round_robin_counter : nat;
  health_round_robin_counter : nat;
  dp_budget : DPBudget;
  _last_refresh_time : Q
}.

Definition with_counter (n : nat) (c : Controller) : Controller :=
  mkController (workers c) (dp_active c) (status c) (_active_workers c) n (health_round_robin_counter c) (dp_budget c) (_last_refresh_time c).
Definition with_health (n : nat) (c : Controller) : Controller :=
  mkController (workers c) (dp_active c) (status c) (_active_workers c) (round_robin_counter c) n (dp_budget c) (_last_refresh_time c).
Definition with_budget (b : DPBudget) (c : Controller) : Controller :=
  mkController (workers c) (dp_active c) (status c) (_active_workers c) (round_robin_counter c) (health_round_robin_counter c) b (_last_refresh_time c).
Definition with_ranks (active st : list bool) (c : Controller) : Controller :=
  mkController (workers c) active st (_active_workers c) (round_robin_counter c) (health_round_robin_counter c) (dp_budget c) (_last_refresh_time c).

Section controller.
Context (elastic : bool) (max_dp_size launch_dp_size : nat).

Definition controller_init (bound : list bool) : Controller :=
  let active := replicate launch_dp_size true ++ replicate (max_dp_size - launch_dp_size) false in
  mkController bound active active (seq 0 launch_dp_size) 0 0 (budget_of launch_dp_size) 0%Q.

Definition up (l : list bool) (i : nat) : bool := default false (l !! i).

Definition _refresh_active_workers (c : Controller) : Controller :=
  mkController (workers c) (dp_active c) (status c)
    (List.filter (λ i, up (dp_active c) i && up (status c) i) (seq 0 (length (dp_active c))))
    (round_robin_counter c) (health_round_robin_counter c) (dp_budget c) (_last_refresh_time c).

Definition update_active_ranks (ranks : list bool) (c : Controller) : Controller :=
  if negb (length ranks =? max_dp_size)%nat then c
  else if elastic then
    _refresh_active_workers (with_ranks (dp_active c) ((λ i, up (dp_active c) i && up ranks i) <$> seq 0 max_dp_size) c)
  else with_ranks (dp_active c) ranks c.

(** One slot of [add_elastic_workers]. *)
Definition add_slot (c : Controller) (slot : nat) : result Controller :=
  if up (dp_active c) slot then Ok c
  else
    assert! up (workers c) slot in
    Ok (with_ranks (<[slot := true]> (dp_active c)) (<[slot := true]> (status c)) c).
Fixpoint add_slots (slots : list nat) (c : Controller) : result Controller :=
  match slots with [] => Ok c | s :: slots => let! c := add_slot c s in add_slots slots c end.
Definition add_elastic_workers (slot_offset slot_count : nat) (c : Controller) : result Controller :=
  if (max_dp_size <? slot_offset + slot_count)%nat then Raise ValueError
  else let! c := add_slots (seq slot_offset slot_count) c in Ok (_refresh_active_workers c).

(** The ranks a broadcast and a control message go to. *)
Definition send_to_all_workers (c : Controller) : list nat :=
  List.filter (λ i, up (workers c) i && up (status c) i) (seq 0 (length (workers c))).
Definition send_control_message (control_message_step : nat) (c : Controller) : list nat :=
  let targets := omap (λ j, if (j mod control_message_step =? 0)%nat then _active_workers c !! j else None)
                   (seq 0 (length (_active_workers c))) in
  List.filter (λ i, up (workers c) i) targets.

(** ** Routing *)

Record DpReq := mkDpReq {
  routed_dp_rank : option Z;
  bootstrap_room : option Z;
  num_input_ids : Z;
  is_health_check : bool
}.

(** [sock_send(self.workers[slot], req)]. *)
Definition sock_send (c : Controller) (slot : nat) : result nat :=
  match workers c !! slot with
  | Some true => Ok slot
  | Some false => Raise AttributeError
  | None => Raise IndexError
  end.

Definition maybe_external_dp_rank_routing (req : DpReq) (c : Controller) : result (option nat) :=
  match routed_dp_rank req with
  | None => Ok None
  | Some rank =>
      if (rank <? 0) || (zlen (workers c) <=? rank) || negb (bool_decide (Z.to_nat rank ∈ _active_workers c))
         || negb (up (workers c) (Z.to_nat rank))
      then Raise ValueError
      else let! slot := sock_send c (Z.to_nat rank) in Ok (Some slot)
  end.

(** The loop of [round_robin_scheduler]; [fuel] attempts are left. *)
Fixpoint round_robin_loop (fuel : nat) (c : Controller) : result (nat * Controller) :=
  match fuel with
  | O => Raise RuntimeError
  | S fuel =>
      let active := _active_workers c in
      match active !! (round_robin_counter c mod length active)%nat with
      | None => Raise IndexError
      | Some slot =>
          let c := with_counter ((round_robin_counter c + 1) mod length active) c in
          if up (status c) slot then let! slot := sock_send c slot in Ok (slot, c)
          else round_robin_loop fuel c
      end
  end.

Definition external (req : DpReq) (c : Controller) (k : result (nat * Controller)) : result (nat * Controller) :=
  let! r := maybe_external_dp_rank_routing req c in
  match r with Some slot => Ok (slot, c) | None => k end.

Definition round_robin_scheduler (req : DpReq) (c : Controller) : result (nat * Controller) :=
  external req c
    (match _active_workers c with [] => Raise RuntimeError | active => round_robin_loop (length active) c end).

Definition follow_bootstrap_room_scheduler (req : DpReq) (c : Controller) : result (nat * Controller) :=
  external req c
    (match bootstrap_room req with
     | None => Raise AssertionError
     | Some room => let! slot := sock_send c (Z.to_nat (room mod zlen (workers c))) in Ok (slot, c)
     end).

Definition by_load (method : LoadBalanceMethod) (estimated_tokens : Z) (c : Controller) : result (nat * Controller) :=
  let! (target, b) := dispatch method estimated_tokens (dp_budget c) in
  match target with
  | None => Raise TypeError
  | Some slot => let! slot := sock_send c slot in Ok (slot, with_budget b c)
  end.
Definition total_requests_scheduler (req : DpReq) (c : Controller) : result (nat * Controller) :=
  external req c (by_load TOTAL_REQUESTS 0 c).
Definition total_tokens_scheduler (req : DpReq) (c : Controller) : result (nat * Controller) :=
  external req c (by_load TOTAL_TOKENS (num_input_ids req) c).

Definition dispatching (method : LoadBalanceMethod) (req : DpReq) (c : Controller) : result (nat * Controller) :=
  match method with
  | ROUND_ROBIN => round_robin_scheduler req c
  | FOLLOW_BOOTSTRAP_ROOM => follow_bootstrap_room_scheduler req c
  | TOTAL_REQUESTS => total_requests_scheduler req c
  | TOTAL_TOKENS => total_tokens_scheduler req c
  end.

Definition dispatch_health_check (method : LoadBalanceMethod) (req : DpReq) (c : Controller) : result (nat * Controller) :=
  match method with
  | FOLLOW_BOOTSTRAP_ROOM => follow_bootstrap_room_scheduler req c
  | _ =>
      external req c
        (match _active_workers c with
         | [] => Raise RuntimeError
         | active =>
             match active !! (health_round_robin_counter c mod length active)%nat with
             | None => Raise IndexError
             | Some slot =>
                 let c := with_health ((health_round_robin_counter c + 1) mod length active) c in
                 let! slot := sock_send c slot in Ok (slot, c)
             end
         end)
  end.

(** At most every 20 ms. *)
Definition refresh_load_budget (now : Q) (loads : list LoadSnapshot) (c : Controller) : result Controller :=
  if negb (Qle_bool (2 # 100) (now - _last_refresh_time c)) then Ok c
  else
    let! b := update_budget loads (dp_budget c) in
    Ok (mkController (workers c) (dp_active c) (status c) (_active_workers c) (round_robin_counter c)
          (health_round_robin_counter c) b now).

Definition by_load_method (method : LoadBalanceMethod) : bool := match method with TOTAL_REQUESTS | TOTAL_TOKENS => true | _ => false end.

Definition dispatching_with_trace (method : LoadBalanceMethod) (now : Q) (loads : list LoadSnapshot) (refresh : bool)
    (req : DpReq) (c : Controller) : result (nat * Controller) :=
  let! c := if negb (is_health_check req) && refresh && by_load_method method then refresh_load_budget now loads c else Ok c in
  if is_health_check req then dispatch_health_check method req c else dispatching method req c.

(** A batch refreshes at most once. *)
Fixpoint dispatch_all (method : LoadBalanceMethod) (now : Q) (reqs : list DpReq) (c : Controller) : result (list nat * Controller) :=
  match reqs with
  | [] => Ok ([], c)
  | req :: reqs =>
      let! (slot, c) := dispatching_with_trace method now [] false req c in
      let! (slots, c) := dispatch_all method now reqs c in Ok (slot :: slots, c)
  end.
Definition dispatch_batch_generate (method : LoadBalanceMethod) (now : Q) (loads : list LoadSnapshot) (reqs : list DpReq) (c : Controller) :
    result (list nat * Controller) :=
  let! c := if existsb (λ r, negb (is_health_check r)) reqs && by_load_method method then refresh_load_budget now loads c else Ok c in
  dispatch_all method now reqs c.
Definition dispatch_batch_embedding (method : LoadBalanceMethod) (now : Q) (loads : list LoadSnapshot) (reqs : list DpReq) (c : Controller) :
    result (list nat * Controller) :=
  let! c := if by_load_method method then refresh_load_budget now loads c else Ok c in dispatch_all method now reqs c.
End controller.
