(* ===== verification/DpTheorems.v ===== *)
(** * Fairness of the routing

    Round robin visits the ranks that are up in turn and refuses only when none is;
    routing by load sends each request of a batch to a rank of least load, which
    keeps the loads even. *)
From S2P Require Import Prelude LoadSnapshot DpController.
From Stdlib Require Import QArith.
Local Open Scope Z_scope.

(** ** Round robin *)

(** The active ranks from the counter on; the counter may be past the end of the
    list when ranks have left since. *)
Definition start (c : Controller) : nat := (round_robin_counter c mod length (_active_workers c))%nat.
Definition rotated (c : Controller) : list nat :=
  drop (start c) (_active_workers c) ++ take (start c) (_active_workers c).
Definition is_up (c : Controller) (i : nat) : bool := up (status c) i.

(** The ranks the next requests go to. *)
Definition queue (c : Controller) : list nat := List.filter (is_up c) (rotated c).

Record rr_ok (c : Controller) : Prop := {
  rr_some : _active_workers c ≠ [];
  rr_bound : Forall (λ i, workers c !! i = Some true) (_active_workers c)
}.

(** What only the counter differs in. *)
Definition same_ranks (c c' : Controller) : Prop :=
  workers c' = workers c ∧ status c' = status c ∧ _active_workers c' = _active_workers c ∧ dp_active c' = dp_active c.

Lemma start_range c : rr_ok c → (start c < length (_active_workers c))%nat.
Proof. intros [Hs _]. unfold start. apply Nat.mod_upper_bound. by destruct (_active_workers c). Qed.

Lemma rotated_length c : rr_ok c → length (rotated c) = length (_active_workers c).
Proof. intros Hc. pose proof (start_range c Hc). unfold rotated. rewrite length_app, length_drop, length_take. lia. Qed.

Lemma rotated_step c x l : rr_ok c → rotated c = x :: l →
  let c' := with_counter ((round_robin_counter c + 1) mod length (_active_workers c)) c in
  _active_workers c !! start c = Some x ∧ rotated c' = l ++ [x] ∧ rr_ok c'.
Proof.
  intros Hc E c'. pose proof (start_range c Hc) as Hr. set (k := start c) in *. set (a := _active_workers c) in *.
  unfold rotated in E. fold k a in E.
  assert (a !! k = Some x) as Hx.
  { destruct (lookup_lt_is_Some_2 a k Hr) as [y Hy]. rewrite (drop_S a y k Hy) in E. by injection E as -> _. }
  rewrite (drop_S a x k Hx) in E. injection E as El. split; [done|]. split; [|by destruct Hc].
  assert (start c' = (k + 1) mod length a)%nat as Es.
  { unfold start, k, start. cbn. fold a. by rewrite Nat.Div0.mod_mod, Nat.Div0.add_mod_idemp_l. }
  unfold rotated. change (_active_workers c') with a. rewrite Es. destruct (decide (S k = length a)) as [Ek|Hne].
  - replace (k + 1)%nat with (length a) by lia. rewrite Nat.Div0.mod_same.
    rewrite drop_0, take_0, app_nil_r, <- El, drop_ge by lia. cbn. by rewrite <- (take_S_r a k x Hx), Ek, firstn_all.
  - rewrite Nat.mod_small by lia. replace (k + 1)%nat with (S k) by lia. rewrite (take_S_r a k x Hx), app_assoc. by rewrite El.
Qed.

(** One request: the first rank of the queue, which goes to its end. *)
Lemma round_robin_one fuel c : rr_ok c →
  match List.filter (is_up c) (take fuel (rotated c)) with
  | [] => (fuel ≤ length (_active_workers c))%nat → round_robin_loop fuel c = Raise RuntimeError
  | x :: _ => (fuel ≤ length (_active_workers c))%nat →
      ∃ c', round_robin_loop fuel c = Ok (x, c') ∧ rr_ok c' ∧ same_ranks c c' ∧ ∃ l, queue c = x :: l ∧ queue c' = l ++ [x]
  end.
Proof.
  revert c. induction fuel as [|fuel IH]; intros c Hc; cbn [take List.filter round_robin_loop]; [by intros _|].
  assert (∃ y l, rotated c = y :: l) as (y & l & E).
  { pose proof (rotated_length c Hc) as Hl. destruct (rotated c); [|by eexists _, _]. destruct Hc as [Hs _]. by destruct (_active_workers c). }
  destruct (rotated_step c y l Hc E) as (Hx & Hr' & Hc'). set (c1 := with_counter _ _) in *. rewrite E. cbn [take List.filter].
  cbv zeta. fold (start c). rewrite Hx. fold c1. change (up (status c1) y) with (is_up c y). destruct (is_up c y) eqn:Hu.
  - intros _. exists c1. unfold sock_send.
    assert (workers c1 !! y = Some true) as ->.
    { pose proof (rr_bound _ Hc) as Hb. rewrite Forall_forall in Hb. apply Hb. by eapply list_elem_of_lookup_2. }
    cbn [rbind]. split; [done|]. split; [done|]. split; [done|]. exists (List.filter (is_up c) l). unfold queue. rewrite E, Hr'. cbn [List.filter]. rewrite Hu.
    change (is_up c1) with (is_up c). rewrite List.filter_app. cbn [List.filter]. by rewrite Hu.
  - specialize (IH c1 Hc'). rewrite Hr' in IH. change (is_up c1) with (is_up c) in IH. change (_active_workers c1) with (_active_workers c) in IH.
    assert (∀ n, (n ≤ length l)%nat → take n (l ++ [y]) = take n l) as Ht by (intros; by apply take_app_le).
    assert (length l = length (_active_workers c) - 1)%nat as Hl.
    { rewrite <- (rotated_length c Hc), E. cbn. lia. }
    destruct (decide (fuel ≤ length l)%nat) as [Hf|Hf].
    + rewrite Ht in IH by done. destruct (List.filter (is_up c) (take fuel l)) as [|x l'].
      * intros Hle. apply IH. lia.
      * intros Hle. destruct (IH ltac:(lia)) as (c' & E' & Hc2 & Hs & (q & Hq1 & Hq2)). exists c'. split; [exact E'|]. split; [done|]. split; [done|].
        exists q. split; [|done]. unfold queue in *. rewrite E. cbn [List.filter]. rewrite Hu. rewrite Hr' in Hq1. change (is_up c1) with (is_up c) in Hq1.
        rewrite List.filter_app in Hq1. cbn in Hq1. by rewrite Hu, app_nil_r in Hq1.
    + destruct (List.filter (is_up c) (take fuel l)); intros Hz; exfalso; rewrite Hl in Hf; clear -Hf Hz; lia.
Qed.

(** Requests that name no rank. *)
Definition plain_req (r : DpReq) : Prop := routed_dp_rank r = None ∧ is_health_check r = false.

Lemma round_robin_step r c : plain_req r → rr_ok c →
  match queue c with
  | [] => dispatching ROUND_ROBIN r c = Raise RuntimeError
  | x :: l => ∃ c', dispatching ROUND_ROBIN r c = Ok (x, c') ∧ rr_ok c' ∧ same_ranks c c' ∧ queue c' = l ++ [x]
  end.
Proof.
  intros [Hr _] Hc. cbn [dispatching]. unfold round_robin_scheduler, external, maybe_external_dp_rank_routing. rewrite Hr. cbn [rbind].
  pose proof (rr_some _ Hc) as Hlt. pose proof (round_robin_one (length (_active_workers c)) c Hc) as H.
  assert (take (length (_active_workers c)) (rotated c) = rotated c) as Et.
  { apply take_ge. by rewrite rotated_length. }
  rewrite Et in H. fold (queue c) in H. destruct (_active_workers c) as [|w ws] eqn:Ea; [done|]. destruct (queue c) as [|x l] eqn:Eq.
  - by apply H.
  - destruct (H ltac:(done)) as (c' & E & Hc' & Hs & (l' & Hq & Hq')). injection Hq as <-. exists c'. split_and!; try done.
Qed.

(** Rounds of requests, taking the queue again and again. *)
Lemma round_robin_rounds reqs c q1 q2 : Forall plain_req reqs → rr_ok c → queue c = q1 ++ q2 → length reqs = length q1 →
  ∃ c', dispatch_all ROUND_ROBIN 0 reqs c = Ok (q1, c') ∧ rr_ok c' ∧ same_ranks c c' ∧ queue c' = q2 ++ q1.
Proof.
  intros Hf. revert c q1 q2. induction Hf as [|r reqs Hr Hf IH]; intros c q1 q2 Hc Hq Hl.
  - destruct q1; [|done]. exists c. cbn. rewrite app_nil_r. by split_and!.
  - destruct q1 as [|x q1]; [done|]. pose proof (round_robin_step r c Hr Hc) as H. rewrite Hq in H. destruct H as (c1 & E & Hc1 & Hs1 & Hq1).
    destruct (IH c1 q1 (q2 ++ [x]) Hc1) as (c' & E' & Hc' & Hs' & Hq'); [by rewrite Hq1, <- app_assoc|by injection Hl|].
    exists c'. cbn [dispatch_all]. unfold dispatching_with_trace. destruct Hr as [Hr1 Hr2]. rewrite Hr2, andb_false_r. cbn [rbind].
    rewrite E. cbn [rbind]. rewrite E'. cbn [rbind]. split; [done|]. split; [done|]. split.
    { destruct Hs1 as (? & ? & ? & ?), Hs' as (? & ? & ? & ?). split_and!; congruence. }
    by rewrite Hq', <- app_assoc.
Qed.

(** ** Loads *)

(** No two loads differ by more than [d]. *)
Definition within (d : Z) (l : list Z) : Prop := ∀ x y, x ∈ l → y ∈ l → x - y ≤ d.

(** The order in which loads are compared. *)
Definition key_le (k k' : Z * Z) : Prop := k.1 < k'.1 ∨ (k.1 = k'.1 ∧ k.2 ≤ k'.2).
Definition least (keys : list (Z * Z)) (i : nat) : Prop := ∃ k, keys !! i = Some k ∧ Forall (key_le k) keys.

Lemma key_le_trans a b c : key_le a b → key_le b c → key_le a c.
Proof. unfold key_le. lia. Qed.

Lemma argmin_from_spec keys i best : (best.1 < i)%nat →
  let r := argmin_from i best keys in
  (r = best.1 ∧ Forall (key_le best.2) keys) ∨
  (∃ j k, r = (i + j)%nat ∧ keys !! j = Some k ∧ key_le k best.2 ∧ Forall (key_le k) keys).
Proof.
  revert i best. induction keys as [|k keys IH]; intros i best Hi; cbn [argmin_from]; [by left|].
  assert (key_le k k) as Hk by (unfold key_le; lia).
  destruct (_ || _) eqn:Eb.
  - assert (key_le k best.2) as Hle.
    { apply orb_true_iff in Eb as [?%Z.ltb_lt|[?%Z.eqb_eq ?%Z.ltb_lt]%andb_true_iff]; unfold key_le; lia. }
    right. destruct (IH (S i) (i, k) ltac:(cbn; lia)) as [[-> HF]|(j & k' & -> & Hk' & Hle' & HF)]; cbn in *.
    + exists 0%nat, k. split; [lia|]. split_and!; [done|done|by constructor].
    + exists (S j), k'. split; [lia|]. split_and!; [done|by eapply key_le_trans|by constructor].
  - assert (key_le best.2 k) as Hle.
    { apply orb_false_iff in Eb as [?%Z.ltb_ge [?%Z.eqb_neq|?%Z.ltb_ge]%andb_false_iff]; unfold key_le; lia. }
    destruct (IH (S i) best ltac:(lia)) as [[-> HF]|(j & k' & -> & Hk' & Hle' & HF)]; cbn in *.
    + left. split; [done|]. by constructor.
    + right. exists (S j), k'. split; [lia|]. split_and!; [done|done|constructor; [by eapply key_le_trans|done]].
Qed.

(** The rank that is chosen has the least load. *)
Lemma argmin_least keys : keys ≠ [] → ∃ i, argmin keys = Some i ∧ least keys i.
Proof.
  unfold argmin, least. destruct keys as [|k keys]; [done|]. intros _. eexists. split; [done|].
  assert (key_le k k) as Hkk by (unfold key_le; lia).
  destruct (argmin_from_spec keys 1 (0%nat, k) ltac:(cbn; lia)) as [[-> HF]|(j & k' & -> & Hk & Hle & HF)]; cbn in *.
  - exists k. split; [done|]. by constructor.
  - exists k'. split; [done|]. by constructor.
Qed.

Lemma within_alter d l i x w : 0 ≤ w ≤ d → within d l → l !! i = Some x → Forall (λ y, x ≤ y) l → within d (alter (λ n, n + w) i l).
Proof.
  intros Hd Hw Hi Hmin a b Ha Hb. rewrite Forall_forall in Hmin.
  assert (∀ z, z ∈ alter (λ n, n + w) i l → z = x + w ∨ z ∈ l) as Hcase.
  { intros z [j Hj]%list_elem_of_lookup_1. destruct (decide (i = j)) as [<-|Hne].
    - rewrite list_lookup_alter_eq, Hi in Hj. cbn in Hj. injection Hj as <-. by left.
    - rewrite list_lookup_alter_ne in Hj by done. right. by eapply list_elem_of_lookup_2. }
  pose proof (list_elem_of_lookup_2 _ _ _ Hi) as Hx.
  destruct (Hcase a Ha) as [->|Ha'], (Hcase b Hb) as [->|Hb']; [lia|pose proof (Hmin b Hb'); lia|pose proof (Hw a x Ha' Hx); lia|by apply Hw].
Qed.

(** What a method compares, what it keeps even, and what a request weighs. *)
Definition budget_keys (method : LoadBalanceMethod) (b : DPBudget) : list (Z * Z) :=
  match method with TOTAL_TOKENS => zip (total_tokens b) (total_requests b) | _ => (λ n, (n, 0)) <$> total_requests b end.
Definition load_of (method : LoadBalanceMethod) (b : DPBudget) : list Z :=
  match method with TOTAL_TOKENS => total_tokens b | _ => total_requests b end.
Definition estimated (method : LoadBalanceMethod) (r : DpReq) : Z := match method with TOTAL_TOKENS => num_input_ids r | _ => 0 end.
Definition weight (method : LoadBalanceMethod) (r : DpReq) : Z := match method with TOTAL_TOKENS => num_input_ids r | _ => 1 end.

(** The loads once the requests were sent to the slots: each adds one request and
    its tokens to the slot it went to. *)
Fixpoint sent_loads (method : LoadBalanceMethod) (reqs : list DpReq) (slots : list nat) (b : DPBudget) : DPBudget :=
  match reqs, slots with
  | r :: reqs, s :: slots =>
      sent_loads method reqs slots
        (mkBudget (alter (λ n, n + 1) s (total_requests b)) (alter (λ n, n + estimated method r) s (total_tokens b)) (last_timestamp b))
  | _, _ => b
  end.

(** The loads are of the ranks at launch, which have sockets. *)
Record budget_ok (c : Controller) : Prop := {
  bo_some : total_requests (dp_budget c) ≠ [];
  bo_len : length (total_tokens (dp_budget c)) = length (total_requests (dp_budget c));
  bo_bound : Forall (λ i, workers c !! i = Some true) (seq 0 (length (total_requests (dp_budget c))))
}.

Lemma budget_keys_fst method c : budget_ok c → (budget_keys method (dp_budget c)).*1 = load_of method (dp_budget c).
Proof.
  intros [_ Hl _]. destruct method; cbn; try (rewrite <- list_fmap_compose; by apply list_fmap_id).
  apply fst_zip. lia.
Qed.

Lemma least_load method c i : budget_ok c → least (budget_keys method (dp_budget c)) i →
  ∃ x, load_of method (dp_budget c) !! i = Some x ∧ Forall (λ y, x ≤ y) (load_of method (dp_budget c)).
Proof.
  intros Hc (k & Hk & HF). rewrite <- (budget_keys_fst method c Hc). exists k.1. split; [by rewrite list_lookup_fmap, Hk|].
  apply Forall_fmap. eapply Forall_impl; [exact HF|]. unfold key_le. cbn. lia.
Qed.

(** One request sent by load. *)
Lemma by_load_one method r now c : by_load_method method = true → plain_req r → budget_ok c →
  ∃ i, least (budget_keys method (dp_budget c)) i ∧
    dispatching_with_trace method now [] false r c = Ok (i, with_budget (sent_loads method [r] [i] (dp_budget c)) c).
Proof.
  intros Hm [Hr1 Hr2] Hc. assert (budget_keys method (dp_budget c) ≠ []) as Hne.
  { pose proof (budget_keys_fst method c Hc) as E. intros E'. rewrite E' in E. cbn in E. destruct Hc as [H1 H2 _].
    apply H1, nil_length_inv. destruct method; cbn in E; rewrite <- E in *; done. }
  destruct (argmin_least _ Hne) as (i & Ei & Hi). exists i. split; [done|].
  destruct (least_load method c i Hc Hi) as (x & Hx & _). assert (workers c !! i = Some true) as Hw.
  { destruct Hc as [_ H2 H3]. rewrite Forall_forall in H3. apply H3, elem_of_seq. apply lookup_lt_Some in Hx. destruct method; cbn in Hx; lia. }
  unfold dispatching_with_trace. rewrite Hr2, andb_false_r. cbn [andb rbind].
  destruct method; try done; cbn [dispatching]; unfold total_requests_scheduler, total_tokens_scheduler, external, maybe_external_dp_rank_routing;
    rewrite Hr1; cbn [rbind]; unfold by_load, dispatch; cbn [budget_keys] in Ei; rewrite Ei; cbn [rbind]; unfold sock_send; by rewrite Hw.
Qed.

Lemma sent_loads_length method reqs slots b :
  length (total_requests (sent_loads method reqs slots b)) = length (total_requests b) ∧
  length (total_tokens (sent_loads method reqs slots b)) = length (total_tokens b).
Proof.
  revert slots b. induction reqs as [|r reqs IH]; intros [|s slots] b; cbn [sent_loads]; try done.
  destruct (IH slots (mkBudget (alter (λ n, n + 1) s (total_requests b)) (alter (λ n, n + estimated method r) s (total_tokens b)) (last_timestamp b))) as [-> ->].
  cbn. by rewrite !length_alter.
Qed.

Lemma sent_loads_ok method reqs slots c : budget_ok c → budget_ok (with_budget (sent_loads method reqs slots (dp_budget c)) c).
Proof.
  intros [H1 H2 H3]. pose proof (sent_loads_length method reqs slots (dp_budget c)) as [E1 E2].
  split; cbn; rewrite ?E1, ?E2; [|done..]. intros E. rewrite E in E1. by apply H1, nil_length_inv.
Qed.

(** A request to a least loaded rank keeps the loads even. *)
Lemma sent_loads_within method r i d c : by_load_method method = true → budget_ok c → 0 ≤ weight method r ≤ d →
  within d (load_of method (dp_budget c)) → least (budget_keys method (dp_budget c)) i →
  within d (load_of method (sent_loads method [r] [i] (dp_budget c))).
Proof.
  intros Hm Hc Hw Hd Hi. destruct (least_load method c i Hc Hi) as (x & Hx & HF).
  destruct method; try done; by apply (within_alter d _ i x).
Qed.

(** The slots a burst is sent to: each has the least load when its turn comes. *)
Definition greedy (method : LoadBalanceMethod) (reqs : list DpReq) (slots : list nat) (b : DPBudget) : Prop :=
  ∀ k s, slots !! k = Some s → least (budget_keys method (sent_loads method (take k reqs) (take k slots) b)) s.

Lemma by_load_run method reqs now c d : by_load_method method = true → Forall plain_req reqs →
  Forall (λ r, 0 ≤ weight method r ≤ d) reqs → within d (load_of method (dp_budget c)) → budget_ok c →
  ∃ slots, dispatch_all method now reqs c = Ok (slots, with_budget (sent_loads method reqs slots (dp_budget c)) c) ∧ length slots = length reqs ∧
    greedy method reqs slots (dp_budget c) ∧ within d (load_of method (sent_loads method reqs slots (dp_budget c))).
Proof.
  intros Hm Hf. revert c. induction Hf as [|r reqs Hr Hf IH]; intros c Hwt Hw Hc.
  { exists []. cbn. split_and!; try done. by destruct c. }
  apply Forall_cons in Hwt as [Hwr Hwt]. destruct (by_load_one method r now c Hm Hr Hc) as (i & Hi & E).
  set (c1 := with_budget _ c) in E.
  destruct (IH c1) as (slots & E' & Hl & Hg & Hw'); [done|by apply sent_loads_within|by apply sent_loads_ok|].
  exists (i :: slots). cbn [dispatch_all]. rewrite E. cbn [rbind]. rewrite E'. cbn [rbind]. split; [done|]. split; [by cbn; rewrite Hl|].
  split; [|done]. intros [|k] s Hs; [by injection Hs as <-|]. exact (Hg k s Hs).
Qed.

(** A refresh keeps the ranks. *)
Lemma update_budget_length loads b b' : update_budget loads b = Ok b' →
  length (total_requests b') = length (total_requests b) ∧ length (total_tokens b') = length (total_tokens b).
Proof.
  revert b. induction loads as [|l loads IH]; intros b; cbn; [by intros [= <-]|]. unfold update_load.
  destruct (py_index _ _) as [i|]; [|done]. destruct (Qeq_bool _ _); cbn; intros E%IH; [done|]. cbn in E. by rewrite !length_insert in E.
Qed.

Lemma refresh_budget_ok now loads c c1 : budget_ok c → refresh_load_budget now loads c = Ok c1 → budget_ok c1.
Proof.
  intros [H1 H2 H3]. unfold refresh_load_budget. destruct (negb _); [by intros [= <-]|].
  destruct (update_budget loads (dp_budget c)) as [b|] eqn:E; [|done]. cbn. intros [= <-]. apply update_budget_length in E as [E1 E2].
  split; cbn; rewrite ?E1, ?E2; [|done..]. intros E. rewrite E in E1. by apply H1, nil_length_inv.
Qed.

(** Sending one list after another. *)
Lemma dispatch_all_app m now r1 r2 c s1 c1 : dispatch_all m now r1 c = Ok (s1, c1) →
  dispatch_all m now (r1 ++ r2) c = (let! (s2, c2) := dispatch_all m now r2 c1 in Ok (s1 ++ s2, c2)).
Proof.
  revert c s1. induction r1 as [|r r1 IH]; intros c s1 E; cbn [dispatch_all app] in *.
  - injection E as <- <-. by destruct (dispatch_all m now r2 c) as [[]|].
  - destruct (dispatching_with_trace m now [] false r c) as [[s c']|e]; [|done]. cbn [rbind] in *.
    destruct (dispatch_all m now r1 c') as [[s1' c1']|e] eqn:E1; [|done]. cbn [rbind] in E. injection E as <- ->.
    rewrite (IH c' s1' E1). by destruct (dispatch_all m now r2 c1) as [[]|].
Qed.

Lemma same_ranks_trans c1 c2 c3 : same_ranks c1 c2 → same_ranks c2 c3 → same_ranks c1 c3.
Proof. intros (? & ? & ? & ?) (? & ? & ? & ?). split_and!; congruence. Qed.

(** ** The ranks over the life of the controller *)

Record ctl_ok (max_dp_size : nat) (c : Controller) : Prop := {
  ctl_active_len : length (dp_active c) = max_dp_size;
  ctl_status_len : length (status c) = max_dp_size;
  ctl_bound : ∀ i, up (dp_active c) i = true → workers c !! i = Some true;
  ctl_listed : Forall (λ i, up (dp_active c) i = true) (_active_workers c);
  ctl_nodup : NoDup (_active_workers c)
}.

(** What a controller does: news of the ranks, new slots, requests.  Slots are added
    only with elastic scaling; without it all the slots are active at launch. *)
Inductive ctl_step (elastic : bool) (max_dp_size : nat) (method : LoadBalanceMethod) : Controller → Controller → Prop :=
| step_ranks ranks c : ctl_step elastic max_dp_size method c (update_active_ranks elastic max_dp_size ranks c)
| step_slots offset count c c' : elastic = true → add_elastic_workers max_dp_size offset count c = Ok c' → ctl_step elastic max_dp_size method c c'
| step_request now loads r c x c' : dispatching_with_trace method now loads true r c = Ok (x, c') → ctl_step elastic max_dp_size method c c'.

Lemma up_lt l i : up l i = true → (i < length l)%nat.
Proof. unfold up. destruct (l !! i) eqn:E; [intros _; by eapply lookup_lt_Some|done]. Qed.
Lemma up_lookup l i : up l i = true → l !! i = Some true.
Proof. unfold up. by destruct (l !! i) as [[]|]. Qed.
Lemma up_set l i j : up (<[i := true]> l) j = true → j = i ∨ up l j = true.
Proof.
  unfold up. destruct (decide (i = j)) as [->|Hne]; [by left|]. rewrite list_lookup_insert_ne by done. by right.
Qed.

Lemma up_init max_dp_size launch_dp_size i :
  up (replicate launch_dp_size true ++ replicate (max_dp_size - launch_dp_size) false) i = true ↔ (i < launch_dp_size)%nat.
Proof.
  unfold up. destruct (decide (i < launch_dp_size)%nat) as [Hi|Hi].
  - rewrite lookup_app_l by (by rewrite length_replicate). by rewrite lookup_replicate_2.
  - rewrite lookup_app_r, length_replicate by (rewrite length_replicate; lia). split; [|lia].
    destruct (decide (i - launch_dp_size < max_dp_size - launch_dp_size)%nat); [by rewrite lookup_replicate_2|by rewrite lookup_ge_None_2 by (rewrite length_replicate; lia)].
Qed.

Lemma ctl_init_ok max_dp_size launch_dp_size bound : (launch_dp_size ≤ max_dp_size)%nat →
  Forall (λ i, bound !! i = Some true) (seq 0 launch_dp_size) → ctl_ok max_dp_size (controller_init max_dp_size launch_dp_size bound).
Proof.
  intros Hle Hb. unfold controller_init. pose proof (up_init max_dp_size launch_dp_size) as Hup.
  rewrite Forall_forall in Hb.
  split; cbn; try (rewrite length_app, !length_replicate; lia).
  - intros i Hi%Hup. apply Hb, elem_of_seq. lia.
  - apply Forall_forall. intros i Hi%elem_of_seq. apply Hup. lia.
  - apply NoDup_seq.
Qed.

(** Whatever is kept of the slots, the list of active ranks can be taken again. *)
Lemma refresh_ok max_dp_size c : ctl_ok max_dp_size c → ctl_ok max_dp_size (_refresh_active_workers c).
Proof.
  intros [H1 H2 H3 _ _]. split; try done; cbn.
  - apply Forall_forall. intros i [_ [Hu _]%andb_true_iff]%list_elem_of_In%filter_In. done.
  - apply NoDup_ListNoDup, List.NoDup_filter, NoDup_ListNoDup, NoDup_seq.
Qed.

Lemma add_slots_ok max_dp_size slots c c' : ctl_ok max_dp_size c → add_slots slots c = Ok c' → ctl_ok max_dp_size c'.
Proof.
  revert c. induction slots as [|s slots IH]; intros c Hc E; cbn in E; [by injection E as <-|].
  unfold add_slot in E. destruct (up (dp_active c) s) eqn:Ea; [by apply (IH c)|]. cbn in E.
  destruct (up (workers c) s) eqn:Ew; [|done]. cbn in E. eapply (IH _); [|exact E].
  destruct Hc as [H1 H2 H3 H4 H5]. split; cbn; rewrite ?length_insert; try done.
  - intros i [->|Hi]%up_set; [by apply up_lookup|by apply H3].
  - apply Forall_forall. intros i Hi. rewrite Forall_forall in H4. pose proof (H4 i Hi) as Hu. unfold up in *.
    destruct (decide (s = i)) as [->|Hne]; [by rewrite Ea in Hu|]. by rewrite list_lookup_insert_ne.
Qed.

(** A request only moves the counters and the loads. *)
Lemma request_same_ranks method now loads r c x c' : dispatching_with_trace method now loads true r c = Ok (x, c') → same_ranks c c'.
Proof.
  intros E. unfold dispatching_with_trace in E.
  assert (∀ k y d d', external r d k = Ok (y, d') → (∀ z e, k = Ok (z, e) → same_ranks c e) → same_ranks c d → same_ranks c d') as Hext.
  { intros k y d d' Ee Hk Hd. unfold external in Ee. destruct (maybe_external_dp_rank_routing r d) as [[s|]|]; [|by eapply Hk|done]. by injection Ee as <- <-. }
  assert (∀ n d z e, same_ranks c d → round_robin_loop n d = Ok (z, e) → same_ranks c e) as Hloop.
  { induction n as [|n IH]; intros d z e Hd El; cbn in El; [done|]. destruct (_ !! _) as [s|]; [|done].
    destruct (up _ s); [|by eapply IH; [|exact El]]. destruct (sock_send _ _); [|done]. cbn in El. by injection El as <- <-. }
  destruct (if negb (is_health_check r) && true && by_load_method method then refresh_load_budget now loads c else Ok c) as [d|] eqn:Ed; [|done]. cbn [rbind] in E.
  assert (same_ranks c d) as Hd.
  { destruct (negb (is_health_check r) && true && by_load_method method); [|by injection Ed as <-].
    unfold refresh_load_budget in Ed. destruct (negb (Qle_bool _ _)); [by injection Ed as <-|].
    destruct (update_budget _ _); [|done]. cbn in Ed. by injection Ed as <-. }
  assert (∀ z e, follow_bootstrap_room_scheduler r d = Ok (z, e) → same_ranks c e) as Hroom.
  { intros z e Ef. eapply Hext; [exact Ef| |done]. intros z' e'. destruct (bootstrap_room r); [|done]. by destruct (sock_send _ _) as [s|]; cbn; intros [= <- <-]. }
  assert (∀ m n z e, by_load m n d = Ok (z, e) → same_ranks c e) as Hload.
  { intros m n z e. unfold by_load. destruct (dispatch m n (dp_budget d)) as [[[s|] b]|]; cbn; [|done..].
    by destruct (sock_send _ _) as [s'|]; cbn; intros [= <- <-]. }
  destruct (is_health_check r).
  - destruct method; [|by eapply Hroom|..]; (eapply Hext; [exact E| |done]); intros z' e' Ek; cbv zeta in Ek; unfold rbind in Ek;
      repeat case_match; simplify_eq; done.
  - destruct method; cbn in E; [|by eapply Hroom|..]; (eapply Hext; [exact E| |done]); intros z' e'.
    + destruct (_active_workers d); [done|]. by apply Hloop.
    + apply Hload.
    + apply Hload.
Qed.

(** No rank in service is forgotten: with elastic scaling the list has every active
    rank that is up, without it every active rank, up or not. *)
Definition all_listed (elastic : bool) (c : Controller) : Prop :=
  ∀ i, up (dp_active c) i = true → (elastic = true → up (status c) i = true) → i ∈ _active_workers c.

Lemma refresh_listed c : all_listed true (_refresh_active_workers c).
Proof.
  intros i Ha Hs. cbn in *. apply list_elem_of_In, filter_In. rewrite Ha, (Hs eq_refl). split; [|done].
  apply in_seq. apply up_lt in Ha. lia.
Qed.

Lemma ctl_init_listed elastic max_dp_size launch_dp_size bound : all_listed elastic (controller_init max_dp_size launch_dp_size bound).
Proof. intros i Hi%up_init _. apply elem_of_seq. lia. Qed.

Lemma ctl_step_listed elastic max_dp_size method c c' :
  all_listed elastic c → ctl_step elastic max_dp_size method c c' → all_listed elastic c'.
Proof.
  intros Hc H. revert Hc. destruct H as [ranks c0|offset count c0 c1 He E|now loads r c0 x c1 E]; intros Hc.
  - unfold update_active_ranks. destruct (negb _); [done|]. destruct elastic; [apply refresh_listed|].
    intros i Hi _. by apply Hc.
  - subst elastic. unfold add_elastic_workers in E. destruct (_ <? _)%nat; [done|]. destruct (add_slots _ c0) as [c2|]; [|done].
    cbn in E. injection E as <-. apply refresh_listed.
  - apply request_same_ranks in E as (_ & E2 & E3 & E4). intros i. rewrite E2, E3, E4. apply Hc.
Qed.

Lemma ctl_step_ok elastic max_dp_size method c c' : ctl_ok max_dp_size c → ctl_step elastic max_dp_size method c c' → ctl_ok max_dp_size c'.
Proof.
  intros Hc H. revert Hc. destruct H as [ranks c0|offset count c0 c1 _ E|now loads r c0 x c1 E]; intros Hc.
  - unfold update_active_ranks. destruct (length ranks =? max_dp_size)%nat eqn:El; cbn; [|done]. apply Nat.eqb_eq in El.
    destruct elastic; [apply refresh_ok|]; destruct Hc as [H1 H2 H3 H4 H5]; split; cbn; try done. by rewrite length_fmap, length_seq.
  - unfold add_elastic_workers in E. destruct (_ <? _)%nat; [done|]. destruct (add_slots _ c0) as [c2|] eqn:Ea; [|done].
    cbn in E. injection E as <-. eapply refresh_ok, add_slots_ok; [exact Hc|exact Ea].
  - apply request_same_ranks in E as (E1 & E2 & E3 & E4). destruct Hc as [H1 H2 H3 H4 H5]. split; rewrite ?E1, ?E2, ?E3, ?E4; done.
Qed.

(** ** The properties *)

(** C33: by round robin, with [k] ranks up among the active ones, each of the next
    [k] requests goes to another of them, in turn, and the requests after that
    repeat the order; no request goes to a rank that is down. *)
Theorem round_robin_fair c rounds rest reqs : rr_ok c →
  (rest < length (queue c))%nat → Forall plain_req reqs → length reqs = (rounds * length (queue c) + rest)%nat →
  queue c ≡ₚ List.filter (is_up c) (_active_workers c) ∧
  ∃ c', dispatch_all ROUND_ROBIN 0 reqs c = Ok (concat (replicate rounds (queue c)) ++ take rest (queue c), c') ∧ same_ranks c c'.
Proof.
  intros Hc Hrest Hf Hl. split.
  { unfold queue, rotated. rewrite List.filter_app, Permutation_app_comm, <- List.filter_app. by rewrite take_drop. }
  revert c reqs Hc Hrest Hf Hl. induction rounds as [|rounds IH]; intros c reqs Hc Hrest Hf Hl.
  - cbn. destruct (round_robin_rounds reqs c (take rest (queue c)) (drop rest (queue c)) Hf Hc) as (c' & E & _ & Hs & _).
    + by rewrite take_drop.
    + rewrite length_take. lia.
    + by exists c'.
  - rewrite <- (take_drop (length (queue c)) reqs) in Hf |- *. apply Forall_app in Hf as [Hf1 Hf2].
    destruct (round_robin_rounds (take (length (queue c)) reqs) c (queue c) [] Hf1 Hc) as (c1 & E & Hc1 & Hs1 & Hq1); [by rewrite app_nil_r|rewrite length_take; lia|].
    cbn [app] in Hq1. destruct (IH c1 (drop (length (queue c)) reqs) Hc1) as (c' & E' & Hs'); [by rewrite Hq1|done|rewrite length_drop, Hq1; lia|].
    exists c'. split; [|by eapply same_ranks_trans].
    rewrite (dispatch_all_app _ _ _ _ _ _ _ E), E', Hq1. cbn [rbind replicate concat]. by rewrite <- app_assoc.
Qed.

(** C34: a batch of requests routed by the number of requests or of tokens, after
    the refresh that comes before it: each request goes to a rank that has the least
    load (ties by tokens broken by the number of requests) with the requests before
    it counted in, the loads grow by exactly the requests sent to each rank, and when
    they differ by at most [d] after the refresh, [d] at least the weight of each
    request (one, or its number of tokens), they still do after the batch.  The loads
    are those of the ranks at launch, all of which have sockets. *)
Theorem burst_is_spread method c c1 d now loads reqs : by_load_method method = true → Forall plain_req reqs → reqs ≠ [] →
  budget_ok c → refresh_load_budget now loads c = Ok c1 →
  Forall (λ r, 0 ≤ weight method r ≤ d) reqs → within d (load_of method (dp_budget c1)) →
  ∃ slots c', dispatch_batch_generate method now loads reqs c = Ok (slots, c') ∧ length slots = length reqs ∧
    greedy method reqs slots (dp_budget c1) ∧ dp_budget c' = sent_loads method reqs slots (dp_budget c1) ∧
    within d (load_of method (dp_budget c')).
Proof.
  intros Hm Hf Hne Hc E Hwt Hw. unfold dispatch_batch_generate.
  assert (existsb (λ r, negb (is_health_check r)) reqs = true) as ->.
  { destruct Hf as [|r reqs [_ Hr] _]; [done|]. cbn. by rewrite Hr. }
  rewrite Hm. cbn [andb]. rewrite E. cbn [rbind].
  destruct (by_load_run method reqs now c1 d) as (slots & E' & Hl & Hg & Hw'); try done; [by eapply refresh_budget_ok|].
  exists slots. eexists. by split_and!.
Qed.

(** C32: over any news of the ranks, added slots and requests since the launch, a
    request routed by round robin goes to a rank that has a socket, was added to the
    service and is up; it is refused only when every rank that was added to the
    service is down. *)
Theorem routed_rank_serves elastic max_dp_size launch_dp_size bound method c r : (launch_dp_size ≤ max_dp_size)%nat →
  Forall (λ i, bound !! i = Some true) (seq 0 launch_dp_size) →
  rtc (ctl_step elastic max_dp_size method) (controller_init max_dp_size launch_dp_size bound) c → plain_req r →
  match dispatching ROUND_ROBIN r c with
  | Ok (x, c') => workers c !! x = Some true ∧ up (dp_active c) x = true ∧ up (status c) x = true ∧ same_ranks c c'
  | Raise e => e = RuntimeError ∧ ∀ i, up (dp_active c) i = true → up (status c) i = false
  end.
Proof.
  intros Hle Hb Hreach Hr. assert (ctl_ok max_dp_size c ∧ all_listed elastic c) as [[_ _ H3 H4 _] Hall].
  { pose proof (ctl_init_ok _ _ bound Hle Hb) as Hi. pose proof (ctl_init_listed elastic max_dp_size launch_dp_size bound) as Hi'.
    induction Hreach as [|c1 c2 c3 Hs _ IH]; [done|]. apply IH; [by eapply ctl_step_ok|by eapply ctl_step_listed]. }
  assert ((∀ i, i ∈ _active_workers c → up (status c) i = false) → ∀ i, up (dp_active c) i = true → up (status c) i = false) as Hdown.
  { intros Hd i Hi. destruct (up (status c) i) eqn:Hu; [|done]. rewrite <- Hu. apply Hd. by apply Hall. }
  destruct (decide (_active_workers c = [])) as [E|Hne].
  { cbn. destruct Hr as [Hr _]. unfold round_robin_scheduler, external, maybe_external_dp_rank_routing. rewrite Hr, E. cbn. split; [done|].
    apply Hdown. intros i Hi. rewrite E in Hi. by apply not_elem_of_nil in Hi. }
  assert (rr_ok c) as Hc. { split; [done|]. eapply Forall_impl; [exact H4|exact H3]. }
  pose proof (round_robin_step r c Hr Hc) as Hs.
  assert (∀ i, i ∈ queue c ↔ up (status c) i = true ∧ i ∈ _active_workers c) as Hq.
  { intros i. unfold queue. rewrite list_elem_of_In, filter_In, <- list_elem_of_In. unfold rotated.
    rewrite Permutation_app_comm, take_drop. unfold is_up. tauto. }
  destruct (queue c) as [|x l].
  - rewrite Hs. split; [done|]. apply Hdown. intros i Hi. apply not_true_is_false. intros Hu. by apply (not_elem_of_nil i), Hq.
  - destruct Hs as (c' & -> & _ & Hsame & _). destruct (proj1 (Hq x) ltac:(left)) as [Hu Hi].
    rewrite Forall_forall in H4. split_and!; eauto.
Qed.

(** ** On concrete ranks *)

Definition three : Controller := controller_init 3 3 [true; true; true].
Definition two_of_four : Controller := controller_init 4 2 [true; true; true; true].
Definition a_req (n : Z) : DpReq := mkDpReq None None n false.

(** Rank 1 went down and one request was sent; the next five go to 2 and 0 in turn. *)
Definition three_one_down : Controller := with_counter 1 (update_active_ranks false 3 [true; false; true] three).

Lemma three_rr_ok : rr_ok three_one_down.
Proof. split; [done|]. repeat constructor. Qed.

Lemma round_robin_fair_witness : queue three_one_down = [2; 0]%nat ∧
  ∃ c', dispatch_all ROUND_ROBIN 0 (replicate 5 (a_req 7)) three_one_down = Ok ([2; 0; 2; 0; 2]%nat, c') ∧ same_ranks three_one_down c'.
Proof.
  split; [reflexivity|].
  destruct (round_robin_fair three_one_down 2 1 (replicate 5 (a_req 7)) three_rr_ok) as [_ H].
  - vm_compute. lia.
  - by repeat constructor.
  - reflexivity.
  - exact H.
Defined.

(** Four requests by tokens over three ranks, just after two of them have published
    what they hold. *)
Definition published (rank tokens : Z) : LoadSnapshot :=
  mkLoad 1 rank 1 0 0 tokens tokens tokens 0 100 8 0 0 0 0 0 0 None None None None None None.
Definition burst : list DpReq := [a_req 4; a_req 7; a_req 2; a_req 5].

Definition three_published : Controller :=
  mkController (workers three) (dp_active three) (status three) (_active_workers three) 0 0 (mkBudget [1; 0; 1] [6; 0; 3] [1; 0; 1]%Q) 2.

Lemma burst_is_spread_witness : ∃ slots c', dispatch_batch_generate TOTAL_TOKENS 2 [published 0 6; published 2 3] burst three = Ok (slots, c') ∧
  length slots = 4%nat ∧ greedy TOTAL_TOKENS burst slots (dp_budget three_published) ∧
  dp_budget c' = sent_loads TOTAL_TOKENS burst slots (dp_budget three_published) ∧ within 7 (total_tokens (dp_budget c')).
Proof.
  apply (burst_is_spread TOTAL_TOKENS three three_published 7 2 [published 0 6; published 2 3] burst); [done|by repeat constructor|done| |reflexivity| |].
  - split; [done|done|by repeat constructor].
  - repeat constructor; cbn; lia.
  - intros x y Hx%list_elem_of_In Hy%list_elem_of_In. cbn in Hx, Hy. lia.
Defined.

Example burst_by_tokens : (let! (slots, c) := dispatch_batch_generate TOTAL_TOKENS 2 [published 0 6; published 2 3] burst three in
  Ok (slots, total_tokens (dp_budget c), total_requests (dp_budget c))) = Ok ([1; 2; 1; 0]%nat, [11; 6; 10], [2; 2; 2]).
Proof. reflexivity. Qed.

Example burst_slots : (let! (slots, c) := dispatch_batch_generate TOTAL_REQUESTS (1 # 100) [] (replicate 4 (a_req 7)) three in
  Ok (slots, total_requests (dp_budget c))) = Ok ([0; 1; 2; 0]%nat, [2; 1; 1]).
Proof. reflexivity. Qed.

(** Two slots are added to two, and then the first leaves. *)
Definition joined : Controller :=
  match add_elastic_workers 4 2 2 two_of_four with Ok c => update_active_ranks true 4 [false; true; true; true] c | Raise _ => two_of_four end.

Lemma routed_rank_serves_witness : dispatching ROUND_ROBIN (a_req 7) joined = Ok (1%nat, with_counter 1 joined) ∧
  workers joined !! 1%nat = Some true ∧ up (dp_active joined) 1 = true ∧ up (status joined) 1 = true ∧ same_ranks joined (with_counter 1 joined).
Proof.
  split; [reflexivity|].
  refine (routed_rank_serves true 4 2 [true; true; true; true] ROUND_ROBIN joined (a_req 7) _ _ _ _).
  - lia.
  - by repeat constructor.
  - eapply rtc_l; [by apply (step_slots _ _ _ 2 2)|].
    eapply rtc_l; [apply (step_ranks _ _ _ [false; true; true; true])|]. apply rtc_refl.
  - done.
Defined.

(** A rank that is down gets no broadcast and no request by round robin, but
    routing by load still sends to it. *)
Example down_rank_is_sent_to : let c := update_active_ranks false 3 [true; false; true] three in
  send_to_all_workers c = [0; 2]%nat ∧
  (let! (slots, _) := dispatch_all ROUND_ROBIN 0 (replicate 3 (a_req 7)) c in Ok slots) = Ok [0; 2; 0]%nat ∧
  (let! (slots, _) := dispatch_all TOTAL_REQUESTS 0 (replicate 3 (a_req 7)) c in Ok slots) = Ok [0; 1; 2]%nat ∧
  (let! (slots, _) := dispatch_all TOTAL_TOKENS 0 (replicate 3 (a_req 7)) c in Ok slots) = Ok [0; 1; 2]%nat.
Proof. repeat split; reflexivity. Qed.

(** A slot that was added gets requests by round robin and none by load. *)
Example added_slot_starves :
  match add_elastic_workers 4 2 2 two_of_four with
  | Ok c =>
      (let! (slots, _) := dispatch_all ROUND_ROBIN 0 (replicate 5 (a_req 7)) c in Ok slots) = Ok [0; 1; 2; 3; 0]%nat ∧
      (let! (slots, _) := dispatch_all TOTAL_REQUESTS 0 (replicate 5 (a_req 7)) c in Ok slots) = Ok [0; 1; 0; 1; 0]%nat
  | Raise _ => False
  end.
Proof. repeat split; reflexivity. Qed.
