(* ===== verification/LoadTheorems.v ===== *)
(** * What readers of load snapshots see

    Over any writers, also ones that are killed in the middle of a write, a reader
    gets the last whole snapshot of each rank; the loads of the data-parallel
    controller follow. *)
From S2P Require Import Prelude LoadSnapshot LoadShm DpController.
From Stdlib Require Import QArith.
Local Open Scope Z_scope.

Section theorems.
Context `{SnapshotCodec}.

(** ** Writing *)

(** A write that is cut: [k] stores are done, and [j] bytes of the next when it is
    a slice. *)
Definition cut (k j : nat) (ss : list Store) : list Store :=
  take k ss ++ match ss !! k with Some (Assign a b p) => [Assign a (a + j `min` length p) (take j p)] | _ => [] end.

(** What is left of the map. *)
Definition after_cut (k : nat) (r : Z) (s : LoadSnapshot) (m : gmap Z LoadSnapshot) : gmap Z LoadSnapshot :=
  match k with O => m | 1%nat | 2%nat | 3%nat => delete r m | _ => <[r := s]> m end.

Lemma run_store_next s ss mem mem' : run_store s mem = Ok mem' → run_stores (s :: ss) mem = run_stores ss mem'.
Proof. intros E. cbn [run_stores]. by rewrite E. Qed.

Lemma assign_blank n mem m r a p : shm_repr n mem m → (r < n)%nat → m !! Z.of_nat r = None →
  (slot_offset r SLOT_SIZE + SLOT_LEN ≤ a)%nat → (a + length p ≤ slot_offset r SLOT_SIZE + SLOT_SIZE)%nat →
  run_store (Assign a (a + length p) p) mem = Ok (splice a p mem) ∧ shm_repr n (splice a p mem) m.
Proof.
  intros Hm Hr Hn Ha Hb. split; [|by eapply repr_blank]. pose proof (slot_in_file n r Hr). pose proof (sr_len _ _ _ Hm). apply run_assign; [done|lia].
Qed.

(** The file after each of the four stores. *)
Lemma payload_run n mem m r s : shm_repr n mem m → (r < n)%nat → fits s → dp_rank s = Z.of_nat r →
  let off := slot_offset r SLOT_SIZE in
  let p := encode s in
  let z := replicate (SLOT_SIZE - SLOT_LEN - length p) 0 in
  ∃ mem1 mem2 mem3 mem4,
    payload_stores (Z.of_nat r) p =
      [PackLen off 0; Assign (off + SLOT_LEN) (off + SLOT_LEN + length p) p;
       Assign (off + SLOT_LEN + length p) (off + SLOT_LEN + length p + length z) z; PackLen off (zlen p)] ∧
    run_store (PackLen off 0) mem = Ok mem1 ∧ shm_repr n mem1 (delete (Z.of_nat r) m) ∧
    run_store (Assign (off + SLOT_LEN) (off + SLOT_LEN + length p) p) mem1 = Ok mem2 ∧ shm_repr n mem2 (delete (Z.of_nat r) m) ∧
    run_store (Assign (off + SLOT_LEN + length p) (off + SLOT_LEN + length p + length z) z) mem2 = Ok mem3 ∧ shm_repr n mem3 (delete (Z.of_nat r) m) ∧
    run_store (PackLen off (zlen p)) mem3 = Ok mem4 ∧ shm_repr n mem4 (<[Z.of_nat r := s]> m).
Proof.
  intros Hm Hr Hf Hd off p z. pose proof slot_size_ge as Hge. pose proof slot_size_val as Hval. unfold fits in Hf. fold p in Hf.
  assert (length z = SLOT_SIZE - SLOT_LEN - length p)%nat as Hz by (unfold z; by rewrite length_replicate).
  destruct (repr_zero n mem m r Hm Hr) as (mem1 & E1 & H1).
  assert (delete (Z.of_nat r) m !! Z.of_nat r = None) as Hn by apply lookup_delete_eq.
  destruct (assign_blank n mem1 _ r (off + SLOT_LEN) p H1 Hr Hn) as [E2 H2]; [fold off; lia..|].
  destruct (assign_blank n _ _ r (off + SLOT_LEN + length p) z H2 Hr Hn) as [E3 H3]; [fold off; lia..|].
  set (mem2 := splice _ p mem1) in *. set (mem3 := splice _ z mem2) in *.
  pose proof (slot_in_file n r Hr) as Hin. fold off in Hin.
  pose proof (sr_len _ _ _ H1) as Hl1. pose proof (sr_len _ _ _ H2) as Hl2. pose proof (sr_len _ _ _ H3) as Hl3.
  exists mem1, mem2, mem3, (splice off (le_bytes SLOT_LEN (zlen p)) mem3). split.
  { unfold payload_stores. rewrite Nat2Z.id. fold off. rewrite Hz.
    replace (off + SLOT_SIZE - (off + SLOT_LEN + length p))%nat with (SLOT_SIZE - SLOT_LEN - length p)%nat by lia.
    by replace (off + SLOT_LEN + length p + (SLOT_SIZE - SLOT_LEN - length p))%nat with (off + SLOT_SIZE)%nat by lia. }
  split; [done|]. split; [done|]. split; [done|]. split; [done|]. split; [done|]. split; [done|]. split.
  { apply run_pack; [unfold zlen, SLOT_LEN in *; lia|lia]. }
  rewrite <- insert_delete_eq.
  apply (repr_splice n mem3 _ r off (le_bytes SLOT_LEN (zlen p)) (Some s) H3 Hr); rewrite ?length_le_bytes; fold off; [lia|lia| |by intros ? [= <-]].
  unfold slot_is. fold off p. split; [done|]. split.
  - rewrite <- (length_le_bytes SLOT_LEN (zlen p)) at 1. apply sub_splice_in. rewrite length_le_bytes. lia.
  - rewrite sub_splice_out by (rewrite ?length_le_bytes; lia). unfold mem3. rewrite sub_splice_out by lia. unfold mem2. apply sub_splice_in. lia.
Qed.

(** A whole write. *)
Lemma write_payload_repr n mem m r s : shm_repr n mem m → (r < n)%nat → fits s → dp_rank s = Z.of_nat r →
  ∃ mem', _write_payload (Z.of_nat r) s mem = (mem', Ok tt) ∧ shm_repr n mem' (<[Z.of_nat r := s]> m).
Proof.
  intros Hm Hr Hf Hd. destruct (payload_run n mem m r s Hm Hr Hf Hd) as (m1 & m2 & m3 & m4 & Ep & E1 & _ & E2 & _ & E3 & _ & E4 & H4).
  exists m4. split; [|done]. unfold _write_payload. rewrite (proj2 (Nat.ltb_ge _ _) Hf), Ep.
  by rewrite (run_store_next _ _ _ _ E1), (run_store_next _ _ _ _ E2), (run_store_next _ _ _ _ E3), (run_store_next _ _ _ _ E4).
Qed.

(** A slice of which only the first bytes were copied. *)
Lemma cut_blank n mem m r a p j : shm_repr n mem m → (r < n)%nat → m !! Z.of_nat r = None →
  (slot_offset r SLOT_SIZE + SLOT_LEN ≤ a)%nat → (a + length p ≤ slot_offset r SLOT_SIZE + SLOT_SIZE)%nat →
  ∃ mem', run_stores [Assign a (a + j `min` length p) (take j p)] mem = (mem', Ok tt) ∧ shm_repr n mem' m.
Proof.
  intros Hm Hr Hn Ha Hb. destruct (assign_blank n mem m r a (take j p) Hm Hr Hn Ha) as [E Hm']; [rewrite length_take; lia|].
  rewrite length_take in E. eexists. split; [exact (run_store_next _ [] _ _ E)|done].
Qed.

Lemma cut_write n mem m r s k j : shm_repr n mem m → (r < n)%nat → fits s → dp_rank s = Z.of_nat r →
  ∃ mem', run_stores (cut k j (payload_stores (Z.of_nat r) (encode s))) mem = (mem', Ok tt) ∧ shm_repr n mem' (after_cut k (Z.of_nat r) s m).
Proof.
  intros Hm Hr Hf Hd. pose proof slot_size_ge as Hge.
  destruct (payload_run n mem m r s Hm Hr Hf Hd) as (m1 & m2 & m3 & m4 & -> & E1 & H1 & E2 & H2 & E3 & H3 & E4 & H4). unfold fits in Hf.
  assert (delete (Z.of_nat r) m !! Z.of_nat r = None) as Hn by apply lookup_delete_eq. unfold cut.
  destruct k as [|[|[|[|k]]]]; cbn [take app lookup list_lookup after_cut].
  - by exists mem.
  - rewrite (run_store_next _ _ _ _ E1). eapply cut_blank; [done|done|done|lia|lia].
  - rewrite (run_store_next _ _ _ _ E1), (run_store_next _ _ _ _ E2).
    eapply cut_blank; [done|done|done|lia|rewrite length_replicate; lia].
  - rewrite (run_store_next _ _ _ _ E1), (run_store_next _ _ _ _ E2), (run_store_next _ _ _ _ E3). by exists m3.
  - rewrite take_nil. cbn [app].
    rewrite (run_store_next _ _ _ _ E1), (run_store_next _ _ _ _ E2), (run_store_next _ _ _ _ E3), (run_store_next _ _ _ _ E4). by exists m4.
Qed.

(** ** A new writer *)

Lemma header_eq n : Z.of_nat n < 65536 →
  header n SLOT_SIZE = Ok (MAGIC ++ le_bytes 2 VERSION ++ le_bytes 2 (Z.of_nat n) ++ le_bytes 4 (Z.of_nat SLOT_SIZE)).
Proof.
  intros Hn. unfold header. rewrite (pack_ok 2 VERSION) by done.
  rewrite (pack_ok 2 (Z.of_nat n)) by (change (256 ^ Z.of_nat 2) with 65536; lia).
  rewrite (pack_ok 4) by (rewrite slot_size_val; done). done.
Qed.
Lemma header_ok n : Z.of_nat n < 65536 → ∃ h, header n SLOT_SIZE = Ok h ∧ length h = HEADER_SIZE.
Proof. intros Hn. eexists. split; [by apply header_eq|]. by rewrite !length_app, !length_le_bytes. Qed.

(** A file of zeros under a header has no snapshot. *)
Lemma zeros_repr n h : header n SLOT_SIZE = Ok h → length h = HEADER_SIZE →
  shm_repr n (splice 0 h (replicate (file_size n SLOT_SIZE) 0)) ∅.
Proof.
  intros Eh Hl. assert (0 + length h ≤ length (replicate (file_size n SLOT_SIZE) 0%Z))%nat as Hf by (rewrite length_replicate, Hl; unfold file_size; lia). split.
  - rewrite length_splice by exact Hf. apply length_replicate.
  - rewrite <- Hl, sub_splice_in by exact Hf. exact Eh.
  - intros r Hr. rewrite lookup_empty. unfold slot_is. rewrite sub_splice_out; [|exact Hf|rewrite Hl; unfold slot_offset; lia].
    unfold sub. rewrite drop_replicate, take_replicate. apply le_val_zeros.
  - intros r s E. by rewrite lookup_empty in E.
Qed.

Lemma ftruncate_same mem : ftruncate (length mem) mem = mem.
Proof. unfold ftruncate. by rewrite firstn_all, Nat.sub_diag, app_nil_r. Qed.

(** The header is written again by every writer. *)
Lemma rewrite_header n mem m : shm_repr n mem m → splice 0 (sub 0 HEADER_SIZE mem) mem = mem.
Proof.
  intros Hm. unfold splice, sub. rewrite drop_0, take_0, length_take. cbn [app Nat.add].
  rewrite Nat.min_l by (rewrite (sr_len _ _ _ Hm); unfold file_size; lia). by rewrite take_drop.
Qed.

Definition file_repr (n : nat) (file : option (list Z)) (m : gmap Z LoadSnapshot) : Prop :=
  match file with None => m = ∅ | Some mem => shm_repr n mem m end.

Lemma writer_init_repr n rank interval file m : file_repr n file m → Z.of_nat n < 65536 → 0 ≤ rank < Z.of_nat n → fits (blank rank) →
  ∃ mem', writer_init n rank interval file = (Some mem', Ok (mkWriter (1 `max` interval) 0 n rank)) ∧ shm_repr n mem' (<[rank := blank rank]> m).
Proof.
  intros Hm Hn Hr Hf. destruct (header_ok n Hn) as (h & Eh & Hl). unfold writer_init.
  rewrite (proj2 (Z.ltb_ge _ _) (proj1 Hr)), (proj2 (Z.leb_gt _ _) (proj2 Hr)). cbn [orb]. rewrite Eh.
  assert (shm_repr n (splice 0 h (ftruncate (file_size n SLOT_SIZE) (default [] file))) m) as Hm'.
  { destruct file as [mem|]; cbn [from_option id file_repr] in Hm |- *.
    - rewrite <- (sr_len _ _ _ Hm), ftruncate_same. pose proof (sr_header _ _ _ Hm) as E. rewrite Eh in E. injection E as ->. by rewrite (rewrite_header n mem m).
    - subst m. unfold ftruncate. rewrite take_nil. cbn [length app]. rewrite Nat.sub_0_r. by apply zeros_repr. }
  destruct (write_payload_repr n _ m (Z.to_nat rank) (blank rank) Hm') as (mem' & E & H'); [lia|done|cbn; lia|].
  rewrite Z2Nat.id in E, H' by lia. rewrite E. by exists mem'.
Qed.

(** ** Reading *)

Definition reader_ok (n : nat) (r : Reader) : Prop := r_dp_size r = n ∧ (mapped r = None ∨ mapped r = Some SLOT_SIZE).

Lemma attach_repr n mem m r : shm_repr n mem m → Z.of_nat n < 65536 → reader_ok n r → _attach (Some mem) r = (true, mkReader n (Some SLOT_SIZE)).
Proof.
  intros Hm Hn [Hd Hk]. unfold _attach. destruct r as [d k]. cbn [r_dp_size mapped] in Hd, Hk |- *. subst d. destruct Hk as [->| ->]; [|done].
  pose proof (sr_len _ _ _ Hm) as Hl. pose proof (sr_header _ _ _ Hm) as Hh. pose proof slot_size_ge as Hge. pose proof slot_size_val as Hval.
  rewrite (proj2 (Nat.ltb_ge (length mem) HEADER_SIZE)) by (rewrite Hl; unfold file_size; lia).
  rewrite header_eq in Hh by done. assert (∀ x y : list Z, Ok x = Ok y → x = y) as Hinj by (by intros x y [=]). apply Hinj in Hh. clear Hinj.
  assert (∀ b k, (b + k ≤ HEADER_SIZE)%nat → sub b k mem = sub b k (MAGIC ++ le_bytes 2 VERSION ++ le_bytes 2 (Z.of_nat n) ++ le_bytes 4 (Z.of_nat SLOT_SIZE))) as Hsub.
  { intros b k Hb. rewrite Hh, sub_sub by done. done. }
  rewrite !Hsub by (unfold HEADER_SIZE; lia).
  change (sub 0 4 _) with MAGIC. change (sub 4 2 _) with (le_bytes 2 VERSION). change (sub 6 2 _) with (le_bytes 2 (Z.of_nat n)).
  change (sub 8 4 _) with (le_bytes 4 (Z.of_nat SLOT_SIZE)). rewrite (le_val_le_bytes 2 VERSION) by (unfold VERSION; change (256 ^ Z.of_nat 2) with 65536; lia). rewrite (le_val_le_bytes 2 (Z.of_nat n)) by (change (256 ^ Z.of_nat 2) with 65536; lia).
  rewrite (le_val_le_bytes 4) by (change (256 ^ Z.of_nat 4) with 4294967296; lia). rewrite Nat2Z.id.
  rewrite bool_decide_true by done. rewrite !Z.eqb_refl, (proj2 (Nat.leb_le _ _) Hge), Hl, Nat.leb_refl. done.
Qed.

(** All the snapshots of the map, by rank. *)
Definition by_rank (n : nat) (m : gmap Z LoadSnapshot) : list LoadSnapshot := omap (λ i, m !! Z.of_nat i) (seq 0 n).

Lemma read_all_repr n mem m r : shm_repr n mem m → Z.of_nat n < 65536 → reader_ok n r →
  read_all (Some mem) r = (by_rank n m, mkReader n (Some SLOT_SIZE)).
Proof.
  intros Hm Hn Hr. unfold read_all. rewrite (attach_repr n mem m r Hm Hn Hr). cbn [mapped r_dp_size]. f_equal. unfold by_rank.
  apply list_omap_ext, Forall_Forall2_diag, Forall_forall. intros i Hi%elem_of_seq. apply read_slot_is. apply (sr_slots _ _ _ Hm). lia.
Qed.

Lemma read_repr n mem m r rank : shm_repr n mem m → Z.of_nat n < 65536 → reader_ok n r → (read rank (Some mem) r).1 = m !! rank.
Proof.
  intros Hm Hn Hr. unfold read. rewrite (proj1 Hr). destruct ((rank <? 0) || (Z.of_nat n <=? rank)) eqn:E.
  - cbn [fst]. destruct (m !! rank) as [s|] eqn:Es; [|done]. pose proof (sr_ranks _ _ _ Hm rank s Es) as [Hx _].
    apply orb_true_iff in E as [?%Z.ltb_lt|?%Z.leb_le]; lia.
  - apply orb_false_iff in E as [?%Z.ltb_ge ?%Z.leb_gt]. rewrite (attach_repr n mem m r Hm Hn Hr). cbn [mapped fst].
    pose proof (sr_slots _ _ _ Hm (Z.to_nat rank) ltac:(lia)) as Hs. rewrite Z2Nat.id in Hs by lia. by apply read_slot_is.
Qed.

(** ** Writers over time *)

(** Writers start, write, are refused, or are killed in a write; [m] is what a
    reader should see. *)
Inductive shm_reach (n : nat) : option (list Z) → gmap Z LoadSnapshot → Prop :=
| reach_none : shm_reach n None ∅
| reach_start file m rank interval file' made : shm_reach n file m → 0 ≤ rank < Z.of_nat n → fits (blank rank) →
    writer_init n rank interval file = (file', made) → shm_reach n file' (<[rank := blank rank]> m)
| reach_write mem m w s mem' : shm_reach n (Some mem) m → 0 ≤ w_dp_rank w < Z.of_nat n →
    write w s mem = (mem', Ok tt) → shm_reach n (Some mem') (<[w_dp_rank w := s]> m)
| reach_refused mem m w s mem' e : shm_reach n (Some mem) m → 0 ≤ w_dp_rank w < Z.of_nat n →
    write w s mem = (mem', Raise e) → shm_reach n (Some mem') m
| reach_killed mem m w s k j : shm_reach n (Some mem) m → 0 ≤ w_dp_rank w < Z.of_nat n → fits s → dp_rank s = w_dp_rank w →
    shm_reach n (Some (run_stores (cut k j (payload_stores (w_dp_rank w) (encode s))) mem).1) (after_cut k (w_dp_rank w) s m).

Lemma write_repr n mem m w s : shm_repr n mem m → 0 ≤ w_dp_rank w < Z.of_nat n →
  match write w s mem with
  | (mem', Ok _) => fits s ∧ dp_rank s = w_dp_rank w ∧ shm_repr n mem' (<[w_dp_rank w := s]> m)
  | (mem', Raise _) => mem' = mem ∧ (dp_rank s ≠ w_dp_rank w ∨ ¬ fits s)
  end.
Proof.
  intros Hm Hr. unfold write. destruct (dp_rank s =? w_dp_rank w) eqn:Ed; cbn [negb].
  2:{ apply Z.eqb_neq in Ed. auto. }
  apply Z.eqb_eq in Ed. destruct (decide (fits s)) as [Hf|Hf].
  - destruct (write_payload_repr n mem m (Z.to_nat (w_dp_rank w)) s Hm) as (mem' & E & H'); [lia|done|lia|].
    rewrite Z2Nat.id in E, H' by lia. rewrite E. auto.
  - unfold _write_payload. unfold fits in Hf. rewrite (proj2 (Nat.ltb_lt _ _)) by lia. auto.
Qed.

Lemma reach_repr n file m : Z.of_nat n < 65536 → shm_reach n file m → file_repr n file m.
Proof.
  intros Hn. induction 1 as [|file m rank interval file' made _ IH Hr Hf E|mem m w s mem' _ IH Hr E|mem m w s mem' e _ IH Hr E|mem m w s k j _ IH Hr Hf Hd];
    cbn [file_repr] in *.
  - done.
  - destruct (writer_init_repr n rank interval file m IH Hn Hr Hf) as (mem' & E' & H'). rewrite E' in E. by injection E as <- <-.
  - pose proof (write_repr n mem m w s IH Hr) as Hw. rewrite E in Hw. tauto.
  - pose proof (write_repr n mem m w s IH Hr) as Hw. rewrite E in Hw. by destruct Hw as [-> _].
  - destruct (cut_write n mem m (Z.to_nat (w_dp_rank w)) s k j IH) as (mem' & E & H'); [lia|done|lia|].
    rewrite Z2Nat.id in E, H' by lia. by rewrite E.
Qed.

(** A writer that can start does, and a write that fits is done. *)
Lemma reach_start_some n file m rank interval : Z.of_nat n < 65536 → shm_reach n file m → 0 ≤ rank < Z.of_nat n → fits (blank rank) →
  shm_reach n (Some (default [] (writer_init n rank interval file).1)) (<[rank := blank rank]> m).
Proof.
  intros Hn Hm Hr Hf. destruct (writer_init_repr n rank interval file m) as (mem & E & _); [by apply reach_repr|done..|].
  rewrite E. by eapply reach_start.
Qed.
Lemma reach_write_some n mem m w s : Z.of_nat n < 65536 → shm_reach n (Some mem) m → 0 ≤ w_dp_rank w < Z.of_nat n → fits s →
  dp_rank s = w_dp_rank w → shm_reach n (Some (write w s mem).1) (<[w_dp_rank w := s]> m).
Proof.
  intros Hn Hm Hr Hf Hd. pose proof (write_repr n mem m w s (reach_repr n _ m Hn Hm) Hr) as Hw.
  destruct (write w s mem) as [mem' [[]|e]] eqn:E; [by eapply reach_write|]. by destruct Hw as [_ [?|?]].
Qed.

(** *** The loads of the controller *)

Lemma py_index_in len i : 0 ≤ i < Z.of_nat len → py_index len i = Some (Z.to_nat i).
Proof.
  intros Hi. unfold py_index. rewrite (proj2 (Z.ltb_ge i 0)) by lia. by rewrite (proj2 (Z.leb_le 0 i)), (proj2 (Z.ltb_lt i _)) by lia.
Qed.

Definition budget_len (n : nat) (b : DPBudget) : Prop :=
  length (total_requests b) = n ∧ length (total_tokens b) = n ∧ length (last_timestamp b) = n.

(** What the budget holds of a rank. *)
Definition budget_at (b : DPBudget) (i : nat) : option Z * option Z * option Q := (total_requests b !! i, total_tokens b !! i, last_timestamp b !! i).

(** A rank after the refresh: its snapshot, unless it was seen before. *)
Definition refreshed (b : DPBudget) (i : nat) (o : option LoadSnapshot) : option Z * option Z * option Q :=
  match o with
  | Some s =>
      if Qeq_bool (timestamp s) (default 0%Q (last_timestamp b !! i)) then budget_at b i
      else (Some (num_running_reqs s + num_waiting_reqs s), Some (num_total_tokens s), Some (timestamp s))
  | None => budget_at b i
  end.

Lemma update_load_one n b s : budget_len n b → 0 ≤ dp_rank s < Z.of_nat n →
  ∃ b', update_load b s = Ok b' ∧ budget_len n b' ∧ budget_at b' (Z.to_nat (dp_rank s)) = refreshed b (Z.to_nat (dp_rank s)) (Some s) ∧
    ∀ i, i ≠ Z.to_nat (dp_rank s) → budget_at b' i = budget_at b i.
Proof.
  intros (H1 & H2 & H3) Hr. unfold update_load, refreshed. rewrite py_index_in by (rewrite H3; lia). set (i := Z.to_nat (dp_rank s)).
  destruct (Qeq_bool _ _) eqn:E; [by exists b|]. eexists. split; [done|]. unfold budget_len, budget_at. cbn. rewrite !length_insert.
  split; [done|]. split.
  - rewrite !list_lookup_insert_eq by (unfold i; lia). done.
  - intros k Hk. by rewrite !list_lookup_insert_ne by done.
Qed.

Lemma update_budget_by_rank n (m : gmap Z LoadSnapshot) k c b : budget_len n b → (∀ r s, m !! r = Some s → 0 ≤ r < Z.of_nat n ∧ dp_rank s = r) →
  (k + c ≤ n)%nat →
  ∃ b', update_budget (omap (λ i, m !! Z.of_nat i) (seq k c)) b = Ok b' ∧ budget_len n b' ∧
    (∀ i, (k ≤ i < k + c)%nat → budget_at b' i = refreshed b i (m !! Z.of_nat i)) ∧
    (∀ i, ¬ (k ≤ i < k + c)%nat → budget_at b' i = budget_at b i).
Proof.
  intros Hb Hm. revert k b Hb. induction c as [|c IH]; intros k b Hb Hk.
  { exists b. cbn. split; [done|]. split; [done|]. split; [lia|done]. }
  cbn [seq omap list_omap]. destruct (m !! Z.of_nat k) as [s|] eqn:Ek.
  - destruct (Hm _ _ Ek) as [_ Hd]. destruct (update_load_one n b s Hb) as (b1 & E1 & Hb1 & Hat & Hother); [lia|]. rewrite Hd, Nat2Z.id in Hat, Hother.
    destruct (IH (S k) b1 Hb1 ltac:(lia)) as (b' & E' & Hb' & Hin & Hout). exists b'. cbn [update_budget]. rewrite E1. cbn [rbind].
    split; [exact E'|]. split; [done|]. split.
    + intros i Hi. destruct (decide (i = k)) as [->|Hne]; [rewrite Hout by lia; by rewrite Ek|]. rewrite Hin by lia.
      unfold refreshed. pose proof (Hother i Hne) as Ho. unfold budget_at in Ho |- *. injection Ho as -> -> ->. done.
    + intros i Hi. rewrite Hout by lia. apply Hother. lia.
  - destruct (IH (S k) b Hb ltac:(lia)) as (b' & E' & Hb' & Hin & Hout). exists b'. split; [exact E'|]. split; [done|]. split.
    + intros i Hi. destruct (decide (i = k)) as [->|Hne]; [rewrite Hout by lia; by rewrite Ek|]. by apply Hin; lia.
    + intros i Hi. apply Hout. lia.
Qed.

(** *** Messages *)

(** What one message does to the map. *)
Definition deliver (n : nat) (m : gmap Z LoadSnapshot) (data : list Z) : gmap Z LoadSnapshot :=
  match decode data with
  | Some s => if (0 <=? dp_rank s) && (dp_rank s <? Z.of_nat n) then <[dp_rank s := s]> m else m
  | None => m
  end.

Lemma dict_set_map r s d : list_to_map (M := gmap Z LoadSnapshot) (dict_set r s d) = <[r := s]> (list_to_map d).
Proof.
  induction d as [|[k v] d IH]; [done|]. cbn [dict_set]. destruct (k =? r) eqn:E.
  - apply Z.eqb_eq in E as ->. cbn. by rewrite insert_insert_eq.
  - apply Z.eqb_neq in E. cbn. rewrite IH. by apply insert_insert_ne.
Qed.
Lemma dict_set_keys r s d k : k ∈ (dict_set r s d).*1 ↔ k = r ∨ k ∈ d.*1.
Proof.
  induction d as [|[k' v] d IH]; cbn [dict_set]; [cbn; set_solver|]. destruct (k' =? r) eqn:E; cbn; [apply Z.eqb_eq in E; set_solver|].
  rewrite !elem_of_cons, IH. tauto.
Qed.

(** The snapshots a dict can hold: of its rank, in range and small enough. *)
Definition entry_ok (n : nat) (x : Z * LoadSnapshot) : Prop := 0 ≤ x.1 < Z.of_nat n ∧ dp_rank x.2 = x.1 ∧ fits x.2.

Lemma dict_set_ok n r s d : entry_ok n (r, s) → Forall (entry_ok n) d → NoDup d.*1 → Forall (entry_ok n) (dict_set r s d) ∧ NoDup (dict_set r s d).*1.
Proof.
  intros He Hf Hn. induction d as [|[k v] d IH]; cbn [dict_set].
  { split; [constructor; [exact He|constructor]|]. apply NoDup_singleton. }
  apply Forall_cons in Hf as [Hk Hf]. cbn in Hn. apply NoDup_cons in Hn as [Hni Hn]. destruct (k =? r) eqn:E.
  - apply Z.eqb_eq in E as ->. split; [constructor; [exact He|exact Hf]|]. by constructor.
  - apply Z.eqb_neq in E. destruct (IH Hf Hn) as [H1 H2]. split; [constructor; [exact Hk|exact H1]|]. constructor; [|done]. rewrite dict_set_keys. tauto.
Qed.

Lemma drain_map n messages d : list_to_map (M := gmap Z LoadSnapshot) (drain n messages d) = foldl (deliver n) (list_to_map d) messages.
Proof.
  revert d. induction messages as [|data messages IH]; intros d; [done|]. cbn [drain foldl]. rewrite IH. f_equal. unfold deliver.
  destruct (decode data) as [s|]; [|done]. destruct (_ && _); [apply dict_set_map|done].
Qed.

Lemma drain_ok n messages d : (∀ data s, data ∈ messages → decode data = Some s → fits s) →
  Forall (entry_ok n) d → NoDup d.*1 → Forall (entry_ok n) (drain n messages d) ∧ NoDup (drain n messages d).*1.
Proof.
  revert d. induction messages as [|data messages IH]; intros d Hm Hf Hn; [done|]. cbn [drain]. 
  assert (∀ data s, data ∈ messages → decode data = Some s → fits s) as Hm' by (intros; eapply Hm; [by right|done]).
  destruct (decode data) as [s|] eqn:Ed; [|by apply IH]. destruct ((0 <=? dp_rank s) && (dp_rank s <? Z.of_nat n)) eqn:Er; [|by apply IH].
  apply andb_true_iff in Er as [Hlo%Z.leb_le Hhi%Z.ltb_lt]. destruct (dict_set_ok n (dp_rank s) s d) as [Ho1 Ho2]; [|done..|by apply IH].
  split_and!; cbn; [lia|lia|done|]. eapply Hm; [by left|done].
Qed.

Definition writers_ok (n : nat) (file : option (list Z)) (writers : gmap Z Writer) : Prop :=
  ∀ r w, writers !! r = Some w → w_dp_rank w = r ∧ is_Some file.

Lemma write_latest_repr n d writers file m : Z.of_nat n < 65536 → (∀ r, 0 ≤ r < Z.of_nat n → fits (blank r)) → Forall (entry_ok n) d → NoDup d.*1 →
  file_repr n file m → writers_ok n file writers →
  ∃ file' writers', write_latest n d writers file = (file', writers', Ok tt) ∧ file_repr n file' (list_to_map d ∪ m) ∧ writers_ok n file' writers'.
Proof.
  intros Hn Hb. revert writers file m. induction d as [|[r s] d IH]; intros writers file m Hf Hd Hm Hw.
  { exists file, writers. split; [done|]. change (list_to_map []) with (∅ : gmap Z LoadSnapshot). by rewrite (left_id_L ∅ (∪) m). }
  apply Forall_cons in Hf as [(Hr & Hds & Hfit) Hf]. cbn in Hd, Hr, Hds, Hfit. apply NoDup_cons in Hd as [Hni Hd]. cbn [write_latest].
  assert (∃ mem m' w, (match writers !! r with Some w => (file, Ok w) | None => writer_init n r 1 file end) = (Some mem, Ok w) ∧
    w_dp_rank w = r ∧ shm_repr n mem m' ∧ <[r := s]> m' = <[r := s]> m) as (mem & m' & w & -> & Hwr & Hm' & Em).
  { destruct (writers !! r) as [w|] eqn:Ew.
    - destruct (Hw _ _ Ew) as [Hwr [mem ->]]. by exists mem, m, w.
    - destruct (writer_init_repr n r 1 file m Hm Hn Hr (Hb r Hr)) as (mem & -> & Hm'). eexists mem, _, _. split; [done|]. split; [done|]. split; [done|]. by rewrite insert_insert_eq. }
  pose proof (write_repr n mem m' w s Hm') as Hwrite. rewrite Hwr in Hwrite. specialize (Hwrite Hr). destruct (write w s mem) as [mem' [u|e]] eqn:Ewr.
  2:{ destruct Hwrite as [_ [?|?]]; done. }
  destruct Hwrite as (_ & _ & Hm2). rewrite Em in Hm2. cbn [fmap option_fmap option_map]. rewrite Ewr. cbn [fst].
  destruct (IH (<[r := w]> writers) (Some mem') (<[r := s]> m) Hf Hd Hm2) as (file' & writers' & E & H1 & H2).
  { intros r' w' E. destruct (decide (r' = r)) as [->|Hne]; [rewrite lookup_insert_eq in E; injection E as <-; done|].
    rewrite lookup_insert_ne in E by done. split; [by apply (Hw r' w')|done]. }
  exists file', writers'. split; [exact E|]. split; [|done]. cbn [list_to_map foldr]. rewrite <- insert_union_l.
  rewrite insert_union_r; [done|]. by apply not_elem_of_list_to_map_1.
Qed.

(** ** The properties *)

(** C29: over any writers that start, write, are refused or are killed in the middle
    of a write, a reader gets of each rank the last snapshot that was written, if it
    was written whole, and nothing if the writer was killed in between (until the
    rank is written again): never a mixture of two and never an older one, and a
    killed writer takes nothing from the other ranks. *)
Theorem readers_see_last_whole n file m r : Z.of_nat n < 65536 → shm_reach n file m → reader_ok n r →
  (read_all file r).1 = by_rank n m ∧ ∀ rank, (read rank file r).1 = m !! rank.
Proof.
  intros Hn Hm%reach_repr Hr; [|done]. destruct file as [mem|]; cbn [file_repr] in Hm.
  - split; [by rewrite (read_all_repr n mem m r Hm Hn Hr)|]. intros rank. by apply (read_repr n).
  - subst m. destruct r as [d [k|]]; (split; [unfold by_rank; cbn; by induction (seq 0 n)|]); intros rank; rewrite lookup_empty; unfold read; by destruct (_ || _).
Qed.

(** C30: the loads the controller routes by are those the schedulers published: a
    refresh takes of every rank the requests and tokens of its last whole snapshot,
    keeps its own count of a rank whose snapshot it has seen before or that has none,
    and never fails. *)
Theorem controller_sees_published n file m r now c : Z.of_nat n < 65536 → shm_reach n file m → reader_ok n r →
  budget_len n (dp_budget c) → (2 # 100 <= now - _last_refresh_time c)%Q →
  ∃ c', refresh_load_budget now (read_all file r).1 c = Ok c' ∧ budget_len n (dp_budget c') ∧ _last_refresh_time c' = now ∧
    ∀ i, (i < n)%nat → budget_at (dp_budget c') i = refreshed (dp_budget c) i (m !! Z.of_nat i).
Proof.
  intros Hn Hreach Hr Hb Ht. pose proof (reach_repr n file m Hn Hreach) as Hm.
  assert ((read_all file r).1 = by_rank n m ∧ ∀ k s, m !! k = Some s → 0 ≤ k < Z.of_nat n ∧ dp_rank s = k) as [-> Hranks].
  { destruct file as [mem|]; cbn [file_repr] in Hm.
    - rewrite (read_all_repr n mem m r Hm Hn Hr). split; [done|]. apply (sr_ranks _ _ _ Hm).
    - subst m. split; [|intros k s E; by rewrite lookup_empty in E]. destruct r as [d [k|]]; unfold by_rank; cbn; by induction (seq 0 n). }
  unfold refresh_load_budget. rewrite (proj2 (Qle_bool_iff _ _) Ht). cbn [negb].
  destruct (update_budget_by_rank n m 0 n (dp_budget c) Hb Hranks ltac:(lia)) as (b' & E & Hb' & Hin & _). unfold by_rank. rewrite E. cbn [rbind].
  eexists. split; [done|]. split; [done|]. split; [done|]. intros i Hi. apply Hin. lia.
Qed.

(** C31: with messages instead of writers, draining them leaves in the file, of each
    rank, its last message that decodes and names a rank in range, and what was there
    before of the others; messages that do not decode or name no rank are dropped. *)
Theorem poll_delivers_latest n messages z file m : Z.of_nat n < 65536 → (∀ r, 0 ≤ r < Z.of_nat n → fits (blank r)) →
  (∀ data s, data ∈ messages → decode data = Some s → fits s) → reader_ok n (z_reader z) →
  file_repr n file m → writers_ok n file (_shm_writers z) →
  ∃ file' z', zmq_read_all messages z file = (file', z', Ok (by_rank n (foldl (deliver n) ∅ messages ∪ m))) ∧
    file_repr n file' (foldl (deliver n) ∅ messages ∪ m) ∧ reader_ok n (z_reader z') ∧ writers_ok n file' (_shm_writers z').
Proof.
  intros Hn Hb Hfit Hr Hm Hw. destruct (drain_ok n messages [] Hfit) as [H1 H2]; [constructor|constructor|].
  destruct (write_latest_repr n _ _ _ _ Hn Hb H1 H2 Hm Hw) as (file' & writers' & E & Hm' & Hw').
  rewrite drain_map in Hm'. change (list_to_map []) with (∅ : gmap Z LoadSnapshot) in Hm'.
  unfold zmq_read_all, _poll. rewrite (proj1 Hr), E. cbn [z_reader _shm_writers]. destruct file' as [mem|]; cbn [file_repr] in Hm'.
  - rewrite (read_all_repr n mem _ _ Hm' Hn Hr). eexists _, _. split; [done|]. cbn. split; [done|]. split; [|done]. split; [done|]. by right.
  - rewrite Hm'. destruct z as [[d k] ws]. destruct Hr as [Hd Hk]. cbn in Hd, Hk. subst d.
    exists None, (mkZmqReader (mkReader n k) writers'). split; [|done]. unfold read_all. cbn.
    destruct k; cbn; (replace (by_rank n ∅) with (@nil LoadSnapshot); [done|]); unfold by_rank; by induction (seq 0 n).
Qed.

(** When messages are used, exactly one process of the first node takes them, and
    it is one that runs: the controller exists only with several ranks, the router
    only with several tokenizer workers; elsewhere nobody does. *)
Theorem one_reader_owns d : should_use_zmq d = true → 1 ≤ num_dp_ranks d →
  if node_rank d =? 0 then
    ∃ owner, (∀ caller, zmq_reader_owner d caller = bool_decide (caller = owner)) ∧
      (owner = DataParallelController → 1 < num_dp_ranks d) ∧ (owner = MultiTokenizerRouter → 1 < tokenizer_worker_num d) ∧
      (owner = TokenizerManager → tokenizer_worker_num d ≤ 1)
  else ∀ caller, zmq_reader_owner d caller = false.
Proof.
  intros Hz Hn. unfold zmq_reader_owner. rewrite Hz. cbn [negb]. destruct (node_rank d =? 0); [|done]. cbn [negb].
  destruct ((1 <? num_dp_ranks d) && load_aware d) eqn:E.
  - exists DataParallelController. apply andb_true_iff in E as [?%Z.ltb_lt _]. split; [|split_and!; done]. intros caller. by case_bool_decide.
  - exists (_tokenizer_load_snapshot_owner_caller d). unfold _tokenizer_load_snapshot_owner_caller.
    destruct (1 <? tokenizer_worker_num d) eqn:Et; [apply Z.ltb_lt in Et|apply Z.ltb_ge in Et]; (split; [|split_and!; done]);
      intros caller; destruct caller; done.
Qed.
End theorems.
