(* ===== verification/LoadPublish.v ===== *)
(** * Measuring and sending a load ([scheduler_components/load_inquirer.py],
      [load_publisher.py], [Scheduler.publish_load_snapshot])

    How a scheduler counts its queues into a snapshot, how often it writes one, and
    the gauge it sends to routers outside: at most every so many calls, and again
    only when it changed or a second has passed; and that the last message sent is
    current.

    Floats are rationals. *)
From S2P Require Import Prelude LoadSnapshot LoadShm LoadTheorems.
From stdpp Require Import strings.
From Stdlib Require Import QArith Qround.
Local Open Scope string_scope.
Local Open Scope Z_scope.
Local Open Scope list_scope.

(** ** The snapshot of a scheduler *)

(** [round(x, n)]: to the nearest, to even when halfway. *)
Definition py_round (x : Q) (n : Z) : Q :=
  let y := (x * inject_Z (10 ^ n))%Q in
  let f := Qfloor y in
  let d := (y - inject_Z f)%Q in
  let r := match (d ?= 1 # 2)%Q with Lt => f | Gt => f + 1 | Eq => if Z.even f then f else f + 1 end in
  (inject_Z r / inject_Z (10 ^ n))%Q.

(** [int(x)]: towards zero. *)
Definition py_int (x : Q) : Z := Z.quot (Qnum x) (Z.pos (Qden x)).

Inductive DisaggregationMode := MODE_NULL | PREFILL | DECODE.

(** A request as the loads see it. *)
Record LoadReq := mkLoadReq { seqlen : Z; num_matched_prefix_tokens : Z; prefix_len : Z; waiting_for_input : bool }.

(** What the loads read of the scheduler. *)
Record LoadInputs := mkInputs {
  in_mode : DisaggregationMode;
  in_dp_rank : option Z;
  now_time : Q;
  running : list LoadReq;
  waiting_queue : list LoadReq;
  chunked_req : option LoadReq;
  prefix_matched : bool;
  recent_cache_hit_rate : Q;
  bootstrap_queue : list LoadReq;
  inflight_queue : list LoadReq;
  prealloc_queue : list LoadReq;
  transfer_queue : list LoadReq;
  retracted_queue : list LoadReq;
  kv_used_tokens : Z;
  kv_token_usage : Q;
  in_max_total : Z;
  in_max_running : Z;
  memory_usage : option (Q * Q * Q);
  spec_counts : option (Z * Z);              (* accepted tokens and forward passes, with speculation *)
  spec_accept_rate : Q;
  lora_slots : option (Z * Z * Q);
  st_grammar : Z;
  st_paused : Z;
  st_retracted : Z;
  st_transfer_speed : Q;
  st_transfer_latency : Q;
  st_gen_throughput : Q;
  st_cache_hit_rate : Q;
  st_utilization : Q;
  total_uncached : Z;
  total_busy_us : Z;
  moment_totals : Q * list Q
}.

Definition zlen_q (l : list LoadReq) : Z := zlen l.
Definition tokens (l : list LoadReq) : Z := zsum (seqlen <$> l).

Definition _get_num_pending_tokens (chunk_deduct : Z) (i : LoadInputs) : Z :=
  tokens (waiting_queue i) + match chunked_req i with Some r => seqlen r - prefix_len r - chunk_deduct | None => 0 end.

Definition get_num_waiting_uncached_tokens (i : LoadInputs) : Z :=
  match in_mode i with
  | DECODE => 0
  | _ =>
      let cache_miss_rate := (1 - recent_cache_hit_rate i)%Q in
      zsum ((λ r, if prefix_matched i then 0 `max` (seqlen r - num_matched_prefix_tokens r) else py_int (inject_Z (seqlen r) * cache_miss_rate))
              <$> waiting_queue i)
      + match chunked_req i with Some r => 0 `max` (seqlen r - prefix_len r) | None => 0 end
  end.

Definition waiting_queues (i : LoadInputs) : list (list LoadReq) :=
  waiting_queue i :: match in_mode i with
                     | PREFILL => [bootstrap_queue i]
                     | DECODE => [prealloc_queue i; transfer_queue i; retracted_queue i]
                     | MODE_NULL => []
                     end.
Definition pending_token_queues (i : LoadInputs) : list (list LoadReq) :=
  match in_mode i with
  | PREFILL => [waiting_queue i; bootstrap_queue i]
  | DECODE => [prealloc_queue i; retracted_queue i]
  | MODE_NULL => [waiting_queue i]
  end.
Definition awaiting_kv_tokens (i : LoadInputs) : Z :=
  match in_mode i with DECODE => tokens (prealloc_queue i) + tokens (transfer_queue i) | _ => 0 end.

Definition ready_reqs (i : LoadInputs) : list LoadReq :=
  match in_mode i with DECODE => List.filter waiting_for_input (prealloc_queue i) | _ => [] end.

Definition get_loads (i : LoadInputs) : LoadSnapshot :=
  let num_total_tokens := kv_used_tokens i + zsum (tokens <$> pending_token_queues i) in
  mkLoad (now_time i) (default 0 (in_dp_rank i)) (zlen (running i)) (zsum (zlen_q <$> waiting_queues i)) (get_num_waiting_uncached_tokens i)
    (kv_used_tokens i) num_total_tokens (0 `max` (num_total_tokens - awaiting_kv_tokens i)) (tokens (ready_reqs i)) (in_max_total i) (in_max_running i)
    (py_round (kv_token_usage i) 4) (py_round (st_gen_throughput i) 2) (py_round (st_cache_hit_rate i) 4) (py_round (st_utilization i) 4)
    (total_uncached i) (total_busy_us i)
    (if negb (Qle_bool (moment_totals i).1 0) then Some ((moment_totals i).1 :: (moment_totals i).2) else None)
    ((λ '(w, k, g), mkMemory (py_round w 3) (py_round k 3) (py_round g 3) (in_max_total i)) <$> memory_usage i)
    (match spec_counts i with
     | Some (accepted, forwards) => if 0 <? forwards then Some (mkSpeculative (inject_Z accepted / inject_Z forwards) (spec_accept_rate i)) else None
     | None => None
     end)
    ((λ '(used, total, u), mkLoRA used total u) <$> lora_slots i)
    (Some (match in_mode i with
           | MODE_NULL => mkDisagg "null" 0 0 0 0 0 (st_transfer_speed i) (st_transfer_latency i)
           | PREFILL => mkDisagg "prefill" (zlen (bootstrap_queue i)) (zlen (inflight_queue i)) 0 0 0 (st_transfer_speed i) (st_transfer_latency i)
           | DECODE => mkDisagg "decode" 0 0 (zlen (prealloc_queue i)) (zlen (transfer_queue i)) (zlen (retracted_queue i))
                         (st_transfer_speed i) (st_transfer_latency i)
           end))
    (Some (mkQueues (zlen (waiting_queue i)) (st_grammar i) (st_paused i) (st_retracted i) (zlen (ready_reqs i)))).

(** ** The gauge for routers *)

Record LoadStat := mkStat {
  st_running : Z;
  st_waiting : Z;
  st_tokens : Z;
  st_max_total : Z;
  attn_dp_rank : Z;
  st_waiting_uncached : Z;
  st_total_tokens : Z;
  st_max_running : Z;
  st_prefill_uncached : Z;
  st_prefill_busy_us : Z
}.

Definition Counts : Type := list Z.
Definition counts_of (s : LoadSnapshot) : Counts :=
  [num_running_reqs s; num_waiting_reqs s; num_used_tokens s; max_total_num_tokens s; num_waiting_uncached_tokens s; num_total_tokens s;
   max_running_requests s; total_prefill_uncached_tokens s; total_prefill_busy_us s].

Record Publisher := mkPublisher {
  p_socket : bool;
  p_rank : Z;
  p_seq : Z;
  p_counter : Z;
  p_interval : Z;
  _last_counts : option Counts;
  _last_publish_ts : Q;
  _publish_failed : bool
}.
Definition publisher_new (socket : bool) (rank interval : Z) : Publisher := mkPublisher socket rank 0 0 (1 `max` interval) None 0 false.

Definition LOAD_PUBLISH_HEARTBEAT_S : Q := 1.

Definition stat_of (rank : Z) (s : LoadSnapshot) : LoadStat :=
  mkStat (num_running_reqs s) (num_waiting_reqs s) (num_used_tokens s) (max_total_num_tokens s) rank (num_waiting_uncached_tokens s)
    (num_total_tokens s) (max_running_requests s) (total_prefill_uncached_tokens s) (total_prefill_busy_us s).

Definition set_p (seq counter : Z) (last : option Counts) (ts : Q) (failed : bool) (p : Publisher) : Publisher :=
  mkPublisher (p_socket p) (p_rank p) seq counter (p_interval p) last ts failed.

(** [publish_load_stat]: the message that is sent, with its number.  [load] is what
    the caller computed or the provider returns; [send] is the socket's answer. *)
Definition publish_load_stat (force : bool) (now : Q) (load : result LoadSnapshot) (send : result unit) (p : Publisher) :
    option (Z * LoadStat) * Publisher :=
  if negb (p_socket p) then (None, p)
  else
    let counter := p_counter p + 1 in
    if negb force && (counter <? p_interval p) then (None, set_p (p_seq p) counter (_last_counts p) (_last_publish_ts p) (_publish_failed p) p)
    else
      match load with
      | Raise _ => (None, set_p (p_seq p) 0 (_last_counts p) (_last_publish_ts p) true p)
      | Ok load =>
          if bool_decide (_last_counts p = Some (counts_of load)) && negb (Qle_bool LOAD_PUBLISH_HEARTBEAT_S (now - _last_publish_ts p))
          then (None, set_p (p_seq p) 0 (_last_counts p) (_last_publish_ts p) (_publish_failed p) p)
          else
            match send with
            | Raise _ => (None, set_p (p_seq p + 1) 0 (_last_counts p) (_last_publish_ts p) true p)
            | Ok _ => (Some (p_seq p, stat_of (p_rank p) load), set_p (p_seq p + 1) 0 (Some (counts_of load)) now false p)
            end
      end.

(** ** The counts of a snapshot *)

Definition sized (l : list LoadReq) : Prop := Forall (λ r, 0 ≤ seqlen r) l.

Lemma tokens_nonneg l : sized l → 0 ≤ tokens l.
Proof. intros Hl. apply zsum_nonneg. apply Forall_fmap. exact Hl. Qed.
Lemma tokens_filter f l : sized l → tokens (List.filter f l) ≤ tokens l.
Proof.
  unfold tokens. induction 1 as [|r l Hr Hl IH]; [done|]. cbn. destruct (f r); unfold zsum in *; cbn; lia.
Qed.
Lemma zlen_filter {A} f (l : list A) : 0 ≤ zlen (List.filter f l) ≤ zlen l.
Proof. unfold zlen. pose proof (List.filter_length_le f l). lia. Qed.

Lemma py_int_share n x : 0 ≤ n → (0 <= x <= 1)%Q → 0 ≤ py_int (inject_Z n * x) ≤ n.
Proof.
  intros Hn [Hx1 Hx2]. unfold py_int. destruct x as [p q]. cbn. unfold Qle in *. cbn in *. rewrite Z.quot_div_nonneg by lia.
  split; [apply Z.div_pos; lia|]. apply Z.div_le_upper_bound; nia.
Qed.

(** What a scheduler reports is consistent, in every mode of disaggregation: the
    tokens in use are part of the total, those still awaiting their KV are taken off
    at most once, the uncached tokens are at most those that wait, the requests ready
    for preallocation are among those that wait, and the queues add up. *)
Theorem loads_consistent i : 0 ≤ kv_used_tokens i → (0 <= recent_cache_hit_rate i <= 1)%Q →
  sized (waiting_queue i) → sized (bootstrap_queue i) → sized (prealloc_queue i) → sized (transfer_queue i) → sized (retracted_queue i) →
  Forall (λ r, 0 ≤ num_matched_prefix_tokens r) (waiting_queue i) → (∀ r, chunked_req i = Some r → 0 ≤ prefix_len r ≤ seqlen r) →
  let s := get_loads i in
  num_used_tokens s ≤ num_total_tokens s ∧ 0 ≤ num_active_tokens s ≤ num_total_tokens s ∧
  0 ≤ num_waiting_uncached_tokens s ≤ _get_num_pending_tokens 0 i ∧
  0 ≤ num_prealloc_ready_tokens s ≤ num_total_tokens s - num_used_tokens s ∧
  (∃ q, ld_queues s = Some q ∧ 0 ≤ q_waiting q ≤ num_waiting_reqs s ∧ 0 ≤ q_prealloc_ready q ≤ num_waiting_reqs s) ∧
  (in_mode i = DECODE → num_used_tokens s - tokens (transfer_queue i) ≤ num_active_tokens s).
Proof.
  intros Hu Hh Hw Hb Hp Ht Hr Hmatch Hc s.
  pose proof (tokens_nonneg _ Hw). pose proof (tokens_nonneg _ Hb). pose proof (tokens_nonneg _ Hp). pose proof (tokens_nonneg _ Ht). pose proof (tokens_nonneg _ Hr).
  pose proof (tokens_filter waiting_for_input _ Hp) as Hf1. pose proof (zlen_filter waiting_for_input (prealloc_queue i)) as Hf2.
  assert (0 ≤ tokens (List.filter waiting_for_input (prealloc_queue i))) as Hf3.
  { apply tokens_nonneg. unfold sized in *. apply Forall_forall. intros x [Hx _]%list_elem_of_In%filter_In. apply list_elem_of_In in Hx. rewrite Forall_forall in Hp. by apply Hp. }
  assert (0 ≤ get_num_waiting_uncached_tokens i ≤ _get_num_pending_tokens 0 i) as Hpend.
  { unfold get_num_waiting_uncached_tokens, _get_num_pending_tokens.
    assert (0 ≤ match chunked_req i with Some r => seqlen r - prefix_len r - 0 | None => 0 end ∧
      match chunked_req i with Some r => 0 `max` (seqlen r - prefix_len r) | None => 0 end =
      match chunked_req i with Some r => seqlen r - prefix_len r - 0 | None => 0 end) as [Hc0 Hc1].
    { destruct (chunked_req i) as [r|]; [pose proof (Hc r eq_refl); lia|lia]. }
    assert (∀ f, Forall (λ r, 0 ≤ f r ≤ seqlen r) (waiting_queue i) → 0 ≤ zsum (f <$> waiting_queue i) ≤ tokens (waiting_queue i)) as Hsum.
    { intros f. unfold tokens, zsum. clear. induction 1; cbn; lia. }
    assert (0 ≤ zsum ((λ r, if prefix_matched i then 0 `max` (seqlen r - num_matched_prefix_tokens r)
      else py_int (inject_Z (seqlen r) * (1 - recent_cache_hit_rate i))) <$> waiting_queue i) ≤ tokens (waiting_queue i)) as Hs2.
    { apply Hsum. unfold sized in Hw. rewrite Forall_forall in Hw, Hmatch |- *. intros r Hin. pose proof (Hw r Hin). pose proof (Hmatch r Hin).
      destruct (prefix_matched i); [lia|]. apply py_int_share; [done|]. destruct Hh as [Hh1 Hh2].
      split; [apply Qle_minus_iff in Hh2; exact Hh2|]. apply Qle_minus_iff. ring_simplify. exact Hh1. }
    rewrite Hc1. destruct (in_mode i); lia. }
  unfold s, get_loads. cbn [num_used_tokens num_total_tokens num_active_tokens num_waiting_uncached_tokens num_prealloc_ready_tokens ld_queues num_waiting_reqs].
  unfold waiting_queues, pending_token_queues, awaiting_kv_tokens, ready_reqs.
  split_and!; try lia; try (destruct (in_mode i); cbn; unfold zsum, zlen_q in *; cbn; unfold zlen in *; lia).
  eexists. split; [done|]. cbn [q_waiting q_prealloc_ready]. destruct (in_mode i); unfold zsum, zlen_q, zlen in *; cbn; lia.
Qed.

(** ** The gauge over many calls *)

Record Call := mkCall { c_force : bool; c_now : Q; c_load : result LoadSnapshot; c_send : result unit }.

(** The messages sent so far, each with the time it was sent at. *)
Definition publish_call (x : list (Q * (Z * LoadStat)) * Publisher) (c : Call) : list (Q * (Z * LoadStat)) * Publisher :=
  let '(msg, p) := publish_load_stat (c_force c) (c_now c) (c_load c) (c_send c) x.2 in
  (x.1 ++ match msg with Some m => [(c_now c, m)] | None => [] end, p).
Definition run_publish (calls : list Call) (p : Publisher) : list (Q * (Z * LoadStat)) * Publisher := foldl publish_call ([], p) calls.

(** The counts a message carries. *)
Definition stat_counts (s : LoadStat) : Counts :=
  [st_running s; st_waiting s; st_tokens s; st_max_total s; st_waiting_uncached s; st_total_tokens s; st_max_running s; st_prefill_uncached s; st_prefill_busy_us s].

Lemma stat_counts_of rank s : stat_counts (stat_of rank s) = counts_of s.
Proof. done. Qed.

(** Two messages in a row: numbered in order, and not the same within a second. *)
Definition follows (a b : Q * (Z * LoadStat)) : Prop :=
  a.2.1 < b.2.1 ∧ (stat_counts a.2.2 = stat_counts b.2.2 → (LOAD_PUBLISH_HEARTBEAT_S <= b.1 - a.1)%Q).

(** What the publisher remembers of the messages. *)
Record sent_ok (sent : list (Q * (Z * LoadStat))) (p : Publisher) : Prop := {
  so_last : match last sent with
            | None => _last_counts p = None
            | Some x => _last_counts p = Some (stat_counts x.2.2) ∧ _last_publish_ts p = x.1 ∧ x.2.1 < p_seq p
            end;
  so_follow : ∀ i a b, sent !! i = Some a → sent !! S i = Some b → follows a b
}.

(** What a call leaves alone. *)
Definition kept (p p' : Publisher) : Prop :=
  _last_counts p' = _last_counts p ∧ _last_publish_ts p' = _last_publish_ts p ∧ p_seq p ≤ p_seq p'.

Lemma sent_kept sent p p' : sent_ok sent p → kept p p' → sent_ok (sent ++ []) p'.
Proof.
  intros [H1 H2] (E1 & E2 & E3). rewrite app_nil_r. split; [|done]. rewrite E1, E2. destruct (last sent); [|done]. split_and!; try apply H1. destruct H1 as (_ & _ & ?). lia.
Qed.

Lemma publish_call_cases force now load send p :
  match publish_load_stat force now load send p with
  | (None, p') => kept p p'
  | (Some m, p') => ∃ s, load = Ok s ∧ m = (p_seq p, stat_of (p_rank p) s) ∧ p_seq p' = p_seq p + 1 ∧
      _last_counts p' = Some (counts_of s) ∧ _last_publish_ts p' = now ∧
      (_last_counts p = Some (counts_of s) → (LOAD_PUBLISH_HEARTBEAT_S <= now - _last_publish_ts p)%Q)
  end.
Proof.
  unfold publish_load_stat, kept. destruct (p_socket p); [|by split_and!]. cbn [negb].
  destruct (negb force && _); [by split_and!|]. destruct load as [s|]; [|by split_and!].
  destruct (bool_decide (_last_counts p = Some (counts_of s))) eqn:Eb, (Qle_bool LOAD_PUBLISH_HEARTBEAT_S (now - _last_publish_ts p)) eqn:Eq;
    cbn [negb andb]; try (by split_and!); destruct send; cbn; try (split_and!; [done|done|lia]); exists s; split_and!; try done;
    try (intros _; by apply Qle_bool_iff); intros E; by apply bool_decide_eq_false in Eb.
Qed.

Lemma publish_call_ok sent p c : sent_ok sent p → sent_ok (publish_call (sent, p) c).1 (publish_call (sent, p) c).2.
Proof.
  intros Hs. unfold publish_call. cbn [fst snd]. pose proof (publish_call_cases (c_force c) (c_now c) (c_load c) (c_send c) p) as Hc.
  destruct (publish_load_stat _ _ _ _ p) as [[m|] p']; cbn [fst snd]; [|by eapply sent_kept].
  destruct Hc as (s & _ & -> & E1 & E2 & E3 & Hsame). destruct Hs as [Hl Hf]. split.
  - rewrite last_snoc. cbn. rewrite stat_counts_of. split_and!; [done|done|lia].
  - intros i a b Ha Hb. destruct (decide (S i < length sent)%nat) as [Hi|Hi].
    { rewrite lookup_app_l in Ha, Hb by lia. by eapply Hf. }
    assert (S i = length sent) as Ei. { apply lookup_lt_Some in Hb. rewrite length_app in Hb. cbn in Hb. lia. }
    rewrite Ei, list_lookup_middle in Hb by done. injection Hb as <-. rewrite lookup_app_l in Ha by lia.
    rewrite last_lookup in Hl. replace (Nat.pred (length sent)) with i in Hl by lia. rewrite Ha in Hl. destruct Hl as (L1 & L2 & L3).
    split; cbn; [done|]. rewrite stat_counts_of. intros E. rewrite <- L2. apply Hsame. by rewrite L1, E.
Qed.

Lemma run_publish_ok calls p : _last_counts p = None → sent_ok (run_publish calls p).1 (run_publish calls p).2.
Proof.
  intros Hp. unfold run_publish. assert (∀ x, sent_ok x.1 x.2 → sent_ok (foldl publish_call x calls).1 (foldl publish_call x calls).2) as Hrun.
  { induction calls as [|c calls IH]; intros [sent p0] Hx; [done|]. cbn [foldl]. apply IH. by apply publish_call_ok. }
  apply Hrun. split; [done|]. intros i a b Ha. by destruct i.
Qed.

(** The socket stays. *)
Lemma publish_socket force now load send p : p_socket (publish_load_stat force now load send p).2 = p_socket p.
Proof. unfold publish_load_stat. by repeat case_match. Qed.
Lemma run_socket calls x : p_socket (foldl publish_call x calls).2 = p_socket x.2.
Proof.
  revert x. induction calls as [|c calls IH]; intros x; [done|]. cbn [foldl]. rewrite IH. unfold publish_call.
  pose proof (publish_socket (c_force c) (c_now c) (c_load c) (c_send c) x.2) as E. by destruct (publish_load_stat _ _ _ _ _).
Qed.

(** ** Writing every so many calls *)

Section write.
Context `{SnapshotCodec}.

(** Unforced calls in a row, with the snapshot of each; what was published. *)
Fixpoint run_calls (loads : list LoadSnapshot) (w : Writer) (mem : list Z) : list LoadSnapshot * Writer * list Z :=
  match loads with
  | [] => ([], w, mem)
  | s :: loads =>
      let '(o, w, mem) := publish_load_snapshot false (Ok s) w mem in
      let '(l, w, mem) := run_calls loads w mem in
      (match o with Some s => [s] | None => [] end ++ l, w, mem)
  end.

(** One call: the counter goes round. *)
Lemma publish_once n mem m w s : shm_repr n mem m → 0 ≤ w_dp_rank w < Z.of_nat n → fits s → dp_rank s = w_dp_rank w →
  0 ≤ publish_counter w < publish_interval w →
  let w' := with_publish_counter ((publish_counter w + 1) mod publish_interval w) w in
  let pub := publish_counter w + 1 =? publish_interval w in
  ∃ mem', publish_load_snapshot false (Ok s) w mem = (if pub then Some s else None, w', mem') ∧
    shm_repr n mem' (if pub then <[w_dp_rank w := s]> m else m).
Proof.
  intros Hm Hr Hf Hd Hc. unfold publish_load_snapshot. cbn [negb andb publish_counter publish_interval with_publish_counter].
  destruct (publish_counter w + 1 =? publish_interval w) eqn:E.
  - apply Z.eqb_eq in E. rewrite E, Z.ltb_irrefl, Z_mod_same_full.
    set (w0 := with_publish_counter 0 _). pose proof (write_repr n mem m w0 s Hm Hr) as Hw. destruct (write w0 s mem) as [mem' [u|e]].
    + exists mem'. split; [done|]. apply Hw.
    + exfalso. destruct Hw as [_ [?|?]]; done.
  - apply Z.eqb_neq in E. rewrite (proj2 (Z.ltb_lt _ _)) by lia. rewrite Z.mod_small by lia. by exists mem.
Qed.

Lemma div_shift a n b : 0 < b → 0 ≤ a < b → 0 ≤ n → (if a + 1 =? b then 1 else 0) + ((a + 1) mod b + n) / b = (a + (n + 1)) / b.
Proof.
  intros Hb Ha Hn. destruct (a + 1 =? b) eqn:E.
  - apply Z.eqb_eq in E. rewrite E, Z_mod_same_full, Z.add_0_l. replace (a + (n + 1)) with (n + 1 * b) by lia. rewrite Z.div_add by lia. lia.
  - apply Z.eqb_neq in E. rewrite Z.mod_small, Z.add_0_l by lia. f_equal. lia.
Qed.

(** Of any calls in a row, one in [publish_interval] writes, counted from the
    last write on, and the reader's file then stands for the map with those
    snapshots; the others change nothing. *)
Theorem written_every_interval n loads mem m w : shm_repr n mem m → 0 ≤ w_dp_rank w < Z.of_nat n →
  0 ≤ publish_counter w < publish_interval w → Forall (λ s, fits s ∧ dp_rank s = w_dp_rank w) loads →
  ∃ written w' mem', run_calls loads w mem = (written, w', mem') ∧
    zlen written = (publish_counter w + zlen loads) / publish_interval w ∧ sublist written loads ∧
    publish_counter w' = (publish_counter w + zlen loads) mod publish_interval w ∧
    shm_repr n mem' (foldl (λ m s, <[w_dp_rank w := s]> m) m written).
Proof.
  intros Hm Hr Hc Hl. revert mem m w Hm Hr Hc Hl. induction loads as [|s loads IH]; intros mem m w Hm Hr Hc Hl.
  { exists [], w, mem. change (zlen (@nil LoadSnapshot)) with 0. rewrite Z.add_0_r, Z.div_small, Z.mod_small by done. split_and!; done. }
  apply Forall_cons in Hl as [[Hf Hd] Hl]. destruct (publish_once n mem m w s Hm Hr Hf Hd Hc) as (mem1 & E1 & Hm1).
  set (pub := publish_counter w + 1 =? publish_interval w) in *. set (w1 := with_publish_counter _ w) in *.
  assert (0 ≤ publish_counter w1 < publish_interval w1) as Hc1 by (cbn; apply Z.mod_pos_bound; lia).
  destruct (IH mem1 _ w1 Hm1 Hr Hc1 Hl) as (written & w' & mem' & E & Hn & Hs & Hk & Hm').
  exists ((if pub then [s] else []) ++ written), w', mem'. split.
  { cbn [run_calls]. rewrite E1, E. by destruct pub. }
  assert (zlen (s :: loads) = zlen loads + 1) as Ez by (unfold zlen; cbn [length]; lia).
  assert (0 ≤ zlen loads) as Hz by (unfold zlen; lia).
  split; [|split; [|split]].
  - rewrite Ez, <- div_shift by lia. change (publish_counter w1) with ((publish_counter w + 1) mod publish_interval w) in Hn.
    change (publish_interval w1) with (publish_interval w) in Hn. rewrite <- Hn. unfold zlen. fold pub. destruct pub; cbn [app length]; lia.
  - destruct pub; cbn [app]; by constructor.
  - rewrite Hk, Ez. cbn [w1 publish_counter publish_interval with_publish_counter]. rewrite Z.add_mod_idemp_l by lia. f_equal. lia.
  - destruct pub; exact Hm'.
Qed.
End write.

(** ** The properties of the gauge *)

(** Of the messages a publisher sends to routers, each has a higher number than
    the one before and differs from it unless a second has passed; and after a call
    that is forced or reaches the interval, with a load that could be read and a
    socket that takes it, the last message sent carries that load: leaving out what
    did not change never hides a change. *)
Theorem gauge_is_current rank interval calls c load : c_load c = Ok load → c_send c = Ok tt →
  let before := run_publish calls (publisher_new true rank interval) in
  let after := run_publish (calls ++ [c]) (publisher_new true rank interval) in
  (∀ i a b, after.1 !! i = Some a → after.1 !! S i = Some b → follows a b) ∧
  (c_force c = true ∨ p_interval before.2 ≤ p_counter before.2 + 1 → (λ x, stat_counts x.2.2) <$> last after.1 = Some (counts_of load)).
Proof.
  intros Hl Hsd before after. split.
  { apply (so_follow _ after.2). by apply run_publish_ok. }
  intros Hpass. pose proof (run_publish_ok calls (publisher_new true rank interval) eq_refl) as [Hlast _]. fold before in Hlast.
  assert (p_socket before.2 = true) as Hsock.
  { unfold before, run_publish. by rewrite run_socket. }
  unfold after, run_publish. rewrite foldl_app. fold (run_publish calls (publisher_new true rank interval)). fold before. cbn [foldl].
  unfold publish_call, publish_load_stat. rewrite Hsock, Hl, Hsd. cbn [negb].
  replace (negb (c_force c) && (p_counter before.2 + 1 <? p_interval before.2)) with false.
  2:{ symmetry. apply andb_false_iff. destruct Hpass as [->|Hp]; [by left|]. right. apply Z.ltb_ge. lia. }
  destruct (bool_decide (_last_counts before.2 = Some (counts_of load))) eqn:Eb, (Qle_bool _ _); cbn [negb andb fst snd];
    try (rewrite last_snoc; done).
  rewrite app_nil_r. apply bool_decide_eq_true in Eb. destruct (last before.1) as [x|]; [|congruence]. destruct Hlast as (E & _). cbn. congruence.
Qed.
