(* ===== verification/LoadCases.v ===== *)
(** * Loads of a small deployment

    Two schedulers that publish, a controller that reads, a router that listens.  The
    theorems of LoadTheorems.v hold for any codec that gives back what it was given;
    they are tried on one that writes the fields of a snapshot as numbers, one after
    another, in bits. *)
From S2P Require Import Prelude LoadSnapshot LoadShm LoadTheorems LoadPublish DpController.
From stdpp Require Import countable strings.
From Stdlib Require Import QArith.
Local Open Scope Z_scope.

(** ** Numbers as bits *)

Fixpoint pos_bits (p : positive) : list Z := match p with xH => [1] | xO p => 0 :: pos_bits p | xI p => 1 :: pos_bits p end.
Fixpoint bits_pos (l : list Z) : option positive :=
  match l with
  | [] => None
  | [b] => if b =? 1 then Some xH else None
  | b :: l => p ← bits_pos l; Some (if b =? 1 then xI p else xO p)
  end.

Lemma pos_bits_some p : pos_bits p ≠ [].
Proof. by destruct p. Qed.
Lemma bits_pos_bits p : bits_pos (pos_bits p) = Some p.
Proof.
  induction p as [p IH|p IH|]; cbn; [..|done]; destruct (pos_bits p) eqn:E; (by destruct (pos_bits_some p)) || by rewrite IH.
Qed.

(** ** Fields as numbers *)

#[global] Instance Q_dec : EqDecision Q.
Proof. solve_decision. Defined.
#[global] Instance Q_countable : Countable Q.
Proof. by refine (inj_countable' (λ q, (Qnum q, Qden q)) (λ x, Qmake x.1 x.2) _); intros []. Defined.

#[global] Instance MemoryMetrics_dec : EqDecision MemoryMetrics.
Proof. solve_decision. Defined.
#[global] Instance MemoryMetrics_countable : Countable MemoryMetrics.
Proof. by refine (inj_countable' (λ m, (weight_gb m, kv_cache_gb m, graph_gb m, token_capacity m)) (λ '(a, b, c, d), mkMemory a b c d) _); intros []. Defined.

#[global] Instance SpeculativeMetrics_dec : EqDecision SpeculativeMetrics.
Proof. solve_decision. Defined.
#[global] Instance SpeculativeMetrics_countable : Countable SpeculativeMetrics.
Proof. by refine (inj_countable' (λ m, (accept_length m, accept_rate m)) (λ '(a, b), mkSpeculative a b) _); intros []. Defined.

#[global] Instance LoRAMetrics_dec : EqDecision LoRAMetrics.
Proof. solve_decision. Defined.
#[global] Instance LoRAMetrics_countable : Countable LoRAMetrics.
Proof. by refine (inj_countable' (λ m, (slots_used m, slots_total m, lora_utilization m)) (λ '(a, b, c), mkLoRA a b c) _); intros []. Defined.

#[global] Instance DisaggregationMetrics_dec : EqDecision DisaggregationMetrics.
Proof. solve_decision. Defined.
#[global] Instance DisaggregationMetrics_countable : Countable DisaggregationMetrics.
Proof.
  by refine (inj_countable' (λ m, (dg_mode m, [prefill_bootstrap_queue_reqs m; prefill_inflight_queue_reqs m; decode_prealloc_queue_reqs m;
    decode_transfer_queue_reqs m; decode_retracted_queue_reqs m], kv_transfer_speed_gb_s m, kv_transfer_latency_ms m))
    (λ '(a, l, x, y), mkDisagg a (nth 0 l 0) (nth 1 l 0) (nth 2 l 0) (nth 3 l 0) (nth 4 l 0) x y) _); intros [].
Defined.

#[global] Instance QueueMetrics_dec : EqDecision QueueMetrics.
Proof. solve_decision. Defined.
#[global] Instance QueueMetrics_countable : Countable QueueMetrics.
Proof.
  by refine (inj_countable' (λ m, [q_waiting m; q_grammar m; q_paused m; q_retracted m; q_prealloc_ready m])
    (λ l, mkQueues (nth 0 l 0) (nth 1 l 0) (nth 2 l 0) (nth 3 l 0) (nth 4 l 0)) _); intros [].
Defined.

(** ** Snapshots *)

Definition fields (s : LoadSnapshot) : list positive :=
  [countable.encode (timestamp s);
   countable.encode [dp_rank s; num_running_reqs s; num_waiting_reqs s; num_waiting_uncached_tokens s; num_used_tokens s; num_total_tokens s;
     num_active_tokens s; num_prealloc_ready_tokens s; max_total_num_tokens s; max_running_requests s; total_prefill_uncached_tokens s; total_prefill_busy_us s];
   countable.encode [token_usage s; gen_throughput s; cache_hit_rate s; utilization s];
   countable.encode (decode_moments s); countable.encode (ld_memory s); countable.encode (ld_speculative s); countable.encode (ld_lora s);
   countable.encode (ld_disaggregation s); countable.encode (ld_queues s)].

Definition of_fields (l : list positive) : option LoadSnapshot :=
  match l with
  | [t; z; q; d; m; sp; lo; di; qu] =>
      t ← countable.decode t; z ← countable.decode z; q ← countable.decode q; d ← countable.decode d; m ← countable.decode m;
      sp ← countable.decode sp; lo ← countable.decode lo; di ← countable.decode di; qu ← countable.decode qu;
      match z, q with
      | [z1; z2; z3; z4; z5; z6; z7; z8; z9; z10; z11; z12], [q1; q2; q3; q4] =>
          Some (mkLoad t z1 z2 z3 z4 z5 z6 z7 z8 z9 z10 q1 q2 q3 q4 z11 z12 d m sp lo di qu)
      | _, _ => None
      end
  | _ => None
  end.

Lemma of_fields_fields s : of_fields (fields s) = Some s.
Proof. unfold of_fields, fields. rewrite !countable.decode_encode. by destruct s. Qed.

#[global] Instance bit_codec : SnapshotCodec.
Proof.
  refine {| LoadSnapshot.encode s := pos_bits (positives_flatten (fields s)); LoadSnapshot.decode l := p ← bits_pos l; l ← positives_unflatten p; of_fields l |}.
  - intros s. rewrite bits_pos_bits. cbn [mbind option_bind]. rewrite positives_unflatten_flatten. cbn [mbind option_bind]. apply of_fields_fields.
  - intros s. apply pos_bits_some.
Defined.

(** ** A deployment *)

(** A snapshot with the counts that matter to routing. *)
Definition shot (t : Q) (rank run wait toks : Z) : LoadSnapshot :=
  mkLoad t rank run wait 0 toks toks toks 0 1000 8 0 0 0 0 0 0 None None None None None None.

Definition fits_bool (s : LoadSnapshot) : bool := zlen (LoadSnapshot.encode s) <=? 16380.
Lemma fits_bool_ok s : fits_bool s = true → fits s.
Proof. unfold fits_bool, fits, zlen. intros E%Z.leb_le. pose proof slot_size_val. unfold SLOT_LEN. lia. Qed.

Definition w0 : Writer := mkWriter 1 0 2 0.
Definition w1 : Writer := mkWriter 1 0 2 1.

Definition mem0 : list Z := default [] (writer_init 2 0 1 None).1.
Definition mem1 : list Z := default [] (writer_init 2 1 1 (Some mem0)).1.
Definition mem2 : list Z := (write w0 (shot 1 0 3 2 70) mem1).1.
Definition mem3 : list Z := (write w1 (shot 1 1 1 0 20) mem2).1.
(** The second scheduler is killed when it has copied nine bytes of its next payload. *)
Definition mem4 : list Z := (run_stores (cut 1 9 (payload_stores 1 (LoadSnapshot.encode (shot 2 1 5 5 90)))) mem3).1.

(** Its successor writes again. *)
Definition mem5 : list Z := (write w1 (shot 3 1 2 2 40) mem4).1.

Definition seen3 : gmap Z LoadSnapshot := <[1 := shot 1 1 1 0 20]> (<[0 := shot 1 0 3 2 70]> (<[1 := blank 1]> (<[0 := blank 0]> ∅))).

Lemma two_small : Z.of_nat 2 < 65536.
Proof. done. Qed.

Lemma loads_reach3 : shm_reach 2 (Some mem3) seen3.
Proof.
  apply reach_write_some; [done| |done|by apply fits_bool_ok; vm_compute|done].
  apply (reach_write_some 2 mem1 _ w0); [done| |done|by apply fits_bool_ok; vm_compute|done].
  apply (reach_start_some 2 (Some mem0)); [done| |done|by apply fits_bool_ok; vm_compute].
  apply (reach_start_some 2 None); [done|constructor|done|by apply fits_bool_ok; vm_compute].
Qed.

(** After the kill: the first rank is read, the second is not. *)
Lemma loads_reach4 : shm_reach 2 (Some mem4) (delete 1 seen3).
Proof. refine (reach_killed 2 mem3 seen3 w1 (shot 2 1 5 5 90) 1 9 loads_reach3 _ _ _); [done|by apply fits_bool_ok; vm_compute|done]. Qed.

Lemma loads_reach5 : shm_reach 2 (Some mem5) (<[1 := shot 3 1 2 2 40]> (delete 1 seen3)).
Proof. apply (reach_write_some 2 mem4 _ w1); [done|apply loads_reach4|done|by apply fits_bool_ok; vm_compute|done]. Qed.

Lemma readers_see_last_whole_witness : (read_all (Some mem4) (reader_new 2)).1 = [shot 1 0 3 2 70] ∧
  (read 1 (Some mem4) (reader_new 2)).1 = None ∧ (read_all (Some mem3) (reader_new 2)).1 = [shot 1 0 3 2 70; shot 1 1 1 0 20] ∧
  (read_all (Some mem5) (reader_new 2)).1 = [shot 1 0 3 2 70; shot 3 1 2 2 40].
Proof.
  destruct (readers_see_last_whole 2 (Some mem4) _ (reader_new 2) two_small loads_reach4) as [E4 F4]; [by split; [|left]|].
  destruct (readers_see_last_whole 2 (Some mem3) _ (reader_new 2) two_small loads_reach3) as [E3 _]; [by split; [|left]|].
  destruct (readers_see_last_whole 2 (Some mem5) _ (reader_new 2) two_small loads_reach5) as [E5 _]; [by split; [|left]|].
  rewrite E4, (F4 1), E3, E5. split; [reflexivity|]. split; [reflexivity|]. split; reflexivity.
Defined.

Definition idle : Controller := controller_init 2 2 [true; true].

(** The controller has counted nothing; then the loads are those published, and of
    the killed scheduler those it had. *)
Lemma controller_sees_published_witness : ∃ c', refresh_load_budget 1 (read_all (Some mem4) (reader_new 2)).1 idle = Ok c' ∧
  budget_at (dp_budget c') 0 = (Some 5, Some 70, Some 1%Q) ∧ budget_at (dp_budget c') 1 = (Some 0, Some 0, Some 0%Q).
Proof.
  destruct (controller_sees_published 2 (Some mem4) _ (reader_new 2) 1 idle two_small loads_reach4) as (c' & E & _ & _ & Hat).
  - by split; [|left].
  - done.
  - by vm_compute.
  - exists c'. split; [exact E|]. rewrite !Hat by lia. split; reflexivity.
Defined.

(** Messages of both ranks, the second twice, and one that is no snapshot. *)
Definition letters : list (list Z) := [LoadSnapshot.encode (shot 1 1 1 0 20); [7]; LoadSnapshot.encode (shot 1 0 3 2 70); LoadSnapshot.encode (shot 2 1 5 5 90)].

Lemma poll_delivers_latest_witness : ∃ file' z',
  zmq_read_all letters (mkZmqReader (reader_new 2) ∅) None = (file', z', Ok [shot 1 0 3 2 70; shot 2 1 5 5 90]).
Proof.
  destruct (poll_delivers_latest 2 letters (mkZmqReader (reader_new 2) ∅) None ∅ two_small) as (file' & z' & E & _).
  - intros r Hr. assert (r = 0 ∨ r = 1) as [->| ->] by lia; apply fits_bool_ok; by vm_compute.
  - intros data s Hd. unfold letters in Hd. rewrite !elem_of_cons in Hd.
    destruct Hd as [->|[->|[->|[->|Hd%elem_of_nil]]]]; [| | | |done]; rewrite ?LoadSnapshot.decode_encode; try (by vm_compute);
      intros [= <-]; apply fits_bool_ok; by vm_compute.
  - by split; [|left].
  - done.
  - intros r w Ew. change ((∅ : gmap Z Writer) !! r = Some w) in Ew. by rewrite lookup_empty in Ew.
  - exists file', z'. rewrite E. reflexivity.
Defined.

(** Two nodes with attention data parallelism, routing by tokens. *)
Definition deployment (method : string) (workers : Z) : Deployment := mkDeployment true 2 false 0 2 method workers.

Lemma one_reader_owns_witness : (∀ caller, zmq_reader_owner (deployment "TOTAL_TOKENS" 1) caller = bool_decide (caller = DataParallelController)) ∧
  zmq_reader_owner (deployment "round_robin" 4) MultiTokenizerRouter = true.
Proof.
  split; [|reflexivity]. destruct (one_reader_owns (deployment "TOTAL_TOKENS" 1)) as (owner & Ho & _); [reflexivity|done|].
  assert (owner = DataParallelController) as ->; [|exact Ho].
  pose proof (Ho DataParallelController) as E. by vm_compute in E; destruct owner.
Defined.

(** A decoding server: three requests wait for memory, one of them ready, one for its KV. *)
Definition lreq (n : Z) (ready : bool) : LoadReq := mkLoadReq n 0 0 ready.
Definition decoder : LoadInputs :=
  mkInputs DECODE (Some 1) 5 [lreq 10 false] [] None true 0 [] [] [lreq 30 true; lreq 40 false] [lreq 7 false] [lreq 5 false] 17 0 1000 8
    None None 0 None 0 0 0 0 0 0 0 0 0 0 (0%Q, []).

Lemma loads_consistent_witness : let s := get_loads decoder in
  num_waiting_reqs s = 4 ∧ num_total_tokens s = 92 ∧ num_active_tokens s = 15 ∧ num_prealloc_ready_tokens s = 30 ∧
  num_prealloc_ready_tokens s ≤ num_total_tokens s - num_used_tokens s.
Proof.
  intros s. split; [reflexivity|]. split; [reflexivity|]. split; [reflexivity|]. split; [reflexivity|].
  apply (loads_consistent decoder); try (by repeat constructor); try (by vm_compute).
Defined.

(** Every third call writes. *)
Definition w3 : Writer := mkWriter 3 1 2 0.
Lemma written_every_interval_witness : ∃ written w' mem',
  run_calls [shot 3 0 1 0 1; shot 4 0 2 0 2; shot 5 0 3 0 3; shot 6 0 4 0 4; shot 7 0 5 0 5] w3 mem3 = (written, w', mem') ∧ zlen written = 2 ∧ publish_counter w' = 0.
Proof.
  destruct (written_every_interval 2 [shot 3 0 1 0 1; shot 4 0 2 0 2; shot 5 0 3 0 3; shot 6 0 4 0 4; shot 7 0 5 0 5] mem3 seen3 w3) as (wr & w' & mem' & E & Hn & _ & Hk & _).
  - apply (reach_repr 2 (Some mem3) seen3 two_small loads_reach3).
  - done.
  - done.
  - repeat (apply Forall_cons_2; [split; [by apply fits_bool_ok; vm_compute|reflexivity]|]). constructor.
  - exists wr, w', mem'. split; [exact E|]. rewrite Hn, Hk. split; reflexivity.
Defined.

(** A load that changes is sent at once; one that does not waits for its second. *)
Definition calls : list Call :=
  [mkCall true 1 (Ok (shot 1 0 3 2 70)) (Ok tt); mkCall true (11 # 10) (Ok (shot 2 0 3 2 70)) (Ok tt); mkCall true (12 # 10) (Ok (shot 3 0 4 2 75)) (Ok tt)].
Lemma gauge_is_current_witness : (λ x, stat_counts x.2.2) <$> last (run_publish (calls ++ [mkCall true (13 # 10) (Ok (shot 4 0 4 2 75)) (Ok tt)]) (publisher_new true 0 5)).1 =
  Some (counts_of (shot 4 0 4 2 75)) ∧ length (run_publish (calls ++ [mkCall true (13 # 10) (Ok (shot 4 0 4 2 75)) (Ok tt)]) (publisher_new true 0 5)).1 = 2%nat.
Proof.
  split; [|reflexivity].
  apply (gauge_is_current 0 5 calls (mkCall true (13 # 10) (Ok (shot 4 0 4 2 75)) (Ok tt)) (shot 4 0 4 2 75)); [reflexivity|reflexivity|by left].
Defined.
